(* ===== verification/_CoqProject ===== *)
-Q . S2P
Prelude.v
GoText.v
GoFloat.v
GoBase64.v
Effects.v
KubeApps.v
KubeDrain.v
Wake.v
Version.v
Plan.v
RecordStore.v
Jobs.v
JobsSafety.v
JobsRuns.v
Gate.v
Transport.v
NodeActions.v
Throttle.v
StreamHub.v
Confirm.v
Redact.v
ConfigDiff.v
PlanGuard.v
Drift.v
DriftSafety.v
Power.v
PowerService.v
PowerSteps.v
Walk.v
PowerWorld.v
PowerTouch.v
PowerSafety.v
UpgradeCalls.v
Etcd.v
UpgradeVerify.v
Upgrade.v
UpgradeService.v
UpgradeWorld.v
UpgradeTalos.v
UpgradeKube.v
UpgradeRemoval.v
UpgradeRequests.v
UpgradePlanning.v
RotateCA.v
RotatePasses.v
RotateWalk.v
RotateSafety.v
AuditRecord.v
AuditRedact.v
Migrate.v
MigrateSafety.v
RestoreSafety.v
AuditLog.v
AuditLogSafety.v
AuditQuery.v
History.v
HistoryFile.v
Sampler.v
SamplerCharts.v
Auth.v
AuthSafety.v
HttpGates.v
HttpSafety.v
Routes.v
