(* ===== verification/Prelude.v ===== *)
(** * holzkube-manager: a verification development (root file)

    holzkube-manager is a daemon that manages Kubernetes clusters on Talos Linux
    nodes: it plans and runs upgrades as persisted jobs, applies machine
    configurations and watches for their drift, and talks to every node under a
    policy of deadlines, retries and circuit breakers. This library models the
    parts of it that decide something, as executable definitions, and proves what
    they promise. Paths are under [src/].

    ** The parts and the files

    - [Prelude.v] (this file): results, times and durations, the string functions
      of Go's standard library the program uses, tactics and the rewrite database
      [go_bool].
    - [GoText.v]: numbers, floats' texts and JSON literals as Go prints and reads
      them, for the audit records.
    - [GoFloat.v]: [float64] and [float32] arithmetic and conversions, for the
      history.
    - [Effects.v]: programs over a family of calls, their runs against a list of
      choices of the environment, and the rules ([wp]) to reason about every run.
    - [Version.v]: [internal/talos/version.go] and [internal/compat/compat.go]; the
      supported Talos window and the matrix of Talos and Kubernetes versions.
    - [Plan.v]: [internal/upgrade/plan.go]; versions and their order, upgrade
      chains, the release list, the check that a Talos upgrade does not strand the
      Kubernetes of the cluster.
    - [RecordStore.v]: [internal/store/fsstore]; one file per record under a safe
      key, with a compare-and-swap on the revision. The class [Record] is what the
      store asks of a record type; the jobs and the configuration baselines are
      its instances.
    - [Jobs.v], [JobsSafety.v], [JobsRuns.v]: [internal/jobs/jobs.go] and
      [internal/model/job.go]; the engine that runs steps, persists every
      transition, leases a cluster to one job and resumes after a crash. A function
      of the engine is a program over the operations other goroutines interleave
      with; [World] holds the disk, the leases, the running set and the
      goroutines, and a run is a list of labels, one operation of one goroutine
      each. A crash keeps the disk only.
    - [Gate.v]: [internal/upgrade/gate.go]; whether the next node of a rolling
      upgrade may be taken down.
    - [Transport.v]: [internal/talos/deadline.go], [errors.go], [retry.go],
      [breaker.go] and the call paths of [client.go].
    - [Throttle.v]: [internal/auth/ratelimit.go]; the delay after failed logins.
    - [StreamHub.v]: [internal/streamhub/streamhub.go]; rings of events and the
      subscribers that fall behind.
    - [Confirm.v]: [internal/jobs/confirm.go]; confirmation tokens.
    - [Redact.v]: [internal/machineconfig/redact.go] and [snapshot.go]; what may
      leave the package of a node's configuration. The class [Machinery] holds
      what is not in the repository: the Talos configuration library, the YAML
      library and SHA-256.
    - [ConfigDiff.v]: [internal/machineconfig/diff.go] and [applymode.go]; which
      settings differ and which apply mode that needs.
    - [PlanGuard.v]: [internal/machineconfig/patch.go], [sinceplan.go] and
      [service.go]; plan and apply, in concurrent requests ([step]). The class
      [Patcher] is the Talos patcher and validator.
    - [Drift.v], [DriftSafety.v]: [internal/configdrift] and its records in
      [internal/model]; the baseline of every node and the table of what a reading
      means. The operations are a state monad over the service and an oracle that
      stands for the nodes, the clock, the failures of the store and the other
      goroutines.
    - [NodeActions.v]: [internal/jobs/nodeactions.go]; reboot, shutdown and reset
      as steps of jobs, with the questions that make them safe to resume.
    - [KubeApps.v], [KubeDrain.v]: of [internal/kube], stopping and starting
      workloads ([startstop.go], [apppower.go]), nodes, cordoning and draining
      ([drain.go]). The class [ApiServer] is what the API server promises of a
      merge patch.
    - [Wake.v]: [internal/power/wol.go]; Wake-on-LAN.
    - [Power.v], [PowerService.v], [PowerSteps.v]: [internal/power]; which of seven
      verbs is offered on a node, a cluster and an app ([rules.go]), the requests
      ([service.go], [app.go]), and the steps of the fourteen jobs and the keeper
      of disabled nodes ([steps.go], [keeper.go]). [PowerWorld.v] is the world they
      run in, with the theorems of the requests; [PowerTouch.v] what a job may
      touch of it (node objects, pods, records, network cards), as a charter that
      every program of its steps keeps to; [PowerSafety.v] what no job can do.
    - [Walk.v]: how a job goes through its steps with crashes and resumptions, as a
      step relation over any family of calls; a class ([Deeds]) says what of its
      calls is done to the outside.
    - [Etcd.v], [UpgradeVerify.v]: [internal/upgrade/etcd.go] and [verify.go];
      etcd's members and whether one can be spared, and what an upgraded node must
      report.
    - [UpgradeCalls.v], [Upgrade.v], [UpgradeService.v]: [internal/upgrade]; the
      calls to nodes, inventory and Kubernetes, the steps of the rolling upgrades
      and of the removal of a node ([job.go], [removejob.go]), and the plans, the
      request and the check for updates ([service.go], [check.go]).
    - [UpgradeWorld.v]: the world those run in, a log of calls and answers;
      [UpgradeTalos.v], [UpgradeKube.v], [UpgradeRemoval.v]: what the three jobs
      can do; [UpgradePlanning.v], [UpgradeRequests.v]: what a plan shows, and
      that the job does what was shown.
    - [RotateCA.v], [RotatePasses.v], [RotateWalk.v], [RotateSafety.v]:
      [internal/rotateca] and [internal/inventory/rotate.go]; the rotation of a
      cluster's certificate authority as a job of four passes, what each pass does
      to a node's configuration, and that the cluster stays in touch throughout.
      The class [CALib] is the parsing of certificates and YAML. [GoBase64.v] is
      [encoding/base64].
    - [AuditRecord.v], [AuditRedact.v], [AuditLog.v], [AuditLogSafety.v],
      [AuditQuery.v]: [internal/audit] and the audit middleware; canonical records
      and their hash chain, what of a request may be recorded, the log files with
      rotation and crashes, and the paged queries.
    - [History.v], [HistoryFile.v], [Sampler.v], [SamplerCharts.v]:
      [internal/history]; the rings of samples and the charts drawn from them
      ([history.go]), the file they are kept in ([persist.go]), the rounds of
      reads that fill them ([sampler.go]), and what of it all survives starts and
      crashes. The class [Gzip] is the compression.
    - [Migrate.v], [MigrateSafety.v], [RestoreSafety.v]: [internal/store/migrate];
      the migrations of the data directory, its backups and their restore
      ([migrate.go], [backup/backup.go], [backup/restore.go]), as programs over the
      operations of a file system, with every failure and a stop after any of
      them. The class [TarGz] is the archive format and the printing of times.
    - [Auth.v], [AuthSafety.v]: [internal/auth] and the accounts of
      [internal/model/model.go]; sessions, passwords, tokens, roles, identities at
      a provider and links of wall screens, and who a session or a token is for.
      The class [AuthLib] is argon2id, SHA-256 and the session manager.
    - [HttpGates.v], [HttpSafety.v], [Routes.v]: [internal/httpapi]; the chain of
      gates in front of every handler ([router.go], [middleware]), what a handler's
      turn rests on, and the table of routes of the program ([handlers],
      [cmd/holzkube-managerd/main.go]). The class [HttpLib] is the parsing of media
      types and URLs.

    How they interact: the upgrade code asks [Plan.v] for the chain, submits the
    steps to [Jobs.v], and each step asks [Gate.v] first; the engine keeps its
    records in [RecordStore.v] and publishes to [StreamHub.v]; a request that
    starts a job carries a token of [Confirm.v]. An apply goes through
    [PlanGuard.v], which reads, redacts and digests with [Redact.v] and names what
    changed with [ConfigDiff.v]; the observer of [Drift.v] hears of it before and
    after it is sent. Every call to a node passes [Transport.v]. The power service
    reads records of [RecordStore.v], asks [Gate.v] before it takes a control-plane
    node, and submits jobs whose steps are those of [NodeActions.v], [KubeDrain.v]
    and [Wake.v], carried out by the engine of [Jobs.v]. The upgrade jobs patch
    configurations with [PlanGuard.v], choose the apply mode with [ConfigDiff.v]
    and ask [Etcd.v] before a node leaves. The rotation of an authority patches with
    [PlanGuard.v] as well, keeps its place in the secrets of [RecordStore.v] and is
    carried out by the engine. Every request passes the gates of
    [HttpGates.v], which ask [Auth.v] who it is from and record it, as far as it
    changes something, through the audit middleware of [AuditRedact.v] in the log of
    [AuditLog.v].

    ** What the theorems show

    Over every interleaving, crash and restart: one mutating job per cluster, a
    step that cannot be checked started at most once, a cancel request never
    overwritten ([JobsSafety.v]); a runner that ends with every step done
    ([JobsRuns.v]). No lost update in the store. Chains that exist exactly when
    they should, pass through every minor in order and stay in the matrix; version
    parsing round-trips. A gate that keeps a quorum. No call without a class or a
    deadline, bounded retries, one trial per cooldown. No event lost without being
    counted. A token bound to one intent. No private key out of [Redact], on any
    way; a complete comparison of configurations; a mode that never calls a
    reboot-only change harmless. No apply over a state nobody looked at, and one
    staged configuration at a time. A power verb that is offered exactly where the
    request accepts it, a careful stop that never passes etcd's gate, a rolling
    restart of one node at a time, a cluster taken in the order of its walk, a
    workload that has its size again after any interrupted stop, a drain that moves
    exactly the pods it may and names the others. An upgrade that
    installs on a control-plane node only after the gate let it go, on a node that
    was not locked, and one node at a time; a Kubernetes upgrade that takes its
    components in order; a removal that wipes a node only after etcd let it go with
    a majority of other machines answering; a job that is exactly the plan that was shown. A rotation of the authority
    after which only the new one is left, and during which every node accepts every
    node and this installation, wherever it stops. An audit log that
    holds what it acknowledged, whose chain seals its past, and that shows no
    parameter off the allowlist. Charts that show exactly what was read, over
    restarts and crashes and any interleaving of the reads, and a file that is
    harmless whatever it holds. A drift verdict that always agrees with the
    record on disk, a deviation that stays open until somebody ends it, an own
    apply that is never reported, a confirmation of exactly what was seen. A session
    that is somebody's only by a sign-in, for one lifetime, and a token that is good
    for its own account only; an admin that remains, while operations on accounts come
    one at a time. No handler runs but past every gate, and in the program's table of
    routes nothing that changes or destroys is without one. A data directory that
    keeps every record over any number of interrupted migrations and has them all in
    a backup before anything changes; a restore that writes nowhere else, and not
    before what was there is backed up; a backup that gives everything back. The
    closed runs in the files ([Example]) show corners where the code does
    something else than its comments say.

    ** Conventions, bounds and fuel

    A [time.Time] is a number of nanoseconds since the year 1, so that [IsZero] is
    [= 0]; [time.Duration] is 64 bits wide and [Sub] saturates. Revisions and the
    claim numbers wrap at 64 bits. Strings are bytes, and letters change case in
    ASCII only ([to_lower], [equal_fold]), where Go folds Unicode: host names and user
    names beyond ASCII are outside the model. A Go map is a [gmap]; where
    the order of its walk can show, the order is a parameter. Recursions that are
    not structural carry fuel that a lemma shows to be enough: the length of the
    text for trimming and for the sweep ([sweep_fuel]), the height of a value for
    the walk of a diff ([walk_fuel]), the number of entries for the memo of plans
    ([shrink_ok]), the number of migrations for their plan ([plan_ends]); a restore
    reads at most [fuel] entries of an archive, for every [fuel]. Loops of the code with a bound of their own (three attempts on a
    conflict, three attempts of a call) have that bound. A wait that polls until a
    deadline looks at most [fuel] times, and a theorem about it holds for every
    [fuel]; a run that is out of fuel ends without a result, like a crash. Other loops of the code
    end by structural recursion on the list they walk.

    What the program calls and does not contain is a parameter: the gRPC calls, the
    Talos and YAML libraries, HMAC and SHA-256, [strconv.Quote], the clock, random
    draws, the file system's answers. Theorems that need something of a parameter
    say so; none assumes that a hash has no collisions.

    ** What is not modelled

    Dialling, TLS (of a connection the rotation knows whose certificate is accepted
    by whom), the parsing of certificates, the handlers of HTTP requests (decoding a body, calling a part
    that is modelled, rendering its answer), JSON encodings, the views of the
    Kubernetes client, the image factory, the inventory's observation of hardware,
    provisioning, host telemetry, the simulators and the web interface: they move
    data to and from libraries and decide little by themselves. Of
    [internal/upgrade], the snapshots of etcd, which copy streams to files. Of
    [internal/auth], the calibration of argon2id's cost and of the middleware the
    token bucket of anonymous requests, which are floating point (a call here), and
    the exchange with an identity provider, which is its library's. Texts that quote a
    string with [%q] carry it unescaped. *)

From stdpp Require Export base gmap sets list strings option numbers pretty.
From stdpp Require Export sorting.
From Stdlib Require Export ZArith Lia Ascii.
#[global] Open Scope string_scope.
#[global] Open Scope list_scope.
#[global] Open Scope nat_scope.

#[global] Set Default Goal Selector "!".

(* ------------------------------------------------------------------ *)
(** ** Results *)

(** A Go function that returns [(T, error)]: a value or an error. *)
Inductive result (E A : Type) : Type :=
  | Ok (a : A)
  | Err (e : E).
Arguments Ok {E A} a.
Arguments Err {E A} e.

#[global] Instance result_ret {E} : MRet (result E) := fun A a => Ok a.
#[global] Instance result_bind {E} : MBind (result E) := fun A B f r =>
  match r with
  | Ok a => f a
  | Err e => Err e
  end.

Definition is_ok {E A} (r : result E A) : bool :=
  match r with Ok _ => true | Err _ => false end.

(* ------------------------------------------------------------------ *)
(** ** Time

    A [time.Time] is its distance in nanoseconds from the zero [Time]
    (year 1), so that [IsZero] is [= 0]; the monotonic reading is not
    modelled. A [time.Duration] is a signed 64-bit count of nanoseconds,
    and [Time.Sub] saturates at its ends instead of wrapping. *)

Abbreviation time := Z (only parsing).
Abbreviation duration := Z (only parsing).

Definition max_int64 : Z := 9223372036854775807.
Definition min_int64 : Z := -9223372036854775808.

Definition in_int64 (z : Z) : bool := bool_decide (min_int64 ≤ z)%Z && bool_decide (z ≤ max_int64)%Z.

Definition clamp64 (z : Z) : Z := Z.max min_int64 (Z.min z max_int64).

(** [t.Sub(u)]. *)
Definition time_sub (t u : time) : duration := clamp64 (t - u).

Definition zero_time : time := 0%Z.
Definition is_zero (t : time) : bool := bool_decide (t = zero_time).

Definition millisecond : duration := 1000000%Z.
Definition second : duration := 1000000000%Z.
Definition minute : duration := (60 * second)%Z.
Definition hour : duration := (60 * minute)%Z.

(** [time.Unix(s, 0)]: the Unix epoch is 62135596800 seconds after the zero
    time. *)
Definition unix_epoch_seconds : Z := 62135596800%Z.
Definition time_unix (s : Z) : time := ((s + unix_epoch_seconds) * second)%Z.
(** [t.Unix()]. *)
Definition unix_of (t : time) : Z := (t / second - unix_epoch_seconds)%Z.

(** A delay that doubles [n] times and stops at a ceiling: the loop of both
    back-off policies. *)
Fixpoint double_up (ceiling : duration) (n : nat) (d : duration) : duration :=
  match n with
  | O => d
  | S n' => if bool_decide (d >= ceiling)%Z then ceiling else double_up ceiling n' (d * 2)
  end.

Lemma double_up_spec ceiling n d :
  (0 < d)%Z -> Z.min (double_up ceiling n d) ceiling = Z.min (d * 2 ^ Z.of_nat n) ceiling.
Proof.
  revert d. induction n as [|n IH]; intros d Hd; cbn [double_up]; [by rewrite Z.mul_1_r|].
  rewrite Nat2Z.inj_succ, Z.pow_succ_r by lia. case_bool_decide.
  - assert (1 <= 2 ^ Z.of_nat n)%Z by (apply (Z.pow_le_mono_r 2 0); lia). rewrite !Z.min_r; nia.
  - rewrite IH by lia. f_equal. ring.
Qed.

(** Every value on the way is below twice the ceiling: nothing can overflow. *)
Lemma double_up_bound ceiling n d :
  (0 < d < 2 * ceiling)%Z -> (0 < double_up ceiling n d < 2 * ceiling)%Z.
Proof.
  revert d. induction n as [|n IH]; intros d Hd; cbn [double_up]; [done|]. case_bool_decide; [lia|]. apply IH. lia.
Qed.

Lemma time_sub_lt (t u d : Z) :
  (0 < d)%Z -> (d <= max_int64)%Z -> (time_sub t u < d <-> t - u < d)%Z.
Proof. unfold time_sub, clamp64, max_int64, min_int64. lia. Qed.

Lemma lt_time_sub (t u d : Z) : (0 <= d)%Z -> (d < time_sub t u)%Z -> (d < t - u)%Z.
Proof. unfold time_sub, clamp64, max_int64, min_int64. lia. Qed.

Lemma time_sub_nonneg (t u : Z) : (u <= t)%Z -> (0 <= time_sub t u)%Z.
Proof. unfold time_sub, clamp64, max_int64, min_int64. lia. Qed.

Lemma time_sub_small (t u : Z) :
  (0 <= t - u)%Z -> (t - u <= max_int64)%Z -> time_sub t u = (t - u)%Z.
Proof. unfold time_sub, clamp64, max_int64, min_int64. lia. Qed.

(* ------------------------------------------------------------------ *)
(** ** Strings

    A Go string is its bytes; Rocq's [string] is a list of 8-bit
    characters. The functions of the standard library the program uses. *)

Definition chr (n : nat) : Ascii.ascii := Ascii.ascii_of_nat n.
Definition str1 (c : Ascii.ascii) : string := String c EmptyString.

Fixpoint string_rev_app (s acc : string) : string :=
  match s with
  | EmptyString => acc
  | String c s' => string_rev_app s' (String c acc)
  end.
Definition string_rev (s : string) : string := string_rev_app s EmptyString.

(** [strings.CutPrefix]: the rest after the prefix, when it is there. *)
Fixpoint cut_prefix (p s : string) : option string :=
  match p, s with
  | EmptyString, _ => Some s
  | String a p', String b s' => if Ascii.eqb a b then cut_prefix p' s' else None
  | String _ _, EmptyString => None
  end.

(** [strings.TrimPrefix]. *)
Definition trim_prefix (s p : string) : string :=
  match cut_prefix p s with Some r => r | None => s end.

(** [strings.Cut] at a one-byte separator: the part before its first
    occurrence and the part after it, if there is one. *)
Fixpoint cut_at (sep : Ascii.ascii) (s : string) : string * option string :=
  match s with
  | EmptyString => (EmptyString, None)
  | String c s' =>
      if Ascii.eqb c sep then (EmptyString, Some s')
      else let '(a, b) := cut_at sep s' in (String c a, b)
  end.

(** [strings.Split] at a one-byte separator. *)
Fixpoint split_on (sep : Ascii.ascii) (s : string) : list string :=
  match s with
  | EmptyString => [EmptyString]
  | String c s' =>
      if Ascii.eqb c sep then EmptyString :: split_on sep s'
      else match split_on sep s' with
           | h :: t => String c h :: t
           | [] => [str1 c]
           end
  end.

(** [strings.SplitN(s, sep, n)] for [n > 0]: at most [n] parts. *)
Fixpoint split_n (sep : Ascii.ascii) (n : nat) (s : string) : list string :=
  match n with
  | O => []
  | S O => [s]
  | S n' => match cut_at sep s with
            | (a, None) => [a]
            | (a, Some b) => a :: split_n sep n' b
            end
  end.

(** [strings.Join]. *)
Fixpoint join (sep : string) (l : list string) : string :=
  match l with
  | [] => ""
  | [a] => a
  | a :: l' => a +:+ sep +:+ join sep l'
  end.

(** [strings.TrimSpace] trims the runes of [unicode.IsSpace]; these are their
    UTF-8 encodings. *)
Definition bytes_str (l : list nat) : string := foldr (fun n s => String (chr n) s) EmptyString l.
Definition space_runes : list string :=
  map bytes_str
    ([[9]; [10]; [11]; [12]; [13]; [32]; [194; 133]; [194; 160]; [225; 154; 128];
      [226; 128; 168]; [226; 128; 169]; [226; 128; 175]; [226; 129; 159]; [227; 128; 128]]
     ++ map (fun k => [226; 128; 128 + k]) (seq 0 11)).

Fixpoint strip_one (spaces : list string) (s : string) : option string :=
  match spaces with
  | [] => None
  | p :: rest => match cut_prefix p s with
                 | Some r => Some r
                 | None => strip_one rest s
                 end
  end.

Fixpoint trim_left_fuel (fuel : nat) (spaces : list string) (s : string) : string :=
  match fuel with
  | O => s
  | S f => match strip_one spaces s with
           | Some r => trim_left_fuel f spaces r
           | None => s
           end
  end.

(** Every round strips at least one byte, so the length is enough fuel. *)
Definition trim_space (s : string) : string :=
  let l := trim_left_fuel (String.length s) space_runes s in
  string_rev (trim_left_fuel (String.length l) (map string_rev space_runes) (string_rev l)).

(** The spaces [Sscanf] skips: not a line feed. *)
Definition inline_spaces : list string := filter (fun r => r <> bytes_str [10]) space_runes.

(** [strconv.Atoi]/[ParseInt(_, 10, 64)]: an optional sign, at least one
    decimal digit and nothing else, in the range of an int64. *)
Definition digit_of (c : Ascii.ascii) : option Z :=
  let n := Z.of_nat (Ascii.nat_of_ascii c) in
  if bool_decide (48 ≤ n ≤ 57)%Z then Some (n - 48)%Z else None.

Fixpoint digits_acc (s : string) (acc : Z) : option Z :=
  match s with
  | EmptyString => Some acc
  | String c s' => match digit_of c with
                   | Some d => digits_acc s' (10 * acc + d)%Z
                   | None => None
                   end
  end.

Definition digits (s : string) : option Z :=
  match s with EmptyString => None | _ => digits_acc s 0 end.

Definition atoi (s : string) : option Z :=
  let parsed :=
    match s with
    | String c s' =>
        if Ascii.eqb c "-"%char then Z.opp <$> digits s'
        else if Ascii.eqb c "+"%char then digits s'
        else digits s
    | EmptyString => None
    end in
  match parsed with
  | Some z => if in_int64 z then Some z else None
  | None => None
  end.

(** [%d] of an integer. *)
Definition itoa (z : Z) : string := pretty z.

(** [<] on Go strings: the order of the bytes. *)
Definition str_lt (a b : string) : bool := String.ltb a b.

(** [strings.ToLower] and [strings.EqualFold] on ASCII letters, which are all that
    change case here; Go folds the rest of Unicode as well. The program compares
    host names and user names with them. *)
Definition lower_ascii (c : Ascii.ascii) : Ascii.ascii :=
  let n := Ascii.nat_of_ascii c in
  if bool_decide (65 ≤ n ≤ 90) then chr (n + 32) else c.
Fixpoint to_lower (s : string) : string :=
  match s with
  | EmptyString => EmptyString
  | String c s' => String (lower_ascii c) (to_lower s')
  end.
Definition equal_fold (a b : string) : bool := bool_decide (to_lower a = to_lower b).

(** [sort.Strings]. *)
Definition str_le (a b : string) : Prop := str_lt b a = false.
#[global] Instance str_le_dec : RelDecision str_le.
Proof. intros a b. unfold str_le. apply _. Defined.
Definition sort_strings (l : list string) : list string := merge_sort str_le l.

(** [%x] of a uint64: lower-case hexadecimal digits without leading zeros;
    sixteen digits are enough. *)
Definition hex_digit (d : Z) : ascii :=
  if bool_decide (d < 10)%Z then chr (48 + Z.to_nat d) else chr (87 + Z.to_nat d).
Fixpoint hex_fuel (fuel : nat) (z : Z) (acc : string) : string :=
  match fuel with
  | O => acc
  | S f => let acc := String (hex_digit (z mod 16)) acc in
           if bool_decide (z / 16 = 0)%Z then acc else hex_fuel f (z / 16) acc
  end.
Definition hex (z : Z) : string := hex_fuel 16 z "".

(* ------------------------------------------------------------------ *)
(** ** Lemmas on strings *)

Lemma ascii_compare_lt_trans (a b c : ascii) :
  Ascii.compare a b = Lt -> Ascii.compare b c = Lt -> Ascii.compare a c = Lt.
Proof. unfold Ascii.compare. rewrite !N.compare_lt_iff. lia. Qed.

Lemma ascii_compare_eq (a b : ascii) : Ascii.compare a b = Eq -> a = b.
Proof.
  unfold Ascii.compare. rewrite N.compare_eq_iff. intros H.
  rewrite <- (ascii_N_embedding a), <- (ascii_N_embedding b). by f_equal.
Qed.

Lemma ascii_compare_refl (a : ascii) : Ascii.compare a a = Eq.
Proof. unfold Ascii.compare. apply N.compare_refl. Qed.

Lemma str_lt_irrefl (a : string) : str_lt a a = false.
Proof.
  unfold str_lt, String.ltb. induction a as [|c a IH]; cbn; [done|]. by rewrite ascii_compare_refl.
Qed.

Lemma str_lt_trans (a b c : string) : str_lt a b = true -> str_lt b c = true -> str_lt a c = true.
Proof.
  unfold str_lt, String.ltb. revert b c.
  induction a as [|x a IH]; intros [|y b] [|z c]; cbn; try done.
  destruct (Ascii.compare x y) eqn:Hxy; [apply ascii_compare_eq in Hxy as ->| |done].
  - destruct (Ascii.compare y z) eqn:Hyz; try done. apply IH.
  - intros _. destruct (Ascii.compare y z) eqn:Hyz; [apply ascii_compare_eq in Hyz as <-| |done].
    + by rewrite Hxy.
    + by rewrite (ascii_compare_lt_trans _ _ _ Hxy Hyz).
Qed.

Lemma str_lt_total (a b : string) : a = b \/ str_lt a b = true \/ str_lt b a = true.
Proof.
  unfold str_lt, String.ltb. rewrite (String.compare_antisym b a).
  destruct (String.compare a b) eqn:H; cbn; auto. left. by apply String.compare_eq_iff.
Qed.

(** The order of strings is total; sorting distinct strings is strict. *)
Lemma str_le_trans_inst : Transitive str_le.
Proof.
  intros a b c Hab Hbc. unfold str_le in *. destruct (str_lt c a) eqn:E; [|done].
  destruct (str_lt_total b a) as [-> | [H|H]]; [congruence|congruence|].
  rewrite (str_lt_trans c a b) in Hbc; [done|done|done].
Qed.
#[global] Existing Instance str_le_trans_inst.
Lemma str_le_total_inst : Total str_le.
Proof.
  intros a b. unfold str_le. destruct (str_lt_total a b) as [-> | [H|H]]; [left; apply str_lt_irrefl| |].
  - left. destruct (str_lt b a) eqn:E; [|done]. pose proof (str_lt_trans _ _ _ H E). by rewrite str_lt_irrefl in *.
  - right. destruct (str_lt a b) eqn:E; [|done]. pose proof (str_lt_trans _ _ _ H E). by rewrite str_lt_irrefl in *.
Qed.
#[global] Existing Instance str_le_total_inst.
Lemma str_le_antisym_inst : AntiSymm (=) str_le.
Proof. intros a b. unfold str_le. destruct (str_lt_total a b) as [-> | [H|H]]; congruence. Qed.
#[global] Existing Instance str_le_antisym_inst.

Definition strict (a b : string) : Prop := str_lt a b = true.
#[global] Instance strict_trans : Transitive strict.
Proof. intros a b c. apply str_lt_trans. Qed.
Lemma strict_not_le a b : str_le a b -> a <> b -> strict a b.
Proof. unfold str_le, strict. destruct (str_lt_total a b) as [|[]]; [done|done|congruence]. Qed.

Lemma sort_strings_strict l : NoDup l -> StronglySorted strict (sort_strings l).
Proof.
  intros H. assert (NoDup (sort_strings l)) as Hnd by (unfold sort_strings; by rewrite merge_sort_Permutation).
  pose proof (StronglySorted_merge_sort str_le l) as Hs. fold (sort_strings l) in Hs.
  induction Hs as [|a l' _ IH Ha]; constructor.
  - apply IH. by inversion Hnd.
  - inversion Hnd as [|?? Hn _]; subst. rewrite Forall_forall in Ha |- *. intros b Hb. apply strict_not_le; [by apply Ha|].
    by intros ->.
Qed.

(** Every character of a string satisfies a test. *)
Fixpoint str_all (P : ascii -> bool) (s : string) : bool :=
  match s with
  | EmptyString => true
  | String c s' => P c && str_all P s'
  end.

Definition is_digit (c : ascii) : bool := bool_decide (48 ≤ nat_of_ascii c ≤ 57).

Lemma str_app_cons c (a b : string) : String c a +:+ b = String c (a +:+ b).
Proof. done. Qed.
Lemma str_app_nil (b : string) : "" +:+ b = b.
Proof. done. Qed.

#[global] Instance str_app_assoc : Assoc (=) String.append.
Proof. intros a b c. induction a as [|x a IH]; [done|]. rewrite !str_app_cons. by rewrite IH. Qed.
#[global] Instance str_app_nil_r : RightId (=) "" String.append.
Proof. intros a. induction a as [|x a IH]; [done|]. rewrite !str_app_cons. by rewrite IH. Qed.

Lemma str_app_inj_l (a x y : string) : a +:+ x = a +:+ y -> x = y.
Proof. induction a as [|c a IH]; [done|]. rewrite !str_app_cons. intros [= H]. by apply IH. Qed.

Lemma cut_prefix_Some p s r : cut_prefix p s = Some r <-> s = p +:+ r.
Proof.
  revert s. induction p as [|c p IH]; intros s; cbn [cut_prefix]; [rewrite str_app_nil; naive_solver|].
  rewrite str_app_cons. destruct s as [|d s]; [done|]. destruct (Ascii.eqb_spec c d) as [<-|Hne].
  - rewrite IH. split; congruence.
  - split; [done|]. congruence.
Qed.

Lemma cut_prefix_app p s : cut_prefix p (p +:+ s) = Some s.
Proof. by apply cut_prefix_Some. Qed.

Lemma str_all_app P (a b : string) : str_all P (a +:+ b) = str_all P a && str_all P b.
Proof.
  induction a as [|c a IH]; [done|]. rewrite str_app_cons. cbn.
  by rewrite IH, andb_assoc.
Qed.

Lemma pretty_N_go_digits (x : N) (s : string) : str_all is_digit s = true -> str_all is_digit (pretty_N_go x s) = true.
Proof.
  revert s. induction (N.lt_wf_0 x) as [x _ IH]. intros s Hs.
  destruct (decide (0 < x)%N) as [Hx|Hx].
  - rewrite pretty_N_go_step by done. apply IH; [apply N.div_lt; lia|].
    cbn. rewrite Hs, andb_true_r.
    assert (x `mod` 10 < 10)%N as Hm by (apply N.mod_upper_bound; lia).
    destruct (x `mod` 10)%N as [|p]; [done|].
    repeat (destruct p; try done; try lia).
  - assert (x = 0%N) as -> by lia. by rewrite pretty_N_go_0.
Qed.

Lemma digits_acc_pretty_N_go (x : N) (s : string) :
  digits_acc (pretty_N_go x s) 0 = digits_acc s (Z.of_N x).
Proof.
  revert s. induction (N.lt_wf_0 x) as [x _ IH]. intros s.
  destruct (decide (0 < x)%N) as [Hx|Hx].
  - rewrite pretty_N_go_step by done. rewrite IH by (apply N.div_lt; lia). cbn [digits_acc].
    assert (digit_of (pretty_N_char (x `mod` 10)) = Some (Z.of_N (x `mod` 10))) as ->.
    { assert (x `mod` 10 < 10)%N as Hm by (apply N.mod_upper_bound; lia).
      destruct (x `mod` 10)%N as [|p]; [done|]. repeat (destruct p; try done; try lia). }
    f_equal. rewrite N2Z.inj_div, N2Z.inj_mod. change (Z.of_N 10) with 10%Z.
    pose proof (Z.div_mod (Z.of_N x) 10). lia.
  - assert (x = 0%N) as -> by lia. by rewrite pretty_N_go_0.
Qed.

(** Decimal rendering of a natural number: its digits, read back. *)
Lemma itoa_digits (z : Z) : (0 <= z)%Z -> str_all is_digit (itoa z) = true.
Proof.
  intros Hz. unfold itoa. destruct z as [|p|p]; [done| |lia].
  change (pretty (Z.pos p)) with (pretty (N.pos p)).
  unfold pretty, pretty_N. rewrite decide_False by lia. by apply pretty_N_go_digits.
Qed.

Lemma itoa_digits_acc (z : Z) : (0 <= z)%Z -> digits_acc (itoa z) 0 = Some z.
Proof.
  intros Hz. unfold itoa. destruct z as [|p|p]; [done| |lia].
  change (pretty (Z.pos p)) with (pretty (N.pos p)).
  unfold pretty, pretty_N. rewrite decide_False by lia. by rewrite digits_acc_pretty_N_go.
Qed.

Lemma itoa_nonempty (z : Z) : (0 <= z)%Z -> itoa z <> "".
Proof.
  intros Hz H. destruct (decide (z = 0)%Z) as [->|Hne]; [done|].
  pose proof (itoa_digits_acc z Hz) as Hd. rewrite H in Hd. cbn in Hd. congruence.
Qed.

Lemma str_all_impl (P Q : ascii -> bool) s :
  (forall c, P c = true -> Q c = true) -> str_all P s = true -> str_all Q s = true.
Proof. intros HPQ. induction s as [|c s IH]; cbn; [done|]. rewrite !andb_true_iff. intros [??]; auto. Qed.

Lemma not_digit_neq (c d : ascii) : is_digit d = false -> is_digit c = true -> Ascii.eqb c d = false.
Proof. intros Hd Hc. apply Ascii.eqb_neq. congruence. Qed.

Lemma atoi_itoa (z : Z) : (0 <= z)%Z -> in_int64 z = true -> atoi (itoa z) = Some z.
Proof.
  intros Hz Hin. pose proof (itoa_digits z Hz) as Hd. pose proof (itoa_digits_acc z Hz) as Ha.
  pose proof (itoa_nonempty z Hz) as Hne. unfold atoi.
  destruct (itoa z) as [|c s] eqn:E; [done|]. cbn in Hd. apply andb_true_iff in Hd as [Hc _].
  rewrite (not_digit_neq c "-"), (not_digit_neq c "+") by done. unfold digits. by rewrite Ha, Hin.
Qed.

Lemma split_on_app sep (a b : string) :
  str_all (fun c => negb (Ascii.eqb c sep)) a = true ->
  split_on sep (a +:+ String sep b) = a :: split_on sep b.
Proof.
  induction a as [|c a IH].
  { rewrite str_app_nil. cbn. by rewrite Ascii.eqb_refl. }
  rewrite str_app_cons. cbn.
  rewrite andb_true_iff, negb_true_iff. intros [-> Ha]. by rewrite IH.
Qed.

Lemma split_on_none sep (a : string) :
  str_all (fun c => negb (Ascii.eqb c sep)) a = true -> split_on sep a = [a].
Proof.
  induction a as [|c a IH]; cbn; [done|].
  rewrite andb_true_iff, negb_true_iff. intros [-> Ha]. by rewrite IH.
Qed.

Lemma string_rev_app_spec (s acc : string) : string_rev_app s acc = string_rev s +:+ acc.
Proof.
  unfold string_rev. revert acc. induction s as [|c s IH]; intros acc; [done|]. cbn.
  rewrite IH, (IH (String c "")). by rewrite <- (assoc_L String.append).
Qed.

Lemma string_rev_cons c (s : string) : string_rev (String c s) = string_rev s +:+ str1 c.
Proof. unfold string_rev at 1. cbn. apply string_rev_app_spec. Qed.

Lemma string_rev_snoc c (s : string) : string_rev (s +:+ str1 c) = String c (string_rev s).
Proof.
  induction s as [|d s IH]; [done|]. rewrite str_app_cons, !string_rev_cons, IH. done.
Qed.

Lemma string_rev_involutive (s : string) : string_rev (string_rev s) = s.
Proof. induction s as [|c s IH]; [done|]. by rewrite string_rev_cons, string_rev_snoc, IH. Qed.

Lemma str_all_rev P (s : string) : str_all P (string_rev s) = str_all P s.
Proof.
  induction s as [|c s IH]; [done|]. rewrite string_rev_cons, str_all_app, IH. cbn.
  by rewrite andb_true_r, andb_comm.
Qed.

(** A visible ASCII character: no space, and no byte of an encoded one. *)
Definition visible (c : ascii) : bool := bool_decide (33 ≤ nat_of_ascii c ≤ 126).

Lemma strip_visible c r : visible c = true -> strip_one space_runes (String c r) = None.
Proof. destruct c as [[] [] [] [] [] [] [] []]; vm_compute; congruence. Qed.

Lemma strip_visible_rev c r : visible c = true -> strip_one (map string_rev space_runes) (String c r) = None.
Proof. destruct c as [[] [] [] [] [] [] [] []]; vm_compute; congruence. Qed.

Lemma strip_one_inline c r : visible c = true -> strip_one inline_spaces (String c r) = None.
Proof.
  intros Hv. pose proof (strip_visible c r Hv) as Hs.
  assert (forall spaces : list string, strip_one spaces (String c r) = None ->
    strip_one (filter (fun r => r <> bytes_str [10]) spaces) (String c r) = None) as Hsub.
  { intros spaces. induction spaces as [|p spaces IH]; [done|]. cbn [strip_one].
    destruct (cut_prefix p (String c r)) eqn:E; [done|]. intros H.
    destruct (decide (p <> bytes_str [10])) as [Hp|Hp].
    - rewrite filter_cons_True by done. cbn [strip_one]. rewrite E. by apply IH.
    - rewrite filter_cons_False by done. by apply IH. }
  exact (Hsub _ Hs).
Qed.

Lemma trim_space_visible (s : string) : str_all visible s = true -> trim_space s = s.
Proof.
  intros H. unfold trim_space.
  assert (trim_left_fuel (String.length s) space_runes s = s) as ->.
  { destruct s as [|c s]; [done|]. cbn [String.length trim_left_fuel]. cbn [str_all] in H.
    apply andb_true_iff in H as [Hc _]. by rewrite strip_visible. }
  rewrite <- (str_all_rev visible s) in H. rewrite <- (string_rev_involutive s) at 3. f_equal.
  destruct (string_rev s) as [|c r]; [by destruct (String.length s)|].
  destruct (String.length s); [done|]. cbn [trim_left_fuel]. cbn [str_all] in H.
  apply andb_true_iff in H as [Hc _]. by rewrite strip_visible_rev.
Qed.

Lemma digit_visible c : is_digit c = true -> visible c = true.
Proof. unfold is_digit, visible. rewrite !bool_decide_eq_true. lia. Qed.

(* ------------------------------------------------------------------ *)
(** ** Automation *)

(** Turns boolean tests in hypotheses and goal into propositions. *)
#[global] Create Rewrite HintDb go_bool.
#[export] Hint Rewrite
  andb_true_iff orb_true_iff andb_false_iff orb_false_iff negb_true_iff negb_false_iff
  bool_decide_eq_true bool_decide_eq_false : go_bool.

Ltac bools := autorewrite with go_bool in *.

(** Splits every [match] and [if] of the goal and closes what is absurd. *)
Ltac cases := repeat (case_match; simplify_eq; cbn in *; try done).

(** The same for a hypothesis that holds a computation. *)
Ltac cases_in H :=
  repeat (match type of H with
          | context [match ?x with _ => _ end] => destruct x eqn:?
          end; simplify_eq; try done).

Create HintDb go.
#[export] Hint Resolve time_sub_nonneg : go.

(** What is before a separator. *)
Lemma cut_at_app sep (a b : string) :
  str_all (fun c => negb (Ascii.eqb c sep)) a = true -> cut_at sep (a +:+ String sep b) = (a, Some b).
Proof.
  induction a as [|c a IH]; [intros _; rewrite str_app_nil; cbn [cut_at]; by rewrite Ascii.eqb_refl|].
  rewrite str_app_cons. cbn. rewrite andb_true_iff, negb_true_iff. intros [-> Ha]. by rewrite (IH Ha).
Qed.

Lemma cut_at_none sep (a : string) : str_all (fun c => negb (Ascii.eqb c sep)) a = true -> cut_at sep a = (a, None).
Proof. induction a as [|c a IH]; [done|]. cbn. rewrite andb_true_iff, negb_true_iff. intros [-> Ha]. by rewrite (IH Ha). Qed.
