(* ===== verification/GoText.v ===== *)
(** * Text as the program prints and hashes it

    What the code uses of Go's standard library where it writes text that is
    read back or hashed: UTF-8 as [range] walks a string, [encoding/json]'s
    numbers through [float64], and the layouts of [time.Format]. *)

From S2P Require Import Prelude.

(* ------------------------------------------------------------------ *)
(** ** UTF-8

    [for _, r := range s] decodes one rune at a time; a byte that begins no
    rune is [utf8.RuneError], one byte wide. The table of [unicode/utf8]. *)

Definition byte_in (lo hi : nat) (c : ascii) : bool := bool_decide (lo ≤ nat_of_ascii c ≤ hi).
Definition cont : ascii -> bool := byte_in 128 191.

Definition two (a b : ascii) : bool := byte_in 194 223 a && cont b.
Definition three (a b c : ascii) : bool :=
  ((byte_in 224 224 a && byte_in 160 191 b)
   || (byte_in 225 236 a && cont b)
   || (byte_in 237 237 a && byte_in 128 159 b)
   || (byte_in 238 239 a && cont b)) && cont c.
Definition four (a b c d : ascii) : bool :=
  ((byte_in 240 240 a && byte_in 144 191 b)
   || (byte_in 241 243 a && cont b)
   || (byte_in 244 244 a && byte_in 128 143 b)) && cont c && cont d.

(** The encoding of [utf8.RuneError], U+FFFD. *)
Definition rune_error : string := bytes_str [239; 191; 189].

(** The rune a non-empty string begins with, in UTF-8, and what follows it. *)
Definition next_rune (a : ascii) (s : string) : string * string :=
  if bool_decide (nat_of_ascii a < 128) then (str1 a, s)
  else match s with
       | String b s2 =>
           if two a b then (String a (str1 b), s2)
           else match s2 with
                | String c s3 =>
                    if three a b c then (String a (String b (str1 c)), s3)
                    else match s3 with
                         | String d s4 =>
                             if four a b c d then (String a (String b (String c (str1 d))), s4)
                             else (rune_error, s)
                         | EmptyString => (rune_error, s)
                         end
                | EmptyString => (rune_error, s)
                end
       | EmptyString => (rune_error, s)
       end.

(** Every round consumes a byte: the length is enough fuel. *)
Fixpoint runes_fuel (fuel : nat) (s : string) : list string :=
  match fuel, s with
  | S f, String a s' => let '(r, t) := next_rune a s' in r :: runes_fuel f t
  | _, _ => []
  end.
Definition runes (s : string) : list string := runes_fuel (String.length s) s.

Definition concat_str (l : list string) : string := foldr String.append "" l.

(** [strings.ToValidUTF8] with U+FFFD per byte: what [encoding/json] makes of
    a string it writes. *)
Definition to_valid (s : string) : string := concat_str (runes s).
Definition valid_utf8 (s : string) : bool := bool_decide (to_valid s = s).

(* ------------------------------------------------------------------ *)
(** ** Numbers of JSON

    The grammar of a number literal, its value as a [float64] (round to
    nearest, ties to even; [None] when out of range), and the shortest text
    that reads back as the same [float64]. *)

Fixpoint take_digits (s : string) : string * string :=
  match s with
  | String c s' => if is_digit c then let '(d, r) := take_digits s' in (String c d, r) else ("", s)
  | EmptyString => ("", "")
  end.

Definition nat_value (ds : string) : Z := default 0%Z (digits_acc ds 0).

Definition parse_exponent (s : string) : option Z :=
  match s with
  | EmptyString => Some 0%Z
  | String c s' =>
      if Ascii.eqb c "e" || Ascii.eqb c "E" then
        let '(neg, s2) := match s' with
                          | String d t => if Ascii.eqb d "-" then (true, t)
                                          else if Ascii.eqb d "+" then (false, t) else (false, s')
                          | EmptyString => (false, s')
                          end in
        match take_digits s2 with
        | (EmptyString, _) => None
        | (ds, EmptyString) => Some (if neg then - nat_value ds else nat_value ds)%Z
        | _ => None
        end
      else None
  end.

(** [-? int frac? exp?]: the sign, the digits as one integer and the power of
    ten it is scaled by. *)
Definition parse_number (s : string) : option (bool * Z * Z) :=
  let '(neg, s1) := match s with
                    | String c t => if Ascii.eqb c "-" then (true, t) else (false, s)
                    | EmptyString => (false, s)
                    end in
  let '(int, s2) := take_digits s1 in
  match int with
  | EmptyString => None
  | String c t =>
      if Ascii.eqb c "0" && negb (bool_decide (t = "")) then None
      else
        let '(frac, s3) := match s2 with
                           | String d u => if Ascii.eqb d "." then take_digits u else ("", s2)
                           | EmptyString => ("", s2)
                           end in
        let dot := match s2 with String d _ => Ascii.eqb d "." | EmptyString => false end in
        if dot && bool_decide (frac = "") then None
        else e ← parse_exponent s3;
             Some (neg, nat_value (int +:+ frac), (e - Z.of_nat (String.length frac))%Z)
  end.

(** A non-negative [float64]: mantissa and exponent of two. *)
Definition min_exp : Z := -1074.
Definition float := (Z * Z)%type.
Definition f_zero : float := (0, min_exp)%Z.

Definition scaled (n d e : Z) : Z * Z :=
  if bool_decide (0 <= e)%Z then (n, d * 2 ^ e)%Z else (n * 2 ^ (- e), d)%Z.

Definition round_at (n d e : Z) : float :=
  let '(a, b) := scaled n d e in
  let '(q, r) := Z.div_eucl a b in
  let up := bool_decide (b < 2 * r)%Z || (bool_decide (b = 2 * r)%Z && Z.odd q) in
  let m := if up then (q + 1)%Z else q in
  if bool_decide (m = 2 ^ 53)%Z then (2 ^ 52, e + 1)%Z else (m, e).

Definition round_ratio (n d : Z) : option float :=
  if bool_decide (n = 0)%Z then Some f_zero
  else
    let e := Z.max (Z.log2 n - Z.log2 d - 52) min_exp in
    let '(a, b) := scaled n d e in
    let e := if bool_decide (a / b < 2 ^ 52)%Z then Z.max (e - 1) min_exp else e in
    let '(m, e) := round_at n d e in
    if bool_decide (971 < e)%Z then None else Some (m, e).

(** [m * 10^e]. Powers of ten this far out decide by themselves. *)
Definition of_decimal (m e : Z) : option float :=
  if bool_decide (m = 0)%Z then Some f_zero
  else if bool_decide (400 < e)%Z then None
  else if bool_decide (e < - 400 - Z.log2 m)%Z then Some f_zero
  else if bool_decide (0 <= e)%Z then round_ratio (m * 10 ^ e) 1
  else round_ratio m (10 ^ (- e)).

(** The shortest [c * 10^p] that reads back as the float, the nearest of two:
    the largest [p] for which there is one. *)
Definition near (x : float) (p : Z) : list Z :=
  let '(m, e) := x in
  let n := (if bool_decide (0 <= e) then m * 2 ^ e else m)%Z in
  let d := (if bool_decide (0 <= e) then 1 else 2 ^ (- e))%Z in
  let '(a, b) := (if bool_decide (0 <= p) then (n, d * 10 ^ p) else (n * 10 ^ (- p), d))%Z in
  let '(q, r) := Z.div_eucl a b in
  if bool_decide (b < 2 * r)%Z then [(q + 1)%Z; q] else [q; (q + 1)%Z].

Fixpoint shortest_from (fuel : nat) (x : float) (p : Z) : Z * Z :=
  match fuel with
  | O => (0, 0)%Z
  | S f => match List.find (fun c => bool_decide (c <> 0)%Z && bool_decide (of_decimal c p = Some x)) (near x p) with
           | Some c => (c, p)
           | None => shortest_from f x (p - 1)
           end
  end.
(** A [float64] has at most 17 digits; the first place tried is at most two
    above its leading one ([0.30103] is the logarithm of two). *)
Definition shortest (x : float) : Z * Z :=
  shortest_from 20 x ((Z.log2 x.1 + x.2 + 1) * 30103 / 100000 + 1).

Fixpoint zeros (n : nat) : string := match n with O => "" | S n' => String "0" (zeros n') end.

Definition fixed_text (ds : string) (dp : Z) : string :=
  let nd := Z.of_nat (String.length ds) in
  if bool_decide (dp <= 0)%Z then "0." +:+ zeros (Z.to_nat (- dp)) +:+ ds
  else if bool_decide (nd <= dp)%Z then ds +:+ zeros (Z.to_nat (dp - nd))
  else String.substring 0 (Z.to_nat dp) ds +:+ "." +:+ String.substring (Z.to_nat dp) (String.length ds) ds.

Definition scientific_text (ds : string) (dp : Z) : string :=
  let tail := String.substring 1 (String.length ds) ds in
  let e := (dp - 1)%Z in
  String.substring 0 1 ds +:+ (if bool_decide (tail = "") then "" else "." +:+ tail)
  +:+ "e" +:+ (if bool_decide (e < 0)%Z then "-" else "+") +:+ itoa (Z.abs e).

(** [encoding/json] writes a [float64] in the shortest form, with an exponent
    below 1e-6 and from 1e21 on. *)
Definition float_text (neg : bool) (x : float) : string :=
  (if neg then "-" else "") +:+
  (if bool_decide (x.1 = 0)%Z then "0"
   else let '(c, p) := shortest x in
        let ds := itoa c in
        let dp := (Z.of_nat (String.length ds) + p)%Z in
        if bool_decide (-6 < dp <= 21)%Z then fixed_text ds dp else scientific_text ds dp).

(** A literal decoded into an [any] and written again: a [float64] on the way.
    [None]: the decoder refuses it as out of range. *)
Definition renumber (lit : string) : option string :=
  '(neg, m, e) ← parse_number lit; x ← of_decimal m e; Some (float_text neg x).

(* ------------------------------------------------------------------ *)
(** ** Dates *)

Definition day_length : Z := 86400000000000.

(** Days before the first of January of a year, counted from year 1. *)
Definition days_before (y : Z) : Z :=
  let p := (y - 1)%Z in (365 * p + p / 4 - p / 100 + p / 400)%Z.

Definition year_of (days : Z) : Z :=
  let y := (days * 400 / 146097 + 1)%Z in
  if bool_decide (days < days_before y)%Z then (y - 1)%Z
  else if bool_decide (days_before (y + 1) <= days)%Z then (y + 1)%Z else y.

Definition leap (y : Z) : bool := bool_decide (days_before (y + 1) - days_before y = 366)%Z.

(** Days before the first of a month. *)
Definition cumulative (l : bool) : list Z :=
  if l then [0; 31; 60; 91; 121; 152; 182; 213; 244; 274; 305; 335]%Z
  else [0; 31; 59; 90; 120; 151; 181; 212; 243; 273; 304; 334]%Z.

(** The last month that begins on or before a day of the year. *)
Fixpoint month_from (cum : list Z) (i : Z) (best : Z * Z) (doy : Z) : Z * Z :=
  match cum with
  | [] => best
  | c :: rest => month_from rest (i + 1) (if bool_decide (c <= doy)%Z then (i, doy - c + 1)%Z else best) doy
  end.

Definition civil (days : Z) : Z * Z * Z :=
  let y := year_of days in
  let '(m, d) := month_from (cumulative (leap y)) 1 (1, 1)%Z (days - days_before y) in (y, m, d).

Fixpoint pad_fuel (fuel : nat) (z : Z) (acc : string) : string :=
  match fuel with
  | O => acc
  | S f => pad_fuel f (z / 10) (String (chr (48 + Z.to_nat (z mod 10))) acc)
  end.
(** A number in exactly [w] digits. *)
Definition pad (w : nat) (z : Z) : string := pad_fuel w z "".

Definition date_text (y m d : Z) : string := pad 4 y +:+ "-" +:+ pad 2 m +:+ "-" +:+ pad 2 d.

(** [t.Format("2006-01-02")] of a UTC time of the years 1 to 9999. *)
Definition format_day (t : time) : string :=
  let '(y, m, d) := civil (t / day_length) in date_text y m d.

Fixpoint trim_zeros (s : string) : string :=
  match s with
  | EmptyString => ""
  | String c s' => let r := trim_zeros s' in
                   if Ascii.eqb c "0" && bool_decide (r = "") then "" else String c r
  end.

Definition clock_text (ns : Z) : string :=
  let s := (ns / second)%Z in
  let frac := trim_zeros (pad 9 (ns mod second)) in
  pad 2 (s / 3600) +:+ ":" +:+ pad 2 (s / 60 mod 60) +:+ ":" +:+ pad 2 (s mod 60)
  +:+ (if bool_decide (frac = "") then "" else "." +:+ frac).

(** [t.UTC().Format(time.RFC3339Nano)]. *)
Definition format_rfc3339 (t : time) : string :=
  format_day t +:+ "T" +:+ clock_text (t mod day_length) +:+ "Z".

(** The times a four-digit year can name. *)
Definition in_years (t : time) : Prop := (0 <= t < days_before 10000 * day_length)%Z.

(* ------------------------------------------------------------------ *)
(** ** Lemmas on UTF-8 *)

(** [r] is the encoding of one rune: whatever follows, it is read as itself. *)
Definition is_rune (r : string) : Prop :=
  exists a s, r = String a s /\ forall t, next_rune a (s +:+ t) = (r, t).

Lemma is_rune_error : is_rune rune_error.
Proof. eexists _, _. split; [reflexivity|]. intros t. reflexivity. Qed.

Lemma next_rune_spec a s r t :
  next_rune a s = (r, t) -> is_rune r /\ String.length t ≤ String.length s.
Proof.
  unfold next_rune. intros H.
  destruct (bool_decide (nat_of_ascii a < 128)) eqn:Ha.
  { simplify_eq. split; [|lia]. exists a, "". split; [done|]. intros t'. unfold next_rune. by rewrite Ha. }
  pose proof is_rune_error as Herr.
  destruct s as [|b s]; [by simplify_eq|]. destruct (two a b) eqn:H2.
  { simplify_eq. split; [|cbn; lia]. eexists a, (str1 b). split; [done|]. intros t'.
    unfold next_rune. unfold str1; rewrite ?str_app_cons, str_app_nil. by rewrite Ha, H2. }
  destruct s as [|c s]; [by simplify_eq|]. destruct (three a b c) eqn:H3.
  { simplify_eq. split; [|cbn; lia]. eexists a, (String b (str1 c)). split; [done|]. intros t'.
    unfold next_rune. unfold str1; rewrite ?str_app_cons, str_app_nil. by rewrite Ha, H2, H3. }
  destruct s as [|d s]; [by simplify_eq|]. destruct (four a b c d) eqn:H4; [|by simplify_eq].
  simplify_eq. split; [|cbn; lia]. eexists a, (String b (String c (str1 d))). split; [done|].
  intros t'. unfold next_rune. unfold str1; rewrite ?str_app_cons, str_app_nil. by rewrite Ha, H2, H3, H4.
Qed.

Lemma runes_fuel_enough f g s :
  String.length s ≤ f -> String.length s ≤ g -> runes_fuel f s = runes_fuel g s.
Proof.
  revert g s. induction f as [|f IH]; intros [|g] [|a s]; cbn; try (lia || done). intros Hf Hg.
  destruct (next_rune a s) as [r t] eqn:E. apply next_rune_spec in E as [_ Ht].
  f_equal. apply IH; lia.
Qed.

Lemma runes_cons a s r t : next_rune a s = (r, t) -> runes (String a s) = r :: runes t.
Proof.
  intros E. unfold runes. cbn. rewrite E. f_equal. apply next_rune_spec in E as [_ Ht].
  by apply runes_fuel_enough.
Qed.

Lemma runes_app r t : is_rune r -> runes (r +:+ t) = r :: runes t.
Proof. intros (a & s & -> & H). rewrite str_app_cons. by apply runes_cons. Qed.

Lemma runes_are_runes s : Forall is_rune (runes s).
Proof.
  unfold runes. generalize (String.length s). intros f. revert s.
  induction f as [|f IH]; intros [|a s]; cbn; try constructor.
  destruct (next_rune a s) as [r t] eqn:E. apply next_rune_spec in E as [? _]. by constructor.
Qed.

Lemma runes_concat rs : Forall is_rune rs -> runes (concat_str rs) = rs.
Proof. induction 1 as [|r rs Hr _ IH]; [done|].
  change (concat_str (r :: rs)) with (r +:+ concat_str rs). by rewrite runes_app, IH.
Qed.

Lemma runes_to_valid s : runes (to_valid s) = runes s.
Proof. apply runes_concat, runes_are_runes. Qed.

Lemma to_valid_idemp s : to_valid (to_valid s) = to_valid s.
Proof. unfold to_valid at 1. by rewrite runes_to_valid. Qed.

Lemma to_valid_valid s : valid_utf8 (to_valid s) = true.
Proof. unfold valid_utf8. apply bool_decide_eq_true, to_valid_idemp. Qed.

(* ------------------------------------------------------------------ *)
(** ** Lemmas on dates *)

Lemma year_of_spec days :
  (0 <= days)%Z -> (days_before (year_of days) <= days < days_before (year_of days + 1))%Z.
Proof.
  intros H. unfold year_of. cbv zeta. unfold days_before.
  set (y := (days * 400 / 146097 + 1)%Z).
  assert (146097 * (y - 1) <= days * 400 < 146097 * y)%Z as Hy.
  { subst y. pose proof (Z.div_mod (days * 400) 146097). pose proof (Z.mod_pos_bound (days * 400) 146097). lia. }
  clearbody y. repeat case_bool_decide; Z.div_mod_to_equations; lia.
Qed.

Lemma days_before_mono y z : (y <= z)%Z -> (days_before y <= days_before z)%Z.
Proof. intros H. unfold days_before. Z.div_mod_to_equations. lia. Qed.

Lemma year_of_mono a b : (0 <= a <= b)%Z -> (year_of a <= year_of b)%Z.
Proof.
  intros H. pose proof (year_of_spec a). pose proof (year_of_spec b).
  destruct (decide (year_of a <= year_of b)%Z); [done|].
  pose proof (days_before_mono (year_of b + 1) (year_of a)). lia.
Qed.

Lemma year_length y : (365 <= days_before (y + 1) - days_before y <= 366)%Z.
Proof. unfold days_before. Z.div_mod_to_equations. lia. Qed.

(** The month and the day of a day of the year: in range, and they say which
    day it was. *)
Lemma month_spec (l : bool) doy m d :
  (0 <= doy < if l then 366 else 365)%Z ->
  month_from (cumulative l) 1 (1, 1)%Z doy = (m, d) ->
  (1 <= m <= 12)%Z /\ (1 <= d <= 31)%Z /\
  exists c, cumulative l !! Z.to_nat (m - 1) = Some c /\ (doy = c + d - 1)%Z.
Proof.
  intros Hd E. destruct l; cbn in E; repeat case_bool_decide; try lia; simplify_eq;
    (split; [lia|]; split; [lia|]; eexists; split; [reflexivity|]; lia).
Qed.

Lemma civil_spec days y m d :
  (0 <= days)%Z -> civil days = (y, m, d) ->
  y = year_of days /\ (1 <= m <= 12)%Z /\ (1 <= d <= 31)%Z /\
  exists c, cumulative (leap y) !! Z.to_nat (m - 1) = Some c /\ (days = days_before y + c + d - 1)%Z.
Proof.
  intros H. unfold civil.
  destruct (month_from _ _ _ _) as [m' d'] eqn:E. intros [= <- <- <-].
  pose proof (year_of_spec days H). apply month_spec in E.
  { destruct E as (? & ? & c & ? & ?). do 3 (split; [done|]). exists c. split; [done|]. lia. }
  unfold leap. pose proof (year_length (year_of days)). case_bool_decide; lia.
Qed.

Lemma str_app_inj (a b x y : string) :
  String.length a = String.length b -> a +:+ x = b +:+ y -> a = b /\ x = y.
Proof.
  revert b. induction a as [|c a IH]; intros [|d b]; cbn; try done.
  intros [= Hl] [= -> He]. destruct (IH b Hl He) as [-> ->]. done.
Qed.

Lemma str_snoc_inj (x y : string) c : x +:+ str1 c = y +:+ str1 c -> x = y.
Proof.
  intros H. apply (f_equal string_rev) in H. rewrite !string_rev_snoc in H. injection H as H.
  by rewrite <- (string_rev_involutive x), H, string_rev_involutive.
Qed.

Lemma str_compare_cons c d (a b : string) :
  String.compare (String c a) (String d b)
  = match Ascii.compare c d with Eq => String.compare a b | r => r end.
Proof. done. Qed.

Lemma str_compare_refl (a : string) : String.compare a a = Eq.
Proof. induction a as [|c a IH]; [done|]. by rewrite str_compare_cons, ascii_compare_refl. Qed.

Lemma str_compare_app (a b x y : string) :
  String.length a = String.length b ->
  String.compare (a +:+ x) (b +:+ y)
  = match String.compare a b with Eq => String.compare x y | c => c end.
Proof.
  revert b. induction a as [|c a IH]; intros [|d b]; try done.
  intros [= Hl]. rewrite !str_app_cons, !str_compare_cons, (IH b Hl). by destruct (Ascii.compare c d).
Qed.

Lemma pad_fuel_app w z acc : pad_fuel w z acc = pad w z +:+ acc.
Proof.
  unfold pad. revert z acc. induction w as [|w IH]; intros z acc; [done|]. cbn [pad_fuel].
  rewrite IH, (IH _ (String _ "")). by rewrite <- (assoc_L String.append).
Qed.

Lemma pad_S w z : pad (S w) z = pad w (z / 10) +:+ str1 (chr (48 + Z.to_nat (z mod 10))).
Proof. unfold pad at 1. cbn [pad_fuel]. apply pad_fuel_app. Qed.

Lemma str_length_app (a b : string) : String.length (a +:+ b) = String.length a + String.length b.
Proof. induction a as [|c a IH]; [done|]. rewrite str_app_cons. cbn [String.length]. by rewrite IH. Qed.

Lemma pad_length w z : String.length (pad w z) = w.
Proof. revert z. induction w as [|w IH]; intros z; [done|]. rewrite pad_S, str_length_app, IH. cbn. lia. Qed.

Lemma digit_compare x y :
  (0 <= x < 10)%Z -> (0 <= y < 10)%Z ->
  Ascii.compare (chr (48 + Z.to_nat x)) (chr (48 + Z.to_nat y)) = Z.compare x y.
Proof.
  intros Hx Hy. unfold Ascii.compare, chr, ascii_of_nat. rewrite !N_ascii_embedding by lia.
  destruct (Z.compare_spec x y); [subst; apply N.compare_refl|apply N.compare_lt_iff|apply N.compare_gt_iff]; lia.
Qed.

(** Numbers of a fixed width are ordered as their texts. *)
Lemma pad_compare w x y :
  (0 <= x < 10 ^ Z.of_nat w)%Z -> (0 <= y < 10 ^ Z.of_nat w)%Z ->
  String.compare (pad w x) (pad w y) = Z.compare x y.
Proof.
  revert x y. induction w as [|w IH]; intros x y.
  { cbn. intros. assert (x = 0%Z) as -> by lia. assert (y = 0%Z) as -> by lia. done. }
  rewrite Nat2Z.inj_succ, Z.pow_succ_r by lia. intros Hx Hy.
  rewrite !pad_S, str_compare_app by by rewrite !pad_length.
  rewrite IH by (split; [apply Z.div_pos; lia|apply Z.div_lt_upper_bound; lia]).
  cbn [str1 String.compare]. rewrite digit_compare by (apply Z.mod_pos_bound; lia).
  pose proof (Z.div_mod x 10). pose proof (Z.div_mod y 10).
  pose proof (Z.mod_pos_bound x 10). pose proof (Z.mod_pos_bound y 10).
  destruct (Z.compare_spec (x / 10) (y / 10)); destruct (Z.compare_spec (x mod 10) (y mod 10));
    destruct (Z.compare_spec x y); try done; lia.
Qed.

Lemma pad_inj w x y :
  (0 <= x < 10 ^ Z.of_nat w)%Z -> (0 <= y < 10 ^ Z.of_nat w)%Z -> pad w x = pad w y -> x = y.
Proof.
  intros Hx Hy E. apply Z.compare_eq. rewrite <- (pad_compare w) by done. rewrite E.
  apply str_compare_refl.
Qed.

(** A date a four-digit year can name. *)
Definition date_ok (y m d : Z) : Prop := (0 <= y < 10000)%Z /\ (0 <= m < 100)%Z /\ (0 <= d < 100)%Z.

Lemma date_text_length y m d : String.length (date_text y m d) = 10.
Proof. unfold date_text. by rewrite !str_length_app, !pad_length. Qed.

Lemma date_text_compare y m d y' m' d' :
  date_ok y m d -> date_ok y' m' d' ->
  String.compare (date_text y m d) (date_text y' m' d')
  = match Z.compare y y' with
    | Eq => match Z.compare m m' with Eq => Z.compare d d' | c => c end
    | c => c
    end.
Proof.
  intros (Hy & Hm & Hd) (Hy' & Hm' & Hd'). unfold date_text.
  rewrite str_compare_app by by rewrite !pad_length. rewrite (pad_compare 4) by done.
  rewrite str_compare_app by done. cbn [String.compare]. rewrite ascii_compare_refl.
  rewrite str_compare_app by by rewrite !pad_length. rewrite (pad_compare 2) by done.
  rewrite str_compare_app by done. cbn [String.compare]. rewrite ascii_compare_refl.
  rewrite (pad_compare 2) by done. done.
Qed.

Lemma month_mono (l : bool) a b m d m' d' :
  (0 <= a <= b)%Z ->
  month_from (cumulative l) 1 (1, 1)%Z a = (m, d) -> month_from (cumulative l) 1 (1, 1)%Z b = (m', d') ->
  (m < m')%Z \/ (m = m' /\ (d <= d')%Z).
Proof.
  intros H Ea Eb. destruct l; cbn in Ea, Eb; repeat case_bool_decide; simplify_eq; lia.
Qed.

Lemma civil_mono a b y m d y' m' d' :
  (0 <= a <= b)%Z -> civil a = (y, m, d) -> civil b = (y', m', d') ->
  (y < y')%Z \/ (y = y' /\ ((m < m')%Z \/ (m = m' /\ (d <= d')%Z))).
Proof.
  intros H. unfold civil.
  destruct (month_from _ _ _ (a - _)) as [ma da] eqn:Ea.
  destruct (month_from _ _ _ (b - _)) as [mb db] eqn:Eb. intros [= <- <- <-] [= <- <- <-].
  pose proof (year_of_mono a b H). destruct (decide (year_of a = year_of b)) as [E|]; [|lia].
  right. split; [done|]. rewrite <- E in Eb. eapply (month_mono _ _ _ ma da mb db); [|exact Ea|exact Eb].
  pose proof (year_of_spec a). lia.
Qed.

Lemma civil_ok days y m d :
  (0 <= days < days_before 10000)%Z -> civil days = (y, m, d) -> date_ok y m d.
Proof.
  intros H E. apply civil_spec in E as (-> & Hm & Hd & _); [|lia].
  pose proof (year_of_spec days). split; [|lia].
  destruct (decide (year_of days < 0)%Z) as [Hn|Hn].
  { pose proof (days_before_mono (year_of days + 1) 0). change (days_before 0) with (-366)%Z in *. lia. }
  destruct (decide (10000 <= year_of days)%Z); [|lia].
  pose proof (days_before_mono 10000 (year_of days)). lia.
Qed.

Lemma in_years_day t : in_years t -> (0 <= t / day_length < days_before 10000)%Z.
Proof.
  unfold in_years, day_length. intros H.
  split; [apply Z.div_pos; lia|apply Z.div_lt_upper_bound; lia].
Qed.

(** The layout is fixed in width: the order of the texts is the order of time. *)
Lemma format_day_mono a b :
  in_years a -> in_years b -> (a <= b)%Z -> str_le (format_day a) (format_day b).
Proof.
  intros Ha%in_years_day Hb%in_years_day H. unfold format_day.
  destruct (civil (a / day_length)) as [[y m] d] eqn:Ea.
  destruct (civil (b / day_length)) as [[y' m'] d'] eqn:Eb.
  assert (0 <= a / day_length <= b / day_length)%Z as Hab by (split; [lia|apply Z.div_le_mono; done]).
  pose proof (civil_mono _ _ _ _ _ _ _ _ Hab Ea Eb) as Hm.
  apply civil_ok in Ea, Eb; [|done..].
  unfold str_le, str_lt, String.ltb. rewrite date_text_compare by done.
  destruct (Z.compare_spec y' y); try lia; try done.
  destruct (Z.compare_spec m' m); try lia; try done.
  destruct (Z.compare_spec d' d); try lia; done.
Qed.

Lemma date_text_inj y m d y' m' d' :
  date_ok y m d -> date_ok y' m' d' -> date_text y m d = date_text y' m' d' -> y = y' /\ m = m' /\ d = d'.
Proof.
  intros H H' E. pose proof (date_text_compare _ _ _ _ _ _ H H') as C. rewrite E in C.
  rewrite str_compare_refl in C.
  destruct (Z.compare_spec y y'), (Z.compare_spec m m'), (Z.compare_spec d d'); done.
Qed.

Lemma format_day_inj a b :
  in_years a -> in_years b -> format_day a = format_day b -> (a / day_length = b / day_length)%Z.
Proof.
  intros Ha%in_years_day Hb%in_years_day. unfold format_day.
  destruct (civil (a / day_length)) as [[y m] d] eqn:Ea.
  destruct (civil (b / day_length)) as [[y' m'] d'] eqn:Eb. intros E.
  pose proof (civil_ok _ _ _ _ Ha Ea). pose proof (civil_ok _ _ _ _ Hb Eb).
  apply date_text_inj in E as (-> & -> & ->); [|done..].
  apply civil_spec in Ea as (_ & _ & _ & c & Hc & ->); [|lia].
  apply civil_spec in Eb as (_ & _ & _ & c' & Hc' & ->); [|lia]. rewrite Hc in Hc'. congruence.
Qed.

Lemma trim_zeros_inj a b : String.length a = String.length b -> trim_zeros a = trim_zeros b -> a = b.
Proof.
  revert b. induction a as [|c a IH]; intros [|d b]; cbn; try done. intros [= Hl].
  destruct (Ascii.eqb_spec c "0") as [-> | Hc], (Ascii.eqb_spec d "0") as [-> | Hd]; cbn;
    repeat case_bool_decide; intros E; simplify_eq; f_equal; auto; by apply IH; congruence.
Qed.

Lemma frac_inj ns ns' :
  (0 <= ns < second)%Z -> (0 <= ns' < second)%Z ->
  (if bool_decide (trim_zeros (pad 9 ns) = "") then "" else "." +:+ trim_zeros (pad 9 ns))
  = (if bool_decide (trim_zeros (pad 9 ns') = "") then "" else "." +:+ trim_zeros (pad 9 ns')) ->
  ns = ns'.
Proof.
  intros H H' E. apply (pad_inj 9); [done..|]. apply trim_zeros_inj; [by rewrite !pad_length|].
  revert E. repeat case_bool_decide; try done; [congruence|]. intros E. by apply str_app_inj_l in E.
Qed.

Lemma clock_text_inj t t' :
  (0 <= t < day_length)%Z -> (0 <= t' < day_length)%Z -> clock_text t = clock_text t' -> t = t'.
Proof.
  intros H H'. unfold clock_text. cbv zeta.
  assert (forall u, (0 <= u < day_length)%Z ->
            (0 <= u / second / 3600 < 100)%Z /\ (0 <= u / second / 60 mod 60 < 100)%Z
            /\ (0 <= u / second mod 60 < 100)%Z /\ (0 <= u mod second < second)%Z) as B.
  { unfold day_length, second. intros u Hu. Z.div_mod_to_equations. lia. }
  destruct (B t H) as (B1 & B2 & B3 & B4), (B t' H') as (B1' & B2' & B3' & B4'). clear B.
  intros E. apply str_app_inj in E as [Eh E]; [|by rewrite !pad_length]. apply str_app_inj_l in E.
  apply str_app_inj in E as [Em E]; [|by rewrite !pad_length]. apply str_app_inj_l in E.
  apply str_app_inj in E as [Es E]; [|by rewrite !pad_length]. apply frac_inj in E; [|done..].
  apply pad_inj in Eh; [|done..]. apply pad_inj in Em; [|done..]. apply pad_inj in Es; [|done..].
  clear -Eh Em Es E. unfold second in *. Z.div_mod_to_equations. lia.
Qed.

(** Two times in UTC with the same text are the same time. *)
Lemma format_rfc3339_inj t t' :
  in_years t -> in_years t' -> format_rfc3339 t = format_rfc3339 t' -> t = t'.
Proof.
  intros H H' E. unfold format_rfc3339 in E.
  apply str_app_inj in E as [Ed E].
  2:{ unfold format_day. destruct (civil _) as [[??]?], (civil _) as [[??]?]. by rewrite !date_text_length. }
  apply str_app_inj_l, str_snoc_inj in E.
  apply format_day_inj in Ed; [|done..].
  apply clock_text_inj in E; [|by apply Z.mod_pos_bound..].
  rewrite (Z.div_mod t day_length), (Z.div_mod t' day_length) by done. by rewrite Ed, E.
Qed.
