(* ===== verification/GoFloat.v ===== *)
(** * Floating point

    [float64] is the [spec_float] of the Standard Library at 53 bits of precision,
    [float32] the same at 24, with Go's conversions between them, the bit patterns
    of [math.Float32bits], and the decimal that stands for a [float32]. *)

From S2P Require Import Prelude GoText.
From Stdlib Require Export SpecFloat.

#[global] Instance spec_float_eq_dec : EqDecision spec_float.
Proof. solve_decision. Defined.

Abbreviation float64 := spec_float (only parsing).
Abbreviation float32 := spec_float (only parsing).

Definition nan : spec_float := S754_nan.
Definition isNaN (x : spec_float) : bool := match x with S754_nan => true | _ => false end.
Definition isInf (x : spec_float) : bool := match x with S754_infinity _ => true | _ => false end.
Definition finite (x : spec_float) : bool := negb (isNaN x) && negb (isInf x).

Definition f64_of_int (z : Z) : float64 := binary_normalize 53 1024 z 0 false.
Definition f64_zero : float64 := S754_zero false.
Definition f64_add : float64 -> float64 -> float64 := SFadd 53 1024.
Definition f64_mul : float64 -> float64 -> float64 := SFmul 53 1024.
Definition f64_div : float64 -> float64 -> float64 := SFdiv 53 1024.

(* ------------------------------------------------------------------ *)
(** ** The bits of a [float32] *)

(** [m / 2^k], to the nearest, ties to even. *)
Definition round_shift (m k : Z) : Z :=
  if bool_decide (k <= 0)%Z then (m * 2 ^ (- k))%Z
  else
    let '(q, r) := Z.div_eucl m (2 ^ k) in
    if bool_decide (2 ^ k < 2 * r)%Z || (bool_decide (2 ^ k = 2 * r)%Z && Z.odd q) then (q + 1)%Z else q.

Definition inf_bits : Z := 2139095040.          (* 0x7F800000 *)
Definition nan_bits : Z := 2143289344.          (* 0x7FC00000 *)
Definition sign_bit : Z := 2147483648.          (* 1 << 31 *)
Definition mantissa : Z := 8388608.             (* 1 << 23 *)

(** The bits of the mantissa [q] at the exponent [u]: a carry out of the mantissa
    moves to the next exponent by itself. *)
Definition assemble (u q : Z) : Z := Z.min inf_bits ((u + 149) * mantissa + q)%Z.

Definition f32_magnitude (m e : Z) : Z :=
  let u := Z.max (-149) (e + Z.log2 m - 23) in assemble u (round_shift m (u - e)).

(** [math.Float32bits(float32(x))]. *)
Definition f32_bits (x : spec_float) : Z :=
  match x with
  | S754_nan => nan_bits
  | S754_infinity s => if s then (sign_bit + inf_bits)%Z else inf_bits
  | S754_zero s => if s then sign_bit else 0%Z
  | S754_finite s m e => let r := f32_magnitude (Zpos m) e in if s then (sign_bit + r)%Z else r
  end.

(** [math.Float32frombits]. *)
Definition f32_from_bits (b : Z) : float32 :=
  let s := bool_decide (sign_bit <= b)%Z in
  let r := (b mod sign_bit)%Z in
  let e := (r / mantissa)%Z in
  let m := (r mod mantissa)%Z in
  if bool_decide (e = 255)%Z then (if bool_decide (m = 0)%Z then S754_infinity s else S754_nan)
  else if bool_decide (e = 0)%Z then
    match m with Zpos p => S754_finite s p (-149) | _ => S754_zero s end
  else match (m + mantissa)%Z with Zpos p => S754_finite s p (e - 150) | _ => S754_nan end.

(** [float32(x)]; the other way a [float32] is the [float64] it is. *)
Definition float32_of (x : float64) : float32 := f32_from_bits (f32_bits x).

(** A value a [float32] can have. *)
Definition is_f32 (x : spec_float) : Prop := f32_from_bits (f32_bits x) = x.

Example float32_of_agrees :
  let xs := [(1, 0); (3, -1); (16777217, 0); (16777219, 0); (33554431, 3); (1, -149); (1, -150); (3, -151); (8388607, -149); (1, 200);
             (5404319552844595, -54); (9007199254740991, 80)]%Z in
  map (fun x => float32_of (f64_of_int x.1)) xs = map (fun x => binary_normalize 24 128 x.1 0 false) xs /\
  map (fun x => float32_of (S754_finite true (Z.to_pos x.1) x.2)) xs = map (fun x => binary_normalize 24 128 (- x.1) x.2 true) xs.
Proof. vm_compute. split; reflexivity. Qed.

(* ------------------------------------------------------------------ *)
(** ** The decimal of a [float32]

    [strconv.FormatFloat(x, 'g', -1, 32)] read back with [strconv.ParseFloat]: the
    shortest [c * 10^p] that is still this [float32], as a [float64]. *)

(** The bits of [n / d]. *)
Definition f32_ratio (n d : Z) : Z :=
  let e := Z.max (Z.log2 n - Z.log2 d - 23) (-149) in
  let '(a, b) := scaled n d e in
  let e := if bool_decide (a / b < mantissa)%Z then Z.max (e - 1) (-149) else e in
  let '(a, b) := scaled n d e in
  let '(q, r) := Z.div_eucl a b in
  assemble e (if bool_decide (b < 2 * r)%Z || (bool_decide (b = 2 * r)%Z && Z.odd q) then (q + 1)%Z else q).

Definition f32_of_decimal (c p : Z) : Z :=
  if bool_decide (c = 0)%Z then 0%Z
  else if bool_decide (0 <= p)%Z then f32_ratio (c * 10 ^ p) 1 else f32_ratio c (10 ^ (- p)).

Fixpoint shortest32_from (fuel : nat) (x : Z * Z) (bits p : Z) : Z * Z :=
  match fuel with
  | O => (0, 0)%Z
  | S f =>
      match List.find (fun c => bool_decide (c <> 0)%Z && bool_decide (f32_of_decimal c p = bits)) (near x p) with
      | Some c => (c, p)
      | None => shortest32_from f x bits (p - 1)
      end
  end.

(** A [float32] has at most nine digits. *)
Definition shortest32 (m e : Z) : Z * Z :=
  shortest32_from 12 (m, e) (f32_magnitude m e) ((Z.log2 m + e + 1) * 30103 / 100000 + 1).

Definition signed (s : bool) (z : Z) : Z := if s then (- z)%Z else z.

Definition shortest_float (x : float32) : float64 :=
  match x with
  | S754_finite s m e =>
      let '(c, p) := shortest32 (Zpos m) e in
      match of_decimal c p with
      | Some (n, k) => binary_normalize 53 1024 (signed s n) k s
      | None => x
      end
  | x => x
  end.

(** 18.2 as a [float32], and what is shown of it. *)
Example shortest_182 :
  let x := float32_of (f64_div (f64_of_int 182) (f64_of_int 10)) in
  x <> f64_div (f64_of_int 182) (f64_of_int 10) /\ shortest_float x = f64_div (f64_of_int 182) (f64_of_int 10).
Proof. vm_compute. split; [discriminate|reflexivity]. Qed.

(* ------------------------------------------------------------------ *)
(** ** Bits and back *)

Lemma round_shift_nonneg m k : (0 <= m)%Z -> (0 <= round_shift m k)%Z.
Proof.
  intros Hm. unfold round_shift. case_bool_decide as Hk; [apply Z.mul_nonneg_nonneg; [lia|apply Z.pow_nonneg; lia]|].
  pose proof (Z.pow_pos_nonneg 2 k ltac:(lia) ltac:(lia)) as Hp.
  pose proof (Z_div_mod_full m (2 ^ k) ltac:(lia)) as Hdm. destruct (Z.div_eucl m (2 ^ k)) as [q r].
  destruct Hdm as [-> [Hr|Hr]]; [|lia]. assert (0 <= q)%Z by nia. destruct (_ || _); lia.
Qed.

Lemma f32_magnitude_range m e : (0 <= m)%Z -> (0 <= f32_magnitude m e <= inf_bits)%Z.
Proof.
  intros Hm. unfold f32_magnitude, assemble, inf_bits, mantissa.
  pose proof (round_shift_nonneg m (Z.max (-149) (e + Z.log2 m - 23) - e) Hm). lia.
Qed.

Lemma f32_bits_range x : (0 <= f32_bits x < 2 ^ 32)%Z.
Proof.
  destruct x as [s|s| |s m e]; cbn [f32_bits]; cbv zeta; [| | |pose proof (f32_magnitude_range (Zpos m) e ltac:(lia)) as H];
    try destruct s; unfold inf_bits, sign_bit, nan_bits in *; lia.
Qed.

(** What the fields of a pattern say is what the pattern is made of again. *)
Lemma magnitude_subnormal m : (0 < m < mantissa)%Z -> f32_magnitude m (-149) = m.
Proof.
  intros Hm. assert (Z.log2 m < 23)%Z by (apply Z.log2_lt_pow2; unfold mantissa in *; lia). unfold f32_magnitude.
  rewrite Z.max_l by lia. unfold round_shift. rewrite bool_decide_true by lia. unfold assemble, inf_bits, mantissa in *. cbn. lia.
Qed.

Lemma magnitude_normal m e : (0 <= m < mantissa)%Z -> (0 < e < 255)%Z -> f32_magnitude (m + mantissa) (e - 150) = (e * mantissa + m)%Z.
Proof.
  intros Hm He. assert (Hl : Z.log2 (m + mantissa) = 23%Z) by (apply Z.log2_unique; unfold mantissa in *; lia).
  unfold f32_magnitude. rewrite Hl, Z.max_r by lia. unfold round_shift. rewrite bool_decide_true by lia.
  replace (- (e - 150 + 23 - 23 - (e - 150)))%Z with 0%Z by lia. unfold assemble, inf_bits, mantissa in *. cbn [Z.pow]. lia.
Qed.

Lemma f32_bits_signed s m e r :
  f32_magnitude (Zpos m) e = r -> f32_bits (S754_finite s m e) = (if s then sign_bit + r else r)%Z.
Proof. by intros <-. Qed.

Lemma f32_bits_from_bits b : (0 <= b < 2 ^ 32)%Z -> f32_from_bits b <> nan -> f32_bits (f32_from_bits b) = b.
Proof.
  intros Hb. set (s := bool_decide (sign_bit <= b)%Z). set (r := (b mod sign_bit)%Z).
  assert (Hs : b = if s then (sign_bit + r)%Z else r).
  { unfold r. pose proof (Z.div_mod b sign_bit ltac:(done)) as H. unfold s. unfold sign_bit in *. pose proof (Z.mod_pos_bound b 2147483648 ltac:(done)).
    case_bool_decide; lia. }
  assert (Hr : (0 <= r < sign_bit)%Z) by (by apply Z.mod_pos_bound).
  unfold f32_from_bits. fold s r. pose proof (Z.div_mod r mantissa ltac:(done)) as Hd.
  pose proof (Z.mod_pos_bound r mantissa ltac:(done)) as Hm. set (m := (r mod mantissa)%Z) in *.
  assert (He : (0 <= r / mantissa < 256)%Z).
  { split; [apply Z.div_pos; unfold mantissa; lia|]. apply Z.div_lt_upper_bound; [done|]. unfold mantissa, sign_bit in *. lia. }
  set (e := (r / mantissa)%Z) in *. clearbody s r m e.
  case_bool_decide as E1; [|case_bool_decide as E2].
  - case_bool_decide as E3; [|done]. intros _. rewrite Hs. cbn [f32_bits]. unfold inf_bits, mantissa in *. destruct s; lia.
  - intros _. destruct m as [|p|p]; [| |lia].
    + rewrite Hs. cbn [f32_bits]. unfold mantissa in *. destruct s; lia.
    + erewrite f32_bits_signed by (apply magnitude_subnormal; lia). rewrite Hs. unfold mantissa in *. destruct s; lia.
  - intros Hn. destruct (m + mantissa)%Z as [|p|p] eqn:Ep; [unfold mantissa in *; lia| |unfold mantissa in *; lia].
    erewrite f32_bits_signed by (rewrite <- Ep; apply magnitude_normal; lia). rewrite Hs. destruct s; lia.
Qed.

Lemma is_f32_nan : is_f32 nan.
Proof. reflexivity. Qed.

Lemma is_f32_from_bits b : (0 <= b < 2 ^ 32)%Z -> is_f32 (f32_from_bits b).
Proof.
  intros Hb. unfold is_f32. destruct (decide (f32_from_bits b = nan)) as [->|Hn]; [reflexivity|]. by rewrite f32_bits_from_bits.
Qed.

Lemma is_f32_of x : is_f32 (float32_of x).
Proof. apply is_f32_from_bits, f32_bits_range. Qed.

(** A [float32] converted again stays what it is. *)
Lemma float32_of_f32 x : is_f32 x -> float32_of x = x.
Proof. done. Qed.

(* ------------------------------------------------------------------ *)
(** ** Sums that stay numbers

    A bound on the exponent of a number, kept by the operations with a little
    slack: far from the ends of a [float64] nothing overflows. *)

Definition below (k : Z) (x : spec_float) : Prop :=
  match x with
  | S754_zero _ => True
  | S754_finite _ m e => (Z.log2 (Zpos m) + 1 + e <= k)%Z
  | _ => False
  end.

Lemma below_finite k x : below k x -> finite x = true.
Proof. by destruct x. Qed.

Lemma below_mono k k' x : (k <= k')%Z -> below k x -> below k' x.
Proof. destruct x; cbn; [done..|]. lia. Qed.

Lemma digits2_log2 p : Zpos (digits2_pos p) = (Z.log2 (Zpos p) + 1)%Z.
Proof.
  assert (E : digits2_pos p = Pos.size p) by (by induction p as [p IH|p IH|]; cbn [digits2_pos Pos.size]; rewrite ?IH). rewrite E.
  destruct p as [p|p|]; cbn [Z.log2 Pos.size]; lia.
Qed.

Lemma shr_1_half r : (0 <= shr_m r)%Z -> shr_m (shr_1 r) = (shr_m r / 2)%Z.
Proof. destruct r as [[|[p|p|]|p] r s]; cbn [shr_m]; intros Hm; [done| | |done|lia]; cbn [shr_1 shr_m]; rewrite <- Z.div2_div; done. Qed.

Lemma iter_pos_add {A} (f : A -> A) n x : iter_pos f n x = Pos.iter f x n.
Proof.
  revert x. induction n as [n IH|n IH|]; intros x; cbn [iter_pos Pos.iter]; [|by rewrite !IH|done].
  rewrite !IH. by rewrite <- !Pos.iter_swap.
Qed.

Lemma shr_div r e n : (0 <= shr_m r)%Z -> (0 <= n)%Z -> shr_m (shr r e n).1 = (shr_m r / 2 ^ n)%Z /\ (shr r e n).2 = (e + n)%Z.
Proof.
  intros Hr Hn. destruct n as [|p|p]; [cbn; rewrite Z.div_1_r; by rewrite Z.add_0_r| |lia]. cbn [shr fst snd]. split; [|done].
  rewrite iter_pos_add. clear Hn. revert r Hr. induction p as [|p IH] using Pos.peano_ind; intros r Hr.
  - cbn [Pos.iter]. by apply shr_1_half.
  - rewrite Pos.iter_succ. assert (Hp : (0 <= shr_m (Pos.iter shr_1 r p))%Z) by (rewrite IH by done; apply Z.div_pos; lia).
    rewrite shr_1_half, IH by done. rewrite Z.div_div by lia. f_equal. rewrite Pos2Z.inj_succ, Z.pow_succ_r by lia. lia.
Qed.

Lemma shr_at_least r e n : (0 <= shr_m r)%Z ->
  shr_m (shr r e n).1 = (shr_m r / 2 ^ Z.max 0 n)%Z /\ (shr r e n).2 = (e + Z.max 0 n)%Z.
Proof.
  intros Hr. destruct (decide (0 <= n)%Z) as [Hn|Hn]; [rewrite Z.max_r by done; by apply shr_div|].
  rewrite Z.max_l by lia. destruct n as [|p|p]; [lia|lia|]. cbn [shr fst snd]. by rewrite Z.div_1_r, Z.add_0_r.
Qed.

Lemma loc_record_m m l : shr_m (shr_record_of_loc m l) = m.
Proof. by destruct l as [|[]]. Qed.

Lemma round_even_up m l : (m <= round_nearest_even m l <= m + 1)%Z.
Proof. unfold round_nearest_even. destruct l as [|[]]; [lia| |lia|lia]. destruct (Z.even m); lia. Qed.

(** One step of the rounding keeps the number below its bound. *)
Lemma shr_fexp_below k m e l :
  (0 <= m < 2 ^ (k - e))%Z -> (0 <= k)%Z -> (e <= k)%Z ->
  let r := shr_fexp 53 1024 m e l in
  (0 <= shr_m r.1 < 2 ^ (k - r.2))%Z /\ (r.2 <= k)%Z.
Proof.
  intros Hm Hk He. unfold shr_fexp. set (n := (fexp 53 1024 (Zdigits2 m + e) - e)%Z).
  assert (Hn : (e + Z.max 0 n <= k)%Z).
  { unfold n, fexp, emin. assert (Hd : (Zdigits2 m + e <= k)%Z); [|lia]. destruct m as [|p|p]; [cbn; lia| |lia].
    cbn [Zdigits2]. rewrite digits2_log2. enough (Z.log2 (Zpos p) < k - e)%Z by lia. apply Z.log2_lt_pow2; lia. }
  destruct (shr_at_least (shr_record_of_loc m l) e n) as [E1 E2]; [rewrite loc_record_m; lia|]. rewrite loc_record_m in E1. rewrite E1, E2. split; [|done].
  pose proof (Z.pow_pos_nonneg 2 (Z.max 0 n) ltac:(lia) ltac:(lia)) as Hp. split; [apply Z.div_pos; lia|]. apply Z.div_lt_upper_bound; [done|].
  rewrite <- Z.pow_add_r by lia. replace (Z.max 0 n + (k - (e + Z.max 0 n)))%Z with (k - e)%Z by lia. apply Hm.
Qed.

Lemma round_aux_below k s m e l :
  (0 <= m < 2 ^ (k - e))%Z -> (0 <= k <= 970)%Z -> (e <= k)%Z -> below (k + 1) (binary_round_aux 53 1024 s m e l).
Proof.
  intros Hm Hk He. unfold binary_round_aux. pose proof (shr_fexp_below k m e l Hm ltac:(lia) He) as H1. cbv zeta in H1.
  destruct (shr_fexp 53 1024 m e l) as [r1 e1]. cbn [fst snd] in H1. destruct H1 as [Hm1 He1].
  pose proof (round_even_up (shr_m r1) (loc_of_shr_record r1)) as Hr. set (m2 := round_nearest_even _ _) in *.
  assert (Hm2 : (0 <= m2 < 2 ^ (k + 1 - e1))%Z).
  { replace (k + 1 - e1)%Z with (Z.succ (k - e1)) by lia. rewrite Z.pow_succ_r by lia. lia. }
  pose proof (shr_fexp_below (k + 1) m2 e1 loc_Exact Hm2 ltac:(lia) ltac:(lia)) as H2. cbv zeta in H2.
  destruct (shr_fexp 53 1024 m2 e1 loc_Exact) as [r3 e3]. cbn [fst snd] in H2. destruct H2 as [Hm3 He3].
  destruct (shr_m r3) as [|p|p] eqn:Ep; [done| |lia]. rewrite (proj2 (Z.leb_le e3 (1024 - 53))) by lia. cbn [below].
  enough (Z.log2 (Zpos p) < k + 1 - e3)%Z by lia. apply Z.log2_lt_pow2; lia.
Qed.

Lemma iter_xO p d : Zpos (Pos.iter xO p d) = (Zpos p * 2 ^ Zpos d)%Z.
Proof.
  induction d as [|d IH] using Pos.peano_ind; [cbn; lia|]. rewrite Pos.iter_succ, Pos2Z.inj_xO, IH, Pos2Z.inj_succ, Z.pow_succ_r by lia. lia.
Qed.

Lemma shl_align_spec p e e' : let r := shl_align p e e' in (Zpos r.1 = Zpos p * 2 ^ (e - r.2))%Z /\ r.2 = Z.min e e'.
Proof.
  unfold shl_align. destruct (e' - e)%Z as [|d|d] eqn:E; cbn [fst snd]; [rewrite Z.sub_diag, Z.mul_1_r; split; [done|lia]..|].
  split; [|lia]. rewrite iter_xO. do 2 f_equal. lia.
Qed.

Lemma pow_scale_lt a b k : (a < 2 ^ (k - b))%Z -> (0 <= b <= k)%Z -> (a * 2 ^ b < 2 ^ k)%Z.
Proof.
  intros Ha Hb. replace k with ((k - b) + b)%Z by lia. rewrite Z.pow_add_r by lia. apply Z.mul_lt_mono_pos_r; [apply Z.pow_pos_nonneg; lia|done].
Qed.

Lemma binary_round_below k s p e :
  (Zpos p < 2 ^ (k - e))%Z -> (0 <= k <= 970)%Z -> (e <= k)%Z -> below (k + 1) (binary_round 53 1024 s p e).
Proof.
  intros Hp Hk He. unfold binary_round. pose proof (shl_align_spec p e (fexp 53 1024 (Zpos (digits2_pos p) + e))) as H. cbv zeta in H.
  destruct (shl_align p e _) as [mz ez]. cbn [fst snd] in H. destruct H as [Hz ->]. set (ez := Z.min e _) in *.
  apply round_aux_below; [|done|lia]. split; [lia|]. rewrite Hz.
  apply pow_scale_lt; [by replace (k - ez - (e - ez))%Z with (k - e)%Z by lia|lia].
Qed.

Lemma normalize_below k m e b : (Z.abs m < 2 ^ (k - e))%Z -> (0 <= k <= 970)%Z -> (e <= k)%Z -> below (k + 1) (binary_normalize 53 1024 m e b).
Proof. intros Hm Hk He. destruct m as [|p|p]; cbn [binary_normalize]; [done|apply binary_round_below; [lia|done..]..]. Qed.

Lemma below_pow k s p e : below k (S754_finite s p e) -> (Zpos p < 2 ^ (k - e))%Z /\ (e < k)%Z.
Proof.
  cbn [below]. intros H. pose proof (Z.log2_nonneg (Zpos p)). split; [|lia]. apply Z.log2_lt_pow2; lia.
Qed.

Lemma f64_add_below k x y : below k x -> below k y -> (0 <= k <= 960)%Z -> below (k + 2) (f64_add x y).
Proof.
  intros Hx Hy Hk. unfold f64_add. destruct x as [[]|?| |sx p e]; try done; destruct y as [[]|?| |sy q f]; try done;
    cbn [SFadd]; try (eapply below_mono; [|done]; lia).
  apply below_pow in Hx as [Hp He], Hy as [Hq Hf].
  pose proof (shl_align_spec p e (Z.min e f)) as H1. pose proof (shl_align_spec q f (Z.min e f)) as H2. cbv zeta in H1, H2.
  destruct (shl_align p e (Z.min e f)) as [a ea]. destruct (shl_align q f (Z.min e f)) as [b eb]. cbn [fst snd] in *.
  destruct H1 as [Ha ->], H2 as [Hb ->]. rewrite (Z.min_r e), (Z.min_r f) in * by lia. set (z := Z.min e f) in *.
  assert (Ha' : (Zpos a < 2 ^ (k - z))%Z).
  { rewrite Ha. apply pow_scale_lt; [by replace (k - z - (e - z))%Z with (k - e)%Z by lia|lia]. }
  assert (Hb' : (Zpos b < 2 ^ (k - z))%Z).
  { rewrite Hb. apply pow_scale_lt; [by replace (k - z - (f - z))%Z with (k - f)%Z by lia|lia]. }
  replace (k + 2)%Z with ((k + 1) + 1)%Z by lia. apply normalize_below; [|lia..].
  replace (k + 1 - z)%Z with (Z.succ (k - z)) by lia. rewrite Z.pow_succ_r by lia. destruct sx, sy; cbn [cond_Zopp]; lia.
Qed.

Lemma f64_div_below k x s q f : below k x -> (-60 <= f)%Z -> (0 <= k <= 800)%Z -> below (k + 61) (f64_div x (S754_finite s q f)).
Proof.
  intros Hx Hf Hk. unfold f64_div. destruct x as [|?| |sx p e]; try done. cbn [SFdiv]. pose proof Hx as Hx'. apply below_pow in Hx as [Hp He].
  unfold SFdiv_core_binary. set (e' := Z.min _ (e - f)). set (m' := match (e - f - e')%Z with 0%Z => _ | Zpos _ => _ | Zneg _ => _ end).
  assert (Hm' : m' = (Zpos p * 2 ^ (e - f - e'))%Z).
  { unfold m'. destruct (e - f - e')%Z as [|d|d] eqn:E; [cbn; lia|by rewrite Z.shiftl_mul_pow2 by lia|].
    unfold e' in E. lia. }
  assert (Hb : (0 <= m' < 2 ^ (k + 60 - e'))%Z).
  { rewrite Hm'. split; [lia|]. apply pow_scale_lt; [|unfold e'; lia]. eapply Z.lt_le_trans; [exact Hp|]. apply Z.pow_le_mono_r; lia. }
  pose proof (Z_div_mod m' (Zpos q) ltac:(lia)) as Hd. destruct (Z.div_eucl m' (Zpos q)) as [c r]. destruct Hd as [Hd Hr].
  replace (k + 61)%Z with ((k + 60) + 1)%Z by lia. apply round_aux_below; [split; nia|lia|unfold e'; lia].
Qed.

(** The number of something small is a number. *)
Lemma f64_small z : (0 < z <= 4)%Z -> exists s q f, f64_of_int z = S754_finite s q f /\ (-60 <= f)%Z.
Proof.
  intros Hz. assert (z = 1 \/ z = 2 \/ z = 3 \/ z = 4)%Z as [->|[->|[->| ->]]] by lia; eexists _, _, _; (split; [vm_compute; reflexivity|lia]).
Qed.

Lemma from_bits_nan b : f32_from_bits b = nan -> (255 = b mod sign_bit / mantissa)%Z /\ (b mod sign_bit mod mantissa <> 0)%Z.
Proof.
  unfold f32_from_bits. set (r := (b mod sign_bit)%Z). pose proof (Z.mod_pos_bound r mantissa ltac:(done)) as Hm.
  case_bool_decide as E1; [case_bool_decide; [done|]; done|]. case_bool_decide as E2; [destruct (r mod mantissa)%Z; done|].
  destruct (r mod mantissa + mantissa)%Z eqn:E; [unfold mantissa in *; lia|done|unfold mantissa in *; lia].
Qed.

(** The conversion of a number is a number or an infinity. *)
Lemma float32_of_number x : isNaN x = false -> isNaN (float32_of x) = false.
Proof.
  intros Hx. destruct (isNaN (float32_of x)) eqn:E; [|done]. exfalso. assert (En : float32_of x = nan) by (by destruct (float32_of x)).
  unfold float32_of in En. apply from_bits_nan in En as [H1 H2].
  assert (Hb : exists r, (0 <= r <= inf_bits)%Z /\ (f32_bits x = r \/ f32_bits x = sign_bit + r)%Z).
  { destruct x as [s|s| |s m e]; [exists 0%Z|exists inf_bits|done|exists (f32_magnitude (Zpos m) e); pose proof (f32_magnitude_range (Zpos m) e ltac:(lia))];
      cbn [f32_bits]; destruct s; (split; [first [done|unfold inf_bits; lia]|]); auto using Z.add_0_r. }
  destruct Hb as (r & Hr & Hb). assert (Hm : (f32_bits x mod sign_bit = r)%Z).
  { assert (r < sign_bit)%Z by (unfold inf_bits, sign_bit in *; lia).
    destruct Hb as [->| ->]; [by rewrite Z.mod_small by lia|]. rewrite Z.add_comm, <- (Z.mul_1_l sign_bit) at 1. rewrite Z_mod_plus_full, Z.mod_small; lia. }
  rewrite Hm in *. apply H2. unfold inf_bits, mantissa in *. assert (r = 2139095040)%Z as ->; [|done].
  pose proof (Z.div_mod r 8388608 ltac:(done)). pose proof (Z.mod_pos_bound r 8388608 ltac:(done)). lia.
Qed.

(** A finite [float32] is far from the ends of a [float64]. *)
Lemma f32_below x : is_f32 x -> finite x = true -> below 128 x.
Proof.
  intros <- Hf. revert Hf. generalize (f32_bits x). clear x. intros b. unfold f32_from_bits. set (r := (b mod sign_bit)%Z). set (s := bool_decide (sign_bit <= b)%Z).
  assert (Hr : (0 <= r < sign_bit)%Z) by (by apply Z.mod_pos_bound). assert (He : (0 <= r / mantissa < 256)%Z).
  { split; [apply Z.div_pos; unfold mantissa; lia|]. apply Z.div_lt_upper_bound; [done|]. unfold mantissa, sign_bit in *. lia. }
  pose proof (Z.mod_pos_bound r mantissa ltac:(done)) as Hm. set (m := (r mod mantissa)%Z) in *. set (e := (r / mantissa)%Z) in *.
  case_bool_decide as E1; [case_bool_decide; intros Hx; discriminate Hx|]. case_bool_decide as E2.
  - destruct m as [|p|p]; [done| |done]. intros _. cbn [below]. enough (Z.log2 (Zpos p) < 23)%Z by lia. apply Z.log2_lt_pow2; unfold mantissa in *; lia.
  - destruct (m + mantissa)%Z as [|p|p] eqn:Ep; [done| |done]. intros _. cbn [below].
    enough (Z.log2 (Zpos p) < 24)%Z by lia. apply Z.log2_lt_pow2; unfold mantissa in *; lia.
Qed.
