(* ===== verification/GoBase64.v ===== *)
(** * Base64

    The standard encoding of [encoding/base64], as the rotation of an authority uses
    it: a byte is eight bits, a character of the text six of them, so encoding and
    decoding only regroup bits. Line breaks in a text are skipped when it is read. *)

From S2P Require Import Prelude.

Definition alphabet : string := "ABCDEFGHIJKLMNOPQRSTUVWXYZabcdefghijklmnopqrstuvwxyz0123456789+/".
Definition padding : Ascii.ascii := "="%char.

(** Six bits, the highest first. *)
Inductive sextet := Sextet (b5 b4 b3 b2 b1 b0 : bool).

Definition sextet_value (s : sextet) : nat :=
  let '(Sextet b5 b4 b3 b2 b1 b0) := s in
  let bit (b : bool) n := if b then n else 0 in
  bit b5 32 + bit b4 16 + bit b3 8 + bit b2 4 + bit b1 2 + bit b0 1.
Definition sextet_char (s : sextet) : Ascii.ascii := default padding (String.get (sextet_value s) alphabet).

Fixpoint index_of (c : Ascii.ascii) (s : string) : option nat :=
  match s with
  | String d s' => if Ascii.eqb c d then Some 0 else S <$> index_of c s'
  | "" => None
  end.
Definition char_sextet (c : Ascii.ascii) : option sextet :=
  n ← index_of c alphabet;
  Some (Sextet (Nat.testbit n 5) (Nat.testbit n 4) (Nat.testbit n 3) (Nat.testbit n 2) (Nat.testbit n 1) (Nat.testbit n 0)).

Abbreviation chars w x y z r := (String w (String x (String y (String z r)))) (only parsing).

(** [StdEncoding.EncodeToString]. *)
Fixpoint base64_encode (s : string) : string :=
  match s with
  | String (Ascii.Ascii a0 a1 a2 a3 a4 a5 a6 a7) rest =>
      let w := sextet_char (Sextet a7 a6 a5 a4 a3 a2) in
      match rest with
      | String (Ascii.Ascii b0 b1 b2 b3 b4 b5 b6 b7) rest =>
          let x := sextet_char (Sextet a1 a0 b7 b6 b5 b4) in
          match rest with
          | String (Ascii.Ascii c0 c1 c2 c3 c4 c5 c6 c7) rest =>
              chars w x (sextet_char (Sextet b3 b2 b1 b0 c7 c6)) (sextet_char (Sextet c5 c4 c3 c2 c1 c0)) (base64_encode rest)
          | "" => chars w x (sextet_char (Sextet b3 b2 b1 b0 false false)) padding ""
          end
      | "" => chars w (sextet_char (Sextet a1 a0 false false false false)) padding padding ""
      end
  | "" => ""
  end.

Fixpoint decode_quanta (s : string) : option string :=
  match s with
  | chars w x y z rest =>
      match char_sextet w, char_sextet x with
      | Some (Sextet a7 a6 a5 a4 a3 a2), Some (Sextet a1 a0 b7 b6 b5 b4) =>
          let a := Ascii.Ascii a0 a1 a2 a3 a4 a5 a6 a7 in
          match char_sextet y with
          | Some (Sextet b3 b2 b1 b0 c7 c6) =>
              let b := Ascii.Ascii b0 b1 b2 b3 b4 b5 b6 b7 in
              match char_sextet z with
              | Some (Sextet c5 c4 c3 c2 c1 c0) =>
                  r ← decode_quanta rest;
                  Some (String a (String b (String (Ascii.Ascii c0 c1 c2 c3 c4 c5 c6 c7) r)))
              | None => if Ascii.eqb z padding && bool_decide (rest = "") then Some (String a (String b "")) else None
              end
          | None =>
              if Ascii.eqb y padding && Ascii.eqb z padding && bool_decide (rest = "") then Some (String a "") else None
          end
      | _, _ => None
      end
  | "" => Some ""
  | _ => None
  end.

Definition is_break (c : Ascii.ascii) : bool := Ascii.eqb c (chr 10) || Ascii.eqb c (chr 13).
Fixpoint without_breaks (s : string) : string :=
  match s with String c s' => if is_break c then without_breaks s' else String c (without_breaks s') | "" => "" end.

(** [StdEncoding.DecodeString]. *)
Definition base64_decode (s : string) : option string := decode_quanta (without_breaks s).

(* ------------------------------------------------------------------ *)
(** ** What is encoded is read back *)

Lemma sextet_round_trip s : char_sextet (sextet_char s) = Some s.
Proof. destruct s as [[] [] [] [] [] []]; vm_compute; reflexivity. Qed.

(** A character of a text in base64. *)
Definition base64_char (c : Ascii.ascii) : bool := bool_decide (is_Some (char_sextet c)) || Ascii.eqb c padding.

Lemma sextet_char_ok s : base64_char (sextet_char s) = true.
Proof. unfold base64_char. by rewrite sextet_round_trip. Qed.
Lemma padding_ok : base64_char padding = true.
Proof. vm_compute. reflexivity. Qed.

(** Induction in steps of three bytes. *)
Lemma bytes_ind (P : string -> Prop) :
  P "" -> (forall a, P (String a "")) -> (forall a b, P (String a (String b ""))) ->
  (forall a b c s, P s -> P (String a (String b (String c s)))) -> forall s, P s.
Proof.
  intros H0 H1 H2 H3. fix IH 1. intros [|a [|b [|c s]]]; [done|apply H1|apply H2|]. apply H3, IH.
Qed.

Lemma base64_chars s : str_all base64_char (base64_encode s) = true.
Proof.
  induction s as [|[]|[] []|[] [] [] s IH] using bytes_ind; cbn -[sextet_char base64_char padding];
    rewrite ?sextet_char_ok, ?padding_ok; done.
Qed.

Lemma char_not c d : base64_char d = false -> base64_char c = true -> Ascii.eqb c d = false.
Proof. intros Hd Hc. destruct (Ascii.eqb_spec c d) as [->|]; [congruence|done]. Qed.

Lemma unbroken s : str_all base64_char s = true -> without_breaks s = s.
Proof.
  induction s as [|c s IH]; cbn -[base64_char]; [done|]. rewrite andb_true_iff. intros [Hc Hs]. unfold is_break.
  rewrite (char_not c (chr 10)), (char_not c (chr 13)) by done. cbn. by rewrite IH.
Qed.

Theorem base64_round_trip s : base64_decode (base64_encode s) = Some s.
Proof.
  unfold base64_decode. rewrite unbroken by apply base64_chars.
  induction s as [|[]|[] []|[] [] [] s IH] using bytes_ind; cbn -[sextet_char char_sextet padding];
    rewrite ?sextet_round_trip; [done|done|done|]. by rewrite IH.
Qed.

#[global] Instance base64_encode_inj : Inj eq eq base64_encode.
Proof. intros a b E. apply (inj Some). by rewrite <- !base64_round_trip, E. Qed.

(** Encoded bytes stand on one line, and begin like no separator of documents. *)
Lemma base64_one_line s c : c ∈ [chr 10; "-"%char] -> str_all (fun d => negb (Ascii.eqb d c)) (base64_encode s) = true.
Proof.
  intros Hc. assert (Hb : base64_char c = false) by (repeat (apply elem_of_cons in Hc as [->|Hc]; [by vm_compute|]); by apply elem_of_nil in Hc).
  pose proof (base64_chars s) as H. induction (base64_encode s) as [|d t IH]; [done|]. cbn -[base64_char] in *.
  apply andb_true_iff in H as [Hd Ht]. rewrite (char_not d c) by done. by apply IH.
Qed.

Lemma base64_nonempty s : s <> "" -> base64_encode s <> "".
Proof. intros Hs E. apply Hs. apply (inj base64_encode). by rewrite E. Qed.

Example base64_texts :
  map base64_encode ["Man"; "Ma"; "M"; ""] = ["TWFu"; "TWE="; "TQ=="; ""] /\
  map base64_decode ["TWFu"; "TWE="; "TQ=="; "TQ="; "T?E="; "TQ==x"; "TW" +:+ str1 (chr 10) +:+ "Fu"] =
    [Some "Man"; Some "Ma"; Some "M"; None; None; None; Some "Man"].
Proof. split; by vm_compute. Qed.
