(* ===== verification/Effects.v ===== *)
(** * Programs over calls

    A function of the source that talks to something outside itself (the
    Kubernetes API, a node, the record store, the clock) is a program over an
    inductive family of calls. A handler [act] says what a call does to the state
    of the world and what it answers, given what the environment chose for it: a
    failure, an answer, what others did in the meantime. [run] takes the choices
    from a list and stops where the list ends, which is the process dying between
    two calls, so a theorem for every list of choices is one for every failure,
    every interleaving and every crash. [wp] is how such theorems are proved. *)

From S2P Require Import Prelude.

Inductive prog (Call : Type -> Type) (A : Type) : Type :=
  | Ret (a : A)
  | Stuck
  | Act {R : Type} (c : Call R) (k : R -> prog Call A).
Arguments Ret {Call A} a.
Arguments Stuck {Call A}.
Arguments Act {Call A R} c k.

(** One call and its answer. *)
Definition call {Call : Type -> Type} {R : Type} (c : Call R) : prog Call R := Act c Ret.

Fixpoint prog_bind {Call A B} (f : A -> prog Call B) (p : prog Call A) : prog Call B :=
  match p with
  | Ret a => f a
  | Stuck => Stuck
  | Act c k => Act c (fun r => prog_bind f (k r))
  end.
#[global] Instance prog_mret {Call} : MRet (prog Call) := fun A a => Ret a.
#[global] Instance prog_mbind {Call} : MBind (prog Call) := fun A B f p => prog_bind f p.

(** [x, err := p; if err != nil { return err }]. *)
Definition try {Call A B E} (f : A -> prog Call (result E B)) (p : prog Call (result E A)) : prog Call (result E B) :=
  p ≫= (fun r => match r with Ok a => f a | Err e => Ret (Err e) end).
Notation "x '<-?' p ;; k" := (try (fun x => k) p) (at level 100, p at next level, right associativity).
Notation "'do?' p ;; k" := (try (fun _ => k) p) (at level 100, p at next level, right associativity).

Class Handler (Call : Type -> Type) (W X : Type) := act : forall R, Call R -> X -> W -> R * W.
Arguments act {Call W X _ R} c x w.

Section Programs.
Context {Call : Type -> Type} {W X : Type} `{!Handler Call W X}.

(** A result, or [None] when the process died on the way; the choices left. *)
Fixpoint run {A} (p : prog Call A) (xs : list X) (w : W) : option A * list X * W :=
  match p with
  | Ret a => (Some a, xs, w)
  | Stuck => (None, xs, w)
  | Act c k =>
      match xs with
      | [] => (None, [], w)
      | x :: xs' => let '(r, w') := act c x w in run (k r) xs' w'
      end
  end.

(** [I] holds at every moment of every run of [p] from [w], and [Q] at the end of
    one that ends; [good] is what is known of the choices. *)
Fixpoint wp {A} (good : X -> Prop) (I : W -> Prop) (p : prog Call A) (Q : A -> W -> Prop) (w : W) : Prop :=
  I w /\
  match p with
  | Ret a => Q a w
  | Stuck => True
  | Act c k => forall x, good x -> wp good I (k (act c x w).1) Q (act c x w).2
  end.

Lemma wp_here {A} good I (p : prog Call A) Q w : wp good I p Q w -> I w.
Proof. by destruct p; intros []. Qed.

Lemma wp_run {A} good I (p : prog Call A) Q xs w o xs' w' :
  wp good I p Q w -> Forall good xs -> run p xs w = (o, xs', w') ->
  I w' /\ (forall a, o = Some a -> Q a w') /\ Forall good xs'.
Proof.
  revert xs w. induction p as [a| |R c k IH]; intros xs w Hw Hxs; cbn [run].
  - intros [= <- <- <-]. destruct Hw as [Hi Hq]. split_and!; [done| |done]. by intros b [= <-].
  - intros [= <- <- <-]. destruct Hw as [Hi _]. by split_and!.
  - destruct Hw as [Hi Hk]. destruct xs as [|x xs].
    { intros [= <- <- <-]. by split_and!. }
    apply Forall_cons in Hxs as [Hx Hxs].
    specialize (Hk x Hx). destruct (act c x w) as [r w1] eqn:E. cbn in Hk. intros Hr. by eapply IH.
Qed.

Lemma wp_mono {A} (good : X -> Prop) (I I' : W -> Prop) (p : prog Call A) (Q Q' : A -> W -> Prop) w :
  wp good I p Q w -> (forall v, I v -> I' v) -> (forall a v, I v -> Q a v -> Q' a v) -> wp good I' p Q' w.
Proof.
  intros Hw Hi Hq. revert w Hw. induction p as [a| |R c k IH]; intros w Hw; destruct Hw as [H1 H2]; split; auto.
Qed.

Lemma wp_post {A} (good : X -> Prop) (I : W -> Prop) (p : prog Call A) (Q Q' : A -> W -> Prop) w :
  wp good I p Q w -> (forall a v, I v -> Q a v -> Q' a v) -> wp good I p Q' w.
Proof. intros Hw Hq. by eapply wp_mono. Qed.

Lemma wp_bind {A B} good I (p : prog Call A) (f : A -> prog Call B) Q w :
  wp good I p (fun a v => wp good I (f a) Q v) w -> wp good I (p ≫= f) Q w.
Proof.
  revert w. induction p as [a| |R c k IH]; intros w Hw; destruct Hw as [H1 H2].
  - done.
  - by split.
  - split; [done|]. intros x Hx. apply IH. by apply H2.
Qed.

Lemma wp_try {A B E} good I (p : prog Call (result E A)) (f : A -> prog Call (result E B)) Q w :
  wp good I p (fun r v => match r with Ok a => wp good I (f a) Q v | Err e => Q (Err e) v end) w ->
  wp good I (try f p) Q w.
Proof.
  intros Hw. apply wp_bind. eapply wp_post; [exact Hw|]. intros [a|e] v Hv Hq; [done|by split].
Qed.

Lemma wp_ret {A} (good : X -> Prop) (I : W -> Prop) (a : A) (Q : A -> W -> Prop) w :
  I w -> Q a w -> wp good I (Ret a) Q w.
Proof. by split. Qed.

Lemma wp_call {R} (good : X -> Prop) (I : W -> Prop) (c : Call R) (Q : R -> W -> Prop) w :
  I w -> (forall x, good x -> I (act c x w).2 /\ Q (act c x w).1 (act c x w).2) -> wp good I (call c) Q w.
Proof. intros Hi Hx. split; [done|]. intros x Hg. destruct (Hx x Hg). by split. Qed.

Lemma wp_act {A R} (good : X -> Prop) (I : W -> Prop) (c : Call R) (k : R -> prog Call A) Q w :
  I w -> (forall x, good x -> wp good I (k (act c x w).1) Q (act c x w).2) -> wp good I (Act c k) Q w.
Proof. by split. Qed.

(** Two programs after another. *)
Lemma run_bind {A B} (p : prog Call A) (f : A -> prog Call B) xs w :
  run (p ≫= f) xs w =
    match run p xs w with
    | (Some a, xs', w') => run (f a) xs' w'
    | (None, xs', w') => (None, xs', w')
    end.
Proof.
  revert xs w. induction p as [a| |R c k IH]; intros xs w; cbn; [done|done|].
  destruct xs as [|x xs]; [done|]. destruct (act c x w) as [r w']. apply IH.
Qed.

Lemma run_try {A B E} (p : prog Call (result E A)) (f : A -> prog Call (result E B)) xs w :
  run (try f p) xs w =
    match run p xs w with
    | (Some (Ok a), xs', w') => run (f a) xs' w'
    | (Some (Err e), xs', w') => (Some (Err e), xs', w')
    | (None, xs', w') => (None, xs', w')
    end.
Proof. unfold try. rewrite run_bind. by destruct (run p xs w) as [[[[a|e]|] xs'] w']. Qed.

(** A loop over a list that ends at the first error. *)
Fixpoint each {A E} (f : A -> prog Call (result E unit)) (l : list A) : prog Call (result E unit) :=
  match l with
  | [] => Ret (Ok tt)
  | a :: l' => do? f a ;; each f l'
  end.

Lemma wp_each {A E} good I (f : A -> prog Call (result E unit)) (P : W -> Prop) l (Q : result E unit -> W -> Prop) w :
  P w -> I w ->
  (forall a v, a ∈ l -> P v -> I v -> wp good I (f a) (fun r v' => match r with Ok _ => P v' | Err e => Q (Err e) v' end) v) ->
  (forall v, I v -> P v -> Q (Ok tt) v) ->
  wp good I (each f l) Q w.
Proof.
  revert w. induction l as [|a l IH]; intros w HP HI Hf Hq; cbn [each]; [apply wp_ret; auto|].
  apply wp_try. eapply wp_post; [apply Hf; [apply list_elem_of_here|done..]|].
  intros [u|e] v Hv; cbn; [|done]. intros Hp. apply IH; try done. intros b v' Hb. apply Hf. by apply list_elem_of_further.
Qed.

End Programs.

(* ------------------------------------------------------------------ *)
(** ** A program inside another *)

(** The calls of a component as calls of the one that uses it. *)
Fixpoint lift {C D : Type -> Type} (f : forall R, C R -> D R) {A} (p : prog C A) : prog D A :=
  match p with
  | Ret a => Ret a
  | Stuck => Stuck
  | Act c k => Act (f _ c) (fun r => lift f (k r))
  end.

Lemma lift_bind {C D : Type -> Type} (f : forall R, C R -> D R) {A B} (p : prog C A) (g : A -> prog C B) :
  forall {W X} `{!Handler D W X} good I Q w,
  wp good I (lift f p ≫= (fun a => lift f (g a))) Q w -> wp good I (lift f (p ≫= g)) Q w.
Proof.
  intros W X HH good I Q. induction p as [a| |R c k IH]; intros w Hw; [done..|].
  destruct Hw as [Hi Hk]. split; [done|]. intros x Hx. apply IH. by apply Hk.
Qed.

(* ------------------------------------------------------------------ *)
(** ** What a program can return, whatever the calls answer *)

Fixpoint returns {Call A} (p : prog Call A) (Q : A -> Prop) : Prop :=
  match p with
  | Ret a => Q a
  | Stuck => True
  | Act _ k => forall r, returns (k r) Q
  end.

Lemma returns_run {Call W X} `{!Handler Call W X} {A} (p : prog Call A) Q xs w a rest w' :
  returns p Q -> run p xs w = (Some a, rest, w') -> Q a.
Proof.
  revert xs w. induction p as [b| |R c k IH]; intros xs w Hp; cbn [run].
  - by intros [= <- _ _].
  - done.
  - destruct xs as [|x xs]; [done|]. destruct (act c x w) as [r w1]. by apply IH.
Qed.

Lemma returns_bind {Call A B} (p : prog Call A) (f : A -> prog Call B) Q :
  returns p (fun a => returns (f a) Q) -> returns (p ≫= f) Q.
Proof. induction p as [a| |R c k IH]; [done|done|]. intros Hp r. apply (IH r), Hp. Qed.

Lemma returns_lift {C D : Type -> Type} (f : forall R, C R -> D R) {A} (p : prog C A) Q :
  returns p Q -> returns (lift f p) Q.
Proof. induction p as [a| |R c k IH]; cbn; auto. Qed.

Lemma returns_mono {Call A} (p : prog Call A) (Q Q' : A -> Prop) :
  returns p Q -> (forall a, Q a -> Q' a) -> returns p Q'.
Proof. intros Hp Hq. induction p as [a| |R c k IH]; cbn in *; auto. Qed.
