(* ===== verification/KubeApps.v ===== *)
(** * Switching an app off and on

    [src/internal/kube/startstop.go] and [apppower.go], with [ScaleWorkload] and
    the rollout restart of [workloadkinds.go]: a workload is stopped through its
    controller, the count it ran is written onto the object first, and a start
    reads it back. The functions are programs over the calls of the Kubernetes
    API ([KubeCall]); what the API server does with a patch it accepted is in the
    class [ApiServer], with the documented rules of a strategic merge as its
    laws. *)

From S2P Require Import Prelude GoText Effects.

(* ------------------------------------------------------------------ *)
(** ** What the API server keeps *)

(** [WorkloadKind]; [Pod] stands for a kind the client does not know. *)
Inductive Kind := Deployment | StatefulSet | DaemonSet | Job | CronJob | Pod.

#[global] Instance Kind_eq_dec : EqDecision Kind.
Proof. solve_decision. Defined.
#[global] Instance Kind_countable : Countable Kind.
Proof.
  apply (inj_countable'
    (fun k => match k with Deployment => 0 | StatefulSet => 1 | DaemonSet => 2 | Job => 3 | CronJob => 4 | Pod => 5 end)
    (fun n => match n with 0 => Deployment | 1 => StatefulSet | 2 => DaemonSet | 3 => Job | 4 => CronJob | _ => Pod end)).
  by intros [].
Defined.

Definition kind_name (k : Kind) : string :=
  match k with
  | Deployment => "Deployment" | StatefulSet => "StatefulSet" | DaemonSet => "DaemonSet"
  | Job => "Job" | CronJob => "CronJob" | Pod => "Pod"
  end.

Record Requirement := mkReq { q_key : string; q_op : string; q_values : list string }.
Record LabelSelector := mkSelector { MatchLabels : gmap string string; MatchExpressions : list Requirement }.
Record JobCondition := mkCond { c_type : string; c_status : string }.

(** The fields of a workload the client reads or writes; those a kind does not
    have are not looked at for it. A nil map of the object is an empty one. *)
Record Object := mkObject {
  Annotations : gmap string string;
  Replicas : option Z;                  (* Spec.Replicas *)
  ReadyReplicas : Z;
  NodeSelector : gmap string string;    (* Spec.Template.Spec.NodeSelector *)
  DesiredNumberScheduled : Z;
  NumberReady : Z;
  Suspend : option bool;
  Conditions : list JobCondition;
  Completed : bool;                     (* Status.CompletionTime != nil *)
  Active : Z;
  Selector : option LabelSelector;
  RestartedAt : option time }.          (* the annotation of a rollout restart on the template *)

Abbreviation Ref := (Kind * string * string)%type (only parsing).

Inductive api_error := NotFound | ApiOther (why : string).

(** A strategic merge patch as this client builds them: keys of the annotations
    and of the node selector, with [None] for null, and [spec.suspend]. *)
Record Patch := mkPatch {
  p_annotations : gmap string (option string);
  p_node_selector : gmap string (option string);
  p_suspend : option bool;
  p_restarted : option time }.

Definition annotate (k : string) (v : option string) : Patch := mkPatch {[ k := v ]} ∅ None None.

(** The scale subresource with its resource version. *)
Record Scale := mkScale { sc_replicas : Z; sc_version : Z }.

(** A merge of string maps: a null removes the key, a value sets it. *)
Definition merge_keys (p : gmap string (option string)) (m : gmap string string) : gmap string string :=
  merge (fun new old => match new with Some v => v | None => old end) p m.

(** What the API server makes of a patch and of a new scale: its code is not
    part of the program, its documented rules are. *)
Class ApiServer := {
  patched : Patch -> Object -> Object;
  scaled : Z -> Object -> Object;
  (** A patch merges the maps key by key and touches nothing it does not name. *)
  patched_annotations p o : Annotations (patched p o) = merge_keys (p_annotations p) (Annotations o);
  patched_selector p o : NodeSelector (patched p o) = merge_keys (p_node_selector p) (NodeSelector o);
  patched_suspend p o : Suspend (patched p o) = p_suspend p ∪ Suspend o;
  patched_replicas p o : Replicas (patched p o) = Replicas o;
  patched_status p o : Conditions (patched p o) = Conditions o /\ Completed (patched p o) = Completed o;
  (** An update of the scale sets the count and nothing else of the spec. *)
  scaled_replicas n o : Replicas (scaled n o) = Some n;
  scaled_annotations n o : Annotations (scaled n o) = Annotations o;
  scaled_selector n o : NodeSelector (scaled n o) = NodeSelector o;
  scaled_suspend n o : Suspend (scaled n o) = Suspend o
}.

Record PodObject := mkPod {
  PodNamespace : string;
  PodName : string;
  PodNode : string;
  PodPhase : string;
  PodAnnotations : gmap string string;
  PodOwner : option (string * string);   (* the controller reference: kind and name *)
  PodEmptyDirs : list bool;              (* per volume: EmptyDir != nil *)
  PodStatuses : list bool }.             (* per container: Ready *)

(** ** The calls *)

Inductive KubeCall : Type -> Type :=
  | GetObject (r : Ref) : KubeCall (result api_error Object)
  | GetScale (r : Ref) : KubeCall (result api_error Scale)
  | UpdateScale (r : Ref) (s : Scale) : KubeCall (result api_error unit)
  | PatchObject (r : Ref) (p : Patch) : KubeCall (result api_error unit)
  | GetPod (ns name : string) : KubeCall (result api_error PodObject)
  | ListPods (ns selector : string) : KubeCall (result api_error (list PodObject))
  | ListJobs (ns : string) : KubeCall (result api_error (list (string * Object * option (string * string))))
  | DeletePod (ns name : string) (grace : option Z) : KubeCall (result api_error unit).

(** What the client reports: the sentinel errors its callers test for, and the
    rest by what happened. *)
Inductive kube_error :=
  | ErrNoSuchWorkload
  | ErrCannotStop (why : string)
  | EKube (why : string).

Abbreviation K A := (prog KubeCall (result kube_error A)) (only parsing).

(** [wrapNotFound]. *)
Definition wrapNotFound (e : api_error) : kube_error :=
  match e with NotFound => ErrNoSuchWorkload | ApiOther why => EKube why end.

(** A call with its error wrapped. *)
Definition wrapped {R} (c : KubeCall (result api_error R)) : K R :=
  r ← call c; mret (match r with Ok a => Ok a | Err e => Err (wrapNotFound e) end).

(* ------------------------------------------------------------------ *)
(** ** startstop.go *)

Definition replicasBeforeStop : string := "holzkube.holzcloud.ch/replicas-before-stop".
Definition StoppedSelectorKey : string := "holzkube.io/stopped".
Definition selectorBeforeStop : string := "holzkube.io/node-selector-before-stop".
Definition DisabledAnnotation : string := "holzkube.io/disabled".

(** [strconv.ParseInt(s, 10, 32)]. *)
Definition parse_int32 (s : string) : option Z :=
  match atoi s with
  | Some n => if bool_decide (- 2 ^ 31 <= n < 2 ^ 31)%Z then Some n else None
  | None => None
  end.

Definition rememberedIn (annotations : gmap string string) : Z :=
  match parse_int32 (default "" (annotations !! replicasBeforeStop)) with
  | Some n => if bool_decide (n < 0)%Z then 0%Z else n
  | None => 0%Z
  end.

Definition disabledIn (annotations : gmap string string) : bool :=
  bool_decide (annotations !! DisabledAnnotation = Some "true").

Definition daemonSetStopped (selector : gmap string string) : bool :=
  bool_decide (is_Some (selector !! StoppedSelectorKey)).

Definition patchWorkload (kind : Kind) (ns name : string) (p : Patch) : K unit :=
  match kind with
  | Pod => mret (Err (ErrCannotStop "cannot be patched this way"))
  | _ => wrapped (PatchObject (kind, ns, name) p)
  end.

Definition suspend (kind : Kind) (ns name : string) (suspended : bool) : K unit :=
  patchWorkload kind ns name (mkPatch ∅ ∅ (Some suspended) None).

Definition replicasOf (kind : Kind) (ns name : string) : K Z :=
  match kind with
  | Deployment | StatefulSet => s <-? wrapped (GetScale (kind, ns, name)) ;; mret (Ok (sc_replicas s))
  | _ => mret (Err (ErrCannotStop "has no replica count"))
  end.

Definition remember (kind : Kind) (ns name : string) (replicas : Z) : K unit :=
  patchWorkload kind ns name (annotate replicasBeforeStop (Some (itoa replicas))).

(** [metaOf] and [remembered]. *)
Definition metaOf (kind : Kind) (ns name : string) : K (gmap string string) :=
  match kind with
  | Deployment | StatefulSet => o <-? wrapped (GetObject (kind, ns, name)) ;; mret (Ok (Annotations o))
  | _ => mret (Err (ErrCannotStop "keeps no count"))
  end.
Definition remembered (kind : Kind) (ns name : string) : K Z :=
  a <-? metaOf kind ns name ;; mret (Ok (rememberedIn a)).

(** [ScaleWorkload]; [Scale] of kube.go is its Deployment case, read and written
    the same way. *)
Definition ScaleWorkload (kind : Kind) (ns name : string) (replicas : Z) : K unit :=
  if bool_decide (replicas < 0)%Z then mret (Err (EKube "not a replica count"))
  else
    match kind with
    | Deployment | StatefulSet =>
        s <-? wrapped (GetScale (kind, ns, name)) ;;
        wrapped (UpdateScale (kind, ns, name) (mkScale replicas (sc_version s)))
    | _ => mret (Err (EKube "has no replica count to set"))
    end.

Definition RolloutRestartWorkload (kind : Kind) (ns name : string) (now : time) : K unit :=
  match kind with
  | Deployment | StatefulSet | DaemonSet => wrapped (PatchObject (kind, ns, name) (mkPatch ∅ ∅ None (Some now)))
  | _ => mret (Err (EKube "has no pod template to roll"))
  end.

Section Client.
(** [json.Marshal] of a selector, for the record a stop leaves; and the text of a
    label selector, which is the library's. *)
Context (marshal_selector : gmap string string -> string).
Context (selector_text : LabelSelector -> option string).

(** ** A DaemonSet's stop *)

Definition stopDaemonSet (ns name : string) : K unit :=
  set <-? wrapped (GetObject (DaemonSet, ns, name)) ;;
  if daemonSetStopped (NodeSelector set) then mret (Ok tt)
  else
    patchWorkload DaemonSet ns name
      (mkPatch {[ selectorBeforeStop := Some (marshal_selector (NodeSelector set)) ]}
         {[ StoppedSelectorKey := Some "true" ]} None None).

Definition startDaemonSet (ns name : string) : K unit :=
  set <-? wrapped (GetObject (DaemonSet, ns, name)) ;;
  if negb (daemonSetStopped (NodeSelector set)) then mret (Ok tt)
  else
    patchWorkload DaemonSet ns name
      (mkPatch {[ selectorBeforeStop := None ]} {[ StoppedSelectorKey := None ]} None None).

(** ** Stop and start *)

Definition Stop (kind : Kind) (ns name : string) : K unit :=
  match kind with
  | CronJob | Job => suspend kind ns name true
  | Deployment | StatefulSet =>
      current <-? replicasOf kind ns name ;;
      if bool_decide (current = 0)%Z then mret (Ok tt)
      else
        do? remember kind ns name current ;;
        ScaleWorkload kind ns name 0
  | DaemonSet => stopDaemonSet ns name
  | Pod => mret (Err (ErrCannotStop "is not a kind this product stops"))
  end.

Definition Start (kind : Kind) (ns name : string) : K unit :=
  match kind with
  | CronJob | Job => suspend kind ns name false
  | Deployment | StatefulSet =>
      n <-? remembered kind ns name ;;
      ScaleWorkload kind ns name (if bool_decide (n <= 0)%Z then 1%Z else n)
  | DaemonSet => startDaemonSet ns name
  | Pod => mret (Err (ErrCannotStop "is not something that was stopped"))
  end.

(* ------------------------------------------------------------------ *)
(** ** apppower.go *)

Record AppPower := mkPower {
  Disabled : bool;
  Stopped : bool;
  Finished : bool;
  Desired : Z;
  Ready : Z;
  WouldStartWith : Z }.

Definition jobFinished (o : Object) : bool :=
  existsb (fun c => (bool_decide (c_type c = "Complete") || bool_decide (c_type c = "Failed"))
                    && bool_decide (c_status c = "True")) (Conditions o)
  || Completed o.

(** What [AppPowerOf] makes of the object it read. *)
Definition app_power (kind : Kind) (o : Object) : AppPower :=
  let suspended := bool_decide (Suspend o = Some true) in
  match kind with
  | Deployment | StatefulSet =>
      let desired := default 1%Z (Replicas o) in
      mkPower (disabledIn (Annotations o)) (bool_decide (desired = 0)%Z) false desired (ReadyReplicas o)
        (rememberedIn (Annotations o))
  | DaemonSet =>
      mkPower (disabledIn (Annotations o)) (daemonSetStopped (NodeSelector o)) false
        (DesiredNumberScheduled o) (NumberReady o) 0
  | Job =>
      let finished := jobFinished o in
      if negb suspended && negb finished
      then mkPower (disabledIn (Annotations o)) suspended finished 1 (if bool_decide (0 < Active o)%Z then 1 else 0) 0
      else mkPower (disabledIn (Annotations o)) suspended finished 0 0 0
  | _ => mkPower (disabledIn (Annotations o)) suspended false 0 0 0
  end.

Definition AppPowerOf (kind : Kind) (ns name : string) : K AppPower :=
  match kind with
  | Pod => mret (Err ErrNoSuchWorkload)
  | _ => o <-? wrapped (GetObject (kind, ns, name)) ;; mret (Ok (app_power kind o))
  end.

Definition SetAppDisabled (kind : Kind) (ns name : string) (disabled : bool) : K unit :=
  patchWorkload kind ns name (annotate DisabledAnnotation (if disabled then Some "true" else None)).

(** ** Pods *)

Record PodPower := mkPodPower { Owner : string; Phase : string; PReady : bool }.

Definition pod_power (p : PodObject) : PodPower :=
  mkPodPower (match PodOwner p with Some (k, n) => k +:+ "/" +:+ n | None => "" end) (PodPhase p)
    (bool_decide (0 < length (PodStatuses p)) && forallb id (PodStatuses p)).

Definition PodPowerOf (ns name : string) : K PodPower :=
  p <-? wrapped (GetPod ns name) ;; mret (Ok (pod_power p)).

Definition deletePod (ns name : string) (force : bool) : K unit :=
  r ← call (DeletePod ns name (if force then Some 0%Z else None));
  mret (match r with
        | Ok _ | Err NotFound => Ok tt
        | Err (ApiOther why) => Err (EKube why)
        end).

Definition DeleteBarePod (ns name : string) (force : bool) : K unit :=
  pod <-? PodPowerOf ns name ;;
  if negb (bool_decide (Owner pod = "")) then mret (Err (ErrCannotStop "belongs to a controller"))
  else deletePod ns name force.

Definition renderSelector (s : option LabelSelector) : result kube_error string :=
  match s with
  | None => Err (ErrCannotStop "it has no pod selector")
  | Some sel =>
      if bool_decide (size (MatchLabels sel) = 0) && bool_decide (length (MatchExpressions sel) = 0)
      then Err (ErrCannotStop "it has no pod selector")
      else
        match selector_text sel with
        | Some t => Ok t
        | None => Err (EKube "its pod selector cannot be read")
        end
  end.

(** The loop over the Jobs of a namespace, in [cronJobSelectors]. *)
Fixpoint cron_selectors (name : string) (jobs : list (string * Object * option (string * string))) (out : list string)
    : result kube_error (list string) :=
  match jobs with
  | [] => Ok out
  | (_, j, owner) :: jobs' =>
      if bool_decide (owner = Some (kind_name CronJob, name))
      then
        match renderSelector (Selector j) with
        | Ok t => cron_selectors name jobs' (out ++ [t])
        | Err e => Err e
        end
      else cron_selectors name jobs' out
  end.

Definition cronJobSelectors (ns name : string) : K (list string) :=
  do? wrapped (GetObject (CronJob, ns, name)) ;;
  jobs <-? wrapped (ListJobs ns) ;;
  mret (cron_selectors name jobs []).

Definition appSelectors (kind : Kind) (ns name : string) : K (list string) :=
  match kind with
  | CronJob => cronJobSelectors ns name
  | Pod => mret (Err ErrNoSuchWorkload)
  | _ =>
      o <-? wrapped (GetObject (kind, ns, name)) ;;
      mret (t ← renderSelector (Selector o); Ok [t])
  end.

(** The two loops of [ForceDeleteAppPods]; the count goes on through an error, as
    the code's named result does. *)
Fixpoint delete_pods (ns : string) (pods : list PodObject) (deleted : Z) : prog KubeCall (Z * option kube_error) :=
  match pods with
  | [] => mret (deleted, None)
  | p :: pods' =>
      r ← deletePod ns (PodName p) true;
      match r with
      | Ok _ => delete_pods ns pods' (deleted + 1)%Z
      | Err e => mret (deleted, Some e)
      end
  end.

Fixpoint delete_matching (ns : string) (selectors : list string) (deleted : Z) : prog KubeCall (Z * option kube_error) :=
  match selectors with
  | [] => mret (deleted, None)
  | s :: selectors' =>
      r ← call (ListPods ns s);
      match r with
      | Err e => mret (deleted, Some (wrapNotFound e))
      | Ok pods =>
          q ← delete_pods ns pods deleted;
          match q with
          | (n, None) => delete_matching ns selectors' n
          | (n, Some e) => mret (n, Some e)
          end
      end
  end.

Definition ForceDeleteAppPods (kind : Kind) (ns name : string) : prog KubeCall (Z * option kube_error) :=
  r ← appSelectors kind ns name;
  match r with
  | Err e => mret (0%Z, Some e)
  | Ok selectors => delete_matching ns selectors 0
  end.

End Client.

(* ------------------------------------------------------------------ *)
(** ** A cluster to run against

    The objects with their resource versions, and what was asked of the cluster
    so far. For every call the environment chooses whether it fails, before or
    after it took effect, and what others did to the cluster before it. *)

Inductive KubeEvent :=
  | KPatch (r : Ref) (p : Patch)
  | KScale (r : Ref) (n : Z)
  | KList (ns selector : string) (pods : list PodObject)
  | KDelete (ns name : string) (grace : option Z).

Record Cluster := mkCluster {
  objects : gmap Ref (Z * Object);
  pods : gmap (string * string) PodObject;
  events : list KubeEvent }.

Inductive kube_fault := Fine | Refused (why : string) | AnswerLost (why : string).

Record kchoice := mkKChoice {
  k_fault : kube_fault;
  k_others : Cluster -> Cluster;
  k_listed : list PodObject;
  k_jobs : list (string * Object * option (string * string)) }.

Definition set_objects (m : gmap Ref (Z * Object)) (w : Cluster) : Cluster := mkCluster m (pods w) (events w).
Definition set_pods (m : gmap (string * string) PodObject) (w : Cluster) : Cluster := mkCluster (objects w) m (events w).
Definition log_event (e : KubeEvent) (w : Cluster) : Cluster := mkCluster (objects w) (pods w) (events w ++ [e]).

(** A read: refused, or answered. *)
Definition answered {R} (f : kube_fault) (r : result api_error R) (w : Cluster) : result api_error R * Cluster :=
  match f with
  | Fine => (r, w)
  | Refused why | AnswerLost why => (Err (ApiOther why), w)
  end.

(** A write: refused, or done, and then maybe the answer is lost. *)
Definition written (f : kube_fault) (r : result api_error unit) (w w' : Cluster) : result api_error unit * Cluster :=
  match f, r with
  | Refused why, _ => (Err (ApiOther why), w)
  | _, Err e => (Err e, w)
  | Fine, Ok _ => (Ok tt, w')
  | AnswerLost why, Ok _ => (Err (ApiOther why), w')
  end.

Definition lookup_object (w : Cluster) (r : Ref) : result api_error (Z * Object) :=
  match objects w !! r with Some vo => Ok vo | None => Err NotFound end.

Definition change_object (w : Cluster) (r : Ref) (f : Object -> Object) (e : KubeEvent) : Cluster :=
  log_event e (set_objects (alter (fun vo => ((vo.1 + 1)%Z, f vo.2)) r (objects w)) w).

Definition kube_act `{ApiServer} (R : Type) (c : KubeCall R) (x : kchoice) (w0 : Cluster) : R * Cluster :=
  let w := k_others x w0 in
  match c in KubeCall R return R * Cluster with
  | GetObject r => answered (k_fault x) (vo ← lookup_object w r; Ok vo.2) w
  | GetScale r =>
      answered (k_fault x) (vo ← lookup_object w r; Ok (mkScale (default 1%Z (Replicas vo.2)) vo.1)) w
  | UpdateScale r s =>
      written (k_fault x)
        (vo ← lookup_object w r;
         if bool_decide (vo.1 = sc_version s) then Ok tt else Err (ApiOther "the object has been modified"))
        w (change_object w r (scaled (sc_replicas s)) (KScale r (sc_replicas s)))
  | PatchObject r p =>
      written (k_fault x) (vo ← lookup_object w r; Ok tt) w (change_object w r (patched p) (KPatch r p))
  | GetPod ns name =>
      answered (k_fault x) (match pods w !! (ns, name) with Some p => Ok p | None => Err NotFound end) w
  | ListPods ns sel =>
      match k_fault x with
      | Fine => (Ok (k_listed x), log_event (KList ns sel (k_listed x)) w)
      | Refused why | AnswerLost why => (Err (ApiOther why), w)
      end
  | ListJobs ns => answered (k_fault x) (Ok (k_jobs x)) w
  | DeletePod ns name grace =>
      written (k_fault x) (match pods w !! (ns, name) with Some _ => Ok tt | None => Err NotFound end)
        w (log_event (KDelete ns name grace) (set_pods (delete (ns, name) (pods w)) w))
  end.

#[global] Instance kube_handler `{ApiServer} : Handler KubeCall Cluster kchoice := kube_act.

Lemma merge_set k v m : merge_keys {[ k := Some v ]} m = <[k := v]> m.
Proof.
  apply map_eq. intros i. unfold merge_keys. rewrite lookup_merge. destruct (decide (i = k)) as [-> |Hne].
  - rewrite lookup_singleton_eq, lookup_insert_eq. by destruct (m !! k).
  - rewrite lookup_singleton_ne, lookup_insert_ne by done. by destruct (m !! i).
Qed.

Lemma merge_null k m : merge_keys {[ k := None ]} m = delete k m.
Proof.
  apply map_eq. intros i. unfold merge_keys. rewrite lookup_merge. destruct (decide (i = k)) as [-> |Hne].
  - rewrite lookup_singleton_eq, lookup_delete_eq. by destruct (m !! k).
  - rewrite lookup_singleton_ne, lookup_delete_ne by done. by destruct (m !! i).
Qed.

(** The three shapes of the verbs. *)
Definition counted (kind : Kind) : bool := bool_decide (kind = Deployment \/ kind = StatefulSet).
Definition suspended_kind (kind : Kind) : bool := bool_decide (kind = Job \/ kind = CronJob).

Lemma kind_shapes kind : counted kind = true \/ suspended_kind kind = true \/ kind = DaemonSet \/ kind = Pod.
Proof. destruct kind; auto. Qed.

Lemma scale_shape kind ns name n :
  counted kind = true -> (0 <= n)%Z ->
  ScaleWorkload kind ns name n =
    (s <-? wrapped (GetScale (kind, ns, name)) ;; wrapped (UpdateScale (kind, ns, name) (mkScale n (sc_version s)))).
Proof. intros Hk Hn. unfold ScaleWorkload. rewrite bool_decide_false by lia. by destruct kind. Qed.

Lemma stop_counted ms kind ns name :
  counted kind = true ->
  Stop ms kind ns name =
    (current <-? (s <-? wrapped (GetScale (kind, ns, name)) ;; mret (Ok (sc_replicas s))) ;;
     if bool_decide (current = 0)%Z then mret (Ok tt)
     else do? wrapped (PatchObject (kind, ns, name) (annotate replicasBeforeStop (Some (itoa current)))) ;;
          ScaleWorkload kind ns name 0).
Proof. by destruct kind. Qed.

Lemma start_counted kind ns name :
  counted kind = true ->
  Start kind ns name =
    (n <-? (a <-? (o <-? wrapped (GetObject (kind, ns, name)) ;; mret (Ok (Annotations o))) ;; mret (Ok (rememberedIn a))) ;;
     ScaleWorkload kind ns name (if bool_decide (n <= 0)%Z then 1%Z else n)).
Proof. by destruct kind. Qed.

Lemma stopped_counted kind o :
  counted kind = true -> Stopped (app_power kind o) = bool_decide (default 1%Z (Replicas o) = 0%Z).
Proof. by destruct kind. Qed.

Lemma stopped_suspended kind o :
  suspended_kind kind = true -> Stopped (app_power kind o) = bool_decide (Suspend o = Some true).
Proof. destruct kind; try done. intros _. cbn. by case_match. Qed.

Lemma stop_suspended ms kind ns name :
  suspended_kind kind = true ->
  Stop ms kind ns name = wrapped (PatchObject (kind, ns, name) (mkPatch ∅ ∅ (Some true) None)) /\
  Start kind ns name = wrapped (PatchObject (kind, ns, name) (mkPatch ∅ ∅ (Some false) None)).
Proof. by destruct kind. Qed.

(* ------------------------------------------------------------------ *)
(** ** A start brings back what a stop took *)

Section Roundtrip.
Context `{ApiServer} (marshal_selector : gmap string string -> string).
Variables (kind : Kind) (ns name : string).
#[local] Abbreviation app := (kind, ns, name) (only parsing).

(** The object is of a kind the client knows, running, and at a count the API server accepts. *)
Definition running (o : Object) : Prop :=
  kind <> Pod /\ Stopped (app_power kind o) = false /\ (0 <= default 1 (Replicas o) < 2 ^ 31)%Z.

(** As large as [o]: what decides how many pods the controller keeps. *)
Definition same_size (o2 o : Object) : Prop :=
  (counted kind = true -> default 1%Z (Replicas o2) = default 1%Z (Replicas o)) /\
  (kind = DaemonSet -> NodeSelector o2 = NodeSelector o) /\
  (suspended_kind kind = true -> Suspend o2 <> Some true).

(** Others who leave what the verbs write on this object alone (they may change
    its status, and with it the resource version). *)
Definition same_spec (o2 o : Object) : Prop :=
  Annotations o2 = Annotations o /\ Replicas o2 = Replicas o /\ NodeSelector o2 = NodeSelector o /\ Suspend o2 = Suspend o.
Definition leaves (x : kchoice) : Prop :=
  forall w v o, objects w !! app = Some (v, o) ->
    exists v2 o2, objects (k_others x w) !! app = Some (v2, o2) /\ same_spec o2 o.
(** Nothing fails and nobody touches the object. *)
Definition quiet (x : kchoice) : Prop :=
  k_fault x = Fine /\ forall w, objects (k_others x w) !! app = objects w !! app.

Abbreviation at_object P := (fun w : Cluster => exists v o, objects w !! app = Some (v, o) /\ P o) (only parsing).

(** On the way of a stop the object is as it was, or stopped with the way back
    written on it. *)
Definition stopping (o o1 : Object) : Prop :=
  (counted kind = true ->
     Replicas o1 = Replicas o \/ (Replicas o1 = Some 0%Z /\ rememberedIn (Annotations o1) = default 1%Z (Replicas o))) /\
  (kind = DaemonSet ->
     NodeSelector o1 = NodeSelector o \/ NodeSelector o1 = <[StoppedSelectorKey := "true"]> (NodeSelector o)) /\
  (suspended_kind kind = true -> Suspend o1 = Suspend o \/ Suspend o1 = Some true).

Lemma remembered_itoa (n : Z) (m : gmap string string) :
  (0 <= n < 2 ^ 31)%Z -> rememberedIn (merge_keys {[ replicasBeforeStop := Some (itoa n) ]} m) = n.
Proof.
  intros Hn. unfold rememberedIn. rewrite merge_set, lookup_insert_eq. cbn -[itoa].
  assert (E : parse_int32 (itoa n) = Some n).
  { unfold parse_int32. rewrite atoi_itoa; [|lia|].
    - by rewrite bool_decide_true by lia.
    - unfold in_int64, min_int64, max_int64. rewrite !bool_decide_true by lia. done. }
  by rewrite E, bool_decide_false by lia.
Qed.

Lemma object_seen x w v o :
  leaves x -> objects w !! app = Some (v, o) ->
  exists v2 o2, lookup_object (k_others x w) app = Ok (v2, o2) /\ objects (k_others x w) !! app = Some (v2, o2) /\ same_spec o2 o.
Proof.
  intros Hx Hw. destruct (Hx w v o Hw) as (v2 & o2 & E & Hs). exists v2, o2. split_and!; [|done..].
  unfold lookup_object. by rewrite E.
Qed.

(** What a write of this client leaves of the object, whatever becomes of the
    answer. *)
Lemma change_seen w v o f e : objects w !! app = Some (v, o) -> objects (change_object w app f e) !! app = Some ((v + 1)%Z, f o).
Proof. intros E. unfold change_object; cbn. by rewrite lookup_alter_eq, E. Qed.

Section Calls.
Variable J : Object -> Prop.
Let I (w : Cluster) : Prop := at_object J w.
Definition stable (P : Object -> Prop) : Prop := forall o o2, P o -> same_spec o2 o -> P o2.

Lemma inside P w : (forall o, P o -> J o) -> at_object P w -> I w.
Proof. intros HJ (v & o & E & Ho). do 2 eexists. eauto. Qed.

Lemma moved P x w : leaves x -> stable P -> at_object P w -> at_object P (k_others x w).
Proof. intros Hx HP (v & o & E & Ho). destruct (Hx w v o E) as (v2 & o2 & E2 & Hs). eauto. Qed.

Lemma wp_get P w (Q : result kube_error Object -> Cluster -> Prop) :
  stable P -> (forall o, P o -> J o) -> at_object P w ->
  (forall o w', P o -> at_object P w' -> Q (Ok o) w') -> (forall e w', at_object P w' -> Q (Err e) w') ->
  wp leaves I (wrapped (GetObject app)) Q w.
Proof.
  intros HP HJ Hw Hok Herr. pose proof (fun w => inside P w HJ) as HI.
  apply wp_act; [by apply HI|]. intros x Hx. apply (moved P x w Hx HP) in Hw as Hw2.
  destruct Hw2 as (v & o & E & Ho). assert (HI2 : at_object P (k_others x w)) by eauto.
  cbn. unfold lookup_object. rewrite E. destruct (k_fault x); cbn; (split; [by apply HI|eauto]).
Qed.

Lemma wp_scale_get P w (Q : result kube_error Scale -> Cluster -> Prop) :
  stable P -> (forall o, P o -> J o) -> at_object P w ->
  (forall s o w', P o -> sc_replicas s = default 1%Z (Replicas o) -> at_object P w' -> Q (Ok s) w') ->
  (forall e w', at_object P w' -> Q (Err e) w') ->
  wp leaves I (wrapped (GetScale app)) Q w.
Proof.
  intros HP HJ Hw Hok Herr. pose proof (fun w => inside P w HJ) as HI.
  apply wp_act; [by apply HI|]. intros x Hx. apply (moved P x w Hx HP) in Hw as Hw2.
  destruct Hw2 as (v & o & E & Ho). assert (HI2 : at_object P (k_others x w)) by eauto.
  cbn. unfold lookup_object. rewrite E. destruct (k_fault x); cbn; (split; [by apply HI|eauto]).
Qed.

(** A write takes [P] to [P'], or did nothing; what it answers says which only
    when it is no error. *)
Lemma wp_patch P P' p w (Q : result kube_error unit -> Cluster -> Prop) :
  stable P -> (forall o, P o -> J o) -> (forall o, P o -> P' (patched p o)) -> (forall o, P' o -> J o) -> at_object P w ->
  (forall w', at_object P' w' -> Q (Ok tt) w') -> (forall e w', at_object J w' -> Q (Err e) w') ->
  wp leaves I (wrapped (PatchObject app p)) Q w.
Proof.
  intros HP HJ HP' HJ' Hw Hok Herr.
  pose proof (fun w => inside P w HJ) as HI. pose proof (fun w => inside P' w HJ') as HI'.
  apply wp_act; [by apply HI|]. intros x Hx. apply (moved P x w Hx HP) in Hw as Hw2.
  destruct Hw2 as (v & o & E & Ho). assert (HI2 : at_object P (k_others x w)) by eauto.
  assert (HI3 : at_object P' (change_object (k_others x w) app (patched p) (KPatch app p))).
  { do 2 eexists. split; [by apply (change_seen _ v o)|auto]. }
  cbn. unfold lookup_object. rewrite E. destruct (k_fault x); cbn.
  - split; [by apply HI'|auto].
  - split; [by apply HI|apply Herr, HI, HI2].
  - split; [by apply HI'|apply Herr, HI', HI3].
Qed.

Lemma wp_scale_update P P' s w (Q : result kube_error unit -> Cluster -> Prop) :
  stable P -> (forall o, P o -> J o) -> (forall o, P o -> P' (scaled (sc_replicas s) o)) -> (forall o, P' o -> J o) ->
  at_object P w ->
  (forall w', at_object P' w' -> Q (Ok tt) w') -> (forall e w', at_object J w' -> Q (Err e) w') ->
  wp leaves I (wrapped (UpdateScale app s)) Q w.
Proof.
  intros HP HJ HP' HJ' Hw Hok Herr.
  pose proof (fun w => inside P w HJ) as HI. pose proof (fun w => inside P' w HJ') as HI'.
  apply wp_act; [by apply HI|]. intros x Hx. apply (moved P x w Hx HP) in Hw as Hw2.
  destruct Hw2 as (v & o & E & Ho). assert (HI2 : at_object P (k_others x w)) by eauto.
  assert (HI3 : at_object P' (change_object (k_others x w) app (scaled (sc_replicas s)) (KScale app (sc_replicas s)))).
  { do 2 eexists. split; [by apply (change_seen _ v o)|auto]. }
  cbn. unfold lookup_object. rewrite E. cbn. case_bool_decide; destruct (k_fault x); cbn.
  1: split; [by apply HI'|auto].
  2: split; [by apply HI'|apply Herr, HI', HI3].
  all: split; [by apply HI|apply Herr, HI, HI2].
Qed.

End Calls.

Lemma merge_other (p : gmap string (option string)) (m : gmap string string) k : p !! k = None -> merge_keys p m !! k = m !! k.
Proof. intros E. unfold merge_keys. rewrite lookup_merge, E. by destruct (m !! k). Qed.

Lemma same_spec_stable o : stable (fun o1 => same_spec o1 o).
Proof. intros o1 o2 (?&?&?&?) (?&?&?&?). split_and!; etrans; eauto. Qed.

Lemma same_spec_stopping o o1 : same_spec o1 o -> stopping o o1.
Proof. intros (?&?&?&?). split_and!; auto. Qed.

Lemma stopping_stable o : stable (stopping o).
Proof.
  intros o1 o2 (H1 & H2 & H3) (Ha & Hr & Hs & Hu).
  split_and!; intros Hk; [rewrite Hr, Ha|rewrite Hs|rewrite Hu]; auto.
Qed.

(** The record of the count is made before the count is taken away. *)
Definition noted (o o1 : Object) : Prop :=
  Replicas o1 = Replicas o /\ rememberedIn (Annotations o1) = default 1%Z (Replicas o).

Lemma stop_kept_counted o w :
  counted kind = true -> running o -> at_object (fun o1 => same_spec o1 o) w ->
  wp leaves (fun w => at_object (stopping o) w) (Stop marshal_selector kind ns name) (fun _ _ => True) w.
Proof.
  intros Hk (_ & Hrun & Hn) H0. rewrite stop_counted by done.
  assert (Hnd : kind <> DaemonSet) by (by intros ->). assert (Hns : suspended_kind kind <> true) by (by destruct kind).
  assert (Hnoted : forall o1, noted o o1 -> stopping o o1) by (intros o1 []; split_and!; [auto|done|done]).
  assert (Hst : stable (noted o)) by (intros o1 o2 [] (Ha & Hr & _); split; [by rewrite Hr|by rewrite Ha]).
  apply wp_try, wp_try. eapply (wp_scale_get (stopping o)); [apply same_spec_stable|apply same_spec_stopping|done| |done].
  intros s o1 w1 (_ & Hr1 & _) -> Hw1. apply wp_ret; [by eapply inside, Hw1; apply same_spec_stopping|].
  rewrite Hr1. case_bool_decide as Hz; [apply wp_ret; [|done]; by eapply inside, Hw1; apply same_spec_stopping|].
  apply wp_try. eapply (wp_patch (stopping o) _ (noted o));
    [apply same_spec_stable|apply same_spec_stopping| |done|done| |done].
  { intros o2 (_ & Hr2 & _). split; [by rewrite patched_replicas|]. rewrite patched_annotations. by apply remembered_itoa. }
  intros w2 Hw2. rewrite scale_shape by done. apply wp_try.
  eapply (wp_scale_get (stopping o) (noted o)); [done..| |done].
  intros s2 o2 w3 _ _ Hw3. eapply (wp_scale_update (stopping o) (noted o) (stopping o)); try done.
  intros o3 [_ Ho3]. split_and!; [|done|done]. intros _. right. by rewrite scaled_replicas, scaled_annotations.
Qed.

Lemma stop_kept_suspended o w :
  suspended_kind kind = true -> at_object (fun o1 => same_spec o1 o) w ->
  wp leaves (fun w => at_object (stopping o) w) (Stop marshal_selector kind ns name) (fun _ _ => True) w.
Proof.
  intros Hk H0. destruct (stop_suspended marshal_selector kind ns name Hk) as [-> _].
  eapply (wp_patch (stopping o) _ (stopping o)); [apply same_spec_stable|apply same_spec_stopping| |done|done|done|done].
  intros o1 _. split_and!; [by destruct kind|by intros ->|]. intros _. right. rewrite patched_suspend. cbn. by destruct (Suspend o1).
Qed.

Lemma stop_kept_daemon o w :
  kind = DaemonSet -> at_object (fun o1 => same_spec o1 o) w ->
  wp leaves (fun w => at_object (stopping o) w) (Stop marshal_selector kind ns name) (fun _ _ => True) w.
Proof.
  intros Hk H0.
  assert (Stop marshal_selector kind ns name =
    (set <-? wrapped (GetObject app) ;;
     if daemonSetStopped (NodeSelector set) then mret (Ok tt)
     else wrapped (PatchObject app
       (mkPatch {[ selectorBeforeStop := Some (marshal_selector (NodeSelector set)) ]}
         {[ StoppedSelectorKey := Some "true" ]} None None)))) as -> by (by rewrite Hk).
  apply wp_try. eapply (wp_get (stopping o)); [apply same_spec_stable|apply same_spec_stopping|done| |done].
  intros o1 w1 Ho1 Hw1. case_match; [apply wp_ret; [|done]; by eapply inside, Hw1; apply same_spec_stopping|].
  eapply (wp_patch (stopping o) _ (stopping o)); [apply same_spec_stable|apply same_spec_stopping| |done|done|done|done].
  intros o2 (_ & _ & Hs & _). split_and!; [by rewrite Hk| |by rewrite Hk]. intros _. right.
  rewrite patched_selector. etrans; [apply merge_set|]. by rewrite Hs.
Qed.

Lemma stop_kept o w v xs res rest w1 :
  running o -> objects w !! app = Some (v, o) -> Forall leaves xs ->
  run (Stop marshal_selector kind ns name) xs w = (res, rest, w1) -> at_object (stopping o) w1.
Proof.
  intros Hrun Hw Hxs Hr.
  assert (H0 : at_object (fun o1 => same_spec o1 o) w) by (exists v, o; by split_and!).
  enough (wp leaves (fun w => at_object (stopping o) w) (Stop marshal_selector kind ns name) (fun _ _ => True) w) as Hwp
    by (by edestruct (wp_run leaves _ _ _ _ _ _ _ _ Hwp Hxs Hr)).
  destruct (kind_shapes kind) as [Hk|[Hk|[Hk|Hk]]].
  - by apply stop_kept_counted.
  - by apply stop_kept_suspended.
  - by apply stop_kept_daemon.
  - assert (Stop marshal_selector kind ns name = mret (Err (ErrCannotStop "is not a kind this product stops"))) as ->
      by (by rewrite Hk).
    apply wp_ret; [|done]. by eapply inside, H0; apply same_spec_stopping.
Qed.

(** ** The start *)

(** What one quiet call answers. *)
Lemma quiet_get x w v o : quiet x -> objects w !! app = Some (v, o) ->
  exists w1, act (GetObject app) x w = (Ok o, w1) /\ objects w1 !! app = Some (v, o).
Proof.
  intros [Hf Hq] E. exists (k_others x w). specialize (Hq w). cbn. unfold lookup_object. rewrite Hq, E, Hf. done.
Qed.

Lemma quiet_scale x w v o : quiet x -> objects w !! app = Some (v, o) ->
  exists w1, act (GetScale app) x w = (Ok (mkScale (default 1%Z (Replicas o)) v), w1) /\ objects w1 !! app = Some (v, o).
Proof.
  intros [Hf Hq] E. exists (k_others x w). specialize (Hq w). cbn. unfold lookup_object. rewrite Hq, E, Hf. done.
Qed.

Lemma quiet_update x w v o n : quiet x -> objects w !! app = Some (v, o) ->
  exists w1, act (UpdateScale app (mkScale n v)) x w = (Ok tt, w1) /\ objects w1 !! app = Some ((v + 1)%Z, scaled n o).
Proof.
  intros [Hf Hq] E. specialize (Hq w). eexists. cbn. unfold lookup_object. rewrite Hq, E, Hf. cbn.
  rewrite bool_decide_true by done. split; [done|]. apply (change_seen _ v o). by rewrite Hq.
Qed.

Lemma quiet_patch x w v o p : quiet x -> objects w !! app = Some (v, o) ->
  exists w1, act (PatchObject app p) x w = (Ok tt, w1) /\ objects w1 !! app = Some ((v + 1)%Z, patched p o).
Proof.
  intros [Hf Hq] E. specialize (Hq w). eexists. cbn. unfold lookup_object. rewrite Hq, E, Hf. cbn.
  split; [done|]. apply (change_seen _ v o). by rewrite Hq.
Qed.

(** The body of a start ends well and leaves [P] on the object. *)
Definition ends (p : K unit) (ys : list kchoice) (w : Cluster) (P : Object -> Prop) : Prop :=
  exists rest w2, run p ys w = (Some (Ok tt), rest, w2) /\ at_object P w2.

Lemma start_ends o o1 v1 w1 y1 y2 y3 ys :
  running o -> stopping o o1 -> objects w1 !! app = Some (v1, o1) -> Stopped (app_power kind o1) = true ->
  quiet y1 -> quiet y2 -> quiet y3 ->
  ends (Start kind ns name) (y1 :: y2 :: y3 :: ys) w1 (fun o2 => same_size o2 o).
Proof.
  intros (Hnp & Hrun & Hn) (Hs1 & Hs2 & Hs3) E Hstop Hq1 Hq2 Hq3.
  destruct (kind_shapes kind) as [Hk|[Hk|[Hk|Hk]]].
  - unfold ends. rewrite start_counted by done.
    destruct (quiet_get y1 w1 v1 o1 Hq1 E) as (w2 & A1 & E2). unfold wrapped. rewrite !run_try, run_bind.
    cbn [run call]. rewrite A1. cbn [run mret prog_mret].
    assert (Hrem : rememberedIn (Annotations o1) = default 1%Z (Replicas o) /\ (0 < default 1 (Replicas o))%Z).
    { rewrite stopped_counted in Hstop, Hrun by done. bools.
      destruct (Hs1 Hk) as [Hr|[_ Hr]]; [congruence|]. split; [done|lia]. }
    destruct Hrem as [Hrem Hpos]. rewrite Hrem, bool_decide_false by lia. rewrite scale_shape by (done || lia).
    unfold wrapped. rewrite run_try, run_bind.
    destruct (quiet_scale y2 w2 v1 o1 Hq2 E2) as (w3 & A2 & E3). cbn [run call]. rewrite A2. cbn [run mret prog_mret].
    destruct (quiet_update y3 w3 v1 o1 (default 1%Z (Replicas o)) Hq3 E3) as (w4 & A3 & E4).
    rewrite run_bind. cbn [run call sc_version]. rewrite A3. do 2 eexists. split; [done|]. do 2 eexists. split; [exact E4|].
    split_and!; [|by intros ->|by destruct kind]. intros _. by rewrite scaled_replicas.
  - unfold ends. destruct (stop_suspended marshal_selector kind ns name Hk) as [_ ->]. unfold wrapped. rewrite run_bind.
    destruct (quiet_patch y1 w1 v1 o1 (mkPatch ∅ ∅ (Some false) None) Hq1 E) as (w2 & A & E2). cbn [run call]. rewrite A.
    do 2 eexists. split; [done|]. do 2 eexists. split; [exact E2|].
    split_and!; [by destruct kind|by intros ->|]. intros _. rewrite patched_suspend. cbn. by destruct (Suspend o1).
  - assert (Hst : daemonSetStopped (NodeSelector o1) = true) by (by rewrite Hk in Hstop).
    assert (Hrn : daemonSetStopped (NodeSelector o) = false) by (by rewrite Hk in Hrun).
    unfold ends. assert (Start kind ns name =
      (set <-? wrapped (GetObject app) ;;
       if negb (daemonSetStopped (NodeSelector set)) then mret (Ok tt)
       else wrapped (PatchObject app (mkPatch {[ selectorBeforeStop := None ]} {[ StoppedSelectorKey := None ]} None None))))
      as -> by (by rewrite Hk).
    unfold wrapped. rewrite run_try, run_bind. destruct (quiet_get y1 w1 v1 o1 Hq1 E) as (w2 & A1 & E2).
    cbn [run call]. rewrite A1. cbn [run mret prog_mret]. rewrite Hst. cbn [negb]. rewrite run_bind.
    destruct (quiet_patch y2 w2 v1 o1 (mkPatch {[ selectorBeforeStop := None ]} {[ StoppedSelectorKey := None ]} None None) Hq2 E2)
      as (w3 & A2 & E3). cbn [run call]. rewrite A2. do 2 eexists. split; [done|]. do 2 eexists. split; [exact E3|].
    split_and!; [by rewrite Hk| |by rewrite Hk]. intros _. rewrite patched_selector. etrans; [apply merge_null|].
    unfold daemonSetStopped in Hrn. apply bool_decide_eq_false in Hrn.
    assert (NodeSelector o !! StoppedSelectorKey = None) by (destruct (NodeSelector o !! StoppedSelectorKey); [by destruct Hrn|done]).
    destruct (Hs2 Hk) as [-> | ->]; [by apply delete_id|]. rewrite delete_insert_eq. by apply delete_id.
  - done.
Qed.

(** C39: A stop, whatever failed on its way and wherever it was cut off, leaves the
    object as large as it was, or stopped; and then a start that nothing disturbs
    brings it back to the size it had. *)
Theorem start_restores_stopped v o w xs res rest w1 y1 y2 y3 ys :
  running o -> objects w !! app = Some (v, o) -> Forall leaves xs ->
  run (Stop marshal_selector kind ns name) xs w = (res, rest, w1) ->
  quiet y1 -> quiet y2 -> quiet y3 ->
  exists v1 o1, objects w1 !! app = Some (v1, o1) /\
    if Stopped (app_power kind o1)
    then ends (Start kind ns name) (y1 :: y2 :: y3 :: ys) w1 (fun o2 => same_size o2 o)
    else same_size o1 o.
Proof.
  intros Hrun Hw Hxs Hr Hq1 Hq2 Hq3. destruct (stop_kept o w v xs res rest w1 Hrun Hw Hxs Hr) as (v1 & o1 & E & Hs).
  exists v1, o1. split; [done|]. destruct (Stopped (app_power kind o1)) eqn:Hst; [by eapply start_ends|].
  destruct Hs as (Hs1 & Hs2 & Hs3), Hrun as (_ & Hrun & _). split_and!; intros Hk.
  - rewrite stopped_counted in Hst by done. bools. destruct (Hs1 Hk) as [-> |[E0 _]]; [done|]. by rewrite E0 in Hst.
  - destruct (Hs2 Hk) as [-> |E0]; [done|]. rewrite Hk in Hst. cbn in Hst. unfold daemonSetStopped in Hst.
    rewrite E0, lookup_insert_eq in Hst. done.
  - rewrite stopped_suspended in Hst by done. by bools.
Qed.

End Roundtrip.

(* ------------------------------------------------------------------ *)
(** ** A server to try it on *)

#[global] Program Instance merging_server : ApiServer := {
  patched p o := mkObject (merge_keys (p_annotations p) (Annotations o)) (Replicas o) (ReadyReplicas o)
    (merge_keys (p_node_selector p) (NodeSelector o)) (DesiredNumberScheduled o) (NumberReady o)
    (p_suspend p ∪ Suspend o) (Conditions o) (Completed o) (Active o)
    (Selector o) (p_restarted p ∪ RestartedAt o);
  scaled n o := mkObject (Annotations o) (Some n) (ReadyReplicas o) (NodeSelector o) (DesiredNumberScheduled o)
    (NumberReady o) (Suspend o) (Conditions o) (Completed o) (Active o) (Selector o) (RestartedAt o)
}.
Solve All Obligations with (intros; split_and?; reflexivity).

Definition web (replicas : Z) : Object :=
  mkObject ∅ (Some replicas) replicas ∅ 0 0 None [] false 0 (Some (mkSelector {[ "app" := "web" ]} [])) None.
Definition web_ref : Ref := (Deployment, "shop", "web").
Definition one_app (o : Object) : Cluster := mkCluster {[ web_ref := (1%Z, o) ]} ∅ [].
Definition calm : kchoice := mkKChoice Fine id [] [].
Definition lost : kchoice := mkKChoice (AnswerLost "timeout") id [] [].
Definition no_text (_ : gmap string string) : string := "{}".

(** Somebody sets the count with another tool. *)
Definition scaled_by_others (n : Z) : kchoice :=
  mkKChoice Fine (fun w => set_objects (alter (fun vo => ((vo.1 + 1)%Z, scaled n vo.2)) web_ref (objects w)) w) [] [].

Definition replicas_in (w : Cluster) : option Z := objects w !! web_ref ≫= (fun vo => Replicas vo.2).

(** A stop whose last answer is lost, and a start. *)
Definition lost_stop : option (result kube_error unit) * list kchoice * Cluster :=
  run (Stop no_text Deployment "shop" "web") [calm; calm; calm; lost] (one_app (web 3)).

Lemma start_restores_stopped_witness :
  lost_stop.1.1 = Some (Err (EKube "timeout")) /\
  exists v1 o1, objects lost_stop.2 !! web_ref = Some (v1, o1) /\
    if Stopped (app_power Deployment o1)
    then ends Deployment "shop" "web" (Start Deployment "shop" "web") [calm; calm; calm] lost_stop.2
           (fun o2 => same_size Deployment o2 (web 3))
    else same_size Deployment o1 (web 3).
Proof.
  assert (Hq : quiet Deployment "shop" "web" calm) by (split; [done|]; intros w; done).
  assert (Hl : forall x, k_others x = id -> leaves Deployment "shop" "web" x).
  { intros x E w v o Hw. exists v, o. rewrite E. by split. }
  split; [by vm_compute|].
  apply (start_restores_stopped no_text Deployment "shop" "web" 1 (web 3) (one_app (web 3))
           [calm; calm; calm; lost] (Some (Err (EKube "timeout"))) [] lost_stop.2 calm calm calm []).
  - split; [done|]. split; [by vm_compute|]. cbn. lia.
  - done.
  - repeat constructor; by apply Hl.
  - by vm_compute.
  - exact Hq.
  - exact Hq.
  - exact Hq.
Defined.

(** A start leaves the record of the stop it undid, so a workload that others
    took to zero later comes back with a count it no longer ran at. *)
Definition stale_life : option Z * option Z * option Z :=
  let '(_, _, w1) := run (Stop no_text Deployment "shop" "web") [calm; calm; calm; calm] (one_app (web 3)) in
  let '(_, _, w2) := run (Start Deployment "shop" "web") [calm; calm; calm] w1 in
  let w3 := k_others (scaled_by_others 5) w2 in
  let w4 := k_others (scaled_by_others 0) w3 in
  let '(_, _, w5) := run (Start Deployment "shop" "web") [calm; calm; calm] w4 in
  (replicas_in w3, replicas_in w4, replicas_in w5).

Example stale_count_restored : stale_life = (Some 5%Z, Some 0%Z, Some 3%Z).
Proof. by vm_compute. Qed.
