(* ===== verification/KubeDrain.v ===== *)
(** * Cordoning and draining a node

    [src/internal/kube/drain.go], [Nodes] of kube.go and [Undrained] of
    apppower.go: what a drain evicts, leaves in place and refuses, and the
    question an interrupted drain asks afterwards. *)

From S2P Require Import Prelude Effects KubeApps.

(* ------------------------------------------------------------------ *)
(** ** Nodes *)

Record NodeObject := mkNodeObject {
  no_name : string;
  no_unschedulable : bool;
  no_conditions : list JobCondition;
  no_labels : list (string * string);     (* in the order the map is walked *)
  no_addresses : list (string * string)   (* type and address *)
}.

Record Node := mkNode {
  NodeName : string;
  NodeReady : string;
  Unschedulable : bool;
  Roles : list string;
  InternalAddress : string }.

(** One round of the loop in [Nodes]. *)
Definition node_of (n : NodeObject) : Node :=
  mkNode (no_name n)
    (fold_left (fun acc c => if bool_decide (c_type c = "Ready") then c_status c else acc) (no_conditions n) "Unknown")
    (no_unschedulable n)
    (omap (fun kv => match cut_prefix "node-role.kubernetes.io/" kv.1 with
                     | Some role => if bool_decide (role = "") then None else Some role
                     | None => None
                     end) (no_labels n))
    (match list_find (fun ta => ta.1 = "InternalIP") (no_addresses n) with Some (_, ta) => ta.2 | None => "" end).

(* ------------------------------------------------------------------ *)
(** ** drain.go *)

Record DrainOptions := mkDrainOptions { Force : bool; DeleteLocalData : bool; GracePeriod : duration; Timeout : duration }.
Record BlockedPod := mkBlocked { BPod : string; BReason : string }.
Record DrainResult := mkDrainResult {
  Evicted : list string;
  SkippedDaemonSet : list string;
  SkippedMirror : list string;
  Blocked : list BlockedPod }.

Definition no_result : DrainResult := mkDrainResult [] [] [] [].

Inductive drain_error := ErrDrainBlocked (blocked total : nat) | EDrain (why : string).

Inductive evict_answer := EvictOk | EvictTooMany (why : string) | EvictNotFound | EvictOther (why : string).

Inductive DrainCall : Type -> Type :=
  | ListNodes : DrainCall (result string (list NodeObject))
  | PatchNode (node : string) (unschedulable : bool) : DrainCall (result string unit)
  | ListNodePods (node : string) : DrainCall (result string (list PodObject))
  | Evict (ns name : string) (grace_seconds : option Z) : DrainCall evict_answer.

Definition Nodes : prog DrainCall (result string (list Node)) :=
  r ← call ListNodes; mret (l ← r; Ok (map node_of l)).

Definition Cordon (node : string) (unschedulable : bool) : prog DrainCall (result string unit) :=
  call (PatchNode node unschedulable).

Inductive podKind := podEvictable | podDaemonSet | podMirror | podFinished | podBare | podLocalData.

#[global] Instance podKind_eq_dec : EqDecision podKind.
Proof. solve_decision. Defined.

Definition MirrorPodAnnotationKey : string := "kubernetes.io/config.mirror".

Definition hasLocalData (p : PodObject) : bool := existsb id (PodEmptyDirs p).

Definition classifyPod (p : PodObject) (opts : DrainOptions) : podKind :=
  if bool_decide (PodPhase p = "Succeeded") || bool_decide (PodPhase p = "Failed") then podFinished
  else if bool_decide (is_Some (PodAnnotations p !! MirrorPodAnnotationKey)) then podMirror
  else
    let rest := if negb (DeleteLocalData opts) && hasLocalData p then podLocalData else podEvictable in
    match PodOwner p with
    | None => if negb (Force opts) then podBare else rest
    | Some (kind, _) => if bool_decide (kind = "DaemonSet") then podDaemonSet else rest
    end.

Definition pod_name (p : PodObject) : string := PodNamespace p +:+ "/" +:+ PodName p.

(** [evict]: the error's text when the API server refused. [GracePeriod.Seconds()]
    is cut to whole seconds. *)
Definition evict (p : PodObject) (opts : DrainOptions) : prog DrainCall (option string) :=
  r ← call (Evict (PodNamespace p) (PodName p)
              (if bool_decide (0 < GracePeriod opts)%Z then Some (GracePeriod opts / second)%Z else None));
  mret (match r with
        | EvictOk | EvictNotFound => None
        | EvictTooMany why => Some ("a PodDisruptionBudget refuses to let this pod go right now: " +:+ why)
        | EvictOther why => Some why
        end).

Definition bare_reason : string :=
  "no controller owns this pod, so nothing will recreate it elsewhere. Evicting it means losing it".
Definition local_reason : string :=
  "this pod has local storage (emptyDir), and its contents go with it when it moves".

Definition add_evicted (n : string) (r : DrainResult) : DrainResult :=
  mkDrainResult (Evicted r ++ [n]) (SkippedDaemonSet r) (SkippedMirror r) (Blocked r).
Definition add_daemon (n : string) (r : DrainResult) : DrainResult :=
  mkDrainResult (Evicted r) (SkippedDaemonSet r ++ [n]) (SkippedMirror r) (Blocked r).
Definition add_mirror (n : string) (r : DrainResult) : DrainResult :=
  mkDrainResult (Evicted r) (SkippedDaemonSet r) (SkippedMirror r ++ [n]) (Blocked r).
Definition add_blocked (n why : string) (r : DrainResult) : DrainResult :=
  mkDrainResult (Evicted r) (SkippedDaemonSet r) (SkippedMirror r) (Blocked r ++ [mkBlocked n why]).

(** The loop of [Drain]. *)
Fixpoint drain_pods (opts : DrainOptions) (pods : list PodObject) (res : DrainResult) : prog DrainCall DrainResult :=
  match pods with
  | [] => mret res
  | p :: pods' =>
      let name := pod_name p in
      match classifyPod p opts with
      | podDaemonSet => drain_pods opts pods' (add_daemon name res)
      | podMirror => drain_pods opts pods' (add_mirror name res)
      | podFinished => drain_pods opts pods' res
      | podBare => drain_pods opts pods' (add_blocked name bare_reason res)
      | podLocalData => drain_pods opts pods' (add_blocked name local_reason res)
      | podEvictable =>
          r ← evict p opts;
          match r with
          | Some why => drain_pods opts pods' (add_blocked name why res)
          | None => drain_pods opts pods' (add_evicted name res)
          end
      end
  end.

(** A drain answers with what it did, and an error beside it. The timeout is the
    environment's: it makes calls fail. *)
Definition Drain (node : string) (opts : DrainOptions) : prog DrainCall (DrainResult * option drain_error) :=
  c ← Cordon node true;
  match c with
  | Err e => mret (no_result, Some (EDrain e))
  | Ok _ =>
      l ← call (ListNodePods node);
      match l with
      | Err e => mret (no_result, Some (EDrain e))
      | Ok pods =>
          res ← drain_pods opts pods no_result;
          mret (res, if bool_decide (0 < length (Blocked res)) then Some (ErrDrainBlocked (length (Blocked res)) (length pods))
                     else None)
      end
  end.

Definition wouldMove (p : PodObject) (opts : DrainOptions) : bool := bool_decide (classifyPod p opts = podEvictable).

(** [PodsOnNode] and [Undrained]. *)
Definition Undrained (node : string) (opts : DrainOptions) : prog DrainCall (result string (list string)) :=
  l ← call (ListNodePods node);
  mret (pods ← l; Ok (map pod_name (List.filter (fun p => wouldMove p opts) pods))).

(* ------------------------------------------------------------------ *)
(** ** What a drain did to the cluster *)

Inductive DrainEvent :=
  | DPatched (node : string) (unschedulable : bool)
  | DListed (node : string) (pods : list PodObject)
  | DEvicted (ns name : string) (grace_seconds : option Z) (a : evict_answer).

(** What the environment chooses for a call: a failure, or the answer. *)
Record dchoice := mkDChoice {
  d_fail : option string;
  d_nodes : list NodeObject;
  d_pods : list PodObject;
  d_evict : evict_answer }.

Definition drain_act (R : Type) (c : DrainCall R) (x : dchoice) (w : list DrainEvent) : R * list DrainEvent :=
  match c in DrainCall R return R * list DrainEvent with
  | ListNodes => (match d_fail x with Some e => Err e | None => Ok (d_nodes x) end, w)
  | PatchNode n b => (match d_fail x with Some e => Err e | None => Ok tt end, w ++ [DPatched n b])
  | ListNodePods n =>
      match d_fail x with
      | Some e => (Err e, w)
      | None => (Ok (d_pods x), w ++ [DListed n (d_pods x)])
      end
  | Evict ns name g => (d_evict x, w ++ [DEvicted ns name g (d_evict x)])
  end.

#[global] Instance drain_handler : Handler DrainCall (list DrainEvent) dchoice := drain_act.

(** ** What becomes of a pod

    The rules at the head of drain.go, said of the pod itself and in no terms of
    [classifyPod]. *)

Definition finished (p : PodObject) : Prop := PodPhase p = "Succeeded" \/ PodPhase p = "Failed".
Definition static (p : PodObject) : Prop := is_Some (PodAnnotations p !! "kubernetes.io/config.mirror").
Definition of_daemon_set (p : PodObject) : Prop := exists name, PodOwner p = Some ("DaemonSet", name).
Definition uncontrolled (p : PodObject) : Prop := PodOwner p = None.
Definition keeps_data (p : PodObject) : Prop := true ∈ PodEmptyDirs p.

Inductive fate := Over | LeftStatic | LeftDaemon | Stays (why : string) | Asked (a : evict_answer).

Inductive treated (opts : DrainOptions) (p : PodObject) : fate -> Prop :=
  | treated_over : finished p -> treated opts p Over
  | treated_static : ~ finished p -> static p -> treated opts p LeftStatic
  | treated_bare : ~ finished p -> ~ static p -> uncontrolled p -> Force opts = false ->
      treated opts p (Stays "no controller owns this pod, so nothing will recreate it elsewhere. Evicting it means losing it")
  | treated_daemon : ~ finished p -> ~ static p -> of_daemon_set p -> treated opts p LeftDaemon
  | treated_data : ~ finished p -> ~ static p -> ~ of_daemon_set p -> (uncontrolled p -> Force opts = true) ->
      DeleteLocalData opts = false -> keeps_data p ->
      treated opts p (Stays "this pod has local storage (emptyDir), and its contents go with it when it moves")
  | treated_moved a : ~ finished p -> ~ static p -> ~ of_daemon_set p -> (uncontrolled p -> Force opts = true) ->
      (DeleteLocalData opts = true \/ ~ keeps_data p) -> treated opts p (Asked a).

(** What a fate leaves in the world and in the report. *)
Definition eviction (opts : DrainOptions) (p : PodObject) (f : fate) : list DrainEvent :=
  match f with
  | Asked a => [DEvicted (PodNamespace p) (PodName p)
                  (if bool_decide (0 < GracePeriod opts)%Z then Some (GracePeriod opts / second)%Z else None) a]
  | _ => []
  end.
Definition reported (p : PodObject) (f : fate) : DrainResult :=
  let name := PodNamespace p +:+ "/" +:+ PodName p in
  match f with
  | Over => mkDrainResult [] [] [] []
  | LeftDaemon => mkDrainResult [] [name] [] []
  | LeftStatic => mkDrainResult [] [] [name] []
  | Asked EvictOk | Asked EvictNotFound => mkDrainResult [name] [] [] []
  | Stays why | Asked (EvictOther why) => mkDrainResult [] [] [] [mkBlocked name why]
  | Asked (EvictTooMany why) =>
      mkDrainResult [] [] [] [mkBlocked name ("a PodDisruptionBudget refuses to let this pod go right now: " +:+ why)]
  end.
Definition beside (r r' : DrainResult) : DrainResult :=
  mkDrainResult (Evicted r ++ Evicted r') (SkippedDaemonSet r ++ SkippedDaemonSet r') (SkippedMirror r ++ SkippedMirror r')
    (Blocked r ++ Blocked r').
Definition whole_report (pods : list PodObject) (fates : list fate) : DrainResult :=
  foldr beside (mkDrainResult [] [] [] []) (zip_with reported pods fates).

Section Accounts.
Variable opts : DrainOptions.

Lemma beside_assoc a b c : beside (beside a b) c = beside a (beside b c).
Proof. unfold beside. cbn. by rewrite <- !(assoc_L (++)). Qed.
Lemma beside_none a : beside a (mkDrainResult [] [] [] []) = a.
Proof. destruct a. unfold beside. cbn. by rewrite !app_nil_r. Qed.

Lemma hasLocalData_spec p : hasLocalData p = true <-> keeps_data p.
Proof.
  unfold hasLocalData, keeps_data. rewrite existsb_exists. split.
  - intros (b & Hin & Hb). unfold id in Hb. subst b. by apply list_elem_of_In.
  - intros Hin. exists true. split; [by apply list_elem_of_In|done].
Qed.

Definition fate_of (p : PodObject) (a : evict_answer) : fate :=
  match classifyPod p opts with
  | podFinished => Over
  | podMirror => LeftStatic
  | podDaemonSet => LeftDaemon
  | podBare => Stays bare_reason
  | podLocalData => Stays local_reason
  | podEvictable => Asked a
  end.

(** [classifyPod] is the rules. *)
Lemma classifyPod_treated p a : treated opts p (fate_of p a).
Proof.
  unfold fate_of, classifyPod. rewrite <- bool_decide_or. case_bool_decide as Hf; [by constructor|].
  case_bool_decide as Hs; [by constructor|].
  assert (Hd : ~ of_daemon_set p -> (uncontrolled p -> Force opts = true) ->
    treated opts p (match (if negb (DeleteLocalData opts) && hasLocalData p then podLocalData else podEvictable) with
      podFinished => Over | podMirror => LeftStatic | podDaemonSet => LeftDaemon | podBare => Stays bare_reason
      | podLocalData => Stays local_reason | podEvictable => Asked a end)).
  { intros Hd Hu. pose proof (hasLocalData_spec p) as Hl. destruct (DeleteLocalData opts) eqn:E; cbn [negb andb].
    - constructor; auto.
    - destruct (hasLocalData p); constructor; naive_solver. }
  destruct (PodOwner p) as [[kind name]|] eqn:Eo.
  - case_bool_decide as Hk.
    + subst kind. constructor; [done..|]. by exists name.
    + apply Hd; unfold of_daemon_set, uncontrolled; rewrite Eo; [by intros [n [= ->]]|done].
  - destruct (Force opts) eqn:Ef; cbn [negb].
    + apply Hd; unfold of_daemon_set, uncontrolled; rewrite Eo; [by intros [n ?]|done].
    + by constructor.
Qed.

Lemma drain_pods_accounts pods : forall res xs w res' rest w',
  run (drain_pods opts pods res) xs w = (Some res', rest, w') ->
  exists fates, Forall2 (treated opts) pods fates /\
    w' = w ++ mjoin (zip_with (eviction opts) pods fates) /\ res' = beside res (whole_report pods fates).
Proof.
  induction pods as [|p pods IH]; intros res xs w res' rest w'; cbn [drain_pods].
  { intros [= <- <- <-]. exists []. unfold whole_report. cbn. by rewrite app_nil_r, beside_none. }
  assert (Hone : forall f res1 w1 xs1, treated opts p f -> res1 = beside res (reported p f) -> w1 = w ++ eviction opts p f ->
    run (drain_pods opts pods res1) xs1 w1 = (Some res', rest, w') ->
    exists fates, Forall2 (treated opts) (p :: pods) fates /\
      w' = w ++ mjoin (zip_with (eviction opts) (p :: pods) fates) /\ res' = beside res (whole_report (p :: pods) fates)).
  { intros f res1 w1 xs1 Ht -> -> (fates & Hf & -> & ->)%IH. exists (f :: fates). split; [by constructor|].
    unfold whole_report. cbn. by rewrite <- (assoc_L (++)), beside_assoc. }
  pose proof (classifyPod_treated p) as Ht. unfold fate_of in Ht. destruct (classifyPod p opts).
  1: { rewrite run_bind. unfold evict. rewrite run_bind. cbn [run call]. destruct xs as [|x xs]; [done|]. cbn [act drain_handler drain_act].
    specialize (Ht (d_evict x)). destruct (d_evict x) eqn:Ha; cbn [mret prog_mret run]; apply (Hone _ _ _ _ Ht);
      unfold beside; cbn; rewrite ?app_nil_r; by destruct res. }
  all: specialize (Ht EvictOk); apply (Hone _ _ _ _ Ht); unfold beside; cbn; rewrite ?app_nil_r; by destruct res.
Qed.
End Accounts.

(** C40: A drain cordons the node first and then asks what runs there. Every pod of
    that list meets the fate the rules give it: a finished one, a static one and
    one of a DaemonSet stay, a pod nothing owns or with local data stays blocked
    unless the options let it go, and every other is asked of the eviction API,
    once and in order, with the grace period of the options. The report names each
    pod under its fate, a blocked one with its reason, and the error counts the
    blocked: there is none exactly when nothing is blocked. A drain that failed
    before it had the list evicted nothing. *)
Theorem drain_accounts_for_every_pod node opts xs res err rest log :
  run (Drain node opts) xs [] = (Some (res, err), rest, log) ->
  (exists why, err = Some (EDrain why) /\ res = no_result /\ forall ns n g a, DEvicted ns n g a ∉ log) \/
  exists pods fates,
    Forall2 (treated opts) pods fates /\
    log = DPatched node true :: DListed node pods :: mjoin (zip_with (eviction opts) pods fates) /\
    res = whole_report pods fates /\
    err = match Blocked res with [] => None | _ => Some (ErrDrainBlocked (length (Blocked res)) (length pods)) end.
Proof.
  unfold Drain, Cordon. rewrite run_bind. cbn [run call]. destruct xs as [|x xs]; [done|]. cbn [act drain_handler drain_act].
  destruct (d_fail x) as [e|].
  { intros [= <- <- <- <-]. left. exists e. split_and!; [done..|]. intros ns n g a H. by apply list_elem_of_singleton in H. }
  rewrite run_bind. cbn [run call]. destruct xs as [|y xs]; [done|]. cbn [act drain_handler drain_act].
  destruct (d_fail y) as [e|].
  { intros [= <- <- <- <-]. left. exists e. split_and!; [done..|]. intros ns n g a H. by apply list_elem_of_singleton in H. }
  rewrite run_bind. destruct (run (drain_pods opts (d_pods y) no_result) xs _) as [[[res'|] xs'] w'] eqn:E; [|done].
  intros [= <- <- <- <-]. right. apply drain_pods_accounts in E as (fates & Hf & -> & ->).
  exists (d_pods y), fates. split; [done|]. split; [done|]. cbn [beside no_result Evicted SkippedDaemonSet SkippedMirror Blocked app].
  split; [by destruct (whole_report _ _)|]. by destruct (Blocked (whole_report (d_pods y) fates)).
Qed.

(* ------------------------------------------------------------------ *)
(** ** A node to try it on *)

Definition a_pod (name : string) (owner : option (string * string)) (dirs : list bool) : PodObject :=
  mkPod "shop" name "n1" "Running" ∅ owner dirs [true].
Definition careful : DrainOptions := mkDrainOptions false true 0 minute.
Definition answers (pods : list PodObject) (a : evict_answer) : dchoice := mkDChoice None [] pods a.
Definition some_pods : list PodObject :=
  [a_pod "web" (Some ("ReplicaSet", "web-1")) [true]; a_pod "log" (Some ("DaemonSet", "log")) []; a_pod "once" None []].

Definition tried : option (DrainResult * option drain_error) * list dchoice * list DrainEvent :=
  run (Drain "n1" careful) [answers [] EvictOk; answers some_pods EvictOk; answers [] EvictOk] [].

Lemma drain_accounts_for_every_pod_witness :
  tried.1.1 = Some (mkDrainResult ["shop/web"] ["shop/log"] [] [mkBlocked "shop/once" bare_reason], Some (ErrDrainBlocked 1 3)) /\
  exists pods fates,
    Forall2 (treated careful) pods fates /\
    tried.2 = DPatched "n1" true :: DListed "n1" pods :: mjoin (zip_with (eviction careful) pods fates).
Proof.
  split; [by vm_compute|].
  destruct (drain_accounts_for_every_pod "n1" careful [answers [] EvictOk; answers some_pods EvictOk; answers [] EvictOk]
    (mkDrainResult ["shop/web"] ["shop/log"] [] [mkBlocked "shop/once" bare_reason]) (Some (ErrDrainBlocked 1 3)) [] tried.2
    ltac:(by vm_compute)) as [(why & E & _)|(pods & fates & Hf & E & _)]; [discriminate E|]. by exists pods, fates.
Defined.

(** A pod nothing owns stops a drain, and the question an interrupted drain asks
    does not see it: the drain that would have failed is taken for finished. *)
Example undrained_overlooks_bare_pod :
  let left := [a_pod "once" None []] in
  (run (Drain "n1" careful) [answers [] EvictOk; answers left EvictOk] []).1.1
    = Some (mkDrainResult [] [] [] [mkBlocked "shop/once" bare_reason], Some (ErrDrainBlocked 1 1)) /\
  (run (Undrained "n1" careful) [answers left EvictOk] []).1.1 = Some (Ok []).
Proof. split; by vm_compute. Qed.
