(* ===== verification/Wake.v ===== *)
(** * Wake-on-LAN

    [src/internal/power/wol.go]: which addresses a machine can be woken by, where
    a magic packet is sent and what it holds. Addresses and masks are lists of
    bytes, as in Go's [net] package, whose parsing and printing is written out. *)

From S2P Require Import Prelude GoText Effects.

Local Open Scope Z_scope.

(* ------------------------------------------------------------------ *)
(** ** net: hardware addresses and IPv4 *)

Definition hex_value (c : ascii) : option Z :=
  let n := Z.of_nat (nat_of_ascii c) in
  if bool_decide (48 <= n <= 57) then Some (n - 48)
  else if bool_decide (97 <= n <= 102) then Some (n - 87)
  else if bool_decide (65 <= n <= 70) then Some (n - 55)
  else None.

(** Two digits and the separator [sep] after them, when anything follows. *)
Definition hex_pair (s : string) : option (Z * string) :=
  match s with
  | String a (String b rest) => x ← hex_value a; y ← hex_value b; Some (16 * x + y, rest)
  | _ => None
  end.

(** The loop of [ParseMAC] over [xx:xx:..]: [n] pairs, each but the last before a
    separator. *)
Fixpoint mac_pairs (sep : ascii) (n : nat) (s : string) : option (list Z) :=
  match n with
  | O => if bool_decide (s = "") then Some [] else None
  | S n' =>
      '(b, rest) ← hex_pair s;
      match n', rest with
      | O, _ => if bool_decide (rest = "") then Some [b] else None
      | _, String c rest' => if Ascii.eqb c sep then cons b <$> mac_pairs sep n' rest' else None
      | _, EmptyString => None
      end
  end.

(** The loop over [xxxx.xxxx..]: [n] groups of two bytes. *)
Fixpoint mac_groups (n : nat) (s : string) : option (list Z) :=
  match n with
  | O => if bool_decide (s = "") then Some [] else None
  | S n' =>
      '(a, r1) ← hex_pair s;
      '(b, rest) ← hex_pair r1;
      match n', rest with
      | O, _ => if bool_decide (rest = "") then Some [a; b] else None
      | _, String c rest' => if Ascii.eqb c "."%char then (fun l => a :: b :: l) <$> mac_groups n' rest' else None
      | _, EmptyString => None
      end
  end.

Definition mac_length (n : nat) : bool := bool_decide (n = 6 \/ n = 8 \/ n = 20)%nat.

(** [net.ParseMAC]. *)
Definition ParseMAC (s : string) : option (list Z) :=
  let n := String.length s in
  if bool_decide (n < 14)%nat then None
  else
    match String.get 2 s, String.get 4 s with
    | Some c2, c4 =>
        if Ascii.eqb c2 ":"%char || Ascii.eqb c2 "-"%char then
          if bool_decide ((n + 1) mod 3 = 0)%nat && mac_length ((n + 1) / 3)%nat then mac_pairs c2 ((n + 1) / 3)%nat s else None
        else if bool_decide (c4 = Some "."%char) then
          if bool_decide ((n + 1) mod 5 = 0)%nat && mac_length (2 * ((n + 1) / 5))%nat then mac_groups ((n + 1) / 5)%nat s else None
        else None
    | None, _ => None
    end.

(** [HardwareAddr.String]. *)
Definition hex_byte (b : Z) : string := String (hex_digit (b / 16)) (str1 (hex_digit (b mod 16))).
Definition mac_string (mac : list Z) : string := join ":" (map hex_byte mac).

(** [IP.To4]: the four bytes of an IPv4 address, in either form. *)
Definition to4 (ip : list Z) : option (list Z) :=
  if bool_decide (length ip = 4)%nat then Some ip
  else if bool_decide (length ip = 16)%nat && bool_decide (take 12 ip = replicate 10 0 ++ [255; 255]) then Some (drop 12 ip)
  else None.

Definition ip_string (ip : list Z) : string := join "." (map itoa ip).

(** [IPMask.Size]: the ones at the front of a mask, or [None] where they are not
    all at the front (Go's zero and zero). *)
Fixpoint byte_ones (fuel : nat) (v : Z) : Z * Z :=
  match fuel with
  | O => (0, v)
  | S f => if Z.testbit v 7 then let '(n, r) := byte_ones f (Z.land (Z.shiftl v 1) 255) in (1 + n, r) else (0, v)
  end.
Fixpoint mask_ones (m : list Z) : option Z :=
  match m with
  | [] => Some 0
  | v :: m' =>
      if bool_decide (v = 255) then n ← mask_ones m'; Some (8 + n)
      else
        let '(n, r) := byte_ones 8 v in
        if bool_decide (r = 0) && forallb (Z.eqb 0) m' then Some n else None
  end.

Definition join_host_port (host : string) (port : Z) : string := host +:+ ":" +:+ itoa port.

(* ------------------------------------------------------------------ *)
(** ** wol.go *)

Definition WakePort : Z := 9.

Definition MagicPacket (mac : list Z) : result string (list Z) :=
  if negb (bool_decide (length mac = 6)%nat) then Err ("power: " +:+ mac_string mac +:+ " is not a 6-byte Ethernet address")
  else Ok (replicate 6 255 ++ mjoin (replicate 16 mac)).

Record LocalNetwork := mkNetwork {
  Interface : string;
  Addr : option (list Z * list Z);   (* address and mask, or nil *)
  Up : bool;
  Loopback : bool;
  Broadcast : bool }.

Definition limited_broadcast (port : Z) : string := join_host_port (ip_string [255; 255; 255; 255]) port.

(** The directed broadcast of a network, where it has one. *)
Definition directed (n : LocalNetwork) : option (list Z) :=
  if negb (Up n) || Loopback n || negb (Broadcast n) then None
  else
    '(addr, mask) ← Addr n;
    ip ← to4 addr;
    let mask := if bool_decide (length mask = 16)%nat then drop 12 mask else mask in
    ones ← mask_ones mask;
    if negb (bool_decide (length mask = 4)%nat) || bool_decide (30 < ones) then None
    else Some (zip_with (fun a m => Z.lor a (Z.lxor m 255)) ip mask).

(** The loop of [Destinations], with its [seen]. *)
Fixpoint add_destinations (networks : list LocalNetwork) (port : Z) (out : list string) : list string :=
  match networks with
  | [] => out
  | n :: networks' =>
      match directed n with
      | None => add_destinations networks' port out
      | Some ip =>
          let dest := join_host_port (ip_string ip) port in
          add_destinations networks' port (if bool_decide (dest ∈ out) then out else out ++ [dest])
      end
  end.
Definition Destinations (networks : list LocalNetwork) (port : Z) : list string :=
  add_destinations networks port [limited_broadcast port].

(** ** Addresses to be woken by *)

Record InterfaceAddr := mkInterface { HardwareAddr : string; IfKind : string }.

Definition allBytes (b : list Z) (v : Z) : bool := forallb (Z.eqb v) b.

(** An interface's address, where a card listens on it. *)
Definition mac_of (i : InterfaceAddr) : option (list Z) :=
  if negb (bool_decide (IfKind i = "")) then None
  else
    mac ← ParseMAC (HardwareAddr i);
    if negb (bool_decide (length mac = 6)%nat) || allBytes mac 0 || allBytes mac 255 then None else Some mac.

(** The loop of [MACsOf]; the sort is Go's on the printed addresses, which differ
    from each other. *)
Fixpoint collect_macs (ifaces : list InterfaceAddr) (out : list (list Z)) : list (list Z) :=
  match ifaces with
  | [] => out
  | i :: ifaces' =>
      collect_macs ifaces'
        (match mac_of i with
         | Some mac => if bool_decide (mac_string mac ∈ map mac_string out) then out else out ++ [mac]
         | None => out
         end)
  end.
Definition mac_le (a b : list Z) : Prop := str_le (mac_string a) (mac_string b).
#[global] Instance mac_le_dec : RelDecision mac_le.
Proof. intros a b. unfold mac_le, str_le. apply _. Defined.
Definition MACsOf (ifaces : list InterfaceAddr) : list (list Z) := merge_sort mac_le (collect_macs ifaces []).

(** ** Sending *)

Record WakeReport := mkWakeReport { Sent : list string; WFailed : list string; WDestinations : list string }.

Inductive WakeCall : Type -> Type :=
  | HostNetworks : WakeCall (option (list LocalNetwork))
  | ListenBroadcast : WakeCall (option string)
  | WriteTo (packet : list Z) (dest : string) : WakeCall (option string).

Record NetWaker := mkNetWaker { NwPort : Z; NwNetworks : option (option (list LocalNetwork)); Only : list string }.

Fixpoint send_all (mac : list Z) (packet : list Z) (dests : list string) (r : WakeReport) : prog WakeCall WakeReport :=
  match dests with
  | [] => mret r
  | d :: dests' =>
      e ← call (WriteTo packet d);
      send_all mac packet dests'
        (match e with
         | Some why => mkWakeReport (Sent r) (WFailed r ++ [mac_string mac +:+ " to " +:+ d +:+ ": " +:+ why]) (WDestinations r)
         | None => mkWakeReport (Sent r ++ [mac_string mac +:+ " to " +:+ d]) (WFailed r) (WDestinations r)
         end)
  end.

Fixpoint wake_all (macs : list (list Z)) (dests : list string) (r : WakeReport) : prog WakeCall WakeReport :=
  match macs with
  | [] => mret r
  | mac :: macs' =>
      match MagicPacket mac with
      | Err e => wake_all macs' dests (mkWakeReport (Sent r) (WFailed r ++ [mac_string mac +:+ ": " +:+ e]) (WDestinations r))
      | Ok packet => r' ← send_all mac packet dests r; wake_all macs' dests r'
      end
  end.

(** [NetWaker.Wake]: the report, and an error beside it. *)
Definition Wake (w : NetWaker) (macs : list (list Z)) : prog WakeCall (WakeReport * option string) :=
  let port := if bool_decide (NwPort w = 0) then WakePort else NwPort w in
  networks ← match NwNetworks w with Some l => mret l | None => call HostNetworks end;
  let dests := if bool_decide (0 < length (Only w))%nat then Only w else Destinations (default [] networks) port in
  s ← call ListenBroadcast;
  match s with
  | Some why => mret (mkWakeReport [] [] dests, Some ("power: opening a socket to send Wake-on-LAN from: " +:+ why))
  | None =>
      r ← wake_all macs dests (mkWakeReport [] [] dests);
      mret (r, if bool_decide (length (Sent r) = 0)%nat
               then Some ("power: no Wake-on-LAN packet could be sent: " +:+ join "; " (WFailed r)) else None)
  end.

(** [DryRunWaker.Wake]. *)
Definition DryRunWake (macs : list (list Z)) : WakeReport * option string :=
  (mkWakeReport [] [] [], Some ("power: this instance runs with --dry-run, so no Wake-on-LAN packet is sent " +:+
                                "and no machine is switched on")).

(* ------------------------------------------------------------------ *)
(** ** The addresses *)

Lemma collect_macs_spec ifaces : forall out,
  (NoDup (map mac_string out) -> NoDup (map mac_string (collect_macs ifaces out))) /\
  (forall m, m ∈ collect_macs ifaces out -> m ∈ out \/ exists i, i ∈ ifaces /\ mac_of i = Some m) /\
  (forall m, m ∈ out -> m ∈ collect_macs ifaces out) /\
  (forall i m, i ∈ ifaces -> mac_of i = Some m -> mac_string m ∈ map mac_string (collect_macs ifaces out)).
Proof.
  induction ifaces as [|i ifaces IH]; intros out; cbn [collect_macs].
  { split_and!; [done|by left|done|]. by intros i m ?%elem_of_nil. }
  destruct (mac_of i) as [mac|] eqn:E.
  2: { destruct (IH out) as (H1 & H2 & H3 & H4). split_and!; [done| |done|].
       - intros m [Hm|(j & Hj & Em)]%H2; [by left|]. right. exists j. split; [by apply list_elem_of_further|done].
       - intros j m [-> |Hj]%elem_of_cons Em; [congruence|]. by eapply H4. }
  case_bool_decide as Hin; [destruct (IH out) as (H1 & H2 & H3 & H4)|destruct (IH (out ++ [mac])) as (H1 & H2 & H3 & H4)]; split_and!.
  - done.
  - intros m [Hm|(j & Hj & Em)]%H2; [by left|]. right. exists j. split; [by apply list_elem_of_further|done].
  - done.
  - intros j m [-> |Hj]%elem_of_cons Em; [|by eapply H4]. assert (m = mac) as -> by congruence.
    apply list_elem_of_fmap in Hin as (m' & Hs & Hm'). rewrite Hs. apply list_elem_of_fmap. eauto.
  - intros Hnd. apply H1. rewrite map_app. apply NoDup_app. split_and!; [done| |apply NoDup_singleton].
    intros x Hx ->%list_elem_of_singleton. done.
  - intros m [Hm|(j & Hj & Em)]%H2.
    + apply elem_of_app in Hm as [Hm| ->%list_elem_of_singleton]; [by left|]. right. exists i. split; [apply list_elem_of_here|done].
    + right. exists j. split; [by apply list_elem_of_further|done].
  - intros m Hm. apply H3, elem_of_app. by left.
  - intros j m [-> |Hj]%elem_of_cons Em; [|by eapply H4]. assert (m = mac) as -> by congruence.
    apply list_elem_of_fmap. exists mac. split; [done|]. apply H3, elem_of_app. right. by apply list_elem_of_singleton.
Qed.

#[global] Instance mac_le_total : Total mac_le.
Proof. intros a b. apply (total str_le). Qed.
#[global] Instance mac_le_trans : Transitive mac_le.
Proof. intros a b c. apply (transitivity (R := str_le)). Qed.

(** A parsed address is made of bytes. *)
Definition byte_list (l : list Z) : Prop := Forall (fun b => 0 <= b < 256) l.

Lemma hex_value_range c v : hex_value c = Some v -> 0 <= v < 16.
Proof. unfold hex_value. repeat case_bool_decide; intros [= <-]; lia. Qed.

Lemma hex_pair_range s b r : hex_pair s = Some (b, r) -> 0 <= b < 256.
Proof.
  destruct s as [|x [|y s]]; cbn; try done.
  destruct (hex_value x) eqn:E1; [|done]. destruct (hex_value y) eqn:E2; [|done]. cbn. intros [= <- <-].
  apply hex_value_range in E1, E2. lia.
Qed.

Lemma mac_pairs_bytes sep n : forall s l, mac_pairs sep n s = Some l -> byte_list l.
Proof.
  induction n as [|n IH]; intros s l; cbn [mac_pairs]; [case_bool_decide; intros [= <-]; constructor|].
  destruct (hex_pair s) as [[b rest]|] eqn:E; [|done]. apply hex_pair_range in E. cbn.
  destruct n as [|n]; [case_bool_decide; intros [= <-]; constructor; [done|constructor]|].
  destruct rest as [|c rest]; [done|]. destruct (Ascii.eqb c sep); [|done].
  destruct (mac_pairs sep (S n) rest) as [l'|] eqn:El; cbn; intros [= <-]. constructor; [done|by eapply IH].
Qed.

Lemma mac_groups_bytes n : forall s l, mac_groups n s = Some l -> byte_list l.
Proof.
  induction n as [|n IH]; intros s l; cbn [mac_groups]; [case_bool_decide; intros [= <-]; constructor|].
  destruct (hex_pair s) as [[a r1]|] eqn:E1; [|done]. apply hex_pair_range in E1. cbn.
  destruct (hex_pair r1) as [[b rest]|] eqn:E2; [|done]. apply hex_pair_range in E2. cbn.
  destruct n as [|n]; [case_bool_decide; intros [= <-]; constructor; [done|constructor; [done|constructor]]|].
  destruct rest as [|c rest]; [done|]. destruct (Ascii.eqb c "."); [|done].
  destruct (mac_groups (S n) rest) as [l'|] eqn:El; cbn; intros [= <-]. constructor; [done|]. constructor; [done|]. by eapply IH.
Qed.

Lemma ParseMAC_bytes s l : ParseMAC s = Some l -> byte_list l.
Proof.
  unfold ParseMAC. case_bool_decide; [done|]. destruct (String.get 2 s) as [c2|]; [|done].
  destruct (_ || _).
  - destruct (_ && _); [|done]. apply mac_pairs_bytes.
  - case_bool_decide; [|done]. destruct (_ && _); [|done]. apply mac_groups_bytes.
Qed.

(** An address a card can be woken by: six bytes, neither all zero nor the
    broadcast address. *)
Definition wakeable (mac : list Z) : Prop :=
  length mac = 6%nat /\ byte_list mac /\ (exists b, b ∈ mac /\ b <> 0) /\ (exists b, b ∈ mac /\ b <> 255).

Lemma allBytes_false l v : allBytes l v = false -> exists b, b ∈ l /\ b <> v.
Proof.
  unfold allBytes. induction l as [|b l IH]; [done|]. cbn. destruct (Z.eqb_spec v b) as [->|Hne]; cbn.
  - intros (b' & Hb' & Hn)%IH. exists b'. split; [by apply list_elem_of_further|done].
  - intros _. exists b. split; [apply list_elem_of_here|congruence].
Qed.

Lemma mac_of_wakeable i mac : mac_of i = Some mac -> IfKind i = "" /\ ParseMAC (HardwareAddr i) = Some mac /\ wakeable mac.
Proof.
  unfold mac_of. case_bool_decide as Hk; [|done]. cbn [negb]. destruct (ParseMAC (HardwareAddr i)) as [m|] eqn:E; [|done]. cbn.
  case_bool_decide as Hl; cbn; [|done]. destruct (allBytes m 0) eqn:E0; [done|]. destruct (allBytes m 255) eqn:E1; [done|].
  cbn. intros [= <-]. split; [done|]. split; [done|].
  split_and!; [done|by eapply ParseMAC_bytes|by apply allBytes_false|by apply allBytes_false].
Qed.

Lemma mac_le_strict l :
  StronglySorted mac_le l -> NoDup (map mac_string l) -> StronglySorted strict (map mac_string l).
Proof.
  induction 1 as [|a l Hs IH Ha]; cbn; [constructor|]. intros [Hn Hnd]%NoDup_cons. constructor; [auto|].
  apply Forall_forall. intros t Ht. apply list_elem_of_fmap in Ht as (b & -> & Hb). rewrite Forall_forall in Ha.
  apply strict_not_le; [by apply (Ha b)|]. intros E. apply Hn. rewrite E. apply list_elem_of_fmap. eauto.
Qed.

(** What a machine is woken by is well formed whatever was recorded of it: the
    addresses of six bytes that its physical interfaces report, none of them zero
    or broadcast, every one there is, each once, and in strictly ascending
    order. *)
Theorem MACsOf_well_formed ifaces :
  Forall wakeable (MACsOf ifaces) /\
  StronglySorted strict (map mac_string (MACsOf ifaces)) /\
  (forall mac, mac ∈ MACsOf ifaces -> exists i, i ∈ ifaces /\ IfKind i = "" /\ ParseMAC (HardwareAddr i) = Some mac) /\
  (forall i mac, i ∈ ifaces -> mac_of i = Some mac -> mac_string mac ∈ map mac_string (MACsOf ifaces)).
Proof.
  destruct (collect_macs_spec ifaces []) as (H1 & H2 & _ & H4). specialize (H1 (NoDup_nil_2)).
  assert (Hp : MACsOf ifaces ≡ₚ collect_macs ifaces []) by apply merge_sort_Permutation.
  assert (Hin : forall mac, mac ∈ MACsOf ifaces -> exists i, i ∈ ifaces /\ mac_of i = Some mac).
  { intros mac Hm. rewrite Hp in Hm. apply H2 in Hm as [Hm|Hm]; [by apply elem_of_nil in Hm|done]. }
  split_and!.
  - apply Forall_forall. intros mac (i & Hi & E)%Hin. by apply mac_of_wakeable in E as (_ & _ & ?).
  - apply mac_le_strict; [apply StronglySorted_merge_sort; apply _|by rewrite Hp].
  - intros mac (i & Hi & E)%Hin. apply mac_of_wakeable in E as (? & ? & _). eauto.
  - intros i mac Hi E. rewrite Hp. by eapply H4.
Qed.

(* ------------------------------------------------------------------ *)
(** ** The destinations *)

Lemma add_destinations_spec networks port : forall out,
  (NoDup out -> NoDup (add_destinations networks port out)) /\
  (exists l, add_destinations networks port out = out ++ l) /\
  (forall d, d ∈ add_destinations networks port out <->
     d ∈ out \/ exists n ip, n ∈ networks /\ directed n = Some ip /\ d = join_host_port (ip_string ip) port).
Proof.
  induction networks as [|n networks IH]; intros out; cbn [add_destinations].
  { split_and!; [done|by exists []; rewrite app_nil_r|]. intros d. split; [by left|].
    intros [Hd|(n & ip & Hn & _)]; [done|]. by apply elem_of_nil in Hn. }
  destruct (directed n) as [ip|] eqn:E.
  2: { destruct (IH out) as (H1 & H2 & H3). split_and!; [done..|]. intros d. rewrite H3.
       split; (intros [Hd|(m & ip & Hm & Hi & Ed)]; [by left|right; exists m, ip]).
       - split; [by apply list_elem_of_further|done].
       - apply elem_of_cons in Hm as [-> |Hm]; [congruence|done]. }
  set (dest := join_host_port (ip_string ip) port).
  set (out' := if bool_decide (dest ∈ out) then out else out ++ [dest]).
  assert (Ho : forall d, d ∈ out' <-> d ∈ out \/ d = dest).
  { intros d. unfold out'. case_bool_decide; [split; [by left|by intros [?| ->]]|]. by rewrite elem_of_app, list_elem_of_singleton. }
  destruct (IH out') as (H1 & H2 & H3). split_and!.
  - intros Hnd. apply H1. unfold out'. case_bool_decide; [done|]. apply NoDup_app. split_and!; [done| |apply NoDup_singleton].
    intros x Hx ->%list_elem_of_singleton. done.
  - destruct H2 as [l ->]. unfold out'. case_bool_decide; [by exists l|]. exists (dest :: l). by rewrite <- (assoc_L (++)).
  - intros d. rewrite H3, Ho. split.
    + intros [[Hd| ->]|(m & ip' & Hm & Hi & Ed)]; [by left| |].
      * right. exists n, ip. split; [apply list_elem_of_here|done].
      * right. exists m, ip'. split; [by apply list_elem_of_further|done].
    + intros [Hd|(m & ip' & Hm & Hi & ->)]; [by left; left|]. apply elem_of_cons in Hm as [-> |Hm].
      * left. right. unfold dest. congruence.
      * right. exists m, ip'. done.
Qed.

(** A directed broadcast: the host bits of the network all one. *)
Lemma directed_spec n ip :
  directed n = Some ip ->
  Up n = true /\ Loopback n = false /\ Broadcast n = true /\
  exists addr mask a4 m4, Addr n = Some (addr, mask) /\ to4 addr = Some a4 /\ length m4 = 4%nat /\
    (exists ones, mask_ones m4 = Some ones /\ ones <= 30) /\ ip = zip_with (fun a m => Z.lor a (Z.lxor m 255)) a4 m4.
Proof.
  unfold directed. destruct (Up n), (Loopback n), (Broadcast n); try done. cbn [negb orb].
  destruct (Addr n) as [[addr mask]|]; [|done]. cbn [mbind option_bind].
  destruct (to4 addr) as [a4|] eqn:E4; [|done]. cbn [mbind option_bind].
  set (m := if bool_decide (length mask = 16%nat) then drop 12 mask else mask).
  destruct (mask_ones m) as [ones|] eqn:Eo; [|done]. cbn [mbind option_bind].
  case_bool_decide as Hl; [|done]. case_bool_decide as H30; [done|]. cbn. intros [= <-].
  split_and!; [done..|]. exists addr, mask, a4, m. split_and!; [done..| |done]. exists ones. split; [done|lia].
Qed.

(** ** The packets *)

Inductive WakeEvent := WroteTo (packet : list Z) (dest : string).

Record wchoice := mkWChoice { w_networks : option (list LocalNetwork); w_error : option string }.

Definition wake_act (R : Type) (c : WakeCall R) (x : wchoice) (w : list WakeEvent) : R * list WakeEvent :=
  match c in WakeCall R return R * list WakeEvent with
  | HostNetworks => (w_networks x, w)
  | ListenBroadcast => (w_error x, w)
  | WriteTo p d => (w_error x, w ++ [WroteTo p d])
  end.
#[global] Instance wake_handler : Handler WakeCall (list WakeEvent) wchoice := wake_act.

(** The packet of an address: six times 0xFF, then sixteen times the address. *)
Definition magic (mac : list Z) : list Z := replicate 6 255 ++ mjoin (replicate 16 mac).

Lemma magic_length mac : length mac = 6%nat -> length (magic mac) = 102%nat.
Proof. intros H. unfold magic. rewrite length_app, length_replicate. cbn [replicate mjoin list_join]. rewrite !length_app. cbn [length]. lia. Qed.

(** What a run of sends adds: one packet per address and destination, in order,
    each named as sent or as failed. *)
Definition writes (macs : list (list Z)) (dests : list string) : list WakeEvent :=
  mac ← macs; map (WroteTo (magic mac)) dests.

Lemma send_all_run mac packet dests : forall r xs w r' rest w',
  run (send_all mac packet dests r) xs w = (Some r', rest, w') ->
  w' = w ++ map (WroteTo packet) dests /\
  (length (Sent r') + length (WFailed r') = length (Sent r) + length (WFailed r) + length dests)%nat /\
  WDestinations r' = WDestinations r.
Proof.
  induction dests as [|d dests IH]; intros r xs w r' rest w'; cbn [send_all].
  { intros [= <- <- <-]. cbn. rewrite app_nil_r. split_and!; [done|lia|done]. }
  cbn [mbind prog_mbind prog_bind call run]. destruct xs as [|x xs]; [done|].
  change (act (WriteTo packet d) x w) with (w_error x, w ++ [WroteTo packet d]). cbn [prog_bind].
  intros (-> & Hl & Hd)%IH. split_and!.
  - by rewrite <- (assoc_L (++)).
  - destruct (w_error x); cbn [Sent WFailed length] in Hl; rewrite ?length_app in Hl; cbn [length] in Hl |- *; lia.
  - by destruct (w_error x).
Qed.

Lemma wake_all_run dests macs : Forall (fun mac => length mac = 6%nat) macs -> forall r xs w r' rest w',
  run (wake_all macs dests r) xs w = (Some r', rest, w') ->
  w' = w ++ writes macs dests /\
  (length (Sent r') + length (WFailed r') = length (Sent r) + length (WFailed r) + length macs * length dests)%nat /\
  WDestinations r' = WDestinations r.
Proof.
  induction 1 as [|mac macs Hm _ IH]; intros r xs w r' rest w'; cbn [wake_all].
  { intros [= <- <- <-]. cbn. rewrite app_nil_r. split_and!; [done|lia|done]. }
  unfold MagicPacket. rewrite bool_decide_true by done. cbn [negb]. rewrite run_bind.
  destruct (run (send_all mac _ dests r) xs w) as [[[r1|] xs1] w1] eqn:E; [|done].
  apply send_all_run in E as (-> & Hl1 & Hd1). intros (-> & Hl2 & Hd2)%IH. split_and!.
  - unfold writes. cbn. by rewrite <- (assoc_L (++)).
  - cbn [length]. nia.
  - congruence.
Qed.

Lemma Wake_run nw networks macs xs r err rest w :
  NwNetworks nw = Some networks -> Only nw = [] -> Forall (fun mac => length mac = 6%nat) macs ->
  run (Wake nw macs) xs [] = (Some (r, err), rest, w) ->
  let dests := Destinations (default [] networks) (if bool_decide (NwPort nw = 0) then WakePort else NwPort nw) in
  WDestinations r = dests /\ (err = None <-> Sent r <> []) /\
  ((w = [] /\ Sent r = []) \/
   (w = writes macs dests /\ (length (Sent r) + length (WFailed r) = length macs * length dests)%nat)).
Proof.
  intros Hn Ho Hm. unfold Wake. rewrite Hn, Ho. set (port := if bool_decide _ then _ else _).
  cbn [mbind prog_mbind prog_bind mret prog_mret]. rewrite bool_decide_false by (cbn; lia).
  set (dests := Destinations (default [] networks) port). rewrite run_bind. unfold call. cbn [run].
  destruct xs as [|x xs]; [done|]. change (act ListenBroadcast x []) with (w_error x, ([] : list WakeEvent)).
  cbn [fst snd]. destruct (w_error x) as [why|].
  { intros [= <- <- <- <-]. split_and!; [done| |by left]. split; [done|by intros []]. }
  rewrite run_bind.
  destruct (run (wake_all macs dests _) xs []) as [[[r1|] xs1] w1] eqn:E; [|done].
  apply wake_all_run in E as (-> & Hl & Hd); [|done]. intros [= <- <- <- <-]. cbn in Hl, Hd. split_and!; [done| |by right].
  case_bool_decide as Hs; [split; [done|]; by destruct (Sent r1)|]. split; [|done]. intros _ E. by rewrite E in Hs.
Qed.

(** A wake sends each machine's packet, 102 bytes with its address sixteen times,
    to the limited broadcast and to the directed broadcast of every network the
    host is on, each once; what was written and what failed are accounted for one
    by one, and it fails only when not one packet could be sent. *)
Theorem Wake_sends_every_packet nw networks macs xs r err rest w :
  NwNetworks nw = Some networks -> Only nw = [] -> Forall (fun mac => length mac = 6%nat) macs ->
  run (Wake nw macs) xs [] = (Some (r, err), rest, w) ->
  let port := if bool_decide (NwPort nw = 0) then WakePort else NwPort nw in
  let dests := Destinations (default [] networks) port in
  NoDup dests /\ head dests = Some (limited_broadcast port) /\
  (forall d, d ∈ dests <-> d = limited_broadcast port \/
     exists n ip, n ∈ default [] networks /\ directed n = Some ip /\ d = join_host_port (ip_string ip) port) /\
  Forall (fun mac => length (magic mac) = 102%nat) macs /\
  WDestinations r = dests /\ (err = None <-> Sent r <> []) /\
  ((w = [] /\ Sent r = []) \/
   (w = writes macs dests /\ (length (Sent r) + length (WFailed r) = length macs * length dests)%nat)).
Proof.
  intros Hn Ho Hm Hr. cbn. set (port := if bool_decide (NwPort nw = 0) then WakePort else NwPort nw).
  set (dests := Destinations (default [] networks) port).
  destruct (add_destinations_spec (default [] networks) port [limited_broadcast port]) as (H1 & [l H2] & H3).
  fold (Destinations (default [] networks) port) in *. fold dests in H1, H2, H3.
  split_and!; [apply H1, NoDup_singleton|by rewrite H2| | | | |].
  { intros d. by rewrite H3, list_elem_of_singleton. }
  { eapply Forall_impl; [exact Hm|]. apply magic_length. }
  all: pose proof (Wake_run nw networks macs xs r err rest w Hn Ho Hm Hr) as (E1 & E2 & E3); done.
Qed.

(* ------------------------------------------------------------------ *)
(** ** A host and a machine to try it on *)

Definition pi_ports : list LocalNetwork :=
  [mkNetwork "lo" (Some ([127; 0; 0; 1], [255; 0; 0; 0])) true true false;
   mkNetwork "eth0" (Some (replicate 10 0 ++ [255; 255; 192; 168; 1; 10], [255; 255; 255; 0])) true false true;
   mkNetwork "eth1" (Some ([10; 1; 2; 3], [255; 255; 240; 0])) true false true;
   mkNetwork "wg0" (Some ([10; 9; 0; 1], [255; 255; 255; 0])) true false false;
   mkNetwork "p2p" (Some ([10; 8; 0; 1], [255; 255; 255; 254])) true false true].

Example pi_destinations :
  Destinations pi_ports WakePort = ["255.255.255.255:9"; "192.168.1.255:9"; "10.1.15.255:9"].
Proof. by vm_compute. Qed.

Definition pi_waker : NetWaker := mkNetWaker 0 (Some (Some pi_ports)) [].
Definition card : list Z := default [] (ParseMAC "00:23:24:aB:cd:eF").
Definition no_error : wchoice := mkWChoice None None.

Lemma Wake_sends_every_packet_witness :
  MACsOf [mkInterface "00:23:24:aB:cd:eF" ""; mkInterface "00:23:24:ab:cd:ef" ""; mkInterface "00:00:00:00:00:00" ""] = [card] /\
  exists r err rest w,
    run (Wake pi_waker [card]) [no_error; no_error; mkWChoice None (Some "down"); no_error] [] = (Some (r, err), rest, w) /\
    err = None /\ w = writes [card] (Destinations pi_ports WakePort).
Proof.
  split; [by vm_compute|].
  destruct (run (Wake pi_waker [card]) [no_error; no_error; mkWChoice None (Some "down"); no_error] []) as [[[[r err]|] rest] w] eqn:E;
    [|by vm_compute in E].
  exists r, err, rest, w. split; [done|].
  assert (Hm : Forall (fun mac => length mac = 6%nat) [card]) by (constructor; [by vm_compute|constructor]).
  destruct (Wake_sends_every_packet pi_waker (Some pi_ports) [card] _ r err rest w eq_refl eq_refl Hm E)
    as (_ & _ & _ & _ & _ & He & [[Hw _]|[Hw _]]).
  - vm_compute in E. injection E as _ _ _ <-. discriminate Hw.
  - split; [|exact Hw]. apply He. vm_compute in E. injection E as <- _ _ _. discriminate.
Defined.
