(* ===== verification/Version.v ===== *)
(** * Versions: what may be upgraded to what

    [src/internal/talos/version.go] (the supported Talos window) and
    [src/internal/compat/compat.go] (the Talos-to-Kubernetes matrix). The chains
    of versions an upgrade passes through are in [Plan.v]. *)

From S2P Require Import Prelude.

(* ------------------------------------------------------------------ *)
(** ** talos/version.go *)

Module Talos.

Definition MinSupportedVersion : string := "v1.12".
Definition MaxSupportedVersion : string := "v1.14".

Inductive version_error :=
  | ErrUnsupportedVersion
  | ErrPreRelease
  | ErrBadConstant.

(** [before]: whether a.b sorts before c.d. *)
Definition before (a b c d : Z) : bool :=
  if negb (bool_decide (a = c)) then bool_decide (a < c)%Z else bool_decide (b < d)%Z.

(** The part of a string before the first byte of [-] or [+]
    ([strings.IndexAny(v, "-+")]), and what follows that byte. *)
Fixpoint cut_any (s : string) : string * option string :=
  match s with
  | EmptyString => (EmptyString, None)
  | String c s' =>
      if Ascii.eqb c "-" || Ascii.eqb c "+" then (EmptyString, Some s')
      else let '(a, b) := cut_any s' in (String c a, b)
  end.

Definition parseMajorMinor (version : string) : option (Z * Z) :=
  let v := trim_prefix (trim_space version) "v" in
  let v := fst (cut_any v) in
  match split_on "." v with
  | p0 :: p1 :: _ =>
      major ← atoi p0;
      minor ← atoi p1;
      Some (major, minor)
  | _ => None
  end.

Definition preRelease (version : string) : string :=
  let v := fst (cut_at "+" (trim_space version)) in
  match snd (cut_at "-" v) with
  | Some pre => pre
  | None => ""
  end.

Definition IsPreRelease (version : string) : bool := negb (bool_decide (preRelease version = "")).

Definition CheckSupportedVersion (version : string) (allowPreRelease : bool) : result version_error unit :=
  match parseMajorMinor version with
  | None => Err ErrUnsupportedVersion
  | Some (major, minor) =>
      if negb (bool_decide (preRelease version = "")) && negb allowPreRelease then Err ErrPreRelease
      else match parseMajorMinor MinSupportedVersion with
      | None => Err ErrBadConstant
      | Some (minMajor, minMinor) =>
          match parseMajorMinor MaxSupportedVersion with
          | None => Err ErrBadConstant
          | Some (maxMajor, maxMinor) =>
              if before major minor minMajor minMinor || before maxMajor maxMinor major minor
              then Err ErrUnsupportedVersion
              else Ok tt
          end
      end
  end.

Definition InSupportedRange (version : string) : bool :=
  match parseMajorMinor version, parseMajorMinor MinSupportedVersion, parseMajorMinor MaxSupportedVersion with
  | Some (major, minor), Some (minMajor, minMinor), Some (maxMajor, maxMinor) =>
      negb (before major minor minMajor minMinor) && negb (before maxMajor maxMinor major minor)
  | _, _, _ => false
  end.

End Talos.

(* ------------------------------------------------------------------ *)
(** ** compat/compat.go *)

Module Compat.

Record Window := { MinMinor : Z; MaxMinor : Z; DefaultMinor : Z }.

Definition win (a b c : Z) : Window := {| MinMinor := a; MaxMinor := b; DefaultMinor := c |}.

Definition matrix : gmap Z Window := list_to_map
  [ (7%Z, win 26 30 30); (8%Z, win 27 31 31); (9%Z, win 28 32 32); (10%Z, win 29 32 32);
    (11%Z, win 30 33 33); (12%Z, win 30 35 35); (13%Z, win 31 36 36); (14%Z, win 32 37 37) ].

Record Verdict := {
  Known : bool;
  Supported : bool;
  VWindow : Window;
  HeadroomMinors : Z;
  Sentence : string }.

Definition noWindow : Window := win 0 0 0.

Definition unknown (sentence : string) : Verdict :=
  {| Known := false; Supported := false; VWindow := noWindow; HeadroomMinors := 0; Sentence := sentence |}.

Definition minor (version : string) : option Z :=
  let v := trim_prefix (trim_space version) "v" in
  match split_n "." 3 v with
  | p0 :: p1 :: _ =>
      if negb (bool_decide (p0 = "1")) then None
      else match atoi p1 with
           | Some n => if bool_decide (n < 0)%Z then None else Some n
           | None => None
           end
  | _ => None
  end.

Definition Check (talosVersion kubernetesVersion : string) : Verdict :=
  match minor talosVersion with
  | None => unknown "The Talos version could not be read, so no compatibility statement is possible."
  | Some talosMinor =>
      match matrix !! talosMinor with
      | None => unknown ("Talos 1." +:+ itoa talosMinor +:+
          " is not in the compatibility table shipped with this build, so no statement is made about it.")
      | Some w =>
          match minor kubernetesVersion with
          | None =>
              {| Known := true; Supported := false; VWindow := w; HeadroomMinors := 0;
                 Sentence := "Talos 1." +:+ itoa talosMinor +:+ " supports Kubernetes 1." +:+
                   itoa (MinMinor w) +:+ " to 1." +:+ itoa (MaxMinor w) +:+
                   "; this node's Kubernetes version is not known." |}
          | Some k8sMinor =>
              let headroom := (MaxMinor w - k8sMinor)%Z in
              {| Known := true;
                 Supported := bool_decide (k8sMinor >= MinMinor w)%Z && bool_decide (k8sMinor <= MaxMinor w)%Z;
                 VWindow := w;
                 HeadroomMinors := headroom;
                 Sentence :=
                   if bool_decide (k8sMinor > MaxMinor w)%Z then
                     "Kubernetes 1." +:+ itoa k8sMinor +:+ " is newer than Talos 1." +:+ itoa talosMinor +:+
                     " supports (up to 1." +:+ itoa (MaxMinor w) +:+
                     "). Upgrade Talos before this node is trusted to behave."
                   else if bool_decide (k8sMinor < MinMinor w)%Z then
                     "Kubernetes 1." +:+ itoa k8sMinor +:+ " is older than Talos 1." +:+ itoa talosMinor +:+
                     " supports (from 1." +:+ itoa (MinMinor w) +:+ "). Upgrade Kubernetes."
                   else if bool_decide (headroom = 0)%Z then
                     "Kubernetes 1." +:+ itoa k8sMinor +:+ " is at the top of what Talos 1." +:+ itoa talosMinor +:+
                     " supports. The next Kubernetes upgrade needs a Talos upgrade first."
                   else
                     "Kubernetes 1." +:+ itoa k8sMinor +:+ " is " +:+ itoa headroom +:+
                     " minor version(s) below the top of what Talos 1." +:+ itoa talosMinor +:+
                     " supports (1." +:+ itoa (MaxMinor w) +:+ ")." |}
          end
      end
  end.

(** The table's keys; Go returns them in an unspecified order. *)
Definition TalosMinors : gset Z := dom matrix.

End Compat.

Module Export CompatLemmas.
Import Compat.

Lemma Check_Known t k :
  Known (Check t k) = true <-> exists tm w, minor t = Some tm /\ matrix !! tm = Some w.
Proof.
  unfold Check. destruct (minor t) as [tm|]; [|split; [done|intros (? & ? & ? & _); done]].
  destruct (matrix !! tm) as [w|] eqn:Hw; [|split; [done|intros (? & ? & [= <-] & ?); congruence]].
  split; [eauto|]. intros _. by destruct (minor k).
Qed.

Lemma Check_Supported t k :
  Supported (Check t k) = true <->
  exists tm w km, minor t = Some tm /\ matrix !! tm = Some w /\ minor k = Some km /\
    (MinMinor w <= km <= MaxMinor w)%Z.
Proof.
  unfold Check. destruct (minor t) as [tm|]; [|split; [done|intros (? & ? & ? & ? & _); done]].
  destruct (matrix !! tm) as [w|] eqn:Hw; [|split; [done|intros (? & ? & ? & [= <-] & ? & _); congruence]].
  destruct (minor k) as [km|]; [|split; [done|intros (? & ? & ? & _ & _ & ? & _); done]].
  unfold Supported. rewrite andb_true_iff, !bool_decide_eq_true. split.
  - intros [? ?]. exists tm, w, km. split_and!; [done..|lia|lia].
  - intros (? & ? & ? & [= <-] & Hw' & [= <-] & ?). simplify_eq. lia.
Qed.

(** [compat.Check] never contradicts itself: a supported verdict is a known
    one, the headroom is the distance to the top of the row that applied, a
    supported version never has a negative headroom, and the top of the window
    is exactly headroom zero. *)
Theorem Check_consistent t k :
  Supported (Check t k) = true ->
  Known (Check t k) = true /\ (0 <= HeadroomMinors (Check t k))%Z /\
  exists km, minor k = Some km /\ HeadroomMinors (Check t k) = (MaxMinor (VWindow (Check t k)) - km)%Z.
Proof.
  intros HS. pose proof HS as (tm & w & km & Ht & Hw & Hk & Hr)%Check_Supported.
  split; [apply Check_Known; eauto|]. unfold Check. rewrite Ht, Hw, Hk. cbn [HeadroomMinors VWindow].
  split; [lia|]. by exists km.
Qed.

Lemma Check_consistent_witness :
  Known (Check "v1.14.0" "v1.36.2") = true /\ (0 <= HeadroomMinors (Check "v1.14.0" "v1.36.2"))%Z.
Proof.
  destruct (Check_consistent "v1.14.0" "v1.36.2") as (H1 & H2 & _); [vm_compute; reflexivity|]. by split.
Defined.

End CompatLemmas.

(* ------------------------------------------------------------------ *)
(** ** The supported window *)

Lemma min_supported_parsed : Talos.parseMajorMinor Talos.MinSupportedVersion = Some (1, 12)%Z.
Proof. vm_compute. reflexivity. Qed.
Lemma max_supported_parsed : Talos.parseMajorMinor Talos.MaxSupportedVersion = Some (1, 14)%Z.
Proof. vm_compute. reflexivity. Qed.

(** a node's version is accepted exactly when it can be read, its
    major.minor is 1.12, 1.13 or 1.14, and it is a release or the instance has
    opted into pre-releases; the marking on the screen ([InSupportedRange])
    says the same about the range and leaves the opt-in out; the unreachable
    "bad constant" refusals never happen; and a pre-release is told apart from
    an unsupported version even when it is both. *)
Theorem CheckSupportedVersion_spec version allow :
  (Talos.CheckSupportedVersion version allow = Ok tt <->
    Talos.InSupportedRange version = true /\ (Talos.IsPreRelease version = false \/ allow = true)) /\
  (Talos.InSupportedRange version = true <->
    exists minor, Talos.parseMajorMinor version = Some (1%Z, minor) /\ (12 <= minor <= 14)%Z) /\
  Talos.CheckSupportedVersion version allow <> Err Talos.ErrBadConstant /\
  (Talos.CheckSupportedVersion version allow = Err Talos.ErrPreRelease <->
    is_Some (Talos.parseMajorMinor version) /\ Talos.IsPreRelease version = true /\ allow = false).
Proof.
  unfold Talos.CheckSupportedVersion, Talos.InSupportedRange, Talos.IsPreRelease.
  rewrite min_supported_parsed, max_supported_parsed.
  destruct (Talos.parseMajorMinor version) as [[ma mi]|].
  2:{ split_and!; try done; split; naive_solver. }
  assert (negb (Talos.before ma mi 1 12 || Talos.before 1 14 ma mi) = true <->
    exists minor, Some (ma, mi) = Some (1%Z, minor) /\ (12 <= minor <= 14)%Z) as Hb.
  { split.
    - intros H. exists mi. unfold Talos.before in H. repeat case_bool_decide; cbn in H; try done;
        (split; [repeat f_equal|]; lia).
    - intros (m & [= -> ->] & Hm). unfold Talos.before. repeat case_bool_decide; cbn; done || lia. }
  rewrite <- !negb_orb. split_and!; [|exact Hb| |]; clear Hb;
    destruct (Talos.before ma mi 1 12 || Talos.before 1 14 ma mi);
    destruct (bool_decide (Talos.preRelease version = "")), allow; cbn;
    split || idtac; intros; destruct_and?; destruct_or?; try done; eauto.
Qed.
