(* ===== verification/Plan.v ===== *)
(** * Upgrade plans

    [src/internal/upgrade/plan.go]: parsed versions and their order, the chain
    of minors an upgrade passes through, the release list an operator chooses
    from, and the check that blocks an upgrade that would strand the cluster's
    Kubernetes. *)

From S2P Require Import Prelude Version.

Inductive plan_error :=
  | ErrNotAVersion (s : string)
  | ErrNoPath (why : string)
  | ErrWouldStrand (why : string).

Record Ver := { Major : Z; Minor : Z; Patch : Z; Pre : string }.

#[global] Instance Ver_eq_dec : EqDecision Ver.
Proof. solve_decision. Defined.

Definition mk (a b c : Z) : Ver := {| Major := a; Minor := b; Patch := c; Pre := "" |}.

(** [Version.String]. *)
Definition ver_string (v : Ver) : string :=
  "v" +:+ itoa (Major v) +:+ "." +:+ itoa (Minor v) +:+ "." +:+ itoa (Patch v) +:+
  (if bool_decide (Pre v = "") then "" else "-" +:+ Pre v).

Definition Contract (v : Ver) : string := "v" +:+ itoa (Major v) +:+ "." +:+ itoa (Minor v).

Definition IsPreRelease (v : Ver) : bool := negb (bool_decide (Pre v = "")).

(** [Version.Less]. *)
Definition Less (v o : Ver) : bool :=
  if negb (bool_decide (Major v = Major o)) then bool_decide (Major v < Major o)%Z
  else if negb (bool_decide (Minor v = Minor o)) then bool_decide (Minor v < Minor o)%Z
  else if negb (bool_decide (Patch v = Patch o)) then bool_decide (Patch v < Patch o)%Z
  else if bool_decide (Pre v = Pre o) then false
  else if bool_decide (Pre v = "") then false
  else if bool_decide (Pre o = "") then true
  else str_lt (Pre v) (Pre o).

(** The numbers of the first three components; a missing one is 0, a fourth is
    not looked at. *)
Fixpoint parse_nums (n : nat) (parts : list string) : option (list Z) :=
  match n with
  | O => Some []
  | S n' =>
      match parts with
      | [] => Some (replicate n 0%Z)
      | p :: rest =>
          match atoi p with
          | Some z => if bool_decide (z < 0)%Z then None
                      else match parse_nums n' rest with
                           | Some zs => Some (z :: zs)
                           | None => None
                           end
          | None => None
          end
      end
  end.

Definition ParseVersion (s : string) : result plan_error Ver :=
  let raw := trim_prefix (trim_space s) "v" in
  let '(raw, pre) := match Talos.cut_any raw with
                     | (r, Some p) => (r, p)
                     | (r, None) => (r, "")
                     end in
  let parts := split_on "." raw in
  if bool_decide (length parts < 2) then Err (ErrNotAVersion s)
  else match parse_nums 3 parts with
       | Some [a; b; c] => Ok {| Major := a; Minor := b; Patch := c; Pre := pre |}
       | _ => Err (ErrNotAVersion s)
       end.

Record Step := { To : Ver; Why : string }.

(** The newest release that is not a pre-release, per minor of [from]'s major. *)
Definition newest_add (major : Z) (newest : gmap Z Ver) (v : Ver) : gmap Z Ver :=
  if IsPreRelease v || negb (bool_decide (Major v = major)) then newest
  else match newest !! Minor v with
       | None => <[Minor v := v]> newest
       | Some cur => if Less cur v then <[Minor v := v]> newest else newest
       end.
Definition newest_of (major : Z) (available : list Ver) : gmap Z Ver :=
  foldl (newest_add major) ∅ available.

(** The minors strictly between two, in ascending order: the values of
    [for m := from.Minor + 1; m < to.Minor; m++]. *)
Definition minors_between (from to : Ver) : list Z :=
  seqZ (Minor from + 1) (Minor to - (Minor from + 1)).

Fixpoint chain_steps (from to : Ver) (newest : gmap Z Ver) (why : Z -> string) (missing : Z -> string)
    (ms : list Z) : result plan_error (list Step) :=
  match ms with
  | [] => Ok []
  | m :: ms' =>
      match newest !! m with
      | None => Err (ErrNoPath (missing m))
      | Some v =>
          rest ← chain_steps from to newest why missing ms';
          Ok ({| To := v; Why := why m |} :: rest)
      end
  end.

Definition talos_missing (from to : Ver) (m : Z) : string :=
  "getting from " +:+ ver_string from +:+ " to " +:+ ver_string to +:+ " has to pass through 1." +:+ itoa m +:+
  ", and no 1." +:+ itoa m +:+ " release is available to this installation. Talos upgrades one minor at a " +:+
  "time; there is no way to skip it".

Definition talos_why (from to : Ver) (m : Z) : string :=
  "Talos upgrades one minor version at a time, so " +:+ Contract from +:+ " to " +:+ Contract to +:+
  " has to pass through 1." +:+ itoa m +:+ ". This is not the version you asked for; it is the one on the way.".

Definition Chain (from to : Ver) (available : list Ver) : result plan_error (list Step) :=
  if negb (bool_decide (Major from = Major to)) then
    Err (ErrNoPath (ver_string from +:+ " and " +:+ ver_string to +:+
      " are different major versions, and nothing here knows what that means"))
  else if Less to from then
    Err (ErrNoPath (ver_string to +:+ " is older than " +:+ ver_string from +:+
      ". Talos does not support downgrading, and a downgrade that appeared to work would be a cluster " +:+
      "whose etcd has already written a newer storage version"))
  else if bool_decide (to = from) then Ok []
  else
    steps ← chain_steps from to (newest_of (Major from) available) (talos_why from to) (talos_missing from to)
              (minors_between from to);
    let why := if bool_decide (0 < length steps) then "The version you chose, reached after the step(s) above."
               else "The version you chose." in
    Ok (steps ++ [{| To := to; Why := why |}]).

(** The order of [sort.Slice(out, out[j].Less(out[i]))]: newest first. *)
Definition newer_first (a b : Ver) : Prop := Less a b = false.
#[global] Instance newer_first_dec : RelDecision newer_first.
Proof. intros a b. unfold newer_first. apply _. Defined.

Definition release_candidate (s : string) : option Ver :=
  match ParseVersion s with
  | Err _ => None
  | Ok v =>
      if IsPreRelease v then None
      else if match ParseVersion Talos.MinSupportedVersion with
              | Ok minSupported => Less v minSupported
              | Err _ => false
              end then None
      else if match ParseVersion Talos.MaxSupportedVersion with
              | Ok maxSupported => Less maxSupported (mk (Major v) (Minor v) 0)
              | Err _ => false
              end then None
      else Some v
  end.

Definition Releases (versions : list string) : list Ver :=
  merge_sort newer_first (omap release_candidate versions).

Record StrandCheck := { Blocked : bool; Sentence : string; Remedy : string }.

Definition CheckStrand (to : Ver) (kubernetesVersion : string) : StrandCheck :=
  let v := Compat.Check (ver_string to) kubernetesVersion in
  if negb (Compat.Known v) then
    {| Blocked := true;
       Sentence := "Talos " +:+ Contract to +:+ " is not in the compatibility table shipped with this " +:+
         "build, so nothing here can say which Kubernetes versions it supports.";
       Remedy := "Upgrade holzkube-manager to a build whose table covers this Talos version, or " +:+
         "perform this upgrade with talosctl, having checked the release notes yourself." |}
  else if bool_decide (kubernetesVersion = "") then
    {| Blocked := true;
       Sentence := "This cluster's Kubernetes version is not known, so whether Talos " +:+ Contract to +:+
         " supports it cannot be answered.";
       Remedy := "Refresh the cluster so its nodes report their Kubernetes version, then look again." |}
  else if Compat.Supported v then
    {| Blocked := false; Sentence := Compat.Sentence v; Remedy := "" |}
  else
    {| Blocked := true;
       Sentence := Compat.Sentence v;
       Remedy := "Bring Kubernetes into the range Talos " +:+ Contract to +:+ " supports (1." +:+
         itoa (Compat.MinMinor (Compat.VWindow v)) +:+ " to 1." +:+ itoa (Compat.MaxMinor (Compat.VWindow v)) +:+
         ") before upgrading Talos. Doing it the other way round leaves the cluster on a Kubernetes version " +:+
         "its own Talos no longer supports, and the upgrade that would fix that is performed by that same Talos." |}.

Definition MaxKubernetesIntermediates : Z := 16.

Definition kubernetesChainPrecheck (from to : Ver) (talosVersion : string) : result plan_error unit :=
  if Less to from then Err (ErrNoPath "Kubernetes does not support downgrading")
  else if bool_decide (to = from) then Ok tt
  else
    let v := Compat.Check talosVersion (ver_string to) in
    if Compat.Known v && negb (Compat.Supported v) then Err (ErrWouldStrand (Compat.Sentence v))
    else Ok tt.

Definition kubernetesIntermediateMinors (from to : Ver) : result plan_error (list Z) :=
  let n := (Minor to - Minor from - 1)%Z in
  if bool_decide (n <= 0)%Z then Ok []
  else if bool_decide (n > MaxKubernetesIntermediates)%Z then
    Err (ErrNoPath ("getting from " +:+ ver_string from +:+ " to " +:+ ver_string to +:+ " would pass through " +:+
      itoa n +:+ " minor versions, and nothing here plans more than " +:+ itoa MaxKubernetesIntermediates +:+
      ". Kubernetes upgrades one minor at a time; choose a nearer target"))
  else Ok (minors_between from to).

Definition k8s_missing (from to : Ver) (m : Z) : string :=
  "getting from " +:+ ver_string from +:+ " to " +:+ ver_string to +:+ " has to pass through 1." +:+ itoa m +:+
  ", and its newest patch is not known. Kubernetes upgrades one minor at a time; there is no " +:+
  "way to skip it, and no version is guessed in its place".

Definition k8s_why (from to : Ver) (m : Z) : string :=
  "kube-apiserver may not skip a minor version when it is upgraded, so " +:+ Contract from +:+ " to " +:+
  Contract to +:+ " has to pass through 1." +:+ itoa m +:+ ". This is the newest stable patch of 1." +:+ itoa m +:+
  ", not the version you asked for; it is the one on the way.".

Definition KubernetesChain (from to : Ver) (talosVersion : string) (newest : gmap Z Ver)
    : result plan_error (list Step) :=
  _ ← kubernetesChainPrecheck from to talosVersion;
  if bool_decide (to = from) then Ok []
  else
    minors ← kubernetesIntermediateMinors from to;
    steps ← chain_steps from to newest (k8s_why from to) (k8s_missing from to) minors;
    Ok (if bool_decide (Minor to > Minor from)%Z
        then steps ++ [{| To := to; Why := "The version you chose." |}]
        else steps).

Example chain_112_114 :
  (fun s => ver_string (To s)) <$> match Chain (mk 1 12 3) (mk 1 14 0) [mk 1 13 1; mk 1 13 9; mk 1 14 0] with
            | Ok l => l | Err _ => [] end = ["v1.13.9"; "v1.14.0"].
Proof. vm_compute. reflexivity. Qed.

Example parse_112 : ParseVersion "v1.14.0-rc.2 " = Ok {| Major := 1; Minor := 14; Patch := 0; Pre := "rc.2" |}.
Proof. vm_compute. reflexivity. Qed.

(* ------------------------------------------------------------------ *)
(** ** The order of versions *)

Definition pre_lt (a b : string) : Prop :=
  a <> b /\ a <> "" /\ (b = "" \/ str_lt a b = true).

Lemma Less_spec v o :
  Less v o = true <->
  (Major v < Major o \/ (Major v = Major o /\
    (Minor v < Minor o \/ (Minor v = Minor o /\
      (Patch v < Patch o \/ (Patch v = Patch o /\ pre_lt (Pre v) (Pre o)))))))%Z.
Proof.
  unfold Less, pre_lt.
  repeat case_match; bools; simplify_eq;
    try (split; [intros; try done|intros ?]; destruct_or?; destruct_and?; try done; try lia; auto 10).
  all: try (split; [done|]); naive_solver lia.
Qed.

Lemma pre_lt_irrefl a : ~ pre_lt a a.
Proof. unfold pre_lt. naive_solver. Qed.

Lemma pre_lt_trans a b c : pre_lt a b -> pre_lt b c -> pre_lt a c.
Proof.
  unfold pre_lt. intros (Hab & Ha & Hab') (Hbc & Hb & Hbc').
  destruct Hab' as [->|Hab']; [done|]. split_and!; [|done|].
  - intros ->. destruct Hbc' as [->|Hbc']; [done|].
    pose proof (str_lt_trans _ _ _ Hab' Hbc') as H. by rewrite str_lt_irrefl in H.
  - destruct Hbc' as [->|Hbc']; [by left|]. right. by eapply str_lt_trans.
Qed.

Lemma pre_lt_total a b : a = b \/ pre_lt a b \/ pre_lt b a.
Proof.
  unfold pre_lt. destruct (decide (a = b)); [by left|]. right.
  destruct (decide (a = "")) as [->|]; [naive_solver|].
  destruct (decide (b = "")) as [->|]; [naive_solver|].
  destruct (str_lt_total a b) as [?|[?|?]]; naive_solver.
Qed.

Lemma Less_irrefl v : Less v v = false.
Proof.
  apply not_true_iff_false. rewrite Less_spec. pose proof (pre_lt_irrefl (Pre v)). intuition lia.
Qed.

Lemma Less_trans u v w : Less u v = true -> Less v w = true -> Less u w = true.
Proof.
  rewrite !Less_spec. pose proof (pre_lt_trans (Pre u) (Pre v) (Pre w)). intuition lia.
Qed.

Lemma Less_total u v : u = v \/ Less u v = true \/ Less v u = true.
Proof.
  rewrite !Less_spec. destruct u as [a b c p], v as [a' b' c' p']; cbn.
  destruct (pre_lt_total p p') as [->|[?|?]];
    destruct (Z.lt_total a a') as [?|[->|?]]; [lia..| | |lia|lia| |lia|lia| |lia];
    destruct (Z.lt_total b b') as [?|[->|?]]; [lia..| | |lia|lia| |lia|lia| |lia];
    destruct (Z.lt_total c c') as [?|[->|?]]; auto 12.
Qed.

(** [Version.Less] is a strict total order on versions: irreflexive,
    transitive, and any two different versions are comparable. Sorting and
    "newest" are therefore well defined, and [to == from] is the only case in
    which neither [to.Less(from)] nor [from.Less(to)] holds. *)
Theorem Less_strict_total :
  (forall v, Less v v = false) /\
  (forall u v w, Less u v = true -> Less v w = true -> Less u w = true) /\
  (forall u v, u <> v -> Less u v = true \/ Less v u = true).
Proof.
  split_and!; [apply Less_irrefl|apply Less_trans|].
  intros u v Hne. destruct (Less_total u v) as [?|?]; [done|auto].
Qed.

Lemma Less_asym u v : Less u v = true -> Less v u = false.
Proof.
  intros H. apply not_true_iff_false. intros H'. pose proof (Less_trans _ _ _ H H') as Hu.
  by rewrite Less_irrefl in Hu.
Qed.

Lemma Less_false_trans u v w : Less u v = false -> Less v w = false -> Less u w = false.
Proof.
  intros Huv Hvw. apply not_true_iff_false. intros Huw.
  destruct (Less_total v w) as [->|[?|Hwv]]; [congruence..|].
  pose proof (Less_trans _ _ _ Huw Hwv). congruence.
Qed.

(* ------------------------------------------------------------------ *)
(** ** The newest release of a minor *)

(** [v] is the newest stable release of its minor among [available]. *)
Definition is_newest (available : list Ver) (major : Z) (v : Ver) : Prop :=
  v ∈ available /\ IsPreRelease v = false /\ Major v = major /\
  forall u, u ∈ available -> IsPreRelease u = false -> Major u = major -> Minor u = Minor v -> Less v u = false.

Lemma newest_add_lookup major newest v m :
  newest_add major newest v !! m =
    if negb (IsPreRelease v) && bool_decide (Major v = major) && bool_decide (Minor v = m)
    then match newest !! m with
         | None => Some v
         | Some cur => Some (if Less cur v then v else cur)
         end
    else newest !! m.
Proof.
  unfold newest_add. destruct (IsPreRelease v); cbn; [done|].
  destruct (decide (Major v = major)) as [Hm|Hm];
    [rewrite (bool_decide_eq_true_2 (Major v = major)) by done
    |rewrite (bool_decide_eq_false_2 (Major v = major)) by done]; cbn; [|done].
  destruct (decide (Minor v = m)) as [<-|Hne].
  - rewrite bool_decide_eq_true_2 by done.
    destruct (newest !! Minor v) as [cur|] eqn:E; [destruct (Less cur v)|]; by simplify_map_eq.
  - rewrite bool_decide_eq_false_2 by done.
    destruct (newest !! Minor v) as [cur|] eqn:E; [destruct (Less cur v)|]; by simplify_map_eq.
Qed.

Lemma newest_of_snoc major l v :
  newest_of major (l ++ [v]) = newest_add major (newest_of major l) v.
Proof. unfold newest_of. by rewrite foldl_snoc. Qed.

Definition stable_in (major m : Z) (u : Ver) : Prop :=
  IsPreRelease u = false /\ Major u = major /\ Minor u = m.

Lemma newest_of_spec major available m :
  match newest_of major available !! m with
  | Some v => is_newest available major v /\ Minor v = m
  | None => forall u, u ∈ available -> ~ stable_in major m u
  end.
Proof.
  unfold is_newest, stable_in.
  induction available as [|v l IH] using rev_ind; [set_solver|].
  rewrite newest_of_snoc, newest_add_lookup.
  assert (forall u, u ∈ l ++ [v] <-> u ∈ l \/ u = v) as Hsn by set_solver.
  destruct (negb (IsPreRelease v) && bool_decide (Major v = major) && bool_decide (Minor v = m)) eqn:Hc; bools.
  - destruct Hc as [[Hpre Hmaj] Hmin]. destruct (newest_of major l !! m) as [cur|].
    + destruct IH as ((Hin & Hp & HM & Hbest) & Hm). destruct (Less cur v) eqn:Hless.
      * split_and!; auto; [by apply Hsn; auto|]. intros u [Hu| ->]%Hsn Hup HuM Hum; [|apply Less_irrefl].
        apply Less_false_trans with cur; [by apply Less_asym|]. apply Hbest; congruence.
      * split_and!; auto; [by apply Hsn; auto|]. intros u [Hu| ->]%Hsn Hup HuM Hum; [by apply Hbest|done].
    + split_and!; auto; [by apply Hsn; auto|]. intros u [Hu| ->]%Hsn Hup HuM Hum; [|apply Less_irrefl].
      exfalso. apply (IH u Hu). split_and!; congruence.
  - destruct (newest_of major l !! m) as [cur|].
    + destruct IH as ((Hin & Hp & HM & Hbest) & Hm). split_and!; auto; [by apply Hsn; auto|].
      intros u [Hu| ->]%Hsn Hup HuM Hum; [by apply Hbest|]. naive_solver congruence.
    + intros u [Hu| ->]%Hsn; [by apply IH|]. naive_solver congruence.
Qed.

Lemma newest_of_None major available m :
  newest_of major available !! m = None -> forall u, u ∈ available -> ~ stable_in major m u.
Proof. intros H. pose proof (newest_of_spec major available m) as Hs. by rewrite H in Hs. Qed.

Lemma newest_of_Some major available m v :
  newest_of major available !! m = Some v -> is_newest available major v /\ Minor v = m.
Proof. intros H. pose proof (newest_of_spec major available m) as Hs. by rewrite H in Hs. Qed.

(* ------------------------------------------------------------------ *)
(** ** Chains *)

Lemma chain_steps_ok from to newest why missing ms steps :
  chain_steps from to newest why missing ms = Ok steps <->
  Forall2 (fun m s => newest !! m = Some (To s) /\ Why s = why m) ms steps.
Proof.
  revert steps. induction ms as [|m ms IH]; intros steps; cbn.
  - split; [intros [= <-]; constructor|by inversion 1].
  - destruct (newest !! m) as [v|] eqn:E; cbn.
    + destruct (chain_steps from to newest why missing ms) as [rest|e] eqn:Er; cbn.
      * split.
        -- intros [= <-]. constructor; [done|]. by apply IH.
        -- intros H. inversion H as [|? [v' w'] ? rest' [Hv Hw] Hrest]; subst. cbn in *.
           apply IH in Hrest. congruence.
      * split; [done|]. intros H. inversion H as [|? s ? rest' _ Hrest]; subst.
        apply IH in Hrest. congruence.
    + split; [done|]. intros H. inversion H as [|? s ? rest' [Hv _] _]; subst. congruence.
Qed.

Lemma chain_steps_total from to newest why missing ms :
  (forall m, m ∈ ms -> is_Some (newest !! m)) ->
  exists steps, chain_steps from to newest why missing ms = Ok steps.
Proof.
  induction ms as [|m ms IH]; intros H; cbn; [by eexists|].
  destruct (H m) as [v ->]; [set_solver|]. destruct IH as [rest ->]; [set_solver|]. by eexists.
Qed.

Lemma chain_steps_minors from to newest why missing ms steps :
  (forall m v, newest !! m = Some v -> Minor v = m) ->
  chain_steps from to newest why missing ms = Ok steps -> (Minor ∘ To) <$> steps = ms.
Proof.
  intros Hn. rewrite chain_steps_ok. induction 1 as [|m s ms steps [Hs _] _ IH]; [done|].
  cbn. f_equal; [by apply Hn|done].
Qed.

Lemma Chain_unfold from to available :
  Major from = Major to -> Less to from = false -> to <> from ->
  exists why, Chain from to available =
    (steps ← chain_steps from to (newest_of (Major from) available) (talos_why from to) (talos_missing from to)
              (minors_between from to);
     Ok (steps ++ [{| To := to; Why := why steps |}])).
Proof.
  intros HM HL Hne. unfold Chain.
  rewrite (bool_decide_eq_true_2 (Major from = Major to)) by done.
  rewrite HL, (bool_decide_eq_false_2 (to = from)) by done. by eexists.
Qed.

Lemma Chain_ok_cases from to available steps :
  Chain from to available = Ok steps ->
  Major from = Major to /\ Less to from = false /\ (to = from /\ steps = [] \/ to <> from).
Proof.
  unfold Chain. intros H.
  destruct (decide (Major from = Major to)) as [HM|HM];
    [rewrite (bool_decide_eq_true_2 (Major from = Major to)) in H by done
    |rewrite (bool_decide_eq_false_2 (Major from = Major to)) in H by done]; cbn in H; [|done].
  destruct (Less to from) eqn:HL; [done|].
  destruct (decide (to = from)) as [->|Hne]; [|by auto].
  rewrite bool_decide_eq_true_2 in H by done. naive_solver.
Qed.

(** A chain that exists: its minors, and its steps before the last. *)
Lemma Chain_steps from to available steps :
  Chain from to available = Ok steps -> to <> from ->
  exists init final, steps = init ++ [final] /\ To final = to /\
    (Minor ∘ To) <$> init = minors_between from to /\
    forall s, s ∈ init -> is_newest available (Major from) (To s).
Proof.
  intros H Hne. destruct (Chain_ok_cases _ _ _ _ H) as (HM & HL & _).
  destruct (Chain_unfold from to available HM HL Hne) as [why Hu]. rewrite Hu in H. clear Hu.
  destruct (chain_steps _ _ _ _ _ _) as [init|e] eqn:Hc; cbn in H; [|done]. injection H as <-.
  eexists init, _. split_and!; [done|done| |].
  - apply (chain_steps_minors _ _ _ _ _ _ _ (fun m v Hm => proj2 (newest_of_Some _ _ _ _ Hm)) Hc).
  - intros s Hs. apply chain_steps_ok in Hc. apply list_elem_of_lookup in Hs as [i Hi].
    destruct (Forall2_lookup_r _ _ _ _ _ Hc Hi) as (m & _ & Hm & _).
    by destruct (newest_of_Some _ _ _ _ Hm).
Qed.

(** C18: what a Talos upgrade chain is, when there is one. From a different
    version of the same major it goes forward: the minors of its steps are
    exactly the minors strictly between the two and then the target's, one
    after the other; it ends in the version that was chosen; and every step
    before the last is the newest stable release of its minor that is
    available. *)
Theorem Chain_path from to available steps :
  Chain from to available = Ok steps -> to <> from ->
  Major from = Major to /\ Less from to = true /\
  (Minor ∘ To) <$> steps = minors_between from to ++ [Minor to] /\
  exists init final, steps = init ++ [final] /\ To final = to /\
    forall s, s ∈ init -> is_newest available (Major from) (To s).
Proof.
  intros H Hne. destruct (Chain_ok_cases _ _ _ _ H) as (HM & HL & _).
  destruct (Chain_steps _ _ _ _ H Hne) as (init & final & -> & Hf & Hmin & Hin).
  split_and!; [done|destruct (Less_total from to) as [?|[?|?]]; congruence| |eauto].
  rewrite fmap_app, Hmin. cbn. by rewrite Hf.
Qed.

Lemma Chain_path_witness :
  let available := [mk 1 13 1; mk 1 13 9; {| Major := 1; Minor := 13; Patch := 10; Pre := "rc.1" |}; mk 1 14 0] in
  exists init final,
    Chain (mk 1 12 3) (mk 1 14 0) available = Ok (init ++ [final]) /\ To final = mk 1 14 0 /\
    forall s, s ∈ init -> is_newest available 1 (To s).
Proof.
  destruct (Chain (mk 1 12 3) (mk 1 14 0)
    [mk 1 13 1; mk 1 13 9; {| Major := 1; Minor := 13; Patch := 10; Pre := "rc.1" |}; mk 1 14 0]) as [steps|e] eqn:H.
  - destruct (Chain_path _ _ _ _ H) as (_ & _ & _ & init & final & -> & Hf & Hi); [done|].
    exists init, final. rewrite H. done.
  - exfalso. vm_compute in H. discriminate.
Defined.

(** when there is a Talos upgrade chain: exactly when the two versions have
    the same major, the target is not older, and (unless they are the same)
    every minor strictly between them has a stable release available. A skipped
    minor, a downgrade or a jump of the major is always refused, and nothing
    else ever is. *)
Theorem Chain_exists_iff from to available :
  is_ok (Chain from to available) = true <->
  Major from = Major to /\ Less to from = false /\
  (to = from \/ forall m, (Minor from < m < Minor to)%Z -> exists v, v ∈ available /\ stable_in (Major from) m v).
Proof.
  split.
  - destruct (Chain from to available) as [steps|e] eqn:H; [intros _|done].
    destruct (Chain_ok_cases _ _ _ _ H) as (HM & HL & Hc). split_and!; [done|done|].
    destruct Hc as [[? _]|Hne]; [by left|right]. intros m Hm.
    destruct (Chain_steps _ _ _ _ H Hne) as (init & final & -> & _ & Hmin & Hin).
    assert (m ∈ (Minor ∘ To) <$> init) as Hm'.
    { rewrite Hmin. unfold minors_between. apply elem_of_seqZ. lia. }
    apply list_elem_of_fmap in Hm' as (s & -> & Hs). destruct (Hin s Hs) as (? & ? & ? & _).
    exists (To s). done.
  - intros (HM & HL & Hc). destruct (decide (to = from)) as [->|Hne].
    { unfold Chain. rewrite (bool_decide_eq_true_2 (Major from = _)) by done. rewrite HL. cbn.
      by rewrite bool_decide_eq_true_2. }
    destruct Hc as [?|Hc]; [done|]. destruct (Chain_unfold from to available HM HL Hne) as [why ->].
    destruct (chain_steps_total from to (newest_of (Major from) available) (talos_why from to)
      (talos_missing from to) (minors_between from to)) as [steps ->]; [|done].
    intros m Hm. unfold minors_between in Hm. apply elem_of_seqZ in Hm.
    destruct (newest_of (Major from) available !! m) eqn:E; [by eexists|].
    destruct (Hc m) as (v & Hv & Hs); [lia|]. destruct (newest_of_None _ _ _ E v Hv Hs).
Qed.

(* ------------------------------------------------------------------ *)
(** ** Printing and reading a version *)

Lemma cut_any_none (s : string) :
  str_all (fun c => negb (Ascii.eqb c "-" || Ascii.eqb c "+")) s = true -> Talos.cut_any s = (s, None).
Proof.
  induction s as [|c s IH]; cbn; [done|]. rewrite andb_true_iff, negb_true_iff. intros [-> Hs].
  by rewrite (IH Hs).
Qed.

Lemma cut_any_app (a b : string) :
  str_all (fun c => negb (Ascii.eqb c "-" || Ascii.eqb c "+")) a = true ->
  Talos.cut_any (a +:+ String "-" b) = (a, Some b).
Proof.
  induction a as [|c a IH]; [done|]. rewrite str_app_cons. cbn.
  rewrite andb_true_iff, negb_true_iff. intros [-> Ha]. by rewrite (IH Ha).
Qed.

Definition dotted (a b c : string) : string := a +:+ "." +:+ b +:+ "." +:+ c.

Lemma ver_string_dotted v :
  ver_string v = String "v" (dotted (itoa (Major v)) (itoa (Minor v)) (itoa (Patch v)) +:+
    (if bool_decide (Pre v = "") then "" else String "-" (Pre v))).
Proof.
  unfold ver_string, dotted. rewrite str_app_cons, str_app_nil. f_equal.
  by rewrite <- !(assoc_L String.append).
Qed.

Lemma dotted_all P a b c :
  P "."%char = true -> str_all P a = true -> str_all P b = true -> str_all P c = true ->
  str_all P (dotted a b c) = true.
Proof. intros Hd Ha Hb Hc. unfold dotted. rewrite !str_all_app. cbn. by rewrite Ha, Hb, Hc, Hd. Qed.

Lemma dotted_split a b c :
  str_all is_digit a = true -> str_all is_digit b = true -> str_all is_digit c = true ->
  split_on "." (dotted a b c) = [a; b; c].
Proof.
  intros Ha Hb Hc. unfold dotted.
  assert (forall s, str_all is_digit s = true -> str_all (fun c => negb (Ascii.eqb c ".")) s = true) as Hd.
  { intros s. apply str_all_impl. intros x Hx. by rewrite (not_digit_neq x "."). }
  change ("." +:+ b +:+ "." +:+ c) with (String "." (b +:+ String "." c)).
  rewrite split_on_app by auto. rewrite split_on_app by auto. by rewrite split_on_none by auto.
Qed.

(** The versions a Go [Version] can hold once parsed: fields in the range of a
    non-negative int, and a suffix of visible ASCII. *)
Definition wf_ver (v : Ver) : Prop :=
  (0 <= Major v <= max_int64)%Z /\ (0 <= Minor v <= max_int64)%Z /\ (0 <= Patch v <= max_int64)%Z /\
  str_all visible (Pre v) = true.

Lemma atoi_field z : (0 <= z <= max_int64)%Z -> atoi (itoa z) = Some z.
Proof.
  intros Hz. apply atoi_itoa; [lia|]. unfold in_int64, min_int64. bools. lia.
Qed.

(** reading back what [Version.String] prints gives the version again, for
    every version whose numbers fit an int and whose suffix is visible ASCII:
    the version a job stores as a parameter is the version it was planned
    with. *)
Theorem ParseVersion_String v : wf_ver v -> ParseVersion (ver_string v) = Ok v.
Proof.
  intros (Ha & Hb & Hc & Hp). rewrite ver_string_dotted.
  set (d := dotted _ _ _). set (suf := if bool_decide _ then _ else _).
  assert (forall z, (0 <= z <= max_int64)%Z -> str_all is_digit (itoa z) = true) as Hdig.
  { intros z Hz. apply itoa_digits. lia. }
  assert (forall P, P "."%char = true -> (forall c, is_digit c = true -> P c = true) -> str_all P d = true) as Hd.
  { intros P Hdot HP. apply dotted_all; auto; eapply str_all_impl; eauto. }
  unfold ParseVersion. rewrite trim_space_visible.
  2:{ cbn [str_all]. rewrite str_all_app, Hd by (auto using digit_visible). unfold suf.
      case_bool_decide; [done|]. cbn. by rewrite Hp. }
  change (trim_prefix (String "v" (d +:+ suf)) "v") with (d +:+ suf).
  assert (Talos.cut_any (d +:+ suf) = (d, if bool_decide (Pre v = "") then None else Some (Pre v))) as ->.
  { assert (str_all (fun c => negb (Ascii.eqb c "-" || Ascii.eqb c "+")) d = true).
    { apply Hd; [done|]. intros c Hcd. by rewrite (not_digit_neq c "-"), (not_digit_neq c "+"). }
    unfold suf. case_bool_decide.
    - rewrite (right_id_L "" String.append). by apply cut_any_none.
    - by apply cut_any_app. }
  unfold d. destruct v as [ma mi pa pr]; cbn [Major Minor Patch Pre] in *.
  case_bool_decide; subst; cbn [fst snd]; rewrite dotted_split by auto; cbn [length parse_nums];
    (rewrite bool_decide_eq_false_2 by (cbn; lia)); rewrite !atoi_field by done;
    (rewrite !bool_decide_eq_false_2 by lia); done.
Qed.

Lemma ParseVersion_String_witness :
  ParseVersion (ver_string {| Major := 1; Minor := 14; Patch := 0; Pre := "rc.2" |})
    = Ok {| Major := 1; Minor := 14; Patch := 0; Pre := "rc.2" |}.
Proof. apply ParseVersion_String. repeat split; done. Defined.

(* ------------------------------------------------------------------ *)
(** ** Kubernetes: the strand check and the chain *)

(** the strand check lets an upgrade through exactly when the matrix has a
    row for the target's Talos minor, the running Kubernetes version can be
    read, and its minor lies inside that row. Every other case (an unknown
    Talos, an unknown Kubernetes version, one outside the window) is blocked,
    and a blocked upgrade always carries a remedy. *)
Theorem CheckStrand_spec to k8s :
  (Blocked (CheckStrand to k8s) = false <->
    exists t w k, Compat.minor (ver_string to) = Some t /\ Compat.matrix !! t = Some w /\
      Compat.minor k8s = Some k /\ (Compat.MinMinor w <= k <= Compat.MaxMinor w)%Z) /\
  (Blocked (CheckStrand to k8s) = true -> Remedy (CheckStrand to k8s) <> "").
Proof.
  pose proof (Check_Known (ver_string to) k8s) as HK.
  pose proof (Check_Supported (ver_string to) k8s) as HS.
  unfold CheckStrand.
  destruct (Compat.Known (Compat.Check (ver_string to) k8s)); simpl negb; cbv iota.
  2:{ split; [|discriminate]. split; [done|]. intros (t & w & k & Ht & Hw & _). exfalso.
      destruct HK as [_ HK]. discriminate HK; eauto. }
  case_bool_decide as Hk.
  { split; [|discriminate]. split; [done|]. intros (t & w & k & _ & _ & Hm & _). by subst. }
  destruct (Compat.Supported (Compat.Check (ver_string to) k8s)).
  - split; [|done]. split; [|done]. intros _. by apply HS.
  - split; [|discriminate]. split; [done|]. intros Hex. apply HS in Hex. done.
Qed.

Lemma CheckStrand_witness :
  Blocked (CheckStrand (mk 1 14 0) "v1.31.0") = true /\ Remedy (CheckStrand (mk 1 14 0) "v1.31.0") <> "".
Proof.
  assert (Blocked (CheckStrand (mk 1 14 0) "v1.31.0") = true) as H by (vm_compute; reflexivity).
  split; [exact H|]. exact (proj2 (CheckStrand_spec (mk 1 14 0) "v1.31.0") H).
Defined.

Lemma k8s_minors_ok from to ms :
  kubernetesIntermediateMinors from to = Ok ms ->
  ms = minors_between from to /\ (length ms <= Z.to_nat MaxKubernetesIntermediates)%nat.
Proof.
  unfold kubernetesIntermediateMinors, minors_between, MaxKubernetesIntermediates. intros H.
  case_bool_decide as H0; [injection H as <-|case_bool_decide as H1; [done|injection H as <-]].
  - split; [|cbn; lia]. by rewrite seqZ_nil by lia.
  - split; [done|]. rewrite length_seqZ. lia.
Qed.

(** a Kubernetes chain, when there is one, passes through every minor
    between the two versions in ascending order, each in the patch that was
    looked up for that minor and never in one put in its place; it ends in the
    target when the minor changes and is empty for a jump inside one minor; it
    never plans more than seventeen steps; and, where the matrix has a row for
    the running Talos, the target lies inside that row. *)
Theorem KubernetesChain_path from to talosVersion newest steps :
  (forall m v, newest !! m = Some v -> Minor v = m) ->
  KubernetesChain from to talosVersion newest = Ok steps -> to <> from ->
  Less to from = false /\
  (Minor ∘ To) <$> steps =
    minors_between from to ++ (if bool_decide (Minor to > Minor from)%Z then [Minor to] else []) /\
  (forall s, s ∈ steps -> To s = to \/ newest !! Minor (To s) = Some (To s)) /\
  (length steps <= 17)%nat /\
  (Compat.Known (Compat.Check talosVersion (ver_string to)) = true ->
    Compat.Supported (Compat.Check talosVersion (ver_string to)) = true).
Proof.
  intros Hn H Hne. unfold KubernetesChain in H.
  destruct (kubernetesChainPrecheck from to talosVersion) as [[]|] eqn:Hpre; cbn in H; [|done].
  rewrite (bool_decide_eq_false_2 (to = from)) in H by done.
  destruct (kubernetesIntermediateMinors from to) as [ms|] eqn:Hms; cbn in H; [|done].
  destruct (chain_steps _ _ _ _ _ _) as [init|] eqn:Hc; cbn in H; [|done].
  apply k8s_minors_ok in Hms as [-> Hlen].
  pose proof (chain_steps_minors _ _ _ _ _ _ _ Hn Hc) as Hmin.
  assert (length init = length (minors_between from to)) as Hl by by rewrite <- Hmin, length_fmap.
  assert (forall s, s ∈ init -> newest !! Minor (To s) = Some (To s)) as Hin.
  { intros s Hs. apply chain_steps_ok in Hc. apply list_elem_of_lookup in Hs as [i Hi].
    destruct (Forall2_lookup_r _ _ _ _ _ Hc Hi) as (m & _ & Hm & _). by rewrite (Hn _ _ Hm). }
  injection H as <-. unfold MaxKubernetesIntermediates in Hlen. split_and!.
  - unfold kubernetesChainPrecheck in Hpre. by destruct (Less to from).
  - case_bool_decide; [rewrite fmap_app|rewrite (right_id_L [] (++))]; by rewrite Hmin.
  - intros s. case_bool_decide; [rewrite elem_of_app, list_elem_of_singleton|]; naive_solver.
  - case_bool_decide; rewrite ?length_app; cbn; lia.
  - unfold kubernetesChainPrecheck in Hpre. destruct (Less to from); [done|].
    rewrite bool_decide_eq_false_2 in Hpre by done. intros Hk. rewrite Hk in Hpre. cbn in Hpre.
    by destruct (Compat.Supported _).
Qed.

Lemma KubernetesChain_path_witness :
  exists steps,
    KubernetesChain (mk 1 33 1) (mk 1 35 0) "v1.14.0" {[ 34%Z := mk 1 34 7 ]} = Ok steps /\
    (Minor ∘ To) <$> steps = [34%Z; 35%Z] /\ (length steps <= 17)%nat.
Proof.
  destruct (KubernetesChain (mk 1 33 1) (mk 1 35 0) "v1.14.0" {[ 34%Z := mk 1 34 7 ]}) as [steps|] eqn:H.
  - exists steps. destruct (KubernetesChain_path _ _ _ _ _
      (fun m v (Hm : ({[ 34%Z := mk 1 34 7 ]} : gmap Z Ver) !! m = Some v) =>
         match proj1 (lookup_singleton_Some _ _ _ _) Hm with conj a b => eq_trans (eq_sym (f_equal Minor b)) a end)
      H) as (_ & Hm & _ & Hl & _); [done|]. rewrite Hm. split_and!; [done|vm_compute; reflexivity|done].
  - exfalso. vm_compute in H. discriminate.
Defined.

(* ------------------------------------------------------------------ *)
(** ** The release list *)

#[global] Instance newer_first_total : Total newer_first.
Proof. intros a b. unfold newer_first. destruct (Less a b) eqn:H; [right; by apply Less_asym|by left]. Qed.
#[global] Instance newer_first_trans : Transitive newer_first.
Proof. intros a b c. unfold newer_first. apply Less_false_trans. Qed.

Lemma min_release_parsed : ParseVersion Talos.MinSupportedVersion = Ok (mk 1 12 0).
Proof. vm_compute. reflexivity. Qed.
Lemma max_release_parsed : ParseVersion Talos.MaxSupportedVersion = Ok (mk 1 14 0).
Proof. vm_compute. reflexivity. Qed.

(** the list an operator picks a release from holds exactly the offered
    strings that parse, are no pre-release and lie in the supported window
    (v1.12 to v1.14, by minor), each as often as it was offered, sorted newest
    first. *)
Theorem Releases_spec versions :
  Sorted newer_first (Releases versions) /\
  Releases versions ≡ₚ omap release_candidate versions /\
  forall v, v ∈ Releases versions <->
    exists s, s ∈ versions /\ ParseVersion s = Ok v /\ Pre v = "" /\
      Less v (mk 1 12 0) = false /\ Less (mk 1 14 0) (mk (Major v) (Minor v) 0) = false.
Proof.
  assert (Releases versions ≡ₚ omap release_candidate versions) as HP by apply merge_sort_Permutation.
  split_and!; [apply Sorted_merge_sort; apply _|done|].
  intros v. rewrite HP, list_elem_of_omap. unfold release_candidate.
  rewrite min_release_parsed, max_release_parsed.
  unfold IsPreRelease. split.
  - intros (s & Hs & Hc). exists s. destruct (ParseVersion s) as [w|]; [|done].
    case_bool_decide; cbn in Hc; [|done].
    destruct (Less w _) eqn:H1; [done|]. destruct (Less _ (mk (Major w) _ _)) eqn:H2; [done|]. naive_solver.
  - intros (s & Hs & Hv & Hp & H1 & H2). exists s. split; [done|]. rewrite Hv.
    rewrite bool_decide_eq_true_2 by done. cbn. by rewrite H1, H2.
Qed.

(** The upgrade package and the Talos package disagree about a release built
    from a modified tree: [talos.IsPreRelease] says that build metadata after a
    [+] is no pre-release, and [ParseVersion] keeps it as one, so that release
    is dropped from every list and chain. *)
Theorem build_metadata_disagreement :
  Talos.IsPreRelease "v1.14.0+dirty" = false /\
  exists v, ParseVersion "v1.14.0+dirty" = Ok v /\ IsPreRelease v = true /\ Releases ["v1.14.0+dirty"] = [].
Proof. split; [done|]. eexists. split; [vm_compute; reflexivity|]. split; vm_compute; reflexivity. Qed.
