(* ===== verification/RecordStore.v ===== *)
(** * The record store

    [src/internal/store/fsstore]: one JSON file per record, addressed by a safe
    key, with a revision that every write compares and increments. The jobs
    ([Jobs.v]) and the configuration baselines ([Drift.v]) are kept in it.

    A file is here what reading it gives: [Some r] for a record, [None] for a
    file that is there and does not decode. An operation can meet an I/O
    failure ([fault]): before anything was changed (the file could not be read, the
    record not encoded, the new file not written), or only when the directory was
    flushed, with the change made. *)

From S2P Require Import Prelude.

Inductive store_error :=
  | ErrNotFound
  | ErrConflict
  | ErrInvalidKey
  | ErrIO.

#[global] Instance store_error_eq_dec : EqDecision store_error.
Proof. solve_decision. Defined.

Inductive fault := NoFault | FaultBefore | FaultAfter.

(** What the generic store knows about a record. *)
Class Record (R : Type) := {
  rec_key : R -> string;
  rec_rev : R -> Z;
  rec_set_rev : Z -> R -> R;
  rec_key_set_rev : forall v r, rec_key (rec_set_rev v r) = rec_key r;
  rec_rev_set_rev : forall v r, rec_rev (rec_set_rev v r) = v
}.

(** [safeKey]: ASCII letters, digits, [-] and [_]; not empty, at most 128. *)
Definition safe_char (c : ascii) : bool :=
  let n := nat_of_ascii c in
  bool_decide (97 ≤ n ≤ 122) || bool_decide (65 ≤ n ≤ 90) || bool_decide (48 ≤ n ≤ 57)
  || bool_decide (n = 45) || bool_decide (n = 95).

Definition safeKey (key : string) : bool :=
  negb (bool_decide (key = "")) && negb (bool_decide (128 < String.length key)) && str_all safe_char key.

(** [os.ReadDir] sorts by file name. *)
Definition file_le (a b : string) : Prop := str_lt (b +:+ ".json") (a +:+ ".json") = false.
#[global] Instance file_le_dec : RelDecision file_le.
Proof. intros a b. unfold file_le. apply _. Defined.

Section RecordStore.
Context {R : Type} `{Record R}.

Abbreviation files := (gmap string (option R)).

(** [recordStore.Get]. *)
Definition store_get (f : fault) (m : files) (id : string) : result store_error R :=
  if negb (safeKey id) then Err ErrInvalidKey
  else match f with
       | NoFault => match m !! id with
                    | None => Err ErrNotFound
                    | Some None => Err ErrIO
                    | Some (Some r) => Ok r
                    end
       | _ => Err ErrIO
       end.

(** A revision is a uint64: the increment wraps. *)
Definition next_rev (v : Z) : Z := ((v + 1) mod 2 ^ 64)%Z.

(** [recordStore.Put]: the compare-and-swap. A file that cannot be read is no conflict. *)
Definition store_put (f : fault) (m : files) (rec : R) : files * result store_error R :=
  let id := rec_key rec in
  let write :=
    let rec' := rec_set_rev (next_rev (rec_rev rec)) rec in
    (<[id := Some rec']> m, match f with NoFault => Ok rec' | _ => Err ErrIO end) in
  if negb (safeKey id) then (m, Err ErrInvalidKey)
  else match f with
       | FaultBefore => (m, Err ErrIO)
       | _ =>
           match m !! id with
           | Some (Some current) =>
               if negb (bool_decide (rec_rev rec = rec_rev current)) then (m, Err ErrConflict) else write
           | None => if negb (bool_decide (rec_rev rec = 0%Z)) then (m, Err ErrConflict) else write
           | Some None => (m, Err ErrIO)
           end
       end.

(** [recordStore.Delete]. *)
Definition store_delete (f : fault) (m : files) (id : string) : files * result store_error unit :=
  if negb (safeKey id) then (m, Err ErrInvalidKey)
  else match f with
       | FaultBefore => (m, Err ErrIO)
       | _ => match m !! id with
              | None => (m, Err ErrNotFound)
              | Some _ => (delete id m, match f with NoFault => Ok tt | _ => Err ErrIO end)
              end
       end.

(** [recordStore.List]: every record, in the order of the file names, or an
    error as soon as one file cannot be read. *)
Definition read_all (cells : list (option R)) : result store_error (list R) :=
  foldr (fun c acc => match c, acc with
                      | Some r, Ok rs => Ok (r :: rs)
                      | _, _ => Err ErrIO
                      end) (Ok []) cells.

Definition store_list (f : fault) (m : files) : result store_error (list R) :=
  match f with
  | NoFault => read_all (omap (fun id => m !! id) (merge_sort file_le (elements (dom m))))
  | _ => Err ErrIO
  end.

(** The record a store holds under a key. *)
Definition stored (m : files) (id : string) : option R := m !! id ≫= (fun c => c).

Lemma next_rev_neq v : next_rev v <> v.
Proof.
  unfold next_rev. change (2 ^ 64)%Z with 18446744073709551616%Z. intros Hv.
  pose proof (Z.div_mod (v + 1) 18446744073709551616). lia.
Qed.

Lemma store_put_other f (m : files) rec id :
  id <> rec_key rec -> (store_put f m rec).1 !! id = m !! id.
Proof.
  intros Hne. unfold store_put. repeat case_match; cbn; try done; by rewrite lookup_insert_ne.
Qed.

(** The four ways a [Put] can end. *)
Lemma store_put_inv f (m : files) rec :
  let rec' := rec_set_rev (next_rev (rec_rev rec)) rec in
  let free := match m !! rec_key rec with
              | None => rec_rev rec = 0%Z
              | Some c => exists current, c = Some current /\ rec_rev rec = rec_rev current
              end in
  (exists e, store_put f m rec = (m, Err e)) \/
  (free /\ (store_put f m rec = (<[rec_key rec := Some rec']> m, Ok rec')
            \/ store_put f m rec = (<[rec_key rec := Some rec']> m, Err ErrIO) /\ f = FaultAfter)).
Proof.
  cbn. unfold store_put. destruct (safeKey (rec_key rec)); cbn; [|by eauto].
  destruct f; [|by eauto|]; destruct (m !! rec_key rec) as [[current|]|]; cbn; try (by eauto);
    case_bool_decide; cbn; try (by eauto); right; split; eauto.
Qed.

Lemma store_put_ok_inv f (m : files) rec m' rec' :
  store_put f m rec = (m', Ok rec') ->
  rec' = rec_set_rev (next_rev (rec_rev rec)) rec /\ m' = <[rec_key rec := Some rec']> m.
Proof. intros Hp. destruct (store_put_inv f m rec) as [[e He]|[_ [He|[He _]]]]; rewrite He in Hp; by simplify_eq. Qed.

Lemma store_put_conflict_inv f m rec m' :
  store_put f m rec = (m', Err ErrConflict) -> m' = m.
Proof. intros Hp. destruct (store_put_inv f m rec) as [[e He]|[_ [He|[He _]]]]; rewrite He in Hp; by simplify_eq. Qed.

Lemma read_all_ok cells rs : read_all cells = Ok rs <-> cells = Some <$> rs.
Proof.
  revert rs. induction cells as [|c cells IH]; intros rs; cbn.
  - split; [by intros [= <-]|]. by destruct rs.
  - fold (read_all cells). destruct c as [r|]; [destruct (read_all cells) as [rs'|e]|].
    + split; [intros [= <-]; cbn; f_equal; by apply IH|]. destruct rs as [|r' rs]; cbn; [done|].
      intros [= -> Hrs]. apply IH in Hrs. congruence.
    + split; [done|]. destruct rs as [|r' rs]; cbn; [done|]. intros [= -> Hrs]. by apply IH in Hrs.
    + split; [done|]. by destruct rs.
Qed.

Lemma list_keys (m : files) ids rs :
  (forall id r, m !! id = Some (Some r) -> rec_key r = id) ->
  (forall id, id ∈ ids -> is_Some (m !! id)) ->
  omap (fun id => m !! id) ids = Some <$> rs ->
  rec_key <$> rs = ids /\ Forall (fun r => m !! rec_key r = Some (Some r)) rs.
Proof.
  intros Hkey. revert rs. induction ids as [|id ids IH]; intros rs Hids Hl; cbn in Hl.
  { symmetry in Hl. apply fmap_nil_inv in Hl as ->. done. }
  destruct (Hids id) as [c Hc]; [set_solver|]. rewrite Hc in Hl.
  destruct rs as [|r rs]; cbn in Hl; [done|]. injection Hl as -> Hl.
  destruct (IH rs) as [Hk Ha]; [set_solver|done|]. pose proof (Hkey _ _ Hc) as Hr. cbn.
  split; [by rewrite Hk, Hr|]. constructor; [by rewrite Hr|done].
Qed.

(** A listing that worked is exactly the stored records, each once. *)
Lemma store_list_ok f (m : files) rs :
  (forall id r, m !! id = Some (Some r) -> rec_key r = id) ->
  store_list f m = Ok rs ->
  NoDup (rec_key <$> rs) /\ forall r, r ∈ rs <-> m !! rec_key r = Some (Some r).
Proof.
  intros Hkey Hl. unfold store_list in Hl. destruct f; try done.
  apply read_all_ok in Hl. set (ids := merge_sort file_le (elements (dom m))) in Hl.
  assert (NoDup ids) as Hnd.
  { unfold ids. rewrite merge_sort_Permutation. apply NoDup_elements. }
  assert (forall id, id ∈ ids <-> is_Some (m !! id)) as Hids.
  { intros id. unfold ids. rewrite merge_sort_Permutation, elem_of_elements. apply elem_of_dom. }
  clearbody ids. destruct (list_keys m ids rs Hkey (fun id Hid => proj1 (Hids id) Hid) Hl) as [Hk Ha].
  split; [by rewrite Hk|]. rewrite Forall_forall in Ha. intros r. split; [apply Ha|]. intros Hr.
  assert (rec_key r ∈ ids) as Hin by (apply Hids; eauto). rewrite <- Hk in Hin.
  apply list_elem_of_fmap in Hin as (r' & Hkr & Hr'). pose proof (Ha r' Hr') as Hm.
  rewrite <- Hkr in Hm. by simplify_eq.
Qed.

Lemma store_get_ok_inv f (m : files) id r : store_get f m id = Ok r -> m !! id = Some (Some r).
Proof. unfold store_get. intros Hg. cases_in Hg. Qed.

(** a [Put] that reports success is what the next [Get] reads, one revision
    further; it changes no other record; a refused [Put] (a conflict or an
    invalid key) changes nothing; and a [Put] that fails otherwise leaves the
    old record or exactly the new one, never a mixture. *)
Theorem store_put_get f (m : files) rec m' res :
  store_put f m rec = (m', res) ->
  (forall id, id <> rec_key rec -> m' !! id = m !! id) /\
  match res with
  | Ok rec' => store_get NoFault m' (rec_key rec) = Ok rec' /\ rec_rev rec' = next_rev (rec_rev rec)
  | Err ErrIO => m' = m \/ m' !! rec_key rec = Some (Some (rec_set_rev (next_rev (rec_rev rec)) rec))
  | Err _ => m' = m
  end.
Proof.
  intros Hp. split.
  { intros id Hne. pose proof (store_put_other f m rec id Hne) as Ho. by rewrite Hp in Ho. }
  assert (safeKey (rec_key rec) = true \/ m' = m /\ res = Err ErrInvalidKey) as [Hs|[-> ->]]; [| |done].
  { unfold store_put in Hp. destruct (safeKey (rec_key rec)); [by left|right; by simplify_eq/=]. }
  destruct (store_put_inv f m rec) as [[e He]|[_ [He|[He _]]]]; rewrite He in Hp; simplify_eq.
  - destruct e; eauto.
  - unfold store_get. rewrite Hs, lookup_insert_eq. cbn. by rewrite rec_rev_set_rev.
  - right. by rewrite lookup_insert_eq.
Qed.

(** What is done to a store. *)
Inductive store_op :=
  | OPut (f : fault) (rec : R)
  | ODelete (f : fault) (id : string).
Definition store_step (m : files) (o : store_op) : files :=
  match o with OPut f rec => (store_put f m rec).1 | ODelete f id => (store_delete f m id).1 end.

(** A record that is there, [k] writes after revision [v]. *)
Definition at_revision (id : string) (v : Z) (k : nat) (m : files) : Prop :=
  exists r, m !! id = Some (Some r) /\ rec_rev r = ((v + Z.of_nat k) mod 2 ^ 64)%Z.

Lemma at_revision_step id v k m o :
  (forall f, o <> ODelete f id) -> at_revision id v k m -> at_revision id v k (store_step m o) \/ at_revision id v (S k) (store_step m o).
Proof.
  intros Ho (r & Hm & Hr). destruct o as [f rec|f id']; cbn [store_step].
  - destruct (store_put_inv f m rec) as [[e ->]|[Hfree [->|[-> _]]]]; cbn [fst]; [left; by exists r|..];
      (destruct (decide (rec_key rec = id)) as [<-|Hne]; [right|left; exists r; by rewrite lookup_insert_ne]);
      rewrite Hm in Hfree; destruct Hfree as (c & [= <-] & E); eexists; (split; [apply lookup_insert_eq|]);
      rewrite rec_rev_set_rev, E, Hr; unfold next_rev; rewrite Zplus_mod_idemp_l; f_equal; lia.
  - left. exists r. split; [|done]. assert (id <> id') by (intros ->; by apply (Ho f)).
    unfold store_delete. destruct (safeKey id'); cbn; [|done]. destruct f; cbn; try done; destruct (m !! id'); cbn; try done; by rewrite lookup_delete_ne.
Qed.

Lemma at_revision_steps id v ops m k :
  Forall (fun o => forall f, o <> ODelete f id) ops -> at_revision id v k m ->
  exists k', k <= k' <= k + length ops /\ at_revision id v k' (fold_left store_step ops m).
Proof.
  intros Ho. revert m k. induction Ho as [|o ops Ho Hos IH]; intros m k Hm; [exists k; split; [lia|done]|]. cbn [fold_left length].
  destruct (at_revision_step id v k m o Ho Hm) as [Hs|Hs]; destruct (IH _ _ Hs) as (k' & Hk & Hk'); exists k'; (split; [lia|done]).
Qed.

(** C17: No lost update. Of two writers that carry the same revision of a record, when
    the first one stores, the second one does not, whatever writes, failures and
    deletions of other records come in between, fewer than 2^64 of them: it is told of a
    conflict (or of a failure, when the record could not be read), and changes nothing.
    The exception is a record that is deleted in between and made anew, whose revisions
    begin again ([deleted_and_made_anew]). *)
Theorem store_no_lost_update f1 f2 (m : files) rec1 rec2 m1 saved ops :
  store_put f1 m rec1 = (m1, Ok saved) -> rec_key rec2 = rec_key rec1 -> rec_rev rec2 = rec_rev rec1 ->
  Forall (fun o => forall f, o <> ODelete f (rec_key rec1)) ops -> (Z.of_nat (length ops) < 2 ^ 64 - 1)%Z ->
  let m2 := fold_left store_step ops m1 in
  store_put f2 m2 rec2 = (m2, Err (match f2 with FaultBefore => ErrIO | _ => ErrConflict end)).
Proof.
  intros Hp Hk Hr Ho Hl m2. assert (Hs : safeKey (rec_key rec1) = true) by (unfold store_put in Hp; by destruct (safeKey (rec_key rec1))).
  apply store_put_ok_inv in Hp as [-> Hm1].
  destruct (at_revision_steps (rec_key rec1) (rec_rev rec1 + 1) ops m1 0) as (k & Hb & r & Hm & Hrev); [done| |].
  { rewrite Hm1. eexists. split; [apply lookup_insert_eq|]. rewrite rec_rev_set_rev. unfold next_rev. f_equal. lia. }
  fold m2 in Hm. unfold store_put. rewrite Hk, Hs. cbn [negb]. rewrite Hm, Hr, Hrev. rewrite bool_decide_false; [by destruct f2|].
  intros E. assert (0 <= rec_rev rec1 < 2 ^ 64)%Z by (rewrite E; by apply Z.mod_pos_bound).
  pose proof (Z.div_mod (rec_rev rec1 + 1 + Z.of_nat k) (2 ^ 64) ltac:(lia)) as Hd. rewrite <- E in Hd.
  assert (0 < (rec_rev rec1 + 1 + Z.of_nat k) / 2 ^ 64 * 2 ^ 64 < 2 ^ 64)%Z by lia. nia.
Qed.

End RecordStore.

(* ------------------------------------------------------------------ *)
(** ** The store at a concrete record *)

Definition note : Type := string * Z.
#[local] Program Instance note_record : Record note := {
  rec_key := fst;
  rec_rev := snd;
  rec_set_rev v r := (fst r, v)
}.
Next Obligation. done. Qed.
Next Obligation. done. Qed.

Definition one_note : gmap string (option note) := {[ "a" := Some ("a", 4%Z) ]}.

Lemma store_put_get_witness :
  store_get NoFault (store_put NoFault one_note ("a", 4%Z)).1 "a" = Ok ("a", 5%Z).
Proof.
  destruct (store_put NoFault one_note ("a", 4%Z)) as [m' [r|e]] eqn:Hp.
  - destruct (store_put_get NoFault one_note ("a", 4%Z) m' (Ok r) Hp) as (_ & Hg & _). cbn [fst].
    assert (r = ("a", 5%Z)) as -> by by vm_compute in Hp; injection Hp. exact Hg.
  - exfalso. vm_compute in Hp. discriminate.
Defined.

(** A write of another, a deletion of another record, a write that could not be made. *)
Definition meantime : list (store_op (R := note)) := [OPut FaultAfter ("a", 5%Z); ODelete NoFault "b"; OPut FaultBefore ("a", 6%Z)].

Lemma store_no_lost_update_witness :
  let m1 := (store_put NoFault one_note ("a", 4%Z)).1 in
  let m2 := fold_left store_step meantime m1 in
  stored m2 "a" = Some ("a", 6%Z) /\ store_put NoFault m2 ("a", 4%Z) = (m2, Err ErrConflict).
Proof.
  cbv zeta. split; [by vm_compute|].
  refine (store_no_lost_update NoFault NoFault one_note ("a", 4%Z) ("a", 4%Z) _ ("a", 5%Z) meantime _ eq_refl eq_refl _ _); [by vm_compute| |by vm_compute].
  repeat (constructor; [by intros f [=]|]). constructor.
Defined.

(** A record made anew begins at revision 0: two writers that found nothing both store. *)
Example deleted_and_made_anew :
  let m1 := store_put NoFault (∅ : gmap string (option note)) ("a", 0%Z) in
  let m2 := store_delete NoFault m1.1 "a" in
  m1.2 = Ok ("a", 1%Z) /\ m2.2 = Ok tt /\ (store_put NoFault m2.1 ("a", 0%Z)).2 = Ok ("a", 1%Z).
Proof. by vm_compute. Qed.
