(* ===== verification/Jobs.v ===== *)
(** * The job engine

    [src/internal/jobs/jobs.go] and [src/internal/model/job.go]: long-running
    operations as persisted records. The functions of the engine are programs
    over the operations that other goroutines can interleave with (a store
    access, a section under the engine's mutex, a look at a context, a step's
    side effect); [World], [exec] and [label] are what runs them, one operation
    of one goroutine at a time, with the failures, the clock and the outcome of
    every side effect chosen freely. [JobsSafety.v] proves what holds in every
    reachable world. *)

From S2P Require Import Prelude RecordStore.

(* ------------------------------------------------------------------ *)
(** ** model/job.go *)

Inductive JobState := JobPending | JobRunning | JobParked | JobSucceeded | JobFailed | JobCancelled.
Inductive StepState := StepPending | StepRunning | StepDone | StepFailed | StepSkipped.

#[global] Instance JobState_eq_dec : EqDecision JobState.
Proof. solve_decision. Defined.
#[global] Instance StepState_eq_dec : EqDecision StepState.
Proof. solve_decision. Defined.

Definition JobStates : list JobState :=
  [JobPending; JobRunning; JobParked; JobSucceeded; JobFailed; JobCancelled].

(** [JobState.Terminal]. *)
Definition Terminal (s : JobState) : bool :=
  bool_decide (s = JobSucceeded) || bool_decide (s = JobFailed) || bool_decide (s = JobCancelled).

Record JobStep := mkStep {
  StName : string;
  StState : StepState;
  StVerifiable : bool;
  StStartedAt : Z;
  StFinishedAt : Z;
  StDetail : string }.

(** What the engine owns on a record, and nobody else writes while it runs. *)
Record Exec := mkExec {
  XState : JobState;
  XSteps : list JobStep;
  XCurrent : Z;
  XStartedAt : Z;
  XFinishedAt : Z;
  XParkedReason : string }.

Record Job := mkJob {
  ID : string;
  Kind : string;
  Cluster : string;
  Machine : string;
  JExec : Exec;
  Params : gmap string string;
  CancelRequested : bool;
  Actor : string;
  CreatedAt : Z;
  Rev : Z }.

Abbreviation State j := (XState (JExec j)).
Abbreviation Steps j := (XSteps (JExec j)).
Abbreviation Current j := (XCurrent (JExec j)).

Definition set_exec (f : Exec -> Exec) (j : Job) : Job :=
  mkJob (ID j) (Kind j) (Cluster j) (Machine j) (f (JExec j)) (Params j) (CancelRequested j) (Actor j)
    (CreatedAt j) (Rev j).
Definition set_rev (v : Z) (j : Job) : Job :=
  mkJob (ID j) (Kind j) (Cluster j) (Machine j) (JExec j) (Params j) (CancelRequested j) (Actor j)
    (CreatedAt j) v.
Definition set_cancel_requested (j : Job) : Job :=
  mkJob (ID j) (Kind j) (Cluster j) (Machine j) (JExec j) (Params j) true (Actor j) (CreatedAt j) (Rev j).

Definition x_state (s : JobState) (x : Exec) : Exec :=
  mkExec s (XSteps x) (XCurrent x) (XStartedAt x) (XFinishedAt x) (XParkedReason x).
Definition x_steps (f : list JobStep -> list JobStep) (x : Exec) : Exec :=
  mkExec (XState x) (f (XSteps x)) (XCurrent x) (XStartedAt x) (XFinishedAt x) (XParkedReason x).
Definition x_current (i : Z) (x : Exec) : Exec :=
  mkExec (XState x) (XSteps x) i (XStartedAt x) (XFinishedAt x) (XParkedReason x).
Definition x_started (t : Z) (x : Exec) : Exec :=
  mkExec (XState x) (XSteps x) (XCurrent x) t (XFinishedAt x) (XParkedReason x).
Definition x_finished (t : Z) (x : Exec) : Exec :=
  mkExec (XState x) (XSteps x) (XCurrent x) (XStartedAt x) t (XParkedReason x).
Definition x_parked (why : string) (x : Exec) : Exec :=
  mkExec (XState x) (XSteps x) (XCurrent x) (XStartedAt x) (XFinishedAt x) why.

Definition s_state (v : StepState) (s : JobStep) : JobStep :=
  mkStep (StName s) v (StVerifiable s) (StStartedAt s) (StFinishedAt s) (StDetail s).
Definition s_started (t : Z) (s : JobStep) : JobStep :=
  mkStep (StName s) (StState s) (StVerifiable s) t (StFinishedAt s) (StDetail s).
Definition s_finished (t : Z) (s : JobStep) : JobStep :=
  mkStep (StName s) (StState s) (StVerifiable s) (StStartedAt s) t (StDetail s).
Definition s_detail (d : string) (s : JobStep) : JobStep :=
  mkStep (StName s) (StState s) (StVerifiable s) (StStartedAt s) (StFinishedAt s) d.

(** [j.Steps[i].F = ...]. *)
Definition on_step (i : Z) (f : JobStep -> JobStep) : Exec -> Exec :=
  x_steps (alter f (Z.to_nat i)).
(** [j.Steps[i]]; the engine indexes inside the list (see [JobsSafety.v]). *)
Definition step_at (j : Job) (i : Z) : option JobStep :=
  if bool_decide (i < 0)%Z then None else Steps j !! Z.to_nat i.

(** The record the store knows it as. *)
#[global] Program Instance Job_record : Record Job := {
  rec_key := ID;
  rec_rev := Rev;
  rec_set_rev := set_rev
}.
Next Obligation. done. Qed.
Next Obligation. done. Qed.

(* ------------------------------------------------------------------ *)
(** ** Programs *)

(** [Step]: a name, and whether it has a paired question ([Happened != nil]).
    Its [Do] and [Happened] are side effects of the outside world: the outcome
    is chosen by the environment. A [Do] may write the detail of its own step
    and nothing else of the record. *)
Record StepDef := { SName : string; SVerifiable : bool }.

(** [Step.Verifiable]. *)
Definition Verifiable (s : StepDef) : bool := SVerifiable s.

(** How a [Do] ends: no error, an error that wraps [context.Canceled], or
    another error with its text. *)
Inductive do_result := DoOk | DoCancelled (msg : string) | DoError (msg : string).

Inductive engine_error :=
  | EStore (e : store_error)
  | ENotFound
  | EClusterBusy (holder : string)
  | EUnknownKind (kind : string)
  | ENotCancellable
  | EClosed
  | EInvalid (why : string).

Record Progress := mkProgress {
  PJob : string; PState : JobState; PStep : string; PIndex : Z; PTotal : Z;
  PStepState : option StepState; PDetail : string; PAt : Z }.

(** What a goroutine of the engine does next. A [Do] is two operations, because
    a crash or another goroutine can come between its start and its end.
    [NewID] names what the identifier is drawn for; the draw does not depend on
    it. [Panic] is a nil function called: it ends the process. *)
Inductive prog :=
  | Return
  | Get (id : string) (k : result store_error Job -> prog)
  | Put (rec : Job) (k : result store_error Job -> prog)
  | Delete (id : string) (k : prog)
  | ListJobs (k : result store_error (list Job) -> prog)
  | Acquire (cluster id : string) (k : result engine_error unit -> prog)
  | Release (cluster id : string) (k : prog)
  | EnterRunning (id : string) (k : bool -> prog)
  | LeaveRunning (id : string) (k : prog)
  | CancelRunning (id : string) (k : prog)
  | CtxErr (id : string) (k : bool -> prog)
  | ShutdownErr (k : bool -> prog)
  | ReadClosed (k : bool -> prog)
  | Now (k : Z -> prog)
  | NewID (cluster : string) (verifiable : list bool) (k : option string -> prog)
  | StartDo (j : Job) (i : Z) (k : do_result -> option string -> prog)
  | InDo (j : Job) (i : Z) (k : do_result -> option string -> prog)
  | Happened (id : string) (i : Z) (k : result string bool -> prog)
  | Publish (p : Progress) (k : prog)
  | DropTopic (id : string) (k : prog)
  | Spawn (child k : prog)
  | Answer (r : result engine_error Job) (k : prog)
  | Panic.

(* ------------------------------------------------------------------ *)
(** ** jobs.go *)

(** [publish]: one entry on the job's topic, with its own look at the clock. *)
Definition publish (j : Job) (step : string) (st : option StepState) (detail : string) (k : prog) : prog :=
  Now (fun t => Publish (mkProgress (ID j) (State j) step (Current j) (Z.of_nat (length (Steps j))) st detail t) k).

(** [save]: two attempts of a read-modify-write that puts the engine's fields
    onto the record everybody else has been writing. *)
Fixpoint save_attempt (attempts : nat) (j : Job) (k : Job -> prog) : prog :=
  match attempts with
  | O => k j
  | S more =>
      Get (ID j) (fun r =>
        let write (stored : Job) :=
          Put (set_exec (fun _ => JExec j) stored) (fun r =>
            match r with
            | Ok saved => k saved
            | Err e => if bool_decide (e = ErrConflict) && bool_decide (0 < more) then save_attempt more j k
                       else k j
            end) in
        match r with
        | Ok stored => write stored
        | Err ErrNotFound => write (set_rev 0 j)
        | Err _ => k j
        end)
  end.

Definition save (j : Job) (k : Job -> prog) : prog := save_attempt 2 j k.

(** [finishCancelled]. *)
Definition finishCancelled (j : Job) (step : string) (st : StepState) (reason : string) (k : prog) : prog :=
  Now (fun t =>
    let j := set_exec (x_finished t ∘ x_state JobCancelled) j in
    Release (Cluster j) (ID j)
      (save j (fun j => publish j step (Some st) reason k))).

(** [cancelRequested]: [Some reason] when the job has to stop. *)
Definition cancelRequested (j : Job) (k : option string -> prog) : prog :=
  let from_store :=
    Get (ID j) (fun r => match r with
      | Ok current => k (if CancelRequested current
                         then Some "cancelled at a step boundary, before the next step ran" else None)
      | Err _ => k None
      end) in
  CtxErr (ID j) (fun ctx =>
    if ctx then ShutdownErr (fun shut => if shut then from_store else k (Some "the job was cancelled"))
    else from_store).

Definition interrupted_detail : string :=
  "cancelled while this step was running; it may or may not have taken effect".

(** What [run] does with the outcome of a step's [Do]: [next j] goes round the
    loop, every other branch ends the goroutine's [run] ([k]). *)
Definition after_do (j : Job) (i : Z) (name : string) (r : do_result) (next : Job -> prog) (k : prog) : prog :=
  Now (fun now =>
    let j := set_exec (on_step i (s_finished now)) j in
    let done :=
      let j := set_exec (on_step i (s_state StepDone)) j in
      save j (fun j =>
        publish j name (Some StepDone) (default "" (StDetail <$> step_at j i)) (next j)) in
    let failed (msg : string) :=
      let j := set_exec (x_finished now ∘ x_state JobFailed ∘ on_step i (s_detail msg ∘ s_state StepFailed)) j in
      Release (Cluster j) (ID j) (save j (fun j => publish j name (Some StepFailed) msg k)) in
    match r with
    | DoOk => done
    | DoCancelled msg =>
        (* the second and the third case of the switch look at the context again *)
        let shutting_down := CtxErr (ID j) (fun ctx => if ctx then k else failed msg) in
        CtxErr (ID j) (fun ctx =>
          if ctx then ShutdownErr (fun shut =>
            if shut then shutting_down
            else
              let j := set_exec (on_step i (s_detail interrupted_detail ∘ s_state StepFailed)) j in
              finishCancelled j name StepFailed interrupted_detail k)
          else shutting_down)
    | DoError msg => failed msg
    end).

(** The loop of [run] from index [i]; [steps] are the steps still to go. *)
Fixpoint run_loop (total : Z) (steps : list StepDef) (i : Z) (j : Job) (k : prog) : prog :=
  match steps with
  | [] =>
      (* after the loop: the job succeeded *)
      Now (fun t =>
        let j := set_exec (x_finished t ∘ x_current (total - 1) ∘ x_state JobSucceeded) j in
        Release (Cluster j) (ID j)
          (save j (fun j => publish j "" (Some StepDone) "" k)))
  | s :: rest =>
      cancelRequested j (fun cancelled =>
        ShutdownErr (fun shut =>
          if shut && bool_decide (cancelled = None) then k
          else match cancelled with
          | Some reason => finishCancelled j (SName s) StepPending reason k
          | None =>
              Now (fun t =>
                let j := set_exec (on_step i (s_started t ∘ s_state StepRunning) ∘ x_current i) j in
                save j (fun j =>
                  publish j (SName s) (Some StepRunning) ""
                    (StartDo j i (fun r detail =>
                      let j := set_exec (on_step i (match detail with Some d => s_detail d | None => id end)) j in
                      after_do j i (SName s) r (fun j => run_loop total rest (i + 1) j k) k))))
          end))
  end.

(** [run]. *)
Definition run (j : Job) (steps : list StepDef) (k : prog) : prog :=
  Now (fun t =>
    let j := set_exec (x_started t ∘ x_state JobRunning) j in
    save j (fun j =>
      publish j "" (Some StepPending) ""
        (run_loop (Z.of_nat (length steps)) (drop (Z.to_nat (Current j)) steps) (Current j) j k))).

(** [dropTopicLater]: a finished job's stream is forgotten after the linger. *)
Definition dropTopicLater (id : string) (k : prog) : prog :=
  Get id (fun r => match r with
    | Ok final => if Terminal (State final) then DropTopic id k else k
    | Err _ => k
    end).

(** The goroutine of one job: [run], then what its deferred function does. *)
Definition runner (j : Job) (steps : list StepDef) : prog :=
  run j steps (dropTopicLater (ID j) (LeaveRunning (ID j) (Release (Cluster j) (ID j) Return))).

(** [start]: false, having started nothing, when the engine is closed. *)
Definition start (j : Job) (steps : list StepDef) (k : bool -> prog) : prog :=
  EnterRunning (ID j) (fun ok => if ok then Spawn (runner j steps) (k true) else k false).

Section Engine.

(** The registered kinds: the steps of a job are a function of its record, and
    a kind nobody registered has none. *)
Context (builders : string -> option (Job -> result engine_error (list StepDef))).

Definition answer (r : result engine_error Job) : prog := Answer r Return.

Definition fresh_job (j : Job) (id : string) (t : Z) (steps : list StepDef) : Job :=
  mkJob id (Kind j) (Cluster j) (Machine j)
    (mkExec JobPending
       ((fun s => mkStep (SName s) StepPending (Verifiable s) 0 0 "") <$> steps)
       0 (XStartedAt (JExec j)) (XFinishedAt (JExec j)) (XParkedReason (JExec j)))
    (Params j) (CancelRequested j) (Actor j) t 0.

(** [Submit]. *)
Definition Submit (j : Job) : prog :=
  if bool_decide (Kind j = "") then answer (Err (EInvalid "jobs: a job needs a kind"))
  else ReadClosed (fun closed =>
    if closed then answer (Err EClosed)
    else match builders (Kind j) with
    | None => answer (Err (EUnknownKind (Kind j)))
    | Some build =>
        match build j with
        | Err e => answer (Err e)
        | Ok [] => answer (Err (EInvalid ("jobs: " +:+ Kind j +:+ " has no steps")))
        | Ok steps =>
            NewID (Cluster j) (Verifiable <$> steps) (fun id => match id with
            | None => answer (Err (EInvalid "jobs: generate job id"))
            | Some id =>
                Now (fun t =>
                  let j := fresh_job j id t steps in
                  Acquire (Cluster j) (ID j) (fun r => match r with
                  | Err e => answer (Err e)
                  | Ok _ =>
                      Put j (fun r => match r with
                      | Err e => Release (Cluster j) (ID j) (answer (Err (EStore e)))
                      | Ok stored =>
                          start stored steps (fun ok =>
                            if ok then answer (Ok stored)
                            else Delete (ID stored) (Release (Cluster j) (ID j) (answer (Err EClosed))))
                      end)
                  end))
            end)
        end
    end).

(** [park]. *)
Definition park (j : Job) (reason : string) (k : prog) : prog :=
  save (set_exec (x_parked reason ∘ x_state JobParked) j)
    (fun j => publish j "" None reason k).

(** [resumeJob]: re-takes the lease and continues a job. *)
Definition resumeJob (j : Job) (steps : list StepDef) (k : prog) : prog :=
  Acquire (Cluster j) (ID j) (fun r => match r with
  | Err _ => park j "another job holds this cluster; resume it once that one is done." k
  | Ok _ =>
      save j (fun j =>
        start j steps (fun ok =>
          if ok then k else Release (Cluster j) (ID j) k))
  end).

(** The job is over: what [Resume] writes when no step is left. *)
Definition resume_finished (j : Job) (k : prog) : prog :=
  Now (fun t => save (set_exec (x_finished t ∘ x_state JobSucceeded) j) (fun _ => k)).

Definition quoted (s : string) : string := String (chr 34) (s +:+ String (chr 34) "").

(** What [Resume] does with one job of the listing. *)
Definition resume_one (j : Job) (k : prog) : prog :=
  if Terminal (State j) || bool_decide (State j = JobParked) then k
  else match builders (Kind j) with
  | None =>
      park j ("this build has no steps for a " +:+ Kind j +:+
        " job, so it cannot be continued. Check the node and close the job by hand.") k
  | Some build =>
      match build j with
      | Ok steps =>
          if negb (bool_decide (length steps = length (Steps j))) then
            park j ("the job's steps could not be rebuilt as they were submitted, " +:+
              "so continuing would run something other than what was asked for.") k
          else match step_at j (Current j) with
          | None => park j "the job's recorded position is outside its own step list." k
          | Some cur =>
              let idx := Current j in
              let n := Z.of_nat (length steps) in
              if negb (bool_decide (StState cur = StepRunning)) then
                let idx := if bool_decide (StState cur = StepDone) || bool_decide (StState cur = StepSkipped)
                           then (idx + 1)%Z else idx in
                if bool_decide (n <= idx)%Z then resume_finished j k
                else resumeJob (set_exec (x_current idx) j) steps k
              else if negb (StVerifiable cur) then
                park j ("holzkube-manager was interrupted while running " +:+ quoted (StName cur) +:+
                  ", and that step cannot be checked after the fact. It may or may not have taken effect. " +:+
                  "Look at the node, then close or re-submit this job.") k
              else if negb (default false (Verifiable <$> steps !! Z.to_nat idx)) then Panic
              else Happened (ID j) idx (fun r => match r with
                | Err why =>
                    park j ("holzkube-manager was interrupted while running " +:+ quoted (StName cur) +:+
                      " and could not find out whether it took effect (" +:+ why +:+
                      "). Look at the node, then close or re-submit this job.") k
                | Ok true =>
                    Now (fun t =>
                      let j := set_exec (on_step idx (s_finished t
                                 ∘ s_detail "already in effect when holzkube-manager restarted"
                                 ∘ s_state StepSkipped)) j in
                      if bool_decide (n <= idx + 1)%Z then resume_finished j k
                      else resumeJob (set_exec (x_current (idx + 1)) j) steps k)
                | Ok false =>
                    resumeJob (set_exec (x_current idx ∘ on_step idx (s_state StepPending)) j) steps k
                end)
          end
      | Err _ =>
          park j ("the job's steps could not be rebuilt as they were submitted, " +:+
            "so continuing would run something other than what was asked for.") k
      end
  end.

(** [Resume], over every job the store lists. *)
Definition Resume : prog :=
  ListJobs (fun r => match r with
    | Err _ => Return
    | Ok all => foldr resume_one Return all
    end).

(** [Cancel]. *)
Definition Cancel (id : string) : prog :=
  Get id (fun r => match r with
  | Err ErrNotFound => answer (Err ENotFound)
  | Err e => answer (Err (EStore e))
  | Ok j =>
      if Terminal (State j) then answer (Err ENotCancellable)
      else
        let put (j : Job) :=
          Put j (fun r => match r with
            | Err e => answer (Err (EStore e))
            | Ok stored =>
                let rest := CancelRunning id (answer (Ok stored)) in
                if bool_decide (State stored = JobCancelled)
                then publish stored "" None "cancelled while parked" (dropTopicLater (ID stored) rest)
                else rest
            end) in
        let j := set_cancel_requested j in
        if bool_decide (State j = JobParked)
        then Now (fun t => put (set_exec (x_finished t ∘ x_state JobCancelled) j))
        else put j
  end).

(** [Get] of the engine. *)
Definition GetJob (id : string) : prog :=
  Get id (fun r => match r with
  | Err ErrNotFound => answer (Err ENotFound)
  | Err e => answer (Err (EStore e))
  | Ok j => answer (Ok j)
  end).

End Engine.

(* ------------------------------------------------------------------ *)
(** ** The world the engine runs in *)

Inductive event :=
  | EDoStart (id : string) (i : Z) (recorded : bool)
  | EDoEnd (id : string) (i : Z) (r : do_result)
  | EPublish (p : Progress)
  | EDropTopic (id : string)
  | EAnswer (r : result engine_error Job)
  | EPanic.

(** [leases], [running], the contexts ([cancelled], [closed]) and the goroutines
    are the memory of the process; [store] is the disk; [issued] is every job
    identifier drawn so far with what it was drawn for, and [trace] what
    happened, newest first. [serving] is whether the listener is open. *)
Record World := mkWorld {
  store : gmap string (option Job);
  leases : gmap string string;
  running : gset string;
  cancelled : gset string;
  closed : bool;
  serving : bool;
  threads : list prog;
  issued : gmap string (string * list bool);
  trace : list event }.

(** The free choices of one operation. *)
Record choice := mkChoice {
  c_fault : fault;
  c_time : Z;
  c_id : option string;
  c_do : do_result;
  c_detail : option string;
  c_happened : result string bool }.

Definition w_store (m : gmap string (option Job)) (w : World) : World :=
  mkWorld m (leases w) (running w) (cancelled w) (closed w) (serving w) (threads w) (issued w) (trace w).
Definition w_leases (l : gmap string string) (w : World) : World :=
  mkWorld (store w) l (running w) (cancelled w) (closed w) (serving w) (threads w) (issued w) (trace w).
Definition w_running (r c : gset string) (w : World) : World :=
  mkWorld (store w) (leases w) r c (closed w) (serving w) (threads w) (issued w) (trace w).
Definition w_threads (ts : list prog) (w : World) : World :=
  mkWorld (store w) (leases w) (running w) (cancelled w) (closed w) (serving w) ts (issued w) (trace w).
Definition w_issued (l : gmap string (string * list bool)) (w : World) : World :=
  mkWorld (store w) (leases w) (running w) (cancelled w) (closed w) (serving w) (threads w) l (trace w).
Definition w_event (e : event) (w : World) : World :=
  mkWorld (store w) (leases w) (running w) (cancelled w) (closed w) (serving w) (threads w) (issued w) (e :: trace w).

(** [acquire]. *)
Definition acquire (l : gmap string string) (cluster id : string) : gmap string string * result engine_error unit :=
  if bool_decide (cluster = "") then (l, Ok tt)
  else match l !! cluster with
       | Some holder => if negb (bool_decide (holder = id)) then (l, Err (EClusterBusy holder))
                        else (<[cluster := id]> l, Ok tt)
       | None => (<[cluster := id]> l, Ok tt)
       end.

(** [release]. *)
Definition release (l : gmap string string) (cluster id : string) : gmap string string :=
  if bool_decide (cluster = "") then l
  else if bool_decide (l !! cluster = Some id) then delete cluster l else l.

(** Whether the record on disk says that step [i] is running. *)
Definition recorded (m : gmap string (option Job)) (id : string) (i : Z) : bool :=
  match stored m id with
  | Some r => bool_decide (Current r = i) &&
              match step_at r i with Some s => bool_decide (StState s = StepRunning) | None => false end
  | None => false
  end.

(** One operation of one goroutine: the new world, what the goroutine does
    next and a goroutine it started. Identifiers are 96 random bits: a drawn
    one was never drawn before; and no record is written 2^64 times. *)
Definition step_prog (c : choice) (w : World) (p : prog) : option (World * prog * list prog) :=
  match p with
  | Return | Panic => None
  | Get id k => Some (w, k (store_get (c_fault c) (store w) id), [])
  | Put rec k =>
      if bool_decide (Rev rec + 1 < 2 ^ 64)%Z then
        let '(m, r) := store_put (c_fault c) (store w) rec in Some (w_store m w, k r, [])
      else None
  | Delete id k => Some (w_store (store_delete (c_fault c) (store w) id).1 w, k, [])
  | ListJobs k => Some (w, k (store_list (c_fault c) (store w)), [])
  | Acquire cl id k => let '(l, r) := acquire (leases w) cl id in Some (w_leases l w, k r, [])
  | Release cl id k => Some (w_leases (release (leases w) cl id) w, k, [])
  | EnterRunning id k =>
      if closed w then Some (w, k false, [])
      else Some (w_running ({[id]} ∪ running w) (cancelled w ∖ {[id]}) w, k true, [])
  | LeaveRunning id k => Some (w_running (running w ∖ {[id]}) (cancelled w) w, k, [])
  | CancelRunning id k =>
      Some (if bool_decide (id ∈ running w) then w_running (running w) ({[id]} ∪ cancelled w) w else w, k, [])
  | CtxErr id k => Some (w, k (closed w || bool_decide (id ∈ cancelled w)), [])
  | ShutdownErr k => Some (w, k (closed w), [])
  | ReadClosed k => Some (w, k (closed w), [])
  | Now k => Some (w, k (c_time c), [])
  | NewID cl fl k =>
      match c_id c with
      | None => Some (w, k None, [])
      | Some id =>
          if safeKey id && bool_decide (issued w !! id = None)
          then Some (w_issued (<[id := (cl, fl)]> (issued w)) w, k (Some id), [])
          else None
      end
  | StartDo j i k => Some (w_event (EDoStart (ID j) i (recorded (store w) (ID j) i)) w, InDo j i k, [])
  | InDo j i k => Some (w_event (EDoEnd (ID j) i (c_do c)) w, k (c_do c) (c_detail c), [])
  | Happened id i k => Some (w, k (c_happened c), [])
  | Publish e k => Some (w_event (EPublish e) w, k, [])
  | DropTopic id k => Some (w_event (EDropTopic id) w, k, [])
  | Spawn child k => Some (w, k, [child])
  | Answer r k => Some (w_event (EAnswer r) w, k, [])
  end.

Inductive label :=
  | LStep (tid : nat) (c : choice)
  | LSubmit (j : Job)
  | LCancel (id : string)
  | LGet (id : string)
  | LClose
  | LServe
  | LCrash.

Section World.
Context (builders : string -> option (Job -> result engine_error (list StepDef))).

(** The process starts with [Resume], before the listener opens. *)
Definition restart (w : World) : World :=
  mkWorld (store w) ∅ ∅ ∅ false false [Resume builders] (issued w) (trace w).

Definition initial : World := mkWorld ∅ ∅ ∅ ∅ false false [Resume builders] ∅ [].

Definition add_thread (p : prog) (w : World) : option World :=
  if serving w then Some (w_threads (threads w ++ [p]) w) else None.

(** One step of the whole. [LCrash] is the end of the process at any moment (a
    kill -9, a panic, the end of a shutdown) and its next start; [LClose] is
    [Close], after which the goroutines run on until the process ends. *)
Definition exec (w : World) (l : label) : option World :=
  match l with
  | LStep tid c =>
      match threads w !! tid with
      | Some p =>
          match step_prog c w p with
          | Some (w', p', spawned) => Some (w_threads (<[tid := p']> (threads w) ++ spawned) w')
          | None => None
          end
      | None => None
      end
  | LSubmit j => add_thread (Submit builders j) w
  | LCancel id => add_thread (Cancel id) w
  | LGet id => add_thread (GetJob id) w
  | LClose => Some (mkWorld (store w) (leases w) (running w) (cancelled w) true (serving w) (threads w) (issued w) (trace w))
  | LServe =>
      match threads w with
      | Return :: _ => Some (mkWorld (store w) (leases w) (running w) (cancelled w) (closed w) true (threads w) (issued w) (trace w))
      | _ => None
      end
  | LCrash => Some (restart w)
  end.

Fixpoint execs (w : World) (ls : list label) : option World :=
  match ls with
  | [] => Some w
  | l :: ls' => match exec w l with Some w' => execs w' ls' | None => None end
  end.

Inductive reachable : World -> Prop :=
  | reach_initial : reachable initial
  | reach_step w l w' : reachable w -> exec w l = Some w' -> reachable w'.

Lemma reachable_execs w ls w' : reachable w -> execs w ls = Some w' -> reachable w'.
Proof.
  revert w. induction ls as [|l ls IH]; intros w Hr He; cbn in He; [by simplify_eq|].
  destruct (exec w l) as [w1|] eqn:E; [|done]. eapply IH; [|done]. by eapply reach_step.
Qed.

End World.

(* ------------------------------------------------------------------ *)
(** ** The order of [List] *)

(** The inner loop of [List]: position [i] against everything after it; [a]
    stands for [all[i]] (and for [jj], which the loop keeps equal to it). *)
Fixpoint list_inner (a : Job) (rest : list Job) : Job * list Job :=
  match rest with
  | [] => (a, [])
  | b :: rest' =>
      if bool_decide (CreatedAt a < CreatedAt b)%Z
      then let '(top, r) := list_inner b rest' in (top, a :: r)
      else let '(top, r) := list_inner a rest' in (top, b :: r)
  end.

Fixpoint list_outer (n : nat) (all : list Job) : list Job :=
  match n, all with
  | S n', a :: rest => let '(top, r) := list_inner a rest in top :: list_outer n' r
  | _, _ => all
  end.

(** [List] on what the store returned. *)
Definition newest_first (all : list Job) : list Job := list_outer (length all) all.
