(* ===== verification/JobsSafety.v ===== *)
(** * What the job engine guarantees in every reachable world

    One cluster runs one mutating job at a time, and a step that cannot be
    checked is started at most once, over every interleaving of submissions,
    cancels and store operations and over any number of crashes and restarts.

    The proof is one predicate on programs, [okp], that says what a goroutine
    may do given what it owns, and one invariant of the world that hands out
    that ownership. *)

From S2P Require Import Prelude RecordStore Jobs.

(** The record is past step [i], or says that [i] runs or is done, or is over:
    [Resume] will not start step [i] again, unless the step can be checked. *)
Definition safe_at (r : Job) (i : Z) : Prop :=
  Terminal (State r) = true \/ State r = JobParked \/ (i < Current r)%Z \/
  (i = Current r /\ exists s, step_at r i = Some s /\ (StState s = StepRunning \/ StState s = StepDone)).

Definition flags (r : Job) : list bool := StVerifiable <$> Steps r.

Section Programs.

(** For every identifier, the cluster and the verifiability of the steps it was
    drawn for. *)
Context (cl : string -> string) (vf : string -> list bool).

Definition wf (r : Job) : Prop := Cluster r = cl (ID r) /\ flags r = vf (ID r).

(** What a goroutine owns: for each job identifier that is its own, [Some b]
    when it may still write the record ([b] bounds the steps that were started)
    and [None] when the record was withdrawn; [H] is the identifiers whose
    lease it holds; [S] is the record it read last. *)
Abbreviation owned := (gmap string (option Z)).

Definition may_put (O : owned) (S : option Job) (rec : Job) : Prop :=
  wf rec /\
  (Rev rec = 0%Z \/ exists r0, S = Some r0 /\ ID rec = ID r0 /\ Rev rec = Rev r0 /\
                     (CancelRequested r0 = true -> CancelRequested rec = true)) /\
  ((exists b, O !! ID rec = Some (Some b) /\ forall i, (i < b)%Z -> safe_at rec i) \/
   (exists r0, S = Some r0 /\ ID rec = ID r0 /\ Rev rec = Rev r0 /\ (1 <= Rev rec)%Z /\
      (JExec rec = JExec r0 \/ Terminal (State rec) = true))).

Fixpoint okp (O : owned) (H : gset string) (S : option Job) (p : prog) : Prop :=
  match p with
  | Return | Panic => True
  | Get id k =>
      (forall r, ID r = id -> wf r -> (1 <= Rev r)%Z -> okp O H (Some r) (k (Ok r))) /\
      (forall e, okp O H S (k (Err e)))
  | Put rec k =>
      may_put O S rec /\
      (forall r, ID r = ID rec -> wf r -> JExec r = JExec rec -> (1 <= Rev r)%Z -> okp O H None (k (Ok r))) /\
      (forall e, okp O H None (k (Err e)))
  | Delete id k => O !! id = Some (Some 0%Z) /\ okp (<[id := None]> O) H S k
  | ListJobs k => False
  | Acquire c id k =>
      id ∈ dom O /\ c = cl id /\ (forall e, okp O H S (k (Err e))) /\ okp O ({[id]} ∪ H) S (k (Ok tt))
  | Release c id k => id ∈ dom O /\ c = cl id /\ okp O (H ∖ {[id]}) S k
  | EnterRunning _ k | CtxErr _ k => forall b, okp O H S (k b)
  | ShutdownErr k | ReadClosed k => forall b, okp O H S (k b)
  | LeaveRunning _ k | CancelRunning _ k => okp O H S k
  | Now k => forall t, okp O H S (k t)
  | NewID c fl k =>
      okp O H S (k None) /\
      forall id, cl id = c -> vf id = fl -> okp (<[id := Some 0%Z]> O) H S (k (Some id))
  | StartDo j i k =>
      (exists b, O !! ID j = Some (Some b) /\ (b <= i)%Z) /\ (0 <= i)%Z /\
      Cluster j = cl (ID j) /\ ID j ∈ H /\
      forall r d, okp (<[ID j := Some (i + 1)%Z]> O) H S (k r d)
  | InDo j i k => Cluster j = cl (ID j) /\ ID j ∈ H /\ forall r d, okp O H S (k r d)
  | Happened _ _ k => forall r, okp O H S (k r)
  | Publish _ k | DropTopic _ k | Answer _ k => okp O H S k
  | Spawn child k =>
      exists O1 O2 H1 H2, O = O1 ∪ O2 /\ O1 ##ₘ O2 /\ H = H1 ∪ H2 /\ H1 ⊆ dom O1 /\ H2 ## dom O1 /\
        okp O1 H1 None child /\ okp O2 H2 S k
  end.

(* ------------------------------------------------------------------ *)
(** ** The programs of the engine *)

(** [j] is the job [id] as the engine holds it: its identity, with steps as
    many and as verifiable as it was created with. *)
Definition own (id : string) (j : Job) : Prop := ID j = id /\ wf j.

Lemma own_set_exec id j f :
  own id j -> StVerifiable <$> XSteps (f (JExec j)) = StVerifiable <$> Steps j -> own id (set_exec f j).
Proof. intros [Hid [Hc Hf]] Hs. unfold own, wf, flags in *. cbn. rewrite Hs. done. Qed.

Lemma alter_flags (f : JobStep -> JobStep) (i : nat) (l : list JobStep) :
  (forall s, StVerifiable (f s) = StVerifiable s) ->
  StVerifiable <$> alter f i l = StVerifiable <$> l.
Proof.
  intros Hf. apply list_eq. intros n. rewrite !list_lookup_fmap.
  destruct (decide (i = n)) as [->|Hne].
  - rewrite list_lookup_alter_eq. destruct (l !! n); cbn; [by rewrite Hf|done].
  - by rewrite list_lookup_alter_ne.
Qed.

Lemma own_same_exec id j j' :
  own id j -> ID j' = ID j -> wf j' -> own id j'.
Proof. intros [<- _] Hid Hw. by split. Qed.

Lemma okp_publish O H S j step st d k : okp O H S k -> okp O H S (publish j step st d k).
Proof. intros Hk t. exact Hk. Qed.

Lemma okp_answer O H S r : okp O H S (answer r).
Proof. done. Qed.

(** The engine's save by the owner of the record: the continuation gets a job
    with the same identity and the same execution state. *)
Lemma okp_save_attempt n O H S b j k :
  O !! ID j = Some (Some b) -> wf j -> (forall i, (i < b)%Z -> safe_at j i) ->
  (forall j' S', own (ID j) j' -> JExec j' = JExec j -> okp O H S' (k j')) ->
  okp O H S (save_attempt n j k).
Proof.
  intros HO Hw Hsafe Hk. revert S. induction n as [|n IH]; intros S; cbn [save_attempt]; [by apply Hk|].
  assert (forall S' stored, ID stored = ID j -> Cluster stored = cl (ID j) ->
    (Rev stored = 0%Z \/ S' = Some stored) ->
    okp O H S' (Put (set_exec (fun _ => JExec j) stored) (fun r =>
            match r with
            | Ok saved => k saved
            | Err e => if bool_decide (e = ErrConflict) && bool_decide (0 < n) then save_attempt n j k
                       else k j
            end))) as Hput.
  { intros S' stored Hid Hcl Hrev. cbn [okp]. split_and!.
    - assert (wf (set_exec (fun _ => JExec j) stored)) as Hw'.
      { split; cbn; [by rewrite Hid|]. destruct Hw as [_ Hf]. unfold flags in *. cbn. by rewrite Hid. }
      split_and!; [done| |].
      + destruct Hrev as [?| ->]; [by left|]. right. exists stored. done.
      + left. exists b. cbn. rewrite Hid. split; [done|]. intros i Hi. exact (Hsafe i Hi).
    - intros r Hr Hwr Hx _. cbn in Hr, Hx. apply Hk; [|done]. split; [congruence|done].
    - intros e. destruct (bool_decide (e = ErrConflict) && bool_decide (0 < n)); [apply IH|].
      apply Hk; [by split|done]. }
  split.
  - intros r Hr Hwr _. apply Hput; [done|destruct Hwr; congruence|by right].
  - intros [| | |]; try (apply Hk; [by split|done]).
    apply Hput; [done|destruct Hw; cbn; congruence|by left].
Qed.

Lemma okp_save O H S b j k :
  O !! ID j = Some (Some b) -> wf j -> (forall i, (i < b)%Z -> safe_at j i) ->
  (forall j' S', own (ID j) j' -> JExec j' = JExec j -> okp O H S' (k j')) ->
  okp O H S (save j k).
Proof. apply okp_save_attempt. Qed.

Lemma terminal_safe j i : Terminal (State j) = true -> safe_at j i.
Proof. by left. Qed.

Lemma parked_safe j i : State j = JobParked -> safe_at j i.
Proof. intros. by right; left. Qed.

Lemma dom_owned (O : owned) id b : O !! id = Some b -> id ∈ dom O.
Proof. intros E. apply elem_of_dom. eauto. Qed.

Lemma okp_finishCancelled O H S b j step st why k :
  O !! ID j = Some (Some b) -> wf j -> (forall H' S', okp O H' S' k) ->
  okp O H S (finishCancelled j step st why k).
Proof.
  intros HO Hw Hk t. cbn [okp]. split_and!; [by eapply dom_owned|by destruct Hw|].
  eapply okp_save; [exact HO|by destruct Hw|intros; by apply terminal_safe|].
  intros j' S' _ _. apply okp_publish. apply Hk.
Qed.

Lemma okp_cancelRequested O H S j k :
  (forall c S', okp O H S' (k c)) -> okp O H S (cancelRequested j k).
Proof.
  intros Hk [|]; cbn; [intros [|]|]; try apply Hk; (split; [intros r _ _ _|intros e]); try apply Hk.
Qed.

Lemma okp_after_do O H S j i name r next k :
  O !! ID j = Some (Some (i + 1)%Z) -> wf j -> Current j = i -> (0 <= i)%Z -> is_Some (step_at j i) ->
  (forall j' S', own (ID j) j' -> Current j' = i -> length (Steps j') = length (Steps j) ->
     okp O H S' (next j')) ->
  (forall H' S', okp O H' S' k) ->
  okp O H S (after_do j i name r next k).
Proof.
  intros HO Hw Hcur Hi Hstep Hnext Hk now. cbn zeta.
  set (j1 := set_exec (on_step i (s_finished now)) j).
  assert (own (ID j) j1) as [Hid1 Hw1].
  { apply own_set_exec; [by split|]. by apply alter_flags. }
  assert (forall j2, own (ID j) j2 -> forall S' H' st why,
    okp O H' S' (finishCancelled j2 name st why k)) as Hcancel.
  { intros j2 [Hid2 Hw2] S' H' st why. apply okp_finishCancelled with (i + 1)%Z; [by rewrite Hid2|done|done]. }
  assert (forall msg, okp O H S (let j2 := set_exec (x_finished now ∘ x_state JobFailed ∘
            on_step i (s_detail msg ∘ s_state StepFailed)) j1 in
      Release (Cluster j2) (ID j2) (save j2 (fun j => publish j name (Some StepFailed) msg k)))) as Hfail.
  { intros msg. set (j2 := set_exec _ j1). assert (own (ID j) j2) as [Hid2 Hw2].
    { apply own_set_exec; [by split|]. cbn. by rewrite alter_flags. }
    cbn [okp]. split_and!; [by eapply dom_owned|by destruct Hw|].
    apply okp_save with (i + 1)%Z; [done|done|intros; by apply terminal_safe|].
    intros j' S' _ _. apply okp_publish. apply Hk. }
  destruct r as [|msg|msg]; [| |apply Hfail].
  - set (j2 := set_exec (on_step i (s_state StepDone)) j1). assert (own (ID j) j2) as [Hid2 Hw2].
    { apply own_set_exec; [by split|]. by apply alter_flags. }
    apply okp_save with (i + 1)%Z; [done|done| |].
    + intros i' Hi'. right; right. change (Current j2) with (Current j). rewrite Hcur.
      destruct (decide (i' = i)) as [->|]; [|left; lia]. right. split; [done|].
      unfold step_at in Hstep |- *. case_bool_decide; [lia|]. destruct Hstep as [s Hs]. cbn in Hs |- *.
      rewrite !list_lookup_alter_eq, Hs. cbn. eexists. split; [done|]. by right.
    + intros j' S' [Hid' Hw'] Hx. apply okp_publish. apply Hnext; [by split| |].
      * rewrite Hx. done.
      * rewrite Hx. cbn. by rewrite !length_alter.
  - assert (okp O H S (CtxErr (ID j1) (fun ctx => if ctx then k else
      let j2 := set_exec (x_finished now ∘ x_state JobFailed ∘ on_step i (s_detail msg ∘ s_state StepFailed)) j1 in
      Release (Cluster j2) (ID j2) (save j2 (fun j => publish j name (Some StepFailed) msg k))))) as Hsecond.
    { intros [|]; [apply Hk|apply Hfail]. }
    intros [|]; [|exact Hsecond]. intros [|]; [exact Hsecond|].
    apply Hcancel. apply own_set_exec; [by split|]. cbn. by rewrite alter_flags.
Qed.

Lemma okp_run_loop steps total i O H S j k b :
  O !! ID j = Some (Some b) -> (b <= i)%Z -> (0 <= i)%Z -> wf j -> ID j ∈ H ->
  (i + Z.of_nat (length steps) = Z.of_nat (length (Steps j)))%Z ->
  (forall O' H' S', (exists b', O' !! ID j = Some (Some b') /\ forall id, id <> ID j -> O' !! id = O !! id) ->
      okp O' H' S' k) ->
  okp O H S (run_loop total steps i j k).
Proof.
  revert i O S j b. induction steps as [|s rest IH]; intros i O S j b HO Hb Hi Hw HH Hlen Hk; cbn [run_loop].
  - intros t. cbn [okp]. split_and!; [by eapply dom_owned|by destruct Hw|].
    apply okp_save with b; [done|by destruct Hw|intros; by apply terminal_safe|].
    intros j' S' _ _. apply okp_publish. apply Hk. eauto.
  - apply okp_cancelRequested. intros c S1 shut.
    assert (forall O' H' S', (exists b', O' !! ID j = Some (Some b') /\ forall id, id <> ID j -> O' !! id = O !! id) ->
      okp O' H' S' k) as Hk' by done.
    destruct (shut && bool_decide (c = None)); [apply Hk; eauto|].
    destruct c as [why|].
    { apply okp_finishCancelled with b; [done|done|]. intros. apply Hk. eauto. }
    intros t. set (j1 := set_exec _ j). assert (own (ID j) j1) as [Hid1 Hw1].
    { apply own_set_exec; [by split|]. by apply alter_flags. }
    apply okp_save with b; [by rewrite Hid1|done| |].
    { intros i' Hi'. right; right; left. cbn. lia. }
    intros j2 S2 [Hid2 Hw2] Hx2. rewrite Hid1 in Hid2. apply okp_publish. cbn [okp].
    rewrite Hid2. split_and!; [by exists b|done|by destruct Hw2; congruence|done|].
    intros r d. set (j3 := set_exec _ j2).
    assert (own (ID j) j3) as [Hid3 Hw3].
    { apply own_set_exec; [by split|]. apply alter_flags. by destruct d. }
    assert (length (Steps j3) = length (Steps j)) as Hl3.
    { unfold j3. cbn. rewrite length_alter, Hx2. unfold j1. cbn. by rewrite length_alter. }
    apply okp_after_do.
    + rewrite Hid3. by simplify_map_eq.
    + done.
    + unfold j3. cbn. by rewrite Hx2.
    + done.
    + unfold step_at. case_bool_decide; [lia|]. apply lookup_lt_is_Some. rewrite Hl3. cbn in Hlen. lia.
    + intros j4 S4 [Hid4 Hw4] _ Hlx. rewrite Hid3 in Hid4.
      apply IH with (i + 1)%Z; [rewrite Hid4; by simplify_map_eq|lia|lia|done|by rewrite Hid4| |].
      * rewrite Hlx, Hl3. cbn in Hlen. lia.
      * intros O' H' S' (b' & HO' & Hother). apply Hk. rewrite Hid4 in *. exists b'. split; [done|].
        intros id Hne. rewrite Hother by done. by simplify_map_eq.
    + intros H' S'. apply Hk. exists (i + 1)%Z. split; [by simplify_map_eq|]. intros. by simplify_map_eq.
Qed.

Lemma okp_dropTopicLater O H S id k : (forall S', okp O H S' k) -> okp O H S (dropTopicLater id k).
Proof. intros Hk. split; intros; [case_match|]; apply Hk. Qed.

(** The goroutine of a job needs its record and its lease, and nothing else. *)
Lemma okp_runner O S j steps b :
  O !! ID j = Some (Some b) -> (b <= Current j)%Z -> (0 <= Current j)%Z -> wf j ->
  (Current j <= Z.of_nat (length steps))%Z -> length steps = length (Steps j) ->
  okp O {[ID j]} S (runner j steps).
Proof.
  intros HO Hb Hc Hw Hcl Hlen. unfold runner, run. intros t. set (j1 := set_exec _ j).
  assert (own (ID j) j1) as [Hid1 Hw1] by (by apply own_set_exec).
  apply okp_save with b; [done|done|intros i Hi; right; right; left; cbn; lia|].
  intros j2 S2 [Hid2 Hw2] Hx. rewrite Hid1 in Hid2. apply okp_publish.
  assert (Current j2 = Current j) as Hcur by (rewrite Hx; done).
  apply okp_run_loop with b; [by rewrite Hid2|lia|lia|done|set_solver| |].
  - rewrite length_drop, Hx. change (XSteps (JExec j1)) with (Steps j).
    change (XCurrent (JExec j1)) with (Current j). lia.
  - rewrite Hid2. intros O' H' S' (b' & HO' & _). apply okp_dropTopicLater. intros S3. cbn.
    split_and!; [by eapply dom_owned|by destruct Hw|done].
Qed.

Lemma okp_start O H S j steps k b :
  O !! ID j = Some (Some b) -> (b <= Current j)%Z -> (0 <= Current j)%Z -> wf j -> ID j ∈ H ->
  (Current j <= Z.of_nat (length steps))%Z -> length steps = length (Steps j) ->
  okp (delete (ID j) O) (H ∖ {[ID j]}) S (k true) -> okp O H S (k false) ->
  okp O H S (start j steps k).
Proof.
  intros HO Hb Hc Hw HH Hcl Hlen Ht Hf [|]; [|exact Hf].
  exists {[ID j := Some b]}, (delete (ID j) O), {[ID j]}, (H ∖ {[ID j]}). split_and!.
  - rewrite <- insert_union_singleton_l, insert_delete_eq. by rewrite insert_id.
  - apply map_disjoint_singleton_l. by rewrite lookup_delete_eq.
  - apply union_difference_L. set_solver.
  - rewrite dom_singleton_L. set_solver.
  - rewrite dom_singleton_L. set_solver.
  - eapply okp_runner with b; try done. by simplify_map_eq.
  - exact Ht.
Qed.

Lemma okp_Submit builders S j : okp ∅ ∅ S (Submit builders j).
Proof.
  unfold Submit. case_bool_decide; [done|]. intros [|]; [done|].
  destruct (builders (Kind j)) as [build|]; [|done]. destruct (build j) as [steps|e]; [|done].
  destruct steps as [|s0 rest]; [done|]. set (steps := s0 :: rest). cbn [okp].
  split; [done|]. intros id Hcl Hvf t. set (f := fresh_job j id t steps).
  assert (own id f) as [Hidf Hwf].
  { split; [done|]. split; [done|]. unfold flags, f. cbn [fresh_job JExec XSteps].
    rewrite <- list_fmap_compose. symmetry. exact Hvf. }
  assert (<[id := Some 0%Z]> (∅ : owned) !! id = Some (Some 0%Z)) as HO by by simplify_map_eq.
  cbn [okp]. change (ID f) with id. change (Cluster f) with (Cluster j).
  split_and!; [by eapply dom_owned|done|done| | |].
  - split_and!; [done|by left|]. left. exists 0%Z. split; [done|]. intros i Hi. right; right; by left.
  - intros r Hr Hwr Hx Hrev. apply okp_start with 0%Z.
    + by rewrite Hr.
    + by rewrite Hx.
    + by rewrite Hx.
    + done.
    + rewrite Hr. set_solver.
    + rewrite Hx. cbn. lia.
    + rewrite Hx. cbn. by rewrite length_fmap.
    + done.
    + cbn [okp]. rewrite Hr. split; [done|]. split_and!; [|done|done].
      apply elem_of_dom. rewrite lookup_insert_eq. by eexists.
  - intros e. cbn [okp]. split_and!; [by eapply dom_owned|done|done].
Qed.

Lemma okp_park O H S b j why k :
  O !! ID j = Some (Some b) -> wf j -> (forall S', okp O H S' k) -> okp O H S (park j why k).
Proof.
  intros HO Hw Hk. unfold park. apply okp_save with b; [done|by destruct Hw|intros; by apply parked_safe|].
  intros. apply okp_publish. apply Hk.
Qed.

Lemma okp_resumeJob O H S b j steps k :
  O !! ID j = Some (Some b) -> (b <= Current j)%Z -> (0 <= Current j)%Z -> wf j -> ID j ∉ H ->
  (Current j <= Z.of_nat (length steps))%Z -> length steps = length (Steps j) ->
  (forall O' S', O' = O \/ O' = delete (ID j) O -> okp O' H S' k) ->
  okp O H S (resumeJob j steps k).
Proof.
  intros HO Hb Hc Hw HH Hcl Hlen Hk. unfold resumeJob. cbn [okp].
  split_and!; [by eapply dom_owned|by destruct Hw| |].
  - intros e. apply okp_park with b; [done|done|]. intros S'. apply Hk. by left.
  - apply okp_save with b; [done|done|intros i Hi; right; right; left; lia|].
    intros j2 S2 [Hid2 Hw2] Hx. assert (({[ID j]} ∪ H) ∖ {[ID j]} = H) as HH' by set_solver.
    apply okp_start with b; rewrite ?Hid2, ?Hx; try done; [set_solver| |].
    + rewrite HH'. apply Hk. by right.
    + cbn [okp]. destruct Hw2 as [Hc2 _]. rewrite Hid2 in Hc2.
      split_and!; [by eapply dom_owned|done|]. rewrite HH'. apply Hk. by left.
Qed.

(** The bound of a job found on disk: the steps before it were started and are
    settled, and no step at or after it was. *)
Definition bound (r : Job) : Z :=
  match step_at r (Current r) with
  | Some s =>
      if bool_decide (StState s = StepDone) || (bool_decide (StState s = StepRunning) && negb (StVerifiable s))
      then (Current r + 1)%Z else Current r
  | None => Current r
  end.

Lemma step_at_range r i s : step_at r i = Some s -> (0 <= i < Z.of_nat (length (Steps r)))%Z.
Proof. unfold step_at. case_bool_decide; [done|]. intros Hl%lookup_lt_Some. lia. Qed.

Lemma okp_resume_finished O H S b j k :
  O !! ID j = Some (Some b) -> wf j -> (forall S', okp O H S' k) -> okp O H S (resume_finished j k).
Proof.
  intros HO Hw Hk t. apply okp_save with b; [done|by destruct Hw|intros; by apply terminal_safe|].
  intros. apply Hk.
Qed.

Lemma okp_resume_one builders O H S r k :
  wf r -> ID r ∉ H ->
  (Terminal (State r) = false -> State r <> JobParked -> O !! ID r = Some (Some (bound r))) ->
  (forall O' S', O' = O \/ O' = delete (ID r) O -> okp O' H S' k) ->
  okp O H S (resume_one builders r k).
Proof.
  intros Hw HH HO Hk. unfold resume_one.
  assert (forall S', okp O H S' k) as Hk0 by (intros; apply Hk; by left).
  destruct (Terminal (State r)) eqn:Ht; [apply Hk0|]. case_bool_decide as Hp; [apply Hk0|]. cbn [orb].
  specialize (HO eq_refl Hp).
  assert (forall why, okp O H S (park r why k)) as Hpark by (intros; by eapply okp_park).
  destruct (builders (Kind r)) as [build|]; [|apply Hpark].
  destruct (build r) as [steps|e]; [|apply Hpark].
  case_bool_decide as Hlen; cbn [negb]; [|apply Hpark].
  destruct (step_at r (Current r)) as [cur|] eqn:Hcur; [|apply Hpark].
  pose proof (step_at_range _ _ _ Hcur) as Hrange.
  assert (exists b, O !! ID r = Some (Some b) /\ (b <= Current r + 1)%Z /\
    (StState cur <> StepDone -> (StState cur = StepRunning -> StVerifiable cur = true) -> b <= Current r)%Z)
    as (b & HOb & Hb1 & Hb2).
  { exists (bound r). split; [done|]. unfold bound. rewrite Hcur. split.
    - case_match; lia.
    - intros Hd Hr. rewrite bool_decide_eq_false_2 by done. case_bool_decide; cbn; [|lia].
      rewrite Hr by done. cbn. lia. }
  clear HO. assert (forall f idx, (StVerifiable <$> XSteps (f (JExec r)) = StVerifiable <$> Steps r) ->
    length (XSteps (f (JExec r))) = length (Steps r) ->
    (b <= idx)%Z -> (0 <= idx <= Z.of_nat (length steps))%Z ->
    okp O H S (resumeJob (set_exec (x_current idx ∘ f) r) steps k)) as Hres.
  { intros f idx Hf Hfl Hb Hidx. assert (own (ID r) (set_exec (x_current idx ∘ f) r)) as [Hi Hw'] by by apply own_set_exec.
    eapply okp_resumeJob; [exact HOb|exact Hb|cbn; lia|done|done|cbn; lia| |done].
    cbn. by rewrite Hfl, Hlen. }
  destruct (decide (StState cur = StepRunning)) as [Hrun|Hrun];
    [rewrite (bool_decide_eq_true_2 (StState cur = StepRunning)) by done
    |rewrite (bool_decide_eq_false_2 (StState cur = StepRunning)) by done]; cbn [negb].
  2:{ set (idx := if _ || _ then _ else _). assert (b <= idx /\ 0 <= idx)%Z as [Hbi Hi0].
      { destruct (decide (StState cur = StepDone)) as [Hd|Hd]; unfold idx.
        - rewrite bool_decide_eq_true_2 by done. cbn [orb]. lia.
        - specialize (Hb2 Hd ltac:(congruence)). destruct (_ || _); lia. }
      case_bool_decide; [by eapply okp_resume_finished|]. apply (Hres (fun x => x)); [done|done|lia|lia]. }
  destruct (StVerifiable cur) eqn:Hv; cbn [negb]; [|apply Hpark].
  destruct (default false _); cbn [negb]; [|done].
  specialize (Hb2 ltac:(congruence) ltac:(congruence)).
  intros [[|]|why]; [| |apply Hpark].
  - intros t. case_bool_decide.
    + eapply okp_resume_finished; [exact HOb| |done]. apply (own_set_exec (ID r)); [by split|]. by apply alter_flags.
    + apply (Hres (on_step (Current r) _)); [by apply alter_flags|by cbn; rewrite length_alter|lia|lia].
  - apply (Hres (on_step (Current r) _)); [by apply alter_flags|by cbn; rewrite length_alter|lia|lia].
Qed.

Lemma okp_resume_all builders O S rs :
  NoDup (ID <$> rs) -> Forall wf rs ->
  (forall r, r ∈ rs -> Terminal (State r) = false -> State r <> JobParked -> O !! ID r = Some (Some (bound r))) ->
  okp O ∅ S (foldr (resume_one builders) Return rs).
Proof.
  revert O S. induction rs as [|r rs IH]; intros O S Hnd Hwf HO; [done|].
  cbn in Hnd. apply NoDup_cons in Hnd as [Hni Hnd]. inversion_clear Hwf as [|? ? Hw Hws].
  cbn [foldr]. apply okp_resume_one; [done|set_solver|apply HO; set_solver|].
  intros O' S' HO'. apply IH; [done|done|]. intros r' Hr' Ht Hp.
  assert (ID r' <> ID r) by (intros E; apply Hni; rewrite <- E; by apply list_elem_of_fmap_2).
  destruct HO' as [->| ->]; [|rewrite lookup_delete_ne by done]; apply HO; try done; set_solver.
Qed.

Lemma okp_Cancel S id : okp ∅ ∅ S (Cancel id).
Proof.
  unfold Cancel. split; [|intros [| | |]; done]. intros r Hr Hw Hrev. cbv beta iota.
  destruct (Terminal (State r)) eqn:Ht; [done|].
  assert (forall j : Job, ID j = ID r -> wf j -> Rev j = Rev r -> CancelRequested j = true ->
    JExec j = JExec r \/ Terminal (State j) = true ->
    okp ∅ ∅ (Some r) (Put j (fun r => match r with
            | Err e => answer (Err (EStore e))
            | Ok stored =>
                let rest := CancelRunning id (answer (Ok stored)) in
                if bool_decide (State stored = JobCancelled)
                then publish stored "" None "cancelled while parked" (dropTopicLater (ID stored) rest)
                else rest
            end))) as Hput.
  { intros j Hid Hwj Hrj Hcj Hxj. cbn [okp]. split_and!; [| |done].
    - split_and!; [done|right; exists r; by auto|]. right. exists r. rewrite Hrj. auto. 
    - intros. case_bool_decide; [|done]. apply okp_publish. apply okp_dropTopicLater. done. }
  case_bool_decide.
  - intros t. apply Hput; try done. by right.
  - apply Hput; try done. by left.
Qed.

Lemma okp_GetJob S id : okp ∅ ∅ S (GetJob id).
Proof. split; [done|]. by intros [| | |]. Qed.

End Programs.

(* ------------------------------------------------------------------ *)
(** ** The invariant of the world *)

Section Invariant.
Context (cl : string -> string) (vf : string -> list bool).

Record tstate := mkT { tO : gmap string (option Z); tH : gset string; tS : option Job }.

(** Step [i] of job [id] cannot be checked, and it was started with the record
    saying so. *)
Definition started (tr : list event) (id : string) (i : Z) : Prop :=
  EDoStart id i true ∈ tr /\ vf id !! Z.to_nat i = Some false.

(** No step that cannot be checked was started after it was started with the
    record saying so. *)
Fixpoint once (tr : list event) : Prop :=
  match tr with
  | [] => True
  | EDoStart id i _ :: tr' => ~ started tr' id i /\ once tr'
  | _ :: tr' => once tr'
  end.

Definition seen_ok (st : gmap string (option Job)) (iss : gmap string (string * list bool)) (Ts : list tstate)
    (r0 : Job) : Prop :=
  (is_Some (iss !! ID r0) /\ (1 <= Rev r0)%Z) /\
  match st !! ID r0 with
  | Some (Some r) => (Rev r0 <= Rev r)%Z /\ (Rev r = Rev r0 -> r = r0)
  | _ => forall t T b, Ts !! t = Some T -> tO T !! ID r0 <> Some (Some b)
  end.

Record G (st : gmap string (option Job)) (le : gmap string string) (iss : gmap string (string * list bool))
    (tr : list event) (Ts : list tstate) : Prop := mkG {
  g_uniq t1 t2 T1 T2 id : Ts !! t1 = Some T1 -> Ts !! t2 = Some T2 ->
    id ∈ dom (tO T1) -> id ∈ dom (tO T2) -> t1 = t2;
  g_issued t T id : Ts !! t = Some T -> id ∈ dom (tO T) -> is_Some (iss !! id);
  g_held t T id : Ts !! t = Some T -> id ∈ tH T -> id ∈ dom (tO T);
  g_lease t T id : Ts !! t = Some T -> id ∈ tH T -> cl id <> "" -> le !! cl id = Some id;
  g_store id c : st !! id = Some c ->
    exists r, c = Some r /\ ID r = id /\ wf cl vf r /\ (1 <= Rev r)%Z /\ is_Some (iss !! id);
  g_seen t T r0 : Ts !! t = Some T -> tS T = Some r0 -> seen_ok st iss Ts r0;
  g_bound t T id b i : Ts !! t = Some T -> tO T !! id = Some (Some b) -> started tr id i -> (i < b)%Z;
  g_safe id i : started tr id i -> (0 <= i)%Z /\ exists r, st !! id = Some (Some r) /\ safe_at r i;
  g_once : once tr
}.

Arguments g_uniq {_ _ _ _ _} _.
Arguments g_issued {_ _ _ _ _} _.
Arguments g_held {_ _ _ _ _} _.
Arguments g_lease {_ _ _ _ _} _.
Arguments g_store {_ _ _ _ _} _.
Arguments g_seen {_ _ _ _ _} _.
Arguments g_bound {_ _ _ _ _} _.
Arguments g_safe {_ _ _ _ _} _.
Arguments g_once {_ _ _ _ _} _.

(** One goroutine's state changes, possibly with a new goroutine that takes
    part of what it owned: every goroutine of the new world is the changed one,
    the new one, or an old one. *)
Lemma lookup_update (Ts : list tstate) t (T T' : tstate) n x :
  Ts !! t = Some T -> <[t := T']> Ts !! n = Some x -> (n = t /\ x = T') \/ (n <> t /\ Ts !! n = Some x).
Proof.
  intros Ht. destruct (decide (n = t)) as [->|Hne].
  - rewrite list_lookup_insert_eq by by eapply lookup_lt_Some. intros [= <-]. by left.
  - rewrite list_lookup_insert_ne by done. auto.
Qed.

(** A change that keeps the goroutine's possessions, or gives some up. *)
Lemma G_weaken st le iss tr Ts t T T' :
  G st le iss tr Ts -> Ts !! t = Some T ->
  tO T' = tO T -> tH T' ⊆ tH T -> (tS T' = tS T \/ tS T' = None) ->
  G st le iss tr (<[t := T']> Ts).
Proof.
  intros HG Ht HO HH HS.
  assert (forall n x, <[t := T']> Ts !! n = Some x -> exists y, Ts !! n = Some y /\ tO x = tO y /\ tH x ⊆ tH y /\
    (tS x = tS y \/ tS x = None)) as Hold.
  { intros n x [[-> ->]|[Hne Hn]]%(lookup_update _ _ _ _ _ _ Ht); eauto 10. }
  constructor; [| | | |apply HG| | |apply HG|apply HG].
  - intros t1 t2 T1 T2 id (y1 & H1 & E1 & _)%Hold (y2 & H2 & E2 & _)%Hold. rewrite E1, E2. by eapply HG.
  - intros n x id (y & Hy & E & _)%Hold. rewrite E. by eapply HG.
  - intros n x id (y & Hy & E & Hh & _)%Hold Hid. rewrite E. eapply HG; [done|set_solver].
  - intros n x id (y & Hy & E & Hh & _)%Hold Hid. eapply HG; [done|set_solver].
  - intros n x r0 (y & Hy & E & _ & Hs)%Hold Hr0.
    assert (tS y = Some r0) as Hy0 by (destruct Hs; congruence).
    destruct (g_seen HG _ _ _ Hy Hy0) as [Hi Hm]. split; [done|].
    destruct (st !! ID r0) as [[r|]|]; [done| |]; intros n' x' b (y' & Hy' & E' & _)%Hold; rewrite E'; by eapply Hm.
  - intros n x id b i (y & Hy & E & _)%Hold. rewrite E. by eapply HG.
Qed.

Lemma G_get st le iss tr Ts t O H S id r :
  G st le iss tr Ts -> Ts !! t = Some (mkT O H S) -> st !! id = Some (Some r) ->
  G st le iss tr (<[t := mkT O H (Some r)]> Ts).
Proof.
  intros HG Ht Hr.
  destruct (g_store HG _ _ Hr) as (r' & [= <-] & Hid & _ & Hrev & Hiss).
  assert (forall n x, <[t := mkT O H (Some r)]> Ts !! n = Some x -> exists y, Ts !! n = Some y /\ tO x = tO y /\ tH x = tH y /\
    (tS x = tS y \/ tS x = Some r)) as Hold.
  { intros n x [[-> ->]|[Hne Hn]]%(lookup_update _ _ _ _ _ _ Ht); eauto 10. }
  constructor; [| | | |apply HG| | |apply HG|apply HG].
  - intros t1 t2 T1 T2 id' (y1 & H1 & E1 & _)%Hold (y2 & H2 & E2 & _)%Hold. rewrite E1, E2. by eapply HG.
  - intros n x id' (y & Hy & E & _)%Hold. rewrite E. by eapply HG.
  - intros n x id' (y & Hy & E & Hh & _)%Hold Hid'. rewrite E. rewrite Hh in Hid'. by eapply HG.
  - intros n x id' (y & Hy & E & Hh & _)%Hold Hid'. rewrite Hh in Hid'. by eapply HG.
  - intros n x r0 (y & Hy & E & _ & Hs)%Hold Hr0. destruct Hs as [Hs|Hs].
    + rewrite Hs in Hr0. destruct (g_seen HG _ _ _ Hy Hr0) as [Hi Hm]. split; [done|].
      destruct (st !! ID r0) as [[r'|]|]; [done| |]; intros n' x' b (y' & Hy' & E' & _)%Hold; rewrite E'; by eapply Hm.
    + rewrite Hs in Hr0. injection Hr0 as <-. unfold seen_ok. rewrite Hid, Hr. split; [done|]. split; [lia|done].
  - intros n x id' b i (y & Hy & E & _)%Hold. rewrite E. by eapply HG.
Qed.

Lemma next_rev_small v : (0 <= v)%Z -> (v + 1 < 2 ^ 64)%Z -> next_rev v = (v + 1)%Z.
Proof. intros. unfold next_rev. rewrite Z.mod_small; lia. Qed.

Lemma may_put_rev st le iss tr Ts t O H S rec :
  G st le iss tr Ts -> Ts !! t = Some (mkT O H S) -> may_put cl vf O S rec -> (0 <= Rev rec)%Z.
Proof.
  intros HG Ht (_ & [->|(r0 & -> & _ & -> & _)] & _); [lia|].
  destruct (g_seen HG _ _ _ Ht eq_refl) as [[_ ?] _]. lia.
Qed.

(** A write that reached the disk. *)
Lemma G_put st le iss tr Ts t O H S rec :
  let rec' := set_rev (next_rev (Rev rec)) rec in
  G st le iss tr Ts -> Ts !! t = Some (mkT O H S) -> may_put cl vf O S rec ->
  (0 <= Rev rec)%Z -> (Rev rec + 1 < 2 ^ 64)%Z ->
  match st !! ID rec with
  | None => Rev rec = 0%Z
  | Some c => exists current, c = Some current /\ Rev rec = Rev current
  end ->
  G (<[ID rec := Some rec']> st) le iss tr (<[t := mkT O H None]> Ts).
Proof.
  cbn zeta. intros HG Ht (Hwf & Hbase & Hown) Hr0 Hr64 Hfree.
  set (rec' := set_rev (next_rev (Rev rec)) rec).
  assert (Rev rec' = (Rev rec + 1)%Z) as Hrev' by by apply next_rev_small.
  pose proof (G_weaken _ _ _ _ _ _ _ (mkT O H None) HG Ht eq_refl (reflexivity _) (or_intror eq_refl)) as HG'.
  assert (forall n x, <[t := mkT O H None]> Ts !! n = Some x -> forall r0, tS x = Some r0 -> Ts !! n = Some x) as Hs.
  { intros n x [[-> ->]|[Hne Hn]]%(lookup_update _ _ _ _ _ _ Ht) r0 Hr; [done|done]. }
  assert (is_Some (iss !! ID rec)) as Hiss.
  { destruct Hown as [(b & Hb & _)|(r0 & -> & Hid & _)].
    - eapply (g_issued HG); [exact Ht|]. apply elem_of_dom. eauto.
    - rewrite Hid. by destruct (g_seen HG _ _ _ Ht eq_refl) as [[? _] _]. }
  constructor; try apply HG'.
  - intros id c. destruct (decide (id = ID rec)) as [->|Hne].
    + rewrite lookup_insert_eq. intros [= <-]. exists rec'. split_and!; try done. lia.
    + rewrite lookup_insert_ne by done. apply HG.
  - intros n x s0 Hn Hs0. pose proof (Hs _ _ Hn _ Hs0) as Hn0.
    destruct (g_seen HG' _ _ _ Hn Hs0) as [Hi Hm]. split; [done|].
    destruct (decide (ID s0 = ID rec)) as [Heq|Hne]; [|by rewrite lookup_insert_ne].
    rewrite Heq, lookup_insert_eq. rewrite Heq in Hm.
    destruct (st !! ID rec) as [c|] eqn:Hst.
    + destruct Hfree as (cur & -> & Hcur). destruct Hm as [Hle _]. split; [lia|]. intros. lia.
    + exfalso. destruct Hown as [(b & Hb & _)|(r0 & _ & _ & _ & ? & _)]; [|lia].
      eapply (Hm t (mkT O H None)); [|exact Hb]. apply list_lookup_insert_eq. by eapply lookup_lt_Some.
  - intros id i Hst. destruct (g_safe HG _ _ Hst) as (Hi & cur & Hcur & Hsafe). split; [done|].
    destruct (decide (id = ID rec)) as [->|Hne]; [|rewrite lookup_insert_ne by done; eauto].
    rewrite lookup_insert_eq. exists rec'. split; [done|]. change (safe_at rec' i) with (safe_at rec i).
    rewrite Hcur in Hfree. destruct Hfree as (cur' & [= <-] & Hrevs).
    destruct Hown as [(b & Hb & Hall)|(r0 & -> & Hid & Hrr & _ & Hx)].
    + apply Hall. by eapply (g_bound HG).
    + destruct Hx as [Hx|Hx]; [|by left]. destruct (g_seen HG _ _ _ Ht eq_refl) as [_ Hm].
      rewrite <- Hid, Hcur in Hm. destruct Hm as [_ Hm]. rewrite <- (Hm ltac:(congruence)) in Hx.
      unfold safe_at, step_at in *. by rewrite Hx.
Qed.

(** What one goroutine and the new goroutine, if any, may say about a step that
    changes what the goroutine [t] owns and nothing else's. *)
Lemma started_other e tr id i :
  (forall id' i' b, e <> EDoStart id' i' b) -> started (e :: tr) id i <-> started tr id i.
Proof.
  intros He. unfold started. split; intros [Hin Hv]; (split; [|done]); [|by right].
  apply elem_of_cons in Hin as [<-|?]; [|done]. by destruct (He id i true).
Qed.

Lemma G_event st le iss tr Ts e :
  (forall id i b, e <> EDoStart id i b) -> G st le iss tr Ts -> G st le iss (e :: tr) Ts.
Proof.
  intros He HG. constructor; try apply HG.
  - intros t T id b i Ht Hb Hs%(proj1 (started_other _ _ _ _ He)). by eapply (g_bound HG).
  - intros id i Hs%(proj1 (started_other _ _ _ _ He)). by apply (g_safe HG).
  - destruct e as [id i b| | | | |]; try apply HG. by destruct (He id i b).
Qed.

Lemma G_delete st le iss tr Ts t O H S id st' :
  G st le iss tr Ts -> Ts !! t = Some (mkT O H S) -> O !! id = Some (Some 0%Z) ->
  st' = st \/ st' = delete id st ->
  G st' le iss tr (<[t := mkT (<[id := None]> O) H S]> Ts).
Proof.
  intros HG Ht HO Hst'. set (T' := mkT _ H S).
  assert (forall n x, <[t := T']> Ts !! n = Some x -> exists y, Ts !! n = Some y /\ dom (tO x) = dom (tO y) /\
    tH x = tH y /\ tS x = tS y /\ forall id' b, tO x !! id' = Some (Some b) -> id' <> id /\ tO y !! id' = Some (Some b)) as Hold.
  { intros n x [[-> ->]|[Hne Hn]]%(lookup_update _ _ _ _ _ _ Ht).
    - exists (mkT O H S). cbn. split_and!; try done.
      + rewrite dom_insert_L. apply (dom_owned O) in HO. set_solver.
      + intros id' b. destruct (decide (id' = id)) as [->|?]; by simplify_map_eq.
    - exists x. split_and!; try done. intros id' b Hb. split; [|done]. intros ->.
      apply Hne. apply (g_uniq HG n t x (mkT O H S) id Hn Ht); [by eapply dom_owned|]. by eapply (dom_owned O). }
  assert (forall i, ~ started tr id i) as Hno.
  { intros i Hs. pose proof (g_bound HG _ _ _ _ _ Ht HO Hs). destruct (g_safe HG _ _ Hs). lia. }
  assert (forall id' c, st' !! id' = Some c -> st !! id' = Some c) as Hsub.
  { intros id' c. destruct Hst' as [->| ->]; [done|]. rewrite lookup_delete_Some. by intros []. }
  constructor.
  - intros t1 t2 T1 T2 id' (y1 & H1 & E1 & _)%Hold (y2 & H2 & E2 & _)%Hold. rewrite E1, E2. by eapply HG.
  - intros n x id' (y & Hy & E & _)%Hold. rewrite E. by eapply HG.
  - intros n x id' (y & Hy & E & Hh & _)%Hold. rewrite E, Hh. by eapply HG.
  - intros n x id' (y & Hy & E & Hh & _)%Hold. rewrite Hh. by eapply HG.
  - intros id' c Hc%Hsub. by eapply HG.
  - intros n x r0 (y & Hy & _ & _ & Hs & _)%Hold Hr0. rewrite Hs in Hr0. destruct (g_seen HG _ _ _ Hy Hr0) as [Hi Hm]. split; [done|].
    destruct (decide (ID r0 = id)) as [Heq|Hne].
    + assert (forall n' x' b, <[t := T']> Ts !! n' = Some x' -> tO x' !! ID r0 <> Some (Some b)) as Hgone.
      { intros n' x' b Hb%Hold Hx'. destruct Hb as (y' & _ & _ & _ & _ & Hb). by destruct (Hb _ _ Hx'). }
      destruct Hst' as [->| ->].
      * destruct (st !! ID r0) as [[r'|]|]; [done| |]; intros; by eapply Hgone.
      * rewrite Heq, lookup_delete_eq, <- Heq. intros; by eapply Hgone.
    + assert (st' !! ID r0 = st !! ID r0) as -> by (destruct Hst' as [->| ->]; [done|by rewrite lookup_delete_ne]).
      destruct (st !! ID r0) as [[r'|]|]; [done| |]; intros n' x' b (y' & Hy' & _ & _ & _ & Hb)%Hold Hx';
        destruct (Hb _ _ Hx'); by eapply Hm.
  - intros n x id' b i (y & Hy & _ & _ & _ & Hb)%Hold Hx. destruct (Hb _ _ Hx). by eapply HG.
  - intros id' i Hs. destruct (g_safe HG _ _ Hs) as (Hi & r & Hr & Hsafe). split; [done|]. exists r. split; [|done].
    destruct Hst' as [->| ->]; [done|]. rewrite lookup_delete_ne; [done|]. intros ->. by eapply Hno.
  - apply HG.
Qed.

(** A change of the leases that keeps the lease of every other holder. *)
Lemma G_leases st le iss tr Ts t O H S H' le' :
  G st le iss tr Ts -> Ts !! t = Some (mkT O H S) -> H' ⊆ dom O ->
  (forall n x id, <[t := mkT O H' S]> Ts !! n = Some x -> id ∈ tH x -> cl id <> "" -> le' !! cl id = Some id) ->
  G st le' iss tr (<[t := mkT O H' S]> Ts).
Proof.
  intros HG Ht HH Hle.
  assert (forall n x, <[t := mkT O H' S]> Ts !! n = Some x -> exists y, Ts !! n = Some y /\ tO x = tO y /\
    tS x = tS y /\ (tH x = tH y \/ tH x ⊆ dom (tO x))) as Hold.
  { intros n x [[-> ->]|[Hne Hn]]%(lookup_update _ _ _ _ _ _ Ht); [exists (mkT O H S)|exists x]; cbn; auto. }
  constructor; try apply HG; [| | |exact Hle| |].
  - intros t1 t2 T1 T2 id' (y1 & H1 & E1 & _)%Hold (y2 & H2 & E2 & _)%Hold. rewrite E1, E2. by eapply HG.
  - intros n x id' (y & Hy & E & _)%Hold. rewrite E. by eapply HG.
  - intros n x id' (y & Hy & E & _ & [Hx|Hx])%Hold Hin; [|by apply Hx]. rewrite Hx in Hin. rewrite E. by eapply HG.
  - intros n x r0 (y & Hy & _ & Hs & _)%Hold Hr0. rewrite Hs in Hr0. destruct (g_seen HG _ _ _ Hy Hr0) as [Hi Hm]. split; [done|].
    destruct (st !! ID r0) as [[r'|]|]; [done| |]; intros n' x' b (y' & Hy' & Ho & _)%Hold; rewrite Ho; by eapply Hm.
  - intros n x id' b i (y & Hy & Ho & _)%Hold. rewrite Ho. by eapply HG.
Qed.

Lemma G_acquire st le iss tr Ts t O H S id le' :
  G st le iss tr Ts -> Ts !! t = Some (mkT O H S) -> id ∈ dom O ->
  acquire le (cl id) id = (le', Ok tt) ->
  G st le' iss tr (<[t := mkT O ({[id]} ∪ H) S]> Ts).
Proof.
  intros HG Ht Hid Hacq.
  assert (forall id', id' ∈ H -> id' ∈ dom O) as HH by (intros; by eapply (g_held HG _ (mkT O H S))).
  apply (G_leases _ le _ _ _ _ _ H); [done|done|set_solver|].
  assert (forall id', le !! cl id' = Some id' -> cl id' <> "" -> le' !! cl id' = Some id') as Hkeep.
  { intros id' Hl Hne. unfold acquire in Hacq. destruct (decide (cl id = "")) as [He|He].
    { rewrite bool_decide_eq_true_2 in Hacq by done. by injection Hacq as <-. }
    rewrite bool_decide_eq_false_2 in Hacq by done. destruct (decide (cl id' = cl id)) as [Heq|Hno].
    - rewrite Heq in Hl |- *. rewrite Hl in Hacq. destruct (decide (id' = id)) as [->|?].
      + rewrite bool_decide_eq_true_2 in Hacq by done. cbn in Hacq. injection Hacq as <-. by rewrite lookup_insert_eq.
      + by rewrite bool_decide_eq_false_2 in Hacq.
    - destruct (le !! cl id) as [h|]; [destruct (negb _)|]; try done; injection Hacq as <-; by rewrite lookup_insert_ne. }
  intros n x id' [[-> ->]|[Hne Hn]]%(lookup_update _ _ _ _ _ _ Ht) Hin Hc; cbn in Hin.
  - apply elem_of_union in Hin as [Heq%elem_of_singleton|Hin].
    + subst id'. unfold acquire in Hacq. rewrite bool_decide_eq_false_2 in Hacq by done.
      destruct (le !! cl id) as [h|]; [destruct (negb _)|]; try done; injection Hacq as <-; by rewrite lookup_insert_eq.
    + apply Hkeep; [|done]. by eapply (g_lease HG _ (mkT O H S)).
  - apply Hkeep; [|done]. by eapply (g_lease HG).
Qed.

Lemma G_release st le iss tr Ts t O H S id :
  G st le iss tr Ts -> Ts !! t = Some (mkT O H S) -> id ∈ dom O ->
  G st (release le (cl id) id) iss tr (<[t := mkT O (H ∖ {[id]}) S]> Ts).
Proof.
  intros HG Ht Hid.
  assert (forall id', id' ∈ H -> id' ∈ dom O) as HH by (intros; by eapply (g_held HG _ (mkT O H S))).
  apply (G_leases _ le _ _ _ _ _ H); [done|done|set_solver|].
  assert (forall id', id' <> id -> le !! cl id' = Some id' -> release le (cl id) id !! cl id' = Some id') as Hkeep.
  { intros id' Hne Hl. unfold release. destruct (decide (cl id = "")) as [He|He].
    { by rewrite bool_decide_eq_true_2. }
    rewrite bool_decide_eq_false_2 by done. destruct (decide (le !! cl id = Some id)) as [Hme|?];
      [rewrite bool_decide_eq_true_2 by done|by rewrite bool_decide_eq_false_2].
    rewrite lookup_delete_ne; [done|]. intros Heq. congruence. }
  intros n x id' [[-> ->]|[Hne Hn]]%(lookup_update _ _ _ _ _ _ Ht) Hin Hc; cbn in Hin; apply Hkeep.
  - set_solver.
  - eapply (g_lease HG _ (mkT O H S)); [done|cbn; set_solver|done].
  - intros ->. apply Hne. eapply (g_uniq HG); [exact Hn|exact Ht|by eapply (g_held HG)|done].
  - by eapply (g_lease HG).
Qed.

Lemma G_new_id st le iss tr Ts t O H S id v :
  G st le iss tr Ts -> Ts !! t = Some (mkT O H S) -> iss !! id = None ->
  G st le (<[id := v]> iss) tr (<[t := mkT (<[id := Some 0%Z]> O) H S]> Ts).
Proof.
  intros HG Ht Hfresh. set (T' := mkT _ H S).
  assert (forall id', is_Some (iss !! id') -> id' <> id /\ is_Some (<[id := v]> iss !! id')) as Hiss.
  { intros id' [y Hy]. split; [congruence|]. rewrite lookup_insert_ne; [by eexists|congruence]. }
  assert (forall n x, <[t := T']> Ts !! n = Some x -> exists y, Ts !! n = Some y /\ tH x = tH y /\ tS x = tS y /\
    dom (tO y) ⊆ dom (tO x) /\ (forall id', id' ∈ dom (tO x) -> (n = t /\ id' = id) \/ id' ∈ dom (tO y)) /\
    (forall id', id' <> id -> tO x !! id' = tO y !! id')) as Hold.
  { intros n x [[-> ->]|[Hne Hn]]%(lookup_update _ _ _ _ _ _ Ht).
    - exists (mkT O H S). cbn. split_and!; try done.
      + rewrite dom_insert_L. set_solver.
      + intros id'. rewrite dom_insert_L. set_solver.
      + intros id' Hne. by rewrite lookup_insert_ne.
    - exists x. split_and!; auto. }
  constructor.
  - intros t1 t2 T1 T2 id' (y1 & H1 & _ & _ & _ & E1 & _)%Hold (y2 & H2 & _ & _ & _ & E2 & _)%Hold
      [[-> ->]|Hd1]%E1 [[-> Hid]|Hd2]%E2; [done| | |by eapply HG].
    + pose proof (g_issued HG _ _ _ H2 Hd2) as Hi. by apply Hiss in Hi as [].
    + subst id'. pose proof (g_issued HG _ _ _ H1 Hd1) as Hi. by apply Hiss in Hi as [].
  - intros n x id' (y & Hy & _ & _ & _ & E & _)%Hold [[-> ->]|Hd]%E.
    + rewrite lookup_insert_eq. by eexists.
    + apply Hiss. by eapply HG.
  - intros n x id' (y & Hy & Hh & _ & Hsub & _)%Hold Hin. rewrite Hh in Hin. apply Hsub. by eapply HG.
  - intros n x id' (y & Hy & Hh & _)%Hold Hin. rewrite Hh in Hin. by eapply HG.
  - intros id' c Hc. destruct (g_store HG _ _ Hc) as (r & ? & ? & ? & ? & Hi). exists r. split_and!; try done. by apply Hiss.
  - intros n x r0 (y & Hy & _ & Hs & _)%Hold Hr0. rewrite Hs in Hr0. destruct (g_seen HG _ _ _ Hy Hr0) as [[Hi ?] Hm].
    destruct (Hiss _ Hi) as [Hne Hi']. split; [done|].
    destruct (st !! ID r0) as [[r'|]|]; [done| |]; intros n' x' b (y' & Hy' & _ & _ & _ & _ & Hsame)%Hold;
      rewrite Hsame by done; by eapply Hm.
  - intros n x id' b i (y & Hy & _ & _ & _ & _ & Hsame)%Hold Hb Hs.
    destruct (g_safe HG _ _ Hs) as (_ & r & Hr & _). destruct (g_store HG _ _ Hr) as (? & _ & _ & _ & _ & Hi).
    apply Hiss in Hi as [Hne _]. rewrite Hsame in Hb by done. by eapply HG.
  - apply HG.
  - apply HG.
Qed.

(** A step is started: its number is past every step of the job that was
    started before, and if the record says that it runs, [Resume] will not start
    it again. *)
Lemma G_start_do st le iss tr Ts t O H S id b i :
  G st le iss tr Ts -> Ts !! t = Some (mkT O H S) -> O !! id = Some (Some b) -> (b <= i)%Z -> (0 <= i)%Z ->
  G st le iss (EDoStart id i (recorded st id i) :: tr) (<[t := mkT (<[id := Some (i + 1)%Z]> O) H S]> Ts).
Proof.
  intros HG Ht HO Hb Hi. set (T' := mkT _ H S). set (e := EDoStart id i _).
  assert (forall n x, <[t := T']> Ts !! n = Some x -> exists y, Ts !! n = Some y /\ dom (tO x) = dom (tO y) /\
    tH x = tH y /\ tS x = tS y /\
    forall id' b', tO x !! id' = Some (Some b') -> exists b0, tO y !! id' = Some (Some b0) /\ (b0 <= b')%Z /\
      (id' = id -> (i < b')%Z)) as Hold.
  { intros n x [[-> ->]|[Hne Hn]]%(lookup_update _ _ _ _ _ _ Ht).
    - exists (mkT O H S). cbn. split_and!; try done.
      + rewrite dom_insert_L. apply (dom_owned O) in HO. set_solver.
      + intros id' b'. destruct (decide (id' = id)) as [->|?].
        * rewrite lookup_insert_eq. intros [= <-]. exists b. split_and!; [done|lia|lia].
        * rewrite lookup_insert_ne by done. intros Hb'. exists b'. split_and!; [done|lia|done].
    - exists x. split_and!; try done. intros id' b' Hb'. exists b'. split_and!; [done|lia|]. intros ->.
      destruct Hne. eapply (g_uniq HG); [exact Hn|exact Ht|by eapply dom_owned|]. by eapply (dom_owned O). }
  assert (forall id' i', started (e :: tr) id' i' ->
    started tr id' i' \/ (id' = id /\ i' = i /\ recorded st id i = true)) as Hst.
  { intros id' i' [[He|He]%elem_of_cons Hv]; [|by left]. injection He as -> -> He. by right. }
  constructor; try apply HG.
  - intros t1 t2 T1 T2 id' (y1 & H1 & E1 & _)%Hold (y2 & H2 & E2 & _)%Hold. rewrite E1, E2. by eapply HG.
  - intros n x id' (y & Hy & E & _)%Hold. rewrite E. by eapply HG.
  - intros n x id' (y & Hy & E & Hh & _)%Hold. rewrite E, Hh. by eapply HG.
  - intros n x id' (y & Hy & E & Hh & _)%Hold. rewrite Hh. by eapply HG.
  - intros n x r0 (y & Hy & _ & _ & Hs & _)%Hold Hr0. rewrite Hs in Hr0.
    destruct (g_seen HG _ _ _ Hy Hr0) as [His Hm]. split; [done|].
    destruct (st !! ID r0) as [[r'|]|]; [done| |]; intros n' x' b' (y' & Hy' & _ & _ & _ & Ho)%Hold Hx';
      destruct (Ho _ _ Hx') as (b0 & Hb0 & _); by eapply Hm.
  - intros n x id' b' i' (y & Hy & _ & _ & _ & Ho)%Hold Hx [Hs|(-> & -> & _)]%Hst;
      destruct (Ho _ _ Hx) as (b0 & Hb0 & Hle & Hlt).
    + pose proof (g_bound HG _ _ _ _ _ Hy Hb0 Hs). lia.
    + by apply Hlt.
  - intros id' i' [Hs|(-> & -> & Hrec)]%Hst; [by apply (g_safe HG)|]. split; [done|].
    unfold recorded, stored in Hrec. destruct (st !! id) as [[r|]|]; cbn in Hrec; try done.
    bools. destruct Hrec as [Hc Hr]. exists r. split; [done|]. right; right; right. split; [done|].
    destruct (step_at r i) as [s|]; [|done]. bools. eauto.
  - split; [|apply HG]. intros Hs. pose proof (g_bound HG _ _ _ _ _ Ht HO Hs). lia.
Qed.

Lemma lookup_snoc (Ts : list tstate) T n x :
  (Ts ++ [T]) !! n = Some x -> Ts !! n = Some x \/ (n = length Ts /\ x = T).
Proof.
  intros [Hn|[Hge Hn]]%lookup_app_Some; [by left|]. right.
  apply list_lookup_singleton_Some in Hn as [Hn <-]. split; [lia|done].
Qed.

(** A new goroutine takes part of what its parent owned. *)
Lemma G_spawn st le iss tr Ts t O1 O2 H1 H2 S :
  G st le iss tr Ts -> Ts !! t = Some (mkT (O1 ∪ O2) (H1 ∪ H2) S) -> O1 ##ₘ O2 -> H1 ## H2 ->
  H1 ⊆ dom O1 -> H2 ⊆ dom O2 ->
  G st le iss tr (<[t := mkT O2 H2 S]> Ts ++ [mkT O1 H1 None]).
Proof.
  intros HG Ht HO HH Hd1 Hd2.
  assert (t < length Ts) as Hlt by by eapply lookup_lt_Some.
  assert (forall n x, (<[t := mkT O2 H2 S]> Ts ++ [mkT O1 H1 None]) !! n = Some x ->
    exists m y, Ts !! m = Some y /\ tO x ⊆ tO y /\ tH x ⊆ tH y /\ (tS x = tS y \/ tS x = None) /\
      tH x ⊆ dom (tO x) /\
      ((n = m /\ (n <> t \/ tO x = O2)) \/ (n = length Ts /\ m = t /\ tO x = O1))) as Hold.
  { intros n x [[[-> ->]|[Hne Hn]]%(lookup_update _ _ _ _ _ _ Ht)|[-> ->]]%lookup_snoc.
    - exists t, (mkT (O1 ∪ O2) (H1 ∪ H2) S). cbn. split_and!; [done|by apply map_union_subseteq_r|set_solver|auto..].
    - exists n, x. split_and!; auto. intros id Hid. by eapply (g_held HG).
    - exists t, (mkT (O1 ∪ O2) (H1 ∪ H2) S). cbn. rewrite length_insert.
      split_and!; [done|by apply map_union_subseteq_l|set_solver|auto..]. }
  assert (forall (x y : tstate) id, tO x ⊆ tO y -> id ∈ dom (tO x) -> id ∈ dom (tO y)) as Hdom.
  { intros x y id Hsub Hid. apply subseteq_dom in Hsub. set_solver. }
  constructor; try apply HG.
  - intros t1 t2 T1 T2 id (m1 & y1 & Hy1 & Hs1 & _ & _ & _ & C1)%Hold (m2 & y2 & Hy2 & Hs2 & _ & _ & _ & C2)%Hold Hi1 Hi2.
    assert (m1 = m2) as Hm by (eapply (g_uniq HG); eauto).
    assert (forall id', id' ∈ dom O1 -> id' ∈ dom O2 -> False) as Hno.
    { intros id' Ha Hb. apply map_disjoint_dom in HO. set_solver. }
    destruct C1 as [(-> & C1)|(-> & -> & C1)], C2 as [(-> & C2)|(-> & Hm2 & C2)]; try done.
    + destruct C1 as [C1|C1]; [congruence|]. rewrite C1 in Hi1. rewrite C2 in Hi2. by destruct (Hno id).
    + destruct C2 as [C2|C2]; [congruence|]. rewrite C1 in Hi1. rewrite C2 in Hi2. by destruct (Hno id).
  - intros n x id (m & y & Hy & Hs & _)%Hold Hid. eapply (g_issued HG); eauto.
  - intros n x id (m & y & Hy & _ & _ & _ & Hd & _)%Hold Hid. by apply Hd.
  - intros n x id (m & y & Hy & _ & Hs & _)%Hold Hid. eapply (g_lease HG); [done|set_solver].
  - intros n x r0 (m & y & Hy & _ & _ & Hs & _)%Hold Hr0.
    assert (tS y = Some r0) as Hy0 by (destruct Hs; congruence).
    destruct (g_seen HG _ _ _ Hy Hy0) as [Hi Hm]. split; [done|].
    destruct (st !! ID r0) as [[r'|]|]; [done| |]; intros n' x' b (m' & y' & Hy' & Hs' & _)%Hold Hb;
      eapply (Hm _ _ _ Hy'); by eapply lookup_weaken.
  - intros n x id b i (m & y & Hy & Hs & _)%Hold Hb. eapply (g_bound HG); [done|]. by eapply lookup_weaken.
Qed.

(** A goroutine that owns nothing. *)
Lemma G_add st le iss tr Ts : G st le iss tr Ts -> G st le iss tr (Ts ++ [mkT ∅ ∅ None]).
Proof.
  intros HG. constructor; try apply HG.
  - intros t1 t2 T1 T2 id [H1|[-> ->]]%lookup_snoc [H2|[-> ->]]%lookup_snoc; cbn; try set_solver. by eapply HG.
  - intros t T id [H1|[-> ->]]%lookup_snoc; cbn; [by eapply HG|set_solver].
  - intros t T id [H1|[-> ->]]%lookup_snoc; cbn; [by eapply HG|set_solver].
  - intros t T id [H1|[-> ->]]%lookup_snoc; cbn; [by eapply HG|set_solver].
  - intros t T r0 [H1|[-> ->]]%lookup_snoc Hr0; cbn in *; [|done].
    destruct (g_seen HG _ _ _ H1 Hr0) as [Hi Hm]. split; [done|].
    destruct (st !! ID r0) as [[r'|]|]; [done| |]; intros n' x' b [H2|[-> ->]]%lookup_snoc; cbn; try done; by eapply Hm.
  - intros t T id b i [H1|[-> ->]]%lookup_snoc; cbn; [by eapply HG|done].
Qed.

(** The process ends: what is left is the disk and the past. *)
Lemma G_crash st le iss tr Ts : G st le iss tr Ts -> G st ∅ iss tr [].
Proof. intros HG. constructor; try apply HG; done. Qed.

(** After a restart [Resume] owns every job that is not over. *)
Definition resumable (r : Job) : bool := negb (Terminal (State r)) && negb (bool_decide (State r = JobParked)).

Definition resumed (st : gmap string (option Job)) : gmap string (option Z) :=
  omap (fun c : option Job => r ← c; if resumable r then Some (Some (bound r)) else None) st.

Lemma resumed_Some st id b :
  resumed st !! id = Some b <->
  exists r, st !! id = Some (Some r) /\ resumable r = true /\ b = Some (bound r).
Proof.
  unfold resumed. rewrite lookup_omap. split.
  - destruct (st !! id) as [[r|]|] eqn:E; cbn; [|done|done]. destruct (resumable r) eqn:Hr; [|done].
    intros [= <-]. eauto.
  - intros (r & -> & Hr & ->). cbn. by rewrite Hr.
Qed.

(** A step that may not be started again is below the bound. *)
Lemma safe_below_bound r i :
  safe_at r i -> resumable r = true -> (0 <= i)%Z -> flags r !! Z.to_nat i = Some false -> (i < bound r)%Z.
Proof.
  intros Hs Hr Hi Hv. unfold resumable in Hr. bools. destruct Hr as [Ht Hp]. unfold bound.
  destruct Hs as [?|[?|[Hlt|(-> & s & Hs & Hst)]]]; [congruence|done| |].
  - destruct (step_at r (Current r)); [case_match|]; lia.
  - rewrite Hs. unfold step_at in Hs. case_bool_decide; [done|].
    unfold flags in Hv. rewrite list_lookup_fmap, Hs in Hv. injection Hv as ->. cbn.
    destruct Hst as [->| ->]; rewrite ?(bool_decide_eq_true_2 _ eq_refl), ?orb_true_r; cbn; try lia.
Qed.

Lemma G_resume st le iss tr : G st le iss tr [] -> G st le iss tr [mkT (resumed st) ∅ None].
Proof.
  intros HG.
  assert (forall n x, [mkT (resumed st) ∅ None] !! n = Some x -> n = 0 /\ x = mkT (resumed st) ∅ None) as Hx.
  { intros n x Hn. apply list_lookup_singleton_Some in Hn as [-> <-]. done. }
  constructor; try apply HG.
  - by intros t1 t2 T1 T2 id [-> ->]%Hx [-> ->]%Hx.
  - intros t T id [-> ->]%Hx [b (r & Hr & _)%resumed_Some]%elem_of_dom.
    by destruct (g_store HG _ _ Hr) as (? & _ & _ & _ & _ & ?).
  - intros t T id [-> ->]%Hx. cbn. set_solver.
  - intros t T id [-> ->]%Hx. cbn. set_solver.
  - by intros t T r0 [-> ->]%Hx.
  - intros t T id b i [-> ->]%Hx (r & Hr & Ha & [= ->])%resumed_Some Hs.
    destruct (g_safe HG _ _ Hs) as (Hi & r' & Hr' & Hsafe). rewrite Hr in Hr'. injection Hr' as <-.
    destruct (g_store HG _ _ Hr) as (r' & [= <-] & Hid & [_ Hf] & _). apply safe_below_bound; try done.
    rewrite Hf, Hid. apply Hs.
Qed.

(** What each goroutine may still do, given what it owns. *)
Definition runs (T : tstate) (p : prog) : Prop := okp cl vf (tO T) (tH T) (tS T) p.

Definition ghost_ok (iss : gmap string (string * list bool)) : Prop :=
  forall id c fl, iss !! id = Some (c, fl) -> cl id = c /\ vf id = fl.

(** One operation of a goroutine keeps the invariant, and the goroutine goes on
    within what it owns then. *)
Lemma G_step c w p w' p' sp Ts t T :
  step_prog c w p = Some (w', p', sp) -> ghost_ok (issued w') ->
  G (store w) (leases w) (issued w) (trace w) Ts -> Ts !! t = Some T -> runs T p ->
  exists T' Tn, G (store w') (leases w') (issued w') (trace w') (<[t := T']> Ts ++ Tn) /\ runs T' p' /\ Forall2 runs Tn sp.
Proof.
  destruct T as [O H S]. unfold runs. cbn [tO tH tS]. intros Hst Hgh HG Ht Hp.
  assert (forall w1 p1, Some (w1, p1, []) = Some (w', p', sp) -> forall T',
    G (store w1) (leases w1) (issued w1) (trace w1) (<[t := T']> Ts) -> runs T' p1 ->
    exists T' Tn, G (store w') (leases w') (issued w') (trace w') (<[t := T']> Ts ++ Tn) /\ runs T' p' /\ Forall2 runs Tn sp)
    as Hone.
  { intros w1 p1 [= -> -> <-] T' HG' Hr. exists T', []. rewrite app_nil_r. by split_and!. }
  assert (forall S', S' = S \/ S' = None ->
    G (store w) (leases w) (issued w) (trace w) (<[t := mkT O H S']> Ts)) as Hsame.
  { intros S' HS'. by eapply G_weaken. }
  assert (forall p1, Some (w, p1, []) = Some (w', p', sp) -> okp cl vf O H S p1 ->
    exists T' Tn, G (store w') (leases w') (issued w') (trace w') (<[t := T']> Ts ++ Tn) /\ runs T' p' /\ Forall2 runs Tn sp)
    as Hstay.
  { intros p1 He Hr. by apply (Hone _ _ He (mkT O H S)); [apply Hsame; left|]. }
  destruct p; cbn [step_prog] in Hst; cbn [okp] in Hp; try done.
  - destruct Hp as [Hok Herr]. destruct (store_get (c_fault c) (store w) id) as [r|e] eqn:E.
    + apply store_get_ok_inv in E. destruct (g_store HG _ _ E) as (r' & [= <-] & Hid & Hw & Hrev & _).
      apply (Hone _ _ Hst (mkT O H (Some r))); [by eapply G_get|by apply Hok].
    + by eapply Hstay.
  - destruct Hp as (Hmay & Hok & Herr). case_bool_decide as H64; [|done].
    assert (0 <= Rev rec)%Z as Hr0 by by eapply may_put_rev.
    pose proof (store_put_inv (c_fault c) (store w) rec) as Hput. cbn in Hput.
    destruct Hput as [[e He]|[Hfree Hput]].
    + rewrite He in Hst. replace (w_store (store w) w) with w in Hst by by destruct w.
      apply (Hone _ _ Hst (mkT O H None)); [apply Hsame; by right|by apply Herr].
    + pose proof (G_put _ _ _ _ _ _ _ _ _ _ HG Ht Hmay Hr0 H64 Hfree) as HG'. cbn zeta in HG'.
      destruct Hput as [Hput|[Hput _]]; rewrite Hput in Hst; apply (Hone _ _ Hst (mkT O H None)); try exact HG'; [|by apply Herr].
      apply Hok; try done; [by apply Hmay|]. cbn. rewrite next_rev_small by done. lia.
  - destruct Hp as [HO Hk]. apply (Hone _ _ Hst (mkT (<[id := None]> O) H S)); [|exact Hk].
    eapply G_delete; [exact HG|exact Ht|exact HO|]. unfold store_delete. cbn.
    destruct (safeKey id), (c_fault c), (store w !! id) as [?|]; cbn; auto.
  - destruct Hp as (Hid & -> & Herr & Hok). destruct (acquire (leases w) (cl id) id) as [l r] eqn:Ha.
    destruct r as [[]|e].
    + apply (Hone _ _ Hst (mkT O ({[id]} ∪ H) S)); [|exact Hok]. by eapply G_acquire.
    + assert (l = leases w) as -> by (unfold acquire in Ha; repeat case_match; by simplify_eq).
      apply (Hone _ _ Hst (mkT O H S)); [|apply Herr]. apply Hsame. by left.
  - destruct Hp as (Hid & -> & Hk). apply (Hone _ _ Hst (mkT O (H ∖ {[id]}) S)); [|exact Hk]. by eapply G_release.
  - destruct (closed w); apply (Hone _ _ Hst (mkT O H S)); try apply Hp; cbn; apply Hsame; by left.
  - apply (Hone _ _ Hst (mkT O H S)); [|exact Hp]. cbn. apply Hsame; by left.
  - apply (Hone _ _ Hst (mkT O H S)); [|exact Hp]. case_bool_decide; cbn; apply Hsame; by left.
  - by eapply Hstay.
  - by eapply Hstay.
  - by eapply Hstay.
  - by eapply Hstay.
  - destruct Hp as [Hn Hk]. destruct (c_id c) as [id|]; [|by eapply Hstay].
    destruct (safeKey id); [|done]. case_bool_decide as Hfresh; [|done].
    assert (issued w' = <[id := (cluster, verifiable)]> (issued w)) as Hiss by by injection Hst as <- _ _.
    apply (Hone _ _ Hst (mkT (<[id := Some 0%Z]> O) H S)); [by apply G_new_id|].
    destruct (Hgh id cluster verifiable) as [? ?]; [rewrite Hiss; by simplify_map_eq|]. by apply Hk.
  - destruct Hp as ((b & HO & Hb) & Hi & Hc & HH & Hk).
    apply (Hone _ _ Hst (mkT (<[ID j := Some (i + 1)%Z]> O) H S)); [by eapply G_start_do|]. by split_and!.
  - destruct Hp as (Hc & HH & Hk). apply (Hone _ _ Hst (mkT O H S)); [|by apply Hk].
    apply G_event; [done|]. apply Hsame. by left.
  - by eapply Hstay.
  - apply (Hone _ _ Hst (mkT O H S)); [|exact Hp]. apply G_event; [done|]. apply Hsame. by left.
  - apply (Hone _ _ Hst (mkT O H S)); [|exact Hp]. apply G_event; [done|]. apply Hsame. by left.
  - destruct Hp as (O1 & O2 & H1 & H2 & -> & HO & -> & Hd1 & Hd2 & Hc & Hk). injection Hst as <- <- <-.
    exists (mkT O2 H2 S), [mkT O1 H1 None]. split_and!; [|exact Hk|by constructor].
    eapply G_spawn; [exact HG|exact Ht|done|set_solver|done|].
    intros id Hid. assert (id ∈ dom (O1 ∪ O2)) as Hin.
    { apply (g_held HG _ _ id Ht). cbn. set_solver. }
    rewrite dom_union_L in Hin. set_solver.
  - apply (Hone _ _ Hst (mkT O H S)); [|exact Hp]. apply G_event; [done|]. apply Hsame. by left.
Qed.

(** The invariant: the goroutines own their parts of the world, or the process
    has just been started and [Resume] has not looked at the disk yet. *)
Definition inv builders (w : World) : Prop :=
  exists Ts, G (store w) (leases w) (issued w) (trace w) Ts /\
    (Forall2 runs Ts (threads w) \/ (Ts = [] /\ threads w = [Resume builders] /\ serving w = false)).

Lemma inv_initial builders : inv builders (initial builders).
Proof.
  exists []. split; [|by right]. constructor; try done.
  intros id i [Hin _]. by apply elem_of_nil in Hin.
Qed.

Lemma inv_add builders w p w' : okp cl vf ∅ ∅ None p -> inv builders w -> add_thread p w = Some w' -> inv builders w'.
Proof.
  intros Hp (Ts & HG & Hr) Ha. unfold add_thread in Ha. destruct (serving w) eqn:Hs; [|done].
  injection Ha as <-. destruct Hr as [Hr|(_ & _ & ?)]; [|congruence].
  exists (Ts ++ [mkT ∅ ∅ None]). split; [by apply G_add|]. left. apply Forall2_app; [done|]. by constructor.
Qed.

(** [Resume] from the listing on. *)
Lemma inv_resume builders c w w' p' sp :
  G (store w) (leases w) (issued w) (trace w) [] -> step_prog c w (Resume builders) = Some (w', p', sp) ->
  w' = w /\ sp = [] /\ runs (mkT (resumed (store w)) ∅ None) p'.
Proof.
  intros HG Hst. unfold Resume in Hst. cbn [step_prog] in Hst. injection Hst as <- <- <-. split_and!; [done..|].
  unfold runs. destruct (store_list (c_fault c) (store w)) as [all|e] eqn:E; [|done]. cbn [tO tH tS].
  apply store_list_ok in E as [Hnd Hall].
  2:{ intros id r Hr. by destruct (g_store HG _ _ Hr) as (? & [= <-] & ? & _). }
  apply okp_resume_all; [exact Hnd| |].
  - apply Forall_forall. intros r Hr%Hall. by destruct (g_store HG _ _ Hr) as (? & [= <-] & ? & ? & _).
  - intros r Hr%Hall Ht Hp. apply resumed_Some. exists r. split_and!; [done| |done]. unfold resumable.
    rewrite Ht, bool_decide_eq_false_2; done.
Qed.

Lemma inv_exec builders w l w' :
  ghost_ok (issued w') -> inv builders w -> exec builders w l = Some w' -> inv builders w'.
Proof.
  intros Hgh Hinv He. destruct l; cbn [exec] in He.
  - destruct (threads w !! tid) as [p|] eqn:Hp; [|done].
    destruct (step_prog c w p) as [[[w1 p'] sp]|] eqn:Hst; [|done]. injection He as <-.
    destruct Hinv as (Ts & HG & [Hr|(-> & Hthr & Hser)]).
    + destruct (Forall2_lookup_r _ _ _ _ _ Hr Hp) as (T & HT & HTp).
      destruct (G_step _ _ _ _ _ _ _ _ _ Hst Hgh HG HT HTp) as (T' & Tn & HG' & Hr' & Hn).
      exists (<[tid := T']> Ts ++ Tn). split; [exact HG'|]. left. cbn. apply Forall2_app; [|done].
      by apply Forall2_insert.
    + rewrite Hthr in Hp. apply list_lookup_singleton_Some in Hp as [-> <-].
      destruct (inv_resume _ _ _ _ _ _ HG Hst) as (-> & -> & Hr). cbn. rewrite Hthr.
      exists [mkT (resumed (store w)) ∅ None]. split; [by apply G_resume|]. left. cbn. by constructor.
  - by eapply inv_add; [apply okp_Submit| |].
  - by eapply inv_add; [apply okp_Cancel| |].
  - by eapply inv_add; [apply okp_GetJob| |].
  - injection He as <-. exact Hinv.
  - destruct (threads w) as [|[] ?] eqn:Hthr; try done. injection He as <-.
    destruct Hinv as (Ts & HG & [Hr|(-> & Ht & Hser)]).
    + exists Ts. split; [exact HG|]. left. cbn. by rewrite <- Hthr.
    + by rewrite Hthr in Ht.
  - injection He as <-. destruct Hinv as (Ts & HG & _). exists []. split; [by eapply G_crash|by right].
Qed.

(** A record that asks for a cancel keeps asking for it, whatever is written. *)
Lemma G_put_cancel st le iss tr Ts t O H S rec r :
  G st le iss tr Ts -> Ts !! t = Some (mkT O H S) -> may_put cl vf O S rec ->
  st !! ID rec = Some (Some r) -> Rev rec = Rev r -> CancelRequested r = true -> CancelRequested rec = true.
Proof.
  intros HG Ht (_ & Hbase & _) Hr Hrev Hc.
  destruct (g_store HG _ _ Hr) as (? & [= <-] & _ & _ & Hr1 & _).
  destruct Hbase as [?|(r0 & -> & Hid & Hr0 & Hkeep)]; [lia|].
  destruct (g_seen HG _ _ _ Ht eq_refl) as [_ Hm]. rewrite <- Hid, Hr in Hm. destruct Hm as [_ Hm].
  apply Hkeep. by rewrite <- Hm by congruence.
Qed.

End Invariant.

Arguments g_uniq {_ _ _ _ _ _ _} _.
Arguments g_issued {_ _ _ _ _ _ _} _.
Arguments g_held {_ _ _ _ _ _ _} _.
Arguments g_lease {_ _ _ _ _ _ _} _.
Arguments g_store {_ _ _ _ _ _ _} _.
Arguments g_seen {_ _ _ _ _ _ _} _.
Arguments g_bound {_ _ _ _ _ _ _} _.
Arguments g_safe {_ _ _ _ _ _ _} _.
Arguments g_once {_ _ _ _ _ _ _} _.

(* ------------------------------------------------------------------ *)
(** ** Reachable worlds *)

Section Reachable.
Context (builders : string -> option (Job -> result engine_error (list StepDef))).

Lemma step_prog_issued c w p w' p' sp : step_prog c w p = Some (w', p', sp) -> issued w ⊆ issued w'.
Proof.
  intros Hst. destruct p; cbn [step_prog] in Hst; repeat case_match; simplify_eq; try reflexivity.
  match goal with H : _ && _ = true |- _ => rename H into Hb end. bools.
  destruct Hb as [_ Hb]. cbn. by apply insert_subseteq.
Qed.

Lemma exec_issued w l w' : exec builders w l = Some w' -> issued w ⊆ issued w'.
Proof.
  intros He. destruct l; cbn [exec] in He; unfold add_thread in He; repeat case_match; simplify_eq; try reflexivity.
  cbn. by eapply step_prog_issued.
Qed.

Lemma reachable_inv cl vf w : reachable builders w -> ghost_ok cl vf (issued w) -> inv cl vf builders w.
Proof.
  induction 1 as [|w l w' Hr IH He]; intros Hgh; [by apply inv_initial|].
  eapply inv_exec; [exact Hgh| |exact He]. apply IH. intros id c fl Hid. apply Hgh.
  eapply lookup_weaken; [exact Hid|]. by eapply exec_issued.
Qed.

Definition drawn_cluster (w : World) (id : string) : string := default "" (fst <$> issued w !! id).
Definition drawn_flags (w : World) (id : string) : list bool := default [] (snd <$> issued w !! id).

Lemma reachable_drawn w : reachable builders w -> inv (drawn_cluster w) (drawn_flags w) builders w.
Proof.
  intros Hr. apply reachable_inv; [done|]. intros id c fl Hid. unfold drawn_cluster, drawn_flags. by rewrite Hid.
Qed.

(** C1: one mutating job per cluster. In every reachable world, through every
    interleaving, crash and restart, two goroutines inside a step's side effect
    never belong to the same cluster, and never to the same job; and the cluster
    a goroutine works on is leased to its job. *)
Theorem cluster_exclusive w t1 t2 j1 j2 i1 i2 k1 k2 :
  reachable builders w ->
  threads w !! t1 = Some (InDo j1 i1 k1) -> threads w !! t2 = Some (InDo j2 i2 k2) ->
  (Cluster j1 = Cluster j2 /\ Cluster j1 <> "") \/ ID j1 = ID j2 ->
  t1 = t2 /\ (Cluster j1 <> "" -> leases w !! Cluster j1 = Some (ID j1)).
Proof.
  intros Hr H1 H2 Hsame. destruct (reachable_drawn w Hr) as (Ts & HG & [Hall|(_ & Hthr & _)]).
  2:{ rewrite Hthr in H1. by apply list_lookup_singleton_Some in H1 as []. }
  destruct (Forall2_lookup_r _ _ _ _ _ Hall H1) as (T1 & HT1 & Hc1 & Hh1 & _).
  destruct (Forall2_lookup_r _ _ _ _ _ Hall H2) as (T2 & HT2 & Hc2 & Hh2 & _).
  assert (Cluster j1 <> "" -> leases w !! Cluster j1 = Some (ID j1)) as Hl1.
  { rewrite Hc1. intros Hne. exact (g_lease HG _ _ _ HT1 Hh1 Hne). }
  assert (Cluster j2 <> "" -> leases w !! Cluster j2 = Some (ID j2)) as Hl2.
  { rewrite Hc2. intros Hne. exact (g_lease HG _ _ _ HT2 Hh2 Hne). }
  split; [|done]. assert (ID j1 = ID j2) as Hid.
  { destruct Hsame as [[Heq Hne]|?]; [|done]. specialize (Hl1 Hne). rewrite Heq in *. specialize (Hl2 Hne). congruence. }
  apply (g_uniq HG _ _ _ _ (ID j1) HT1 HT2); [exact (g_held HG _ _ _ HT1 Hh1)|].
  rewrite Hid. exact (g_held HG _ _ _ HT2 Hh2).
Qed.

Lemma once_split vf tr1 id i b tr2 :
  once vf (tr1 ++ EDoStart id i b :: tr2) -> ~ started vf tr2 id i.
Proof. induction tr1 as [|e tr1 IH]; [by intros []|]. destruct e; cbn; try done. intros []. auto. Qed.

(** C2: a step that cannot be checked after the fact is started at most once.
    Once the step's side effect was started with the record on disk saying that
    the step runs, no goroutine of this process or of any later one starts it
    again, whatever is cancelled, crashes or fails in between. *)
Theorem unverifiable_step_once w id i b tr1 tr2 r s :
  reachable builders w ->
  stored (store w) id = Some r -> step_at r i = Some s -> StVerifiable s = false ->
  trace w = tr1 ++ EDoStart id i b :: tr2 ->
  EDoStart id i true ∉ tr2.
Proof.
  intros Hr Hst Hs Hv Htr Hin. destruct (reachable_drawn w Hr) as (Ts & HG & _).
  unfold stored in Hst. destruct (store w !! id) as [[r'|]|] eqn:E; try done. injection Hst as ->.
  destruct (g_store HG _ _ E) as (r' & [= <-] & Hid & [_ Hf] & _).
  pose proof (g_once HG) as Ho. rewrite Htr in Ho. apply once_split in Ho. apply Ho. split; [done|].
  rewrite <- Hid, <- Hf. unfold flags. rewrite list_lookup_fmap. unfold step_at in Hs.
  case_bool_decide; [done|]. rewrite Hs. cbn. by rewrite Hv.
Qed.

(** C3: a cancel request is never lost. A record on disk that asks for a cancel
    still asks for it after any one operation of any goroutine, a crash
    included, as long as the record is there: the engine's own writes, made from
    records read before the request, cannot overwrite it. *)
Theorem cancel_request_kept w l w' id r :
  reachable builders w -> exec builders w l = Some w' ->
  store w !! id = Some (Some r) -> CancelRequested r = true ->
  store w' !! id = None \/ exists r', store w' !! id = Some (Some r') /\ CancelRequested r' = true.
Proof.
  intros Hr He Hst Hc.
  assert (store w' = store w -> store w' !! id = None \/
    exists r', store w' !! id = Some (Some r') /\ CancelRequested r' = true) as Hsame.
  { intros ->. right. eauto. }
  destruct l; cbn [exec] in He; unfold add_thread in He; try (repeat case_match; simplify_eq; by apply Hsame).
  destruct (threads w !! tid) as [p|] eqn:Hp; [|done].
  destruct (step_prog c w p) as [[[w1 p'] sp]|] eqn:Hs; [|done]. injection He as <-. cbn in *.
  destruct (reachable_drawn w Hr) as (Ts & HG & Hall).
  destruct p; cbn [step_prog] in Hs; try (repeat case_match; simplify_eq; by apply Hsame).
  - case_bool_decide as H64; [|done]. destruct Hall as [Hall|(_ & Hthr & _)].
    2:{ rewrite Hthr in Hp. by apply list_lookup_singleton_Some in Hp as []. }
    destruct (Forall2_lookup_r _ _ _ _ _ Hall Hp) as ([O H S] & HT & Hmay & _). cbn in Hmay.
    pose proof (store_put_inv (c_fault c) (store w) rec) as Hput. cbn in Hput.
    destruct Hput as [[e He]|[Hfree Hput]]; [rewrite He in Hs; simplify_eq; by apply Hsame|].
    assert (store w1 = <[ID rec := Some (set_rev (next_rev (Rev rec)) rec)]> (store w)) as ->.
    { destruct Hput as [Hput|[Hput _]]; rewrite Hput in Hs; by simplify_eq. }
    right. destruct (decide (id = ID rec)) as [->|Hne]; [|rewrite lookup_insert_ne by done; eauto].
    rewrite lookup_insert_eq. eexists. split; [done|]. cbn.
    rewrite Hst in Hfree. destruct Hfree as (cur & [= <-] & Hrev). by eapply G_put_cancel.
  - injection Hs as <- _ _. cbn. unfold store_delete.
    assert (forall i, delete i (store w) !! id = None \/
      exists r', delete i (store w) !! id = Some (Some r') /\ CancelRequested r' = true) as Hdel.
    { intros i. destruct (decide (i = id)) as [->|?]; [left; apply lookup_delete_eq|right].
      rewrite lookup_delete_ne by done. eauto. }
    repeat case_match; cbn; eauto.
Qed.

End Reachable.
