(* ===== verification/JobsRuns.v ===== *)
(** * Runs of the job engine

    What the engine does when nothing interferes, and a few runs where something
    does: a goroutine alone executes every step of its job once, in order, and
    closes the record; and closed runs of the whole world that show two corners
    of the code. *)

From S2P Require Import Prelude RecordStore Jobs JobsSafety.

(** A goroutine alone, with the same choices at every operation. *)
Fixpoint solo (n : nat) (c : choice) (w : World) (p : prog) : World * prog :=
  match n with
  | O => (w, p)
  | S n' => match step_prog c w p with
            | Some (w', p', _) => solo n' c w' p'
            | None => (w, p)
            end
  end.

(** The side effects that were started, newest first, with whether the record
    said so. *)
Definition starts (tr : list event) : list (string * Z * bool) :=
  omap (fun e => match e with EDoStart id i b => Some (id, i, b) | _ => None end) tr.

Section Solo.
Context (c : choice) (Hnofault : c_fault c = NoFault) (Hdo : c_do c = DoOk).

(** Alone, the goroutine comes to its end, in a world where [Q] holds. *)
Definition goes (w : World) (p : prog) (Q : World -> Prop) : Prop :=
  exists n w', solo n c w p = (w', Return) /\ Q w'.

Lemma goes_end w Q : Q w -> goes w Return Q.
Proof. by exists 0, w. Qed.

Lemma goes_step w p w1 p1 sp Q :
  step_prog c w p = Some (w1, p1, sp) -> goes w1 p1 Q -> goes w p Q.
Proof. intros Hs (n & w' & Hn & HQ). exists (S n), w'. cbn. by rewrite Hs. Qed.

(** What a job's own operations leave alone, and what they add to the trace. *)
Record quiet (id : string) (w w' : World) (new : list (string * Z * bool)) : Prop := mkQuiet {
  q_closed : closed w' = closed w;
  q_cancelled : cancelled w' = cancelled w;
  q_leases : leases w' = leases w;
  q_others : forall id', id' <> id -> store w' !! id' = store w !! id';
  q_starts : starts (trace w') = new ++ starts (trace w)
}.

Lemma quiet_refl id w : quiet id w w [].
Proof. by constructor. Qed.

Lemma quiet_trans id w1 w2 w3 n1 n2 : quiet id w1 w2 n1 -> quiet id w2 w3 n2 -> quiet id w1 w3 (n2 ++ n1).
Proof.
  intros [A1 A2 A3 A4 A5] [B1 B2 B3 B4 B5]. constructor; try congruence.
  - intros id' Hne. by rewrite B4, A4.
  - by rewrite B5, A5, app_assoc.
Qed.

(** The record on disk is the one in hand. *)
Definition at_rest (w : World) (j : Job) : Prop :=
  store w !! ID j = Some (Some j) /\ safeKey (ID j) = true /\ (0 <= Rev j)%Z.

Definition saved (j j' : Job) : Job := set_rev (Rev j + 1) (set_exec (fun _ => JExec j') j).

Lemma saved_exec j f : saved j (set_exec f j) = set_rev (Rev j + 1) (set_exec f j).
Proof. done. Qed.

(** [save] of a change to the engine's own fields: two operations. *)
Lemma goes_save w j f k Q :
  at_rest w j -> (Rev j + 1 < 2 ^ 64)%Z ->
  (forall w1, at_rest w1 (saved j (set_exec f j)) -> quiet (ID j) w w1 [] ->
     goes w1 (k (saved j (set_exec f j))) Q) ->
  goes w (save (set_exec f j) k) Q.
Proof.
  intros (Hst & Hsafe & Hrev) H64 Hk. set (j' := saved j (set_exec f j)) in *.
  set (w1 := w_store (<[ID j := Some j']> (store w)) w).
  eapply (goes_step _ _ w).
  { cbn. rewrite Hnofault. unfold store_get. rewrite Hsafe, Hst. cbn. reflexivity. }
  eapply (goes_step _ _ w1 (k j')).
  { cbn [step_prog]. rewrite bool_decide_eq_true_2 by done. rewrite Hnofault. unfold store_put. cbn.
    rewrite Hsafe, Hst. cbn. rewrite bool_decide_eq_true_2 by done. cbn.
    unfold next_rev. rewrite Z.mod_small by lia. reflexivity. }
  apply Hk.
  - split_and!; [apply lookup_insert_eq|done|cbn; lia].
  - constructor; try done. intros id' Hne. cbn. by rewrite lookup_insert_ne.
Qed.

Lemma goes_publish w j step st d k Q :
  (forall w1, store w1 = store w -> quiet (ID j) w w1 [] -> goes w1 k Q) ->
  goes w (publish j step st d k) Q.
Proof.
  intros Hk. eapply goes_step; [done|]. eapply goes_step; [done|]. by apply Hk.
Qed.

(** Every step before [i] is done. *)
Definition done_before (j : Job) (i : nat) : Prop :=
  forall n s, n < i -> Steps j !! n = Some s -> StState s = StepDone.

(** The side effects of the steps [i], [i+1], ... of a job, newest first. *)
Fixpoint effects (id : string) (i n : nat) : list (string * Z * bool) :=
  match n with
  | O => []
  | S n' => effects id (S i) n' ++ [(id, Z.of_nat i, true)]
  end.

Definition settled (j j' : Job) : Prop :=
  ID j' = ID j /\ Cluster j' = Cluster j /\ CancelRequested j' = CancelRequested j /\ length (Steps j') = length (Steps j).

Lemma goes_not_cancelled w j k Q :
  at_rest w j -> closed w = false -> ID j ∉ cancelled w -> CancelRequested j = false ->
  goes w (k None) Q -> goes w (cancelRequested j k) Q.
Proof.
  intros (Hst & Hsafe & _) Hc Hn Hr Hk. eapply goes_step; [done|]. cbn beta.
  rewrite Hc, bool_decide_eq_false_2 by done. cbn [orb].
  eapply (goes_step _ _ w); [|exact Hk]. cbn. rewrite Hnofault. unfold store_get. rewrite Hsafe, Hst. cbn.
  rewrite Hr. reflexivity.
Qed.

(** One turn of [run]'s loop. *)
Lemma goes_turn w j total s rest (i : nat) k Q :
  at_rest w j -> closed w = false -> ID j ∉ cancelled w -> CancelRequested j = false ->
  done_before j i -> i < length (Steps j) -> (Rev j + 2 < 2 ^ 64)%Z ->
  (forall w1 j', at_rest w1 j' -> settled j j' -> done_before j' (S i) -> Rev j' = (Rev j + 2)%Z ->
     quiet (ID j) w w1 [(ID j, Z.of_nat i, true)] ->
     goes w1 (run_loop total rest (Z.of_nat (S i)) j' k) Q) ->
  goes w (run_loop total (s :: rest) (Z.of_nat i) j k) Q.
Proof.
  intros Hrest Hc Hn Hr Hdone Hi Hrev Hk. cbn [run_loop]. apply goes_not_cancelled; try done.
  eapply goes_step; [done|]. cbn beta. rewrite Hc. cbn [andb].
  eapply goes_step; [done|]. cbn beta zeta.
  set (f1 := on_step (Z.of_nat i) _ ∘ _). apply goes_save; [done|lia|]. intros w1 Hrest1 Hq1.
  set (j1 := saved j (set_exec f1 j)) in *.
  assert (exists st1, Steps j1 !! i = Some st1 /\ StState st1 = StepRunning) as (st1 & Hst1 & Hrun).
  { destruct (lookup_lt_is_Some_2 _ _ Hi) as [st0 Hst0]. eexists. cbn. rewrite Nat2Z.id, list_lookup_alter_eq, Hst0.
    split; [reflexivity|done]. }
  assert (done_before j1 i) as Hdone1.
  { intros n s0 Hlt. cbn. rewrite Nat2Z.id, list_lookup_alter_ne by lia. by apply Hdone. }
  assert (recorded (store w1) (ID j) (Z.of_nat i) = true) as Hrec.
  { unfold recorded, stored. destruct Hrest1 as (Hs1 & _). change (ID j1) with (ID j) in Hs1. rewrite Hs1. cbn [mbind option_bind].
    change (Current j1) with (Z.of_nat i). rewrite bool_decide_eq_true_2 by done. unfold step_at.
    rewrite bool_decide_eq_false_2 by lia. rewrite Nat2Z.id, Hst1. by rewrite bool_decide_eq_true_2. }
  assert (settled j j1 /\ Rev j1 = (Rev j + 1)%Z) as [(Hid1 & Hcl1 & Hcr1 & Hlen1) Hrev1].
  { split; [|done]. split_and!; try done. cbn. by rewrite length_alter. }
  clearbody j1. apply goes_publish. intros w2 Hst2 Hq2. rewrite Hid1 in Hq2.
  assert (at_rest w2 j1) as Hrest2 by (destruct Hrest1 as (? & ? & ?); split_and!; [by rewrite Hst2|done|done]).
  eapply goes_step; [done|]. eapply goes_step; [done|]. rewrite Hdo. set (w3 := w_event _ (w_event _ _)).
  assert (at_rest w3 j1) as Hrest3 by done.
  assert (quiet (ID j) w w3 [(ID j, Z.of_nat i, true)]) as Hq3.
  { eapply (quiet_trans _ _ w2 _ [] [_]); [by apply (quiet_trans _ _ w1 _ [] [])|]. constructor; try done. cbn.
    rewrite Hst2, Hid1, Hrec. done. }
  clearbody w3. unfold after_do. eapply goes_step; [done|]. cbn beta zeta.
  set (fd := on_step (Z.of_nat i) (match c_detail c with Some d => s_detail d | None => id end)).
  set (f2 := on_step (Z.of_nat i) (s_state StepDone) ∘ on_step (Z.of_nat i) (s_finished (c_time c)) ∘ fd).
  apply (goes_save w3 j1 f2); [done|lia|]. intros w4 Hrest4 Hq4.
  set (j2 := saved j1 (set_exec f2 j1)) in *.
  assert (settled j j2 /\ Rev j2 = (Rev j + 2)%Z) as [Hset2 Hrev2].
  { split; [|cbn; lia]. split_and!; try done. cbn. by rewrite !length_alter. }
  assert (done_before j2 (S i)) as Hdone2.
  { intros n s0 Hlt. cbn. rewrite Nat2Z.id. destruct (decide (n = i)) as [->|Hne].
    - rewrite !list_lookup_alter_eq, Hst1. cbn. by intros [= <-].
    - rewrite !list_lookup_alter_ne by lia. apply Hdone1. lia. }
  clearbody j2. apply goes_publish. intros w5 Hst5 Hq5.
  replace (Z.of_nat i + 1)%Z with (Z.of_nat (S i)) by lia. apply Hk; try done.
  - destruct Hrest4 as (? & ? & ?). split_and!; [by rewrite Hst5|done|done].
  - destruct Hset2 as (Hid2 & _). rewrite Hid1 in Hq4. rewrite Hid2 in Hq5.
    apply (quiet_trans _ _ w4 _ [_] []); [by apply (quiet_trans _ _ w3 _ [_] [])|done].
Qed.

(** From step [i] to the end of the loop and of the job. *)
Lemma goes_loop rest : forall w j (i : nat) k Q,
  at_rest w j -> closed w = false -> ID j ∉ cancelled w -> CancelRequested j = false ->
  done_before j i -> i + length rest = length (Steps j) -> (Rev j + 2 * Z.of_nat (length rest) + 1 < 2 ^ 64)%Z ->
  (forall w1 j', store w1 !! ID j = Some (Some j') -> ID j' = ID j -> State j' = JobSucceeded ->
     Forall (fun s => StState s = StepDone) (Steps j') -> length (Steps j') = length (Steps j) ->
     leases w1 = release (leases w) (Cluster j) (ID j) ->
     (forall id, id <> ID j -> store w1 !! id = store w !! id) ->
     starts (trace w1) = effects (ID j) i (length rest) ++ starts (trace w) -> goes w1 k Q) ->
  goes w (run_loop (Z.of_nat (length (Steps j))) rest (Z.of_nat i) j k) Q.
Proof.
  induction rest as [|s rest IH]; intros w j i k Q Hrest Hc Hn Hr Hdone Hlen H64 Hk.
  - cbn [run_loop]. eapply goes_step; [done|]. cbn beta zeta. eapply goes_step; [done|]. set (w1 := w_leases _ w).
    set (f := _ ∘ x_state JobSucceeded). apply (goes_save w1 j f); [done|cbn in H64; lia|]. intros w2 Hrest2 Hq2.
    apply goes_publish. intros w3 Hst3 Hq3.
    assert (quiet (ID j) w1 w3 []) as Hq by by apply (quiet_trans _ _ w2 _ [] []).
    eapply (Hk _ (saved j (set_exec f j))); try done.
    + rewrite Hst3. by destruct Hrest2.
    + apply Forall_lookup. intros n s0 Hs0. eapply Hdone; [|exact Hs0]. apply lookup_lt_Some in Hs0. cbn in Hs0, Hlen. lia.
    + by destruct Hq as [_ _ -> _ _].
    + by destruct Hq.
    + by destruct Hq as [_ _ _ _ ->].
  - cbn [length] in Hlen, H64. apply goes_turn; try done; [lia|lia|].
    intros w1 j' Hrest' (Hid & Hcl & Hcr & Hl) Hdone' Hrev' [Hq1 Hq2 Hq3 Hq4 Hq5]. rewrite <- Hl. apply IH; try done.
    + by rewrite Hq1.
    + by rewrite Hid, Hq2.
    + by rewrite Hcr.
    + lia.
    + lia.
    + rewrite Hid, Hcl. intros w2 j2 Hs2 Hid2 Hst2 Hall Hl2 Hle Hoth Hsts. apply (Hk w2 j2); try done.
      * by rewrite Hl2.
      * by rewrite Hle, Hq3.
      * intros id Hne. by rewrite Hoth, Hq4.
      * rewrite Hsts, Hq5. cbn [length effects]. by rewrite <- app_assoc.
Qed.

End Solo.

(** C8: a job runs. The goroutine of a pending job that nothing interferes with
    (no store fault, no cancel, no shutdown, no step error) comes to its end,
    having started every step exactly once, in the order of the plan and each
    with the record on disk saying so; the record then says that the job
    succeeded and that every step is done, no other record is touched, and the
    cluster's lease is free. *)
Theorem runner_completes c w j steps :
  c_fault c = NoFault -> c_do c = DoOk ->
  store w !! ID j = Some (Some j) -> safeKey (ID j) = true -> closed w = false -> ID j ∉ cancelled w ->
  CancelRequested j = false -> Current j = 0%Z -> length steps = length (Steps j) ->
  (0 <= Rev j)%Z -> (Rev j + 2 * Z.of_nat (length steps) + 2 < 2 ^ 64)%Z ->
  exists n w' j', solo n c w (runner j steps) = (w', Return) /\
    store w' !! ID j = Some (Some j') /\ State j' = JobSucceeded /\
    Forall (fun s => StState s = StepDone) (Steps j') /\ length (Steps j') = length steps /\
    (forall id, id <> ID j -> store w' !! id = store w !! id) /\
    (Cluster j <> "" -> leases w' !! Cluster j <> Some (ID j)) /\
    (ID j ∉ running w') /\
    starts (trace w') = effects (ID j) 0 (length steps) ++ starts (trace w).
Proof.
  intros Hf Hdo Hst Hsafe Hc Hn Hcr Hcur Hlen Hrev H64.
  enough (goes c w (runner j steps) (fun w' => exists j', store w' !! ID j = Some (Some j') /\ State j' = JobSucceeded /\
    Forall (fun s => StState s = StepDone) (Steps j') /\ length (Steps j') = length steps /\
    (forall id, id <> ID j -> store w' !! id = store w !! id) /\
    (Cluster j <> "" -> leases w' !! Cluster j <> Some (ID j)) /\ (ID j ∉ running w') /\
    starts (trace w') = effects (ID j) 0 (length steps) ++ starts (trace w))) as (n & w' & Hs & j' & HQ).
  { exists n, w', j'. by split. }
  unfold runner, run. eapply goes_step; [done|]. cbn beta zeta. set (f := x_started _ ∘ _).
  apply (goes_save c Hf w j f); [done|lia|]. intros w1 Hrest1 [Hq1 Hq2 Hq3 Hq4 Hq5].
  apply goes_publish. intros w2 Hst2 [Hr1 Hr2 Hr3 Hr4 Hr5]. set (j1 := saved j (set_exec f j)) in *.
  assert (Current j1 = Z.of_nat 0) as Hcur1 by exact Hcur.
  replace (length steps) with (length (Steps j1)) at 1 by done. rewrite Hcur1. cbn [Z.to_nat Z.of_nat drop].
  apply (goes_loop c Hf Hdo steps w2 j1 0).
  - destruct Hrest1 as (? & ? & ?). split_and!; [by rewrite Hst2|done|done].
  - by rewrite Hr1, Hq1.
  - by rewrite Hr2, Hq2.
  - done.
  - intros n s Hlt. lia.
  - by rewrite Hlen.
  - cbn. lia.
  - intros w3 j3 Hs3 Hid3 Hst3 Hall3 Hl3 Hle3 Hoth3 Hsts3. change (ID j1) with (ID j) in *.
    eapply (goes_step _ _ _ w3).
    { cbn. rewrite Hf. unfold store_get. rewrite Hsafe, Hs3. cbn. reflexivity. }
    rewrite Hst3. cbn. do 3 (eapply goes_step; [done|]). apply goes_end. exists j3. cbn. split_and!; try done.
    + rewrite Hl3. by rewrite Hlen.
    + intros id Hne. by rewrite Hoth3, Hst2, Hq4.
    + intros Hne. unfold release. rewrite bool_decide_eq_false_2 by done.
      destruct (decide (leases w3 !! Cluster j = Some (ID j))) as [E|E].
      * rewrite bool_decide_eq_true_2 by done. by rewrite lookup_delete_eq.
      * by rewrite bool_decide_eq_false_2.
    + set_solver.
    + transitivity (starts (trace w3)); [done|]. by rewrite Hsts3, Hr5, Hq5.
Qed.

(* ------------------------------------------------------------------ *)
(** ** The order of [List] *)

Definition newer (a b : Job) : Prop := (CreatedAt b <= CreatedAt a)%Z.

Lemma list_inner_spec a rest :
  let '(top, r) := list_inner a rest in top :: r ≡ₚ a :: rest /\ Forall (newer top) r.
Proof.
  revert a. induction rest as [|b rest IH]; intros a; cbn; [done|]. case_bool_decide as Hab.
  - specialize (IH b). destruct (list_inner b rest) as [top r]. destruct IH as [Hp Hn].
    split; [rewrite <- Hp; apply Permutation_swap|]. constructor; [|done].
    assert (newer top b) as Hb.
    { assert (b ∈ top :: r) as Hin by (rewrite Hp; by left). apply elem_of_cons in Hin as [->|Hin]; [unfold newer; lia|].
      by eapply Forall_forall in Hn. }
    unfold newer in *. lia.
  - specialize (IH a). destruct (list_inner a rest) as [top r]. destruct IH as [Hp Hn].
    split; [rewrite Permutation_swap, Hp; apply Permutation_swap|]. constructor; [|done].
    assert (newer top a) as Ha.
    { assert (a ∈ top :: r) as Hin by (rewrite Hp; by left). apply elem_of_cons in Hin as [->|Hin]; [unfold newer; lia|].
      by eapply Forall_forall in Hn. }
    unfold newer in *. lia.
Qed.

Lemma list_outer_spec n all : length all <= n -> list_outer n all ≡ₚ all /\ StronglySorted newer (list_outer n all).
Proof.
  revert all. induction n as [|n IH]; intros all Hn; [destruct all; cbn in *; [repeat constructor|lia]|].
  destruct all as [|a rest]; cbn; [repeat constructor|]. pose proof (list_inner_spec a rest) as Hi.
  destruct (list_inner a rest) as [top r]. destruct Hi as [Hp Hf].
  assert (length r = length rest) as Hl by (apply Permutation_length in Hp; cbn in Hp; lia).
  destruct (IH r) as [IHp IHs]; [cbn in Hn; lia|]. split.
  - by rewrite IHp.
  - constructor; [done|]. by rewrite IHp.
Qed.

(** [List] answers every stored job exactly once, the newest first. *)
Theorem newest_first_sorted all : newest_first all ≡ₚ all /\ StronglySorted newer (newest_first all).
Proof. by apply list_outer_spec. Qed.

(* ------------------------------------------------------------------ *)
(** ** Closed runs *)

(** A kind of two steps: wiping a disk cannot be checked afterwards, waiting for
    the node can. *)
Definition wipe_then_wait : list StepDef :=
  [ {| SName := "wipe"; SVerifiable := false |}; {| SName := "wait"; SVerifiable := true |} ].

Definition demo (kind : string) : option (Job -> result engine_error (list StepDef)) :=
  if bool_decide (kind = "reset") then Some (fun _ => Ok wipe_then_wait) else None.

Definition request (cluster : string) : Job :=
  mkJob "" "reset" cluster "" (mkExec JobPending [] 0 0 0 "") ∅ false "admin" 0 0.

Definition fine (id : string) : choice := mkChoice NoFault 7 (Some id) DoOk None (Ok true).

Definition boot : list label := [LStep 0 (fine ""); LServe].
(** The goroutine [tid] runs [n] operations. *)
Definition by_thread (n tid : nat) (id : string) : list label := replicate n (LStep tid (fine id)).

Definition world_of (ls : list label) : World := default (initial demo) (execs demo (initial demo) ls).

(** The labels are a run. *)
Definition runs_through (ls : list label) : bool :=
  match execs demo (initial demo) ls with Some _ => true | None => false end.

Lemma world_of_reachable ls : runs_through ls = true -> reachable demo (world_of ls).
Proof.
  unfold runs_through, world_of. destruct (execs demo (initial demo) ls) as [w|] eqn:Hw; [|done]. intros _. cbn.
  eapply reachable_execs; [constructor|exact Hw].
Qed.

Lemma execs_app w ls ls' : execs demo w (ls ++ ls') = execs demo w ls ≫= (fun w1 => execs demo w1 ls').
Proof. revert w. induction ls as [|l ls IH]; intros w; [done|]. cbn. destruct (exec demo w l); [apply IH|done]. Qed.

Lemma world_of_snoc ls l : runs_through (ls ++ [l]) = true -> exec demo (world_of ls) l = Some (world_of (ls ++ [l])).
Proof.
  unfold runs_through, world_of. rewrite execs_app.
  destruct (execs demo (initial demo) ls) as [w|]; [|done]. cbn. by destruct (exec demo w l).
Qed.

Definition two_clusters : list label :=
  boot ++ [LSubmit (request "c1")] ++ by_thread 8 1 "j1" ++ by_thread 14 2 "" ++
  [LSubmit (request "c2")] ++ by_thread 8 3 "j2" ++ by_thread 14 4 "".

(** Two jobs of two clusters are inside a step at the same time. *)
Example two_jobs_at_once :
  (fun p => match p with InDo j i _ => Some (ID j, i) | _ => None end) <$> threads (world_of two_clusters) =
  [None; None; Some ("j1", 0%Z); None; Some ("j2", 0%Z)].
Proof. by vm_compute. Qed.

(** A second job of a busy cluster is refused with the name of the holder. *)
Example second_job_refused :
  head (trace (world_of (boot ++ [LSubmit (request "c1")] ++ by_thread 8 1 "j1" ++
    [LSubmit (request "c1")] ++ by_thread 5 3 "j2"))) = Some (EAnswer (Err (EClusterBusy "j1"))).
Proof. by vm_compute. Qed.

(** Killed inside a step that cannot be checked, the job is parked at the next
    start and the step is not started again. *)
Definition killed_inside : list label :=
  boot ++ [LSubmit (request "c1")] ++ by_thread 8 1 "j1" ++ by_thread 14 2 "" ++ [LCrash] ++ by_thread 5 0 "".

Example killed_inside_parks :
  let w := world_of killed_inside in
  ((fun r => State r) <$> stored (store w) "j1", starts (trace w), threads w) =
  (Some JobParked, [("j1", 0%Z, true)], [Return]).
Proof. by vm_compute. Qed.

(** The record of the running step did not reach the disk (one store fault), the
    process dies inside the step, and the next start runs the step again: the
    price the comment on [save] names. *)
Definition faulty : choice := mkChoice FaultBefore 7 None DoOk None (Ok true).

Definition killed_unrecorded : list label :=
  boot ++ [LSubmit (request "c1")] ++ by_thread 8 1 "j1" ++ by_thread 9 2 "" ++ [LStep 2 faulty] ++
  by_thread 3 2 "" ++ [LCrash] ++ by_thread 6 0 "" ++ by_thread 14 1 "".

Example unrecorded_step_runs_again :
  starts (trace (world_of killed_unrecorded)) = [("j1", 0%Z, true); ("j1", 0%Z, false)].
Proof. by vm_compute. Qed.

(** A step whose context was cancelled, and a cancel between two looks at it. *)
Definition interrupted : choice := mkChoice NoFault 7 None (DoCancelled "context canceled") None (Ok true).

Definition cancel_between_looks : list label :=
  boot ++ [LSubmit (request "c1")] ++ by_thread 8 1 "j1" ++ by_thread 14 2 "" ++
  [LStep 2 interrupted] ++ by_thread 2 2 "" ++ [LCancel "j1"] ++ by_thread 4 3 "" ++ by_thread 4 2 "".

(** A step reports that its context was cancelled, and the operator's cancel
    arrives between the engine's two looks at that context: the goroutine takes
    the cancel for a shutdown, and ends with the record still running, a cancel
    requested, the lease free, and nobody left to finish the job. *)
Example cancel_taken_for_shutdown :
  let w := world_of cancel_between_looks in
  ((fun r => (State r, CancelRequested r)) <$> stored (store w) "j1", leases w !! "c1", closed w, threads w) =
  (Some (JobRunning, true), None, false, [Return; Return; Return; Return]).
Proof. by vm_compute. Qed.

(** A build whose only step has no question. *)
Definition without_question (kind : string) : option (Job -> result engine_error (list StepDef)) :=
  Some (fun _ => Ok [ {| SName := "wait"; SVerifiable := false |} ]).

(** A job is found inside a step that could be checked when the process died,
    and the build that resumes it has no question for that step: the stored flag
    decides, and the missing question is called. *)
Example resume_calls_missing_question k :
  resume_one without_question
    (mkJob "j1" "reset" "c1" "" (mkExec JobRunning [mkStep "wait" StepRunning true 0 0 ""] 0 0 0 "") ∅ false "admin" 0 3) k
  = Panic.
Proof. reflexivity. Qed.

(* ------------------------------------------------------------------ *)
(** ** The theorems at concrete worlds *)

Lemma in_do_at w t id cluster :
  threads w !! t ≫= (fun p => match p with InDo j _ _ => Some (ID j, Cluster j) | _ => None end) = Some (id, cluster) ->
  exists j i k, threads w !! t = Some (InDo j i k) /\ ID j = id /\ Cluster j = cluster.
Proof. destruct (threads w !! t) as [[]|]; cbn; try done. intros [= <- <-]. eauto 10. Qed.

Lemma cluster_exclusive_witness : exists j i k,
  threads (world_of two_clusters) !! 4 = Some (InDo j i k) /\ Cluster j = "c2" /\
  leases (world_of two_clusters) !! "c2" = Some "j2".
Proof.
  destruct (in_do_at (world_of two_clusters) 4 "j2" "c2") as (j & i & k & E & Hid & Hc); [by vm_compute|].
  exists j, i, k. split_and!; [exact E|exact Hc|].
  rewrite <- Hc, <- Hid. eapply (cluster_exclusive demo (world_of two_clusters) 4 4 j j i i k k).
  - apply world_of_reachable. by vm_compute.
  - exact E.
  - exact E.
  - by right.
  - by rewrite Hc.
Defined.

Lemma unverifiable_step_once_witness :
  let tr := trace (world_of killed_inside) in
  tr !! 1 = Some (EDoStart "j1" 0 true) /\ EDoStart "j1" 0 true ∉ drop 2 tr.
Proof.
  assert (trace (world_of killed_inside) !! 1 = Some (EDoStart "j1" 0 true)) as Htr by by vm_compute.
  split; [exact Htr|].
  set (r := default (request "") (stored (store (world_of killed_inside)) "j1")).
  eapply (unverifiable_step_once demo (world_of killed_inside) "j1" 0 true
            (take 1 (trace (world_of killed_inside))) _ r (mkStep "wipe" StepRunning false 7 0 "")).
  - apply world_of_reachable. by vm_compute.
  - by vm_compute.
  - by vm_compute.
  - done.
  - symmetry. apply take_drop_middle. exact Htr.
Defined.

(** The job is cancelled between the engine's read and its write. *)
Definition cancel_in_save : list label :=
  boot ++ [LSubmit (request "c1")] ++ by_thread 8 1 "j1" ++ by_thread 2 2 "" ++ [LCancel "j1"] ++ by_thread 2 3 "".

Lemma cancel_request_kept_witness :
  let w' := world_of (cancel_in_save ++ [LStep 2 (fine "")]) in
  store w' !! "j1" = None \/ exists r', store w' !! "j1" = Some (Some r') /\ CancelRequested r' = true.
Proof.
  apply (cancel_request_kept demo (world_of cancel_in_save) (LStep 2 (fine "")) _ _
           (default (request "") (stored (store (world_of cancel_in_save)) "j1"))).
  - apply world_of_reachable. by vm_compute.
  - apply world_of_snoc. by vm_compute.
  - by vm_compute.
  - by vm_compute.
Defined.

Definition submitted : World := world_of (boot ++ [LSubmit (request "c1")] ++ by_thread 8 1 "j1").
Definition submitted_job : Job := default (request "") (stored (store submitted) "j1").

Lemma runner_completes_witness :
  exists n w' j', solo n (fine "") submitted (runner submitted_job wipe_then_wait) = (w', Return) /\
    store w' !! "j1" = Some (Some j') /\ State j' = JobSucceeded /\
    starts (trace w') = [("j1", 1%Z, true); ("j1", 0%Z, true)].
Proof.
  destruct (runner_completes (fine "") submitted submitted_job wipe_then_wait) as (n & w' & j' & Hs & Hst & Hj & H).
  - done.
  - done.
  - by vm_compute.
  - by vm_compute.
  - by vm_compute.
  - apply (bool_decide_unpack _). by vm_compute.
  - by vm_compute.
  - by vm_compute.
  - by vm_compute.
  - by vm_compute.
  - by vm_compute.
  - exists n, w', j'. split_and!; [exact Hs|exact Hst|exact Hj|].
    destruct H as (_ & _ & _ & _ & _ & ->). by vm_compute.
Defined.
