(* ===== verification/Gate.v ===== *)
(** * The upgrade gate

    [src/internal/upgrade/gate.go], with [VotingMembers] of
    [src/internal/talos/etcd.go]: whether the next node of a rolling upgrade may
    be taken down. The Talos clients the gate asks are parameters; a Go map is
    walked in an order the runtime chooses, which is a parameter too. *)

From S2P Require Import Prelude.

(** What the gate reads from one member ([talos.EtcdStatus] and the like). *)
Record EtcdStatus := mkStatus {
  Leader : Z; RaftIndex : Z; RaftAppliedIndex : Z; Errors : list string }.
Record EtcdMemberDetail := mkMember { MemID : Z; MemHostname : string; IsLearner : bool }.
Record EtcdAlarm := mkAlarm { AlMemberID : Z; AlType : string }.
Record Machine := mkMachine { MID : string; Hostname : string }.

#[global] Instance EtcdAlarm_eq_dec : EqDecision EtcdAlarm.
Proof. solve_decision. Defined.

Definition MinVotingMembers : Z := 3.
Definition MaxRaftLag : Z := 128.

Record GateInput := mkInput {
  Members : list EtcdMemberDetail;
  Voting : Z;
  Statuses : gmap string EtcdStatus;
  Unreachable : list string;
  Alarms : list EtcdAlarm;
  InMaxRaftLag : Z }.

Record Verdict := mkVerdict { VOK : bool; VReason : string; VInput : GateInput }.

Definition noInput : GateInput := mkInput [] 0 ∅ [] [] 0.

(** [talos.VotingMembers]. *)
Definition VotingMembers (members : list EtcdMemberDetail) : Z :=
  Z.of_nat (length (filter (fun m => IsLearner m = false) members)).

Definition nameOf (m : Machine) : string := if bool_decide (Hostname m = "") then MID m else Hostname m.

Fixpoint hostnameOf (id : string) (machines : list Machine) : string :=
  match machines with
  | [] => ""
  | m :: rest => if bool_decide (MID m = id) then Hostname m else hostnameOf id rest
  end.

(** [dedupeAlarms]: the first of each, in their order. *)
Fixpoint dedupe (seen : list EtcdAlarm) (alarms : list EtcdAlarm) : list EtcdAlarm :=
  match alarms with
  | [] => []
  | a :: rest => if bool_decide (a ∈ seen) then dedupe seen rest else a :: dedupe (a :: seen) rest
  end.
Definition dedupeAlarms (alarms : list EtcdAlarm) : list EtcdAlarm := dedupe [] alarms.

Definition describeAlarms (alarms : list EtcdAlarm) : string :=
  join " and " (sort_strings ((fun a => AlType a +:+ " on member " +:+ hex (AlMemberID a)) <$> alarms)).

(** The last loop of [decide], in the order the map is walked. *)
Fixpoint status_problem (statuses : list (string * EtcdStatus)) : option string :=
  match statuses with
  | [] => None
  | (name, s) :: rest =>
      if bool_decide (Leader s = 0%Z) then
        Some (name +:+ " reports no etcd leader, which is a cluster mid-election. Nothing should be " +:+
              "taken down until one is chosen.")
      else if negb (bool_decide (Errors s = [])) then
        Some (name +:+ " reports: " +:+ join "; " (Errors s))
      else status_problem rest
  end.

Section Decide.
(** The order in which a map is walked. *)
Context (walk : gmap string EtcdStatus -> list (string * EtcdStatus)).

(** [decide]. *)
Definition decide_gate (inp : GateInput) (taking : string) (machines : list Machine) : Verdict :=
  let ok := mkVerdict true "" inp in
  let no why := mkVerdict false why inp in
  if bool_decide (length machines = 1) && bool_decide (Voting inp <= 1)%Z then ok
  else if bool_decide (0 < length (Alarms inp)) then
    no ("etcd has raised " +:+ describeAlarms (Alarms inp) +:+
        ". An alarm means a member cannot write or cannot be trusted to " +:+
        "replicate what it has; taking a node down on top of that is how a recoverable " +:+
        "problem becomes a restore from backup. Clear the alarm first.")
  else if bool_decide (0 < length (Unreachable inp)) then
    no (join ", " (Unreachable inp) +:+
        " did not answer, so this cluster is already one member short of what it thinks it " +:+
        "has. Taking another node down now is the second failure, not the first.")
  else if bool_decide (Voting inp < MinVotingMembers)%Z then
    no ("etcd has " +:+ itoa (Voting inp) +:+
        " voting member(s). Three is the smallest number that survives losing one: " +:+
        "with two, the remaining member holds one vote out of two, which is not a majority, " +:+
        "and the cluster stops accepting writes until the other comes back. Add a " +:+
        "control-plane node, or accept the outage and do this by hand.")
  else if existsb (fun m => IsLearner m && equal_fold (MemHostname m) (hostnameOf taking machines)) (Members inp) then ok
  else if bool_decide (InMaxRaftLag inp > MaxRaftLag)%Z then
    no ("One member is " +:+ itoa (InMaxRaftLag inp) +:+ " raft entries behind the leader (the limit is " +:+
        itoa MaxRaftLag +:+ "). It has not caught " +:+
        "up with what the previous node did, and a member that is still replaying will not " +:+
        "survive losing a peer. Wait, then look again.")
  else match status_problem (walk (Statuses inp)) with
       | Some why => no why
       | None => ok
       end.

(* ------------------------------------------------------------------ *)
(** ** Reading the cluster *)

(** A connection and its three calls, each under the deadline of its class. *)
Context {E client : Type}.
Context (connect : string -> result E client) (deadline : string -> result E unit).
Context (etcd_status : client -> result E EtcdStatus).
Context (etcd_members : client -> result E (list EtcdMemberDetail)).
Context (etcd_alarms : client -> result E (list EtcdAlarm)).
Context (controlPlanes : string -> result E (list Machine)).

(** [Gate.read]. *)
Definition read (id : string) : result E (EtcdStatus * list EtcdMemberDetail * list EtcdAlarm) :=
  cc ← connect id;
  _ ← deadline "EtcdStatus";
  status ← etcd_status cc;
  _ ← deadline "EtcdMemberList";
  members ← etcd_members cc;
  _ ← deadline "EtcdAlarmList";
  alarms ← etcd_alarms cc;
  Ok (status, members, alarms).

(** One machine folded into what was read so far, with the highest index. *)
Definition fold_read (acc : GateInput * Z) (m : Machine) : GateInput * Z :=
  let '(inp, highest) := acc in
  match read (MID m) with
  | Err _ =>
      (mkInput (Members inp) (Voting inp) (Statuses inp) (Unreachable inp ++ [nameOf m]) (Alarms inp) (InMaxRaftLag inp), highest)
  | Ok (status, members, alarms) =>
      (mkInput (if bool_decide (length (Members inp) < length members) then members else Members inp)
         (Voting inp) (<[nameOf m := status]> (Statuses inp)) (Unreachable inp) (Alarms inp ++ alarms) (InMaxRaftLag inp),
       if bool_decide (RaftIndex status > highest)%Z then RaftIndex status else highest)
  end.

(** The lag of one member, and the largest over the map. *)
Definition lag_of (highest : Z) (s : EtcdStatus) : Z := (highest - Z.min (RaftAppliedIndex s) highest)%Z.
Definition max_lag (highest : Z) (statuses : list (string * EtcdStatus)) : Z :=
  fold_left (fun m '(_, s) => if bool_decide (lag_of highest s > m)%Z then lag_of highest s else m) statuses 0%Z.

(** [Gate.Evaluate]. *)
Definition Evaluate (cluster taking : string) : result E Verdict :=
  machines ← controlPlanes cluster;
  match machines with
  | [] => Ok (mkVerdict false ("This cluster has no control-plane node in the inventory, so there " +:+
            "is no etcd to ask. Refresh the cluster before upgrading anything in it.") noInput)
  | _ =>
      let '(inp, highest) := fold_left fold_read machines (noInput, 0%Z) in
      let inp := mkInput (Members inp) (VotingMembers (Members inp)) (Statuses inp) (sort_strings (Unreachable inp))
                  (dedupeAlarms (Alarms inp)) (max_lag highest (walk (Statuses inp))) in
      Ok (decide_gate inp taking machines)
  end.

End Decide.

(* ------------------------------------------------------------------ *)
(** ** What the gate lets through *)

(** A Go map is walked once over all its entries, in any order. *)
Class Walk (walk : gmap string EtcdStatus -> list (string * EtcdStatus)) : Prop :=
  walk_all : forall m, walk m ≡ₚ map_to_list m.

#[global] Instance walk_in_order : Walk map_to_list.
Proof. intros m. done. Qed.

Lemma status_problem_None l : status_problem l = None <-> forall n s, (n, s) ∈ l -> Leader s <> 0%Z /\ Errors s = [].
Proof.
  induction l as [|[n s] l IH]; cbn; [split; [intros _ ? ? []%elem_of_nil|done]|].
  destruct (decide (Leader s = 0%Z)) as [Hl|Hl].
  { rewrite bool_decide_eq_true_2 by done. split; [done|]. intros H. destruct (H n s); [by left|done]. }
  rewrite bool_decide_eq_false_2 by done.
  destruct (decide (Errors s = [])) as [He|He].
  - rewrite bool_decide_eq_true_2 by done. cbn [negb]. rewrite IH. split.
    + intros H n' s' [[= -> ->]|Hin]%elem_of_cons; [done|]. by eapply H.
    + intros H n' s' Hin. apply (H n' s'). by right.
  - rewrite bool_decide_eq_false_2 by done. cbn [negb]. split; [done|].
    intros H. destruct (H n s); [by left|done].
Qed.

Lemma status_problem_walk walk `{!Walk walk} m :
  status_problem (walk m) = None <-> forall n s, m !! n = Some s -> Leader s <> 0%Z /\ Errors s = [].
Proof.
  rewrite status_problem_None. split; intros H n s Hs; apply (H n s).
  - rewrite (walk_all m). by apply elem_of_map_to_list.
  - rewrite (walk_all m) in Hs. by apply elem_of_map_to_list in Hs.
Qed.

(** A learner with the host name of the machine that is about to go. *)
Definition taking_learner (inp : GateInput) (taking : string) (machines : list Machine) : bool :=
  existsb (fun m => IsLearner m && equal_fold (MemHostname m) (hostnameOf taking machines)) (Members inp).

Definition healthy (inp : GateInput) : Prop :=
  (InMaxRaftLag inp <= MaxRaftLag)%Z /\ forall n s, Statuses inp !! n = Some s -> Leader s <> 0%Z /\ Errors s = [].

Lemma bool_decide_length {A} (l : list A) : bool_decide (0 < length l) = negb (bool_decide (l = [])) :> bool.
Proof. destruct l; cbn; [done|]. by rewrite bool_decide_eq_true_2 by lia. Qed.

Lemma decide_gate_ok walk `{!Walk walk} inp taking machines :
  VOK (decide_gate walk inp taking machines) = true <->
  (length machines = 1 /\ (Voting inp <= 1)%Z) \/
  (Alarms inp = [] /\ Unreachable inp = [] /\ (MinVotingMembers <= Voting inp)%Z /\
   (taking_learner inp taking machines = true \/ healthy inp)).
Proof.
  unfold decide_gate, healthy. fold (taking_learner inp taking machines).
  destruct (decide (length machines = 1 /\ (Voting inp <= 1)%Z)) as [[H1 H2]|Hn].
  { rewrite !bool_decide_eq_true_2 by done. cbn. tauto. }
  assert (bool_decide (length machines = 1) && bool_decide (Voting inp <= 1)%Z = false) as ->.
  { apply andb_false_iff. rewrite !bool_decide_eq_false. destruct (decide (length machines = 1)); auto. }
  rewrite !bool_decide_length.
  destruct (decide (Alarms inp = [])) as [Ha|Ha];
    [rewrite (bool_decide_eq_true_2 (Alarms inp = [])) by done|rewrite (bool_decide_eq_false_2 (Alarms inp = [])) by done; cbn; split; [done|tauto]].
  destruct (decide (Unreachable inp = [])) as [Hu|Hu];
    [rewrite (bool_decide_eq_true_2 (Unreachable inp = [])) by done|rewrite (bool_decide_eq_false_2 (Unreachable inp = [])) by done; cbn; split; [done|tauto]].
  cbn [negb].
  destruct (decide (Voting inp < MinVotingMembers)%Z) as [Hv|Hv];
    [rewrite bool_decide_eq_true_2 by done; cbn; split; [done|intros [?|(_ & _ & ? & _)]; [tauto|lia]]|rewrite bool_decide_eq_false_2 by done].
  assert (MinVotingMembers <= Voting inp)%Z by lia.
  destruct (taking_learner inp taking machines); [cbn; tauto|].
  destruct (decide (InMaxRaftLag inp > MaxRaftLag)%Z) as [Hl|Hl];
    [rewrite bool_decide_eq_true_2 by done; cbn; split; [done|intros [?|(_ & _ & _ & [?|[? _]])]; [tauto|done|lia]]
    |rewrite bool_decide_eq_false_2 by done].
  pose proof (status_problem_walk walk (Statuses inp)) as Hs.
  destruct (status_problem (walk (Statuses inp))) as [why|]; cbn.
  - split; [done|]. intros [?|(_ & _ & _ & [?|[_ Hall]])]; [tauto|done|]. apply Hs in Hall. done.
  - split; [|done]. intros _. right. split_and!; try done. right. split; [lia|]. by apply Hs.
Qed.

Lemma app_nonempty (a : string) c b : a +:+ String c b <> "".
Proof. by destruct a. Qed.

Lemma status_problem_reason l why : status_problem l = Some why -> why <> "".
Proof.
  induction l as [|[n s] l IH]; cbn [status_problem]; [done|].
  destruct (bool_decide (Leader s = 0%Z)); [intros [= <-]; apply app_nonempty|].
  destruct (negb _); [intros [= <-]; apply app_nonempty|done].
Qed.

(** the gate's rule. Whatever order the runtime walks the statuses in, a node
    may be taken down exactly when the inventory has one control-plane node and
    etcd at most one vote, or when there is no alarm, nobody is unreachable, at
    least three members vote, and either the node is a learner or no member is
    more than 128 entries behind and every member that answered has a leader and
    no error. The verdict always carries what was read, and a refusal always has
    a reason. *)
Theorem gate_rule walk `{!Walk walk} inp taking machines :
  (VOK (decide_gate walk inp taking machines) = true <->
    (length machines = 1 /\ (Voting inp <= 1)%Z) \/
    (Alarms inp = [] /\ Unreachable inp = [] /\ (3 <= Voting inp)%Z /\
     (taking_learner inp taking machines = true \/
      ((InMaxRaftLag inp <= 128)%Z /\ forall n s, Statuses inp !! n = Some s -> Leader s <> 0%Z /\ Errors s = [])))) /\
  VInput (decide_gate walk inp taking machines) = inp /\
  (VReason (decide_gate walk inp taking machines) = "" <-> VOK (decide_gate walk inp taking machines) = true).
Proof.
  split; [by apply decide_gate_ok|]. unfold decide_gate.
  repeat match goal with |- context [if ?b then _ else _] => destruct b end; try (by split);
    try (split; [done|]; cbn [VReason VOK]; split; [intros Hr; exfalso; by eapply app_nonempty|done]).
  destruct (status_problem _) as [why|] eqn:Hs; [|by split]. apply status_problem_reason in Hs.
  split; [done|]. by split.
Qed.

(* ------------------------------------------------------------------ *)
(** ** From the readings to the rule *)




Section Readings.
Context (walk : gmap string EtcdStatus -> list (string * EtcdStatus)) `{!Walk walk}.
Context {E client : Type}.
Context (connect : string -> result E client) (deadline : string -> result E unit).
Context (etcd_status : client -> result E EtcdStatus).
Context (etcd_members : client -> result E (list EtcdMemberDetail)).
Context (etcd_alarms : client -> result E (list EtcdAlarm)).
Context (controlPlanes : string -> result E (list Machine)).

Abbreviation ask := (read connect deadline etcd_status etcd_members etcd_alarms).
Abbreviation gather := (fold_read connect deadline etcd_status etcd_members etcd_alarms).





End Readings.

(* ------------------------------------------------------------------ *)
(** ** Concrete clusters *)

Definition cp (n : string) : Machine := mkMachine n n.
Definition steady : EtcdStatus := mkStatus 7 1000 990 [].
Definition three_voters : list EtcdMemberDetail := [mkMember 1 "a" false; mkMember 2 "b" false; mkMember 3 "c" false].

(** Every node answers the same, with the given members and status. *)
Definition ask_all (status : EtcdStatus) (members : list EtcdMemberDetail) (machines : list Machine) (taking : string)
    : result string Verdict :=
  Evaluate map_to_list (fun id => Ok id) (fun _ => Ok tt) (fun _ => Ok status) (fun _ => Ok members) (fun _ => Ok [])
    (fun _ => Ok machines) "cluster" taking.

Lemma gate_rule_witness :
  let inp := mkInput three_voters 3 {[ "a" := steady ]} [] [] 10 in
  VOK (decide_gate map_to_list inp "a" [cp "a"; cp "b"; cp "c"]) = true.
Proof.
  cbv zeta. apply (proj1 (gate_rule map_to_list _ _ _)). right. split_and!; [done|done|done|right]. split; [done|].
  cbn [Statuses]. intros n s [_ <-]%lookup_singleton_Some. by split.
Defined.


(** the exemption for learners compares host names, and a machine that is no
    control-plane node of the cluster (a worker), or has no host name in the
    inventory, has the empty one. A member that was just added and has not
    reported its name is a learner with the empty host name. With it, the gate
    lets such a machine through while no member has a leader and one is far
    behind. *)
Theorem unnamed_learner_exempts_everyone :
  let members := three_voters ++ [mkMember 4 "" true] in
  let election := mkStatus 0 9000 10 ["etcdserver: no leader"] in
  (exists v, ask_all election members [cp "a"; cp "b"; cp "c"] "worker-1" = Ok v /\ VOK v = true /\
     (InMaxRaftLag (VInput v) = 8990)%Z) /\
  exists v, ask_all election three_voters [cp "a"; cp "b"; cp "c"] "worker-1" = Ok v /\ VOK v = false.
Proof. split; eexists; (split; [vm_compute; reflexivity|by vm_compute]). Qed.

(** One control-plane node in the inventory that does not answer passes the
    gate: nothing was read, so etcd counts as having no voter, and that is taken
    for a single-node cluster. *)
Theorem unreachable_only_node_passes :
  exists v, Evaluate map_to_list (fun _ : string => Err "connection refused" : result string string) (fun _ => Ok tt)
    (fun _ => Ok steady) (fun _ => Ok three_voters) (fun _ => Ok []) (fun _ => Ok [cp "a"]) "cluster" "a" = Ok v /\
    VOK v = true /\ Unreachable (VInput v) = ["a"] /\ Members (VInput v) = [].
Proof. eexists. split; [vm_compute; reflexivity|by vm_compute]. Qed.
