(* ===== verification/Transport.v ===== *)
(** * Calls to a node

    [src/internal/talos]: the deadline policy ([deadline.go]), the
    classification of failures ([errors.go]), the retry loop ([retry.go]), the
    two call paths of [client.go] that use them, and the circuit breaker
    ([breaker.go]). The wire (a gRPC invocation), the clock and the random draws
    are parameters. A Go error is what the code asks it: whether it is, or
    wraps, one of the errors the package tells apart. *)

From S2P Require Import Prelude.

(* ------------------------------------------------------------------ *)
(** ** deadline.go *)

Inductive DeadlineClass := ClassProbe | ClassFastRead | ClassMutation | ClassStream | ClassWatch | ClassUpload.

#[global] Instance DeadlineClass_eq_dec : EqDecision DeadlineClass.
Proof. solve_decision. Defined.

Definition ProbeDeadline : duration := (5 * second)%Z.
Definition FastReadDeadline : duration := (10 * second)%Z.
Definition MutationDeadline : duration := (30 * second)%Z.
Definition StreamFirstByteDeadline : duration := (10 * second)%Z.
Definition StreamIdleTimeout : duration := (60 * second)%Z.
Definition UploadAckDeadline : duration := (2 * minute)%Z.

(** [DeadlineClass.Deadline]: zero for a class without a total deadline. *)
Definition Deadline (c : DeadlineClass) : duration :=
  match c with
  | ClassProbe => ProbeDeadline
  | ClassFastRead => FastReadDeadline
  | ClassMutation => MutationDeadline
  | ClassStream | ClassWatch | ClassUpload => 0%Z
  end.

Definition Unbounded (c : DeadlineClass) : bool :=
  bool_decide (c = ClassStream) || bool_decide (c = ClassWatch) || bool_decide (c = ClassUpload).

Definition FirstByte (c : DeadlineClass) : duration :=
  if bool_decide (c = ClassUpload) then UploadAckDeadline else StreamFirstByteDeadline.

Definition StreamIdle (c : DeadlineClass) : duration :=
  if bool_decide (c = ClassStream) then StreamIdleTimeout else 0%Z.

Definition class_string (c : DeadlineClass) : string :=
  match c with
  | ClassProbe => "probe" | ClassFastRead => "fast read" | ClassMutation => "mutation"
  | ClassStream => "stream" | ClassWatch => "watch" | ClassUpload => "upload"
  end.

Definition machineService : string := "/machine.MachineService/".
Definition storageService : string := "/storage.StorageService/".
Definition cosiService : string := "/cosi.resource.State/".
Definition lifecycleService : string := "/machine.LifecycleService/".

Definition MethodVersion := machineService +:+ "Version".
Definition MethodEtcdSnapshot := machineService +:+ "EtcdSnapshot".
Definition MethodEtcdRecover := machineService +:+ "EtcdRecover".
Definition MethodKubeconfig := machineService +:+ "Kubeconfig".
Definition MethodPacketCapture := machineService +:+ "PacketCapture".
Definition MethodDiskUsage := machineService +:+ "DiskUsage".
Definition MethodDisks := storageService +:+ "Disks".
Definition MethodCOSIGet := cosiService +:+ "Get".
Definition MethodCOSIList := cosiService +:+ "List".
Definition MethodCOSIWatch := cosiService +:+ "Watch".
Definition MethodLifecycleUpgrade := lifecycleService +:+ "Upgrade".

(** The names of the fast reads that are retried. *)
Definition fast_reads : list string :=
  ((fun n => machineService +:+ n) <$>
    ["Version"; "Hostname"; "ServiceList"; "Memory"; "LoadAvg"; "SystemStat"; "CPUInfo"; "CPUFreqStats"; "DiskStats";
     "NetworkDeviceStats"; "Mounts"; "Netstat"; "Processes"; "Stats"; "Containers"; "EtcdMemberList"; "EtcdStatus";
     "EtcdAlarmList"]) ++ [MethodCOSIGet; MethodCOSIList; MethodDisks].

Definition mutations : list string :=
  (fun n => machineService +:+ n) <$>
    ["ApplyConfiguration"; "Bootstrap"; "Reset"; "Reboot"; "Shutdown"; "Upgrade"; "Rollback"; "MetaWrite"; "MetaDelete";
     "ServiceStart"; "ServiceStop"; "ServiceRestart"; "ImagePull"; "EtcdLeaveCluster"; "EtcdRemoveMemberByID";
     "EtcdForfeitLeadership"; "EtcdDefragment"; "EtcdDowngradeEnable"; "EtcdDowngradeValidate"; "EtcdDowngradeCancel"].

Definition streams : list string :=
  ((fun n => machineService +:+ n) <$> ["Logs"; "Dmesg"; "Events"; "Read"; "Copy"; "List"; "ImageList"]) ++
  [MethodDiskUsage; MethodEtcdSnapshot; MethodLifecycleUpgrade; MethodPacketCapture].

(** [deadlineClasses]. *)
Definition deadlineClasses : gmap string DeadlineClass := list_to_map (
  ((fun m => (m, ClassFastRead)) <$> fast_reads ++ [MethodKubeconfig]) ++
  ((fun m => (m, ClassMutation)) <$> mutations) ++
  ((fun m => (m, ClassStream)) <$> streams) ++
  [(MethodEtcdRecover, ClassUpload); (MethodCOSIWatch, ClassWatch)]).

Definition ClassOf (method : string) : option DeadlineClass := deadlineClasses !! method.

(** A context, as the policy sees it: its deadline and the probe mark. *)
Record Ctx := mkCtx { CtxDeadline : option time; CtxProbe : bool }.

(** [context.WithTimeout] takes the earlier of the two deadlines. *)
Definition WithTimeout (now : time) (ctx : Ctx) (d : duration) : Ctx :=
  mkCtx (Some (match CtxDeadline ctx with Some t => Z.min t (now + d) | None => (now + d)%Z end)) (CtxProbe ctx).

Inductive policy_error := ErrUnclassifiedMethod (method : string) | ErrNoDeadline (method : string).

Definition WithClassDeadline (now : time) (ctx : Ctx) (method : string) : result policy_error Ctx :=
  match ClassOf method with
  | None => Err (ErrUnclassifiedMethod method)
  | Some class =>
      if bool_decide (class = ClassStream) then Ok ctx
      else Ok (WithTimeout now ctx (Deadline class))
  end.

Definition requireDeadline (ctx : Ctx) : bool := match CtxDeadline ctx with Some _ => true | None => false end.

(** [conn.classOf]. *)
Definition classOf (ctx : Ctx) (method : string) : result policy_error DeadlineClass :=
  if bool_decide (method = MethodVersion) && CtxProbe ctx then Ok ClassProbe
  else match ClassOf method with Some c => Ok c | None => Err (ErrUnclassifiedMethod method) end.

(* ------------------------------------------------------------------ *)
(** ** errors.go *)

Inductive ErrorKind := KindUnreachable | KindTimeout | KindRejected.

#[global] Instance ErrorKind_eq_dec : EqDecision ErrorKind.
Proof. solve_decision. Defined.

Definition ErrorKinds : list ErrorKind := [KindUnreachable; KindTimeout; KindRejected].

Definition kind_string (k : ErrorKind) : string :=
  match k with KindUnreachable => "unreachable" | KindTimeout => "timeout" | KindRejected => "rejected" end.

Definition ProblemCode (k : ErrorKind) : option string :=
  match k with
  | KindUnreachable => Some "upstream.node-unreachable"
  | KindTimeout => Some "upstream.node-timeout"
  | KindRejected => None
  end.

(** gRPC's code for a deadline, and for an error that is no status. *)
Definition code_unknown : Z := 2.
Definition code_deadline_exceeded : Z := 4.

(** An error, by what [errors.As], [errors.Is] and [status.FromError] answer for
    it and everything it wraps. *)
Record goerr := mkErr {
  as_talos : option (string * string * ErrorKind * Z);
  is_dry_run : bool;
  is_canceled : bool;
  is_deadline_exceeded : bool;
  status_of : option (Z * string);
  err_text : string }.

(** [upstreamMessage] of an error that is there. *)
Definition upstreamMessage (e : goerr) : string :=
  match status_of e with Some (_, msg) => msg | None => err_text e end.

(** [Error.Error]; [code_name] is gRPC's name of a code. *)
Definition error_text (code_name : Z -> string) (op machine : string) (k : ErrorKind) (status : Z) (cause : goerr) : string :=
  match k with
  | KindRejected => "talos: " +:+ op +:+ " on " +:+ machine +:+ " was rejected by the node (" +:+ code_name status +:+
                    "): " +:+ upstreamMessage cause
  | KindTimeout => "talos: " +:+ op +:+ " on " +:+ machine +:+ " timed out"
  | KindUnreachable => "talos: " +:+ op +:+ " on " +:+ machine +:+ ": the node is unreachable"
  end.

Section Classify.
Context (code_name : Z -> string).

(** [classify]; [ctx_canceled] is whether the caller's context was cancelled. *)
Definition classify (ctx_canceled : bool) (op machine : string) (answered : bool) (err : option goerr) : option goerr :=
  match err with
  | None => None
  | Some e =>
      if bool_decide (is_Some (as_talos e)) then Some e
      else if is_dry_run e then Some e
      else if ctx_canceled then Some e
      else if is_canceled e then Some e
      else
        let status := match status_of e with Some (c, _) => c | None => code_unknown end in
        let kind := if is_deadline_exceeded e || bool_decide (status = code_deadline_exceeded) then KindTimeout
                    else if negb answered then KindUnreachable else KindRejected in
        Some (mkErr (Some (op, machine, kind, status)) (is_dry_run e) (is_canceled e) (is_deadline_exceeded e)
                (status_of e) (error_text code_name op machine kind status e))
  end.

End Classify.

Definition ErrorKindOf (e : goerr) : option ErrorKind :=
  match as_talos e with Some (_, _, k, _) => Some k | None => None end.

(* ------------------------------------------------------------------ *)
(** ** retry.go *)

Definition RetryAttempts : nat := 3.
Definition RetryBackoffBase : duration := (200 * millisecond)%Z.
Definition RetryBackoffCeiling : duration := (800 * millisecond)%Z.

(** [retryable], the four exclusions included. *)
Definition retryable : gmap string bool := list_to_map (
  ((fun m => (m, true)) <$> fast_reads) ++
  [(MethodEtcdSnapshot, false); (MethodPacketCapture, false); (MethodDiskUsage, false); (MethodKubeconfig, false)]).

Definition Retryable (method : string) : bool := default false (retryable !! method).

(** The bound of [retryBackoff]. *)
Definition retry_bound (attempt : Z) : duration :=
  let bound := double_up RetryBackoffCeiling (Z.to_nat (attempt - 1)) RetryBackoffBase in
  if bool_decide (bound > RetryBackoffCeiling)%Z then RetryBackoffCeiling else bound.

(** [retryBackoff]: [draw] is what [rand.Int] returns below its argument, [None]
    when the entropy source fails. *)
Definition retryBackoff (draw : Z -> option Z) (attempt : Z) : duration :=
  if bool_decide (attempt <= 0)%Z then 0%Z
  else let bound := retry_bound attempt in
       match draw (bound + 1)%Z with None => bound | Some n => n end.

Definition budgetAllows (now : time) (ctx : Ctx) (delay : duration) : bool :=
  match CtxDeadline ctx with
  | None => false
  | Some t => bool_decide (delay < time_sub t now)%Z
  end.

(** What the environment does around attempt [n]: the error of the call, the
    time after it, the delay drawn, and whether the context ends during the
    sleep. *)
Record attempt_env := mkAttempt { a_call : option goerr; a_now : time; a_delay : duration; a_done : bool }.

(** The loop of [conn.do] from attempt [n], [left] attempts left after it: the
    attempts that were made and the error that is returned. *)
Fixpoint do_loop (env : nat -> attempt_env) (allowed : bool) (ctx : Ctx) (left n : nat) : nat * option goerr :=
  let a := env n in
  match a_call a with
  | None => (n, None)
  | Some e =>
      match left with
      | O => (n, Some e)
      | S left' =>
          if negb allowed then (n, Some e)
          else if bool_decide (ErrorKindOf e = Some KindUnreachable) then
            if budgetAllows (a_now a) ctx (a_delay a) then
              if a_done a then (n, Some e) else do_loop env allowed ctx left' (S n)
            else (n, Some e)
          else (n, Some e)
      end
  end.

(** [conn.do]. *)
Definition do_call (env : nat -> attempt_env) (ctx : Ctx) (method : string) : nat * option goerr :=
  do_loop env (Retryable method) ctx (RetryAttempts - 1) 1.

(* ------------------------------------------------------------------ *)
(** ** client.go: the call paths *)

Fixpoint after_last_slash (s acc : string) : string :=
  match s with
  | EmptyString => acc
  | String c s' => if Ascii.eqb c "/" then after_last_slash s' s' else after_last_slash s' acc
  end.

(** [shortMethod]: what follows the last slash. *)
Definition shortMethod (method : string) : string := after_last_slash method method.

Inductive call_error := PolicyErr (e : policy_error) | NodeErr (e : goerr).

(** [conn.unaryPolicy]: what went to the wire (the number of invocations), the
    context each of them ran under, and the answer. [invoke ctx n] is attempt [n]
    on the wire: its error, with whether there were trailers. *)
Definition unaryPolicy (code_name : Z -> string) (machine : string) (now : time) (ctx : Ctx) (method : string)
    (env : nat -> attempt_env) (invoke : nat -> option (goerr * bool * bool))
    : nat * option Ctx * option call_error :=
  match classOf ctx method with
  | Err e => (0, None, Some (PolicyErr e))
  | Ok class =>
      if negb (requireDeadline ctx) then (0, None, Some (PolicyErr (ErrNoDeadline method)))
      else
        let callCtx := WithTimeout now ctx (Deadline class) in
        let call n :=
          match invoke n with
          | None => None
          | Some (e, answered, canceled) => classify code_name canceled (shortMethod method) machine answered (Some e)
          end in
        let '(n, e) := do_call (fun n => mkAttempt (call n) (a_now (env n)) (a_delay (env n)) (a_done (env n))) callCtx method in
        (n, Some callCtx, NodeErr <$> e)
  end.

(** What a stream that opened is bounded by. *)
Record policyStream := mkStream { PUnbounded : bool; PFirstByte : duration; PIdle : duration; PGotData : bool }.

(** [conn.streamPolicy] up to the opening of the stream: the context it is opened
    under and its bounds. *)
Definition streamPolicy (now : time) (ctx : Ctx) (method : string) : result policy_error (Ctx * policyStream) :=
  match ClassOf method with
  | None => Err (ErrUnclassifiedMethod method)
  | Some class =>
      let stream := mkStream (Unbounded class) (FirstByte class) (StreamIdle class) false in
      if negb (Unbounded class) then
        if negb (requireDeadline ctx) then Err (ErrNoDeadline method)
        else Ok (WithTimeout now ctx (Deadline class), stream)
      else Ok (ctx, stream)
  end.

(** [policyStream.window], and the timer of a receive: [None] when there is
    none. *)
Definition window (s : policyStream) : duration := if PGotData s then PIdle s else PFirstByte s.
Definition receive_timer (s : policyStream) : option duration :=
  if PUnbounded s && bool_decide (window s > 0)%Z then Some (window s) else None.

(* ------------------------------------------------------------------ *)
(** ** breaker.go *)

Definition BreakerFailureThreshold : Z := 3.
Definition BreakerCooldown : duration := (30 * second)%Z.
Definition breakerRetention : duration := hour.
Definition breakerSweepInterval : duration := minute.

Record breakerState := mkBS { Failures : Z; OpenedAt : time; Touched : time }.
Record Breaker := mkBreaker { nodes : gmap string breakerState; lastSweep : time }.

Definition NewBreaker : Breaker := mkBreaker ∅ zero_time.

(** [Breaker.Allow]: the new state, and [None] when the call may go ahead; a
    refusal says how many failures there were and when the next trial is. *)
Definition Allow (now : time) (b : Breaker) (machine : string) : Breaker * option (Z * duration) :=
  match nodes b !! machine with
  | None => (b, None)
  | Some s =>
      if bool_decide (Failures s < BreakerFailureThreshold)%Z then (b, None)
      else if bool_decide (time_sub now (OpenedAt s) < BreakerCooldown)%Z
      then (b, Some (Failures s, (BreakerCooldown - time_sub now (OpenedAt s))%Z))
      else (mkBreaker (<[machine := mkBS (Failures s) now now]> (nodes b)) (lastSweep b), None)
  end.

Definition Success (b : Breaker) (machine : string) : Breaker :=
  mkBreaker (delete machine (nodes b)) (lastSweep b).

(** [Breaker.sweep]. *)
Definition sweep (now : time) (b : Breaker) : Breaker :=
  if bool_decide (time_sub now (lastSweep b) < breakerSweepInterval)%Z then b
  else mkBreaker (filter (fun '(_, s) => ~ (time_sub now (Touched s) >= breakerRetention)%Z) (nodes b)) now.

(** [Breaker.Fail]. *)
Definition Fail_node (now : time) (b : Breaker) (machine : string) : Breaker :=
  let b := sweep now b in
  let s := default (mkBS 0 zero_time zero_time) (nodes b !! machine) in
  let failures := (Failures s + 1)%Z in
  let opened := if bool_decide (failures = BreakerFailureThreshold) then now else OpenedAt s in
  mkBreaker (<[machine := mkBS failures opened now]> (nodes b)) (lastSweep b).

(** [Breaker.Observe]. *)
Definition Observe (now : time) (b : Breaker) (machine : string) (err : option goerr) : Breaker :=
  match err with
  | None => Success b machine
  | Some e =>
      match ErrorKindOf e with
      | Some KindUnreachable | Some KindTimeout => Fail_node now b machine
      | Some KindRejected | None => b
      end
  end.

(** One call on the breaker. *)
Inductive breaker_op := OAllow (machine : string) | OObserve (machine : string) (err : option goerr).

Definition breaker_step (b : Breaker) (op : time * breaker_op) : Breaker :=
  match op with
  | (now, OAllow m) => (Allow now b m).1
  | (now, OObserve m e) => Observe now b m e
  end.

Definition breaker_run (b : Breaker) (ops : list (time * breaker_op)) : Breaker := fold_left breaker_step ops b.

(* ------------------------------------------------------------------ *)
(** ** The policy as a whole *)

Lemma retry_table_classes :
  forallb (fun '(m, r) => negb r || bool_decide (deadlineClasses !! m = Some ClassFastRead)) (map_to_list retryable) = true /\
  forallb (fun '(m, c) => negb (bool_decide (c = ClassFastRead)) || bool_decide (m = MethodKubeconfig) || Retryable m)
    (map_to_list deadlineClasses) = true.
Proof. split; vm_compute; reflexivity. Qed.

Lemma Retryable_spec method :
  Retryable method = true <-> ClassOf method = Some ClassFastRead /\ method <> MethodKubeconfig.
Proof.
  destruct retry_table_classes as [H1 H2].
  pose proof (proj1 (forallb_forall _ _) H1) as T1. pose proof (proj1 (forallb_forall _ _) H2) as T2. clear H1 H2. split.
  - intros Hr. destruct (retryable !! method) as [r|] eqn:E; unfold Retryable in Hr; rewrite E in Hr; [|discriminate Hr].
    assert (r = true) as -> by exact Hr. split.
    + pose proof (T1 (method, true) (proj1 (list_elem_of_In _ _) (proj2 (elem_of_map_to_list _ _ _) E))) as Hb.
      exact (bool_decide_eq_true_1 _ Hb).
    + intros ->. vm_compute in E. discriminate E.
  - intros [Hc Hne]. unfold ClassOf in Hc.
    pose proof (T2 (method, ClassFastRead) (proj1 (list_elem_of_In _ _) (proj2 (elem_of_map_to_list _ _ _) Hc))) as Hb.
    cbv beta iota in Hb. rewrite (bool_decide_eq_false_2 _ Hne) in Hb. exact Hb.
Qed.

Lemma budgetAllows_spec now ctx delay :
  budgetAllows now ctx delay = true ->
  exists t, CtxDeadline ctx = Some t /\ (0 <= delay -> now + delay < t)%Z.
Proof.
  unfold budgetAllows. destruct (CtxDeadline ctx) as [t|]; [|done]. intros H%bool_decide_eq_true_1.
  exists t. split; [done|]. intros H0. pose proof (lt_time_sub _ _ _ H0 H). lia.
Qed.

Lemma do_loop_bounds env allowed ctx left n :
  let '(m, r) := do_loop env allowed ctx left n in
  n <= m <= n + left /\ r = a_call (env m) /\
  (allowed = false -> m = n) /\
  forall k, n <= k < m -> exists e, a_call (env k) = Some e /\ ErrorKindOf e = Some KindUnreachable /\
    exists t, CtxDeadline ctx = Some t /\ (0 <= a_delay (env k) -> a_now (env k) + a_delay (env k) < t)%Z.
Proof.
  revert n. induction left as [|left IH]; intros n; cbn [do_loop].
  - destruct (a_call (env n)) eqn:E; rewrite ?E; split_and!; try done; lia || (intros; lia).
  - destruct (a_call (env n)) as [e|] eqn:E.
    2:{ split_and!; try done; lia || (intros; lia). }
    assert (n <= n <= n + S left /\ Some e = a_call (env n) /\ (allowed = false -> n = n) /\
      (forall k, n <= k < n -> exists e, a_call (env k) = Some e /\ ErrorKindOf e = Some KindUnreachable /\
        exists t, CtxDeadline ctx = Some t /\ (0 <= a_delay (env k) -> a_now (env k) + a_delay (env k) < t)%Z)) as Hstop.
    { split_and!; try done; lia || (intros; lia). }
    destruct allowed; cbn [negb]; [|exact Hstop]. case_bool_decide as Hk; [|exact Hstop].
    destruct (budgetAllows (a_now (env n)) ctx (a_delay (env n))) eqn:Hb; [|exact Hstop].
    destruct (a_done (env n)); [exact Hstop|].
    specialize (IH (S n)). destruct (do_loop env true ctx left (S n)) as [m r]. destruct IH as (H1 & H2 & H3 & H4).
    split_and!; [lia|lia|done|done|]. intros k Hk'. destruct (decide (k = n)) as [->|Hne]; [|apply H4; lia].
    exists e. split_and!; [exact E|exact Hk|]. by apply budgetAllows_spec.
Qed.

Lemma classify_Some code_name c op machine b e : is_Some (classify code_name c op machine b (Some e)).
Proof.
  unfold classify. destruct (bool_decide (is_Some (as_talos e))); [by eexists|].
  destruct (is_dry_run e); [by eexists|]. destruct c; [by eexists|]. destruct (is_canceled e); by eexists.
Qed.

(** C20: what reaches a node through a unary call. A call of a method nobody
    classified, or without a deadline, never goes to the wire. Every attempt runs
    under a deadline that is no later than the caller's and no later than the
    class's budget from the start of the call. There are at most three attempts,
    and exactly one for anything but a fast read (every mutation included) and
    for Kubeconfig; an attempt is repeated only after one that found the node
    unreachable, only when the sleep ends before the deadline, and the answer is
    that of the last attempt. *)
Theorem unaryPolicy_spec code_name machine now ctx method env invoke :
  let '(n, callCtx, e) := unaryPolicy code_name machine now ctx method env invoke in
  n <= 3 /\
  (n = 0 <-> classOf ctx method = Err (ErrUnclassifiedMethod method) \/ CtxDeadline ctx = None) /\
  (ClassOf method <> Some ClassFastRead \/ method = MethodKubeconfig -> n <= 1) /\
  forall class caller, classOf ctx method = Ok class -> CtxDeadline ctx = Some caller ->
    exists t, (CtxDeadline <$> callCtx) = Some (Some t) /\ (t <= caller)%Z /\ (t <= now + Deadline class)%Z /\
      (e = None <-> invoke n = None) /\
      forall k, 1 <= k < n -> exists e' b c, invoke k = Some (e', b, c) /\
        (exists e1, classify code_name c (shortMethod method) machine b (Some e') = Some e1 /\
           ErrorKindOf e1 = Some KindUnreachable) /\
        (0 <= a_delay (env k) -> a_now (env k) + a_delay (env k) < t)%Z.
Proof.
  unfold unaryPolicy. destruct (classOf ctx method) as [class|pe] eqn:Hc.
  2:{ assert (pe = ErrUnclassifiedMethod method) as ->.
      { unfold classOf in Hc. destruct (bool_decide _ && _); [done|]. destruct (ClassOf method); by simplify_eq. }
      split_and!; [lia|by split; auto|intros; lia|done]. }
  unfold requireDeadline. destruct (CtxDeadline ctx) as [caller|] eqn:Hd; cbn [negb].
  2:{ split_and!; [lia|by split; auto|intros; lia|done]. }
  set (callCtx := WithTimeout now ctx (Deadline class)).
  set (env' := fun n => mkAttempt _ (a_now (env n)) _ _).
  pose proof (do_loop_bounds env' (Retryable method) callCtx (RetryAttempts - 1) 1) as HB. unfold do_call.
  destruct (do_loop env' (Retryable method) callCtx (RetryAttempts - 1) 1) as [n r].
  destruct HB as (Hn & Hr & Hone & Hrep). cbn in Hn. split_and!.
  - lia.
  - split; [lia|]. intros [?|?]; done.
  - intros Hno. destruct (Retryable method) eqn:Hy; [|specialize (Hone eq_refl); lia].
    apply Retryable_spec in Hy as [Hf Hk]. destruct Hno as [Hno|Hno]; exfalso; [exact (Hno Hf)|exact (Hk Hno)].
  - intros class' caller' [= <-] [= <-]. unfold callCtx. cbn [CtxDeadline fmap option_fmap option_map WithTimeout].
    rewrite Hd. eexists. split_and!; [done|lia|lia| |].
    + subst r. unfold env'. cbn [a_call]. destruct (invoke n) as [[[e b] c]|]; [|done].
      split; [|discriminate]. destruct (classify_Some code_name c (shortMethod method) machine b e) as [e1 ->]. discriminate.
    + intros k Hk. destruct (Hrep k Hk) as (e & He & Hke & t & Ht & Hlt). unfold env' in He. cbn [a_call] in He.
      destruct (invoke k) as [[[e' b] c]|] eqn:Hi; [|done]. exists e', b, c. split_and!; [done|eauto|].
      unfold callCtx in Ht. cbn [CtxDeadline WithTimeout] in Ht. rewrite Hd in Ht. injection Ht as <-. exact Hlt.
Qed.

(** what a stream is bounded by. A method that is a stream but a bounded read
    runs under its class's total deadline, and needs one from its caller; the
    three unbounded classes run under the caller's context as it is. There, the
    first receive waits at most ten seconds (two minutes for the acknowledgement
    of an upload); once something has arrived, a log-like stream may be silent
    for a minute, and a watch or an upload for as long as it likes. *)
Theorem streamPolicy_spec now ctx method class :
  ClassOf method = Some class ->
  match streamPolicy now ctx method with
  | Err e => e = ErrNoDeadline method /\ Unbounded class = false /\ CtxDeadline ctx = None
  | Ok (c, s) =>
      (Unbounded class = false -> exists caller, CtxDeadline ctx = Some caller /\
         CtxDeadline c = Some (Z.min caller (now + Deadline class)) /\ receive_timer s = None) /\
      (Unbounded class = true -> c = ctx /\ Deadline class = 0%Z /\
         receive_timer s = Some (if bool_decide (class = ClassUpload) then 120 * second else 10 * second)%Z /\
         receive_timer (mkStream (PUnbounded s) (PFirstByte s) (PIdle s) true) =
           if bool_decide (class = ClassStream) then Some (60 * second)%Z else None)
  end.
Proof.
  intros Hc. unfold streamPolicy. rewrite Hc. unfold requireDeadline.
  destruct (Unbounded class) eqn:Hu; cbn [negb].
  - split; [discriminate|]. intros _. destruct class; try (vm_compute in Hu; discriminate Hu); split_and!; try reflexivity.
  - destruct (CtxDeadline ctx) as [caller|] eqn:Hd; cbn [negb].
    + split; [|discriminate]. intros _. exists caller. cbn [CtxDeadline WithTimeout]. rewrite Hd. split_and!; reflexivity.
    + split_and!; reflexivity.
Qed.

Lemma class_of_watch : ClassOf MethodCOSIWatch = Some ClassWatch.
Proof. vm_compute. reflexivity. Qed.
Lemma class_of_recover : ClassOf MethodEtcdRecover = Some ClassUpload.
Proof. vm_compute. reflexivity. Qed.

Lemma streamPolicy_spec_witness :
  match streamPolicy 5 (mkCtx None false) MethodCOSIWatch with
  | Err _ => False
  | Ok (c, s) => c = mkCtx None false /\ receive_timer (mkStream (PUnbounded s) (PFirstByte s) (PIdle s) true) = None
  end.
Proof.
  pose proof (streamPolicy_spec 5 (mkCtx None false) MethodCOSIWatch ClassWatch class_of_watch) as H.
  destruct (streamPolicy 5 (mkCtx None false) MethodCOSIWatch) as [[c s]|e].
  - destruct H as [_ H]. destruct (H eq_refl) as (-> & _ & _ & Ht). split; [reflexivity|exact Ht].
  - destruct H as (_ & H & _). discriminate H.
Defined.

(** The deadline a caller gets for a watch or for an upload is the present
    moment: [WithClassDeadline] exempts the stream class only, and the other two
    classes without a total deadline get a timeout of zero, where the stream path
    gives them none. *)
Theorem unbounded_class_expires_at_once now :
  WithClassDeadline now (mkCtx None false) MethodCOSIWatch = Ok (mkCtx (Some now) false) /\
  WithClassDeadline now (mkCtx None false) MethodEtcdRecover = Ok (mkCtx (Some now) false) /\
  (exists s, streamPolicy now (mkCtx None false) MethodCOSIWatch = Ok (mkCtx None false, s)).
Proof.
  unfold WithClassDeadline, streamPolicy. rewrite class_of_watch, class_of_recover. cbn [Unbounded].
  split_and!.
  - unfold WithTimeout. cbn. by rewrite Z.add_0_r.
  - unfold WithTimeout. cbn. by rewrite Z.add_0_r.
  - eexists. reflexivity.
Qed.

(* ------------------------------------------------------------------ *)
(** ** The breaker *)

Definition transport_failure (err : option goerr) : bool :=
  match err with
  | Some e => bool_decide (ErrorKindOf e = Some KindUnreachable) || bool_decide (ErrorKindOf e = Some KindTimeout)
  | None => false
  end.

Lemma Observe_cases now b machine err :
  Observe now b machine err =
    match err with
    | None => Success b machine
    | Some _ => if transport_failure err then Fail_node now b machine else b
    end.
Proof. unfold Observe, transport_failure. destruct err as [e|]; [|done]. by destruct (ErrorKindOf e) as [[]|]. Qed.

Lemma sweep_lookup now b m s :
  nodes b !! m = Some s -> (time_sub now (Touched s) < breakerRetention)%Z -> nodes (sweep now b) !! m = Some s.
Proof.
  intros Hs Ht. unfold sweep. case_bool_decide; [done|]. cbn. apply map_lookup_filter_Some. split; [done|]. lia.
Qed.

Lemma sweep_sub now b m s : nodes (sweep now b) !! m = Some s -> nodes b !! m = Some s.
Proof. unfold sweep. case_bool_decide; [done|]. cbn. by intros [? _]%map_lookup_filter_Some. Qed.

(** An open circuit whose trial started at [t0] stays as it is. *)
Definition tried (t0 : time) (m : string) (b : Breaker) : Prop :=
  exists s, nodes b !! m = Some s /\ (BreakerFailureThreshold <= Failures s)%Z /\ OpenedAt s = t0 /\ (t0 <= Touched s)%Z.

Lemma cooldown_refuses t0 now m b :
  tried t0 m b -> (t0 <= now < t0 + BreakerCooldown)%Z -> exists w, Allow now b m = (b, Some w).
Proof.
  intros (s & Hs & Hf & Ho & _) Ht. unfold Allow. rewrite Hs, bool_decide_eq_false_2 by lia.
  rewrite bool_decide_eq_true_2; [by eexists|]. rewrite Ho. apply time_sub_lt; [done|done|lia].
Qed.

Lemma tried_step t0 m b now op :
  tried t0 m b -> (t0 <= now < t0 + BreakerCooldown)%Z -> op <> OObserve m None ->
  tried t0 m (breaker_step b (now, op)).
Proof.
  intros Ht Hnow Hop. pose proof Ht as (s & Hs & Hf & Ho & Htt).
  assert (forall m', nodes (sweep now b) !! m = Some s /\ (m' <> m -> tried t0 m (Fail_node now b m'))) as Hsw.
  { intros m'. assert (nodes (sweep now b) !! m = Some s) as Hsw.
    { apply sweep_lookup; [done|]. apply time_sub_lt; [done|done|]. unfold BreakerCooldown, breakerRetention, hour, minute, second in *. lia. }
    split; [done|]. intros Hne. exists s. cbn. rewrite lookup_insert_ne by done. done. }
  destruct op as [m'|m' err]; cbn.
  - destruct (decide (m' = m)) as [->|Hne]; [by destruct (cooldown_refuses t0 now m b Ht Hnow) as [w ->]|].
    exists s. unfold Allow. destruct (nodes b !! m') as [s'|]; [|done]. repeat case_bool_decide; cbn; try done.
    by rewrite lookup_insert_ne.
  - rewrite Observe_cases. destruct err as [e|].
    + destruct (transport_failure (Some e)); [|done]. destruct (decide (m' = m)) as [->|Hne]; [|by apply Hsw].
      destruct (Hsw m) as [Hm _]. eexists. unfold Fail_node. cbn. rewrite lookup_insert_eq. split; [done|].
      rewrite Hm. cbn. unfold BreakerFailureThreshold in *. rewrite bool_decide_eq_false_2 by lia. split_and!; [lia|done|lia].
    + exists s. cbn. rewrite lookup_delete_ne; [done|]. intros ->. done.
Qed.

(** an open circuit lets one trial through per cooldown. After a call was let
    through on an open circuit at [t0], every further call to that machine in the
    next thirty seconds is refused, whatever was called and observed on this and
    on other machines in between, unless the machine answered a call. *)
Theorem one_trial_per_cooldown t0 b b' m s ops now :
  nodes b !! m = Some s -> (BreakerFailureThreshold <= Failures s)%Z -> Allow t0 b m = (b', None) ->
  Forall (fun '(t, op) => (t0 <= t < t0 + BreakerCooldown)%Z /\ op <> OObserve m None) ops ->
  (t0 <= now < t0 + BreakerCooldown)%Z ->
  exists w, (Allow now (breaker_run b' ops) m).2 = Some w.
Proof.
  intros Hs Hf Ha Hops Hnow. assert (tried t0 m b') as Ht.
  { unfold Allow in Ha. rewrite Hs, bool_decide_eq_false_2 in Ha by lia. case_bool_decide; [done|].
    injection Ha as <-. eexists. cbn. rewrite lookup_insert_eq. split_and!; [done|done|done|cbn; lia]. }
  clear Ha Hs. revert b' Ht. induction Hops as [|[t op] ops [Ht Hop] _ IH]; intros b' Htr; cbn.
  - destruct (cooldown_refuses t0 now m b' Htr Hnow) as [w ->]. by exists w.
  - apply IH. by apply tried_step.
Qed.

(** The transport failures of a machine since it last answered. *)
Definition consecutive (m : string) (ops : list (time * breaker_op)) : Z :=
  fold_left (fun n op => match op.2 with
                         | OObserve m' err => if bool_decide (m' = m) then
                             match err with None => 0 | Some _ => if transport_failure err then n + 1 else n end
                             else n
                         | OAllow _ => n
                         end)%Z ops 0%Z.

Lemma consecutive_bound m ops : forall b n,
  (forall s, nodes b !! m = Some s -> Failures s <= n)%Z -> (0 <= n)%Z ->
  forall s, nodes (breaker_run b ops) !! m = Some s ->
  (Failures s <= fold_left (fun n op => match op.2 with
                         | OObserve m' err => if bool_decide (m' = m) then
                             match err with None => 0 | Some _ => if transport_failure err then n + 1 else n end
                             else n
                         | OAllow _ => n
                         end)%Z ops n)%Z.
Proof.
  induction ops as [|[t op] ops IH]; intros b n Hb Hn s Hs; cbn in *; [by apply Hb|].
  refine (IH _ _ _ _ s Hs).
  - intros s' Hs'. destruct op as [m'|m' err]; cbn in *.
    + unfold Allow in Hs'. destruct (nodes b !! m') as [s0|] eqn:E; [|by apply Hb].
      repeat case_bool_decide; cbn in Hs'; try by apply Hb.
      destruct (decide (m' = m)) as [->|Hne]; [rewrite lookup_insert_eq in Hs'; injection Hs' as <-; cbn; by apply Hb|].
      rewrite lookup_insert_ne in Hs' by done. by apply Hb.
    + rewrite Observe_cases in Hs'. destruct (decide (m' = m)) as [->|Hne].
      * rewrite bool_decide_eq_true_2 by done. destruct err as [e|]; [|cbn in Hs'; by rewrite lookup_delete_eq in Hs'].
        destruct (transport_failure (Some e)); [|by apply Hb]. cbn in Hs'. rewrite lookup_insert_eq in Hs'.
        injection Hs' as <-. cbn. destruct (nodes (sweep t b) !! m) as [s0|] eqn:E; cbn; [|lia].
        apply sweep_sub in E. specialize (Hb _ E). lia.
      * rewrite bool_decide_eq_false_2 by done. destruct err as [e|]; [|cbn in Hs'; rewrite lookup_delete_ne in Hs' by done; by apply Hb].
        destruct (transport_failure (Some e)); [|by apply Hb]. cbn in Hs'. rewrite lookup_insert_ne in Hs' by done.
        apply sweep_sub in Hs'. by apply Hb.
  - destruct op as [m'|m' err]; [done|]. case_bool_decide; [|done]. destruct err as [e|]; [|lia].
    destruct (transport_failure (Some e)); lia.
Qed.

(** only its own transport failures open a node's circuit. A call to a
    machine is refused only when that machine had at least three transport
    failures since it last answered: a refusal by the node, a cancelled call, a
    call this process declined and the failures of other machines never count. *)
Theorem refused_after_three_failures ops now m w :
  (Allow now (breaker_run NewBreaker ops) m).2 = Some w -> (3 <= consecutive m ops)%Z.
Proof.
  intros Ha. unfold Allow in Ha. destruct (nodes (breaker_run NewBreaker ops) !! m) as [s|] eqn:E; [|done].
  unfold BreakerFailureThreshold in Ha. destruct (decide (Failures s < 3)%Z); [by rewrite bool_decide_eq_true_2 in Ha|].
  pose proof (consecutive_bound m ops NewBreaker 0 ltac:(done) ltac:(lia) s E). unfold consecutive. lia.
Qed.

Definition refused_err : goerr := mkErr (Some ("Version", "m1", KindUnreachable, 14%Z)) false false false None "".
Definition three_failures : list (time * breaker_op) :=
  [(1 * second, OObserve "m1" (Some refused_err)); (2 * second, OObserve "m1" (Some refused_err));
   (3 * second, OObserve "m1" (Some refused_err))]%Z.

Lemma refused_after_three_failures_witness : (3 <= consecutive "m1" three_failures)%Z.
Proof.
  apply (refused_after_three_failures three_failures (4 * second) "m1" (3%Z, (29 * second)%Z)). vm_compute. reflexivity.
Defined.

Lemma one_trial_per_cooldown_witness :
  exists w, (Allow (50 * second) (breaker_run (Allow (40 * second) (breaker_run NewBreaker three_failures) "m1").1
     [(45 * second, OObserve "m1" (Some refused_err))])%Z "m1").2 = Some w.
Proof.
  eapply (one_trial_per_cooldown (40 * second) (breaker_run NewBreaker three_failures) _ "m1" (mkBS 3 (3 * second) (3 * second))).
  - vm_compute. reflexivity.
  - done.
  - vm_compute. reflexivity.
  - constructor; [|constructor]. split; [by vm_compute|done].
  - by vm_compute.
Defined.
