(* ===== verification/NodeActions.v ===== *)
(** * Node actions

    [src/internal/jobs/nodeactions.go]: reboot, shutdown and reset as steps of
    jobs, and the three questions that make the first two safe to resume. A step
    is a pair of programs over the calls to a node; the contexts they make go to
    the calls, so that what the deadline policy of [Transport.v] asks of a call
    can be said of them. *)

From S2P Require Import Prelude Jobs Transport Effects.

(* ------------------------------------------------------------------ *)
(** ** The calls to a node *)

(** An error of a call to a node: what the policy layer made of it, and the
    sentinels of the talos package it wraps. *)
Record node_error := mkNodeError {
  ne_err : goerr;
  ne_unsupported : bool;      (* errors.Is(err, ErrUnsupportedVersion) *)
  ne_prerelease : bool;
  ne_pin : bool }.

Record ResetOptions := mkResetOptions {
  Mode : string;
  Graceful : bool;
  Reboot : bool;
  UserDisksToWipe : list string }.

Inductive NodeCall : Type -> Type :=
  | Now : NodeCall time
  | Connect (ctx : Ctx) (id : string) : NodeCall (result node_error unit)
  | Version (ctx : Ctx) (id : string) : NodeCall (result node_error string)
  | Uptime (ctx : Ctx) (id : string) : NodeCall (result node_error duration)
  | RebootNode (ctx : Ctx) (id : string) (force : bool) : NodeCall (result node_error unit)
  | ShutdownNode (ctx : Ctx) (id : string) (force : bool) : NodeCall (result node_error unit)
  | ResetNode (ctx : Ctx) (id : string) (opts : ResetOptions) : NodeCall (result node_error unit).

(** The context of a job: it outlives the request that asked for it, and has no
    deadline of its own. *)
Definition job_ctx : Ctx := mkCtx None false.

(** The error of a step: whether it wraps [context.Canceled], and its text. *)
Record step_error := mkStepError { se_canceled : bool; se_text : string }.
Definition say (text : string) : step_error := mkStepError false text.
Definition node_says (prefix : string) (e : node_error) : step_error :=
  mkStepError (is_canceled (ne_err e)) (prefix +:+ err_text (ne_err e)).

(** What a [Do] leaves: the detail it wrote on its step, and its error. *)
Abbreviation outcome := (option string * option step_error)%type (only parsing).
Definition did (detail : string) : outcome := (Some detail, None).
Definition failed (e : step_error) : outcome := (None, Some e).

Section Steps.
Context {Call : Type -> Type}.

(** [Step]: the side effect, and the question whether it happened. *)
Record Step := mkStep {
  StepName : string;
  Do : Job -> prog Call outcome;
  Happened : option (Job -> prog Call (result step_error bool)) }.

Definition renamed (name : string) (s : Step) : Step := mkStep name (Do s) (Happened s).

(** What the engine knows of a step. *)
Definition step_def (s : Step) : StepDef := {| SName := StepName s; SVerifiable := bool_decide (is_Some (Happened s)) |}.

(** [job.Steps[i].StartedAt]. *)
Definition started_at (j : Job) (i : Z) : time := match step_at j i with Some s => StStartedAt s | None => zero_time end.

(** The question of a step that only reads, or may be repeated. *)
Definition never (_ : Job) : prog Call (result step_error bool) := mret (Ok false).
End Steps.
Arguments Step : clear implicits.

(* ------------------------------------------------------------------ *)
(** ** The questions *)

Definition probeTimeout : duration := (8 * second)%Z.

(** [ClusterClient.Probe]. *)
Definition Probe (ctx : Ctx) (id : string) : prog NodeCall (result node_error string) :=
  now ← call Now;
  call (Version (WithTimeout now (mkCtx (CtxDeadline ctx) true) ProbeDeadline) id).

Definition probe_ctx : prog NodeCall Ctx := now ← call Now; mret (WithTimeout now job_ctx probeTimeout).

Definition Reachable (id : string) : prog NodeCall bool :=
  ctx ← probe_ctx;
  c ← call (Connect ctx id);
  match c with
  | Err _ => mret false
  | Ok _ => v ← Probe ctx id; mret (is_ok v)
  end.

Definition RebootedSince (id : string) (since : time) : prog NodeCall (result step_error bool) :=
  ctx ← probe_ctx;
  c ← call (Connect ctx id);
  match c with
  | Err e => mret (Err (node_says "the node is not answering, so it cannot say whether it rebooted: " e))
  | Ok _ =>
      up ← call (Uptime ctx id);
      match up with
      | Err e => mret (Err (node_says "" e))
      | Ok up => now ← call Now; mret (Ok (bool_decide (up < time_sub now since)%Z))
      end
  end.

(* ------------------------------------------------------------------ *)
(** ** The steps *)

Definition MethodReboot : string := machineService +:+ "Reboot".
Definition MethodShutdown : string := machineService +:+ "Shutdown".
Definition MethodReset : string := machineService +:+ "Reset".

Definition ReachableStep (id : string) : Step NodeCall := mkStep "check the node answers"
  (fun _ =>
     ctx ← probe_ctx;
     c ← call (Connect ctx id);
     match c with
     | Err e => mret (failed (node_says "the node did not answer: " e))
     | Ok _ =>
         v ← Probe ctx id;
         mret (match v with
               | Err e => failed (node_says "the node did not answer: " e)
               | Ok version => did ("answering, Talos " +:+ version)
               end)
     end)
  (Some never).

(** The way every mutation is sent: under the budget of its class, on a client
    opened for it. *)
Definition mutate (method id : string) (rpc : Ctx -> NodeCall (result node_error unit)) (detail : string) : prog NodeCall outcome :=
  now ← call Now;
  match WithClassDeadline now job_ctx method with
  | Err _ => mret (failed (say "the call has no class"))
  | Ok ctx =>
      c ← call (Connect ctx id);
      match c with
      | Err e => mret (failed (node_says "" e))
      | Ok _ =>
          r ← call (rpc ctx);
          mret (match r with Err e => failed (node_says "" e) | Ok _ => did detail end)
      end
  end.

Definition RebootStep (id : string) (force : bool) : Step NodeCall := mkStep
  (if force then "force-reboot the node" else "reboot the node")
  (fun _ => mutate MethodReboot id (fun ctx => RebootNode ctx id force)
     (if force then "the node accepted the reboot, without draining anything first" else "the node accepted the reboot"))
  (Some (fun j => RebootedSince id (started_at j (Current j)))).

Definition ShutdownStep (id : string) (force : bool) : Step NodeCall := mkStep
  (if force then "force the node off" else "shut the node down")
  (fun _ => mutate MethodShutdown id (fun ctx => ShutdownNode ctx id force)
     "the node accepted the shutdown; it will not come back on its own")
  (Some (fun _ => up ← Reachable id; mret (Ok (negb up)))).

(** ** Reset *)

Definition ResetWipeModes : list string := ["user-disks"; "system-disk"; "all"].

(** [strconv.ParseBool]. *)
Definition parse_bool (s : string) : option bool :=
  if bool_decide (s ∈ ["1"; "t"; "T"; "TRUE"; "true"; "True"]) then Some true
  else if bool_decide (s ∈ ["0"; "f"; "F"; "FALSE"; "false"; "False"]) then Some false
  else None.

Definition parseBoolParam (params : gmap string string) (name : string) : result string bool :=
  match params !! name with
  | None | Some EmptyString =>
      Err ("jobs: a reset must state " +:+ name +:+ " explicitly; its false value is the dangerous one and must be chosen rather than inherited")
  | Some raw => match parse_bool raw with Some v => Ok v | None => Err ("jobs: " +:+ raw +:+ " is not a boolean for " +:+ name) end
  end.

Definition ResetOptionsFromParams (params : gmap string string) : result string ResetOptions :=
  let mode := default "" (params !! "wipe_mode") in
  if bool_decide (mode = "") then
    Err "jobs: a reset must name its wipe mode; there is no default, because Talos's own default wipes everything"
  else if negb (bool_decide (mode ∈ ResetWipeModes)) then Err ("jobs: " +:+ mode +:+ " is not a wipe mode")
  else
    graceful ← parseBoolParam params "graceful";
    reboot ← parseBoolParam params "reboot";
    let raw := default "" (params !! "user_disks") in
    let disks := if bool_decide (raw = "") then [] else split_on "," raw in
    if bool_decide (mode = "user-disks") && bool_decide (length disks = 0) then
      Err "jobs: a user-disks reset must name the disks; naming none would wipe none, which is not what the operator asked for"
    else Ok (mkResetOptions mode graceful reboot disks).

Definition describeReset (o : ResetOptions) : string :=
  (if bool_decide (Mode o = "all") then "wiped every disk"
   else if bool_decide (Mode o = "system-disk") then "wiped the system disk"
   else if bool_decide (Mode o = "user-disks") then "wiped " +:+ join ", " (UserDisksToWipe o)
   else "")
  +:+ (if Graceful o then ", after leaving etcd" else ", without leaving etcd first")
  +:+ (if Reboot o then ", rebooting" else ", halting (the machine will not come back on its own)").

Definition ResetStep (id : string) (opts : ResetOptions) : Step NodeCall := mkStep "wipe the node"
  (fun j => mutate MethodReset (Machine j) (fun ctx => ResetNode ctx (Machine j) opts) (describeReset opts))
  None.

(** ** Registration *)

(** [afterRebooted], with the hook as a call of the process itself. *)
Inductive ActionCall : Type -> Type :=
  | OnNode {R} (c : NodeCall R) : ActionCall R
  | RebootHook (id : string) : ActionCall unit.

Definition on_node {A} (p : prog NodeCall A) : prog ActionCall A := lift (@OnNode) p.

Definition lift_step (s : Step NodeCall) : Step ActionCall := mkStep (StepName s)
  (fun j => on_node (Do s j))
  ((fun h j => on_node (h j)) <$> Happened s).

Definition afterRebooted (s : Step ActionCall) (id : string) (hook : bool) : Step ActionCall :=
  if negb hook then s
  else mkStep (StepName s)
    (fun j =>
       o ← Do s j;
       match o with
       | (d, None) => _ ← call (RebootHook id); mret (d, None)
       | _ => mret o
       end)
    ((fun h j =>
        r ← h j;
        match r with
        | Ok true => _ ← call (RebootHook id); mret r
        | _ => mret r
        end) <$> Happened s).

Definition JobReboot : string := "node.reboot".
Definition JobShutdown : string := "node.shutdown".
Definition JobReset : string := "node.reset".

(** The builders of [RegisterNodeActions]. *)
Definition node_action (hook : bool) (kind : string) (j : Job) : option (result string (list (Step ActionCall))) :=
  let id := Machine j in
  if bool_decide (kind = JobReboot) then
    Some (Ok [lift_step (ReachableStep id); afterRebooted (lift_step (RebootStep id false)) id hook])
  else if bool_decide (kind = JobShutdown) then
    Some (Ok [lift_step (ReachableStep id); lift_step (ShutdownStep id false)])
  else if bool_decide (kind = JobReset) then
    Some (opts ← ResetOptionsFromParams (Params j); Ok [lift_step (ReachableStep id); lift_step (ResetStep id opts)])
  else None.

(* ------------------------------------------------------------------ *)
(** ** What a node is asked *)

Inductive NodeOp :=
  | OpConnect | OpVersion | OpUptime
  | OpReboot (force : bool) | OpShutdown (force : bool) | OpReset (opts : ResetOptions).

Inductive NodeEvent :=
  | Asked (ctx : Ctx) (id : string) (op : NodeOp)
  | Hooked (id : string).

(** What the environment answers to a call. *)
Record nchoice := mkNChoice {
  n_now : time;
  n_done : result node_error unit;
  n_version : result node_error string;
  n_uptime : result node_error duration }.

Definition node_act (R : Type) (c : NodeCall R) (x : nchoice) (w : list NodeEvent) : R * list NodeEvent :=
  match c in NodeCall R return R * list NodeEvent with
  | Now => (n_now x, w)
  | Connect ctx id => (n_done x, w ++ [Asked ctx id OpConnect])
  | Version ctx id => (n_version x, w ++ [Asked ctx id OpVersion])
  | Uptime ctx id => (n_uptime x, w ++ [Asked ctx id OpUptime])
  | RebootNode ctx id f => (n_done x, w ++ [Asked ctx id (OpReboot f)])
  | ShutdownNode ctx id f => (n_done x, w ++ [Asked ctx id (OpShutdown f)])
  | ResetNode ctx id opts => (n_done x, w ++ [Asked ctx id (OpReset opts)])
  end.

Definition action_act (R : Type) (c : ActionCall R) (x : nchoice) (w : list NodeEvent) : R * list NodeEvent :=
  match c in ActionCall R return R * list NodeEvent with
  | OnNode c => node_act _ c x w
  | RebootHook id => (tt, w ++ [Hooked id])
  end.

#[global] Instance action_handler : Handler ActionCall (list NodeEvent) nchoice := action_act.

(** The calls that change a node. *)
Definition mutation (e : NodeEvent) : option NodeOp :=
  match e with
  | Asked _ _ (OpReboot f) => Some (OpReboot f)
  | Asked _ _ (OpShutdown f) => Some (OpShutdown f)
  | Asked _ _ (OpReset o) => Some (OpReset o)
  | _ => None
  end.

Section Calm.
Variable id : string.

(** To this machine, and with a deadline the policy accepts. *)
Definition proper (e : NodeEvent) : Prop :=
  match e with Asked ctx id' _ => id' = id /\ requireDeadline ctx = true | Hooked id' => id' = id end.
Definition all_proper (w : list NodeEvent) : Prop := Forall proper w.

(** At any moment every call was proper, and no mutation but those of [ops] was
    sent. *)
Definition sent (ops : list NodeOp) (w : list NodeEvent) : Prop := all_proper w /\ omap mutation w = ops.

Lemma sent_snoc ops e w : sent ops w -> proper e -> mutation e = None -> sent ops (w ++ [e]).
Proof.
  intros [Hp Hm] He Hn. split; [by apply Forall_app; split; [|constructor]|]. by rewrite omap_app; cbn; rewrite Hm, Hn, app_nil_r.
Qed.

Lemma sent_mutation e op w : sent [] w -> proper e -> mutation e = Some op -> sent [op] (w ++ [e]).
Proof.
  intros [Hp Hm] He Hn. split; [by apply Forall_app; split; [|constructor]|]. by rewrite omap_app; cbn; rewrite Hm, Hn.
Qed.

Abbreviation any := (fun _ : nchoice => True) (only parsing).

(** A question asks, and changes nothing. *)
Definition asks {A} (p : prog NodeCall A) : Prop :=
  forall ops w, sent ops w -> wp any (sent ops) (on_node p) (fun _ _ => True) w.

Lemma asks_ret {A} (a : A) : asks (mret a).
Proof. intros ops w Hw. by apply wp_ret. Qed.

Lemma asks_act {A R} (c : NodeCall R) (k : R -> prog NodeCall A) :
  (forall x w ops, sent ops w -> sent ops (node_act R c x w).2) -> (forall r, asks (k r)) -> asks (Act c k).
Proof. intros Hc Hk ops w Hw. apply wp_act; [done|]. intros x _. apply Hk. by apply Hc. Qed.

Lemma asks_reachable_body {A} (f : result node_error string -> A) (g : node_error -> A) :
  asks (ctx ← probe_ctx; c ← call (Connect ctx id);
        match c with Err e => mret (g e) | Ok _ => v ← Probe ctx id; mret (f v) end).
Proof.
  apply asks_act; [done|]. intros t. apply asks_act; [intros x w ops Hw; by apply sent_snoc|].
  intros [[]|e]; [|apply asks_ret]. apply asks_act; [done|]. intros t'.
  apply asks_act; [intros x w ops Hw; by apply sent_snoc|]. intros v. apply asks_ret.
Qed.

Lemma asks_reachable : asks (Reachable id).
Proof. apply (asks_reachable_body is_ok (fun _ => false)). Qed.

Lemma asks_rebooted since : asks (RebootedSince id since).
Proof.
  apply asks_act; [done|]. intros t. apply asks_act; [intros x w ops Hw; by apply sent_snoc|].
  intros [[]|e]; [|apply asks_ret]. apply asks_act; [intros x w ops Hw; by apply sent_snoc|].
  intros [up|e]; [|apply asks_ret]. apply asks_act; [done|]. intros now. apply asks_ret.
Qed.

(** A mutation is sent once, and its step ends without an error only when the
    node took it. *)
Definition sends (op : NodeOp) (p : prog NodeCall outcome) : Prop :=
  forall w, sent [] w ->
    wp any (fun v => sent [] v \/ sent [op] v) (on_node p) (fun o v => o.2 = None -> sent [op] v) w.

Lemma class_mutation now method :
  ClassOf method = Some ClassMutation ->
  exists ctx, WithClassDeadline now job_ctx method = Ok ctx /\ requireDeadline ctx = true.
Proof. intros Hc. unfold WithClassDeadline. rewrite Hc. eexists. by split. Qed.

Lemma sends_mutate method rpc op detail :
  ClassOf method = Some ClassMutation ->
  (forall ctx x w, node_act _ (rpc ctx) x w = (n_done x, w ++ [Asked ctx id op])) ->
  (forall ctx, mutation (Asked ctx id op) = Some op) ->
  sends op (mutate method id rpc detail).
Proof.
  intros Hc Hrpc Hop w Hw. unfold mutate. apply wp_act; [by left|]. intros x _.
  destruct (class_mutation (n_now x) method Hc) as (ctx & E & Hctx).
  change (act (OnNode Now) x w) with (n_now x, w). cbn [fst snd]. rewrite E.
  assert (Hw' : sent [] (w ++ [Asked ctx id OpConnect])) by (apply sent_snoc; [done|by split|done]).
  assert (Hs : sent [op] ((w ++ [Asked ctx id OpConnect]) ++ [Asked ctx id op]))
    by (apply sent_mutation; [done|by split|done]).
  apply wp_act; [by left|]. intros y _. change (act (OnNode (Connect ctx id)) y w) with (n_done y, w ++ [Asked ctx id OpConnect]).
  cbn [fst snd]. destruct (n_done y) as [u|e]; [|apply wp_ret; [by left|done]].
  apply wp_act; [by left|]. intros z _. change (act (OnNode (rpc ctx)) z) with (node_act _ (rpc ctx) z). rewrite Hrpc. cbn [fst snd].
  destruct (n_done z) as [u'|e]; (apply wp_ret; [by right|intros _; exact Hs]).
Qed.

(** The three methods are of the mutation class. *)
Lemma class_of_actions :
  ClassOf MethodReboot = Some ClassMutation /\ ClassOf MethodShutdown = Some ClassMutation /\
  ClassOf MethodReset = Some ClassMutation.
Proof. vm_compute. done. Qed.

Lemma sends_reboot force j : sends (OpReboot force) (Do (RebootStep id force) j).
Proof.
  unfold RebootStep. cbn [Do]. apply (sends_mutate MethodReboot (fun ctx => RebootNode ctx id force));
    [apply class_of_actions|reflexivity|reflexivity].
Qed.
Lemma sends_shutdown force j : sends (OpShutdown force) (Do (ShutdownStep id force) j).
Proof.
  unfold ShutdownStep. cbn [Do]. apply (sends_mutate MethodShutdown (fun ctx => ShutdownNode ctx id force));
    [apply class_of_actions|reflexivity|reflexivity].
Qed.
Lemma sends_reset opts j : Machine j = id -> sends (OpReset opts) (Do (ResetStep id opts) j).
Proof.
  intros E. unfold ResetStep. cbn [Do]. rewrite E. apply (sends_mutate MethodReset (fun ctx => ResetNode ctx id opts));
    [apply class_of_actions|reflexivity|reflexivity].
Qed.
End Calm.

(** ** The registered actions *)

(** Every option of a reset is one its record names. *)
Definition named (params : gmap string string) (o : ResetOptions) : Prop :=
  params !! "wipe_mode" = Some (Mode o) /\ Mode o ∈ ResetWipeModes /\
  (exists raw, params !! "graceful" = Some raw /\ parse_bool raw = Some (Graceful o)) /\
  (exists raw, params !! "reboot" = Some raw /\ parse_bool raw = Some (Reboot o)) /\
  (Mode o = "user-disks" -> UserDisksToWipe o <> []).

Lemma bool_param params name b :
  parseBoolParam params name = Ok b -> exists raw, params !! name = Some raw /\ parse_bool raw = Some b.
Proof.
  unfold parseBoolParam. destruct (params !! name) as [[|c s]|]; try done. intros H. exists (String c s).
  split; [done|]. destruct (parse_bool (String c s)) as [v|]; [|done]. by injection H as ->.
Qed.

Lemma reset_options_named params o : ResetOptionsFromParams params = Ok o -> named params o.
Proof.
  unfold ResetOptionsFromParams. set (mode := default "" (params !! "wipe_mode")).
  case_bool_decide as Hm; [done|]. case_bool_decide as Hv; cbn [negb]; [|done].
  destruct (parseBoolParam params "graceful") as [g|] eqn:Eg; [|done]. cbn [mbind result_bind].
  destruct (parseBoolParam params "reboot") as [b|] eqn:Eb; [|done]. cbn [mbind result_bind].
  set (disks := if bool_decide _ then _ else _). destruct (bool_decide (mode = "user-disks") && _) eqn:Ed; [done|]. intros [= <-].
  split_and!; cbn.
  - unfold mode in *. by destruct (params !! "wipe_mode").
  - done.
  - by apply bool_param.
  - by apply bool_param.
  - intros E Hn. rewrite E, Hn in Ed. done.
Qed.

Definition asked_for (kind : string) (j : Job) (op : NodeOp) : Prop :=
  (kind = JobReboot /\ op = OpReboot false) \/ (kind = JobShutdown /\ op = OpShutdown false) \/
  (kind = JobReset /\ exists o, op = OpReset o /\ named (Params j) o).

(** What a step may do: send [op] once, and never when it is only asked whether
    it happened. *)
Definition step_sends (id : string) (op : option NodeOp) (s : Step ActionCall) (j : Job) : Prop :=
  (forall xs o rest w, run (Do s j) xs [] = (o, rest, w) ->
     (sent id [] w \/ exists p, op = Some p /\ sent id [p] w) /\
     (forall d p, o = Some (d, None) -> op = Some p -> sent id [p] w)) /\
  (forall h xs r rest w, Happened s = Some h -> run (h j) xs [] = (r, rest, w) -> sent id [] w).

Lemma nothing_sent id : sent id [] [].
Proof. by split; [constructor|]. Qed.

Lemma Forall_any (xs : list nchoice) : Forall (fun _ => True) xs.
Proof. by apply Forall_true. Qed.

(** From the rules of the logic to the runs. *)
Lemma step_sends_wp id op s j :
  wp (fun _ => True) (fun v => sent id [] v \/ exists p, op = Some p /\ sent id [p] v) (Do s j)
    (fun o v => o.2 = None -> forall p, op = Some p -> sent id [p] v) [] ->
  (forall h, Happened s = Some h -> wp (fun _ => True) (sent id []) (h j) (fun _ _ => True) []) ->
  step_sends id op s j.
Proof.
  intros Hd Hh. split.
  - intros xs o rest w Hr. destruct (wp_run _ _ _ _ _ _ _ _ _ Hd (Forall_any xs) Hr) as (Hi & Hq & _).
    split; [done|]. intros d p E Hp. by apply (Hq (d, None) E eq_refl).
  - intros h xs r rest w Hs Hr. by destruct (wp_run _ _ _ _ _ _ _ _ _ (Hh h Hs) (Forall_any xs) Hr) as (Hi & _).
Qed.

Lemma hook_wp id (ops : list NodeOp) {A} (a : A) w (I : list NodeEvent -> Prop) (Q : A -> list NodeEvent -> Prop) :
  I w -> (forall v, sent id ops v -> I v) -> sent id ops w -> (forall v, sent id ops v -> Q a v) ->
  wp (fun _ => True) I (_ ← call (RebootHook id); mret a) Q w.
Proof.
  intros Hw Hi Hs Hq. apply wp_act; [done|]. intros x _. change (act (RebootHook id) x w) with (tt, w ++ [Hooked id]). cbn [fst snd].
  assert (sent id ops (w ++ [Hooked id])) by (by apply sent_snoc). apply wp_ret; auto.
Qed.

Lemma reachable_step_sends id j : step_sends id None (lift_step (ReachableStep id)) j.
Proof.
  apply step_sends_wp.
  - eapply wp_mono; [apply (asks_reachable_body id) with (ops := []); apply nothing_sent|by left|done].
  - intros h. cbn. intros [= <-]. by apply (asks_ret id (Ok false) []), nothing_sent.
Qed.

Lemma sends_wp id op p :
  sends id op p ->
  wp (fun _ => True) (fun v => sent id [] v \/ exists q, Some op = Some q /\ sent id [q] v) (on_node p)
    (fun o v => o.2 = None -> forall q, Some op = Some q -> sent id [q] v) [].
Proof.
  intros Hs. eapply wp_mono; [apply (Hs []), nothing_sent| |].
  - intros v [Hv|Hv]; [by left|]. right. eauto.
  - intros o v _ Hq Ho q [= <-]. auto.
Qed.

Lemma reboot_step_sends id hook j :
  step_sends id (Some (OpReboot false)) (afterRebooted (lift_step (RebootStep id false)) id hook) j.
Proof.
  assert (Hd := sends_wp id _ _ (sends_reboot id false j)).
  assert (Hh : forall v, sent id [] v -> wp (fun _ => True) (sent id []) (on_node (RebootedSince id (started_at j (Current j)))) (fun _ _ => True) v).
  { intros v. apply asks_rebooted. }
  apply step_sends_wp; destruct hook; cbn [afterRebooted negb Do].
  - apply wp_bind. eapply wp_post; [exact Hd|]. intros [d [e|]] v Hi Hq; [by apply wp_ret|].
    assert (Hs : sent id [OpReboot false] v) by (apply Hq; done).
    eapply hook_wp; [exact Hi| |exact Hs|]; [intros u Hu; right; eauto|]. intros u Hu _ q [= <-]. done.
  - exact Hd.
  - intros h Hs. cbn [Happened] in Hs. apply fmap_Some in Hs as (h1 & Hs & ->). cbn [lift_step Happened] in Hs.
    apply fmap_Some in Hs as (h2 & Hs & ->). apply (inj Some) in Hs as <-.
    apply wp_bind. eapply wp_post; [by apply Hh, nothing_sent|]. intros [[|]|e] v Hi _; try (by apply wp_ret).
    by eapply hook_wp.
  - intros h Hs. cbn [lift_step Happened] in Hs. apply fmap_Some in Hs as (h2 & Hs & ->). apply (inj Some) in Hs as <-.
    by apply Hh, nothing_sent.
Qed.

Lemma shutdown_step_sends id j : step_sends id (Some (OpShutdown false)) (lift_step (ShutdownStep id false)) j.
Proof.
  apply step_sends_wp; [apply sends_wp, sends_shutdown|]. intros h Hs. cbn [lift_step Happened] in Hs.
  apply fmap_Some in Hs as (h2 & Hs & ->). apply (inj Some) in Hs as <-.
  assert (Hh := asks_reachable id [] [] (nothing_sent id)). revert Hh. unfold on_node.
  intros Hh. apply lift_bind, wp_bind. eapply wp_post; [exact Hh|]. intros b v Hv _. by apply wp_ret.
Qed.

Lemma reset_step_sends j opts : step_sends (Machine j) (Some (OpReset opts)) (lift_step (ResetStep (Machine j) opts)) j.
Proof. apply step_sends_wp; [by apply sends_wp, sends_reset|]. intros h [=]. Qed.

(** A node action has two steps. The first only asks; the second sends what the
    job was submitted for, to the job's machine, under a deadline, once, and ends
    without an error only if the node took it. Asking whether a step happened
    changes nothing, and the one step nobody can ask about is the wipe, whose
    every option the job's record names. *)
Theorem node_action_sends_what_was_asked hook kind j steps :
  node_action hook kind j = Some (Ok steps) ->
  exists first second op,
    steps = [first; second] /\ asked_for kind j op /\
    step_sends (Machine j) None first j /\ step_sends (Machine j) (Some op) second j /\
    (Verifiable (step_def second) = false <-> kind = JobReset).
Proof.
  unfold node_action. repeat case_bool_decide; try done.
  - intros [= <-]. do 3 eexists. split_and!; [done|by left|apply reachable_step_sends|apply reboot_step_sends|].
    subst. by destruct hook.
  - intros [= <-]. do 3 eexists. split_and!; [done|by right; left|apply reachable_step_sends|apply shutdown_step_sends|].
    by subst.
  - destruct (ResetOptionsFromParams (Params j)) as [o|e] eqn:E; [|done]. cbn. intros [= <-].
    do 3 eexists. split_and!; [done| |apply reachable_step_sends|apply reset_step_sends|by subst].
    right. right. split; [done|]. exists o. split; [done|]. by apply reset_options_named.
Qed.

(** ** A node to try it on *)

Definition up_node : nchoice := mkNChoice 100 (Ok tt) (Ok "v1.13.0") (Ok 5%Z).
Definition reset_job : Job :=
  mkJob "j1" JobReset "c1" "m1" (mkExec JobRunning [] 1 0 0 "")
    {[ "wipe_mode" := "system-disk"; "graceful" := "true"; "reboot" := "1" ]} false "op" 0 1.

Lemma node_action_sends_what_was_asked_witness :
  exists first second op,
    node_action true JobReset reset_job = Some (Ok [first; second]) /\ asked_for JobReset reset_job op /\
    omap mutation (run (Do second reset_job) [up_node; up_node; up_node] []).2 = [op].
Proof.
  destruct (node_action true JobReset reset_job) as [[steps|e]|] eqn:E; [|by vm_compute in E..].
  destruct (node_action_sends_what_was_asked true JobReset reset_job steps E) as (first & second & op & -> & Ha & _ & [Hd _] & _).
  exists first, second, op. split; [done|]. split; [done|].
  assert (Hs : second = lift_step (ResetStep "m1" (mkResetOptions "system-disk" true true []))) by (vm_compute in E; by injection E).
  edestruct (run (Do second reset_job) [up_node; up_node; up_node] []) as [[o rest] w] eqn:Er.
  assert (Ho : o = Some (did "wiped the system disk, after leaving etcd, rebooting")).
  { rewrite Hs in Er. vm_compute in Er. by injection Er. }
  destruct (Hd _ _ _ _ Er) as [_ Hq]. by destruct (Hq _ _ Ho eq_refl).
Defined.
