(* ===== verification/Throttle.v ===== *)
(** * The login delay

    [src/internal/auth/ratelimit.go]: repeated failures from one address make the
    next attempt wait, the wait doubles and stops at half a minute, and nothing
    survives the wait. The clock is a parameter of every call. *)

From S2P Require Import Prelude.

Definition BaseLoginDelay : duration := (250 * millisecond)%Z.
Definition MaxLoginDelay : duration := (30 * second)%Z.
Definition idleForget : duration := hour.
Definition sweepInterval : duration := minute.

Record source := mkSource { failures : Z; nextAllowed : time; touched : time }.
Record Limiter := mkLimiter { sources : gmap string source; lastSweep : time }.

Definition NewLimiter : Limiter := mkLimiter ∅ zero_time.

(** [backoff]. *)
Definition backoff (failures : Z) : duration :=
  if bool_decide (failures <= 0)%Z then 0%Z
  else let d := double_up MaxLoginDelay (Z.to_nat (failures - 1)) BaseLoginDelay in
       if bool_decide (d > MaxLoginDelay)%Z then MaxLoginDelay else d.

(** [Limiter.Delay]. *)
Definition Delay (now : time) (l : Limiter) (ip : string) : duration :=
  match sources l !! ip with
  | None => 0%Z
  | Some s => let remaining := time_sub (nextAllowed s) now in
              if bool_decide (remaining <= 0)%Z then 0%Z else remaining
  end.

(** [Limiter.sweep]. *)
Definition sweep (now : time) (l : Limiter) : Limiter :=
  if bool_decide (time_sub now (lastSweep l) < sweepInterval)%Z then l
  else mkLimiter (filter (fun '(_, s) => ~ (time_sub now (touched s) >= idleForget)%Z) (sources l)) now.

(** [Limiter.Fail]. *)
Definition Fail (now : time) (l : Limiter) (ip : string) : Limiter :=
  let l := sweep now l in
  let s := default (mkSource 0 zero_time zero_time) (sources l !! ip) in
  let n := (failures s + 1)%Z in
  mkLimiter (<[ip := mkSource n (now + backoff n) now]> (sources l)) (lastSweep l).

(** [Limiter.Succeed]. *)
Definition Succeed (l : Limiter) (ip : string) : Limiter := mkLimiter (delete ip (sources l)) (lastSweep l).

Definition Len (l : Limiter) : nat := size (sources l).

(* ------------------------------------------------------------------ *)
(** ** The delay after [n] failures *)

Lemma backoff_spec n : (1 <= n)%Z -> backoff n = Z.min (BaseLoginDelay * 2 ^ (n - 1)) MaxLoginDelay.
Proof.
  intros Hn. unfold backoff. rewrite bool_decide_eq_false_2 by lia.
  pose proof (double_up_spec MaxLoginDelay (Z.to_nat (n - 1)) BaseLoginDelay ltac:(done)) as H.
  rewrite Z2Nat.id in H by lia. rewrite <- H. case_bool_decide; lia.
Qed.

Lemma backoff_range n : (0 <= backoff n <= MaxLoginDelay)%Z /\ (1 <= n -> BaseLoginDelay <= backoff n)%Z.
Proof.
  destruct (decide (1 <= n)%Z) as [Hn|Hn].
  - rewrite backoff_spec by done. assert (1 <= 2 ^ (n - 1))%Z by (apply (Z.pow_le_mono_r 2 0); lia).
    unfold BaseLoginDelay, MaxLoginDelay, millisecond, second. lia.
  - unfold backoff. rewrite bool_decide_eq_true_2 by lia. split; [done|lia].
Qed.

(** The delay doubles from a quarter of a second and stops at thirty seconds:
    after [n] consecutive failures it is [250ms * 2^(n-1)] or thirty seconds,
    whichever is less; it never decreases, eight failures reach the ceiling, and
    no number of failures overflows into a shorter wait. *)
Theorem backoff_doubles n m :
  (1 <= n <= m)%Z ->
  backoff n = Z.min (BaseLoginDelay * 2 ^ (n - 1)) MaxLoginDelay /\
  (BaseLoginDelay <= backoff n <= backoff m)%Z /\ (backoff m <= MaxLoginDelay)%Z /\
  (8 <= m -> backoff m = MaxLoginDelay)%Z.
Proof.
  intros [Hn Hm]. split; [by apply backoff_spec|]. split; [split|split].
  - by apply backoff_range.
  - rewrite !backoff_spec by lia. apply Z.min_le_compat_r. apply Z.mul_le_mono_nonneg_l; [done|].
    apply Z.pow_le_mono_r; lia.
  - apply backoff_range.
  - intros H8. rewrite backoff_spec by lia. apply Z.min_r.
    assert (2 ^ 7 <= 2 ^ (m - 1))%Z by (apply Z.pow_le_mono_r; lia).
    change (2 ^ 7)%Z with 128%Z in *. unfold BaseLoginDelay, MaxLoginDelay, millisecond, second. lia.
Qed.

Lemma backoff_doubles_witness : backoff 3 = second /\ backoff 100 = MaxLoginDelay.
Proof.
  destruct (backoff_doubles 3 100 ltac:(lia)) as (H & _ & _ & H8). split; [rewrite H; reflexivity|by apply H8].
Defined.

(* ------------------------------------------------------------------ *)
(** ** What one address experiences *)

Inductive limiter_op := LFail (ip : string) | LSucceed (ip : string).

Definition limiter_step (l : Limiter) (op : time * limiter_op) : Limiter :=
  match op with
  | (now, LFail ip) => Fail now l ip
  | (now, LSucceed ip) => Succeed l ip
  end.

Definition limiter_run (ops : list (time * limiter_op)) : Limiter := fold_left limiter_step ops NewLimiter.

(** What an address is entitled to, from its own history alone: nothing owed, or
    a number of failures and the time of the last. An address that was silent for
    an hour may be treated as a stranger. *)
Inductive owes (ip : string) : list (time * limiter_op) -> option (Z * time) -> Prop :=
  | owes_nothing : owes ip [] None
  | owes_first ops t : owes ip ops None -> owes ip (ops ++ [(t, LFail ip)]) (Some (1%Z, t))
  | owes_again ops n t0 t : owes ip ops (Some (n, t0)) -> owes ip (ops ++ [(t, LFail ip)]) (Some ((n + 1)%Z, t))
  | owes_stranger ops n t0 t :
      owes ip ops (Some (n, t0)) -> (t - t0 >= idleForget)%Z -> owes ip (ops ++ [(t, LFail ip)]) (Some (1%Z, t))
  | owes_forgiven ops o t : owes ip ops o -> owes ip (ops ++ [(t, LSucceed ip)]) None
  | owes_other ops o t op :
      owes ip ops o -> op <> LFail ip -> op <> LSucceed ip -> owes ip (ops ++ [(t, op)]) o.

Definition delay_of (o : option (Z * time)) (now : time) : duration :=
  match o with
  | None => 0%Z
  | Some (n, t) => Z.max 0 (t + backoff n - now)
  end.

(** The limiter's entry of an address is what the address owes, or it is gone
    because the address was silent for an hour. *)
Definition entry_ok (l : Limiter) (ip : string) (o : option (Z * time)) (now : time) : Prop :=
  match o with
  | None => sources l !! ip = None
  | Some (n, t) =>
      (1 <= n)%Z /\ (t <= now)%Z /\
      (sources l !! ip = Some (mkSource n (t + backoff n) t) \/
       (sources l !! ip = None /\ (now - t >= idleForget)%Z))
  end.

Lemma sweep_entry now l ip o : entry_ok l ip o now -> entry_ok (sweep now l) ip o now.
Proof.
  unfold entry_ok, sweep. destruct o as [[n t]|]; case_bool_decide; cbn; try done.
  - intros (Hn & Ht & [Hs|[Hs Hi]]); split_and!; try done.
    + destruct (decide (time_sub now t >= idleForget)%Z) as [Hge|Hlt].
      * right. split; [|].
        { apply map_lookup_filter_None. right. intros s Hs'. rewrite Hs in Hs'. injection Hs' as <-. cbn. tauto. }
        destruct (decide (now - t < idleForget)%Z) as [Hl|]; [|lia].
        apply (time_sub_lt now t idleForget) in Hl; [lia|done|done].
      * left. apply map_lookup_filter_Some. split; [done|]. cbn. lia.
    + right. split; [|done]. apply map_lookup_filter_None. by left.
  - intros Hs. apply map_lookup_filter_None. by left.
Qed.

Lemma entry_later l ip o now now' : entry_ok l ip o now -> (now <= now')%Z -> entry_ok l ip o now'.
Proof.
  unfold entry_ok. destruct o as [[n t]|]; [|done]. intros (Hn & Ht & [Hs|[Hs Hi]]) Hle; split_and!; try done; try lia.
  - by left.
  - right. split; [done|lia].
Qed.

(** The times of a history are those of a clock that does not go back. *)
Definition clocked (ops : list (time * limiter_op)) (now : time) : Prop :=
  StronglySorted Z.le (ops.*1) /\ Forall (fun t => t <= now)%Z (ops.*1).

Lemma clocked_snoc ops t op now : clocked (ops ++ [(t, op)]) now -> clocked ops t /\ (t <= now)%Z.
Proof.
  unfold clocked. rewrite fmap_app. intros [Hs Hf]. apply StronglySorted_app in Hs as (Hall & Hs & _).
  apply Forall_app in Hf as [_ Hf]. inversion_clear Hf. split; [|done]. split; [done|].
  apply Forall_forall. intros x Hx. apply Hall; [done|by left].
Qed.

Lemma limiter_entry ip ops : forall now, clocked ops now ->
  exists o, owes ip ops o /\ entry_ok (limiter_run ops) ip o now.
Proof.
  induction ops as [|[t op] ops IH] using rev_ind; intros now Hc.
  { exists None. split; [constructor|done]. }
  apply clocked_snoc in Hc as [Hc Htn]. destruct (IH t Hc) as (o & Ho & He).
  unfold limiter_run. rewrite fold_left_app. fold (limiter_run ops). cbn.
  set (l := limiter_run ops) in *. destruct op as [ip'|ip'].
  - apply sweep_entry in He. destruct (decide (ip' = ip)) as [->|Hne].
    + assert (forall n, sources (sweep t l) !! ip = None \/ (exists a b, sources (sweep t l) !! ip = Some (mkSource (n - 1) a b)) ->
        (1 <= n)%Z -> (sources (sweep t l) !! ip = None -> n = 1%Z) -> entry_ok (Fail t l ip) ip (Some (n, t)) now) as Hfail.
      { intros n Hs Hn H1. unfold entry_ok, Fail. cbn. split_and!; [done|lia|]. left. rewrite lookup_insert_eq.
        destruct Hs as [Hs|(a & b & Hs)]; rewrite Hs; cbn.
        - by rewrite (H1 Hs).
        - by replace (n - 1 + 1)%Z with n by lia. }
      destruct o as [[n t0]|].
      * destruct He as (Hn & Ht & [Hs|[Hs Hi]]).
        -- exists (Some ((n + 1)%Z, t)). split; [by eapply owes_again|]. apply Hfail; [|lia|].
           ++ right. replace (n + 1 - 1)%Z with n by lia. eauto.
           ++ by rewrite Hs.
        -- exists (Some (1%Z, t)). split; [by eapply owes_stranger|]. apply Hfail; [by left|lia|done].
      * exists (Some (1%Z, t)). split; [by constructor|]. apply Hfail; [by left|lia|done].
    + exists o. split; [constructor; congruence|]. apply entry_later with t; [|done].
      unfold entry_ok, Fail in *. cbn. by rewrite lookup_insert_ne.
  - destruct (decide (ip' = ip)) as [->|Hne].
    + exists None. split; [by eapply owes_forgiven|]. unfold entry_ok, Succeed. cbn. apply lookup_delete_eq.
    + exists o. split; [constructor; congruence|]. apply entry_later with t; [|done].
      unfold entry_ok, Succeed in *. cbn. by rewrite lookup_delete_ne.
Qed.

(** what an address waits is decided by its own history alone. After any
    sequence of failures and successes of any addresses, the wait of an address
    is zero when it owes nothing (it never failed, or succeeded since), and else
    what is left of [backoff n] from its last failure, [n] being its failures
    since it last succeeded (or was last silent for an hour). No other address
    changes it, and it is over after at most thirty seconds. *)
Theorem Delay_refines_history ip ops now :
  clocked ops now ->
  exists o, owes ip ops o /\ Delay now (limiter_run ops) ip = delay_of o now /\
    (0 <= Delay now (limiter_run ops) ip <= MaxLoginDelay)%Z.
Proof.
  intros Hc. destruct (limiter_entry ip ops now Hc) as (o & Ho & He). exists o. split; [done|].
  assert (Delay now (limiter_run ops) ip = delay_of o now) as Hd.
  { unfold Delay, delay_of, entry_ok in *. destruct o as [[n t]|]; [|by rewrite He].
    destruct (backoff_range n) as [Hb _].
    destruct He as (Hn & Ht & [Hs|[Hs Hi]]); rewrite Hs; cbn.
    - unfold MaxLoginDelay, second in Hb. unfold time_sub, clamp64, max_int64, min_int64. case_bool_decide; lia.
    - unfold idleForget, hour, minute, MaxLoginDelay, second in *. lia. }
  split; [done|]. rewrite Hd. unfold delay_of. destruct o as [[n t]|]; [|done].
  destruct (backoff_range n) as [Hb _]. unfold entry_ok in He. lia.
Qed.

Lemma Delay_refines_history_witness :
  exists o, owes "203.0.113.7" [(second, LFail "203.0.113.7"); (2 * second, LFail "198.51.100.1")]%Z o /\
    Delay (2 * second) (limiter_run [(second, LFail "203.0.113.7"); (2 * second, LFail "198.51.100.1")]%Z) "203.0.113.7"
      = delay_of o (2 * second).
Proof.
  destruct (Delay_refines_history "203.0.113.7" [(second, LFail "203.0.113.7"); (2 * second, LFail "198.51.100.1")]%Z (2 * second)%Z)
    as (o & Ho & Hd & _).
  - split; repeat constructor; vm_compute; discriminate.
  - exists o. by split.
Defined.
