(* ===== verification/StreamHub.v ===== *)
(** * The stream hub

    [src/internal/streamhub/streamhub.go]: one ring buffer per topic and a
    fan-out that never blocks; a subscriber that falls behind loses events and is
    told how many. A channel is its queue and what its reader has taken from it;
    the reader runs concurrently with a delivery, so that every look at the
    channel comes with how many items it took since the last one. *)

From S2P Require Import Prelude.

Record Event := mkEvent { EID : Z; EData : string }.
Record Gap := mkGap { Missed : Z; Through : Z }.
(** [Item]: exactly one of the two is set. *)
Inductive Item := ItemEvent (e : Event) | ItemGap (g : Gap).

Definition DefaultRingSize : nat := 500.
Definition DefaultSubscriberBuffer : nat := 64.

Record subscription := mkSub {
  queue : list Item;
  capacity : nat;
  lastSent : Z;
  dropped : Z;
  droppedThrough : Z;
  sub_closed : bool;
  taken : list Item }.

Record topic := mkTopic {
  ring : list Event;
  next : nat;
  count : nat;
  lastID : Z;
  subs : gmap nat subscription }.

Record Hub := mkHub {
  ringSize : nat;
  subBuf : nat;
  topics : gmap string topic;
  hub_closed : bool }.

(** [NewWithSizes]; [New] is the one with the default sizes. *)
Definition NewWithSizes (ringSize subscriberBuffer : nat) : Hub :=
  mkHub (if bool_decide (ringSize < 1) then 1 else ringSize)
    (if bool_decide (subscriberBuffer < 1) then 1 else subscriberBuffer) ∅ false.
Definition New : Hub := mkHub DefaultRingSize DefaultSubscriberBuffer ∅ false.

(** The reader takes [n] items. *)
Definition take_items (n : nat) (s : subscription) : subscription :=
  mkSub (drop n (queue s)) (capacity s) (lastSent s) (dropped s) (droppedThrough s) (sub_closed s)
    (taken s ++ take n (queue s)).

(** [account]. *)
Definition account (old : Item) (s : subscription) : subscription :=
  let '(n, through) := match old with
                       | ItemEvent e => (1%Z, EID e)
                       | ItemGap g => (Missed g, Through g)
                       end in
  mkSub (queue s) (capacity s) (lastSent s) (dropped s + n)
    (if bool_decide (through > droppedThrough s)%Z then through else droppedThrough s) (sub_closed s) (taken s).

Definition enqueue (item : Item) (s : subscription) : subscription :=
  mkSub (queue s ++ [item]) (capacity s)
    (match item with ItemEvent e => EID e | ItemGap _ => lastSent s end)
    (dropped s) (droppedThrough s) (sub_closed s) (taken s).

(** [push]: [reads] is how many items the reader takes between the two looks of
    each round. Two rounds are enough (see [push_spec]). *)
Fixpoint push_rounds (fuel : nat) (reads : list nat) (item : Item) (s : subscription) : subscription :=
  match fuel with
  | O => s
  | S f =>
      if bool_decide (length (queue s) < capacity s) then enqueue item s
      else
        let s := take_items (hd 0 reads) s in
        match queue s with
        | old :: rest =>
            push_rounds f (tl reads) item
              (account old (mkSub rest (capacity s) (lastSent s) (dropped s) (droppedThrough s) (sub_closed s) (taken s)))
        | [] => push_rounds f (tl reads) item s
        end
  end.
Definition push (reads : list nat) (item : Item) (s : subscription) : subscription := push_rounds 2 reads item s.

(** [deliver]; [reads] are the reader's takes before and inside the two pushes. *)
Definition deliver (ev : Event) (reads : nat * list nat * nat * list nat) (s : subscription) : subscription :=
  let '(r0, r1, r2, r3) := reads in
  if sub_closed s then s
  else
    let s := take_items r0 s in
    let s := if bool_decide (dropped s > 0)%Z then
               let gap := mkGap (dropped s) (droppedThrough s) in
               push r1 (ItemGap gap)
                 (mkSub (queue s) (capacity s) (lastSent s) 0 0 (sub_closed s) (taken s))
             else s in
    push r3 (ItemEvent ev) (take_items r2 s).

(** [topicLocked]. *)
Definition new_topic (h : Hub) : topic := mkTopic (replicate (ringSize h) (mkEvent 0 "")) 0 0 0 ∅.
Definition topic_of (h : Hub) (name : string) : topic := default (new_topic h) (topics h !! name).
Definition set_topic (h : Hub) (name : string) (t : topic) : Hub :=
  mkHub (ringSize h) (subBuf h) (<[name := t]> (topics h)) (hub_closed h).

(** What [Publish] does to its topic; the subscribers do not touch each other. *)
Definition publish_topic (t : topic) (data : string) (reads : nat -> nat * list nat * nat * list nat) : topic * Z :=
  let id := (lastID t + 1)%Z in
  let ev := mkEvent id data in
  (mkTopic (<[next t := ev]> (ring t)) ((next t + 1) mod length (ring t))
     (if bool_decide (count t < length (ring t)) then count t + 1 else count t) id
     (map_imap (fun n s => Some (deliver ev (reads n) s)) (subs t)), id).

(** [Hub.Publish]; [None] is [ErrClosed]. *)
Definition Publish (h : Hub) (name data : string) (reads : nat -> nat * list nat * nat * list nat) : option (Hub * Z) :=
  if hub_closed h then None
  else let '(t, id) := publish_topic (topic_of h name) data reads in Some (set_topic h name t, id).

(** The position of the [i]-th buffered event, oldest first. *)
Definition slot (t : topic) (i : nat) : nat := (next t + length (ring t) * 2 + i - count t) mod length (ring t).

Definition buffered (t : topic) : list Event := omap (fun i => ring t !! slot t i) (seq 0 (count t)).

(** [since]. *)
Definition since (t : topic) (id : Z) : list Event := filter (fun e => (EID e > id)%Z) (buffered t).

(** [oldestID]. *)
Definition oldestID (t : topic) : Z :=
  if bool_decide (count t = 0) then (lastID t + 1)%Z
  else default 0%Z (EID <$> ring t !! slot t 0).

(** [missedBefore]. *)
Definition missedBefore (t : topic) (afterID : Z) (backlog : list Event) : Z :=
  match backlog with
  | [] => 0%Z
  | first :: _ =>
      if bool_decide (count t = 0) then 0%Z
      else if bool_decide (EID first <= afterID + 1)%Z then 0%Z else (EID first - afterID - 1)%Z
  end.

(** A new subscription of a topic. *)
Definition open_subscription (buf : nat) (t : topic) (afterID : Z) : subscription :=
  let backlog := since t afterID in
  let missed := missedBefore t afterID backlog in
  let gap := if bool_decide (missed > 0)%Z then [ItemGap (mkGap missed (oldestID t - 1))] else [] in
  mkSub (gap ++ (ItemEvent <$> backlog)) (buf + length (ring t))
    (match last backlog with Some e => EID e | None => afterID end) 0 0 false [].

(** [Hub.Subscribe]; the pointer of the subscription is a number that is not in
    use. *)
Definition Subscribe (h : Hub) (name : string) (afterID : Z) (n : nat) : option Hub :=
  if hub_closed h then None
  else
    let t := topic_of h name in
    Some (set_topic h name (mkTopic (ring t) (next t) (count t) (lastID t)
      (<[n := open_subscription (subBuf h) t afterID]> (subs t)))).

(** The function [Subscribe] returns, and what its reader does. *)
Definition cancel (t : topic) (n : nat) : topic :=
  mkTopic (ring t) (next t) (count t) (lastID t) (delete n (subs t)).
Definition read_items (t : topic) (n k : nat) : topic :=
  mkTopic (ring t) (next t) (count t) (lastID t) (alter (take_items k) n (subs t)).

Definition LastID (h : Hub) (name : string) : Z := default 0%Z (lastID <$> topics h !! name).
Definition Subscribers (h : Hub) (name : string) : nat := default 0 ((fun t => size (subs t)) <$> topics h !! name).

(** [Hub.Drop] and [Hub.Close]; the channels they close stay with their
    readers. *)
Definition Drop (h : Hub) (name : string) : Hub := mkHub (ringSize h) (subBuf h) (delete name (topics h)) (hub_closed h).
Definition Close (h : Hub) : Hub := mkHub (ringSize h) (subBuf h) ∅ true.

(* ------------------------------------------------------------------ *)
(** ** One subscriber *)

(** How many events an item stands for. *)
Definition weight (i : Item) : Z := match i with ItemEvent _ => 1%Z | ItemGap g => Missed g end.
Definition weights (l : list Item) : Z := foldr (fun i n => (weight i + n)%Z) 0%Z l.
Definition events (l : list Item) : list Event := omap (fun i => match i with ItemEvent e => Some e | ItemGap _ => None end) l.

Lemma weights_app l l' : weights (l ++ l') = (weights l + weights l')%Z.
Proof. unfold weights. induction l as [|i l IH]; cbn; [done|]. rewrite IH. lia. Qed.

(** Everything a subscriber got, has queued or is still owed. *)
Definition accounted (s : subscription) : Z := (weights (taken s) + weights (queue s) + dropped s)%Z.
Definition seen (s : subscription) : list Event := events (taken s ++ queue s).

(** One step of the queue: what is accounted for, and the events that are still
    there, in order. *)
Record keeps (s s' : subscription) (more : Z) (new : list Event) : Prop := mkKeeps {
  k_accounted : accounted s' = (accounted s + more)%Z;
  k_seen : seen s' `sublist_of` seen s ++ new;
  k_dropped : (0 <= dropped s)%Z -> (0 <= dropped s')%Z;
  k_capacity : capacity s' = capacity s;
  k_closed : sub_closed s' = sub_closed s
}.

Lemma keeps_refl s : keeps s s 0 [].
Proof. constructor; try done; [lia|by rewrite app_nil_r]. Qed.

Lemma keeps_trans s1 s2 s3 m1 m2 n1 n2 : keeps s1 s2 m1 n1 -> keeps s2 s3 m2 n2 -> keeps s1 s3 (m1 + m2) (n1 ++ n2).
Proof.
  intros [A1 A2 A3 A4 A5] [B1 B2 B3 B4 B5]. constructor; try congruence; [lia| |auto].
  rewrite app_assoc. etrans; [exact B2|]. by apply sublist_app.
Qed.

Lemma keeps_take n s : keeps s (take_items n s) 0 [].
Proof.
  assert (taken (take_items n s) ++ queue (take_items n s) = taken s ++ queue s) as He.
  { cbn. by rewrite <- app_assoc, take_drop. }
  constructor; try done.
  - unfold accounted. rewrite <- !weights_app, He. cbn [dropped take_items]. lia.
  - unfold seen. rewrite He. by rewrite app_nil_r.
Qed.

Lemma keeps_enqueue item s : keeps s (enqueue item s) (weight item) (events [item]).
Proof.
  constructor; try done.
  - unfold accounted. cbn [taken queue dropped enqueue]. rewrite weights_app.
    change (weights [item]) with (weight item + 0)%Z. lia.
  - unfold seen. cbn. by rewrite app_assoc, omap_app.
Qed.

(** The oldest queued item is given up for its weight. *)
Lemma keeps_evict old rest s :
  queue s = old :: rest -> (0 <= weight old)%Z ->
  keeps s (account old (mkSub rest (capacity s) (lastSent s) (dropped s) (droppedThrough s) (sub_closed s) (taken s))) 0 [].
Proof.
  intros Hq Hw. constructor.
  - unfold accounted. rewrite Hq. change (weights (old :: rest)) with (weight old + weights rest)%Z.
    destruct old; cbn [account taken queue dropped weight]; lia.
  - unfold seen. rewrite app_nil_r, Hq. unfold events. rewrite !omap_app. apply sublist_app.
    + by destruct old.
    + destruct old; cbn; [by apply sublist_cons|done].
  - destruct old; cbn in *; lia.
  - by destruct old.
  - by destruct old.
Qed.

(** The items count something each. *)
Definition positive (s : subscription) : Prop := Forall (fun i => (0 < weight i)%Z) (taken s ++ queue s).

Record sub_ok (s : subscription) : Prop := mkSubOk {
  so_room : length (queue s) <= capacity s;
  so_cap : 1 <= capacity s;
  so_pos : positive s;
  so_drop : (0 <= dropped s)%Z }.

Lemma take_ok n s : sub_ok s -> sub_ok (take_items n s).
Proof.
  intros [H1 H2 H3 H4]. constructor; try done; cbn.
  - rewrite length_drop. lia.
  - unfold positive. cbn. by rewrite <- app_assoc, take_drop.
Qed.

Lemma enqueue_ok item s :
  sub_ok s -> length (queue s) < capacity s -> (0 < weight item)%Z ->
  sub_ok (enqueue item s) /\ last (queue (enqueue item s)) = Some item.
Proof.
  intros [H1 H2 H3 H4] Hl Hw. split; [|cbn; apply last_snoc]. constructor; try done; cbn.
  - rewrite length_app. cbn. lia.
  - unfold positive in *. cbn. rewrite app_assoc, Forall_app. split; [done|]. by repeat constructor.
Qed.

(** One round that found no room leaves room. *)
Lemma evict_ok old rest s :
  queue s = old :: rest -> sub_ok s ->
  let s' := account old (mkSub rest (capacity s) (lastSent s) (dropped s) (droppedThrough s) (sub_closed s) (taken s)) in
  sub_ok s' /\ length (queue s') < capacity s' /\ keeps s s' 0 [].
Proof.
  intros Hq [H1 H2 H3 H4]. cbn zeta. assert (0 < weight old)%Z as Hw.
  { unfold positive in H3. rewrite Hq in H3. apply Forall_app in H3 as [_ H3]. by inversion_clear H3. }
  rewrite Hq in H1. cbn in H1. split_and!.
  - constructor; [destruct old; cbn; lia|by destruct old| |destruct old; cbn in *; lia].
    unfold positive in *. rewrite Hq in H3. apply Forall_app in H3 as [H3 H3']. inversion_clear H3'.
    destruct old; cbn; by apply Forall_app.
  - destruct old; cbn; lia.
  - by apply keeps_evict; [|lia].
Qed.

Lemma push_rounds_room fuel reads item s :
  length (queue s) < capacity s -> push_rounds (S fuel) reads item s = enqueue item s.
Proof. intros Hl. cbn. by rewrite bool_decide_eq_true_2. Qed.

Lemma push_rounds_full fuel reads item s :
  ~ length (queue s) < capacity s ->
  push_rounds (S fuel) reads item s =
    let s := take_items (hd 0 reads) s in
    match queue s with
    | old :: rest =>
        push_rounds fuel (tl reads) item
          (account old (mkSub rest (capacity s) (lastSent s) (dropped s) (droppedThrough s) (sub_closed s) (taken s)))
    | [] => push_rounds fuel (tl reads) item s
    end.
Proof. intros Hl. cbn [push_rounds]. by rewrite bool_decide_eq_false_2. Qed.

(** [push] never gives up and never blocks: two rounds put the item at the end of
    the queue, whatever the reader does meanwhile, and nothing is lost
    uncounted. *)
Lemma push_spec reads item s :
  sub_ok s -> (0 < weight item)%Z ->
  sub_ok (push reads item s) /\ keeps s (push reads item s) (weight item) (events [item]) /\
  last (queue (push reads item s)) = Some item.
Proof.
  intros Hok Hw. unfold push. destruct (decide (length (queue s) < capacity s)) as [Hl|Hl].
  { rewrite push_rounds_room by done. destruct (enqueue_ok item s Hok Hl Hw). split_and!; [done|apply keeps_enqueue|done]. }
  rewrite push_rounds_full by done. cbv zeta.
  set (s1 := take_items (hd 0 reads) s). pose proof (take_ok (hd 0 reads) s Hok) as Hok1. fold s1 in Hok1.
  pose proof (keeps_take (hd 0 reads) s) as Hk1. fold s1 in Hk1.
  destruct (queue s1) as [|old rest] eqn:Hq.
  - assert (length (queue s1) < capacity s1) as Hl1.
    { rewrite Hq. cbn [length]. destruct Hok1. lia. }
    rewrite push_rounds_room by done. destruct (enqueue_ok item s1 Hok1 Hl1 Hw).
    split_and!; [done| |done]. apply (keeps_trans s s1 _ 0 _ [] _ Hk1). apply keeps_enqueue.
  - destruct (evict_ok old rest s1 Hq Hok1) as (Hok2 & Hl2 & Hk2). set (s2 := account old _) in *.
    rewrite push_rounds_room by done. destruct (enqueue_ok item s2 Hok2 Hl2 Hw).
    split_and!; [done| |done]. apply (keeps_trans s s1 _ 0 _ [] _ Hk1). apply (keeps_trans s1 s2 _ 0 _ [] _ Hk2). apply keeps_enqueue.
Qed.

(** A delivery adds one event to what is accounted for. *)
Lemma deliver_spec ev reads s :
  sub_ok s -> sub_closed s = false ->
  sub_ok (deliver ev reads s) /\ keeps s (deliver ev reads s) 1 [ev] /\
  last (queue (deliver ev reads s)) = Some (ItemEvent ev).
Proof.
  intros Hok Hc. destruct reads as [[[r0 r1] r2] r3]. unfold deliver. rewrite Hc.
  set (s0 := take_items r0 s). pose proof (take_ok r0 s Hok) as Hok0. fold s0 in Hok0.
  pose proof (keeps_take r0 s) as Hk0. fold s0 in Hk0.
  match goal with |- context [take_items r2 ?x] => set (s1 := x) end. assert (sub_ok s1 /\ keeps s0 s1 0 []) as [Hok1 Hk1].
  { unfold s1. case_bool_decide as Hd; [|split; [done|apply keeps_refl]].
    set (s0' := mkSub (queue s0) _ _ 0 0 _ _).
    assert (sub_ok s0') as Hok0' by (destruct Hok0; constructor; done || lia).
    destruct (push_spec r1 (ItemGap (mkGap (dropped s0) (droppedThrough s0))) s0' Hok0') as (Ho & [K1 K2 K3 K4 K5] & _); [cbn [weight Missed]; lia|].
    split; [done|]. constructor.
    - rewrite K1. unfold accounted. cbn [taken queue dropped weight Missed s0']. lia.
    - by rewrite app_nil_r in K2 |- *.
    - intros _. by apply K3.
    - by rewrite K4.
    - by rewrite K5. }
  pose proof (take_ok r2 s1 Hok1) as Hok2. pose proof (keeps_take r2 s1) as Hk2.
  destruct (push_spec r3 (ItemEvent ev) (take_items r2 s1) Hok2) as (Ho & Hk3 & Hl); [done|].
  split_and!; [done| |done].
  apply (keeps_trans s s0 _ 0 1 [] [ev] Hk0). apply (keeps_trans s0 s1 _ 0 1 [] [ev] Hk1).
  exact (keeps_trans s1 _ _ 0 1 [] [ev] Hk2 Hk3).
Qed.

(* ------------------------------------------------------------------ *)
(** ** The ring *)

(** The events of a log of data, numbered from 1. *)
Definition numbered (log : list string) : list Event := imap (fun i d => mkEvent (Z.of_nat i + 1) d) log.

(** The ring holds the end of the log: event [k] is in slot [k mod N]. *)
Record ring_ok (t : topic) (log : list string) : Prop := mkRing {
  r_size : 1 <= length (ring t);
  r_last : lastID t = Z.of_nat (length log);
  r_count : count t = min (length log) (length (ring t));
  r_next : next t = length log mod length (ring t);
  r_slots : forall k d, length log - count t <= k -> log !! k = Some d ->
    ring t !! (k mod length (ring t)) = Some (mkEvent (Z.of_nat k + 1) d)
}.

Lemma slot_mod t log i :
  ring_ok t log -> i < count t -> slot t i = (length log - count t + i) mod length (ring t).
Proof.
  intros [H1 H2 H3 H4 _] Hi. unfold slot. set (N := length (ring t)) in *.
  assert (count t <= N /\ count t <= length log) as [Hc1 Hc2] by lia.
  pose proof (Nat.div_mod_eq (length log) N) as Hd.
  rewrite H4. set (q := length log / N) in *. set (r := length log mod N) in *.
  assert (r < N) by (apply Nat.mod_upper_bound; lia).
  destruct (decide (q = 0)) as [Hq|Hq].
  - assert (length log = r) as -> by nia. replace (r + N * 2 + i - count t) with (r - count t + i + 2 * N) by lia.
    by rewrite Nat.Div0.mod_add.
  - replace (r + N * 2 + i - count t) with ((r + N + i - count t) + 1 * N) by lia. rewrite Nat.Div0.mod_add.
    replace (length log - count t + i) with ((r + N + i - count t) + (q - 1) * N) by nia. by rewrite Nat.Div0.mod_add.
Qed.

Lemma omap_seq_drop {A} (f : nat -> option A) (l : list A) (k n : nat) :
  k + n = length l -> (forall i, i < n -> f i = l !! (k + i)) -> omap f (seq 0 n) = drop k l.
Proof.
  revert k f. induction n as [|n IH]; intros k f Hl Hf.
  { cbn. symmetry. apply drop_ge. lia. }
  cbn [seq]. cbn [omap list_omap]. destruct (lookup_lt_is_Some_2 l k) as [a Ha]; [lia|].
  rewrite (Hf 0) by lia. rewrite Nat.add_0_r, Ha. rewrite (drop_S l a k Ha). f_equal.
  rewrite <- (IH (S k) (fun i => f (S i))); [|lia|].
  - rewrite <- fmap_S_seq. clear. induction (seq 0 n) as [|x xs IH]; cbn; [done|]. destruct (f (S x)); by rewrite IH.
  - intros i Hi. rewrite Hf by lia. f_equal. lia.
Qed.

(** What is buffered is the end of the log. *)
Lemma buffered_log t log : ring_ok t log -> buffered t = drop (length log - count t) (numbered log).
Proof.
  intros Hr. unfold buffered. apply omap_seq_drop.
  - unfold numbered. rewrite length_imap. destruct Hr. lia.
  - intros i Hi. rewrite (slot_mod t log i Hr Hi). unfold numbered. rewrite list_lookup_imap.
    assert (length log - count t + i < length log) as Hlt by (destruct Hr; lia).
    destruct (lookup_lt_is_Some_2 log _ Hlt) as [d Hd]. rewrite Hd. cbn.
    apply (r_slots _ _ Hr); [lia|done].
Qed.

Lemma ring_publish t log data reads :
  ring_ok t log -> ring_ok (publish_topic t data reads).1 (log ++ [data]).
Proof.
  intros [H1 H2 H3 H4 H5]. unfold publish_topic. cbn. set (N := length (ring t)) in *.
  assert (next t < N) as Hn by (rewrite H4; apply Nat.mod_upper_bound; lia).
  constructor; cbn; rewrite ?length_insert, ?length_app; cbn; fold N.
  - done.
  - lia.
  - case_bool_decide; lia.
  - rewrite H4. rewrite Nat.Div0.add_mod_idemp_l. done.
  - intros k d Hk Hd. destruct (decide (k = length log)) as [->|Hne].
    + rewrite lookup_app_r, Nat.sub_diag in Hd by lia. injection Hd as ->.
      rewrite <- H4, list_lookup_insert_eq by done. do 2 f_equal. lia.
    + assert (k < length log) as Hlt.
      { apply lookup_lt_Some in Hd. rewrite length_app in Hd. cbn in Hd. lia. }
      rewrite lookup_app_l in Hd by done. rewrite list_lookup_insert_ne.
      * apply H5; [|done]. case_bool_decide; lia.
      * rewrite H4. intros He. assert (length log - k < N) as Hd'.
        { case_bool_decide; lia. }
        pose proof (Nat.div_mod_eq (length log) N) as D1. pose proof (Nat.div_mod_eq k N) as D2. rewrite He in D1.
        assert (length log / N = k / N \/ length log / N >= k / N + 1) as [Hq|Hq].
        { assert (k / N <= length log / N) by (apply Nat.Div0.div_le_mono; lia). lia. }
        -- rewrite Hq in D1. lia.
        -- nia.
Qed.

Lemma ring_new h : 1 <= ringSize h -> ring_ok (new_topic h) [].
Proof.
  intros Hs. constructor; cbn; rewrite ?length_replicate; try done.
  symmetry. apply Nat.Div0.mod_0_l.
Qed.

(* ------------------------------------------------------------------ *)
(** ** A new subscriber *)

Lemma filter_suffix {A} (P : A -> Prop) `{forall x, Decision (P x)} (l : list A) (c : nat) :
  (forall i x, l !! i = Some x -> P x <-> c <= i) -> filter P l = drop c l.
Proof.
  revert c. induction l as [|x l IH]; intros c Hl; [by rewrite drop_nil|].
  destruct c as [|c].
  - rewrite filter_cons_True by (apply (Hl 0 x); [done|lia]). cbn. f_equal. rewrite (IH 0); [done|].
    intros i y Hi. rewrite (Hl (S i) y Hi). lia.
  - rewrite filter_cons_False by (intros HP; apply (Hl 0 x) in HP; [lia|done]). cbn. apply IH.
    intros i y Hi. rewrite (Hl (S i) y Hi). lia.
Qed.

Lemma numbered_lookup log i e :
  numbered log !! i = Some e -> EID e = (Z.of_nat i + 1)%Z /\ log !! i = Some (EData e).
Proof.
  unfold numbered. rewrite list_lookup_imap. destruct (log !! i) as [d|]; [|done]. cbn. by intros [= <-].
Qed.

Lemma since_log t log (after : nat) :
  ring_ok t log -> since t (Z.of_nat after) = drop (max (length log - count t) after) (numbered log).
Proof.
  intros Hr. unfold since. rewrite (buffered_log t log Hr).
  rewrite (filter_suffix _ _ (after - (length log - count t))).
  - rewrite drop_drop. f_equal. lia.
  - intros i x. rewrite lookup_drop. intros [-> _]%numbered_lookup. lia.
Qed.

Lemma weights_events l : weights (ItemEvent <$> l) = Z.of_nat (length l).
Proof. unfold weights. induction l as [|e l IH]; cbn; [done|]. rewrite IH. lia. Qed.

Lemma events_items l : events (ItemEvent <$> l) = l.
Proof. unfold events. induction l as [|e l IH]; cbn; [done|]. by rewrite IH. Qed.

(** The first thing a subscriber finds: the size of the hole, and then the log
    from there on. *)
Lemma open_spec buf t log (after : nat) :
  ring_ok t log ->
  let from := max (length log - length (ring t)) after in
  queue (open_subscription buf t (Z.of_nat after)) =
    (if bool_decide (after < from < length log) then [ItemGap (mkGap (Z.of_nat (from - after)) (Z.of_nat from))] else []) ++
    (ItemEvent <$> drop from (numbered log)).
Proof.
  intros Hr. cbn zeta. assert (length log - count t = length log - length (ring t)) as Hm by (destruct Hr; lia).
  unfold open_subscription. cbn [queue]. rewrite (since_log t log after Hr), Hm.
  set (from := max (length log - length (ring t)) after). f_equal.
  assert (count t = 0 <-> length log = 0) as Hc0 by (destruct Hr; lia).
  destruct (decide (from < length log)) as [Hlt|Hge].
  - destruct (lookup_lt_is_Some_2 (numbered log) from) as [e He]; [unfold numbered; rewrite length_imap; lia|].
    destruct (numbered_lookup _ _ _ He) as [Hid _]. rewrite (drop_S _ _ _ He). unfold missedBefore.
    rewrite (bool_decide_eq_false_2 (count t = 0)) by lia. rewrite Hid.
    destruct (decide (after < from)) as [Haf|Haf].
    + rewrite (bool_decide_eq_false_2 (Z.of_nat from + 1 <= Z.of_nat after + 1)%Z) by lia.
      rewrite bool_decide_eq_true_2 by lia. rewrite bool_decide_eq_true_2 by done. do 3 f_equal; [lia|].
      unfold oldestID. rewrite bool_decide_eq_false_2 by lia. rewrite (slot_mod t log 0 Hr) by lia.
      rewrite Nat.add_0_r, Hm. assert (length log - length (ring t) = from) as -> by lia.
      destruct (lookup_lt_is_Some_2 log from Hlt) as [d Hd].
      rewrite (r_slots _ _ Hr from d); [cbn; lia|lia|done].
    + rewrite (bool_decide_eq_true_2 (Z.of_nat from + 1 <= Z.of_nat after + 1)%Z) by lia.
      rewrite bool_decide_eq_false_2 by lia. by rewrite bool_decide_eq_false_2 by lia.
  - rewrite drop_ge by (unfold numbered; rewrite length_imap; lia). cbn [missedBefore].
    rewrite (bool_decide_eq_false_2 (0 > 0)%Z) by lia. rewrite bool_decide_eq_false_2; [done|lia].
Qed.

Lemma open_ok buf t log (after : nat) :
  ring_ok t log -> 1 <= buf ->
  let s := open_subscription buf t (Z.of_nat after) in
  sub_ok s /\ accounted s = Z.of_nat (length log - after) /\ seen s `sublist_of` numbered log /\ sub_closed s = false.
Proof.
  intros Hr Hb. cbn zeta. pose proof (open_spec buf t log after Hr) as Hq. cbn zeta in Hq.
  set (s := open_subscription buf t (Z.of_nat after)) in *.
  set (from := max (length log - length (ring t)) after) in *.
  assert (length (drop from (numbered log)) = length log - from) as Hl.
  { rewrite length_drop. unfold numbered. by rewrite length_imap. }
  assert (taken s = [] /\ dropped s = 0%Z /\ capacity s = buf + length (ring t)) as (Ht & Hd & Hc) by done.
  split_and!; [| | |done].
  - constructor; [|lia| |lia].
    + rewrite Hq, length_app, length_fmap, Hl, Hc. case_bool_decide; cbn; lia.
    + unfold positive. rewrite Ht, Hq. cbn [app]. apply Forall_app. split; [case_bool_decide; repeat constructor; cbn; lia|].
      apply Forall_fmap. apply Forall_true. intros e. cbn. lia.
  - unfold accounted. rewrite Ht, Hd, Hq, weights_app, weights_events, Hl. unfold weights. pose proof (r_size _ _ Hr). case_bool_decide; cbn [foldr weight Missed]; lia.
  - unfold seen. rewrite Ht, Hq. cbn [app]. unfold events. rewrite omap_app. fold (events (ItemEvent <$> drop from (numbered log))).
    rewrite events_items. assert (omap (fun i => match i with ItemEvent e => Some e | ItemGap _ => None end)
      (if bool_decide (after < from < length log) then [ItemGap (mkGap (Z.of_nat (from - after)) (Z.of_nat from))] else []) = []) as ->.
    { by case_bool_decide. }
    apply sublist_drop.
Qed.

(* ------------------------------------------------------------------ *)
(** ** The life of a topic *)

Inductive topic_op :=
  | TPublish (data : string) (reads : nat -> nat * list nat * nat * list nat)
  | TSubscribe (n : nat) (after : nat)
  | TCancel (n : nat)
  | TRead (n k : nat).

(** A topic with everything that was published to it, and where each subscriber
    began. *)
Record history := mkHistory { h_topic : topic; h_log : list string; h_base : gmap nat nat }.

(** [buf] is the hub's subscriber buffer. *)
Definition topic_step (buf : nat) (h : history) (op : topic_op) : history :=
  let t := h_topic h in
  match op with
  | TPublish data reads => mkHistory (publish_topic t data reads).1 (h_log h ++ [data]) (h_base h)
  | TSubscribe n after =>
      if bool_decide (subs t !! n = None) then
        mkHistory (mkTopic (ring t) (next t) (count t) (lastID t) (<[n := open_subscription buf t (Z.of_nat after)]> (subs t)))
          (h_log h) (<[n := min after (length (h_log h))]> (h_base h))
      else h
  | TCancel n => mkHistory (cancel t n) (h_log h) (h_base h)
  | TRead n k => mkHistory (read_items t n k) (h_log h) (h_base h)
  end.

Definition topic_run (hub : Hub) (ops : list topic_op) : history :=
  fold_left (topic_step (subBuf hub)) ops (mkHistory (new_topic hub) [] ∅).

Record history_ok (h : history) : Prop := mkHistoryOk {
  ho_ring : ring_ok (h_topic h) (h_log h);
  ho_sub n s : subs (h_topic h) !! n = Some s ->
    sub_ok s /\ sub_closed s = false /\ seen s `sublist_of` numbered (h_log h) /\
    exists b, h_base h !! n = Some b /\ b <= length (h_log h) /\ accounted s = Z.of_nat (length (h_log h) - b)
}.

Lemma numbered_snoc log d : numbered (log ++ [d]) = numbered log ++ [mkEvent (Z.of_nat (length log) + 1) d].
Proof. unfold numbered. rewrite imap_app. cbn. do 3 f_equal. lia. Qed.

Lemma topic_step_ok buf h op : 1 <= buf -> history_ok h -> history_ok (topic_step buf h op).
Proof.
  intros Hb [Hr Hs]. destruct op as [data reads|n after|n|n k]; cbn.
  - constructor; cbn; [by apply ring_publish|]. intros n s Hn. rewrite map_lookup_imap in Hn.
    destruct (subs (h_topic h) !! n) as [s0|] eqn:E; [|done]. cbn in Hn. injection Hn as <-.
    destruct (Hs n s0 E) as (Hok & Hc & Hse & b & Hbase & Hle & Hacc).
    assert (lastID (h_topic h) = Z.of_nat (length (h_log h))) as Hid by apply Hr.
    destruct (deliver_spec (mkEvent (lastID (h_topic h) + 1) data) (reads n) s0 Hok Hc) as (Hok' & [K1 K2 _ _ K5] & _).
    split_and!; [done|by rewrite K5| |].
    + etrans; [exact K2|]. rewrite numbered_snoc, Hid. by apply sublist_app.
    + exists b. rewrite length_app. cbn [length]. split_and!; [done|lia|]. rewrite K1, Hacc. lia.
  - case_bool_decide as Hn; [|by constructor]. constructor; cbn.
    + destruct Hr. by constructor.
    + intros n' s. destruct (decide (n' = n)) as [->|Hne].
      * rewrite !lookup_insert_eq. intros [= <-].
        destruct (open_ok buf (h_topic h) (h_log h) after Hr Hb) as (Hok & Hacc & Hse & Hc).
        split_and!; [done|done|done|]. exists (min after (length (h_log h))). split_and!; [done|lia|].
        rewrite Hacc. lia.
      * rewrite !lookup_insert_ne by done. apply Hs.
  - constructor; cbn; [by destruct Hr; constructor|]. intros n' s [_ Hn]%lookup_delete_Some. by apply Hs.
  - constructor; cbn; [by destruct Hr; constructor|]. intros n' s Hn.
    destruct (decide (n' = n)) as [->|Hne]; [|rewrite lookup_alter_ne in Hn by done; by apply Hs].
    rewrite lookup_alter_eq in Hn. destruct (subs (h_topic h) !! n) as [s0|] eqn:E; [|done]. cbn in Hn. injection Hn as <-.
    destruct (Hs n s0 E) as (Hok & Hc & Hse & b & Hbase & Hle & Hacc).
    destruct (keeps_take k s0) as [K1 K2 _ _ K5]. split_and!; [by apply take_ok|done| |].
    + rewrite app_nil_r in K2. by etrans.
    + exists b. split_and!; [done|done|]. rewrite K1, Hacc. lia.
Qed.

Definition sized (hub : Hub) : Prop := 1 <= ringSize hub /\ 1 <= subBuf hub.

Lemma topic_run_ok hub ops : sized hub -> history_ok (topic_run hub ops).
Proof.
  intros [Hr Hb]. unfold topic_run. induction ops as [|op ops IH] using rev_ind.
  - constructor; [by apply ring_new|done].
  - rewrite fold_left_app. by apply topic_step_ok.
Qed.

(** C21: nothing is lost silently. However the publisher, the readers and the
    cancels interleave, at every moment every event published since a subscriber
    began is accounted for: it was received, waits in the channel, is counted in
    a gap that was received or waits, or is counted for the next gap. The events
    a subscriber gets are exactly as published and in the order of their ids, and
    its channel never exceeds its capacity. *)
Theorem no_silent_loss hub ops n s base :
  sized hub ->
  subs (h_topic (topic_run hub ops)) !! n = Some s -> h_base (topic_run hub ops) !! n = Some base ->
  (weights (taken s) + weights (queue s) + dropped s = lastID (h_topic (topic_run hub ops)) - Z.of_nat base)%Z /\
  seen s `sublist_of` numbered (h_log (topic_run hub ops)) /\
  length (queue s) <= capacity s.
Proof.
  intros Hsz Hs Hbase. destruct (topic_run_ok hub ops Hsz) as [Hr Hsub].
  destruct (Hsub n s Hs) as ([Hroom _ _ _] & _ & Hseen & b & Hb & Hle & Hacc). rewrite Hbase in Hb. injection Hb as <-.
  split_and!; [|done|done]. unfold accounted in Hacc. rewrite Hacc, (r_last _ _ Hr). lia.
Qed.

(** what a client finds when it connects. With the id of an event the topic
    has had (or zero), the channel holds first the size of the hole, when the ring
    no longer reaches back that far, and then every event from there on, in order;
    and it fits the channel. *)
Theorem Subscribe_replays hub ops (after : nat) :
  sized hub ->
  let h := topic_run hub ops in
  after <= length (h_log h) ->
  let from := max (length (h_log h) - ringSize hub) after in
  let s := open_subscription (subBuf hub) (h_topic h) (Z.of_nat after) in
  queue s =
    (if bool_decide (after < from) then [ItemGap (mkGap (Z.of_nat (from - after)) (Z.of_nat from))] else []) ++
    (ItemEvent <$> drop from (numbered (h_log h))) /\
  length (queue s) <= capacity s.
Proof.
  intros Hsz h Ha from s. destruct (topic_run_ok hub ops Hsz) as [Hr _]. fold h in Hr.
  assert (length (ring (h_topic h)) = ringSize hub) as Hsize.
  { unfold h, topic_run. clear. induction ops as [|op ops IH] using rev_ind; [cbn; by rewrite length_replicate|].
    rewrite fold_left_app. cbn. destruct op; cbn; rewrite ?length_insert; try done. by case_bool_decide. }
  destruct Hsz as [H1 Hb]. destruct (open_ok (subBuf hub) (h_topic h) (h_log h) after Hr Hb) as ([Hroom _ _ _] & _).
  split; [|done]. unfold s. rewrite (open_spec _ _ _ _ Hr), Hsize. fold from. f_equal.
  destruct (decide (after < from)) as [Hlt|Hge].
  - rewrite !bool_decide_eq_true_2; [done|done|lia].
  - rewrite !bool_decide_eq_false_2; [done|lia|lia].
Qed.

(* ------------------------------------------------------------------ *)
(** ** Concrete streams *)

Definition tiny : Hub := NewWithSizes 2 1.
Definition no_reads : nat -> nat * list nat * nat * list nat := fun _ => (0, [], 0, []).
Definition five : list topic_op := (fun d => TPublish d no_reads) <$> ["a"; "b"; "c"; "d"; "e"].

Lemma no_silent_loss_witness :
  exists s, subs (h_topic (topic_run tiny (TSubscribe 0 0 :: five))) !! 0 = Some s /\
    (weights (taken s) + weights (queue s) + dropped s = 5)%Z.
Proof.
  destruct (subs (h_topic (topic_run tiny (TSubscribe 0 0 :: five))) !! 0) as [s|] eqn:E; [|by vm_compute in E].
  exists s. split; [done|].
  destruct (no_silent_loss tiny (TSubscribe 0 0 :: five) 0 s 0) as [H _]; [by split; vm_compute; lia|exact E|by vm_compute|].
  rewrite H. by vm_compute.
Defined.

Lemma Subscribe_replays_witness :
  queue (open_subscription 1 (h_topic (topic_run tiny five)) 1) =
    [ItemGap (mkGap 2 3); ItemEvent (mkEvent 4 "d"); ItemEvent (mkEvent 5 "e")].
Proof.
  destruct (Subscribe_replays tiny five 1) as [H _]; [by split; vm_compute; lia|by vm_compute; lia|].
  etrans; [exact H|]. by vm_compute.
Defined.

(** A gap is not where the hole is. A subscriber of a full channel loses the
    oldest queued event, and the gap is queued behind the ones that are left: the
    reader gets event 4, then that one event up to number 1 is missing, then
    event 5; and nothing is missing between 4 and 5. *)
Theorem gap_follows_newer_events :
  (queue <$> subs (h_topic (topic_run tiny (TSubscribe 0 0 :: five))) !! 0) =
    Some [ItemEvent (mkEvent 4 "d"); ItemGap (mkGap 1 1); ItemEvent (mkEvent 5 "e")].
Proof. by vm_compute. Qed.

(** A client that comes back to a topic that was dropped and began again gets
    neither the buffered events nor a gap, as long as its last id is not below
    the new ones. *)
Theorem restarted_topic_skips_silently :
  let again (after : Z) :=
    Publish tiny "dmesg:n1" "old" no_reads ≫= fun '(h1, _) =>
    Publish (Drop h1 "dmesg:n1") "dmesg:n1" "new" no_reads ≫= fun '(h2, _) =>
    Subscribe h2 "dmesg:n1" after 0 ≫= fun h3 =>
    topics h3 !! "dmesg:n1" ≫= fun t => queue <$> subs t !! 0 in
  again 1%Z = Some [] /\ again 0%Z = Some [ItemEvent (mkEvent 1 "new")].
Proof. split; by vm_compute. Qed.
