(* ===== verification/Confirm.v ===== *)
(** * Confirmation tokens

    [src/internal/jobs/confirm.go]: a token that describes exactly the action it
    is a confirmation for. The signature (an HMAC under a key that never leaves
    the process, in base64) and [strconv.Quote] are parameters; what the theorems
    say of the signature is which two texts would have to have the same one. *)

From S2P Require Import Prelude.

Record Intent := mkIntent { Action : string; IMachine : string; IParams : gmap string string }.

Inductive confirm_error := ErrConfirmationInvalid | ErrConfirmationExpired | ErrConfirmationUsed.

Definition ConfirmationTTL : duration := (10 * minute)%Z.

(** [fmt.Sscanf(s, "%d", &unix)]: leading spaces, a sign, decimal digits, and
    whatever follows is left alone. *)
Fixpoint take_digits (s : string) : string :=
  match s with
  | String c s' => if is_digit c then String c (take_digits s') else ""
  | EmptyString => ""
  end.
Definition sscanf_d (s : string) : option Z :=
  let s := trim_left_fuel (String.length s) inline_spaces s in
  match s with
  | String c s' =>
      if Ascii.eqb c "-" then atoi (String c (take_digits s'))
      else if Ascii.eqb c "+" then atoi (String c (take_digits s'))
      else atoi (take_digits s)
  | EmptyString => None
  end.

Section Confirmer.
Context (sign quote : string -> string).

(** [canonical]: the parameters in the order of their keys. *)
Definition param_keys (params : gmap string string) : list string := sort_strings (elements (dom params)).
Definition param_text (params : gmap string string) (k : string) : string :=
  "|" +:+ quote k +:+ "=" +:+ quote (default "" (params !! k)).
Definition canonical (inp : Intent) : string :=
  Action inp +:+ "|" +:+ IMachine inp +:+ foldr (fun k s => param_text (IParams inp) k +:+ s) "" (param_keys (IParams inp)).

(** [Issue]. *)
Definition Issue (now : time) (inp : Intent) : string * time :=
  let expires := (now + ConfirmationTTL)%Z in
  let payload := itoa (unix_of expires) +:+ "|" +:+ canonical inp in
  (itoa (unix_of expires) +:+ "." +:+ sign payload, expires).

(** [Check]. *)
Definition Check_token (now : time) (token : string) (inp : Intent) : result confirm_error unit :=
  match cut_at "." token with
  | (_, None) => Err ErrConfirmationInvalid
  | (stamp, Some sig) =>
      match sscanf_d stamp with
      | None => Err ErrConfirmationInvalid
      | Some unix =>
          if negb (bool_decide (sig = sign (stamp +:+ "|" +:+ canonical inp))) then Err ErrConfirmationInvalid
          else if bool_decide (time_unix unix < now)%Z then Err ErrConfirmationExpired
          else Ok tt
      end
  end.

(** [signOnce] and [IssueOnce]; [nonce] is [rand.Text]. *)
Definition signOnce (stamp nonce : string) (inp : Intent) : string :=
  sign (stamp +:+ "|once:" +:+ nonce +:+ "|" +:+ canonical inp).
Definition IssueOnce (now : time) (nonce : string) (inp : Intent) : string * time :=
  let expires := (now + ConfirmationTTL)%Z in
  let stamp := itoa (unix_of expires) in
  (stamp +:+ "." +:+ nonce +:+ "." +:+ signOnce stamp nonce inp, expires).

(** [CheckOnce], with the nonces that were spent. *)
Definition CheckOnce (now : time) (spent : gmap string time) (token : string) (inp : Intent)
    : gmap string time * result confirm_error unit :=
  match split_on "." token with
  | [stamp; nonce; sig] =>
      match atoi stamp with
      | None => (spent, Err ErrConfirmationInvalid)
      | Some unix =>
          if bool_decide (nonce = "") then (spent, Err ErrConfirmationInvalid)
          else if negb (bool_decide (sig = signOnce stamp nonce inp)) then (spent, Err ErrConfirmationInvalid)
          else
            let expires := time_unix unix in
            if bool_decide (expires < now)%Z then (spent, Err ErrConfirmationExpired)
            else
              let spent := filter (fun '(_, at_) => ~ (at_ < now)%Z) spent in
              match spent !! nonce with
              | Some _ => (spent, Err ErrConfirmationUsed)
              | None => (<[nonce := expires]> spent, Ok tt)
              end
      end
  | _ => (spent, Err ErrConfirmationInvalid)
  end.

End Confirmer.

(* ------------------------------------------------------------------ *)
(** ** The encoding of an intent *)

(** What the encoding relies on: a quoted string ends where it says, and stands
    for one string. *)
Class Quote (quote : string -> string) : Prop :=
  quote_prefix : forall a b x y, quote a +:+ x = quote b +:+ y -> a = b /\ x = y.

Definition no_bar (s : string) : bool := str_all (fun c => negb (Ascii.eqb c "|")) s.

Section Encoding.
Context (quote : string -> string) `{!Quote quote}.

Abbreviation tail params keys := (foldr (fun k s => param_text quote params k +:+ s) "" keys).

(** The parameters, read back from their text. *)
Lemma tail_inj (p p' : gmap string string) (ks ks' : list string) :
  tail p ks = tail p' ks' -> (fun k => (k, default "" (p !! k))) <$> ks = (fun k => (k, default "" (p' !! k))) <$> ks'.
Proof.
  revert ks'. induction ks as [|k ks IH]; intros [|k' ks'] Ht; cbn in Ht |- *; try done.
  unfold param_text in Ht. rewrite <- !(assoc_L String.append) in Ht. cbn in Ht. injection Ht as Ht.
  apply (quote_prefix (quote := quote)) in Ht as [-> Ht]. injection Ht as Ht.
  apply (quote_prefix (quote := quote)) in Ht as [Hv Ht]. rewrite Hv. f_equal. by apply IH.
Qed.

Lemma tail_head params keys : tail params keys = "" \/ exists r, tail params keys = String "|" r.
Proof. destruct keys as [|k keys]; [by left|right]. cbn. eauto. Qed.

Lemma machine_tail (m m' t t' : string) :
  no_bar m = true -> no_bar m' = true ->
  (t = "" \/ exists r, t = String "|" r) -> (t' = "" \/ exists r, t' = String "|" r) ->
  m +:+ t = m' +:+ t' -> m = m' /\ t = t'.
Proof.
  intros Hm Hm' Ht Ht' He.
  assert (forall a b : string, no_bar a = true -> (b = "" \/ exists r, b = String "|" r) ->
    cut_at "|" (a +:+ b) = (a, match b with String _ r => Some r | EmptyString => None end)) as Hcut.
  { intros a b Ha [->|[r ->]]; [rewrite (right_id_L "" String.append); by apply cut_at_none|by apply cut_at_app]. }
  pose proof (Hcut m t Hm Ht) as H1. pose proof (Hcut m' t' Hm' Ht') as H2. rewrite He in H1. rewrite H1 in H2.
  injection H2 as -> H2. split; [done|].
  destruct Ht as [->|[r ->]], Ht' as [->|[r' ->]]; try done. by injection H2 as ->.
Qed.

Lemma params_of_pairs (p p' : gmap string string) :
  (fun k => (k, default "" (p !! k))) <$> param_keys p = (fun k => (k, default "" (p' !! k))) <$> param_keys p' -> p = p'.
Proof.
  intros Hp. assert (forall (q : gmap string string) k v, q !! k = Some v <->
    (k, v) ∈ (fun k => (k, default "" (q !! k))) <$> param_keys q) as Hq.
  { intros q k v. unfold param_keys, sort_strings. rewrite merge_sort_Permutation, list_elem_of_fmap. split.
    - intros Hk. exists k. rewrite Hk. split; [done|]. apply elem_of_elements, elem_of_dom. eauto.
    - intros (k' & [= -> ->] & Hk). apply elem_of_elements, elem_of_dom in Hk as [v' Hv']. by rewrite Hv'. }
  apply map_eq. intros k. apply option_eq. intros v. by rewrite !Hq, Hp.
Qed.

Lemma canonical_inj (a b : Intent) :
  no_bar (Action a) = true -> no_bar (IMachine a) = true -> no_bar (Action b) = true -> no_bar (IMachine b) = true ->
  canonical quote a = canonical quote b -> a = b.
Proof.
  intros Ha Hma Hb Hmb He. destruct a as [act m p], b as [act' m' p']. unfold canonical in He. cbn [Action IMachine IParams] in *.
  change ("|" +:+ m +:+ ?x) with (String "|" (m +:+ x)) in He.
  change ("|" +:+ m' +:+ ?x) with (String "|" (m' +:+ x)) in He.
  pose proof (f_equal (cut_at "|") He) as Hcut. rewrite !cut_at_app in Hcut by done. injection Hcut as -> Hcut.
  apply machine_tail in Hcut as [-> Ht]; [|done|done|apply tail_head|apply tail_head].
  f_equal. apply params_of_pairs. by apply tail_inj.
Qed.

End Encoding.

(* ------------------------------------------------------------------ *)
(** ** Reading a stamp *)

Lemma take_digits_app (a r : string) :
  str_all is_digit a = true -> (r = "" \/ exists c r', r = String c r' /\ is_digit c = false) -> take_digits (a +:+ r) = a.
Proof.
  intros Ha Hr. induction a as [|c a IH].
  - rewrite str_app_nil. destruct Hr as [->|(c & r' & -> & Hc)]; [done|]. cbn. by rewrite Hc.
  - cbn in Ha. apply andb_true_iff in Ha as [Hc Ha]. rewrite str_app_cons. cbn. rewrite Hc. by rewrite IH.
Qed.

(** The scan reads the number and ignores what follows it. *)
Lemma sscanf_d_itoa z r :
  (0 <= z <= max_int64)%Z -> (r = "" \/ exists c r', r = String c r' /\ is_digit c = false) ->
  sscanf_d (itoa z +:+ r) = Some z.
Proof.
  intros Hz Hr. pose proof (itoa_digits z ltac:(lia)) as Hd. pose proof (itoa_nonempty z ltac:(lia)) as Hne.
  pose proof (atoi_itoa z ltac:(lia)) as Ha. unfold in_int64, min_int64 in Ha.
  rewrite !bool_decide_eq_true_2 in Ha by lia. specialize (Ha eq_refl).
  destruct (itoa z) as [|c s] eqn:E; [done|]. cbn in Hd. apply andb_true_iff in Hd as [Hc Hd].
  unfold sscanf_d. rewrite str_app_cons.
  assert (forall n, trim_left_fuel n inline_spaces (String c (s +:+ r)) = String c (s +:+ r)) as ->.
  { intros [|n]; [done|]. cbn [trim_left_fuel]. by rewrite strip_one_inline by by apply digit_visible. }
  rewrite (not_digit_neq c "-"), (not_digit_neq c "+") by done. cbn [take_digits]. rewrite Hc.
  rewrite take_digits_app by done. exact Ha.
Qed.

Lemma itoa_no_dot z : (0 <= z)%Z -> str_all (fun c => negb (Ascii.eqb c ".")) (itoa z) = true.
Proof.
  intros Hz. eapply str_all_impl; [|by apply itoa_digits]. intros c Hc. by rewrite (not_digit_neq c ".").
Qed.

(* ------------------------------------------------------------------ *)
(** ** What a confirmation authorises *)

Section Tokens.
Context (sign quote : string -> string) `{!Quote quote}.

(** What is signed for an intent at a time of issue. *)
Definition payload (now : time) (inp : Intent) : string := itoa (unix_of (now + ConfirmationTTL)) +:+ "|" +:+ canonical quote inp.

(** The expiry of a token issued at [now], in whole seconds, on a clock past 1970
    and inside an int64. *)
Definition stamp_of (now : time) : Z := unix_of (now + ConfirmationTTL).
Definition sane_clock (now : time) : Prop := (0 <= stamp_of now <= max_int64)%Z.

Lemma Check_issued now now' a b :
  sane_clock now ->
  Check_token sign quote now' (Issue sign quote now a).1 b =
    if negb (bool_decide (sign (itoa (stamp_of now) +:+ "|" +:+ canonical quote a) =
                          sign (itoa (stamp_of now) +:+ "|" +:+ canonical quote b))) then Err ErrConfirmationInvalid
    else if bool_decide (time_unix (stamp_of now) < now')%Z then Err ErrConfirmationExpired
    else Ok tt.
Proof.
  intros Hs. unfold Check_token, Issue. cbn [fst]. fold (stamp_of now).
  change ("." +:+ sign ?x) with (String "." (sign x)). rewrite cut_at_app by (apply itoa_no_dot; apply Hs).
  pose proof (sscanf_d_itoa (stamp_of now) "" Hs (or_introl eq_refl)) as Hscan.
  rewrite (right_id_L "" String.append) in Hscan. by rewrite Hscan.
Qed.

(** C22: A confirmation authorises the action it was issued for, and no other. It is
    accepted for its own intent until its second of expiry, ten minutes on, and called
    expired after that. Where it is not called invalid for another intent, the two
    are the same down to every parameter, or the signatures of the two texts that
    stand for them, which differ, are equal. That is for actions and machine names
    without the separator [|], which are written as they are: of others there are two
    with one text, and a token for one is good for the other ([canonical_ambiguous]).
    The clock is past 1970 and inside an int64. *)
Theorem confirmation_binds_intent now now' a b :
  sane_clock now ->
  no_bar (Action a) = true -> no_bar (IMachine a) = true -> no_bar (Action b) = true -> no_bar (IMachine b) = true ->
  (Check_token sign quote now' (Issue sign quote now a).1 a =
     if bool_decide (time_unix (stamp_of now) < now')%Z then Err ErrConfirmationExpired else Ok tt) /\
  (Check_token sign quote now' (Issue sign quote now a).1 b <> Err ErrConfirmationInvalid ->
     a = b \/ payload now a <> payload now b /\ sign (payload now a) = sign (payload now b)).
Proof.
  intros Hs Ha Hma Hb Hmb. rewrite !Check_issued by done. rewrite bool_decide_eq_true_2 by done. split; [done|].
  destruct (decide (canonical quote a = canonical quote b)) as [He|Hne].
  - intros _. left. by apply (canonical_inj quote).
  - case_bool_decide as Hsig; [|done]. intros _. right. split; [|exact Hsig].
    intros He. apply Hne. apply str_app_inj_l in He. by injection He.
Qed.

(* ------------------------------------------------------------------ *)
(** ** Single-use tokens *)

(** A sequence of requests, each with its time, its token and its intent: the
    answers, in order. *)
Fixpoint check_all (spent : gmap string time) (reqs : list (time * string * Intent)) : list (result confirm_error unit) :=
  match reqs with
  | [] => []
  | (now, token, inp) :: rest =>
      let '(spent', r) := CheckOnce sign quote now spent token inp in r :: check_all spent' rest
  end.

(** A token that was let through is remembered until it has expired. *)
Definition remembered (token : string) (now : time) (spent : gmap string time) : Prop :=
  exists stamp nonce sig unix, split_on "." token = [stamp; nonce; sig] /\ atoi stamp = Some unix /\
    (spent !! nonce = Some (time_unix unix) \/ (time_unix unix < now)%Z).

Lemma CheckOnce_ok now spent token inp spent' :
  CheckOnce sign quote now spent token inp = (spent', Ok tt) -> remembered token now spent'.
Proof.
  unfold CheckOnce. destruct (split_on "." token) as [|stamp [|nonce [|sig [|]]]] eqn:Hsp; try done.
  destruct (atoi stamp) as [unix|] eqn:Hu; [|done]. destruct (bool_decide (nonce = "")); [done|].
  destruct (negb _); [done|]. destruct (bool_decide (time_unix unix < now)%Z); [done|].
  destruct (filter _ spent !! nonce); [done|]. intros [= <-]. exists stamp, nonce, sig, unix.
  split_and!; [done|done|]. left. apply lookup_insert_eq.
Qed.

Lemma remembered_refused token now spent inp :
  remembered token now spent -> (CheckOnce sign quote now spent token inp).2 <> Ok tt.
Proof.
  intros (stamp & nonce & sig & unix & Hsp & Hu & Hm). unfold CheckOnce. rewrite Hsp, Hu.
  destruct (bool_decide (nonce = "")); [done|]. destruct (negb _); [done|].
  destruct (decide (time_unix unix < now)%Z) as [Hlt|Hge]; [by rewrite bool_decide_eq_true_2|].
  rewrite bool_decide_eq_false_2 by done. destruct Hm as [Hm|?]; [|done].
  assert (filter (fun '(_, at_) => ~ (at_ < now)%Z) spent !! nonce = Some (time_unix unix)) as ->; [|done].
  apply map_lookup_filter_Some. split; [done|lia].
Qed.

Lemma remembered_step token now now' spent token' inp :
  remembered token now spent -> (now <= now')%Z ->
  remembered token now' (CheckOnce sign quote now' spent token' inp).1.
Proof.
  intros (stamp & nonce & sig & unix & Hsp & Hu & Hm) Hle. exists stamp, nonce, sig, unix. split_and!; [done|done|].
  destruct Hm as [Hm|Hm]; [|right; lia]. unfold CheckOnce.
  assert (forall sp : gmap string time, sp !! nonce = Some (time_unix unix) ->
    sp !! nonce = Some (time_unix unix) \/ (time_unix unix < now')%Z) as Hl by (intros; by left).
  destruct (split_on "." token') as [|s' [|n' [|g' [|]]]]; try (by apply Hl).
  destruct (atoi s') as [u'|]; [|by apply Hl]. destruct (bool_decide (n' = "")); [by apply Hl|].
  destruct (negb _); [by apply Hl|]. destruct (bool_decide (time_unix u' < now')%Z); [by apply Hl|].
  destruct (decide (time_unix unix < now')%Z) as [?|Hge]; [by right|]. left.
  assert (filter (fun '(_, at_) => ~ (at_ < now')%Z) spent !! nonce = Some (time_unix unix)) as Hf.
  { apply map_lookup_filter_Some. done. }
  destruct (filter _ spent !! n') eqn:Hn'; cbn; [done|]. rewrite lookup_insert_ne; [done|]. intros ->. congruence.
Qed.

Lemma spent_stays token reqs : forall now spent i t inp,
  remembered token now spent -> StronglySorted Z.le ((fun r => r.1.1) <$> reqs) ->
  Forall (fun r => now <= r.1.1)%Z reqs ->
  reqs !! i = Some (t, token, inp) -> check_all spent reqs !! i <> Some (Ok tt).
Proof.
  induction reqs as [|[[t0 token0] inp0] reqs IH]; intros now spent i t inp Hr Hs Hf Hi; [done|].
  apply StronglySorted_inv in Hs as [Hs Hall]. inversion_clear Hf as [|? ? Ht0 Hf']. cbn in Ht0. cbn [check_all].
  pose proof (remembered_step token now t0 spent token0 inp0 Hr Ht0) as Hr'.
  destruct (CheckOnce sign quote t0 spent token0 inp0) as [spent' r] eqn:Hc. destruct i as [|i]; cbn in Hi |- *.
  - injection Hi as -> -> ->. intros [= ->].
    assert (remembered token t spent) as Hr0.
    { destruct Hr as (a & b & c & d & ? & ? & [?|?]); exists a, b, c, d; split_and!; try done; [by left|right; lia]. }
    apply (remembered_refused token t spent inp Hr0). by rewrite Hc.
  - apply (IH t0 spent' i t inp Hr' Hs); [|done]. refine (proj1 (Forall_fmap _ _ _) Hall).
Qed.

(** a single-use confirmation is used once. In any sequence of requests on a
    clock that does not go back, whatever other tokens and whatever intents they
    carry, one token is let through at most once. *)
Theorem token_used_once spent reqs i j t t' token inp inp' :
  StronglySorted Z.le ((fun r => r.1.1) <$> reqs) -> i < j ->
  reqs !! i = Some (t, token, inp) -> reqs !! j = Some (t', token, inp') ->
  check_all spent reqs !! i = Some (Ok tt) -> check_all spent reqs !! j <> Some (Ok tt).
Proof.
  revert spent i j. induction reqs as [|[[t0 token0] inp0] reqs IH]; intros spent i j Hs Hij Hi Hj Hok; [done|].
  apply StronglySorted_inv in Hs as [Hs Hall]. cbn [check_all] in Hok |- *.
  destruct (CheckOnce sign quote t0 spent token0 inp0) as [spent' r] eqn:Hc.
  destruct j as [|j]; [lia|]. cbn in Hj |- *. destruct i as [|i]; cbn in Hi, Hok.
  - injection Hi as -> -> ->. injection Hok as ->. eapply spent_stays; [by eapply CheckOnce_ok|done| |exact Hj].
    refine (proj1 (Forall_fmap _ _ _) Hall).
  - eapply (IH spent' i j); try done. lia.
Qed.

(** a single-use token passes the check of the other kind, as often as it is
    presented: its nonce can be written as part of the stamp, where the scan for
    the number ignores it, and the signed payload is the same. *)
Theorem single_use_token_reshaped now now' nonce inp :
  sane_clock now -> (now' <= time_unix (stamp_of now))%Z -> str_all (fun c => negb (Ascii.eqb c ".")) nonce = true ->
  let stamp := itoa (stamp_of now) in
  (IssueOnce sign quote now nonce inp).1 = stamp +:+ "." +:+ nonce +:+ "." +:+ signOnce sign quote stamp nonce inp /\
  Check_token sign quote now' (stamp +:+ "|once:" +:+ nonce +:+ "." +:+ signOnce sign quote stamp nonce inp) inp = Ok tt.
Proof.
  intros Hs Hn Hd stamp. split; [done|]. unfold Check_token.
  change ("." +:+ ?x) with (String "." x). rewrite !(assoc_L String.append).
  rewrite cut_at_app.
  2:{ rewrite !str_all_app, Hd, andb_true_r. unfold stamp. rewrite itoa_no_dot by apply Hs. reflexivity. }
  rewrite <- (assoc_L String.append). unfold stamp.
  rewrite (sscanf_d_itoa (stamp_of now) ("|once:" +:+ nonce) Hs) by (right; eexists _, _; done).
  unfold signOnce. rewrite <- !(assoc_L String.append). rewrite bool_decide_eq_true_2 by done. cbn [negb].
  by rewrite bool_decide_eq_false_2 by lia.
Qed.

End Tokens.

(* ------------------------------------------------------------------ *)
(** ** [strconv.Quote] on ASCII strings *)

(** The escape of one byte: as Go does it for every ASCII byte (and for a byte
    that is not part of a valid encoding). *)
Definition escape (c : ascii) : string :=
  let n := nat_of_ascii c in
  let back s := String (chr 92) s in
  if bool_decide (n = 34) || bool_decide (n = 92) then back (str1 c)
  else if bool_decide (n = 7) then back "a"
  else if bool_decide (n = 8) then back "b"
  else if bool_decide (n = 12) then back "f"
  else if bool_decide (n = 10) then back "n"
  else if bool_decide (n = 13) then back "r"
  else if bool_decide (n = 9) then back "t"
  else if bool_decide (n = 11) then back "v"
  else if bool_decide (n < 32) || bool_decide (126 < n)
  then back (String "x" (String (hex_digit (Z.of_nat (n / 16))) (str1 (hex_digit (Z.of_nat (n mod 16))))))
  else str1 c.

Fixpoint escape_all (s : string) : string :=
  match s with EmptyString => "" | String c s' => escape c +:+ escape_all s' end.

Definition quote_ascii (s : string) : string := String (chr 34) (escape_all s +:+ String (chr 34) "").

Definition bytes : list ascii := chr <$> seq 0 256.

Lemma bytes_all c : c ∈ bytes.
Proof.
  unfold bytes. apply list_elem_of_fmap. exists (nat_of_ascii c). split; [symmetry; apply ascii_nat_embedding|].
  apply elem_of_seq. pose proof (nat_ascii_bounded c). lia.
Qed.

(** No escape begins with the closing quote, and none is the beginning of
    another. *)
Lemma escape_table :
  forallb (fun c => match escape c with String d _ => negb (Ascii.eqb d (chr 34)) | EmptyString => false end) bytes = true /\
  forallb (fun c => forallb (fun d => Ascii.eqb c d || negb (bool_decide (is_Some (cut_prefix (escape c) (escape d))))) bytes) bytes = true.
Proof. split; vm_compute; reflexivity. Qed.

Lemma escape_head c : exists d r, escape c = String d r /\ d <> chr 34.
Proof.
  destruct escape_table as [H _]. rewrite forallb_forall in H. specialize (H c (proj1 (list_elem_of_In _ _) (bytes_all c))).
  destruct (escape c) as [|d r]; [done|]. exists d, r. split; [done|]. intros ->. by rewrite Ascii.eqb_refl in H.
Qed.

Lemma escape_not_prefix c d : cut_prefix (escape c) (escape d) <> None -> c = d.
Proof.
  destruct escape_table as [_ H]. rewrite forallb_forall in H. specialize (H c (proj1 (list_elem_of_In _ _) (bytes_all c))).
  rewrite forallb_forall in H. specialize (H d (proj1 (list_elem_of_In _ _) (bytes_all d))). intros Hn.
  apply orb_true_iff in H as [H|H]; [by apply Ascii.eqb_eq|]. apply negb_true_iff, bool_decide_eq_false_1 in H.
  destruct H. destruct (cut_prefix _ _); [by eexists|done].
Qed.

Lemma app_prefix (a b x y : string) :
  a +:+ x = b +:+ y -> cut_prefix a b <> None \/ cut_prefix b a <> None.
Proof.
  revert b. induction a as [|c a IH]; intros [|d b] H; cbn; [by left|by left|by right|].
  rewrite !str_app_cons in H. injection H as -> H. rewrite Ascii.eqb_refl. by apply IH.
Qed.

#[global] Instance quote_ascii_ok : Quote quote_ascii.
Proof.
  intros a b x y H. unfold quote_ascii in H. rewrite !str_app_cons in H. injection H as H.
  revert b H. induction a as [|c a IH]; intros [|d b] H; cbn [escape_all] in H; rewrite <- ?(assoc_L String.append) in H.
  - rewrite !str_app_nil, !str_app_cons in H. injection H as H. done.
  - destruct (escape_head d) as (e & r & He & Hne). rewrite He, str_app_nil, !str_app_cons in H. by injection H as <-.
  - destruct (escape_head c) as (e & r & He & Hne). rewrite He, str_app_nil, !str_app_cons in H. by injection H as ->.
  - assert (c = d) as ->.
    { destruct (app_prefix _ _ _ _ H) as [Hp|Hp]; [by apply escape_not_prefix|symmetry; by apply escape_not_prefix]. }
    apply str_app_inj_l in H. rewrite !(assoc_L String.append) in H.
    destruct (IH b) as [-> ->]; [by rewrite <- !(assoc_L String.append) in *|]. done.
Qed.

(* ------------------------------------------------------------------ *)
(** ** Concrete tokens *)

Definition reset_one : Intent := mkIntent "node.reset" "m1" {[ "wipe_mode" := "user-disks" ]}.
Definition reset_all : Intent := mkIntent "node.reset" "m1" {[ "wipe_mode" := "all" ]}.
(** A stand-in for the signature: the payload itself, with its dots replaced. *)
Fixpoint plain_sign (p : string) : string :=
  match p with
  | EmptyString => ""
  | String c p' => String (if Ascii.eqb c "." then "_"%char else c) (plain_sign p')
  end.
Definition noon : time := time_unix 1800000000.

Lemma sane_noon : sane_clock noon.
Proof. by vm_compute. Qed.

Lemma confirmation_binds_intent_witness :
  Check_token plain_sign quote_ascii noon (Issue plain_sign quote_ascii noon reset_one).1 reset_one = Ok tt.
Proof.
  destruct (confirmation_binds_intent plain_sign quote_ascii noon noon reset_one reset_all) as [H _];
    [apply sane_noon|by vm_compute..|]. etrans; [exact H|]. by vm_compute.
Defined.

Definition once : string := (IssueOnce plain_sign quote_ascii noon "NONCE" reset_one).1.
Definition replay : list (time * string * Intent) := [(noon, once, reset_one); (noon + second, once, reset_one)]%Z.

Lemma token_used_once_witness :
  check_all plain_sign quote_ascii ∅ replay !! 0 = Some (Ok tt) /\
  check_all plain_sign quote_ascii ∅ replay !! 1 <> Some (Ok tt).
Proof.
  assert (check_all plain_sign quote_ascii ∅ replay !! 0 = Some (Ok tt)) as H0 by by vm_compute.
  split; [exact H0|].
  apply (token_used_once plain_sign quote_ascii ∅ replay 0 1 noon (noon + second)%Z once reset_one reset_one).
  - repeat constructor; by vm_compute.
  - lia.
  - reflexivity.
  - reflexivity.
  - exact H0.
Defined.

Lemma single_use_token_reshaped_witness :
  Check_token plain_sign quote_ascii noon
    (itoa (stamp_of noon) +:+ "|once:" +:+ "NONCE" +:+ "." +:+ signOnce plain_sign quote_ascii (itoa (stamp_of noon)) "NONCE" reset_one)
    reset_one = Ok tt.
Proof.
  apply (single_use_token_reshaped plain_sign quote_ascii noon noon "NONCE" reset_one); [apply sane_noon|by vm_compute|done].
Defined.

(** The encoding of an intent does not quote the action and the machine, so
    two different intents can encode the same and share a token: a bar moves
    between the two fields, and a machine name can spell a parameter. *)
Theorem canonical_ambiguous :
  canonical quote_ascii (mkIntent "a|b" "c" ∅) = canonical quote_ascii (mkIntent "a" "b|c" ∅) /\
  exists m, canonical quote_ascii (mkIntent "node.reset" m ∅) = canonical quote_ascii reset_all /\
    forall sign now now' r,
      Check_token sign quote_ascii now' (Issue sign quote_ascii now (mkIntent "node.reset" m ∅)).1 reset_all = r ->
      Check_token sign quote_ascii now' (Issue sign quote_ascii now reset_all).1 reset_all = r.
Proof.
  split; [reflexivity|]. exists ("m1|" +:+ quote_ascii "wipe_mode" +:+ "=" +:+ quote_ascii "all").
  assert (canonical quote_ascii (mkIntent "node.reset" ("m1|" +:+ quote_ascii "wipe_mode" +:+ "=" +:+ quote_ascii "all") ∅) =
          canonical quote_ascii reset_all) as He by by vm_compute.
  split; [exact He|]. intros sign now now' r <-. unfold Issue. by rewrite He.
Qed.
