(* ===== verification/Redact.v ===== *)
(** * Redaction and snapshots of a machine configuration

    [src/internal/machineconfig/redact.go] and [snapshot.go]: what leaves the
    package of a node's configuration. The Talos machinery (loading, redacting
    the fields of its schema, encoding), the YAML library and SHA-256 are the
    parameters of [Machinery]; the sweep for PEM private keys, which is a
    regular expression of the program, is written out. *)

From S2P Require Import Prelude.
#[local] Set Warnings "-register-all".

(* ------------------------------------------------------------------ *)
(** ** The sweep *)

Definition RedactedMarker : string := "<redacted by holzkube-manager>".

(** [A-Z ]. *)
Definition upper_or_space (c : ascii) : bool :=
  bool_decide (65 ≤ nat_of_ascii c ≤ 90) || bool_decide (nat_of_ascii c = 32).

(** [[A-Z ]*PRIVATE KEY-----] at the head of a text: what follows it. A dash is
    not in the class, so at most one length of the run can match. *)
Fixpoint key_tail (s : string) : option string :=
  match cut_prefix "PRIVATE KEY-----" s with
  | Some r => Some r
  | None => match s with
            | String c s' => if upper_or_space c then key_tail s' else None
            | EmptyString => None
            end
  end.

Definition begin_mark (s : string) : option string := cut_prefix "-----BEGIN " s ≫= key_tail.
Definition end_mark (s : string) : option string := cut_prefix "-----END " s ≫= key_tail.

(** [.*?] and the end marker: what follows the nearest one. *)
Fixpoint find_end (s : string) : option string :=
  match end_mark s with
  | Some r => Some r
  | None => match s with
            | String _ s' => find_end s'
            | EmptyString => None
            end
  end.

(** [pemPrivateKey] at the head of a text. *)
Definition pem_at (s : string) : option string := begin_mark s ≫= find_end.

(** [pemPrivateKey.Match]. *)
Fixpoint ContainsPrivateKey (s : string) : bool :=
  match pem_at s with
  | Some _ => true
  | None => match s with
            | String _ s' => ContainsPrivateKey s'
            | EmptyString => false
            end
  end.

(** [pemPrivateKey.ReplaceAll]: from the left, every match once. A match is not
    empty, so the length of the text is enough fuel ([sweep_fuel]). *)
Fixpoint sweep_loop (fuel : nat) (s : string) : string :=
  match fuel with
  | O => s
  | S f => match pem_at s with
           | Some r => RedactedMarker +:+ sweep_loop f r
           | None => match s with
                     | String c s' => String c (sweep_loop f s')
                     | EmptyString => EmptyString
                     end
           end
  end.
Definition sweep (s : string) : string := sweep_loop (String.length s) s.

(* ------------------------------------------------------------------ *)
(** ** YAML nodes *)

Inductive Kind := DocumentNode | SequenceNode | MappingNode | ScalarNode | AliasNode.

#[global] Instance Kind_eq_dec : EqDecision Kind.
Proof. solve_decision. Defined.

(** [yaml.Node]: its kind, its value, its three comments, its contents, and in
    [style] whatever else the encoder prints (tag, anchor, quoting). *)
Inductive node := Node {
  kind : Kind;
  value : string;
  comments : string * string * string;
  style : string;
  content : list node
}.

(** A decoded value, Go's [any]: nil, a scalar with its Go type, a list, a map
    with string keys and one with keys of any kind, in the order in which a walk
    meets its entries. *)
Inductive any :=
  | ANil
  | AScalar (type text : string)
  | AList (l : list any)
  | AMap (m : list (string * any))
  | AMapAny (m : list (any * any)).

(** What the program calls and does not contain. *)
Class Machinery := {
  provider : Type;
  NewFromBytes : string -> result string provider;
  RedactSecrets : string -> provider -> provider;
  EncodeBytes : provider -> result string string;
  yaml_documents : string -> result string (list node);
  yaml_encode : node -> result string string;
  yaml_decode : node -> result string any;
  yaml_unmarshal : string -> result string any;
  yaml_marshal : any -> result string string;
  sprint : any -> string;
  sha256_hex : string -> string
}.

(* ------------------------------------------------------------------ *)
(** ** Redact and Snapshot *)

Inductive redact_error := ErrDidNotParse (e : string) | ErrEncode (e : string).

Inductive snapshot_error := ErrSnapshotUnreadable | ErrSnapshotTooLarge | ErrSnapshotUnsafe.

Record Snap := mkSnap { Text : string; Digest : string }.

Definition MaxSnapshotBytes : Z := 1048576%Z.
Definition too_large (s : string) : bool := bool_decide (MaxSnapshotBytes < Z.of_nat (String.length s))%Z.

Definition doc_sep : string := "---" +:+ str1 (chr 10).

(** [scalarField]: the contents of a mapping are its keys and values in turn. *)
Fixpoint scalar_field (l : list node) (name : string) : string :=
  match l with
  | k :: v :: rest => if bool_decide (value k = name) && bool_decide (kind v = ScalarNode)
                      then value v else scalar_field rest name
  | _ => ""
  end.
Definition scalarField (m : node) (name : string) : string := scalar_field (content m) name.

Definition documentKey (root : node) (index : nat) : string :=
  let fallback := "doc#" +:+ itoa (Z.of_nat index) in
  if bool_decide (kind root = MappingNode) then
    let k := scalarField root "kind" in
    if negb (bool_decide (k = "")) then
      let name := scalarField root "name" in
      if negb (bool_decide (name = "")) then k +:+ "/" +:+ name else k
    else if bool_decide (scalarField root "version" = "v1alpha1") then "v1alpha1" else fallback
  else fallback.

Fixpoint stripComments (n : node) : node :=
  Node (kind n) (value n) ("", "", "") (style n) (map stripComments (content n)).

Record document := mkDocument { doc_key : string; doc_node : node }.

(** The loop of [splitDocuments] over the documents the decoder yields. *)
Fixpoint split_loop (nodes : list node) (docs : list document) (seen : gmap string Z) : list document :=
  match nodes with
  | [] => docs
  | n :: rest =>
      match content n with
      | root :: _ =>
          if bool_decide (kind n = DocumentNode) then
            let key := documentKey (stripComments root) (length docs) in
            let count := (default 0 (seen !! key) + 1)%Z in
            let key' := if bool_decide (1 < count)%Z then key +:+ "#" +:+ itoa count else key in
            split_loop rest (docs ++ [mkDocument key' (stripComments n)]) (<[key := count]> seen)
          else split_loop rest docs seen
      | [] => split_loop rest docs seen
      end
  end.

Definition doc_le (a b : document) : Prop := str_le (doc_key a) (doc_key b).
#[global] Instance doc_le_dec : RelDecision doc_le.
Proof. intros a b. unfold doc_le. apply _. Defined.

Section Snapshot.
Context `{Machinery}.

(** [Redact] returns bytes also beside an error. *)
Definition Redact (raw : string) : string * option redact_error :=
  match NewFromBytes raw with
  | Err e => (sweep raw, Some (ErrDidNotParse e))
  | Ok p => match EncodeBytes (RedactSecrets RedactedMarker p) with
            | Err e => ("", Some (ErrEncode e))
            | Ok out => (sweep out, None)
            end
  end.

Definition splitDocuments (text : string) : result string (list document) :=
  match yaml_documents text with
  | Err e => Err e
  | Ok nodes => Ok (split_loop nodes [] ∅)
  end.

Fixpoint encode_all (docs : list document) : result string (list string) :=
  match docs with
  | [] => Ok []
  | d :: rest => part ← yaml_encode (doc_node d);
                 parts ← encode_all rest;
                 mret (part :: parts)
  end.

Definition Snapshot (raw : string) : result snapshot_error Snap :=
  if too_large raw then Err ErrSnapshotTooLarge else
  match Redact raw with
  | (_, Some _) => Err ErrSnapshotUnreadable
  | (redacted, None) =>
      if ContainsPrivateKey redacted then Err ErrSnapshotUnsafe else
      match splitDocuments redacted with
      | Err _ => Err ErrSnapshotUnreadable
      | Ok docs =>
          match encode_all (merge_sort doc_le docs) with
          | Err _ => Err ErrSnapshotUnreadable
          | Ok parts =>
              let text := join doc_sep parts in
              if too_large text then Err ErrSnapshotTooLarge
              else Ok (mkSnap text (sha256_hex text))
          end
      end
  end.

End Snapshot.

(* ------------------------------------------------------------------ *)
(** ** The sweep leaves no key *)

(** What follows a match is shorter than the text it was found in. *)
Lemma cut_prefix_length p s r : cut_prefix p s = Some r -> String.length s = String.length p + String.length r.
Proof.
  intros ->%cut_prefix_Some. induction p as [|c p IH]; [done|]. rewrite str_app_cons. cbn. by rewrite IH.
Qed.

Lemma key_tail_length s r : key_tail s = Some r -> String.length r < String.length s.
Proof.
  induction s as [|c s IH]; [done|]. cbn [key_tail].
  destruct (cut_prefix "PRIVATE KEY-----" (String c s)) eqn:E.
  - intros [= ->]. apply cut_prefix_length in E. rewrite E. cbn. lia.
  - destruct (upper_or_space c); [|done]. intros Hr. specialize (IH Hr). cbn. lia.
Qed.

Lemma mark_length p s r : cut_prefix p s ≫= key_tail = Some r -> String.length r < String.length s.
Proof.
  destruct (cut_prefix p s) as [t|] eqn:E; [|done]. cbn. intros Ht%key_tail_length.
  apply cut_prefix_length in E. lia.
Qed.

Lemma find_end_length s r : find_end s = Some r -> String.length r < String.length s.
Proof.
  induction s as [|c s IH]; [done|]. cbn [find_end]. destruct (end_mark (String c s)) as [t|] eqn:E.
  - intros [= ->]. by apply mark_length in E.
  - intros Hr. specialize (IH Hr). cbn. lia.
Qed.

Lemma pem_at_length s r : pem_at s = Some r -> String.length r < String.length s.
Proof.
  unfold pem_at. destruct (begin_mark s) as [t|] eqn:E; [|done]. cbn. intros Hr%find_end_length.
  apply mark_length in E. lia.
Qed.

(** More fuel than the length changes nothing. *)
Lemma sweep_fuel f g s : String.length s <= f -> String.length s <= g -> sweep_loop f s = sweep_loop g s.
Proof.
  revert g s. induction f as [|f IH]; intros [|g] s Hf Hg; try (destruct s; cbn in *; [done|lia]).
  cbn [sweep_loop]. destruct (pem_at s) as [r|] eqn:E.
  - apply pem_at_length in E. f_equal. apply IH; lia.
  - destruct s as [|c s]; [done|]. cbn in Hf, Hg. f_equal. apply IH; lia.
Qed.

Lemma sweep_match s r : pem_at s = Some r -> sweep s = RedactedMarker +:+ sweep r.
Proof.
  intros E. pose proof (pem_at_length s r E) as Hl. unfold sweep at 1.
  destruct (String.length s) as [|n] eqn:En; [lia|]. cbn [sweep_loop]. rewrite E. f_equal.
  apply sweep_fuel; lia.
Qed.

Lemma sweep_step c s : pem_at (String c s) = None -> sweep (String c s) = String c (sweep s).
Proof. intros E. unfold sweep at 1. cbn [String.length sweep_loop]. by rewrite E. Qed.

(** A text without an end marker is left alone. *)
Lemma find_end_none_tail c s : find_end (String c s) = None -> find_end s = None.
Proof. cbn [find_end]. by destruct (end_mark (String c s)). Qed.

Lemma cut_prefix_find_end p s r : cut_prefix p s = Some r -> find_end s = None -> find_end r = None.
Proof.
  intros ->%cut_prefix_Some. induction p as [|c p IH]; [done|]. rewrite str_app_cons.
  intros Hf%find_end_none_tail. auto.
Qed.

Lemma key_tail_find_end s r : key_tail s = Some r -> find_end s = None -> find_end r = None.
Proof.
  induction s as [|c s IH]; [done|]. cbn [key_tail].
  destruct (cut_prefix "PRIVATE KEY-----" (String c s)) eqn:E.
  - intros [= ->]. by eapply cut_prefix_find_end.
  - destruct (upper_or_space c); [|done]. intros Hr Hf%find_end_none_tail. auto.
Qed.

Lemma begin_mark_find_end s r : begin_mark s = Some r -> find_end s = None -> find_end r = None.
Proof.
  unfold begin_mark. destruct (cut_prefix "-----BEGIN " s) as [t|] eqn:E; [|done]. cbn. intros Ht Hf.
  eapply key_tail_find_end; [done|]. by eapply cut_prefix_find_end.
Qed.

Lemma sweep_no_end s : find_end s = None -> sweep s = s.
Proof.
  induction s as [|c s IH]; intros Hf; [done|]. rewrite sweep_step.
  - f_equal. apply IH. by eapply find_end_none_tail.
  - unfold pem_at. destruct (begin_mark (String c s)) as [r|] eqn:E; [|done]. cbn. by eapply begin_mark_find_end.
Qed.

(** The first character of a swept text is the text's own or the marker's. *)
Lemma sweep_head s c t :
  sweep s = String c t -> c <> "<"%char -> exists s', s = String c s' /\ t = sweep s'.
Proof.
  intros Hs Hc. destruct (pem_at s) as [r|] eqn:E.
  - rewrite (sweep_match s r E) in Hs. cbn in Hs. by injection Hs as <- _.
  - destruct s as [|d s]; [done|]. rewrite (sweep_step d s E) in Hs. injection Hs as -> <-. eauto.
Qed.

(** A marker of the swept text was one of the text. *)
Lemma sweep_cut_prefix p s r :
  str_all (fun c => negb (Ascii.eqb c "<")) p = true ->
  cut_prefix p (sweep s) = Some r -> exists r', cut_prefix p s = Some r' /\ r = sweep r'.
Proof.
  revert s. induction p as [|c p IH]; intros s Hp Hr; cbn [cut_prefix] in *; [injection Hr as <-; eauto|].
  cbn [str_all] in Hp. apply andb_true_iff in Hp as [Hc Hp]. apply negb_true_iff, Ascii.eqb_neq in Hc.
  destruct (sweep s) as [|d t] eqn:Es; [done|]. destruct (Ascii.eqb_spec c d) as [<-|]; [|done].
  destruct (sweep_head s c t Es Hc) as (s' & -> & ->). rewrite Ascii.eqb_refl. auto.
Qed.

(** [key_tail] as a decomposition of the text; the run cannot end elsewhere. *)
Fixpoint upper_rest (s : string) : string :=
  match s with
  | String c s' => if upper_or_space c then upper_rest s' else s
  | EmptyString => ""
  end.

Lemma upper_rest_app run s : str_all upper_or_space run = true -> upper_rest (run +:+ s) = upper_rest s.
Proof.
  induction run as [|c run IH]; [done|]. rewrite str_app_cons. cbn. rewrite andb_true_iff. intros [-> Hr]. auto.
Qed.

Definition key_line : string := "PRIVATE KEY-----".

Lemma key_tail_rest run r :
  str_all upper_or_space run = true -> upper_rest (run +:+ key_line +:+ r) = "-----" +:+ r.
Proof. intros Hr. by rewrite upper_rest_app. Qed.

Lemma key_tail_spec s r :
  key_tail s = Some r <-> exists run, str_all upper_or_space run = true /\ s = run +:+ key_line +:+ r.
Proof.
  split.
  - induction s as [|c s IH]; [done|]. cbn [key_tail].
    destruct (cut_prefix "PRIVATE KEY-----" (String c s)) eqn:E.
    + intros [= ->]. apply cut_prefix_Some in E. by exists "".
    + destruct (upper_or_space c) eqn:Hc; [|done]. intros (run & Hr & ->)%IH.
      exists (String c run). cbn. by rewrite Hc.
  - intros (run & Hrun & ->). induction run as [|c run IH]; [done|].
    cbn [str_all] in Hrun. apply andb_true_iff in Hrun as [Hc Hrun]. rewrite str_app_cons. cbn [key_tail].
    destruct (cut_prefix "PRIVATE KEY-----" (String c (run +:+ key_line +:+ r))) as [t|] eqn:E;
      [|rewrite Hc; auto].
    apply cut_prefix_Some in E. f_equal.
    assert ("-----" +:+ t = "-----" +:+ r) as Ht; [|by injection Ht].
    rewrite <- (key_tail_rest "" t eq_refl), <- (key_tail_rest (String c run) r) by (cbn; by rewrite Hc).
    rewrite str_app_cons. by rewrite E.
Qed.

Lemma upper_not_marker run :
  str_all upper_or_space run = true -> str_all (fun c => negb (Ascii.eqb c "<")) run = true.
Proof. apply str_all_impl. intros c Hc. apply negb_true_iff, Ascii.eqb_neq. by intros ->. Qed.

Lemma sweep_key_tail s r : key_tail (sweep s) = Some r -> exists r', key_tail s = Some r' /\ r = sweep r'.
Proof.
  intros (run & Hrun & E)%key_tail_spec. rewrite (assoc_L String.append) in E. apply cut_prefix_Some in E.
  apply sweep_cut_prefix in E as (r' & E & ->).
  - exists r'. split; [|done]. apply cut_prefix_Some in E. rewrite <- (assoc_L String.append) in E.
    apply key_tail_spec. eauto.
  - rewrite str_all_app. by rewrite (upper_not_marker run Hrun).
Qed.

Lemma sweep_begin_mark s r : begin_mark (sweep s) = Some r -> exists r', begin_mark s = Some r' /\ r = sweep r'.
Proof.
  unfold begin_mark. destruct (cut_prefix "-----BEGIN " (sweep s)) as [t|] eqn:E; [|done].
  apply sweep_cut_prefix in E as (t' & -> & ->); [|done]. apply sweep_key_tail.
Qed.

(** Nothing the sweep lets through is a private key: a begin marker of the
    result is one of the text, and had it had an end it would have been swept. *)
Lemma sweep_pem_at s : pem_at (sweep s) = None.
Proof.
  unfold pem_at. destruct (begin_mark (sweep s)) as [r|] eqn:E; [cbn|done].
  pose proof E as (r' & Eb & ->)%sweep_begin_mark. destruct (find_end r') as [t|] eqn:Ef.
  - exfalso. assert (pem_at s = Some t) as Hp by (unfold pem_at; by rewrite Eb).
    rewrite (sweep_match s t Hp) in E. done.
  - by rewrite sweep_no_end.
Qed.

Lemma marker_no_key s : ContainsPrivateKey (RedactedMarker +:+ s) = ContainsPrivateKey s.
Proof. reflexivity. Qed.

Lemma sweep_no_key s : ContainsPrivateKey (sweep s) = false.
Proof.
  remember (String.length s) as n eqn:Hn. revert s Hn.
  induction (Nat.lt_wf_0 n) as [n _ IH]. intros s ->. destruct (pem_at s) as [r|] eqn:E.
  - rewrite (sweep_match s r E), marker_no_key. eapply IH; [by apply (pem_at_length s)|done].
  - destruct s as [|c s]; [done|]. pose proof (sweep_pem_at (String c s)) as Hp.
    rewrite (sweep_step c s E) in Hp |- *. cbn [ContainsPrivateKey]. rewrite Hp.
    eapply IH; [|done]. cbn. lia.
Qed.

Section SnapshotLemmas.
Context `{Machinery}.

Lemma Redact_bytes raw : exists src, (Redact raw).1 = sweep src.
Proof.
  unfold Redact. destruct (NewFromBytes raw) as [p|e]; [|by exists raw].
  destruct (EncodeBytes _) as [out|e]; [by exists out|by exists ""].
Qed.

Lemma Snapshot_ok raw snap :
  Snapshot raw = Ok snap -> Digest snap = sha256_hex (Text snap) /\ too_large (Text snap) = false.
Proof.
  unfold Snapshot. destruct (too_large raw); [done|]. destruct (Redact raw) as [out [e|]]; [done|].
  destruct (ContainsPrivateKey out); [done|]. destruct (splitDocuments out) as [docs|e]; [|done].
  destruct (encode_all _) as [parts|e]; [|done]. destruct (too_large (join doc_sep parts)) eqn:Hl; [done|].
  by intros [= <-].
Qed.

(** C7: no private key leaves [Redact], on any of its ways out: neither the
    redacted configuration nor the bytes it returns beside a parse error hold a
    PEM private-key block, whatever the machinery redacted. The check after it in
    [Snapshot] therefore never fires, and a snapshot is at most a mebibyte with
    the SHA-256 of its own text. *)
Theorem Redact_no_private_key raw :
  ContainsPrivateKey (Redact raw).1 = false /\
  match Snapshot raw with
  | Ok snap => Digest snap = sha256_hex (Text snap) /\ (Z.of_nat (String.length (Text snap)) <= MaxSnapshotBytes)%Z
  | Err e => e <> ErrSnapshotUnsafe
  end.
Proof.
  destruct (Redact_bytes raw) as [src Hsrc]. rewrite Hsrc. split; [apply sweep_no_key|].
  destruct (Snapshot raw) as [snap|e] eqn:Hs.
  - apply Snapshot_ok in Hs as [Hd Hl]. split; [done|]. unfold too_large in Hl.
    apply bool_decide_eq_false in Hl. lia.
  - unfold Snapshot in Hs. destruct (too_large raw); [by injection Hs as <-|].
    destruct (Redact raw) as [out [e'|]]; [by injection Hs as <-|]. cbn in Hsrc. subst out.
    rewrite sweep_no_key in Hs. destruct (splitDocuments (sweep src)); [|by injection Hs as <-].
    destruct (encode_all _); [|by injection Hs as <-]. cbn zeta in Hs. destruct (too_large _); by simplify_eq.
Qed.

End SnapshotLemmas.
