(* ===== verification/ConfigDiff.v ===== *)
(** * The structural diff of two configurations and the apply mode it needs

    [src/internal/machineconfig/diff.go], [applymode.go] and the comparison of
    [snapshot.go]: which settings differ between two configurations
    ([Compare], [CompareDocuments]) and whether such a change can be applied
    without a reboot ([ModeFor]). *)

From S2P Require Import Prelude Redact.

Inductive ChangeKind := ChangeAdded | ChangeRemoved | ChangeModified | ChangeListGrew.

#[global] Instance ChangeKind_eq_dec : EqDecision ChangeKind.
Proof. solve_decision. Defined.

Record Change := mkChange {
  Path : string;
  CKind : ChangeKind;
  Before : string;
  After : string;
  LenBefore : Z;
  LenAfter : Z;
  Duplicates : list string
}.

Record Diff := mkDiff { Changes : list Change; Paths : list string; AnyDuplicates : bool }.

Definition pathOrRoot (path : string) : string := if bool_decide (path = "") then "." else path.

(** [strings.HasPrefix]. *)
Definition has_prefix (s p : string) : bool := bool_decide (is_Some (cut_prefix p s)).

(** [strings.TrimRight(s, "\n")], on the reversed text. *)
Fixpoint drop_newlines (s : string) : string :=
  match s with
  | String c s' => if Ascii.eqb c (chr 10) then drop_newlines s' else s
  | EmptyString => ""
  end.
Definition trim_newlines (s : string) : string := string_rev (drop_newlines (string_rev s)).

(** [strings.ReplaceAll(s, "\n", " ")]. *)
Fixpoint newlines_to_spaces (s : string) : string :=
  match s with
  | String c s' => String (if Ascii.eqb c (chr 10) then " "%char else c) (newlines_to_spaces s')
  | EmptyString => ""
  end.

(** [m[key]] of a map of values: nil when the key is not there. *)
Fixpoint map_get (m : list (string * any)) (key : string) : any :=
  match m with
  | [] => ANil
  | (k, v) :: rest => if bool_decide (k = key) then v else map_get rest key
  end.

(** [unionKeys]: every key of either map once, sorted. *)
Definition unionKeys (a b : list (string * any)) : list string := sort_strings (remove_dups (a.*1 ++ b.*1)).

Definition is_nil (v : any) : bool := match v with ANil => true | _ => false end.

(** The height of a value bounds the recursion of [walk]. *)
Fixpoint height (v : any) : nat :=
  match v with
  | ANil | AScalar _ _ => 0
  | AList l => S (max_list (map height l))
  | AMap m => S (max_list (map (fun kv => height (snd kv)) m))
  | AMapAny m => S (max_list (map (fun kv => height (snd kv)) m))
  end.

Definition change_le (a b : Change) : Prop := str_le (Path a) (Path b).
#[global] Instance change_le_dec : RelDecision change_le.
Proof. intros a b. unfold change_le. apply _. Defined.

(** The end of both comparisons: the changes by path, the paths, and whether a
    list holds a value twice. ([sort.Slice] leaves the order of equal paths
    open; this is one of its outcomes.) *)
Definition finish_diff (changes : list Change) : Diff :=
  let sorted := merge_sort change_le changes in
  mkDiff sorted (map Path sorted) (existsb (fun c => negb (bool_decide (Duplicates c = []))) sorted).

Section Diff.
Context `{Machinery}.

(** [render]: the one string both sides are compared as. *)
Definition render (v : any) : string :=
  match v with
  | ANil => ""
  | _ => match yaml_marshal v with
         | Err _ => sprint v
         | Ok raw => trim_newlines raw
         end
  end.

Definition renderList (l : list any) : string := join ", " (map (fun v => newlines_to_spaces (render v)) l).

(** [asMap]: a map with keys of any kind is copied under the printed keys, the
    later of two equal ones last. *)
Definition asMap (v : any) : option (list (string * any)) :=
  match v with
  | AMap m => Some m
  | AMapAny m => Some (reverse (map (fun kv => (sprint kv.1, kv.2)) m))
  | _ => None
  end.

(** [duplicatesIn]: a value is listed when it is met for the second time. *)
Fixpoint dup_loop (l : list any) (seen : gmap string Z) : list string :=
  match l with
  | [] => []
  | v :: rest =>
      let r := render v in
      let count := (default 0 (seen !! r) + 1)%Z in
      (if bool_decide (count = 2)%Z then [r] else []) ++ dup_loop rest (<[r := count]> seen)
  end.
Definition duplicatesIn (l : list any) : list string := dup_loop l ∅.

Fixpoint same_rendering (a b : list any) : bool :=
  match a, b with
  | x :: a', y :: b' => bool_decide (render x = render y) && same_rendering a' b'
  | _, _ => true
  end.

Definition diffList (path : string) (before after : list any) : list Change :=
  let same := bool_decide (length before = length after) && same_rendering before after in
  let dupes := duplicatesIn after in
  if same && bool_decide (dupes = []) then []
  else [mkChange (pathOrRoot path)
          (if bool_decide (length before = length after) then ChangeModified else ChangeListGrew)
          (renderList before) (renderList after)
          (Z.of_nat (length before)) (Z.of_nat (length after)) dupes].

Fixpoint walk_loop (fuel : nat) (path : string) (before after : any) : list Change :=
  match fuel with
  | O => []
  | S f =>
      match before, after with
      | ANil, ANil => []
      | ANil, _ => [mkChange (pathOrRoot path) ChangeAdded "" (render after) 0 0 []]
      | _, ANil => [mkChange (pathOrRoot path) ChangeRemoved (render before) "" 0 0 []]
      | _, _ =>
          match asMap before, asMap after with
          | Some bm, Some am =>
              concat (map (fun key => walk_loop f (path +:+ "." +:+ key) (map_get bm key) (map_get am key))
                        (unionKeys bm am))
          | _, _ =>
              match before, after with
              | AList bl, AList al => diffList path bl al
              | _, _ =>
                  if bool_decide (render before = render after) then []
                  else [mkChange (pathOrRoot path) ChangeModified (render before) (render after) 0 0 []]
              end
          end
      end
  end.

(** [walk]; one more than the height of the first value is enough fuel
    ([walk_fuel]). *)
Definition walk (path : string) (before after : any) : list Change := walk_loop (S (height before)) path before after.

Inductive compare_error :=
  | ErrRedact (e : redact_error)
  | ErrParseCurrent (e : string)
  | ErrParseProposed (e : string).

(** [Compare]: both sides redacted, then the first document of each. *)
Definition Compare (before after : string) : result compare_error Diff :=
  match Redact before, Redact after with
  | (_, Some e), _ => Err (ErrRedact e)
  | _, (_, Some e) => Err (ErrRedact e)
  | (rb, None), (ra, None) =>
      match yaml_unmarshal rb, yaml_unmarshal ra with
      | Err e, _ => Err (ErrParseCurrent e)
      | _, Err e => Err (ErrParseProposed e)
      | Ok a, Ok b => Ok (finish_diff (walk "" a b))
      end
  end.

(** [decodeByKey]. *)
Fixpoint decode_docs (docs : list document) (acc : gmap string any) : result snapshot_error (gmap string any) :=
  match docs with
  | [] => Ok acc
  | d :: rest => match yaml_decode (doc_node d) with
                 | Err _ => Err ErrSnapshotUnreadable
                 | Ok v => decode_docs rest (<[doc_key d := v]> acc)
                 end
  end.
Definition decodeByKey (text : string) : result snapshot_error (gmap string any) :=
  match splitDocuments text with
  | Err _ => Err ErrSnapshotUnreadable
  | Ok docs => decode_docs docs ∅
  end.

Definition doc_at (docs : gmap string any) (key : string) : any := default ANil (docs !! key).

(** [CompareDocuments]: every document of both snapshots, under its key. *)
Definition compare_maps (left right : gmap string any) : list Change :=
  concat (map (fun k => walk k (doc_at left k) (doc_at right k)) (sort_strings (elements (dom left ∪ dom right)))).

Definition CompareDocuments (before after : string) : result snapshot_error Diff :=
  a ← Snapshot before;
  b ← Snapshot after;
  left ← decodeByKey (Text a);
  right ← decodeByKey (Text b);
  mret (finish_diff (compare_maps left right)).

End Diff.

(* ------------------------------------------------------------------ *)
(** ** The apply mode *)

Inductive Mode := ModeNoReboot | ModeReboot | ModeStaged | ModeTry.

#[global] Instance Mode_eq_dec : EqDecision Mode.
Proof. solve_decision. Defined.

Definition TryTimeout : duration := (60 * second)%Z.

Definition noRebootPaths : list string :=
  [".cluster"; ".machine.time"; ".machine.network"; ".machine.sysctls"; ".machine.sysfs"; ".machine.env";
   ".machine.files"; ".machine.logging"; ".machine.kubelet"; ".machine.registries"; ".machine.nodeLabels";
   ".machine.nodeAnnotations"; ".machine.nodeTaints"; ".machine.certSANs"; ".machine.features"; ".machine.pods";
   ".machine.udev"; ".machine.seccompProfiles"; ".machine.ca"; ".machine.acceptedCAs"].

Definition installPrefix : string := ".machine.install".
Definition networkPrefix : string := ".machine.network".

Record Verdict := mkVerdict {
  VMode : Mode;
  RebootRequired : bool;
  RebootPaths : list string;
  InstallOnly : list string;
  NetworkPaths : list string;
  TrySeconds : Z;
  Sentences : list string
}.

Definition noReboot (path : string) : bool :=
  if has_prefix path installPrefix then false
  else existsb (fun prefix => bool_decide (path = prefix) || has_prefix path (prefix +:+ ".")
                              || has_prefix path (prefix +:+ "[")) noRebootPaths.

Definition is_install (p : string) : bool := has_prefix p installPrefix.
Definition is_network (p : string) : bool := negb (has_prefix p installPrefix) && has_prefix p networkPrefix.

Definition plural (n : nat) (one many : string) : string := if bool_decide (n = 1) then one else many.

(** [joinPaths] of at least one path. *)
Definition joinPaths (paths : list string) : string :=
  match paths with
  | [p] => p
  | _ => if bool_decide (length paths <= 3)
         then join ", " (take (length paths - 1) paths) +:+ " and " +:+ default "" (last paths)
         else join ", " (take 3 paths) +:+ " and " +:+ itoa (Z.of_nat (length paths) - 3) +:+ " more"
  end.

Definition sentencesFor (v : Verdict) (total : nat) : list string :=
  if bool_decide (total = 0) then ["Nothing changes."] else
  match VMode v with
  | ModeNoReboot => ["This applies immediately without restarting the node."]
  | ModeTry => ["This changes the node's network. Apply it with a " +:+ itoa (TrySeconds v) +:+
      "-second rollback timer: if the node becomes unreachable, it undoes the change by itself. Without the timer, a mistake here is a node you cannot reach to fix."]
  | ModeReboot => ["This needs a reboot: " +:+ joinPaths (RebootPaths v) +:+ " " +:+
      plural (length (RebootPaths v)) "is" "are" +:+ " outside what Talos can change while running."]
  | ModeStaged => ["This is written for the next boot and changes nothing now."]
  end
  ++ (if bool_decide (InstallOnly v = []) then [] else
      [joinPaths (InstallOnly v) +:+ " " +:+ plural (length (InstallOnly v)) "takes effect" "take effect" +:+
       " only at the next install or upgrade. The apply will report success and the node's install settings will not change until then."])
  ++ (if negb (bool_decide (NetworkPaths v = [])) && bool_decide (VMode v = ModeReboot) then
      ["It also changes the network, so check the addresses carefully: the reboot is what applies them, and there is no rollback timer on a reboot."]
      else []).

(** [ModeFor]. *)
Definition ModeFor (paths : list string) : Verdict :=
  let reboot := filter (fun p => noReboot p = false) paths in
  let install := filter (fun p => is_install p = true) paths in
  let network := filter (fun p => is_network p = true) paths in
  let required := negb (bool_decide (reboot = [])) in
  let mode := if required then ModeReboot
              else if negb (bool_decide (network = [])) then ModeTry else ModeNoReboot in
  let seconds := if bool_decide (mode = ModeTry) then (TryTimeout / second)%Z else 0%Z in
  let v := mkVerdict mode required (sort_strings reboot) (sort_strings install) (sort_strings network) seconds [] in
  mkVerdict mode required (sort_strings reboot) (sort_strings install) (sort_strings network) seconds
    (sentencesFor v (length paths)).

(* ------------------------------------------------------------------ *)
(** ** What a comparison reports *)

Lemma map_get_elem m k : map_get m k = ANil \/ (k, map_get m k) ∈ m.
Proof.
  induction m as [|[k' v] m IH]; cbn; [by left|]. case_bool_decide as E; [subst k'; right; set_solver|].
  destruct IH as [->|Hin]; [by left|right; set_solver].
Qed.

Lemma max_list_elem n l : n ∈ l -> n <= max_list l.
Proof. induction l; set_unfold; cbn; [done|]. intros [->|Hn]; [lia|]. specialize (IHl Hn). lia. Qed.

Section DiffLemmas.
Context `{Machinery}.

Lemma asMap_height v m k : asMap v = Some m -> height (map_get m k) < height v.
Proof.
  intros Hm. assert (exists h, height v = S h) as [h Hh] by (destruct v; try done; cbn; eauto).
  destruct (map_get_elem m k) as [->|Hin]; [rewrite Hh; cbn; lia|].
  destruct v as [| | |mm|mm]; try done; cbn in Hm; injection Hm as <-.
  - cbn. apply Nat.lt_succ_r, max_list_elem. apply list_elem_of_fmap. by exists (k, map_get mm k).
  - set (v := map_get _ k) in *. clearbody v. rewrite elem_of_reverse in Hin.
    apply list_elem_of_fmap in Hin as ([k' v'] & [= _ ->] & Hin).
    cbn. apply Nat.lt_succ_r, max_list_elem. apply list_elem_of_fmap. by exists (k', v').
Qed.

Lemma asMap_not_nil v m : asMap v = Some m -> is_nil v = false.
Proof. by destruct v. Qed.

Lemma map_get_in m k : is_nil (map_get m k) = false -> k ∈ m.*1.
Proof.
  destruct (map_get_elem m k) as [->|Hin]; [done|]. intros _. apply list_elem_of_fmap. by exists (k, map_get m k).
Qed.

Lemma unionKeys_elem a b k : k ∈ unionKeys a b <-> k ∈ a.*1 \/ k ∈ b.*1.
Proof. unfold unionKeys, sort_strings. rewrite merge_sort_Permutation, elem_of_remove_dups. set_solver. Qed.

(** What [walk] says about two values it does not descend into. *)
Definition leaf (path : string) (before after : any) : list Change :=
  match before, after with
  | ANil, ANil => []
  | ANil, _ => [mkChange (pathOrRoot path) ChangeAdded "" (render after) 0 0 []]
  | _, ANil => [mkChange (pathOrRoot path) ChangeRemoved (render before) "" 0 0 []]
  | _, _ =>
      match asMap before, asMap after with
      | Some _, Some _ => []
      | _, _ =>
          match before, after with
          | AList bl, AList al => diffList path bl al
          | _, _ => if bool_decide (render before = render after) then []
                    else [mkChange (pathOrRoot path) ChangeModified (render before) (render after) 0 0 []]
          end
      end
  end.

(** The two values found by following the same keys through both sides. *)
Inductive at_path : any -> any -> list string -> any -> any -> Prop :=
  | at_here before after : at_path before after [] before after
  | at_key before after bm am key keys b a :
      asMap before = Some bm -> asMap after = Some am ->
      at_path (map_get bm key) (map_get am key) keys b a ->
      at_path before after (key :: keys) b a.

Definition dotted (path : string) (keys : list string) : string :=
  foldl (fun p key => p +:+ "." +:+ key) path keys.

Lemma walk_unfold f path before after :
  walk_loop (S f) path before after =
    match asMap before, asMap after with
    | Some bm, Some am =>
        concat (map (fun key => walk_loop f (path +:+ "." +:+ key) (map_get bm key) (map_get am key)) (unionKeys bm am))
    | _, _ => leaf path before after
    end.
Proof. destruct before, after; done. Qed.

(** Enough fuel is enough. *)
Lemma walk_fuel f g path before after :
  height before < f -> height before < g -> walk_loop f path before after = walk_loop g path before after.
Proof.
  revert g path before after. induction f as [|f IH]; intros [|g] path before after Hf Hg; try lia.
  rewrite !walk_unfold. destruct (asMap before) as [bm|] eqn:Hb; [|done].
  destruct (asMap after) as [am|]; [|done]. f_equal. apply map_ext. intros key.
  pose proof (asMap_height before bm key Hb). apply IH; lia.
Qed.

Lemma walk_step path before after :
  walk path before after =
    match asMap before, asMap after with
    | Some bm, Some am =>
        concat (map (fun key => walk (path +:+ "." +:+ key) (map_get bm key) (map_get am key)) (unionKeys bm am))
    | _, _ => leaf path before after
    end.
Proof.
  unfold walk at 1. rewrite walk_unfold. destruct (asMap before) as [bm|] eqn:Hb; [|done].
  destruct (asMap after) as [am|]; [|done]. f_equal. apply map_ext. intros key.
  pose proof (asMap_height before bm key Hb). unfold walk. apply walk_fuel; lia.
Qed.

Lemma leaf_maps path before after bm am : asMap before = Some bm -> asMap after = Some am -> leaf path before after = [].
Proof. intros Hb Ha. destruct before, after; done. Qed.

Lemma at_path_nil keys b a path : at_path ANil ANil keys b a -> leaf path b a = [].
Proof. intros Hp. inversion Hp; simplify_eq/=; done. Qed.

Lemma elem_of_concat_map {A B} (g : A -> list B) l (x : B) : x ∈ concat (map g l) <-> exists a, a ∈ l /\ x ∈ g a.
Proof. rewrite list_elem_of_In, in_concat. setoid_rewrite in_map_iff. setoid_rewrite list_elem_of_In. naive_solver. Qed.

(** A comparison reports exactly the leaves that differ. *)
Lemma walk_elem path before after c :
  c ∈ walk path before after <->
  exists keys b a, at_path before after keys b a /\ c ∈ leaf (dotted path keys) b a.
Proof.
  remember (height before) as n eqn:Hn. revert path before after Hn.
  induction (Nat.lt_wf_0 n) as [n _ IH]. intros path before after ->. rewrite walk_step.
  assert (forall bm am, asMap before = Some bm -> asMap after = Some am ->
     (exists keys b a, at_path before after keys b a /\ c ∈ leaf (dotted path keys) b a) <->
     exists key, c ∈ walk (path +:+ "." +:+ key) (map_get bm key) (map_get am key)) as Hmaps.
  { intros bm am Hb Ha. split.
    - intros (keys & b & a & Hp & Hc). inversion Hp as [|? ? bm' am' key keys' ? ? Hb' Ha' Hp']; simplify_eq/=.
      + by rewrite (leaf_maps _ _ _ _ _ Hb Ha) in Hc; apply elem_of_nil in Hc.
      + exists key. apply (IH (height (map_get bm key))); [by apply asMap_height|done|]. eauto.
    - intros (key & Hc). apply (IH (height (map_get bm key))) in Hc as (keys & b & a & Hp & Hc);
        [|by apply asMap_height|done].
      exists (key :: keys), b, a. split; [by econstructor|done]. }
  destruct (asMap before) as [bm|] eqn:Hb; [destruct (asMap after) as [am|] eqn:Ha|].
  - rewrite (Hmaps bm am) by done. rewrite elem_of_concat_map. split; [naive_solver|]. intros (key & Hc).
    exists key. split; [|done]. apply unionKeys_elem.
    destruct (is_nil (map_get bm key)) eqn:Hbn; [|left; by apply map_get_in].
    destruct (is_nil (map_get am key)) eqn:Han; [|right; by apply map_get_in].
    destruct (map_get bm key), (map_get am key); try done. by apply elem_of_nil in Hc.
  - split; [by exists [], before, after; split; [constructor|]|].
    intros (keys & b & a & Hp & Hc). inversion Hp; simplify_eq/=; done.
  - split; [by exists [], before, after; split; [constructor|]|].
    intros (keys & b & a & Hp & Hc). inversion Hp; simplify_eq/=; done.
Qed.

(** When two values are no difference: both absent, both maps (their entries are
    compared on their own), lists with the same entries and no entry twice, or
    anything else that prints the same. *)
Inductive alike : any -> any -> Prop :=
  | alike_absent : alike ANil ANil
  | alike_maps before after bm am : asMap before = Some bm -> asMap after = Some am -> alike before after
  | alike_lists bl al : map render bl = map render al -> NoDup (map render al) -> alike (AList bl) (AList al)
  | alike_printed before after :
      is_nil before = false -> is_nil after = false -> (asMap before = None \/ asMap after = None) ->
      (forall bl al, before = AList bl -> after = AList al -> False) ->
      render before = render after -> alike before after.

Lemma same_rendering_map a b :
  bool_decide (length a = length b) && same_rendering a b = true <-> map render a = map render b.
Proof.
  revert b. induction a as [|x a IH]; intros [|y b]; cbn; try done.
  specialize (IH b). bools. split.
  - intros [Hl [Hx Hs]]. rewrite Hx. f_equal. apply IH. bools. split; [lia|done].
  - intros [= Hx Hs]. apply IH in Hs. bools. destruct Hs as [Hl Hs]. split; [lia|done].
Qed.

Lemma dup_loop_nil l seen :
  (forall r n, seen !! r = Some n -> n = 1%Z) ->
  dup_loop l seen = [] <-> NoDup (map render l) /\ forall v, v ∈ l -> seen !! render v = None.
Proof.
  revert seen. induction l as [|v l IH]; intros seen Hseen; cbn.
  { split; [|done]. intros _. split; [constructor|]. set_solver. }
  rewrite NoDup_cons. destruct (seen !! render v) as [n|] eqn:E; cbn [default].
  - rewrite (Hseen _ _ E), bool_decide_eq_true_2 by done. cbn. split; [done|]. intros [_ Hf]. rewrite (Hf v) in E by set_solver. done.
  - change (0 + 1)%Z with 1%Z. rewrite bool_decide_eq_false_2 by done. cbn [app].
    rewrite IH; clear IH; [|intros r n; rewrite lookup_insert_Some; naive_solver].
    assert (forall v', v' ∈ l -> <[render v := 1%Z]> seen !! render v' = None <->
              render v' <> render v /\ seen !! render v' = None) as Hins.
    { intros v' _. rewrite lookup_insert_None. naive_solver. }
    split.
    + intros [Hnd Hf]. split; [split; [|done]|].
      * intros (v' & Hr & Hv')%list_elem_of_fmap. specialize (Hf v' Hv'). apply Hins in Hf; naive_solver.
      * intros v' [->|Hv']%elem_of_cons; [done|]. specialize (Hf v' Hv'). apply Hins in Hf; naive_solver.
    + intros [[Hni Hnd] Hf]. split; [done|]. intros v' Hv'. apply Hins; [done|]. split; [|apply Hf; set_solver].
      intros Hr. apply Hni, list_elem_of_fmap. eauto.
Qed.

Lemma duplicatesIn_nil l : duplicatesIn l = [] <-> NoDup (map render l).
Proof. unfold duplicatesIn. rewrite dup_loop_nil by done. set_solver. Qed.

(** A leaf is reported exactly when its two values are not alike, once, under
    its own path, and as added or removed when one side has nothing there. *)
Definition reported (path : string) (before after : any) (c : Change) : Prop :=
  Path c = pathOrRoot path /\ (CKind c = ChangeAdded <-> before = ANil) /\ (CKind c = ChangeRemoved <-> after = ANil).

Lemma diffList_spec path bl al :
  alike (AList bl) (AList al) /\ diffList path bl al = [] \/
  ~ alike (AList bl) (AList al) /\ exists c, diffList path bl al = [c] /\ reported path (AList bl) (AList al) c.
Proof.
  unfold diffList, reported.
  destruct (bool_decide (length bl = length al) && same_rendering bl al) eqn:Hsame.
  - apply same_rendering_map in Hsame. cbn [andb]. case_bool_decide as Hd.
    + left. split; [|done]. constructor; [done|]. by apply duplicatesIn_nil.
    + right. split; [|eexists; split; [done|]; cbn; by repeat case_bool_decide].
      intros Ha. apply Hd, duplicatesIn_nil. inversion Ha; naive_solver.
  - right. split; [|eexists; split; [done|]; cbn; by repeat case_bool_decide].
    intros Ha. apply not_true_iff_false in Hsame. apply Hsame, same_rendering_map. inversion Ha; naive_solver.
Qed.

Lemma printed_spec path before after :
  is_nil before = false -> is_nil after = false -> (asMap before = None \/ asMap after = None) ->
  (forall bl al, before = AList bl -> after = AList al -> False) ->
  let out := if bool_decide (render before = render after) then []
             else [mkChange (pathOrRoot path) ChangeModified (render before) (render after) 0 0 []] in
  alike before after /\ out = [] \/ ~ alike before after /\ exists c, out = [c] /\ reported path before after c.
Proof.
  intros Hb Ha Hm Hl. cbn zeta. case_bool_decide as Hr; [left; split; [by constructor 4|done]|right].
  split.
  - intros Hal. inversion Hal; naive_solver.
  - eexists. split; [done|]. unfold reported. cbn. split; [done|]. destruct before, after; done.
Qed.

(** A leaf is reported exactly when its two values are not alike, once. *)
Lemma leaf_spec path before after :
  alike before after /\ leaf path before after = [] \/
  ~ alike before after /\ exists c, leaf path before after = [c] /\ reported path before after c.
Proof.
  destruct (is_nil before) eqn:Hb; [|destruct (is_nil after) eqn:Ha].
  - destruct before; try done. destruct (is_nil after) eqn:Ha.
    + destruct after; try done. left. split; [constructor|done].
    + right. split; [intros Hal; inversion Hal; simplify_eq/=; done|].
      destruct after; try done; eexists; (split; [done|]); unfold reported; cbn; naive_solver.
  - destruct after; try done. right. split; [intros Hal; inversion Hal; simplify_eq/=; done|].
    destruct before; try done; eexists; (split; [done|]); unfold reported; cbn; naive_solver.
  - destruct (asMap before) as [bm|] eqn:Hbm; [destruct (asMap after) as [am|] eqn:Ham|].
    + left. split; [by econstructor 2|]. by eapply leaf_maps.
    + pose proof (printed_spec path before after Hb Ha (or_intror Ham)) as Hp.
      destruct before, after; try done; apply Hp; naive_solver.
    + pose proof (printed_spec path before after Hb Ha (or_introl Hbm)) as Hp.
      destruct before, after; try done; try (apply diffList_spec); apply Hp; naive_solver.
Qed.

(** The changes a walk reports, by where the two sides are not alike. *)
Lemma walk_reports path before after :
  (forall keys b a, at_path before after keys b a -> ~ alike b a ->
     exists c, c ∈ walk path before after /\ reported (dotted path keys) b a c) /\
  (forall c, c ∈ walk path before after ->
     exists keys b a, at_path before after keys b a /\ ~ alike b a /\ reported (dotted path keys) b a c).
Proof.
  split.
  - intros keys b a Hp Hn. destruct (leaf_spec (dotted path keys) b a) as [[Hal _]|(_ & c & Hc & Hr)]; [done|].
    exists c. split; [|done]. apply walk_elem. exists keys, b, a. rewrite Hc. set_solver.
  - intros c (keys & b & a & Hp & Hc)%walk_elem. exists keys, b, a.
    destruct (leaf_spec (dotted path keys) b a) as [[_ Hl]|(Hn & c' & Hl & Hr)]; rewrite Hl in Hc.
    + by apply elem_of_nil in Hc.
    + apply list_elem_of_singleton in Hc as ->. done.
Qed.

Lemma finish_diff_elem changes c : c ∈ Changes (finish_diff changes) <-> c ∈ changes.
Proof. unfold finish_diff. cbn. by rewrite merge_sort_Permutation. Qed.

Lemma compare_maps_elem left right c :
  c ∈ compare_maps left right <-> exists key, c ∈ walk key (doc_at left key) (doc_at right key).
Proof.
  unfold compare_maps. rewrite elem_of_concat_map. split; [naive_solver|]. intros (key & Hc). exists key.
  split; [|done]. unfold sort_strings. rewrite merge_sort_Permutation, elem_of_elements.
  unfold doc_at in Hc. rewrite elem_of_union, !elem_of_dom. destruct (left !! key), (right !! key); eauto.
  by apply elem_of_nil in Hc.
Qed.

#[local] Instance change_le_total : Total change_le.
Proof.
  intros a b. unfold change_le, str_le.
  destruct (str_lt (Path b) (Path a)) eqn:E; [right|by left].
  destruct (str_lt (Path a) (Path b)) eqn:E'; [|done].
  pose proof (str_lt_trans _ _ _ E E') as Ht. by rewrite str_lt_irrefl in Ht.
Qed.

(** the comparison of two snapshots is complete and exact. Follow the same
    keys through the same document of both sides: where the two values are not
    alike there is a change under that path (added when the earlier side has
    nothing there, removed when the later one has not), and every change is one of
    those. That holds for every document, one that is only on one side included;
    the changes are sorted by path and [Paths] are their paths. *)
Theorem CompareDocuments_complete before after d :
  CompareDocuments before after = Ok d ->
  exists a b left right,
    Snapshot before = Ok a /\ Snapshot after = Ok b /\
    decodeByKey (Text a) = Ok left /\ decodeByKey (Text b) = Ok right /\
    (forall key keys v w, at_path (doc_at left key) (doc_at right key) keys v w -> ~ alike v w ->
       exists c, c ∈ Changes d /\ reported (dotted key keys) v w c) /\
    (forall c, c ∈ Changes d ->
       exists key keys v w, at_path (doc_at left key) (doc_at right key) keys v w /\ ~ alike v w /\
         reported (dotted key keys) v w c) /\
    Sorted change_le (Changes d) /\ Paths d = map Path (Changes d).
Proof.
  unfold CompareDocuments. intros Hc.
  destruct (Snapshot before) as [a|] eqn:Ha; [|done]. destruct (Snapshot after) as [b|] eqn:Hb; [|done]. cbn in Hc.
  destruct (decodeByKey (Text a)) as [left|] eqn:Hl; [|done].
  destruct (decodeByKey (Text b)) as [right|] eqn:Hr; [|done]. cbn in Hc. injection Hc as <-.
  exists a, b, left, right. do 4 (split; [done|]). split; [|split; [|split; [|done]]].
  - intros key keys v w Hp Hn. destruct (proj1 (walk_reports key _ _) keys v w Hp Hn) as (c & Hc & Hrep).
    exists c. split; [|done]. apply finish_diff_elem, compare_maps_elem. eauto.
  - intros c Hc. apply finish_diff_elem, compare_maps_elem in Hc as (key & Hc).
    apply walk_reports in Hc. naive_solver.
  - apply (Sorted_merge_sort change_le).
Qed.

(* ------------------------------------------------------------------ *)
(** ** The recommended mode *)

(** A path the whitelist covers: a listed path, or something under it. *)
Definition covered (path : string) : Prop :=
  exists prefix, prefix ∈ noRebootPaths /\
    (path = prefix \/ exists rest, path = prefix +:+ "." +:+ rest \/ path = prefix +:+ "[" +:+ rest).

Lemma has_prefix_app s p : has_prefix s p = true <-> exists rest, s = p +:+ rest.
Proof. unfold has_prefix. rewrite bool_decide_eq_true. unfold is_Some. by setoid_rewrite cut_prefix_Some. Qed.

Lemma listed_not_install prefix rest : prefix ∈ noRebootPaths -> has_prefix (prefix +:+ rest) installPrefix = false.
Proof.
  unfold noRebootPaths. intros Hp. unfold has_prefix, installPrefix.
  repeat (apply elem_of_cons in Hp as [->|Hp]; [reflexivity|]). by apply elem_of_nil in Hp.
Qed.

Lemma noReboot_covered path : noReboot path = true <-> covered path.
Proof.
  unfold noReboot, covered. split.
  - destruct (has_prefix path installPrefix); [done|]. rewrite existsb_exists.
    intros (prefix & Hin%list_elem_of_In & Ht). exists prefix. split; [done|].
    apply orb_true_iff in Ht as [Ht|Ht]; [apply orb_true_iff in Ht as [Ht|Ht]|].
    + apply bool_decide_eq_true in Ht. by left.
    + apply has_prefix_app in Ht as (rest & ->). right. exists rest. left. by rewrite (assoc_L String.append).
    + apply has_prefix_app in Ht as (rest & ->). right. exists rest. right. by rewrite (assoc_L String.append).
  - intros (prefix & Hin & Ht).
    assert (has_prefix path installPrefix = false) as ->.
    { destruct Ht as [->|(rest & [-> | ->])]; [|by apply listed_not_install|by apply listed_not_install].
      rewrite <- (right_id_L "" String.append prefix). by apply listed_not_install. }
    apply existsb_exists. exists prefix. split; [by apply list_elem_of_In|].
    destruct Ht as [->|(rest & [-> | ->])].
    + by rewrite bool_decide_eq_true_2.
    + apply orb_true_iff. left. apply orb_true_iff. right. apply has_prefix_app. exists rest.
      by rewrite (assoc_L String.append).
    + apply orb_true_iff. right. apply has_prefix_app. exists rest. by rewrite (assoc_L String.append).
Qed.

Lemma not_nil_elem {A} (l : list A) : l <> [] -> exists x, x ∈ l.
Proof. destruct l as [|x l]; [done|]. exists x. set_solver. Qed.

Lemma filter_nil_iff {A} (P : A -> Prop) `{forall x, Decision (P x)} (l : list A) :
  filter P l = [] <-> forall x, x ∈ l -> ~ P x.
Proof.
  split.
  - intros Hf x Hx HP. assert (x ∈ filter P l) as Hin by by apply list_elem_of_filter. rewrite Hf in Hin. set_solver.
  - intros Hn. destruct (filter P l) as [|x l'] eqn:E; [done|]. assert (x ∈ filter P l) as Hin by (rewrite E; set_solver).
    apply list_elem_of_filter in Hin as [HP Hx]. exfalso. by apply (Hn x).
Qed.

Lemma ModeFor_mode paths :
  match VMode (ModeFor paths) with
  | ModeReboot => exists p, p ∈ paths /\ ~ covered p
  | ModeTry => (forall p, p ∈ paths -> covered p) /\ exists p, p ∈ paths /\ is_network p = true
  | ModeNoReboot => forall p, p ∈ paths -> covered p /\ is_network p = false
  | ModeStaged => False
  end.
Proof.
  unfold ModeFor. cbn [VMode]. case_bool_decide as Hr; cbn [negb].
  - pose proof (proj1 (filter_nil_iff _ _) Hr) as Hall.
    assert (forall p, p ∈ paths -> covered p) as Hcov.
    { intros p Hp. apply noReboot_covered, not_false_iff_true, Hall, Hp. }
    case_bool_decide as Hn; cbn [negb].
    + pose proof (proj1 (filter_nil_iff _ _) Hn) as Hnet. intros p Hp. split; [auto|].
      apply not_true_iff_false, Hnet, Hp.
    + split; [done|]. apply not_nil_elem in Hn as [p Hp]. apply list_elem_of_filter in Hp as [Hnet Hp]. eauto.
  - apply not_nil_elem in Hr as [p Hp]. apply list_elem_of_filter in Hp as [Hn Hp]. exists p. split; [done|].
    rewrite <- noReboot_covered. by rewrite Hn.
Qed.

Lemma covered_network p : covered p -> is_network p = has_prefix p networkPrefix.
Proof.
  intros Hc%noReboot_covered. unfold is_network. unfold noReboot in Hc.
  by destruct (has_prefix p installPrefix).
Qed.

Lemma Compare_ok before after d :
  Compare before after = Ok d ->
  exists a b, yaml_unmarshal (Redact before).1 = Ok a /\ yaml_unmarshal (Redact after).1 = Ok b /\
    d = finish_diff (walk "" a b).
Proof.
  unfold Compare. destruct (Redact before) as [rb [e|]]; [done|]. destruct (Redact after) as [ra [e|]]; [done|].
  cbn [fst]. destruct (yaml_unmarshal rb) as [a|]; [|done]. destruct (yaml_unmarshal ra) as [b|]; [|done].
  intros [= <-]. eauto.
Qed.

Lemma Paths_elem before after p :
  p ∈ Paths (finish_diff (walk "" before after)) <->
  exists keys v w, at_path before after keys v w /\ ~ alike v w /\ p = pathOrRoot (dotted "" keys).
Proof.
  unfold finish_diff. cbn [Paths]. rewrite merge_sort_Permutation. rewrite list_elem_of_fmap.
  destruct (walk_reports "" before after) as [Hall Hex]. split.
  - intros (c & -> & Hc). destruct (Hex c Hc) as (keys & v & w & Hp & Hn & Hr & _). eauto 10.
  - intros (keys & v & w & Hp & Hn & ->). destruct (Hall keys v w Hp Hn) as (c & Hc & Hr & _). eauto.
Qed.

(** the recommended apply mode is about every setting that changes. Let [a]
    and [b] be the two configurations as parsed. Without a reboot is recommended
    only when every path at which they differ is one the whitelist covers and none
    is under the network; the rollback timer of sixty seconds only when all are
    covered; a reboot exactly when some path is not covered, and then every such
    path is named. *)
Theorem plan_mode_covers_changes before after d :
  Compare before after = Ok d ->
  exists a b, yaml_unmarshal (Redact before).1 = Ok a /\ yaml_unmarshal (Redact after).1 = Ok b /\
    let v := ModeFor (Paths d) in
    let changed p := exists keys x y, at_path a b keys x y /\ ~ alike x y /\ p = pathOrRoot (dotted "" keys) in
    (VMode v = ModeNoReboot <-> forall p, changed p -> covered p /\ has_prefix p networkPrefix = false) /\
    (VMode v = ModeTry -> (forall p, changed p -> covered p) /\ TrySeconds v = 60%Z) /\
    (VMode v = ModeReboot <-> exists p, changed p /\ ~ covered p) /\
    (forall p, changed p -> ~ covered p -> p ∈ RebootPaths v).
Proof.
  intros (a & b & Ha & Hb & ->)%Compare_ok. exists a, b. do 2 (split; [done|]). cbn zeta.
  pose proof (Paths_elem a b) as Hel. set (paths := Paths (finish_diff (walk "" a b))) in *. clearbody paths.
  setoid_rewrite <- Hel. pose proof (ModeFor_mode paths) as Hm.
  assert (VMode (ModeFor paths) = ModeTry -> TrySeconds (ModeFor paths) = 60%Z) as Hsec.
  { unfold ModeFor. cbn [VMode TrySeconds]. intros ->. reflexivity. }
  assert (forall p, p ∈ paths -> ~ covered p -> p ∈ RebootPaths (ModeFor paths)) as Hreb.
  { intros p Hp Hn. unfold ModeFor. cbn [RebootPaths]. unfold sort_strings.
    rewrite merge_sort_Permutation, list_elem_of_filter. split; [|done].
    apply not_true_iff_false. by rewrite noReboot_covered. }
  destruct (VMode (ModeFor paths)); try done; split_and!; try done; try (by auto).
  - split; [|done]. intros _ p Hp. destruct (Hm p Hp) as [Hc Hn]. by rewrite <- covered_network.
  - split; [done|]. intros (p & Hp & Hn). exfalso. by apply Hn, Hm.
  - split; [done|]. intros Hall. destruct Hm as (p & Hp & Hn). exfalso. by apply Hn, Hall.
  - split; [done|]. intros Hall. destruct Hm as (Hcov & p & Hp & Hn). exfalso.
    destruct (Hall p Hp) as [Hc Hx]. rewrite covered_network in Hn by done. congruence.
  - intros _. split; [by apply Hm|auto].
  - split; [done|]. intros (p & Hp & Hn). exfalso. by apply Hn, Hm.
Qed.

End DiffLemmas.

(* ------------------------------------------------------------------ *)
(** ** Witnesses *)

(** A machinery that reads a text as one document with that text as a setting,
    and the text [twice] as a configuration with a kernel argument listed two
    times. *)
Definition toy_scalar (t : string) : node := Node ScalarNode t ("", "", "") "" [].
Definition toy_doc (t : string) : node :=
  Node DocumentNode "" ("", "", "") ""
    [Node MappingNode "" ("", "", "") "" [toy_scalar "kind"; toy_scalar "Doc"; toy_scalar "v"; toy_scalar t]].
Definition toy_text (n : node) : string :=
  match content n with
  | [m] => scalarField m "v"
  | _ => ""
  end.
Definition setting (k : string) (v : any) : any := AMap [(k, v)].
Definition toy_value (t : string) : any :=
  if bool_decide (t = "twice")
  then setting "machine" (setting "install" (setting "extraKernelArgs" (AList [AScalar "string" "quiet"; AScalar "string" "quiet"])))
  else setting "machine" (setting "sysctls" (AScalar "string" t)).

Definition toy_machinery : Machinery := {|
  provider := string;
  NewFromBytes := Ok;
  RedactSecrets := fun _ p => p;
  EncodeBytes := Ok;
  yaml_documents := fun t => Ok [toy_doc t];
  yaml_encode := fun n => Ok (toy_text n);
  yaml_decode := fun n => Ok (setting "v" (AScalar "string" (toy_text n)));
  yaml_unmarshal := fun t => Ok (toy_value t);
  yaml_marshal := fun v => match v with AScalar _ t => Ok t | _ => Err "not a scalar" end;
  sprint := fun _ => "";
  sha256_hex := fun t => t
|}.

Lemma CompareDocuments_complete_witness :
  exists d, CompareDocuments (H := toy_machinery) "one" "two" = Ok d /\ Paths d = ["Doc.v"] /\
    Paths d = map Path (Changes d).
Proof.
  eexists. split; [by vm_compute|]. split; [by vm_compute|].
  destruct (CompareDocuments_complete (H := toy_machinery) "one" "two" _ ltac:(by vm_compute))
    as (a & b & left & right & _ & _ & _ & _ & _ & _ & _ & Hp).
  exact Hp.
Defined.

Lemma plan_mode_covers_changes_witness :
  exists d, Compare (H := toy_machinery) "one" "two" = Ok d /\ VMode (ModeFor (Paths d)) = ModeNoReboot /\
    exists a b, toy_value "one" = a /\ toy_value "two" = b.
Proof.
  eexists. split; [by vm_compute|]. split; [by vm_compute|].
  destruct (plan_mode_covers_changes (H := toy_machinery) "one" "two" _ ltac:(by vm_compute))
    as (a & b & Ha & Hb & _).
  exists a, b. vm_compute in Ha, Hb. split; [by injection Ha as <-|by injection Hb as <-].
Defined.

(** A configuration with a list that holds an entry twice differs from
    itself: comparing it with itself reports a change, with equal text before and
    after, and the plan demands a reboot for it. *)
Example unchanged_duplicates_reported :
  match Compare (H := toy_machinery) "twice" "twice" with
  | Ok d => map Before (Changes d) = ["quiet, quiet"] /\ map After (Changes d) = ["quiet, quiet"] /\
            Paths d = [".machine.install.extraKernelArgs"] /\ VMode (ModeFor (Paths d)) = ModeReboot
  | Err _ => False
  end.
Proof. by vm_compute. Qed.
