(* ===== verification/PlanGuard.v ===== *)
(** * Plan and apply of a configuration

    [src/internal/machineconfig/patch.go], [sinceplan.go] and [service.go]: an
    operator plans a change against what a node holds and applies it later. The
    apply carries the digest of the planned state, and the node is read again:
    what somebody else changed in between is not overwritten unseen. Applies on
    one node wait for each other, and a second staged configuration is refused.

    The Talos patcher and validator are the parameters of [Patcher]. [Apply] runs
    in several requests at once: [step] is one critical section, one read or one
    RPC of one request, and a run is any sequence of them. *)

From S2P Require Import Prelude Redact ConfigDiff.

Class Patcher `{Machinery} := {
  strategic_patch : Type;
  unmarshal_list : string -> result string (list any);
  unmarshal_map : string -> result string (list (string * any));
  LoadPatch : string -> result string (option strategic_patch);
  StrategicMerge : provider -> strategic_patch -> result string provider;
  EncodeBytesAll : provider -> result string string;
  ValidateAsClient : provider -> list string * option string
}.

(* ------------------------------------------------------------------ *)
(** ** Patches *)

Inductive patch_error :=
  | ErrPatchNotStrategic (why : string)
  | ErrPatchInvalid (why : string)
  | ErrPatchEncode (e : string).

Section Patch.
Context `{Patcher}.

(** [firstOp]: the first entry is a map with a string under [op]. *)
Definition firstOp (l : list any) : bool :=
  match l with
  | AMap m :: _ => match map_get m "op" with
                   | AScalar t _ => bool_decide (t = "string")
                   | _ => false
                   end
  | _ => false
  end.

Definition ValidatePatch (body : string) : result patch_error unit :=
  let trimmed := trim_space body in
  if bool_decide (trimmed = "") then Err (ErrPatchInvalid "it is empty") else
  match unmarshal_list trimmed with
  | Ok (x :: l) =>
      if firstOp (x :: l) then Err (ErrPatchNotStrategic "this is an RFC 6902 JSON patch")
      else Err (ErrPatchNotStrategic "a strategic merge patch is a mapping, not a list")
  | _ =>
      match unmarshal_map trimmed with
      | Err e => Err (ErrPatchInvalid e)
      | Ok [] => Err (ErrPatchInvalid "it changes nothing")
      | Ok _ => Ok tt
      end
  end.

Fixpoint merge_all (p : provider) (patches : list string) : result patch_error provider :=
  match patches with
  | [] => Ok p
  | body :: rest =>
      _ ← ValidatePatch body;
      match LoadPatch body with
      | Err e => Err (ErrPatchInvalid e)
      | Ok None => Err (ErrPatchNotStrategic "")
      | Ok (Some strategic) =>
          match StrategicMerge p strategic with
          | Err e => Err (ErrPatchInvalid e)
          | Ok p' => merge_all p' rest
          end
      end
  end.

Definition ApplyPatches (base : string) (patches : list string) : result patch_error string :=
  match NewFromBytes base with
  | Err e => Err (ErrPatchInvalid e)
  | Ok p => p' ← merge_all p patches;
            match EncodeBytes p' with
            | Err e => Err (ErrPatchEncode e)
            | Ok out => Ok out
            end
  end.

Definition idempotentSet (base : string) (patches : list string) : result patch_error bool :=
  once ← ApplyPatches base patches;
  twice ← ApplyPatches once patches;
  mret (bool_decide (once = twice)).

Definition validate (raw : string) : bool * list string :=
  match NewFromBytes raw with
  | Err e => (false, [e])
  | Ok p => match ValidateAsClient p with
            | (warnings, Some e) => (false, warnings ++ [e])
            | (warnings, None) => (true, warnings)
            end
  end.

End Patch.

(* ------------------------------------------------------------------ *)
(** ** The memo of recent plans *)

Definition planMemoPerNode : nat := 4.
Definition planMemoMaxBytes : Z := 8388608%Z.
Definition planMemoLifetime : duration := hour.

Record memoEntry := mkMemo { m_digest : string; m_text : string; m_at : time }.

Record planMemo := mkPlanMemo { entries : gmap string (list memoEntry); total : Z }.

Definition newPlanMemo : planMemo := mkPlanMemo ∅ 0.

Definition text_len (e : memoEntry) : Z := Z.of_nat (String.length (m_text e)).
Fixpoint bytes_of (l : list memoEntry) : Z :=
  match l with
  | [] => 0%Z
  | e :: rest => (text_len e + bytes_of rest)%Z
  end.
Definition held_bytes (es : gmap string (list memoEntry)) : Z := map_fold (fun _ l n => (bytes_of l + n)%Z) 0%Z es.

(** [expire]: what is older than the lifetime goes, and an empty list with it. *)
Definition expired (lifetime : duration) (now : time) (e : memoEntry) : bool :=
  bool_decide (m_at e < now - lifetime)%Z.
Definition keep_node (lifetime : duration) (now : time) (l : list memoEntry) : option (list memoEntry) :=
  match filter (fun e => expired lifetime now e = false) l with
  | [] => None
  | kept => Some kept
  end.
Definition gone_bytes (lifetime : duration) (now : time) (es : gmap string (list memoEntry)) : Z :=
  map_fold (fun _ l n => (bytes_of (filter (fun e => expired lifetime now e = true) l) + n)%Z) 0%Z es.
Definition expire (lifetime : duration) (now : time) (m : planMemo) : planMemo :=
  mkPlanMemo (omap (keep_node lifetime now) (entries m)) (total m - gone_bytes lifetime now (entries m)).

(** Takes the first entry with a digest out of a list. *)
Fixpoint take_out (digest : string) (l : list memoEntry) : list memoEntry * Z :=
  match l with
  | [] => ([], 0%Z)
  | e :: rest => if bool_decide (m_digest e = digest) then (rest, text_len e)
                 else let '(l', n) := take_out digest rest in (e :: l', n)
  end.

(** The oldest go until a node has at most [perNode]. *)
Fixpoint trim_node (perNode : nat) (l : list memoEntry) (sum : Z) : list memoEntry * Z :=
  match l with
  | e :: rest => if bool_decide (perNode < length l) then trim_node perNode rest (sum - text_len e) else (l, sum)
  | [] => ([], sum)
  end.

(** [dropOldest]: the node whose first entry is the oldest, the first one met in
    the walk of the map among equals. [walked] is the order of that walk. *)
Definition older (es : gmap string (list memoEntry)) (best : option (string * time)) (id : string) : option (string * time) :=
  match es !! id with
  | Some (e :: _) => match best with
                     | Some (_, at_) => if bool_decide (m_at e < at_)%Z then Some (id, m_at e) else best
                     | None => Some (id, m_at e)
                     end
  | _ => best
  end.
Definition oldest_node (walked : list string) (es : gmap string (list memoEntry)) : option string :=
  fst <$> foldl (older es) None walked.
Definition dropOldest (walked : list string) (m : planMemo) : option planMemo :=
  match oldest_node walked (entries m) with
  | None => None
  | Some id =>
      match entries m !! id with
      | Some [e] => Some (mkPlanMemo (delete id (entries m)) (total m - text_len e))
      | Some (e :: rest) => Some (mkPlanMemo (<[id := rest]> (entries m)) (total m - text_len e))
      | _ => None
      end
  end.

(** How many entries are held: one goes per round, so it is enough fuel. *)
Definition held_count (es : gmap string (list memoEntry)) : nat := map_fold (fun _ l n => length l + n) 0 es.

Fixpoint shrink (fuel : nat) (walk_order : gmap string (list memoEntry) -> list string) (maxBytes : Z) (m : planMemo) : planMemo :=
  match fuel with
  | O => m
  | S f => if bool_decide (maxBytes < total m)%Z then
             match dropOldest (walk_order (entries m)) m with
             | None => m
             | Some m' => shrink f walk_order maxBytes m'
             end
           else m
  end.

(** [remember] and [recall]. The clock is read for the expiry and again for the
    entry. *)
Definition remember (walk_order : gmap string (list memoEntry) -> list string) (now now' : time) (id : string)
    (snap : Snap) (m : planMemo) : planMemo :=
  let m := expire planMemoLifetime now m in
  let '(l, freed) := take_out (Digest snap) (default [] (entries m !! id)) in
  let l := l ++ [mkMemo (Digest snap) (Text snap) now'] in
  let '(l, sum) := trim_node planMemoPerNode l (total m - freed + Z.of_nat (String.length (Text snap))) in
  let m := mkPlanMemo (<[id := l]> (entries m)) sum in
  shrink (held_count (entries m)) walk_order planMemoMaxBytes m.

Fixpoint find_text (digest : string) (l : list memoEntry) : option string :=
  match l with
  | [] => None
  | e :: rest => if bool_decide (m_digest e = digest) then Some (m_text e) else find_text digest rest
  end.
Definition recall (now : time) (id digest : string) (m : planMemo) : planMemo * option string :=
  let m := expire planMemoLifetime now m in
  (m, find_text digest (default [] (entries m !! id))).

(* ------------------------------------------------------------------ *)
(** ** The refusal *)

Definition maxNamedChanges : nat := 8.

Definition kind_text (k : ChangeKind) : string :=
  match k with
  | ChangeAdded => "added"
  | ChangeRemoved => "removed"
  | ChangeModified => "modified"
  | ChangeListGrew => "list-changed"
  end.
Definition number_of_entries (n : Z) : string :=
  if bool_decide (n = 1)%Z then "1 entry" else itoa n +:+ " entries".
Definition kindWords (c : Change) : string :=
  if bool_decide (CKind c = ChangeListGrew)
  then "list changed, " +:+ number_of_entries (LenBefore c) +:+ " became " +:+ itoa (LenAfter c)
  else kind_text (CKind c).

Definition refusal_head : string := "Nothing was applied: the configuration of this node changed after the plan was made".
Definition refusal_tail : string := "Plan again to see what your patch does on top of the current configuration.".

(** [ChangedSincePlanError.Error]. *)
Definition refusal_text (known : bool) (changes : list Change) : string :=
  if negb known then
    refusal_head +:+ ", and the earlier state is no longer held, so the difference cannot be named. " +:+ refusal_tail
  else match changes with
  | [] => refusal_head +:+ ", but in its form: no setting differs that could be named, for instance a value written another way. " +:+ refusal_tail
  | _ =>
      let more := length changes - maxNamedChanges in
      let parts := map (fun c => Path c +:+ " (" +:+ kindWords c +:+ ")") (take maxNamedChanges changes)
                   ++ (if bool_decide (0 < more) then ["and " +:+ itoa (Z.of_nat more) +:+ " more"] else []) in
      refusal_head +:+ ". Changed since the plan: " +:+ join ", " parts +:+
      ". That can be another operator, talosctl, or an apply of your own (the roll-back of a try is such a change). " +:+ refusal_tail
  end.

(* ------------------------------------------------------------------ *)
(** ** The service *)

Inductive apply_error :=
  | ErrDryRun
  | ErrBaseDigestRequired
  | ErrApplyBusy
  | ErrStagedAlreadyPending (since : time)
  | ErrChangedSincePlan (known : bool) (changes : list Change)
  | ErrNode (e : string)
  | ErrSnapshot (e : snapshot_error)
  | ErrPatch (e : patch_error).

Inductive plan_error :=
  | PlanPatch (e : patch_error)
  | PlanCompare (e : compare_error)
  | PlanRedact (e : redact_error)
  | PlanSnapshot (e : snapshot_error)
  | PlanRender (e : string).

Record stagedRecord := mkStaged { At : time; SDigest : string; applying : bool; sseq : Z }.

Record View := mkView { VMachine : string; Raw : string; Rendered : string; ReadAt : time; StagedAt : option time }.

Record Preview := mkPreview {
  PMachine : string;
  PDiff : Diff;
  PVerdict : Verdict;
  Result : string;
  Idempotent : bool;
  Valid : bool;
  Validation : list string;
  BaseDigest : string
}.

Section Service.
Context `{Patcher}.

Definition renderFull (raw : string) : result string string := p ← NewFromBytes raw; EncodeBytesAll p.

(** [Get], from what was read. *)
Definition Get (staged : gmap string stagedRecord) (now : time) (id raw : string) : result plan_error View :=
  match Redact raw with
  | (_, Some e) => Err (PlanRedact e)
  | (redacted, None) =>
      match renderFull raw with
      | Err e => Err (PlanRender e)
      | Ok rendered =>
          match Redact rendered with
          | (_, Some e) => Err (PlanRedact e)
          | (renderedRedacted, None) =>
              let since := match staged !! id with
                           | Some rec => if applying rec then None else Some (At rec)
                           | None => None
                           end in
              Ok (mkView id redacted renderedRedacted now since)
          end
      end
  end.

(** [Plan], from what was read. *)
Definition Plan (walk_order : gmap string (list memoEntry) -> list string) (now now' : time) (id base : string)
    (patches : list string) (m : planMemo) : planMemo * result plan_error Preview :=
  match ApplyPatches base patches with
  | Err e => (m, Err (PlanPatch e))
  | Ok patched =>
      match Compare base patched with
      | Err e => (m, Err (PlanCompare e))
      | Ok diff =>
          match Redact patched with
          | (_, Some e) => (m, Err (PlanRedact e))
          | (redacted, None) =>
              match Snapshot base with
              | Err e => (m, Err (PlanSnapshot e))
              | Ok snap =>
                  let m := remember walk_order now now' id snap m in
                  match idempotentSet base patches with
                  | Err e => (m, Err (PlanPatch e))
                  | Ok idem =>
                      let '(valid, messages) := validate patched in
                      (m, Ok (mkPreview id diff (ModeFor (Paths diff)) redacted idem valid messages (Digest snap)))
                  end
              end
          end
      end
  end.

(** [checkBase]. *)
Definition checkBase (now : time) (id raw baseDigest : string) (m : planMemo) : planMemo * result apply_error unit :=
  match Snapshot raw with
  | Err e => (m, Err (ErrSnapshot e))
  | Ok snap =>
      if bool_decide (Digest snap = baseDigest) then (m, Ok tt) else
      match recall now id baseDigest m with
      | (m, None) => (m, Err (ErrChangedSincePlan false []))
      | (m, Some before) =>
          match CompareDocuments before (Text snap) with
          | Err _ => (m, Err (ErrChangedSincePlan false []))
          | Ok diff => (m, Err (ErrChangedSincePlan true (Changes diff)))
          end
      end
  end.

End Service.

(* ------------------------------------------------------------------ *)
(** ** Apply, in concurrent requests *)

Record request := mkRequest { r_id : string; r_patches : list string; r_mode : Mode; r_base : string }.

(** Where a request stands in [Apply]: before the first checks; waiting for the
    node's slot; holding it; with its staged claim, if it needs one, made; the
    node read; what was read checked and patched; the RPC over; its marks settled; returned. *)
Inductive phase :=
  | AtStart
  | AtLock
  | AtReserve
  | AtRead (mine : option Z)
  | AtCheck (mine : option Z) (base : string)
  | AtSend (mine : option Z) (base patched : string)
  | AtSettle (mine : option Z) (res : result apply_error string)
  | AtRelease (res : result apply_error string)
  | Returned (res : result apply_error string).

(** What happened, oldest first. A send that [landed] reached the node, whatever
    answer came back. *)
Inductive event :=
  | EClaim (t : nat) (id : string)
  | ERead (t : nat) (id base : string)
  | ESent (t : nat) (req : request) (base patched : string) (landed : bool)
  | EWithdrawn (t : nat) (id : string)
  | ECleared (id : string)
  | EOther (id config : string).

#[global] Instance request_eq_dec : EqDecision request.
Proof. solve_decision. Defined.
#[global] Instance event_eq_dec : EqDecision event.
Proof. solve_decision. Defined.

Record world := mkWorld {
  dryRun : bool;
  staged : gmap string stagedRecord;
  seq : Z;
  memo : planMemo;
  slots : gmap string nat;
  requests : gmap nat (request * phase);
  nodes : gmap string string;
  trace : list event
}.

(** One step: [AOther] is somebody else writing the node, [AClear] the reboot
    job's [ClearStaged], [APlan] a plan, and [AGiveUp] the end of the context of a
    waiting request. A read can fail; a send can land or not and be answered with
    an error or not. *)
Inductive action :=
  | ABegin (t : nat) (req : request)
  | ACheck (t : nat)
  | ALock (t : nat)
  | AGiveUp (t : nat)
  | AReserve (t : nat) (now : time)
  | ARead (t : nat) (failed : option string)
  | ACheckBase (t : nat) (now : time)
  | ASend (t : nat) (landed : bool) (answer : result string string)
  | ASettle (t : nat)
  | ARelease (t : nat)
  | AClear (id : string)
  | AOther (id config : string)
  | APlan (id : string) (patches : list string) (walk_order : gmap string (list memoEntry) -> list string) (now now' : time).

Section Steps.
Context `{Patcher}.

Definition goto (t : nat) (req : request) (p : phase) (w : world) : world :=
  mkWorld (dryRun w) (staged w) (seq w) (memo w) (slots w) (<[t := (req, p)]> (requests w)) (nodes w) (trace w).
Definition set_staged (s : gmap string stagedRecord) (w : world) : world :=
  mkWorld (dryRun w) s (seq w) (memo w) (slots w) (requests w) (nodes w) (trace w).
Definition set_memo (m : planMemo) (w : world) : world :=
  mkWorld (dryRun w) (staged w) (seq w) m (slots w) (requests w) (nodes w) (trace w).
Definition set_slots (s : gmap string nat) (w : world) : world :=
  mkWorld (dryRun w) (staged w) (seq w) (memo w) s (requests w) (nodes w) (trace w).
Definition set_node (id config : string) (w : world) : world :=
  mkWorld (dryRun w) (staged w) (seq w) (memo w) (slots w) (requests w) (<[id := config]> (nodes w)) (trace w).
Definition log (e : event) (w : world) : world :=
  mkWorld (dryRun w) (staged w) (seq w) (memo w) (slots w) (requests w) (nodes w) (trace w ++ [e]).

(** [reserveStaged]: the check and the claim in one critical section. *)
Definition reserveStaged (now : time) (id : string) (w : world) : world * result apply_error Z :=
  match staged w !! id with
  | Some rec => (w, Err (ErrStagedAlreadyPending (At rec)))
  | None =>
      let mine := ((seq w + 1) mod 2 ^ 64)%Z in
      (mkWorld (dryRun w) (<[id := mkStaged now "" true mine]> (staged w)) mine (memo w) (slots w) (requests w)
         (nodes w) (trace w), Ok mine)
  end.

(** [commit] and [abort]: only while the claim is still this request's. *)
Definition commit (id : string) (mine : Z) (details : string) (w : world) : world :=
  match staged w !! id with
  | Some rec => if bool_decide (sseq rec = mine)
                then set_staged (<[id := mkStaged (At rec) details false (sseq rec)]> (staged w)) w else w
  | None => w
  end.
Definition abort (id : string) (mine : Z) (w : world) : world :=
  match staged w !! id with
  | Some rec => if bool_decide (sseq rec = mine) then set_staged (delete id (staged w)) w else w
  | None => w
  end.

Definition ClearStaged (id : string) (w : world) : world := log (ECleared id) (set_staged (delete id (staged w)) w).

(** The end of [Apply] before the slot is released. *)
Definition settle (t : nat) (req : request) (mine : option Z) (res : result apply_error string) (w : world) : world :=
  match res, mine with
  | Err _, Some n => log (EWithdrawn t (r_id req)) (abort (r_id req) n w)
  | Err _, None => w
  | Ok details, Some n => commit (r_id req) n details w
  | Ok _, None => if bool_decide (r_mode req = ModeReboot) || bool_decide (r_mode req = ModeTry)
                  then ClearStaged (r_id req) w else w
  end.

(** [apply] between the read and the RPC. *)
Definition check_and_patch (now : time) (req : request) (base : string) (m : planMemo) : planMemo * result apply_error string :=
  match checkBase now (r_id req) base (r_base req) m with
  | (m, Err e) => (m, Err e)
  | (m, Ok _) => match ApplyPatches base (r_patches req) with
                 | Err e => (m, Err (ErrPatch e))
                 | Ok patched => (m, Ok patched)
                 end
  end.

Definition step (a : action) (w : world) : option world :=
  match a with
  | ABegin t req => match requests w !! t with
                    | None => Some (goto t req AtStart w)
                    | Some _ => None
                    end
  | ACheck t => match requests w !! t with
                | Some (req, AtStart) =>
                    Some (goto t req (if dryRun w then Returned (Err ErrDryRun)
                                      else if bool_decide (r_base req = "") then Returned (Err ErrBaseDigestRequired)
                                      else AtLock) w)
                | _ => None
                end
  | ALock t => match requests w !! t with
               | Some (req, AtLock) =>
                   match slots w !! r_id req with
                   | None => Some (goto t req AtReserve (set_slots (<[r_id req := t]> (slots w)) w))
                   | Some _ => None
                   end
               | _ => None
               end
  | AGiveUp t => match requests w !! t with
                 | Some (req, AtLock) => Some (goto t req (Returned (Err ErrApplyBusy)) w)
                 | _ => None
                 end
  | AReserve t now =>
      match requests w !! t with
      | Some (req, AtReserve) =>
          if bool_decide (r_mode req = ModeStaged) then
            match reserveStaged now (r_id req) w with
            | (w', Ok mine) => Some (goto t req (AtRead (Some mine)) (log (EClaim t (r_id req)) w'))
            | (w', Err e) => Some (goto t req (AtRelease (Err e)) w')
            end
          else Some (goto t req (AtRead None) w)
      | _ => None
      end
  | ARead t failed =>
      match requests w !! t with
      | Some (req, AtRead mine) =>
          match failed, nodes w !! r_id req with
          | None, Some base => Some (goto t req (AtCheck mine base) (log (ERead t (r_id req) base) w))
          | Some e, _ => Some (goto t req (AtSettle mine (Err (ErrNode e))) w)
          | None, None => Some (goto t req (AtSettle mine (Err (ErrNode "no such node"))) w)
          end
      | _ => None
      end
  | ACheckBase t now =>
      match requests w !! t with
      | Some (req, AtCheck mine base) =>
          match check_and_patch now req base (memo w) with
          | (m, Ok patched) => Some (goto t req (AtSend mine base patched) (set_memo m w))
          | (m, Err e) => Some (goto t req (AtSettle mine (Err e)) (set_memo m w))
          end
      | _ => None
      end
  | ASend t landed answer =>
      match requests w !! t with
      | Some (req, AtSend mine base patched) =>
          let w := log (ESent t req base patched landed) w in
          let w := if landed && negb (bool_decide (r_mode req = ModeStaged)) then set_node (r_id req) patched w else w in
          Some (goto t req (AtSettle mine (match answer with Ok d => Ok d | Err e => Err (ErrNode e) end)) w)
      | _ => None
      end
  | ASettle t => match requests w !! t with
                 | Some (req, AtSettle mine res) => Some (goto t req (AtRelease res) (settle t req mine res w))
                 | _ => None
                 end
  | ARelease t => match requests w !! t with
                  | Some (req, AtRelease res) =>
                      Some (goto t req (Returned res) (set_slots (delete (r_id req) (slots w)) w))
                  | _ => None
                  end
  | AClear id => Some (ClearStaged id w)
  | AOther id config => Some (log (EOther id config) (set_node id config w))
  | APlan id patches walk_order now now' =>
      match nodes w !! id with
      | Some base => Some (set_memo (Plan walk_order now now' id base patches (memo w)).1 w)
      | None => Some w
      end
  end.

Fixpoint run (actions : list action) (w : world) : option world :=
  match actions with
  | [] => Some w
  | a :: rest => step a w ≫= run rest
  end.

Definition start_world (dry : bool) (ns : gmap string string) : world := mkWorld dry ∅ 0 newPlanMemo ∅ ∅ ns [].

Definition reachable (ns : gmap string string) (w : world) : Prop :=
  exists dry actions, run actions (start_world dry ns) = Some w.

End Steps.

(* ------------------------------------------------------------------ *)
(** ** What a run can show *)

(** The configuration a node holds after a trace: the last one that landed and
    was not only staged, or that somebody else wrote. *)
Definition wrote (id : string) (cur : option string) (e : event) : option string :=
  match e with
  | ESent _ req _ patched true =>
      if bool_decide (r_id req = id) && negb (bool_decide (r_mode req = ModeStaged)) then Some patched else cur
  | EOther id' config => if bool_decide (id' = id) then Some config else cur
  | _ => cur
  end.
Definition last_write (ns : gmap string string) (id : string) (tr : list event) : option string :=
  foldl (wrote id) (ns !! id) tr.

(** The request whose staged claim on a node is open after a trace. *)
Definition claim (id : string) (cur : option nat) (e : event) : option nat :=
  match e with
  | EClaim t id' => if bool_decide (id' = id) then Some t else cur
  | ECleared id' => if bool_decide (id' = id) then None else cur
  | EWithdrawn t id' => if bool_decide (id' = id) && bool_decide (cur = Some t) then None else cur
  | _ => cur
  end.
Definition open_claim (id : string) (tr : list event) : option nat := foldl (claim id) None tr.

Definition sent_to (id : string) (e : event) : bool :=
  match e with ESent _ req _ _ _ => bool_decide (r_id req = id) | _ => false end.

(** Every event of a trace satisfies a property of what was before it. *)
Definition throughout (P : list event -> event -> Prop) (tr : list event) : Prop :=
  forall pre e post, tr = pre ++ e :: post -> P pre e.

Lemma throughout_nil P : throughout P [].
Proof. intros pre e post Hs. by destruct pre. Qed.

Lemma throughout_snoc P tr e : throughout P tr -> P tr e -> throughout P (tr ++ [e]).
Proof.
  intros Ht He pre e' post Hs. destruct post as [|x post _] using rev_ind.
  - apply app_inj_tail in Hs as [<- <-]. done.
  - rewrite app_comm_cons, app_assoc in Hs. apply app_inj_tail in Hs as [-> _]. by eapply Ht.
Qed.

Section Safety.
Context `{Patcher}.

(** A read that is still the newest of the service's dealings with the node. *)
Definition fresh_read (ns : gmap string string) (tr : list event) (t : nat) (id base : string) : Prop :=
  exists pre mid, tr = pre ++ ERead t id base :: mid /\ last_write ns id pre = Some base /\
    forall e, e ∈ mid -> sent_to id e = false.

Definition checked (req : request) (base patched : string) : Prop :=
  (exists snap, Snapshot base = Ok snap /\ Digest snap = r_base req) /\
  ApplyPatches base (r_patches req) = Ok patched.

(** A staged apply has made its claim. *)
Definition claimed (tr : list event) (t : nat) (req : request) : Prop :=
  r_mode req = ModeStaged -> EClaim t (r_id req) ∈ tr.

Definition good_event (ns : gmap string string) (pre : list event) (e : event) : Prop :=
  match e with
  | ESent t req base patched _ =>
      r_base req <> "" /\ claimed pre t req /\ fresh_read ns pre t (r_id req) base /\ checked req base patched
  | EClaim t id => open_claim id pre = None
  | _ => True
  end.

(** What holds of a request by where it stands. *)
Definition holds (p : phase) : bool :=
  match p with
  | AtStart | AtLock | Returned _ => false
  | _ => true
  end.
Definition claim_of (p : phase) : option Z :=
  match p with
  | AtRead mine | AtCheck mine _ | AtSend mine _ _ | AtSettle mine _ => mine
  | _ => None
  end.
Definition standing (ns : gmap string string) (tr : list event) (t : nat) (req : request) (p : phase) : Prop :=
  match p with
  | AtRead _ => claimed tr t req
  | AtCheck _ base => claimed tr t req /\ fresh_read ns tr t (r_id req) base
  | AtSend _ base patched => claimed tr t req /\ fresh_read ns tr t (r_id req) base /\ checked req base patched
  | _ => True
  end.

Record Inv (ns : gmap string string) (w : world) : Prop := mkInv {
  inv_slot : forall t req p, requests w !! t = Some (req, p) -> holds p = true -> slots w !! r_id req = Some t;
  inv_digest : forall t req p, requests w !! t = Some (req, p) ->
    match p with AtStart | Returned _ => True | _ => r_base req <> "" end;
  inv_standing : forall t req p, requests w !! t = Some (req, p) -> standing ns (trace w) t req p;
  inv_nodes : forall id, nodes w !! id = last_write ns id (trace w);
  inv_claim : forall id t, open_claim id (trace w) = Some t -> is_Some (staged w !! id);
  inv_owner : forall t req p, requests w !! t = Some (req, p) -> is_Some (claim_of p) ->
    forall t', open_claim (r_id req) (trace w) = Some t' -> t' = t;
  inv_trace : throughout (good_event ns) (trace w)
}.

Lemma Inv_start dry ns : Inv ns (start_world dry ns).
Proof. split; cbn; try done. apply throughout_nil. Qed.

Lemma fresh_read_snoc ns tr t id base e :
  fresh_read ns tr t id base -> sent_to id e = false -> fresh_read ns (tr ++ [e]) t id base.
Proof.
  intros (pre & mid & -> & Hw & Hmid) He. exists pre, (mid ++ [e]). split; [by rewrite <- app_assoc|].
  split; [done|]. intros e' [Hin|Hin]%elem_of_app; [auto|]. by apply list_elem_of_singleton in Hin as ->.
Qed.

Definition reading (p : phase) : bool := match p with AtCheck _ _ | AtSend _ _ _ => true | _ => false end.

Lemma standing_snoc ns tr t req p e :
  standing ns tr t req p -> (reading p = true -> sent_to (r_id req) e = false) -> standing ns (tr ++ [e]) t req p.
Proof.
  assert (claimed tr t req -> claimed (tr ++ [e]) t req) as Hcl by (unfold claimed; set_solver).
  destruct p; cbn; try done.
  - auto.
  - intros [Hc Hf] He. split; [auto|]. apply fresh_read_snoc; auto.
  - intros (Hc & Hf & Hk) He. split; [auto|]. split; [|done]. apply fresh_read_snoc; auto.
Qed.

(** A request moves on. *)
Lemma Inv_goto ns w t req p :
  Inv ns w ->
  (holds p = true -> slots w !! r_id req = Some t) ->
  match p with AtStart | Returned _ => True | _ => r_base req <> "" end ->
  standing ns (trace w) t req p ->
  (is_Some (claim_of p) -> forall t', open_claim (r_id req) (trace w) = Some t' -> t' = t) ->
  Inv ns (goto t req p w).
Proof.
  intros HI Hh Hd Hs Ho. destruct HI. split; cbn; try done.
  - intros t' req' p' [[<- [= <- <-]]|[_ Hr]]%lookup_insert_Some; [done|exact (inv_slot0 _ _ _ Hr)].
  - intros t' req' p' [[<- [= <- <-]]|[_ Hr]]%lookup_insert_Some; [done|exact (inv_digest0 _ _ _ Hr)].
  - intros t' req' p' [[<- [= <- <-]]|[_ Hr]]%lookup_insert_Some; [done|exact (inv_standing0 _ _ _ Hr)].
  - intros t' req' p' [[<- [= <- <-]]|[_ Hr]]%lookup_insert_Some; [done|exact (inv_owner0 _ _ _ Hr)].
Qed.

(** Something happens: the trace grows by one event, and the node's
    configuration and the claims follow it. *)
Lemma Inv_event ns w e st' sq' nodes' :
  Inv ns w ->
  (forall id, nodes' !! id = wrote id (nodes w !! id) e) ->
  (forall id t, claim id (open_claim id (trace w)) e = Some t -> is_Some (st' !! id)) ->
  (forall t req p, requests w !! t = Some (req, p) -> is_Some (claim_of p) ->
     forall t', claim (r_id req) (open_claim (r_id req) (trace w)) e = Some t' -> t' = t) ->
  (forall t req p, requests w !! t = Some (req, p) -> reading p = true -> sent_to (r_id req) e = false) ->
  good_event ns (trace w) e ->
  Inv ns (mkWorld (dryRun w) st' sq' (memo w) (slots w) (requests w) nodes' (trace w ++ [e])).
Proof.
  intros HI Hn Hc Ho Hr Hg. destruct HI. split; cbn; try done.
  - intros t req p Hp. apply standing_snoc; eauto.
  - intros id. unfold last_write. rewrite foldl_snoc, Hn. by rewrite inv_nodes0.
  - intros id t. unfold open_claim. rewrite foldl_snoc. apply Hc.
  - intros t req p Hp Hcl t'. unfold open_claim. rewrite foldl_snoc. by apply (Ho t req p).
  - by apply throughout_snoc.
Qed.

(** The parts of a world the invariant does not look at, or in which less is
    taken for granted. *)
Lemma Inv_memo ns w m : Inv ns w -> Inv ns (set_memo m w).
Proof. intros []. by split. Qed.

Lemma Inv_staged ns w st' :
  Inv ns w -> (forall id, is_Some (staged w !! id) -> is_Some (st' !! id)) -> Inv ns (set_staged st' w).
Proof. intros [] Hs. split; cbn; eauto. Qed.

Lemma one_holder ns w t req p t' req' p' :
  Inv ns w -> requests w !! t = Some (req, p) -> holds p = true ->
  requests w !! t' = Some (req', p') -> holds p' = true -> r_id req' = r_id req -> t' = t.
Proof.
  intros HI Hr Hh Hr' Hh' Hid. pose proof (inv_slot ns w HI t req p Hr Hh) as H1.
  pose proof (inv_slot ns w HI t' req' p' Hr' Hh') as H2. rewrite Hid in H2. congruence.
Qed.

Lemma claim_holds p : is_Some (claim_of p) -> holds p = true.
Proof. destruct p; cbn; try done; by intros [? [=]]. Qed.
Lemma reading_holds p : reading p = true -> holds p = true.
Proof. by destruct p. Qed.

(** The slot of a node is taken, and given back. *)
Lemma Inv_lock ns w t req :
  Inv ns w -> r_base req <> "" -> slots w !! r_id req = None ->
  Inv ns (goto t req AtReserve (set_slots (<[r_id req := t]> (slots w)) w)).
Proof.
  intros HI Hb Hf. apply Inv_goto; cbn; try done.
  - destruct HI. split; cbn; try done. intros t' req' p' Hr Hh. specialize (inv_slot0 _ _ _ Hr Hh).
    rewrite lookup_insert_ne; [done|]. congruence.
  - intros _. apply lookup_insert_eq.
Qed.

Lemma Inv_release ns w t req p res :
  Inv ns w -> requests w !! t = Some (req, p) -> holds p = true ->
  Inv ns (goto t req (Returned res) (set_slots (delete (r_id req) (slots w)) w)).
Proof.
  intros HI Hr Hh. pose proof (one_holder ns w t req p) as Hone. destruct HI eqn:EI. split; cbn; try done.
  - intros t' req' p' [[<- [= <- <-]]|[Hne Hr']]%lookup_insert_Some Hh'; [done|].
    rewrite lookup_delete_ne; [eauto|]. intros Hid. by apply Hne, eq_sym, (Hone t' req' p').
  - intros t' req' p' [[<- [= <- <-]]|[_ Hr']]%lookup_insert_Some; [done|exact (inv_digest0 _ _ _ Hr')].
  - intros t' req' p' [[<- [= <- <-]]|[_ Hr']]%lookup_insert_Some; [done|exact (inv_standing0 _ _ _ Hr')].
  - intros t' req' p' [[<- [= <- <-]]|[_ Hr']]%lookup_insert_Some; [by intros [? [=]]|exact (inv_owner0 _ _ _ Hr')].
Qed.

(** The events that leave the claims and the nodes alone. *)
Lemma Inv_log ns w e :
  Inv ns w -> (forall id cur, wrote id cur e = cur) -> (forall id cur, claim id cur e = cur) ->
  (forall id, sent_to id e = false) -> good_event ns (trace w) e -> Inv ns (log e w).
Proof.
  intros HI Hw Hc Hs Hg. apply Inv_event; auto.
  - intros id t. rewrite Hc. apply (inv_claim ns w HI).
  - intros t req p Hr Hcl t'. rewrite Hc. by apply (inv_owner ns w HI t req p).
Qed.

Lemma Inv_clear ns w id : Inv ns w -> Inv ns (ClearStaged id w).
Proof.
  intros HI. apply (Inv_event ns w (ECleared id) (delete id (staged w))); cbn; try done.
  - intros id' t. case_bool_decide as E; [done|]. intros Ho. rewrite lookup_delete_ne by done. by apply (inv_claim ns w HI id' t).
  - intros t req p Hr Hcl t'. case_bool_decide; [done|]. by apply (inv_owner ns w HI t req p).
Qed.

Lemma Inv_other ns w id config : Inv ns w -> Inv ns (log (EOther id config) (set_node id config w)).
Proof.
  intros HI. apply (Inv_event ns w (EOther id config) (staged w) (seq w) (<[id := config]> (nodes w))); cbn; try done.
  - intros id'. case_bool_decide as E; [subst; by rewrite lookup_insert_eq|by rewrite lookup_insert_ne].
  - intros id' t. apply (inv_claim ns w HI).
  - intros t req p Hr Hcl t'. by apply (inv_owner ns w HI t req p).
Qed.

Lemma Inv_claim_made ns w t req now mine w' :
  Inv ns w -> requests w !! t = Some (req, AtReserve) ->
  reserveStaged now (r_id req) w = (w', Ok mine) ->
  Inv ns (goto t req (AtRead (Some mine)) (log (EClaim t (r_id req)) w')).
Proof.
  intros HI Hr. unfold reserveStaged. destruct (staged w !! r_id req) as [rec|] eqn:Hst; [done|].
  intros [= <- <-]. pose proof (inv_slot ns w HI t req _ Hr eq_refl) as Hslot.
  apply Inv_goto; cbn; try done.
  - apply (Inv_event ns w (EClaim t (r_id req))); cbn; try done.
    + intros id t'. case_bool_decide as E; [subst; rewrite lookup_insert_eq; eauto|].
      rewrite lookup_insert_ne by done. apply (inv_claim ns w HI).
    + intros t' req' p' Hr' Hcl t''. case_bool_decide as E.
      * intros [= <-]. symmetry. by apply (one_holder ns w t req AtReserve t' req' p' HI Hr eq_refl Hr' (claim_holds p' Hcl)).
      * by apply (inv_owner ns w HI t' req' p').
    + destruct (open_claim (r_id req) (trace w)) as [t'|] eqn:Ho; [|done].
      apply (inv_claim ns w HI) in Ho as [? Ho]. congruence.
  - exact (inv_digest ns w HI t req _ Hr).
  - intros _. set_solver.
  - intros _ t'. unfold open_claim. rewrite foldl_snoc. cbn. rewrite bool_decide_eq_true_2 by done. congruence.
Qed.

Lemma Inv_read ns w t req mine base :
  Inv ns w -> requests w !! t = Some (req, AtRead mine) -> nodes w !! r_id req = Some base ->
  Inv ns (goto t req (AtCheck mine base) (log (ERead t (r_id req) base) w)).
Proof.
  intros HI Hr Hn. apply Inv_goto; cbn; try done.
  - by apply Inv_log.
  - intros _. exact (inv_slot ns w HI t req _ Hr eq_refl).
  - exact (inv_digest ns w HI t req _ Hr).
  - split; [intros Hm; pose proof (inv_standing ns w HI t req _ Hr Hm); set_solver|].
    exists (trace w), []. split; [done|]. split; [by rewrite <- (inv_nodes ns w HI)|].
    intros e He. by apply elem_of_nil in He.
  - intros Hc t'. unfold open_claim. rewrite foldl_snoc. exact (inv_owner ns w HI t req _ Hr Hc t').
Qed.

Lemma checkBase_ok now id raw digest m m' :
  checkBase now id raw digest m = (m', Ok tt) -> exists snap, Snapshot raw = Ok snap /\ Digest snap = digest.
Proof.
  unfold checkBase. destruct (Snapshot raw) as [snap|e]; [|done]. case_bool_decide as E; [eauto|].
  destruct (recall now id digest m) as [m1 [before|]]; [|done].
  by destruct (CompareDocuments before (Text snap)).
Qed.

Lemma check_and_patch_ok now req base m m' patched :
  check_and_patch now req base m = (m', Ok patched) -> checked req base patched.
Proof.
  unfold check_and_patch, checked. destruct (checkBase _ _ _ _ _) as [m1 [[]|e]] eqn:Hc; [|done].
  apply checkBase_ok in Hc. destruct (ApplyPatches base (r_patches req)); [|done]. by intros [= _ <-].
Qed.

Lemma Inv_next ns w t req p p' :
  Inv ns w -> requests w !! t = Some (req, p) -> holds p = true -> claim_of p' = claim_of p \/ claim_of p' = None ->
  standing ns (trace w) t req p' -> Inv ns (goto t req p' w).
Proof.
  intros HI Hr Hh Hc Hs. apply Inv_goto; try done.
  - intros _. exact (inv_slot ns w HI t req p Hr Hh).
  - pose proof (inv_digest ns w HI t req p Hr) as Hd. by destruct p, p'.
  - intros Hcl. destruct Hc as [Hc|Hc]; rewrite Hc in Hcl; [|by destruct Hcl].
    exact (inv_owner ns w HI t req p Hr Hcl).
Qed.

Lemma Inv_sent ns w t req mine base patched landed res :
  Inv ns w -> requests w !! t = Some (req, AtSend mine base patched) ->
  let w1 := log (ESent t req base patched landed) w in
  let w2 := if landed && negb (bool_decide (r_mode req = ModeStaged)) then set_node (r_id req) patched w1 else w1 in
  Inv ns (goto t req (AtSettle mine res) w2).
Proof.
  intros HI Hr w1 w2. pose proof (inv_standing ns w HI t req _ Hr) as (Hcl & Hf & Hc).
  assert (Inv ns (goto t req (AtSettle mine res) w)) as HI' by (eapply Inv_next; eauto; done).
  set (nodes' := if landed && negb (bool_decide (r_mode req = ModeStaged))
                 then <[r_id req := patched]> (nodes w) else nodes w).
  assert (goto t req (AtSettle mine res) w2 =
    mkWorld (dryRun w) (staged w) (seq w) (memo w) (slots w) (<[t := (req, AtSettle mine res)]> (requests w)) nodes'
      (trace w ++ [ESent t req base patched landed])) as ->
    by (unfold w2, w1, nodes'; by destruct (landed && _)).
  apply (Inv_event ns (goto t req (AtSettle mine res) w) (ESent t req base patched landed) (staged w) (seq w) nodes' HI');
    cbn.
  - intros id. unfold nodes'. destruct landed; [|done]. cbn. case_bool_decide as E; cbn.
    + by rewrite andb_comm.
    + case_bool_decide as E'; cbn; [subst id; by rewrite lookup_insert_eq|by rewrite lookup_insert_ne].
  - exact (inv_claim ns w HI).
  - intros t' req' p' Hr'. exact (inv_owner ns _ HI' t' req' p' Hr').
  - intros t' req' p' Hr' Hrd. apply bool_decide_eq_false. intros Hid.
    assert (t' = t) as ->.
    { apply (one_holder ns _ t req (AtSettle mine res) t' req' p' HI'); try done;
        [cbn; apply lookup_insert_eq|by apply reading_holds]. }
    rewrite lookup_insert_eq in Hr'. by injection Hr' as _ <-.
  - split; [exact (inv_digest ns w HI t req _ Hr)|done].
Qed.

Lemma Inv_settle ns w t req mine res :
  Inv ns w -> requests w !! t = Some (req, AtSettle mine res) -> Inv ns (settle t req mine res w).
Proof.
  intros HI Hr. unfold settle. destruct res as [details|e], mine as [n|]; try done.
  - unfold commit. destruct (staged w !! r_id req) as [rec|]; [|done]. case_bool_decide; [|done].
    apply Inv_staged; [done|]. intros id Hid. rewrite lookup_insert_is_Some'. auto.
  - destruct (_ || _); [by apply Inv_clear|done].
  - pose proof (inv_owner ns w HI t req _ Hr ltac:(by eexists)) as Hown.
    assert (exists st', abort (r_id req) n w = set_staged st' w /\ forall id, id <> r_id req -> st' !! id = staged w !! id)
      as (st' & -> & Hst').
    { unfold abort. destruct (staged w !! r_id req) as [rec|]; [case_bool_decide|].
      - eexists. split; [done|]. intros id Hid. by rewrite lookup_delete_ne.
      - exists (staged w). by destruct w.
      - exists (staged w). by destruct w. }
    apply (Inv_event ns w (EWithdrawn t (r_id req)) st' (seq w) (nodes w)); cbn; try done.
    + intros id t'. destruct (decide (r_id req = id)) as [<-|Hne].
      * rewrite bool_decide_eq_true_2 by done. cbn. destruct (open_claim (r_id req) (trace w)) as [o|]; [|done].
        rewrite (Hown o eq_refl). by rewrite bool_decide_eq_true_2.
      * rewrite bool_decide_eq_false_2 by done. cbn. rewrite Hst' by done. apply (inv_claim ns w HI).
    + intros t' req' p' Hr' Hcl o. case_match; [done|]. exact (inv_owner ns w HI t' req' p' Hr' Hcl o).
Qed.

Lemma settle_requests t req mine res w : requests (settle t req mine res w) = requests w.
Proof. unfold settle, commit, abort. repeat case_match; done. Qed.

Lemma Inv_step ns a w w' : Inv ns w -> step a w = Some w' -> Inv ns w'.
Proof.
  intros HI Hs. destruct a as [t req|t|t|t|t now|t failed|t now|t landed answer|t|t|id|id config|id patches o now now'];
    cbn [step] in Hs; try (destruct (requests w !! t) as [[req0 p]|] eqn:Hr; try done).
  - injection Hs as <-. apply Inv_goto; try done. by intros [? [=]].
  - destruct p; try done. injection Hs as <-. destruct (dryRun w); [|case_bool_decide].
    1-2: apply Inv_goto; try done; by intros [? [=]].
    apply Inv_goto; try done. by intros [? [=]].
  - destruct p; try done. destruct (slots w !! r_id req0) eqn:Hf; [done|]. injection Hs as <-.
    apply Inv_lock; try done. exact (inv_digest ns w HI t req0 _ Hr).
  - destruct p; try done. injection Hs as <-. apply Inv_goto; try done. by intros [? [=]].
  - destruct p; try done. case_bool_decide.
    + destruct (reserveStaged now (r_id req0) w) as [w1 [mine|e]] eqn:Hres; injection Hs as <-.
      * by eapply Inv_claim_made.
      * assert (w1 = w) as ->.
        { unfold reserveStaged in Hres. destruct (staged w !! r_id req0); [by injection Hres|done]. }
        eapply Inv_next; eauto; done.
    + injection Hs as <-. eapply Inv_next; [done|done|done|by right|]. by intros Hm.
  - destruct p; try done. destruct failed as [e|].
    + injection Hs as <-. eapply Inv_next; eauto; done.
    + destruct (nodes w !! r_id req0) as [base|] eqn:Hn; injection Hs as <-; [by apply Inv_read|].
      eapply Inv_next; eauto; done.
  - destruct p as [| | | |mine base| | | |]; try done. pose proof (inv_standing ns w HI t req0 _ Hr) as Hst.
    destruct (check_and_patch now req0 base (memo w)) as [m [patched|e]] eqn:Hc; injection Hs as <-.
    + apply check_and_patch_ok in Hc. eapply Inv_next; [by apply Inv_memo|done|done|by left|]. by destruct Hst.
    + eapply Inv_next; [by apply Inv_memo|done|done|by left|done].
  - destruct p; try done. injection Hs as <-. by apply Inv_sent.
  - destruct p as [| | | | | |mine res| |]; try done. injection Hs as <-.
    eapply (Inv_next ns (settle t req0 mine res w)); [by apply Inv_settle|by rewrite settle_requests|done|by right|done].
  - destruct p; try done. injection Hs as <-. by eapply Inv_release.
  - injection Hs as <-. by apply Inv_clear.
  - injection Hs as <-. by apply Inv_other.
  - destruct (nodes w !! id); injection Hs as <-; [by apply Inv_memo|done].
Qed.

Lemma Inv_reachable ns w : reachable ns w -> Inv ns w.
Proof.
  intros (dry & actions & Hrun). pose proof (Inv_start dry ns) as HI. revert HI Hrun.
  generalize (start_world dry ns). induction actions as [|a actions IH]; intros w0 HI Hrun.
  - by injection Hrun as <-.
  - cbn in Hrun. destruct (step a w0) as [w1|] eqn:Hs; [|done]. cbn in Hrun. by eapply IH; [eapply Inv_step|].
Qed.

(** C4: an apply overwrites nothing unseen. Whatever other applies, plans,
    reboots and third parties do in between, every configuration that is sent to a
    node was made by patching the bytes read from it in the same request; those
    bytes were what the node held when they were read, their digest is the one of
    the plan the operator looked at, and between that read and the send no other
    apply of this service wrote to the node. *)
Theorem apply_overwrites_nothing_unseen ns w before t req base patched landed after :
  reachable ns w ->
  trace w = before ++ ESent t req base patched landed :: after ->
  r_base req <> "" /\
  (exists snap, Snapshot base = Ok snap /\ Digest snap = r_base req) /\
  ApplyPatches base (r_patches req) = Ok patched /\
  exists pre mid, before = pre ++ ERead t (r_id req) base :: mid /\
    last_write ns (r_id req) pre = Some base /\
    forall t' req' base' patched' landed', ESent t' req' base' patched' landed' ∈ mid -> r_id req' <> r_id req.
Proof.
  intros HI%Inv_reachable Htr. destruct (inv_trace ns w HI _ _ _ Htr) as (Hd & _ & (pre & mid & Hb & Hw & Hm) & Hs & Hp).
  split; [done|]. split; [done|]. split; [done|]. exists pre, mid. split; [done|]. split; [done|].
  intros t' req' base' patched' landed' Hin. apply Hm in Hin. by apply bool_decide_eq_false in Hin.
Qed.

Lemma open_claim_stays ns id t pre mid :
  throughout (good_event ns) (pre ++ EClaim t id :: mid) ->
  ECleared id ∉ mid -> EWithdrawn t id ∉ mid -> open_claim id (pre ++ EClaim t id :: mid) = Some t.
Proof.
  induction mid as [|e mid IH] using rev_ind; intros Hth Hc Hw.
  - unfold open_claim. rewrite foldl_snoc. cbn. by rewrite bool_decide_eq_true_2.
  - rewrite app_comm_cons, app_assoc in Hth |- *.
    assert (open_claim id (pre ++ EClaim t id :: mid) = Some t) as Ho.
    { apply IH; [|set_solver|set_solver]. intros p' e' q' Hs. eapply (Hth p' e' (q' ++ [e])). by rewrite Hs, <- app_assoc. }
    pose proof (Hth _ _ [] eq_refl) as Hg. unfold open_claim in Ho |- *. rewrite foldl_snoc, Ho.
    destruct e as [t' id'| | |t' id'|id'|]; cbn; try done; case_bool_decide as E; cbn; try done; subst id'.
    + cbn in Hg. unfold open_claim in Hg. congruence.
    + case_bool_decide as E; [|done]. injection E as ->. set_solver.
    + set_solver.
Qed.

(** one staged configuration at a time. A staged apply is sent only under a
    claim of its own, and between two claims on one node the first one was
    withdrawn because its apply failed, or the node's staged mark was cleared (by a
    reboot, or by an apply that takes effect now). *)
Theorem one_staged_at_a_time ns w :
  reachable ns w ->
  (forall before t req base patched landed after,
     trace w = before ++ ESent t req base patched landed :: after -> r_mode req = ModeStaged ->
     EClaim t (r_id req) ∈ before) /\
  (forall pre t1 t2 id mid post,
     trace w = pre ++ EClaim t1 id :: mid ++ EClaim t2 id :: post ->
     ECleared id ∈ mid \/ EWithdrawn t1 id ∈ mid).
Proof.
  intros HI%Inv_reachable. split.
  - intros before t req base patched landed after Htr Hm.
    destruct (inv_trace ns w HI _ _ _ Htr) as (_ & Hc & _). by apply Hc.
  - intros pre t1 t2 id mid post Htr.
    destruct (decide (ECleared id ∈ mid)) as [|Hc]; [by left|].
    destruct (decide (EWithdrawn t1 id ∈ mid)) as [|Hw]; [by right|]. exfalso.
    rewrite app_comm_cons, app_assoc in Htr. pose proof (inv_trace ns w HI _ _ _ Htr) as Hnone. cbn in Hnone.
    rewrite (open_claim_stays ns id t1 pre mid) in Hnone; [done| |done|done].
    intros p' e' q' Hs. eapply (inv_trace ns w HI p' e' (q' ++ EClaim t2 id :: post)).
    by rewrite Htr, Hs, <- app_assoc.
Qed.

End Safety.

(* ------------------------------------------------------------------ *)
(** ** The memo keeps its limits *)

Lemma bytes_of_app l l' : bytes_of (l ++ l') = (bytes_of l + bytes_of l')%Z.
Proof. induction l as [|e l IH]; cbn; [done|]. rewrite IH. lia. Qed.

Lemma held_insert_new es id l : es !! id = None -> held_bytes (<[id := l]> es) = (bytes_of l + held_bytes es)%Z.
Proof. intros Hn. unfold held_bytes. rewrite map_fold_insert_L; [done|intros; lia|done]. Qed.

Lemma held_delete es id l : es !! id = Some l -> held_bytes (delete id es) = (held_bytes es - bytes_of l)%Z.
Proof.
  intros Hl. rewrite <- (insert_delete_id es id l Hl) at 2. rewrite held_insert_new by apply lookup_delete_eq. lia.
Qed.

Lemma held_insert es id l :
  held_bytes (<[id := l]> es) = (held_bytes es - bytes_of (default [] (es !! id)) + bytes_of l)%Z.
Proof.
  destruct (es !! id) as [l0|] eqn:Hl; cbn [default from_option Datatypes.id].
  - rewrite <- insert_delete_eq, held_insert_new by apply lookup_delete_eq. rewrite (held_delete es id l0 Hl). lia.
  - rewrite held_insert_new by done. cbn. lia.
Qed.

Lemma bytes_partition (P : memoEntry -> bool) l :
  bytes_of l = (bytes_of (filter (fun e => P e = true) l) + bytes_of (filter (fun e => P e = false) l))%Z.
Proof.
  induction l as [|e l IH]; [done|]. rewrite !filter_cons. cbn [bytes_of]. rewrite IH.
  destruct (P e); repeat case_decide; try done; cbn; lia.
Qed.

Lemma held_expire lifetime now es :
  held_bytes (omap (keep_node lifetime now) es) = (held_bytes es - gone_bytes lifetime now es)%Z.
Proof.
  induction es as [|id l es Hid IH] using map_ind; [done|].
  unfold gone_bytes in *. rewrite map_fold_insert_L; [|intros; lia|done]. rewrite held_insert_new by done.
  pose proof (bytes_partition (expired lifetime now) l) as Hpart.
  destruct (keep_node lifetime now l) as [kept|] eqn:Hk.
  - rewrite (omap_insert_Some _ _ _ _ kept) by done. rewrite held_insert_new by (rewrite lookup_omap, Hid; done).
    rewrite IH. unfold keep_node in Hk. destruct (filter _ l) as [|e l'] eqn:Hf in Hk; [done|]. injection Hk as <-.
    rewrite Hf in Hpart. lia.
  - rewrite omap_insert_None by done. rewrite delete_id by (rewrite lookup_omap, Hid; done). rewrite IH.
    unfold keep_node in Hk. destruct (filter _ l) as [|e l'] eqn:Hf in Hk; [|done]. rewrite Hf in Hpart. cbn in Hpart. lia.
Qed.

Lemma bytes_nonneg l : (0 <= bytes_of l)%Z.
Proof. induction l as [|e l IH]; cbn; [done|]. unfold text_len. lia. Qed.

Lemma gone_nonneg lifetime now es : (0 <= gone_bytes lifetime now es)%Z.
Proof.
  unfold gone_bytes. induction es as [|id l es Hid IH] using map_ind; [done|].
  rewrite map_fold_insert_L; [|intros; lia|done].
  pose proof (bytes_nonneg (filter (fun e => expired lifetime now e = true) l)). lia.
Qed.

Lemma take_out_spec digest l :
  bytes_of l = (bytes_of (take_out digest l).1 + (take_out digest l).2)%Z /\
  length (take_out digest l).1 <= length l /\ forall e, e ∈ (take_out digest l).1 -> e ∈ l.
Proof.
  induction l as [|e l (IHb & IHl & IHe)]; [done|]. cbn [take_out]. case_bool_decide; cbn.
  - split; [lia|]. split; [lia|]. set_solver.
  - destruct (take_out digest l) as [l' n]. cbn in *. split; [lia|]. split; [lia|]. set_solver.
Qed.

Lemma trim_node_spec n l sum :
  let '(l', sum') := trim_node n l sum in
  (sum - bytes_of l = sum' - bytes_of l')%Z /\ length l' <= n /\ forall e, e ∈ l' -> e ∈ l.
Proof.
  revert sum. induction l as [|e l IH]; intros sum; cbn [trim_node]; [cbn; split_and!; [lia|lia|done]|].
  case_bool_decide as Hl.
  - specialize (IH (sum - text_len e)%Z). destruct (trim_node n l (sum - text_len e)) as [l' sum'].
    destruct IH as (IHb & IHl & IHe). cbn. split; [lia|]. split; [done|]. set_solver.
  - split_and!; [lia|lia|done].
Qed.

Definition memo_ok (m : planMemo) : Prop :=
  total m = held_bytes (entries m) /\ forall id l, entries m !! id = Some l -> length l <= planMemoPerNode.

Lemma expire_ok lifetime now m : memo_ok m -> memo_ok (expire lifetime now m).
Proof.
  intros [Ht Hl]. split; cbn; [by rewrite held_expire, Ht|]. intros id l. rewrite lookup_omap.
  destruct (entries m !! id) as [l0|] eqn:E; [|done]. cbn. unfold keep_node. specialize (Hl id l0 E).
  destruct (filter _ l0) as [|e l'] eqn:Hf; [done|]. intros [= <-]. rewrite <- Hf.
  etransitivity; [apply length_filter|done].
Qed.

Lemma count_insert_new es id l : es !! id = None -> held_count (<[id := l]> es) = length l + held_count es.
Proof. intros Hn. unfold held_count. rewrite map_fold_insert_L; [done|intros; lia|done]. Qed.

Lemma count_delete es id l : es !! id = Some l -> held_count es = length l + held_count (delete id es).
Proof.
  intros Hl. rewrite <- (insert_delete_id es id l Hl) at 1. by rewrite count_insert_new by apply lookup_delete_eq.
Qed.

Lemma dropOldest_ok walked m m' :
  memo_ok m -> dropOldest walked m = Some m' ->
  memo_ok m' /\ held_count (entries m') < held_count (entries m) /\
  forall id l, entries m' !! id = Some l -> exists l', entries m !! id = Some l' /\ l ⊆ l'.
Proof.
  intros [Ht Hl] Hd. unfold dropOldest in Hd. destruct (oldest_node walked (entries m)) as [id|]; [|done].
  destruct (entries m !! id) as [[|e [|e' rest]]|] eqn:E; try done; injection Hd as <-; unfold memo_ok; cbn [entries total].
  - rewrite (held_delete _ _ _ E), (count_delete _ _ _ E), Ht. cbn. split; [split; [lia|]|split; [lia|]].
    + intros id' l' [_ Hl']%lookup_delete_Some. eauto.
    + intros id' l' [_ Hl']%lookup_delete_Some. eauto.
  - pose proof (Hl id _ E) as Hlen. cbn in Hlen. split; [split|split].
    + rewrite held_insert, E, Ht. cbn. lia.
    + intros id' l' [[<- <-]|[_ Hl']]%lookup_insert_Some; [cbn; lia|eauto].
    + rewrite <- insert_delete_eq, count_insert_new by apply lookup_delete_eq. rewrite (count_delete _ _ _ E). cbn. lia.
    + intros id' l' [[<- <-]|[_ Hl']]%lookup_insert_Some; [exists (e :: e' :: rest)|exists l']; set_solver.
Qed.

(** [dropOldest] finds a node as long as something is held. *)
Lemma oldest_found es walked best :
  (is_Some best \/ exists id e l, id ∈ walked /\ es !! id = Some (e :: l)) ->
  (forall id' at_, best = Some (id', at_) -> exists e l, es !! id' = Some (e :: l)) ->
  exists id e l, fst <$> foldl (older es) best walked = Some id /\ es !! id = Some (e :: l).
Proof.
  revert best. induction walked as [|id walked IH]; intros best Hex Hbest; cbn.
  - destruct Hex as [[[id' at_] ->]|(id & e & l & Hin & _)]; [|by apply elem_of_nil in Hin].
    destruct (Hbest id' at_ eq_refl) as (e & l & Hl). by exists id', e, l.
  - apply IH; clear IH; unfold older.
    + destruct (es !! id) as [[|e l]|] eqn:E.
      * destruct Hex as [Hb|(id' & e & l & [->|Hin]%elem_of_cons & Hl)]; [by left|congruence|right; eauto 10].
      * left. destruct best as [[]|]; [case_bool_decide|]; by eexists.
      * destruct Hex as [Hb|(id' & e & l & [->|Hin]%elem_of_cons & Hl)]; [by left|congruence|right; eauto 10].
    + intros id' at_. destruct (es !! id) as [[|e l]|] eqn:E; [apply Hbest| |apply Hbest].
      destruct best as [[b0 a0]|]; [case_bool_decide; [|apply Hbest]|]; intros [= <- _]; eauto.
Qed.

Section Memo.
Context (walk_order : gmap string (list memoEntry) -> list string).
Hypothesis walk_all : forall es, walk_order es ≡ₚ elements (dom es).

Lemma held_empty es : (forall id l, es !! id = Some l -> l = []) -> held_bytes es = 0%Z.
Proof.
  induction es as [|id l es Hid IH] using map_ind; [done|]. intros Hall. rewrite held_insert_new by done.
  rewrite (Hall id l) by apply lookup_insert_eq. rewrite IH; [done|]. intros id' l' Hl'. apply (Hall id').
  rewrite lookup_insert_ne; [done|]. congruence.
Qed.

Lemma count_empty es : held_count es = 0 -> held_bytes es = 0%Z.
Proof.
  intros Hc. apply held_empty. intros id l Hl. rewrite (count_delete es id l Hl) in Hc. destruct l; [done|cbn in Hc; lia].
Qed.

Lemma dropOldest_none m : memo_ok m -> dropOldest (walk_order (entries m)) m = None -> total m = 0%Z.
Proof.
  intros [Ht _] Hd. rewrite Ht. apply held_empty. intros id [|e l] Hl; [done|]. exfalso.
  destruct (oldest_found (entries m) (walk_order (entries m)) None) as (id' & e' & l' & Hf & Hl').
  - right. exists id, e, l. split; [|done]. rewrite walk_all, elem_of_elements. by eapply elem_of_dom_2.
  - done.
  - unfold dropOldest, oldest_node in Hd. rewrite Hf, Hl' in Hd. by destruct l'.
Qed.

Lemma shrink_ok fuel maxBytes m :
  (0 <= maxBytes)%Z -> memo_ok m -> held_count (entries m) <= fuel ->
  let m' := shrink fuel walk_order maxBytes m in
  memo_ok m' /\ (total m' <= maxBytes)%Z /\
  forall id l, entries m' !! id = Some l -> exists l', entries m !! id = Some l' /\ l ⊆ l'.
Proof.
  intros Hmax. revert m. induction fuel as [|fuel IH]; intros m Hok Hc; cbn [shrink].
  - split; [done|]. split; [|eauto]. destruct Hok as [-> _]. rewrite count_empty by lia. done.
  - case_bool_decide as Ht; [|split; [done|]; split; [lia|eauto]].
    destruct (dropOldest (walk_order (entries m)) m) as [m1|] eqn:Hd.
    + destruct (dropOldest_ok _ _ _ Hok Hd) as (Hok1 & Hc1 & Hsub1).
      destruct (IH m1 Hok1) as (Hok' & Ht' & Hsub'); [lia|]. split; [done|]. split; [done|].
      intros id l Hl. destruct (Hsub' id l Hl) as (l1 & Hl1 & Hs1). destruct (Hsub1 id l1 Hl1) as (l2 & Hl2 & Hs2).
      exists l2. split; [done|]. by etransitivity.
    + split; [done|]. rewrite (dropOldest_none m Hok Hd). split; [done|eauto].
Qed.

(** What a node's list is made of. *)
Definition held (m : planMemo) (id : string) (e : memoEntry) : Prop := exists l, entries m !! id = Some l /\ e ∈ l.

Lemma expire_held lifetime now m id e :
  held (expire lifetime now m) id e -> held m id e /\ (now - lifetime <= m_at e)%Z.
Proof.
  intros (l & Hl & He). cbn in Hl. rewrite lookup_omap in Hl. destruct (entries m !! id) as [l0|] eqn:E; [|done].
  cbn in Hl. unfold keep_node in Hl. destruct (filter _ l0) as [|x l'] eqn:Hf; [done|]. injection Hl as <-.
  rewrite <- Hf in He. apply list_elem_of_filter in He as [Hx He]. split; [exists l0; done|].
  apply bool_decide_eq_false in Hx. lia.
Qed.

Lemma remember_ok now now' id snap m :
  memo_ok m ->
  let m' := remember walk_order now now' id snap m in
  memo_ok m' /\ (total m' <= planMemoMaxBytes)%Z /\
  forall id' e, held m' id' e -> held m id' e \/ id' = id /\ e = mkMemo (Digest snap) (Text snap) now'.
Proof.
  intros Hok m'. pose proof (expire_ok planMemoLifetime now m Hok) as Hok1.
  pose proof (expire_held planMemoLifetime now m) as Hheld.
  unfold m', remember. set (m1 := expire planMemoLifetime now m) in *. clearbody m1.
  pose proof (take_out_spec (Digest snap) (default [] (entries m1 !! id))) as (Hb & _ & He).
  destruct (take_out (Digest snap) (default [] (entries m1 !! id))) as [l freed]. cbn [fst snd] in Hb, He.
  set (new := mkMemo (Digest snap) (Text snap) now').
  pose proof (trim_node_spec planMemoPerNode (l ++ [new]) (total m1 - freed + Z.of_nat (String.length (Text snap)))) as Htrim.
  destruct (trim_node planMemoPerNode (l ++ [new]) _) as [l2 sum]. destruct Htrim as (Htb & Htl & Hte).
  destruct (shrink_ok (held_count (<[id := l2]> (entries m1))) planMemoMaxBytes (mkPlanMemo (<[id := l2]> (entries m1)) sum))
    as (Hok' & Ht' & Hsub); [done| |done|].
  - destruct Hok1 as [Ht Hl]. split; cbn.
    + rewrite held_insert. rewrite bytes_of_app in Htb. cbn in Htb. unfold text_len in Htb. cbn in Htb. lia.
    + intros id' l' [[<- <-]|[_ Hl']]%lookup_insert_Some; [done|eauto].
  - split; [done|]. split; [done|]. intros id' e (l' & Hl' & Hin). destruct (Hsub id' l' Hl') as (l3 & Hl3 & Hs3).
    cbn in Hl3. apply lookup_insert_Some in Hl3 as [[<- <-]|[_ Hl3]].
    + assert (e ∈ l ++ [new]) as [Hel|Hnew]%elem_of_app by set_solver.
      * left. apply He in Hel. destruct (entries m1 !! id) as [l0|] eqn:E; cbn in Hel; [|by apply elem_of_nil in Hel].
        apply Hheld. by exists l0.
      * right. by apply list_elem_of_singleton in Hnew.
    + left. apply Hheld. exists l3. split; [done|]. set_solver.
Qed.

Lemma find_text_elem digest l text :
  find_text digest l = Some text -> exists e, e ∈ l /\ m_digest e = digest /\ m_text e = text.
Proof.
  induction l as [|e l IH]; [done|]. cbn. case_bool_decide as E.
  - intros [= <-]. exists e. split; [set_solver|done].
  - intros Hf. destruct (IH Hf) as (e' & He' & Hd). exists e'. split; [set_solver|done].
Qed.

(** A life of the memo, with everything that was ever put into it. *)
Inductive memo_life : planMemo -> list (string * memoEntry) -> Prop :=
  | life_start : memo_life newPlanMemo []
  | life_remember m h now now' id snap :
      memo_life m h ->
      memo_life (remember walk_order now now' id snap m) ((id, mkMemo (Digest snap) (Text snap) now') :: h)
  | life_recall m h now id digest : memo_life m h -> memo_life (recall now id digest m).1 h.

Lemma memo_life_ok m h :
  memo_life m h -> memo_ok m /\ (total m <= planMemoMaxBytes)%Z /\ forall id e, held m id e -> (id, e) ∈ h.
Proof.
  induction 1 as [|m h now now' id snap Hlife (Hok & Ht & Hh)|m h now id digest Hlife (Hok & Ht & Hh)].
  - split; [by split|]. split; [done|]. intros id e (l & [=] & _).
  - destruct (remember_ok now now' id snap m Hok) as (Hok' & Ht' & Hh'). split; [done|]. split; [done|].
    intros id' e He. destruct (Hh' id' e He) as [Hold|[-> ->]]; [right; auto|by left].
  - cbn. split; [by apply expire_ok|]. split.
    + pose proof (gone_nonneg planMemoLifetime now (entries m)). lia.
    + intros id' e He%expire_held. apply Hh, He.
Qed.

(** the memo of plans keeps its limits and makes nothing up. In every life of
    it the byte count is exact and at most eight mebibytes, a node has at most four
    entries, whichever order the map is walked in; and what is recalled for a digest
    is a text remembered for that node under that digest not more than an hour
    ago. *)
Theorem memo_bounded_and_true m h :
  memo_life m h ->
  total m = held_bytes (entries m) /\ (total m <= planMemoMaxBytes)%Z /\
  (forall id l, entries m !! id = Some l -> length l <= planMemoPerNode) /\
  forall now id digest text, (recall now id digest m).2 = Some text ->
    exists at_, (id, mkMemo digest text at_) ∈ h /\ (now - planMemoLifetime <= at_)%Z.
Proof.
  intros Hlife%memo_life_ok. destruct Hlife as ([Ht Hl] & Hmax & Hh). split; [done|]. split; [done|]. split; [done|].
  intros now id digest text Hr. unfold recall in Hr. cbn [snd] in Hr.
  destruct (find_text_elem _ _ _ Hr) as (e & He & <- & <-).
  assert (held (expire planMemoLifetime now m) id e) as Hheld.
  { destruct (entries (expire planMemoLifetime now m) !! id) as [l|] eqn:E; [by exists l|by apply elem_of_nil in He]. }
  apply expire_held in Hheld as [Hheld Hat]. exists (m_at e). split; [|done]. apply Hh in Hheld. by destruct e.
Qed.

End Memo.

(* ------------------------------------------------------------------ *)
(** ** The exits *)

Section Exits.
Context `{Patcher}.

(** no private key leaves with a view or a plan: both texts of the view and
    the result of a plan hold none, and what a plan sends back as its base is the
    digest of the bytes that were read. *)
Theorem exits_hold_no_key st walk_order now now' id raw patches m :
  match Get st now id raw with
  | Ok v => ContainsPrivateKey (Raw v) = false /\ ContainsPrivateKey (Rendered v) = false
  | Err _ => True
  end /\
  match (Plan walk_order now now' id raw patches m).2 with
  | Ok p => ContainsPrivateKey (Result p) = false /\ exists snap, Snapshot raw = Ok snap /\ BaseDigest p = Digest snap
  | Err _ => True
  end.
Proof.
  split.
  - unfold Get. destruct (Redact_bytes raw) as [src Hs]. destruct (Redact raw) as [red [e|]]; [done|]. cbn in Hs. subst red.
    destruct (renderFull raw) as [full|e]; [|done]. destruct (Redact_bytes full) as [src' Hs'].
    destruct (Redact full) as [red' [e|]]; [done|]. cbn in Hs'. subst red'. cbn. by rewrite !sweep_no_key.
  - unfold Plan. destruct (ApplyPatches raw patches) as [patched|e]; [|done].
    destruct (Compare raw patched) as [diff|e]; [|done]. destruct (Redact_bytes patched) as [src Hs].
    destruct (Redact patched) as [red [e|]]; [done|]. cbn in Hs. subst red.
    destruct (Snapshot raw) as [snap|e] eqn:Hsnap; [|done]. destruct (idempotentSet raw patches) as [idem|e]; [|done].
    destruct (validate patched) as [valid messages]. cbn. split; [apply sweep_no_key|eauto].
Qed.

End Exits.

(* ------------------------------------------------------------------ *)
(** ** Runs *)

(** A patcher that replaces the configuration by the text of the patch. *)
Definition toy_patcher : @Patcher toy_machinery :=
  @Build_Patcher toy_machinery string (fun _ => Err "not a list") (fun t => Ok [("v", AScalar "string" t)])
    (fun t => Ok (Some t)) (fun _ t => Ok t) (fun p => Ok p) (fun _ => ([], None)).

Definition one_node : gmap string string := {[ "n" := "one" ]}.
Definition toy_run (actions : list action) : option world :=
  run (H := toy_machinery) (H0 := toy_patcher) actions (start_world false one_node).
Definition end_of (actions : list action) : world := default (start_world false one_node) (toy_run actions).

(** A whole apply of request [t], answered with [answer]. *)
Definition apply_actions (t : nat) (answer : result string string) : list action :=
  [ALock t; AReserve t 0%Z; ARead t None; ACheckBase t 0%Z; ASend t true answer; ASettle t; ARelease t].

Definition req (patch : string) (mode : Mode) : request := mkRequest "n" [patch] mode "one".

(** Two operators planned on the same state, and both apply. *)
Definition two_applies : list action :=
  [ABegin 1 (req "two" ModeNoReboot); ABegin 2 (req "three" ModeNoReboot); ACheck 1; ACheck 2]
  ++ apply_actions 1 (Ok "d") ++ [ALock 2; AReserve 2 0%Z; ARead 2 None; ACheckBase 2 0%Z; ASettle 2; ARelease 2].

Lemma two_applies_reachable : reachable (H := toy_machinery) (H0 := toy_patcher) one_node (end_of two_applies).
Proof. exists false, two_applies. by vm_compute. Qed.

(** The second is refused and the first one's change stays. *)
Lemma apply_overwrites_nothing_unseen_witness :
  nodes (end_of two_applies) !! "n" = Some "two" /\
  snd <$> requests (end_of two_applies) !! 2 = Some (Returned (Err (ErrChangedSincePlan false []))) /\
  trace (end_of two_applies) =
    [ERead 1 "n" "one"; ESent 1 (req "two" ModeNoReboot) "one" "two" true; ERead 2 "n" "two"] /\
  ApplyPatches (H := toy_machinery) (H0 := toy_patcher) "one" ["two"] = Ok "two".
Proof.
  split; [by vm_compute|]. split; [by vm_compute|]. split; [by vm_compute|].
  exact (proj1 (proj2 (proj2 (apply_overwrites_nothing_unseen (H := toy_machinery) (H0 := toy_patcher)
    one_node (end_of two_applies) [ERead 1 "n" "one"] 1 (req "two" ModeNoReboot) "one" "two" true
    [ERead 2 "n" "two"] two_applies_reachable ltac:(by vm_compute))))).
Defined.

(** A staged apply whose answer is lost, and another one after it. *)
Definition staged_twice (answer : result string string) : list action :=
  [ABegin 1 (req "two" ModeStaged); ABegin 2 (req "three" ModeStaged); ACheck 1; ACheck 2]
  ++ apply_actions 1 answer ++ [ALock 2; AReserve 2 0%Z].

Lemma one_staged_at_a_time_witness :
  snd <$> requests (end_of (staged_twice (Ok "d"))) !! 2 = Some (AtRelease (Err (ErrStagedAlreadyPending 0%Z))) /\
  EClaim 1 "n" ∈ [EClaim 1 "n"; ERead 1 "n" "one"].
Proof.
  split; [by vm_compute|].
  refine (proj1 (one_staged_at_a_time (H := toy_machinery) (H0 := toy_patcher) one_node
    (end_of (staged_twice (Ok "d"))) _) _ 1 (req "two" ModeStaged) "one" "two" true [] _ eq_refl).
  - exists false, (staged_twice (Ok "d")). by vm_compute.
  - by vm_compute.
Defined.

(** A staged apply that landed and whose answer was lost leaves no mark: the
    claim is withdrawn, the next staged apply is let through and reaches the node,
    with no reboot and nothing cleared in between. *)
Example lost_answer_forgets_staged :
  exists w, toy_run (staged_twice (Err "deadline") ++ [ARead 2 None; ACheckBase 2 0%Z; ASend 2 true (Ok "d")]) = Some w /\
    ESent 1 (req "two" ModeStaged) "one" "two" true ∈ trace w /\
    ESent 2 (req "three" ModeStaged) "one" "three" true ∈ trace w /\
    forall id, ECleared id ∉ trace w.
Proof.
  eexists. split; [by vm_compute|]. cbn [trace]. split; [|split].
  - apply (bool_decide_unpack _). by vm_compute.
  - apply (bool_decide_unpack _). by vm_compute.
  - intros id Hin. repeat (apply elem_of_cons in Hin as [Hin|Hin]; [discriminate Hin|]). by apply elem_of_nil in Hin.
Qed.

(** Two plans of one node, walked in the order of the keys. *)
Lemma memo_bounded_and_true_witness :
  let order := fun es : gmap string (list memoEntry) => elements (dom es) in
  let m := remember order 0%Z 0%Z "n" (mkSnap "text" "d") newPlanMemo in
  (recall 0%Z "n" "d" m).2 = Some "text" /\ (total m <= planMemoMaxBytes)%Z.
Proof.
  cbn zeta. split; [by vm_compute|].
  destruct (memo_bounded_and_true (fun es => elements (dom es)) (fun es => reflexivity _) _
    [("n", mkMemo "d" "text" 0%Z)] (life_remember _ newPlanMemo [] 0%Z 0%Z "n" (mkSnap "text" "d") (life_start _)))
    as (_ & Hmax & _).
  exact Hmax.
Defined.
