(* ===== verification/Drift.v ===== *)
(** * Configuration drift: the model

    [src/internal/configdrift] with [src/internal/model/configdrift.go] and
    [configdrifthealth.go]. The service reads the configuration of every node on
    a schedule, keeps what it first saw as the baseline of the node in the record
    store, and says when a node no longer matches it.

    The operations are a state monad over the service and an oracle ([env]): what
    every call outside the service answers (the nodes, the inventory, the clock),
    whether an I/O of the store fails, what somebody else did to the data
    directory before a call of the store, and what another goroutine did to the
    readings before the lock on them was had. The oracle is asked with a running
    number, so that a theorem for every oracle is one for every interleaving. *)

From S2P Require Import Prelude RecordStore Redact ConfigDiff.

(* ------------------------------------------------------------------ *)
(** ** Data *)

Definition BaselineFormat : Z := 1%Z.
Definition BaselineFirstSight : string := "first-sight".
Definition BaselineApply : string := "apply".
Definition BaselineConfirmed : string := "confirmed".

Record ExpectedConfig := mkExpected { x_digest : string; x_mode : string; x_at : time }.

Record ConfigBaseline := mkBaseline {
  b_machine : string;
  b_rev : Z;
  b_format : Z;
  b_cluster : string;
  b_snapshot : string;
  b_digest : string;
  b_taken : time;
  b_source : string;
  b_machinery : string;
  b_since : time;
  b_applied_on : time;
  b_expected : option ExpectedConfig
}.

Definition set_rev (v : Z) (b : ConfigBaseline) : ConfigBaseline :=
  mkBaseline (b_machine b) v (b_format b) (b_cluster b) (b_snapshot b) (b_digest b) (b_taken b) (b_source b)
    (b_machinery b) (b_since b) (b_applied_on b) (b_expected b).

#[global] Program Instance baseline_record : Record ConfigBaseline := {
  rec_key := b_machine;
  rec_rev := b_rev;
  rec_set_rev := set_rev
}.
Next Obligation. done. Qed.
Next Obligation. done. Qed.

(** The parts of a baseline a reading changes: the expectation and the running
    deviation. *)
Definition set_expected (e : option ExpectedConfig) (b : ConfigBaseline) : ConfigBaseline :=
  mkBaseline (b_machine b) (b_rev b) (b_format b) (b_cluster b) (b_snapshot b) (b_digest b) (b_taken b) (b_source b)
    (b_machinery b) (b_since b) (b_applied_on b) e.
Definition set_drift (since applied_on : time) (b : ConfigBaseline) : ConfigBaseline :=
  mkBaseline (b_machine b) (b_rev b) (b_format b) (b_cluster b) (b_snapshot b) (b_digest b) (b_taken b) (b_source b)
    (b_machinery b) since applied_on (b_expected b).
Definition set_text (snap : Snap) (machinery : string) (b : ConfigBaseline) : ConfigBaseline :=
  mkBaseline (b_machine b) (b_rev b) (b_format b) (b_cluster b) (Text snap) (Digest snap) (b_taken b) (b_source b)
    machinery (b_since b) (b_applied_on b) (b_expected b).

(** The zero value of [State] is the empty string; the constants never are. *)
Inductive State :=
  | StateZero
  | StateNotRead
  | StateBaselineCreated
  | StateOK
  | StateSettling
  | StateDrift
  | StateUnreadable
  | StateBaselineDamaged.

#[global] Instance State_eq_dec : EqDecision State.
Proof. solve_decision. Defined.

Definition state_text (s : State) : string :=
  match s with
  | StateZero => ""
  | StateNotRead => "not-read"
  | StateBaselineCreated => "baseline-created"
  | StateOK => "ok"
  | StateSettling => "settling"
  | StateDrift => "drift"
  | StateUnreadable => "unreadable"
  | StateBaselineDamaged => "baseline-damaged"
  end.

Record Machine := mkMachine { ID : string; Hostname : string; MCluster : string; MDisabled : bool }.
Record Cluster := mkCluster { CID : string; CName : string; CDisabled : bool }.

Record reading := mkReading {
  state : State;
  at_ : time;
  lastGood : time;
  snap : Snap;
  since : time;
  sentence : string;
  cluster : string;
  node_name : string
}.

Definition no_snap : Snap := mkSnap "" "".
Definition zero_reading (c node : string) : reading := mkReading StateZero 0 0 no_snap 0 "" c node.

Record pass := mkPass { p_at : time; members : gmap string string }.

(** The modes this package tells apart. *)
Definition modeTry : string := "try".
Definition modeReboot : string := "reboot".
Definition modeAuto : string := "auto".
Definition modeStaged : string := "staged".

Definition decideAttempts : nat := 3.
Definition DefaultEvery : duration := (3 * hour)%Z.
Definition DefaultReadBudget : duration := (20 * second)%Z.
Definition DefaultSettleWindow : duration := (15 * minute)%Z.
Definition BannerAfter : duration := (24 * hour)%Z.
Definition AdoptWindow : duration := BannerAfter.
Definition pokeBuffer : nat := 64.

(** What a read of a node can fail with, as [reasonUnreadable] tells it apart. *)
Inductive read_error :=
  | ReadSnapshotErr (e : snapshot_error)
  | ReadConflict
  | ReadText (text : string).

(* ------------------------------------------------------------------ *)
(** ** Sentences *)

(** [time.Format("2006-01-02 15:04 UTC")]: the Gregorian date of a day counted
    from 1 January of the year 1, and the minute of the day. *)
Definition civil (days : Z) : Z * Z * Z :=
  (let z := days + 306 in
   let era := z / 146097 in
   let doe := z mod 146097 in
   let yoe := (doe - doe / 1460 + doe / 36524 - doe / 146096) / 365 in
   let doy := doe - (365 * yoe + yoe / 4 - yoe / 100) in
   let mp := (5 * doy + 2) / 153 in
   let d := doy - (153 * mp + 2) / 5 + 1 in
   let m := if bool_decide (mp < 10) then mp + 3 else mp - 9 in
   (yoe + era * 400 + (if bool_decide (m <= 2) then 1 else 0), m, d))%Z.

Fixpoint zeros (n : nat) : string := match n with O => "" | S n' => String "0" (zeros n') end.
Definition pad (width : nat) (z : Z) : string :=
  if bool_decide (z < 0)%Z then "-" +:+ zeros (width - String.length (itoa (- z))) +:+ itoa (- z)
  else zeros (width - String.length (itoa z)) +:+ itoa z.

Definition when_ (t : time) : string :=
  (let minutes := t / minute in
   let '(y, m, d) := civil (minutes / 1440) in
   pad 4 y +:+ "-" +:+ pad 2 m +:+ "-" +:+ pad 2 d +:+ " " +:+
   pad 2 ((minutes mod 1440) / 60) +:+ ":" +:+ pad 2 (minutes mod 60) +:+ " UTC")%Z.

Definition describeSource (source : string) : string :=
  if bool_decide (source = BaselineFirstSight) then "the first reading of this node"
  else if bool_decide (source = BaselineApply) then "a configuration apply from holzkube-manager"
  else if bool_decide (source = BaselineConfirmed) then "an operator who confirmed a difference"
  else "an unknown source".

Definition sentenceNotRead : string := "Not read yet since this daemon started.".

Definition sentenceBaselineCreated (b : ConfigBaseline) : string :=
  "This reading is now the baseline of this node (" +:+ when_ (b_taken b) +:+ ", " +:+ describeSource (b_source b) +:+
  "). Later changes that this installation did not make will show up here as a difference.".

Definition sentenceDrift (b : ConfigBaseline) (from : time) : string :=
  "The configuration differs from the baseline taken " +:+ when_ (b_taken b) +:+ " from " +:+
  describeSource (b_source b) +:+ "; the difference was first seen " +:+ when_ from +:+ "." +:+
  (if is_zero (b_applied_on b) then "" else
   " The state includes an earlier change that was never confirmed, and a change made through holzkube-manager landed on top of it on "
   +:+ when_ (b_applied_on b) +:+ ".").

Definition sentenceSettling (e : ExpectedConfig) (window : duration) : string :=
  "A configuration sent through holzkube-manager on " +:+ when_ (x_at e) +:+ " (mode " +:+ x_mode e +:+
  ") has not taken effect on the node yet, so it differs from its baseline for now. That is expected until " +:+
  when_ (x_at e + window) +:+ "; if it still differs then, it is reported as a difference.".

Definition sentenceOK (b : ConfigBaseline) : string :=
  "The configuration is the baseline taken " +:+ when_ (b_taken b) +:+ " from " +:+ describeSource (b_source b) +:+ ".".

Definition sentenceDamaged (id why : string) : string :=
  "The stored baseline (config-baselines/" +:+ id +:+ ".json) is damaged: " +:+ why +:+
  ". It was left as it is and this node is not compared until it is dealt with.".

(** [shorten]: the first two hundred runes. A rune is decoded as Go decodes it: a
    byte that starts no valid encoding is one rune, printed back as U+FFFD. *)
Definition maxErrorText : nat := 200.

Definition byte_in (lo hi : nat) (c : ascii) : bool := bool_decide (lo ≤ nat_of_ascii c ≤ hi).
Definition rune_width (s : string) : option nat :=
  match s with
  | String a s1 =>
      if byte_in 0 127 a then Some 1 else
      match s1 with
      | String b s2 =>
          if byte_in 194 223 a && byte_in 128 191 b then Some 2 else
          match s2 with
          | String c s3 =>
              let second_ok := (byte_in 224 224 a && byte_in 160 191 b) || (byte_in 225 236 a && byte_in 128 191 b)
                               || (byte_in 237 237 a && byte_in 128 159 b) || (byte_in 238 239 a && byte_in 128 191 b) in
              if second_ok && byte_in 128 191 c then Some 3 else
              match s3 with
              | String d _ =>
                  let second_ok := (byte_in 240 240 a && byte_in 144 191 b) || (byte_in 241 243 a && byte_in 128 191 b)
                                   || (byte_in 244 244 a && byte_in 128 143 b) in
                  if second_ok && byte_in 128 191 c && byte_in 128 191 d then Some 4 else None
              | EmptyString => None
              end
          | EmptyString => None
          end
      | EmptyString => None
      end
  | EmptyString => None
  end.

Fixpoint str_take (n : nat) (s : string) : string :=
  match n, s with
  | S n', String c s' => String c (str_take n' s')
  | _, _ => ""
  end.
Fixpoint str_drop (n : nat) (s : string) : string :=
  match n, s with
  | S n', String _ s' => str_drop n' s'
  | _, _ => s
  end.

(** The first [n] runes and what follows them. *)
Fixpoint runes (n : nat) (s : string) : string * string :=
  match n, s with
  | O, _ => ("", s)
  | _, EmptyString => ("", "")
  | S n', _ =>
      let '(r, w) := match rune_width s with
                     | Some w => (str_take w s, w)
                     | None => (bytes_str [239; 191; 189], 1)
                     end in
      let '(rest, after) := runes n' (str_drop w s) in
      (r +:+ rest, after)
  end.
Definition shorten (text : string) : string :=
  match runes maxErrorText text with
  | (_, EmptyString) => text
  | (first, _) => first +:+ "..."
  end.

Definition reasonUnreadable (e : read_error) : string :=
  match e with
  | ReadSnapshotErr ErrSnapshotUnreadable =>
      "This version of holzkube-manager cannot load the node's configuration; a node running a newer Talos than this build knows is the usual reason."
  | ReadSnapshotErr ErrSnapshotTooLarge => "The node's configuration is larger than a snapshot may be."
  | ReadSnapshotErr ErrSnapshotUnsafe => "The configuration still held a private key after redaction, so nothing was stored."
  | ReadConflict => "The baseline was being changed at the same time; the next pass will try again."
  | ReadText text => "The node could not be read: " +:+ shorten text
  end.

Definition ends_with_dot (s : string) : bool :=
  match string_rev s with String c _ => Ascii.eqb c "." | EmptyString => false end.
Definition sentenceUnreadable (reason : string) (good : time) : string :=
  let reason := if ends_with_dot reason then reason else reason +:+ "." in
  if is_zero good then reason +:+ " It has not been read successfully since this daemon started."
  else reason +:+ " Last good reading: " +:+ when_ good +:+ ".".

(* ------------------------------------------------------------------ *)
(** ** The service *)

Abbreviation base_files := (gmap string (option ConfigBaseline)).

(** What is logged: a change of a node's state, or anything else. *)
Inductive line := LState (cluster node machine : string) (st : State) | LNote (what machine : string).

(** What [mu] protects besides the passes. *)
Record memory := mkMemory { readings : gmap string reading; logged : gmap string State }.

Record Service := mkService {
  bases : base_files;
  mem : memory;
  passes : gmap string pass;
  pokes : list string;
  lines : list line;
  tick : nat
}.

(** The answers from outside, by a running number. *)
Record env := mkEnv {
  e_fault : nat -> fault;
  e_files : nat -> base_files -> base_files;
  e_mem : nat -> memory -> memory;
  e_clock : nat -> time;
  e_done : nat -> bool;
  e_read : nat -> string -> result read_error Snap;
  e_all : nat -> result string (list Machine);
  e_clusters : nat -> result string (list Cluster);
  e_machines : nat -> string -> result string (list Machine);
  settleWindow : duration;
  versionTag : string;
  store_text : store_error -> string
}.

Definition M (A : Type) : Type := env -> Service -> A * Service.
#[global] Instance M_ret : MRet M := fun A a e s => (a, s).
#[global] Instance M_bind : MBind M := fun A B f m e s => let '(a, s') := m e s in f a e s'.

Definition with_bases (f : base_files) (s : Service) : Service := mkService f (mem s) (passes s) (pokes s) (lines s) (tick s).
Definition with_mem (m : memory) (s : Service) : Service := mkService (bases s) m (passes s) (pokes s) (lines s) (tick s).
Definition bump (s : Service) : Service := mkService (bases s) (mem s) (passes s) (pokes s) (lines s) (S (tick s)).

Definition ask {A} (f : env -> nat -> A) : M A := fun e s => (f e (tick s), bump s).
Definition now : M time := ask e_clock.
Definition config {A} (f : env -> A) : M A := fun e s => (f e, s).

Definition Log (l : line) : M unit := fun e s => (tt, mkService (bases s) (mem s) (passes s) (pokes s) (lines s ++ [l]) (tick s)).

(** The calls of the store: first what somebody else did to the directory. *)
Definition before_call (e : env) (s : Service) : Service := with_bases (e_files e (tick s) (bases s)) s.
Definition base_get (id : string) : M (result store_error ConfigBaseline) := fun e s =>
  let s := before_call e s in (store_get (e_fault e (tick s)) (bases s) id, bump s).
Definition base_put (b : ConfigBaseline) : M (result store_error ConfigBaseline) := fun e s =>
  let s := before_call e s in
  let '(f, r) := store_put (e_fault e (tick s)) (bases s) b in (r, bump (with_bases f s)).
Definition base_delete (id : string) : M (result store_error unit) := fun e s =>
  let s := before_call e s in
  let '(f, r) := store_delete (e_fault e (tick s)) (bases s) id in (r, bump (with_bases f s)).
Definition base_list : M (result store_error (list ConfigBaseline)) := fun e s =>
  let s := before_call e s in (store_list (e_fault e (tick s)) (bases s), bump s).

(** A section under [mu], after whatever the others did before it was had. *)
Definition locked {A} (f : memory -> A * memory) : M A := fun e s =>
  let '(a, m) := f (e_mem e (tick s) (mem s)) in (a, bump (with_mem m s)).

(** [put]: stores a reading and reports whether the state is another one than the
    last that was logged. *)
Definition put (m : Machine) (r : reading) (mm : memory) : bool * memory :=
  let prev := default StateOK (logged mm !! ID m) in
  let changed := negb (bool_decide (state r = prev)) in
  let logged' := <[ID m := if bool_decide (state r = StateBaselineCreated) then StateOK else state r]> (logged mm) in
  (changed, mkMemory (<[ID m := r]> (readings mm)) logged').

(** [set]. *)
Definition set_reading (c : string) (m : Machine) (r : reading) : M unit :=
  changed ← locked (put m r);
  if changed : bool then Log (LState c (Hostname m) (ID m) (state r)) else mret tt.

Definition record (c : string) (m : Machine) (st : State) (t : time) (sn : Snap) (from : time) (text : string) : M unit :=
  set_reading c m (mkReading st t t sn from text c (Hostname m)).

Definition damaged (c : string) (m : Machine) (t : time) (sn : Snap) (why : string) : M unit :=
  record c m StateBaselineDamaged t sn zero_time (sentenceDamaged (ID m) why).

(** [unreadable]: the last good reading stays, and the start of a deviation is the
    stored one. *)
Definition unreadable (c : string) (m : Machine) (reason : string) : M unit :=
  got ← base_get (ID m);
  t ← now;
  next ← locked (fun mm =>
    let next := default (zero_reading c (Hostname m)) (readings mm !! ID m) in
    let from := match got with Ok b => b_since b | Err _ => since next end in
    (mkReading StateUnreadable t (lastGood next) (snap next) from
       (sentenceUnreadable reason (lastGood next)) (cluster next) (node_name next), mm));
  set_reading c m next.

Section Decide.
Context `{Machinery}.

Definition digestOf (text : string) : string := sha256_hex text.

Definition damageOf (b : ConfigBaseline) (id : string) : string :=
  if negb (bool_decide (b_format b = BaselineFormat)) then "its format is not one this version of holzkube-manager knows"
  else if bool_decide (b_snapshot b = "") then "it holds no snapshot"
  else if negb (bool_decide (b_digest b = digestOf (b_snapshot b))) then "its digest does not match its snapshot"
  else if negb (bool_decide (b_machine b = id)) then "it belongs to another machine"
  else "".

Definition adopts (window : duration) (x : ExpectedConfig) (t : time) : bool :=
  let age := time_sub t (x_at x) in
  if bool_decide (x_mode x = modeStaged) then true
  else if bool_decide (x_mode x = modeReboot) || bool_decide (x_mode x = modeAuto) then bool_decide (age < AdoptWindow)%Z
  else bool_decide (age < window)%Z.
Definition settles (window : duration) (x : ExpectedConfig) (t : time) : bool :=
  negb (bool_decide (x_mode x = modeStaged)) && bool_decide (time_sub t (x_at x) < window)%Z.
Definition stale (window : duration) (x : ExpectedConfig) (t : time) : bool := negb (adopts window x t).

Definition reasonStoreFailed (text : string) : string := "The baseline could not be stored or loaded: " +:+ shorten text +:+ ".".

(** A write of the baseline and what follows it: a conflict means the reading is
    decided again ([None]), any other failure that it is unknown. *)
Definition store_then (c : string) (m : Machine) (b : ConfigBaseline) (k : ConfigBaseline -> M unit) : M (option bool) :=
  r ← base_put b;
  match r with
  | Ok saved => _ ← k saved; mret (Some true)
  | Err ErrConflict => mret None
  | Err err => text ← config (fun e => store_text e err);
               _ ← unreadable c m (reasonStoreFailed text);
               mret (Some false)
  end.

Definition is_digest_of (x : option ExpectedConfig) (d : string) : bool :=
  match x with Some x => bool_decide (x_digest x = d) | None => false end.
Definition holds_of (x : option ExpectedConfig) (P : ExpectedConfig -> bool) : bool :=
  match x with Some x => P x | None => false end.

(** The body of [decide] for a baseline that can be trusted: rules 3 to 7. *)
Definition judge (c : string) (m : Machine) (sn : Snap) (t : time) (b : ConfigBaseline) : M (option bool) :=
  window ← config settleWindow;
  tag ← config versionTag;
  if negb (bool_decide (b_digest b = Digest sn)) then
    match Snapshot (b_snapshot b) with
    | Err _ => _ ← damaged c m t sn "its snapshot does not load with this version of holzkube-manager"; mret (Some false)
    | Ok renorm =>
        let same := bool_decide (Digest renorm = Digest sn) in
        if is_digest_of (b_expected b) (Digest sn) && negb same && holds_of (b_expected b) (fun x => adopts window x t) then
          if negb (is_zero (b_since b)) then
            let on := if is_zero (b_applied_on b) then t else b_applied_on b in
            store_then c m (set_expected None (set_drift (b_since b) on b))
              (fun saved => record c m StateDrift t sn (b_since saved) (sentenceDrift saved (b_since saved)))
          else
            store_then c m (mkBaseline (b_machine b) (b_rev b) BaselineFormat (MCluster m) (Text sn) (Digest sn) t
                              BaselineApply tag zero_time zero_time None)
              (fun saved => record c m StateOK t sn zero_time (sentenceOK saved))
        else if same then
          let x := if is_digest_of (b_expected b) (Digest sn) || holds_of (b_expected b) (fun x => stale window x t)
                   then None else b_expected b in
          let b' := set_expected x (set_drift zero_time zero_time (set_text renorm tag b)) in
          store_then c m b' (fun _ => record c m StateOK t sn zero_time (sentenceOK b'))
        else if is_zero (b_since b) && holds_of (b_expected b) (fun x => settles window x t) then
          _ ← match b_expected b with
              | Some x => record c m StateSettling t sn zero_time (sentenceSettling x window)
              | None => mret tt
              end;
          mret (Some true)
        else
          let spent := holds_of (b_expected b) (fun x => stale window x t) in
          let b' := set_expected (if spent then None else b_expected b)
                      (set_drift (if is_zero (b_since b) then t else b_since b) (b_applied_on b) b) in
          let say := record c m StateDrift t sn (b_since b') (sentenceDrift b' (b_since b')) in
          if is_zero (b_since b) || spent then store_then c m b' (fun _ => say)
          else _ ← say; mret (Some true)
    end
  else
    let spent := is_digest_of (b_expected b) (b_digest b) || holds_of (b_expected b) (fun x => stale window x t) in
    let b' := set_expected (if spent then None else b_expected b) (set_drift zero_time zero_time b) in
    if negb (is_zero (b_since b)) || negb (is_zero (b_applied_on b)) || spent then
      store_then c m b' (fun _ => record c m StateOK t sn zero_time (sentenceOK b'))
    else _ ← record c m StateOK t sn zero_time (sentenceOK b); mret (Some true).

Definition first_sight (m : Machine) (sn : Snap) (t : time) (tag : string) : ConfigBaseline :=
  mkBaseline (ID m) 0 BaselineFormat (MCluster m) (Text sn) (Digest sn) t BaselineFirstSight tag zero_time zero_time None.

(** One round of the loop of [decide]. *)
Definition attempt (c : string) (m : Machine) (sn : Snap) (t : time) : M (option bool) :=
  tag ← config versionTag;
  got ← base_get (ID m);
  match got with
  | Err ErrNotFound =>
      store_then c m (first_sight m sn t tag)
        (fun created => record c m StateBaselineCreated t sn zero_time (sentenceBaselineCreated created))
  | Err _ => _ ← damaged c m t sn "it could not be read or decoded"; mret (Some false)
  | Ok b =>
      let why := damageOf b (ID m) in
      if negb (bool_decide (why = "")) then _ ← damaged c m t sn why; mret (Some false)
      else judge c m sn t b
  end.

Fixpoint decide_loop (n : nat) (c : string) (m : Machine) (sn : Snap) (t : time) : M bool :=
  match n with
  | O => _ ← unreadable c m (reasonUnreadable ReadConflict); mret false
  | S n' => r ← attempt c m sn t;
            match r with
            | Some ok => mret ok
            | None => decide_loop n' c m sn t
            end
  end.

(** [decide], under [storeMu]; whether the node ended up compared. *)
Definition decide_ (c : string) (m : Machine) (sn : Snap) : M bool :=
  t ← now;
  if too_large (Text sn) then _ ← unreadable c m (reasonUnreadable (ReadSnapshotErr ErrSnapshotTooLarge)); mret false
  else if ContainsPrivateKey (Text sn) then _ ← unreadable c m (reasonUnreadable (ReadSnapshotErr ErrSnapshotUnsafe)); mret false
  else decide_loop decideAttempts c m sn t.

(** [readNode]. The budget on the context is the reader's to honour. *)
Definition readNode (c : string) (m : Machine) : M bool :=
  got ← ask (fun e n => e_read e n (ID m));
  match got with
  | Err err => _ ← unreadable c m (reasonUnreadable err); mret false
  | Ok sn => decide_ c m sn
  end.

End Decide.

(* ------------------------------------------------------------------ *)
(** ** Applies *)

Section Observer.
Context `{Machinery}.

(** [expect]. *)
Fixpoint expect_loop (n : nat) (id : string) (x : ExpectedConfig) : M bool :=
  match n with
  | O => mret false
  | S n' =>
      got ← base_get id;
      match got with
      | Err ErrNotFound => mret false
      | Err _ => _ ← Log (LNote "the baseline cannot be loaded, so no change is expected from an apply" id); mret false
      | Ok b =>
          if negb (bool_decide (damageOf b id = "")) then mret false
          else
            r ← base_put (set_expected (Some x) b);
            match r with
            | Ok _ => mret true
            | Err ErrConflict => expect_loop n' id x
            | Err _ => _ ← Log (LNote "the expectation of an apply cannot be stored" id); mret false
            end
      end
  end.
Definition expect : string -> ExpectedConfig -> M bool := expect_loop decideAttempts.

(** [unexpect]: only the expectation of this very apply. *)
Fixpoint unexpect_loop (n : nat) (id : string) (x : ExpectedConfig) : M unit :=
  match n with
  | O => mret tt
  | S n' =>
      got ← base_get id;
      match got with
      | Err _ => mret tt
      | Ok b =>
          if negb (holds_of (b_expected b) (fun y => bool_decide (x_digest y = x_digest x) && bool_decide (x_at y = x_at x)))
          then mret tt
          else
            r ← base_put (set_expected None b);
            match r with
            | Ok _ => mret tt
            | Err ErrConflict => unexpect_loop n' id x
            | Err _ => Log (LNote "the expectation of a failed apply cannot be removed" id)
            end
      end
  end.
Definition unexpect : string -> ExpectedConfig -> M unit := unexpect_loop decideAttempts.

Definition Poke (id : string) : M unit := fun e s =>
  (tt, if bool_decide (length (pokes s) < pokeBuffer)
       then mkService (bases s) (mem s) (passes s) (pokes s ++ [id]) (lines s) (tick s) else s).

(** [ApplyObserver] before the RPC: the expectation that was left and whether it
    was stored; [None] when there is no outcome to report to. *)
Definition observe_before (id cfg mode : string) : M (option (ExpectedConfig * bool)) :=
  if bool_decide (mode = modeTry) then mret None else
  match Snapshot cfg with
  | Err _ => _ ← Log (LNote "a configuration about to be applied cannot be snapshotted, so no change is expected from it" id);
             mret None
  | Ok sn => t ← now;
             let x := mkExpected (Digest sn) mode t in
             stored ← expect id x;
             mret (Some (x, stored))
  end.

(** And after it. *)
Definition observe_after (id : string) (x : ExpectedConfig) (stored failed : bool) : M unit :=
  if failed then (if stored then unexpect id x else mret tt) else Poke id.

(* ------------------------------------------------------------------ *)
(** ** Confirming, forgetting, clearing up *)

Inductive confirm_error :=
  | ErrUnknownMachine
  | ErrListMachines (e : string)
  | ErrNotRead
  | ErrNoDrift
  | ErrDigestChanged
  | ErrDamagedBaseline (why : string)
  | ErrBaselineLoad (e : store_error)
  | ErrBaselineStore (e : store_error)
  | ErrConfirmConflict.

Fixpoint find_by_id (id : string) (l : list Machine) : option Machine :=
  match l with
  | [] => None
  | m :: rest => if bool_decide (ID m = id) then Some m else find_by_id id rest
  end.

Definition findMachine (id : string) : M (result confirm_error Machine) :=
  all ← ask e_all;
  mret (match all with
        | Err e => Err (ErrListMachines e)
        | Ok l => match find_by_id id l with Some m => Ok m | None => Err ErrUnknownMachine end
        end).

(** [isDigest]: a byte that is no lower-case hexadecimal digit is in a rune that
    is none. *)
Definition hex_char (c : ascii) : bool := byte_in 48 57 c || byte_in 97 102 c.
Definition isDigest (text : string) : bool := bool_decide (String.length text = 64) && str_all hex_char text.

Definition confirmable_in (mm : memory) (id digest : string) : result confirm_error reading :=
  match readings mm !! id with
  | None => Err ErrNotRead
  | Some rd =>
      if bool_decide (state rd = StateNotRead) || bool_decide (state rd = StateUnreadable) then Err ErrNotRead
      else if negb (bool_decide (state rd = StateDrift)) then Err ErrNoDrift
      else if negb (isDigest digest) || negb (bool_decide (digest = Digest (snap rd))) then Err ErrDigestChanged
      else Ok rd
  end.
Definition confirmable (id digest : string) : M (result confirm_error reading) :=
  locked (fun mm => (confirmable_in mm id digest, mm)).

Definition markConfirmed (m : Machine) (c text : string) : M unit :=
  done ← locked (fun mm =>
    let cur := default (zero_reading c (Hostname m)) (readings mm !! ID m) in
    let drifting := bool_decide (state cur = StateDrift) in
    let next := mkReading (if drifting then StateOK else state cur) (at_ cur) (lastGood cur) (snap cur) zero_time
                  (if drifting then text else sentence cur) (cluster cur) (node_name cur) in
    let '(changed, mm') := put m next mm in
    ((changed, state next), mm'));
  if (done : bool * State).1 then Log (LState c (Hostname m) (ID m) done.2) else mret tt.

Fixpoint confirm_loop (n : nat) (m : Machine) (id digest : string) : M (result confirm_error unit) :=
  match n with
  | O => mret (Err ErrConfirmConflict)
  | S n' =>
      look ← confirmable id digest;
      match look with
      | Err e => mret (Err e)
      | Ok rd =>
          t ← now;
          tag ← config versionTag;
          got ← base_get id;
          let with_rev rev := mkBaseline id rev BaselineFormat (MCluster m) (Text (snap rd)) (Digest (snap rd)) t
                                BaselineConfirmed tag zero_time zero_time None in
          let write rec :=
            r ← base_put rec;
            match r with
            | Ok saved => _ ← markConfirmed m (cluster rd) (sentenceOK saved); mret (Ok tt)
            | Err ErrConflict => confirm_loop n' m id digest
            | Err e => mret (Err (ErrBaselineStore e))
            end in
          match got with
          | Ok b => let why := damageOf b id in
                    if negb (bool_decide (why = "")) then mret (Err (ErrDamagedBaseline why)) else write (with_rev (b_rev b))
          | Err ErrNotFound => write (with_rev 0%Z)
          | Err e => mret (Err (ErrBaselineLoad e))
          end
      end
  end.

(** [Confirm]. *)
Definition Confirm (id digest : string) : M (result confirm_error unit) :=
  found ← findMachine id;
  match found with
  | Err e => mret (Err e)
  | Ok m =>
      look ← confirmable id digest;
      match look with
      | Err e => mret (Err e)
      | Ok _ => confirm_loop decideAttempts m id digest
      end
  end.

Definition drop_reading (id : string) (mm : memory) : memory := mkMemory (delete id (readings mm)) (delete id (logged mm)).

(** [Forget]. *)
Definition Forget (id : string) : M unit :=
  r ← base_delete id;
  _ ← match r with
      | Ok _ | Err ErrNotFound => mret tt
      | Err _ => Log (LNote "forget a baseline" id)
      end;
  locked (fun mm => (tt, drop_reading id mm)).

(** [reconcile]: the last of two machines with one id counts, as in a map built
    in a loop. *)
Definition cluster_of (machines : list Machine) : gmap string string :=
  foldl (fun acc m => <[ID m := MCluster m]> acc) ∅ machines.
Definition stays (known : gmap string string) (b : ConfigBaseline) : bool :=
  match known !! b_machine b with
  | Some c => bool_decide (c = b_cluster b)
  | None => false
  end.

Fixpoint reconcile_loop (known : gmap string string) (l : list ConfigBaseline) : M unit :=
  match l with
  | [] => mret tt
  | b :: rest =>
      if stays known b then reconcile_loop known rest
      else
        r ← base_delete (b_machine b);
        match r with
        | Ok _ | Err ErrNotFound =>
            _ ← Log (LNote "removed the baseline of a machine that is gone or moved" (b_machine b));
            _ ← locked (fun mm => (tt, drop_reading (b_machine b) mm));
            reconcile_loop known rest
        | Err _ =>
            _ ← Log (LNote "remove the baseline of a machine that is gone or moved" (b_machine b));
            reconcile_loop known rest
        end
  end.
Definition reconcile : M unit :=
  all ← ask e_all;
  match all with
  | Err _ => Log (LNote "the machines could not be listed, nothing is cleared up" "")
  | Ok machines =>
      got ← base_list;
      match got with
      | Err _ => Log (LNote "the baselines could not be listed, nothing is cleared up" "")
      | Ok l => reconcile_loop (cluster_of machines) l
      end
  end.

(* ------------------------------------------------------------------ *)
(** ** Passes *)

(** The nodes of a pass, one after the other; [None] when the context ended. *)
Fixpoint refresh_loop (c : string) (l : list Machine) (acc : gmap string string) : M (option (gmap string string)) :=
  match l with
  | [] => mret (Some acc)
  | m :: rest =>
      if MDisabled m then refresh_loop c rest acc
      else
        over ← ask e_done;
        if over : bool then mret None
        else _ ← readNode c m; refresh_loop c rest (<[ID m := Hostname m]> acc)
  end.

Definition vanished (c : string) (present : list string) (mm : memory) : list string :=
  map fst (filter (fun p => cluster p.2 = c /\ p.1 ∉ present) (map_to_list (readings mm))).

Definition set_pass (c : string) (p : pass) : M unit := fun e s =>
  (tt, mkService (bases s) (mem s) (<[c := p]> (passes s)) (pokes s) (lines s) (tick s)).

Definition Refresh (c : string) : M unit :=
  got ← ask (fun e n => e_machines e n c);
  match got with
  | Err _ => Log (LNote "list the nodes" c)
  | Ok machines =>
      covered ← refresh_loop c machines ∅;
      match covered with
      | None => mret tt
      | Some covered =>
          t ← now;
          _ ← locked (fun mm => (tt, foldr drop_reading mm (vanished c (map ID machines) mm)));
          set_pass c (mkPass t covered)
      end
  end.

Fixpoint tick_loop (l : list Cluster) : M unit :=
  match l with
  | [] => mret tt
  | c :: rest =>
      over ← ask e_done;
      if over : bool then mret tt
      else if CDisabled c then tick_loop rest
      else _ ← Refresh (CID c); tick_loop rest
  end.
Definition Tick : M unit :=
  _ ← reconcile;
  got ← ask e_clusters;
  match got with
  | Err _ => Log (LNote "list the clusters" "")
  | Ok l => tick_loop l
  end.

(** [flush]: [first] and whatever is waiting, each once. *)
Definition machines_by_id (l : list Machine) : gmap string Machine := foldl (fun acc m => <[ID m := m]> acc) ∅ l.
Definition clusters_off (l : list Cluster) : gmap string bool := foldl (fun acc c => <[CID c := CDisabled c]> acc) ∅ l.

Fixpoint flush_loop (byID : gmap string Machine) (off : gmap string bool) (ids : list string) : M unit :=
  match ids with
  | [] => mret tt
  | id :: rest =>
      match byID !! id with
      | None => flush_loop byID off rest
      | Some m =>
          if bool_decide (MCluster m = "") || MDisabled m || negb (bool_decide (off !! MCluster m = Some false))
          then flush_loop byID off rest
          else
            over ← ask e_done;
            if over : bool then mret tt
            else _ ← readNode (MCluster m) m; flush_loop byID off rest
      end
  end.

(** Each id once, where it comes first. *)
Fixpoint first_of (seen : gset string) (l : list string) : list string :=
  match l with
  | [] => []
  | x :: rest => if bool_decide (x ∈ seen) then first_of seen rest else x :: first_of ({[x]} ∪ seen) rest
  end.

Definition take_pokes : M (list string) := fun e s =>
  (pokes s, mkService (bases s) (mem s) (passes s) [] (lines s) (tick s)).
Definition flush (first : list string) : M unit :=
  waiting ← take_pokes;
  match first ++ waiting with
  | [] => mret tt
  | ids =>
      all ← ask e_all;
      match all with
      | Err _ => Log (LNote "the machines could not be listed, a poke is dropped" "")
      | Ok machines =>
          got ← ask e_clusters;
          match got with
          | Err _ => Log (LNote "the clusters could not be listed, a poke is dropped" "")
          | Ok clusters => flush_loop (machines_by_id machines) (clusters_off clusters) (first_of ∅ ids)
          end
      end
  end.

End Observer.

(* ------------------------------------------------------------------ *)
(** ** What is shown *)

Record NodeConfigDrift := mkItem {
  i_machine : string;
  i_node : string;
  i_state : State;
  i_since : time;
  i_read : time;
  i_sentence : string
}.

Definition Read (n : NodeConfigDrift) : bool :=
  match i_state n with
  | StateOK | StateBaselineCreated | StateDrift | StateSettling | StateBaselineDamaged => true
  | _ => false
  end.
Definition Drifting (n : NodeConfigDrift) : bool := negb (is_zero (i_since n)).
Definition Judged (n : NodeConfigDrift) : bool :=
  Drifting n || match i_state n with
                | StateOK | StateBaselineCreated | StateSettling => true
                | _ => false
                end.

Record ConfigDriftHealth := mkHealth {
  CheckedAt : time;
  Nodes : Z;
  ReadNodes : Z;
  Drifted : Z;
  Banner : bool;
  Warning : string;
  Items : list NodeConfigDrift
}.

Definition listSentence (r : reading) : string :=
  match state r with
  | StateUnreadable => sentenceUnreadable "The node could not be read at the last attempt." (lastGood r)
  | StateBaselineDamaged => "The stored baseline cannot be trusted, so this node is not compared until it is dealt with."
  | _ => sentence r
  end.

Definition bannerSentence (c : string) (oldest : NodeConfigDrift) (others : Z) : string :=
  "The configuration of " +:+ i_node oldest +:+ " (" +:+ c +:+ ") has differed since " +:+ when_ (i_since oldest) +:+
  " from what holzkube-manager last knew. Look at it on the node's page, confirm it, or find out who changed it." +:+
  (if bool_decide (others = 0)%Z then ""
   else if bool_decide (others = 1)%Z then " 1 other node differs as well."
   else " " +:+ itoa others +:+ " other nodes differ as well.").

(** The entry of one node of the pass. *)
Definition item_of (c : string) (rs : gmap string reading) (entry : string * string) : NodeConfigDrift :=
  let '(id, host) := entry in
  match rs !! id with
  | Some rd => if negb (bool_decide (cluster rd = c)) then mkItem id host StateNotRead zero_time zero_time sentenceNotRead
               else mkItem id (if bool_decide (host = "") then node_name rd else host) (state rd) (since rd) (lastGood rd)
                      (listSentence rd)
  | None => mkItem id host StateNotRead zero_time zero_time sentenceNotRead
  end.

Definition item_le (a b : NodeConfigDrift) : Prop :=
  if bool_decide (i_node a = i_node b) then str_le (i_machine a) (i_machine b) else str_lt (i_node a) (i_node b) = true.
#[global] Instance item_le_dec : RelDecision item_le.
Proof. intros a b. unfold item_le. case_match; apply _. Defined.

Definition newest_read (c : string) (rs : gmap string reading) (entries : list (string * string)) (t : time) : time :=
  foldl (fun t entry => match rs !! entry.1 with
                        | Some rd => if bool_decide (cluster rd = c) then Z.max t (at_ rd) else t
                        | None => t
                        end) t entries.

(** The first of the oldest drifts, in the order of the items. *)
Definition oldest_of (items : list NodeConfigDrift) : option NodeConfigDrift :=
  foldl (fun best it => if Drifting it then
                          match best with
                          | Some b => if bool_decide (i_since it < i_since b)%Z then Some it else best
                          | None => Some it
                          end
                        else best) None items.

Definition count_of (P : NodeConfigDrift -> bool) (items : list NodeConfigDrift) : Z :=
  Z.of_nat (length (filter (fun it => P it = true) items)).

(** [HealthFor]. *)
Definition HealthFor (c : Cluster) (t : time) (s : Service) : option ConfigDriftHealth :=
  match passes s !! CID c with
  | None => None
  | Some p =>
      let rs := readings (mem s) in
      let covered := map_to_list (members p) in
      let items := merge_sort item_le (map (item_of (CID c) rs) covered) in
      let banner := match oldest_of items with
                    | Some it => bool_decide (BannerAfter <= time_sub t (i_since it))%Z
                    | None => false
                    end in
      let warning := match oldest_of items with
                     | Some it => if banner then bannerSentence (CName c) it (count_of Drifting items - 1) else ""
                     | None => ""
                     end in
      Some (mkHealth (newest_read (CID c) rs covered (p_at p)) (Z.of_nat (length items)) (count_of Read items)
              (count_of Drifting items) banner warning items)
  end.

Definition Notice : string :=
  "A change of nothing but a secret value, such as a rotated token, is not visible here: snapshots hold the redacted configuration (D-02). Fields such as machine.files, machine.env and inlineManifests are shown as the node reports them.".

Record DetailView := mkDetail {
  d_machine : string;
  d_state : State;
  d_sentence : string;
  d_checked : time;
  d_read : time;
  d_taken : time;
  d_source : string;
  d_since : time;
  d_digest : string;
  d_diff : option Diff
}.

Inductive detail_error := DetailUnknown | DetailList (e : string) | DetailCompare (e : snapshot_error).

(** [Detail]. *)
Definition Detail `{Machinery} (id : string) : M (result detail_error DetailView) :=
  all ← ask e_all;
  match all with
  | Err e => mret (Err (DetailList e))
  | Ok machines =>
      if negb (existsb (fun m => bool_decide (ID m = id)) machines) then mret (Err DetailUnknown)
      else
        rd ← locked (fun mm => (readings mm !! id, mm));
        got ← base_get id;
        let taken := match got with Ok b => b_taken b | Err _ => zero_time end in
        let source := match got with Ok b => b_source b | Err _ => "" end in
        match rd with
        | None => mret (Ok (mkDetail id StateNotRead sentenceNotRead zero_time zero_time taken source zero_time "" None))
        | Some rd =>
            let view := mkDetail id (state rd) (sentence rd) (at_ rd) (lastGood rd) taken source (since rd) (Digest (snap rd)) in
            match got with
            | Ok b => if bool_decide (state rd = StateDrift) then
                        match CompareDocuments (b_snapshot b) (Text (snap rd)) with
                        | Err e => mret (Err (DetailCompare e))
                        | Ok diff => mret (Ok (view (Some diff)))
                        end
                      else mret (Ok (view None))
            | Err _ => mret (Ok (view None))
            end
        end
  end.
