(* ===== verification/DriftSafety.v ===== *)
(** * Configuration drift: what the verdicts mean

    The theorems on [Drift.v]: what a verdict says about the node and the record
    on disk, under every interleaving and every failure of the store; that a
    deviation nobody confirmed stays open; that an apply of this installation is
    no drift; and that a confirmation covers only what was seen. *)

From S2P Require Import Prelude RecordStore Redact ConfigDiff Drift.

(* ------------------------------------------------------------------ *)
(** ** Reasoning about the monad *)

(** The weakest precondition of an operation under an oracle. *)
Definition wp {A} (e : env) (m : M A) (Q : A -> Service -> Prop) (s : Service) : Prop :=
  let '(a, s') := m e s in Q a s'.

Section Wp.
Context (e : env).

Lemma drift_wp_run {A} (m : M A) Q s a s' : wp e m Q s -> m e s = (a, s') -> Q a s'.
Proof. unfold wp. intros Hw Heq. by rewrite Heq in Hw. Qed.

Lemma drift_wp_ret {A} (a : A) (Q : A -> Service -> Prop) s : Q a s -> wp e (mret a) Q s.
Proof. done. Qed.

Lemma drift_wp_bind {A B} (m : M A) (f : A -> M B) Q s : wp e m (fun a s' => wp e (f a) Q s') s -> wp e (m ≫= f) Q s.
Proof. unfold wp, mbind, M_bind. by destruct (m e s). Qed.

Lemma drift_wp_mono {A} (m : M A) (Q Q' : A -> Service -> Prop) s :
  wp e m Q s -> (forall a s', Q a s' -> Q' a s') -> wp e m Q' s.
Proof. unfold wp. destruct (m e s). auto. Qed.

Lemma wp_ask {A} (f : env -> nat -> A) Q s : Q (f e (tick s)) (bump s) -> wp e (ask f) Q s.
Proof. done. Qed.

Lemma wp_config {A} (f : env -> A) Q s : Q (f e) s -> wp e (config f) Q s.
Proof. done. Qed.

Lemma wp_seq {A B} (m : M A) (b : B) (Q : B -> Service -> Prop) s :
  wp e m (fun _ s' => Q b s') s -> wp e (_ ← m; mret b) Q s.
Proof. intros Hm. apply drift_wp_bind. exact Hm. Qed.

(** The calls of the store: the directory as somebody else left it, and what the
    store does with it. *)
Lemma drift_wp_get id Q s :
  (forall r s', bases s' = e_files e (tick s) (bases s) -> mem s' = mem s ->
     (forall b, r = Ok b -> bases s' !! id = Some (Some b)) ->
     (r = Err ErrNotFound -> e_fault e (tick s) = NoFault /\ bases s' !! id = None) -> Q r s') ->
  wp e (base_get id) Q s.
Proof.
  intros HQ. unfold wp, base_get. apply HQ; try done.
  - intros b Hb%store_get_ok_inv. done.
  - cbn. unfold store_get. destruct (safeKey id); [|done]. cbn. destruct (e_fault e (tick s)); try done.
    destruct (e_files e (tick s) (bases s) !! id) as [[]|] eqn:E; done.
Qed.

Lemma wp_put b Q s :
  (forall r s', mem s' = mem s ->
     (bases s' = e_files e (tick s) (bases s) /\ (forall saved, r <> Ok saved) \/
      (bases s' = <[b_machine b := Some (set_rev (next_rev (b_rev b)) b)]> (e_files e (tick s) (bases s)) /\
       (r = Ok (set_rev (next_rev (b_rev b)) b) \/ r = Err ErrIO /\ e_fault e (tick s) = FaultAfter))) -> Q r s') ->
  wp e (base_put b) Q s.
Proof.
  intros HQ. unfold wp, base_put. cbn [before_call with_bases bases tick].
  destruct (store_put_inv (e_fault e (tick s)) (e_files e (tick s) (bases s)) b)
    as [[err He]|[_ [He|[He Hf]]]]; rewrite He; apply HQ; cbn; try done; [left|right|right]; split; auto; congruence.
Qed.

Lemma wp_list Q s :
  (forall r s', bases s' = e_files e (tick s) (bases s) -> mem s' = mem s ->
     store_list (e_fault e (tick s)) (bases s') = r -> Q r s') ->
  wp e base_list Q s.
Proof. intros HQ. by apply HQ. Qed.

Lemma wp_locked {A} (f : memory -> A * memory) Q s :
  (forall s', bases s' = bases s -> mem s' = (f (e_mem e (tick s) (mem s))).2 ->
     Q (f (e_mem e (tick s) (mem s))).1 s') -> wp e (locked f) Q s.
Proof. intros HQ. unfold wp, locked. destruct (f _) as [a m] eqn:E. by apply HQ. Qed.

Lemma wp_log l Q s : (forall s', bases s' = bases s -> mem s' = mem s -> Q tt s') -> wp e (Log l) Q s.
Proof. intros HQ. by apply HQ. Qed.

(** A reading that is set is the node's reading, and the record is left alone. *)
Lemma wp_set_reading c m r (Q : unit -> Service -> Prop) s :
  (forall s', bases s' = bases s -> readings (mem s') !! ID m = Some r -> Q tt s') ->
  wp e (set_reading c m r) Q s.
Proof.
  intros HQ. unfold set_reading. apply drift_wp_bind, wp_locked. intros s1 Hb1 Hm1.
  assert (readings (mem s1) !! ID m = Some r) as Hr by (rewrite Hm1; cbn; apply lookup_insert_eq).
  destruct (put m r _).1.
  - apply wp_log. intros s2 Hb2 Hm2. apply HQ; [by rewrite Hb2|by rewrite Hm2].
  - apply drift_wp_ret, HQ; done.
Qed.

Lemma wp_record c m st t sn from text (Q : unit -> Service -> Prop) s :
  (forall s', bases s' = bases s ->
     readings (mem s') !! ID m = Some (mkReading st t t sn from text c (Hostname m)) -> Q tt s') ->
  wp e (record c m st t sn from text) Q s.
Proof. apply wp_set_reading. Qed.

(** A failed reading: unknown, with the start of a deviation the record knows. *)
Lemma wp_unreadable c m reason (Q : unit -> Service -> Prop) s :
  (forall s' r, bases s' = e_files e (tick s) (bases s) ->
     readings (mem s') !! ID m = Some r -> state r = StateUnreadable ->
     (forall b, e_fault e (tick s) = NoFault -> safeKey (ID m) = true -> bases s' !! ID m = Some (Some b) -> since r = b_since b) ->
     Q tt s') ->
  wp e (unreadable c m reason) Q s.
Proof.
  intros HQ. unfold unreadable. apply drift_wp_bind. unfold wp at 1, base_get.
  set (s1 := before_call e s). apply drift_wp_bind, wp_ask. apply drift_wp_bind, wp_locked. intros s2 Hb2 Hm2.
  cbn [fst snd]. apply wp_set_reading. intros s3 Hb3 Hr3. eapply HQ; [|exact Hr3|done|].
  - rewrite Hb3, Hb2. done.
  - intros b Hf Hk Hb. rewrite Hb3, Hb2 in Hb. cbn in Hb. cbn [since]. unfold store_get. rewrite Hk.
    cbn. rewrite Hf, Hb. done.
Qed.

End Wp.

(* ------------------------------------------------------------------ *)
(** ** A verdict is about the record on disk *)

Section Verdicts.
Context `{Machinery} (e : env).

Definition verdict (sn : Snap) (t : time) (st : State) (from : time) (b : ConfigBaseline) : Prop :=
  match st with
  | StateBaselineCreated => b_digest b = Digest sn /\ b_source b = BaselineFirstSight /\ b_since b = zero_time /\ from = zero_time
  | StateOK => b_digest b = Digest sn /\ b_since b = zero_time /\ from = zero_time
  | StateSettling => b_digest b <> Digest sn /\ b_since b = zero_time /\ from = zero_time /\
      exists x, b_expected b = Some x /\ settles (settleWindow e) x t = true
  | StateDrift => b_digest b <> Digest sn /\ b_since b <> zero_time /\ from = b_since b
  | _ => False
  end.

Definition compared (sn : Snap) (t : time) (id : string) (s : Service) : Prop :=
  exists r b, readings (mem s) !! id = Some r /\ snap r = sn /\ at_ r = t /\ bases s !! id = Some (Some b) /\
    verdict sn t (state r) (since r) b.

Definition not_compared (id : string) (s : Service) : Prop :=
  exists r, readings (mem s) !! id = Some r /\ (state r = StateUnreadable \/ state r = StateBaselineDamaged).

Definition answered (sn : Snap) (t : time) (id : string) (r : option bool) (s : Service) : Prop :=
  match r with
  | Some true => compared sn t id s
  | Some false => not_compared id s
  | None => True
  end.

Lemma wp_record_compared c m st t sn from text b s :
  bases s !! ID m = Some (Some b) -> verdict sn t st from b ->
  wp e (record c m st t sn from text) (fun _ s' => compared sn t (ID m) s') s.
Proof.
  intros Hb Hv. apply wp_record. intros s' Hb' Hr. eexists _, b. split; [exact Hr|]. cbn.
  split; [done|]. split; [done|]. by rewrite Hb'.
Qed.

Lemma wp_damaged c m t sn why s : wp e (damaged c m t sn why) (fun _ s' => not_compared (ID m) s') s.
Proof. apply wp_record. intros s' _ Hr. eexists. split; [exact Hr|]. by right. Qed.

Lemma wp_unreadable_nc c m reason s : wp e (unreadable c m reason) (fun _ s' => not_compared (ID m) s') s.
Proof. apply wp_unreadable. intros s' r _ Hr Hs _. exists r. auto. Qed.

Lemma wp_store_then c m b k sn t s :
  b_machine b = ID m ->
  (forall saved s1, bases s1 !! ID m = Some (Some saved) -> saved = set_rev (next_rev (b_rev b)) b ->
     wp e (k saved) (fun _ s' => compared sn t (ID m) s') s1) ->
  wp e (store_then c m b k) (answered sn t (ID m)) s.
Proof.
  intros Hid Hk. unfold store_then. apply drift_wp_bind, wp_put. intros r s1 _ Hr.
  destruct r as [saved|err].
  - apply wp_seq. cbn [answered].
    destruct Hr as [[_ Hn]|[Hb [[= ->]|[[=] _]]]]; [by destruct (Hn saved)|].
    apply Hk; [|done]. rewrite Hb, <- Hid. apply lookup_insert_eq.
  - assert (wp e (text ← config (fun e => store_text e err); _ ← unreadable c m (reasonStoreFailed text); mret (Some false))
              (answered sn t (ID m)) s1) as Hf.
    { apply drift_wp_bind, wp_config, wp_seq, wp_unreadable_nc. }
    by destruct err.
Qed.

Lemma is_zero_spec t : is_zero t = true <-> t = zero_time.
Proof. unfold is_zero. apply bool_decide_eq_true. Qed.
Lemma is_zero_false t : is_zero t = false <-> t <> zero_time.
Proof. unfold is_zero. apply bool_decide_eq_false. Qed.

Lemma wp_then_some c m st t sn from text b s :
  bases s !! ID m = Some (Some b) -> verdict sn t st from b ->
  wp e (_ ← record c m st t sn from text; mret (Some true)) (answered sn t (ID m)) s.
Proof. intros Hb Hv. apply wp_seq. by eapply wp_record_compared. Qed.

(** Rules 3 to 7. *)
Lemma wp_judge c m sn t b s :
  t <> zero_time -> bases s !! ID m = Some (Some b) -> b_machine b = ID m ->
  wp e (judge c m sn t b) (answered sn t (ID m)) s.
Proof.
  intros Ht Hb Hid. unfold judge. apply drift_wp_bind, wp_config, drift_wp_bind, wp_config.
  destruct (decide (b_digest b = Digest sn)) as [Hd|Hd].
  - rewrite (bool_decide_eq_true_2 _ Hd). cbn [negb].
    destruct (negb (is_zero (b_since b)) || _ || _) eqn:Hw.
    + apply wp_store_then; [done|]. intros saved s1 Hs1 ->. by apply (wp_record_compared _ _ _ _ _ _ _ _ _ Hs1).
    + apply orb_false_iff in Hw as [[Hz _]%orb_false_iff _]. apply negb_false_iff, is_zero_spec in Hz.
      by apply (wp_then_some _ _ _ _ _ _ _ _ _ Hb).
  - rewrite (bool_decide_eq_false_2 _ Hd). cbn [negb].
    destruct (Snapshot (b_snapshot b)) as [renorm|err] eqn:Hren;
      [|apply wp_seq, wp_damaged].
    destruct (is_digest_of _ _ && _ && _) eqn:Hadopt.
    + destruct (is_zero (b_since b)) eqn:Hz; cbn [negb]; (apply wp_store_then; [done|]); intros saved s1 Hs1 ->.
      * by apply (wp_record_compared _ _ _ _ _ _ _ _ _ Hs1).
      * apply is_zero_false in Hz. by apply (wp_record_compared _ _ _ _ _ _ _ _ _ Hs1).
    + case_bool_decide as Hsame.
      { apply wp_store_then; [done|]. intros saved s1 Hs1 ->. by apply (wp_record_compared _ _ _ _ _ _ _ _ _ Hs1). }
      destruct (is_zero (b_since b) && _) eqn:Hset.
      { apply andb_true_iff in Hset as [Hz%is_zero_spec Hx]. destruct (b_expected b) as [x|] eqn:He; [|done].
        apply (wp_then_some _ _ _ _ _ _ _ _ _ Hb). split; [done|]. split; [done|]. split; [done|]. by exists x. }
      set (from := if is_zero (b_since b) then t else b_since b).
      assert (from <> zero_time) as Hfrom.
      { unfold from. destruct (is_zero (b_since b)) eqn:Hz; [done|by apply is_zero_false]. }
      destruct (is_zero (b_since b) || _) eqn:Hw.
      * apply wp_store_then; [done|]. intros saved s1 Hs1 ->. by apply (wp_record_compared _ _ _ _ _ _ _ _ _ Hs1).
      * apply (wp_then_some _ _ _ _ _ _ _ _ _ Hb). apply orb_false_iff in Hw as [Hz _]. cbn.
        split; [done|]. unfold from in *. by rewrite Hz in *.
Qed.

Lemma damageOf_id b id : damageOf b id = "" -> b_machine b = id /\ b_digest b = digestOf (b_snapshot b) /\ b_snapshot b <> "".
Proof.
  unfold damageOf. destruct (bool_decide (b_format b = _)); [|done]. cbn [negb].
  destruct (bool_decide (b_snapshot b = "")) eqn:E0; [done|]. destruct (bool_decide (b_digest b = _)) eqn:E1; [|done]. cbn [negb].
  destruct (bool_decide (b_machine b = id)) eqn:E; [|done]. intros _.
  apply bool_decide_eq_true in E, E1. by apply bool_decide_eq_false in E0.
Qed.

Lemma damageOf_none b id :
  b_format b = BaselineFormat -> b_snapshot b <> "" -> b_digest b = digestOf (b_snapshot b) -> b_machine b = id ->
  damageOf b id = "".
Proof. intros. unfold damageOf. by repeat case_bool_decide. Qed.

Lemma wp_attempt c m sn t s :
  t <> zero_time -> wp e (attempt c m sn t) (answered sn t (ID m)) s.
Proof.
  intros Ht. unfold attempt. apply drift_wp_bind, wp_config, drift_wp_bind, drift_wp_get. intros r s1 _ _ Hok _.
  assert (forall why, wp e (_ ← damaged c m t sn why; mret (Some false)) (answered sn t (ID m)) s1) as Hdam.
  { intros why. apply wp_seq, wp_damaged. }
  destruct r as [b|err]; [|destruct err; try apply Hdam].
  - destruct (decide (damageOf b (ID m) = "")) as [Hd|Hd].
    + rewrite (bool_decide_eq_true_2 _ Hd). cbn [negb]. apply wp_judge; auto. by apply damageOf_id in Hd as [? _].
    + rewrite (bool_decide_eq_false_2 _ Hd). apply Hdam.
  - apply wp_store_then; [done|]. intros saved s2 Hs2 ->. by apply (wp_record_compared _ _ _ _ _ _ _ _ _ Hs2).
Qed.

Lemma wp_decide_loop n c m sn t s :
  t <> zero_time ->
  wp e (decide_loop n c m sn t) (fun ok s' => if ok then compared sn t (ID m) s' else not_compared (ID m) s') s.
Proof.
  intros Ht. revert s. induction n as [|n IH]; intros s; cbn [decide_loop].
  - apply wp_seq, wp_unreadable_nc.
  - apply drift_wp_bind. eapply drift_wp_mono; [by apply wp_attempt|]. intros [[|]|] s' Hr; [by apply drift_wp_ret..|apply IH].
Qed.

End Verdicts.

(** C6: a verdict is about what is on disk. Whatever the clock, the failures of
    the store, writes of somebody else to the data directory and other goroutines
    do, a reading of a node ends in one of two ways. Either the node was compared:
    then the reading is the one just made and the record on disk agrees with its
    state -- "ok" and "baseline created" only when the recorded digest is the
    digest read and no deviation runs, "drift" only when the digests differ, with
    the start the record holds, "settling" only when they differ, no deviation runs
    and an own apply in its window is expected. Or it was not, and the state is
    "unreadable" or "baseline damaged": a reading that failed is never "no
    drift". *)
Theorem verdict_on_record `{Machinery} (e : env) c m s ok s' :
  (forall n, e_clock e n <> zero_time) ->
  readNode c m e s = (ok, s') ->
  exists r, readings (mem s') !! ID m = Some r /\
    if ok : bool then
      e_read e (tick s) (ID m) = Ok (snap r) /\
      exists b, bases s' !! ID m = Some (Some b) /\ verdict e (snap r) (at_ r) (state r) (since r) b
    else state r = StateUnreadable \/ state r = StateBaselineDamaged.
Proof.
  intros Hclock Hrun.
  assert (wp e (readNode c m) (fun ok s' => if ok then exists sn t, e_read e (tick s) (ID m) = Ok sn /\ compared e sn t (ID m) s'
                                             else not_compared (ID m) s') s) as Hw.
  { unfold readNode. apply drift_wp_bind, wp_ask. destruct (e_read e (tick s) (ID m)) as [sn|err].
    - unfold decide_. apply drift_wp_bind, wp_ask.
      assert (forall reason s1, wp e (_ ← unreadable c m reason; mret false)
         (fun (ok : bool) s' => if ok then exists sn0 t, Ok sn = Ok (E := read_error) sn0 /\ compared e sn0 t (ID m) s' else not_compared (ID m) s') s1) as Hun.
      { intros reason s1. apply wp_seq, wp_unreadable_nc. }
      destruct (too_large (Text sn)); [apply Hun|]. destruct (ContainsPrivateKey (Text sn)); [apply Hun|].
      eapply drift_wp_mono; [by apply wp_decide_loop|]. intros [] s2 Hc; [by eauto|done].
    - apply wp_seq, wp_unreadable_nc. }
  apply (drift_wp_run _ _ _ _ _ _ Hw) in Hrun. destruct ok.
  - destruct Hrun as (sn & t & He & r & b & Hr & <- & <- & Hb & Hv). exists r. split; [done|]. split; [done|]. by exists b.
  - destruct Hrun as (r & Hr & Hs). by exists r.
Qed.

(* ------------------------------------------------------------------ *)
(** ** An open deviation stays open *)

(** One operation of the service, as something outside asks for it; [ORestart]
    is the process ending and starting again, with its memory empty. *)
Inductive op :=
  | ORead (c : string) (m : Machine)
  | ORefresh (c : string)
  | OTick
  | OPoke (id : string)
  | OFlush (first : list string)
  | OBefore (id cfg mode : string)
  | OAfter (id : string) (x : ExpectedConfig) (stored failed : bool)
  | OConfirm (id digest : string)
  | OForget (id : string)
  | ORestart.

Definition restart : M unit := fun e s => (tt, mkService (bases s) (mkMemory ∅ ∅) ∅ [] [] (tick s)).

Definition exec `{Machinery} (o : op) : M unit :=
  match o with
  | ORead c m => _ ← readNode c m; mret tt
  | ORefresh c => Refresh c
  | OTick => Tick
  | OPoke id => Poke id
  | OFlush first => flush first
  | OBefore id cfg mode => _ ← observe_before id cfg mode; mret tt
  | OAfter id x stored failed => observe_after id x stored failed
  | OConfirm id digest => _ ← Confirm id digest; mret tt
  | OForget id => Forget id
  | ORestart => restart
  end.

Definition history `{Machinery} (l : list (env * op)) (s : Service) : Service :=
  foldl (fun s eo => (exec eo.2 eo.1 s).2) s l.

Section Open.
Context `{Machinery} (e : env).
Context (b0 : ConfigBaseline).
Let id := b_machine b0.

(** What must stay of the record. *)
Definition same_deviation (b : ConfigBaseline) : Prop :=
  b_machine b = b_machine b0 /\ b_snapshot b = b_snapshot b0 /\ b_digest b = b_digest b0 /\ b_taken b = b_taken b0 /\
  b_source b = b_source b0 /\ b_cluster b = b_cluster b0 /\ b_since b = b_since b0.

Lemma dev_digest b : same_deviation b -> b_digest b = b_digest b0.
Proof. unfold same_deviation. tauto. Qed.
Lemma dev_snapshot b : same_deviation b -> b_snapshot b = b_snapshot b0.
Proof. unfold same_deviation. tauto. Qed.
Lemma dev_since b : same_deviation b -> b_since b = b_since b0.
Proof. unfold same_deviation. tauto. Qed.

Definition keyed (f : base_files) : Prop := forall k b, f !! k = Some (Some b) -> b_machine b = k.

Definition Dev (s : Service) : Prop :=
  keyed (bases s) /\ exists b, bases s !! id = Some (Some b) /\ same_deviation b.

(** Nobody else writes the data directory; nothing that is read from the node is
    what the baseline says, in the same bytes or in another rendering; and the
    inventory holds the node in its cluster. *)
Definition undisturbed : Prop :=
  (forall n f, e_files e n f = f) /\
  (forall n sn, e_read e n id = Ok sn ->
     Digest sn <> b_digest b0 /\ forall rn, Snapshot (b_snapshot b0) = Ok rn -> Digest rn <> Digest sn) /\
  (forall n l, e_all e n = Ok l -> cluster_of l !! id = Some (b_cluster b0)).

Context (Hsince : b_since b0 <> zero_time) (Hund : undisturbed).

Definition keeps {A} (m : M A) : Prop := forall s, Dev s -> wp e m (fun _ s' => Dev s') s.

Lemma Dev_bases s s' : bases s' = bases s -> Dev s -> Dev s'.
Proof. unfold Dev. by intros ->. Qed.

Lemma keeps_ret {A} (a : A) : keeps (mret a).
Proof. by intros s. Qed.
Lemma keeps_bind {A B} (m : M A) (f : A -> M B) : keeps m -> (forall a, keeps (f a)) -> keeps (m ≫= f).
Proof. intros Hm Hf s Hs. apply drift_wp_bind. eapply drift_wp_mono; [by apply Hm|]. intros a s' Hs'. by apply Hf. Qed.
Lemma keeps_ask {A} (f : env -> nat -> A) : keeps (ask f).
Proof. intros s Hs. apply wp_ask. by apply (Dev_bases s). Qed.
Lemma keeps_config {A} (f : env -> A) : keeps (config f).
Proof. by intros s Hs. Qed.
Lemma keeps_log l : keeps (Log l).
Proof. intros s Hs. apply wp_log. intros s' Hb _. by apply (Dev_bases s). Qed.
Lemma keeps_locked {A} (f : memory -> A * memory) : keeps (locked f).
Proof. intros s Hs. apply wp_locked. intros s' Hb _. by apply (Dev_bases s). Qed.
Lemma keeps_set_reading c m r : keeps (set_reading c m r).
Proof. intros s Hs. apply wp_set_reading. intros s' Hb _. by apply (Dev_bases s). Qed.

(** A record read from the store belongs to the key it was read under; the one
    of the node is the deviation. *)
Lemma keeps_get {B} k (f : result store_error ConfigBaseline -> M B) :
  (forall r, (forall b, r = Ok b -> b_machine b = k /\ (k = id -> same_deviation b)) ->
     (r = Err ErrNotFound -> k <> id) -> keeps (f r)) ->
  keeps (base_get k ≫= f).
Proof.
  intros Hf s (Hkey & b & Hb & Hdev). apply drift_wp_bind, drift_wp_get. intros r s1 Hb1 _ Hok Hnf.
  rewrite (proj1 Hund) in Hb1. apply Hf.
  - intros b' Hr. specialize (Hok b' Hr). rewrite Hb1 in Hok. split; [by apply Hkey|]. intros ->. congruence.
  - intros Hr ->. destruct (Hnf Hr) as [_ Hn]. rewrite Hb1 in Hn. congruence.
  - apply (Dev_bases s); [done|]. split; [done|]. by exists b.
Qed.

Lemma same_deviation_rev v b : same_deviation b -> same_deviation (set_rev v b).
Proof. done. Qed.

Lemma keeps_put b : (b_machine b = id -> same_deviation b) -> keeps (base_put b).
Proof.
  intros Hdev s (Hkey & b1 & Hb1 & Hd1). apply wp_put. intros r s1 _ Hr.
  rewrite (proj1 Hund) in Hr. destruct Hr as [[Hr _]|[Hr _]].
  - apply (Dev_bases s); [done|]. split; [done|]. by exists b1.
  - split; rewrite Hr.
    + intros k b' [[<- [= <-]]|[_ Hk]]%lookup_insert_Some; [done|by apply Hkey].
    + destruct (decide (b_machine b = id)) as [E|E].
      * rewrite E, lookup_insert_eq. eexists. split; [done|]. by apply same_deviation_rev, Hdev.
      * rewrite lookup_insert_ne by done. by exists b1.
Qed.

Lemma keeps_delete k : k <> id -> keeps (base_delete k).
Proof.
  intros Hk s Hs. unfold wp, base_delete. cbn [before_call with_bases bases tick]. rewrite (proj1 Hund).
  unfold store_delete. destruct (safeKey k); cbn [negb]; [|by apply (Dev_bases s)].
  destruct Hs as (Hkey & b & Hb & Hd). assert (Dev (bump (with_bases (delete k (bases s)) (before_call e s)))) as Hdel.
  { split; cbn.
    - intros k' b' [_ Hk']%lookup_delete_Some. by apply Hkey.
    - rewrite lookup_delete_ne by done. by exists b. }
  assert (Dev (bump (with_bases (bases s) (before_call e s)))) as Hsame by (split; [done|by exists b]).
  destruct (e_fault e (tick s)); [destruct (bases s !! k)| |destruct (bases s !! k)]; done.
Qed.

Lemma keeps_unreadable c m reason : keeps (unreadable c m reason).
Proof.
  unfold unreadable. apply keeps_get. intros r _ _. apply keeps_bind; [apply keeps_ask|]. intros t.
  apply keeps_bind; [apply keeps_locked|]. intros next. apply keeps_set_reading.
Qed.

Lemma keeps_store_then c m b k :
  (b_machine b = id -> same_deviation b) -> (forall saved, keeps (k saved)) -> keeps (store_then c m b k).
Proof.
  intros Hb Hk. unfold store_then. apply keeps_bind; [by apply keeps_put|]. intros [saved|err].
  - apply keeps_bind; [apply Hk|]. intros _. apply keeps_ret.
  - assert (keeps (text ← config (fun e => store_text e err); _ ← unreadable c m (reasonStoreFailed text); mret (Some false))).
    { apply keeps_bind; [apply keeps_config|]. intros text. apply keeps_bind; [apply keeps_unreadable|].
      intros _. apply keeps_ret. }
    destruct err; [done|apply keeps_ret|done|done].
Qed.

Lemma keeps_then {A B} (m : M A) (b : B) : keeps m -> keeps (_ ← m; mret b).
Proof. intros Hm. apply keeps_bind; [done|]. intros _. apply keeps_ret. Qed.

(** Rules 3 to 7 leave an open deviation that the reading does not end. *)
Lemma keeps_judge c m sn t b :
  b_machine b = ID m ->
  (ID m = id -> same_deviation b /\ Digest sn <> b_digest b0 /\
     forall rn, Snapshot (b_snapshot b0) = Ok rn -> Digest rn <> Digest sn) ->
  keeps (judge c m sn t b).
Proof.
  intros Hm Hid. unfold judge. apply keeps_bind; [apply keeps_config|]. intros window.
  apply keeps_bind; [apply keeps_config|]. intros tag.
  assert (forall st from text, keeps (record c m st t sn from text)) as Hrec by (intros; apply keeps_set_reading).
  destruct (decide (b_digest b = Digest sn)) as [Hd|Hd].
  - rewrite (bool_decide_eq_true_2 _ Hd). cbn [negb]. assert (ID m <> id) as Hne.
    { intros E. destruct (Hid E) as (Hsame & Hn & _). apply Hn. rewrite <- Hd. by apply dev_digest. }
    case_match; [|by apply keeps_then]. apply keeps_store_then; [|done]. cbn. congruence.
  - rewrite (bool_decide_eq_false_2 _ Hd). cbn [negb].
    destruct (Snapshot (b_snapshot b)) as [renorm|err] eqn:Hren; [|apply keeps_then, keeps_set_reading].
    destruct (is_digest_of _ _ && _ && _).
    { destruct (is_zero (b_since b)) eqn:Hz; cbn [negb]; (apply keeps_store_then; [|done]); cbn; rewrite Hm; intros E.
      - exfalso. apply is_zero_spec in Hz. destruct (Hid E) as [Hsame _]. apply Hsince. rewrite <- Hz. symmetry. by apply dev_since.
      - destruct (Hid E) as [Hsame _]. exact Hsame. }
    case_bool_decide as Hsame.
    { apply keeps_store_then; [|done]. cbn. rewrite Hm. intros E. exfalso. destruct (Hid E) as (Hs & _ & Hn).
      apply (Hn renorm); [|done]. by rewrite <- (dev_snapshot b Hs). }
    destruct (is_zero (b_since b) && _); [apply keeps_then; destruct (b_expected b); [apply Hrec|apply keeps_ret]|].
    assert (b_machine b = id -> b_since b <> zero_time) as Hnz.
    { rewrite Hm. intros E. destruct (Hid E) as [Hs _]. by rewrite (dev_since b Hs). }
    destruct (is_zero (b_since b) || _); [|by apply keeps_then]. apply keeps_store_then; [|done]. cbn. intros E.
    rewrite (proj2 (is_zero_false _) (Hnz E)). rewrite Hm in E. exact (proj1 (Hid E)).
Qed.

Lemma keeps_readNode c m : keeps (readNode c m).
Proof.
  unfold readNode. intros s Hs. apply drift_wp_bind, wp_ask. pose proof (proj1 (proj2 Hund) (tick s)) as Hread.
  destruct (e_read e (tick s) (ID m)) as [sn|err] eqn:He; [|by apply (keeps_then _ _ (keeps_unreadable _ _ _)), (Dev_bases s)].
  assert (ID m = id -> Digest sn <> b_digest b0 /\ forall rn, Snapshot (b_snapshot b0) = Ok rn -> Digest rn <> Digest sn) as Hsn.
  { intros E. apply Hread. by rewrite <- E. }
  clear Hread. revert s Hs He. enough (keeps (decide_ c m sn)) as Hk by (intros s Hs He; apply Hk; by apply (Dev_bases s)).
  unfold decide_. apply keeps_bind; [apply keeps_ask|]. intros t.
  destruct (too_large (Text sn)); [apply keeps_then, keeps_unreadable|].
  destruct (ContainsPrivateKey (Text sn)); [apply keeps_then, keeps_unreadable|].
  induction decideAttempts as [|n IH]; cbn [decide_loop]; [apply keeps_then, keeps_unreadable|].
  apply keeps_bind; [|intros [ok|]; [apply keeps_ret|apply IH]]. unfold attempt.
  apply keeps_bind; [apply keeps_config|]. intros tag. apply keeps_get. intros r Hok Hnf.
  destruct r as [b|err].
  - case_bool_decide; cbn [negb]; [|apply keeps_then, keeps_set_reading]. destruct (Hok b eq_refl) as [Hm Hdev].
    apply keeps_judge; [done|]. intros E. split; [by apply Hdev|by apply Hsn].
  - destruct err; try apply keeps_then, keeps_set_reading. apply keeps_store_then; [|intros; apply keeps_set_reading].
    cbn. intros E. by destruct (Hnf eq_refl).
Qed.

Lemma keeps_expect k x : keeps (expect k x).
Proof.
  unfold expect. induction decideAttempts as [|n IH]; cbn [expect_loop]; [apply keeps_ret|].
  apply keeps_get. intros r Hok _. destruct r as [b|err].
  - case_bool_decide; cbn [negb]; [|apply keeps_ret]. destruct (Hok b eq_refl) as [Hm Hdev].
    apply keeps_bind; [apply keeps_put; cbn; rewrite Hm; exact Hdev|]. intros [|[]]; try apply keeps_ret; try apply IH;
      apply keeps_then, keeps_log.
  - destruct err; try apply keeps_ret; apply keeps_then, keeps_log.
Qed.

Lemma keeps_unexpect k x : keeps (unexpect k x).
Proof.
  unfold unexpect. induction decideAttempts as [|n IH]; cbn [unexpect_loop]; [apply keeps_ret|].
  apply keeps_get. intros r Hok _. destruct r as [b|err]; [|apply keeps_ret].
  destruct (holds_of _ _); cbn [negb]; [|apply keeps_ret]. destruct (Hok b eq_refl) as [Hm Hdev].
  apply keeps_bind; [apply keeps_put; cbn; rewrite Hm; exact Hdev|].
  intros [|[]]; try apply keeps_ret; try apply IH; apply keeps_log.
Qed.

Lemma keeps_poke k : keeps (Poke k).
Proof. intros s Hs. unfold wp, Poke. case_bool_decide; [by apply (Dev_bases s)|done]. Qed.

Lemma keeps_before k cfg mode : keeps (observe_before k cfg mode).
Proof.
  unfold observe_before. case_bool_decide; [apply keeps_ret|].
  destruct (Snapshot cfg) as [sn|err]; [|apply keeps_then, keeps_log].
  apply keeps_bind; [apply keeps_ask|]. intros t. apply keeps_bind; [apply keeps_expect|]. intros. apply keeps_ret.
Qed.

Lemma keeps_after k x stored failed : keeps (observe_after k x stored failed).
Proof.
  unfold observe_after. destruct failed; [|apply keeps_poke]. destruct stored; [apply keeps_unexpect|apply keeps_ret].
Qed.

Lemma keeps_confirm k digest : k <> id -> keeps (Confirm k digest).
Proof.
  intros Hk. unfold Confirm. apply keeps_bind.
  { unfold findMachine. apply keeps_bind; [apply keeps_ask|]. intros all. apply keeps_ret. }
  intros [m|err]; [|apply keeps_ret]. apply keeps_bind; [apply keeps_locked|]. intros [rd|err]; [clear rd|apply keeps_ret].
  induction decideAttempts as [|n IH]; cbn [confirm_loop]; [apply keeps_ret|].
  apply keeps_bind; [apply keeps_locked|]. intros [rd|err]; [|apply keeps_ret].
  apply keeps_bind; [apply keeps_ask|]. intros t. apply keeps_bind; [apply keeps_config|]. intros tag.
  assert (forall rev, keeps (
    r ← base_put (mkBaseline k rev BaselineFormat (MCluster m) (Text (snap rd)) (Digest (snap rd)) t BaselineConfirmed tag
                    zero_time zero_time None);
    match r with
    | Ok saved => _ ← markConfirmed m (cluster rd) (sentenceOK saved); mret (Ok tt)
    | Err ErrConflict => confirm_loop n m k digest
    | Err e => mret (Err (ErrBaselineStore e))
    end)) as Hwrite.
  { intros rev. apply keeps_bind; [by apply keeps_put|]. intros [saved|[]]; try apply keeps_ret; [|apply IH].
    apply keeps_then. unfold markConfirmed. apply keeps_bind; [apply keeps_locked|]. intros [changed st].
    destruct changed; [apply keeps_log|apply keeps_ret]. }
  apply keeps_get. intros r _ _. destruct r as [b|[]]; try apply keeps_ret; [|apply Hwrite].
  case_bool_decide; cbn [negb]; [apply Hwrite|apply keeps_ret].
Qed.

Lemma keeps_forget k : k <> id -> keeps (Forget k).
Proof.
  intros Hk. unfold Forget. apply keeps_bind; [by apply keeps_delete|]. intros r.
  apply keeps_bind; [|intros; apply keeps_locked]. destruct r as [|[]]; try apply keeps_ret; apply keeps_log.
Qed.

Lemma keeps_reconcile : keeps reconcile.
Proof.
  unfold reconcile. intros s Hs. apply drift_wp_bind, wp_ask. pose proof (proj2 (proj2 Hund) (tick s)) as Hall.
  destruct (e_all e (tick s)) as [machines|err]; [|apply keeps_log; by apply (Dev_bases s)].
  specialize (Hall machines eq_refl). set (known := cluster_of machines) in *. clearbody known.
  apply drift_wp_bind, wp_list. intros r s1 Hb1 _ Hl. rewrite (proj1 Hund) in Hb1. cbn [bump bases] in Hb1.
  apply (Dev_bases s s1) in Hs; [|done]. clear Hb1. destruct r as [l|err]; [|by apply keeps_log].
  assert (forall b, b ∈ l -> b_machine b = id -> stays known b = true) as Hst.
  { destruct Hs as (Hkey & b & Hb & Hd). apply (@store_list_ok ConfigBaseline baseline_record _ _ _ Hkey) in Hl as [_ Hin].
    intros b' Hb' Hm. apply Hin in Hb'. cbn in Hb'. rewrite Hm, Hb in Hb'. injection Hb' as <-.
    unfold stays. rewrite Hm, Hall. unfold same_deviation in Hd. apply bool_decide_eq_true. symmetry. tauto. }
  clear Hl. revert s1 Hs. change (keeps (reconcile_loop known l)).
  induction l as [|b l IH]; cbn [reconcile_loop]; [apply keeps_ret|].
  assert (keeps (reconcile_loop known l)) as Hrest by (apply IH; intros; apply Hst; [by right|done]).
  destruct (stays known b) eqn:Hsb; [done|]. apply keeps_bind.
  - apply keeps_delete. intros Hm. rewrite (Hst b) in Hsb; [done|by left|done].
  - assert (forall what, keeps (_ ← Log (LNote what (b_machine b));
        _ ← locked (fun mm => (tt, drop_reading (b_machine b) mm)); reconcile_loop known l)) as Hgone.
    { intros what. apply keeps_bind; [apply keeps_log|]. intros _. apply keeps_bind; [apply keeps_locked|]. done. }
    intros [|[]]; try apply Hgone; (apply keeps_bind; [apply keeps_log|done]).
Qed.

Lemma keeps_refresh c : keeps (Refresh c).
Proof.
  unfold Refresh. apply keeps_bind; [apply keeps_ask|]. intros [machines|err]; [|apply keeps_log].
  apply keeps_bind.
  - generalize (∅ : gmap string string). induction machines as [|m rest IH]; intros acc; cbn [refresh_loop]; [apply keeps_ret|].
    destruct (MDisabled m); [apply IH|]. apply keeps_bind; [apply keeps_ask|]. intros [|]; [apply keeps_ret|].
    apply keeps_bind; [apply keeps_readNode|]. intros _. apply IH.
  - intros [covered|]; [|apply keeps_ret]. apply keeps_bind; [apply keeps_ask|]. intros t.
    apply keeps_bind; [apply keeps_locked|]. intros _ s Hs. by apply (Dev_bases s).
Qed.

Lemma keeps_tick : keeps Tick.
Proof.
  unfold Tick. apply keeps_bind; [apply keeps_reconcile|]. intros _. apply keeps_bind; [apply keeps_ask|].
  intros [l|err]; [|apply keeps_log]. induction l as [|c rest IH]; cbn [tick_loop]; [apply keeps_ret|].
  apply keeps_bind; [apply keeps_ask|]. intros [|]; [apply keeps_ret|].
  destruct (CDisabled c); [apply IH|]. apply keeps_bind; [apply keeps_refresh|]. intros _. apply IH.
Qed.

Lemma keeps_flush first : keeps (flush first).
Proof.
  unfold flush. apply keeps_bind; [intros s Hs; by apply (Dev_bases s)|]. intros waiting.
  destruct (first ++ waiting) as [|i ids]; [apply keeps_ret|]. apply keeps_bind; [apply keeps_ask|].
  intros [machines|err]; [|apply keeps_log]. apply keeps_bind; [apply keeps_ask|]. intros [clusters|err]; [|apply keeps_log].
  induction (first_of ∅ (i :: ids)) as [|k rest IH]; cbn [flush_loop]; [apply keeps_ret|].
  destruct (machines_by_id machines !! k) as [m|]; [|apply IH]. destruct (_ || _ || _); [apply IH|].
  apply keeps_bind; [apply keeps_ask|]. intros [|]; [apply keeps_ret|].
  apply keeps_bind; [apply keeps_readNode|]. intros _. apply IH.
Qed.

(** What an operator would have to ask for to end a deviation. *)
Definition ends_it (o : op) : bool :=
  match o with
  | OConfirm k _ | OForget k => bool_decide (k = id)
  | _ => false
  end.

Lemma keeps_exec o : ends_it o = false -> keeps (exec o).
Proof.
  intros Ho. destruct o; cbn [exec]; cbn in Ho.
  - apply keeps_then, keeps_readNode.
  - apply keeps_refresh.
  - apply keeps_tick.
  - apply keeps_poke.
  - apply keeps_flush.
  - apply keeps_then, keeps_before.
  - apply keeps_after.
  - apply keeps_then, keeps_confirm. by apply bool_decide_eq_false in Ho.
  - apply keeps_forget. by apply bool_decide_eq_false in Ho.
  - intros s Hs. by apply (Dev_bases s).
Qed.

End Open.

(** C5: a deviation nobody confirmed stays open. Let the record of a node hold a
    running deviation, in a store where every file is under its own key. Then
    whatever the service does afterwards -- passes over all nodes, reads of this
    node, failed or not, applies of this installation to it that land or fail,
    confirmations of other nodes, restarts of the process, with the store failing
    at any call and the readings changing in between -- the record keeps its
    configuration, its digest, its source and the start of the deviation, until
    the node itself shows the baseline again, somebody confirms or forgets this
    node, or the inventory moves it. *)
Theorem open_deviation_persists `{Machinery} (l : list (env * op)) b0 s :
  b_since b0 <> zero_time ->
  keyed (bases s) -> bases s !! b_machine b0 = Some (Some b0) ->
  (forall eo, eo ∈ l -> undisturbed eo.1 b0 /\ ends_it b0 eo.2 = false) ->
  exists b, bases (history l s) !! b_machine b0 = Some (Some b) /\
    b_snapshot b = b_snapshot b0 /\ b_digest b = b_digest b0 /\ b_taken b = b_taken b0 /\
    b_source b = b_source b0 /\ b_since b = b_since b0.
Proof.
  intros Hsince Hkey Hb0 Hl. assert (Dev b0 s) as Hdev by (split; [done|]; by exists b0). clear Hkey Hb0.
  assert (Dev b0 (history l s)) as (_ & b & Hb & Hd).
  { revert s Hdev. induction l as [|[e o] l IH]; intros s Hdev; [done|]. cbn.
    destruct (Hl (e, o)) as [Hund Ho]; [by left|]. cbn [fst snd] in Hund, Ho.
    apply IH; [intros; apply Hl; by right|].
    pose proof (keeps_exec e b0 Hsince Hund o Ho s Hdev) as Hw. unfold wp in Hw. by destruct (exec o e s). }
  exists b. unfold same_deviation in Hd. tauto.
Qed.

(* ------------------------------------------------------------------ *)
(** ** An apply of this installation is no drift *)

Section Own.
Context `{Machinery}.

(** The store works and nobody else writes the data directory. *)
Definition calm (e : env) : Prop := (forall n, e_fault e n = NoFault) /\ (forall n f, e_files e n f = f).

(** One read of the node [m] that answers [sn] at time [t]. *)
Definition reads (e : env) (m : Machine) (sn : Snap) (t : time) : Prop :=
  calm e /\ (forall n, e_read e n (ID m) = Ok sn) /\ (forall n, e_clock e n = t) /\
  too_large (Text sn) = false /\ ContainsPrivateKey (Text sn) = false.

Lemma wp_get_calm e k b Q s :
  calm e -> safeKey k = true -> bases s !! k = Some (Some b) ->
  (forall s', bases s' = bases s -> Q (Ok b) s') -> wp e (base_get k) Q s.
Proof.
  intros [Hf Hfiles] Hk Hb HQ. unfold wp, base_get. cbn [before_call with_bases bases tick]. rewrite Hf, Hfiles.
  unfold store_get. rewrite Hk, Hb. cbn. apply HQ. cbn. by rewrite Hfiles.
Qed.

Lemma wp_put_calm e b cur Q s :
  calm e -> safeKey (b_machine b) = true -> bases s !! b_machine b = Some (Some cur) -> b_rev b = b_rev cur ->
  (forall s', let saved := set_rev (next_rev (b_rev b)) b in
     bases s' = <[b_machine b := Some saved]> (bases s) -> Q (Ok saved) s') ->
  wp e (base_put b) Q s.
Proof.
  intros [Hf Hfiles] Hk Hb Hr HQ. unfold wp, base_put. cbn [before_call with_bases bases tick]. rewrite Hf, Hfiles.
  unfold store_put. cbn [rec_key rec_rev rec_set_rev baseline_record]. rewrite Hk, Hb. cbn [negb].
  rewrite (bool_decide_eq_true_2 _ Hr). cbn [negb]. by apply HQ.
Qed.

Context (m : Machine) (x : ExpectedConfig) (window : duration).
Hypothesis Hkey : safeKey (ID m) = true.

(** The record while the apply is on its way. *)
Definition waiting (b : ConfigBaseline) : Prop :=
  damageOf b (ID m) = "" /\ b_since b = zero_time /\ b_applied_on b = zero_time /\ b_expected b = Some x /\
  x_digest x <> b_digest b.

(** The record once it has landed. *)
Definition landed (sn : Snap) (b : ConfigBaseline) : Prop :=
  damageOf b (ID m) = "" /\ b_snapshot b = Text sn /\ b_digest b = Digest sn /\ b_source b = BaselineApply /\
  b_since b = zero_time /\ b_applied_on b = zero_time /\ b_expected b = None.

Definition at_rest (st : State) (P : ConfigBaseline -> Prop) (s : Service) : Prop :=
  (exists r, readings (mem s) !! ID m = Some r /\ state r = st) /\
  exists b, bases s !! ID m = Some (Some b) /\ P b.

Lemma wp_read_trusted e c sn t b Q s :
  reads e m sn t -> bases s !! ID m = Some (Some b) -> damageOf b (ID m) = "" ->
  (forall s1, bases s1 = bases s -> wp e (judge c m sn t b) (fun r s' => r = Some true /\ Q s') s1) ->
  wp e (readNode c m) (fun _ s' => Q s') s.
Proof.
  intros (Hcalm & Hread & Hclock & Hl & Hp) Hb Hd HQ. unfold readNode. apply drift_wp_bind, wp_ask. rewrite Hread.
  unfold decide_. apply drift_wp_bind, wp_ask. rewrite Hclock, Hl, Hp. unfold decideAttempts. cbn [decide_loop].
  apply drift_wp_bind. unfold attempt. apply drift_wp_bind, wp_config, drift_wp_bind. eapply wp_get_calm; [done|done|done|].
  intros s1 Hb1. rewrite bool_decide_eq_true_2 by done. cbn [negb].
  eapply drift_wp_mono; [by apply HQ|]. intros r s' [-> HQ']. by apply drift_wp_ret.
Qed.

Lemma wp_record_rest e c st t sn from text P b s :
  bases s !! ID m = Some (Some b) -> P b ->
  wp e (record c m st t sn from text) (fun _ s' => at_rest st P s') s.
Proof.
  intros Hb HP. apply wp_record. intros s' Hb' Hr. split; [eexists; split; [exact Hr|done]|].
  exists b. by rewrite Hb'.
Qed.

(** The node still is what it was. *)
Lemma read_old e c sn t b s :
  reads e m sn t -> settleWindow e = window -> bases s !! ID m = Some (Some b) -> waiting b ->
  Digest sn = b_digest b -> adopts window x t = true ->
  wp e (readNode c m) (fun _ s' => at_rest StateOK (fun b' => b' = b) s') s.
Proof.
  intros Hr Hw Hb (Hd & Hs & Ho & Hx & Hne) Hsn Ha. eapply wp_read_trusted; [done|done|done|]. intros s1 Hb1.
  unfold judge. apply drift_wp_bind, wp_config, drift_wp_bind, wp_config. rewrite (bool_decide_eq_true_2 _ (eq_sym Hsn)). cbn [negb].
  assert (is_digest_of (b_expected b) (b_digest b) || holds_of (b_expected b) (fun x => stale (settleWindow e) x t) = false) as ->.
  { rewrite Hx. cbn. rewrite (bool_decide_eq_false_2 _ Hne). cbn. unfold stale. by rewrite Hw, Ha. }
  rewrite Hs, Ho. cbn [is_zero]. rewrite !(proj2 (is_zero_spec zero_time) eq_refl). cbn [negb orb].
  apply wp_seq. eapply drift_wp_mono; [eapply (wp_record_rest _ _ _ _ _ _ _ (fun b' => b' = b) b); [rewrite Hb1; exact Hb|done]|]. by intros u s' Hrest.
Qed.

(** Something in between, while the apply settles. *)
Lemma read_settling e c sn t b rn s :
  reads e m sn t -> settleWindow e = window -> bases s !! ID m = Some (Some b) -> waiting b ->
  Digest sn <> b_digest b -> Digest sn <> x_digest x -> Snapshot (b_snapshot b) = Ok rn -> Digest rn <> Digest sn ->
  settles window x t = true ->
  wp e (readNode c m) (fun _ s' => at_rest StateSettling (fun b' => b' = b) s') s.
Proof.
  intros Hr Hw Hb (Hd & Hs & Ho & Hx & Hne) Hsn Hnx Hren Hrn Hset.
  eapply wp_read_trusted; [done|done|done|]. intros s1 Hb1.
  unfold judge. apply drift_wp_bind, wp_config, drift_wp_bind, wp_config.
  rewrite bool_decide_eq_false_2 by congruence. cbn [negb]. rewrite Hren, Hx. cbn [is_digest_of holds_of].
  rewrite bool_decide_eq_false_2 by congruence. cbn [andb]. rewrite (bool_decide_eq_false_2 _ Hrn).
  rewrite Hs, Hw, Hset, (proj2 (is_zero_spec zero_time) eq_refl). cbn [andb].
  apply wp_seq. eapply drift_wp_mono; [eapply (wp_record_rest _ _ _ _ _ _ _ (fun b' => b' = b) b); [rewrite Hb1; exact Hb|done]|]. by intros u s' Hrest.
Qed.

(** The landing. *)
Lemma read_landing e c sn t b rn s :
  reads e m sn t -> settleWindow e = window -> bases s !! ID m = Some (Some b) -> waiting b ->
  Digest sn = x_digest x -> Digest sn = digestOf (Text sn) -> Text sn <> "" ->
  Snapshot (b_snapshot b) = Ok rn -> Digest rn <> Digest sn -> adopts window x t = true ->
  wp e (readNode c m) (fun _ s' => at_rest StateOK (landed sn) s') s.
Proof.
  intros Hr Hw Hb (Hd & Hs & Ho & Hx & Hne) Hsn Hdig Htext Hren Hrn Ha.
  pose proof (proj1 (damageOf_id b (ID m) Hd)) as Hm.
  eapply wp_read_trusted; [done|done|done|]. intros s1 Hb1.
  unfold judge. apply drift_wp_bind, wp_config, drift_wp_bind, wp_config.
  rewrite bool_decide_eq_false_2 by congruence. cbn [negb]. rewrite Hren, Hx. cbn [is_digest_of holds_of].
  rewrite (bool_decide_eq_true_2 _ (eq_sym Hsn)), (bool_decide_eq_false_2 _ Hrn), Hw, Ha. cbn [negb andb].
  rewrite Hs, (proj2 (is_zero_spec zero_time) eq_refl). cbn [negb].
  unfold store_then. apply drift_wp_bind. eapply wp_put_calm; [exact (proj1 Hr)|by cbn; rewrite Hm|cbn; rewrite Hm, Hb1; exact Hb|done|].
  intros s2 saved Hb2. apply wp_seq. eapply drift_wp_mono.
  - eapply (wp_record_rest _ _ _ _ _ _ _ (landed sn) saved).
    + rewrite Hb2. cbn. rewrite Hm. apply lookup_insert_eq.
    + split; [by apply damageOf_none|done].
  - by intros u s' Hrest.
Qed.

(** And what is read after it. *)
Lemma read_landed e c sn sn0 t b s :
  reads e m sn t -> bases s !! ID m = Some (Some b) -> landed sn0 b -> Digest sn = Digest sn0 ->
  wp e (readNode c m) (fun _ s' => at_rest StateOK (fun b' => b' = b) s') s.
Proof.
  intros Hr Hb (Hd & _ & Hdig & _ & Hs & Ho & Hx) Hsn. eapply wp_read_trusted; [done|done|done|]. intros s1 Hb1.
  unfold judge. apply drift_wp_bind, wp_config, drift_wp_bind, wp_config. rewrite bool_decide_eq_true_2 by congruence. cbn [negb].
  rewrite Hs, Ho, Hx, (proj2 (is_zero_spec zero_time) eq_refl). cbn [negb orb is_digest_of holds_of].
  apply wp_seq. eapply drift_wp_mono; [eapply (wp_record_rest _ _ _ _ _ _ _ (fun b' => b' = b) b); [rewrite Hb1; exact Hb|done]|]. by intros u s' Hrest.
Qed.

(** The states a node shows over a sequence of reads, and the service after it. *)
Definition shown (s : Service) : State :=
  match readings (mem s) !! ID m with
  | Some r => state r
  | None => StateNotRead
  end.
Fixpoint follow (c : string) (l : list env) (s : Service) : list State * Service :=
  match l with
  | [] => ([], s)
  | e :: rest => let s1 := (readNode c m e s).2 in
                 let '(sts, s') := follow c rest s1 in (shown s1 :: sts, s')
  end.

Definition fine (st : State) : Prop := st = StateOK \/ st = StateSettling.

(** What a read may find before the apply lands: the old configuration, or for
    the settle window any third one. *)
Definition before_landing (b : ConfigBaseline) (r : env * Snap * time) : Prop :=
  let '(e, sn, t) := r in
  reads e m sn t /\ settleWindow e = window /\ adopts window x t = true /\
  (Digest sn = b_digest b \/
   Digest sn <> b_digest b /\ Digest sn <> x_digest x /\ settles window x t = true /\
   exists rn, Snapshot (b_snapshot b) = Ok rn /\ Digest rn <> Digest sn).

Lemma at_rest_shown st P s : at_rest st P s -> shown s = st.
Proof. intros [(r & Hr & <-) _]. unfold shown. by rewrite Hr. Qed.

Lemma read_step e c st P s : wp e (readNode c m) (fun _ s' => at_rest st P s') s -> at_rest st P (readNode c m e s).2.
Proof. unfold wp. by destruct (readNode c m e s). Qed.

Lemma follow_before c b l rest s :
  bases s !! ID m = Some (Some b) -> waiting b -> Forall (before_landing b) l ->
  exists sts s1, Forall fine sts /\ bases s1 !! ID m = Some (Some b) /\
    follow c (map (fun r => r.1.1) l ++ rest) s = (sts ++ (follow c rest s1).1, (follow c rest s1).2).
Proof.
  intros Hb Hwait Hl. revert s Hb. induction Hl as [|[[e sn] t] l (Hr & Hw & Ha & Hcase) Hl IH]; intros s Hb; cbn.
  - exists [], s. split; [constructor|]. split; [done|]. by destruct (follow c rest s).
  - assert (exists st, fine st /\ at_rest st (fun b' => b' = b) (readNode c m e s).2) as (st & Hst & Hrest).
    { destruct Hcase as [Hold|(Hne & Hnx & Hset & rn & Hren & Hrn)].
      - exists StateOK. split; [by left|]. apply read_step. by eapply read_old.
      - exists StateSettling. split; [by right|]. apply read_step. by eapply read_settling. }
    pose proof (at_rest_shown _ _ _ Hrest) as Hsh. destruct Hrest as [_ (b' & Hb' & ->)].
    destruct (IH _ Hb') as (sts & s1 & Hsts & Hs1 & ->). exists (st :: sts), s1. rewrite Hsh.
    split; [by constructor|]. done.
Qed.

Lemma follow_after c sn0 b l s :
  bases s !! ID m = Some (Some b) -> landed sn0 b ->
  Forall (fun r => reads r.1.1 m r.1.2 r.2 /\ Digest r.1.2 = Digest sn0) l ->
  let '(sts, s') := follow c (map (fun r => r.1.1) l) s in
  Forall fine sts /\ bases s' !! ID m = Some (Some b).
Proof.
  intros Hb Hland Hl. revert s Hb. induction Hl as [|[[e sn] t] l [Hr Hd] Hl IH]; intros s Hb; cbn; [by split|].
  pose proof (read_step e c _ _ s (read_landed e c sn sn0 t b s Hr Hb Hland Hd)) as Hrest.
  pose proof (at_rest_shown _ _ _ Hrest) as Hsh. destruct Hrest as [_ (b' & Hb' & ->)].
  specialize (IH _ Hb'). destruct (follow c _ _) as [sts s']. destruct IH as [Hsts Hs']. split; [|done].
  constructor; [by rewrite Hsh; left|done].
Qed.

Lemma expect_waiting e b s :
  calm e -> bases s !! ID m = Some (Some b) -> damageOf b (ID m) = "" ->
  b_since b = zero_time -> b_applied_on b = zero_time -> x_digest x <> b_digest b ->
  wp e (expect (ID m) x) (fun _ s' => exists b', bases s' !! ID m = Some (Some b') /\ waiting b' /\
    b_digest b' = b_digest b /\ b_snapshot b' = b_snapshot b) s.
Proof.
  intros Hcalm Hb Hd Hs Ho Hne. pose proof (proj1 (damageOf_id b (ID m) Hd)) as Hm.
  unfold expect, decideAttempts. cbn [expect_loop]. apply drift_wp_bind. eapply wp_get_calm; [done|done|done|].
  intros s1 Hb1. rewrite (bool_decide_eq_true_2 _ Hd). cbn [negb]. apply drift_wp_bind.
  eapply wp_put_calm; [done|by cbn; rewrite Hm|cbn; rewrite Hm, Hb1; exact Hb|done|].
  intros s2 saved Hb2. cbn. eexists. split; [rewrite Hb2; cbn; rewrite Hm; apply lookup_insert_eq|].
  split; [|done]. split; [exact Hd|done].
Qed.

End Own.

(** an apply of this installation is no drift. A configuration is sent to a
    node that is at its baseline and whose baseline can be trusted, in any mode but
    [try]. From then on, as long as the expectation counts (without end for a
    staged apply, a day for one with a restart, the settle window otherwise), the
    node is read any number of times: it shows its old configuration, or during the
    settle window something in between, and then the configuration that was sent.
    It is "ok" or "settling" at every read and never "drift"; the landing makes
    what was sent the baseline, and later reads of it are "ok". *)
Theorem own_apply_is_no_drift `{Machinery} c m (e0 : env) cfg mode sent t0 window b s
    (before : list (env * Snap * time)) eL tL (after : list (env * Snap * time)) rn :
  let x := mkExpected (Digest sent) mode t0 in
  safeKey (ID m) = true -> calm e0 -> (forall n, e_clock e0 n = t0) ->
  bases s !! ID m = Some (Some b) -> damageOf b (ID m) = "" -> b_since b = zero_time -> b_applied_on b = zero_time ->
  mode <> modeTry -> Snapshot cfg = Ok sent -> Digest sent <> b_digest b -> Text sent <> "" ->
  Snapshot (b_snapshot b) = Ok rn -> Digest rn <> Digest sent ->
  Forall (before_landing m x window b) before ->
  reads eL m sent tL -> settleWindow eL = window -> adopts window x tL = true ->
  Forall (fun r => reads r.1.1 m r.1.2 r.2 /\ Digest r.1.2 = Digest sent) after ->
  let s0 := (observe_before (ID m) cfg mode e0 s).2 in
  let '(states, s') := follow m c (map (fun r => r.1.1) before ++ eL :: map (fun r => r.1.1) after) s0 in
  Forall fine states /\ exists b', bases s' !! ID m = Some (Some b') /\ landed m sent b'.
Proof.
  intros x Hkey Hcalm Hclock Hb Hd Hs Ho Hmode Hsnap Hne Htext Hren Hrn Hbefore HL HwL HaL Hafter s0.
  pose proof (Snapshot_ok cfg sent Hsnap) as [Hdig _].
  assert (wp e0 (observe_before (ID m) cfg mode) (fun _ s' => exists b', bases s' !! ID m = Some (Some b') /\ waiting m x b' /\
     b_digest b' = b_digest b /\ b_snapshot b' = b_snapshot b) s) as Hw.
  { unfold observe_before. rewrite (bool_decide_eq_false_2 _ Hmode), Hsnap. apply drift_wp_bind, wp_ask. rewrite Hclock.
    apply drift_wp_bind. eapply drift_wp_mono; [by apply (expect_waiting m x Hkey e0 b)|]. by intros stored s' Hs'. }
  assert (exists b', bases s0 !! ID m = Some (Some b') /\ waiting m x b' /\ b_digest b' = b_digest b /\
     b_snapshot b' = b_snapshot b) as (b1 & Hb1 & Hwait & Hdb & Hsb).
  { unfold s0. unfold wp in Hw. by destruct (observe_before (ID m) cfg mode e0 s). }
  assert (Forall (before_landing m x window b1) before) as Hbefore1.
  { eapply Forall_impl; [exact Hbefore|]. intros [[e sn] t]. unfold before_landing. by rewrite Hdb, Hsb. }
  destruct (follow_before m x window Hkey c b1 before (eL :: map (fun r => r.1.1) after) s0 Hb1 Hwait Hbefore1)
    as (sts & s1 & Hsts & Hs1 & ->). cbn [follow].
  rewrite <- Hsb in Hren.
  pose proof (read_step m eL c _ _ s1 (read_landing m x window Hkey eL c sent tL b1 rn s1 HL HwL Hs1 Hwait eq_refl Hdig
    Htext Hren Hrn HaL)) as Hrest.
  pose proof (at_rest_shown _ _ _ _ Hrest) as Hsh. destruct Hrest as [_ (b2 & Hb2 & Hland)].
  pose proof (follow_after m Hkey c sent b2 after _ Hb2 Hland Hafter) as Hfa.
  destruct (follow m c (map (fun r => r.1.1) after) _) as [sts2 s2]. destruct Hfa as [Hsts2 Hs2]. cbn [fst snd].
  split; [|by exists b2]. apply Forall_app. split; [done|]. constructor; [by rewrite Hsh; left|done].
Qed.

(* ------------------------------------------------------------------ *)
(** ** A confirmation covers what was seen *)

Section Confirm.
Context `{Machinery} (e : env) (id digest : string).

(** The directory is the service's own, and a write that failed left the old
    file. *)
Definition exclusive : Prop := (forall n f, e_files e n f = f) /\ (forall n, e_fault e n <> FaultAfter).

Definition trusted_or_absent (f : base_files) : Prop :=
  match f !! id with
  | Some (Some b) => damageOf b id = ""
  | Some None => False
  | None => True
  end.

Definition confirmed (f0 : base_files) (r : result confirm_error unit) (s' : Service) : Prop :=
  match r with
  | Ok _ =>
      (exists b rd mm, bases s' !! id = Some (Some b) /\ confirmable_in mm id digest = Ok rd /\
         b_snapshot b = Text (snap rd) /\ b_digest b = digest /\ b_source b = BaselineConfirmed /\
         b_since b = zero_time /\ b_applied_on b = zero_time /\ b_expected b = None) /\
      (exists r, readings (mem s') !! id = Some r /\ state r <> StateDrift /\ since r = zero_time) /\
      (exclusive -> trusted_or_absent f0)
  | Err _ => exclusive -> bases s' = f0
  end.

Lemma confirmable_digest mm rd :
  confirmable_in mm id digest = Ok rd -> state rd = StateDrift /\ isDigest digest = true /\ Digest (snap rd) = digest.
Proof.
  unfold confirmable_in. destruct (readings mm !! id) as [r|]; [|done]. destruct (_ || _); [done|].
  destruct (bool_decide (state r = StateDrift)) eqn:Es; [|done]. cbn [negb].
  destruct (isDigest digest); [|done]. destruct (bool_decide (digest = _)) eqn:Ed; [|done]. intros [= <-].
  apply bool_decide_eq_true in Es, Ed. done.
Qed.

Lemma wp_markConfirmed m c text s :
  wp e (markConfirmed m c text) (fun _ s' => bases s' = bases s /\
    exists r, readings (mem s') !! ID m = Some r /\ state r <> StateDrift /\ since r = zero_time) s.
Proof.
  unfold markConfirmed. apply drift_wp_bind, wp_locked. intros s1 Hb1 Hm1.
  set (cur := default _ _) in *. set (next := mkReading _ _ _ _ zero_time _ _ _) in *.
  assert (exists r, readings (mem s1) !! ID m = Some r /\ state r <> StateDrift /\ since r = zero_time) as Hr.
  { exists next. rewrite Hm1. split; [apply lookup_insert_eq|]. split; [|done]. unfold next. cbn.
    case_bool_decide; done. }
  destruct (put m next _) as [[] mm']; cbn [fst snd].
  - apply wp_log. intros s2 Hb2 Hm2. rewrite Hb2, Hm2. done.
  - by apply drift_wp_ret.
Qed.

Lemma wp_confirm_loop n m f0 s :
  ID m = id -> (exclusive -> bases s = f0) -> wp e (confirm_loop n m id digest) (confirmed f0) s.
Proof.
  intros Hm. revert s. induction n as [|n IH]; intros s Hf0; cbn [confirm_loop]; [by apply drift_wp_ret|].
  apply drift_wp_bind, wp_locked. intros s1 Hb1 _. cbn [fst].
  destruct (confirmable_in (e_mem e (tick s) (mem s)) id digest) as [rd|err] eqn:Hlook;
    [|apply drift_wp_ret; intros Hex; rewrite Hb1; auto].
  pose proof (confirmable_digest _ _ Hlook) as (_ & _ & Hdig).
  apply drift_wp_bind, wp_ask, drift_wp_bind, wp_config, drift_wp_bind, drift_wp_get. intros r s2 Hb2 _ Hok Hnf. cbn [bump bases tick] in Hb2.
  assert (exclusive -> bases s2 = f0) as Hf2 by (intros Hex; rewrite Hb2, (proj1 Hex), Hb1; auto).
  assert (forall rev, (exclusive -> trusted_or_absent f0) -> wp e
    (r ← base_put (mkBaseline id rev BaselineFormat (MCluster m) (Text (snap rd)) (Digest (snap rd)) (e_clock e (tick s1))
                     BaselineConfirmed (versionTag e) zero_time zero_time None);
     match r with
     | Ok saved => _ ← markConfirmed m (cluster rd) (sentenceOK saved); mret (Ok tt)
     | Err ErrConflict => confirm_loop n m id digest
     | Err err => mret (Err (ErrBaselineStore err))
     end) (confirmed f0) s2) as Hwrite.
  { intros rev Htr. apply drift_wp_bind, wp_put. intros [saved|err] s3 _ Hput.
    - destruct Hput as [[_ Hno]|[Hb3 [[= ->]|[[=] _]]]]; [by destruct (Hno saved)|].
      apply wp_seq. eapply drift_wp_mono; [apply wp_markConfirmed|]. intros u s4 [Hb4 Hr4]. rewrite Hm in Hr4.
      split; [|by split]. eexists _, rd, _. split; [rewrite Hb4, Hb3; apply lookup_insert_eq|]. split; [exact Hlook|]. done.
    - assert (exclusive -> bases s3 = f0) as Hf3.
      { intros Hex. destruct Hput as [[Hb3 _]|[_ [[=]|[_ Hfa]]]]; [by rewrite Hb3, (proj1 Hex); auto|by destruct (proj2 Hex _ Hfa)]. }
      destruct err; try (by apply drift_wp_ret). by apply IH. }
  destruct r as [b|err].
  - case_bool_decide as Hdam; cbn [negb]; [|by apply drift_wp_ret]. apply Hwrite. intros Hex. unfold trusted_or_absent.
    rewrite <- (Hf2 Hex), (Hok b eq_refl). done.
  - destruct err; try (by apply drift_wp_ret). apply Hwrite. intros Hex. unfold trusted_or_absent.
    rewrite <- (Hf2 Hex). by destruct (Hnf eq_refl) as [_ ->].
Qed.

End Confirm.

(** a confirmation covers exactly what was seen. Under every interleaving: when
    [Confirm] succeeds there was a moment after the request at which the node was in
    drift and its last reading had the digest the operator sent; the baseline on
    disk is that reading, confirmed and with no deviation, and the node is no longer
    shown as drifting. With the data directory to itself, a baseline that cannot be
    trusted is never overwritten by it, and a refused or failed confirmation changes
    nothing on disk. *)
Theorem confirm_only_seen `{Machinery} (e : env) id digest s r s' :
  Confirm id digest e s = (r, s') -> confirmed e id digest (bases s) r s'.
Proof.
  assert (wp e (Confirm id digest) (confirmed e id digest (bases s)) s) as Hw; [|by apply (drift_wp_run _ _ _ _ _ _ Hw)].
  unfold Confirm, findMachine. apply drift_wp_bind, drift_wp_bind, wp_ask, drift_wp_ret.
  destruct (e_all e (tick s)) as [l|err]; [|by apply drift_wp_ret].
  assert (forall m, find_by_id id l = Some m -> ID m = id) as Hfind.
  { intros m. induction l as [|m' l IH]; [done|]. cbn. case_bool_decide; [by intros [= <-]|done]. }
  destruct (find_by_id id l) as [m|]; [|by apply drift_wp_ret]. specialize (Hfind m eq_refl).
  apply drift_wp_bind, wp_locked. intros s1 Hb1 _. destruct (confirmable_in _ id digest) as [rd|err]; [|apply drift_wp_ret; intros _; exact Hb1].
  apply wp_confirm_loop; [done|]. by intros _.
Qed.

(* ------------------------------------------------------------------ *)
(** ** Clearing up *)

Section Reconcile.
Context `{Machinery} (e : env) (Hcalm : calm e).

Definition removed (known : gmap string string) (l : list ConfigBaseline) (k : string) : bool :=
  existsb (fun b => bool_decide (b_machine b = k) && negb (stays known b)) l.

Lemma wp_delete_calm k (Q : result store_error unit -> Service -> Prop) s :
  safeKey k = true ->
  (forall r s', bases s' = delete k (bases s) -> (r = Ok tt \/ r = Err ErrNotFound) -> Q r s') ->
  wp e (base_delete k) Q s.
Proof.
  intros Hk HQ. destruct Hcalm as [Hf Hfiles]. unfold wp, base_delete. cbn [before_call with_bases bases tick].
  rewrite Hf, Hfiles. unfold store_delete. rewrite Hk. cbn [negb]. destruct (bases s !! k) eqn:E; apply HQ; auto.
  cbn. by rewrite delete_id.
Qed.

Lemma wp_reconcile_loop known l s :
  (forall b, b ∈ l -> safeKey (b_machine b) = true) ->
  wp e (reconcile_loop known l)
    (fun _ s' => forall k, bases s' !! k = if removed known l k then None else bases s !! k) s.
Proof.
  revert s. induction l as [|b l IH]; intros s Hsafe; cbn [reconcile_loop]; [by apply drift_wp_ret|].
  assert (forall b', b' ∈ l -> safeKey (b_machine b') = true) as Hl by (intros; apply Hsafe; by right).
  destruct (stays known b) eqn:Hst.
  - eapply drift_wp_mono; [by apply IH|]. intros u s' Hs' k. rewrite Hs'. cbn. by rewrite Hst, andb_false_r.
  - apply drift_wp_bind, wp_delete_calm; [apply Hsafe; by left|]. intros r s1 Hb1 Hr.
    assert (wp e (_ ← Log (LNote "removed the baseline of a machine that is gone or moved" (b_machine b));
       _ ← locked (fun mm => (tt, drop_reading (b_machine b) mm)); reconcile_loop known l)
       (fun _ s' => forall k, bases s' !! k = if removed known (b :: l) k then None else bases s !! k) s1) as Hgo.
    { apply drift_wp_bind, wp_log. intros s2 Hb2 _. apply drift_wp_bind, wp_locked. intros s3 Hb3 _.
      eapply drift_wp_mono; [by apply IH|]. intros u s' Hs' k. rewrite Hs', Hb3, Hb2, Hb1. cbn. rewrite Hst.
      destruct (decide (b_machine b = k)) as [->|Hne].
      - rewrite (bool_decide_eq_true_2 _ eq_refl), lookup_delete_eq. cbn. by destruct (removed known l k).
      - rewrite (bool_decide_eq_false_2 _ Hne), lookup_delete_ne by done. done. }
    by destruct Hr as [-> | ->].
Qed.

End Reconcile.

Lemma store_list_damaged (f : base_files) k :
  f !! k = Some None -> exists err, store_list NoFault f = Err err.
Proof.
  intros Hk. unfold store_list. destruct (read_all _) as [l|err] eqn:Hr; [|by eexists].
  apply read_all_ok in Hr. exfalso.
  assert (None ∈ omap (fun id => f !! id) (merge_sort file_le (elements (dom f)))) as Hin.
  { apply list_elem_of_omap. exists k. split; [|done]. rewrite merge_sort_Permutation, elem_of_elements.
    by eapply elem_of_dom_2. }
  rewrite Hr in Hin. apply list_elem_of_fmap in Hin as (b & [=] & _).
Qed.

Lemma store_list_readable (f : base_files) :
  (forall k, f !! k <> Some None) -> exists l, store_list NoFault f = Ok l.
Proof.
  intros Hall. unfold store_list.
  assert (None ∉ omap (fun id => f !! id) (merge_sort file_le (elements (dom f)))) as Hn.
  { intros (k & _ & Hk)%list_elem_of_omap. by destruct (Hall k). }
  induction (omap _ _) as [|[b|] cells IH]; cbn; [by eexists| |set_solver].
  fold (read_all cells). destruct IH as [l ->]; [set_solver|]. by eexists.
Qed.

(** clearing up removes exactly the baselines of machines that are gone or
    moved, and only when both lists are known. When the inventory cannot be listed,
    or one file in the directory does not decode, nothing goes. Otherwise a baseline
    stays when its machine is in the inventory in the baseline's cluster, and every
    other one is removed. *)
Theorem reconcile_removes_exactly `{Machinery} (e : env) s u s' :
  calm e -> keyed (bases s) -> (forall k, is_Some (bases s !! k) -> safeKey k = true) ->
  reconcile e s = (u, s') ->
  match e_all e (tick s) with
  | Err _ => bases s' = bases s
  | Ok machines =>
      ((exists k, bases s !! k = Some None) -> bases s' = bases s) /\
      ((forall k, bases s !! k <> Some None) -> forall k,
         bases s' !! k = match bases s !! k with
                         | Some (Some b) => if stays (cluster_of machines) b then Some (Some b) else None
                         | other => other
                         end)
  end.
Proof.
  intros Hcalm Hkey Hsafe Hrun. pattern s'.
  match goal with |- ?P s' => apply (drift_wp_run e reconcile (fun _ => P) s u s'); [clear s' Hrun|exact Hrun] end.
  unfold reconcile. apply drift_wp_bind, wp_ask.
  destruct (e_all e (tick s)) as [machines|err]; [|by apply wp_log].
  apply drift_wp_bind, wp_list. intros r s1 Hb1 _ Hl. rewrite (proj1 Hcalm) in Hl. rewrite (proj2 Hcalm) in Hb1. cbn [bump bases] in Hb1.
  destruct r as [l|err].
  - pose proof Hl as Hl2. rewrite Hb1 in Hl. apply (@store_list_ok ConfigBaseline baseline_record _ _ _ Hkey) in Hl as [_ Hin].
    eapply drift_wp_mono; [apply (wp_reconcile_loop e Hcalm)|].
    { intros b Hb. apply Hsafe. apply Hin in Hb. by eexists. }
    intros u' s2 Hs2. split.
    + intros (k & Hk). rewrite <- Hb1 in Hk. destruct (store_list_damaged _ _ Hk) as [err He]. congruence.
    + intros Hall k. rewrite Hs2, Hb1. destruct (removed _ l k) eqn:Hrem.
      * unfold removed in Hrem. apply existsb_exists in Hrem as (b & Hb%list_elem_of_In & Hkb).
        apply andb_true_iff in Hkb as [Hk Hst]. apply bool_decide_eq_true in Hk. apply negb_true_iff in Hst.
        apply Hin in Hb. cbn in Hb. rewrite Hk in Hb. by rewrite Hb, Hst.
      * destruct (bases s !! k) as [[b|]|] eqn:Hk; [|by destruct (Hall k)|done].
        destruct (stays (cluster_of machines) b) eqn:Hst; [done|]. exfalso. apply not_true_iff_false in Hrem.
        apply Hrem. unfold removed. apply existsb_exists. exists b. pose proof (Hkey _ _ Hk) as Hm. split.
        -- apply list_elem_of_In, Hin. cbn. by rewrite Hm.
        -- by rewrite (bool_decide_eq_true_2 _ Hm), Hst.
  - apply wp_log. intros s2 Hb2 _. rewrite Hb2. split; [done|]. intros Hall. exfalso.
    rewrite Hb1 in Hl. by destruct (store_list_readable (bases s) Hall) as [l Hok]; rewrite Hok in Hl.
Qed.

(* ------------------------------------------------------------------ *)
(** ** The card of a cluster *)

Lemma oldest_of_spec items best :
  (forall b, best = Some b -> Drifting b = true) ->
  let pick := foldl (fun best it => if Drifting it then
                       match best with
                       | Some b => if bool_decide (i_since it < i_since b)%Z then Some it else best
                       | None => Some it
                       end else best) best items in
  match pick with
  | Some it => (it ∈ items \/ best = Some it) /\ Drifting it = true /\
      (forall it', it' ∈ items \/ best = Some it' -> Drifting it' = true -> (i_since it <= i_since it')%Z)
  | None => best = None /\ forall it, it ∈ items -> Drifting it = false
  end.
Proof.
  revert best. induction items as [|it items IH]; intros best Hbest; cbn.
  { destruct best as [b|]; [|split; [done|]; by intros it Hit%elem_of_nil]. split; [by right|]. split; [auto|].
    intros it' [Hit|[= <-]] _; [by apply elem_of_nil in Hit|lia]. }
  destruct (Drifting it) eqn:Hd.
  - set (best' := match best with Some b => _ | None => _ end).
    assert (exists b', best' = Some b' /\ (b' = it \/ best = Some b') /\ Drifting b' = true /\ (i_since b' <= i_since it)%Z /\
       forall b, best = Some b -> (i_since b' <= i_since b)%Z) as (b' & Hb' & Hor & Hdb & Hle & Hlb).
    { unfold best'. destruct best as [b|]; [case_bool_decide|].
      - exists it. split_and!; auto; [lia|]. intros ? [= <-]. lia.
      - exists b. split_and!; auto; [lia|]. intros ? [= <-]. lia.
      - exists it. split_and!; auto; [lia|done]. }
    specialize (IH best'). cbn zeta in IH. destruct (foldl _ best' items) as [o|].
    + destruct IH as (Hin & Ho & Hmin); [intros b Hb; congruence|]. split; [|split; [done|]].
      * destruct Hin as [Hin|Hin]; [left; by right|]. rewrite Hb' in Hin. injection Hin as <-.
        destruct Hor as [-> |]; [left; by left|by right].
      * intros it' [[->|Hin']%elem_of_cons|Hin'] Hd'.
        -- specialize (Hmin b' (or_intror Hb') Hdb). lia.
        -- apply Hmin; [by left|done].
        -- specialize (Hmin b' (or_intror Hb') Hdb). specialize (Hlb it' Hin'). lia.
    + destruct IH as [Hn _]; [intros b Hb; congruence|]. congruence.
  - specialize (IH best Hbest). cbn zeta in IH. destruct (foldl _ best items) as [o|].
    + destruct IH as (Hin & Ho & Hmin). split; [destruct Hin; [left; by right|by right]|]. split; [done|].
      intros it' [[->|Hin']%elem_of_cons|Hin'] Hd'; [congruence|apply Hmin; [by left|done]|apply Hmin; [by right|done]].
    + destruct IH as [Hn Hall]. split; [done|]. intros it' [->|Hin']%elem_of_cons; [done|auto].
Qed.

Lemma banner_window t u : (BannerAfter <= time_sub t u <-> BannerAfter <= t - u)%Z.
Proof.
  pose proof (time_sub_lt t u BannerAfter) as Hlt. assert (0 < BannerAfter)%Z by done. assert (BannerAfter <= max_int64)%Z by done. lia.
Qed.

#[local] Instance item_le_total : Total item_le.
Proof.
  intros a b. unfold item_le. rewrite (bool_decide_ext (i_node b = i_node a) (i_node a = i_node b)) by naive_solver.
  case_bool_decide as E.
  - unfold str_le. destruct (str_lt_total (i_machine a) (i_machine b)) as [-> |[Hl|Hl]]; [left; apply str_lt_irrefl| |].
    + left. apply not_true_iff_false. intros Hr. pose proof (str_lt_trans _ _ _ Hl Hr) as Ht. by rewrite str_lt_irrefl in Ht.
    + right. apply not_true_iff_false. intros Hr. pose proof (str_lt_trans _ _ _ Hl Hr) as Ht. by rewrite str_lt_irrefl in Ht.
  - destruct (str_lt_total (i_node a) (i_node b)) as [|[|]]; [done|by left|by right].
Qed.

(** the card of a cluster leaves no node out and its banner is not lost. There
    is a card exactly when a pass has been through the cluster. It has one entry
    for every node of that pass, in the order of the host names: what its reading
    in this cluster says, and "not read" when there is none. The banner is up
    exactly when some entry, in whatever state, has had a deviation for at least a
    day -- so a node that stopped answering while it drifts keeps it -- and then
    the warning speaks of the oldest one. *)
Theorem HealthFor_spec c t s :
  match passes s !! CID c, HealthFor c t s with
  | None, None => True
  | Some p, Some h =>
      Items h ≡ₚ map (item_of (CID c) (readings (mem s))) (map_to_list (members p)) /\
      Sorted item_le (Items h) /\ Nodes h = Z.of_nat (size (members p)) /\
      (Banner h = true <->
       exists it, it ∈ Items h /\ i_since it <> zero_time /\ (BannerAfter <= t - i_since it)%Z) /\
      (Banner h = true -> exists it, it ∈ Items h /\ Warning h = bannerSentence (CName c) it (Drifted h - 1) /\
         forall it', it' ∈ Items h -> i_since it' <> zero_time -> (i_since it <= i_since it')%Z)
  | _, _ => False
  end.
Proof.
  unfold HealthFor. destruct (passes s !! CID c) as [p|]; [|done]. cbn [Items Nodes Banner Warning Drifted].
  set (items := merge_sort item_le _). assert (items ≡ₚ map (item_of (CID c) (readings (mem s))) (map_to_list (members p))) as Hperm
    by apply merge_sort_Permutation.
  split; [done|]. split; [apply (Sorted_merge_sort item_le)|]. split.
  { rewrite Hperm, length_map, length_map_to_list. done. }
  pose proof (oldest_of_spec items None ltac:(done)) as Ho. cbn zeta in Ho. fold (oldest_of items) in Ho.
  assert (forall it, Drifting it = true <-> i_since it <> zero_time) as Hdr.
  { intros it. unfold Drifting. rewrite negb_true_iff. apply is_zero_false. }
  destruct (oldest_of items) as [it|].
  - destruct Ho as ([Hin|[=]] & Hd & Hmin). split.
    + rewrite bool_decide_eq_true, banner_window. split.
      * intros Hb. exists it. split; [done|]. split; [by apply Hdr|done].
      * intros (it' & Hin' & Hd' & Hb'). specialize (Hmin it' (or_introl Hin') (proj2 (Hdr it') Hd')). lia.
    + intros ->. exists it. split; [done|]. split; [done|]. intros it' Hin' Hd'. apply Hmin; [by left|by apply Hdr].
  - destruct Ho as [_ Hall]. split; [|done]. split; [done|]. intros (it & Hin & Hd & _).
    apply Hdr in Hd. rewrite (Hall it Hin) in Hd. done.
Qed.

(* ------------------------------------------------------------------ *)
(** ** Witnesses *)

(** An outside world that answers the same all the time. *)
Definition steady (t : time) (sn : Snap) (all : list Machine) : env :=
  mkEnv (fun _ => NoFault) (fun _ f => f) (fun _ mm => mm) (fun _ => t) (fun _ => false)
    (fun _ _ => Ok sn) (fun _ => Ok all) (fun _ => Ok [mkCluster "c" "c" false]) (fun _ _ => Ok all)
    DefaultSettleWindow "v1" (fun _ => "").

Definition m1 : Machine := mkMachine "m1" "node-1" "c" false.
Definition plain (t : string) : Snap := mkSnap t t.
Definition base_one (from : time) : ConfigBaseline :=
  mkBaseline "m1" 4 BaselineFormat "c" "one" "one" 10 BaselineFirstSight "v1" from 0 None.
Definition served (b : ConfigBaseline) (rs : gmap string reading) : Service :=
  mkService {[ "m1" := Some b ]} (mkMemory rs ∅) ∅ [] [] 0.

Lemma pair_with {A B} (p : A * B) a : p.1 = a -> p = (a, p.2).
Proof. intros <-. by destruct p. Qed.

Lemma one_again : Snapshot (H := toy_machinery) "one" = Ok (plain "one").
Proof. by vm_compute. Qed.

(** The baseline says one, the node says two. *)
Lemma verdict_on_record_witness :
  let e := steady 20 (plain "two") [m1] in
  let s' := (readNode (H := toy_machinery) "c" m1 e (served (base_one 0) ∅)).2 in
  shown m1 s' = StateDrift /\
  exists r, readings (mem s') !! "m1" = Some r /\
    exists b, bases s' !! "m1" = Some (Some b) /\ verdict e (snap r) (at_ r) (state r) (since r) b.
Proof.
  cbn zeta. split; [by vm_compute|].
  destruct (verdict_on_record (H := toy_machinery) (steady 20 (plain "two") [m1]) "c" m1 (served (base_one 0) ∅) true
    (readNode (H := toy_machinery) "c" m1 (steady 20 (plain "two") [m1]) (served (base_one 0) ∅)).2)
    as (r & Hr & _ & b & Hb & Hv).
  - intros n. discriminate.
  - apply pair_with. by vm_compute.
  - exists r. split; [exact Hr|]. exists b. by split.
Defined.

(** Reads that find two, a pass that fails and a restart: the deviation from time
    15 is still open. *)
Definition bad_days : list (env * op) :=
  [(steady 20 (plain "two") [m1], ORead "c" m1); (steady 30 (plain "two") [m1], ORestart);
   (steady 40 (plain "two") [m1], OTick); (steady 50 (plain "three") [m1], ORead "c" m1)].

Lemma open_deviation_persists_witness :
  exists b, bases (history (H := toy_machinery) bad_days (served (base_one 15) ∅)) !! "m1" = Some (Some b) /\
    b_snapshot b = "one" /\ b_since b = 15%Z.
Proof.
  destruct (open_deviation_persists (H := toy_machinery) bad_days (base_one 15) (served (base_one 15) ∅))
    as (b & Hb & Hs & _ & _ & _ & Hf).
  - discriminate.
  - intros k b Hk. cbn in Hk. apply lookup_singleton_Some in Hk as [<- [= <-]]. reflexivity.
  - reflexivity.
  - intros eo Hin. assert (exists t x o, eo = (steady t (plain x) [m1], o) /\ x <> "one" /\ ends_it (base_one 15) o = false)
      as (t & x & o & -> & Hx & Ho).
    { repeat (apply elem_of_cons in Hin as [->|Hin]; [by eexists _, _, _|]). by apply elem_of_nil in Hin. }
    split; [|exact Ho]. split; [done|]. split; [|intros n l [= <-]; reflexivity].
    intros n sn [= <-]. cbn. split; [done|]. intros rn Hrn.
    pose proof (eq_trans (eq_sym one_again) Hrn) as [= <-]. cbn. congruence.
  - exists b. split; [exact Hb|]. split; [exact Hs|exact Hf].
Defined.

(** A staged apply of two: read as one, and then, much later, as two. *)
Lemma own_apply_is_no_drift_witness :
  let x := mkExpected "two" modeStaged 20 in
  let s0 := (observe_before (H := toy_machinery) "m1" "two" modeStaged (steady 20 (plain "two") [m1]) (served (base_one 0) ∅)).2 in
  let '(states, s') := follow (H := toy_machinery) m1 "c"
     [steady 30 (plain "one") [m1]; steady (1000 * hour)%Z (plain "two") [m1]] s0 in
  Forall fine states /\ exists b', bases s' !! "m1" = Some (Some b') /\ landed (H := toy_machinery) m1 (plain "two") b'.
Proof.
  apply (own_apply_is_no_drift (H := toy_machinery) "c" m1 (steady 20 (plain "two") [m1]) "two" modeStaged (plain "two") 20
    DefaultSettleWindow (base_one 0) (served (base_one 0) ∅) [(steady 30 (plain "one") [m1], plain "one", 30%Z)]
    (steady (1000 * hour)%Z (plain "two") [m1]) (1000 * hour)%Z [] (plain "one")); try done.
  constructor; [|constructor]. split; [done|]. split; [done|]. split; [done|]. by left.
Defined.

(** A digest as the program writes it. *)
Definition long : string := "0123456789abcdef0123456789abcdef0123456789abcdef0123456789abcdef".
Definition drifting : reading := mkReading StateDrift 20 20 (plain long) 20 "" "c" "node-1".

Lemma confirm_only_seen_witness :
  let out := Confirm (H := toy_machinery) "m1" long (steady 30 (plain long) [m1]) (served (base_one 20) {[ "m1" := drifting ]}) in
  out.1 = Ok tt /\
  exists b, bases out.2 !! "m1" = Some (Some b) /\ b_digest b = long /\ b_source b = BaselineConfirmed.
Proof.
  set (e := steady 30 (plain long) [m1]). set (s := served (base_one 20) {[ "m1" := drifting ]}). cbn zeta.
  assert ((Confirm (H := toy_machinery) "m1" long e s).1 = Ok tt) as Hok by by vm_compute. split; [exact Hok|].
  pose proof (confirm_only_seen (H := toy_machinery) e "m1" long s (Ok tt) (Confirm (H := toy_machinery) "m1" long e s).2) as Hc.
  destruct Hc as [(b & rd & mm & Hb & _ & _ & Hd & Hsrc & _) _].
  - apply pair_with. exact Hok.
  - exists b. split; [exact Hb|]. by split.
Defined.

(** One machine is left and another is gone. *)
Definition two_bases : base_files :=
  {[ "m1" := Some (base_one 0);
     "gone" := Some (mkBaseline "gone" 1 BaselineFormat "c" "one" "one" 10 BaselineFirstSight "v1" 0 0 None) ]}.

Lemma reconcile_removes_exactly_witness :
  let s' := (reconcile (steady 20 (plain "one") [m1]) (mkService two_bases (mkMemory ∅ ∅) ∅ [] [] 0)).2 in
  bases s' !! "m1" = Some (Some (base_one 0)) /\ bases s' !! "gone" = None.
Proof.
  set (e := steady 20 (plain "one") [m1]). set (s := mkService two_bases (mkMemory ∅ ∅) ∅ [] [] 0). cbn zeta.
  assert (forall k o, bases s !! k = Some o -> k = "m1" /\ o = Some (base_one 0) \/
     k = "gone" /\ o = Some (mkBaseline "gone" 1 BaselineFormat "c" "one" "one" 10 BaselineFirstSight "v1" 0 0 None)) as Hall.
  { intros k o Hk. cbn in Hk. unfold two_bases in Hk. apply lookup_insert_Some in Hk as [[<- <-]|[_ Hk]]; [by left|].
    apply lookup_singleton_Some in Hk as [<- <-]. by right. }
  pose proof (reconcile_removes_exactly (H := toy_machinery) e s (reconcile e s).1 (reconcile e s).2) as Hr.
  destruct Hr as [_ Hr].
  - done.
  - intros k b Hk. destruct (Hall k _ Hk) as [[-> [= ->]]|[-> [= ->]]]; reflexivity.
  - intros k [o Hk]. destruct (Hall k o Hk) as [[-> _]|[-> _]]; reflexivity.
  - by destruct (reconcile e s).
  - split; (rewrite Hr; [reflexivity|]); intros k Hk; destruct (Hall k _ Hk) as [[_ Ho]|[_ Ho]]; discriminate Ho.
Defined.
