(* ===== verification/Power.v ===== *)
(** * Power: the seven verbs and their rules

    [src/internal/power/power.go], [rules.go], [app.go] and the reading and
    submitting half of [service.go]: from what was read, which of the seven
    actions may be pressed on a node, a cluster or an app, and why not; the same
    rules gate the request that performs one. *)

From S2P Require Import Prelude GoText Effects Gate KubeApps.

(* ------------------------------------------------------------------ *)
(** ** power.go *)

Inductive Action := Stop | ForceStop | Start | Disable | Enable | Restart | ForceRestart.

#[global] Instance Action_eq_dec : EqDecision Action.
Proof. solve_decision. Defined.

Definition action_text (a : Action) : string :=
  match a with
  | Stop => "stop" | ForceStop => "force-stop" | Start => "start" | Disable => "disable" | Enable => "enable"
  | Restart => "restart" | ForceRestart => "force-restart"
  end.

Definition Actions : list Action := [Stop; ForceStop; Start; Disable; Enable; Restart; ForceRestart].

Definition Sudo (a : Action) : bool := bool_decide (a = ForceStop) || bool_decide (a = ForceRestart).

(** [strings.EqualFold(s, t)] for a [t] of ASCII letters and signs: besides the
    two cases of a letter, the Kelvin sign folds to k and the long s to s. *)
Fixpoint fold_ascii (s : string) : string :=
  match s with
  | EmptyString => EmptyString
  | String a ((String b s') as t) =>
      if bool_decide (nat_of_ascii a = 197) && bool_decide (nat_of_ascii b = 191) then String "s" (fold_ascii s')
      else
        match s' with
        | String c s'' =>
            if bool_decide (nat_of_ascii a = 226) && bool_decide (nat_of_ascii b = 132) && bool_decide (nat_of_ascii c = 170)
            then String "k" (fold_ascii s'')
            else String (lower_ascii a) (fold_ascii t)
        | EmptyString => String (lower_ascii a) (fold_ascii t)
        end
  | String a EmptyString => String (lower_ascii a) EmptyString
  end.
Definition equal_fold_word (s t : string) : bool := bool_decide (fold_ascii s = to_lower t).

(** The loops of [ParseAction] and [ParseAppKind]. *)
Fixpoint parse_word {A} (text : A -> string) (l : list A) (s : string) : option A :=
  match l with
  | [] => None
  | a :: l' => if equal_fold_word s (text a) then Some a else parse_word text l' s
  end.
Definition ParseAction (s : string) : option Action := parse_word action_text Actions s.

Inductive PState := StateRunning | StateStopped | StatePartial | StateDisabled | StateUnknown.

#[global] Instance PState_eq_dec : EqDecision PState.
Proof. solve_decision. Defined.

Record ActionStatus := mkStatus { as_action : Action; as_available : bool; as_reason : string; as_sudo : bool }.
Record Report := mkReport { r_state : PState; r_disabled : bool; r_actions : list ActionStatus }.

Definition no_action : string := "That is not an action.".

(** The loop of [Available]. *)
Fixpoint status_of (a : Action) (l : list ActionStatus) : bool * string :=
  match l with
  | [] => (false, no_action)
  | s :: l' => if bool_decide (as_action s = a) then (as_available s, as_reason s) else status_of a l'
  end.
Definition Available (r : Report) (a : Action) : bool * string := status_of a (r_actions r).

Definition report (state : PState) (disabled : bool) (whyNot : Action -> string) : Report :=
  mkReport state disabled
    (map (fun a => mkStatus a (bool_decide (whyNot a = "")) (whyNot a) (Sudo a)) Actions).

Definition ReasonRunning : string := "It is running.".
Definition ReasonAlreadyStopped : string := "It is already stopped.".
Definition ReasonNotRunning : string := "It is not running; start it instead.".
Definition ReasonDisabled : string := "Disabled — enable it first.".
Definition ReasonAlreadyDisabled : string := "It is already disabled.".
Definition ReasonNotDisabled : string := "It is not disabled.".
Definition ReasonQuorum : string :=
  "Stopping this control-plane node would lose etcd quorum; force-stop does not check.".
Definition ReasonEtcdUnhealthy : string :=
  "etcd is not healthy enough to lose this control-plane node right now; force-stop does not check.".
Definition ReasonClusterDisabled : string := "Its cluster is disabled — enable the cluster first.".
Definition ReasonLocked : string := "This cluster was adopted read-only; unlock it before changing anything on it.".
Definition ReasonNoMAC : string :=
  "No network card address is known for it, so it cannot be woken over the network; power it on by hand.".
Definition ReasonPartial : string := "Some of its nodes are not running; start it first.".
Definition ReasonNoMachines : string := "No machine of this cluster is in the inventory, so there is nothing to switch.".
Definition ReasonNoneAnswer : string := "None of its nodes can be asked whether they are running, so its state is unknown.".
Definition ReasonBarePodStart : string := "A bare pod cannot be started again once deleted.".
Definition ReasonBarePodDisable : string :=
  "A bare pod cannot be disabled: stopping it deletes it, so there is nothing left to mark.".
Definition ReasonBarePodRestart : string := "A bare pod has no controller to restart it.".
Definition ReasonBarePodRecreate : string := "A bare pod has no controller to recreate it.".
Definition ReasonJobFinished : string := "It has already finished.".
Definition ReasonJobRunsOnce : string := "It has finished, and a Job does not run twice.".
Definition ReasonNoRollout : string :=
  "It runs to completion rather than being kept running, so it has no rollout to restart.".

(* ------------------------------------------------------------------ *)
(** ** rules.go: one node *)

Inductive answer := answerUnknown | answerYes | answerNo.

#[global] Instance answer_eq_dec : EqDecision answer.
Proof. solve_decision. Defined.

Record nodeFacts := mkNodeFacts {
  nf_answer : answer;
  nf_unknown : string;
  nf_disabled : bool;
  nf_cluster_disabled : bool;
  nf_cluster_locked : bool;
  nf_cordoned : bool;
  nf_macs : bool;
  nf_gate_refusal : string }.

Definition node_state (f : nodeFacts) : PState :=
  if nf_disabled f then StateDisabled
  else match nf_answer f with answerYes => StateRunning | answerNo => StateStopped | answerUnknown => StateUnknown end.

Definition needsAnswer (f : nodeFacts) : string :=
  match nf_answer f with answerUnknown => nf_unknown f | answerNo => ReasonAlreadyStopped | answerYes => "" end.

Definition node_why_not (f : nodeFacts) (a : Action) : string :=
  if nf_cluster_locked f then ReasonLocked
  else
    match a with
    | Stop => if bool_decide (needsAnswer f <> "") then needsAnswer f else nf_gate_refusal f
    | ForceStop => needsAnswer f
    | Start =>
        if nf_disabled f then ReasonDisabled
        else if nf_cluster_disabled f then ReasonClusterDisabled
        else if bool_decide (nf_answer f = answerUnknown) then nf_unknown f
        else if bool_decide (nf_answer f = answerYes) && negb (nf_cordoned f) then ReasonRunning
        else if bool_decide (nf_answer f = answerNo) && negb (nf_macs f) then ReasonNoMAC
        else ""
    | Disable =>
        if nf_disabled f then ReasonAlreadyDisabled
        else match nf_answer f with answerUnknown => nf_unknown f | answerYes => nf_gate_refusal f | answerNo => "" end
    | Enable =>
        if negb (nf_disabled f) then ReasonNotDisabled
        else if nf_cluster_disabled f then ReasonClusterDisabled
        else ""
    | Restart | ForceRestart =>
        if nf_disabled f then ReasonDisabled
        else match nf_answer f with answerUnknown => nf_unknown f | answerNo => ReasonNotRunning | answerYes => "" end
    end.

Definition nodeReport (f : nodeFacts) : Report := report (node_state f) (nf_disabled f) (node_why_not f).

(* ------------------------------------------------------------------ *)
(** ** rules.go: a cluster *)

Record memberFacts := mkMemberFacts { mf_answer : answer; mf_disabled : bool; mf_cordoned : bool }.
Record clusterFacts := mkClusterFacts { cf_disabled : bool; cf_locked : bool; cf_members : list memberFacts }.

(** The counters of [underlying]: active, yes, no. *)
Definition count_member (acc : Z * Z * Z) (m : memberFacts) : Z * Z * Z :=
  let '(active, yes, no) := acc in
  if mf_disabled m then acc
  else
    match mf_answer m with
    | answerYes => (active + 1, yes + 1, no)
    | answerNo => (active + 1, yes, no + 1)
    | answerUnknown => (active + 1, yes, no)
    end%Z.

Definition underlying (f : clusterFacts) : PState * string :=
  if bool_decide (length (cf_members f) = 0) then (StateUnknown, ReasonNoMachines)
  else
    let '(active, yes, no) := fold_left count_member (cf_members f) (0, 0, 0)%Z in
    if bool_decide (active = 0)%Z then (StateStopped, "")
    else if bool_decide (yes = active) then (StateRunning, "")
    else if bool_decide (no = active) then (StateStopped, "")
    else if bool_decide (yes = 0)%Z && bool_decide (no = 0)%Z then (StateUnknown, ReasonNoneAnswer)
    else (StatePartial, "").

Definition anyAnswering (f : clusterFacts) : bool := existsb (fun m => bool_decide (mf_answer m = answerYes)) (cf_members f).
Definition anyMarked (f : clusterFacts) : bool := existsb (fun m => negb (mf_disabled m) && mf_cordoned m) (cf_members f).

Definition cluster_why_not (f : clusterFacts) (a : Action) : string :=
  let '(under, unknown) := underlying f in
  if cf_locked f then ReasonLocked
  else
    match a with
    | Stop | ForceStop =>
        if anyAnswering f then ""
        else if bool_decide (under = StateUnknown) then unknown
        else ReasonAlreadyStopped
    | Start =>
        if cf_disabled f then ReasonDisabled
        else if bool_decide (under = StateUnknown) then unknown
        else if bool_decide (under = StateRunning) && negb (anyMarked f) then ReasonRunning
        else ""
    | Disable =>
        if cf_disabled f then ReasonAlreadyDisabled
        else if bool_decide (length (cf_members f) = 0) then ReasonNoMachines
        else ""
    | Enable => if negb (cf_disabled f) then ReasonNotDisabled else ""
    | Restart | ForceRestart =>
        if cf_disabled f then ReasonDisabled
        else
          match under with
          | StateRunning => ""
          | StateStopped => ReasonNotRunning
          | StatePartial => ReasonPartial
          | _ => unknown
          end
    end.

Definition clusterReport (f : clusterFacts) : Report :=
  report (if cf_disabled f then StateDisabled else (underlying f).1) (cf_disabled f) (cluster_why_not f).

(* ------------------------------------------------------------------ *)
(** ** rules.go: an app *)

(** [AppKind]: the five kinds of [KubeApps.Kind], and [Pod]. *)
Definition AppKinds : list Kind := [Deployment; StatefulSet; DaemonSet; Job; CronJob; Pod].
Definition ParseAppKind (s : string) : option Kind := parse_word kind_name AppKinds s.

Record appFacts := mkAppFacts { af_kind : Kind; af_locked : bool; af_power : AppPower; af_pod : PodPower }.

Definition app_state (f : appFacts) : PState :=
  match af_kind f with
  | Pod =>
      let p := af_pod f in
      if bool_decide (Phase p = "Succeeded") || bool_decide (Phase p = "Failed") then StateStopped
      else if bool_decide (Phase p = "Running") && PReady p then StateRunning
      else StatePartial
  | _ =>
      let p := af_power f in
      if Disabled p then StateDisabled
      else if Stopped p || Finished p then StateStopped
      else if bool_decide (Desired p <= Ready p)%Z then StateRunning
      else StatePartial
  end.

Definition barePodWhyNot (p : PodPower) (a : Action) : string :=
  if bool_decide (Owner p <> "") then "This pod belongs to " +:+ Owner p +:+ "; stop or start that instead."
  else
    match a with
    | Stop | ForceStop => ""
    | Start => ReasonBarePodStart
    | Disable => ReasonBarePodDisable
    | Enable => ReasonNotDisabled
    | Restart => ReasonBarePodRestart
    | ForceRestart => ReasonBarePodRecreate
    end.

Definition app_why_not (f : appFacts) (a : Action) : string :=
  let p := af_power f in
  if af_locked f then ReasonLocked
  else if bool_decide (af_kind f = Pod) then barePodWhyNot (af_pod f) a
  else
    match a with
    | Stop | ForceStop => if Finished p then ReasonJobFinished else if Stopped p then ReasonAlreadyStopped else ""
    | Start =>
        if Disabled p then ReasonDisabled
        else if Finished p then ReasonJobRunsOnce
        else if negb (Stopped p) then ReasonRunning
        else ""
    | Disable => if Disabled p then ReasonAlreadyDisabled else ""
    | Enable => if negb (Disabled p) then ReasonNotDisabled else ""
    | Restart =>
        if bool_decide (af_kind f = CronJob) || bool_decide (af_kind f = Job) then ReasonNoRollout
        else if Disabled p then ReasonDisabled
        else if Stopped p then ReasonNotRunning
        else ""
    | ForceRestart =>
        if Disabled p then ReasonDisabled
        else if Finished p then ReasonJobFinished
        else if Stopped p then ReasonNotRunning
        else ""
    end.

Definition appReport (f : appFacts) : Report := report (app_state f) (Disabled (af_power f)) (app_why_not f).
