(* ===== verification/PowerService.v ===== *)
(** * Power: the service

    [src/internal/power/service.go] and [RunApp] of [app.go]: reading what the
    rules are computed from, submitting an action under the same rules, the order
    a cluster is walked in, and the changes of records against a store others
    write to. *)

From S2P Require Import Prelude RecordStore Jobs Gate Transport Effects KubeApps KubeDrain NodeActions Wake Power.

(* ------------------------------------------------------------------ *)
(** ** Records *)

Definition RoleControlPlane : string := "controlplane".

(** [model.Machine]: the fields these functions look at or change; the others
    travel with the record. *)
Record MachineRec := mkMachineRec {
  m_id : string;
  m_cluster : string;
  m_hostname : string;
  m_role : string;
  m_addr : string;
  m_disabled : bool;
  m_cordoned : bool;                    (* PowerCordoned *)
  m_interfaces : list InterfaceAddr;    (* Snapshot.Interfaces *)
  m_rest : string;
  m_rev : Z }.

Record ClusterRec := mkClusterRec {
  c_id : string;
  c_endpoint : string;
  c_locked : bool;
  c_disabled : bool;
  c_rest : string;
  c_rev : Z }.

Definition set_machine_rev (v : Z) (m : MachineRec) : MachineRec :=
  mkMachineRec (m_id m) (m_cluster m) (m_hostname m) (m_role m) (m_addr m) (m_disabled m) (m_cordoned m) (m_interfaces m)
    (m_rest m) v.
Definition set_disabled (b : bool) (m : MachineRec) : MachineRec :=
  mkMachineRec (m_id m) (m_cluster m) (m_hostname m) (m_role m) (m_addr m) b (m_cordoned m) (m_interfaces m)
    (m_rest m) (m_rev m).
Definition set_cordoned (b : bool) (m : MachineRec) : MachineRec :=
  mkMachineRec (m_id m) (m_cluster m) (m_hostname m) (m_role m) (m_addr m) (m_disabled m) b (m_interfaces m)
    (m_rest m) (m_rev m).
Definition set_cluster_rev (v : Z) (c : ClusterRec) : ClusterRec :=
  mkClusterRec (c_id c) (c_endpoint c) (c_locked c) (c_disabled c) (c_rest c) v.
Definition set_cluster_disabled (b : bool) (c : ClusterRec) : ClusterRec :=
  mkClusterRec (c_id c) (c_endpoint c) (c_locked c) b (c_rest c) (c_rev c).

#[global] Instance machine_record : Record MachineRec :=
  { rec_key := m_id; rec_rev := m_rev; rec_set_rev := set_machine_rev;
    rec_key_set_rev := fun _ _ => eq_refl; rec_rev_set_rev := fun _ _ => eq_refl }.
#[global] Instance cluster_record : Record ClusterRec :=
  { rec_key := c_id; rec_rev := c_rev; rec_set_rev := set_cluster_rev;
    rec_key_set_rev := fun _ _ => eq_refl; rec_rev_set_rev := fun _ _ => eq_refl }.

(* ------------------------------------------------------------------ *)
(** ** The calls of the service *)

Inductive PowerCall : Type -> Type :=
  | OnMachine {R} (c : NodeCall R) : PowerCall R
  | OnNodes {R} (cluster : string) (c : DrainCall R) : PowerCall R
  | OnApps {R} (cluster : string) (c : KubeCall R) : PowerCall R
  | OnWaker (macs : list (list Z)) : PowerCall (result string WakeReport)
  | KubeClient (cluster : string) : PowerCall (result string unit)
  | ServerVersion (cluster : string) : PowerCall (result string string)
  | GetMachine (id : string) : PowerCall (result store_error MachineRec)
  | PutMachine (rec : MachineRec) : PowerCall (result store_error unit)
  | GetCluster (id : string) : PowerCall (result store_error ClusterRec)
  | PutCluster (rec : ClusterRec) : PowerCall (result store_error unit)
  | ListMachines : PowerCall (result store_error (list MachineRec))
  | ListClusters : PowerCall (result store_error (list ClusterRec))
  | ClusterMachines (cluster : string) : PowerCall (result string (list MachineRec))   (* deps.Machines *)
  | EvaluateGate (cluster taking : string) : PowerCall (result string Verdict)
  | SubmitJob (kind cluster machine params actor : string) : PowerCall (result string string)
  | Sleep (d : duration) : PowerCall bool   (* whether the context ended first *)
  | CtxDone : PowerCall bool                (* ctx.Err() != nil *)
  | Warn (text : string) : PowerCall unit.

Abbreviation P A := (prog PowerCall A) (only parsing).

Definition on_machine {A} (p : prog NodeCall A) : P A := lift (@OnMachine) p.
Definition on_nodes {A} (cluster : string) (p : prog DrainCall A) : P A := lift (fun R => @OnNodes R cluster) p.
Definition on_apps {A} (cluster : string) (p : prog KubeCall A) : P A := lift (fun R => @OnApps R cluster) p.

(* ------------------------------------------------------------------ *)
(** ** service.go *)

Inductive power_error :=
  | ErrNotFound (what : string)
  | UnavailableError (a : Action) (reason : string)
  | EStoreErr (e : store_error)
  | EPower (why : string).

Definition nameOf (m : MachineRec) : string := if bool_decide (m_hostname m <> "") then m_hostname m else m_id m.

Definition macsOf (m : MachineRec) : list string := map mac_string (MACsOf (m_interfaces m)).

Record member := mkMember {
  mb_machine : string;
  mb_hostname : string;
  mb_addr : string;
  mb_role : string;
  mb_answered : bool }.

Definition memberOf (m : MachineRec) (answered : bool) : member :=
  mkMember (m_id m) (nameOf m) (m_addr m) (m_role m) answered.
Definition controlPlane (m : member) : bool := bool_decide (mb_role m = RoleControlPlane).

(** ** Reading *)

Definition unsupported_text : string := "It answers, but runs a Talos version this build does not manage.".
Definition unpinned_text : string :=
  "It answers with a certificate the operator did not confirm, so it is not asked anything.".
Definition refused_text : string := "It answers, but refuses this installation's certificate.".
Definition code_permission_denied : Z := 7%Z.
Definition code_unauthenticated : Z := 16%Z.

Definition probeBudget : duration := (8 * second)%Z.

(** What an error of the probe says about the node. *)
Definition judge_probe (e : node_error) : answer * string :=
  if ne_unsupported e || ne_prerelease e then (answerUnknown, unsupported_text)
  else if ne_pin e then (answerUnknown, unpinned_text)
  else
    match as_talos (ne_err e) with
    | Some (_, _, KindRejected, status) =>
        if bool_decide (status = code_unauthenticated) || bool_decide (status = code_permission_denied)
        then (answerUnknown, refused_text) else (answerNo, "")
    | _ => (answerNo, "")
    end.

Definition probe (id : string) : P (answer * string) :=
  on_machine (
    now ← call Now;
    let ctx := WithTimeout now job_ctx probeBudget in
    c ← call (Connect ctx id);
    v ← match c with
        | Err e => mret (Err e)
        | Ok _ => Probe ctx id
        end;
    mret (match v with Ok _ => (answerYes, "") | Err e => judge_probe e end)).

(** [gateRefusal]; [gated] is [deps.Gate != nil]. *)
Definition gateRefusal (gated : bool) (cluster id : string) : P string :=
  if negb gated then mret ReasonEtcdUnhealthy
  else
    v ← call (EvaluateGate cluster id);
    mret (match v with
          | Err _ => ReasonEtcdUnhealthy
          | Ok v =>
              if VOK v then ""
              else if bool_decide (0 < length (Unreachable (VInput v))) || bool_decide (Voting (VInput v) < MinVotingMembers)%Z
                   then ReasonQuorum
                   else ReasonEtcdUnhealthy
          end).

Definition no_cluster_text : string := "It belongs to no cluster, so there are no credentials to reach it with.".
Definition lost_cluster_text : string :=
  "Its cluster is no longer in the inventory, so there are no credentials to reach it with.".

Definition machineFacts (gated : bool) (id : string) : P (result power_error (MachineRec * nodeFacts)) :=
  r ← call (GetMachine id);
  match r with
  | Err RecordStore.ErrNotFound => mret (Err (ErrNotFound ("machine " +:+ id)))
  | Err e => mret (Err (EStoreErr e))
  | Ok rec =>
      let facts a unknown cd cl gate :=
        mkNodeFacts a unknown (m_disabled rec) cd cl (m_cordoned rec) (bool_decide (0 < length (macsOf rec))) gate in
      if bool_decide (m_cluster rec = "") then mret (Ok (rec, facts answerUnknown no_cluster_text false false ""))
      else
        c ← call (GetCluster (m_cluster rec));
        match c with
        | Err RecordStore.ErrNotFound => mret (Ok (rec, facts answerUnknown lost_cluster_text false false ""))
        | Err e => mret (Err (EStoreErr e))
        | Ok cluster =>
            a ← probe (m_id rec);
            g ← if bool_decide (m_role rec = RoleControlPlane) && bool_decide (a.1 = answerYes) && negb (c_locked cluster)
                then gateRefusal gated (m_cluster rec) (m_id rec) else mret "";
            mret (Ok (rec, facts a.1 a.2 (c_disabled cluster) (c_locked cluster) g))
        end
  end.

(** The order of [sort.Slice] by name. *)
Definition name_le (a b : MachineRec) : Prop := str_le (nameOf a) (nameOf b).
#[global] Instance name_le_dec : RelDecision name_le.
Proof. intros a b. unfold name_le, str_le. apply _. Defined.

(** The probes of [clusterFacts] run at once; each writes its own member, so one
    after another in any order is the same. *)
Fixpoint probe_all (recs : list MachineRec) : P (list memberFacts) :=
  match recs with
  | [] => mret []
  | rec :: recs' =>
      a ← probe (m_id rec);
      rest ← probe_all recs';
      mret (mkMemberFacts a.1 (m_disabled rec) (m_cordoned rec) :: rest)
  end.

Section Clusters.
(** What [sort.Slice] makes of the machines: it is not stable, so where two have
    the same name either may come first. *)
Context (sort_recs : list MachineRec -> list MachineRec).

Definition readClusterFacts (id : string) : P (result power_error (ClusterRec * list MachineRec * clusterFacts)) :=
  c ← call (GetCluster id);
  match c with
  | Err RecordStore.ErrNotFound => mret (Err (ErrNotFound ("cluster " +:+ id)))
  | Err e => mret (Err (EStoreErr e))
  | Ok cluster =>
      l ← call (ClusterMachines id);
      match l with
      | Err why => mret (Err (EPower why))
      | Ok recs =>
          let recs := sort_recs recs in
          members ← probe_all recs;
          mret (Ok (cluster, recs, mkClusterFacts (c_disabled cluster) (c_locked cluster) members))
      end
  end.

Definition MachineReport (gated : bool) (id : string) : P (result power_error Report) :=
  f <-? machineFacts gated id ;; mret (Ok (nodeReport f.2)).

Definition ClusterReport (id : string) : P (result power_error Report) :=
  f <-? readClusterFacts id ;; mret (Ok (clusterReport f.2)).

(** ** The walk *)

Definition host_le (a b : member) : Prop := str_le (mb_hostname a) (mb_hostname b).
#[global] Instance host_le_dec : RelDecision host_le.
Proof. intros a b. unfold host_le, str_le. apply _. Defined.

(** The endpoint compares equal to a host name with [strings.EqualFold]. *)
Definition isEndpoint (endpoint : string) (m : member) : bool :=
  negb (bool_decide (endpoint = "")) &&
  (bool_decide (mb_addr m = endpoint) || equal_fold (mb_hostname m) endpoint).

(** [sort.SliceStable] of the planes by [!isEndpoint(i) && isEndpoint(j)] puts the
    endpoint last and changes nothing else; by name, a stable sort is a merge
    sort. *)
Definition walkOrder (members : list member) (endpoint : string) : list member :=
  let workers := merge_sort host_le (List.filter (fun m => negb (controlPlane m)) members) in
  let planes := merge_sort host_le (List.filter controlPlane members) in
  workers ++ List.filter (fun m => negb (isEndpoint endpoint m)) planes ++ List.filter (isEndpoint endpoint) planes.

(** ** Submitting *)

Definition NodeJobKind (a : Action) : string := "node." +:+ action_text a.
Definition ClusterJobKind (a : Action) : string := "cluster." +:+ action_text a.

(** [json.Marshal] of the plan, and its reader ([planFrom]). *)
Context (marshal_plan : list member -> string).

Definition SubmitMachine (gated : bool) (id : string) (a : Action) (actor : string) : P (result power_error string) :=
  f <-? machineFacts gated id ;;
  let '(rec, facts) := f in
  let '(ok, why) := Available (nodeReport facts) a in
  if negb ok then mret (Err (UnavailableError a why))
  else
    let params := marshal_plan [memberOf rec (bool_decide (nf_answer facts = answerYes))] in
    r ← call (SubmitJob (NodeJobKind a) (m_cluster rec) (m_id rec) params actor);
    mret (match r with Ok j => Ok j | Err why => Err (EPower why) end).

(** The loop over the records in [SubmitCluster]. *)
Definition walked (a : Action) (recs : list MachineRec) (facts : list memberFacts) : list member :=
  omap (fun '(rec, f) =>
          let answered := bool_decide (mf_answer f = answerYes) in
          if (bool_decide (a = Restart) || bool_decide (a = ForceRestart)) && (m_disabled rec || negb answered) then None
          else Some (memberOf rec answered)) (zip recs facts).

Definition SubmitCluster (id : string) (a : Action) (actor : string) : P (result power_error string) :=
  f <-? readClusterFacts id ;;
  let '(cluster, recs, facts) := f in
  let '(ok, why) := Available (clusterReport facts) a in
  if negb ok then mret (Err (UnavailableError a why))
  else
    let params := marshal_plan (walkOrder (walked a recs (cf_members facts)) (c_endpoint cluster)) in
    r ← call (SubmitJob (ClusterJobKind a) id "" params actor);
    mret (match r with Ok j => Ok j | Err why => Err (EPower why) end).

End Clusters.

(* ------------------------------------------------------------------ *)
(** ** Changing a record *)

(** The loop of [updateMachine]: five attempts, a conflict reads again. *)
Fixpoint update_machine (n : nat) (id : string) (change : MachineRec -> MachineRec) : P (result store_error unit) :=
  match n with
  | O => mret (Err ErrConflict)
  | S n' =>
      r ← call (GetMachine id);
      match r with
      | Err e => mret (Err e)
      | Ok rec =>
          w ← call (PutMachine (change rec));
          match w with
          | Err ErrConflict => update_machine n' id change
          | _ => mret w
          end
      end
  end.
Definition updateMachine (id : string) (change : MachineRec -> MachineRec) : P (result store_error unit) := update_machine 5 id change.

Fixpoint update_cluster (n : nat) (id : string) (change : ClusterRec -> ClusterRec) : P (result store_error unit) :=
  match n with
  | O => mret (Err ErrConflict)
  | S n' =>
      r ← call (GetCluster id);
      match r with
      | Err e => mret (Err e)
      | Ok rec =>
          w ← call (PutCluster (change rec));
          match w with
          | Err ErrConflict => update_cluster n' id change
          | _ => mret w
          end
      end
  end.
Definition updateCluster (id : string) (change : ClusterRec -> ClusterRec) : P (result store_error unit) := update_cluster 5 id change.

(* ------------------------------------------------------------------ *)
(** ** app.go *)

Record AppRef := mkAppRef { ar_namespace : string; ar_kind : Kind; ar_name : string }.

Inductive app_error :=
  | AppNotFound (what : string)
  | AppUnavailable (a : Action) (reason : string)
  | AppStore (e : store_error)
  | AppKube (e : kube_error)
  | AppNoClient (why : string).

Section Apps.
Context (marshal_selector : gmap string string -> string).
Context (selector_text : LabelSelector -> option string).

Definition app_call {A} (cluster : string) (p : prog KubeCall (result kube_error A)) : P (result app_error A) :=
  r ← on_apps cluster p; mret (match r with Ok a => Ok a | Err e => Err (AppKube e) end).

Definition no_power : AppPower := mkPower false false false 0 0 0.
Definition no_pod_power : PodPower := mkPodPower "" "" false.

(** [appFacts]. *)
Definition readAppFacts (cluster : string) (ref : AppRef) : P (result app_error appFacts) :=
  c ← call (GetCluster cluster);
  match c with
  | Err RecordStore.ErrNotFound => mret (Err (AppNotFound ("cluster " +:+ cluster)))
  | Err e => mret (Err (AppStore e))
  | Ok c =>
      match ar_kind ref with
      | Pod =>
          p <-? app_call cluster (PodPowerOf (ar_namespace ref) (ar_name ref)) ;;
          mret (Ok (mkAppFacts Pod (c_locked c) no_power p))
      | k =>
          p <-? app_call cluster (AppPowerOf k (ar_namespace ref) (ar_name ref)) ;;
          mret (Ok (mkAppFacts k (c_locked c) p no_pod_power))
      end
  end.

Definition kube_client (cluster : string) : P (result app_error unit) :=
  r ← call (KubeClient cluster); mret (match r with Ok u => Ok u | Err why => Err (AppNoClient why) end).

Definition AppReport (cluster : string) (ref : AppRef) : P (result app_error Report) :=
  do? kube_client cluster ;;
  f <-? readAppFacts cluster ref ;;
  mret (Ok (appReport f)).

Definition stoppedSentence (ref : AppRef) (before : AppPower) : string :=
  match ar_kind ref with
  | Deployment | StatefulSet => "Scaled " +:+ ar_name ref +:+ " to zero; a start brings back the " +:+ itoa (Desired before) +:+ " it ran."
  | DaemonSet => ar_name ref +:+ " now runs on no node; a start puts it back where it ran."
  | CronJob => "Suspended " +:+ ar_name ref +:+ "; it keeps its schedule and runs nothing until it is started."
  | _ => "Suspended " +:+ ar_name ref +:+ "."
  end.

Definition startedSentence (ref : AppRef) (before : AppPower) : string :=
  match ar_kind ref with
  | Deployment | StatefulSet =>
      let n := WouldStartWith before in
      if bool_decide (n <= 0)%Z
      then "Started " +:+ ar_name ref +:+ " with 1 replica; nothing recorded how many it ran before."
      else "Started " +:+ ar_name ref +:+ " again with the " +:+ itoa n +:+ " it ran before."
  | DaemonSet => ar_name ref +:+ " runs on its nodes again."
  | CronJob => "Resumed " +:+ ar_name ref +:+ "'s schedule."
  | _ => "Resumed " +:+ ar_name ref +:+ "."
  end.

Definition pods_text (n : Z) : string := if bool_decide (n = 1)%Z then "its 1 pod" else "its " +:+ itoa n +:+ " pods".
Definition them (n : Z) : string := if bool_decide (n = 1)%Z then "it" else "them".

(** [strings.TrimSuffix(s, ".")]. *)
Definition trim_dot (s : string) : string :=
  match string_rev s with String "." r => string_rev r | _ => s end.

(** The count and the error of a kill, as one result. *)
Definition kill_pods (cluster : string) (ref : AppRef) : P (result app_error Z) :=
  r ← on_apps cluster (ForceDeleteAppPods selector_text (ar_kind ref) (ar_namespace ref) (ar_name ref));
  mret (match r with (n, None) => Ok n | (_, Some e) => Err (AppKube e) end).

(** The verbs on a workload that the rules let through. *)
Definition run_verb (cluster : string) (ref : AppRef) (power : AppPower) (a : Action) : P (result app_error string) :=
  let kind := ar_kind ref in let ns := ar_namespace ref in let name := ar_name ref in
  match a with
  | Power.Stop =>
      do? app_call cluster (KubeApps.Stop marshal_selector kind ns name) ;;
      mret (Ok (stoppedSentence ref power))
  | ForceStop =>
      do? app_call cluster (KubeApps.Stop marshal_selector kind ns name) ;;
      n <-? kill_pods cluster ref ;;
      mret (Ok (trim_dot (stoppedSentence ref power) +:+ ", and killed " +:+ pods_text n +:+ " without waiting for "
                +:+ them n +:+ " to finish."))
  | Power.Start =>
      do? app_call cluster (KubeApps.Start kind ns name) ;;
      mret (Ok (startedSentence ref power))
  | Disable =>
      do? app_call cluster (SetAppDisabled kind ns name true) ;;
      do? (if negb (Stopped power) && negb (Finished power)
           then app_call cluster (KubeApps.Stop marshal_selector kind ns name) else mret (Ok tt)) ;;
      mret (Ok ("Disabled " +:+ name +:+ ": it is stopped and stays stopped until it is enabled."))
  | Enable =>
      do? app_call cluster (SetAppDisabled kind ns name false) ;;
      if negb (Stopped power) then mret (Ok ("Enabled " +:+ name +:+ "; it was not stopped, so nothing had to start."))
      else
        do? app_call cluster (KubeApps.Start kind ns name) ;;
        mret (Ok ("Enabled " +:+ name +:+ " and started it again."))
  | Restart =>
      now ← call (OnMachine Now);
      do? app_call cluster (RolloutRestartWorkload kind ns name now) ;;
      mret (Ok ("Restarting " +:+ name +:+ ": its pods are being replaced one at a time, under its own rollout rules."))
  | ForceRestart =>
      n <-? kill_pods cluster ref ;;
      mret (Ok ("Killed " +:+ pods_text n +:+ " of " +:+ name +:+ " without waiting; its controller is creating new ones."))
  end.

Definition RunApp (cluster : string) (ref : AppRef) (a : Action) : P (result app_error string) :=
  do? kube_client cluster ;;
  facts <-? readAppFacts cluster ref ;;
  let '(ok, why) := Available (appReport facts) a in
  if negb ok then mret (Err (AppUnavailable a why))
  else if bool_decide (ar_kind ref = Pod) then
    do? app_call cluster (DeleteBarePod (ar_namespace ref) (ar_name ref) (bool_decide (a = ForceStop))) ;;
    mret (Ok (if bool_decide (a = ForceStop)
              then "Deleted " +:+ ar_name ref +:+ " without waiting for it to finish; a bare pod cannot be started again."
              else "Deleted " +:+ ar_name ref +:+ "; a bare pod cannot be started again."))
  else run_verb cluster ref (af_power facts) a.

End Apps.
