(* ===== verification/PowerSteps.v ===== *)
(** * Power: the fourteen jobs

    [src/internal/power/steps.go] and [keeper.go]: the steps the seven verbs are
    made of for a node and for a cluster, as programs with the question each can
    be asked after an interruption, and the sweep that keeps disabled nodes out of
    the scheduler. A wait looks at most [fuel] times; everything proved of the
    steps holds for every [fuel], so for every finite number of looks. *)

From S2P Require Import Prelude RecordStore Jobs Gate Transport Effects KubeApps KubeDrain NodeActions Wake Power PowerService.

(* ------------------------------------------------------------------ *)
(** ** Parts of the steps *)

Abbreviation PStep := (Step PowerCall) (only parsing).

(** The node actions' own steps, renamed after the node. *)
Definition node_step (name : string) (s : Step NodeCall) : PStep := mkStep name
  (fun j => on_machine (Do s j))
  ((fun h j => on_machine (h j)) <$> Happened s).

Definition store_says (e : store_error) : step_error :=
  say (match e with
       | RecordStore.ErrNotFound => "store: no such record"
       | ErrConflict => "store: the record changed"
       | ErrInvalidKey => "store: not a key"
       | ErrIO => "store: the file cannot be read or written"
       end).
Definition said (r : result store_error unit) (detail : string) : outcome :=
  match r with Ok _ => did detail | Err e => failed (store_says e) end.

Inductive find_error := errNoKubeNode | FindErr (why : string).

(** The loops of [findNode]: by name first, then by address. *)
Definition find_node (nodes : list Node) (m : member) : option Node :=
  match list_find (fun n => equal_fold (NodeName n) (mb_hostname m) = true) nodes with
  | Some (_, n) => Some n
  | None =>
      match list_find (fun n => mb_addr m <> "" /\ InternalAddress n = mb_addr m) nodes with
      | Some (_, n) => Some n
      | None => None
      end
  end.

Definition findNode (cluster : string) (m : member) : P (result find_error Node) :=
  r ← on_nodes cluster Nodes;
  mret (match r with
        | Err why => Err (FindErr why)
        | Ok nodes => match find_node nodes m with Some n => Ok n | None => Err errNoKubeNode end
        end).

Definition reachable_now (id : string) : P bool := on_machine (Reachable id).

Definition orNone (items : list string) : string := if bool_decide (length items = 0) then "none" else join ", " items.
Definition hostnames (ms : list member) : list string := map mb_hostname ms.
Definition names (ms : list member) : string := orNone (hostnames ms).

Definition drainOptions (budget : duration) : DrainOptions := mkDrainOptions false true 0 budget.
Definition DrainBudget : duration := (10 * minute)%Z.

Definition count_text (n : nat) : string := itoa (Z.of_nat n).

Definition describeDrain (r : DrainResult) : string :=
  join "; " ((count_text (length (Evicted r)) +:+ " evicted")
    :: (if bool_decide (0 < length (SkippedDaemonSet r)) then [count_text (length (SkippedDaemonSet r)) +:+ " DaemonSet pods left in place"] else [])
    ++ map (fun b => BPod b +:+ ": " +:+ BReason b) (Blocked r)).

Definition drain_says (e : drain_error) : step_error :=
  say (match e with
       | ErrDrainBlocked blocked total =>
           "kube: pods on this node cannot be evicted: " +:+ count_text blocked +:+ " of " +:+ count_text total +:+ " pods stayed"
       | EDrain why => why
       end).

(** ** Waiting *)

(** [poll]: until [check] says yes, the time is up or the context ends. *)
Inductive poll_end := PollYes | PollLate | PollEnded.

Definition PollInterval : duration := (5 * second)%Z.
Definition BootBudget : duration := (15 * minute)%Z.
Definition KubeBudget : duration := (10 * minute)%Z.

Fixpoint poll_loop {A} (fuel : nat) (deadline : time) (check : P (option A)) : P (poll_end * option A) :=
  match fuel with
  | O => Stuck
  | S fuel' =>
      r ← check;
      match r with
      | Some a => mret (PollYes, Some a)
      | None =>
          now ← call (OnMachine Now);
          if bool_decide (deadline < now)%Z then mret (PollLate, None)
          else
            ended ← call (Sleep PollInterval);
            if (ended : bool) then mret (PollEnded, None) else poll_loop fuel' deadline check
      end
  end.

Definition poll {A} (fuel : nat) (budget : duration) (check : P (option A)) : P (poll_end * option A) :=
  now ← call (OnMachine Now);
  poll_loop fuel (now + budget)%Z check.

(** After a wait that did not end well: the context's own error first. *)
Definition late (text : string) : P outcome :=
  ended ← call CtxDone;
  mret (failed (if (ended : bool) then mkStepError true "context canceled" else say text)).

(* ------------------------------------------------------------------ *)
(** ** The steps *)

Section Steps.
Variables (fuel : nat) (gated : bool).

Definition reachable (m : member) : PStep :=
  node_step ("check " +:+ mb_hostname m +:+ " answers") (ReachableStep (mb_machine m)).

Definition reboot (m : member) (force : bool) : PStep :=
  node_step ((if force then "force-reboot " else "reboot ") +:+ mb_hostname m) (RebootStep (mb_machine m) force).

Definition shutdown (m : member) (force tolerant : bool) : PStep :=
  let inner := node_step (if force then "force " +:+ mb_hostname m +:+ " off" else "shut down " +:+ mb_hostname m)
                 (ShutdownStep (mb_machine m) force) in
  if negb tolerant then inner
  else mkStep (StepName inner)
    (fun j =>
       up ← reachable_now (mb_machine m);
       if negb up then mret (did (mb_hostname m +:+ " is already off")) else Do inner j)
    (Happened inner).

Definition gate (cluster : string) (m : member) : PStep := mkStep ("check etcd can spare " +:+ mb_hostname m)
  (fun _ =>
     if negb (controlPlane m) then mret (did (mb_hostname m +:+ " is a worker and not an etcd member; nothing to check"))
     else if negb gated then mret (failed (say
       ("power: this instance has no etcd health gate, so a control-plane node cannot be stopped carefully; " +:+
        "force-stop does not check")))
     else
       v ← call (EvaluateGate cluster (mb_machine m));
       mret (match v with
             | Err why => failed (say why)
             | Ok v =>
                 if negb (VOK v)
                 then failed (say ("power: etcd cannot spare " +:+ mb_hostname m +:+ " right now: " +:+ VReason v +:+ " Force-stop does not check"))
                 else did ("etcd's health gate passed with " +:+ itoa (Voting (VInput v)) +:+ " voting member(s) and no alarms")
             end))
  (Some never).

Definition left_text (m : member) : string := "Kubernetes did not answer, so " +:+ mb_hostname m +:+ " was left as it is".

Definition cordon (cluster : string) (m : member) (strict : bool) : PStep := mkStep ("cordon " +:+ mb_hostname m)
  (fun _ =>
     c ← call (KubeClient cluster);
     match c with
     | Err why =>
         mret (if strict then failed (say ("power: Kubernetes did not answer, so " +:+ mb_hostname m +:+
                 " cannot be drained first; the forced variant of this action does not need it: " +:+ why))
               else did (left_text m))
     | Ok _ =>
         n ← findNode cluster m;
         match n with
         | Err errNoKubeNode => mret (did ("Kubernetes has no node for " +:+ mb_hostname m +:+ "; there is nothing to cordon"))
         | Err (FindErr why) => mret (if strict then failed (say why) else did (left_text m))
         | Ok node =>
             if Unschedulable node then mret (did (mb_hostname m +:+ " was already cordoned"))
             else
               u ← updateMachine (mb_machine m) (set_cordoned true);
               match u with
               | Err e => mret (failed (store_says e))
               | Ok _ =>
                   r ← on_nodes cluster (Cordon (NodeName node) true);
                   mret (match r with
                         | Err why => failed (say why)
                         | Ok _ => did "cordoned; holzkube-manager uncordons it when it is started again"
                         end)
               end
         end
     end)
  (Some (fun _ =>
     c ← call (KubeClient cluster);
     match c with
     | Err _ => mret (Ok false)
     | Ok _ => n ← findNode cluster m; mret (Ok (match n with Ok node => Unschedulable node | Err _ => false end))
     end)).

Definition drain (cluster : string) (m : member) : PStep := mkStep ("drain " +:+ mb_hostname m)
  (fun _ =>
     up ← reachable_now (mb_machine m);
     if negb up then mret (did (mb_hostname m +:+ " does not answer, so nothing is running on it to move"))
     else
       c ← call (KubeClient cluster);
       match c with
       | Err why => mret (failed (say why))
       | Ok _ =>
           n ← findNode cluster m;
           match n with
           | Err errNoKubeNode => mret (did ("Kubernetes has no node for " +:+ mb_hostname m +:+ "; there is nothing to drain"))
           | Err (FindErr why) => mret (failed (say why))
           | Ok node =>
               r ← on_nodes cluster (Drain (NodeName node) (drainOptions DrainBudget));
               mret (Some (describeDrain r.1), drain_says <$> r.2)
           end
       end)
  (Some (fun _ =>
     up ← reachable_now (mb_machine m);
     if negb up then mret (Ok true)
     else
       c ← call (KubeClient cluster);
       match c with
       | Err _ => mret (Ok false)
       | Ok _ =>
           n ← findNode cluster m;
           match n with
           | Err errNoKubeNode => mret (Ok true)
           | Err _ => mret (Ok false)
           | Ok node =>
               l ← on_nodes cluster (Undrained (NodeName node) (drainOptions DrainBudget));
               mret (Ok (match l with Ok [] => true | _ => false end))
           end
       end)).

(** The loop of [remember]. *)
Fixpoint remember_loop (cluster : string) (ms : list member) (noted : list string) : P outcome :=
  match ms with
  | [] => mret (did ("schedulable before the reboot: " +:+ orNone noted))
  | m :: ms' =>
      n ← findNode cluster m;
      match n with
      | Ok node =>
          if Unschedulable node then remember_loop cluster ms' noted
          else
            u ← updateMachine (mb_machine m) (set_cordoned true);
            match u with
            | Err e => mret (failed (store_says e))
            | Ok _ => remember_loop cluster ms' (noted ++ [mb_hostname m])
            end
      | Err _ => remember_loop cluster ms' noted
      end
  end.
Definition remember (cluster : string) (ms : list member) : PStep := mkStep "note which nodes are schedulable"
  (fun _ =>
     c ← call (KubeClient cluster);
     match c with
     | Err _ => mret (did "Kubernetes did not answer, so no node will be uncordoned afterwards")
     | Ok _ => remember_loop cluster ms []
     end)
  (Some never).

(** The two loops of [uncordon]. *)
Fixpoint uncordon_targets (ms : list member) (onlyMarked : bool) : P (list member) :=
  match ms with
  | [] => mret []
  | m :: ms' =>
      r ← call (GetMachine (mb_machine m));
      rest ← uncordon_targets ms' onlyMarked;
      mret (match r with
            | Err _ => rest
            | Ok rec => if m_disabled rec || (onlyMarked && negb (m_cordoned rec)) then rest else m :: rest
            end)
  end.

Fixpoint uncordon_loop (cluster : string) (targets : list member) (done absent : list string) : P outcome :=
  match targets with
  | [] => mret (did ("uncordoned " +:+ orNone done +:+
                     (if bool_decide (0 < length absent) then "; Kubernetes has no node for " +:+ join ", " absent else "")))
  | m :: targets' =>
      n ← findNode cluster m;
      match n with
      | Err errNoKubeNode => uncordon_loop cluster targets' done (absent ++ [mb_hostname m])
      | Err (FindErr why) => mret (failed (say why))
      | Ok node =>
          r ← on_nodes cluster (Cordon (NodeName node) false);
          match r with
          | Err why => mret (failed (say why))
          | Ok _ =>
              u ← updateMachine (mb_machine m) (set_cordoned false);
              match u with
              | Err e => mret (failed (store_says e))
              | Ok _ => uncordon_loop cluster targets' (done ++ [mb_hostname m]) absent
              end
          end
      end
  end.

(** Whether Kubernetes answers, in the waits of [uncordon] and [waitKube]. *)
Definition kube_answers (cluster : string) : P (option string) :=
  c ← call (KubeClient cluster);
  match c with
  | Err _ => mret None
  | Ok _ => v ← call (ServerVersion cluster); mret (match v with Ok v => Some v | Err _ => None end)
  end.

Definition uncordon (cluster : string) (ms : list member) (name : string) (onlyMarked : bool) : PStep := mkStep name
  (fun _ =>
     targets ← uncordon_targets ms onlyMarked;
     match targets with
     | [] => mret (did "nothing to uncordon")
     | _ =>
         p ← poll fuel KubeBudget (kube_answers cluster);
         match p with
         | (PollYes, _) => uncordon_loop cluster targets [] []
         | _ => late ("power: Kubernetes did not answer in time, so " +:+ names targets +:+
                      " could not be uncordoned; start it again once the API is back")
         end
     end)
  (Some never).

(** ** The disabled mark *)

Definition markMachine (m : member) (disabled : bool) : PStep := mkStep
  (if disabled then "mark " +:+ mb_hostname m +:+ " disabled" else "clear " +:+ mb_hostname m +:+ "'s disabled mark")
  (fun _ =>
     u ← updateMachine (mb_machine m) (set_disabled disabled);
     mret (match u with
           | Err e => failed (store_says e)
           | Ok _ => (if disabled then Some (mb_hostname m +:+ " stays off until it is enabled") else None, None)
           end))
  (Some (fun _ =>
     r ← call (GetMachine (mb_machine m));
     mret (match r with Err e => Err (store_says e) | Ok rec => Ok (Bool.eqb (m_disabled rec) disabled) end))).

Definition markCluster (cluster : string) (disabled : bool) : PStep := mkStep
  (if disabled then "mark the cluster disabled" else "clear the cluster's disabled mark")
  (fun _ =>
     u ← updateCluster cluster (set_cluster_disabled disabled);
     mret (match u with Err e => failed (store_says e) | Ok _ => (None, None) end))
  (Some (fun _ =>
     r ← call (GetCluster cluster);
     mret (match r with Err e => Err (store_says e) | Ok c => Ok (Bool.eqb (c_disabled c) disabled) end))).

Definition refuseDisabled (cluster : string) (m : member) : PStep := mkStep ("check " +:+ mb_hostname m +:+ " is not disabled")
  (fun _ =>
     r ← call (GetMachine (mb_machine m));
     match r with
     | Err e => mret (failed (store_says e))
     | Ok rec =>
         if m_disabled rec then mret (failed (say ("power: " +:+ mb_hostname m +:+ " is disabled; enable it to start it")))
         else
           c ← call (GetCluster cluster);
           mret (match c with
                 | Ok c => if c_disabled c then failed (say "power: its cluster is disabled; enable the cluster first") else (None, None)
                 | Err _ => (None, None)
                 end)
     end)
  (Some never).

Definition refuseClusterDisabled (cluster : string) : PStep := mkStep "check the cluster is not disabled"
  (fun _ =>
     c ← call (GetCluster cluster);
     mret (match c with
           | Err e => failed (store_says e)
           | Ok c => if c_disabled c then failed (say "power: the cluster is disabled; enable it to start it") else (None, None)
           end))
  (Some never).

(** ** Waking and waiting *)

Fixpoint active (ms : list member) : P (result store_error (list member)) :=
  match ms with
  | [] => mret (Ok [])
  | m :: ms' =>
      rec <-? call (GetMachine (mb_machine m)) ;;
      rest <-? active ms' ;;
      mret (Ok (if m_disabled rec then rest else m :: rest))
  end.

(** The loop of [wake]: the addresses, and who is woken, has none, or answers. *)
Record waking := mkWaking { wk_macs : list (list Z); wk_woken : list string; wk_noMAC : list string; wk_already : list string }.

Fixpoint wake_loop (targets : list member) (k : waking) : P (result store_error waking) :=
  match targets with
  | [] => mret (Ok k)
  | m :: targets' =>
      up ← reachable_now (mb_machine m);
      if (up : bool) then wake_loop targets' (mkWaking (wk_macs k) (wk_woken k) (wk_noMAC k) (wk_already k ++ [mb_hostname m]))
      else
        rec <-? call (GetMachine (mb_machine m)) ;;
        let addrs := macsOf rec in
        if bool_decide (length addrs = 0)
        then wake_loop targets' (mkWaking (wk_macs k) (wk_woken k) (wk_noMAC k ++ [mb_hostname m]) (wk_already k))
        else wake_loop targets' (mkWaking (wk_macs k ++ map (fun a => default [] (ParseMAC a)) addrs)
               (wk_woken k ++ [mb_hostname m +:+ " (" +:+ join ", " addrs +:+ ")"]) (wk_noMAC k) (wk_already k))
  end.

(** The loops of the questions: the first that says otherwise ends them. *)
Fixpoint all_answer (ms : list member) : P bool :=
  match ms with
  | [] => mret true
  | m :: ms' => up ← reachable_now (mb_machine m); if (up : bool) then all_answer ms' else mret false
  end.
Fixpoint none_answers (ms : list member) : P bool :=
  match ms with
  | [] => mret true
  | m :: ms' => up ← reachable_now (mb_machine m); if (up : bool) then mret false else none_answers ms'
  end.

Definition wake (ms : list member) (name : string) (strictMAC : bool) : PStep := mkStep name
  (fun _ =>
     t ← active ms;
     match t with
     | Err e => mret (failed (store_says e))
     | Ok targets =>
         k ← wake_loop targets (mkWaking [] [] [] []);
         match k with
         | Err e => mret (failed (store_says e))
         | Ok k =>
             let none := bool_decide (0 < length (wk_noMAC k)) in
             if none && (strictMAC || bool_decide (length (wk_woken k) = 0)) then
               mret (failed (say ("power: no network card address is known for " +:+ join ", " (wk_noMAC k) +:+
                 ", so it cannot be woken over the network; power it on by hand")))
             else if bool_decide (length (wk_macs k) = 0) then
               mret (did ("already answering: " +:+ orNone (wk_already k) +:+ "; nothing to wake"))
             else
               r ← call (OnWaker (wk_macs k));
               mret (match r with
                     | Err why => failed (say why)
                     | Ok report =>
                         did ("sent Wake-on-LAN for " +:+ join ", " (wk_woken k) +:+ " to " +:+ join ", " (WDestinations report) +:+
                              (if none then "; no address is known for " +:+ join ", " (wk_noMAC k) +:+
                                            ", which has to be powered on by hand" else ""))
                     end)
         end
     end)
  (Some (fun _ =>
     t ← active ms;
     match t with
     | Err _ => mret (Ok false)
     | Ok targets => b ← all_answer targets; mret (Ok b)
     end)).

(** Who does not answer, in one look. *)
Fixpoint not_answering (ms : list member) : P (list member) :=
  match ms with
  | [] => mret []
  | m :: ms' => up ← reachable_now (mb_machine m); rest ← not_answering ms'; mret (if (up : bool) then rest else m :: rest)
  end.

Definition waitAnswer (ms : list member) (name : string) : PStep := mkStep name
  (fun _ =>
     t ← active ms;
     match t with
     | Err e => mret (failed (store_says e))
     | Ok targets =>
         p ← poll fuel BootBudget (missing ← not_answering targets; mret (if bool_decide (missing = []) then Some tt else None));
         match p with
         | (PollYes, _) => mret (did (orNone (hostnames targets) +:+ " answering"))
         | _ => late ("power: not answering in time. Wake-on-LAN may be switched off in its firmware, or it is on a network " +:+
                      "a broadcast from here does not reach")
         end
     end)
  (Some never).

Definition waitKube (cluster : string) : PStep := mkStep "wait for the Kubernetes API"
  (fun _ =>
     p ← poll fuel BootBudget (kube_answers cluster);
     match p with
     | (PollYes, v) => mret (did ("Kubernetes " +:+ default "" v +:+ " answering"))
     | _ => late "power: the Kubernetes API did not answer in time of the control plane being woken"
     end)
  (Some never).

Definition kubeReady (cluster : string) (m : member) : P bool :=
  c ← call (KubeClient cluster);
  match c with
  | Err _ => mret false
  | Ok _ => n ← findNode cluster m; mret (match n with Ok node => bool_decide (NodeReady node = "True") | Err _ => false end)
  end.

(** One look of [waitBack]. *)
Definition is_back (cluster : string) (m : member) (since : time) (needReady : bool) : P (option unit) :=
  b ← on_machine (RebootedSince (mb_machine m) since);
  match b with
  | Ok true =>
      if negb needReady then mret (Some tt)
      else ready ← kubeReady cluster m; mret (if (ready : bool) then Some tt else None)
  | _ => mret None
  end.

Definition waitBack (cluster : string) (m : member) (rebootStep : Z) (needReady : bool) : PStep := mkStep
  ("wait for " +:+ mb_hostname m +:+ " to come back")
  (fun j =>
     p ← poll fuel BootBudget (is_back cluster m (started_at j rebootStep) needReady);
     match p with
     | (PollYes, _) => mret (did (mb_hostname m +:+ " is back"))
     | _ => late ("power: " +:+ mb_hostname m +:+ " is not back (" +:+ (if needReady then "answering and Ready" else "answering again") +:+
                  ") in time of its reboot. Nothing after it has been touched")
     end)
  (Some never).

(** ** All nodes at once

    The calls of [fanOut] run at once; each is for its own node, and here they
    are made one after another. *)

Definition refusal (m : member) (o : outcome) : option string :=
  match o.2 with Some e => Some (mb_hostname m +:+ ": " +:+ se_text e) | None => None end.

Definition force_off_one (m : member) : P (option string) :=
  up ← reachable_now (mb_machine m);
  if negb up then mret None
  else
    o ← on_machine (mutate MethodShutdown (mb_machine m) (fun ctx => ShutdownNode ctx (mb_machine m) true) "");
    mret (refusal m o).

Definition reboot_one (m : member) : P (option string) :=
  o ← on_machine (mutate MethodReboot (mb_machine m) (fun ctx => RebootNode ctx (mb_machine m) true) "");
  mret (refusal m o).

Definition fanOut (ms : list member) (one : member -> P (option string)) : P (list string) :=
  errs ← mapM one ms; mret (omap id errs).

Definition forceOffAll (ms : list member) : PStep := mkStep "force every node off at once"
  (fun _ =>
     errs ← fanOut ms force_off_one;
     mret (if bool_decide (0 < length errs) then failed (say ("power: " +:+ join "; " errs))
           else did ("every node accepted the shutdown: " +:+ orNone (hostnames ms))))
  (Some (fun _ => b ← none_answers ms; mret (Ok b))).

Fixpoint all_rebooted (since : time) (ms : list member) : P (result step_error bool) :=
  match ms with
  | [] => mret (Ok true)
  | m :: ms' =>
      b ← on_machine (RebootedSince (mb_machine m) since);
      match b with
      | Err e => mret (Err e)
      | Ok false => mret (Ok false)
      | Ok true => all_rebooted since ms'
      end
  end.

Definition rebootAll (ms : list member) : PStep := mkStep "force-reboot every node at once"
  (fun _ =>
     errs ← fanOut ms reboot_one;
     mret (if bool_decide (0 < length errs) then failed (say ("power: " +:+ join "; " errs))
           else did ("every node accepted the reboot: " +:+ orNone (hostnames ms))))
  (Some (fun j => all_rebooted (started_at j (Current j)) ms)).

(** One look of [waitAllBack]. *)
Fixpoint not_back (ms : list member) (since : time) : P (list member) :=
  match ms with
  | [] => mret []
  | m :: ms' =>
      b ← on_machine (RebootedSince (mb_machine m) since);
      rest ← not_back ms' since;
      mret (match b with Ok true => rest | _ => m :: rest end)
  end.

Definition waitAllBack (ms : list member) (rebootStep : Z) : PStep := mkStep "wait for every node to come back"
  (fun j =>
     p ← poll fuel BootBudget (missing ← not_back ms (started_at j rebootStep); mret (if bool_decide (missing = []) then Some tt else None));
     match p with
     | (PollYes, _) => mret (did "every node back")
     | _ => late "power: a node did not come back in time of the reboot"
     end)
  (Some never).

(* ------------------------------------------------------------------ *)
(** ** The jobs *)

Definition nodeSteps (a : Action) (cluster : string) (m : member) : list PStep :=
  let one := [m] in
  let name := mb_hostname m in
  match a with
  | Stop => [reachable m; gate cluster m; cordon cluster m true; drain cluster m; shutdown m false false]
  | ForceStop => [reachable m; shutdown m true false]
  | Start =>
      [refuseDisabled cluster m; wake one ("wake " +:+ name) true; waitAnswer one ("wait for " +:+ name +:+ " to answer");
       uncordon cluster one ("uncordon " +:+ name) false]
  | Disable =>
      (if mb_answered m then [reachable m; gate cluster m] else [])
      ++ [markMachine m true]
      ++ (if mb_answered m then [cordon cluster m true; drain cluster m; shutdown m false false] else [])
  | Enable =>
      [markMachine m false; refuseDisabled cluster m; wake one ("wake " +:+ name) true;
       waitAnswer one ("wait for " +:+ name +:+ " to answer"); uncordon cluster one ("uncordon " +:+ name) false]
  | Restart =>
      let steps := [reachable m; cordon cluster m true; drain cluster m] in
      let reboot_ := Z.of_nat (length steps) in
      steps ++ [reboot m false; waitBack cluster m reboot_ true; uncordon cluster one ("uncordon " +:+ name) true]
  | ForceRestart =>
      let steps := [reachable m; remember cluster one] in
      let reboot_ := Z.of_nat (length steps) in
      steps ++ [reboot m true; waitBack cluster m reboot_ false;
                uncordon cluster one ("uncordon " +:+ name +:+ " if it was schedulable") true]
  end.

Definition stop_one (cluster : string) (m : member) : list PStep :=
  if controlPlane m then [cordon cluster m false; shutdown m true true]
  else [cordon cluster m true; drain cluster m; shutdown m false true].
Definition stopWalk (cluster : string) (ms : list member) : list PStep := mjoin (map (stop_one cluster) ms).

Definition startWalk (cluster : string) (ms : list member) : list PStep :=
  let planes := List.filter controlPlane ms in
  let workers := List.filter (fun m => negb (controlPlane m)) ms in
  [refuseClusterDisabled cluster; wake planes "wake the control plane" false; waitKube cluster;
   wake workers "wake the workers" false; waitAnswer workers "wait for the workers to answer";
   uncordon cluster ms "uncordon the nodes the stop cordoned" true].

(** The loop of a rolling restart; [steps] is what was built so far. *)
Fixpoint restart_walk (cluster : string) (ms : list member) (steps : list PStep) : list PStep :=
  match ms with
  | [] => steps
  | m :: ms' =>
      let steps := steps ++ [cordon cluster m true; drain cluster m] in
      let reboot_ := Z.of_nat (length steps) in
      restart_walk cluster ms'
        (steps ++ [reboot m false; waitBack cluster m reboot_ true; uncordon cluster [m] ("uncordon " +:+ mb_hostname m) true])
  end.

Definition clusterSteps (a : Action) (cluster : string) (ms : list member) : list PStep :=
  match a with
  | Stop => stopWalk cluster ms
  | ForceStop => [forceOffAll ms]
  | Start => startWalk cluster ms
  | Disable => markCluster cluster true :: stopWalk cluster ms
  | Enable => markCluster cluster false :: startWalk cluster ms
  | Restart => restart_walk cluster ms []
  | ForceRestart =>
      let steps := [remember cluster ms] in
      let reboot_ := Z.of_nat (length steps) in
      steps ++ [rebootAll ms; waitAllBack ms reboot_; uncordon cluster ms "uncordon the nodes that were schedulable" true]
  end.

End Steps.

(** [Register]: the builders, from the plan a job carries ([plan_of] is
    [planFrom]). *)
Definition power_steps (fuel : nat) (gated : bool) (plan_of : gmap string string -> result string (list member))
    (kind : string) (j : Jobs.Job) : option (result string (list PStep)) :=
  match list_find (fun a => NodeJobKind a = kind) Actions, list_find (fun a => ClusterJobKind a = kind) Actions with
  | Some (_, a), _ => Some (
      ms ← plan_of (Jobs.Params j);
      match ms with
      | [m] => Ok (nodeSteps fuel gated a (Jobs.Cluster j) m)
      | _ => Err ("power: a node job walks one node, and this one names " +:+ count_text (length ms))
      end)
  | None, Some (_, a) => Some (ms ← plan_of (Jobs.Params j); Ok (clusterSteps fuel a (Jobs.Cluster j) ms))
  | None, None => None
  end.

(* ------------------------------------------------------------------ *)
(** ** keeper.go *)

Definition KeepEvery : duration := minute.

(** [firstSeenUp] and [forgetUp]: which disabled machines were seen up. *)
Definition firstSeenUp (id : string) (seenUp : gset string) : bool * gset string :=
  if bool_decide (id ∈ seenUp) then (false, seenUp) else (true, {[ id ]} ∪ seenUp).
Definition forgetUp (id : string) (seenUp : gset string) : gset string := seenUp ∖ {[ id ]}.

Definition warn (text : string) : P unit := call (Warn text).

Definition keepCordoned (rec : MachineRec) (first : bool) : P unit :=
  let cluster := m_cluster rec in
  c ← call (KubeClient cluster);
  match c with
  | Err _ =>
      if first then warn ("power: a disabled node is running; Kubernetes did not answer, so it could not be cordoned yet -- " +:+
                          "it will be tried again") else mret tt
  | Ok _ =>
      n ← findNode cluster (memberOf rec true);
      match n with
      | Err _ =>
          if first then warn ("power: a disabled node is running and Kubernetes has no node for it yet; it will be cordoned " +:+
                              "when it registers") else mret tt
      | Ok node =>
          if Unschedulable node then
            (if first then warn "power: a disabled node is running; it stays cordoned until it is enabled" else mret tt)
          else
            r ← on_nodes cluster (Cordon (NodeName node) true);
            match r with
            | Err _ => warn "power: a disabled node is running and could not be cordoned"
            | Ok _ => warn ("power: a disabled node is running; cordoned it so nothing is scheduled onto it until it is enabled")
            end
      end
  end.

(** The loop of [Sweep], with what was seen up so far. *)
Fixpoint sweep_loop (disabledCluster : gmap string bool) (recs : list MachineRec) (seenUp : gset string) : P (gset string) :=
  match recs with
  | [] => mret seenUp
  | rec :: recs' =>
      if bool_decide (m_cluster rec = "") || (negb (m_disabled rec) && negb (default false (disabledCluster !! m_cluster rec)))
      then sweep_loop disabledCluster recs' (forgetUp (m_id rec) seenUp)
      else
        a ← probe (m_id rec);
        if negb (bool_decide (a.1 = answerYes)) then sweep_loop disabledCluster recs' (forgetUp (m_id rec) seenUp)
        else
          let '(first, seenUp) := firstSeenUp (m_id rec) seenUp in
          _ ← keepCordoned rec first;
          sweep_loop disabledCluster recs' seenUp
  end.

Definition Sweep (seenUp : gset string) : P (gset string) :=
  ms ← call ListMachines;
  match ms with
  | Err _ => _ ← warn "power: could not list machines for the disabled-node sweep"; mret seenUp
  | Ok recs =>
      cs ← call ListClusters;
      match cs with
      | Err _ => _ ← warn "power: could not list clusters for the disabled-node sweep"; mret seenUp
      | Ok cs => sweep_loop (list_to_map (reverse (map (fun c => (c_id c, c_disabled c)) cs))) recs seenUp
      end
  end.
