(* ===== verification/Walk.v ===== *)
(** * Walking a job

    What a job can have done to the world at any moment: the engine begins a step,
    the step ends, fails or is cut off by the process dying, and a step that was
    cut off is asked whether it happened and is passed or begun again ([Jobs.v] is
    that engine in full; here it may also ask after a step that failed, which it
    never does). Whatever is true of every such walk is true of the job.

    [Deeds] is what a component says of its calls: which leave something to account
    for in the history of its world. The lemmas are proved against it; the power
    jobs and the upgrade jobs are its instances. *)

From S2P Require Import Prelude Jobs Effects NodeActions.

(* ------------------------------------------------------------------ *)
(** ** Deeds *)

Class Deeds (Call : Type -> Type) (W X : Type) `{!Handler Call W X} := {
  Event : Type;
  Deed : Type;
  history : W -> list Event;
  undisturbed : X -> Prop;                     (* others leave the history alone *)
  event_deed : Event -> option Deed;
  call_deed : forall R, Call R -> option Deed;
  act_deeds : forall R (c : Call R) x w, undisturbed x ->
    exists l, history (act c x w).2 = history w ++ l /\ omap event_deed l = option_list (call_deed R c)
}.
Arguments call_deed {_ _ _ _ _ _} c.

Section Walks.
Context {Call : Type -> Type} {W X : Type} `{HH : !Handler Call W X} `{HD : !Deeds Call W X}.
Implicit Types (S : Deed -> Prop) (w : W) (xs : list X).

Abbreviation Prog := (prog Call) (only parsing).

(** Nothing a program does is outside [S], whatever it is answered. *)
Fixpoint does {A} (S : Deed -> Prop) (p : Prog A) : Prop :=
  match p with
  | Ret _ | Stuck => True
  | Act c k => (forall d, call_deed c = Some d -> S d) /\ forall r, does S (k r)
  end.

Lemma does_bind {A B} S (p : Prog A) (f : A -> Prog B) :
  does S p -> (forall a, does S (f a)) -> does S (p ≫= f).
Proof. intros Hp Hf. induction p as [a| |R c k IH]; [apply Hf|done|]. destruct Hp as [Hc Hk]. split; [done|]. intros r. by apply IH. Qed.

Lemma does_try {A B E} S (p : Prog (result E A)) (f : A -> Prog (result E B)) :
  does S p -> (forall a, does S (f a)) -> does S (try f p).
Proof. intros Hp Hf. apply does_bind; [done|]. intros [a|e]; [apply Hf|done]. Qed.

Lemma does_call {R} S (c : Call R) : call_deed c = None -> does S (call c).
Proof. intros E. split; [|done]. intros d. by rewrite E. Qed.

Lemma does_mono {A} (S S' : Deed -> Prop) (p : Prog A) : does S p -> (forall d, S d -> S' d) -> does S' p.
Proof. intros Hp HS. induction p as [a| |R c k IH]; [done|done|]. destruct Hp as [Hc Hk]. split; [auto|]. intros r. by apply IH. Qed.

Lemma does_none {A} S (p : Prog A) : does (fun _ => False) p -> does S p.
Proof. intros Hp. by apply (does_mono _ S _ Hp). Qed.


Lemma run_grows {A} (p : Prog A) xs w o rest w' :
  Forall undisturbed xs -> run p xs w = (o, rest, w') -> (exists l, history w' = history w ++ l) /\ Forall undisturbed rest.
Proof.
  revert xs w. induction p as [a| |R c k IH]; intros xs w Hs; cbn [run].
  1, 2: intros [= <- <- <-]; split; [by exists []; rewrite app_nil_r|done].
  destruct xs as [|x xs]; [intros [= <- <- <-]; split; [by exists []; rewrite app_nil_r|done]|].
  apply Forall_cons in Hs as [Hx Hs]. destruct (act_deeds R c x w Hx) as (l1 & Hl1 & _).
  destruct (act c x w) as [r w1]. cbn in Hl1. intros Hr.
  destruct (IH r xs w1 Hs Hr) as [[l2 Hl2] Hrest]. split; [|done]. exists (l1 ++ l2). by rewrite Hl2, Hl1, (assoc_L (++)).
Qed.

(** What a run adds to the history, when everything it may do is in [S]. *)
Lemma run_deeds {A} S (p : Prog A) xs w o rest w' :
  does S p -> Forall undisturbed xs -> run p xs w = (o, rest, w') ->
  exists l, history w' = history w ++ l /\ Forall S (omap event_deed l).
Proof.
  revert xs w. induction p as [a| |R c k IH]; intros xs w Hp Hs; cbn [run].
  1, 2: intros [= <- <- <-]; exists []; split; [by rewrite app_nil_r|constructor].
  destruct xs as [|x xs]; [intros [= <- <- <-]; exists []; split; [by rewrite app_nil_r|constructor]|].
  apply Forall_cons in Hs as [Hx Hs]. destruct Hp as [Hc Hk].
  destruct (act_deeds R c x w Hx) as (l1 & Hl1 & Hd). destruct (act c x w) as [r w1]. cbn in Hl1. intros Hr.
  destruct (IH r xs w1 (Hk r) Hs Hr) as (l2 & Hl2 & Hd2). exists (l1 ++ l2).
  split; [by rewrite Hl2, Hl1, (assoc_L (++))|]. rewrite omap_app, Hd. apply Forall_app. split; [|done].
  destruct (call_deed c) as [d|] eqn:E; cbn; [|constructor]. constructor; [by apply Hc|constructor].
Qed.

(* ------------------------------------------------------------------ *)
(** ** Walks *)

Definition times := Z -> time.

(** Two versions of one job's record. *)
Definition same_job (job j : Jobs.Job) : Prop := Jobs.Cluster j = Jobs.Cluster job /\ Jobs.Machine j = Jobs.Machine job.

(** The record of a job while step [n] is worked on: [started] holds when each
    step began, and it names the cluster and the machine of the job. *)
Definition at_step (job : Jobs.Job) (n : nat) (started : times) (j : Jobs.Job) : Prop :=
  Current j = Z.of_nat n /\ (forall i, started_at j i = started i) /\ same_job job j.

Definition started_now (n : nat) (t : time) (started : times) : times :=
  fun i => if bool_decide (i = Z.of_nat n) then t else started i.

Section Of.
Variables (steps : list (Step Call)) (job : Jobs.Job).

(** [Walk n cut started w w0]: the job was begun in [w0]; now it is about to begin
    step [n], or step [n] was [cut] off; and the world is [w]. *)
Inductive Walk (w0 : W) : nat -> bool -> times -> W -> Prop :=
  | Walk_begin started : Walk w0 0 false started w0
  | Walk_meanwhile n cut started w w' :
      Walk w0 n cut started w -> history w' = history w -> Walk w0 n cut started w'
  | Walk_done n started t w s j xs d rest w' :
      Walk w0 n false started w -> steps !! n = Some s -> at_step job n (started_now n t started) j ->
      Forall undisturbed xs ->
      run (Do s j) xs w = (Some (d, None), rest, w') ->
      Walk w0 (S n) false (started_now n t started) w'
  | Walk_cut n started t w s j xs o rest w' :
      Walk w0 n false started w -> steps !! n = Some s -> at_step job n (started_now n t started) j ->
      Forall undisturbed xs ->
      run (Do s j) xs w = (o, rest, w') -> (forall d, o <> Some (d, None)) ->
      Walk w0 n true (started_now n t started) w'
  | Walk_asked n started w s h j xs b rest w' :
      Walk w0 n true started w -> steps !! n = Some s -> Happened s = Some h -> at_step job n started j ->
      Forall undisturbed xs ->
      run (h j) xs w = (Some (Ok b), rest, w') ->
      Walk w0 (if b : bool then S n else n) false started w'
  | Walk_unanswered n started w s h j xs o rest w' :
      Walk w0 n true started w -> steps !! n = Some s -> Happened s = Some h -> at_step job n started j ->
      Forall undisturbed xs ->
      run (h j) xs w = (o, rest, w') -> Walk w0 n true started w'.

(** What each step may do to nodes, asking nothing. *)
Variable may : nat -> Deed -> Prop.
Hypothesis steps_do : forall n s, steps !! n = Some s ->
  (forall j, does (may n) (Do s j)) /\ (forall h j, Happened s = Some h -> does (fun _ => False) (h j)).

(** Every deed since the job began was done by a step that may do it, at a moment
    when the job was at that step. *)
Definition accounted (w0 : W) (n : nat) (started : times) (w : W) : Prop :=
  forall pre e post d, history w = pre ++ e :: post -> event_deed e = Some d -> length (history w0) <= length pre ->
  exists k started' v, Walk w0 k false started' v /\ k <= n /\ may k d /\
    (exists l, pre = history v ++ l /\ Forall (may k) (omap event_deed l)) /\
    (forall i, (i < Z.of_nat k)%Z -> started' i = started i).

Lemma prefix_mid {A} (l pre : list A) e post k :
  l ++ k = pre ++ e :: post -> length l <= length pre -> l `prefix_of` pre.
Proof.
  intros E Hl. exists (drop (length l) pre). assert (Et : take (length l) (l ++ k) = take (length l) (pre ++ e :: post)) by (by rewrite E).
  rewrite take_app_length in Et. rewrite take_app_le in Et by lia. rewrite Et at 1. symmetry. apply take_drop.
Qed.

Lemma mid_cases {A} (l k pre : list A) e post :
  l ++ k = pre ++ e :: post ->
  (exists post', l = pre ++ e :: post') \/ (exists l', pre = l ++ l' /\ k = l' ++ e :: post).
Proof.
  intros E. destruct (decide (length l <= length pre)) as [Hl|Hl].
  - right. assert (Hp : l `prefix_of` pre) by (by eapply prefix_mid). destruct Hp as [m ->].
    rewrite <- (assoc_L (++)) in E. apply (inj (l ++.)) in E. by exists m.
  - left. assert (Hlen : length pre < length l) by lia.
    assert (Et : take (length l) (l ++ k) = take (length l) (pre ++ e :: post)) by (by rewrite E).
    rewrite take_app_length, take_app_ge in Et by lia.
    destruct (length l - length pre) as [|m] eqn:Em; [lia|]. cbn in Et. eauto.
Qed.

Lemma walk_grows w0 n cut started w : Walk w0 n cut started w -> history w0 `prefix_of` history w.
Proof.
  induction 1 as [| |n started t w s j xs d rest w'|n started t w s j xs o rest w'|n started w s h j xs b rest w'
                  |n started w s h j xs o rest w']; [done|congruence|..].
  all: match goal with Hs : Forall _ _, Hr : run _ _ _ = _ |- _ => destruct (run_grows _ _ _ _ _ _ Hs Hr) as [[l ->] _] end.
  all: by apply prefix_app_r.
Qed.

Lemma accounted_step w0 n n' started started' w w' l S :
  Walk w0 n false started w \/ (forall d, ~ S d) ->
  accounted w0 n started w -> history w' = history w ++ l -> Forall S (omap event_deed l) -> (forall d, S d -> may n d) ->
  n <= n' -> (forall i, (i < Z.of_nat n)%Z -> started' i = started i) ->
  accounted w0 n' started' w'.
Proof.
  intros Hw Ha Ht Hl HS Hn Hst pre e post d Hsplit He Hlen. rewrite Ht in Hsplit.
  destruct (mid_cases _ _ _ _ _ Hsplit) as [[post' E]|(l' & -> & ->)].
  - destruct (Ha pre e post' d E He Hlen) as (k & st & v & Hv & Hk & Hm & Hpre & Hti).
    exists k, st, v. split_and!; [done|lia|done|done|]. intros i Hi. rewrite Hti by done. symmetry. apply Hst. lia.
  - rewrite omap_app in Hl. cbn in Hl. rewrite He in Hl. apply Forall_app in Hl as [Hl [Hd _]%Forall_cons].
    destruct Hw as [Hw|Hno]; [|by destruct (Hno d)].
    exists n, started, w. split_and!; [done|lia|by apply HS| |intros i Hi; symmetry; by apply Hst].
    exists l'. split; [done|]. eapply Forall_impl; [exact Hl|]. apply HS.
Qed.

Lemma walk_accounted w0 n cut started w : Walk w0 n cut started w -> accounted w0 n started w.
Proof.
  assert (Hnow : forall n t started i, (i < Z.of_nat n)%Z -> started_now n t started i = started i).
  { intros m t st i Hi. unfold started_now. rewrite bool_decide_false by lia. done. }
  induction 1 as [st|m cut st w w' Hw IH E|m st t w s j xs d rest w' Hw IH Hs Hj Hx Hr|m st t w s j xs o rest w' Hw IH Hs Hj Hx Hr Ho
                  |m st w s h j xs b rest w' Hw IH Hs Hh Hj Hx Hr|m st w s h j xs o rest w' Hw IH Hs Hh Hj Hx Hr].
  - intros pre e post d Ht _ Hlen. rewrite Ht, length_app in Hlen. cbn in Hlen. lia.
  - intros pre e post d Ht. rewrite E in Ht. exact (IH pre e post d Ht).
  - destruct (steps_do m s Hs) as [Hd _]. destruct (run_deeds _ _ _ _ _ _ _ (Hd j) Hx Hr) as (l & Hl & Hf).
    eapply (accounted_step w0 m (S m) st); [by left|done|done|exact Hf|done|lia|by apply Hnow].
  - destruct (steps_do m s Hs) as [Hd _]. destruct (run_deeds _ _ _ _ _ _ _ (Hd j) Hx Hr) as (l & Hl & Hf).
    eapply (accounted_step w0 m m st); [by left|done|done|exact Hf|done|lia|by apply Hnow].
  - destruct (steps_do m s Hs) as [_ Hd]. destruct (run_deeds _ _ _ _ _ _ _ (Hd h j Hh) Hx Hr) as (l & Hl & Hf).
    eapply (accounted_step w0 m _ st _ w _ _ (fun _ => False)); [right; by intros d []|done|done|exact Hf|done|destruct b; lia|done].
  - destruct (steps_do m s Hs) as [_ Hd]. destruct (run_deeds _ _ _ _ _ _ _ (Hd h j Hh) Hx Hr) as (l & Hl & Hf).
    eapply (accounted_step w0 m m st _ w _ _ (fun _ => False)); [right; by intros d []|done|done|exact Hf|done|lia|done].
Qed.

(** What a step leaves behind it when it ends well, or is seen to have happened,
    is there for every step after it. *)
Lemma walk_evidence (i : nat) s (Ev : times -> list Event -> Prop) w0 n cut started w :
  steps !! i = Some s ->
  (forall st l l', Ev st l -> Ev st (l ++ l')) ->
  (forall st st' l, (forall x, (x <= Z.of_nat i)%Z -> st' x = st x) -> Ev st l -> Ev st' l) ->
  (forall j xs w d rest w', Current j = Z.of_nat i -> Forall undisturbed xs ->
     run (Do s j) xs w = (Some (d, None), rest, w') -> Ev (started_at j) (history w')) ->
  (forall h j xs w rest w', Happened s = Some h -> Current j = Z.of_nat i -> Forall undisturbed xs ->
     run (h j) xs w = (Some (Ok true), rest, w') -> Ev (started_at j) (history w')) ->
  Walk w0 n cut started w -> i < n -> Ev started (history w).
Proof.
  intros Hi Hmono Hext Hdo Hhap Hw.
  assert (Hnow : forall n t st l, i < n -> Ev st l -> Ev (started_now n t st) l).
  { intros m t st l Hlt. apply Hext. intros x Hx. unfold started_now. by rewrite bool_decide_false by lia. }
  assert (Hgrow : forall A (p : Prog A) xs st w o rest w',
    Forall undisturbed xs -> run p xs w = (o, rest, w') -> Ev st (history w) -> Ev st (history w')).
  { intros A p xs st v o rest w' Hs Hr Hv. destruct (run_grows _ _ _ _ _ _ Hs Hr) as [[l ->] _]. by apply Hmono. }
  induction Hw as [st|m cut st w w' Hw IH E|m st t w s' j xs d rest w' Hw IH Hs Hj Hx Hr|m st t w s' j xs o rest w' Hw IH Hs Hj Hx Hr Ho
                  |m st w s' h j xs b rest w' Hw IH Hs Hh Hj Hx Hr|m st w s' h j xs o rest w' Hw IH Hs Hh Hj Hx Hr]; intros Hlt.
  - lia.
  - rewrite E. by apply IH.
  - destruct (decide (i = m)) as [->|Hne]; [|apply Hnow; [lia|]; eapply Hgrow; [done..|apply IH; lia]].
    assert (s' = s) as -> by congruence. destruct Hj as [Hc Hst]. eapply (Hext (started_at j)); [by intros; rewrite (proj1 Hst)|by eapply Hdo].
  - apply Hnow; [lia|]. eapply Hgrow; [done..|apply IH; lia].
  - destruct (decide (i = m)) as [->|Hne]; [|eapply Hgrow; [done..|apply IH; destruct b; lia]].
    destruct b; [|lia]. assert (s' = s) as -> by congruence. destruct Hj as [Hc Hst].
    eapply (Hext (started_at j)); [by intros; rewrite (proj1 Hst)|by eapply Hhap].
  - eapply Hgrow; [done..|apply IH; lia].
Qed.

(** A property of the history that every step keeps, and that grows with each step
    passed. *)
Lemma walk_invariant (Inv : nat -> list Event -> Prop) w0 n cut started w :
  Inv 0 (history w0) ->
  (forall i s j v, steps !! i = Some s -> same_job job j -> Inv i (history v) ->
     wp undisturbed (fun u => Inv i (history u)) (Do s j) (fun o u => o.2 = None -> Inv (S i) (history u)) v) ->
  (forall i s h j v, steps !! i = Some s -> Happened s = Some h -> same_job job j -> Inv i (history v) ->
     wp undisturbed (fun u => Inv i (history u)) (h j) (fun r u => r = Ok true -> Inv (S i) (history u)) v) ->
  Walk w0 n cut started w -> Inv n (history w).
Proof.
  intros H0 Hdo Hhap.
  induction 1 as [st|m cut st w w' Hw IH E|m st t w s j xs d rest w' Hw IH Hs (_ & _ & Hj) Hx Hr|m st t w s j xs o rest w' Hw IH Hs (_ & _ & Hj) Hx Hr Ho
                  |m st w s h j xs b rest w' Hw IH Hs Hh (_ & _ & Hj) Hx Hr|m st w s h j xs o rest w' Hw IH Hs Hh (_ & _ & Hj) Hx Hr].
  - done.
  - by rewrite E.
  - destruct (wp_run _ _ _ _ _ _ _ _ _ (Hdo m s j w Hs Hj IH) Hx Hr) as (_ & Hq & _). by apply (Hq (d, None)).
  - by destruct (wp_run _ _ _ _ _ _ _ _ _ (Hdo m s j w Hs Hj IH) Hx Hr).
  - destruct (wp_run _ _ _ _ _ _ _ _ _ (Hhap m s h j w Hs Hh Hj IH) Hx Hr) as (Hi & Hq & _).
    destruct b; [by apply (Hq (Ok true))|done].
  - by destruct (wp_run _ _ _ _ _ _ _ _ _ (Hhap m s h j w Hs Hh Hj IH) Hx Hr).
Qed.

End Of.

(* ------------------------------------------------------------------ *)
(** ** A job carried out *)

(** A job carried out step by step, each step begun at [t]. *)
Definition begin_step (n : nat) (t : time) (j : Jobs.Job) : Jobs.Job :=
  Jobs.set_exec (on_step (Z.of_nat n) (s_started t) ∘ x_current (Z.of_nat n)) j.

Fixpoint perform (todo : list (Step Call)) (n : nat) (t : time) (j : Jobs.Job) (xs : list X) (w : W)
    : option (nat * Jobs.Job * W) :=
  match todo with
  | [] => Some (n, j, w)
  | s :: todo' =>
      match run (Do s (begin_step n t j)) xs w with
      | (Some (_, None), rest, w') => perform todo' (S n) t (begin_step n t j) rest w'
      | _ => None
      end
  end.

Lemma begin_step_started n t j i :
  n < length (Jobs.Steps j) -> started_at (begin_step n t j) i = started_now n t (started_at j) i.
Proof.
  intros Hn. unfold started_at, step_at, started_now. cbn. case_bool_decide as Hi; [case_bool_decide; [lia|done]|].
  rewrite Nat2Z.id. case_bool_decide as He.
  - subst i. rewrite Nat2Z.id, list_lookup_alter_eq. by apply lookup_lt_is_Some_2 in Hn as [s ->].
  - by rewrite list_lookup_alter_ne by lia.
Qed.

Lemma perform_walk steps job todo w0 n t j started xs w n' j' w' :
  drop n steps = todo -> n + length todo <= length (Jobs.Steps j) ->
  Forall undisturbed xs ->
  same_job job j -> Walk steps job w0 n false started w -> (forall i, started i = started_at j i) ->
  perform todo n t j xs w = Some (n', j', w') ->
  exists started', Walk steps job w0 n' false started' w' /\ forall i, started' i = started_at j' i.
Proof.
  revert n j started xs w. induction todo as [|s todo IH]; intros n j started xs w Hd Hl Hs Hsj Hw Hst; cbn [perform].
  { intros [= <- <- <-]. by exists started. }
  destruct (run (Do s (begin_step n t j)) xs w) as [[[[d [e|]]|] rest] w1] eqn:E; try done. intros Hp.
  destruct (run_grows _ _ _ _ _ _ Hs E) as [_ Hrest]. cbn in Hl.
  assert (Hb : forall i, started_now n t started i = started_at (begin_step n t j) i).
  { intros i. rewrite begin_step_started by lia. unfold started_now. by rewrite Hst. }
  eapply (IH (S n) (begin_step n t j) (started_now n t started) rest w1); [| |done|exact Hsj| |done|done].
  - change (S n) with (1 + n). by rewrite <- skipn_skipn, Hd.
  - unfold begin_step. cbn. rewrite length_alter. lia.
  - apply (Walk_done steps job w0 n started t w s (begin_step n t j) xs d rest w1); [done| |split; [done|split; [by intros; rewrite Hb|exact Hsj]]|done|done].
    rewrite <- (Nat.add_0_r n), <- lookup_drop, Hd. done.
Qed.

(** The walk a finished job is. *)
Lemma performed steps t j xs w0 n' j' w' :
  length steps <= length (Jobs.Steps j) -> Forall undisturbed xs ->
  perform steps 0 t j xs w0 = Some (n', j', w') ->
  exists started', Walk steps j w0 n' false started' w' /\ forall i, started' i = started_at j' i.
Proof.
  intros Hl Hs Hp. by eapply (perform_walk steps j steps w0 0 t j (started_at j) xs w0); [done|done|done|split|apply Walk_begin|done|].
Qed.
End Walks.
