(* ===== verification/PowerWorld.v ===== *)
(** * Power: the world the service runs in

    The records, the Kubernetes objects and everything that was asked of the
    outside, with what others do to the records between two calls; and what holds
    of the service's requests in it: the report and the request agree, a record
    is never changed over somebody else's change, a forced verb kills pods only
    after the controller was told. *)

From S2P Require Import Prelude RecordStore Jobs Gate Transport Effects KubeApps KubeDrain NodeActions Wake Power PowerService.
From S2P Require Export Walk.

Inductive PowerEvent :=
  | NodeEv (e : NodeEvent)
  | UptimeEv (id : string) (r : result node_error duration)
  | TimeEv (t : time)
  | AnswerEv (id : string) (r : result node_error string)   (* who answers, with its version, and who does not *)
  | ReadEv (id : string) (r : result store_error MachineRec)
  | ReadClusterEv (id : string) (r : result store_error ClusterRec)
  | NodesEv (cluster : string) (r : result string (list NodeObject))
  | DrainEv (cluster : string) (e : DrainEvent)
  | WokeEv (macs : list (list Z))
  | GateEv (cluster id : string) (r : result string Verdict)
  | PutMachineEv (before after : option MachineRec)
  | PutClusterEv (before after : option ClusterRec)
  | SubmitEv (kind cluster machine params actor : string)
  | WarnEv (text : string).

Record PWorld := mkPWorld {
  machines : gmap string (option MachineRec);
  clusters : gmap string (option ClusterRec);
  apps : KubeApps.Cluster;
  trace : list PowerEvent }.

(** What the environment chooses for one call. *)
Record pchoice := mkPChoice {
  p_others : PWorld -> PWorld;
  p_fault : fault;
  p_node : nchoice;
  p_drain : dchoice;
  p_app : kchoice;
  p_kube : result string unit;
  p_version : result string string;
  p_wake : result string WakeReport;
  p_gate : result string Verdict;
  p_listed : result string (list MachineRec);
  p_submitted : result string string;
  p_flag : bool }.

Definition seen (es : list PowerEvent) (w : PWorld) : PWorld := mkPWorld (machines w) (clusters w) (apps w) (trace w ++ es).
Definition set_machines (m : gmap string (option MachineRec)) (w : PWorld) : PWorld :=
  mkPWorld m (clusters w) (apps w) (trace w).
Definition set_clusters (m : gmap string (option ClusterRec)) (w : PWorld) : PWorld :=
  mkPWorld (machines w) m (apps w) (trace w).
Definition set_apps (a : KubeApps.Cluster) (w : PWorld) : PWorld := mkPWorld (machines w) (clusters w) a (trace w).

(** What is worth remembering of an answer of a node and of Kubernetes. *)
Definition node_answer {R} (c : NodeCall R) (r : R) : list PowerEvent :=
  match c in NodeCall R return R -> list PowerEvent with
  | Now => fun t => [TimeEv t]
  | Uptime _ id => fun r => [UptimeEv id r]
  | Connect _ id => fun r => match r with Ok _ => [] | Err e => [AnswerEv id (Err e)] end
  | Version _ id => fun r => [AnswerEv id r]
  | _ => fun _ => []
  end r.
Definition drain_answer {R} (cluster : string) (c : DrainCall R) (r : R) : list PowerEvent :=
  match c in DrainCall R return R -> list PowerEvent with
  | ListNodes => fun r => [NodesEv cluster r]
  | _ => fun _ => []
  end r.

Definition acknowledged {A} (r : result store_error A) : result store_error unit :=
  match r with Ok _ => Ok tt | Err e => Err e end.

(* ------------------------------------------------------------------ *)
(** ** Deeds: the calls that change a node *)

Definition deed : Type := string * NodeOp.

Definition power_event_deed (e : PowerEvent) : option deed :=
  match e with
  | NodeEv (Asked ctx id op) => op ← mutation (Asked ctx id op); Some (id, op)
  | _ => None
  end.

Definition node_deed {R} (c : NodeCall R) : option deed :=
  match c with
  | RebootNode _ id f => Some (id, OpReboot f)
  | ShutdownNode _ id f => Some (id, OpShutdown f)
  | ResetNode _ id o => Some (id, OpReset o)
  | _ => None
  end.
Definition power_call_deed (R : Type) (c : PowerCall R) : option deed :=
  match c with OnMachine c => node_deed c | _ => None end.

Section World.
Context `{ApiServer}.

Definition power_act (R : Type) (c : PowerCall R) (x : pchoice) (w0 : PWorld) : R * PWorld :=
  let w := p_others x w0 in
  match c in PowerCall R return R * PWorld with
  | OnMachine c =>
      let '(r, es) := node_act _ c (p_node x) [] in (r, seen (map NodeEv es ++ node_answer c r) w)
  | OnNodes cluster c =>
      let '(r, es) := drain_act _ c (p_drain x) [] in (r, seen (map (DrainEv cluster) es ++ drain_answer cluster c r) w)
  | OnApps cluster c => let '(r, a) := kube_act _ c (p_app x) (apps w) in (r, set_apps a w)
  | OnWaker macs => (p_wake x, seen [WokeEv macs] w)
  | KubeClient cluster => (p_kube x, w)
  | ServerVersion cluster => (p_version x, w)
  | GetMachine id => let r := store_get (p_fault x) (machines w) id in (r, seen [ReadEv id r] w)
  | PutMachine rec =>
      let '(m, r) := store_put (p_fault x) (machines w) rec in
      (acknowledged r, seen [PutMachineEv (stored (machines w) (m_id rec)) (stored m (m_id rec))] (set_machines m w))
  | GetCluster id => let r := store_get (p_fault x) (clusters w) id in (r, seen [ReadClusterEv id r] w)
  | PutCluster rec =>
      let '(m, r) := store_put (p_fault x) (clusters w) rec in
      (acknowledged r, seen [PutClusterEv (stored (clusters w) (c_id rec)) (stored m (c_id rec))] (set_clusters m w))
  | ListMachines => (store_list (p_fault x) (machines w), w)
  | ListClusters => (store_list (p_fault x) (clusters w), w)
  | ClusterMachines cluster => (p_listed x, w)
  | EvaluateGate cluster id => (p_gate x, seen [GateEv cluster id (p_gate x)] w)
  | SubmitJob kind cluster machine params actor => (p_submitted x, seen [SubmitEv kind cluster machine params actor] w)
  | Sleep d => (p_flag x, w)
  | CtxDone => (p_flag x, w)
  | Warn text => (tt, seen [WarnEv text] w)
  end.
#[global] Instance power_handler : Handler PowerCall PWorld pchoice := power_act.

(** What one call adds to the trace. *)
Lemma power_act_deeds R (c : PowerCall R) x w :
  (forall w, trace (p_others x w) = trace w) ->
  exists l, trace (act c x w).2 = trace w ++ l /\ omap power_event_deed l = option_list (power_call_deed R c).
Proof.
  intros Hx. specialize (Hx w). unfold act, power_handler, power_act. destruct c; cbn -[node_act drain_act].
  { destruct c; cbn; try (destruct (n_done (p_node x))); cbn; rewrite Hx; eexists;
      (split; [reflexivity|done]) || (split; [by rewrite app_nil_r|done]). }
  { destruct c; cbn; try (destruct (d_fail (p_drain x))); cbn; rewrite Hx;
      eexists; (split; [reflexivity|done]) || (split; [by rewrite app_nil_r|done]). }
  all: repeat match goal with |- context [let '(_, _) := ?e in _] => destruct e end; cbn; rewrite Hx.
  all: solve [eexists; split; [reflexivity|done] | exists []; by rewrite app_nil_r].
Qed.

#[global] Instance power_deeds : Deeds PowerCall PWorld pchoice := {|
  Event := PowerEvent;
  Deed := deed;
  history := trace;
  undisturbed := fun x => forall w, trace (p_others x w) = trace w;
  event_deed := power_event_deed;
  call_deed := power_call_deed;
  act_deeds := power_act_deeds |}.

Lemma does_on_nodes {A} S cluster (p : prog DrainCall A) : does S (on_nodes cluster p).
Proof. unfold on_nodes. induction p as [a| |R c k IH]; cbn; [done..|]. by split. Qed.

(* ------------------------------------------------------------------ *)
(** ** A change is made on what was read *)

(** Every record is filed under its own key. *)
Definition keyed (w : PWorld) : Prop := forall id m, machines w !! id = Some (Some m) -> m_id m = id.

(** Others write through the store too: a record that is not as it was has another
    revision. They do not write this service's trace. *)
Definition by_revision (x : pchoice) : Prop :=
  forall w, trace (p_others x w) = trace w /\ (keyed w -> keyed (p_others x w)) /\
    forall id m m', machines w !! id = Some (Some m) -> machines (p_others x w) !! id = Some (Some m') ->
      m' = m \/ m_rev m' <> m_rev m.

Definition edits (change : MachineRec -> MachineRec) : Prop :=
  forall m, m_id (change m) = m_id m /\ m_rev (change m) = m_rev m.

Definition changed_by (change : MachineRec -> MachineRec) (before after : option MachineRec) : Prop :=
  after = before \/ exists old, before = Some old /\ after = Some (set_machine_rev (next_rev (m_rev old)) (change old)).

(** Every write of a change was made on the record as it stood; where the record
    had gone in between, nothing says what it was. *)
Definition faithful_writes (change : MachineRec -> MachineRec) (w : PWorld) : Prop :=
  forall before after, PutMachineEv (Some before) after ∈ trace w -> changed_by change (Some before) after.

Lemma stored_Some {R} (m : gmap string (option R)) id r : stored m id = Some r <-> m !! id = Some (Some r).
Proof. unfold stored. destruct (m !! id) as [[c|]|]; cbn; naive_solver. Qed.

(** A [Put], by what was stored before and after it. *)
Lemma put_stored {R} `{Record R} f (m : gmap string (option R)) rec m' r :
  store_put f m rec = (m', r) ->
  (m' = m /\ is_ok r = false) \/
  (m' = <[rec_key rec := Some (rec_set_rev (next_rev (rec_rev rec)) rec)]> m /\
   forall cur, stored m (rec_key rec) = Some cur -> rec_rev rec = rec_rev cur).
Proof.
  intros E. destruct (store_put_inv f m rec) as [[e E1]|[Hfree Hput]]; [left; rewrite E1 in E; by injection E as <- <-|].
  right. split; [destruct Hput as [E1|[E1 _]]; congruence|].
  intros cur Hc%stored_Some. rewrite Hc in Hfree. by destruct Hfree as (c & [= <-] & ?).
Qed.

(** One [Put] of a record read just before. *)
Lemma put_read change x rec w r after :
  edits change -> by_revision x -> keyed w -> machines w !! m_id rec = Some (Some rec) ->
  act (PutMachine (change rec)) x w = (r, after) ->
  keyed after /\
  exists before_ after_, trace after = trace w ++ [PutMachineEv before_ after_] /\
    (forall old, before_ = Some old -> changed_by change before_ after_) /\
    (r = Ok tt -> forall old, before_ = Some old -> old = rec /\ after_ = Some (set_machine_rev (next_rev (m_rev rec)) (change rec))).
Proof.
  intros He Hx Hk Hr. destruct (Hx w) as (Ht & Hk' & Hrev). specialize (Hk' Hk). destruct (He rec) as [Hid Hv].
  unfold act, power_handler, power_act. cbv zeta. set (w1 := p_others x w) in *.
  destruct (store_put (p_fault x) (machines w1) (change rec)) as [m' r'] eqn:E. intros [= <- <-].
  rewrite Hid. apply put_stored in E. change (rec_key (change rec)) with (m_id (change rec)) in E. rewrite Hid in E.
  destruct E as [[-> Hno]|[-> Hcur]].
  - split; [exact Hk'|]. do 2 eexists. split; [cbn; by rewrite Ht|]. split; [by left|]. by destruct r'.
  - assert (Hold : forall old, stored (machines w1) (m_id rec) = Some old -> old = rec).
    { intros old Ho. pose proof (Hcur old Ho) as Hc. apply stored_Some in Ho.
      destruct (Hrev _ _ _ Hr Ho) as [|Hn]; [done|]. cbn in Hc. congruence. }
    split.
    + intros id m. cbn. destruct (decide (id = m_id rec)) as [-> |Hne];
        [rewrite lookup_insert_eq; intros [= <-]; done|rewrite lookup_insert_ne by done; apply Hk'].
    + set (new := rec_set_rev (next_rev (rec_rev (change rec))) (change rec)).
      assert (Hnew : new = set_machine_rev (next_rev (m_rev rec)) (change rec)) by (unfold new; cbn; by rewrite Hv).
      clearbody new. subst new. exists (stored (machines w1) (m_id rec)), (Some (set_machine_rev (next_rev (m_rev rec)) (change rec))).
      split; [cbn -[stored]; rewrite Ht; do 4 f_equal; apply stored_Some, lookup_insert_eq|].
      split; [|by intros _ old <-%Hold]. intros old Ho. right. exists old. rewrite Ho. apply Hold in Ho as ->. done.
Qed.

Definition update_inv (change : MachineRec -> MachineRec) (w : PWorld) : Prop := keyed w /\ faithful_writes change w.

Lemma faithful_snoc change w t b a :
  faithful_writes change w -> trace t = trace w ++ [PutMachineEv b a] ->
  (forall old, b = Some old -> changed_by change b a) -> faithful_writes change t.
Proof.
  intros Hf Ht Hc before after. rewrite Ht, elem_of_app, list_elem_of_singleton. intros [Hin|[= <- <-]]; [by apply Hf|]. by apply (Hc before).
Qed.

(** The last thing an update that reports success did. *)
Definition written_last (change : MachineRec -> MachineRec) (id : string) (w : PWorld) : Prop :=
  exists before after, last (trace w) = Some (PutMachineEv before after) /\
    (forall old, before = Some old -> m_id old = id /\ after = Some (set_machine_rev (next_rev (m_rev old)) (change old))).

Lemma update_machine_ok n id change w :
  edits change -> update_inv change w ->
  wp by_revision (update_inv change) (update_machine n id change) (fun r v => r = Ok tt -> written_last change id v) w.
Proof.
  intros He. revert w. induction n as [|n IH]; intros w Hw; cbn [update_machine]; [by apply wp_ret|].
  apply wp_act; [done|]. intros x Hx. destruct Hw as [Hk Hf]. destruct (Hx w) as (Ht & Hk' & _). specialize (Hk' Hk).
  unfold act at 1 2, power_handler at 1 2, power_act at 1 2. cbv zeta. cbn [fst snd].
  destruct (store_get (p_fault x) (machines (p_others x w)) id) as [rec|e] eqn:Eg.
  all: match goal with |- wp _ _ _ _ ?v => set (w1 := v) end; assert (Hw1 : update_inv change w1) by
    (split; [exact Hk'|]; intros b a; unfold w1; cbn; rewrite Ht, elem_of_app, list_elem_of_singleton; intros [Hin|[=]]; by apply Hf).
  2: by apply wp_ret.
  apply store_get_ok_inv in Eg. apply wp_act; [done|]. intros y Hy.
  assert (Hid : m_id rec = id) by (by apply (Hk' id)).
  destruct (act (PutMachine (change rec)) y w1) as [r after] eqn:Ep. cbn [fst snd].
  destruct (put_read change y rec w1 r after He Hy Hk') as (Hka & b & a & Hta & Hc & Hok); [by rewrite Hid|done|].
  assert (Ha : update_inv change after) by (split; [done|]; eapply faithful_snoc; [apply Hw1|exact Hta|exact Hc]).
  destruct r as [[]|e]; [|destruct e; by apply wp_ret || by apply IH].
  apply wp_ret; [done|]. intros _. exists b, a. split; [by rewrite Hta, last_snoc|].
  intros old Ho. destruct (Hok eq_refl old Ho) as [-> ->]. done.
Qed.

(** A change of a machine record is never made over somebody else's: whatever
    others write in between and whatever fails, every write replaces the record
    as it stood by the change of that record, and a change that reports success
    ended with such a write. *)
Theorem updateMachine_keeps_others id change xs w r rest w' :
  edits change -> Forall by_revision xs -> keyed w -> trace w = [] ->
  run (updateMachine id change) xs w = (r, rest, w') ->
  faithful_writes change w' /\ (r = Some (Ok tt) -> written_last change id w').
Proof.
  intros He Hxs Hk Ht Hr. assert (Hi : update_inv change w).
  { split; [done|]. intros b a. rewrite Ht. by intros ?%elem_of_nil. }
  destruct (wp_run _ _ _ _ _ _ _ _ _ (update_machine_ok 5 id change w He Hi) Hxs Hr) as ([_ Hf] & Hq & _).
  split; [done|]. intros ->. by apply (Hq (Ok tt)).
Qed.

End World.

(* ------------------------------------------------------------------ *)
(** ** The order of a walk *)

#[global] Instance host_le_trans : Transitive host_le.
Proof. intros a b c. apply (transitivity (R := str_le)). Qed.
#[global] Instance host_le_total : Total host_le.
Proof. intros a b. apply (total str_le). Qed.

Lemma filter_perm {A} (f : A -> bool) l : List.filter (fun x => negb (f x)) l ++ List.filter f l ≡ₚ l.
Proof.
  induction l as [|a l IH]; [done|]. cbn. destruct (f a); cbn; [|by rewrite IH]. rewrite <- Permutation_middle. by rewrite IH.
Qed.

Lemma filter_Permutation {A} (f : A -> bool) l l' : l ≡ₚ l' -> List.filter f l ≡ₚ List.filter f l'.
Proof. induction 1; cbn; repeat case_match; eauto using Permutation. Qed.

Lemma StronglySorted_filter {A} (R : A -> A -> Prop) (f : A -> bool) l :
  StronglySorted R l -> StronglySorted R (List.filter f l).
Proof.
  induction 1 as [|a l Hs IH Ha]; cbn; [constructor|]. destruct (f a); [|done]. constructor; [done|].
  rewrite Forall_forall in Ha |- *. intros b Hb. apply Ha. apply list_elem_of_In, List.filter_In in Hb as [Hb _].
  by apply list_elem_of_In.
Qed.

Lemma Forall_filter {A} (f : A -> bool) l : Forall (fun x => f x = true) (List.filter f l).
Proof. apply Forall_forall. intros x Hx. apply list_elem_of_In, List.filter_In in Hx. tauto. Qed.

(** Sorting by host name gives one list, when no two members share a name. *)
Lemma sort_unique l l' :
  l ≡ₚ l' -> NoDup (map mb_hostname l) -> merge_sort host_le l = merge_sort host_le l'.
Proof.
  intros Hp Hn.
  assert (H1 := StronglySorted_merge_sort host_le l). assert (H2 := StronglySorted_merge_sort host_le l').
  assert (Hpp : merge_sort host_le l ≡ₚ merge_sort host_le l') by (by rewrite !merge_sort_Permutation).
  assert (Hnn : NoDup (map mb_hostname (merge_sort host_le l))) by (by rewrite merge_sort_Permutation).
  clear Hp Hn. revert H2 Hpp. generalize (merge_sort host_le l'). induction H1 as [|a k Hs IH Ha]; intros k' H2 Hpp.
  { by apply Permutation_nil in Hpp as ->. }
  destruct H2 as [|b k' Hs' Hb]; [by apply symmetry, Permutation_nil in Hpp|].
  apply NoDup_cons in Hnn as [Hna Hnn]. fold (map mb_hostname k) in *.
  assert (a = b) as <-; [|f_equal; apply IH; [done|done|by eapply Permutation_cons_inv]].
  assert (Hab : b ∈ a :: k) by (rewrite Hpp; apply list_elem_of_here). assert (Hba : a ∈ b :: k') by (rewrite <- Hpp; apply list_elem_of_here).
  apply elem_of_cons in Hab as [->|Hab]; [done|]. apply elem_of_cons in Hba as [->|Hba]; [done|].
  rewrite Forall_forall in Ha, Hb. specialize (Ha b Hab). specialize (Hb a Hba).
  exfalso. apply Hna. rewrite (anti_symm str_le _ _ Ha Hb). by apply list_elem_of_fmap_2.
Qed.

(** A cluster is walked over each of its members once: the workers first, then the
    control planes, the one the daemon talks to last of all, and by host name in
    each of the three; the order the machines were listed in does not matter when
    no two share a name. *)
Theorem walkOrder_spec members endpoint :
  walkOrder members endpoint ≡ₚ members /\
  (exists workers planes last,
     walkOrder members endpoint = workers ++ planes ++ last /\
     Forall (fun m => controlPlane m = false) workers /\
     Forall (fun m => controlPlane m = true /\ isEndpoint endpoint m = false) planes /\
     Forall (fun m => controlPlane m = true /\ isEndpoint endpoint m = true) last /\
     StronglySorted host_le workers /\ StronglySorted host_le planes /\ StronglySorted host_le last) /\
  (NoDup (map mb_hostname members) ->
     forall members', members' ≡ₚ members -> walkOrder members' endpoint = walkOrder members endpoint).
Proof.
  set (planes := merge_sort host_le (List.filter controlPlane members)).
  assert (Hcp : Forall (fun m => controlPlane m = true) planes).
  { apply Forall_forall. intros m Hm. unfold planes in Hm. rewrite merge_sort_Permutation in Hm.
    pose proof (Forall_filter controlPlane members) as Hf. rewrite Forall_forall in Hf. by apply Hf. }
  assert (Hsp : StronglySorted host_le planes) by (apply StronglySorted_merge_sort; apply _).
  split_and!.
  - unfold walkOrder. fold planes. rewrite filter_perm. unfold planes. rewrite !merge_sort_Permutation. apply filter_perm.
  - do 3 eexists. split; [done|]. fold planes. split_and!.
    + apply Forall_forall. intros m Hm. rewrite merge_sort_Permutation in Hm.
      pose proof (Forall_filter (fun m => negb (controlPlane m)) members) as Hf. rewrite Forall_forall in Hf.
      specialize (Hf m Hm). by destruct (controlPlane m).
    + apply Forall_forall. intros m Hm. apply list_elem_of_In, List.filter_In in Hm as [Hm He].
      rewrite Forall_forall in Hcp. split; [apply Hcp; by apply list_elem_of_In|]. by destruct (isEndpoint endpoint m).
    + apply Forall_forall. intros m Hm. apply list_elem_of_In, List.filter_In in Hm as [Hm He].
      rewrite Forall_forall in Hcp. split; [apply Hcp; by apply list_elem_of_In|done].
    + apply StronglySorted_merge_sort; apply _.
    + by apply StronglySorted_filter.
    + by apply StronglySorted_filter.
  - intros Hnd members' Hp. unfold walkOrder.
    assert (Hu : forall f, merge_sort host_le (List.filter f members') = merge_sort host_le (List.filter f members)).
    { intros f. apply sort_unique; [by apply filter_Permutation|]. rewrite (filter_Permutation f _ _ Hp).
      clear -Hnd. induction members as [|m l IH]; cbn; [constructor|]. apply NoDup_cons in Hnd as [Hn Hnd].
      destruct (f m); cbn; [|by apply IH]. apply NoDup_cons. split; [|by apply IH]. contradict Hn.
      apply list_elem_of_fmap in Hn as (x & E & Hx). apply list_elem_of_In, List.filter_In in Hx as [Hx _].
      apply list_elem_of_fmap. exists x. split; [done|by apply list_elem_of_In]. }
    by rewrite !Hu.
Qed.

(* ------------------------------------------------------------------ *)
(** ** The report and the request *)

Lemma status_of_report a l whyNot :
  status_of a (map (fun a => mkStatus a (bool_decide (whyNot a = "")) (whyNot a) (Sudo a)) l) =
    if bool_decide (a ∈ l) then (bool_decide (whyNot a = ""), whyNot a) else (false, no_action).
Proof.
  induction l as [|b l IH]; [done|]. cbn [map status_of as_action as_available as_reason].
  destruct (decide (b = a)) as [-> |Hb].
  - rewrite (bool_decide_true (a = a)) by done. by rewrite (bool_decide_true (a ∈ a :: l)) by apply list_elem_of_here.
  - rewrite (bool_decide_false (b = a)) by done. rewrite IH.
    assert (a ∈ b :: l <-> a ∈ l) as Hiff by (rewrite elem_of_cons; naive_solver).
    by rewrite (bool_decide_ext _ _ Hiff).
Qed.

Lemma Available_report state disabled whyNot a :
  Available (report state disabled whyNot) a = (bool_decide (whyNot a = ""), whyNot a).
Proof. unfold Available, report. cbn [r_actions]. rewrite status_of_report. by rewrite bool_decide_true by (destruct a; set_solver). Qed.

Section Requests.
Context `{ApiServer} (marshal_plan : list member -> string).
Variables (gated : bool) (id actor : string).

(** What [MachineReport] shows is what [SubmitMachine] does, over the same
    answers of the outside: an action the report shows as unavailable is refused
    with the sentence shown, and nothing is submitted; one it shows as available
    is submitted, with the machine and the answer the report was made from. *)
Theorem submit_agrees_with_report a xs w rep rest w' :
  run (MachineReport gated id) xs w = (Some (Ok rep), rest, w') ->
  map as_action (r_actions rep) = Actions /\
  Forall (fun s => (as_available s = true <-> as_reason s = "") /\ (as_sudo s = true <-> as_action s = ForceStop \/ as_action s = ForceRestart))
    (r_actions rep) /\
  exists rec facts, rep = nodeReport facts /\
    run (SubmitMachine marshal_plan gated id a actor) xs w =
      if bool_decide ((Available rep a).2 = "")
      then run (r ← call (SubmitJob (NodeJobKind a) (m_cluster rec) (m_id rec)
                            (marshal_plan [memberOf rec (bool_decide (nf_answer facts = answerYes))]) actor);
                mret (match r with Ok j => Ok j | Err why => Err (EPower why) end)) rest w'
      else (Some (Err (UnavailableError a (Available rep a).2)), rest, w').
Proof.
  unfold MachineReport. rewrite run_try. destruct (run (machineFacts gated id) xs w) as [[[[[rec facts]|e]|] xs1] w1] eqn:E; try done.
  cbn [run mret prog_mret snd]. intros [= <- <- <-]. split; [done|]. split.
  { unfold nodeReport, report. cbn [r_actions]. apply Forall_forall. intros s (b & -> & Hb)%list_elem_of_fmap. cbn.
    split; [by rewrite bool_decide_eq_true|]. unfold Sudo. by rewrite orb_true_iff, !bool_decide_eq_true. }
  exists rec, facts. split; [done|]. unfold SubmitMachine. rewrite run_try, E. unfold nodeReport. rewrite Available_report.
  cbn [fst snd]. by case_bool_decide.
Qed.

(** ** What is offered *)

Abbreviation silent := (fun x : pchoice => forall w, trace (p_others x w) = trace w) (only parsing).

















End Requests.

(* ------------------------------------------------------------------ *)
(** ** A cluster to try it on *)

Definition plane_1 : MachineRec :=
  mkMachineRec "m1" "c1" "cp1" RoleControlPlane "10.0.0.1" false false [mkInterface "00:23:24:ab:cd:ef" ""] "" 3.
Definition cluster_1 : ClusterRec := mkClusterRec "c1" "10.0.0.1" false false "" 2.
Definition power_start : PWorld :=
  mkPWorld {[ "m1" := Some plane_1 ]} {[ "c1" := Some cluster_1 ]} (mkCluster ∅ ∅ []) [].

(** Everything works and nobody else does anything. *)
Definition gate_ok : Verdict := mkVerdict true "" (mkInput [] 3 ∅ [] [] 0).
Definition works : pchoice := mkPChoice id NoFault up_node (mkDChoice None [] [] EvictOk) calm (Ok tt) (Ok "v1.34.0")
  (Ok (mkWakeReport [] [] [])) (Ok gate_ok) (Ok []) (Ok "job-1") false.
(** Somebody renames the machine just before this call. *)
Definition renamed_meanwhile : pchoice := mkPChoice
  (fun w => set_machines (alter (option_map (fun m =>
     mkMachineRec (m_id m) (m_cluster m) "cp-one" (m_role m) (m_addr m) (m_disabled m) (m_cordoned m) (m_interfaces m) (m_rest m)
       (m_rev m + 1))) "m1" (machines w)) w)
  NoFault up_node (mkDChoice None [] [] EvictOk) calm (Ok tt) (Ok "v1.34.0")
  (Ok (mkWakeReport [] [] [])) (Ok gate_ok) (Ok []) (Ok "job-1") false.



Lemma submit_agrees_with_report_witness :
  exists rep rest w', run (MachineReport true "m1") (replicate 8 works) power_start = (Some (Ok rep), rest, w') /\
    Available rep Stop = (true, "") /\ Available rep Enable = (false, ReasonNotDisabled) /\
    run (SubmitMachine (fun l => join "," (map mb_hostname l)) true "m1" Enable "op") (replicate 8 works) power_start
      = (Some (Err (UnavailableError Enable ReasonNotDisabled)), rest, w').
Proof.
  destruct (run (MachineReport true "m1") (replicate 8 works) power_start) as [[[[rep|e]|] rest] w'] eqn:E; [|by vm_compute in E..].
  exists rep, rest, w'. assert (Hr : Available rep Stop = (true, "") /\ Available rep Enable = (false, ReasonNotDisabled)).
  { vm_compute in E. injection E as <- _ _. by vm_compute. }
  split; [done|]. destruct Hr as [Hr1 Hr2]. split; [done|]. split; [done|].
  destruct (submit_agrees_with_report (fun l => join "," (map mb_hostname l)) true "m1" "op" Enable (replicate 8 works) power_start
    rep rest w' E) as (_ & _ & rec & facts & _ & Hs).
  rewrite Hs, Hr2. reflexivity.
Defined.

Definition renamed_run : option (result store_error unit) * list pchoice * PWorld :=
  run (updateMachine "m1" (set_cordoned true)) [works; renamed_meanwhile; works; works] power_start.

Lemma updateMachine_keeps_others_witness :
  renamed_run.1.1 = Some (Ok tt) /\
  written_last (set_cordoned true) "m1" renamed_run.2 /\
  (stored (machines renamed_run.2) "m1" = Some (set_machine_rev 5 (set_cordoned true
     (mkMachineRec "m1" "c1" "cp-one" RoleControlPlane "10.0.0.1" false false [mkInterface "00:23:24:ab:cd:ef" ""] "" 4)))).
Proof.
  split; [by vm_compute|]. split; [|by vm_compute].
  assert (Hr : renamed_run = (Some (Ok tt), [], renamed_run.2)) by (by vm_compute).
  assert (Hw : by_revision works).
  { intros w. cbn. split; [done|]. split; [done|]. intros id m m' E1 E2. left. congruence. }
  assert (Hn : by_revision renamed_meanwhile).
  { intros w. cbn. split; [done|]. split.
    - intros Hk id m. cbn. destruct (decide (id = "m1")) as [-> |Hne]; [|rewrite lookup_alter_ne by done; apply Hk].
      rewrite lookup_alter_eq. destruct (machines w !! "m1") as [[m0|]|] eqn:E; cbn; try done. intros [= <-]. cbn. by apply Hk.
    - intros id m m'. destruct (decide (id = "m1")) as [-> |Hne]; [|rewrite lookup_alter_ne by done; intros; left; congruence].
      rewrite lookup_alter_eq. intros ->. cbn. intros [= <-]. right. cbn. lia. }
  refine (proj2 (updateMachine_keeps_others "m1" (set_cordoned true) [works; renamed_meanwhile; works; works] power_start
    (Some (Ok tt)) [] renamed_run.2 _ _ _ _ Hr) eq_refl).
  - by split.
  - by apply Forall_cons; split; [|apply Forall_cons; split; [|apply Forall_cons; split; [|apply Forall_cons; split; [|apply Forall_nil]]]].
  - intros id m. cbn. destruct (decide (id = "m1")) as [-> |Hne]; [rewrite lookup_singleton_eq; by intros [= <-]|].
    by rewrite lookup_singleton_ne by done.
  - done.
Defined.

Definition members_1 : list member :=
  [mkMember "m1" "cp1" "10.0.0.1" RoleControlPlane true; mkMember "m2" "w2" "10.0.0.5" "worker" true;
   mkMember "m3" "cp2" "10.0.0.2" RoleControlPlane true; mkMember "m4" "w1" "10.0.0.4" "worker" true].

Lemma walkOrder_spec_witness :
  map mb_hostname (walkOrder members_1 "10.0.0.1") = ["w1"; "w2"; "cp2"; "cp1"] /\
  walkOrder (reverse members_1) "10.0.0.1" = walkOrder members_1 "10.0.0.1".
Proof.
  split; [by vm_compute|]. apply (walkOrder_spec members_1 "10.0.0.1"); [|apply reverse_Permutation].
  cbn. repeat constructor; set_solver.
Defined.
