(* ===== verification/PowerTouch.v ===== *)
(** * Power: what a job touches

    Beside what it sends to the nodes themselves, a power job changes node objects
    of Kubernetes, evicts pods, writes records and wakes machines. Here is what of
    that a job may do, said of the history of the world, and that every walk of
    [Walk.v] through its steps keeps to it: a node object is only patched when
    Kubernetes told it to be a member's, a pod only evicted that was listed on such
    a node, a record only written as the change of one read under a member's name,
    a card only woken that such a record has. *)

From S2P Require Import Prelude RecordStore Jobs Gate Transport Effects KubeApps KubeDrain NodeActions Wake Power PowerService PowerSteps PowerWorld.

Section Touch.
Context `{ApiServer}.

(* ------------------------------------------------------------------ *)
(** ** What a job may touch *)

(** What a job is for: its cluster and its members, which way it may patch a node
    object, what it may drain, change and wake, and what has to be known of a
    member before its node is patched or drained. *)
Record charter := mkCharter {
  ch_cluster : string;
  ch_members : list member;
  ch_patches : bool -> Prop;
  ch_drains : member -> Prop;
  ch_changes : (MachineRec -> MachineRec) -> Prop;
  ch_cluster_changes : (ClusterRec -> ClusterRec) -> Prop;
  ch_wakes : Prop;
  ch_ready : member -> list PowerEvent -> Prop }.

(** A node is a member's when it has its host name, or, where no node has, its
    address. *)
Definition names_member (m : member) (n : Node) (nodes : list Node) : Prop :=
  equal_fold (NodeName n) (mb_hostname m) = true \/
  (mb_addr m <> "" /\ InternalAddress n = mb_addr m /\
   forall n', n' ∈ nodes -> equal_fold (NodeName n') (mb_hostname m) = false).

(** Kubernetes told that this is the node object of the member. *)
Definition node_object (cluster : string) (m : member) (name : string) (pre : list PowerEvent) : Prop :=
  exists nodes n, NodesEv cluster (Ok nodes) ∈ pre /\ n ∈ map node_of nodes /\ names_member m n (map node_of nodes) /\ NodeName n = name.

Lemma find_node_names nodes m n : find_node nodes m = Some n -> n ∈ nodes /\ names_member m n nodes.
Proof.
  unfold find_node. destruct (list_find _ nodes) as [[i x]|] eqn:E.
  - intros [= <-]. apply list_find_Some in E as (Hi & Hx & _). split; [by eapply list_elem_of_lookup_2|by left].
  - destruct (list_find (fun n => mb_addr m <> "" /\ _) nodes) as [[i x]|] eqn:E2; [|done]. intros [= <-].
    apply list_find_Some in E2 as (Hi & [Ha Hx] & _). split; [by eapply list_elem_of_lookup_2|]. right. split_and!; [done..|].
    intros n' Hn. apply list_find_None in E. rewrite Forall_forall in E. by apply not_true_is_false, E.
Qed.

(** The record of a member, as it was read. *)
Definition was_read (m : member) (rec : MachineRec) (pre : list PowerEvent) : Prop := ReadEv (mb_machine m) (Ok rec) ∈ pre.

Definition touches (c : charter) (pre : list PowerEvent) (e : PowerEvent) : Prop :=
  match e with
  | DrainEv cluster (DPatched name b) =>
      cluster = ch_cluster c /\ ch_patches c b /\
      exists m, m ∈ ch_members c /\ node_object cluster m name pre /\ ch_ready c m pre
  | DrainEv cluster (DEvicted ns name _ _) =>
      cluster = ch_cluster c /\
      exists m node pods p, m ∈ ch_members c /\ ch_drains c m /\ node_object cluster m node pre /\ ch_ready c m pre /\
        DrainEv cluster (DListed node pods) ∈ pre /\ p ∈ pods /\ PodNamespace p = ns /\ PodName p = name
  | PutMachineEv before after =>
      after = before \/
      exists m rec change, m ∈ ch_members c /\ was_read m rec pre /\ ch_changes c change /\
        after = Some (set_machine_rev (next_rev (m_rev rec)) (change rec))
  | PutClusterEv before after =>
      after = before \/
      exists rec change, ReadClusterEv (ch_cluster c) (Ok rec) ∈ pre /\ ch_cluster_changes c change /\
        after = Some (set_cluster_rev (next_rev (c_rev rec)) (change rec))
  | WokeEv macs =>
      ch_wakes c /\ forall mac, mac ∈ macs ->
        exists m rec text, m ∈ ch_members c /\ was_read m rec pre /\ text ∈ macsOf rec /\ mac = default [] (ParseMAC text)
  | SubmitEv _ _ _ _ _ => False
  | _ => True
  end.

Definition justified (c : charter) (l : list PowerEvent) : Prop :=
  forall pre e post, l = pre ++ e :: post -> touches c pre e.

Lemma justified_nil c : justified c [].
Proof. intros [|] e post; discriminate. Qed.

Lemma justified_snoc c l e : justified c l -> touches c l e -> justified c (l ++ [e]).
Proof.
  intros Hl He pre e' post E. destruct post as [|x post _] using rev_ind.
  - apply app_inj_tail in E as [-> ->]. done.
  - rewrite app_comm_cons, (assoc_L (++)) in E. apply app_inj_tail in E as [E _]. by apply (Hl pre e' post).
Qed.

Lemma justified_app c l es :
  justified c l -> Forall (fun e => forall pre, touches c pre e) es -> justified c (l ++ es).
Proof.
  intros Hl He. revert l Hl. induction He as [|e es He _ IH]; intros l Hl; [by rewrite app_nil_r|].
  change (e :: es) with ([e] ++ es). rewrite (assoc_L (++)). apply IH. by apply justified_snoc.
Qed.

Section Charter.
Variable c : charter.

Abbreviation silent := (fun x : pchoice => forall w, trace (p_others x w) = trace w) (only parsing).

(** A program that keeps to the charter from here on, and what it answers. *)
Definition keeps {A} (p : prog PowerCall A) (Q : A -> list PowerEvent -> Prop) (w : PWorld) : Prop :=
  justified c (trace w) ->
  wp silent (fun u => justified c (trace u) /\ trace w `prefix_of` trace u) p (fun r u => Q r (trace u)) w.

Abbreviation anything := (fun _ _ => True) (only parsing).

Lemma charter_ret {A} (a : A) (Q : A -> list PowerEvent -> Prop) w : Q a (trace w) -> keeps (mret a) Q w.
Proof. intros Hq Hj. by apply wp_ret. Qed.

Lemma keeps_stuck {A} (Q : A -> list PowerEvent -> Prop) w : keeps Stuck Q w.
Proof. intros Hj. by split. Qed.

Lemma keeps_post {A} (p : prog PowerCall A) (Q Q' : A -> list PowerEvent -> Prop) w :
  keeps p Q w -> (forall a l, trace w `prefix_of` l -> Q a l -> Q' a l) -> keeps p Q' w.
Proof. intros Hp HQ Hj. eapply wp_post; [by apply Hp|]. intros a u [_ Hu] Hq. by apply HQ. Qed.

Lemma charter_bind {A B} (p : prog PowerCall A) (f : A -> prog PowerCall B) R Q w :
  keeps p R w -> (forall a u, trace w `prefix_of` trace u -> R a (trace u) -> keeps (f a) Q u) -> keeps (p ≫= f) Q w.
Proof.
  intros Hp Hf Hj. apply wp_bind. eapply wp_post; [by apply Hp|]. intros a u [Hu Hpre] Hr.
  eapply wp_mono; [by apply (Hf a u)| |done]. cbn. intros v [Hv Hv']. split; [done|by etrans].
Qed.

(** One call, by the events it adds. *)
Lemma keeps_act {A R} (k : PowerCall R) (f : R -> prog PowerCall A) (Q : A -> list PowerEvent -> Prop) w :
  (forall x, silent x -> exists es, trace (act k x w).2 = trace w ++ es /\
     (justified c (trace w) -> justified c (trace w ++ es)) /\
     (trace w `prefix_of` trace (act k x w).2 -> keeps (f (act k x w).1) Q (act k x w).2)) ->
  keeps (Act k f) Q w.
Proof.
  intros Hk Hj. apply wp_act; [done|]. intros x Hx. destruct (Hk x Hx) as (es & E & Hes & Hf).
  assert (Hp : trace w `prefix_of` trace (act k x w).2) by (rewrite E; by eexists).
  eapply wp_mono; [apply Hf; [done|rewrite E; by apply Hes]| |done]. cbn. intros v [Hv Hv']. split; [done|by etrans].
Qed.

Lemma keeps_call {R} (k : PowerCall R) (Q : R -> list PowerEvent -> Prop) w :
  (forall x, silent x -> exists es, trace (act k x w).2 = trace w ++ es /\
     (justified c (trace w) -> justified c (trace w ++ es)) /\ Q (act k x w).1 (trace w ++ es)) ->
  keeps (call k) Q w.
Proof.
  intros Hk. apply keeps_act. intros x Hx. destruct (Hk x Hx) as (es & E & Hes & Hq). exists es. split; [done|]. split; [done|].
  intros _. apply charter_ret. by rewrite E.
Qed.

(** ** Programs that touch nothing *)

Definition harmless_call {R} (k : PowerCall R) : bool :=
  match k with
  | OnNodes _ (PatchNode _ _) | OnNodes _ (Evict _ _ _) => false
  | OnWaker _ | PutMachine _ | PutCluster _ | SubmitJob _ _ _ _ _ => false
  | _ => true
  end.

Fixpoint harmless {A} (p : prog PowerCall A) : Prop :=
  match p with
  | Ret _ | Stuck => True
  | Act k f => harmless_call k = true /\ forall r, harmless (f r)
  end.

(** What a harmless call leaves is nothing to account for. *)
Lemma harmless_act {R} (k : PowerCall R) x w :
  silent x -> harmless_call k = true ->
  exists es, trace (act k x w).2 = trace w ++ es /\ Forall (fun e => forall pre, touches c pre e) es.
Proof.
  intros Hx Hk. specialize (Hx w). unfold act, power_handler, power_act. destruct k; cbn in Hk |- *; try discriminate Hk.
  { destruct c0; cbn; try (destruct (n_done (p_node x))); cbn; rewrite Hx; eexists;
      (split; [reflexivity|by repeat constructor]) || (split; [by rewrite app_nil_r|constructor]). }
  { destruct c0; cbn in Hk |- *; try discriminate Hk; try (destruct (d_fail (p_drain x))); cbn; rewrite Hx; eexists;
      (split; [reflexivity|by repeat constructor]) || (split; [by rewrite app_nil_r|constructor]). }
  all: repeat match goal with |- context [let '(_, _) := ?e in _] => destruct e end; cbn; rewrite Hx.
  all: solve [eexists; split; [reflexivity|by repeat constructor] | exists []; split; [by rewrite app_nil_r|constructor]].
Qed.

Lemma harmless_keeps {A} (p : prog PowerCall A) w : harmless p -> keeps p (fun _ _ => True) w.
Proof.
  revert w. induction p as [a| |R k f IH]; intros w Hp; [by apply charter_ret|apply keeps_stuck|].
  destruct Hp as [Hk Hf]. apply keeps_act. intros x Hx. destruct (harmless_act k x w Hx Hk) as (es & E & Hes).
  exists es. split; [done|]. split; [intros Hj; by apply justified_app|]. intros _. apply IH, Hf.
Qed.

(** Before a harmless program comes what it keeps, and what it can return. *)
Lemma keeps_returns {A} (p : prog PowerCall A) (P : A -> Prop) Q w :
  returns p P -> keeps p Q w -> keeps p (fun a l => P a /\ Q a l) w.
Proof.
  intros Hr Hk Hj. specialize (Hk Hj). revert Hk. clear Hj.
  generalize (fun u : PWorld => justified c (trace u) /\ trace w `prefix_of` trace u). intros I. revert w.
  induction p as [a| |R k f IH]; intros w; cbn; [intros []; by split|done|]. intros [Hi Hw]. split; [done|]. intros x Hx.
  apply IH; [apply Hr|by apply Hw].
Qed.

Lemma harmless_returns {A} (p : prog PowerCall A) (P : A -> Prop) w :
  harmless p -> returns p P -> keeps p (fun a _ => P a) w.
Proof. intros Hp Hr. eapply keeps_post; [apply keeps_returns; [exact Hr|by apply harmless_keeps]|]. by intros a l _ []. Qed.

Lemma harmless_bind {A B} (p : prog PowerCall A) (f : A -> prog PowerCall B) :
  harmless p -> (forall a, harmless (f a)) -> harmless (p ≫= f).
Proof. intros Hp Hf. induction p as [a| |R k g IH]; [apply Hf|done|]. destruct Hp as [Hk Hg]. split; [done|]. intros r. by apply IH. Qed.

Lemma harmless_try {A B E} (p : prog PowerCall (result E A)) (f : A -> prog PowerCall (result E B)) :
  harmless p -> (forall a, harmless (f a)) -> harmless (try f p).
Proof. intros Hp Hf. apply harmless_bind; [done|]. intros [a|e]; [apply Hf|done]. Qed.

Lemma harmless_ret {A} (a : A) : harmless (mret a).
Proof. done. Qed.

Lemma harmless_call_ok {R} (k : PowerCall R) : harmless_call k = true -> harmless (call k).
Proof. by split. Qed.

Lemma harmless_on_machine {A} (p : prog NodeCall A) : harmless (on_machine p).
Proof. unfold on_machine. induction p as [a| |R k f IH]; [done|done|]. by split. Qed.

Lemma harmless_findNode cluster m : harmless (findNode cluster m).
Proof. apply harmless_bind; [split; [done|intros r; by split]|by intros []]. Qed.

Ltac harmless_step :=
  lazymatch goal with
  | |- forall _, _ => intros ?
  | |- harmless (mret _) => apply harmless_ret
  | |- harmless (Ret _) => apply harmless_ret
  | |- harmless Stuck => exact I
  | |- harmless (if ?b then _ else _) => destruct b
  | |- harmless (match ?e with _ => _ end) => destruct e
  | |- harmless (reachable_now _) => apply harmless_on_machine
  | |- harmless (on_machine _) => apply harmless_on_machine
  | |- harmless (findNode _ _) => apply harmless_findNode
  | |- harmless (call _) => apply harmless_call_ok; reflexivity
  | |- harmless (_ ≫= _) => apply harmless_bind
  | |- harmless (try _ _) => apply harmless_try
  end.
Ltac innocent := repeat first [eassumption | harmless_step].

Lemma harmless_poll {A} fuel budget (check : prog PowerCall (option A)) : harmless check -> harmless (poll fuel budget check).
Proof. intros Hc. unfold poll. innocent. induction fuel as [|n IH]; cbn [poll_loop]; innocent. Qed.
Lemma harmless_all_answer ms : harmless (all_answer ms).
Proof. induction ms; cbn [all_answer]; innocent. Qed.
Lemma harmless_none_answers ms : harmless (none_answers ms).
Proof. induction ms; cbn [none_answers]; innocent. Qed.
Lemma harmless_not_answering ms : harmless (not_answering ms).
Proof. induction ms; cbn [not_answering]; innocent. Qed.
Lemma harmless_not_back ms since : harmless (not_back ms since).
Proof. induction ms; cbn [not_back]; innocent. Qed.
Lemma harmless_all_rebooted since ms : harmless (all_rebooted since ms).
Proof. induction ms; cbn [all_rebooted]; innocent. Qed.
Lemma harmless_active ms : harmless (active ms).
Proof. induction ms; cbn [active]; innocent. Qed.
Lemma harmless_uncordon_targets ms b : harmless (uncordon_targets ms b).
Proof. induction ms; cbn [uncordon_targets]; innocent. Qed.
Lemma harmless_kube_answers cluster : harmless (kube_answers cluster).
Proof. unfold kube_answers. innocent. Qed.
Lemma harmless_is_back cluster m since b : harmless (is_back cluster m since b).
Proof. unfold is_back, kubeReady. innocent. Qed.
Lemma harmless_late text : harmless (late text).
Proof. unfold late. innocent. Qed.
Lemma harmless_fanOut ms one : (forall m, harmless (one m)) -> harmless (fanOut ms one).
Proof.
  intros Ho. unfold fanOut. apply harmless_bind; [|done]. induction ms as [|m ms IH]; [done|]. cbn.
  apply harmless_bind; [apply Ho|]. intros r. apply harmless_bind; [apply IH|done].
Qed.

Create HintDb harm.
#[local] Hint Constants Opaque : harm.
#[local] Hint Resolve harmless_poll harmless_all_answer harmless_none_answers harmless_not_answering harmless_not_back
  harmless_all_rebooted harmless_active harmless_uncordon_targets harmless_kube_answers harmless_is_back harmless_late : harm.

(* ------------------------------------------------------------------ *)
(** ** Programs that touch what the charter says *)

Lemma keeps_findNode cluster m w :
  keeps (findNode cluster m) (fun r l => forall node, r = Ok node -> node_object cluster m (NodeName node) l) w.
Proof.
  unfold findNode. apply keeps_act. intros x Hx. exists [NodesEv cluster (match d_fail (p_drain x) with Some e => Err e | None => Ok (d_nodes (p_drain x)) end)].
  split; [cbn; by destruct (d_fail (p_drain x)); cbn; rewrite Hx|].
  split; [intros Hj; apply justified_snoc; done|]. intros _. apply charter_ret. intros node. cbn. rewrite Hx.
  destruct (d_fail (p_drain x)) as [e|]; cbn; [done|]. destruct (find_node _ m) as [n|] eqn:E; [|done]. intros [= ->].
  apply find_node_names in E as [Hin Hnm].
  exists (d_nodes (p_drain x)), node. split; [|done]. apply elem_of_app. right. by apply list_elem_of_singleton.
Qed.

Lemma node_object_mono cluster m name l l' : node_object cluster m name l -> l `prefix_of` l' -> node_object cluster m name l'.
Proof. intros (ns & n & Hin & ?) [k ->]. exists ns, n. split; [apply elem_of_app; by left|done]. Qed.

Lemma was_read_mono m rec l l' : was_read m rec l -> l `prefix_of` l' -> was_read m rec l'.
Proof. intros Hr [k ->]. apply elem_of_app. by left. Qed.

(** A change of a member's record. *)
Lemma keeps_updateMachine m change w :
  m ∈ ch_members c -> ch_changes c change -> (forall r, m_rev (change r) = m_rev r) ->
  keeps (updateMachine (mb_machine m) change) (fun _ _ => True) w.
Proof.
  intros Hm Hc Hrev. unfold updateMachine. generalize 5. intros n. revert w. induction n as [|n IH]; intros w; cbn [update_machine].
  { by apply charter_ret. }
  apply keeps_act. intros x Hx. set (r := store_get (p_fault x) (machines (p_others x w)) (mb_machine m)).
  exists [ReadEv (mb_machine m) r]. split; [cbn; by rewrite Hx|]. split; [intros Hj; by apply justified_snoc|].
  change (act (GetMachine (mb_machine m)) x w) with (r, seen [ReadEv (mb_machine m) r] (p_others x w)). cbn [fst snd].
  intros _. destruct r as [rec|e]; [|by apply charter_ret]. set (w1 := seen _ _).
  assert (Hread : was_read m rec (trace w1)) by (unfold was_read, w1; cbn; set_solver). clearbody w1. clear w x Hx.
  apply keeps_act. intros y Hy. unfold act, power_handler, power_act. cbv zeta.
  destruct (store_put (p_fault y) (machines (p_others y w1)) (change rec)) as [m' r'] eqn:E. cbn [fst snd trace seen set_machines].
  eexists. split; [by rewrite Hy|]. split.
  - intros Hj. apply justified_snoc; [done|]. cbn. apply put_stored in E as [[-> _]|[-> _]]; [by left|]. right.
    exists m, rec, change. split_and!; [done|done|done|]. cbn. rewrite <- (Hrev rec). by apply stored_Some, lookup_insert_eq.
  - intros _. destruct r' as [r'|[]]; cbn; try (by apply charter_ret). apply IH.
Qed.

Lemma keeps_updateCluster change w :
  ch_cluster_changes c change -> (forall r, c_rev (change r) = c_rev r) ->
  keeps (updateCluster (ch_cluster c) change) (fun _ _ => True) w.
Proof.
  intros Hc Hrev. unfold updateCluster. generalize 5. intros n. revert w. induction n as [|n IH]; intros w; cbn [update_cluster].
  { by apply charter_ret. }
  apply keeps_act. intros x Hx. set (r := store_get (p_fault x) (clusters (p_others x w)) (ch_cluster c)).
  exists [ReadClusterEv (ch_cluster c) r]. split; [cbn; by rewrite Hx|]. split; [intros Hj; by apply justified_snoc|].
  change (act (GetCluster (ch_cluster c)) x w) with (r, seen [ReadClusterEv (ch_cluster c) r] (p_others x w)). cbn [fst snd].
  intros _. destruct r as [rec|e]; [|by apply charter_ret]. set (w1 := seen _ _).
  assert (Hread : ReadClusterEv (ch_cluster c) (Ok rec) ∈ trace w1) by (unfold w1; cbn; set_solver). clearbody w1. clear w x Hx.
  apply keeps_act. intros y Hy. unfold act, power_handler, power_act. cbv zeta.
  destruct (store_put (p_fault y) (clusters (p_others y w1)) (change rec)) as [m' r'] eqn:E. cbn [fst snd trace seen set_clusters].
  eexists. split; [by rewrite Hy|]. split.
  - intros Hj. apply justified_snoc; [done|]. cbn. apply put_stored in E as [[-> _]|[-> _]]; [by left|]. right.
    exists rec, change. split_and!; [done|done|]. cbn. rewrite <- (Hrev rec). by apply stored_Some, lookup_insert_eq.
  - intros _. destruct r' as [r'|[]]; cbn; try (by apply charter_ret). apply IH.
Qed.

(** A patch of a member's node object. *)
Lemma keeps_patch m name b w :
  m ∈ ch_members c -> ch_patches c b -> node_object (ch_cluster c) m name (trace w) -> ch_ready c m (trace w) ->
  keeps (on_nodes (ch_cluster c) (Cordon name b)) (fun _ _ => True) w.
Proof.
  intros Hm Hb Hn Hr. unfold Cordon. apply keeps_act. intros x Hx. exists [DrainEv (ch_cluster c) (DPatched name b)].
  split; [cbn; by rewrite Hx|]. split; [|intros _; by apply charter_ret]. intros Hj. apply justified_snoc; [done|].
  cbn. split; [done|]. split; [done|]. by exists m.
Qed.

Lemma keeps_lift_bind {A B} cluster (p : prog DrainCall A) (f : A -> prog DrainCall B) Q w :
  keeps (on_nodes cluster p ≫= (fun a => on_nodes cluster (f a))) Q w -> keeps (on_nodes cluster (p ≫= f)) Q w.
Proof. intros Hk Hj. apply lift_bind. by apply Hk. Qed.

(** A drain of a member's node: the loop over what was listed there. *)
Lemma keeps_drain_pods m node opts pods todo res w :
  m ∈ ch_members c -> ch_drains c m -> node_object (ch_cluster c) m node (trace w) ->
  (forall l, trace w `prefix_of` l -> ch_ready c m l) ->
  DrainEv (ch_cluster c) (DListed node pods) ∈ trace w -> (forall p, p ∈ todo -> p ∈ pods) ->
  keeps (on_nodes (ch_cluster c) (drain_pods opts todo res)) (fun _ _ => True) w.
Proof.
  intros Hm Hd. revert res w. induction todo as [|p todo IH]; intros res w Hn Hr Hl Hin; cbn [drain_pods].
  { by apply charter_ret. }
  assert (Htodo : forall q, q ∈ todo -> q ∈ pods) by (intros q Hq; by apply Hin, list_elem_of_further).
  destruct (classifyPod p opts); try (by apply IH).
  unfold evict. apply keeps_act. intros x Hx.
  set (e := DrainEv (ch_cluster c) (DEvicted (PodNamespace p) (PodName p) (if bool_decide (0 < GracePeriod opts)%Z then Some (GracePeriod opts / second)%Z else None) (d_evict (p_drain x)))).
  exists [e]. split; [cbn; by rewrite Hx|]. split.
  - intros Hj. apply justified_snoc; [done|]. unfold e. cbn. split; [done|]. exists m, node, pods, p.
    split_and!; try done; [by apply Hr|apply Hin, list_elem_of_here].
  - intros Hp. assert (Hnext : forall res', keeps (on_nodes (ch_cluster c) (drain_pods opts todo res')) (fun _ _ => True) (act (OnNodes (ch_cluster c)
      (Evict (PodNamespace p) (PodName p) (if bool_decide (0 < GracePeriod opts)%Z then Some (GracePeriod opts / second)%Z else None))) x w).2).
    { intros res'. apply IH; [by eapply node_object_mono|intros l Hl'; apply Hr; by etrans| |done].
      destruct Hp as [k ->]. apply elem_of_app. by left. }
    destruct (act (OnNodes (ch_cluster c) _) x w) as [r w1]. cbn [fst snd] in Hnext |- *. destruct r; apply Hnext.
Qed.

Lemma keeps_Drain m node opts w :
  m ∈ ch_members c -> ch_drains c m -> ch_patches c true -> node_object (ch_cluster c) m node (trace w) ->
  (forall l, trace w `prefix_of` l -> ch_ready c m l) ->
  keeps (on_nodes (ch_cluster c) (Drain node opts)) (fun _ _ => True) w.
Proof.
  intros Hm Hd Hb Hn Hr. unfold Drain, Cordon. apply keeps_act. intros x Hx. exists [DrainEv (ch_cluster c) (DPatched node true)].
  split; [cbn; by rewrite Hx|]. split.
  { intros Hj. apply justified_snoc; [done|]. cbn. split; [done|]. split; [done|]. exists m. split_and!; [done|done|by apply Hr]. }
  intros Hp. cbn [on_nodes lift]. unfold act at 1, power_handler at 1, power_act at 1. cbn [drain_act fst snd].
  set (w1 := (act _ x w).2) in *. clearbody w1.
  assert (Hn1 : node_object (ch_cluster c) m node (trace w1)) by (by eapply node_object_mono).
  assert (Hr1 : forall l, trace w1 `prefix_of` l -> ch_ready c m l) by (intros l Hl; apply Hr; by etrans).
  destruct (d_fail (p_drain x)) as [e|]; [by apply charter_ret|]. clear - Hm Hd Hn1 Hr1.
  apply keeps_act. intros y Hy. exists (match d_fail (p_drain y) with Some _ => [] | None => [DrainEv (ch_cluster c) (DListed node (d_pods (p_drain y)))] end).
  split; [cbn; destruct (d_fail (p_drain y)); cbn; by rewrite Hy|]. split.
  { intros Hj. destruct (d_fail (p_drain y)); [by rewrite app_nil_r|by apply justified_snoc]. }
  intros Hp. unfold act at 1, power_handler at 1, power_act at 1. cbn [drain_act fst snd].
  destruct (d_fail (p_drain y)) as [e|] eqn:E; [by apply charter_ret|].
  apply keeps_lift_bind. eapply charter_bind; [|intros a u _ _; by apply charter_ret].
  apply (keeps_drain_pods m node opts (d_pods (p_drain y))); try done.
  - by eapply node_object_mono.
  - intros l Hl. apply Hr1. by etrans.
  - cbn. rewrite E. cbn. apply elem_of_app. right. by apply list_elem_of_singleton.
Qed.

(* ------------------------------------------------------------------ *)
(** ** The steps *)

(** A step keeps to the charter at a moment, and so does asking after it. *)
Definition step_keeps (s : Step PowerCall) (w : PWorld) : Prop :=
  (forall j, keeps (Do s j) (fun _ _ => True) w) /\
  (forall h j, Happened s = Some h -> keeps (h j) (fun _ _ => True) w).

Lemma harmless_step_keeps s w :
  (forall j, harmless (Do s j)) -> (forall h j, Happened s = Some h -> harmless (h j)) -> step_keeps s w.
Proof. intros Hd Hh. split; intros; apply harmless_keeps; eauto. Qed.

Ltac harmless_happened := let E := fresh in intros h j E; cbn [Happened fmap option_fmap option_map] in E; apply (inj Some) in E as <-; unfold never;
  apply harmless_keeps; repeat first [harmless_step | solve [auto with harm]].
Ltac harmless_tac := apply harmless_step_keeps;
  [intros j; cbn [Do]
  |let E := fresh in intros h j E; cbn [Happened fmap option_fmap option_map] in E; apply (inj Some) in E as <-; unfold never];
  repeat first [harmless_step | solve [auto with harm] | apply harmless_poll | apply harmless_fanOut].

Section Steps.
Variables (fuel : nat) (gated : bool) (cluster : string) (m : member) (ms : list member) (w : PWorld).

Lemma reachable_keeps : step_keeps (reachable m) w.
Proof. unfold reachable, node_step, ReachableStep. harmless_tac. Qed.
Lemma gate_keeps : step_keeps (gate gated cluster m) w.
Proof. unfold gate. harmless_tac. Qed.
Lemma reboot_keeps force : step_keeps (reboot m force) w.
Proof. unfold reboot, node_step, RebootStep. harmless_tac. Qed.
Lemma shutdown_keeps force tolerant : step_keeps (shutdown m force tolerant) w.
Proof. unfold shutdown, node_step, ShutdownStep. destruct tolerant; cbn [negb]; harmless_tac. Qed.
Lemma waitAnswer_keeps name : step_keeps (waitAnswer fuel ms name) w.
Proof. unfold waitAnswer. harmless_tac. Qed.
Lemma waitKube_keeps : step_keeps (waitKube fuel cluster) w.
Proof. unfold waitKube. harmless_tac. Qed.
Lemma waitBack_keeps i b : step_keeps (waitBack fuel cluster m i b) w.
Proof. unfold waitBack. harmless_tac. Qed.
Lemma waitAllBack_keeps i : step_keeps (waitAllBack fuel ms i) w.
Proof. unfold waitAllBack. harmless_tac. Qed.
Lemma refuseDisabled_keeps : step_keeps (refuseDisabled cluster m) w.
Proof. unfold refuseDisabled. harmless_tac. Qed.
Lemma refuseClusterDisabled_keeps : step_keeps (refuseClusterDisabled cluster) w.
Proof. unfold refuseClusterDisabled. harmless_tac. Qed.
Lemma forceOffAll_keeps : step_keeps (forceOffAll ms) w.
Proof. unfold forceOffAll, force_off_one. harmless_tac. Qed.
Lemma rebootAll_keeps : step_keeps (rebootAll ms) w.
Proof. unfold rebootAll, reboot_one. harmless_tac. Qed.

Lemma markMachine_keeps b : m ∈ ch_members c -> ch_changes c (set_disabled b) -> step_keeps (markMachine m b) w.
Proof.
  intros Hm Hc. split.
  - intros j. unfold markMachine. cbn [Do]. eapply charter_bind; [by apply keeps_updateMachine|]. intros r u _ _. by apply charter_ret.
  - unfold markMachine. harmless_happened.
Qed.

Lemma markCluster_keeps b : ch_cluster_changes c (set_cluster_disabled b) -> step_keeps (markCluster (ch_cluster c) b) w.
Proof.
  intros Hc. split.
  - intros j. unfold markCluster. cbn [Do]. eapply charter_bind; [by apply keeps_updateCluster|]. intros r u _ _. by apply charter_ret.
  - unfold markCluster. harmless_happened.
Qed.

Lemma cordon_keeps strict :
  m ∈ ch_members c -> ch_patches c true -> ch_changes c (set_cordoned true) ->
  (forall l, trace w `prefix_of` l -> ch_ready c m l) -> step_keeps (cordon (ch_cluster c) m strict) w.
Proof.
  intros Hm Hb Hc Hr. split; [|unfold cordon; harmless_happened].
  intros j. unfold cordon. cbn [Do]. eapply charter_bind; [by apply harmless_keeps, harmless_call_ok|]. intros [[]|e] u1 Hp1 _; [|by apply charter_ret].
  eapply charter_bind; [apply keeps_findNode|]. intros n u2 Hp2 Hn. destruct n as [node|[|e]]; [|by apply charter_ret..].
  specialize (Hn node eq_refl). destruct (Unschedulable node); [by apply charter_ret|].
  eapply charter_bind; [by apply keeps_updateMachine|]. intros r u3 Hp3 _. destruct r as [[]|e]; [|by apply charter_ret].
  eapply charter_bind; [apply (keeps_patch m); try done; [by eapply node_object_mono|apply Hr; by do 2 (etrans; [eassumption|])]|].
  intros r u4 _ _. by apply charter_ret.
Qed.

Lemma drain_keeps :
  m ∈ ch_members c -> ch_patches c true -> ch_drains c m ->
  (forall l, trace w `prefix_of` l -> ch_ready c m l) -> step_keeps (drain (ch_cluster c) m) w.
Proof.
  intros Hm Hb Hd Hr. split.
  - intros j. unfold drain. cbn [Do]. eapply charter_bind; [apply harmless_keeps, harmless_on_machine|]. intros up u0 Hp0 _.
    destruct up; cbn [negb]; [|by apply charter_ret].
    eapply charter_bind; [by apply harmless_keeps, harmless_call_ok|]. intros [[]|e] u1 Hp1 _; [|by apply charter_ret].
    eapply charter_bind; [apply keeps_findNode|]. intros n u2 Hp2 Hn. destruct n as [node|[|e]]; [|by apply charter_ret..].
    eapply charter_bind; [apply (keeps_Drain m); try done; [by apply Hn|intros l Hl; apply Hr; by do 3 (etrans; [eassumption|])]|].
    intros r u4 _ _. by apply charter_ret.
  - unfold drain. intros h j E. cbn [Happened] in E. apply (inj Some) in E as <-. apply harmless_keeps.
    repeat first [harmless_step | solve [auto with harm]]. unfold Undrained, on_nodes. by repeat (split; [done|]; intros ?).
Qed.

Lemma remember_keeps :
  (forall m, m ∈ ms -> m ∈ ch_members c) -> ch_changes c (set_cordoned true) -> step_keeps (remember cluster ms) w.
Proof.
  intros Hms Hc. split; [|unfold remember; harmless_happened].
  intros j. unfold remember. cbn [Do]. eapply charter_bind; [by apply harmless_keeps, harmless_call_ok|]. intros r u _ _. clear w.
  destruct r as [[]|e]; [|by apply charter_ret]. generalize (@nil string). revert Hms u. induction ms as [|m' ms' IH]; intros Hms u noted; cbn [remember_loop].
  { by apply charter_ret. }
  assert (IH' : forall u noted, keeps (remember_loop cluster ms' noted) (fun _ _ => True) u).
  { intros v l. apply IH. intros x Hx. by apply Hms, list_elem_of_further. }
  eapply charter_bind; [by apply harmless_keeps, harmless_findNode|]. intros n u1 _ _. destruct n as [node|e]; [|apply IH'].
  destruct (Unschedulable node); [apply IH'|].
  eapply charter_bind; [apply keeps_updateMachine; try done; apply Hms, list_elem_of_here|].
  intros r u3 Hp3 _. destruct r as [[]|e]; [apply IH'|by apply charter_ret].
Qed.

Lemma uncordon_targets_returns b l : returns (uncordon_targets l b) (fun ts => forall x, x ∈ ts -> x ∈ l).
Proof.
  induction l as [|a l IH]; cbn [uncordon_targets]; [by intros x ?%elem_of_nil|]. intros r. apply returns_bind.
  eapply returns_mono; [exact IH|]. intros rest Hrest. cbn. assert (Hl : forall x, x ∈ rest -> x ∈ a :: l) by (intros; by apply list_elem_of_further, Hrest).
  destruct r as [rec|e]; [|exact Hl]. destruct (m_disabled rec || _); [exact Hl|].
  intros x [->|Hx]%elem_of_cons; [apply list_elem_of_here|by apply Hl].
Qed.

Lemma active_returns l : returns (active l) (fun r => forall ts, r = Ok ts -> forall x, x ∈ ts -> x ∈ l).
Proof.
  induction l as [|a l IH]; cbn [active]; [by intros ts [= <-] x ?%elem_of_nil|]. apply returns_bind. intros [rec|e]; [|done].
  apply returns_bind. eapply returns_mono; [exact IH|]. intros [rest|e] Hrest; [|done]. cbn. intros ts [= <-] x Hx.
  destruct (m_disabled rec); [by apply list_elem_of_further, (Hrest rest)|].
  apply elem_of_cons in Hx as [->|Hx]; [apply list_elem_of_here|by apply list_elem_of_further, (Hrest rest)].
Qed.

Lemma uncordon_keeps name b :
  cluster = ch_cluster c -> (forall m, m ∈ ms -> m ∈ ch_members c) -> ch_patches c false -> ch_changes c (set_cordoned false) ->
  (forall m l, m ∈ ms -> trace w `prefix_of` l -> ch_ready c m l) -> step_keeps (uncordon fuel cluster ms name b) w.
Proof.
  intros -> Hms Hb Hc Hr. split; [|unfold uncordon; harmless_happened].
  intros j. unfold uncordon. cbn [Do].
  eapply charter_bind; [apply harmless_returns; [apply harmless_uncordon_targets|apply uncordon_targets_returns]|].
  intros ts u Hp Hts. assert (Hready : forall x l, x ∈ ts -> trace u `prefix_of` l -> ch_ready c x l) by (intros; apply Hr; [auto|by etrans]).
  assert (Hin : forall x, x ∈ ts -> x ∈ ch_members c) by auto. clear Hr Hts Hms Hp.
  destruct ts as [|t ts]; [by apply charter_ret|].
  eapply charter_bind; [apply harmless_keeps, harmless_poll, harmless_kube_answers|]. intros [pe o] u1 Hp1 _.
  destruct pe; [|apply harmless_keeps, harmless_late..].
  assert (Hr1 : forall x l, x ∈ t :: ts -> trace u1 `prefix_of` l -> ch_ready c x l) by (intros; apply Hready; [done|by etrans]).
  clear Hready Hp1 u. generalize (@nil string) at 1. generalize (@nil string). revert Hin u1 Hr1. generalize (t :: ts). clear t ts.
  intros l. induction l as [|m' l IH]; intros Hin u Hr absent done_; cbn [uncordon_loop]; [by apply charter_ret|].
  assert (IH' : forall d a v, trace u `prefix_of` trace v -> keeps (uncordon_loop (ch_cluster c) l d a) (fun _ _ => True) v).
  { intros d a v Hp. apply IH; [intros x Hx; by apply Hin, list_elem_of_further|].
    intros x k Hx Hk. apply Hr; [by apply list_elem_of_further|by etrans]. }
  eapply charter_bind; [apply keeps_findNode|]. intros n u1 Hp1 Hn. destruct n as [node|[|e]]; [|by apply IH'|by apply charter_ret].
  eapply charter_bind; [apply (keeps_patch m'); [apply Hin, list_elem_of_here|done|by apply Hn|apply Hr; [apply list_elem_of_here|done]]|].
  intros r u2 Hp2 _. destruct r as [[]|e]; [|by apply charter_ret].
  eapply charter_bind; [apply keeps_updateMachine; [apply Hin, list_elem_of_here|done|done]|].
  intros r u3 Hp3 _. destruct r as [[]|e]; [|by apply charter_ret]. apply IH'. by do 2 (etrans; [eassumption|]).
Qed.

(** The addresses are of records read for the members. *)
Definition cards_of (l : list PowerEvent) (macs : list (list Z)) : Prop :=
  forall mac, mac ∈ macs -> exists m rec text, m ∈ ch_members c /\ was_read m rec l /\ text ∈ macsOf rec /\ mac = default [] (ParseMAC text).

Lemma cards_of_mono l l' macs : cards_of l macs -> l `prefix_of` l' -> cards_of l' macs.
Proof. intros Hc Hp mac (m' & rec & text & ? & ? & ?)%Hc. exists m', rec, text. split_and!; try tauto. by eapply was_read_mono. Qed.

Lemma keeps_wake_loop ts k v :
  (forall m, m ∈ ts -> m ∈ ch_members c) -> cards_of (trace v) (wk_macs k) ->
  keeps (wake_loop ts k) (fun r l => forall k', r = Ok k' -> cards_of l (wk_macs k')) v.
Proof.
  revert k v. induction ts as [|t ts IH]; intros k v Hin Hk; cbn [wake_loop]; [apply charter_ret; by intros k' [= <-]|].
  assert (Hts : forall m, m ∈ ts -> m ∈ ch_members c) by (intros; by apply Hin, list_elem_of_further).
  eapply charter_bind; [apply harmless_keeps, harmless_on_machine|]. intros up u Hp _. assert (Hku := cards_of_mono _ _ _ Hk Hp).
  destruct up; [by apply IH|]. unfold try. apply keeps_act. intros x Hx. set (r := store_get (p_fault x) (machines (p_others x u)) (mb_machine t)).
  exists [ReadEv (mb_machine t) r]. split; [cbn; by rewrite Hx|]. split; [intros Hj; by apply justified_snoc|].
  change (act (GetMachine (mb_machine t)) x u) with (r, seen [ReadEv (mb_machine t) r] (p_others x u)). cbn [fst snd].
  intros Hp1. assert (Hk1 := cards_of_mono _ _ _ Hku Hp1). destruct r as [rec|e]; [|by apply charter_ret].
  case_bool_decide; apply IH; try done. cbn [wk_macs]. intros mac [Hm|(text & -> & Ht)%list_elem_of_fmap]%elem_of_app; [by apply Hk1|].
  exists t, rec, text. split_and!; try done; [apply Hin, list_elem_of_here|]. unfold was_read. cbn. set_solver.
Qed.

Lemma wake_keeps name b : (forall m, m ∈ ms -> m ∈ ch_members c) -> ch_wakes c -> step_keeps (wake ms name b) w.
Proof.
  intros Hms Hw. split; [|unfold wake; harmless_happened].
  intros j. unfold wake. cbn [Do]. eapply charter_bind; [apply harmless_returns; [apply harmless_active|apply active_returns]|].
  intros r u _ Hr. destruct r as [ts|e]; [|by apply charter_ret]. specialize (Hr ts eq_refl).
  eapply charter_bind; [apply keeps_wake_loop; [auto|by intros mac ?%elem_of_nil]|]. intros k v _ Hk. destruct k as [k|e]; [|by apply charter_ret].
  specialize (Hk k eq_refl). cbv zeta. match goal with |- keeps (if ?b then _ else _) _ _ => destruct b end; [by apply charter_ret|].
  case_bool_decide; [by apply charter_ret|]. apply keeps_act. intros x Hx. exists [WokeEv (wk_macs k)]. split; [cbn; by rewrite Hx|].
  split; [|intros _; by apply charter_ret]. intros Hj. apply justified_snoc; [done|]. by split.
Qed.

End Steps.
End Charter.
(* ------------------------------------------------------------------ *)
(** ** The jobs *)

(** etcd's gate let the node go. *)
Definition gate_passed (cluster id : string) (l : list PowerEvent) : Prop :=
  exists v, GateEv cluster id (Ok v) ∈ l /\ VOK v = true.

Lemma gate_passed_mono cluster id l l' : gate_passed cluster id l -> l `prefix_of` l' -> gate_passed cluster id l'.
Proof. intros (v & Hin & Hv) [k ->]. exists v. split; [apply elem_of_app; by left|done]. Qed.

(** The node of a stop, a disable or a careful restart is cordoned and drained; a
    start or an enable uncordons and wakes; a restart undoes its own cordon. The
    marks follow: the cordon's beside it, the disabled one only by disable and
    enable. A careful stop or disable of a control plane comes after the gate. *)
Definition patches (a : Action) (b : bool) : Prop :=
  if b then a ∈ [Stop; Disable; Restart] else a ∈ [Start; Enable; Restart; ForceRestart].
Definition cordon_marks (a : Action) (f : MachineRec -> MachineRec) : Prop :=
  (f = set_cordoned true /\ a ∈ [Stop; Disable; Restart; ForceRestart]) \/
  (f = set_cordoned false /\ a ∈ [Start; Enable; Restart; ForceRestart]).
Definition wakes (a : Action) : Prop := a ∈ [Start; Enable].
Definition careful_stop (a : Action) : Prop := a ∈ [Stop; Disable].

Definition node_charter (a : Action) (cluster : string) (m : member) : charter := {|
  ch_cluster := cluster;
  ch_members := [m];
  ch_patches := patches a;
  ch_drains := fun _ => a ∈ [Stop; Disable; Restart];
  ch_changes := fun f => cordon_marks a f \/ f = set_disabled true /\ a = Disable \/ f = set_disabled false /\ a = Enable;
  ch_cluster_changes := fun _ => False;
  ch_wakes := wakes a;
  ch_ready := fun m pre => careful_stop a -> controlPlane m = true -> gate_passed cluster (mb_machine m) pre |}.

(** A cluster's stop drains its workers only, and the disabled mark is on the
    cluster's own record. *)
Definition cluster_charter (a : Action) (cluster : string) (ms : list member) : charter := {|
  ch_cluster := cluster;
  ch_members := ms;
  ch_patches := patches a;
  ch_drains := fun m => a = Restart \/ careful_stop a /\ controlPlane m = false;
  ch_changes := cordon_marks a;
  ch_cluster_changes := fun f => f = set_cluster_disabled true /\ a = Disable \/ f = set_cluster_disabled false /\ a = Enable;
  ch_wakes := wakes a;
  ch_ready := fun _ _ => True |}.

Abbreviation silent := (fun x : pchoice => forall w, trace (p_others x w) = trace w) (only parsing).

Lemma gate_keeps_passed c gated cluster m j w :
  keeps c (Do (gate gated cluster m) j) (fun o l => o.2 = None -> controlPlane m = true -> gate_passed cluster (mb_machine m) l) w.
Proof.
  unfold gate. cbn [Do]. destruct (controlPlane m); cbn [negb]; [|by apply charter_ret]. destruct gated; cbn [negb]; [|by apply charter_ret].
  apply keeps_act. intros x Hx. exists [GateEv cluster (mb_machine m) (p_gate x)]. split; [cbn; by rewrite Hx|].
  split; [intros Hj; by apply justified_snoc|]. intros _. apply charter_ret. cbn.
  destruct (p_gate x) as [v|e]; [|done]. destruct (VOK v) eqn:E; cbn [negb]; [|done].
  intros _ _. exists v. split; [apply elem_of_app; right; by apply list_elem_of_singleton|done].
Qed.

(** What holds of the history while a node's job is at step [n]. *)
Definition node_kept (a : Action) (cluster : string) (m : member) (n : nat) (l : list PowerEvent) : Prop :=
  justified (node_charter a cluster m) l /\
  (2 <= n -> careful_stop a -> controlPlane m = true -> gate_passed cluster (mb_machine m) l).

Lemma nodeSteps_keep fuel gated a cluster m n s w :
  nodeSteps fuel gated a cluster m !! n = Some s -> node_kept a cluster m n (trace w) ->
  step_keeps (node_charter a cluster m) s w.
Proof.
  intros E [_ Hg].
  assert (Hone : forall x, x ∈ [m] -> x ∈ ch_members (node_charter a cluster m)) by done.
  assert (Hm : m ∈ ch_members (node_charter a cluster m)) by apply list_elem_of_here.
  assert (Hr : 2 <= n \/ ~ careful_stop a -> forall x l, x ∈ [m] -> trace w `prefix_of` l -> ch_ready (node_charter a cluster m) x l).
  { intros Hn x l ->%list_elem_of_singleton Hl Ha Hc. destruct Hn as [Hn|Hn]; [|done]. eapply gate_passed_mono; [by apply Hg|done]. }
  assert (Hcordon : (2 <= n \/ ~ careful_stop a) -> a ∈ [Stop; Disable; Restart] -> forall b, step_keeps (node_charter a cluster m) (cordon cluster m b) w).
  { intros Hn Ha b. apply (cordon_keeps (node_charter a cluster m)); [done|exact Ha| |by intros l; apply Hr, list_elem_of_here].
    left. left. split; [done|]. set_solver. }
  assert (Hdrain : (2 <= n \/ ~ careful_stop a) -> a ∈ [Stop; Disable; Restart] -> step_keeps (node_charter a cluster m) (drain cluster m) w).
  { intros Hn Ha. apply (drain_keeps (node_charter a cluster m)); [done|exact Ha|exact Ha|by intros l; apply Hr, list_elem_of_here]. }
  assert (Huncordon : a ∈ [Start; Enable; Restart; ForceRestart] -> ~ careful_stop a -> forall t b, step_keeps (node_charter a cluster m) (uncordon fuel cluster [m] t b) w).
  { intros Ha Hn t b. apply uncordon_keeps; [done|done|exact Ha| |intros x l; apply Hr; by right]. left. by right. }
  assert (Hwake : a ∈ [Start; Enable] -> forall t b, step_keeps (node_charter a cluster m) (wake [m] t b) w) by (intros Ha t b; by apply wake_keeps).
  clear Hg Hr. unfold careful_stop in *. destruct a; cbn [nodeSteps app] in E; try destruct (mb_answered m); cbn [app] in E.
  all: repeat (destruct n as [|n]; [apply (inj Some) in E as <-|try discriminate E]).
  all: lazymatch goal with
    | |- step_keeps _ (reachable _) _ => apply reachable_keeps
    | |- step_keeps _ (gate _ _ _) _ => apply gate_keeps
    | |- step_keeps _ (reboot _ _) _ => apply reboot_keeps
    | |- step_keeps _ (shutdown _ _ _) _ => apply shutdown_keeps
    | |- step_keeps _ (waitAnswer _ _ _) _ => apply waitAnswer_keeps
    | |- step_keeps _ (waitBack _ _ _ _ _) _ => apply waitBack_keeps
    | |- step_keeps _ (refuseDisabled _ _) _ => apply refuseDisabled_keeps
    | |- step_keeps _ (cordon _ _ _) _ => apply Hcordon; [first [left; lia | right; set_solver]|set_solver]
    | |- step_keeps _ (drain _ _) _ => apply Hdrain; [first [left; lia | right; set_solver]|set_solver]
    | |- step_keeps _ (uncordon _ _ _ _ _) _ => apply Huncordon; set_solver
    | |- step_keeps _ (wake _ _ _) _ => apply Hwake; set_solver
    | |- step_keeps _ (markMachine _ _) _ => apply markMachine_keeps; [done|cbn; tauto]
    | |- step_keeps _ (remember _ _) _ => apply remember_keeps; [done|cbn; left; left; split; [done|set_solver]]
    end.
Qed.

(** The second step of a careful stop is the gate. *)
Lemma second_is_gate fuel gated a cluster m s :
  nodeSteps fuel gated a cluster m !! 1 = Some s -> a ∈ [Stop; Disable] -> s = gate gated cluster m.
Proof.
  intros Hs [-> | ->%list_elem_of_singleton]%elem_of_cons; [by injection Hs|]. cbn [nodeSteps] in Hs.
  destruct (mb_answered m); [by injection Hs|done].
Qed.

(** Everything a node's job touches is what its verb says, at its member. *)
Lemma node_job_touches fuel gated a cluster m job w0 n cut started w :
  Walk (nodeSteps fuel gated a cluster m) job w0 n cut started w -> trace w0 = [] ->
  justified (node_charter a cluster m) (trace w).
Proof.
  intros Hw H0. enough (node_kept a cluster m n (trace w)) by apply H1.
  refine (walk_invariant (HD := power_deeds) (nodeSteps fuel gated a cluster m) job (node_kept a cluster m) w0 n cut started w _ _ _ Hw).
  - cbn. rewrite H0. split; [apply justified_nil|lia].
  - intros i s j v Hs _ Hi. destruct (nodeSteps_keep _ _ _ _ _ _ _ _ Hs Hi) as [Hk _]. destruct Hi as [Hj Hg]. cbn [history power_deeds] in Hj, Hg.
    assert (Hq : keeps (node_charter a cluster m) (Do s j) (fun o l => o.2 = None -> i = 1 -> careful_stop a -> controlPlane m = true ->
      gate_passed cluster (mb_machine m) l) v).
    { destruct (decide (i = 1)) as [->|Hi]; [|eapply keeps_post; [apply Hk|done]].
      destruct (decide (a ∈ [Stop; Disable])) as [Ha|Ha]; [|eapply keeps_post; [apply Hk|done]].
      assert (s = gate gated cluster m) as -> by (by eapply second_is_gate).
      eapply keeps_post; [apply gate_keeps_passed|]. auto. }
    eapply wp_mono; [exact (Hq Hj)| |]; cbn.
    + intros u [Hu Hp]. split; [done|]. intros Hi Ha Hc. eapply gate_passed_mono; [by apply Hg|done].
    + intros o u [Hu Hp] Ho Hn. split; [done|]. intros Hi Ha Hc.
      destruct (decide (i = 1)) as [->|Hne]; [by apply Ho|]. eapply gate_passed_mono; [apply Hg; [lia|done..]|done].
  - intros i s h j v Hs Hh _ Hi. destruct (nodeSteps_keep _ _ _ _ _ _ _ _ Hs Hi) as [_ Hk]. destruct Hi as [Hj Hg]. cbn [history power_deeds] in Hj, Hg.
    destruct (decide (i = 1 /\ a ∈ [Stop; Disable])) as [[-> Ha]|Hn].
    + assert (s = gate gated cluster m) as -> by (by eapply second_is_gate).
      cbn in Hh. injection Hh as <-. apply wp_ret; [by split|]. by intros [=].
    + eapply wp_mono; [exact (Hk h j Hh Hj)| |]; cbn.
      * intros u [Hu Hp]. split; [done|]. intros Hi Ha Hc. eapply gate_passed_mono; [by apply Hg|done].
      * intros o u [Hu Hp] _ _. split; [done|]. intros Hi Ha Hc. eapply gate_passed_mono; [apply Hg; [|done..]|done].
        destruct (decide (i = 1)) as [->|]; [by destruct Hn|lia].
Qed.

Lemma restart_walk_in fuel cluster ms acc s :
  s ∈ restart_walk fuel cluster ms acc ->
  s ∈ acc \/ exists m i, m ∈ ms /\
    s ∈ [cordon cluster m true; drain cluster m; reboot m false; waitBack fuel cluster m i true;
         uncordon fuel cluster [m] ("uncordon " +:+ mb_hostname m) true].
Proof.
  revert acc. induction ms as [|m ms IH]; intros acc; cbn [restart_walk]; [by left|]. cbv zeta.
  intros [E|(x & i & Hx & E)]%IH; [|right; exists x, i; split; [by apply list_elem_of_further|done]].
  rewrite !elem_of_app in E. destruct E as [[E|E]|E]; [by left|..]; right; exists m; eexists; (split; [apply list_elem_of_here|]).
  - apply (elem_of_app [cordon cluster m true; drain cluster m]). by left.
  - apply (elem_of_app [cordon cluster m true; drain cluster m]). by right.
  Unshelve. exact 0%Z.
Qed.

(** Everything a cluster's job touches is what its verb says, at its members. *)
Lemma clusterSteps_keep fuel a cluster ms n s w :
  clusterSteps fuel a cluster ms !! n = Some s -> step_keeps (cluster_charter a cluster ms) s w.
Proof.
  intros E%list_elem_of_lookup_2. set (C := cluster_charter a cluster ms).
  assert (Hcordon : forall m b, m ∈ ms -> a ∈ [Stop; Disable; Restart] -> step_keeps C (cordon cluster m b) w).
  { intros m b Hm Ha. apply (cordon_keeps C); [done|exact Ha| |done]. left. split; [done|]. set_solver. }
  assert (Hdrain : forall m, m ∈ ms -> a = Restart \/ careful_stop a /\ controlPlane m = false -> step_keeps C (drain cluster m) w).
  { intros m Hm Ha. apply (drain_keeps C); [done| |exact Ha|done]. unfold careful_stop in Ha. cbn. set_solver. }
  assert (Huncordon : forall l t b, (forall m, m ∈ l -> m ∈ ms) -> a ∈ [Start; Enable; Restart; ForceRestart] ->
    step_keeps C (uncordon fuel cluster l t b) w).
  { intros l t b Hl Ha. apply uncordon_keeps; [done|exact Hl|exact Ha| |done]. by right. }
  assert (Hwake : forall f t b, a ∈ [Start; Enable] -> step_keeps C (wake (List.filter f ms) t b) w).
  { intros f t b Ha. apply wake_keeps; [|exact Ha]. intros m Hm. apply list_elem_of_In, List.filter_In in Hm as [Hm _]. by apply list_elem_of_In. }
  assert (Hstop : careful_stop a -> s ∈ stopWalk cluster ms -> step_keeps C s w).
  { intros Ha (l & Hs & Hl)%list_elem_of_join. apply list_elem_of_fmap in Hl as (m & -> & Hm). unfold stop_one in Hs.
    destruct (controlPlane m) eqn:Em; rewrite !elem_of_cons, elem_of_nil in Hs.
    - destruct Hs as [-> |[-> |[]]]; [apply Hcordon; [done|unfold careful_stop in Ha; set_solver]|apply shutdown_keeps].
    - destruct Hs as [-> |[-> |[-> |[]]]]; [apply Hcordon; [done|unfold careful_stop in Ha; set_solver]|apply Hdrain; tauto|apply shutdown_keeps]. }
  assert (Hstart : a ∈ [Start; Enable] -> s ∈ startWalk fuel cluster ms -> step_keeps C s w).
  { intros Ha. unfold startWalk. cbv zeta. rewrite !elem_of_cons, elem_of_nil.
    intros [-> |[-> |[-> |[-> |[-> |[-> |[]]]]]]]; [apply refuseClusterDisabled_keeps|by apply Hwake|apply waitKube_keeps|by apply Hwake
      |apply waitAnswer_keeps|apply Huncordon; [done|set_solver]]. }
  unfold careful_stop in *. destruct a; cbn [clusterSteps] in E.
  - apply Hstop; [set_solver|done].
  - apply list_elem_of_singleton in E as ->. apply forceOffAll_keeps.
  - apply Hstart; [set_solver|done].
  - apply elem_of_cons in E as [-> |E]; [|apply Hstop; [set_solver|done]]. apply (markCluster_keeps C). by left.
  - apply elem_of_cons in E as [-> |E]; [|apply Hstart; [set_solver|done]]. apply (markCluster_keeps C). by right.
  - apply restart_walk_in in E as [[]%not_elem_of_nil|(m & i & Hm & E)]. rewrite !elem_of_cons, elem_of_nil in E.
    destruct E as [-> |[-> |[-> |[-> |[-> |[]]]]]]; [apply Hcordon; [done|set_solver]|apply Hdrain; [done|by left]|apply reboot_keeps|apply waitBack_keeps
      |apply Huncordon; [by intros x ->%list_elem_of_singleton|set_solver]].
  - cbv zeta in E. cbn [app] in E. rewrite !elem_of_cons, elem_of_nil in E.
    destruct E as [-> |[-> |[-> |[-> |[]]]]]; [|apply rebootAll_keeps|apply waitAllBack_keeps|apply Huncordon; [done|set_solver]].
    apply remember_keeps; [done|]. left. split; [done|set_solver].
Qed.

Lemma cluster_job_touches fuel a cluster ms job w0 n cut started w :
  Walk (clusterSteps fuel a cluster ms) job w0 n cut started w -> trace w0 = [] ->
  justified (cluster_charter a cluster ms) (trace w).
Proof.
  intros Hw H0.
  refine (walk_invariant (HD := power_deeds) (clusterSteps fuel a cluster ms) job (fun _ => justified (cluster_charter a cluster ms)) w0 n cut started w _ _ _ Hw).
  - cbn. rewrite H0. apply justified_nil.
  - intros i s j v Hs _ Hj. destruct (clusterSteps_keep _ _ _ _ _ _ v Hs) as [Hk _].
    eapply wp_mono; [exact (Hk j Hj)| |]; cbn; [by intros u []|]. by intros o u [].
  - intros i s h j v Hs Hh _ Hj. destruct (clusterSteps_keep _ _ _ _ _ _ v Hs) as [_ Hk].
    eapply wp_mono; [exact (Hk h j Hh Hj)| |]; cbn; [by intros u []|]. by intros o u [].
Qed.

End Touch.
