(* ===== verification/PowerSafety.v ===== *)
(** * Power: what the jobs can do

    What is true of every walk of [Walk.v] through the steps of the fourteen jobs:
    a careful verb reaches a control-plane node only past etcd's gate and never by
    force, a cluster is taken in its order, a rolling restart takes one node at a
    time. *)

From S2P Require Import Prelude RecordStore Jobs Gate Transport Effects KubeApps KubeDrain NodeActions Wake Power PowerService PowerSteps PowerWorld PowerTouch.

Abbreviation nothing := (fun _ => False) (only parsing).

Section Jobs_.
Context `{ApiServer}.

(* ------------------------------------------------------------------ *)
(** ** What each step may do *)

Lemma does_reachable S id : does S (reachable_now id).
Proof. repeat (split; [done|]; intros []; try done). Qed.

Lemma does_rebooted S id since : does S (on_machine (RebootedSince id since)).
Proof. repeat (split; [done|]; intros []; try done). Qed.

Lemma does_findNode S cluster m : does S (findNode cluster m).
Proof. apply does_bind; [apply does_on_nodes|]. by intros []. Qed.

Lemma does_ret {A} S (a : A) : does S (mret a).
Proof. done. Qed.

Ltac peaceful_step :=
  lazymatch goal with
  | |- forall _, _ => intros ?
  | |- does _ (mret _) => apply does_ret
  | |- does _ (Ret _) => apply does_ret
  | |- does _ Stuck => exact I
  | |- does _ (if ?b then _ else _) => destruct b
  | |- does _ (match ?e with _ => _ end) => destruct e
  | |- does _ (reachable_now _) => apply does_reachable
  | |- does _ (on_machine (RebootedSince _ _)) => apply does_rebooted
  | |- does _ (findNode _ _) => apply does_findNode
  | |- does _ (on_nodes _ _) => apply does_on_nodes
  | |- does _ (call _) => apply does_call; reflexivity
  | |- does _ (_ ≫= _) => apply does_bind
  | |- does _ (try _ _) => apply does_try
  end.
Ltac peaceful := repeat first [eassumption | peaceful_step].

Lemma does_updateMachine S id change : does S (updateMachine id change).
Proof. unfold updateMachine. generalize 5. intros n. induction n; cbn [update_machine]; peaceful. Qed.

Lemma does_updateCluster S id change : does S (updateCluster id change).
Proof. unfold updateCluster. generalize 5. intros n. induction n; cbn [update_cluster]; peaceful. Qed.

Lemma does_poll {A} S fuel budget (check : prog PowerCall (option A)) : does S check -> does S (poll fuel budget check).
Proof.
  intros Hc. unfold poll. peaceful. induction fuel as [|n IH]; cbn [poll_loop]; peaceful.
Qed.

(** The same of a program over a node's calls. *)
Fixpoint node_does {A} (S : deed -> Prop) (p : prog NodeCall A) : Prop :=
  match p with
  | Ret _ | Stuck => True
  | Act c k => (forall d, node_deed c = Some d -> S d) /\ forall r, node_does S (k r)
  end.

Lemma does_on_machine {A} S (p : prog NodeCall A) : node_does S p -> does S (on_machine p).
Proof.
  unfold on_machine. induction p as [a| |R c k IH]; intros Hp; [done|done|]. destruct Hp as [Hc Hk]. split; [exact Hc|].
  intros r. apply IH, Hk.
Qed.

Lemma node_does_bind {A B} S (p : prog NodeCall A) (f : A -> prog NodeCall B) :
  node_does S p -> (forall a, node_does S (f a)) -> node_does S (p ≫= f).
Proof. intros Hp Hf. induction p as [a| |R c k IH]; [apply Hf|done|]. destruct Hp as [Hc Hk]. split; [done|]. intros r. by apply IH. Qed.

Lemma node_does_call {R} S (c : NodeCall R) : (forall d, node_deed c = Some d -> S d) -> node_does S (call c).
Proof. intros Hc. by split. Qed.

Lemma does_mutate (S : deed -> Prop) method id rpc detail d :
  (forall ctx, node_deed (rpc ctx) = Some d) -> S d -> does S (on_machine (mutate method id rpc detail)).
Proof.
  intros Hr Hd. apply does_on_machine. unfold mutate. apply node_does_bind; [by apply node_does_call|]. intros now.
  destruct (WithClassDeadline now job_ctx method) as [ctx|e]; [|exact I].
  apply node_does_bind; [by apply node_does_call|]. intros [u|e]; [|exact I].
  apply node_does_bind; [|by intros]. apply node_does_call. rewrite Hr. by intros ? [= <-].
Qed.

(** A step may do what [S] has, and asking after it does nothing. *)
Definition step_may (S : deed -> Prop) (s : Step PowerCall) : Prop :=
  (forall j, does S (Do s j)) /\ (forall h j, Happened s = Some h -> does nothing (h j)).

Lemma step_may_mono (S S' : deed -> Prop) s : step_may S s -> (forall d, S d -> S' d) -> step_may S' s.
Proof. intros [Hd Hh] HS. split; [|done]. intros j. by eapply does_mono. Qed.

Lemma step_may_nothing S s : step_may nothing s -> step_may S s.
Proof. intros Hs. by apply (step_may_mono _ _ _ Hs). Qed.

Lemma does_all_answer S ms : does S (all_answer ms).
Proof. induction ms; cbn [all_answer]; peaceful. Qed.
Lemma does_none_answers S ms : does S (none_answers ms).
Proof. induction ms; cbn [none_answers]; peaceful. Qed.
Lemma does_not_answering S ms : does S (not_answering ms).
Proof. induction ms; cbn [not_answering]; peaceful. Qed.
Lemma does_not_back S ms since : does S (not_back ms since).
Proof. induction ms; cbn [not_back]; peaceful. Qed.
Lemma does_all_rebooted S since ms : does S (all_rebooted since ms).
Proof. induction ms; cbn [all_rebooted]; peaceful. Qed.
Lemma does_active S ms : does S (active ms).
Proof. induction ms; cbn [active]; peaceful. Qed.
Lemma does_wake_loop S ms k : does S (wake_loop ms k).
Proof. revert k. induction ms; intros k; cbn [wake_loop]; peaceful; done. Qed.
Lemma does_uncordon_targets S ms b : does S (uncordon_targets ms b).
Proof. induction ms; cbn [uncordon_targets]; peaceful. Qed.
Lemma does_uncordon_loop S cluster ts l l' : does S (uncordon_loop cluster ts l l').
Proof. revert l l'. induction ts; intros l l'; cbn [uncordon_loop]; peaceful; (apply does_updateMachine || done). Qed.
Lemma does_remember_loop S cluster ms l : does S (remember_loop cluster ms l).
Proof. revert l. induction ms; intros l; cbn [remember_loop]; peaceful; (apply does_updateMachine || done). Qed.
Lemma does_kube_answers S cluster : does S (kube_answers cluster).
Proof. unfold kube_answers. peaceful. Qed.
Lemma does_is_back S cluster m since b : does S (is_back cluster m since b).
Proof. unfold is_back, kubeReady. peaceful. Qed.
Lemma does_late S text : does S (late text).
Proof. unfold late. peaceful. Qed.

Create HintDb peace.
#[local] Hint Constants Opaque : peace.
#[local] Hint Resolve does_updateMachine does_updateCluster does_poll does_all_answer does_none_answers does_not_answering does_not_back
  does_all_rebooted does_active does_wake_loop does_uncordon_targets does_uncordon_loop does_remember_loop does_kube_answers
  does_is_back does_late : peace.

(** The steps that do nothing to nodes. *)
Ltac quiet := split;
  [intros j; cbn [Do]
  |let E := fresh in intros h j E; cbn [Happened fmap option_fmap option_map] in E; apply (inj Some) in E as <-; unfold never];
  repeat first [peaceful_step | solve [auto with peace] | apply does_poll].

Section Steps.
Variables (fuel : nat) (gated : bool) (cluster : string) (m : member) (ms : list member).

Lemma may_reachable : step_may nothing (reachable m).
Proof.
  split.
  - intros j. repeat (split; [done|]; intros []; try done).
  - intros h j. cbn. by intros [= <-].
Qed.
Lemma may_gate : step_may nothing (gate gated cluster m).
Proof. unfold gate. quiet. Qed.
Lemma may_cordon strict : step_may nothing (cordon cluster m strict).
Proof. unfold cordon. quiet. Qed.
Lemma may_drain : step_may nothing (drain cluster m).
Proof. unfold drain. quiet. Qed.
Lemma may_remember : step_may nothing (remember cluster ms).
Proof. unfold remember. quiet. Qed.
Lemma may_uncordon name b : step_may nothing (uncordon fuel cluster ms name b).
Proof. unfold uncordon. quiet. Qed.
Lemma may_markMachine b : step_may nothing (markMachine m b).
Proof. unfold markMachine. quiet. Qed.
Lemma may_markCluster b : step_may nothing (markCluster cluster b).
Proof. unfold markCluster. quiet. Qed.
Lemma may_refuseDisabled : step_may nothing (refuseDisabled cluster m).
Proof. unfold refuseDisabled. quiet. Qed.
Lemma may_refuseClusterDisabled : step_may nothing (refuseClusterDisabled cluster).
Proof. unfold refuseClusterDisabled. quiet. Qed.
Lemma may_wake name b : step_may nothing (wake ms name b).
Proof. unfold wake. quiet. Qed.
Lemma may_waitAnswer name : step_may nothing (waitAnswer fuel ms name).
Proof. unfold waitAnswer. quiet. Qed.
Lemma may_waitKube : step_may nothing (waitKube fuel cluster).
Proof. unfold waitKube. quiet. Qed.
Lemma may_waitBack i b : step_may nothing (waitBack fuel cluster m i b).
Proof. unfold waitBack. quiet. Qed.
Lemma may_waitAllBack i : step_may nothing (waitAllBack fuel ms i).
Proof. unfold waitAllBack. quiet. Qed.

Lemma may_reboot force : step_may (eq (mb_machine m, OpReboot force)) (reboot m force).
Proof.
  split.
  - intros j. unfold reboot, node_step. cbn [Do]. unfold RebootStep. cbn [Do]. by eapply does_mutate.
  - intros h j. unfold reboot, node_step, RebootStep. cbn [Happened fmap option_fmap option_map]. intros [= <-]. apply does_rebooted.
Qed.
Lemma may_shutdown force tolerant : step_may (eq (mb_machine m, OpShutdown force)) (shutdown m force tolerant).
Proof.
  assert (Hi : step_may (eq (mb_machine m, OpShutdown force))
                 (node_step (if force then "force " +:+ mb_hostname m +:+ " off" else "shut down " +:+ mb_hostname m)
                    (ShutdownStep (mb_machine m) force))).
  { split.
    - intros j. unfold node_step, ShutdownStep. cbn [Do]. by eapply does_mutate.
    - intros h j. unfold node_step, ShutdownStep. cbn [Happened fmap option_fmap option_map]. intros [= <-].
      repeat (split; [done|]; intros []; try done). }
  unfold shutdown. destruct tolerant; cbn [negb]; [|done]. destruct Hi as [Hd Hh]. split; [|done].
  intros j. cbn [Do]. apply does_bind; [apply does_reachable|]. intros []; [|done]. apply Hd.
Qed.
End Steps.

(* ------------------------------------------------------------------ *)
(** ** What a step leaves behind *)

Section Evidence.
Abbreviation silent := (fun x : pchoice => forall w, trace (p_others x w) = trace w) (only parsing).

Lemma gate_evidence gated cluster m j xs w d rest w' :
  controlPlane m = true -> run (Do (gate gated cluster m) j) xs w = (Some (d, None), rest, w') ->
  gate_passed cluster (mb_machine m) (trace w').
Proof.
  intros Hm. unfold gate. cbn [Do]. rewrite Hm. cbn [negb]. destruct gated; cbn [negb]; [|by intros [=]].
  rewrite run_bind. unfold call. cbn [run]. destruct xs as [|x xs]; [done|].
  change (act (EvaluateGate cluster (mb_machine m)) x w) with
    (p_gate x, seen [GateEv cluster (mb_machine m) (p_gate x)] (p_others x w)). cbn [run mret prog_mret].
  destruct (p_gate x) as [v|e]; [|done]. destruct (VOK v) eqn:E; cbn [negb]; [|done].
  intros [= _ _ <-]. exists v. split; [|done]. cbn. apply elem_of_app. right. by apply list_elem_of_singleton.
Qed.

(** The node told an uptime shorter than the time since [since], and, where it is
    asked, Kubernetes then had a Ready node for it. *)
Definition seen_back (cluster : string) (m : member) (need : bool) (since : time) (l : list PowerEvent) : Prop :=
  exists pre up now post, l = pre ++ UptimeEv (mb_machine m) (Ok up) :: TimeEv now :: post /\
    (up < time_sub now since)%Z /\
    (need = true -> exists nodes node, NodesEv cluster (Ok nodes) ∈ post /\ find_node (map node_of nodes) m = Some node /\
       NodeReady node = "True").

Lemma seen_back_app cluster m need since l l' : seen_back cluster m need since l -> seen_back cluster m need since (l ++ l').
Proof.
  intros (pre & up & now & post & -> & Hu & Hn). exists pre, up, now, (post ++ l').
  split; [by rewrite <- (assoc_L (++))|]. split; [done|]. intros Hneed. destruct (Hn Hneed) as (nodes & node & Hin & ?).
  exists nodes, node. split; [|done]. apply elem_of_app. by left.
Qed.

(** The last two things a node's answer leaves. *)
Definition just_rebooted (id : string) (since : time) (l : list PowerEvent) : Prop :=
  exists pre up now, l = pre ++ [UptimeEv id (Ok up); TimeEv now] /\ (up < time_sub now since)%Z.

Lemma rebooted_wp id since w :
  wp silent (fun _ => True) (on_machine (RebootedSince id since)) (fun r v => r = Ok true -> just_rebooted id since (trace v)) w.
Proof.
  unfold RebootedSince, on_machine. do 2 (apply wp_act; [done|]; intros ? ?).
  generalize (WithTimeout (act (OnMachine Now) x w).1 job_ctx probeTimeout). intros ctx.
  match goal with |- wp _ _ _ _ ?u => generalize u end. intros v.
  match goal with |- context [match ?e with Ok _ => _ | Err _ => _ end] => destruct e as [[]|e1] end; [|by apply wp_ret].
  apply wp_act; [done|]. intros y Hy. cbn -[lift]. destruct (n_uptime (p_node y)) as [up|e] eqn:E; [|by apply wp_ret].
  apply wp_act; [done|]. intros z Hz. apply wp_ret; [done|]. cbn. rewrite Hz. cbn. rewrite Hy. 
  intros Hu. injection Hu as Hu%bool_decide_eq_true.
  exists (trace v ++ [NodeEv (Asked ctx id OpUptime)]), up, (n_now (p_node z)). split; [|exact Hu].
  by rewrite <- !(assoc_L (++)).
Qed.

(** A program that does not end well is no look. *)
Lemma poll_wp {A} fuel deadline (check : prog PowerCall (option A)) (Q : A -> list PowerEvent -> Prop) w :
  (forall v, wp silent (fun _ => True) check (fun r u => forall a, r = Some a -> Q a (trace u)) v) ->
  wp silent (fun _ => True) (poll_loop fuel deadline check)
    (fun r v => r.1 = PollYes -> exists a, r.2 = Some a /\ Q a (trace v)) w.
Proof.
  intros Hc. revert w. induction fuel as [|n IH]; intros w; cbn [poll_loop]; [done|].
  apply wp_bind. eapply wp_post; [apply Hc|]. intros [a|] v _ Hq; [apply wp_ret; [done|]; intros _; exists a; auto|].
  apply wp_act; [done|]. intros x Hx. match goal with |- wp _ _ (if ?b then _ else _) _ _ => destruct b end; [by apply wp_ret|].
  apply wp_act; [done|]. intros y Hy. match goal with |- wp _ _ (if ?b then _ else _) _ _ => destruct b end; [by apply wp_ret|]. apply IH.
Qed.

Lemma ready_wp cluster m w (l : list PowerEvent) :
  (exists k, trace w = l ++ k) ->
  wp silent (fun _ => True) (kubeReady cluster m)
    (fun r v => exists k, trace v = l ++ k /\
       (r = true -> exists nodes node, NodesEv cluster (Ok nodes) ∈ k /\ find_node (map node_of nodes) m = Some node /\
                     NodeReady node = "True")) w.
Proof.
  intros [k Hk]. unfold kubeReady. apply wp_act; [done|]. intros x Hx. cbn. rewrite <- (Hx w) in Hk.
  destruct (p_kube x); [|apply wp_ret; [done|]; by exists k].
  apply wp_act; [done|]. intros y Hy. apply wp_ret; [done|]. cbn. rewrite Hy.
  destruct (d_fail (p_drain y)) as [e|]; cbn; rewrite Hk.
  { eexists. rewrite <- (assoc_L (++)). by split. }
  eexists. rewrite <- (assoc_L (++)). split; [reflexivity|].
  destruct (find_node (map node_of (d_nodes (p_drain y))) m) as [node|] eqn:E; [|done].
  intros Hr%bool_decide_eq_true. exists (d_nodes (p_drain y)), node. split; [|done].
  apply elem_of_app. right. by apply list_elem_of_singleton.
Qed.

Lemma is_back_wp cluster m since need w :
  wp silent (fun _ => True) (is_back cluster m since need)
    (fun r v => forall a, r = Some a -> seen_back cluster m need since (trace v)) w.
Proof.
  unfold is_back. apply wp_bind. eapply wp_post; [apply rebooted_wp|]. intros [[|]|e] v _ Hq; try (by apply wp_ret).
  destruct (Hq eq_refl) as (pre & up & now & Et & Hu). destruct need; cbn [negb].
  - apply wp_bind. eapply wp_post; [apply (ready_wp cluster m v (trace v)); by exists []; rewrite app_nil_r|].
    intros b u _ (k & Hk & Hb). destruct b; [|by apply wp_ret]. apply wp_ret; [done|]. intros _ _. rewrite Hk, Et.
    exists pre, up, now, k. rewrite <- (assoc_L (++)). split; [done|]. split; [done|]. intros _. by apply Hb.
  - apply wp_ret; [done|]. intros _ _. rewrite Et. exists pre, up, now, []. by split_and!.
Qed.

Lemma back_evidence fuel cluster m i need j xs w d rest w' :
  Forall silent xs -> run (Do (waitBack fuel cluster m i need) j) xs w = (Some (d, None), rest, w') ->
  seen_back cluster m need (started_at j i) (trace w').
Proof.
  intros Hs Hr.
  assert (Hw : wp silent (fun _ => True) (Do (waitBack fuel cluster m i need) j)
                 (fun o v => o.2 = None -> seen_back cluster m need (started_at j i) (trace v)) w).
  { unfold waitBack. cbn [Do]. apply wp_bind. unfold poll. apply wp_act; [done|]. intros x Hx.
    eapply wp_post; [apply (poll_wp _ _ _ (fun _ => seen_back cluster m need (started_at j i))); apply is_back_wp|].
    intros [[| |] o] v _ Hq; cbn [fst] in Hq.
    - apply wp_ret; [done|]. intros _. by destruct Hq as (a & _ & Ha).
    - unfold late. apply wp_act; [done|]. intros y Hy. by apply wp_ret.
    - unfold late. apply wp_act; [done|]. intros y Hy. by apply wp_ret. }
  destruct (wp_run _ _ _ _ _ _ _ _ _ Hw Hs Hr) as (_ & Hq & _). by apply (Hq (d, None)).
Qed.
End Evidence.

(* ------------------------------------------------------------------ *)
(** ** The jobs of one node *)

Section Walked.

(** What the verbs do to a node. *)
Definition deed_of_action (a : Action) : option NodeOp :=
  match a with
  | Stop | Disable => Some (OpShutdown false)
  | ForceStop => Some (OpShutdown true)
  | Restart => Some (OpReboot false)
  | ForceRestart => Some (OpReboot true)
  | Start | Enable => None
  end.

Definition its_deed (a : Action) (m : member) (d : deed) : Prop := d.1 = mb_machine m /\ deed_of_action a = Some d.2.

#[local] Hint Resolve may_reachable may_gate may_cordon may_drain may_remember may_uncordon may_markMachine may_markCluster
  may_refuseDisabled may_refuseClusterDisabled may_wake may_waitAnswer may_waitKube may_waitBack may_waitAllBack : peace.

(** A careful stop reaches the node in a step after the gate's. *)
Definition past_gate (gated : bool) (cluster : string) (m : member) (a : Action) (steps : list (Step PowerCall)) (n : nat) : Prop :=
  a ∈ [Stop; Disable] -> 1 < n /\ steps !! 1 = Some (gate gated cluster m).

Lemma nodeSteps_may fuel gated a cluster m n s :
  nodeSteps fuel gated a cluster m !! n = Some s ->
  step_may (fun d => its_deed a m d /\ past_gate gated cluster m a (nodeSteps fuel gated a cluster m) n) s.
Proof.
  set (S := fun d => _). intros E.
  assert (Hq : forall s', step_may nothing s' -> step_may S s') by (intros s'; apply step_may_nothing).
  assert (Hs : forall f b, deed_of_action a = Some (OpShutdown f) -> past_gate gated cluster m a (nodeSteps fuel gated a cluster m) n ->
    step_may S (shutdown m f b)) by (intros f b Ha Hn; eapply step_may_mono; [apply may_shutdown|]; by intros ? <-).
  assert (Hb : forall f, deed_of_action a = Some (OpReboot f) -> past_gate gated cluster m a (nodeSteps fuel gated a cluster m) n ->
    step_may S (reboot m f)) by (intros f Ha Hn; eapply step_may_mono; [apply may_reboot|]; by intros ? <-).
  clearbody S. unfold past_gate in Hs, Hb. destruct a; cbn [nodeSteps] in E, Hs, Hb.
  all: try destruct (mb_answered m).
  all: repeat (destruct n as [|n];
    [apply (inj Some) in E as <-;
     first [apply Hq; solve [auto with peace]
           |apply Hs; [done|(intros _; split; [lia|done]) || set_solver]
           |apply Hb; [done|set_solver]]
    |try discriminate E]).
Qed.

(** Nothing a job does to nodes but what its steps may. *)
Lemma job_accounted steps (may : nat -> deed -> Prop) job w0 n cut started w :
  (forall k s, steps !! k = Some s -> step_may (may k) s) -> trace w0 = [] -> Walk steps job w0 n cut started w ->
  forall pre e post d, trace w = pre ++ e :: post -> power_event_deed e = Some d ->
  exists k started' v, Walk steps job w0 k false started' v /\ k <= n /\ may k d /\
    (exists l, pre = trace v ++ l /\ Forall (may k) (omap power_event_deed l)) /\
    (forall i, (i < Z.of_nat k)%Z -> started' i = started i).
Proof.
  intros Hm H0 Hw pre e post d Ht He. refine (walk_accounted (HD := power_deeds) steps job may _ w0 n cut started w Hw pre e post d Ht He _).
  - intros k s Hs. by apply Hm in Hs as [].
  - cbn. rewrite H0. cbn. lia.
Qed.

(** C31: A job for one node does nothing to any other, and only what its verb says.
    Of everything that happens while it runs: a shutdown or a reboot is sent to its
    machine only, by force only where the verb is a forced one, and none by a start
    or an enable; a node object is patched only when Kubernetes told it to be this
    machine's, and a pod evicted only that was listed on it; a record is written
    only as the cordoned or disabled mark of this machine's record as it was read;
    a network card is woken only that this record has; a cluster's record is left
    alone. A careful stop or a disable of a control-plane node shuts down, cordons
    or drains it only after etcd's gate was asked, in this job, whether it can
    spare the node, and said yes: whatever fails, whatever the answers, and
    wherever the process died and the job was taken up again. *)
Theorem node_job_is_careful fuel gated a cluster m job w0 n cut started w pre e post :
  Walk (nodeSteps fuel gated a cluster m) job w0 n cut started w -> trace w0 = [] ->
  trace w = pre ++ e :: post ->
  touches (node_charter a cluster m) pre e /\
  forall d, power_event_deed e = Some d ->
    its_deed a m d /\
    (a ∈ [Stop; Disable] -> controlPlane m = true -> gate_passed cluster (mb_machine m) pre).
Proof.
  intros Hw H0 Ht. split; [by eapply (node_job_touches fuel gated a cluster m)|]. intros d He.
  destruct (job_accounted _ _ _ _ _ _ _ _ (nodeSteps_may fuel gated a cluster m) H0 Hw _ _ _ _ Ht He)
    as (k & st & v & Hv & _ & [Hd Hk] & (l & -> & _) & _).
  split; [done|]. intros Ha Hc. destruct (Hk Ha) as [Hlt Hg].
  assert (Hp : gate_passed cluster (mb_machine m) (trace v)).
  { apply (walk_evidence (HD := power_deeds) (nodeSteps fuel gated a cluster m) job 1 (gate gated cluster m)
      (fun _ l => gate_passed cluster (mb_machine m) l) w0 k false st v Hg); [|done| | |done|done].
    - intros _ l1 l2 (x & Hin & Hx). exists x. split; [apply elem_of_app; by left|done].
    - intros j xs v' d' rest w' _ _ Hr. by eapply gate_evidence.
    - intros h j xs v' rest w' E. cbn [gate Happened] in E. apply (inj Some) in E as <-. by intros _ _ [=]. }
  destruct Hp as (x & Hin & Hx). exists x. split; [apply elem_of_app; by left|done].
Qed.

(* ------------------------------------------------------------------ *)
(** ** The jobs of a cluster *)

(** The steps of a walk come in groups, one per member. *)
Fixpoint group_of {A} (gs : list (list A)) (n : nat) : nat :=
  match gs with
  | [] => 0
  | g :: gs' => if bool_decide (n < length g) then 0 else S (group_of gs' (n - length g))
  end.

Lemma group_of_mono {A} (gs : list (list A)) n n' : n <= n' -> group_of gs n <= group_of gs n'.
Proof.
  revert n n'. induction gs as [|g gs IH]; intros n n' Hn; cbn; [lia|]. repeat case_bool_decide; try lia.
  apply le_n_S, IH. lia.
Qed.

Lemma lookup_mjoin {A} (gs : list (list A)) n s :
  mjoin gs !! n = Some s -> exists g, gs !! group_of gs n = Some g /\ s ∈ g.
Proof.
  revert n. induction gs as [|g gs IH]; intros n; cbn [group_of]; [done|]. change (mjoin (g :: gs)) with (g ++ mjoin gs).
  intros E. case_bool_decide as Hn.
  - exists g. split; [done|]. rewrite lookup_app_l in E by done. by eapply list_elem_of_lookup_2.
  - rewrite lookup_app_r in E by lia. by apply IH.
Qed.

(** A rolling restart, five steps for each member. *)
Definition restart_one (fuel : nat) (cluster : string) (off : nat) (m : member) : list (Step PowerCall) :=
  [cordon cluster m true; drain cluster m; reboot m false; waitBack fuel cluster m (Z.of_nat (off + 2)) true;
   uncordon fuel cluster [m] ("uncordon " +:+ mb_hostname m) true].

Lemma restart_walk_groups fuel cluster ms acc :
  restart_walk fuel cluster ms acc = acc ++ mjoin (imap (fun k => restart_one fuel cluster (length acc + 5 * k)) ms).
Proof.
  revert acc. induction ms as [|m ms IH]; intros acc; cbn [restart_walk]; [by rewrite app_nil_r|].
  rewrite IH. rewrite !length_app. cbn [length imap]. change (mjoin (?g :: ?gs)) with (g ++ mjoin gs).
  rewrite <- !(assoc_L (++)). cbn [app]. unfold restart_one at 2. rewrite Nat.mul_0_r, Nat.add_0_r. cbn [app].
  do 5 f_equal. all: try done.
  - f_equal. f_equal. apply imap_ext. intros k x _. cbn. f_equal. lia.
Qed.

(** What the verbs do to a member of a cluster. *)
Definition cluster_deed (a : Action) (m : member) : option NodeOp :=
  match a with
  | Stop | Disable => Some (OpShutdown (controlPlane m))
  | ForceStop => Some (OpShutdown true)
  | Restart => Some (OpReboot false)
  | ForceRestart => Some (OpReboot true)
  | Start | Enable => None
  end.
(** The verbs that take one member after another. *)
Definition walks (a : Action) : bool := match a with Stop | Disable | Restart => true | _ => false end.

Definition is_deed_of (a : Action) (ms : list member) (k : nat) (d : deed) : Prop :=
  exists m, ms !! k = Some m /\ d.1 = mb_machine m /\ cluster_deed a m = Some d.2.

Section Cluster.
Variables (fuel : nat) (cluster : string) (ms : list member).

Definition groups (a : Action) : list (list (Step PowerCall)) :=
  match a with
  | Stop => map (stop_one cluster) ms
  | Disable => [markCluster cluster true] :: map (stop_one cluster) ms
  | Restart => imap (fun k => restart_one fuel cluster (5 * k)) ms
  | _ => [clusterSteps fuel a cluster ms]
  end.
Definition position (a : Action) (n : nat) : nat :=
  match a with Disable => pred (group_of (groups a) n) | _ => group_of (groups a) n end.

Lemma groups_steps a : clusterSteps fuel a cluster ms = mjoin (groups a).
Proof.
  destruct a; cbn [clusterSteps groups]; try (symmetry; apply app_nil_r); try done.
  rewrite restart_walk_groups. done.
Qed.

Lemma position_mono a n n' : n <= n' -> position a n <= position a n'.
Proof. intros Hn. pose proof (group_of_mono (groups a) n n' Hn). unfold position. destruct a; lia. Qed.

Definition cluster_may (a : Action) (n : nat) (d : deed) : Prop :=
  exists k, is_deed_of a ms k d /\ (walks a = true -> k = position a n).

Lemma does_fanOut (S : deed -> Prop) l one : (forall m, m ∈ l -> does S (one m)) -> does S (fanOut l one).
Proof.
  intros Ho. unfold fanOut. apply does_bind; [|done]. induction l as [|m l IH]; [done|]. cbn.
  apply does_bind; [apply Ho, list_elem_of_here|]. intros r. apply does_bind; [|done]. apply IH. intros m' Hm. by apply Ho, list_elem_of_further.
Qed.

Lemma may_forceOffAll (S : deed -> Prop) :
  (forall m, m ∈ ms -> S (mb_machine m, OpShutdown true)) -> step_may S (forceOffAll ms).
Proof.
  intros Hm. split.
  - intros j. unfold forceOffAll. cbn [Do]. apply does_bind; [|done]. apply does_fanOut. intros m Hin. unfold force_off_one.
    apply does_bind; [apply does_reachable|]. intros []; [|done]. apply does_bind; [|done]. eapply does_mutate; [done|by apply Hm].
  - intros h j E. cbn [forceOffAll Happened] in E. apply (inj Some) in E as <-. apply does_bind; [apply does_none_answers|done].
Qed.

Lemma may_rebootAll (S : deed -> Prop) :
  (forall m, m ∈ ms -> S (mb_machine m, OpReboot true)) -> step_may S (rebootAll ms).
Proof.
  intros Hm. split.
  - intros j. unfold rebootAll. cbn [Do]. apply does_bind; [|done]. apply does_fanOut. intros m Hin. unfold reboot_one.
    apply does_bind; [|done]. eapply does_mutate; [done|by apply Hm].
  - intros h j E. cbn [rebootAll Happened] in E. apply (inj Some) in E as <-. apply does_all_rebooted.
Qed.

Lemma stop_one_may (S : deed -> Prop) m s :
  S (mb_machine m, OpShutdown (controlPlane m)) -> s ∈ stop_one cluster m -> step_may S s.
Proof.
  intros Hm. unfold stop_one. destruct (controlPlane m) eqn:E; rewrite !elem_of_cons, elem_of_nil;
    intros Hs; by repeat (destruct Hs as [->|Hs];
      [first [apply step_may_nothing; solve [auto with peace] | eapply step_may_mono; [apply may_shutdown|]; by intros d <-]|]).
Qed.

Lemma restart_one_may (S : deed -> Prop) off m s :
  S (mb_machine m, OpReboot false) -> s ∈ restart_one fuel cluster off m -> step_may S s.
Proof.
  intros Hm. unfold restart_one. rewrite !elem_of_cons, elem_of_nil.
  intros Hs. by repeat (destruct Hs as [->|Hs];
    [first [apply step_may_nothing; solve [auto with peace] | eapply step_may_mono; [apply may_reboot|]; by intros d <-]|]).
Qed.

Lemma clusterSteps_may a n s : clusterSteps fuel a cluster ms !! n = Some s -> step_may (cluster_may a n) s.
Proof.
  assert (Hall : forall o, walks a = false -> (forall m, cluster_deed a m = Some o) -> forall m, m ∈ ms -> cluster_may a n (mb_machine m, o)).
  { intros o Hwa Ho m [k Hk]%list_elem_of_lookup. exists k. split; [exists m; by split_and!|]. by rewrite Hwa. }
  rewrite groups_steps. intros (g & Hg & Hs)%lookup_mjoin.
  assert (Hone : walks a = false -> s ∈ clusterSteps fuel a cluster ms).
  { intros Hwa. destruct a; try done; cbn [groups] in Hg; apply list_elem_of_lookup_2 in Hg as Hg';
      apply list_elem_of_singleton in Hg' as ->; exact Hs. }
  destruct a; cbn [groups] in Hg.
  - rewrite list_lookup_fmap in Hg. apply fmap_Some in Hg as (m & Hm & ->). apply (stop_one_may _ m); [|done].
    eexists; split; [exists m; by split_and!|done].
  - specialize (Hone eq_refl). apply list_elem_of_singleton in Hone as ->. apply may_forceOffAll. by apply Hall.
  - specialize (Hone eq_refl). unfold clusterSteps, startWalk in Hone. cbv zeta in Hone. rewrite !elem_of_cons, elem_of_nil in Hone.
    by repeat (destruct Hone as [->|Hone]; [apply step_may_nothing; solve [auto with peace]|]).
  - destruct (group_of (groups Disable) n) as [|k] eqn:Ek; cbn [groups] in Ek; rewrite Ek in Hg.
    + cbn in Hg. apply (inj Some) in Hg as <-. apply list_elem_of_singleton in Hs as ->. apply step_may_nothing; solve [auto with peace].
    + change (map (stop_one cluster) ms !! k = Some g) in Hg. rewrite list_lookup_fmap in Hg. apply fmap_Some in Hg as (m & Hm & ->).
      apply (stop_one_may _ m); [|done]. exists k. split; [exists m; by split_and!|]. intros _. unfold position. cbn [groups]. by rewrite Ek.
  - specialize (Hone eq_refl). unfold clusterSteps, startWalk in Hone. cbv zeta in Hone. rewrite !elem_of_cons, elem_of_nil in Hone.
    by repeat (destruct Hone as [->|Hone]; [apply step_may_nothing; solve [auto with peace]|]).
  - rewrite list_lookup_imap in Hg. apply fmap_Some in Hg as (m & Hm & ->). apply (restart_one_may _ (5 * group_of (groups Restart) n) m); [|done].
    eexists; split; [exists m; by split_and!|done].
  - specialize (Hone eq_refl). unfold clusterSteps in Hone. cbv zeta in Hone. cbn [app] in Hone. rewrite !elem_of_cons, elem_of_nil in Hone.
    by repeat (destruct Hone as [->|Hone];
      [first [by apply may_rebootAll, Hall | apply step_may_nothing; solve [auto with peace]]|]).
Qed.
End Cluster.

(** Every deed before a moment was done by a member up to this one. *)
Definition up_to (a : Action) (ms : list member) (k : nat) (pre : list PowerEvent) : Prop :=
  Forall (fun d => exists i, i <= k /\ is_deed_of a ms i d) (omap power_event_deed pre).

Lemma walk_order fuel a cluster ms job w0 n cut started w pre e post d :
  Walk (clusterSteps fuel a cluster ms) job w0 n cut started w -> trace w0 = [] ->
  trace w = pre ++ e :: post -> power_event_deed e = Some d ->
  exists step started' v k,
    Walk (clusterSteps fuel a cluster ms) job w0 step false started' v /\ step <= n /\ is_deed_of a ms k d /\
    (exists l, pre = trace v ++ l) /\ (forall i, (i < Z.of_nat step)%Z -> started' i = started i) /\
    (walks a = true -> k = position fuel cluster ms a step /\ up_to a ms k pre).
Proof.
  intros Hw H0 Ht He.
  destruct (job_accounted _ _ _ _ _ _ _ _ (clusterSteps_may fuel cluster ms a) H0 Hw _ _ _ _ Ht He)
    as (q & st & v & Hv & Hq & (k & Hd & Hk) & (l & -> & Hl) & Hst).
  exists q, st, v, k. split_and!; [done..|by exists l|done|]. intros Hwa. specialize (Hk Hwa). split; [done|].
  unfold up_to. rewrite omap_app. apply Forall_app. split.
  - apply Forall_forall. intros d' (e' & Hin & He')%list_elem_of_omap. apply list_elem_of_split in Hin as (l1 & l2 & Hsp).
    destruct (job_accounted _ _ _ _ _ _ _ _ (clusterSteps_may fuel cluster ms a) H0 Hv _ _ _ _ Hsp He')
      as (q' & _ & _ & _ & Hq' & (i & Hi & Hik) & _). exists i. split; [|done]. rewrite Hk, (Hik Hwa). by apply position_mono.
  - eapply Forall_impl; [exact Hl|]. intros d' (i & Hi & Hik). exists i. split; [|done]. rewrite Hk, (Hik Hwa). done.
Qed.

(** C37: A job for a cluster touches its members only, each in the way its verb says. Of
    everything that happens while it runs: a control plane is forced off without
    being asked to drain, a worker is never forced by a careful verb; only node
    objects Kubernetes told to be a member's are patched, and only pods listed on
    one evicted, by a stop or a disable those of workers; records are written only
    as the cordoned mark of a member's record as it was read, the cluster's own
    only as its disabled mark, by disable and enable; and only cards of members'
    records are woken. A stop, a disable and a rolling restart take the members in
    the order of the walk: once one was sent a shutdown or a reboot, none before it
    is sent another, through every failure, crash and resumption. *)
Theorem cluster_job_walks_in_order fuel a cluster ms job w0 n cut started w pre e post :
  Walk (clusterSteps fuel a cluster ms) job w0 n cut started w -> trace w0 = [] ->
  trace w = pre ++ e :: post ->
  touches (cluster_charter a cluster ms) pre e /\
  forall d, power_event_deed e = Some d ->
    exists k, is_deed_of a ms k d /\ (walks a = true -> up_to a ms k pre).
Proof.
  intros Hw H0 Ht. split; [by eapply (cluster_job_touches fuel a cluster ms)|]. intros d He.
  destruct (walk_order _ _ _ _ _ _ _ _ _ _ _ _ _ _ Hw H0 Ht He) as (q & st & v & k & _ & _ & Hd & _ & _ & Hk).
  exists k. split; [done|]. intros Hwa. by apply Hk.
Qed.

Lemma lookup_groups fuel cluster ms off k m r :
  ms !! k = Some m -> r < 5 ->
  mjoin (imap (fun k => restart_one fuel cluster (off + 5 * k)) ms) !! (5 * k + r) = restart_one fuel cluster (off + 5 * k) m !! r.
Proof.
  revert off k. induction ms as [|m' ms IH]; intros off k; [done|]. cbn [imap]. change (mjoin (?g :: ?gs)) with (g ++ mjoin gs).
  intros Hm Hr. destruct k as [|k].
  - cbn in Hm. injection Hm as ->. change (5 * 0 + r) with r. by rewrite lookup_app_l by (cbn; lia).
  - rewrite lookup_app_r by (cbn; lia). cbn in Hm.
    replace (5 * S k + r - length (restart_one fuel cluster (off + 5 * 0) m')) with (5 * k + r) by (cbn; lia).
    replace (off + 5 * S k) with ((off + 5) + 5 * k) by lia. rewrite <- (IH (off + 5) k) by done.
    f_equal. f_equal. apply imap_ext. intros i x _. cbn. f_equal. lia.
Qed.

Lemma group_of_five {A} (gs : list (list A)) n :
  Forall (fun g => length g = 5) gs -> group_of gs n < length gs -> 5 * group_of gs n <= n.
Proof.
  intros Hg. revert n. induction Hg as [|g gs Hl Hg IH]; intros n; cbn; [lia|]. case_bool_decide; [lia|].
  intros Hn. specialize (IH (n - length g)). lia.
Qed.

Lemma restart_wait fuel cluster ms k m :
  ms !! k = Some m ->
  clusterSteps fuel Restart cluster ms !! (5 * k + 3) = Some (waitBack fuel cluster m (Z.of_nat (5 * k + 2)) true).
Proof. intros Hm. rewrite groups_steps. cbn [groups].
  pose proof (lookup_groups fuel cluster ms 0 k m 3 Hm ltac:(lia)) as E. cbn [Nat.add] in E. exact E. Qed.

(** C32: A rolling restart takes one node at a time: when a node is sent its reboot,
    every node before it in the walk was seen back since its own reboot step
    began, with an uptime shorter than the time since, and Kubernetes had a Ready
    node for it at that moment. A node that does not come back stops the walk. *)
Theorem rolling_restart_one_at_a_time fuel cluster ms job w0 n cut started w pre e post d :
  Walk (clusterSteps fuel Restart cluster ms) job w0 n cut started w -> trace w0 = [] ->
  trace w = pre ++ e :: post -> power_event_deed e = Some d ->
  exists k, is_deed_of Restart ms k d /\
    forall i m, i < k -> ms !! i = Some m -> seen_back cluster m true (started (Z.of_nat (5 * i + 2))) pre.
Proof.
  intros Hw H0 Ht He.
  destruct (walk_order _ _ _ _ _ _ _ _ _ _ _ _ _ _ Hw H0 Ht He) as (q & st & v & k & Hv & _ & Hd & (l & ->) & Hst & Hk).
  exists k. split; [done|]. intros i m Hi Hm. destruct (Hk eq_refl) as [Hp _].
  assert (Hq : 5 * k <= q).
  { destruct Hd as (m' & Hm' & _). apply lookup_lt_Some in Hm'. unfold position in Hp. cbn [groups] in Hp. subst k.
    apply group_of_five; [|by rewrite length_imap]. apply Forall_forall. intros g (j & x & -> & _)%elem_of_lookup_imap_1. done. }
  apply seen_back_app. rewrite <- Hst by lia.
  apply (walk_evidence (HD := power_deeds) (clusterSteps fuel Restart cluster ms) job (5 * i + 3) (waitBack fuel cluster m (Z.of_nat (5 * i + 2)) true)
    (fun st => seen_back cluster m true (st (Z.of_nat (5 * i + 2)))) w0 q false st v); [by apply restart_wait| | | | |done|lia].
  - intros t l1 l2. apply seen_back_app.
  - intros t t' l1 Hx. by rewrite Hx by lia.
  - intros j xs v' d' rest w' _ Hs Hr. by eapply back_evidence.
  - intros h j xs v' rest w' E. cbn [waitBack Happened] in E. apply (inj Some) in E as <-. by intros _ _ [=].
Qed.

End Walked.
End Jobs_.

(* ------------------------------------------------------------------ *)
(** ** Jobs to try them on *)

(** A cluster of a control plane and two workers, and a day on which everything
    answers; the node objects are there and Ready. *)
Definition ready_node (name : string) (cordoned : bool) : NodeObject :=
  mkNodeObject name cordoned [mkCond "Ready" "True"] [] [].
Definition fine_day : pchoice := mkPChoice id NoFault up_node
  (mkDChoice None [ready_node "cp1" false; ready_node "w1" false; ready_node "w2" false] [] EvictOk) calm (Ok tt) (Ok "v1.34.0")
  (Ok (mkWakeReport [] [] [])) (Ok gate_ok) (Ok []) (Ok "job-1") false.

Definition m_cp1 : member := mkMember "m1" "cp1" "10.0.0.1" RoleControlPlane true.
Definition m_w1 : member := mkMember "m2" "w1" "10.0.0.4" "worker" true.
Definition m_w2 : member := mkMember "m3" "w2" "10.0.0.5" "worker" true.
Definition three_machines : gmap string (option MachineRec) :=
  <["m2" := Some (mkMachineRec "m2" "c1" "w1" "worker" "10.0.0.4" false false [] "" 1)]>
  (<["m3" := Some (mkMachineRec "m3" "c1" "w2" "worker" "10.0.0.5" false false [] "" 1)]> (machines power_start)).
Definition fine_start : PWorld := mkPWorld three_machines (clusters power_start) (mkCluster ∅ ∅ []) [].

Definition job_of (kind : string) (n : nat) : Jobs.Job :=
  Jobs.mkJob "j1" kind "c1" "m1" (mkExec JobRunning (replicate n (Jobs.mkStep "" StepPending true 0 0 "")) 0 0 0 "") ∅ false "op" 0 1.

Definition stop_job : option (nat * Jobs.Job * PWorld) :=
  perform (nodeSteps 3 true Stop "c1" m_cp1) 0 50 (job_of "power.node.stop" 5) (replicate 60 fine_day) fine_start.
Definition rolling_job : option (nat * Jobs.Job * PWorld) :=
  perform (clusterSteps 3 Restart "c1" [m_w1; m_w2]) 0 50 (job_of "power.cluster.restart" 10) (replicate 80 fine_day) fine_start.

Definition shown (o : option (nat * Jobs.Job * PWorld)) : option (nat * list deed) :=
  '(n, _, w) ← o; Some (n, omap power_event_deed (trace w)).

Example jobs_done :
  shown stop_job = Some (5, [("m1", OpShutdown false)]) /\
  shown rolling_job = Some (10, [("m2", OpReboot false); ("m3", OpReboot false)]).
Proof. split; vm_compute; reflexivity. Qed.

Lemma fine_days n : Forall (fun x : pchoice => forall w, trace (p_others x w) = trace w) (replicate n fine_day).
Proof. by apply Forall_replicate. Qed.

Definition deed_at (o : option (nat * Jobs.Job * PWorld)) (k : nat) : option deed :=
  '(_, _, w) ← o; e ← trace w !! k; power_event_deed e.

Lemma deed_at_split o k d :
  deed_at o k = Some d -> exists n j w pre e post, o = Some (n, j, w) /\ trace w = pre ++ e :: post /\ power_event_deed e = Some d.
Proof.
  unfold deed_at. destruct o as [[[n j] w]|]; [|done]. cbn. destruct (trace w !! k) as [e|] eqn:E; [|done]. cbn. intros Hd.
  exists n, j, w, (take k (trace w)), e, (drop (S k) (trace w)). split; [done|]. split; [|done]. symmetry. by apply take_drop_middle.
Qed.

Lemma node_job_is_careful_witness :
  exists pre, deed_at stop_job 20 = Some ("m1", OpShutdown false) /\ length pre = 20 /\ gate_passed "c1" "m1" pre.
Proof.
  assert (Hd : deed_at stop_job 20 = Some ("m1", OpShutdown false)) by (by vm_compute).
  destruct stop_job as [[[n j] w]|] eqn:E; [|done].
  destruct (trace w !! 20) as [e|] eqn:Ee; [|by cbn in Hd; rewrite Ee in Hd].
  assert (He : power_event_deed e = Some ("m1", OpShutdown false)) by (by cbn in Hd; rewrite Ee in Hd).
  destruct (performed (HD := power_deeds) (nodeSteps 3 true Stop "c1" m_cp1) 50 (job_of "power.node.stop" 5) _ _ _ _ _ (le_n 5) (fine_days 60) E) as (st & Hw & _).
  exists (take 20 (trace w)). split; [exact Hd|]. split; [apply length_take_le; apply lookup_lt_Some in Ee; lia|].
  destruct (node_job_is_careful _ _ _ _ _ _ _ _ _ _ _ _ _ _ Hw eq_refl (eq_sym (take_drop_middle _ _ _ Ee))) as [_ Hg].
  apply (Hg _ He); [apply list_elem_of_here|reflexivity].
Defined.

Lemma cluster_job_walks_in_order_witness :
  exists pre k, deed_at rolling_job 42 = Some ("m3", OpReboot false) /\
    omap power_event_deed pre = [("m2", OpReboot false)] /\ is_deed_of Restart [m_w1; m_w2] k ("m3", OpReboot false) /\
    up_to Restart [m_w1; m_w2] k pre.
Proof.
  assert (Hd : deed_at rolling_job 42 = Some ("m3", OpReboot false)) by (by vm_compute).
  assert (Hp : (fun '(_, _, w) => omap power_event_deed (take 42 (trace w))) <$> rolling_job = Some [("m2", OpReboot false)]) by (by vm_compute).
  destruct rolling_job as [[[n j] w]|] eqn:E; [|done]. cbn in Hp. injection Hp as Hp.
  destruct (trace w !! 42) as [e|] eqn:Ee; [|by cbn in Hd; rewrite Ee in Hd].
  assert (He : power_event_deed e = Some ("m3", OpReboot false)) by (by cbn in Hd; rewrite Ee in Hd).
  destruct (performed (HD := power_deeds) (clusterSteps 3 Restart "c1" [m_w1; m_w2]) 50 (job_of "power.cluster.restart" 10) _ _ _ _ _ (le_n 10) (fine_days 80) E) as (st & Hw & _).
  destruct (cluster_job_walks_in_order _ _ _ _ _ _ _ _ _ _ _ _ _ Hw eq_refl (eq_sym (take_drop_middle _ _ _ Ee))) as [_ Hd'].
  destruct (Hd' _ He) as (k & Hk & Hu).
  exists (take 42 (trace w)), k. split_and!; [exact Hd|exact Hp|exact Hk|by apply Hu].
Defined.

Lemma rolling_restart_one_at_a_time_witness :
  exists pre, deed_at rolling_job 42 = Some ("m3", OpReboot false) /\ length pre = 42 /\ seen_back "c1" m_w1 true 50 pre.
Proof.
  assert (Hd : deed_at rolling_job 42 = Some ("m3", OpReboot false)) by (by vm_compute).
  assert (Hp : (fun '(_, j, w) => started_at j 2) <$> rolling_job = Some 50%Z) by (by vm_compute).
  destruct rolling_job as [[[n j] w]|] eqn:E; [|done]. cbn in Hp. injection Hp as Hp.
  destruct (trace w !! 42) as [e|] eqn:Ee; [|by cbn in Hd; rewrite Ee in Hd].
  assert (He : power_event_deed e = Some ("m3", OpReboot false)) by (by cbn in Hd; rewrite Ee in Hd).
  destruct (performed (HD := power_deeds) (clusterSteps 3 Restart "c1" [m_w1; m_w2]) 50 (job_of "power.cluster.restart" 10) _ _ _ _ _ (le_n 10) (fine_days 80) E) as (st & Hw & Hst).
  exists (take 42 (trace w)). split; [exact Hd|]. split; [apply length_take_le; apply lookup_lt_Some in Ee; lia|].
  destruct (rolling_restart_one_at_a_time _ _ _ _ _ _ _ _ _ _ _ _ _ Hw eq_refl (eq_sym (take_drop_middle _ _ _ Ee)) He)
    as (k & (m & Hm & Hid & _) & Hs).
  rewrite <- Hp, <- Hst. apply (Hs 0 m_w1); [|done]. destruct k as [|k]; [|lia]. cbn in Hm. by injection Hm as <-.
Defined.

(* ------------------------------------------------------------------ *)
(** ** The keeper and the enable *)

(** The keeper cordons a running worker of a disabled cluster and leaves no mark
    on its record; enabling the cluster afterwards uncordons only marked nodes, so
    this one stays out of the scheduler although the keeper's message says it is
    cordoned until it is enabled. *)
Definition disabled_start : PWorld :=
  mkPWorld {[ "m2" := Some (mkMachineRec "m2" "c1" "w1" "worker" "10.0.0.4" false false [] "" 1) ]}
    {[ "c1" := Some (mkClusterRec "c1" "10.0.0.1" false true "" 2) ]} (mkCluster ∅ ∅ []) [].
Definition swept : option (gset string) * list pchoice * PWorld := run (Sweep ∅) (replicate 20 fine_day) disabled_start.
Definition enabled_again : option outcome * list pchoice * PWorld :=
  run (Do (uncordon 3 "c1" [m_w1] "uncordon the nodes the stop cordoned" true) (job_of "power.cluster.enable" 1))
    (replicate 20 fine_day) (mkPWorld (machines swept.2) {[ "c1" := Some (mkClusterRec "c1" "10.0.0.1" false false "" 3) ]}
      (apps swept.2) (trace swept.2)).

Example keeper_cordon_never_undone :
  List.filter (fun e => match e with DrainEv _ (DPatched _ _) | WarnEv _ => true | _ => false end) (trace swept.2) =
    [DrainEv "c1" (DPatched "w1" true);
     WarnEv "power: a disabled node is running; cordoned it so nothing is scheduled onto it until it is enabled"] /\
  enabled_again.1.1 = Some (did "nothing to uncordon").
Proof. split; vm_compute; reflexivity. Qed.
