(* ===== verification/UpgradeCalls.v ===== *)
(** * Upgrades: what they call

    The calls of [src/internal/upgrade] to a node, to the inventory, to the Image
    Factory and to Kubernetes ([Deps] of job.go, the methods of
    [talos.ClusterClient] it uses), and the helpers they are made with. *)

From S2P Require Import Prelude GoText Jobs Transport Effects NodeActions Gate.

(* ------------------------------------------------------------------ *)
(** ** What is read *)

(** Of [model.Machine]. *)
Record machine := mkMachine {
  um_id : string;
  um_hostname : string;
  um_role : string;
  um_locked : bool;
  um_talos : string;        (* Snapshot.TalosVersion *)
  um_kubernetes : string    (* Snapshot.KubernetesVersion *)
}.

Definition RoleControlPlane : string := "controlplane".
Definition RoleWorker : string := "worker".
Definition is_plane (m : machine) : bool := bool_decide (um_role m = RoleControlPlane).

Definition nameOf (m : machine) : string := if negb (bool_decide (um_hostname m = "")) then um_hostname m else um_id m.

Definition machineByID (machines : list machine) (id : string) : option machine :=
  match list_find (fun m => um_id m = id) machines with Some (_, m) => Some m | None => None end.

(** Of [talos.NodeFacts]. *)
Record NodeFacts := mkFacts { KubeletImage : string; SchematicID : string }.

(** [strings.LastIndex] of a character: what is before and behind it. *)
Fixpoint cut_last (c : ascii) (s : string) : option (string * string) :=
  match s with
  | EmptyString => None
  | String a s' =>
      match cut_last c s' with
      | Some (before, after) => Some (String a before, after)
      | None => if bool_decide (a = c) then Some ("", s') else None
      end
  end.

Definition has_char (c : ascii) (s : string) : bool := bool_decide (is_Some (cut_at c s).2).

Definition KubernetesVersion (f : NodeFacts) : string :=
  let ref := KubeletImage f in
  if has_char "@" ref then ""
  else
    match cut_last ":" ref with
    | None => ""
    | Some (_, tag) => if bool_decide (tag = "") || has_char "/" tag then "" else tag
    end.

Record Service := mkService { sv_id : string; sv_state : string; sv_healthy : bool; sv_unknown : bool }.
Record StaticPod := mkStaticPod { sp_component : string; sp_image : string; sp_ready : bool }.

(** A message of the upgrade's stream: a line, or the installer's exit code. *)
Record UpgradeProgress := mkProgress { pr_message : string; pr_exit : option Z }.

Inductive proxy_error := ErrNoKubeProxy | ProxyErr (why : string).

(** [time.Duration.String]. *)
Definition dur_frac (prec : nat) (n : Z) : string :=
  let s := trim_zeros (pad prec n) in if bool_decide (s = "") then "" else "." +:+ s.
Definition duration_text (d : duration) : string :=
  let u := Z.abs d in
  let s := (u / second)%Z in
  let tail := dur_frac 9 (u mod second) +:+ "s" in
  (if bool_decide (d < 0)%Z then "-" else "") +:+
  (if bool_decide (u = 0)%Z then "0s"
   else if bool_decide (u < 1000)%Z then itoa u +:+ "ns"
   else if bool_decide (u < 1000000)%Z then itoa (u / 1000) +:+ dur_frac 3 (u mod 1000) +:+ "µs"
   else if bool_decide (u < second)%Z then itoa (u / 1000000) +:+ dur_frac 6 (u mod 1000000) +:+ "ms"
   else if bool_decide (s < 60)%Z then itoa s +:+ tail
   else if bool_decide (s < 3600)%Z then itoa (s / 60) +:+ "m" +:+ itoa (s mod 60) +:+ tail
   else itoa (s / 3600) +:+ "h" +:+ itoa (s / 60 mod 60) +:+ "m" +:+ itoa (s mod 60) +:+ tail).

Example duration_texts :
  map duration_text [15000000000; 300000000; 5400000000000; 61500000000; 1500; 0]%Z = ["15s"; "300ms"; "1h30m0s"; "1m1.5s"; "1.5µs"; "0s"].
Proof. vm_compute. reflexivity. Qed.

(* ------------------------------------------------------------------ *)
(** ** The calls *)

Inductive UpCall : Type -> Type :=
  | ToNode {R} (c : NodeCall R) : UpCall R
  | Machines (cluster : string) : UpCall (result step_error (list machine))
  | EvaluateGate (cluster taking : string) : UpCall (result step_error Verdict)
  | ImagePull (ctx : Ctx) (id : string) (cri : bool) (ref : string) : UpCall (result node_error unit)
  | EtcdForfeit (ctx : Ctx) (id : string) : UpCall (result node_error string)
  (** What the node said, and the error the stream ended with, if it is not the end. *)
  | UpgradeNode (ctx : Ctx) (id ref : string) : UpCall (result node_error (list UpgradeProgress * option node_error))
  | Facts (ctx : Ctx) (id : string) : UpCall (result node_error NodeFacts)
  | ServiceList (ctx : Ctx) (id : string) : UpCall (result node_error (list Service))
  | StaticPods (ctx : Ctx) (id : string) : UpCall (result node_error (list StaticPod))
  | ConfigYAML (ctx : Ctx) (id : string) : UpCall (result node_error string)
  | ApplyConfig (ctx : Ctx) (id config mode : string) : UpCall (result node_error unit)
  | Cmdline (ctx : Ctx) (id : string) : UpCall (result node_error string)
  | SecurityState (ctx : Ctx) (id : string) : UpCall (result node_error bool)
  | MemberListOf (ctx : Ctx) (id : string) : UpCall (result node_error (list EtcdMemberDetail))
  | EtcdStatusOf (ctx : Ctx) (id : string) : UpCall (result node_error unit)
  | EtcdLeave (ctx : Ctx) (id : string) : UpCall (result node_error unit)
  | EtcdRemove (ctx : Ctx) (id : string) (member : Z) : UpCall (result node_error unit)
  | RecordNode (id : string) : UpCall (result step_error unit)
  | KubeProxy (cluster image : string) : UpCall (result proxy_error string)
  | Forget (id : string) : UpCall (result step_error unit)
  | SleepFor (d : duration) : UpCall bool                            (* whether the context ended first *)
  | CtxErr : UpCall step_error                                        (* ctx.Err() of a context that ended *)
  | ResolveInstaller (schematic version : string) (secure : bool) : UpCall (result string string)
  | TalosReleases : UpCall (result string (list string))
  | KubernetesReleases (minors : list Z) : UpCall (result string (gmap Z string)).

Abbreviation U A := (prog UpCall A) (only parsing).

Definition to_node {A} (p : prog NodeCall A) : U A := lift (@ToNode) p.
Definition now_ : U time := call (ToNode Now).

(** [talos.WithClassDeadline] before a call. *)
Definition class_ctx (method : string) : U (result step_error Ctx) :=
  now ← now_;
  mret (match WithClassDeadline now job_ctx method with
        | Ok ctx => Ok ctx
        | Err _ => Err (say "the call has no class")
        end).

Definition connect (id : string) : U (result node_error unit) := call (ToNode (Connect job_ctx id)).
Definition open (id : string) : U (result step_error unit) :=
  c ← connect id; mret (match c with Ok u => Ok u | Err e => Err (node_says "" e) end).

(** An answer of a node as the error of a step. *)
Definition told {A} (prefix : string) (r : result node_error A) : result step_error A :=
  match r with Ok a => Ok a | Err e => Err (node_says prefix e) end.

Definition MethodImagePull : string := machineService +:+ "ImagePull".
Definition MethodEtcdForfeitLeadership : string := machineService +:+ "EtcdForfeitLeadership".
Definition MethodEtcdMemberList : string := machineService +:+ "EtcdMemberList".
Definition MethodEtcdStatus : string := machineService +:+ "EtcdStatus".
Definition MethodEtcdLeaveCluster : string := machineService +:+ "EtcdLeaveCluster".
Definition MethodEtcdRemoveMemberByID : string := machineService +:+ "EtcdRemoveMemberByID".
Definition MethodServiceList : string := machineService +:+ "ServiceList".
Definition MethodApplyConfiguration : string := machineService +:+ "ApplyConfiguration".

(** The common shape: a class, then a call under it. *)
Definition asked {A} (method : string) (c : Ctx -> UpCall (result node_error A)) : U (result step_error A) :=
  ctx <-? class_ctx method ;;
  r ← call (c ctx);
  mret (told "" r).
