(* ===== verification/Etcd.v ===== *)
(** * etcd membership

    [src/internal/upgrade/etcd.go], with [DescribeMember] of
    [src/internal/talos/etcd.go]: the membership as a screen shows it, which voters
    answer, and whether the cluster can spare one. The peer addresses a member
    carries along are left out. *)

From S2P Require Import Prelude Jobs Transport Effects NodeActions Gate.
From S2P Require Import UpgradeCalls.

(* ------------------------------------------------------------------ *)
(** ** Member identifiers *)

Definition hex_char (d : Z) : ascii := ascii_of_nat (Z.to_nat (if bool_decide (d < 10)%Z then 48 + d else 87 + d)%Z).

(** [%x] of an unsigned number; [fuel] digits at most. *)
Fixpoint hex_digits (fuel : nat) (n : Z) (acc : string) : string :=
  match fuel with
  | O => acc
  | S fuel' =>
      let acc := String (hex_char (n mod 16)) acc in
      if bool_decide (n / 16 = 0)%Z then acc else hex_digits fuel' (n / 16) acc
  end.
Definition hex (n : Z) : string := hex_digits 16 n "".

Definition hex_digit_of (c : ascii) : option Z :=
  let n := Z.of_nat (nat_of_ascii c) in
  if bool_decide (48 <= n <= 57)%Z then Some (n - 48)%Z
  else if bool_decide (97 <= n <= 102)%Z then Some (n - 87)%Z
  else if bool_decide (65 <= n <= 70)%Z then Some (n - 55)%Z
  else None.

(** The hexadecimal digits at the front, as [Sscanf]'s [%x] reads them: [None]
    when there is none. What follows them is not looked at. *)
Fixpoint scan_hex (s : string) (acc : Z) : Z :=
  match s with
  | EmptyString => acc
  | String c s' => match hex_digit_of c with Some d => scan_hex s' (acc * 16 + d) | None => acc end
  end.
Definition sscanf_x (s : string) : option Z :=
  let s := trim_left_fuel (String.length s) inline_spaces s in
  match s with
  | EmptyString => None
  | String c _ =>
      if bool_decide (hex_digit_of c = None) then None
      else let n := scan_hex s 0 in if bool_decide (n < 2 ^ 64)%Z then Some n else None
  end.

Definition parseMemberID (id : string) : result string Z :=
  match sscanf_x (trim_prefix (to_lower id) "0x") with
  | Some n => Ok n
  | None => Err ("upgrade: " +:+ id +:+ " is not an etcd member id")
  end.

(* ------------------------------------------------------------------ *)
(** ** Members *)

Record Member := mkEtcdMember {
  em_id : string;
  em_name : string;
  em_machine : string;
  em_learner : bool;
  em_voting : bool;
  em_hostname : string;
  em_silent : bool }.

Record MemberList := mkMemberList {
  ml_members : list Member;
  ml_voting : Z;
  ml_tolerates : Z;
  ml_sentence : string;
  ml_known : bool;
  ml_answering : Z }.

Definition DescribeMember (m : EtcdMemberDetail) : string :=
  let name := if bool_decide (MemHostname m = "") then "a member that did not report a hostname" else MemHostname m in
  if IsLearner m then name +:+ " (learner, id " +:+ hex (MemID m) +:+ ")" else name +:+ " (id " +:+ hex (MemID m) +:+ ")".

(** One round of the loop in [Members]. *)
Definition member_of (machines : list machine) (m : EtcdMemberDetail) : Member :=
  mkEtcdMember (hex (MemID m)) (DescribeMember m)
    (match list_find (fun x => um_hostname x <> "" /\ equal_fold (um_hostname x) (MemHostname m) = true) machines with
     | Some (_, x) => um_id x
     | None => ""
     end)
    (IsLearner m) (negb (IsLearner m)) (MemHostname m) false.

Definition voters (l : list Member) : Z := Z.of_nat (length (List.filter em_voting l)).
Definition answering (l : list Member) : Z := Z.of_nat (length (List.filter (fun m => em_voting m && negb (em_silent m)) l)).

Definition tolerated (voting : Z) : Z :=
  let t := (voting - (voting / 2 + 1))%Z in if bool_decide (t < 0)%Z then 0%Z else t.

Definition members_sentence (voting tolerates : Z) : string :=
  if bool_decide (voting = 0)%Z then "etcd reports no voting members, which is not a cluster this can say anything about."
  else if bool_decide (tolerates = 0)%Z then
    itoa voting +:+ " voting member(s). Losing any one of them stops the cluster accepting writes: a " +:+
    "majority of " +:+ itoa voting +:+ " is " +:+ itoa (voting / 2 + 1) +:+ ", and " +:+ itoa (voting - 1) +:+ " remaining is not one."
  else itoa voting +:+ " voting member(s), so " +:+ itoa tolerates +:+ " may be lost before the cluster stops accepting writes.".

Definition members_list (raw : list EtcdMemberDetail) (machines : list machine) : MemberList :=
  let ms := map (member_of machines) raw in
  let t := tolerated (voters ms) in
  mkMemberList ms (voters ms) t (members_sentence (voters ms) t) false 0.

(** [Members], through the node [via]. *)
Definition Members (via : string) (machines : list machine) : U (result step_error MemberList) :=
  raw <-? asked MethodEtcdMemberList (fun ctx => MemberListOf ctx via) ;;
  mret (Ok (members_list raw machines)).

(** [Deps.probeStatus]: whether the machine's etcd answers. *)
Definition probeStatus (id : string) : U bool :=
  c ← connect id;
  match c with
  | Err _ => mret false
  | Ok _ => r ← asked MethodEtcdStatus (fun ctx => EtcdStatusOf ctx id); mret (is_ok r)
  end.

Definition set_silent (b : bool) (m : Member) : Member :=
  mkEtcdMember (em_id m) (em_name m) (em_machine m) (em_learner m) (em_voting m) (em_hostname m) b.

(** [ProbeVoters]. The source asks all voters at once and waits for all of them;
    each answer is about its own member. *)
Fixpoint probe_voters (ms : list Member) : U (list Member) :=
  match ms with
  | [] => mret []
  | m :: ms' =>
      if negb (em_voting m) then rest ← probe_voters ms'; mret (m :: rest)
      else if bool_decide (em_machine m = "") then rest ← probe_voters ms'; mret (set_silent true m :: rest)
      else
        up ← probeStatus (em_machine m);
        rest ← probe_voters ms';
        mret (set_silent (negb up) m :: rest)
  end.

Definition ProbeVoters (l : MemberList) : U MemberList :=
  ms ← probe_voters (ml_members l);
  mret (mkMemberList ms (ml_voting l) (ml_tolerates l) (ml_sentence l) true (answering ms)).

(* ------------------------------------------------------------------ *)
(** ** Losing a voter *)

Definition isNamed (m : Member) (name : string) : bool :=
  equal_fold (em_name m) name || (negb (bool_decide (em_hostname m = "")) && equal_fold (em_hostname m) name).

Definition standingAfterRemoving (l : MemberList) (name : string) : Z :=
  match list_find (fun m => em_voting m && isNamed m name = true) (ml_members l) with
  | Some (_, m) => if em_silent m then ml_answering l else (ml_answering l - 1)%Z
  | None => (ml_answering l - 1)%Z
  end.

Definition only_member (name : string) : string :=
  "upgrade: removing this member would leave etcd without a quorum: " +:+ name +:+
  " is the only etcd member. Removing it does not make the cluster smaller, it ends it -- there would be no quorum left to " +:+
  "rejoin and no member to add one through, and the only way back is a restore from a snapshot. To take this node out of " +:+
  "service, reset it".
Definition cannot_lose (name : string) (voting : Z) : string :=
  "upgrade: removing this member would leave etcd without a quorum: " +:+ name +:+ " is one of " +:+ itoa voting +:+
  " voting members, and " +:+ itoa voting +:+ " cannot lose one. Add a control-plane node first, or accept that the cluster " +:+
  "stops accepting writes".
Definition too_few (l : MemberList) (name : string) (standing need after : Z) : string :=
  "upgrade: removing this member would leave etcd without a quorum: only " +:+ itoa (ml_answering l) +:+ " of " +:+
  itoa (ml_voting l) +:+ " voting members answer, so after removing " +:+ name +:+ " " +:+ itoa standing +:+
  " would be standing and etcd needs " +:+ itoa need +:+ " of the " +:+ itoa after +:+ " that would remain. Bring the " +:+
  "unreachable member back first, or remove that one instead".

(** The refusal, or nothing. *)
Definition RefuseIfCannotSpareAVoter (l : MemberList) (name : string) : option string :=
  if bool_decide (ml_voting l <= 1)%Z then Some (only_member name)
  else if bool_decide (ml_tolerates l = 0)%Z then Some (cannot_lose name (ml_voting l))
  else if ml_known l then
    let standing := standingAfterRemoving l name in
    let after := (ml_voting l - 1)%Z in
    let need := (after / 2 + 1)%Z in
    if bool_decide (standing < need)%Z then Some (too_few l name standing need after) else None
  else None.

Definition findMember (l : MemberList) (id : string) : option Member :=
  match list_find (fun m => equal_fold (em_id m) id = true) (ml_members l) with Some (_, m) => Some m | None => None end.

(** [RemoveMember], through the node [via]. *)
Definition RemoveMember (via : string) (l : MemberList) (id : string) : U (result step_error unit) :=
  match findMember l id with
  | None => mret (Err (say ("upgrade: etcd has no member " +:+ id)))
  | Some m =>
      match (if em_voting m then RefuseIfCannotSpareAVoter l (em_name m) else None) with
      | Some why => mret (Err (say why))
      | None =>
          match parseMemberID id with
          | Err why => mret (Err (say why))
          | Ok n => asked MethodEtcdRemoveMemberByID (fun ctx => EtcdRemove ctx via n)
          end
      end
  end.

(** [EvictionWait]. *)
Definition EvictionWait : duration := (15 * second)%Z.

(* ------------------------------------------------------------------ *)
(** ** Identifiers round-trip *)

Definition hex_ok (c : ascii) : bool := visible c && negb (Ascii.eqb c "x") && bool_decide (lower_ascii c = c) &&
  negb (bool_decide (hex_digit_of c = None)).

Lemma hex_char_spec d : (0 <= d < 16)%Z -> hex_digit_of (hex_char d) = Some d /\ hex_ok (hex_char d) = true.
Proof.
  intros Hd. assert (Hin : In d (seqZ 0 16)) by (apply list_elem_of_In, elem_of_seqZ; lia).
  assert (Hall : forallb (fun d => bool_decide (hex_digit_of (hex_char d) = Some d) && hex_ok (hex_char d)) (seqZ 0 16) = true)
    by (vm_compute; reflexivity).
  rewrite forallb_forall in Hall. apply Hall, andb_true_iff in Hin as [Hh Hok]. by apply bool_decide_eq_true in Hh.
Qed.

Lemma hex_digits_scan fuel n acc :
  (0 <= n < 16 ^ Z.of_nat fuel)%Z -> 0 < fuel -> scan_hex (hex_digits fuel n acc) 0 = scan_hex acc n.
Proof.
  revert n acc. induction fuel as [|fuel IH]; intros n acc Hn Hf; [lia|]. cbn [hex_digits].
  assert (Hm : (0 <= n mod 16 < 16)%Z) by (apply Z.mod_pos_bound; lia).
  assert (Hdm : n = (n / 16 * 16 + n mod 16)%Z) by (pose proof (Z.div_mod n 16); lia).
  destruct (hex_char_spec _ Hm) as [Hd _]. case_bool_decide as Hz.
  - cbn [scan_hex]. rewrite Hd. f_equal. lia.
  - assert (Hq : (0 <= n / 16 < 16 ^ Z.of_nat fuel)%Z).
    { split; [apply Z.div_pos; lia|]. apply Z.div_lt_upper_bound; [lia|]. rewrite Nat2Z.inj_succ, Z.pow_succ_r in Hn by lia. lia. }
    destruct fuel as [|fuel]; [cbn in Hq; lia|]. rewrite IH by (done || lia). cbn [scan_hex]. rewrite Hd. f_equal. lia.
Qed.

Lemma hex_digits_ok fuel n acc : (0 <= n)%Z -> str_all hex_ok acc = true -> str_all hex_ok (hex_digits fuel n acc) = true.
Proof.
  revert n acc. induction fuel as [|fuel IH]; intros n acc Hn Ha; cbn [hex_digits]; [done|].
  destruct (hex_char_spec (n mod 16)) as [_ Hd]; [apply Z.mod_pos_bound; lia|].
  assert (Hc : str_all hex_ok (String (hex_char (n mod 16)) acc) = true) by (cbn [str_all]; by rewrite Hd, Ha).
  case_bool_decide; [done|]. apply IH; [|done]. apply Z.div_pos; lia.
Qed.

Lemma hex_digits_head fuel n acc : (exists c s, acc = String c s) -> exists c s, hex_digits fuel n acc = String c s.
Proof.
  revert n acc. induction fuel as [|fuel IH]; intros n acc Ha; cbn [hex_digits]; [done|].
  case_bool_decide; [|apply IH]; by do 2 eexists.
Qed.

Lemma to_lower_ok s : str_all hex_ok s = true -> to_lower s = s.
Proof.
  induction s as [|c s IH]; [done|]. cbn. unfold hex_ok at 1. intros H. bools. destruct_and?.
  rewrite IH by done. by f_equal.
Qed.

(** A member's identifier, as it is shown, is read back as the number it was
    written from, over all 64 bits. *)
Theorem parseMemberID_hex n : (0 <= n < 2 ^ 64)%Z -> parseMemberID (hex n) = Ok n.
Proof.
  intros Hn. unfold parseMemberID. assert (Hok : str_all hex_ok (hex n) = true) by (apply hex_digits_ok; [lia|done]).
  assert (Hs : scan_hex (hex n) 0 = n) by (unfold hex; rewrite hex_digits_scan; [done|cbn; lia|lia]).
  rewrite to_lower_ok by done. assert (Hh : exists c s, hex n = String c s).
  { assert (forall f, exists c s, hex_digits (S f) n "" = String c s) as Hf; [|apply (Hf 15)].
    intros f. cbn [hex_digits]. case_bool_decide; [|apply hex_digits_head]; by do 2 eexists. }
  destruct Hh as (c & s & E). rewrite E in *. cbn [str_all] in Hok. apply andb_true_iff in Hok as [Hc Hok'].
  unfold hex_ok in Hc. bools. destruct_and?.
  assert (Ht : trim_prefix (String c s) "0x" = String c s).
  { unfold trim_prefix. cbn [cut_prefix]. destruct (Ascii.eqb "0" c) eqn:E0; [|done]. destruct s as [|c' s']; [done|].
    cbn [str_all] in Hok'. apply andb_true_iff in Hok' as [Hc' _]. unfold hex_ok in Hc'. bools. destruct_and?.
    cbn [cut_prefix]. destruct (Ascii.eqb "x" c') eqn:E1; [|done]. apply Ascii.eqb_eq in E1 as <-. done. }
  rewrite Ht. unfold sscanf_x.
  assert (Hsp : trim_left_fuel (String.length (String c s)) inline_spaces (String c s) = String c s).
  { cbn [String.length trim_left_fuel]. by rewrite strip_one_inline. }
  rewrite Hsp, bool_decide_false, Hs, bool_decide_true by (done || lia). done.
Qed.

Lemma parseMemberID_hex_witness : parseMemberID "8e9e05c52164694d" = Ok 10276657743932975437%Z.
Proof. change "8e9e05c52164694d" with (hex 10276657743932975437). apply parseMemberID_hex. lia. Defined.

(* ------------------------------------------------------------------ *)
(** ** A removal keeps a quorum *)

(** More than half of the voters answer. *)
Definition has_majority (l : list Member) : Prop := (voters l < 2 * answering l)%Z.

(** The figures of a list are those of its members. *)
Record counted_list (l : MemberList) : Prop := {
  counted_voting : ml_voting l = voters (ml_members l);
  counted_tolerates : ml_tolerates l = tolerated (voters (ml_members l));
  counted_answering : ml_known l = true -> ml_answering l = answering (ml_members l) }.

Lemma filter_delete {A} (f : A -> bool) l i x :
  l !! i = Some x ->
  length (List.filter f l) = length (List.filter f (delete i l)) + (if f x then 1 else 0).
Proof.
  revert i. induction l as [|a l IH]; intros [|i]; cbn; try done.
  - intros [= <-]. destruct (f a); cbn; by rewrite ?Nat.add_1_r, ?Nat.add_0_r.
  - intros Hi. specialize (IH i Hi). destruct (f a); cbn; rewrite IH; done.
Qed.

Lemma voters_delete l i x : l !! i = Some x -> em_voting x = true -> voters (delete i l) = (voters l - 1)%Z.
Proof. intros Hi Hx. unfold voters. rewrite (filter_delete em_voting l i x Hi), Hx. lia. Qed.

Lemma answering_delete l i x : l !! i = Some x -> em_voting x = true ->
  answering (delete i l) = (answering l - (if em_silent x then 0 else 1))%Z.
Proof.
  intros Hi Hx. unfold answering. rewrite (filter_delete (fun m => em_voting m && negb (em_silent m)) l i x Hi), Hx.
  destruct (em_silent x); cbn; lia.
Qed.

(** The name is this member's and no other voter's, or nobody's. *)
Definition names_one (l : list Member) (i : nat) (name : string) : Prop :=
  (forall k y, l !! k = Some y -> em_voting y = true -> isNamed y name = true -> k = i).

Lemma standing_le l i x name :
  ml_known l = true -> counted_list l -> ml_members l !! i = Some x -> em_voting x = true -> names_one (ml_members l) i name ->
  (standingAfterRemoving l name <= answering (delete i (ml_members l)))%Z.
Proof.
  intros Hk Hc Hi Hx Hone. rewrite (answering_delete _ i x) by done. rewrite <- (counted_answering l Hc Hk).
  unfold standingAfterRemoving. destruct (list_find _ _) as [[k y]|] eqn:E; [|destruct (em_silent x); lia].
  apply list_find_Some in E as (Hy & Hn & _). bools. destruct Hn as [Ev Hn].
  rewrite (Hone k y Hy Ev Hn) in Hy. rewrite Hi in Hy. injection Hy as <-. destruct (em_silent x); lia.
Qed.

(** The list of a cluster's members, once every voter was asked. *)
Definition probed (l : MemberList) : Prop := ml_known l = true /\ counted_list l.

Lemma probe_voters_shape ms : returns (probe_voters ms) (fun out => map em_voting out = map em_voting ms).
Proof.
  induction ms as [|m ms IH]; cbn [probe_voters]; [done|]. destruct (em_voting m) eqn:E; cbn [negb].
  - destruct (bool_decide _).
    + apply returns_bind. eapply returns_mono; [exact IH|]. intros out Ho. cbn. by rewrite E, Ho.
    + apply returns_bind. assert (Hp : forall A (p : U A), returns p (fun _ => True)) by (intros A p; induction p; cbn; auto).
      eapply returns_mono; [apply Hp|]. intros up _. apply returns_bind. eapply returns_mono; [exact IH|].
      intros out Ho. cbn. by rewrite E, Ho.
  - apply returns_bind. eapply returns_mono; [exact IH|]. intros out Ho. cbn. by rewrite E, Ho.
Qed.

Lemma voters_map l l' : map em_voting l = map em_voting l' -> voters l = voters l'.
Proof.
  unfold voters. intros E. f_equal. revert l' E. induction l as [|m l IH]; intros [|m' l']; try done. cbn. intros [= E1 E2].
  rewrite E1. destruct (em_voting m'); cbn; by rewrite (IH l').
Qed.

Lemma ProbeVoters_probed raw machines : returns (ProbeVoters (members_list raw machines)) probed.
Proof.
  unfold ProbeVoters. apply returns_bind. eapply returns_mono; [apply probe_voters_shape|]. intros out Ho. cbn.
  apply voters_map in Ho. by split; [done|split; cbn; rewrite ?Ho].
Qed.

Lemma spared_leaves_quorum l name i x :
  probed l -> RefuseIfCannotSpareAVoter l name = None ->
  ml_members l !! i = Some x -> em_voting x = true -> names_one (ml_members l) i name ->
  (2 <= voters (delete i (ml_members l)))%Z /\ has_majority (delete i (ml_members l)).
Proof.
  intros [Hk Hc] Hr Hi Hx Hone. unfold has_majority. rewrite (voters_delete _ i x) by done.
  pose proof (standing_le l i x name Hk Hc Hi Hx Hone) as Hs. destruct Hc as [Hv Ht _].
  unfold RefuseIfCannotSpareAVoter in Hr. rewrite Hk, Hv, Ht in Hr. unfold tolerated in Hr.
  repeat (case_bool_decide; try done); Z.div_mod_to_equations; lia.
Qed.

(** What passes this check leaves a quorum: of a membership whose voters were all
    asked, taking out the one voter that goes by the name leaves at least two, and
    more than half of those that remain answered. *)
Theorem spared_voter_leaves_quorum l name i x :
  probed l -> RefuseIfCannotSpareAVoter l name = None ->
  ml_members l !! i = Some x -> em_voting x = true -> names_one (ml_members l) i name ->
  (2 <= voters (delete i (ml_members l)))%Z /\ has_majority (delete i (ml_members l)).
Proof. apply spared_leaves_quorum. Qed.

(** Three voters of which one is silent: the silent one can be spared. *)
Definition one_silent : MemberList :=
  let m i s := mkEtcdMember (hex i) ("cp-" +:+ itoa i) ("m" +:+ itoa i) false true ("cp-" +:+ itoa i) s in
  mkMemberList [m 1 false; m 2 false; m 3 true]%Z 3 1 "" true 2.

Lemma spared_voter_leaves_quorum_witness :
  RefuseIfCannotSpareAVoter one_silent "cp-2" <> None /\ RefuseIfCannotSpareAVoter one_silent "cp-3" = None /\
  has_majority (delete 2 (ml_members one_silent)).
Proof.
  assert (Hr : RefuseIfCannotSpareAVoter one_silent "cp-3" = None) by (vm_compute; reflexivity).
  split; [intros H; vm_compute in H; discriminate H|]. split; [exact Hr|].
  apply (spared_voter_leaves_quorum one_silent "cp-3" 2 (mkEtcdMember "3" "cp-3" "m3" false true "cp-3" true)); [|exact Hr|reflexivity|reflexivity|].
  - split; [reflexivity|]. split; [reflexivity|reflexivity|intros _; reflexivity].
  - intros k y Hy _ Hn. destruct k as [|[|[|k]]]; [| |reflexivity|discriminate Hy].
    all: injection Hy as <-; vm_compute in Hn; discriminate Hn.
Defined.
