(* ===== verification/UpgradeVerify.v ===== *)
(** * Upgrades: what a node is

    [src/internal/upgrade/verify.go]: the schematic a node was built from, the
    kernel arguments it runs with, and whether it came back as what was installed. *)

From S2P Require Import Prelude Version Plan Jobs Transport Effects NodeActions Gate.
From S2P Require Import UpgradeCalls.

(* ------------------------------------------------------------------ *)
(** ** The schematic *)

Record SchematicVerdict := mkSchematic { sc_id : string; sc_known : bool; sc_offered : bool; sc_sentence : string }.

Definition schematic_of (facts : NodeFacts) : SchematicVerdict :=
  if bool_decide (SchematicID facts = "") then
    mkSchematic "" false true
      ("This node reports no Image Factory schematic. That is the truth for a node installed from a stock image, and " +:+
       "upgrading it to a stock installer changes nothing about its extensions -- it has none. If you believe it was built " +:+
       "from a Factory image, do not upgrade it here: the schematic would be lost and every extension with it.")
  else
    mkSchematic (SchematicID facts) true true
      ("This node was installed from Image Factory schematic " +:+ SchematicID facts +:+ ", read from the node itself. The " +:+
       "upgrade installs from the same schematic, so its system extensions survive.").

Definition CheckSchematic (id : string) : U (result step_error SchematicVerdict) :=
  facts <-? asked MethodCOSIList (fun ctx => Facts ctx id) ;;
  mret (Ok (schematic_of facts)).

Definition securityStateOf (id : string) : U (result step_error bool) :=
  asked MethodCOSIGet (fun ctx => SecurityState ctx id).

(* ------------------------------------------------------------------ *)
(** ** Kernel arguments *)

(** [strings.Fields]. *)
Fixpoint fields_fuel (fuel : nat) (s cur : string) : list string :=
  let flush := if bool_decide (cur = "") then [] else [cur] in
  match fuel with
  | O => flush
  | S fuel' =>
      match s with
      | EmptyString => flush
      | String c s' =>
          match strip_one space_runes s with
          | Some r => flush ++ fields_fuel fuel' r ""
          | None => fields_fuel fuel' s' (cur +:+ String c "")
          end
      end
  end.
Definition fields (s : string) : list string := fields_fuel (S (String.length s)) s "".

(** What is before the first occurrence of a text, or everything. *)
Fixpoint before (pat s : string) : string :=
  match cut_prefix pat s with
  | Some _ => ""
  | None => match s with EmptyString => "" | String c s' => String c (before pat s') end
  end.
Definition document_mark : string := String (ascii_of_nat 10) "---".

Section Args.
(** [yaml.Unmarshal] of one document, down to .machine.install.extraKernelArgs. *)
Context (install_args : string -> option (list string)).

Definition configuredKernelArgs (raw : string) : list string :=
  default [] (install_args (before document_mark raw)).
End Args.

Definition talosOwned : list string :=
  ["talos.platform"; "talos.config"; "talos.board"; "talos.environment"; "talos.shutdown"; "talos.experimental.wipe";
   "talos.unified_boot"; "init_on_alloc"; "init_on_free"; "slab_nomerge"; "pti"; "consoleblank"; "nvme_core.io_timeout";
   "printk.devkmsg"; "ima_template"; "ima_appraise"; "ima_hash"; "selinux"; "lsm"; "console"; "root"; "initrd"; "BOOT_IMAGE"].
Definition talosOwnedArg (arg : string) : bool := bool_decide ((cut_at "=" arg).1 ∈ talosOwned).

Record KernelArgDrift := mkArgDrift {
  ka_drifted : bool;
  ka_in_config : list string;
  ka_on_node : list string;
  ka_only_on_node : list string;
  ka_only_in_config : list string;
  ka_sentence : string }.

Definition CheckKernelArgs (inConfig onNode : list string) : KernelArgDrift :=
  let only_node := List.filter (fun a => negb (talosOwnedArg a || bool_decide (a ∈ inConfig))) onNode in
  let only_config := List.filter (fun a => negb (bool_decide (a ∈ onNode))) inConfig in
  if bool_decide (only_node = []) && bool_decide (only_config = [])
  then mkArgDrift false inConfig onNode [] [] ""
  else
    let parts :=
      (if bool_decide (only_node = []) then []
       else ["running with " +:+ join " " only_node +:+ ", which its configuration does not ask for"]) ++
      (if bool_decide (only_config = []) then []
       else ["configured for " +:+ join " " only_config +:+ ", which it is not running"]) in
    mkArgDrift true inConfig onNode only_node only_config
      ("This node is " +:+ join ", and " parts +:+ ". The upgrade call carries an installer image and nothing else -- kernel " +:+
       "arguments are written at install time from the machine configuration -- so upgrading through this screen would install " +:+
       "a system with the configuration's arguments and drop the difference without saying so. Reconcile the two first, or " +:+
       "upgrade this node by hand with the arguments you mean.").

Definition ReadKernelArgDrift (install_args : string -> option (list string)) (id : string) : U (result step_error KernelArgDrift) :=
  cmdline <-? asked MethodCOSIGet (fun ctx => Cmdline ctx id) ;;
  raw <-? asked MethodCOSIGet (fun ctx => ConfigYAML ctx id) ;;
  mret (Ok (CheckKernelArgs (configuredKernelArgs install_args raw) (fields cmdline))).

(* ------------------------------------------------------------------ *)
(** ** Declared against observed *)

Record Observed := mkObserved {
  ob_talos : string;
  ob_kubernetes : string;
  ob_schematic : string;
  ob_healthy : bool;
  ob_unhealthy : list string }.

Inductive verify_error :=
  | ErrNotUpgraded (why : string)
  | ErrUnknownSchematic (why : string)
  | VerifyRead (e : step_error).

Definition RollbackNotice : string :=
  "holzkube-manager does not undo an upgrade. Talos installs to one of two boot partitions and keeps the previous installation " +:+
  "on the other, and `talosctl rollback` against this node boots it -- per node, and only until that node is upgraded again. It " +:+
  "undoes the Talos version and nothing else: a Kubernetes upgrade, and anything etcd did while the node was on the new " +:+
  "version, are not affected. See Talos' documentation for the exact invocation.".

Definition orNone (s : string) : string := if bool_decide (s = "") then "none" else s.

(** The same release, whatever is behind the patch. *)
Definition same_release (a b : Ver) : bool :=
  bool_decide (Major a = Major b) && bool_decide (Minor a = Minor b) && bool_decide (Patch a = Patch b).

Definition VerdictFor (obs : Observed) (want : Ver) (wantSchematic : string) : option verify_error :=
  match ParseVersion (ob_talos obs) with
  | Err _ => Some (ErrNotUpgraded ("it reports " +:+ ob_talos obs +:+ ", which is not a version. " +:+ RollbackNotice))
  | Ok got =>
      if negb (same_release got want) then
        Some (ErrNotUpgraded (ver_string want +:+ " was installed and the node reports " +:+ ver_string got +:+ ". The upgrade call " +:+
          "succeeded and the node did not end up on that version, which is exactly the case 'the API said OK' does not cover. " +:+
          RollbackNotice))
      else if negb (bool_decide (wantSchematic = "")) && negb (bool_decide (ob_schematic obs = wantSchematic)) then
        Some (ErrUnknownSchematic ("the node is on " +:+ ver_string got +:+ " and reports schematic " +:+ orNone (ob_schematic obs) +:+
          " instead of " +:+ wantSchematic +:+ ". The version is right and the image is not, which means the system extensions " +:+
          "this node had are gone. " +:+ RollbackNotice))
      else if negb (ob_healthy obs) then
        Some (ErrNotUpgraded ("the node is on " +:+ ver_string got +:+ " and these services are not running: " +:+
          join ", " (ob_unhealthy obs) +:+ ". " +:+ RollbackNotice))
      else None
  end.

Definition service_up (s : Service) : bool := bool_decide (sv_state s = "Running") && (sv_healthy s || sv_unknown s).

Definition observed (version : string) (facts : NodeFacts) (services : list Service) : Observed :=
  let down := List.filter (fun s => negb (service_up s)) services in
  mkObserved version (KubernetesVersion facts) (SchematicID facts) (bool_decide (down = [])) (map sv_id down).

(** A read as part of the verification. *)
Definition verify_read {A} (p : U (result step_error A)) : U (result verify_error A) :=
  r ← p; mret (match r with Ok a => Ok a | Err e => Err (VerifyRead e) end).

Definition VerifyUpgraded (id : string) (want : Ver) (wantSchematic : string) : U (result verify_error Observed) :=
  facts <-? verify_read (asked MethodCOSIList (fun ctx => Facts ctx id)) ;;
  version <-? verify_read (asked MethodVersion (fun ctx => ToNode (NodeActions.Version ctx id))) ;;
  services <-? verify_read (asked MethodServiceList (fun ctx => ServiceList ctx id)) ;;
  let obs := observed version facts services in
  mret (match VerdictFor obs want wantSchematic with None => Ok obs | Some e => Err e end).

Definition SkipReason (m : machine) : string :=
  nameOf m +:+ " is locked, so this run skipped it. A locked node is skipped rather than failing the run: the lock is somebody " +:+
  "saying 'not this one', and stopping the whole upgrade because of it would make the lock a blunt instrument.".

(* ------------------------------------------------------------------ *)
(** ** What the checks mean *)

(** A node's kernel arguments are found to agree with its configuration exactly
    when every argument it runs with is configured or Talos's own, and every
    configured one is among those it runs with; what is reported as only on the one
    side is in the other nowhere. *)
Theorem kernel_args_agree inConfig onNode :
  let d := CheckKernelArgs inConfig onNode in
  (ka_drifted d = false <->
    (forall a, a ∈ onNode -> talosOwnedArg a = true \/ a ∈ inConfig) /\ (forall a, a ∈ inConfig -> a ∈ onNode)) /\
  (forall a, a ∈ ka_only_on_node d <-> a ∈ onNode /\ talosOwnedArg a = false /\ a ∉ inConfig) /\
  (forall a, a ∈ ka_only_in_config d <-> a ∈ inConfig /\ a ∉ onNode).
Proof.
  cbv zeta. unfold CheckKernelArgs.
  set (on_node := List.filter _ onNode). set (on_config := List.filter _ inConfig).
  assert (H1 : forall a, a ∈ on_node <-> a ∈ onNode /\ talosOwnedArg a = false /\ a ∉ inConfig).
  { intros a. unfold on_node. rewrite list_elem_of_In, filter_In, <- list_elem_of_In, negb_true_iff, orb_false_iff, bool_decide_eq_false. done. }
  assert (H2 : forall a, a ∈ on_config <-> a ∈ inConfig /\ a ∉ onNode).
  { intros a. unfold on_config. rewrite list_elem_of_In, filter_In, <- list_elem_of_In, negb_true_iff, bool_decide_eq_false. done. }
  clearbody on_node on_config.
  assert (H3 : on_node = [] /\ on_config = [] <->
    (forall a, a ∈ onNode -> talosOwnedArg a = true \/ a ∈ inConfig) /\ (forall a, a ∈ inConfig -> a ∈ onNode)).
  { split.
    - intros [-> ->]. split; intros a Ha.
      + destruct (talosOwnedArg a) eqn:Eo; [by left|]. right. destruct (decide (a ∈ inConfig)); [done|].
        exfalso. apply (not_elem_of_nil a). by apply H1.
      + destruct (decide (a ∈ onNode)); [done|]. exfalso. apply (not_elem_of_nil a). by apply H2.
    - intros [Ha Hb]. split; apply elem_of_nil_inv; intros a.
      + intros (Hon & Ho & Hc)%H1. destruct (Ha a Hon) as [Ht|Hin]; [congruence|done].
      + intros [Hin Hn]%H2. by apply Hn, Hb. }
  rewrite <- H3. destruct (bool_decide (on_node = [])) eqn:E1; [apply bool_decide_eq_true in E1; destruct (bool_decide (on_config = [])) eqn:E2|];
    cbn [andb ka_drifted ka_only_on_node ka_only_in_config].
  - apply bool_decide_eq_true in E2. subst. by split_and!.
  - apply bool_decide_eq_false in E2. split_and!; [|done|done]. by split; [|intros [_ ?]].
  - apply bool_decide_eq_false in E1. split_and!; [|done|done]. by split; [|intros [? _]].
Qed.

(** A node counts as upgraded exactly when the version it reports is one, has the
    numbers of the one wanted, the schematic wanted (if one is) and every service it
    reports running and not known to be unhealthy. *)
Theorem upgraded_means version facts services want wantSchematic :
  VerdictFor (observed version facts services) want wantSchematic = None <->
  exists got, ParseVersion version = Ok got /\ Major got = Major want /\ Minor got = Minor want /\ Patch got = Patch want /\
    (wantSchematic = "" \/ SchematicID facts = wantSchematic) /\
    forall s, s ∈ services -> sv_state s = "Running" /\ (sv_healthy s = true \/ sv_unknown s = true).
Proof.
  assert (Hup : bool_decide (List.filter (fun s => negb (service_up s)) services = []) = true <->
    forall s, s ∈ services -> sv_state s = "Running" /\ (sv_healthy s = true \/ sv_unknown s = true)).
  { rewrite bool_decide_eq_true. assert (Hs : forall s, service_up s = true <-> sv_state s = "Running" /\ (sv_healthy s = true \/ sv_unknown s = true)).
    { intros s. unfold service_up. by rewrite andb_true_iff, orb_true_iff, bool_decide_eq_true. }
    split.
    - intros E s Hin. apply Hs. destruct (service_up s) eqn:Eu; [done|]. exfalso. apply (not_elem_of_nil s). rewrite <- E.
      rewrite list_elem_of_In, filter_In, <- list_elem_of_In, Eu. done.
    - intros H. apply elem_of_nil_inv. intros s. rewrite list_elem_of_In, filter_In, <- list_elem_of_In, negb_true_iff. intros [Hin Eu].
      apply H, Hs in Hin. congruence. }
  unfold VerdictFor, observed. cbn [ob_talos ob_schematic ob_healthy]. destruct (ParseVersion version) as [got|e].
  2: { split; [done|]. by intros (got & ? & _). }
  assert (Hrel : same_release got want = true <-> Major got = Major want /\ Minor got = Minor want /\ Patch got = Patch want).
  { unfold same_release. rewrite !andb_true_iff, !bool_decide_eq_true. tauto. }
  destruct (same_release got want) eqn:Er; cbn [negb].
  2: { split; [done|]. intros (g & [= <-] & H1 & H2 & H3 & _). destruct Hrel as [_ Hr]. by specialize (Hr (conj H1 (conj H2 H3))). }
  destruct (bool_decide (wantSchematic = "")) eqn:Ew; cbn [negb andb].
  - apply bool_decide_eq_true in Ew. destruct (bool_decide (List.filter _ services = [])) eqn:Eh; cbn [negb].
    + split; [|done]. intros _. exists got. destruct Hrel as [Hr _], Hup as [Hu _]. destruct (Hr eq_refl) as (? & ? & ?). by split_and!; [..|left|apply Hu].
    + split; [done|]. intros (g & _ & _ & _ & _ & _ & H). apply Hup in H. congruence.
  - apply bool_decide_eq_false in Ew. destruct (bool_decide (SchematicID facts = wantSchematic)) eqn:Es; cbn [negb].
    + apply bool_decide_eq_true in Es. destruct (bool_decide (List.filter _ services = [])) eqn:Eh; cbn [negb].
      * split; [|done]. intros _. exists got. destruct Hrel as [Hr _], Hup as [Hu _]. destruct (Hr eq_refl) as (? & ? & ?). by split_and!; [..|right|apply Hu].
      * split; [done|]. intros (g & _ & _ & _ & _ & _ & H). apply Hup in H. congruence.
    + apply bool_decide_eq_false in Es. split; [done|]. by intros (g & _ & _ & _ & _ & [H|H] & _).
Qed.

(** A node still on a pre-release of the version counts as upgraded to it. *)
Example prerelease_counts_as_release :
  VerdictFor (observed "v1.13.0-beta.1" (mkFacts "" "") []) (mk 1 13 0) "" = None /\ Less {| Major := 1; Minor := 13; Patch := 0; Pre := "beta.1" |} (mk 1 13 0) = true.
Proof. split; vm_compute; reflexivity. Qed.
