(* ===== verification/Upgrade.v ===== *)
(** * Upgrades: the jobs

    [src/internal/upgrade/job.go] and [removejob.go]: the rolling Talos upgrade, the
    rolling Kubernetes upgrade and the removal of a node as steps of jobs, with the
    parameters a job carries. A wait looks at most [fuel] times. *)

From S2P Require Import Prelude Version Plan Jobs Transport Effects NodeActions Gate.
From S2P Require Import GoText UpgradeCalls Etcd UpgradeVerify.
From S2P Require Redact ConfigDiff PlanGuard.

(* ------------------------------------------------------------------ *)
(** ** Requests *)

Record Request := mkRequest {
  rq_to : string;
  rq_machines : list string;
  rq_schematics : gmap string string;
  rq_installers : gmap string string }.

(** [sortStrings]: an element is carried down past every larger one. *)
Fixpoint carry_down (s : string) (sorted_rev : list string) : list string :=
  match sorted_rev with
  | t :: rest => if str_lt s t then t :: carry_down s rest else s :: sorted_rev
  | [] => [s]
  end.
Definition sortStrings (l : list string) : list string := reverse (fold_left (fun acc s => carry_down s acc) l []).

Definition pair_text (kv : string * string) : string := kv.1 +:+ "=" +:+ kv.2.
Definition pairs_text (m : gmap string string) : string := join "," (sortStrings (map pair_text (map_to_list m))).

(** [Request.Params]; a map is walked in the order of [map_to_list], and sorted. *)
Definition request_params (r : Request) : gmap string string :=
  let out := <["machines" := join "," (rq_machines r)]> {[ "to" := rq_to r ]} in
  let out := if bool_decide (rq_schematics r = ∅) then out else <["schematics" := pairs_text (rq_schematics r)]> out in
  if bool_decide (rq_installers r = ∅) then out else <["installers" := pairs_text (rq_installers r)]> out.

(** The loops that read the pairs back; a later pair replaces an earlier one. *)
Fixpoint read_pairs (what : string) (pairs : list string) (m : gmap string string) : result string (gmap string string) :=
  match pairs with
  | [] => Ok m
  | p :: pairs' =>
      match cut_at "=" p with
      | (k, Some v) => read_pairs what pairs' (<[k := v]> m)
      | (_, None) => Err ("upgrade: " +:+ p +:+ " is not a machine=" +:+ what +:+ " pair")
      end
  end.
Definition pairs_param (what s : string) : result string (gmap string string) :=
  if bool_decide (s = "") then Ok ∅ else read_pairs what (split_on "," s) ∅.

Definition RequestFromParams (params : gmap string string) : result string Request :=
  let to := default "" (params !! "to") in
  if bool_decide (to = "") then Err "upgrade: this job names no version to upgrade to"
  else
    let raw := default "" (params !! "machines") in
    if bool_decide (raw = "") then Err "upgrade: this job names no nodes to walk"
    else
      let machines := List.filter (fun id => negb (bool_decide (id = ""))) (map trim_space (split_on "," raw)) in
      installers ← pairs_param "installer" (default "" (params !! "installers"));
      schematics ← pairs_param "schematic" (default "" (params !! "schematics"));
      Ok (mkRequest to machines schematics installers).

(** [round]. *)
Definition round (d : duration) : string :=
  if bool_decide (d < minute)%Z then itoa (Z.quot d second) +:+ "s"
  else itoa (Z.quot d minute) +:+ "m" +:+ pad 2 (Z.rem (Z.quot d second) 60) +:+ "s".

Definition ReappearBudget : duration := (12 * minute)%Z.
Definition ComponentBudget : duration := (5 * minute)%Z.
Definition pollInterval : duration := (10 * second)%Z.

(** [fmt.Errorf("prefix: %w", err)]. *)
Definition wrap (prefix : string) (e : step_error) : step_error := mkStepError (se_canceled e) (prefix +:+ se_text e).

(** A step's error beside the detail it had written. *)
Definition fails (d : option string) (e : step_error) : outcome := (d, Some e).

(** The error of a function that returns nothing else. *)
Definition ended_with (d : option string) (r : result step_error unit) : outcome :=
  match r with Ok _ => (d, None) | Err e => (d, Some e) end.

Definition gone_text (id : string) : step_error := say ("upgrade: " +:+ id +:+ " is no longer in the inventory").

Section Jobs_.
Context `{HM : !Redact.Machinery} `{HP : !@PlanGuard.Patcher HM}.
(** The kinds of a configuration's documents, and what the process was wired with. *)
Context (document_kinds : Redact.provider -> list string).
Context (has_record has_proxy has_forget : bool) (eviction_wait : duration) (fuel : nat).

(* ------------------------------------------------------------------ *)
(** ** Waiting *)

(** The loops of the waits: sleep, look, and give up when the budget is over. *)
Fixpoint wait_loop {A} (n : nat) (started : time) (interval budget : duration) (look : U (option (result step_error A)))
    (late : duration -> step_error) : U (result step_error A) :=
  match n with
  | O => Stuck
  | S n' =>
      ended ← call (SleepFor interval);
      if (ended : bool) then e ← call CtxErr; mret (Err e)
      else
        r ← look;
        match r with
        | Some a => mret a
        | None =>
            now ← now_;
            if bool_decide (budget < time_sub now started)%Z then mret (Err (late (time_sub now started)))
            else wait_loop n' started interval budget look late
        end
  end.

Definition waiting {A} (interval budget : duration) (look : U (option (result step_error A))) (late : duration -> step_error)
    : U (result step_error A) :=
  started ← now_; wait_loop fuel started interval budget look late.

Definition verify_says (e : verify_error) : step_error :=
  match e with
  | ErrNotUpgraded why => say ("upgrade: the node is not running the version that was installed: " +:+ why)
  | ErrUnknownSchematic why => say ("upgrade: this node's Image Factory schematic is not known: " +:+ why)
  | VerifyRead e => e
  end.

Definition waitForUpgrade (id : string) (to : Ver) (schematic : string) : U (result step_error Observed) :=
  waiting (10 * second)%Z ReappearBudget
    (c ← connect id;
     match c with
     | Err _ => mret None
     | Ok _ =>
         v ← VerifyUpgraded id to schematic;
         mret (match v with
               | Ok obs => Some (Ok obs)
               | Err (ErrUnknownSchematic why) => Some (Err (verify_says (ErrUnknownSchematic why)))
               | Err _ => None
               end)
     end)
    (fun elapsed => say ("upgrade: " +:+ id +:+ " has not come back as " +:+ ver_string to +:+ " after " +:+ round elapsed +:+
       " (about " +:+ round ReappearBudget +:+ " is expected). It has not necessarily failed -- an upgrade on a slow disk takes " +:+
       "longer -- but this is the point at which the node's own console is worth looking at")).

(** The Kubernetes version of a node's facts, when it is the one. *)
Definition kubernetes_at (facts : NodeFacts) (to : Ver) : bool :=
  match ParseVersion (KubernetesVersion facts) with Ok got => same_release got to | Err _ => false end.

Definition waitForKubernetes (id : string) (to : Ver) : U (result step_error string) :=
  waiting pollInterval ReappearBudget
    (c ← connect id;
     match c with
     | Err _ => mret None
     | Ok _ =>
         f ← asked MethodCOSIList (fun ctx => Facts ctx id);
         mret (match f with
               | Ok facts => if kubernetes_at facts to then Some (Ok (KubernetesVersion facts)) else None
               | Err _ => None
               end)
     end)
    (fun elapsed => say ("upgrade: " +:+ id +:+ " has not reported Kubernetes " +:+ ver_string to +:+ " after " +:+ round elapsed +:+
       ". The configuration was applied; what has not happened is the kubelet coming up on the new version")).

(* ------------------------------------------------------------------ *)
(** ** Talos *)

Definition isNodeLeaving (e : node_error) : bool :=
  match ErrorKindOf (ne_err e) with
  | Some KindUnreachable | Some KindTimeout => true
  | _ => false
  end.

(** [UpgradeStream.Drain]: the lines the node said, the last detail, and how it
    ended; the installer's own failure stops the reading. *)
Inductive drain_end := StreamDone | StreamErr (e : node_error) | InstallerExit (status : Z).

Fixpoint drain_stream (said : list UpgradeProgress) (err : option node_error) (lines : list string) : list string * drain_end :=
  match said with
  | [] => (lines, match err with None => StreamDone | Some e => StreamErr e end)
  | p :: said' =>
      let lines := if bool_decide (pr_message p = "") then lines else lines ++ [pr_message p] in
      match pr_exit p with
      | Some status => if negb (bool_decide (status = 0)%Z) then (lines, InstallerExit status) else drain_stream said' err lines
      | None => drain_stream said' err lines
      end
  end.

Definition drain_failed (e : drain_end) : option step_error :=
  match e with
  | StreamDone => None
  | StreamErr e => if isNodeLeaving e then None else Some (node_says "" e)
  | InstallerExit status => Some (say ("talos: the installer exited with status " +:+ itoa status +:+
      "; the node is still running the system it was running"))
  end.

(** The gate in front of a control-plane node: the detail it leaves. *)
Definition gate_before (cluster : string) (me : machine) : U (result step_error (option string)) :=
  if negb (is_plane me) then mret (Ok None)
  else
    v <-? call (EvaluateGate cluster (um_id me)) ;;
    mret (if negb (VOK v) then Err (say ("upgrade: the health gate refused before " +:+ nameOf me +:+ ": " +:+ VReason v))
          else Ok (Some ("health gate passed: " +:+ itoa (Voting (VInput v)) +:+ " voting etcd members, no alarms"))).

(** The hand-over of etcd's leadership, which may fail. *)
Definition forfeit (me : machine) (d : option string) : U (option string) :=
  if negb (is_plane me) then mret d
  else
    r ← asked MethodEtcdForfeitLeadership (fun ctx => EtcdForfeit ctx (um_id me));
    mret (match r with
          | Ok to => if bool_decide (to = "") then d else Some ("etcd leadership handed to " +:+ to)
          | Err _ => d
          end).

(** From the pull on: what is done to the node itself. *)
Definition install (me : machine) (to : Ver) (schematic installer : string) (d : option string) : U outcome :=
  let id := um_id me in
  let name := nameOf me in
  c ← open id;
  match c with
  | Err e => mret (fails d e)
  | Ok _ =>
      p ← class_ctx MethodImagePull;
      match p with
      | Err e => mret (fails d e)
      | Ok ctx =>
          r ← call (ImagePull ctx id false installer);
          match r with
          | Err e => mret (fails d (node_says ("upgrade: pulling " +:+ installer +:+ " onto " +:+ name +:+ ": ") e))
          | Ok _ =>
              d ← forfeit me d;
              u ← call (UpgradeNode job_ctx id installer);
              match u with
              | Err e => mret (fails d (node_says "" e))
              | Ok (said, err) =>
                  let '(lines, how) := drain_stream said err [] in
                  let d := match last lines with Some l => Some l | None => d end in
                  match drain_failed how with
                  | Some e => mret (fails d e)
                  | None =>
                      let d := match last lines with Some l => Some (l +:+ "; waiting for the node to come back") | None => d end in
                      o ← waitForUpgrade id to schematic;
                      match o with
                      | Err e => mret (fails d e)
                      | Ok obs =>
                          let d := Some (name +:+ " is running Talos " +:+ ob_talos obs +:+ " and its services are up") in
                          if has_record then r ← call (RecordNode id); mret (ended_with d r) else mret (d, None)
                      end
                  end
              end
          end
      end
  end.

Definition talosNodeStep (cluster id : string) (to : Ver) (schematic installer : string) : Step UpCall :=
  NodeActions.mkStep ("upgrade " +:+ id +:+ " to " +:+ ver_string to)
    (fun _ =>
       ms ← call (Machines cluster);
       match ms with
       | Err e => mret (failed e)
       | Ok machines =>
           match machineByID machines id with
           | None => mret (failed (gone_text id))
           | Some me =>
               if um_locked me then mret (did (SkipReason me))
               else
                 g ← gate_before cluster me;
                 match g with
                 | Err e => mret (failed e)
                 | Ok d => install me to schematic installer d
                 end
           end
       end)
    (Some (fun _ =>
       c ← connect id;
       match c with
       | Err _ => mret (Ok false)
       | Ok _ => v ← VerifyUpgraded id to schematic; mret (Ok (is_ok v))
       end)).

Definition no_installer (id : string) : string :=
  "upgrade: this run carries no installer reference for " +:+ id +:+ ". It is resolved against the Image Factory when the plan is " +:+
  "made -- with that node's SecureBoot state in it -- and a step that assembled one here would install something the operator " +:+
  "never saw".
Definition no_nodes : string := "upgrade: this run names no nodes".

Definition version_of (s : string) : result string Ver :=
  match ParseVersion s with Ok v => Ok v | Err _ => Err ("upgrade: " +:+ s +:+ " is not a version") end.

(** The loop of [talosSteps]. *)
Fixpoint talos_node_steps (cluster : string) (to : Ver) (req : Request) (ids : list string) : result string (list (Step UpCall)) :=
  match ids with
  | [] => Ok []
  | id :: ids' =>
      let installer := default "" (rq_installers req !! id) in
      if bool_decide (installer = "") then Err (no_installer id)
      else
        rest ← talos_node_steps cluster to req ids';
        Ok (talosNodeStep cluster id to (default "" (rq_schematics req !! id)) installer :: rest)
  end.

Definition talosSteps (req : Request) (cluster : string) : result string (list (Step UpCall)) :=
  to ← version_of (rq_to req);
  if bool_decide (rq_machines req = []) then Err no_nodes
  else talos_node_steps cluster to req (rq_machines req).

(* ------------------------------------------------------------------ *)
(** ** Kubernetes: the images and the configuration *)

Definition ControlPlaneComponents : list string := ["kube-apiserver"; "kube-controller-manager"; "kube-scheduler"].

Definition kubeletImage (to : Ver) : string := "ghcr.io/siderolabs/kubelet:" +:+ ver_string to.
Definition proxyImage (to : Ver) : string := "registry.k8s.io/kube-proxy:" +:+ ver_string to.
Definition componentImage (component : string) (to : Ver) : string := "registry.k8s.io/" +:+ component +:+ ":" +:+ ver_string to.

(** [kubernetesImages]: the system's images, and the container runtime's. *)
Definition kubernetesImages (to : Ver) (plane : bool) : list string * list string :=
  ([kubeletImage to],
   (if plane then map (fun c => componentImage c to) ControlPlaneComponents else []) ++ [proxyImage to]).

Record imageChange := mkChange { ic_kind : string; ic_legacy : string; ic_path : string; ic_image : string }.

Definition componentConfigKey (component : string) : string :=
  if bool_decide (component = "kube-apiserver") then "apiServer"
  else if bool_decide (component = "kube-controller-manager") then "controllerManager"
  else if bool_decide (component = "kube-scheduler") then "scheduler" else "".
Definition componentDocKind (component : string) : string :=
  if bool_decide (component = "kube-apiserver") then "KubeAPIServerConfig"
  else if bool_decide (component = "kube-controller-manager") then "KubeControllerManagerConfig"
  else if bool_decide (component = "kube-scheduler") then "KubeSchedulerConfig" else "".

Definition newline : string := String (ascii_of_nat 10) "".

Definition componentChange (component : string) (to : Ver) : imageChange :=
  let key := componentConfigKey component in
  let image := componentImage component to in
  mkChange (componentDocKind component)
    ("cluster:" +:+ newline +:+ "  " +:+ key +:+ ":" +:+ newline +:+ "    image: " +:+ image +:+ newline)
    (".cluster." +:+ key +:+ ".image") image.

Definition proxyChange (to : Ver) : imageChange :=
  mkChange "KubeProxyConfig"
    ("cluster:" +:+ newline +:+ "  proxy:" +:+ newline +:+ "    image: " +:+ proxyImage to +:+ newline)
    ".cluster.proxy.image" (proxyImage to).

Definition kubeletChange (to : Ver) : imageChange :=
  mkChange "KubeletConfig"
    ("machine:" +:+ newline +:+ "  kubelet:" +:+ newline +:+ "    image: " +:+ kubeletImage to +:+ newline)
    ".machine.kubelet.image" (kubeletImage to).

Definition patchFor (c : imageChange) (base : string) : result step_error string :=
  match Redact.NewFromBytes base with
  | Err e => Err (say ("upgrade: the node's configuration did not load: " +:+ e))
  | Ok p =>
      Ok (if bool_decide (ic_kind c ∈ document_kinds p)
          then "apiVersion: v1alpha1" +:+ newline +:+ "kind: " +:+ ic_kind c +:+ newline +:+ "image: " +:+ ic_image c +:+ newline
          else ic_legacy c)
  end.

(** [string(verdict.Mode)]. *)
Definition mode_name (m : ConfigDiff.Mode) : string :=
  match m with
  | ConfigDiff.ModeNoReboot => "no-reboot"
  | ConfigDiff.ModeReboot => "reboot"
  | ConfigDiff.ModeStaged => "staged"
  | ConfigDiff.ModeTry => "try"
  end.

Definition patch_error_text (e : PlanGuard.patch_error) : string :=
  match e with
  | PlanGuard.ErrPatchInvalid why => "machineconfig: the patch could not be applied: " +:+ why
  | PlanGuard.ErrPatchNotStrategic why => "machineconfig: only strategic merge patches are accepted: " +:+ why
  | PlanGuard.ErrPatchEncode why => "machineconfig: encode the patched configuration: " +:+ why
  end.

(** The whole configuration a change makes of a node's own. *)
Definition changed_config (id : string) (c : imageChange) (base : string) : result step_error string :=
  patch ← patchFor c base;
  match PlanGuard.ApplyPatches base [patch] with
  | Err e => Err (say ("upgrade: merging the image change into the configuration of " +:+ id +:+ ": " +:+ patch_error_text e))
  | Ok full => Ok full
  end.

Definition applyImage (id : string) (change : imageChange) : U (result step_error unit) :=
  do? open id ;;
  read_ctx <-? class_ctx MethodCOSIList ;;
  b ← call (ConfigYAML read_ctx id);
  base <-? mret (told ("upgrade: reading the configuration of " +:+ id +:+ ": ") b) ;;
  full <-? mret (changed_config id change base) ;;
  let mode := mode_name (ConfigDiff.VMode (ConfigDiff.ModeFor [ic_path change])) in
  asked MethodApplyConfiguration (fun ctx => ApplyConfig ctx id full mode).

(* ------------------------------------------------------------------ *)
(** ** Kubernetes: the steps *)

Definition plane_of (machines : list machine) (ids : list string) : list machine :=
  omap (fun id => match machineByID machines id with
                  | Some m => if is_plane m && negb (um_locked m) then Some m else None
                  | None => None
                  end) ids.

Definition controlPlaneOf (cluster : string) (ids : list string) : U (result step_error (list machine)) :=
  machines <-? call (Machines cluster) ;;
  mret (Ok (plane_of machines ids)).

Definition pull_one (id : string) (cri : bool) (ref : string) : U (result step_error unit) :=
  ctx <-? class_ctx MethodImagePull ;;
  r ← call (ImagePull ctx id cri ref);
  mret (told "" r).

Definition pull_refs (id : string) (cri : bool) (refs : list string) : U (result step_error unit) :=
  each (fun ref => r ← pull_one id cri ref;
                   mret (match r with Ok u => Ok u | Err e => Err (wrap (ref +:+ ": ") e) end)) refs.

Definition pullOnto (id : string) (images : list string * list string) : U (result step_error unit) :=
  do? open id ;;
  do? pull_refs id false images.1 ;;
  pull_refs id true images.2.

(** The loop of [prepullStep], with the number of nodes pulled onto. *)
Fixpoint prepull (machines : list machine) (ids : list string) (to : Ver) (pulled : Z) : U (result step_error Z) :=
  match ids with
  | [] => mret (Ok pulled)
  | id :: ids' =>
      match machineByID machines id with
      | Some me =>
          if um_locked me then prepull machines ids' to pulled
          else
            r ← pullOnto id (kubernetesImages to (is_plane me));
            match r with
            | Err e => mret (Err (wrap ("upgrade: pulling the images onto " +:+ nameOf me +:+ ": ") e))
            | Ok _ => prepull machines ids' to (pulled + 1)
            end
      | None => prepull machines ids' to pulled
      end
  end.

Definition prepullStep (cluster : string) (ids : list string) (to : Ver) : Step UpCall :=
  NodeActions.mkStep ("pull the Kubernetes " +:+ ver_string to +:+ " images onto every node")
    (fun _ =>
       ms ← call (Machines cluster);
       match ms with
       | Err e => mret (failed e)
       | Ok machines =>
           r ← prepull machines ids to 0;
           mret (match r with
                 | Err e => failed e
                 | Ok pulled => did ("images pulled onto " +:+ itoa pulled +:+ " node(s)")
                 end)
       end)
    None.

Definition staticPodImage (id component : string) : U (result step_error StaticPod) :=
  do? open id ;;
  pods <-? asked MethodCOSIList (fun ctx => StaticPods ctx id) ;;
  mret (match list_find (fun p => sp_component p = component) pods with
        | Some (_, p) => Ok p
        | None => Err (say ("upgrade: " +:+ id +:+ " reports no " +:+ component +:+ " static pod"))
        end).

Definition pod_at (r : result step_error StaticPod) (want : string) : bool :=
  match r with Ok p => bool_decide (sp_image p = want) && sp_ready p | Err _ => false end.

Definition waitForStaticPod (me : machine) (component want : string) : U (result step_error unit) :=
  waiting pollInterval ComponentBudget
    (r ← staticPodImage (um_id me) component;
     mret (if pod_at r want then Some (Ok tt) else None))
    (fun elapsed => say ("upgrade: " +:+ nameOf me +:+ " has not reported " +:+ component +:+ " ready on " +:+ want +:+ " after " +:+
       round elapsed +:+ ". The configuration was applied; what has not happened is the kubelet bringing the pod back on the new image")).

(** One round of the loop of [componentStep]. *)
Definition move_component (cluster component : string) (to : Ver) (me : machine) : U (result step_error unit) :=
  let want := componentImage component to in
  at_ ← staticPodImage (um_id me) component;
  if pod_at at_ want then mret (Ok tt)
  else
    v <-? call (EvaluateGate cluster (um_id me)) ;;
    if negb (VOK v) then mret (Err (say ("upgrade: the health gate refused before " +:+ nameOf me +:+ ": " +:+ VReason v)))
    else
      do? applyImage (um_id me) (componentChange component to) ;;
      waitForStaticPod me component want.

(** Whether every node reports the component there. *)
Fixpoint all_moved (component want : string) (cps : list machine) : U bool :=
  match cps with
  | [] => mret true
  | me :: cps' =>
      r ← staticPodImage (um_id me) component;
      if pod_at r want then all_moved component want cps' else mret false
  end.

Definition componentStep (cluster : string) (ids : list string) (component : string) (to : Ver) : Step UpCall :=
  NodeActions.mkStep ("move " +:+ component +:+ " to " +:+ ver_string to +:+ " on every control-plane node")
    (fun _ =>
       c ← controlPlaneOf cluster ids;
       match c with
       | Err e => mret (failed e)
       | Ok cps =>
           r ← each (move_component cluster component to) cps;
           mret (match r with
                 | Err e => failed e
                 | Ok _ => did (component +:+ " runs " +:+ ver_string to +:+ " on " +:+ itoa (Z.of_nat (length cps)) +:+ " control-plane node(s)")
                 end)
       end)
    (Some (fun _ =>
       c ← controlPlaneOf cluster ids;
       match c with
       | Err _ => mret (Ok false)
       | Ok cps => b ← all_moved component (componentImage component to) cps; mret (Ok b)
       end)).

Definition kubeProxyStep (cluster : string) (ids : list string) (to : Ver) : Step UpCall :=
  NodeActions.mkStep ("move kube-proxy to " +:+ ver_string to)
    (fun _ =>
       c ← controlPlaneOf cluster ids;
       match c with
       | Err e => mret (failed e)
       | Ok cps =>
           r ← each (fun me => applyImage (um_id me) (proxyChange to)) cps;
           match r with
           | Err e => mret (failed e)
           | Ok _ =>
               if negb has_proxy then
                 mret (did "kube-proxy's image set in the configuration; no Kubernetes access here to move the running DaemonSet")
               else
                 p ← call (KubeProxy cluster (proxyImage to));
                 mret (match p with
                       | Err ErrNoKubeProxy => did "this cluster runs no kube-proxy; nothing to move"
                       | Err (ProxyErr why) => failed (say why)
                       | Ok detail => did detail
                       end)
           end
       end)
    None.

(** From the change on: what is done to the node itself. *)
Definition move_kubelet (me : machine) (to : Ver) : U outcome :=
  a ← applyImage (um_id me) (kubeletChange to);
  match a with
  | Err e => mret (failed e)
  | Ok _ =>
      o ← waitForKubernetes (um_id me) to;
      match o with
      | Err e => mret (failed e)
      | Ok version =>
          let d := Some (nameOf me +:+ " reports Kubernetes " +:+ version) in
          if has_record then r ← call (RecordNode (um_id me)); mret (ended_with d r) else mret (d, None)
      end
  end.

Definition kubernetesNodeStep (cluster id : string) (to : Ver) : Step UpCall :=
  NodeActions.mkStep ("move " +:+ id +:+ "'s kubelet to Kubernetes " +:+ ver_string to)
    (fun _ =>
       ms ← call (Machines cluster);
       match ms with
       | Err e => mret (failed e)
       | Ok machines =>
           match machineByID machines id with
           | None => mret (failed (gone_text id))
           | Some me =>
               if um_locked me then mret (did (SkipReason me))
               else
                 g ← gate_before cluster me;
                 match g with
                 | Err e => mret (failed e)
                 | Ok _ => move_kubelet me to
                 end
           end
       end)
    (Some (fun _ =>
       c ← connect id;
       match c with
       | Err _ => mret (Ok false)
       | Ok _ =>
           ctx ← class_ctx MethodCOSIList;
           match ctx with
           | Err e => mret (Err e)
           | Ok ctx =>
               f ← call (Facts ctx id);
               mret (Ok (match f with Ok facts => kubernetes_at facts to | Err _ => false end))
           end
       end)).

Definition kubernetesSteps (req : Request) (cluster : string) : result string (list (Step UpCall)) :=
  to ← version_of (rq_to req);
  let ids := rq_machines req in
  if bool_decide (ids = []) then Err no_nodes
  else Ok (prepullStep cluster ids to ::
           map (fun component => componentStep cluster ids component to) ControlPlaneComponents ++
           kubeProxyStep cluster ids to :: map (fun id => kubernetesNodeStep cluster id to) ids).

(* ------------------------------------------------------------------ *)
(** ** Removing a node *)

Definition MethodReset : string := NodeActions.MethodReset.

Definition removal_wait : duration := if bool_decide (0 < eviction_wait)%Z then eviction_wait else EvictionWait.

Definition thisMachine (j : Job) : U (result step_error (machine * list machine)) :=
  machines <-? call (Machines (Jobs.Cluster j)) ;;
  mret (match machineByID machines (Jobs.Machine j) with
        | Some m => Ok (m, machines)
        | None => Err (gone_text (Jobs.Machine j))
        end).

Definition membersVia (via : machine) (machines : list machine) : U (result step_error MemberList) :=
  do? open (um_id via) ;;
  Members (um_id via) machines.

(** The other control-plane nodes first, the node itself last. *)
Definition membership_order (self : machine) (machines : list machine) : list machine :=
  List.filter (fun m => is_plane m && negb (bool_decide (um_id m = um_id self))) machines ++ [self].

Fixpoint first_membership (order machines : list machine) (last_err : step_error) : U (result step_error MemberList) :=
  match order with
  | [] => mret (Err last_err)
  | m :: order' =>
      r ← membersVia m machines;
      match r with Ok l => mret (Ok l) | Err e => first_membership order' machines e end
  end.

(** The order is never empty, so the error it starts with is never the answer. *)
Definition readMembership (self : machine) (machines : list machine) : U (result step_error MemberList) :=
  first_membership (membership_order self machines) machines (say "").

(** [memberOf]: whether the list has the machine, [None] when it cannot be told. *)
Definition memberOf (l : MemberList) (m : machine) : option bool :=
  if bool_decide (um_hostname m = "") then None
  else Some (existsb (fun e => bool_decide (em_machine e = um_id m) || equal_fold (em_hostname e) (um_hostname m)) (ml_members l)).

Definition checkRemovable (m : machine) (machines : list machine) : U (result step_error bool) :=
  r ← readMembership m machines;
  match r with
  | Err e => mret (Err (wrap ("upgrade: " +:+ nameOf m +:+ " is a control-plane node and its cluster's etcd membership could not be " +:+
      "read, so there is no way to tell whether the cluster survives losing it. Nothing has been changed: ") e))
  | Ok l =>
      if bool_decide (memberOf l m = Some false) then mret (Ok false)
      else
        l ← ProbeVoters l;
        mret (match RefuseIfCannotSpareAVoter l (nameOf m) with Some why => Err (say why) | None => Ok true end)
  end.

Definition not_left (m : machine) (e : step_error) : step_error :=
  mkStepError (se_canceled e) ("upgrade: " +:+ nameOf m +:+ " could not leave etcd: " +:+ se_text e +:+ ". Nothing has been wiped").

(** The leave itself. *)
Definition leave (m : machine) : U outcome :=
  c ← open (um_id m);
  match c with
  | Err e => mret (failed e)
  | Ok _ =>
      ctx ← class_ctx MethodEtcdLeaveCluster;
      match ctx with
      | Err e => mret (failed e)
      | Ok ctx =>
          r ← call (EtcdLeave ctx (um_id m));
          mret (match told "" r with Err e => failed (not_left m e) | Ok _ => did "the node left etcd" end)
      end
  end.

Definition leaveEtcdStep : Step UpCall := NodeActions.mkStep "leave etcd"
  (fun j =>
     t ← thisMachine j;
     match t with
     | Err e => mret (failed e)
     | Ok (m, machines) =>
         r ← checkRemovable m machines;
         match r with
         | Err e => mret (failed e)
         | Ok false => mret (did "etcd no longer lists this node, so there was nothing to leave")
         | Ok true => leave m
         end
     end)
  (Some (fun j =>
     mm <-? thisMachine j ;;
     r ← readMembership mm.1 mm.2;
     mret (match r with
           | Err e => Err (wrap "etcd's membership could not be read: " e)
           | Ok l =>
               match memberOf l mm.1 with
               | None => Err (say "the node has no recorded hostname, so its etcd membership cannot be matched")
               | Some member => Ok (negb member)
               end
           end))).

Definition settleStep : Step UpCall := NodeActions.mkStep "let etcd settle"
  (fun _ =>
     ended ← call (SleepFor removal_wait);
     if (ended : bool) then e ← call CtxErr; mret (failed e)
     else mret (did ("waited " +:+ duration_text removal_wait +:+ " for etcd to settle before wiping the node")))
  (Some (fun j =>
     let started := started_at j (Current j) in
     if bool_decide (started = zero_time) then mret (Ok false)
     else now ← now_; mret (Ok (bool_decide (removal_wait <= time_sub now started)%Z)))).

Definition wipe_options : ResetOptions := mkResetOptions "system-disk" true true [].

Definition wipeStep (j : Job) : Step UpCall := NodeActions.mkStep "wipe the node"
  (fun _ =>
     c ← open (Jobs.Machine j);
     match c with
     | Err e => mret (failed e)
     | Ok _ =>
         ctx ← class_ctx MethodReset;
         match ctx with
         | Err e => mret (failed e)
         | Ok ctx =>
             r ← call (ToNode (ResetNode ctx (Jobs.Machine j) wipe_options));
             mret (match r with Err e => failed (node_says "" e) | Ok _ => did "wiped the system disk, rebooting" end)
         end
     end)
  None.

Definition forgetStep (j : Job) : Step UpCall := NodeActions.mkStep "forget the node"
  (fun _ =>
     if negb has_forget then mret (failed (say "upgrade: this build was wired without a way to forget a machine"))
     else
       r ← call (Forget (Jobs.Machine j));
       mret (match r with Err e => failed e | Ok _ => did "removed from the inventory" end))
  (Some (fun job =>
     machines <-? call (Machines (Jobs.Cluster job)) ;;
     mret (Ok (negb (bool_decide (is_Some (machineByID machines (Jobs.Machine j)))))))).

Definition lift_up (s : Step NodeCall) : Step UpCall := NodeActions.mkStep (StepName s)
  (fun j => to_node (Do s j))
  ((fun h j => to_node (h j)) <$> Happened s).

Definition RemovalParams (cluster : string) (m : machine) : gmap string string :=
  <["role" := um_role m]> {[ "cluster" := cluster ]}.

Definition removeNodeSteps (j : Job) : result string (list (Step UpCall)) :=
  if bool_decide (Jobs.Machine j = "") then Err "upgrade: a node removal names no node"
  else
    let role := default "" (Params j !! "role") in
    if negb (bool_decide (role = RoleControlPlane)) && negb (bool_decide (role = RoleWorker)) then
      Err ("upgrade: a node removal must state the node's role (controlplane or worker), got " +:+ role +:+
           ": a control-plane node's steps include leaving etcd and a worker's do not")
    else Ok (lift_up (ReachableStep (Jobs.Machine j)) ::
             (if bool_decide (role = RoleControlPlane) then [leaveEtcdStep; settleStep] else []) ++ [wipeStep j; forgetStep j]).

(* ------------------------------------------------------------------ *)
(** ** Registration *)

Definition JobRemoveFromCluster : string := "node.remove-from-cluster".
Definition JobKindTalosUpgrade : string := "cluster.upgrade-talos".
Definition JobKindKubernetesUpgrade : string := "cluster.upgrade-kubernetes".

(** The builders of [Register]. *)
Definition upgrade_job (kind : string) (j : Job) : option (result string (list (Step UpCall))) :=
  if bool_decide (kind = JobRemoveFromCluster) then Some (removeNodeSteps j)
  else if bool_decide (kind = JobKindTalosUpgrade) then
    Some (req ← RequestFromParams (Params j); talosSteps req (Jobs.Cluster j))
  else if bool_decide (kind = JobKindKubernetesUpgrade) then
    Some (req ← RequestFromParams (Params j); kubernetesSteps req (Jobs.Cluster j))
  else None.

End Jobs_.
