(* ===== verification/UpgradeService.v ===== *)
(** * Upgrades: the screen

    [src/internal/upgrade/service.go] and [check.go]: the plan of a rolling upgrade,
    the request made of it, the membership and its removals, and whether there is
    something to upgrade to. The snapshots and the restore of the service are not
    here. In the texts, the quotes of [%q] are left out. *)

From S2P Require Import Prelude Version Plan Jobs Transport Effects NodeActions Gate.
From S2P Require Import GoText UpgradeCalls Etcd UpgradeVerify Upgrade.

(* ------------------------------------------------------------------ *)
(** ** The order of a walk, and the oldest version *)

(** The order [walkOrder] sorts by. *)
Definition walks_before (a b : machine) : bool :=
  if negb (bool_decide (is_plane a = is_plane b)) then is_plane a
  else str_lt (nameOf a) (nameOf b).

(** A stable sort: an element goes behind those it is not before. *)
Fixpoint walk_insert (m : machine) (l : list machine) : list machine :=
  match l with
  | [] => [m]
  | x :: l' => if walks_before m x then m :: l else x :: walk_insert m l'
  end.
Definition walkOrder (machines : list machine) : list machine := fold_left (fun acc m => walk_insert m acc) machines [].

(** The loops of [lowestVersion] and [lowestKubernetes]. *)
Definition lower (lowest : option Ver) (s : string) : option Ver :=
  match ParseVersion s with
  | Err _ => lowest
  | Ok v => match lowest with
            | Some l => if Less v l then Some v else lowest
            | None => Some v
            end
  end.
Definition lowestVersion (machines : list machine) : option Ver := fold_left lower (map um_talos machines) None.
Definition lowestKubernetes (machines : list machine) : option Ver := fold_left lower (map um_kubernetes machines) None.
Definition version_text (v : option Ver) : string := match v with Some v => ver_string v | None => "" end.
Definition lowestTalos (machines : list machine) : string := version_text (lowestVersion machines).
Definition clusterKubernetesVersion (machines : list machine) : string := version_text (lowestKubernetes machines).

Definition mustParse (s : string) : Ver := match ParseVersion s with Ok v => v | Err _ => mk 0 0 0 end.

Definition plan_error_text (e : plan_error) : string :=
  match e with
  | ErrNotAVersion s => "upgrade: " +:+ s +:+ " is not a version"
  | ErrNoPath why => "upgrade: there is no supported path between these versions: " +:+ why
  | ErrWouldStrand why => "upgrade: this Talos upgrade would leave the running Kubernetes version unsupported: " +:+ why
  end.

(* ------------------------------------------------------------------ *)
(** ** Plans *)

Record NodePlan := mkNodePlan {
  np_machine : string;
  np_hostname : string;
  np_role : string;
  np_from : string;
  np_schematic : string;
  np_schematic_sentence : string;
  np_installer : string;
  np_secureboot : bool;
  np_skipped : bool;
  np_skip_reason : string;
  np_kernel_args : option KernelArgDrift;
  np_blocked : bool;
  np_block_reason : string }.

Record upgrade_plan := mkPlan {
  pl_cluster : string;
  pl_to : string;
  pl_chain : list Plan.Step;
  pl_strand : StrandCheck;
  pl_gate : Verdict;
  pl_nodes : list NodePlan;
  pl_blocked : bool;
  pl_block_reason : string }.

Definition no_strand : StrandCheck := {| Blocked := false; Sentence := ""; Remedy := "" |}.
Definition no_gate : Verdict := mkVerdict false "" noInput.

(** The node's place before anything is asked of it. *)
Definition bare_node (from : string) (m : machine) : NodePlan :=
  mkNodePlan (um_id m) (um_hostname m) (um_role m) from "" "" "" false false "" None false "".
Definition skipped_node (from : string) (m : machine) : NodePlan :=
  mkNodePlan (um_id m) (um_hostname m) (um_role m) from "" "" "" false true (SkipReason m) None false "".

(** [plan.Blocked = true] for the first reason. *)
Definition block_first (held : option string) (why : option string) : option string :=
  match held with Some _ => held | None => why end.
Definition strand_blocks (s : StrandCheck) : option string :=
  if Blocked s then Some (Sentence s +:+ " " +:+ Remedy s) else None.
Definition node_blocks (nodes : list NodePlan) : option string :=
  match list_find (fun n => np_blocked n = true) nodes with Some (_, n) => Some (np_block_reason n) | None => None end.
Definition gate_blocks (v : Verdict) : option string := if VOK v then None else Some (VReason v).

Definition finish_plan (cluster : string) (to : Ver) (chain : list Plan.Step) (strand : StrandCheck) (gate : Verdict)
    (nodes : list NodePlan) (held : option string) : upgrade_plan :=
  mkPlan cluster (ver_string to) chain strand gate nodes (bool_decide (is_Some held)) (default "" held).

Section Service.
(** What the service was wired with, and the kernel arguments of a configuration. *)
Context (has_releases has_kube_releases : bool) (install_args : string -> option (list string)).

(** [Service.Releases]. *)
Definition service_releases : U (result string (list Ver)) :=
  if negb has_releases then mret (Err "upgrade: this instance has no source of Talos releases")
  else
    raw <-? call TalosReleases ;;
    mret (Ok (Releases raw)).

(** [gatePreview]. *)
Definition gatePreview (cluster : string) : U Verdict :=
  g ← call (EvaluateGate cluster "");
  mret (match g with
        | Ok v => v
        | Err e => mkVerdict false ("The health gate could not be evaluated: " +:+ se_text e +:+ ". Nothing is upgraded while this is " +:+
            "the answer -- a gate that cannot read a cluster's etcd cannot say whether the cluster survives losing a node.") noInput
        end).

Definition no_answer (m : machine) : string :=
  nameOf m +:+ " did not answer, so its Image Factory schematic could not be read. Upgrading it without knowing the schematic " +:+
  "would install a stock system and silently remove every system extension it has.".
Definition no_secureboot (m : machine) (e : step_error) : string :=
  nameOf m +:+ " did not report how it booted, so there is no way to tell whether it needs the SecureBoot installer. Upgrading it " +:+
  "on an assumption would either take SecureBoot away from a node that has it or fail to install on one that does not: " +:+ se_text e.
Definition no_installer_for (m : machine) (why : string) : string :=
  "the installer for " +:+ nameOf m +:+ " could not be resolved: " +:+ why +:+ ". Nothing is substituted here: installing the " +:+
  "ordinary installer on a SecureBoot node produces a node that upgrades, joins, and is no longer SecureBoot".

(** One round of the loop of [PlanTalos]. *)
Definition talos_node_plan (target : Ver) (m : machine) : U NodePlan :=
  let from := um_talos m in
  let id := um_id m in
  let node sc sent inst sb ka bl why :=
    mkNodePlan id (um_hostname m) (um_role m) from sc sent inst sb false "" ka bl why in
  if um_locked m then mret (skipped_node from m)
  else
    c ← connect id;
    match c with
    | Err _ => mret (node "" "" "" false None true (no_answer m))
    | Ok _ =>
        s ← CheckSchematic id;
        match s with
        | Err e => mret (node "" "" "" false None true (se_text e))
        | Ok v =>
            let sc := sc_id v in let sent := sc_sentence v in
            b ← securityStateOf id;
            match b with
            | Err e => mret (node sc sent "" false None true (no_secureboot m e))
            | Ok sb =>
                i ← call (ResolveInstaller sc (ver_string target) sb);
                match i with
                | Err why => mret (node sc sent "" sb None true (no_installer_for m why))
                | Ok inst =>
                    d ← ReadKernelArgDrift install_args id;
                    mret (match d with
                          | Ok drift => if ka_drifted drift then node sc sent inst sb (Some drift) true (ka_sentence drift)
                                        else node sc sent inst sb None false ""
                          | Err _ => node sc sent inst sb None false ""
                          end)
                end
            end
        end
    end.

Fixpoint talos_node_plans (target : Ver) (ms : list machine) : U (list NodePlan) :=
  match ms with
  | [] => mret []
  | m :: ms' => n ← talos_node_plan target m; rest ← talos_node_plans target ms'; mret (n :: rest)
  end.

(** The chain of a plan and the reason there is none; releases that cannot be
    listed leave the plan without a chain. *)
Definition talos_chain (machines : list machine) (target : Ver) : U (list Plan.Step * option string) :=
  match lowestVersion machines with
  | None => mret ([], None)
  | Some lowest =>
      available ← service_releases;
      mret (match available with
            | Err _ => ([], None)
            | Ok available =>
                match Chain lowest target available with
                | Ok chain => (chain, None)
                | Err e => ([], Some (plan_error_text e))
                end
            end)
  end.

Definition no_machines (cluster : string) : step_error := say ("upgrade: cluster " +:+ cluster +:+ " has no machines in the inventory").

Definition parse_target (to : string) : result step_error Ver :=
  match ParseVersion to with Ok v => Ok v | Err e => Err (say (plan_error_text e)) end.

Definition PlanTalos (cluster to : string) : U (result step_error upgrade_plan) :=
  target <-? mret (parse_target to) ;;
  machines <-? call (Machines cluster) ;;
  if bool_decide (machines = []) then mret (Err (no_machines cluster))
  else
    ch ← talos_chain machines target;
    let strand := CheckStrand target (clusterKubernetesVersion machines) in
    nodes ← talos_node_plans target (walkOrder machines);
    gate ← gatePreview cluster;
    let held := block_first (block_first (block_first ch.2 (strand_blocks strand)) (node_blocks nodes)) (gate_blocks gate) in
    mret (Ok (finish_plan cluster target ch.1 strand gate nodes held)).

(* ------------------------------------------------------------------ *)
(** ** Kubernetes *)

Definition minorList (major : Z) (minors : list Z) : string :=
  join ", " (map (fun m => itoa major +:+ "." +:+ itoa m) minors).

(** What the source named for a minor, when it is a stable release of it. *)
Definition stable_patch (target : Ver) (m : Z) (raw : string) : option Ver :=
  match ParseVersion raw with
  | Err _ => None
  | Ok v =>
      if negb (bool_decide (length (split_on "." (trim_prefix (trim_space raw) "v")) = 3))
         || negb (bool_decide (Major v = Major target)) || negb (bool_decide (Minor v = m)) || IsPreRelease v
      then None else Some v
  end.

(** The loop of [newestKubernetesPatches]. *)
Fixpoint checked_patches (target : Ver) (answer : gmap Z string) (minors : list Z) (newest : gmap Z Ver) : result string (gmap Z Ver) :=
  match minors with
  | [] => Ok newest
  | m :: minors' =>
      match answer !! m with
      | None => Err (": the source named no version for 1." +:+ itoa m)
      | Some raw =>
          match stable_patch target m raw with
          | None => Err (": what the source named for 1." +:+ itoa m +:+ " is not a stable release of that minor")
          | Some v => checked_patches target answer minors' (<[m := v]> newest)
          end
      end
  end.

Definition newestKubernetesPatches (from target : Ver) (minors : list Z) : U (result string (gmap Z Ver)) :=
  if bool_decide (minors = []) then mret (Ok ∅)
  else
    let could := "The newest patch of " +:+ minorList (Major from) minors +:+ " could not be determined" in
    let consequence := ". No step is guessed in its place. A target in v" +:+ itoa (Major from) +:+ "." +:+ itoa (Minor from + 1) +:+
      " needs no lookup and can still be planned." in
    let refuse why := Err (could +:+ why +:+ consequence) in
    if negb has_kube_releases then mret (refuse ": this instance has no source of Kubernetes releases")
    else
      a ← call (KubernetesReleases minors);
      mret (match a with
            | Err e => refuse (": " +:+ e)
            | Ok answer => match checked_patches target answer minors ∅ with Err why => refuse why | Ok newest => Ok newest end
            end).

Definition kubernetes_node (m : machine) : NodePlan :=
  if um_locked m then skipped_node (um_kubernetes m) m else bare_node (um_kubernetes m) m.

Definition no_kubernetes : string :=
  "No node in this cluster has reported a Kubernetes version, so there is nothing to upgrade from. Refresh the cluster first.".

(** The chain of a plan, or the reason it is blocked. *)
Definition kubernetes_chain (from target : Ver) (talosVersion : string) : U (result string (list Plan.Step)) :=
  match kubernetesChainPrecheck from target talosVersion with
  | Err e => mret (Err (plan_error_text e))
  | Ok _ =>
      match kubernetesIntermediateMinors from target with
      | Err e => mret (Err (plan_error_text e))
      | Ok minors =>
          newest <-? newestKubernetesPatches from target minors ;;
          mret (match KubernetesChain from target talosVersion newest with
                | Err e => Err (plan_error_text e)
                | Ok chain => Ok chain
                end)
      end
  end.

Definition PlanKubernetes (cluster to : string) : U (result step_error upgrade_plan) :=
  target <-? mret (parse_target to) ;;
  machines <-? call (Machines cluster) ;;
  if bool_decide (machines = []) then mret (Err (no_machines cluster))
  else
    let early why := finish_plan cluster target [] no_strand no_gate [] (Some why) in
    match lowestKubernetes machines with
    | None => mret (Ok (early no_kubernetes))
    | Some from =>
        let talosVersion := lowestTalos machines in
        ch ← kubernetes_chain from target talosVersion;
        match ch with
        | Err why => mret (Ok (early why))
        | Ok chain =>
            let strand := CheckStrand (mustParse talosVersion) (ver_string target) in
            gate ← gatePreview cluster;
            mret (Ok (finish_plan cluster target chain strand gate (map kubernetes_node (walkOrder machines))
                        (block_first (strand_blocks strand) (gate_blocks gate))))
        end
    end.

(** [RequestFor]; the loop of the source, from the empty maps. *)
Definition request_add (req : Request) (n : NodePlan) : Request :=
  if np_skipped n then req
  else mkRequest (rq_to req) (rq_machines req ++ [np_machine n])
         (if bool_decide (np_schematic n = "") then rq_schematics req else <[np_machine n := np_schematic n]> (rq_schematics req))
         (if bool_decide (np_installer n = "") then rq_installers req else <[np_machine n := np_installer n]> (rq_installers req)).
Definition RequestFor (p : upgrade_plan) : Request := fold_left request_add (pl_nodes p) (mkRequest (pl_to p) [] ∅ ∅).

(* ------------------------------------------------------------------ *)
(** ** The membership *)

(** The loop of [anyControlPlane]. *)
Fixpoint any_plane (machines : list machine) (last_err : option node_error) : U (result step_error machine) :=
  match machines with
  | [] => mret (Err (match last_err with
                     | Some e => node_says "upgrade: no control-plane node answered: " e
                     | None => say "upgrade: this cluster has no control-plane node in the inventory"
                     end))
  | m :: machines' =>
      if negb (is_plane m) then any_plane machines' last_err
      else
        c ← connect (um_id m);
        match c with
        | Err e => any_plane machines' (Some e)
        | Ok _ => mret (Ok m)
        end
  end.
Definition anyControlPlane (machines : list machine) : U (result step_error machine) := any_plane machines None.

Definition EtcdMembers (cluster : string) : U (result step_error MemberList) :=
  machines <-? call (Machines cluster) ;;
  m <-? anyControlPlane machines ;;
  Members (um_id m) machines.

Definition EtcdMembersLive (cluster : string) : U (result step_error MemberList) :=
  l <-? EtcdMembers cluster ;;
  l ← ProbeVoters l;
  mret (Ok l).

Definition only_plane (name : string) : step_error := say
  ("upgrade: " +:+ name +:+ " is the only control-plane node this installation can reach, and a member cannot remove itself. " +:+
   "Remove it from another control-plane node, or have the node leave the cluster itself").

Definition RemoveEtcdMember (cluster id : string) : U (result step_error unit) :=
  machines <-? call (Machines cluster) ;;
  l <-? EtcdMembersLive cluster ;;
  match findMember l id with
  | None => mret (Err (say ("upgrade: etcd has no member " +:+ id)))
  | Some member =>
      let through := List.filter (fun m => is_plane m && negb (bool_decide (um_id m = em_machine member))) machines in
      if bool_decide (through = []) then mret (Err (only_plane (em_name member)))
      else
        m <-? anyControlPlane through ;;
        RemoveMember (um_id m) l id
  end.

Definition not_listed (m : machine) (e : step_error) : step_error :=
  wrap ("upgrade: " +:+ nameOf m +:+ " is a control-plane node and its cluster's machines could not be listed, so there is no way to " +:+
    "tell which etcd members answer. Nothing has been changed: ") e.

Definition PreflightRemoval (cluster : string) (m : machine) : U (result step_error unit) :=
  if negb (is_plane m) then mret (Ok tt)
  else
    ms ← call (Machines cluster);
    match ms with
    | Err e => mret (Err (not_listed m e))
    | Ok machines => do? checkRemovable m machines ;; mret (Ok tt)
    end.

(* ------------------------------------------------------------------ *)
(** ** Whether there is something newer *)

Record UpdateCheck := mkUpdateCheck {
  uc_cluster : string;
  uc_name : string;
  uc_current : list string;
  uc_newest : string;
  uc_available : bool;
  uc_next : string;
  uc_runs : Z;
  uc_notes : string;
  uc_reason : string }.

Definition talosReleaseNotes : string := "https://github.com/siderolabs/talos/releases/tag/".

Definition older_first (a b : Ver) : Prop := Less b a = false.
#[global] Instance older_first_dec : RelDecision older_first.
Proof. intros a b. unfold older_first. apply _. Defined.

(** The distinct versions of the nodes, oldest first. *)
Fixpoint distinct_versions (texts : list string) (seen : list Ver) : list Ver :=
  match texts with
  | [] => seen
  | s :: texts' =>
      match ParseVersion s with
      | Ok v => distinct_versions texts' (if bool_decide (v ∈ seen) then seen else seen ++ [v])
      | Err _ => distinct_versions texts' seen
      end
  end.
Definition running_versions (machines : list machine) : list Ver :=
  merge_sort older_first (distinct_versions (map um_talos machines) []).

(** What is to be said once the releases are known. *)
Definition update_of (cluster name : string) (versions available : list Ver) : UpdateCheck :=
  let current := map ver_string versions in
  match versions, available with
  | [], _ => mkUpdateCheck cluster name [] "" false "" 0 "" "No node of this cluster has reported its Talos version yet."
  | _, [] => mkUpdateCheck cluster name current "" false "" 0 "" "The Image Factory listed no stable Talos release this installation supports."
  | lowest :: _, newest :: _ =>
      let nothing why := mkUpdateCheck cluster name current (ver_string newest) false "" 0 "" why in
      if negb (Less lowest newest) then nothing "Every node already runs the newest release this installation supports."
      else
        match Chain lowest newest available with
        | Err e => nothing (plan_error_text e)
        | Ok [] => nothing ""
        | Ok (s :: rest) =>
            let next := ver_string (To s) in
            mkUpdateCheck cluster name current (ver_string newest) true next (Z.of_nat (length (s :: rest))) (talosReleaseNotes +:+ next) ""
        end
  end.

Definition CheckTalos (cluster name : string) : U (result step_error UpdateCheck) :=
  machines <-? call (Machines cluster) ;;
  match running_versions machines with
  | [] => mret (Ok (update_of cluster name [] []))
  | versions =>
      a ← service_releases;
      mret (match a with Err e => Err (say e) | Ok available => Ok (update_of cluster name versions available) end)
  end.

(** [UpdateCheck.String]. *)
Definition update_text (u : UpdateCheck) : string :=
  if negb (uc_available u) then uc_name u +:+ ": no Talos update (" +:+ uc_reason u +:+ ")"
  else uc_name u +:+ ": Talos " +:+ uc_newest u +:+ " is available (next run " +:+ uc_next u +:+ " of " +:+ itoa (uc_runs u) +:+ ")".

End Service.
