(* ===== verification/UpgradeWorld.v ===== *)
(** * Upgrades: the world

    A history of calls and answers in which every call may be answered in every way
    its type allows, and what is left in it: the deeds of the upgrade jobs, the
    evidence their steps collect, and how both are followed through a program. *)

From S2P Require Import Prelude Plan Jobs Transport Effects NodeActions Gate.
From S2P Require Import UpgradeCalls Etcd UpgradeVerify Upgrade.
From S2P Require Export Walk.

(* ------------------------------------------------------------------ *)
(** ** Calls and answers *)

Inductive UpEvent : Type := | Ev (R : Type) (c : UpCall R) (answer : R).
Arguments Ev {R} c answer.

(** What the environment answers at one moment. *)
Definition oracle : Type := forall R, UpCall R -> R.

Definition up_act (R : Type) (c : UpCall R) (x : oracle) (w : list UpEvent) : R * list UpEvent := (x R c, w ++ [Ev c (x R c)]).
#[global] Instance up_handler : Handler UpCall (list UpEvent) oracle := up_act.

(** The calls that change what a node or its cluster runs. *)
Inductive up_deed :=
  | DUpgrade (id installer : string)
  | DApply (id config mode : string)
  | DLeave (id : string)
  | DRemove (through : string) (member : Z)
  | DReset (id : string) (opts : ResetOptions)
  | DPower (id : string)
  | DProxy (cluster image : string)
  | DForget (id : string).

Definition up_call_deed (R : Type) (c : UpCall R) : option up_deed :=
  match c with
  | UpgradeNode _ id ref => Some (DUpgrade id ref)
  | ApplyConfig _ id config mode => Some (DApply id config mode)
  | EtcdLeave _ id => Some (DLeave id)
  | EtcdRemove _ id n => Some (DRemove id n)
  | ToNode (ResetNode _ id opts) => Some (DReset id opts)
  | ToNode (RebootNode _ id _) | ToNode (ShutdownNode _ id _) => Some (DPower id)
  | KubeProxy cluster image => Some (DProxy cluster image)
  | Forget id => Some (DForget id)
  | _ => None
  end.
Definition up_event_deed (e : UpEvent) : option up_deed := match e with Ev c _ => up_call_deed _ c end.

Lemma up_act_deeds R (c : UpCall R) (x : oracle) (w : list UpEvent) :
  exists l, (act c x w).2 = w ++ l /\ omap up_event_deed l = option_list (up_call_deed R c).
Proof. exists [Ev c (x R c)]. split; [done|]. cbn. by destruct (up_call_deed R c). Qed.

#[global] Instance up_deeds : Deeds UpCall (list UpEvent) oracle := {|
  Event := UpEvent;
  Deed := up_deed;
  history := fun w => w;
  undisturbed := fun _ => True;
  event_deed := up_event_deed;
  call_deed := up_call_deed;
  act_deeds := fun R c x w _ => up_act_deeds R c x w
|}.

Abbreviation anything := (fun _ : oracle => True) (only parsing).
Abbreviation upwp := (wp (W := list UpEvent) (X := oracle) (fun _ => True)) (only parsing).

(** Programs are followed call by call, never computed through. *)
#[global] Arguments wp : simpl never.

(* ------------------------------------------------------------------ *)
(** ** Histories in which every deed is justified *)

Section Safe.
Variable P : list UpEvent -> up_deed -> Prop.

Definition safe (tr : list UpEvent) : Prop :=
  forall pre e post d, tr = pre ++ e :: post -> up_event_deed e = Some d -> P pre d.

Lemma safe_nil : safe [].
Proof. by intros [] ? ? ? [=]. Qed.

Lemma safe_snoc tr e : safe tr -> (forall d, up_event_deed e = Some d -> P tr d) -> safe (tr ++ [e]).
Proof.
  intros Hs He pre e' post d E Hd. destruct (mid_cases _ _ _ _ _ E) as [[post' ->]|(l' & -> & E')]; [by eapply Hs|].
  destruct l' as [|? l']; [|by destruct l']. injection E' as -> _. rewrite app_nil_r. by apply He.
Qed.

(** A call, whatever it is answered. *)
Lemma wp_answer {A R} (c : UpCall R) (k : R -> prog UpCall A) Q w :
  safe w -> (forall d, up_call_deed R c = Some d -> P w d) ->
  (forall r, safe (w ++ [Ev c r]) -> upwp safe (k r) Q (w ++ [Ev c r])) ->
  upwp safe (Act c k) Q w.
Proof. intros Hs Hd Hk. apply wp_act; [done|]. intros x _. apply (Hk (x R c)). by apply safe_snoc. Qed.

Lemma wp_done {A} (a : A) (Q : A -> list UpEvent -> Prop) w : safe w -> Q a w -> upwp safe (mret a) Q w.
Proof. by intros; apply wp_ret. Qed.

(** A program that does nothing adds to the history, and that is all. *)
Definition adds_quietly (w v : list UpEvent) : Prop := exists l, v = w ++ l /\ omap up_event_deed l = [].

Lemma adds_refl w : adds_quietly w w.
Proof. exists []. by rewrite app_nil_r. Qed.
Lemma adds_trans w v u : adds_quietly w v -> adds_quietly v u -> adds_quietly w u.
Proof. intros (l & -> & Hl) (k & -> & Hk). exists (l ++ k). by rewrite (assoc_L (++)), omap_app, Hl, Hk. Qed.
Lemma adds_event {R} (c : UpCall R) r w : up_call_deed R c = None -> adds_quietly w (w ++ [Ev c r]).
Proof. intros E. exists [Ev c r]. split; [done|]. cbn. by rewrite E. Qed.

Definition quiet {A} (p : prog UpCall A) : Prop := does (HD := up_deeds) (fun _ : up_deed => False) p.

Lemma wp_quiet {A} (p : prog UpCall A) w :
  quiet p -> safe w -> upwp safe p (fun _ v => safe v /\ adds_quietly w v) w.
Proof.
  revert w. induction p as [a| |R c k IH]; intros w Hp Hs.
  - apply wp_ret; [done|]. split; [done|apply adds_refl].
  - by split.
  - destruct Hp as [Hc Hk]. assert (E : up_call_deed R c = None).
    { destruct (up_call_deed R c) as [d|] eqn:E; [|done]. by destruct (Hc d). }
    apply wp_answer; [done|by rewrite E|]. intros r Hr. eapply wp_post; [apply IH; [apply Hk|done]|]. intros a v _ [Hv Ha]. split; [done|].
    exact (adds_trans _ _ _ (adds_event c r w E) Ha).
Qed.

End Safe.
Arguments quiet {A} p.

Lemma adds_elem w v e : adds_quietly w v -> e ∈ w -> e ∈ v.
Proof. intros (l & -> & _) He. apply elem_of_app. by left. Qed.

(* ------------------------------------------------------------------ *)
(** ** Programs that do nothing *)

Lemma quiet_bind {A B} (p : U A) (f : A -> U B) : quiet p -> (forall a, quiet (f a)) -> quiet (p ≫= f).
Proof. exact (does_bind (HD := up_deeds) _ p f). Qed.
Lemma quiet_try {A B E} (p : U (result E A)) (f : A -> U (result E B)) : quiet p -> (forall a, quiet (f a)) -> quiet (try f p).
Proof. exact (does_try (HD := up_deeds) _ p f). Qed.
Lemma quiet_call {R} (c : UpCall R) : up_call_deed R c = None -> quiet (call c).
Proof. exact (does_call (HD := up_deeds) _ c). Qed.
Lemma quiet_ret {A} (a : A) : quiet (mret a).
Proof. done. Qed.
Lemma quiet_class method : quiet (class_ctx method).
Proof. by repeat split. Qed.
Lemma quiet_asked {A} method (c : Ctx -> UpCall (result node_error A)) : (forall ctx, up_call_deed _ (c ctx) = None) -> quiet (asked method c).
Proof. intros Hc. apply quiet_try; [apply quiet_class|]. intros ctx. apply quiet_bind; [by apply quiet_call|]. intros r. apply quiet_ret. Qed.
Lemma quiet_open id : quiet (open id).
Proof. unfold open, connect. apply quiet_bind; [by apply quiet_call|]. intros r. apply quiet_ret. Qed.

Ltac hush := repeat lazymatch goal with
  | |- forall _, _ => intros ?
  | |- quiet (mret _) => apply quiet_ret
  | |- quiet (Ret _) => exact I
  | |- quiet Stuck => exact I
  | |- quiet (if ?b then _ else _) => destruct b
  | |- quiet (match ?e with _ => _ end) => destruct e
  | |- quiet (asked _ _) => apply quiet_asked; reflexivity
  | |- quiet (class_ctx _) => apply quiet_class
  | |- quiet (open _) => apply quiet_open
  | |- quiet (call _) => apply quiet_call; reflexivity
  | |- quiet (connect _) => apply quiet_call; reflexivity
  | |- quiet now_ => apply quiet_call; reflexivity
  | |- quiet (_ ≫= _) => apply quiet_bind
  | |- quiet (try _ _) => apply quiet_try
  end.

(* ------------------------------------------------------------------ *)
(** ** Evidence *)

(** A fact about a history that more history does not undo. *)
Definition grows (F : list UpEvent -> Prop) : Prop := forall l l', l ⊆ l' -> F l -> F l'.

(** From [w] to [v] nothing was done, and [F] holds of what was added. *)
Definition gains (w v : list UpEvent) (F : list UpEvent -> Prop) : Prop :=
  exists l, v = w ++ l /\ omap up_event_deed l = [] /\ F l.

Lemma gains_refl w (F : list UpEvent -> Prop) : F [] -> gains w w F.
Proof. exists []. by rewrite app_nil_r. Qed.

Lemma gains_mono w v (F G : list UpEvent -> Prop) : gains w v F -> (forall l, F l -> G l) -> gains w v G.
Proof. intros (l & -> & Hl & HF) HG. exists l. auto. Qed.

Lemma gains_event {R} w v F (c : UpCall R) r :
  gains w v F -> grows F -> up_call_deed R c = None -> gains w (v ++ [Ev c r]) (fun l => F l /\ Ev c r ∈ l).
Proof.
  intros (l & -> & Hl & HF) Hg E. exists (l ++ [Ev c r]). split; [by rewrite (assoc_L (++))|]. split; [rewrite omap_app, Hl; cbn; by rewrite E|].
  split; [eapply Hg; [|done]; intros e He; apply elem_of_app; by left|]. apply elem_of_app. right. by apply list_elem_of_singleton.
Qed.

Lemma gains_quietly w v u F : gains w v F -> grows F -> adds_quietly v u -> gains w u F.
Proof.
  intros (l & -> & Hl & HF) Hg (k & -> & Hk). exists (l ++ k). split; [by rewrite (assoc_L (++))|]. split; [by rewrite omap_app, Hl, Hk|].
  eapply Hg; [|done]. intros e He. apply elem_of_app. by left.
Qed.

Lemma gains_gains w v u F G : gains w v F -> grows F -> gains v u G -> grows G -> gains w u (fun l => F l /\ G l).
Proof.
  intros (l & -> & Hl & HF) Hg (k & -> & Hk & HG) Hg'. exists (l ++ k). split; [by rewrite (assoc_L (++))|].
  split; [by rewrite omap_app, Hl, Hk|]. split; [eapply Hg|eapply Hg']; [|done| |done]; intros e He; apply elem_of_app; auto.
Qed.

Lemma gains_adds w v F : gains w v F -> adds_quietly w v.
Proof. intros (l & -> & Hl & _). by exists l. Qed.
Lemma gains_all w v F : gains w v F -> grows F -> F v.
Proof. intros (l & -> & _ & HF) Hg. eapply Hg; [|done]. intros e He. apply elem_of_app. by right. Qed.

Lemma grows_and F G : grows F -> grows G -> grows (fun l => F l /\ G l).
Proof. intros HF HG l l' Hl [H1 H2]. split; [by eapply HF|by eapply HG]. Qed.
Lemma grows_elem e : grows (fun l => e ∈ l).
Proof. intros l l' Hl. apply Hl. Qed.
Lemma grows_pure (Q : Prop) : grows (fun _ => Q).
Proof. by intros l l'. Qed.
Lemma grows_or F G : grows F -> grows G -> grows (fun l => F l \/ G l).
Proof. intros HF HG l l' Hl [H|H]; [left; by eapply HF|right; by eapply HG]. Qed.
Lemma grows_ex {A} (F : A -> list UpEvent -> Prop) : (forall a, grows (F a)) -> grows (fun l => exists a, F a l).
Proof. intros HF l l' Hl [a H]. exists a. by eapply HF. Qed.
Lemma grows_all {A} (F : A -> list UpEvent -> Prop) : (forall a, grows (F a)) -> grows (fun l => forall a, F a l).
Proof. intros HF l l' Hl H a. by eapply HF. Qed.
Lemma grows_imp (Q : Prop) F : grows F -> grows (fun l => Q -> F l).
Proof. intros HF l l' Hl H q. eapply HF; [done|]. by apply H. Qed.

Create HintDb grow.
Ltac growing := repeat (cbv beta; lazymatch goal with
  | |- forall _, _ => intros ?
  | |- grows (fun l => _ ∈ l) => apply grows_elem
  | |- grows (fun _ => ?Q) => apply (grows_pure Q)
  | |- grows (fun l => _ /\ _) => apply grows_and
  | |- grows (fun l => _ \/ _) => apply grows_or
  | |- grows (fun l => exists _, _) => apply grows_ex
  | |- grows (fun l => ?Q -> @?F l) => apply (grows_imp Q F)
  | |- grows (fun l => forall x, @?F x l) => apply (grows_all F)
  | |- grows (elem_of _) => apply grows_elem
  | |- grows (fun l => match ?e with _ => _ end) => destruct e
  | |- grows _ => solve [eauto with grow]
  end).

Lemma grows_app F l k : grows F -> F l -> F (l ++ k).
Proof. intros Hg. apply Hg. intros e He. apply elem_of_app. by left. Qed.

(* ------------------------------------------------------------------ *)
(** ** Walks of the upgrade jobs *)

Lemma wp_grows {A} I (p : prog UpCall A) Q w v :
  w `prefix_of` v -> upwp I p Q v ->
  upwp (fun u => I u /\ w `prefix_of` u) p (fun a u => Q a u /\ w `prefix_of` u) v.
Proof.
  revert v. induction p as [a| |R c k IH]; intros v Hp [Hi Hk]; (split; [done|]); [done|done|].
  intros x Hx. apply IH; [|by apply Hk]. cbn. by apply prefix_app_r.
Qed.

Lemma prefix_sub {A} (l l' : list A) : l `prefix_of` l' -> l ⊆ l'.
Proof. intros [k ->] e He. apply elem_of_app. by left. Qed.

(** What a program can answer, beside what is known of its end. *)
Lemma wp_and_returns {A} I (p : prog UpCall A) Q (R : A -> Prop) w : upwp I p Q w -> returns p R -> upwp I p (fun a u => Q a u /\ R a) w.
Proof.
  revert w. induction p as [a| |R' c k IH]; intros w [Hi Hk] Hr; (split; [done|]); [done|done|].
  intros x Hx. apply IH; [by apply Hk|apply Hr].
Qed.

(** A run only adds to the history. *)
Lemma wp_keep {A} I (p : prog UpCall A) Q w : upwp I p Q w -> upwp I p (fun a u => Q a u /\ w ⊆ u) w.
Proof.
  intros Hp. eapply wp_mono; [apply (wp_grows I p Q w w); [done|exact Hp]|by intros u []|].
  intros a u _ [Hq Hu]. split; [done|]. by apply prefix_sub.
Qed.

(** Every deed of a walk is justified, and every step behind it has left what it
    leaves. *)
Lemma upgrade_walk steps job (P : list UpEvent -> up_deed -> Prop) (settled : nat -> list UpEvent -> Prop) n cut started w :
  (forall i, grows (settled i)) ->
  (forall i s j v, steps !! i = Some s -> same_job job j -> safe P v -> (forall k, k < i -> settled k v) ->
     upwp (safe P) (Do s j) (fun o u => o.2 = None -> settled i u) v) ->
  (forall i s h j v, steps !! i = Some s -> Happened s = Some h -> same_job job j -> safe P v -> (forall k, k < i -> settled k v) ->
     upwp (safe P) (h j) (fun r u => r = Ok true -> settled i u) v) ->
  Walk (HD := up_deeds) steps job [] n cut started w -> safe P w /\ forall k, k < n -> settled k w.
Proof.
  intros Hg Hdo Hhap.
  assert (Hon : forall i A (p : prog UpCall A) (Q : A -> list UpEvent -> Prop) (good : A -> Prop) v,
    (forall k, k < i -> settled k v) -> upwp (safe P) p (fun a u => good a -> settled i u) v ->
    upwp (fun u => safe P u /\ forall k, k < i -> settled k u) p
      (fun a u => good a -> safe P u /\ forall k, k < S i -> settled k u) v).
  { intros i A p Q good v Hk Hp. apply (wp_grows _ _ _ v) in Hp; [|done]. eapply wp_mono; [exact Hp| |].
    - intros u [Hs Hu%prefix_sub]. split; [done|]. intros k Hlt. eapply Hg; [done|]. by apply Hk.
    - intros a u [Hs Hu%prefix_sub] [Hq _] Ha. split; [done|]. intros k Hlt.
      destruct (decide (k = i)) as [->|Hne]; [by apply Hq|]. eapply Hg; [done|]. apply Hk. lia. }
  apply (walk_invariant (HD := up_deeds) steps job (fun i (tr : list UpEvent) => safe P tr /\ forall k, k < i -> settled k tr) []).
  - split; [apply safe_nil|]. intros k Hk. lia.
  - intros i s j v Hs Hj [Hv Hk]. cbn. apply (Hon i outcome (Do s j) (fun _ _ => True) (fun o => o.2 = None) v Hk).
    by apply (Hdo i).
  - intros i s h j v Hs Hh Hj [Hv Hk]. cbn. apply (Hon i _ (h j) (fun _ _ => True) (fun r => r = Ok true) v Hk).
    by apply (Hhap i s).
Qed.

(* ------------------------------------------------------------------ *)
(** ** What the common calls leave *)

Definition gate_open (cluster id : string) (l : list UpEvent) : Prop :=
  exists v, Ev (EvaluateGate cluster id) (Ok v) ∈ l /\ VOK v = true.

(** The node reported the version and the schematic, with its services up. *)
Definition verified (id : string) (to : Ver) (schematic : string) (l : list UpEvent) : Prop :=
  exists facts version services ctx1 ctx2 ctx3,
    Ev (Facts ctx1 id) (Ok facts) ∈ l /\ Ev (ToNode (NodeActions.Version ctx2 id)) (Ok version) ∈ l /\
    Ev (ServiceList ctx3 id) (Ok services) ∈ l /\ VerdictFor (observed version facts services) to schematic = None.

(** The inventory had the machine locked. *)
Definition seen_locked (cluster id : string) (l : list UpEvent) : Prop :=
  exists ms me, Ev (Machines cluster) (Ok ms) ∈ l /\ machineByID ms id = Some me /\ um_locked me = true.

(** The inventory had this machine, and not locked. *)
Definition seen_unlocked (cluster : string) (me : machine) (l : list UpEvent) : Prop :=
  exists ms, Ev (Machines cluster) (Ok ms) ∈ l /\ machineByID ms (um_id me) = Some me /\ um_locked me = false.

(** The node pulled an image. *)
Definition pulled (id ref : string) (cri : bool) (l : list UpEvent) : Prop := exists ctx, Ev (ImagePull ctx id cri ref) (Ok tt) ∈ l.

Lemma grows_pulled id ref cri : grows (pulled id ref cri).
Proof. unfold pulled. growing. Qed.
Lemma grows_gate_open cluster id : grows (gate_open cluster id).
Proof. unfold gate_open. growing. Qed.
Lemma grows_verified id to schematic : grows (verified id to schematic).
Proof. unfold verified. growing. Qed.
Lemma grows_seen_locked cluster id : grows (seen_locked cluster id).
Proof. unfold seen_locked. growing. Qed.
Lemma grows_seen_unlocked cluster me : grows (seen_unlocked cluster me).
Proof. unfold seen_unlocked. growing. Qed.
#[export] Hint Resolve grows_gate_open grows_verified grows_seen_locked grows_seen_unlocked grows_pulled : grow.

Lemma machineByID_id ms id me : machineByID ms id = Some me -> um_id me = id.
Proof. unfold machineByID. destruct (list_find _ ms) as [[i m]|] eqn:E; [|done]. intros [= <-]. by apply list_find_Some in E as (_ & -> & _). Qed.

Section Gaining.
Variable P : list UpEvent -> up_deed -> Prop.
Implicit Types (w v u l : list UpEvent).

(** [p] does nothing, and what it answers is backed by what it adds. *)
Definition backed {A} (p : U A) (F : A -> list UpEvent -> Prop) : Prop :=
  forall w, safe P w -> upwp (safe P) p (fun a v => gains w v (F a)) w.

Lemma backed_mono {A} (p : U A) (F G : A -> list UpEvent -> Prop) : backed p F -> (forall a l, F a l -> G a l) -> backed p G.
Proof. intros Hp HG w Hs. eapply wp_post; [by apply Hp|]. intros a v _ H. eapply gains_mono; [exact H|]. apply HG. Qed.

Lemma backed_ret {A} (a : A) (F : A -> list UpEvent -> Prop) : F a [] -> backed (mret a) F.
Proof. intros HF w Hs. apply wp_ret; [done|]. by apply gains_refl. Qed.

Lemma backed_call {R} (c : UpCall R) : up_call_deed R c = None -> backed (call c) (fun r l => Ev c r ∈ l).
Proof.
  intros E w Hs. apply wp_answer; [done|by rewrite E|]. intros r Hr. apply wp_ret; [done|].
  eapply gains_mono; [apply (gains_event w w (fun _ => True) c r); [by apply gains_refl|growing|done]|]. by intros l [_ H].
Qed.

(** A quiet program in the middle of something. *)
Lemma backed_from {A} (p : U A) (F : list UpEvent -> Prop) (G : A -> list UpEvent -> Prop) w v :
  backed p G -> gains w v F -> safe P v -> grows F -> (forall a, grows (G a)) ->
  upwp (safe P) p (fun a u => gains w u (fun l => F l /\ G a l)) v.
Proof.
  intros Hp H Hs HF HG. eapply wp_post; [by apply Hp|]. intros a u _ H'. by apply (gains_gains _ _ _ _ _ H HF H' (HG a)).
Qed.

(** The rest of a program, once something is known of what it goes on with. *)
Lemma backed_bind_known {A B} (p : U A) (f : A -> U B) F G H :
  backed p F -> (forall a l, F a l -> backed (f a) (G a)) -> (forall a, grows (F a)) -> (forall a b, grows (G a b)) ->
  (forall a b l, F a l -> G a b l -> H b l) -> backed (p ≫= f) H.
Proof.
  intros Hp Hf HF HG HH w Hs. apply wp_bind. eapply wp_post; [by apply Hp|]. intros a v Hv (l1 & Hl1 & Hn & H1).
  eapply wp_post; [by apply (Hf a l1)|]. intros b u Hu G2.
  eapply gains_mono; [apply (gains_gains w v u (F a) (G a b)); [by exists l1|apply HF|exact G2|apply HG]|].
  intros l [H2 H3]. by eapply HH.
Qed.

Lemma backed_bind {A B} (p : U A) (f : A -> U B) F G H :
  backed p F -> (forall a, backed (f a) (G a)) -> (forall a, grows (F a)) -> (forall a b, grows (G a b)) ->
  (forall a b l, F a l -> G a b l -> H b l) -> backed (p ≫= f) H.
Proof. intros Hp Hf. apply (backed_bind_known p f F G H Hp). intros a l _. apply Hf. Qed.

(** What a program answers well is backed. *)
Definition backed_ok {A E} (p : U (result E A)) (F : A -> list UpEvent -> Prop) : Prop :=
  backed p (fun r l => forall a, r = Ok a -> F a l).

Lemma backed_try {A B E} (p : U (result E A)) (f : A -> U (result E B)) F G H :
  backed_ok p F -> (forall a, backed_ok (f a) (G a)) -> (forall a, grows (F a)) -> (forall a b, grows (G a b)) ->
  (forall a b l, F a l -> G a b l -> H b l) -> backed_ok (try f p) H.
Proof.
  intros Hp Hf HF HG HH. apply (backed_bind _ _ (fun r l => forall a, r = Ok a -> F a l)
    (fun r s l => match r with Ok a => forall b, s = Ok b -> G a b l | Err _ => forall b, s <> Ok b end)); [exact Hp| | | |].
  - intros [a|e]; [exact (Hf a)|by apply backed_ret].
  - intros r. growing.
  - intros [a|e] s; growing.
  - intros [a|e] s l H1 H2 b Hb; [|by destruct (H2 b)]. eapply HH; eauto.
Qed.

Lemma backed_ok_mono {A E} (p : U (result E A)) (F G : A -> list UpEvent -> Prop) :
  backed_ok p F -> (forall a l, F a l -> G a l) -> backed_ok p G.
Proof. intros Hp HG. eapply backed_mono; [exact Hp|]. intros r l H a Ha. by apply HG, H. Qed.

Lemma backed_quiet {A} (p : U A) : quiet p -> backed p (fun _ _ => True).
Proof.
  intros Hp w Hs. eapply wp_post; [by apply wp_quiet|]. intros a v _ [_ (l & -> & Hl)]. by exists l.
Qed.

Lemma backed_quiet_ok {A E} (p : U (result E A)) : quiet p -> backed_ok p (fun _ _ => True).
Proof. intros Hp. eapply backed_mono; [by apply backed_quiet|]. by intros. Qed.

(** The end of a quiet program, whose answer is known. *)
Lemma backed_pure {A E} (r : result E A) (F : A -> list UpEvent -> Prop) : (forall a l, r = Ok a -> F a l) -> backed_ok (mret r) F.
Proof. intros HF. apply backed_ret. intros a Ha. by apply HF. Qed.

Lemma backed_asked {A} method (c : Ctx -> UpCall (result node_error A)) :
  (forall ctx, up_call_deed _ (c ctx) = None) ->
  backed_ok (asked method c) (fun a l => exists ctx, Ev (c ctx) (Ok a) ∈ l).
Proof.
  intros Hc. unfold asked. eapply (backed_try _ _ (fun _ _ => True) (fun ctx a l => Ev (c ctx) (Ok a) ∈ l)).
  - apply backed_quiet_ok, quiet_class.
  - intros ctx. eapply (backed_bind _ _ (fun r l => Ev (c ctx) r ∈ l) (fun r s _ => s = told "" r)).
    + by apply backed_call.
    + intros r. by apply backed_ret.
    + intros r. growing.
    + intros r s. growing.
    + intros r s l H -> a. unfold told. destruct r as [b|e]; [|done]. by intros [= ->].
  - intros a. growing.
  - intros a b. growing.
  - intros ctx a l _ H. by exists ctx.
Qed.

Lemma backed_verify_read {A} (p : U (result step_error A)) F : backed_ok p F -> (forall a, grows (F a)) -> backed_ok (verify_read p) F.
Proof.
  intros Hp HF. unfold verify_read. eapply (backed_bind _ _ (fun r l => forall a, r = Ok a -> F a l)
    (fun r s _ => forall a, s = Ok a -> r = Ok a)); [exact Hp|..].
  - intros r. apply backed_ret. destruct r as [b|e]; [|done]. by intros a [= ->].
  - intros r. growing.
  - intros r s. growing.
  - intros r s l H1 H2 a Ha. by apply H1, H2.
Qed.

Lemma backed_verify id to schematic : backed_ok (VerifyUpgraded id to schematic) (fun _ => verified id to schematic).
Proof.
  unfold VerifyUpgraded.
  apply (backed_try _ _ (fun facts l => exists ctx, Ev (Facts ctx id) (Ok facts) ∈ l)
    (fun facts _ l => exists version services ctx2 ctx3, Ev (ToNode (NodeActions.Version ctx2 id)) (Ok version) ∈ l /\
      Ev (ServiceList ctx3 id) (Ok services) ∈ l /\ VerdictFor (observed version facts services) to schematic = None));
    [|intros facts|growing..|].
  - apply backed_verify_read; [by apply backed_asked|growing].
  - apply (backed_try _ _ (fun version l => exists ctx, Ev (ToNode (NodeActions.Version ctx id)) (Ok version) ∈ l)
      (fun version _ l => exists services ctx3, Ev (ServiceList ctx3 id) (Ok services) ∈ l /\
        VerdictFor (observed version facts services) to schematic = None)); [|intros version|growing..|].
    + apply backed_verify_read; [by apply backed_asked|growing].
    + apply (backed_try _ _ (fun services l => exists ctx, Ev (ServiceList ctx id) (Ok services) ∈ l)
        (fun services _ _ => VerdictFor (observed version facts services) to schematic = None)); [|intros services|growing..|].
      * apply backed_verify_read; [by apply backed_asked|growing].
      * apply backed_pure. intros obs l. by destruct (VerdictFor _ _ _).
      * intros services obs l [ctx H] E. by exists services, ctx.
    + intros version obs l [ctx H] (services & ctx3 & H3 & E). by exists version, services, ctx, ctx3.
  - intros facts obs l [ctx H] (version & services & ctx2 & ctx3 & H2 & H3 & E). by exists facts, version, services, ctx, ctx2, ctx3.
Qed.

(** A wait that ends well saw what it waited for. *)
Lemma backed_wait_loop {A} n started interval budget (look : U (option (result step_error A))) late (Q : A -> list UpEvent -> Prop) :
  (forall a, grows (Q a)) -> backed look (fun o l => forall a, o = Some (Ok a) -> Q a l) ->
  backed_ok (wait_loop n started interval budget look late) Q.
Proof.
  intros Hg Hl. induction n as [|n IH]; cbn [wait_loop]; [by split|].
  apply (backed_bind _ _ (fun _ _ => True) (fun _ r l => forall a, r = Ok a -> Q a l)); [|intros [|]|growing..|].
  - apply backed_quiet. by apply quiet_call.
  - apply (backed_bind _ _ (fun _ _ => True) (fun _ r _ => forall a : A, r <> Ok a)); [|by intros e; apply backed_ret|growing..|].
    + apply backed_quiet. by apply quiet_call.
    + intros e r l _ H a Ha. by destruct (H a).
  - apply (backed_bind _ _ (fun o l => forall a, o = Some (Ok a) -> Q a l)
      (fun o r l => match o with Some r' => r = r' | None => forall a, r = Ok a -> Q a l end)); [exact Hl|intros [r|]| | |].
    + by apply backed_ret.
    + apply (backed_bind _ _ (fun _ _ => True) (fun _ r l => forall a, r = Ok a -> Q a l)); [|intros t|growing..|].
      * apply backed_quiet. by apply quiet_call.
      * destruct (bool_decide _); [by apply backed_ret|exact IH].
      * by intros ??? _ H.
    + growing.
    + intros [r|] s; growing.
    + intros [r|] s l H1 H2 a Ha; [|auto]. apply H1. congruence.
  - by intros ??? _ H.
Qed.

Lemma backed_waiting {A} fuel interval budget (look : U (option (result step_error A))) late (Q : A -> list UpEvent -> Prop) :
  (forall a, grows (Q a)) -> backed look (fun o l => forall a, o = Some (Ok a) -> Q a l) ->
  backed_ok (waiting fuel interval budget look late) Q.
Proof.
  intros Hg Hl. apply (backed_bind _ _ (fun _ _ => True) (fun _ r l => forall a, r = Ok a -> Q a l)); [|intros t|growing..|].
  - apply backed_quiet. by apply quiet_call.
  - by apply backed_wait_loop.
  - by intros ??? _ H.
Qed.

(** The gate in front of a control-plane node. *)
Lemma backed_gate cluster me :
  backed_ok (gate_before cluster me) (fun _ l => is_plane me = true -> gate_open cluster (um_id me) l).
Proof.
  unfold gate_before. destruct (is_plane me); cbn [negb]; [|by apply backed_pure].
  apply (backed_try _ _ (fun (v : Verdict) l => Ev (EvaluateGate cluster (um_id me)) (Ok v) ∈ l) (fun (v : Verdict) _ _ => VOK v = true)).
  - eapply backed_mono; [by apply backed_call|]. by intros r l H a ->.
  - intros v. apply backed_pure. intros a l. by destruct (VOK v).
  - growing.
  - growing.
  - intros v d l H1 H2 _. by exists v.
Qed.

(** A look that connects first. *)
Lemma backed_connected {A} id (p : U (option A)) F :
  backed p F -> (forall a, grows (F a)) -> (forall l, F None l) ->
  backed (c ← connect id; match c with Err _ => mret None | Ok _ => p end) F.
Proof.
  intros Hp HF H0. apply (backed_bind _ _ (fun _ _ => True) (fun _ => F)); [|intros [[]|e]|growing|intros; apply HF|by intros ??? _].
  - apply backed_quiet. by apply quiet_call.
  - exact Hp.
  - by apply backed_ret.
Qed.

Lemma backed_waitForUpgrade fuel id to schematic :
  backed_ok (waitForUpgrade fuel id to schematic) (fun _ => verified id to schematic).
Proof.
  apply backed_waiting; [growing|]. apply backed_connected; [|growing|done].
  apply (backed_bind _ _ (fun r l => forall a, r = Ok a -> verified id to schematic l)
    (fun r o _ => forall a, o = Some (Ok a) -> r = Ok a)); [apply backed_verify|intros r|growing..|].
  - apply backed_ret. intros a. by destruct r as [?|[]]; cbn; [intros [= ->]|..].
  - intros r o l H1 H2 a Ha. by eapply H1, H2.
Qed.
End Gaining.
Arguments backed_from {P A p F G w v}.
Ltac follow B G := apply wp_bind; eapply wp_post; [apply (backed_from B G); [assumption|growing|growing]|].

(* ------------------------------------------------------------------ *)
(** ** A world to try the jobs in *)

Definition toy_machines : list machine :=
  [mkMachine "m1" "cp-1" "controlplane" false "v1.9.0" "v1.32.0"; mkMachine "m2" "cp-2" "controlplane" true "v1.9.0" "v1.32.0";
   mkMachine "m3" "w-1" "worker" false "v1.9.0" "v1.32.0"; mkMachine "m4" "cp-3" "controlplane" false "v1.9.0" "v1.32.0"].

(** A world in which all goes well. *)
Definition toy_oracle : oracle := fun R c =>
  match c in UpCall R return R with
  | ToNode c =>
      match c in NodeCall R return R with
      | Now => 0%Z
      | Connect _ _ => Ok tt
      | NodeActions.Version _ _ => Ok "v1.10.1"
      | Uptime _ _ => Ok 0%Z
      | RebootNode _ _ _ | ShutdownNode _ _ _ | ResetNode _ _ _ => Ok tt
      end
  | Machines _ => Ok toy_machines
  | EvaluateGate _ _ => Ok (mkVerdict true "" noInput)
  | ImagePull _ _ _ _ => Ok tt
  | EtcdForfeit _ _ => Ok "cp-3"
  | UpgradeNode _ _ _ => Ok ([mkProgress "installing" None; mkProgress "" (Some 0%Z)], None)
  | Facts _ _ => Ok (mkFacts "ghcr.io/siderolabs/kubelet:v1.33.0" "abc")
  | ServiceList _ _ => Ok [mkService "kubelet" "Running" true false]
  | StaticPods _ _ => Ok (map (fun c => mkStaticPod c ("registry.k8s.io/" +:+ c +:+ ":v1.33.0") true) ControlPlaneComponents)
  | ConfigYAML _ _ => Ok "one"
  | ApplyConfig _ _ _ _ => Ok tt
  | Cmdline _ _ => Ok ""
  | SecurityState _ _ => Ok false
  | MemberListOf _ _ => Ok (map (fun i => mkMember i ("cp-" +:+ itoa i) false) [1; 2; 3]%Z)
  | EtcdStatusOf _ _ => Ok tt
  | EtcdLeave _ _ => Ok tt
  | EtcdRemove _ _ _ => Ok tt
  | RecordNode _ => Ok tt
  | KubeProxy _ _ => Ok "moved"
  | Forget _ => Ok tt
  | SleepFor _ => false
  | CtxErr => say ""
  | ResolveInstaller s v b => Ok (s +:+ v)
  | TalosReleases => Ok ["v1.9.5"; "v1.10.1"]
  | KubernetesReleases _ => Ok ∅
  end.


Definition toy_job (role : string) (n : nat) : Jobs.Job :=
  Jobs.mkJob "j1" "" "c" "m1" (mkExec JobRunning (replicate n (Jobs.mkStep "" StepPending true 0 0 "")) 0 0 0 "")
    {[ "role" := role ]} false "op" 0 1.

Definition toy_run (xs : list oracle) (steps : list (Step UpCall)) (j : Jobs.Job) : option (nat * Jobs.Job * list UpEvent) :=
  perform steps 0 0%Z j xs [].

(** How far a run came, and what it did, in its order. *)
Definition deeds_of (r : option (nat * Jobs.Job * list UpEvent)) : option (nat * list up_deed) :=
  match r with Some (n, _, w) => Some (n, omap up_event_deed w) | None => None end.

Lemma toy_walk xs steps role len n ds :
  length steps <= len -> deeds_of (toy_run xs steps (toy_job role len)) = Some (n, ds) ->
  exists st w, Walk (HD := up_deeds) steps (toy_job role len) [] n false st w /\ omap up_event_deed w = ds.
Proof.
  intros Hl Hd. unfold toy_run in Hd. destruct (perform _ _ _ _ _ _) as [[[n' j'] w]|] eqn:E; [|done]. injection Hd as -> <-.
  assert (Hlen : length steps <= length (Jobs.Steps (toy_job role len))) by (cbn; by rewrite length_replicate).
  assert (Hany : Forall (undisturbed (Deeds := up_deeds)) xs) by (by apply Forall_true).
  destruct (performed (HD := up_deeds) steps 0 _ _ _ _ _ _ Hlen Hany E) as (st & Hw & _). eauto.
Qed.

Lemma deed_split w d : d ∈ omap up_event_deed w -> exists pre e post, w = pre ++ e :: post /\ up_event_deed e = Some d.
Proof.
  intros (e & He & Hd)%list_elem_of_omap. apply list_elem_of_split in He as (pre & post & ->). by exists pre, e, post.
Qed.
