(* ===== verification/UpgradeTalos.v ===== *)
(** * Upgrades: the rolling Talos upgrade

    What is true of every walk through the steps of [talosSteps], whatever is
    answered, wherever the process died and was taken up again. *)

From S2P Require Import Prelude Plan Jobs Transport Effects NodeActions Gate.
From S2P Require Import UpgradeCalls Etcd UpgradeVerify Upgrade UpgradeWorld.

Section Talos_.
Variables (has_record : bool) (fuel : nat) (cluster : string) (req : Request) (to : Ver).

Definition schematic_for (id : string) : string := default "" (rq_schematics req !! id).

(** The node at a place of the walk is locked, or runs what was installed. *)
Definition node_settled (i : nat) (l : list UpEvent) : Prop :=
  forall id, rq_machines req !! i = Some id -> seen_locked cluster id l \/ verified id to (schematic_for id) l.

(** What a node's turn has established before it is upgraded. *)
Definition may_install (me : machine) (installer : string) (l : list UpEvent) : Prop :=
  seen_unlocked cluster me l /\ (is_plane me = true -> gate_open cluster (um_id me) l) /\ pulled (um_id me) installer false l.

(** A deed is the upgrade of one of the nodes, with its installer; the nodes before
    it are settled, and since then nothing was done but what lets it be upgraded. *)
Definition upgrade_justified (pre : list UpEvent) (d : up_deed) : Prop :=
  exists k me installer before turn,
    pre = before ++ turn /\ omap up_event_deed turn = [] /\
    d = DUpgrade (um_id me) installer /\
    rq_machines req !! k = Some (um_id me) /\ rq_installers req !! um_id me = Some installer /\ installer <> "" /\
    (forall i, i < k -> node_settled i before) /\ may_install me installer turn.

Lemma grows_settled i : grows (node_settled i).
Proof. unfold node_settled. growing. Qed.
#[local] Hint Resolve grows_settled : grow.

Abbreviation safe_here := (safe upgrade_justified) (only parsing).
Abbreviation backed_here := (backed upgrade_justified) (only parsing).

Lemma quiet_forfeit me d : quiet (forfeit me d).
Proof. unfold forfeit. hush. Qed.

Section Node.
Variables (k : nat) (id installer : string).
Hypotheses (Hk : rq_machines req !! k = Some id) (Hi : rq_installers req !! id = Some installer) (Hne : installer <> "").

(** The facts a turn has gathered when the node's own part begins. *)
Definition turn_facts (me : machine) (l : list UpEvent) : Prop :=
  seen_unlocked cluster me l /\ (is_plane me = true -> gate_open cluster (um_id me) l).

Lemma grows_turn_facts me : grows (turn_facts me).
Proof. unfold turn_facts. growing. Qed.
#[local] Hint Resolve grows_turn_facts : grow.

(** After the upgrade was sent: the rest of the turn does nothing more. *)
Lemma install_end_wp me d (lines : list string) how w :
  um_id me = id -> safe_here w ->
  upwp safe_here
    (match drain_failed how with
     | Some e => mret (fails d e)
     | None =>
         let d := match last lines with Some l => Some (l +:+ "; waiting for the node to come back") | None => d end in
         o ← waitForUpgrade fuel (um_id me) to (schematic_for id);
         match o with
         | Err e => mret (fails d e)
         | Ok obs =>
             let d := Some (nameOf me +:+ " is running Talos " +:+ ob_talos obs +:+ " and its services are up") in
             if has_record then r ← call (RecordNode (um_id me)); mret (ended_with d r) else mret (d, None)
         end
     end) (fun o u => o.2 = None -> node_settled k u) w.
Proof.
  intros E Hs. destruct (drain_failed how); [by apply wp_ret|]. cbn zeta. apply wp_bind.
  eapply wp_post; [by apply backed_waitForUpgrade|]. intros [obs|e] u Hu G; [|by apply wp_ret].
  assert (Hset : node_settled k u).
  { intros id' Hid. rewrite Hk in Hid. injection Hid as <-. right. rewrite <- E at 1. eapply (gains_all _ _ _ G); [growing|done]. }
  destruct has_record; [|by apply wp_ret].
  apply wp_answer; [done|done|]. intros r Hr. apply wp_ret; [done|]. intros _. by apply grows_app; [apply grows_settled|].
Qed.

Lemma install_wp me d w v :
  um_id me = id -> (forall i, i < k -> node_settled i w) -> safe_here v -> gains w v (turn_facts me) ->
  upwp safe_here (install has_record fuel me to (schematic_for id) installer d) (fun o u => o.2 = None -> node_settled k u) v.
Proof.
  intros E Hw Hs G. unfold install.
  follow (backed_quiet upgrade_justified _ (quiet_open (um_id me))) G. intros [[]|e] v1 Hs1 G1; [|by apply wp_ret].
  follow (backed_quiet upgrade_justified _ (quiet_class MethodImagePull)) G1. intros [ctx|e] v2 Hs2 G2; [|by apply wp_ret].
  follow (backed_call upgrade_justified (ImagePull ctx (um_id me) false installer) eq_refl) G2. intros [[]|e] v3 Hs3 G3; [|by apply wp_ret].
  follow (backed_quiet upgrade_justified _ (quiet_forfeit me d)) G3.
  intros d' v4 Hs4 G4. apply wp_answer; [done| |].
  - intros dd. cbn. intros [= <-]. destruct G4 as (l & -> & Hl & (((HF & _) & _) & Hpull) & _).
    exists k, me, installer, w, l. rewrite E in *. destruct HF as [H1 H2].
    do 7 (split; [done|]). split; [done|]. split; [done|]. rewrite E. by exists ctx.
  - intros u Hs5. destruct u as [[said err]|e]; [|by apply wp_ret]. cbn. destruct (drain_stream said err []) as [lines how].
    by apply install_end_wp.
Qed.

Lemma talos_do_wp j w :
  safe_here w -> (forall i, i < k -> node_settled i w) ->
  upwp safe_here (Do (talosNodeStep has_record fuel cluster id to (schematic_for id) installer) j)
    (fun o u => o.2 = None -> node_settled k u) w.
Proof.
  intros Hs Hw. unfold talosNodeStep. cbn [Do]. apply wp_bind.
  eapply wp_post; [by apply backed_call|]. intros [ms|e] v Hv G; [|by apply wp_ret].
  destruct (machineByID ms id) as [me|] eqn:Eme; [|by apply wp_ret]. pose proof (machineByID_id _ _ _ Eme) as Eid.
  destruct (um_locked me) eqn:El.
  - apply wp_ret; [done|]. intros _ id' Hid. rewrite Hk in Hid. injection Hid as <-. left. exists ms, me. split_and!; [|done..].
    by apply (gains_all _ _ _ G); growing.
  - follow (backed_gate upgrade_justified cluster me) G. intros [d|e] u Hu G2; [|by apply wp_ret]. apply (install_wp me d w u); [done..|].
    eapply gains_mono; [exact G2|]. intros l [H1 H2]. split; [|by eapply H2]. exists ms. by rewrite Eid.
Qed.

Lemma talos_happened_wp h j w :
  Happened (talosNodeStep has_record fuel cluster id to (schematic_for id) installer) = Some h ->
  safe_here w -> upwp safe_here (h j) (fun r u => r = Ok true -> node_settled k u) w.
Proof.
  intros Eh Hs. apply (inj Some) in Eh as <-. apply wp_bind.
  eapply wp_post; [by apply backed_call|]. intros [[]|e] v Hv _; [|by apply wp_ret].
  apply wp_bind. eapply wp_post; [by apply backed_verify|]. intros [obs|e] u Hu G; (apply wp_ret; [done|]); [|done].
  intros _ id' Hid. rewrite Hk in Hid. injection Hid as <-. right. eapply (gains_all _ _ _ G); [growing|done].
Qed.
End Node.

(** The steps are the nodes', in their order. *)
Lemma talos_node_steps_lookup ids steps i s :
  talos_node_steps has_record fuel cluster to req ids = Ok steps -> steps !! i = Some s ->
  exists id installer, ids !! i = Some id /\ rq_installers req !! id = Some installer /\ installer <> "" /\
    s = talosNodeStep has_record fuel cluster id to (schematic_for id) installer.
Proof.
  revert steps i. induction ids as [|id ids IH]; intros steps i; cbn [talos_node_steps]; [by intros [= <-]|].
  case_bool_decide as E; [done|]. destruct (talos_node_steps _ _ _ _ _ ids) as [rest|e] eqn:Er; [|done]. cbn. intros [= <-].
  destruct i as [|i]; [|exact (IH rest i eq_refl)]. intros H. apply (inj Some) in H as <-.
  destruct (rq_installers req !! id) as [inst|] eqn:Ei; [|done]. by exists id, inst.
Qed.

(** The walk, from the steps alone. *)
Lemma talos_walk steps job n cut started w :
  talosSteps has_record fuel req cluster = Ok steps -> version_of (rq_to req) = Ok to ->
  Walk (HD := up_deeds) steps job [] n cut started w -> safe_here w /\ forall i, i < n -> node_settled i w.
Proof.
  unfold talosSteps. intros Es Ev. rewrite Ev in Es. cbn in Es. case_bool_decide; [done|].
  apply upgrade_walk.
  - apply grows_settled.
  - intros i s j v Hi _ Hs Hk. destruct (talos_node_steps_lookup _ _ _ _ Es Hi) as (id & inst & Hid & Hin & Hne & ->).
    by apply talos_do_wp.
  - intros i s h j v Hi Hh _ Hs Hk. destruct (talos_node_steps_lookup _ _ _ _ Es Hi) as (id & inst & Hid & Hin & Hne & ->).
    by eapply talos_happened_wp.
Qed.
End Talos_.

(** C33: The rolling Talos upgrade takes its nodes in its order, one at a time. A node
    is sent an upgrade only when every node before it is locked or was seen, after
    its own upgrade, to run the version and the schematic with its services up; and
    only after, since then and with nothing done in between, the inventory had it
    unlocked, the health gate let it go where it is a control-plane node, and it
    had pulled the very image it is upgraded with, which is the one its plan
    carries. Nothing else is done to any node; and a walk that has passed a node
    leaves it locked or verified. All of this whatever is answered, and wherever the
    process died and the job was taken up again. *)
Theorem talos_upgrade_one_at_a_time has_record fuel cluster req to steps job n cut started w :
  talosSteps has_record fuel req cluster = Ok steps -> version_of (rq_to req) = Ok to ->
  Walk (HD := up_deeds) steps job [] n cut started w ->
  (forall i, i < n -> node_settled cluster req to i w) /\
  (forall pre e post d, w = pre ++ e :: post -> up_event_deed e = Some d -> upgrade_justified cluster req to pre d).
Proof.
  intros Es Ev Hw. destruct (talos_walk _ _ _ _ _ _ _ _ _ _ _ Es Ev Hw) as [Hs Hd]. split; [done|]. exact Hs.
Qed.

(* ------------------------------------------------------------------ *)
(** ** A run *)

Definition toy_request : Request :=
  mkRequest "v1.10.1" ["m1"; "m2"; "m3"] {[ "m1" := "abc"; "m3" := "abc" ]} {[ "m1" := "img"; "m2" := "img"; "m3" := "img" ]}.
Definition toy_steps : list (Step UpCall) := match talosSteps true 3 toy_request "c" with Ok s => s | Err _ => [] end.

Definition talos_run := toy_run (replicate 100 toy_oracle) toy_steps (toy_job "" 3).

Example talos_deeds : deeds_of talos_run = Some (3, [DUpgrade "m1" "img"; DUpgrade "m3" "img"]).
Proof. vm_compute. reflexivity. Qed.

Lemma talos_upgrade_one_at_a_time_witness :
  exists w, deeds_of talos_run = Some (3, [DUpgrade "m1" "img"; DUpgrade "m3" "img"]) /\
    (forall i, i < 3 -> node_settled "c" toy_request (mk 1 10 1) i w) /\
    exists pre, pre `prefix_of` w /\ upgrade_justified "c" toy_request (mk 1 10 1) pre (DUpgrade "m3" "img").
Proof.
  assert (Hd : deeds_of talos_run = Some (3, [DUpgrade "m1" "img"; DUpgrade "m3" "img"])) by (vm_compute; reflexivity).
  assert (Es : talosSteps true 3 toy_request "c" = Ok toy_steps) by reflexivity.
  assert (Ev : version_of (rq_to toy_request) = Ok (mk 1 10 1)) by (vm_compute; reflexivity).
  destruct (toy_walk _ toy_steps "" 3 3 _ (le_n 3) Hd) as (st & w & Hw & E).
  destruct (talos_upgrade_one_at_a_time _ _ _ _ _ _ _ _ _ _ _ Es Ev Hw) as [H1 H2].
  exists w. split; [exact Hd|]. split; [exact H1|].
  destruct (deed_split w (DUpgrade "m3" "img")) as (pre & e & post & Ew & He); [rewrite E; right; left|].
  exists pre. split; [rewrite Ew; by eexists|]. by eapply H2.
Defined.
