(* ===== verification/UpgradeKube.v ===== *)
(** * Upgrades: the rolling Kubernetes upgrade

    What is true of every walk through the steps of [kubernetesSteps], whatever is
    answered, wherever the process died and was taken up again. *)

From S2P Require Import Prelude Plan Jobs Transport Effects NodeActions Gate.
From S2P Require Import UpgradeCalls Etcd UpgradeVerify Upgrade UpgradeWorld.
From S2P Require Redact ConfigDiff PlanGuard.

Section Kube_.
Context `{HM : !Redact.Machinery} `{HP : !@PlanGuard.Patcher HM}.
Variables (document_kinds : Redact.provider -> list string) (has_record has_proxy : bool) (fuel : nat).
Variables (cluster : string) (ids : list string) (to : Ver).

(* ------------------------------------------------------------------ *)
(** ** What the steps leave *)

Definition listed (ms : list machine) (l : list UpEvent) : Prop := Ev (Machines cluster) (Ok ms) ∈ l.

(** Every node that was not locked pulled every image it needs. *)
Definition all_pulled (l : list UpEvent) : Prop :=
  exists ms, listed ms l /\
    forall id me ref, id ∈ ids -> machineByID ms id = Some me -> um_locked me = false ->
      (ref ∈ (kubernetesImages to (is_plane me)).1 -> pulled id ref false l) /\
      (ref ∈ (kubernetesImages to (is_plane me)).2 -> pulled id ref true l).

(** The node reported the component's pod ready on the new image. *)
Definition pod_seen (component : string) (me : machine) (l : list UpEvent) : Prop :=
  exists ctx pods p, Ev (StaticPods ctx (um_id me)) (Ok pods) ∈ l /\ p ∈ pods /\
    sp_component p = component /\ sp_image p = componentImage component to /\ sp_ready p = true.

Definition component_moved (component : string) (l : list UpEvent) : Prop :=
  exists ms, listed ms l /\ forall me, me ∈ plane_of ms ids -> pod_seen component me l.

(** The node took a configuration, at once. *)
Definition applied (id : string) (l : list UpEvent) : Prop := exists ctx full, Ev (ApplyConfig ctx id full "no-reboot") (Ok tt) ∈ l.

Definition proxy_moved (l : list UpEvent) : Prop :=
  (exists ms, listed ms l /\ forall me, me ∈ plane_of ms ids -> applied (um_id me) l) /\
  (has_proxy = true -> (exists detail, Ev (KubeProxy cluster (proxyImage to)) (Ok detail) ∈ l) \/
                        Ev (KubeProxy cluster (proxyImage to)) (Err ErrNoKubeProxy) ∈ l).

Definition kubelet_moved (id : string) (l : list UpEvent) : Prop :=
  seen_locked cluster id l \/ exists ctx facts, Ev (Facts ctx id) (Ok facts) ∈ l /\ kubernetes_at facts to = true.

(** What the step at a place of the job has left once it is passed: the images, the
    three components, kube-proxy, the kubelets. A step without a question is only
    passed by its own end. *)
Definition stage_done (k : nat) (l : list UpEvent) : Prop :=
  match k with
  | 0 => all_pulled l
  | 1 | 2 | 3 => forall component, ControlPlaneComponents !! (k - 1) = Some component -> component_moved component l
  | 4 => proxy_moved l
  | S (S (S (S (S i)))) => forall id, ids !! i = Some id -> kubelet_moved id l
  end.

Lemma grows_listed ms : grows (listed ms).
Proof. unfold listed. growing. Qed.
#[local] Hint Resolve grows_listed : grow.
Lemma grows_pod_seen component me : grows (pod_seen component me).
Proof. unfold pod_seen. growing. Qed.
#[local] Hint Resolve grows_pod_seen : grow.
Lemma grows_component_moved component : grows (component_moved component).
Proof. unfold component_moved. growing. Qed.
Lemma grows_applied id : grows (applied id).
Proof. unfold applied. growing. Qed.
Lemma grows_kubelet_moved id : grows (kubelet_moved id).
Proof. unfold kubelet_moved. growing. Qed.
#[local] Hint Resolve grows_component_moved grows_applied grows_kubelet_moved : grow.
Lemma grows_stage_done k : grows (stage_done k).
Proof. change (grows (fun l => stage_done k l)). destruct k as [|[|[|[|[|k]]]]]; cbn [stage_done]; unfold all_pulled, proxy_moved; growing. Qed.
#[local] Hint Resolve grows_stage_done : grow.

(* ------------------------------------------------------------------ *)
(** ** What justifies a deed *)

(** A change of a configuration the node had just been read to have. *)
Definition config_deed (c : imageChange) (id : string) (turn : list UpEvent) (d : up_deed) : Prop :=
  exists ctx base full, Ev (ConfigYAML ctx id) (Ok base) ∈ turn /\ changed_config document_kinds id c base = Ok full /\
    d = DApply id full "no-reboot".

(** Of a component: behind the gate, the nodes before it seen on the new image. *)
Definition component_deed (component : string) (before turn : list UpEvent) (d : up_deed) : Prop :=
  exists ms q me, listed ms before /\ plane_of ms ids !! q = Some me /\
    (forall q' me', q' < q -> plane_of ms ids !! q' = Some me' -> pod_seen component me' before) /\
    gate_open cluster (um_id me) turn /\ config_deed (componentChange component to) (um_id me) turn d.

Definition proxy_deed (before turn : list UpEvent) (d : up_deed) : Prop :=
  (exists ms me, listed ms before /\ me ∈ plane_of ms ids /\ config_deed (proxyChange to) (um_id me) turn d) \/
  d = DProxy cluster (proxyImage to).

Definition kubelet_deed (id : string) (turn : list UpEvent) (d : up_deed) : Prop :=
  exists me, um_id me = id /\ seen_unlocked cluster me turn /\ (is_plane me = true -> gate_open cluster id turn) /\
    config_deed (kubeletChange to) id turn d.

Definition stage_deed (k : nat) (before turn : list UpEvent) (d : up_deed) : Prop :=
  match k with
  | 0 => False
  | 1 | 2 | 3 => exists component, ControlPlaneComponents !! (k - 1) = Some component /\ component_deed component before turn d
  | 4 => proxy_deed before turn d
  | S (S (S (S (S i)))) => exists id, ids !! i = Some id /\ kubelet_deed id turn d
  end.

Definition move_justified (pre : list UpEvent) (d : up_deed) : Prop :=
  exists k before turn, pre = before ++ turn /\ omap up_event_deed turn = [] /\
    (forall i, i < k -> stage_done i before) /\ stage_deed k before turn d.

Abbreviation safe_here := (safe move_justified) (only parsing).
Abbreviation backed_here := (backed move_justified) (only parsing).

Lemma seq_sub {A} (w v : list A) : w ⊆ w ++ v.
Proof. intros e He. apply elem_of_app. by left. Qed.

Lemma stages_grow k l l' : l ⊆ l' -> (forall i, i < k -> stage_done i l) -> forall i, i < k -> stage_done i l'.
Proof. intros Hl Hk i Hi. eapply grows_stage_done; [exact Hl|by apply Hk]. Qed.

(* ------------------------------------------------------------------ *)
(** ** Applying a change *)

Definition at_once (c : imageChange) : Prop := mode_name (ConfigDiff.VMode (ConfigDiff.ModeFor [ic_path c])) = "no-reboot".

Lemma component_at_once component : component ∈ ControlPlaneComponents -> at_once (componentChange component to).
Proof.
  intros Hc. assert (Hall : forallb (fun c => bool_decide (mode_name (ConfigDiff.VMode (ConfigDiff.ModeFor [".cluster." +:+ componentConfigKey c +:+ ".image"])) = "no-reboot"))
    ControlPlaneComponents = true) by (vm_compute; reflexivity).
  rewrite forallb_forall in Hall. apply list_elem_of_In in Hc. apply Hall in Hc. by apply bool_decide_eq_true in Hc.
Qed.
Lemma proxy_at_once : at_once (proxyChange to).
Proof. unfold at_once, proxyChange. cbn [ic_path]. vm_compute. reflexivity. Qed.
Lemma kubelet_at_once : at_once (kubeletChange to).
Proof. unfold at_once, kubeletChange. cbn [ic_path]. vm_compute. reflexivity. Qed.

(** A change is sent only with what was gathered since [w], and with the node's own
    configuration read after that. *)
Lemma apply_wp c id F w v :
  gains w v F -> at_once c -> safe_here v -> grows F ->
  (forall l d, F l -> omap up_event_deed l = [] -> config_deed c id l d -> move_justified (w ++ l) d) ->
  upwp safe_here (applyImage document_kinds id c) (fun r u => r = Ok tt -> applied id u) v.
Proof.
  intros G Hc Hs HF HP'. unfold applyImage. apply wp_try.
  eapply wp_post; [apply (backed_from (backed_quiet move_justified _ (quiet_open id)) G Hs); growing|].
  intros [[]|e] v1 Hs1 G1; [|done]. apply wp_try.
  eapply wp_post; [apply (backed_from (backed_quiet move_justified _ (quiet_class MethodCOSIList)) G1 Hs1); growing|].
  intros [ctx|e] v2 Hs2 G2; [|done].
  follow (backed_call move_justified (ConfigYAML ctx id) eq_refl) G2. intros b v3 Hs3 G3. apply wp_try, wp_ret; [done|].
  destruct b as [base|e]; cbn [told]; [|done]. apply wp_try, wp_ret; [done|].
  destruct (changed_config document_kinds id c base) as [full|e] eqn:Ef; [|done].
  unfold asked. apply wp_try.
  eapply wp_post; [apply (backed_from (backed_quiet move_justified _ (quiet_class MethodApplyConfiguration)) G3 Hs3); growing|].
  intros [actx|e] v4 Hs4 G4; [|done]. rewrite Hc. apply wp_answer; [done| |].
  - intros d. cbn. intros [= <-]. destruct G4 as (l & -> & Hl & ((((HFl & _) & _) & Hb) & _)).
    apply HP'; [done..|]. by exists ctx, base, full.
  - intros r Hr. apply wp_ret; [done|]. intros Hok. exists actx, full. apply elem_of_app. right.
    destruct r as [[]|]; [|done]. by apply list_elem_of_singleton.
Qed.

(* ------------------------------------------------------------------ *)
(** ** Pulling *)

Lemma backed_pull_one P id cri ref : backed_ok P (pull_one id cri ref) (fun _ l => pulled id ref cri l).
Proof.
  apply (backed_try _ _ _ (fun _ _ => True) (fun _ _ l => pulled id ref cri l)); [|intros ctx|growing..|by intros ????].
  - apply backed_quiet_ok, quiet_class.
  - apply (backed_bind _ _ _ (fun r l => Ev (ImagePull ctx id cri ref) r ∈ l) (fun r s _ => s = told "" r)); [|intros r|growing..|].
    + by apply backed_call.
    + by apply backed_ret.
    + intros [[]|e] s l H -> [] E; [by exists ctx|done].
Qed.

Lemma backed_pull_refs P id cri refs :
  backed_ok P (pull_refs id cri refs) (fun _ l => forall ref, ref ∈ refs -> pulled id ref cri l).
Proof.
  unfold pull_refs. induction refs as [|ref refs IH]; cbn [each].
  - apply backed_ret. by intros _ _ ref ?%elem_of_nil.
  - apply (backed_try _ _ _ (fun _ l => pulled id ref cri l) (fun _ _ l => forall r, r ∈ refs -> pulled id r cri l));
      [|by intros _|growing..|].
    + apply (backed_bind _ _ _ (fun r l => forall a : unit, r = Ok a -> pulled id ref cri l) (fun r s _ => forall a : unit, s = Ok a -> r = Ok a));
        [apply backed_pull_one|intros [[]|e]; by apply backed_ret; intros []|growing..|].
      intros r s l H1 H2 a Ha. by eapply H1, H2.
    + by intros _ _ l H1 H2 r [->|Hr]%elem_of_cons; [|apply H2].
Qed.

Definition images_pulled (id : string) (images : list string * list string) (l : list UpEvent) : Prop :=
  forall ref, (ref ∈ images.1 -> pulled id ref false l) /\ (ref ∈ images.2 -> pulled id ref true l).

Lemma backed_pullOnto P id images : backed_ok P (pullOnto id images) (fun _ => images_pulled id images).
Proof.
  apply (backed_try _ _ _ (fun _ _ => True) (fun _ _ => images_pulled id images)); [|intros []|growing|unfold images_pulled; growing|by intros ????].
  - apply backed_quiet_ok, quiet_open.
  - apply (backed_try _ _ _ (fun _ l => forall ref, ref ∈ images.1 -> pulled id ref false l)
      (fun _ _ l => forall ref, ref ∈ images.2 -> pulled id ref true l)); [apply backed_pull_refs|intros _; apply backed_pull_refs|growing..|].
    intros _ _ l H1 H2 ref. by split; [apply H1|apply H2].
Qed.

Lemma backed_prepull P ms todo n :
  backed_ok P (prepull ms todo to n) (fun _ l => forall id me, id ∈ todo -> machineByID ms id = Some me -> um_locked me = false ->
    images_pulled id (kubernetesImages to (is_plane me)) l).
Proof.
  assert (Hg : forall id images, grows (images_pulled id images)) by (intros; unfold images_pulled; growing).
  revert n. induction todo as [|id todo IH]; intros n; cbn [prepull].
  - apply backed_ret. by intros ??? me ?%elem_of_nil.
  - destruct (machineByID ms id) as [me|] eqn:Em.
    2: { eapply backed_ok_mono; [apply IH|]. intros a l H i m [->|Hi]%elem_of_cons; [congruence|by apply H]. }
    destruct (um_locked me) eqn:El.
    { eapply backed_ok_mono; [apply IH|]. intros a l H i m [->|Hi]%elem_of_cons; [congruence|by apply H]. }
    apply (backed_bind _ _ _ (fun r l => forall a : unit, r = Ok a -> images_pulled id (kubernetesImages to (is_plane me)) l)
      (fun r s l => forall a, s = Ok a -> r = Ok tt /\ forall i m, i ∈ todo -> machineByID ms i = Some m -> um_locked m = false ->
        images_pulled i (kubernetesImages to (is_plane m)) l)); [apply backed_pullOnto| |growing..|].
    + intros [[]|e]; [|by apply backed_ret]. eapply backed_ok_mono; [apply (IH (n + 1)%Z)|]. intros a l H. by split.
    + intros r s l H1 H2 a Ha i m Hi Hm Hl. destruct (H2 a Ha) as [-> H3]. apply elem_of_cons in Hi as [->|Hi]; [|by apply H3].
      assert (m = me) as -> by congruence. by apply (H1 tt).
Qed.

Lemma prepull_wp j w : safe_here w -> upwp safe_here (Do (prepullStep cluster ids to) j) (fun o u => o.2 = None -> all_pulled u) w.
Proof.
  intros Hs. unfold prepullStep. cbn [Do]. apply wp_bind. eapply wp_post; [by apply backed_call|].
  intros [ms|e] v Hv G; [|by apply wp_ret].
  assert (Hg : forall id images, grows (images_pulled id images)) by (intros; unfold images_pulled; growing).
  follow (backed_prepull move_justified ms ids 0) G. intros [n|e] u Hu G2; (apply wp_ret; [done|]); [|done]. intros _.
  assert (Hgg : grows (fun l => Ev (Machines cluster) (Ok ms) ∈ l /\ forall id me, id ∈ ids -> machineByID ms id = Some me -> um_locked me = false ->
    images_pulled id (kubernetesImages to (is_plane me)) l)) by growing.
  apply gains_mono with (G := fun l => Ev (Machines cluster) (Ok ms) ∈ l /\ forall id me, id ∈ ids -> machineByID ms id = Some me ->
    um_locked me = false -> images_pulled id (kubernetesImages to (is_plane me)) l) in G2; [|intros l [H1 H2]; split; [done|]; by eapply H2].
  destruct (gains_all _ _ _ G2 Hgg) as [H1 H2]. exists ms. split; [done|]. intros id me ref Hi Hm Hl. by apply (H2 id me Hi Hm Hl).
Qed.

(* ------------------------------------------------------------------ *)
(** ** The components *)

Lemma backed_staticPodImage P me component :
  backed P (staticPodImage (um_id me) component) (fun r l => pod_at r (componentImage component to) = true -> pod_seen component me l).
Proof.
  assert (Hb : backed_ok P (staticPodImage (um_id me) component)
    (fun p l => exists ctx pods, Ev (StaticPods ctx (um_id me)) (Ok pods) ∈ l /\ p ∈ pods /\ sp_component p = component)).
  { apply (backed_try _ _ _ (fun _ _ => True) (fun _ p l => exists ctx pods, Ev (StaticPods ctx (um_id me)) (Ok pods) ∈ l /\ p ∈ pods /\ sp_component p = component));
      [apply backed_quiet_ok, quiet_open|intros []|growing..|by intros ????].
    apply (backed_try _ _ _ (fun pods l => exists ctx, Ev (StaticPods ctx (um_id me)) (Ok pods) ∈ l)
      (fun pods p _ => p ∈ pods /\ sp_component p = component)); [by apply backed_asked|intros pods|growing..|].
    - apply backed_pure. intros p l. destruct (list_find _ pods) as [[i q]|] eqn:E; [|done]. intros [= <-].
      apply list_find_Some in E as (Hq & Hc & _). split; [by eapply list_elem_of_lookup_2|done].
    - intros pods p l [ctx H] [H1 H2]. by exists ctx, pods. }
  eapply backed_mono; [exact Hb|]. intros [p|e] l H; cbn [pod_at]; [|done]. intros [Hi Hr]%andb_true_iff.
  apply bool_decide_eq_true in Hi. destruct (H p eq_refl) as (ctx & pods & H1 & H2 & H3). by exists ctx, pods, p.
Qed.

Lemma backed_waitForStaticPod P me component :
  backed_ok P (waitForStaticPod fuel me component (componentImage component to)) (fun _ => pod_seen component me).
Proof.
  apply backed_waiting; [growing|].
  apply (backed_bind _ _ _ (fun r l => pod_at r (componentImage component to) = true -> pod_seen component me l)
    (fun r o _ => forall a : unit, o = Some (Ok a) -> pod_at r (componentImage component to) = true));
    [apply backed_staticPodImage|intros r|growing..|].
  - apply backed_ret. by destruct (pod_at r _).
  - intros r o l H1 H2 a Ha. by eapply H1, H2.
Qed.

Section Component.
Variables (k : nat) (component : string).
Hypotheses (Hk : 1 <= k <= 3) (Hc : ControlPlaneComponents !! (k - 1) = Some component).

Lemma component_stage before turn d : component_deed component before turn d -> stage_deed k before turn d.
Proof. intros H. destruct k as [|[|[|[|k']]]]; [lia| | | |lia]; cbn in *; by exists component. Qed.

Lemma component_done l : component_moved component l -> stage_done k l.
Proof. intros H. destruct k as [|[|[|[|k']]]]; [lia| | | |lia]; cbn in *; intros c E; congruence. Qed.

(** One node, when those before it in the list are on the new image. *)
Lemma move_component_wp ms q me w :
  safe_here w -> (forall i, i < k -> stage_done i w) -> listed ms w -> plane_of ms ids !! q = Some me ->
  (forall q' me', q' < q -> plane_of ms ids !! q' = Some me' -> pod_seen component me' w) ->
  upwp safe_here (move_component document_kinds fuel cluster component to me) (fun r u => r = Ok tt -> pod_seen component me u) w.
Proof.
  intros Hs Hst Hms Hq Hb. unfold move_component. apply wp_bind.
  eapply wp_post; [by apply backed_staticPodImage|]. intros r v Hv G.
  destruct (pod_at r _) eqn:Er.
  { apply wp_ret; [done|]. intros _. apply (gains_mono _ _ _ (pod_seen component me)) in G; [|by intros l H; apply H].
    by apply (gains_all _ _ _ G); growing. }
  apply wp_try. apply (gains_mono _ _ _ (fun _ => True)) in G; [|done].
  eapply wp_post; [apply (backed_from (backed_call move_justified (EvaluateGate cluster (um_id me)) eq_refl) G Hv); growing|].
  intros [vd|e] v2 Hv2 G2; [|done]. destruct (VOK vd) eqn:Evd; cbn [negb]; [|by apply wp_ret].
  apply wp_try. eapply wp_post; [apply (apply_wp (componentChange component to) (um_id me) _ w v2 G2);
    [apply component_at_once; exact (list_elem_of_lookup_2 _ _ _ Hc)|done|growing|]|].
  - intros l d [_ Hgate] Hl Hd. exists k, w, l. split_and!; [done..|]. apply component_stage. exists ms, q, me.
    split_and!; [done..| |done]. by exists vd.
  - intros [[]|e] v3 Hv3 _; [|done]. eapply wp_post; [by apply backed_waitForStaticPod|]. intros r' u Hu G3 ->.
    eapply (gains_all _ _ _ G3); [growing|done].
Qed.

Lemma component_loop_wp ms todo done_ w :
  safe_here w -> (forall i, i < k -> stage_done i w) -> listed ms w -> plane_of ms ids = done_ ++ todo ->
  (forall me, me ∈ done_ -> pod_seen component me w) ->
  upwp safe_here (each (move_component document_kinds fuel cluster component to) todo) (fun r u => r = Ok tt -> component_moved component u) w.
Proof.
  revert done_ w. induction todo as [|me todo IH]; intros done_ w Hs Hst Hms Hpl Hd; cbn [each].
  - apply wp_ret; [done|]. intros _. exists ms. split; [done|]. rewrite Hpl, app_nil_r. exact Hd.
  - apply wp_try. eapply wp_post.
    { apply wp_keep. apply (move_component_wp ms (length done_) me w); [done..| |].
      - rewrite Hpl. by apply list_lookup_middle.
      - intros q' me' Hq'. rewrite Hpl, lookup_app_l by done. intros E. apply Hd. by eapply list_elem_of_lookup_2. }
    intros [[]|e] v Hv [Hm Hsub]; [|done]. apply (IH (done_ ++ [me])); [done| | | |].
    + by eapply stages_grow.
    + by apply Hsub.
    + by rewrite <- (assoc_L (++)).
    + intros m [Hin|Hin]%elem_of_app; [|apply list_elem_of_singleton in Hin as ->; by apply Hm]. eapply grows_pod_seen; [exact Hsub|by apply Hd].
Qed.

Lemma backed_controlPlaneOf P :
  backed_ok P (controlPlaneOf cluster ids) (fun cps l => exists ms, listed ms l /\ cps = plane_of ms ids).
Proof.
  apply (backed_try _ _ _ (fun ms l => listed ms l) (fun ms cps _ => cps = plane_of ms ids)); [|intros ms|growing..|].
  - eapply backed_mono; [by apply backed_call|]. by intros r l H ms ->.
  - apply backed_pure. by intros a l [= ->].
  - intros ms cps l H ->. by exists ms.
Qed.

Lemma component_do_wp j w :
  safe_here w -> (forall i, i < k -> stage_done i w) ->
  upwp safe_here (Do (componentStep document_kinds fuel cluster ids component to) j) (fun o u => o.2 = None -> stage_done k u) w.
Proof.
  intros Hs Hst. unfold componentStep. cbn [Do]. apply wp_bind. eapply wp_post; [apply wp_keep; by apply backed_controlPlaneOf|].
  intros [cps|e] v Hv [G Hsub]; [|by apply wp_ret].
  assert (Hg : grows (fun l => forall a, @Ok step_error _ cps = Ok a -> exists ms, listed ms l /\ a = plane_of ms ids)) by growing.
  destruct (gains_all _ _ _ G Hg _ eq_refl) as (ms & Hms & ->).
  apply wp_bind. eapply wp_post; [apply (component_loop_wp ms (plane_of ms ids) [] v); [done| |done|done|by intros ? ?%elem_of_nil]|].
  - by eapply stages_grow.
  - intros [[]|e] u Hu Hm; (apply wp_ret; [done|]); [|done]. intros _. by apply component_done, Hm.
Qed.

Lemma backed_all_moved P cps :
  backed P (all_moved component (componentImage component to) cps)
    (fun b l => b = true -> forall me, me ∈ cps -> pod_seen component me l).
Proof.
  induction cps as [|me cps IH]; cbn [all_moved].
  - apply backed_ret. by intros _ me ?%elem_of_nil.
  - apply (backed_bind _ _ _ (fun r l => pod_at r (componentImage component to) = true -> pod_seen component me l)
      (fun r b l => b = true -> pod_at r (componentImage component to) = true /\ forall m, m ∈ cps -> pod_seen component m l));
      [apply backed_staticPodImage|intros r|growing..|].
    + destruct (pod_at r _); [|by apply backed_ret]. eapply backed_mono; [exact IH|]. intros b l H Hb. split; [done|by apply H].
    + intros r b l H1 H2 Hb m [->|Hm]%elem_of_cons; [by apply H1, H2|by apply (H2 Hb)].
Qed.

Lemma component_happened_wp h j w :
  Happened (componentStep document_kinds fuel cluster ids component to) = Some h ->
  safe_here w -> upwp safe_here (h j) (fun r u => r = Ok true -> stage_done k u) w.
Proof.
  intros Eh Hs. apply (inj Some) in Eh as <-. apply wp_bind. eapply wp_post; [by apply backed_controlPlaneOf|].
  intros [cps|e] v Hv G; [|by apply wp_ret].
  assert (Hg : grows (fun l => forall a, @Ok step_error _ cps = Ok a -> exists ms, listed ms l /\ a = plane_of ms ids)) by growing.
  destruct (gains_all _ _ _ G Hg _ eq_refl) as (ms & Hms & ->).
  apply wp_bind. eapply wp_post; [apply wp_keep; by apply backed_all_moved|]. intros b u Hu [G2 Hsub]. apply wp_ret; [done|]. intros [= ->].
  apply component_done. exists ms. split; [by apply Hsub|]. intros me Hme.
  assert (Hgr : grows (fun l => true = true -> forall me, me ∈ plane_of ms ids -> pod_seen component me l)) by growing.
  by apply (gains_all _ _ _ G2 Hgr).
Qed.
End Component.

(* ------------------------------------------------------------------ *)
(** ** kube-proxy *)

Lemma proxy_loop_wp ms todo done_ w :
  safe_here w -> (forall i, i < 4 -> stage_done i w) -> listed ms w -> plane_of ms ids = done_ ++ todo ->
  (forall me, me ∈ done_ -> applied (um_id me) w) ->
  upwp safe_here (each (fun me => applyImage document_kinds (um_id me) (proxyChange to)) todo)
    (fun r u => r = Ok tt -> forall me, me ∈ plane_of ms ids -> applied (um_id me) u) w.
Proof.
  revert done_ w. induction todo as [|me todo IH]; intros done_ w Hs Hst Hms Hpl Hd; cbn [each].
  - apply wp_ret; [done|]. intros _. rewrite Hpl, app_nil_r. exact Hd.
  - apply wp_try. eapply wp_post.
    { apply wp_keep. apply (apply_wp (proxyChange to) (um_id me) (fun _ => True) w w);
        [by apply gains_refl|apply proxy_at_once|done|growing|].
      intros l d _ Hl Hd'. exists 4, w, l. split_and!; [done..|]. left. exists ms, me. split_and!; [done| |done].
      rewrite Hpl. apply elem_of_app. right. left. }
    intros [[]|e] v Hv [Hm Hsub]; [|done]. apply (IH (done_ ++ [me])); [done| | | |].
    + by eapply stages_grow.
    + by apply Hsub.
    + by rewrite <- (assoc_L (++)).
    + intros m [Hin|Hin]%elem_of_app; [|apply list_elem_of_singleton in Hin as ->; by apply Hm].
      eapply grows_applied; [exact Hsub|by apply Hd].
Qed.

Lemma proxy_do_wp j w :
  safe_here w -> (forall i, i < 4 -> stage_done i w) ->
  upwp safe_here (Do (kubeProxyStep document_kinds has_proxy cluster ids to) j) (fun o u => o.2 = None -> stage_done 4 u) w.
Proof.
  intros Hs Hst. unfold kubeProxyStep. cbn [Do]. apply wp_bind. eapply wp_post; [apply wp_keep; by apply backed_controlPlaneOf|].
  intros [cps|e] v Hv [G Hsub]; [|by apply wp_ret].
  assert (Hg : grows (fun l => forall a, @Ok step_error _ cps = Ok a -> exists ms, listed ms l /\ a = plane_of ms ids)) by growing.
  destruct (gains_all _ _ _ G Hg _ eq_refl) as (ms & Hms & ->). clear G Hg.
  assert (Hst' : forall i, i < 4 -> stage_done i v) by (by eapply stages_grow).
  apply wp_bind. eapply wp_post; [apply wp_keep, (proxy_loop_wp ms (plane_of ms ids) [] v); [done..|by intros ? ?%elem_of_nil]|].
  intros [[]|e] u Hu [Hm Hsub']; [|by apply wp_ret]. specialize (Hm eq_refl).
  destruct has_proxy eqn:Ep; cbn [negb].
  2: { apply wp_ret; [done|]. intros _. split; [|congruence]. exists ms. split; [by apply Hsub'|done]. }
  apply wp_answer; [done| |].
  - intros d. cbn. intros [= <-]. exists 4, u, []. split_and!; [by rewrite app_nil_r|done|by eapply stages_grow|]. by right.
  - intros r Hr.
    assert (Hout : (exists detail, r = Ok detail) \/ r = Err ErrNoKubeProxy -> stage_done 4 (u ++ [Ev (KubeProxy cluster (proxyImage to)) r])).
    { intros Hcase. split.
      - exists ms. split; [apply elem_of_app; left; by apply Hsub'|]. intros me Hme. apply (grows_app _ _ _ (grows_applied _)). by apply Hm.
      - intros _. destruct Hcase as [[detail ->]| ->]; [left; exists detail|right]; apply elem_of_app; right; left. }
    destruct r as [detail|[|why]]; apply wp_ret; [done| |done| |done|done]; intros _; apply Hout; [left; by eexists|by right].
Qed.

(* ------------------------------------------------------------------ *)
(** ** The kubelets *)

Lemma backed_waitForKubernetes P id :
  backed_ok P (waitForKubernetes fuel id to) (fun _ => kubelet_moved id).
Proof.
  apply backed_waiting; [growing|]. apply backed_connected; [|growing|done].
  apply (backed_bind _ _ _ (fun r l => forall facts, r = Ok facts -> exists ctx, Ev (Facts ctx id) (Ok facts) ∈ l)
    (fun r o _ => forall a, o = Some (Ok a) -> exists facts, r = Ok facts /\ kubernetes_at facts to = true));
    [by apply backed_asked|intros r|growing..|].
  - apply backed_ret. destruct r as [facts|e]; [|done]. destruct (kubernetes_at facts to) eqn:E; [|done]. by exists facts.
  - intros r o l H1 H2 a Ha. destruct (H2 a Ha) as (facts & -> & E). destruct (H1 facts eq_refl) as [ctx H].
    right. by exists ctx, facts.
Qed.

Section Kubelet.
Variables (i : nat) (id : string).
Hypothesis Hi : ids !! i = Some id.

Lemma kubelet_done l : kubelet_moved id l -> stage_done (5 + i) l.
Proof. intros H id' E. cbn in *. congruence. Qed.

Lemma kubelet_do_wp j w :
  safe_here w -> (forall k, k < 5 + i -> stage_done k w) ->
  upwp safe_here (Do (kubernetesNodeStep document_kinds has_record fuel cluster id to) j) (fun o u => o.2 = None -> stage_done (5 + i) u) w.
Proof.
  intros Hs Hst. unfold kubernetesNodeStep. cbn [Do]. apply wp_bind. eapply wp_post; [by apply backed_call|].
  intros [ms|e] v Hv G; [|by apply wp_ret].
  destruct (machineByID ms id) as [me|] eqn:Eme; [|by apply wp_ret]. pose proof (machineByID_id _ _ _ Eme) as Eid.
  destruct (um_locked me) eqn:El.
  { apply wp_ret; [done|]. intros _. apply kubelet_done. left. exists ms, me. split_and!; [|done..]. by apply (gains_all _ _ _ G); growing. }
  follow (backed_gate move_justified cluster me) G. intros [d|e] u Hu G2; [|by apply wp_ret].
  unfold move_kubelet. apply wp_bind.
  eapply wp_post; [apply (apply_wp (kubeletChange to) (um_id me) _ w u G2); [apply kubelet_at_once|done|growing|]|].
  - intros l dd [H1 H2] Hl Hd. rewrite Eid in *. exists (5 + i), w, l. split_and!; [done..|]. exists id. split; [done|].
    exists me. split_and!; [done| | |done].
    + exists ms. rewrite Eid. done.
    + by eapply H2.
  - intros [[]|e] v2 Hv2 _; [|by apply wp_ret]. rewrite Eid. apply wp_bind.
    eapply wp_post; [by apply backed_waitForKubernetes|]. intros [version|e] v3 Hv3 G3; [|by apply wp_ret].
    assert (Hset : stage_done (5 + i) v3).
    { apply kubelet_done. eapply (gains_all _ _ _ G3); [growing|done]. }
    destruct has_record; [|by apply wp_ret].
    apply wp_answer; [done|done|]. intros r Hr. apply wp_ret; [done|]. intros _. by apply grows_app; [apply grows_stage_done|].
Qed.

Lemma kubelet_happened_wp h j w :
  Happened (kubernetesNodeStep document_kinds has_record fuel cluster id to) = Some h ->
  safe_here w -> upwp safe_here (h j) (fun r u => r = Ok true -> stage_done (5 + i) u) w.
Proof.
  intros Eh Hs. apply (inj Some) in Eh as <-. apply wp_bind. eapply wp_post; [by apply backed_call|].
  intros [[]|e] v Hv _; [|by apply wp_ret]. apply wp_bind. eapply wp_post; [by apply (backed_quiet move_justified _ (quiet_class MethodCOSIList))|].
  intros [ctx|e] v1 Hv1 _; [|by apply wp_ret]. apply wp_answer; [done|done|]. intros r Hr. apply wp_ret; [done|].
  intros [= Hb]. destruct r as [facts|e]; [|done]. apply kubelet_done. right. exists ctx, facts. split; [|done].
  apply elem_of_app. right. left.
Qed.
End Kubelet.

(* ------------------------------------------------------------------ *)
(** ** The steps *)

Definition the_steps : list (Step UpCall) :=
  prepullStep cluster ids to ::
  map (fun component => componentStep document_kinds fuel cluster ids component to) ControlPlaneComponents ++
  kubeProxyStep document_kinds has_proxy cluster ids to :: map (fun id => kubernetesNodeStep document_kinds has_record fuel cluster id to) ids.

Lemma the_steps_lookup k s :
  the_steps !! k = Some s ->
  (k = 0 /\ s = prepullStep cluster ids to) \/
  (1 <= k <= 3 /\ exists component, ControlPlaneComponents !! (k - 1) = Some component /\
     s = componentStep document_kinds fuel cluster ids component to) \/
  (k = 4 /\ s = kubeProxyStep document_kinds has_proxy cluster ids to) \/
  (exists i id, k = 5 + i /\ ids !! i = Some id /\ s = kubernetesNodeStep document_kinds has_record fuel cluster id to).
Proof.
  destruct k as [|[|[|[|[|i]]]]].
  - intros E. apply (inj Some) in E as <-. by left.
  - intros E. apply (inj Some) in E as <-. right. left. split; [lia|]. by eexists.
  - intros E. apply (inj Some) in E as <-. right. left. split; [lia|]. by eexists.
  - intros E. apply (inj Some) in E as <-. right. left. split; [lia|]. by eexists.
  - intros E. apply (inj Some) in E as <-. by right; right; left.
  - intros E. change (((fun id => kubernetesNodeStep document_kinds has_record fuel cluster id to) <$> ids) !! i = Some s) in E.
    rewrite list_lookup_fmap in E. apply fmap_Some in E as (id & Hid & ->). right. right. right. by exists i, id.
Qed.

Lemma kube_walk job n cut started w :
  Walk (HD := up_deeds) the_steps job [] n cut started w -> safe_here w /\ forall k, k < n -> stage_done k w.
Proof.
  apply upgrade_walk.
  - apply grows_stage_done.
  - intros k s j v Hk _ Hs Hst.
    destruct (the_steps_lookup k s Hk) as [[-> ->]|[(Hr & component & Hc & ->)|[[-> ->]|(i & id & -> & Hid & ->)]]].
    + by apply prepull_wp.
    + by apply component_do_wp.
    + by apply proxy_do_wp.
    + by apply kubelet_do_wp.
  - intros k s h j v Hk Hh _ Hs Hst.
    destruct (the_steps_lookup k s Hk) as [[-> ->]|[(Hr & component & Hc & ->)|[[-> ->]|(i & id & -> & Hid & ->)]]]; [done| |done|].
    + by apply (component_happened_wp k component Hr Hc).
    + by apply (kubelet_happened_wp i id Hid).
Qed.
End Kube_.

(** C34: The rolling Kubernetes upgrade does nothing to any node before every node that
    is not locked has pulled every image it will need; moves the API server, then
    the controller manager, then the scheduler, then kube-proxy, then the kubelets,
    each only when all before it are where they should be; and within a component
    changes a control-plane node only when the ones before it in the list reported
    its pod ready on the new image. What is sent to a node is its own configuration,
    read just before, with one image changed, to be applied without a reboot; the
    three control-plane components and a control-plane node's kubelet go only past
    the health gate, asked since the last thing the job did, and kube-proxy's move
    asks no gate. All of this whatever is answered, and wherever
    the process died and the job was taken up again. *)
Theorem kubernetes_upgrade_in_order `{HM : !Redact.Machinery} `{HP : !@PlanGuard.Patcher HM}
    document_kinds has_record has_proxy fuel cluster req to steps job n cut started w :
  kubernetesSteps document_kinds has_record has_proxy fuel req cluster = Ok steps -> version_of (rq_to req) = Ok to ->
  Walk (HD := up_deeds) steps job [] n cut started w ->
  (forall k, k < n -> stage_done has_proxy cluster (rq_machines req) to k w) /\
  (forall pre e post d, w = pre ++ e :: post -> up_event_deed e = Some d ->
     move_justified document_kinds has_proxy cluster (rq_machines req) to pre d).
Proof.
  unfold kubernetesSteps. intros Es Ev Hw. rewrite Ev in Es. cbn in Es. case_bool_decide; [done|]. 
  change (@Ok string _ (the_steps document_kinds has_record has_proxy fuel cluster (rq_machines req) to) = Ok steps) in Es.
  assert (steps = the_steps document_kinds has_record has_proxy fuel cluster (rq_machines req) to) as -> by congruence.
  destruct (kube_walk document_kinds has_record has_proxy fuel cluster (rq_machines req) to job n cut started w Hw) as [Hs Hd].
  split; [exact Hd|exact Hs].
Qed.

(* ------------------------------------------------------------------ *)
(** ** A run *)

(** Before anything was moved: the pods of the API server run an older image. *)
Definition before_oracle : oracle := fun R c =>
  match c in UpCall R return R with
  | StaticPods _ _ => Ok [mkStaticPod "kube-apiserver" "registry.k8s.io/kube-apiserver:v1.32.0" true]
  | c => toy_oracle _ c
  end.
(** A gate that lets nobody go. *)
Definition refusing_oracle : oracle := fun R c =>
  match c in UpCall R return R with
  | EvaluateGate _ _ => Ok (mkVerdict false "no" noInput)
  | c => toy_oracle _ c
  end.

Definition kube_request : Request := mkRequest "v1.33.0" ["m1"; "m2"; "m3"] ∅ ∅.
Definition toy_kinds (p : string) : list string := ["KubeletConfig"].
Definition kube_steps : list (Step UpCall) :=
  match kubernetesSteps (HM := ConfigDiff.toy_machinery) (HP := PlanGuard.toy_patcher) toy_kinds true true 3 kube_request "c" with
  | Ok s => s
  | Err _ => []
  end.
Definition kube_run := toy_run (replicate 32 before_oracle ++ replicate 300 toy_oracle) kube_steps (toy_job "" 8).

(** Whose a deed is, with the end of what it sends. *)
Definition deed_text (d : up_deed) : string * string :=
  match d with
  | DApply id config mode => (id, default "" (snd <$> cut_last "/" config))
  | DProxy cluster image => (cluster, default "" (snd <$> cut_last "/" image))
  | _ => ("", "")
  end.
Definition line (s : string) : string := s +:+ newline.

Example kube_deeds : (fun p => (p.1, map deed_text p.2)) <$> deeds_of kube_run =
  Some (8, [("m1", line "kube-apiserver:v1.33.0"); ("m1", line "kube-proxy:v1.33.0"); ("c", "kube-proxy:v1.33.0");
            ("m1", line "kubelet:v1.33.0"); ("m3", line "kubelet:v1.33.0")]).
Proof. vm_compute. reflexivity. Qed.

(** kube-proxy's step asks no gate: where the gate refuses, it still changes the
    control-plane nodes' configuration. *)
Example kube_proxy_asks_no_gate :
  let '(o, _, w) := run (Do (kubeProxyStep (HM := ConfigDiff.toy_machinery) (HP := PlanGuard.toy_patcher) toy_kinds true "c" ["m1"; "m2"; "m3"]
    (mk 1 33 0)) (toy_job "" 1)) (replicate 20 refusing_oracle) [] in
  o = Some (did "moved") /\ map (fun d => (deed_text d).1) (omap up_event_deed w) = ["m1"; "c"].
Proof. vm_compute. split; reflexivity. Qed.

Lemma kubernetes_upgrade_in_order_witness :
  exists w ds, deeds_of kube_run = Some (8, ds) /\ omap up_event_deed w = ds /\
    (forall k, k < 8 -> stage_done true "c" ["m1"; "m2"; "m3"] (mk 1 33 0) k w) /\
    exists pre, pre `prefix_of` w /\
      move_justified (HM := ConfigDiff.toy_machinery) (HP := PlanGuard.toy_patcher) toy_kinds true "c" ["m1"; "m2"; "m3"] (mk 1 33 0) pre
        (DProxy "c" "registry.k8s.io/kube-proxy:v1.33.0").
Proof.
  assert (Hd : exists ds, deeds_of kube_run = Some (8, ds) /\ ds !! 2 = Some (DProxy "c" "registry.k8s.io/kube-proxy:v1.33.0"))
    by (eexists; split; vm_compute; reflexivity).
  destruct Hd as (ds & Hd & Hin).
  assert (Es : kubernetesSteps (HM := ConfigDiff.toy_machinery) (HP := PlanGuard.toy_patcher) toy_kinds true true 3 kube_request "c" = Ok kube_steps)
    by reflexivity.
  assert (Ev : version_of (rq_to kube_request) = Ok (mk 1 33 0)) by (vm_compute; reflexivity).
  destruct (toy_walk _ kube_steps "" 8 8 ds (le_n 8) Hd) as (st & w & Hw & E).
  destruct (kubernetes_upgrade_in_order _ _ _ _ _ _ _ _ _ _ _ _ _ Es Ev Hw) as [H1 H2].
  exists w, ds. split; [exact Hd|]. split; [exact E|]. split; [exact H1|].
  destruct (deed_split w (DProxy "c" "registry.k8s.io/kube-proxy:v1.33.0")) as (pre & e & post & Ew & He).
  { rewrite E. exact (list_elem_of_lookup_2 _ _ _ Hin). }
  exists pre. split; [rewrite Ew; by eexists|]. by eapply H2.
Defined.
