(* ===== verification/UpgradeRemoval.v ===== *)
(** * Upgrades: taking a node out

    What is true of every walk through the steps of [removeNodeSteps], whatever is
    answered, wherever the process died and was taken up again. *)

From S2P Require Import Prelude Jobs Transport Effects NodeActions Gate.
From S2P Require Import UpgradeCalls Etcd UpgradeVerify Upgrade UpgradeWorld.

(* ------------------------------------------------------------------ *)
(** ** Who is left of a membership *)

(** The members that do not go by the node's host name. *)
Definition others (me : machine) (l : list Member) : list Member :=
  List.filter (fun x => negb (equal_fold (em_hostname x) (um_hostname me))) l.

(** What the figures of a membership rest on: the node has a recorded host name
    that is no member's display text, the inventory has one machine per id, and no
    two voters report the same host name. A member that was never removed from
    etcd when its machine was set up anew breaks the last. *)
Record told_apart (ms : list machine) (me : machine) (l : list Member) : Prop := {
  ta_named : um_hostname me <> "";
  ta_display : forall x, x ∈ l -> em_voting x = true -> equal_fold (em_name x) (um_hostname me) = false;
  ta_machines : NoDup (map um_id ms);
  ta_voters : forall i j x y, l !! i = Some x -> l !! j = Some y -> em_voting x = true -> em_voting y = true ->
    em_hostname x <> "" -> equal_fold (em_hostname x) (em_hostname y) = true -> i = j }.

Lemma equal_fold_nonempty a b : a <> "" -> equal_fold b a = true -> b <> "".
Proof. unfold equal_fold. rewrite bool_decide_eq_true. by destruct a, b. Qed.

Lemma equal_fold_trans a b c : equal_fold a b = true -> equal_fold c b = true -> equal_fold a c = true.
Proof. unfold equal_fold. rewrite !bool_decide_eq_true. congruence. Qed.

(** At most one place of a list has [g]: leaving out those that have it is leaving
    out that place. *)
Lemma filter_one {A} (f g : A -> bool) l i x :
  l !! i = Some x -> f x = true -> g x = true -> (forall k y, l !! k = Some y -> f y = true -> g y = true -> k = i) ->
  List.filter f (List.filter (fun a => negb (g a)) l) = List.filter f (delete i l).
Proof.
  revert i. induction l as [|a l IH]; intros i Hi Hf Hg Hone; [done|]. destruct i as [|i]; cbn in *.
  - injection Hi as ->. rewrite Hg. cbn. clear IH. induction l as [|b l IH]; [done|]. cbn.
    destruct (f b) eqn:Eb; [|destruct (g b); cbn; rewrite ?Eb; apply IH; (intros [|k] y Hy Hfy Hgy; [done|by specialize (Hone (S (S k)) y Hy Hfy Hgy)])].
    destruct (g b) eqn:Egb; [by specialize (Hone 1 b eq_refl Eb Egb)|]. cbn. rewrite Eb. f_equal.
    apply IH. intros [|k] y Hy Hfy Hgy; [done|by specialize (Hone (S (S k)) y Hy Hfy Hgy)].
  - assert (Hl : List.filter f (List.filter (fun a => negb (g a)) l) = List.filter f (delete i l)).
    { apply IH; [done..|]. intros k y Hy ? ?. by specialize (Hone (S k) y Hy ltac:(done) ltac:(done)) as [= ->]. }
    destruct (f a) eqn:Ea; [|by destruct (g a); cbn; rewrite ?Ea].
    destruct (g a) eqn:Ega; [by specialize (Hone 0 a eq_refl Ea Ega)|]. cbn. by rewrite Ea, Hl.
Qed.

Lemma filter_nothing_left {A} (f g : A -> bool) l :
  (forall x, x ∈ l -> f x = true -> g x = false) -> List.filter f (List.filter (fun a => negb (g a)) l) = List.filter f l.
Proof.
  induction l as [|a l IH]; intros Hn; [done|]. cbn.
  assert (Hl : List.filter f (List.filter (fun a => negb (g a)) l) = List.filter f l) by (apply IH; intros; apply Hn; [by apply list_elem_of_further|done]).
  destruct (f a) eqn:Ea; [rewrite (Hn a (list_elem_of_here _ _) Ea); cbn; by rewrite Ea, Hl|by destruct (g a); cbn; rewrite ?Ea].
Qed.

Lemma filter_filter {A} (f g : A -> bool) l : List.filter f (List.filter g l) = List.filter (fun a => f a && g a) l.
Proof. induction l as [|a l IH]; [done|]. cbn. destruct (g a) eqn:E; cbn; [|rewrite IH; by destruct (f a)]. rewrite andb_true_r. by rewrite IH. Qed.

Lemma member_machine ms raw l m :
  map (set_silent false) l = map (member_of ms) raw -> m ∈ l -> em_machine m <> "" ->
  exists x, x ∈ ms /\ um_id x = em_machine m /\ um_hostname x <> "" /\ equal_fold (um_hostname x) (em_hostname m) = true.
Proof.
  intros E Hm Hn. assert (Hin : set_silent false m ∈ map (member_of ms) raw) by (rewrite <- E; by apply list_elem_of_fmap_2).
  apply list_elem_of_fmap in Hin as (r & Er & _).
  assert (E1 : em_machine m = em_machine (member_of ms r)) by (by rewrite <- Er). assert (E2 : em_hostname m = em_hostname (member_of ms r)) by (by rewrite <- Er).
  clear Er. rewrite E1 in Hn |- *. rewrite E2. unfold member_of in *. cbn in *.
  destruct (list_find _ ms) as [[i x]|] eqn:Ef; [|done]. apply list_find_Some in Ef as (Hi & [H1 H2] & _).
  exists x. split_and!; [by eapply list_elem_of_lookup_2|done..].
Qed.

Lemma NoDup_filter_map {A B} (p : A -> bool) (f : A -> B) l :
  (forall i j x y, l !! i = Some x -> l !! j = Some y -> p x = true -> p y = true -> f x = f y -> i = j) ->
  NoDup (map f (List.filter p l)).
Proof.
  induction l as [|a l IH]; intros Hd; [constructor|]. cbn.
  assert (Hl : NoDup (map f (List.filter p l))).
  { apply IH. intros i j x y Hi Hj Hx Hy E. by specialize (Hd (S i) (S j) x y Hi Hj Hx Hy E) as [= ->]. }
  destruct (p a) eqn:Ea; [|done]. constructor; [|done]. intros (x & E & Hx)%list_elem_of_fmap.
  apply list_elem_of_In, List.filter_In in Hx as [Hx Hp]. apply list_elem_of_In, list_elem_of_lookup in Hx as [j Hj].
  by specialize (Hd 0 (S j) a x eq_refl Hj Ea Hp E).
Qed.

Section Told.
Variables (ms : list machine) (me : machine) (raw : list EtcdMemberDetail) (ml : MemberList).
Hypotheses (Ht : told_apart ms me (ml_members ml)) (Hme : me ∈ ms) (Hp : probed ml).
Hypothesis Hraw : map (set_silent false) (ml_members ml) = map (member_of ms) raw.
Hypothesis Hasked : forall m, m ∈ ml_members ml -> em_voting m = true -> em_silent m = false -> em_machine m <> "".

Abbreviation its_voter := (fun x => equal_fold (em_hostname x) (um_hostname me)) (only parsing).
Abbreviation loud := (fun m => em_voting m && negb (em_silent m)) (only parsing).

Lemma named_voter x : x ∈ ml_members ml -> em_voting x = true -> isNamed x (nameOf me) = its_voter x.
Proof.
  intros Hx Hv. unfold isNamed, nameOf. rewrite bool_decide_false by apply Ht. cbn [negb].
  rewrite (ta_display _ _ _ Ht x Hx Hv). cbn [orb]. case_bool_decide as Hh; cbn; [|done].
  destruct (equal_fold _ _) eqn:E; [|done]. by apply equal_fold_nonempty in E; [|apply Ht].
Qed.

Lemma machine_by_id x y : x ∈ ms -> y ∈ ms -> um_id x = um_id y -> x = y.
Proof.
  intros [i Hi]%list_elem_of_lookup [j Hj]%list_elem_of_lookup E. assert (i = j) as ->; [|congruence].
  apply (NoDup_lookup (map um_id ms) i j (um_id x) (ta_machines _ _ _ Ht)); rewrite list_lookup_fmap; [by rewrite Hi|by rewrite Hj, E].
Qed.

(** The machines that answered for the voters left, each once. *)
Definition answerers : list string := map em_machine (List.filter loud (others me (ml_members ml))).

Lemma answerer_spec k : k ∈ answerers ->
  k <> um_id me /\ exists x, x ∈ others me (ml_members ml) /\ em_voting x = true /\ em_silent x = false /\ em_machine x = k.
Proof.
  intros (x & -> & Hx)%list_elem_of_fmap. apply list_elem_of_In, List.filter_In in Hx as [Hx Hl]. bools. destruct Hl as [Hv Hs].
  assert (Hq : em_silent x = false) by (by destruct (em_silent x)). clear Hs. rename Hq into Hs. split; [|exists x; split_and!; try done; by apply list_elem_of_In].
  apply List.filter_In in Hx as [Hin Hn]. rewrite negb_true_iff in Hn. apply list_elem_of_In in Hin. intros E.
  destruct (member_machine ms raw _ x Hraw Hin (Hasked x Hin Hv Hs)) as (y & Hy & Ey & _ & Hh).
  assert (y = me) as -> by (apply machine_by_id; congruence). unfold equal_fold in Hn, Hh. rewrite bool_decide_eq_true in Hh.
  rewrite bool_decide_eq_false in Hn. congruence.
Qed.

Lemma answerers_distinct : NoDup answerers.
Proof.
  unfold answerers, others. rewrite filter_filter. apply NoDup_filter_map. intros i j x y Hi Hj Hx Hy E.
  apply andb_true_iff in Hx as [Hx _], Hy as [Hy _]. apply andb_true_iff in Hx as [Hxv Hxs], Hy as [Hyv Hys].
  rewrite negb_true_iff in Hxs, Hys.
  assert (Hxi := list_elem_of_lookup_2 _ _ _ Hi). assert (Hyi := list_elem_of_lookup_2 _ _ _ Hj).
  destruct (member_machine ms raw _ x Hraw Hxi (Hasked x Hxi Hxv Hxs)) as (u & Hu & Eu & Hun & Hux).
  destruct (member_machine ms raw _ y Hraw Hyi (Hasked y Hyi Hyv Hys)) as (v & Hv & Ev' & Hvn & Hvy).
  assert (u = v) as <- by (apply machine_by_id; congruence).
  assert (Hxn : em_hostname x <> "") by (apply (equal_fold_nonempty _ _ Hun); unfold equal_fold in *; rewrite bool_decide_eq_true in Hux |- *; congruence).
  apply (ta_voters _ _ _ Ht i j x y); try done. unfold equal_fold in *. rewrite bool_decide_eq_true in Hux, Hvy |- *. congruence.
Qed.

(** The one voter of the node, or none: the figures of the others. *)
Lemma others_counted :
  (voters (others me (ml_members ml)) = voters (ml_members ml) /\ length answerers = length (List.filter loud (ml_members ml)) /\
   list_find (fun m => em_voting m && isNamed m (nameOf me) = true) (ml_members ml) = None) \/
  exists x, voters (others me (ml_members ml)) = (voters (ml_members ml) - 1)%Z /\
    Z.of_nat (length answerers) = (answering (ml_members ml) - (if em_silent x then 0 else 1))%Z /\
    exists i, list_find (fun m => em_voting m && isNamed m (nameOf me) = true) (ml_members ml) = Some (i, x).
Proof.
  unfold answerers. rewrite length_map. unfold others.
  destruct (list_find _ (ml_members ml)) as [[i x]|] eqn:E.
  - right. exists x. apply list_find_Some in E as (Hi & Hn & _). apply andb_true_iff in Hn as [Hv Hn].
    assert (Hx := list_elem_of_lookup_2 _ _ _ Hi). rewrite named_voter in Hn by done.
    assert (Hne : em_hostname x <> "") by (eapply equal_fold_nonempty; [apply Ht|exact Hn]).
    assert (Hone : forall k y, ml_members ml !! k = Some y -> em_voting y = true -> its_voter y = true -> k = i).
    { intros k y Hk Hyv Hy. symmetry. apply (ta_voters _ _ _ Ht i k x y); try done. unfold equal_fold in *.
      rewrite bool_decide_eq_true in Hn, Hy |- *. congruence. }
    split_and!; [| |by exists i].
    + rewrite <- (voters_delete _ i x) by done. unfold voters. by rewrite (filter_one em_voting its_voter _ i x).
    + rewrite <- (answering_delete _ i x) by done. unfold answering. destruct (em_silent x) eqn:Es.
      * rewrite (filter_nothing_left loud its_voter).
        -- pose proof (filter_delete loud _ i x Hi) as Hd. cbn in Hd. rewrite Hv, Es in Hd. cbn in Hd. lia.
        -- intros y [k Hk]%list_elem_of_lookup [Hyv Hys]%andb_true_iff. apply not_true_is_false. intros Hy.
           assert (k = i) as -> by (by apply (Hone k y)). rewrite Hi in Hk. injection Hk as ->. by rewrite Es in Hys.
      * rewrite (filter_one loud its_voter _ i x); [done|done|by rewrite Hv, Es|done|].
        intros k y Hk [Hyv _]%andb_true_iff Hy. by apply (Hone k y).
  - left. apply list_find_None in E. rewrite Forall_forall in E.
    assert (Hno : forall x, x ∈ ml_members ml -> em_voting x = true -> its_voter x = false).
    { intros x Hx Hv. rewrite <- named_voter by done. apply not_true_is_false. intros Hn. apply (E x Hx). by rewrite Hv, Hn. }
    split_and!; [| |done].
    + unfold voters. by rewrite (filter_nothing_left em_voting its_voter).
    + rewrite (filter_nothing_left loud its_voter); [done|]. intros x Hx [Hv _]%andb_true_iff. auto.
Qed.

(** A membership that passes the check keeps its quorum without the node: two
    voters at least, and more of the machines that answered for them than half of
    them, each counted once. *)
Lemma spared_by_others :
  RefuseIfCannotSpareAVoter ml (nameOf me) = None ->
  (2 <= voters (others me (ml_members ml)))%Z /\ (voters (others me (ml_members ml)) < 2 * Z.of_nat (length answerers))%Z.
Proof.
  intros Hr. destruct Hp as [Hk [Hv Hto Ha]]. specialize (Ha Hk). unfold RefuseIfCannotSpareAVoter in Hr. rewrite Hk, Hv, Hto in Hr.
  unfold standingAfterRemoving in Hr. rewrite Ha in Hr. unfold tolerated in Hr.
  destruct others_counted as [(E1 & E2 & E3)|(x & E1 & E2 & i & E3)]; rewrite E1, E3 in *; rewrite ?E2.
  - change (Z.of_nat (length (List.filter loud (ml_members ml)))) with (answering (ml_members ml)).
    repeat (case_bool_decide; try done); Z.div_mod_to_equations; lia.
  - destruct (em_silent x); repeat (case_bool_decide; try done); Z.div_mod_to_equations; lia.
Qed.


End Told.

Section Removal_.
Variables (has_forget : bool) (eviction_wait : duration) (job : Jobs.Job).
Abbreviation id := (Jobs.Machine job) (only parsing).
Abbreviation cluster := (Jobs.Cluster job) (only parsing).

(* ------------------------------------------------------------------ *)
(** ** What the steps leave *)

(** The node was told to leave etcd, and said it did. *)
Definition left_etcd (l : list UpEvent) : Prop := exists ctx, Ev (EtcdLeave ctx id) (Ok tt) ∈ l.

(** A membership was read that does not have the node. *)
Definition unlisted (l : list UpEvent) : Prop :=
  exists ms me ctx via raw, Ev (Machines cluster) (Ok ms) ∈ l /\ machineByID ms id = Some me /\
    Ev (MemberListOf ctx via) (Ok raw) ∈ l /\ memberOf (members_list raw ms) me = Some false.

Definition out_of_etcd (l : list UpEvent) : Prop := left_etcd l \/ unlisted l.

(** The wait was slept through, or the clock was past it since the step began. *)
Definition waited (l : list UpEvent) : Prop :=
  Ev (SleepFor (removal_wait eviction_wait)) false ∈ l \/
  exists j now, same_job job j /\ Ev (ToNode Now) now ∈ l /\ (removal_wait eviction_wait <= time_sub now (started_at j (Current j)))%Z.

Definition wiped (l : list UpEvent) : Prop := exists ctx, Ev (ToNode (ResetNode ctx id wipe_options)) (Ok tt) ∈ l.

Definition forgotten (l : list UpEvent) : Prop :=
  Ev (Forget id) (Ok tt) ∈ l \/ exists ms, Ev (Machines cluster) (Ok ms) ∈ l /\ machineByID ms id = None.

(** What the step at a place of the job has left once it is passed. *)
Definition removal_done (plane : bool) (k : nat) (l : list UpEvent) : Prop :=
  match plane, k with
  | true, 1 => out_of_etcd l
  | true, 2 => waited l
  | true, 3 | false, 1 => wiped l
  | true, 4 | false, 2 => forgotten l
  | _, _ => True
  end.

Lemma grows_out_of_etcd : grows out_of_etcd.
Proof. change (grows (fun l => out_of_etcd l)). unfold out_of_etcd, left_etcd, unlisted. growing. Qed.
Lemma grows_unlisted : grows unlisted.
Proof. change (grows (fun l => unlisted l)). unfold unlisted. growing. Qed.
Lemma grows_waited : grows waited.
Proof. change (grows (fun l => waited l)). unfold waited. growing. Qed.
Lemma grows_wiped : grows wiped.
Proof. change (grows (fun l => wiped l)). unfold wiped. growing. Qed.
Lemma grows_forgotten : grows forgotten.
Proof. change (grows (fun l => forgotten l)). unfold forgotten. growing. Qed.
#[local] Hint Resolve grows_out_of_etcd grows_waited grows_wiped grows_forgotten : grow.
Lemma grows_removal_done plane k : grows (removal_done plane k).
Proof.
  change (grows (fun l => removal_done plane k l)).
  destruct plane, k as [|[|[|[|[|k]]]]]; cbn [removal_done]; first [apply grows_pure|by eauto with grow].
Qed.

(* ------------------------------------------------------------------ *)
(** ** What justifies a deed *)

Definition answers (m : Member) (l : list UpEvent) : Prop :=
  em_machine m <> "" /\ exists ctx, Ev (EtcdStatusOf ctx (em_machine m)) (Ok tt) ∈ l.

(** A membership was read of which every voter not silent answered. *)
Definition membership (ms : list machine) (ml : MemberList) (l : list UpEvent) : Prop :=
  probed ml /\ exists ctx via raw, Ev (MemberListOf ctx via) (Ok raw) ∈ l /\
    map (set_silent false) (ml_members ml) = map (member_of ms) raw /\
    forall m, m ∈ ml_members ml -> em_voting m = true -> em_silent m = false -> answers m l.

(** The cluster's etcd keeps a quorum without the node: where members and machines
    can be told apart, two voters at least are left, and of machines other than the
    node itself, each counted once, more answered for them than half of them. *)
Definition can_spare (l : list UpEvent) : Prop :=
  exists ms me ml, Ev (Machines cluster) (Ok ms) ∈ l /\ machineByID ms id = Some me /\ membership ms ml l /\
    (told_apart ms me (ml_members ml) ->
     (2 <= voters (others me (ml_members ml)))%Z /\
     exists up, NoDup up /\ (voters (others me (ml_members ml)) < 2 * Z.of_nat (length up))%Z /\
       forall k, k ∈ up -> k <> id /\ (exists x, x ∈ others me (ml_members ml) /\ em_voting x = true /\ em_machine x = k) /\
         exists ctx, Ev (EtcdStatusOf ctx k) (Ok tt) ∈ l).

(** What the step at a place of the job may do, with what it has gathered. *)
Definition removal_deed (plane : bool) (k : nat) (turn : list UpEvent) (d : up_deed) : Prop :=
  match plane, k with
  | true, 1 => d = DLeave id /\ can_spare turn
  | true, 3 | false, 1 => d = DReset id wipe_options
  | true, 4 | false, 2 => d = DForget id
  | _, _ => False
  end.

Definition removal_justified (plane : bool) (pre : list UpEvent) (d : up_deed) : Prop :=
  exists k before turn, pre = before ++ turn /\ omap up_event_deed turn = [] /\
    (forall i, i < k -> removal_done plane i before) /\ removal_deed plane k turn d.

Variable plane : bool.
Abbreviation safe_here := (safe (removal_justified plane)) (only parsing).
Abbreviation J := (removal_justified plane) (only parsing).

(* ------------------------------------------------------------------ *)
(** ** Reading the membership *)

Lemma grows_answers m : grows (answers m).
Proof. change (grows (fun l => answers m l)). unfold answers. growing. Qed.
#[local] Hint Resolve grows_answers : grow.

Lemma backed_thisMachine P j :
  same_job job j ->
  backed_ok P (thisMachine j) (fun mm l => Ev (Machines cluster) (Ok mm.2) ∈ l /\ machineByID mm.2 id = Some mm.1).
Proof.
  intros [Ec Em]. unfold thisMachine. rewrite Ec, Em.
  apply (backed_try _ _ _ (fun ms l => Ev (Machines cluster) (Ok ms) ∈ l) (fun ms mm _ => machineByID ms id = Some mm.1 /\ mm.2 = ms));
    [|intros ms|growing..|].
  - eapply backed_mono; [by apply backed_call|]. by intros r l H ms ->.
  - apply backed_pure. intros mm l. destruct (machineByID ms id) as [m|]; [|done]. by intros [= <-].
  - by intros ms mm l H [H1 ->].
Qed.

Definition read_members (ms : list machine) (ml : MemberList) (l : list UpEvent) : Prop :=
  exists ctx via raw, Ev (MemberListOf ctx via) (Ok raw) ∈ l /\ ml = members_list raw ms.

Lemma grows_read_members ms ml : grows (read_members ms ml).
Proof. unfold read_members. growing. Qed.
#[local] Hint Resolve grows_read_members : grow.

Lemma backed_membersVia P m ms : backed_ok P (membersVia m ms) (fun ml => read_members ms ml).
Proof.
  apply (backed_try _ _ _ (fun _ _ => True) (fun _ ml => read_members ms ml)); [apply backed_quiet_ok, quiet_open|intros []|growing..|by intros ????].
  apply (backed_try _ _ _ (fun raw l => exists ctx, Ev (MemberListOf ctx (um_id m)) (Ok raw) ∈ l) (fun raw ml _ => ml = members_list raw ms));
    [by apply backed_asked|intros raw; apply backed_pure; by intros a l [= <-]|growing..|].
  intros raw ml l [ctx H] ->. by exists ctx, (um_id m), raw.
Qed.

Lemma backed_readMembership P self ms : backed_ok P (readMembership self ms) (fun ml => read_members ms ml).
Proof.
  unfold readMembership. generalize (say ""). induction (membership_order self ms) as [|m order IH]; intros e; cbn [first_membership].
  - by apply backed_ret.
  - apply (backed_bind _ _ _ (fun r l => forall ml, r = Ok ml -> read_members ms ml l)
      (fun r s l => match r with Ok ml => s = Ok ml | Err _ => forall ml, s = Ok ml -> read_members ms ml l end));
      [apply backed_membersVia|intros [ml|e']|growing| |].
    + by apply backed_ret.
    + apply IH.
    + intros [ml|e'] s; growing.
    + intros [ml|e'] s l H1 H2 ml' E; [|by apply H2]. apply H1. congruence.
Qed.

(** The membership once every voter was asked. *)
Lemma backed_probeStatus P mid : backed P (probeStatus mid) (fun b l => b = true -> exists ctx, Ev (EtcdStatusOf ctx mid) (Ok tt) ∈ l).
Proof.
  unfold probeStatus. apply (backed_bind _ _ _ (fun _ _ => True) (fun _ b l => b = true -> exists ctx, Ev (EtcdStatusOf ctx mid) (Ok tt) ∈ l));
    [by apply backed_quiet, quiet_call|intros [[]|e]|growing..|by intros ????].
  - apply (backed_bind _ _ _ (fun r l => forall u, r = Ok u -> exists ctx, Ev (EtcdStatusOf ctx mid) (Ok u) ∈ l) (fun r b _ => b = true -> r = Ok tt));
      [by apply backed_asked|intros r|growing..|].
    + apply backed_ret. by destruct r as [[]|].
    + intros r b l H1 H2 Hb. by apply H1, H2.
  - by apply backed_ret.
Qed.

Definition same_members (ms ms' : list Member) (l : list UpEvent) : Prop :=
  map (set_silent false) ms' = map (set_silent false) ms /\
  forall m, m ∈ ms' -> em_voting m = true -> em_silent m = false -> answers m l.

Lemma grows_same_members ms ms' : grows (same_members ms ms').
Proof. unfold same_members. growing. Qed.
#[local] Hint Resolve grows_same_members : grow.

Lemma backed_probe_voters P ms : backed P (probe_voters ms) (fun out => same_members ms out).
Proof.
  induction ms as [|m ms IH]; cbn [probe_voters].
  { apply backed_ret. split; [done|]. by intros m ?%elem_of_nil. }
  assert (Hcons : forall m' out l, set_silent false m' = set_silent false m ->
    (em_voting m' = true -> em_silent m' = false -> answers m' l) -> same_members ms out l -> same_members (m :: ms) (m' :: out) l).
  { intros m' out l E Ha [H1 H2]. split; [cbn; by rewrite E, H1|]. intros x [->|Hx]%elem_of_cons; [done|by apply H2]. }
  destruct (em_voting m) eqn:Evm; cbn [negb].
  - case_bool_decide as Em.
    + eapply (backed_bind _ _ _ (fun out => same_members ms out) (fun out r _ => r = set_silent true m :: out));
        [exact IH|intros out; by apply backed_ret|growing..|]. intros out r l H ->. by apply Hcons.
    + eapply (backed_bind _ _ _ (fun b l => b = true -> exists ctx, Ev (EtcdStatusOf ctx (em_machine m)) (Ok tt) ∈ l)
        (fun b r l => exists out, r = set_silent (negb b) m :: out /\ same_members ms out l)); [apply backed_probeStatus|intros b|growing..|].
      * eapply (backed_bind _ _ _ (fun out => same_members ms out) (fun out r _ => r = set_silent (negb b) m :: out));
          [exact IH|intros out; by apply backed_ret|growing..|]. intros out r l H ->. by exists out.
      * intros b r l H1 (out & -> & H2). apply Hcons; [done| |done]. cbn. intros _ Hb. split; [exact Em|]. apply H1. by destruct b.
  - eapply (backed_bind _ _ _ (fun out => same_members ms out) (fun out r _ => r = m :: out));
      [exact IH|intros out; by apply backed_ret|growing..|]. intros out r l H ->. apply Hcons; [done| |done]. by rewrite Evm.
Qed.

Lemma member_of_loud ms raw : map (set_silent false) (map (member_of ms) raw) = map (member_of ms) raw.
Proof. by induction raw as [|m raw IH]; cbn; [|rewrite IH]. Qed.

(** A membership that was read, probed. *)
Definition probed_from (ml ml' : MemberList) (l : list UpEvent) : Prop :=
  map (set_silent false) (ml_members ml') = ml_members ml /\
  forall m, m ∈ ml_members ml' -> em_voting m = true -> em_silent m = false -> answers m l.

Lemma grows_probed_from ml ml' : grows (probed_from ml ml').
Proof. unfold probed_from. growing. Qed.
#[local] Hint Resolve grows_probed_from : grow.

Lemma backed_ProbeVoters P ms raw :
  backed P (ProbeVoters (members_list raw ms)) (fun ml' l => probed ml' /\ probed_from (members_list raw ms) ml' l).
Proof.
  intros w Hs.
  assert (Hb : backed P (ProbeVoters (members_list raw ms)) (fun ml' l => probed_from (members_list raw ms) ml' l)).
  { unfold ProbeVoters. eapply (backed_bind _ _ _ (fun out => same_members (map (member_of ms) raw) out)
      (fun out ml _ => ml_members ml = out)); [apply backed_probe_voters|intros out; by apply backed_ret|growing..|].
    intros out ml l [H1 H2] E. unfold probed_from. rewrite E. cbn [ml_members members_list]. by rewrite H1, member_of_loud. }
  eapply wp_post; [apply (wp_and_returns _ _ _ _ _ (Hb w Hs) (ProbeVoters_probed raw ms))|].
  intros ml v _ [Hg' Hp]. eapply gains_mono; [exact Hg'|]. by intros l Hl.
Qed.

Lemma backed_checkRemovable P me ms :
  backed_ok P (checkRemovable me ms) (fun b l => match b with
    | true => exists ml, membership ms ml l /\ RefuseIfCannotSpareAVoter ml (nameOf me) = None
    | false => exists ml, read_members ms ml l /\ memberOf ml me = Some false
    end).
Proof.
  unfold checkRemovable.
  apply (backed_bind_known _ _ _ (fun r l => forall ml, r = Ok ml -> read_members ms ml l)
    (fun r s l => forall b, s = Ok b -> exists ml, r = Ok ml /\ match b with
       | true => exists ml', RefuseIfCannotSpareAVoter ml' (nameOf me) = None /\ probed ml' /\ probed_from ml ml' l
       | false => memberOf ml me = Some false end)); [apply backed_readMembership|intros [ml|e] l0 H0|growing| |].
  - destruct (H0 ml eq_refl) as (_ & _ & raw & _ & ->). case_bool_decide as Em; [apply backed_pure; intros b l [= <-]; by eexists|].
    apply (backed_bind _ _ _ (fun ml' l => probed ml' /\ probed_from (members_list raw ms) ml' l)
      (fun ml' s _ => forall b, s = Ok b -> b = true /\ RefuseIfCannotSpareAVoter ml' (nameOf me) = None));
      [apply backed_ProbeVoters|intros ml'; apply backed_pure|growing..|].
    + intros b l. destruct (RefuseIfCannotSpareAVoter ml' (nameOf me)); [done|]. by intros [= <-].
    + intros ml' s l [H1 H2] H3 b Hb. destruct (H3 b Hb) as [-> Hr]. eexists. split; [done|]. by exists ml'.
  - by apply backed_ret.
  - intros r s l l' Hl H b Hb. destruct (H b Hb) as (ml & -> & Hm). exists ml. split; [done|]. destruct b; [|done].
    destruct Hm as (ml' & Hr & Hp & Hf). exists ml'. split_and!; [done..|]. by eapply grows_probed_from.
  - intros r s l H1 H2 b Hb. destruct (H2 b Hb) as (ml & -> & Hm). specialize (H1 ml eq_refl). destruct b; [|by exists ml].
    destruct Hm as (ml' & Hr & Hp & Hf & Ha), H1 as (ctx & via & raw & Hev & ->). exists ml'. split; [|done]. split; [done|].
    exists ctx, via, raw. by split_and!.
Qed.

(* ------------------------------------------------------------------ *)
(** ** The steps *)

Lemma spare_of_membership ms me ml l :
  Ev (Machines cluster) (Ok ms) ∈ l -> machineByID ms id = Some me -> membership ms ml l ->
  RefuseIfCannotSpareAVoter ml (nameOf me) = None -> can_spare l.
Proof.
  intros H1 H2 H3 Hr. exists ms, me, ml. split_and!; [done..|]. intros Ht. destruct H3 as (Hp & ctx & via & raw & _ & Hraw & Hans).
  assert (Hme : me ∈ ms /\ um_id me = id).
  { unfold machineByID in H2. destruct (list_find _ ms) as [[i x]|] eqn:E; [|done]. injection H2 as ->.
    apply list_find_Some in E as (Hi & E & _). split; [by eapply list_elem_of_lookup_2|done]. }
  destruct Hme as [Hme Eid].
  assert (Hasked : forall m, m ∈ ml_members ml -> em_voting m = true -> em_silent m = false -> em_machine m <> "") by (intros; by apply Hans).
  destruct (spared_by_others ms me ml Ht Hp Hr) as [Hv Hm]. split; [exact Hv|].
  exists (answerers me ml). split; [by eapply answerers_distinct|]. split; [exact Hm|]. intros k Hk.
  destruct (answerer_spec ms me raw ml Ht Hme Hraw Hasked k Hk) as (Hne & x & Hx & Hxv & Hxs & <-). rewrite Eid in Hne. split; [done|].
  split; [by exists x|]. apply list_elem_of_In, List.filter_In in Hx as [Hx _]. apply list_elem_of_In in Hx. by apply Hans.
Qed.

Lemma grows_membership ms ml : grows (membership ms ml).
Proof. unfold membership. growing. Qed.
Lemma grows_spare : grows can_spare.
Proof.
  intros l l' Hl (ms & me & ml & H1 & H2 & H3 & H4). exists ms, me, ml. split_and!; [by apply Hl|done|by eapply grows_membership|].
  intros Ht. destruct (H4 Ht) as (Hv & up & Hn & Hm & Hup). split; [done|]. exists up. split_and!; [done..|].
  intros k Hk. destruct (Hup k Hk) as (Hne & Hx & ctx & Hc). split_and!; [done..|]. exists ctx. by apply Hl.
Qed.

(** The first two calls of the leaving step and of its question. *)
Definition of_inventory (mm : machine * list machine) (l : list UpEvent) : Prop :=
  Ev (Machines cluster) (Ok mm.2) ∈ l /\ machineByID mm.2 id = Some mm.1.

Lemma grows_of_inventory mm : grows (of_inventory mm).
Proof. unfold of_inventory. growing. Qed.
#[local] Hint Resolve grows_of_inventory grows_membership grows_spare : grow.

Section Leave.
Hypothesis Hplane : plane = true.

Lemma unlisted_of ml mm l : of_inventory mm l -> read_members mm.2 ml l -> memberOf ml mm.1 = Some false -> unlisted l.
Proof.
  intros [H1 H2] (ctx & via & raw & H3 & ->) H4. by exists mm.2, mm.1, ctx, via, raw.
Qed.

Lemma leave_wp me w v :
  um_id me = id -> (forall i, i < 1 -> removal_done plane i w) -> safe_here v -> gains w v can_spare ->
  upwp safe_here (leave me) (fun o u => o.2 = None -> left_etcd u) v.
Proof.
  intros E Hw Hs G. unfold leave. rewrite E.
  follow (backed_quiet J _ (quiet_open id)) G. intros [[]|e] v1 Hs1 G1; [|by apply wp_ret].
  follow (backed_quiet J _ (quiet_class MethodEtcdLeaveCluster)) G1. intros [ctx|e] v2 Hs2 G2; [|by apply wp_ret].
  apply wp_answer; [done| |].
  - intros d. cbn. intros [= <-]. destruct G2 as (l & -> & Hl & ((HF & _) & _)).
    exists 1, w, l. rewrite Hplane in *. by split_and!.
  - intros r Hr. apply wp_ret; [done|]. destruct r as [[]|e]; cbn; [|done]. intros _. exists ctx. apply elem_of_app. right. left.
Qed.

Lemma leave_do_wp j w :
  same_job job j -> safe_here w -> (forall i, i < 1 -> removal_done plane i w) ->
  upwp safe_here (Do leaveEtcdStep j) (fun o u => o.2 = None -> out_of_etcd u) w.
Proof.
  intros Hj Hs Hw. unfold leaveEtcdStep. cbn [Do]. apply wp_bind. eapply wp_post; [by apply (backed_thisMachine J j Hj)|].
  intros [[me ms]|e] v Hv G; [|by apply wp_ret].
  apply (gains_mono _ _ _ (of_inventory (me, ms))) in G; [|intros l H; by apply H].
  follow (backed_checkRemovable J me ms) G. intros [[|]|e] u Hu G2; [| |by apply wp_ret].
  - eapply wp_post; [apply (leave_wp me w u)|].
    + destruct G2 as (l & _ & _ & [_ H2] & _). by eapply machineByID_id.
    + done.
    + done.
    + eapply gains_mono; [exact G2|]. intros l [[H1 H2] H3]. destruct (H3 _ eq_refl) as (ml & Hm & Hr). by eapply spare_of_membership.
    + intros o u' _ H Ho. left. by apply H.
  - apply wp_ret; [done|]. intros _. right.
    apply (gains_mono _ _ _ unlisted) in G2.
    + apply (gains_all _ _ _ G2 grows_unlisted).
    + intros l [H1 H2]. destruct (H2 _ eq_refl) as (ml & Hm & Ho). by eapply (unlisted_of ml (me, ms)).
Qed.

Lemma leave_happened_wp h j w :
  Happened leaveEtcdStep = Some h -> same_job job j -> safe_here w ->
  upwp safe_here (h j) (fun r u => r = Ok true -> out_of_etcd u) w.
Proof.
  intros Eh Hj Hs. apply (inj Some) in Eh as <-. apply wp_try. eapply wp_post; [by apply (backed_thisMachine J j Hj)|].
  intros [[me ms]|e] v Hv G; [|done]. cbn [fst snd].
  apply (gains_mono _ _ _ (of_inventory (me, ms))) in G; [|intros l H; by apply H].
  follow (backed_readMembership J me ms) G. intros [ml|e] u Hu G2; (apply wp_ret; [done|]); [|done].
  destruct (memberOf ml me) as [[|]|] eqn:Em; try done. intros _. right.
  apply (gains_mono _ _ _ unlisted) in G2.
  - apply (gains_all _ _ _ G2 grows_unlisted).
  - intros l [H1 H2]. by eapply (unlisted_of ml (me, ms)); [|apply H2|].
Qed.
End Leave.

Lemma settle_do_wp j w : safe_here w -> upwp safe_here (Do (settleStep eviction_wait) j) (fun o u => o.2 = None -> waited u) w.
Proof.
  intros Hs. apply wp_answer; [done|done|]. intros [|] Hr.
  - apply wp_answer; [done|done|]. intros e Hr2. by apply wp_ret.
  - apply wp_ret; [done|]. intros _. left. apply elem_of_app. right. left.
Qed.

Lemma settle_happened_wp h j w :
  Happened (settleStep eviction_wait) = Some h -> same_job job j -> safe_here w ->
  upwp safe_here (h j) (fun r u => r = Ok true -> waited u) w.
Proof.
  intros Eh Hj Hs. apply (inj Some) in Eh as <-. cbv zeta. case_bool_decide; [by apply wp_ret|].
  apply wp_answer; [done|done|]. intros t Hr. apply wp_ret; [done|]. intros [= Hb%bool_decide_eq_true]. right. exists j, t.
  split; [exact Hj|]. split; [apply elem_of_app; right; left|exact Hb].
Qed.

Lemma wipe_do_wp k j w :
  (forall turn, removal_deed plane k turn (DReset id wipe_options)) ->
  safe_here w -> (forall i, i < k -> removal_done plane i w) ->
  upwp safe_here (Do (wipeStep job) j) (fun o u => o.2 = None -> wiped u) w.
Proof.
  intros Hk Hs Hw. unfold wipeStep. cbn [Do].
  pose proof (gains_refl w (fun _ => True) I) as G.
  follow (backed_quiet J _ (quiet_open id)) G. intros [[]|e] v1 Hs1 G1; [|by apply wp_ret].
  follow (backed_quiet J _ (quiet_class MethodReset)) G1. intros [ctx|e] v2 Hs2 G2; [|by apply wp_ret].
  apply wp_answer; [done| |].
  - intros d. cbn. intros [= <-]. destruct G2 as (l & -> & Hl & _). exists k, w, l. split_and!; [done..|]. by apply Hk.
  - intros r Hr. apply wp_ret; [done|]. destruct r as [[]|e]; [|done]. intros _. exists ctx. apply elem_of_app. right. left.
Qed.

Lemma forget_do_wp k j w :
  (forall turn, removal_deed plane k turn (DForget id)) ->
  safe_here w -> (forall i, i < k -> removal_done plane i w) ->
  upwp safe_here (Do (forgetStep has_forget job) j) (fun o u => o.2 = None -> forgotten u) w.
Proof.
  intros Hk Hs Hw. unfold forgetStep. cbn [Do]. destruct has_forget; cbn [negb]; [|by apply wp_ret].
  apply wp_answer; [done| |].
  - intros d. cbn. intros [= <-]. exists k, w, []. split_and!; [by rewrite app_nil_r|done..|]. apply (Hk []).
  - intros r Hr. apply wp_ret; [done|]. destruct r as [[]|e]; [|done]. intros _. left. apply elem_of_app. right. left.
Qed.

Lemma forget_happened_wp h j w :
  Happened (forgetStep has_forget job) = Some h -> same_job job j -> safe_here w ->
  upwp safe_here (h j) (fun r u => r = Ok true -> forgotten u) w.
Proof.
  intros Eh [Ec _] Hs. apply (inj Some) in Eh as <-. rewrite Ec. apply wp_try. eapply wp_post; [by apply backed_call|].
  intros [ms|e] v Hv G; [|done]. apply wp_ret; [done|]. intros [= Hb]. right. exists ms. split.
  - eapply (gains_all _ _ _ G). growing.
  - apply negb_true_iff, bool_decide_eq_false in Hb. by apply eq_None_not_Some.
Qed.

Lemma quiet_reachable j : quiet (Do (lift_up (ReachableStep id)) j).
Proof. repeat (split; [done|]; intros []; try done). Qed.

(** The steps, by the role the job was submitted with. *)
Definition removal_steps : list (Step UpCall) :=
  lift_up (ReachableStep id) ::
  (if plane then [leaveEtcdStep; settleStep eviction_wait] else []) ++ [wipeStep job; forgetStep has_forget job].

End Removal_.

Lemma removal_walk has_forget eviction_wait job plane n cut started w :
  Walk (HD := up_deeds) (removal_steps has_forget eviction_wait job plane) job [] n cut started w ->
  safe (removal_justified eviction_wait job plane) w /\ forall k, k < n -> removal_done eviction_wait job plane k w.
Proof.
  apply upgrade_walk; [apply grows_removal_done| |].
  - intros k s j v Hk Hj Hs Hw. unfold removal_steps in Hk.
    destruct k as [|k].
    { apply (inj Some) in Hk as <-. eapply wp_post; [apply wp_quiet; [apply quiet_reachable|done]|]. by intros; destruct plane. }
    destruct plane; cbn [app] in Hk.
    + repeat (destruct k as [|k]; [apply (inj Some) in Hk as <-|]); try discriminate Hk.
      * by apply leave_do_wp.
      * by apply settle_do_wp.
      * by apply (wipe_do_wp _ _ true 3).
      * by apply (forget_do_wp _ _ _ true 4).
    + repeat (destruct k as [|k]; [apply (inj Some) in Hk as <-|]); try discriminate Hk.
      * by apply (wipe_do_wp _ _ false 1).
      * by apply (forget_do_wp _ _ _ false 2).
  - intros k s h j v Hk Hh Hj Hs Hw. unfold removal_steps in Hk.
    destruct k as [|k].
    { apply (inj Some) in Hk as <-. apply (inj Some) in Hh as <-. by apply wp_ret. }
    destruct plane; cbn [app] in Hk.
    + repeat (destruct k as [|k]; [apply (inj Some) in Hk as <-|]); try discriminate Hk.
      * by apply leave_happened_wp.
      * by apply settle_happened_wp.
      * discriminate Hh.
      * by eapply forget_happened_wp.
    + repeat (destruct k as [|k]; [apply (inj Some) in Hk as <-|]); try discriminate Hk.
      * discriminate Hh.
      * by eapply forget_happened_wp.
Qed.

(** C35: The removal of a node changes that node only, and in its order. A control-plane
    node is told to leave etcd only when, since the job did anything, a membership
    was read and every voter asked, and, where the members can be told apart (the
    node has a recorded host name, no two voters report one host name, no two
    machines have one id), at least two voters are left without it and more than
    half as many other machines answered for them; its disk is wiped only once it
    left, or a membership without it was read, and the settling time was waited; it
    is forgotten only once the wipe was accepted. A worker is wiped and forgotten,
    and its etcd left alone. All of this whatever is answered, and wherever the
    process died and the job was taken up again. *)
Theorem removal_keeps_quorum has_forget eviction_wait job steps n cut started w :
  removeNodeSteps has_forget eviction_wait job = Ok steps ->
  Walk (HD := up_deeds) steps job [] n cut started w ->
  exists plane, plane = bool_decide (Params job !! "role" = Some RoleControlPlane) /\
    (forall k, k < n -> removal_done eviction_wait job plane k w) /\
    (forall pre e post d, w = pre ++ e :: post -> up_event_deed e = Some d -> removal_justified eviction_wait job plane pre d).
Proof.
  unfold removeNodeSteps. intros Es Hw. case_bool_decide; [done|].
  destruct (Params job !! "role") as [role|] eqn:Er; [|done]. cbn [default] in Es.
  destruct (negb _ && negb _); [done|]. eexists. split; [reflexivity|].
  assert (steps = removal_steps has_forget eviction_wait job (bool_decide (Some role = Some RoleControlPlane))) as ->.
  { rewrite (bool_decide_ext (Some role = Some RoleControlPlane) (role = RoleControlPlane)) by naive_solver.
    change (@Ok string _ (removal_steps has_forget eviction_wait job (bool_decide (role = RoleControlPlane))) = Ok steps) in Es. congruence. }
  destruct (removal_walk _ _ _ _ _ _ _ _ Hw) as [Hs Hd]. split; [exact Hd|exact Hs].
Qed.

(* ------------------------------------------------------------------ *)
(** ** A run *)

Definition removed_steps : list (Step UpCall) := match removeNodeSteps true 0 (toy_job "controlplane" 5) with Ok s => s | Err _ => [] end.
Definition removal_run := toy_run (replicate 100 toy_oracle) removed_steps (toy_job "controlplane" 5).

Example removal_deeds : deeds_of removal_run = Some (5, [DLeave "m1"; DReset "m1" wipe_options; DForget "m1"]).
Proof. vm_compute. reflexivity. Qed.

Lemma removal_keeps_quorum_witness :
  exists w, deeds_of removal_run = Some (5, [DLeave "m1"; DReset "m1" wipe_options; DForget "m1"]) /\
    removal_done 0 (toy_job "controlplane" 5) true 1 w /\
    exists pre, pre `prefix_of` w /\ removal_justified 0 (toy_job "controlplane" 5) true pre (DReset "m1" wipe_options).
Proof.
  assert (Hd : deeds_of removal_run = Some (5, [DLeave "m1"; DReset "m1" wipe_options; DForget "m1"])) by (vm_compute; reflexivity).
  assert (Es : removeNodeSteps true 0 (toy_job "controlplane" 5) = Ok removed_steps) by reflexivity.
  destruct (toy_walk _ removed_steps "controlplane" 5 5 _ (le_n 5) Hd) as (st & w & Hw & E).
  destruct (removal_keeps_quorum _ _ _ _ _ _ _ _ Es Hw) as (plane & Hp & H1 & H2).
  assert (plane = true) as -> by (rewrite Hp; vm_compute; reflexivity).
  exists w. split; [exact Hd|]. split; [apply (H1 1); lia|].
  destruct (deed_split w (DReset "m1" wipe_options)) as (pre & e & post & Ew & He); [rewrite E; right; left|].
  exists pre. split; [rewrite Ew; by eexists|]. by eapply H2.
Defined.

Example toy_told_apart :
  told_apart toy_machines (mkMachine "m1" "cp-1" "controlplane" false "v1.9.0" "v1.32.0")
    (map (member_of toy_machines) (map (fun i => mkMember i ("cp-" +:+ itoa i) false) [1; 2; 3]%Z)).
Proof.
  split; [done| |cbn; repeat constructor; set_solver|].
  - intros x Hx _. cbn in Hx. repeat (apply elem_of_cons in Hx as [-> |Hx]; [by vm_compute|]). by apply elem_of_nil in Hx.
  - intros i j x y Hi Hj _ _ _ E. cbn in Hi, Hj. destruct i as [|[|[|i]]], j as [|[|[|j]]]; try done;
      injection Hi as <-; injection Hj as <-; vm_compute in E; discriminate E.
Qed.

(** A member that was not taken out of etcd when its machine was set up anew keeps
    its host name, and the machine of that name answers for both: the names tell
    nothing apart, and the check counts two. Here the cluster has three voters, of
    which m1's stale twin is gone for good; removing the node m1 (whose host name
    both members report) is let through as one of two that answer, and one voter of
    two is left answering. *)
Definition twin_oracle : oracle := fun R c =>
  match c in UpCall R return R with
  | MemberListOf _ _ => Ok [mkMember 1 "cp-1" false; mkMember 2 "cp-1" false; mkMember 3 "cp-2" false]%Z
  | c => toy_oracle _ c
  end.
Example stale_twin_is_counted :
  deeds_of (toy_run (replicate 100 twin_oracle) removed_steps (toy_job "controlplane" 5))
    = Some (5, [DLeave "m1"; DReset "m1" wipe_options; DForget "m1"]) /\
  (run (checkRemovable (mkMachine "m2" "cp-2" "controlplane" false "" "") toy_machines) (replicate 50 twin_oracle) ([] : list UpEvent)).1.1 = Some (Ok true).
Proof. split; vm_compute; reflexivity. Qed.
