(* ===== verification/UpgradeRequests.v ===== *)
(** * Upgrades: requests

    A request survives being stored with its job and read back, and the sort it is
    stored with is the sort of the other texts. *)

From S2P Require Import Prelude Version Plan Jobs Transport Effects NodeActions Gate.
From S2P Require Import GoText UpgradeCalls Etcd UpgradeVerify Upgrade.

(* ------------------------------------------------------------------ *)
(** ** The sort *)

Lemma carry_down_perm s l : carry_down s l ≡ₚ s :: l.
Proof. induction l as [|t l IH]; cbn; [done|]. destruct (str_lt s t); [|done]. rewrite IH. constructor. Qed.

Definition falling (l : list string) : Prop := StronglySorted (flip str_le) l.

Lemma carry_down_falling s l : falling l -> falling (carry_down s l).
Proof.
  induction 1 as [|t l Hl IH Hf]; cbn; [by repeat constructor|]. destruct (str_lt s t) eqn:E.
  - constructor; [done|]. rewrite carry_down_perm. constructor; [|done].
    unfold flip, str_le. destruct (str_lt t s) eqn:E'; [|done]. pose proof (str_lt_trans _ _ _ E E') as H. by rewrite str_lt_irrefl in H.
  - assert (Hts : str_le t s) by done. constructor; [by constructor|]. constructor; [done|]. eapply Forall_impl; [exact Hf|].
    intros x Hx. change (str_le x s). change (str_le x t) in Hx. by transitivity t.
Qed.

Lemma fold_carry l acc :
  falling acc -> falling (fold_left (fun acc s => carry_down s acc) l acc) /\ fold_left (fun acc s => carry_down s acc) l acc ≡ₚ l ++ acc.
Proof.
  revert acc. induction l as [|s l IH]; intros acc Ha; cbn; [done|].
  destruct (IH (carry_down s acc)) as [H1 H2]; [by apply carry_down_falling|]. split; [done|].
  rewrite H2, carry_down_perm. symmetry. apply Permutation_middle.
Qed.

Lemma falling_reverse l : falling l -> StronglySorted str_le (reverse l).
Proof.
  induction 1 as [|x l Hl IH Hf]; [constructor|]. rewrite reverse_cons. apply StronglySorted_app. split_and!; [|done|by repeat constructor].
  intros a b Ha Hb. rewrite elem_of_reverse in Ha. apply list_elem_of_singleton in Hb as ->. rewrite Forall_forall in Hf. exact (Hf a Ha).
Qed.

Lemma sortStrings_perm l : sortStrings l ≡ₚ l.
Proof. unfold sortStrings. rewrite reverse_Permutation. destruct (fold_carry l []) as [_ ->]; [constructor|]. by rewrite app_nil_r. Qed.

(** The insertion sort written out in job.go is the sort of the library. *)
Lemma sortStrings_is_sort l : sortStrings l = sort_strings l.
Proof.
  apply (StronglySorted_unique str_le).
  - apply falling_reverse. by apply (fold_carry l []); constructor.
  - apply (StronglySorted_merge_sort str_le).
  - rewrite sortStrings_perm. symmetry. apply merge_sort_Permutation.
Qed.

(* ------------------------------------------------------------------ *)
(** ** Lists with a separator *)

Definition without (c : ascii) (s : string) : bool := str_all (fun a => negb (Ascii.eqb a c)) s.

Lemma split_join l : l <> [] -> Forall (fun s => without "," s = true) l -> split_on "," (join "," l) = l.
Proof.
  intros Hne Hl. induction Hl as [|s l Hs Hl IH]; [done|]. destruct l as [|t l]; [by apply split_on_none|].
  change (join "," (s :: t :: l)) with (s +:+ String "," (join "," (t :: l))). rewrite split_on_app by exact Hs. f_equal. by apply IH.
Qed.

(** What a request is made of: identifiers as the inventory makes them (visible,
    no comma, no equals sign), values without a comma. *)
Definition id_char (c : ascii) : bool := visible c && negb (Ascii.eqb c ",") && negb (Ascii.eqb c "=").
Definition plain_id (s : string) : Prop := s <> "" /\ str_all id_char s = true.

Lemma plain_visible s : plain_id s -> str_all visible s = true.
Proof. intros [_ H]. eapply str_all_impl; [|exact H]. unfold id_char. intros c. rewrite !andb_true_iff. tauto. Qed.
Lemma plain_comma s : plain_id s -> without "," s = true.
Proof. intros [_ H]. eapply str_all_impl; [|exact H]. unfold id_char. intros c. rewrite !andb_true_iff. tauto. Qed.
Lemma plain_equals s : plain_id s -> without "=" s = true.
Proof. intros [_ H]. eapply str_all_impl; [|exact H]. unfold id_char. intros c. rewrite !andb_true_iff. tauto. Qed.

Lemma read_ids l :
  Forall plain_id l -> List.filter (fun id => negb (bool_decide (id = ""))) (map trim_space l) = l.
Proof.
  induction 1 as [|s l Hs Hl IH]; [done|]. cbn. rewrite trim_space_visible by by apply plain_visible.
  rewrite bool_decide_false by apply Hs. cbn. by rewrite IH.
Qed.

(* ------------------------------------------------------------------ *)
(** ** Pairs *)

Definition plain_pair (kv : string * string) : Prop := plain_id kv.1 /\ without "," kv.2 = true.

Lemma pair_comma kv : plain_pair kv -> without "," (pair_text kv) = true.
Proof. intros [H1%plain_comma H2]. unfold pair_text. unfold without in *. by rewrite !str_all_app, H1, H2. Qed.

Lemma pair_cut kv : plain_pair kv -> cut_at "=" (pair_text kv) = (kv.1, Some kv.2).
Proof.
  intros [H1 _]. unfold pair_text. change ("=" +:+ kv.2) with (String "=" kv.2). apply cut_at_app. by apply plain_equals.
Qed.

Lemma read_pairs_spec what l m :
  Forall plain_pair l -> NoDup l.*1 -> (forall kv, kv ∈ l -> m !! kv.1 = None) ->
  exists m', read_pairs what (map pair_text l) m = Ok m' /\
    forall k, m' !! k = match (list_to_map l : gmap string string) !! k with Some v => Some v | None => m !! k end.
Proof.
  revert m. induction l as [|kv l IH]; intros m Hl Hn Hm; cbn [map read_pairs].
  - exists m. split; [done|]. intros k. by rewrite list_to_map_nil, lookup_empty.
  - apply Forall_cons in Hl as [Hkv Hl]. apply NoDup_cons in Hn as [Hk Hn]. rewrite (pair_cut kv Hkv).
    destruct (IH (<[kv.1 := kv.2]> m) Hl Hn) as (m' & Hr & Hlk).
    + intros kv' Hin. rewrite lookup_insert_ne; [apply Hm; by right|]. intros E. apply Hk. rewrite E. apply list_elem_of_fmap. by exists kv'.
    + exists m'. split; [exact Hr|]. intros k. rewrite Hlk. destruct kv as [k0 v0]. cbn [list_to_map foldr].
      destruct (decide (k0 = k)) as [->|Hne].
      * rewrite not_elem_of_list_to_map_1 by done. by rewrite !lookup_insert_eq.
      * by rewrite !lookup_insert_ne by done.
Qed.

Lemma read_pairs_map what (m : gmap string string) :
  m <> ∅ -> map_Forall (fun k v => plain_pair (k, v)) m -> pairs_param what (pairs_text m) = Ok m.
Proof.
  intros Hne Hm. unfold pairs_param, pairs_text.
  assert (Hall : Forall plain_pair (map_to_list m)).
  { apply Forall_forall. intros [k v] Hin%elem_of_map_to_list. by apply Hm. }
  assert (Hperm : sortStrings (map pair_text (map_to_list m)) ≡ₚ map pair_text (map_to_list m)) by apply sortStrings_perm.
  apply Permutation_map_inv in Hperm as (l & El & Hl). rewrite El.
  assert (Hpl : Forall plain_pair l) by (by rewrite <- Hl).
  assert (Hnd : NoDup l.*1) by (rewrite <- Hl; apply NoDup_fst_map_to_list).
  assert (Hlm : list_to_map l = m) by (rewrite <- (list_to_map_proper (map_to_list m) l); [apply list_to_map_to_list|apply NoDup_fst_map_to_list|done]).
  assert (Hnil : l <> []).
  { intros ->. apply Hne. by rewrite <- Hlm. }
  assert (Htext : join "," (map pair_text l) <> "").
  { destruct l as [|kv [|kv' l]]; [done| |]; apply Forall_cons in Hpl as [[[Hk _] _] _]; unfold pair_text; cbn;
      destruct kv as [[|c k] v]; by cbn in *. }
  rewrite bool_decide_false by done.
  rewrite split_join; [|by destruct l|by apply Forall_map; eapply Forall_impl; [exact Hpl|apply pair_comma]].
  destruct (read_pairs_spec what l ∅ Hpl Hnd) as (m' & -> & Hlk); [by intros; apply lookup_empty|].
  f_equal. apply map_eq. intros k. rewrite Hlk, Hlm, lookup_empty. by destruct (m !! k).
Qed.

Lemma request_read_back r :
  rq_to r <> "" -> rq_machines r <> [] -> Forall plain_id (rq_machines r) ->
  map_Forall (fun k v => plain_pair (k, v)) (rq_schematics r) -> map_Forall (fun k v => plain_pair (k, v)) (rq_installers r) ->
  RequestFromParams (request_params r) = Ok r.
Proof.
  destruct r as [to ids sch inst]. cbn [rq_to rq_machines rq_schematics rq_installers]. intros Hto Hne Hids Hs Hi.
  set (params := request_params _).
  assert (H1 : params !! "to" = Some to) by (unfold params, request_params; cbn; repeat case_bool_decide; by simplify_map_eq).
  assert (H2 : params !! "machines" = Some (join "," ids)) by (unfold params, request_params; cbn; repeat case_bool_decide; by simplify_map_eq).
  assert (H3 : params !! "schematics" = if bool_decide (sch = ∅) then None else Some (pairs_text sch))
    by (unfold params, request_params; cbn; repeat case_bool_decide; by simplify_map_eq).
  assert (H4 : params !! "installers" = if bool_decide (inst = ∅) then None else Some (pairs_text inst))
    by (unfold params, request_params; cbn; repeat case_bool_decide; by simplify_map_eq).
  clearbody params. unfold RequestFromParams. rewrite H1, H2, H3, H4. cbn [default].
  rewrite bool_decide_false by done.
  assert (Hj : join "," ids <> "").
  { destruct ids as [|s [|t l]]; [done| |]; apply Forall_cons in Hids as [[Hk _] _]; destruct s as [|c s]; by cbn in *. }
  rewrite bool_decide_false by done.
  assert (Hp : forall what (m : gmap string string), map_Forall (fun k v => plain_pair (k, v)) m ->
    pairs_param what (default "" (if bool_decide (m = ∅) then None else Some (pairs_text m))) = Ok m).
  { intros what m Hm. destruct (decide (m = ∅)) as [->|E]; [by rewrite bool_decide_true|rewrite bool_decide_false by done; by apply read_pairs_map]. }
  rewrite !Hp by done. cbn. rewrite split_join, read_ids; [done|done|done|].
  eapply Forall_impl; [exact Hids|]. apply plain_comma.
Qed.

(** A request survives being stored with its job and read back: the version, the
    nodes in their order, and every schematic and installer, where the identifiers
    have no comma, equals sign or blank, and the values no comma. *)
Theorem request_round_trips r :
  rq_to r <> "" -> rq_machines r <> [] -> Forall plain_id (rq_machines r) ->
  map_Forall (fun k v => plain_pair (k, v)) (rq_schematics r) -> map_Forall (fun k v => plain_pair (k, v)) (rq_installers r) ->
  RequestFromParams (request_params r) = Ok r.
Proof. apply request_read_back. Qed.

Definition sample_request : Request :=
  mkRequest "v1.10.1" ["b"; "a"] {[ "a" := "376567" ]} {[ "a" := "factory.talos.dev/installer/376567:v1.10.1"; "b" := "reg/installer:v1.10.1" ]}.

Lemma request_round_trips_witness :
  request_params sample_request !! "installers" = Some "a=factory.talos.dev/installer/376567:v1.10.1,b=reg/installer:v1.10.1" /\
  RequestFromParams (request_params sample_request) = Ok sample_request.
Proof.
  split; [vm_compute; reflexivity|]. apply request_round_trips.
  - discriminate.
  - discriminate.
  - repeat constructor; try discriminate.
  - apply map_Forall_singleton. split; [split; [discriminate|reflexivity]|reflexivity].
  - apply map_Forall_insert_2; [|apply map_Forall_singleton]; (split; [split; [discriminate|reflexivity]|reflexivity]).
Defined.
