(* ===== verification/UpgradePlanning.v ===== *)
(** * Upgrades: from the screen to the job

    What a plan of a rolling Talos upgrade says of its nodes was read from them, and
    the job made of it is the plan. *)

From S2P Require Import Prelude Version Plan Jobs Transport Effects NodeActions Gate.
From S2P Require Import GoText UpgradeCalls Etcd UpgradeVerify Upgrade UpgradeService UpgradeWorld UpgradeRequests.

(* ------------------------------------------------------------------ *)
(** ** The walk *)

Definition not_after (a b : machine) : Prop := walks_before b a = false.

Lemma not_after_total a b : walks_before a b = true -> not_after a b.
Proof.
  unfold not_after, walks_before. destruct (is_plane a), (is_plane b); cbn; try done; rewrite ?bool_decide_true by done; cbn; intros H;
    destruct (str_lt (nameOf b) (nameOf a)) eqn:E; try done; pose proof (str_lt_trans _ _ _ H E) as Hc; by rewrite str_lt_irrefl in Hc.
Qed.

Lemma not_after_trans a b c : not_after a b -> not_after b c -> not_after a c.
Proof.
  unfold not_after, walks_before. destruct (is_plane a), (is_plane b), (is_plane c); cbn; try done; intros H1 H2;
    change (str_le (nameOf a) (nameOf c)); by transitivity (nameOf b).
Qed.

Lemma walk_insert_perm m l : walk_insert m l ≡ₚ m :: l.
Proof. induction l as [|x l IH]; cbn; [done|]. destruct (walks_before m x); [done|]. rewrite IH. constructor. Qed.

Lemma walk_insert_sorted m l : StronglySorted not_after l -> StronglySorted not_after (walk_insert m l).
Proof.
  induction 1 as [|x l Hl IH Hf]; cbn; [by repeat constructor|]. destruct (walks_before m x) eqn:E.
  - apply not_after_total in E. constructor; [by constructor|]. constructor; [done|]. eapply Forall_impl; [exact Hf|].
    intros y Hy. by apply (not_after_trans m x y).
  - constructor; [done|]. rewrite walk_insert_perm. by constructor.
Qed.

Lemma upgrade_order machines : walkOrder machines ≡ₚ machines /\ StronglySorted not_after (walkOrder machines).
Proof.
  unfold walkOrder. assert (H : forall l acc, StronglySorted not_after acc ->
    fold_left (fun acc m => walk_insert m acc) l acc ≡ₚ l ++ acc /\ StronglySorted not_after (fold_left (fun acc m => walk_insert m acc) l acc)).
  { induction l as [|m l IH]; intros acc Ha; cbn; [done|]. destruct (IH (walk_insert m acc)) as [H1 H2]; [by apply walk_insert_sorted|].
    split; [|done]. rewrite H1, walk_insert_perm. symmetry. apply Permutation_middle. }
  destruct (H machines []) as [H1 H2]; [constructor|]. by rewrite app_nil_r in H1.
Qed.

(* ------------------------------------------------------------------ *)
(** ** A plan *)

(** What the plan says of a node it does not skip and does not block is what the
    node said: its schematic, how it booted, and the installer made of the two. *)
Definition asked_of (target : Ver) (m : machine) (n : NodePlan) (l : list UpEvent) : Prop :=
  exists ctx ctx' facts, Ev (Facts ctx (um_id m)) (Ok facts) ∈ l /\ np_schematic n = SchematicID facts /\
    Ev (SecurityState ctx' (um_id m)) (Ok (np_secureboot n)) ∈ l /\
    Ev (ResolveInstaller (np_schematic n) (ver_string target) (np_secureboot n)) (Ok (np_installer n)) ∈ l.

Definition node_facts (target : Ver) (m : machine) (n : NodePlan) (l : list UpEvent) : Prop :=
  np_machine n = um_id m /\ np_skipped n = um_locked m /\
  (um_locked m = true -> np_blocked n = false) /\
  (um_locked m = false -> np_blocked n = false -> asked_of target m n l).

Lemma grows_node_facts target m n : grows (node_facts target m n).
Proof. unfold node_facts, asked_of. growing. Qed.
#[local] Hint Resolve grows_node_facts : grow.

Definition all_facts (target : Ver) (ms : list machine) (ns : list NodePlan) (l : list UpEvent) : Prop :=
  Forall2 (fun m n => node_facts target m n l) ms ns.

Lemma grows_all_facts target ms ns : grows (all_facts target ms ns).
Proof. intros l l' Hl H. eapply Forall2_impl; [exact H|]. intros m n. by apply grows_node_facts. Qed.
#[local] Hint Resolve grows_all_facts : grow.

Section Planning.
Variables (has_releases : bool) (install_args : string -> option (list string)) (P : list UpEvent -> up_deed -> Prop).

Lemma quiet_drift id : quiet (ReadKernelArgDrift install_args id).
Proof. unfold ReadKernelArgDrift. hush. Qed.

Lemma backed_schematic id : backed_ok P (CheckSchematic id) (fun v l => exists ctx facts, Ev (Facts ctx id) (Ok facts) ∈ l /\ sc_id v = SchematicID facts).
Proof.
  apply (backed_try _ _ _ (fun facts l => exists ctx, Ev (Facts ctx id) (Ok facts) ∈ l) (fun facts v _ => sc_id v = SchematicID facts));
    [by apply backed_asked|intros facts|growing..|].
  - apply backed_pure. intros v l [= <-]. unfold schematic_of. by case_bool_decide as E.
  - intros facts v l [ctx H] E. by exists ctx, facts.
Qed.

Lemma backed_node target m : backed P (talos_node_plan install_args target m) (fun n l => node_facts target m n l).
Proof.
  unfold talos_node_plan. destruct (um_locked m) eqn:El.
  { apply backed_ret. unfold node_facts. cbn. rewrite El. by split_and!. }
  assert (Hblocked : forall sc sent inst sb ka why l, node_facts target m (mkNodePlan (um_id m) (um_hostname m) (um_role m) (um_talos m) sc sent inst sb
    false "" ka true why) l) by (intros; unfold node_facts; cbn; rewrite El; by split_and!).
  apply (backed_bind _ _ _ (fun _ _ => True) (fun _ n l => node_facts target m n l)); [by apply backed_quiet, quiet_call|intros [[]|e]|growing..|by intros ????];
    [|by apply backed_ret].
  apply (backed_bind _ _ _ (fun r l => forall v, r = Ok v -> exists ctx facts, Ev (Facts ctx (um_id m)) (Ok facts) ∈ l /\ sc_id v = SchematicID facts)
    (fun r n l => node_facts target m n l \/ exists v, r = Ok v /\ np_machine n = um_id m /\ np_skipped n = false /\ np_schematic n = sc_id v /\
       exists ctx', Ev (SecurityState ctx' (um_id m)) (Ok (np_secureboot n)) ∈ l /\
       Ev (ResolveInstaller (np_schematic n) (ver_string target) (np_secureboot n)) (Ok (np_installer n)) ∈ l));
    [apply backed_schematic|intros [v|e]|growing..|].
  - apply (backed_bind _ _ _ (fun r l => forall sb, r = Ok sb -> exists ctx', Ev (SecurityState ctx' (um_id m)) (Ok sb) ∈ l)
      (fun r n l => node_facts target m n l \/ (np_machine n = um_id m /\ np_skipped n = false /\ np_schematic n = sc_id v /\
         r = Ok (np_secureboot n) /\ Ev (ResolveInstaller (np_schematic n) (ver_string target) (np_secureboot n)) (Ok (np_installer n)) ∈ l)));
      [by apply backed_asked|intros [sb|e]|growing..|].
    + apply (backed_bind _ _ _ (fun r l => Ev (ResolveInstaller (sc_id v) (ver_string target) sb) r ∈ l)
        (fun r n l => node_facts target m n l \/ (np_machine n = um_id m /\ np_skipped n = false /\ np_schematic n = sc_id v /\
           np_secureboot n = sb /\ r = Ok (np_installer n)))); [by apply backed_call|intros [inst|why]|growing..|].
      * apply (backed_bind _ _ _ (fun _ _ => True) (fun _ n _ => np_machine n = um_id m /\ np_skipped n = false /\ np_schematic n = sc_id v /\
          np_secureboot n = sb /\ np_installer n = inst)); [apply backed_quiet, quiet_drift|intros [d|e]|growing..|].
        -- apply backed_ret. by destruct (ka_drifted d).
        -- by apply backed_ret.
        -- intros d n l _ (H1 & H2 & H3 & H4 & H5). right. by rewrite H5.
      * apply backed_ret. left. apply Hblocked.
      * intros r n l H1 [H2|(H2 & H3 & H4 & H5 & ->)]; [by left|]. right. rewrite H4, H5. by split_and!.
    + apply backed_ret. left. apply Hblocked.
    + intros r n l H1 [H2|(H2 & H3 & H4 & -> & H5)]; [by left|]. right. exists v. split_and!; [done..|].
      destruct (H1 _ eq_refl) as [ctx' H]. by exists ctx'.
  - apply backed_ret. left. apply Hblocked.
  - intros r n l H1 [H2|(v & -> & H2 & H3 & H4 & ctx' & H5 & H6)]; [done|]. destruct (H1 v eq_refl) as (ctx & facts & Hf & Hs).
    unfold node_facts. rewrite El, H3. split_and!; [done|done|done|]. intros _ _. exists ctx, ctx', facts. by rewrite H4 in *.
Qed.

Lemma backed_nodes target ms : backed P (talos_node_plans install_args target ms) (fun ns l => all_facts target ms ns l).
Proof.
  induction ms as [|m ms IH]; cbn [talos_node_plans]; [by apply backed_ret; constructor|].
  apply (backed_bind _ _ _ (fun n l => node_facts target m n l) (fun n ns l => exists rest, ns = n :: rest /\ all_facts target ms rest l));
    [apply backed_node|intros n|growing..|].
  - apply (backed_bind _ _ _ (fun rest l => all_facts target ms rest l) (fun rest ns _ => ns = n :: rest)); [exact IH|intros rest; by apply backed_ret|growing..|].
    intros rest ns l H ->. by exists rest.
  - intros n ns l H1 (rest & -> & H2). by constructor.
Qed.

(** The gate as a preview. *)
Lemma backed_preview cluster : backed P (gatePreview cluster) (fun g l => VOK g = true -> gate_open cluster "" l).
Proof.
  apply (backed_bind _ _ _ (fun r l => Ev (EvaluateGate cluster "") r ∈ l) (fun r g _ => VOK g = true -> r = Ok g)); [by apply backed_call|intros [v|e]|growing..|].
  - by apply backed_ret.
  - by apply backed_ret.
  - intros r g l H1 H2 Hg. rewrite (H2 Hg) in H1. by exists g.
Qed.

Lemma quiet_chain machines target : quiet (talos_chain has_releases machines target).
Proof. unfold talos_chain, service_releases. hush. Qed.

(** What an unblocked plan has behind it. *)
Definition plan_facts (cluster to : string) (p : upgrade_plan) (l : list UpEvent) : Prop :=
  exists target ms, ParseVersion to = Ok target /\ pl_to p = ver_string target /\ Ev (Machines cluster) (Ok ms) ∈ l /\
    all_facts target (walkOrder ms) (pl_nodes p) l /\
    (pl_blocked p = false -> gate_open cluster "" l /\ Blocked (CheckStrand target (clusterKubernetesVersion ms)) = false /\
       forall n, n ∈ pl_nodes p -> np_blocked n = false).

Lemma node_blocks_none nodes n : node_blocks nodes = None -> n ∈ nodes -> np_blocked n = false.
Proof.
  unfold node_blocks. destruct (list_find _ nodes) as [[i x]|] eqn:E; [done|]. intros _ Hn. apply list_find_None in E.
  rewrite Forall_forall in E. specialize (E n Hn). by destruct (np_blocked n).
Qed.

Lemma block_first_none a b : block_first a b = None -> a = None /\ b = None.
Proof. by destruct a. Qed.

Lemma backed_plan cluster to : backed_ok P (PlanTalos has_releases install_args cluster to) (fun p l => plan_facts cluster to p l).
Proof.
  unfold PlanTalos, parse_target. destruct (ParseVersion to) as [target|e] eqn:Et.
  2: { by apply backed_ret. }
  change (try ?f (mret (Ok target))) with (f target). cbv beta.
  apply (backed_try _ _ _ (fun ms l => Ev (Machines cluster) (Ok ms) ∈ l)
    (fun ms p l => pl_to p = ver_string target /\ all_facts target (walkOrder ms) (pl_nodes p) l /\
       (pl_blocked p = false -> gate_open cluster "" l /\ Blocked (CheckStrand target (clusterKubernetesVersion ms)) = false /\
          forall n, n ∈ pl_nodes p -> np_blocked n = false))).
  - eapply backed_mono; [by apply backed_call|]. by intros r l H ms ->.
  - intros ms. case_bool_decide; [by apply backed_ret|].
    apply (backed_bind _ _ _ (fun _ _ => True) (fun _ r l => forall p, r = Ok p -> pl_to p = ver_string target /\ all_facts target (walkOrder ms) (pl_nodes p) l /\
       (pl_blocked p = false -> gate_open cluster "" l /\ Blocked (CheckStrand target (clusterKubernetesVersion ms)) = false /\
          forall n, n ∈ pl_nodes p -> np_blocked n = false))); [apply backed_quiet, quiet_chain|intros ch|growing..|by intros ????].
    cbv zeta. apply (backed_bind _ _ _ (fun ns l => all_facts target (walkOrder ms) ns l)
      (fun ns r l => forall p, r = Ok p -> pl_to p = ver_string target /\ pl_nodes p = ns /\
       (pl_blocked p = false -> gate_open cluster "" l /\ Blocked (CheckStrand target (clusterKubernetesVersion ms)) = false /\
          forall n, n ∈ ns -> np_blocked n = false))); [apply backed_nodes|intros ns|growing..|].
    + apply (backed_bind _ _ _ (fun g l => VOK g = true -> gate_open cluster "" l)
        (fun g r l => forall p, r = Ok p -> pl_to p = ver_string target /\ pl_nodes p = ns /\
         (pl_blocked p = false -> VOK g = true /\ Blocked (CheckStrand target (clusterKubernetesVersion ms)) = false /\
            forall n, n ∈ ns -> np_blocked n = false))); [apply backed_preview|intros g|growing..|].
      * apply backed_ret. intros p [= <-]. split_and!; [done|done|]. cbn [pl_blocked finish_plan].
        intros [[[_ Hs]%block_first_none Hn]%block_first_none Hg]%bool_decide_eq_false%eq_None_not_Some%block_first_none.
        split_and!.
        -- unfold gate_blocks in Hg. by destruct (VOK g).
        -- unfold strand_blocks in Hs. by destruct (Blocked _).
        -- intros n. by apply node_blocks_none.
      * intros g r l H1 H2 p Hp. destruct (H2 p Hp) as (Ha & Hb & Hc). split_and!; [done..|]. intros Hu. destruct (Hc Hu) as (Hd & He & Hf).
        split_and!; [by apply H1|done|done].
    + intros ns r l H1 H2 p Hp. destruct (H2 p Hp) as (Ha & -> & Hc). by split_and!.
  - growing.
  - growing.
  - intros ms p l H1 (H2 & H3 & H4). exists target, ms. by split_and!.
Qed.
End Planning.

(** A plan of a rolling Talos upgrade does nothing to any node. It has one place for
    every machine of the inventory, control-plane nodes before workers, skips exactly
    the locked ones, and what it says of a node it neither skips nor blocks was read
    from that node while the plan was made: the schematic, how it booted, and the
    installer resolved from the two. A plan that can be submitted has no blocked
    node, a gate that said yes while it was made, and a target that the table of
    versions knows to support the cluster's Kubernetes. *)
Theorem plan_read_from_nodes has_releases install_args cluster to xs p rest w :
  run (PlanTalos has_releases install_args cluster to) xs ([] : list UpEvent) = (Some (Ok p), rest, w) ->
  omap up_event_deed w = [] /\ plan_facts cluster to p w /\
  exists ms, Ev (Machines cluster) (Ok ms) ∈ w /\ map np_machine (pl_nodes p) ≡ₚ map um_id ms /\
    forall i j a b, i < j -> walkOrder ms !! i = Some a -> walkOrder ms !! j = Some b -> is_plane b = true -> is_plane a = true.
Proof.
  intros Hr. assert (Hb := backed_plan has_releases install_args (fun _ _ => True) cluster to [] (safe_nil _)).
  assert (Hany : Forall (fun _ : oracle => True) xs) by by apply Forall_true.
  destruct (wp_run _ _ _ _ _ _ _ _ _ Hb Hany Hr) as (_ & Hq & _). destruct (Hq _ eq_refl) as (l & -> & Hl & H). specialize (H p eq_refl).
  split; [done|]. split; [exact H|]. destruct H as (target & ms & _ & _ & Hms & Hall & _). exists ms. split; [done|].
  destruct (upgrade_order ms) as [Hp Hs]. split.
  - rewrite <- Hp. clear -Hall. induction Hall as [|m n ms' ns H _ IH]; [done|]. cbn. rewrite IH. destruct H as [-> _]. done.
  - intros i j a b Hij Ha Hb' Hpl. clear -Hs Hij Ha Hb' Hpl. revert i j Hij Ha Hb'.
    induction Hs as [|x l Hl IH Hf]; intros i j Hij Ha Hb'; [done|]. destruct j as [|j]; [lia|]. destruct i as [|i]; [|by apply (IH i j); [lia|..]].
    injection Ha as ->. rewrite Forall_forall in Hf. specialize (Hf b (list_elem_of_lookup_2 l j b Hb')).
    unfold not_after, walks_before in Hf. rewrite Hpl in Hf. by destruct (is_plane a).
Qed.

(* ------------------------------------------------------------------ *)
(** ** The job made of a plan *)

Definition kept (nodes : list NodePlan) : list NodePlan := List.filter (fun n => negb (np_skipped n)) nodes.

(** A map of the request, from the nodes of the plan. *)
Definition reads (f : NodePlan -> string) (m : gmap string string) (nodes : list NodePlan) : Prop :=
  (forall k v, m !! k = Some v -> exists n, n ∈ kept nodes /\ np_machine n = k /\ f n = v /\ v <> "") /\
  (NoDup (map np_machine (kept nodes)) -> forall n, n ∈ kept nodes -> m !! np_machine n = if bool_decide (f n = "") then None else Some (f n)).

Lemma reads_add f m nodes n :
  np_skipped n = false -> reads f m nodes ->
  reads f (if bool_decide (f n = "") then m else <[np_machine n := f n]> m) (nodes ++ [n]).
Proof.
  intros Hn [H1 H2]. assert (Ek : kept (nodes ++ [n]) = kept nodes ++ [n]).
  { unfold kept. rewrite List.filter_app. cbn. by rewrite Hn. }
  split; rewrite Ek.
  - intros k v Hk. assert (Hold : m !! k = Some v -> exists n', n' ∈ kept nodes ++ [n] /\ np_machine n' = k /\ f n' = v /\ v <> "").
    { intros H. destruct (H1 k v H) as (n' & Hin & Hr). exists n'. split; [apply elem_of_app; by left|done]. }
    case_bool_decide as E; [by apply Hold|]. destruct (decide (np_machine n = k)) as [<-|Hne].
    + rewrite lookup_insert_eq in Hk. injection Hk as <-. exists n. split_and!; [apply elem_of_app; right; left|done..].
    + rewrite lookup_insert_ne in Hk by done. by apply Hold.
  - rewrite map_app. intros Hd n' Hin. apply NoDup_app in Hd as (Hd & Hdis & _).
    assert (Hfresh : m !! np_machine n = None).
    { destruct (m !! np_machine n) as [v|] eqn:E; [|done]. destruct (H1 _ _ E) as (x & Hx & Ex & _).
      exfalso. apply (Hdis (np_machine n)); [|left]. rewrite <- Ex. apply list_elem_of_fmap. by exists x. }
    apply elem_of_app in Hin as [Hin|Hin%list_elem_of_singleton].
    + assert (Hne : np_machine n <> np_machine n').
      { intros E. apply (Hdis (np_machine n')); [apply list_elem_of_fmap; by exists n'|]. rewrite <- E. left. }
      rewrite <- (H2 Hd n' Hin). case_bool_decide; [done|]. by rewrite lookup_insert_ne.
    + subst n'. case_bool_decide as E; [done|]. by rewrite lookup_insert_eq.
Qed.

Lemma reads_nil f : reads f ∅ [].
Proof. split; [intros k v H; by rewrite lookup_empty in H|intros _ n H; by apply elem_of_nil in H]. Qed.

Lemma request_of_nodes to nodes :
  let r := fold_left request_add nodes (mkRequest to [] ∅ ∅) in
  rq_to r = to /\ rq_machines r = map np_machine (kept nodes) /\ reads np_schematic (rq_schematics r) nodes /\
  reads np_installer (rq_installers r) nodes.
Proof.
  induction nodes as [|n nodes IH] using rev_ind; [cbn; split_and!; done || apply reads_nil|].
  cbv zeta in *. rewrite fold_left_app. cbn [fold_left]. set (r := fold_left _ nodes _) in *. destruct IH as (H1 & H2 & H3 & H4).
  unfold request_add. destruct (np_skipped n) eqn:E.
  - assert (Ek : kept (nodes ++ [n]) = kept nodes) by (unfold kept; rewrite List.filter_app; cbn; by rewrite E, app_nil_r).
    unfold reads in *. by rewrite Ek.
  - assert (Ek : kept (nodes ++ [n]) = kept nodes ++ [n]) by (unfold kept; rewrite List.filter_app; cbn; by rewrite E).
    cbn. split_and!; [done| |by apply reads_add..]. by rewrite Ek, map_app, H2.
Qed.

(** A node a job can be made of: plain texts, and an installer. *)
Definition plain_node (n : NodePlan) : Prop :=
  plain_id (np_machine n) /\ without "," (np_schematic n) = true /\ without "," (np_installer n) = true /\ np_installer n <> "".

Lemma reads_plain f m nodes :
  reads f m nodes -> (forall n, n ∈ kept nodes -> plain_node n) -> (forall n, n ∈ kept nodes -> without "," (f n) = true) ->
  map_Forall (fun k v => plain_pair (k, v)) m.
Proof. intros [H _] Hn Hf k v Hk. destruct (H k v Hk) as (n & Hin & <- & <- & _). split; [by apply Hn|by apply Hf]. Qed.

Lemma steps_of_nodes has_record fuel cluster to req l :
  (forall n, n ∈ l -> rq_installers req !! np_machine n = Some (np_installer n) /\ np_installer n <> "" /\
     default "" (rq_schematics req !! np_machine n) = np_schematic n) ->
  talos_node_steps has_record fuel cluster to req (map np_machine l) =
    Ok (map (fun n => talosNodeStep has_record fuel cluster (np_machine n) to (np_schematic n) (np_installer n)) l).
Proof.
  induction l as [|n l IH]; intros H; [done|]. cbn [map talos_node_steps]. destruct (H n) as (E1 & Hne & E2); [left|].
  rewrite E1, E2. cbn [default]. rewrite bool_decide_false by done. rewrite IH; [done|]. intros n' Hn'. apply H. by right.
Qed.

(** C36: What is submitted is what was shown: the request made of a plan, stored with its
    job and read back when the job starts or is taken up again, gives one step for
    every node the plan does not skip, in the plan's order, with the schematic and
    the installer the plan shows for it. *)
Theorem job_is_the_plan has_record fuel cluster p to :
  version_of (pl_to p) = Ok to -> kept (pl_nodes p) <> [] ->
  NoDup (map np_machine (kept (pl_nodes p))) -> (forall n, n ∈ kept (pl_nodes p) -> plain_node n) ->
  (req ← RequestFromParams (request_params (RequestFor p)); talosSteps has_record fuel req cluster) =
    Ok (map (fun n => talosNodeStep has_record fuel cluster (np_machine n) to (np_schematic n) (np_installer n)) (kept (pl_nodes p))).
Proof.
  intros Hto Hne Hnd Hpl. pose proof (request_of_nodes (pl_to p) (pl_nodes p)) as Hr. cbv zeta in Hr.
  change (fold_left request_add (pl_nodes p) _) with (RequestFor p) in Hr. destruct Hr as (H1 & H2 & H3 & H4).
  assert (Hto' : pl_to p <> "").
  { intros E. rewrite E in Hto. by vm_compute in Hto. }
  rewrite request_read_back.
  - cbn. unfold talosSteps. rewrite H1, Hto. cbn. rewrite H2. rewrite bool_decide_false; [|by destruct (kept (pl_nodes p))].
    apply steps_of_nodes. intros n Hn. destruct H3 as [_ H3], H4 as [_ H4]. rewrite (H3 Hnd n Hn), (H4 Hnd n Hn).
    assert (Hi : np_installer n <> "") by by apply Hpl. rewrite bool_decide_false by done. split_and!; [done..|]. by case_bool_decide.
  - by rewrite H1.
  - rewrite H2. by destruct (kept (pl_nodes p)).
  - rewrite H2. apply Forall_forall. intros k (n & -> & Hn)%list_elem_of_fmap. by apply Hpl.
  - apply (reads_plain _ _ _ H3 Hpl). intros n Hn. by apply Hpl.
  - apply (reads_plain _ _ _ H4 Hpl). intros n Hn. by apply Hpl.
Qed.

(* ------------------------------------------------------------------ *)
(** ** A plan made *)

Definition made : option upgrade_plan * list UpEvent :=
  match run (PlanTalos true (fun _ => Some []) "c" "v1.10.1") (replicate 200 toy_oracle) ([] : list UpEvent) with
  | (Some (Ok p), _, w) => (Some p, w)
  | (_, _, w) => (None, w)
  end.

Example made_plan :
  (fun p => (pl_blocked p, map np_machine (pl_nodes p), map np_machine (kept (pl_nodes p)), map np_installer (pl_nodes p))) <$> made.1 =
  Some (false, ["m1"; "m2"; "m4"; "m3"], ["m1"; "m4"; "m3"], ["abcv1.10.1"; ""; "abcv1.10.1"; "abcv1.10.1"]).
Proof. vm_compute. reflexivity. Qed.

Lemma plan_read_from_nodes_witness :
  exists p w, made = (Some p, w) /\ omap up_event_deed w = [] /\ plan_facts "c" "v1.10.1" p w.
Proof.
  unfold made. destruct (run _ _ _) as [[[[p|e]|] rest] w] eqn:E.
  - exists p, w. split; [reflexivity|]. destruct (plan_read_from_nodes _ _ _ _ _ _ _ _ E) as (H1 & H2 & _). by split.
  - exfalso. assert (Hm : is_Some made.1) by (exists (default (finish_plan "" (mk 0 0 0) [] no_strand no_gate [] None) made.1); vm_compute; reflexivity).
    unfold made in Hm. rewrite E in Hm. by destruct Hm.
  - exfalso. assert (Hm : is_Some made.1) by (exists (default (finish_plan "" (mk 0 0 0) [] no_strand no_gate [] None) made.1); vm_compute; reflexivity).
    unfold made in Hm. rewrite E in Hm. by destruct Hm.
Defined.

Definition plan_of_two : upgrade_plan :=
  let node id skipped := mkNodePlan id "" "worker" "v1.9.0" "abc" "" (if skipped : bool then "" else "reg/abc:v1.10.1") false skipped "" None false "" in
  finish_plan "c" (mk 1 10 1) [] no_strand no_gate [node "m1" false; node "m2" true; node "m3" false] None.

Lemma job_is_the_plan_witness :
  exists steps, (req ← RequestFromParams (request_params (RequestFor plan_of_two)); talosSteps true 3 req "c") = Ok steps /\
    map StepName steps = ["upgrade m1 to v1.10.1"; "upgrade m3 to v1.10.1"].
Proof.
  eexists. split; [apply (job_is_the_plan true 3 "c" plan_of_two (mk 1 10 1))|reflexivity].
  - vm_compute. reflexivity.
  - discriminate.
  - change (NoDup ["m1"; "m3"]). apply (bool_decide_eq_true_1 (NoDup ["m1"; "m3"])). vm_compute. reflexivity.
  - intros n Hn. assert (Hall : Forall plain_node (kept (pl_nodes plan_of_two))).
    { repeat constructor; try discriminate; reflexivity. }
    rewrite Forall_forall in Hall. by apply Hall.
Defined.

(** A target two minors away is not blocked, and what is submitted of its plan is the
    target, not the first version of the chain. *)
Definition far_oracle : oracle := fun R c =>
  match c in UpCall R return R with
  | Machines _ => Ok [mkMachine "m1" "cp-1" "controlplane" false "v1.12.0" "v1.35.0"]
  | TalosReleases => Ok ["v1.12.0"; "v1.13.2"; "v1.14.0"]
  | c => toy_oracle _ c
  end.
Example far_target_is_submitted :
  match run (PlanTalos true (fun _ => Some []) "c" "v1.14.0") (replicate 200 far_oracle) ([] : list UpEvent) with
  | (Some (Ok p), _, _) => (pl_blocked p, map (fun s => ver_string (To s)) (pl_chain p), rq_to (RequestFor p))
  | _ => (true, [], "")
  end = (false, ["v1.13.2"; "v1.14.0"], "v1.14.0").
Proof. vm_compute. reflexivity. Qed.

(** Where the releases cannot be listed, a downgrade is not blocked either. *)
Definition down_oracle : oracle := fun R c =>
  match c in UpCall R return R with
  | Machines _ => Ok [mkMachine "m1" "cp-1" "controlplane" false "v1.14.0" "v1.33.0"]
  | TalosReleases => Err "no answer"
  | c => toy_oracle _ c
  end.
Example downgrade_not_blocked_without_releases :
  match run (PlanTalos true (fun _ => Some []) "c" "v1.12.0") (replicate 200 down_oracle) ([] : list UpEvent) with
  | (Some (Ok p), _, _) => (pl_blocked p, pl_chain p, rq_to (RequestFor p))
  | _ => (true, [], "")
  end = (false, [], "v1.12.0").
Proof. vm_compute. reflexivity. Qed.
