(* ===== verification/RotateCA.v ===== *)
(** * The rotation of a certificate authority

    [src/internal/rotateca] and the second half of [src/internal/inventory/rotate.go]:
    what a node's configuration says of authorities, what each of the four passes
    writes to it, the adoption of the new authority by this installation, and the
    steps of the job. A connection is made with the credentials in the store
    ([inventory.Connect]). The parsing of certificates and of YAML, the issuing of
    certificates and the decoding of a job's request are the class [CALib]; the
    patcher is the one of [PlanGuard.v]. *)

From S2P Require Import Prelude GoBase64 RecordStore Jobs Transport Effects NodeActions Redact PlanGuard.

Class CALib := {
  cert : Type;
  cert_eq_dec :: EqDecision cert;
  parse_pem : string -> option cert;                            (* pem.Decode and x509.ParseCertificate *)
  issued_by : string -> option cert;                            (* the authority a client certificate is from *)
  key_pair : string -> string -> bool;                          (* tls.X509KeyPair *)
  pool_from_pem : string -> bool;                               (* CertPool.AppendCertsFromPEM *)
  read_cas : string -> result string (string * list string);    (* machine.ca.crt, machine.acceptedCAs[].crt *)
  yaml_node : string -> result string node;
  yaml_of_node : node -> result string string;
  marshal_request : list string -> result string string;
  unmarshal_request : string -> result string (list string);
  add_years : Z -> time -> time;
  store_text : store_error -> string
}.

(* ------------------------------------------------------------------ *)
(** ** rotateca.go *)

Record Authority := mkAuthority { a_Crt : string; a_Key : string }.

(** What a configuration says: the authority a node issues from, and those it accepts
    besides. *)
Record State := mkState { IssuingCrt : string; AcceptedCrts : list string }.

Definition RoleControlPlane : string := "controlplane".

Definition ErrNotEveryNodeAnswered : string := "rotateca: not every node in this cluster answered".
Definition ErrNoMachines : string := "rotateca: this cluster has no machines in the inventory".
Definition ErrConfigUnreadable : string := "rotateca: the node's machine configuration could not be read".
Definition ErrOutOfOrder : string := "rotateca: the passes would run out of order".

Definition nl : string := str1 (chr 10).
Definition line (s : string) : string := s +:+ nl.

Section Config.
Context `{CALib}.

Definition parseCertificate (pem : string) : option cert := parse_pem pem.

(** Two certificates by what they are; a text that is none is the same as nothing. *)
Definition sameCertificate (a b : string) : bool :=
  match parseCertificate a, parseCertificate b with
  | Some pa, Some pb => bool_decide (pa = pb)
  | _, _ => false
  end.

Definition encodeBase64 : string -> string := base64_encode.

Definition decodeBase64PEM (s : string) : string :=
  if bool_decide (s = "") then "" else
  let as_it_is := if bool_decide (is_Some (parseCertificate s)) then s else "" in
  match base64_decode s with
  | Some raw => if bool_decide (is_Some (parseCertificate raw)) then raw else as_it_is
  | None => as_it_is
  end.

Definition Inspect (config : string) : result step_error State :=
  match read_cas config with
  | Err e => Err (say (ErrConfigUnreadable +:+ ": " +:+ e))
  | Ok (crt, accepted) =>
      let st := mkState (decodeBase64PEM crt) (filter (.≠ "") (map decodeBase64PEM accepted)) in
      if bool_decide (IssuingCrt st = "") then
        Err (say (ErrConfigUnreadable +:+ ": it names no machine.ca, so this is not a node configuration this rotation can reason about"))
      else Ok st
  end.

Definition listed (have : list string) (crt : string) : bool := existsb (fun c => sameCertificate c crt) have.

Definition Accepts (s : State) (crt : string) : bool := sameCertificate (IssuingCrt s) crt || listed (AcceptedCrts s) crt.
Definition IssuesFrom (s : State) (crt : string) : bool := sameCertificate (IssuingCrt s) crt.

Definition dedupe_step (out : list string) (c : string) : list string :=
  if bool_decide (c = "") || existsb (fun have => sameCertificate have c) out then out else out ++ [c].
Definition dedupeCertificates (l : list string) : list string := fold_left dedupe_step l [].

Definition acceptedCAsPatch (crts : list string) : string :=
  match crts with
  | [] => line "machine:" +:+ line "  acceptedCAs: []"
  | _ => line "machine:" +:+ line "  acceptedCAs:" +:+ String.concat "" (map (fun c => line ("    - crt: " +:+ encodeBase64 c)) crts)
  end.

(** Pass 1: what is not listed of the authority the node issues from and the new one. *)
Definition AcceptPatch (s : State) (newCrt : string) : option string :=
  let missing := filter (fun want => listed (AcceptedCrts s) want = false) (dedupeCertificates [IssuingCrt s; newCrt]) in
  match missing with [] => None | _ => Some (acceptedCAsPatch missing) end.

Definition quotes : string := String "034" (str1 "034").

(** Pass 2: the key goes to a control-plane node only. *)
Definition IssuePatch (a : Authority) (role : string) : string :=
  line "machine:" +:+ line "  ca:" +:+ line ("    crt: " +:+ encodeBase64 (a_Crt a)) +:+
  line ("    key: " +:+ (if bool_decide (role = RoleControlPlane) then encodeBase64 (a_Key a) else quotes)).

(** The value under a key of a mapping, and the mapping with another one there; both
    over the list of keys and values. *)
Fixpoint value_of (l : list node) (key : string) : option node :=
  match l with
  | k :: v :: rest => if bool_decide (value k = key) then Some v else value_of rest key
  | _ => None
  end.
Definition mappingValue (m : node) (key : string) : option node :=
  if bool_decide (kind m = MappingNode) then value_of (content m) key else None.

Definition bare (k : Kind) (v : string) (l : list node) : node := Node k v ("", "", "") "" l.
Definition with_content (m : node) (l : list node) : node := Node (kind m) (value m) (comments m) (style m) l.

Fixpoint set_value (l : list node) (key : string) (v : node) : option (list node) :=
  match l with
  | k :: old :: rest => if bool_decide (value k = key) then Some (k :: v :: rest) else (fun l => k :: old :: l) <$> set_value rest key v
  | _ => None
  end.
Definition setMappingValue (m : node) (key : string) (v : node) : node :=
  with_content m (default (content m ++ [bare ScalarNode key []; v]) (set_value (content m) key v)).

(** The document with the node [mappingValue] points at replaced. *)
Definition set_machine (doc : node) (machine : node) : node :=
  match content doc with
  | root :: rest => with_content doc (with_content root (default (content root) (set_value (content root) "machine" machine)) :: rest)
  | [] => doc
  end.

(** The first line that begins a document, if three bytes and one more are there. *)
Fixpoint document_break (line_begins : bool) (i : nat) (raw : string) : option nat :=
  match raw with
  | String c rest =>
      if bool_decide (3 < String.length raw) && line_begins && bool_decide (String.substring 0 3 raw = "---") then Some i
      else document_break (Ascii.eqb c (chr 10)) (S i) rest
  | "" => None
  end.
Definition documentBreak (raw : string) : option nat := document_break true 0 raw.

Fixpoint string_drop (n : nat) (s : string) : string :=
  match n, s with S n, String _ s => string_drop n s | _, _ => s end.
Definition tail_documents (raw : string) : string :=
  match documentBreak raw with Some i => string_drop i raw | None => "" end.

(** The one list pass 4 leaves. *)
Definition kept (newCrt : string) : node :=
  bare SequenceNode "" [bare MappingNode "" [bare ScalarNode "crt" []; bare ScalarNode (encodeBase64 newCrt) []]].

Definition unreadable (why : string) : step_error := say (ErrConfigUnreadable +:+ ": " +:+ why).

(** The first document with its list replaced, and the other documents as they were. *)
Definition pruned (config newCrt : string) : result step_error string :=
  match yaml_node config with
  | Err e => Err (unreadable e)
  | Ok doc =>
      match kind doc, content doc with
      | DocumentNode, root :: _ =>
          match mappingValue root "machine" with
          | None => Err (unreadable "it has no machine section")
          | Some machine =>
              match yaml_of_node (set_machine doc (setMappingValue machine "acceptedCAs" (kept newCrt))) with
              | Err e => Err (say ("rotateca: writing the pruned configuration: " +:+ e))
              | Ok out => Ok (out +:+ tail_documents config)
              end
          end
      | _, _ => Err (unreadable "the first document is not a mapping")
      end
  end.

(** Pass 4: nothing is left to do, the new configuration, or a refusal. *)
Definition PruneConfig (config newCrt : string) : result step_error (option string) :=
  match Inspect config with
  | Err e => Err e
  | Ok state =>
      if negb (IssuesFrom state newCrt) then
        Err (say ("rotateca: this node still issues from the old authority, so dropping it from the accepted set would cut this installation off from the node it is talking to: pass 2 has not happened here yet. " +:+ ErrOutOfOrder))
      else
        let write := match pruned config newCrt with Ok out => Ok (Some out) | Err e => Err e end in
        match AcceptedCrts state with
        | [] => Ok None
        | [one] => if sameCertificate one newCrt then Ok None else write
        | _ => write
        end
  end.

(** [reached]: an entry for every machine, with what kept it from answering. The order
    in which the silent ones are named is the map's. *)
Definition RefuseUnlessEveryNodeAnswered (reached : gmap string (option step_error)) : option step_error :=
  if bool_decide (reached = ∅) then Some (say ErrNoMachines) else
  match omap (fun '(id, e) => e ≫= (fun _ => Some id)) (map_to_list reached) with
  | [] => None
  | silent =>
      Some (say (ErrNotEveryNodeAnswered +:+ ": [" +:+ String.concat " " silent +:+ "]. A node that misses the first pass refuses the certificate every other node accepts after the second, and nothing here can repair it afterwards -- reaching it would need the credential it no longer accepts. Bring it back or remove it from the cluster first"))
  end.
End Config.

(* ------------------------------------------------------------------ *)
(** ** The calls *)

(** [ClusterSecrets]: what a rotation reads and writes, and the rest of the record,
    which it carries along. *)
Record ClusterSecrets := mkSecrets {
  cs_Cluster : string;
  OSCACrt : string; OSCAKey : string;
  ClientCrt : string; ClientKey : string;
  NextOSCACrt : string; NextOSCAKey : string;
  cs_rest : list (string * string);
  cs_Rev : Z }.

#[global] Program Instance secrets_record : Record ClusterSecrets := {
  rec_key := cs_Cluster; rec_rev := cs_Rev;
  rec_set_rev := fun v s => mkSecrets (cs_Cluster s) (OSCACrt s) (OSCAKey s) (ClientCrt s) (ClientKey s) (NextOSCACrt s) (NextOSCAKey s) (cs_rest s) v
}.
Next Obligation. done. Qed.
Next Obligation. done. Qed.

Definition with_next (crt key : string) (s : ClusterSecrets) : ClusterSecrets :=
  mkSecrets (cs_Cluster s) (OSCACrt s) (OSCAKey s) (ClientCrt s) (ClientKey s) crt key (cs_rest s) (cs_Rev s).
Definition with_authority (crt key : string) (s : ClusterSecrets) : ClusterSecrets :=
  mkSecrets (cs_Cluster s) crt key (ClientCrt s) (ClientKey s) (NextOSCACrt s) (NextOSCAKey s) (cs_rest s) (cs_Rev s).
Definition with_client (crt key : string) (s : ClusterSecrets) : ClusterSecrets :=
  mkSecrets (cs_Cluster s) (OSCACrt s) (OSCAKey s) crt key (NextOSCACrt s) (NextOSCAKey s) (cs_rest s) (cs_Rev s).

(** Of a machine's record and a cluster's, what is used here. *)
Record MachineRecord := mkMachine { mr_ID : string; mr_Cluster : string; mr_Role : string; mr_Addr : string }.
Record ClusterRecord := mkCluster { cr_ID : string; ClientCertNotAfter : time; cr_rest : list (string * string); cr_Rev : Z }.

(** Credentials of the machine API: what a server is verified against, and what is
    presented to it. *)
Record Creds := mkCreds { RootCAs : string; Crt : string; Key : string }.

Inductive RotCall : Type -> Type :=
  | Clock : RotCall time
  | GetSecrets (cluster : string) : RotCall (result store_error ClusterSecrets)
  | PutSecrets (rec : ClusterSecrets) : RotCall (result store_error ClusterSecrets)
  | GetCluster (cluster : string) : RotCall (result store_error ClusterRecord)
  | PutCluster (rec : ClusterRecord) : RotCall (result store_error ClusterRecord)
  | GetMachine (id : string) : RotCall (result store_error MachineRecord)
  | MachinesOf (cluster : string) : RotCall (result step_error (list MachineRecord))
  (** [cryptox509.NewSelfSignedCertificateAuthority], ECDSA, organization talos. *)
  | SelfSigned (not_before not_after : time) : RotCall (result string Authority)
  (** [mintClientCert] on a bundle that holds this authority. *)
  | MintClientCert (crt key : string) : RotCall (result string (string * string * time))
  (** [talos.NewClusterClient]: the connection, and one call through it. *)
  | Dial (ctx : Ctx) (m : MachineRecord) (c : Creds) : RotCall (result node_error unit)
  | ConfigYAML (ctx : Ctx) (id : string) : RotCall (result node_error string)
  | ApplyConfig (ctx : Ctx) (id config mode : string) : RotCall (result node_error (string * string)).

Abbreviation R A := (prog RotCall (result step_error A)) (only parsing).

Definition give {A} (r : result step_error A) : R A := Ret r.

Section Programs.
Context `{CALib}.

Definition stored_or {A} (r : result store_error A) : result step_error A :=
  match r with Ok a => Ok a | Err e => Err (say (store_text e)) end.
Definition answered {A} (r : result node_error A) : result step_error A :=
  match r with Ok a => Ok a | Err e => Err (node_says "" e) end.

Definition get_secrets (cluster : string) : R ClusterSecrets := r ← call (GetSecrets cluster); give (stored_or r).
Definition put_secrets (s : ClusterSecrets) : R unit :=
  r ← call (PutSecrets s); give (match r with Ok _ => Ok tt | Err e => Err (say (store_text e)) end).

(* ------------------------------------------------------------------ *)
(** ** inventory: the connection and the authority *)

Definition ErrNotFoundRecord : string := "inventory: no such record".
Definition ErrNoCertificateAuthority : string := "inventory: this cluster's stored bundle has no certificate authority key".
Definition ErrCertificateRejected : string := "inventory: no node accepted the new certificate".

Definition ClusterCreds (ca crt key : string) : result step_error Creds :=
  if negb (key_pair crt key) then Err (say "talos: client certificate and key do not match")
  else if negb (pool_from_pem ca) then Err (say "talos: certificate authority is not a PEM certificate")
  else Ok (mkCreds ca crt key).

(** [inventory.clusterCreds]. *)
Definition clusterCreds (cluster : string) : prog RotCall (result (store_error + step_error) Creds) :=
  r ← call (GetSecrets cluster);
  Ret (match r with
       | Err e => Err (inl e)
       | Ok s => match ClusterCreds (OSCACrt s) (ClientCrt s) (ClientKey s) with Ok c => Ok c | Err e => Err (inr e) end
       end).

(** [inventory.Connect]: with the credentials now in the store. *)
Definition Connect (ctx : Ctx) (id : string) : R unit :=
  m ← call (GetMachine id);
  match m with
  | Err ErrNotFound => give (Err (say ErrNotFoundRecord))
  | Err e => give (Err (say (store_text e)))
  | Ok rec =>
      c ← clusterCreds (mr_Cluster rec);
      match c with
      | Err (inl ErrNotFound) =>
          give (Err (say (if bool_decide (mr_Cluster rec = "")
            then "inventory: " +:+ id +:+ " belongs to no cluster, so there are no credentials to reach it with. Assign it to one, or provision it"
            else "inventory: cluster " +:+ mr_Cluster rec +:+ " has no stored PKI, so " +:+ id +:+ " cannot be reached. The cluster record exists and its secrets do not, which is what a forgotten cluster or a restore from an incomplete backup looks like")))
      | Err (inl e) => give (Err (say (store_text e)))
      | Err (inr e) => give (Err e)
      | Ok creds => r ← call (Dial ctx rec creds); give (answered r)
      end
  end.

(** Every machine in turn, until one lets the certificate in. *)
Fixpoint try_each (ctx : Ctx) (ms : list MachineRecord) (creds : Creds) (last : string) : R unit :=
  match ms with
  | [] => give (Err (say (ErrCertificateRejected +:+ ", so the old one has been kept and nothing has changed. The last attempt said: " +:+ last +:+ ". Either every node is unreachable, or the certificate authority in this installation's store is no longer the one the cluster trusts -- which is what an authority rotated outside holzkube-manager looks like from here")))
  | m :: ms =>
      r ← call (Dial ctx m creds);
      match r with Ok _ => give (Ok tt) | Err e => try_each ctx ms creds (err_text (ne_err e)) end
  end.

Definition provesItself (ctx : Ctx) (cluster ca crt key : string) : R unit :=
  match ClusterCreds ca crt key with
  | Err e => give (Err e)
  | Ok creds =>
      machines <-? call (MachinesOf cluster) ;;
      match machines with
      | [] => give (Err (say (ErrCertificateRejected +:+ ": this cluster has no machines in the inventory, so there is nothing to try the new certificate against. Refresh the cluster first")))
      | _ => try_each ctx machines creds ""
      end
  end.

Definition mintFrom (crt key : string) : R (string * string * time) :=
  r ← call (MintClientCert crt key); give (match r with Ok p => Ok p | Err e => Err (say e) end).

(** The expiry on the cluster's record, after the secrets. *)
Definition keep_expiry (cluster : string) (notAfter : time) : R ClusterRecord :=
  c ← call (GetCluster cluster);
  match c with
  | Err e => give (Err (say (store_text e)))
  | Ok rec =>
      let rec := mkCluster (cr_ID rec) notAfter (cr_rest rec) (cr_Rev rec) in
      p ← call (PutCluster rec);
      give (match p with Ok _ => Ok rec | Err e => Err (say (store_text e)) end)
  end.

Definition own_secrets (cluster : string) : R ClusterSecrets :=
  r ← call (GetSecrets cluster);
  give (match r with Ok s => Ok s | Err ErrNotFound => Err (say ErrNotFoundRecord) | Err e => Err (say (store_text e)) end).

Definition RenewClientCertificate (ctx : Ctx) (cluster : string) : R ClusterRecord :=
  sec <-? own_secrets cluster ;;
  if bool_decide (OSCACrt sec = "") || bool_decide (OSCAKey sec = "") then 
    give (Err (say (ErrNoCertificateAuthority +:+ ". It was adopted from a talosconfig carrying an admin certificate and no authority key, which is enough to reach the cluster and not enough to issue anything new. Import it again with a talosconfig that carries the authority, or take a fresh one from a control-plane node with `talosctl config new`"))) else
  minted <-? mintFrom (OSCACrt sec) (OSCAKey sec) ;;
  let '(crt, key, notAfter) := minted in
  do? provesItself ctx cluster (OSCACrt sec) crt key ;;
  do? put_secrets (with_client crt key sec) ;;
  keep_expiry cluster notAfter.

Definition AdoptAuthority (ctx : Ctx) (cluster : string) (a : Authority) : R ClusterRecord :=
  sec <-? own_secrets cluster ;;
  if bool_decide (a_Crt a = "") || bool_decide (a_Key a = "") then
    give (Err (say (ErrNoCertificateAuthority +:+ ": the rotation passed no authority"))) else
  minted <-? mintFrom (a_Crt a) (a_Key a) ;;
  let '(crt, key, notAfter) := minted in
  do? provesItself ctx cluster (a_Crt a) crt key ;;
  do? put_secrets (with_client crt key (with_authority (a_Crt a) (a_Key a) sec)) ;;
  keep_expiry cluster notAfter.
End Programs.

(* ------------------------------------------------------------------ *)
(** ** job.go *)

Definition JobKindRotateCA : string := "cluster.rotate-ca".
Definition AdoptBudget : duration := (5 * 60 * second)%Z.
Definition MethodApplyConfiguration : string := machineService +:+ "ApplyConfiguration".

Section Job.
Context `{Patcher} `{CALib}.

Definition Request : Type := list string.

Definition RequestFromParams (p : gmap string string) : result step_error Request :=
  match p !! "request" with
  | None => Err (say "rotateca: this job carries no request")
  | Some raw =>
      match unmarshal_request raw with
      | Err e => Err (say ("rotateca: this job's request could not be read: " +:+ e))
      | Ok [] => Err (say "rotateca: this rotation names no nodes")
      | Ok ms => Ok ms
      end
  end.
Definition request_params (r : Request) : result string (gmap string string) :=
  match marshal_request r with Ok raw => Ok {[ "request" := raw ]} | Err e => Err e end.

(** A step is done with the detail it wrote, or with an error. *)
Definition ends (p : R (option string)) : prog RotCall outcome :=
  r ← p; Ret (match r with Ok d => (d, None) | Err e => failed e end).

Definition class_ctx (method : string) : R Ctx :=
  now ← call Clock;
  give (match WithClassDeadline now job_ctx method with Ok ctx => Ok ctx | Err _ => Err (say "the call has no class") end).

Definition NewAuthority : R Authority :=
  now ← call Clock;
  r ← call (SelfSigned (now - 3600 * second)%Z (add_years 10 now));
  give (match r with Ok a => Ok a | Err e => Err (say ("rotateca: generating an authority: " +:+ e)) end).

Definition is_pending (s : ClusterSecrets) : bool := negb (bool_decide (NextOSCACrt s = "")) && negb (bool_decide (NextOSCAKey s = "")).

Definition pending (cluster : string) : R Authority :=
  sec <-? get_secrets cluster ;;
  give (if is_pending sec then Ok (mkAuthority (NextOSCACrt sec) (NextOSCAKey sec))
        else Err (say "rotateca: this cluster has no rotation in progress, so there is no new authority to write. The first step of the job generates it")).

Definition configOf (id : string) : R string :=
  ctx <-? class_ctx MethodCOSIGet ;;
  r ← call (ConfigYAML ctx id);
  give (answered r).

Definition read (id : string) : R State :=
  do? Connect job_ctx id ;;
  cfg <-? configOf id ;;
  give (Inspect cfg).

Definition roleOf (id : string) : R string :=
  r ← call (GetMachine id);
  give (match r with Ok m => Ok (mr_Role m) | Err e => Err (say (store_text e)) end).

(** The edit answers the whole new configuration, or that nothing is to be written. *)
Definition rewrite (id : string) (edit : State -> string -> string -> result step_error (option string)) : R (option string) :=
  do? Connect job_ctx id ;;
  cfg <-? configOf id ;;
  state <-? give (Inspect cfg) ;;
  role <-? roleOf id ;;
  next <-? give (edit state cfg role) ;;
  match next with
  | None => give (Ok (Some "already done"))
  | Some next =>
      ctx <-? class_ctx MethodApplyConfiguration ;;
      r ← call (ApplyConfig ctx id next "no-reboot");
      give (match answered r with Ok (mode, details) => Ok (Some (trim_space (mode +:+ " " +:+ details))) | Err e => Err e end)
  end.

Definition patch_text (e : patch_error) : string :=
  match e with
  | ErrPatchNotStrategic why => "machineconfig: only strategic merge patches are accepted: " +:+ why
  | ErrPatchInvalid why => "machineconfig: the patch could not be applied: " +:+ why
  | ErrPatchEncode why => "machineconfig: encode the patched configuration: " +:+ why
  end.
Definition patched (config patch : string) : result step_error (option string) :=
  match ApplyPatches config [patch] with Ok out => Ok (Some out) | Err e => Err (say (patch_text e)) end.

Definition prepareStep (cluster : string) : Step RotCall := mkStep "prepare a new certificate authority"
  (fun _ => ends (
     sec <-? get_secrets cluster ;;
     if is_pending sec then give (Ok None) else
     a <-? NewAuthority ;;
     do? put_secrets (with_next (a_Crt a) (a_Key a) sec) ;;
     give (Ok None)))
  (Some (fun _ => sec <-? get_secrets cluster ;; give (Ok (is_pending sec)))).

Definition accept_edit (next : Authority) (state : State) (cfg _ : string) : result step_error (option string) :=
  match AcceptPatch state (a_Crt next) with
  | None => Ok None
  | Some patch => patched cfg patch
  end.
Definition acceptStep (cluster id : string) : Step RotCall := mkStep ("let " +:+ id +:+ " accept the new authority")
  (fun _ => ends (next <-? pending cluster ;; rewrite id (accept_edit next)))
  (Some (fun _ => next <-? pending cluster ;; state <-? read id ;; give (Ok (Accepts state (a_Crt next))))).

(** What each machine said when asked whether it is ready. *)
Fixpoint ask_each (next : Authority) (ids : list string) (reached : gmap string (option step_error)) : prog RotCall (gmap string (option step_error)) :=
  match ids with
  | [] => Ret reached
  | id :: ids =>
      r ← read id;
      ask_each next ids (<[id := match r with
        | Err e => Some e
        | Ok state => if negb (Accepts state (a_Crt next)) then Some (say "it does not accept the new authority yet") else None
        end]> reached)
  end.
Definition preflightIssue (cluster : string) (req : Request) : Step RotCall := mkStep "check that every node answered before switching authority"
  (fun _ => ends (
     next <-? pending cluster ;;
     reached ← ask_each next req ∅;
     give (match RefuseUnlessEveryNodeAnswered reached with
           | Some e => Err e
           | None => Ok (Some (itoa (Z.of_nat (length req)) +:+ " nodes accept both authorities"))
           end)))
  None.

Definition issue_edit (id : string) (next : Authority) (state : State) (cfg role : string) : result step_error (option string) :=
  if IssuesFrom state (a_Crt next) then Ok None
  else if negb (Accepts state (a_Crt next)) then
    Err (say ("rotateca: " +:+ id +:+ " does not accept the new authority yet, so switching it would present a certificate its peers refuse: pass 1 has not happened here. " +:+ ErrOutOfOrder))
  else patched cfg (IssuePatch next role).
Definition issueStep (cluster id : string) : Step RotCall := mkStep ("let " +:+ id +:+ " issue from the new authority")
  (fun _ => ends (next <-? pending cluster ;; rewrite id (issue_edit id next)))
  (Some (fun _ => next <-? pending cluster ;; state <-? read id ;; give (Ok (IssuesFrom state (a_Crt next))))).

Definition adoptStep (cluster : string) : Step RotCall := mkStep "take a certificate from the new authority and prove it"
  (fun _ => ends (
     next <-? pending cluster ;;
     now ← call Clock;
     do? AdoptAuthority (WithTimeout now job_ctx AdoptBudget) cluster next ;;
     give (Ok None)))
  (Some (fun _ => sec <-? get_secrets cluster ;; give (Ok (sameCertificate (OSCACrt sec) (NextOSCACrt sec))))).

Definition only_new (newCrt : string) (s : State) : bool :=
  match AcceptedCrts s with
  | [] => IssuesFrom s newCrt
  | [one] => sameCertificate one newCrt
  | _ => false
  end.
Definition pruneStep (cluster id : string) : Step RotCall := mkStep ("let " +:+ id +:+ " stop accepting the old authority")
  (fun _ => ends (next <-? pending cluster ;; rewrite id (fun _ cfg _ => PruneConfig cfg (a_Crt next))))
  (Some (fun _ => next <-? pending cluster ;; state <-? read id ;; give (Ok (only_new (a_Crt next) state)))).

Definition finishStep (cluster : string) : Step RotCall := mkStep "record the rotation as complete"
  (fun _ => ends (
     sec <-? get_secrets cluster ;;
     if bool_decide (NextOSCACrt sec = "") then give (Ok None)
     else if negb (sameCertificate (OSCACrt sec) (NextOSCACrt sec)) then
       give (Err (say ("rotateca: the stored authority is not the one this rotation moved to, so the rotation is not complete and this step will not say it is. " +:+ ErrOutOfOrder)))
     else do? put_secrets (with_next "" "" sec) ;; give (Ok None)))
  (Some (fun _ => sec <-? get_secrets cluster ;; give (Ok (bool_decide (NextOSCACrt sec = ""))))).

(** Every node through a pass before any node into the next. *)
Definition steps (req : Request) (cluster : string) : list (Step RotCall) :=
  [prepareStep cluster] ++ map (acceptStep cluster) req ++
  [preflightIssue cluster req] ++ map (issueStep cluster) req ++
  [adoptStep cluster] ++ map (pruneStep cluster) req ++
  [finishStep cluster].

(** [Register]. *)
Definition rotate_job (j : Job) : result step_error (list (Step RotCall)) :=
  match RequestFromParams (Params j) with Ok req => Ok (steps req (Jobs.Cluster j)) | Err e => Err e end.
End Job.
