(* ===== verification/RotatePasses.v ===== *)
(** * What each pass does to a node

    The passes of [RotateCA.v] said of certificates: a configuration reads as the
    authority a node issues from and the list it accepts besides ([reads]), pass 1
    lists the issuing and the new authority, pass 2 changes the issuing one, pass 4
    leaves the new one alone. [CALaws] is what is relied on of the libraries; that
    an edited mapping differs in one value is proved of the editor. *)

From S2P Require Import Prelude GoBase64 RecordStore Jobs Transport Effects NodeActions Redact PlanGuard RotateCA.

(* ------------------------------------------------------------------ *)
(** ** What is relied on of the libraries *)

(** A document without aliases and merges, whose mappings are keys with values. *)
Fixpoint plain_node (n : node) : bool :=
  negb (bool_decide (kind n = AliasNode)) && negb (bool_decide (value n = "<<")) &&
  (negb (bool_decide (kind n = MappingNode)) || Nat.even (length (content n))) && forallb plain_node (content n).

Fixpoint keys_of (l : list node) : list string :=
  match l with k :: _ :: rest => value k :: keys_of rest | _ => [] end.

Section Readings.
Context `{Patcher} `{CALib}.

Definition plain (cfg : string) : Prop := forall doc, yaml_node cfg = Ok doc -> plain_node doc = true.

Definition begins_document (tail : string) : Prop := tail = "" \/ String.substring 0 3 tail = "---".

(** [m'] is [m] with [v] under one key and no key doubled. *)
Definition same_but (key : string) (v m m' : node) : Prop :=
  kind m' = kind m /\ mappingValue m' key = Some v /\ (forall k, k <> key -> mappingValue m' k = mappingValue m k) /\
  (NoDup (keys_of (content m)) -> NoDup (keys_of (content m'))).

(** A strategic merge appends to a list and replaces a scalar; a document edited in
    one place reads as edited there, whatever documents follow it; neither the
    patcher nor the editor writes aliases; nothing is a certificate. *)
Class CALaws := {
  empty_is_none : parse_pem "" = None;
  accept_appends : forall cfg ca acc crts out, crts <> [] -> Forall (.≠ "") crts ->
    read_cas cfg = Ok (ca, acc) -> ApplyPatches cfg [acceptedCAsPatch crts] = Ok out ->
    read_cas out = Ok (ca, acc ++ map encodeBase64 crts);
  issue_replaces : forall cfg ca acc a role out, a_Crt a <> "" ->
    read_cas cfg = Ok (ca, acc) -> ApplyPatches cfg [IssuePatch a role] = Ok out ->
    read_cas out = Ok (encodeBase64 (a_Crt a), acc);
  patched_plain : forall cfg patches out, ApplyPatches cfg patches = Ok out -> plain out;
  edited_reads : forall cfg ca acc crt doc root rest m doc' root' m' out tail, crt <> "" ->
    read_cas cfg = Ok (ca, acc) -> yaml_node cfg = Ok doc -> plain_node doc = true ->
    content doc = root :: rest -> mappingValue root "machine" = Some m ->
    kind doc' = kind doc -> content doc' = root' :: rest ->
    same_but "machine" m' root root' -> same_but "acceptedCAs" (kept crt) m m' ->
    yaml_of_node doc' = Ok out -> begins_document tail ->
    read_cas (out +:+ tail) = Ok (ca, [encodeBase64 crt]);
  machine_is_mapping : forall cfg ca acc doc root rest m, ca <> "" ->
    read_cas cfg = Ok (ca, acc) -> yaml_node cfg = Ok doc -> plain_node doc = true ->
    content doc = root :: rest -> mappingValue root "machine" = Some m -> kind m = MappingNode;
  edited_plain : forall doc out tail, plain_node doc = true -> yaml_of_node doc = Ok out -> begins_document tail -> plain (out +:+ tail)
}.

(* ------------------------------------------------------------------ *)
(** ** A node's authorities as certificates *)

(** The configuration says that the node issues from [i] and lists [l]. *)
Definition reads (cfg : string) (i : cert) (l : list cert) : Prop :=
  plain cfg /\ exists st, Inspect cfg = Ok st /\ parse_pem (IssuingCrt st) = Some i /\ map parse_pem (AcceptedCrts st) = map Some l.

Lemma same_iff a b : sameCertificate a b = true <-> exists c, parse_pem a = Some c /\ parse_pem b = Some c.
Proof.
  unfold sameCertificate, parseCertificate. destruct (parse_pem a) as [x|], (parse_pem b) as [y|]; split; try done;
    try (intros (c & [=] & [=]); done); try (intros (c & ? & [=]); done).
  - intros E%bool_decide_eq_true. exists x. by subst.
  - intros (c & [= ->] & [= ->]). by apply bool_decide_eq_true.
Qed.

Lemma same_some a b c : parse_pem b = Some c -> sameCertificate a b = true <-> parse_pem a = Some c.
Proof.
  intros E. rewrite same_iff. split; [intros (d & Ha & Hb); congruence|]. intros Ha. by exists c.
Qed.

Lemma listed_iff have crt c l :
  map parse_pem have = map Some l -> parse_pem crt = Some c -> listed have crt = true <-> c ∈ l.
Proof.
  intros Hm Hc. unfold listed. rewrite existsb_exists. split.
  - intros (x & Hx%list_elem_of_In & Hs%(same_some x crt c Hc)).
    assert (Hin : Some c ∈ map parse_pem have) by (rewrite <- Hs; by apply list_elem_of_fmap_2).
    rewrite Hm in Hin. by apply list_elem_of_fmap in Hin as (d & [= <-] & Hd).
  - intros Hin. assert (Hs : Some c ∈ map parse_pem have) by (rewrite Hm; by apply list_elem_of_fmap_2).
    apply list_elem_of_fmap in Hs as (x & Hx & Hin'). exists x. split; [by apply list_elem_of_In|]. by apply (same_some x crt c Hc).
Qed.

Lemma listed_not have crt c l :
  map parse_pem have = map Some l -> parse_pem crt = Some c -> listed have crt = false <-> c ∉ l.
Proof. intros Hm Hc. rewrite <- (listed_iff have crt c l Hm Hc). by destruct (listed have crt). Qed.

Lemma accepts_iff st i l crt c :
  parse_pem (IssuingCrt st) = Some i -> map parse_pem (AcceptedCrts st) = map Some l -> parse_pem crt = Some c ->
  Accepts st crt = true <-> c = i \/ c ∈ l.
Proof.
  intros Hi Hl Hc. unfold Accepts. rewrite orb_true_iff, (same_some _ _ _ Hc), (listed_iff _ _ _ _ Hl Hc), Hi. naive_solver.
Qed.

Context `{!CALaws}.

Lemma decoded_certificate s : decodeBase64PEM s <> "" -> is_Some (parse_pem (decodeBase64PEM s)).
Proof. unfold decodeBase64PEM, parseCertificate. repeat case_match; repeat case_bool_decide; try done; by intros []. Qed.

Lemma decoded_back crt c : parse_pem crt = Some c -> decodeBase64PEM (encodeBase64 crt) = crt.
Proof.
  intros Hc. unfold decodeBase64PEM, parseCertificate. destruct (decide (crt = "")) as [->|Hne]; [by rewrite empty_is_none in Hc|].
  rewrite bool_decide_false by by apply base64_nonempty. unfold encodeBase64. rewrite base64_round_trip. by rewrite bool_decide_true by by rewrite Hc.
Qed.

Lemma certificate_nonempty crt c : parse_pem crt = Some c -> crt <> "".
Proof. intros Hc ->. by rewrite empty_is_none in Hc. Qed.

(** The certificates of a list as it stands in a configuration. *)
Definition certs_of (acc : list string) (l : list cert) : Prop :=
  map parse_pem (filter (.≠ "") (map decodeBase64PEM acc)) = map Some l.

Lemma certs_exist acc : exists l, certs_of acc l.
Proof.
  unfold certs_of. induction acc as [|a acc [l IH]]; [by exists []|]. cbn [map]. rewrite filter_cons. case_decide as Hd; [|by exists l].
  destruct (decoded_certificate a Hd) as [c Hc]. exists (c :: l). cbn. by rewrite Hc, IH.
Qed.

Lemma certs_app acc acc' l l' : certs_of acc l -> certs_of acc' l' -> certs_of (acc ++ acc') (l ++ l').
Proof. unfold certs_of. intros E E'. by rewrite map_app, filter_app, !map_app, E, E'. Qed.

Lemma certs_encoded crts l : map parse_pem crts = map Some l -> certs_of (map encodeBase64 crts) l.
Proof.
  unfold certs_of. revert l. induction crts as [|a crts IH]; intros [|c l]; cbn [map]; try done. intros [= Hc Hl].
  rewrite (decoded_back a c Hc), filter_cons, decide_True by by eapply certificate_nonempty. cbn. by rewrite Hc, (IH l).
Qed.

Lemma reads_intro cfg ca acc i l :
  plain cfg -> read_cas cfg = Ok (ca, acc) -> parse_pem (decodeBase64PEM ca) = Some i -> certs_of acc l -> reads cfg i l.
Proof.
  intros Hp Hr Hi Hl. split; [done|].
  exists (mkState (decodeBase64PEM ca) (filter (.≠ "") (map decodeBase64PEM acc))). split; [|done]. unfold Inspect. rewrite Hr. cbn [IssuingCrt].
  rewrite bool_decide_false; [done|]. by eapply certificate_nonempty.
Qed.

Lemma reads_inv cfg i l st :
  reads cfg i l -> Inspect cfg = Ok st ->
  parse_pem (IssuingCrt st) = Some i /\ map parse_pem (AcceptedCrts st) = map Some l /\
  exists ca acc, read_cas cfg = Ok (ca, acc) /\ parse_pem (decodeBase64PEM ca) = Some i /\ certs_of acc l.
Proof.
  intros (_ & st' & E & Hi & Hl) E'. assert (st' = st) as -> by congruence. split_and!; [done..|].
  unfold Inspect in E. destruct (read_cas cfg) as [[ca acc]|]; [|done]. destruct (bool_decide _); [done|]. injection E as <-. by exists ca, acc.
Qed.

Lemma inspected cfg st : plain cfg -> Inspect cfg = Ok st -> exists i l, reads cfg i l.
Proof.
  unfold Inspect. intros Hp. destruct (read_cas cfg) as [[ca acc]|] eqn:E; [|done]. case_bool_decide as Hd; [done|]. intros _.
  destruct (decoded_certificate ca Hd) as [i Hi]. destruct (certs_exist acc) as [l Hl]. exists i, l. by eapply reads_intro.
Qed.

(* ------------------------------------------------------------------ *)
(** ** What each pass does to a configuration *)

Lemma patched_ok cfg patch r : patched cfg patch = Ok r -> exists out, r = Some out /\ ApplyPatches cfg [patch] = Ok out.
Proof. unfold patched. destruct (ApplyPatches cfg [patch]) as [out|]; [|done]. intros [= <-]. by exists out. Qed.

(** The patch of pass 1 names what is missing, and what is missing are certificates. *)
Lemma accept_patch_missing st i l crt n :
  parse_pem (IssuingCrt st) = Some i -> map parse_pem (AcceptedCrts st) = map Some l -> parse_pem crt = Some n ->
  match AcceptPatch st crt with
  | None => i ∈ l /\ n ∈ l
  | Some patch => exists crts k, patch = acceptedCAsPatch crts /\ crts <> [] /\ map parse_pem crts = map Some k /\
      i ∈ l ++ k /\ n ∈ l ++ k /\ (forall c, c ∈ k -> c = i \/ c = n)
  end.
Proof.
  intros Hi Hl Hn. unfold AcceptPatch, dedupeCertificates, dedupe_step. cbn [fold_left existsb].
  rewrite (bool_decide_false (IssuingCrt st = "")) by by eapply certificate_nonempty. cbn [orb app existsb].
  rewrite (bool_decide_false (crt = "")) by by eapply certificate_nonempty. cbn [orb]. rewrite orb_false_r.
  pose proof (listed_iff _ _ _ _ Hl Hi) as Li. pose proof (listed_iff _ _ _ _ Hl Hn) as Ln.
  destruct (sameCertificate (IssuingCrt st) crt) eqn:E.
  - apply (same_some _ _ _ Hn) in E. assert (n = i) as -> by congruence. rewrite filter_cons, filter_nil.
    case_decide as D; [|destruct (listed (AcceptedCrts st) (IssuingCrt st)) eqn:?; naive_solver].
    exists [IssuingCrt st], [i]. cbn. rewrite Hi. set_solver.
  - cbn [app]. rewrite !filter_cons, filter_nil.
    destruct (listed (AcceptedCrts st) (IssuingCrt st)), (listed (AcceptedCrts st) crt); cbn.
    + naive_solver.
    + exists [crt], [n]. cbn. rewrite Hn. set_solver.
    + exists [IssuingCrt st], [i]. cbn. rewrite Hi. set_solver.
    + exists [IssuingCrt st; crt], [i; n]. cbn. rewrite Hi, Hn. set_solver.
Qed.

(** Pass 1 lists both authorities, and no third. *)
Lemma accept_effect cfg st role i l next n :
  reads cfg i l -> Inspect cfg = Ok st -> parse_pem (a_Crt next) = Some n ->
  match accept_edit next st cfg role with
  | Ok None => i ∈ l /\ n ∈ l
  | Ok (Some out) => exists l', reads out i l' /\ i ∈ l' /\ n ∈ l'
  | Err _ => True
  end.
Proof.
  intros Hr Hst Hn. destruct (reads_inv _ _ _ _ Hr Hst) as (Hi & Hl & ca & acc & Hraw & Hca & Hacc).
  unfold accept_edit. pose proof (accept_patch_missing st i l (a_Crt next) n Hi Hl Hn) as Hp.
  destruct (AcceptPatch st (a_Crt next)) as [patch|]; [|done]. destruct (patched cfg patch) as [[out|]|e] eqn:E; [| |done].
  2:{ apply patched_ok in E as (? & [=] & _). }
  apply patched_ok in E as (? & [= <-] & E). destruct Hp as (crts & k & -> & Hne & Hk & Hii & Hnn & _).
  exists (l ++ k). split_and!; [|done..].
  eapply reads_intro; [by eapply patched_plain| |exact Hca|apply certs_app; [exact Hacc|by apply certs_encoded]].
  apply (accept_appends cfg ca acc crts out); [done| |done|done].
  apply Forall_forall. intros c Hc. assert (Hs : parse_pem c ∈ map Some k) by (rewrite <- Hk; by apply list_elem_of_fmap_2).
  apply list_elem_of_fmap in Hs as (d & Hd & _). by eapply certificate_nonempty.
Qed.

(** Pass 2 changes what the node issues from, on a node that lists the new authority
    or issues from it. *)
Lemma issue_effect id cfg st role i l next n :
  reads cfg i l -> Inspect cfg = Ok st -> parse_pem (a_Crt next) = Some n ->
  match issue_edit id next st cfg role with
  | Ok None => i = n
  | Ok (Some out) => reads out n l /\ n ∈ l
  | Err _ => True
  end.
Proof.
  intros Hr Hst Hn. destruct (reads_inv _ _ _ _ Hr Hst) as (Hi & Hl & ca & acc & Hraw & Hca & Hacc).
  unfold issue_edit, IssuesFrom. destruct (sameCertificate (IssuingCrt st) (a_Crt next)) eqn:Es.
  { apply (same_some _ _ _ Hn) in Es. congruence. }
  destruct (Accepts st (a_Crt next)) eqn:Ea; cbn [negb]; [|done].
  apply (accepts_iff st i l _ n Hi Hl Hn) in Ea as [->|Ea].
  { by rewrite (proj2 (same_some _ _ _ Hn) Hi) in Es. }
  destruct (patched cfg (IssuePatch next role)) as [[out|]|e] eqn:E; [| |done].
  2:{ apply patched_ok in E as (? & [=] & _). }
  apply patched_ok in E as (? & [= <-] & E). split; [|done].
  eapply reads_intro; [by eapply patched_plain|by eapply issue_replaces; [eapply certificate_nonempty|..]| |exact Hacc].
  by rewrite (decoded_back _ n).
Qed.

Lemma pairs_ind {A} (P : list A -> Prop) :
  P [] -> (forall a, P [a]) -> (forall a b l, P l -> P (a :: b :: l)) -> forall l, P l.
Proof. intros P0 P1 P2. fix IH 1. intros [|a [|b l]]; [done|done|]. apply P2, IH. Qed.

Lemma set_value_found l key v l' :
  set_value l key v = Some l' ->
  value_of l' key = Some v /\ (forall k, k <> key -> value_of l' k = value_of l k) /\ keys_of l' = keys_of l.
Proof.
  revert l'. induction l as [| |a old l IH] using pairs_ind; intros l'; cbn; [done|done|].
  case_bool_decide as Hk.
  - intros [= <-]. cbn. rewrite bool_decide_true by done. split_and!; [done| |done]. intros k Hne. by rewrite bool_decide_false by congruence.
  - destruct (set_value l key v) as [l2|]; [|done]. intros [= <-]. destruct (IH l2 eq_refl) as (V1 & V2 & V3). cbn.
    rewrite bool_decide_false by done. split_and!; [done| |by rewrite V3]. intros k Hne. case_bool_decide; [done|]. by apply V2.
Qed.

Lemma set_value_absent l key v : set_value l key v = None <-> key ∉ keys_of l.
Proof.
  induction l as [| |a old l IH] using pairs_ind; cbn; [by set_solver..|]. case_bool_decide as Hk; [set_solver|].
  destruct (set_value l key v); cbn; set_solver.
Qed.

Lemma value_appended l key k v :
  Nat.even (length l) = true -> key ∉ keys_of l ->
  value_of (l ++ [k; v]) key = (if bool_decide (value k = key) then Some v else None) /\
  (forall k', k' <> value k -> value_of (l ++ [k; v]) k' = value_of l k') /\ keys_of (l ++ [k; v]) = keys_of l ++ [value k].
Proof.
  induction l as [|a|a old l IH] using pairs_ind; cbn; [|done|].
  - intros _ _. split_and!; [done| |done]. intros k' Hne. by rewrite bool_decide_false by congruence.
  - intros He Hk. destruct IH as (V1 & V2 & V3); [done|set_solver|]. rewrite (bool_decide_false (value a = key)) by set_solver.
    split_and!; [done| |by rewrite V3]. intros k' Hne. rewrite V2 by done. done.
Qed.

(** What the editor does to a mapping: one value, and nothing else. *)
Lemma set_mapping_same m key v :
  kind m = MappingNode -> Nat.even (length (content m)) = true -> same_but key v m (setMappingValue m key v).
Proof.
  intros Hk He. unfold same_but, setMappingValue, mappingValue, with_content. cbn. rewrite Hk, bool_decide_true by done.
  destruct (set_value (content m) key v) as [l'|] eqn:E; cbn.
  - destruct (set_value_found _ _ _ _ E) as (V1 & V2 & V3). split_and!; [done..|]. by rewrite V3.
  - apply set_value_absent in E. destruct (value_appended (content m) key (bare ScalarNode key []) v He E) as (V1 & V2 & V3).
    split_and!; [done| |exact V2|].
    + rewrite V1. by rewrite bool_decide_true by done.
    + rewrite V3. intros Hd. apply NoDup_app. split_and!; [done|set_solver|apply NoDup_singleton].
Qed.

Lemma value_of_set l key v : is_Some (value_of l key) -> is_Some (set_value l key v).
Proof.
  intros [old Ho]. destruct (set_value l key v) as [l'|] eqn:E; [done|]. exfalso. apply set_value_absent in E. revert Ho E.
  induction l as [| |a b l IH] using pairs_ind; cbn; [done..|]. case_bool_decide; set_solver.
Qed.

Lemma value_of_plain l key v : forallb plain_node l = true -> value_of l key = Some v -> plain_node v = true.
Proof.
  induction l as [| |a b l IH] using pairs_ind; cbn -[plain_node]; [done..|]. rewrite !andb_true_iff. intros (_ & Hb & Hl).
  case_bool_decide; [congruence|by apply IH].
Qed.

Lemma set_value_plain l key v l' :
  forallb plain_node l = true -> plain_node v = true -> set_value l key v = Some l' -> forallb plain_node l' = true /\ length l' = length l.
Proof.
  intros Hl Hv. revert Hl l'. induction l as [| |a b l IH] using pairs_ind; cbn -[plain_node]; [done..|].
  rewrite !andb_true_iff. intros (Ha & Hb & Hl) l'. case_bool_decide; [intros [= <-]; cbn -[plain_node]; by rewrite Ha, Hv, Hl|].
  destruct (set_value l key v) as [l2|]; [|done]. intros [= <-]. destruct (IH Hl l2 eq_refl) as [E1 E2]. cbn -[plain_node].
  by rewrite Ha, Hb, E1, E2.
Qed.

Lemma plain_parts n :
  plain_node n = true <->
  kind n <> AliasNode /\ value n <> "<<" /\ (kind n = MappingNode -> Nat.even (length (content n)) = true) /\ forallb plain_node (content n) = true.
Proof.
  destruct n as [k v c st l]. cbn [plain_node kind value content]. rewrite !andb_true_iff, orb_true_iff, !negb_true_iff, !bool_decide_eq_false.
  destruct (decide (k = MappingNode)); naive_solver.
Qed.

Lemma kept_plain crt : plain_node (kept crt) = true.
Proof.
  apply plain_parts. split_and!; [done..|]. cbn [kept content bare forallb]. rewrite andb_true_r. apply plain_parts. split_and!; [done..|].
  cbn [content bare forallb]. rewrite andb_true_r. apply andb_true_iff. split; [by vm_compute|]. apply plain_parts. split_and!; [done| |done..].
  cbn [value bare]. intros E. pose proof (base64_chars crt) as Hc. unfold encodeBase64 in E. rewrite E in Hc. by vm_compute in Hc.
Qed.

Lemma set_mapping_plain m key v :
  plain_node m = true -> plain_node v = true -> key <> "<<" -> plain_node (setMappingValue m key v) = true.
Proof.
  intros (Hk & Hv & He & Hc)%plain_parts Hpv Hkey. apply plain_parts. unfold setMappingValue, with_content. cbn [kind value content].
  destruct (set_value (content m) key v) as [l'|] eqn:E; cbn [default].
  - destruct (set_value_plain _ _ _ _ Hc Hpv E) as [E1 E2]. split_and!; [done|done| |done]. intros Hm. cbn in *. rewrite E2. auto.
  - split_and!; [done|done| |].
    + intros Hm. rewrite length_app, Nat.even_add, He by done. done.
    + rewrite forallb_app, Hc. cbn [forallb]. rewrite Hpv, andb_true_r. by apply plain_parts.
Qed.

Lemma document_break_begins b i raw j : document_break b i raw = Some j -> i <= j /\ begins_document (string_drop (j - i) raw).
Proof.
  revert b i. induction raw as [|c raw IH]; intros b i; cbn [document_break]; [done|].
  destruct (bool_decide (3 < _) && b && bool_decide (String.substring 0 3 (String c raw) = "---")) eqn:E.
  - intros [= <-]. rewrite Nat.sub_diag. split; [done|]. right. apply andb_true_iff in E as [_ E]. by apply bool_decide_eq_true in E.
  - intros Hb. destruct (IH _ _ Hb) as [Hle Hd]. split; [lia|]. replace (j - i) with (S (j - S i)) by lia. done.
Qed.

Lemma tail_begins raw : begins_document (tail_documents raw).
Proof.
  unfold tail_documents, documentBreak. destruct (document_break true 0 raw) as [j|] eqn:E; [|by left].
  apply document_break_begins in E as [_ E]. by rewrite Nat.sub_0_r in E.
Qed.

(** Pass 4 leaves the one list, and the rest of the machine's section and of the
    documents as they read before. *)
Lemma pruned_reads cfg ca acc crt out :
  crt <> "" -> ca <> "" -> plain cfg -> read_cas cfg = Ok (ca, acc) -> pruned cfg crt = Ok out -> plain out /\ read_cas out = Ok (ca, [encodeBase64 crt]).
Proof.
  intros Hne Hca Hp Hr. unfold pruned. destruct (yaml_node cfg) as [doc|e] eqn:Ey; [|done]. pose proof (Hp _ Ey) as Hd.
  destruct (kind doc) eqn:Ek; try done. destruct (content doc) as [|root rest] eqn:Ec; [done|].
  destruct (mappingValue root "machine") as [m|] eqn:Em; [|done].
  set (m' := setMappingValue m "acceptedCAs" (kept crt)). set (doc' := set_machine doc m').
  destruct (yaml_of_node doc') as [text|e] eqn:Et; [|done]. intros [= <-].
  pose proof (proj1 (plain_parts _) Hd) as (_ & Hdv & _ & Hdc). rewrite Ec in Hdc. cbn [forallb] in Hdc. apply andb_true_iff in Hdc as [Hroot Hrest].
  pose proof (proj1 (plain_parts _) Hroot) as (_ & Hrv & Hre & Hrc).
  unfold mappingValue in Em. destruct (bool_decide (kind root = MappingNode)) eqn:Ekr; [|done]. apply bool_decide_eq_true in Ekr.
  pose proof (value_of_plain _ _ _ Hrc Em) as Hm.
  assert (Hm' : plain_node m' = true) by (by apply set_mapping_plain; [..|apply kept_plain|]).
  destruct (value_of_set (content root) "machine" m') as [l' El]; [by eexists|].
  assert (Edoc : doc' = with_content doc (setMappingValue root "machine" m' :: rest)).
  { unfold doc', set_machine, setMappingValue. by rewrite Ec, El. }
  assert (Hdoc' : plain_node doc' = true).
  { rewrite Edoc. apply plain_parts. unfold with_content. cbn [kind value content]. rewrite Ek. split_and!; [done..|].
    cbn [forallb]. rewrite Hrest, andb_true_r. by apply set_mapping_plain. }
  split; [by eapply edited_plain; [..|apply tail_begins]|].
  assert (Hkm : kind m = MappingNode).
  { eapply (machine_is_mapping cfg ca acc doc root rest); [done..|]. unfold mappingValue. by rewrite Ekr. }
  eapply (edited_reads cfg ca acc crt doc root rest m doc' (setMappingValue root "machine" m') m');
    [done..|by unfold mappingValue; rewrite Ekr|by rewrite Edoc|by rewrite Edoc| | |done|apply tail_begins].
  - apply set_mapping_same; [done|by apply Hre].
  - apply set_mapping_same; [done|]. pose proof (proj1 (plain_parts _) Hm) as (_ & _ & He & _). by apply He.
Qed.

Lemma prune_effect cfg st i l crt n :
  reads cfg i l -> Inspect cfg = Ok st -> parse_pem crt = Some n ->
  match PruneConfig cfg crt with
  | Ok None => i = n /\ (forall c, c ∈ l -> c = n)
  | Ok (Some out) => i = n /\ reads out n [n]
  | Err _ => True
  end.
Proof.
  intros Hr Hst Hn. destruct (reads_inv _ _ _ _ Hr Hst) as (Hi & Hl & ca & acc & Hraw & Hca & Hacc).
  unfold PruneConfig. rewrite Hst. unfold IssuesFrom. destruct (sameCertificate (IssuingCrt st) crt) eqn:Es; cbn [negb]; [|done].
  apply (same_some _ _ _ Hn) in Es. assert (i = n) as -> by congruence.
  assert (Hca' : ca <> "") by (intros ->; change (decodeBase64PEM "") with "" in Hca; by rewrite empty_is_none in Hca).
  assert (Hw : match (match pruned cfg crt with Ok out => Ok (Some out) | Err e => Err e end : result step_error (option string)) with
               | Ok None => False | Ok (Some out) => reads out n [n] | Err _ => True end).
  { destruct (pruned cfg crt) as [out|e] eqn:E; [|done].
    destruct (pruned_reads cfg ca acc crt out) as [Hp' Hr']; [by eapply certificate_nonempty|done|by destruct Hr|done|done|].
    eapply reads_intro; [done|done|done|]. apply (certs_encoded [crt] [n]). cbn. by rewrite Hn. }
  destruct (AcceptedCrts st) as [|one [|two more]] eqn:Ea.
  - destruct l; [|done]. split; [done|]. intros c Hc. by apply not_elem_of_nil in Hc.
  - destruct (sameCertificate one crt) eqn:Eo.
    + apply (same_some _ _ _ Hn) in Eo. destruct l as [|c [|]]; try done. cbn in Hl. rewrite Eo in Hl. injection Hl as <-.
      split; [done|]. intros c Hc. by apply list_elem_of_singleton in Hc.
    + destruct (match pruned cfg crt with Ok _ => _ | Err _ => _ end) as [[out|]|]; [by split|done|done].
  - destruct (match pruned cfg crt with Ok _ => _ | Err _ => _ end) as [[out|]|]; [by split|done|done].
Qed.

(** The reading of a node's authorities needs no loader of its configuration, and
    pass 1 does: where the loader refuses a document the pass fails. *)
Lemma a_refused_document_stops_pass_one cfg e st role next patch :
  NewFromBytes cfg = Err e -> AcceptPatch st (a_Crt next) = Some patch -> exists why, accept_edit next st cfg role = Err why.
Proof. intros Hn Hp. unfold accept_edit, patched, ApplyPatches. rewrite Hp, Hn. eauto. Qed.

(** A configuration that begins with a separator is carried over whole as another
    document of itself. *)
Example a_leading_separator_doubles :
  let cfg := line "---" +:+ line "machine: {}" in documentBreak cfg = Some 0 /\ tail_documents cfg = cfg.
Proof. split; by vm_compute. Qed.
End Readings.
