(* ===== verification/RotateWalk.v ===== *)
(** * The walk of a rotation

    The world a rotation of [RotateCA.v] runs in: the configuration every node holds
    and the stored secrets, with what others do to both between two calls, and a
    connection that is made only where the node's certificate is from an authority in
    the credentials and the node accepts the one presented. [Inv] says where the
    cluster is before each step, and [walk_phases] that every walk of the job keeps
    to it. *)

From S2P Require Import Prelude GoBase64 RecordStore Jobs Transport Effects NodeActions Redact PlanGuard RotateCA RotatePasses.
From S2P Require Export Walk.

(* ------------------------------------------------------------------ *)
(** ** The world *)

Abbreviation secrets_files := (gmap string (option ClusterSecrets)) (only parsing).

(** What others left between two calls, what this installation wrote, and whom it
    dialled. *)
Inductive RotEvent :=
  | Meanwhile (confs : string -> string) (files : secrets_files)
  | Applied (id config : string)
  | Kept (files : secrets_files)
  | Dialled (id : string) (c : Creds) (ok : bool).

Record Now := mkNow { confs : string -> string; files : secrets_files }.
Definition nothing_yet : Now := mkNow (fun _ => "") ∅.

Definition happens (s : Now) (e : RotEvent) : Now :=
  match e with
  | Meanwhile c f => mkNow c f
  | Applied id config => mkNow (fun i => if bool_decide (i = id) then config else confs s i) (files s)
  | Kept f => mkNow (confs s) f
  | Dialled _ _ _ => s
  end.
Definition now_of (tr : list RotEvent) : Now := fold_left happens tr nothing_yet.

Lemma now_snoc tr e : now_of (tr ++ [e]) = happens (now_of tr) e.
Proof. unfold now_of. by rewrite fold_left_app. Qed.

(** What the environment chooses for one call. *)
Record rchoice := mkRChoice {
  x_confs : (string -> string) -> string -> string;
  x_files : secrets_files -> secrets_files;
  x_now : time;
  x_fault : fault;
  x_machine : string -> result store_error MachineRecord;
  x_machines : result step_error (list MachineRecord);
  x_cluster : result store_error ClusterRecord;
  x_signed : result string Authority;
  x_minted : string -> string -> result string (string * string * time);
  x_node : option node_error;
  x_landed : bool;
  x_applied : string * string }.

Definition tls_refused : node_error := 
  mkNodeError (mkErr None false false false (Some (14%Z, "tls: failed to verify certificate")) "tls: failed to verify certificate") false false false.

Section World.
Context `{Patcher} `{CALib}.

(** The node presents a certificate from an authority in the credentials, and accepts
    the authority the presented one is from. *)
Definition accepts_client (st : State) (crt : string) : bool :=
  match issued_by crt with
  | Some c => existsb (fun a => bool_decide (parse_pem a = Some c)) (IssuingCrt st :: AcceptedCrts st)
  | None => false
  end.
Definition lets_in (config : string) (c : Creds) : bool :=
  match Inspect config with
  | Ok st => sameCertificate (IssuingCrt st) (RootCAs c) && accepts_client st (Crt c)
  | Err _ => false
  end.

Definition rot_act (R : Type) (c : RotCall R) (x : rchoice) (w0 : list RotEvent) : R * list RotEvent :=
  let w := w0 ++ [Meanwhile (x_confs x (confs (now_of w0))) (x_files x (files (now_of w0)))] in
  let s := now_of w in
  match c in RotCall R return R * list RotEvent with
  | Clock => (x_now x, w)
  | GetSecrets cluster => (store_get (x_fault x) (files s) cluster, w)
  | PutSecrets rec => let '(f, r) := store_put (x_fault x) (files s) rec in (r, w ++ [Kept f])
  | GetCluster cluster => (x_cluster x, w)
  | PutCluster rec => (x_cluster x, w)
  | GetMachine id => (x_machine x id, w)
  | MachinesOf cluster => (x_machines x, w)
  | SelfSigned _ _ => (x_signed x, w)
  | MintClientCert crt key => (x_minted x crt key, w)
  | Dial ctx m c =>
      let r := match x_node x with
               | Some e => Err e
               | None => if lets_in (confs s (mr_ID m)) c then Ok tt else Err tls_refused
               end in
      (r, w ++ [Dialled (mr_ID m) c (is_ok r)])
  | ConfigYAML ctx id => (match x_node x with Some e => Err e | None => Ok (confs s id) end, w)
  | ApplyConfig ctx id config mode =>
      match x_node x with
      | Some e => (Err e, if x_landed x then w ++ [Applied id config] else w)
      | None => (Ok (x_applied x), w ++ [Applied id config])
      end
  end.
#[global] Instance rot_handler : Handler RotCall (list RotEvent) rchoice := rot_act.

(** Others leave a node's authorities and the stored ones alone, whatever else they
    change: settings, the client certificate for another from the same authority. *)
Definition same_authorities (cfg cfg' : string) : Prop := forall i l, reads cfg i l -> reads cfg' i l.
Definition same_trust (s s' : ClusterSecrets) : Prop :=
  cs_Cluster s' = cs_Cluster s /\ OSCACrt s' = OSCACrt s /\ issued_by (ClientCrt s') = issued_by (ClientCrt s) /\
  NextOSCACrt s' = NextOSCACrt s /\ NextOSCAKey s' = NextOSCAKey s.

(** What is new: certificates nobody has seen. *)
Variable fresh : cert -> Prop.

Definition calm (x : rchoice) : Prop :=
  (forall c id, same_authorities (c id) (x_confs x c id)) /\
  (forall f cluster s, f !! cluster = Some (Some s) -> exists s', x_files x f !! cluster = Some (Some s') /\ same_trust s s') /\
  (forall a, x_signed x = Ok a -> a_Key a <> "" /\ exists n, parse_pem (a_Crt a) = Some n /\ fresh n) /\
  (forall ca key crt k t, x_minted x ca key = Ok (crt, k, t) -> issued_by crt = parse_pem ca).

Lemma rot_act_deeds R (c : RotCall R) x w : exists l, (act c x w).2 = w ++ l /\ omap (fun _ : RotEvent => @None Empty_set) l = option_list (@None Empty_set).
Proof.
  assert (Hn : forall l : list RotEvent, omap (fun _ => @None Empty_set) l = []) by (induction l; done).
  unfold act, rot_handler, rot_act. destruct c; cbn -[now_of store_put]; rewrite ?Hn;
    try (eexists; split; [reflexivity|apply Hn]).
  - destruct (store_put _ _ _). cbn. rewrite <- (assoc_L (++)). eexists. split; [reflexivity|apply Hn].
  - rewrite <- (assoc_L (++)). eexists. split; [reflexivity|apply Hn].
  - destruct (x_node x), (x_landed x); cbn; rewrite <- ?(assoc_L (++)); eexists; (split; [reflexivity|apply Hn]).
Qed.

#[global] Instance rot_deeds : Deeds RotCall (list RotEvent) rchoice := {|
  Event := RotEvent;
  Deed := Empty_set;
  history := fun w => w;
  undisturbed := calm;
  event_deed := fun _ => None;
  call_deed := fun _ _ => None;
  act_deeds := fun R c x w _ => rot_act_deeds R c x w
|}.
End World.

(* ------------------------------------------------------------------ *)
(** ** What stays while others work *)

(** Programs are followed call by call, never computed through. *)
#[local] Arguments wp : simpl never.

Section Stable.
Context `{Patcher} `{CALib} (fresh : cert -> Prop).
Implicit Types (w v : list RotEvent) (J : list RotEvent -> Prop).

Abbreviation silently x w := (w ++ [Meanwhile (x_confs x (confs (now_of w))) (x_files x (files (now_of w)))]) (only parsing).

(** Others and a connection leave [J] true. *)
Definition stable J : Prop :=
  (forall w x, calm fresh x -> J w -> J (silently x w)) /\ (forall w id c b, J w -> J (w ++ [Dialled id c b])).

Lemma stable_and J J' : stable J -> stable J' -> stable (fun w => J w /\ J' w).
Proof. intros [A1 A2] [B1 B2]. split; [intros w x Hx []; split; auto|intros w id c b []; split; auto]. Qed.

Lemma stable_ex {A} (J : A -> list RotEvent -> Prop) : (forall a, stable (J a)) -> stable (fun w => exists a, J a w).
Proof.
  intros HJ. split; [intros w x Hx [a Ha]; exists a; by apply (HJ a)|intros w id c b [a Ha]; exists a; by apply (HJ a)].
Qed.

(** The configuration of a node reads as it did. *)
Definition node_reads (id : string) (i : cert) (l : list cert) w : Prop := reads (confs (now_of w) id) i l.

Lemma stable_reads id i l : stable (node_reads id i l).
Proof.
  unfold node_reads. split.
  - intros w x (Hc & _) Hr. rewrite now_snoc. cbn. by apply Hc.
  - intros w d c b Hr. by rewrite now_snoc.
Qed.

(** The stored secrets are such that others keep them so. *)
Definition holds (cluster : string) (T : ClusterSecrets -> Prop) w : Prop :=
  exists s, files (now_of w) !! cluster = Some (Some s) /\ T s.

Lemma stable_holds cluster (T : ClusterSecrets -> Prop) :
  (forall s s', same_trust s s' -> T s -> T s') -> stable (holds cluster T).
Proof.
  intros HT. unfold holds. split.
  - intros w x (_ & Hf & _) (s & Hs & Ht). rewrite now_snoc. cbn. destruct (Hf _ _ _ Hs) as (s' & Hs' & Hst). exists s'. eauto.
  - intros w d c b Hr. by rewrite now_snoc.
Qed.

(** Calls that write nothing here. *)
Definition writes_nothing {R} (c : RotCall R) : Prop :=
  match c with PutSecrets _ | ApplyConfig _ _ _ _ => False | _ => True end.
Fixpoint silent {A} (p : prog RotCall A) : Prop :=
  match p with Ret _ | Stuck => True | Act c k => writes_nothing c /\ forall r, silent (k r) end.

Lemma silent_bind {A B} (p : prog RotCall A) (f : A -> prog RotCall B) : silent p -> (forall a, silent (f a)) -> silent (p ≫= f).
Proof. intros Hp Hf. induction p as [a| |R c k IH]; [apply Hf|done|]. destruct Hp as [Hc Hk]. split; [done|]. intros r. by apply IH. Qed.
Lemma silent_try {A B E} (p : prog RotCall (result E A)) (f : A -> prog RotCall (result E B)) :
  silent p -> (forall a, silent (f a)) -> silent (try f p).
Proof. intros Hp Hf. apply silent_bind; [done|]. intros [a|e]; [apply Hf|done]. Qed.

Abbreviation rwp J := (wp (W := list RotEvent) (calm fresh) J) (only parsing).

Lemma act_silent J R (c : RotCall R) x w : stable J -> writes_nothing c -> calm fresh x -> J w -> J (act c x w).2.
Proof.
  intros [S1 S2] Hc Hx Hw. pose proof (S1 w x Hx Hw) as Hm. unfold act, rot_handler, rot_act. destruct c; try done. by apply S2.
Qed.

Lemma wp_silent {A} J (p : prog RotCall A) w : stable J -> silent p -> J w -> rwp J p (fun _ v => J v) w.
Proof.
  intros HJ. revert w. induction p as [a| |R c k IH]; intros w Hp Hw; [by apply wp_ret|by split|].
  destruct Hp as [Hc Hk]. apply wp_act; [done|]. intros x Hx. apply IH; [apply Hk|]. by apply act_silent.
Qed.

(** A silent part, and the rest of the program: what is known beside the invariant is
    kept through it. *)
Lemma wp_silent_keeping {A B} J K (p : prog RotCall (result step_error A)) (f : A -> R B) Q w :
  stable K -> (forall v, K v -> J v) -> silent p -> K w ->
  (forall a v, K v -> rwp J (f a) Q v) -> (forall e v, K v -> Q (Err e) v) -> rwp J (try f p) Q w.
Proof.
  intros HK HJ Hp Hw Hf He. apply wp_try. eapply wp_mono; [by apply (wp_silent K)|done|]. cbn. intros [a|e] v Hv _; auto.
Qed.

Lemma wp_silent_then {A B} J (p : prog RotCall (result step_error A)) (f : A -> R B) Q w :
  stable J -> silent p -> J w ->
  (forall a v, J v -> rwp J (f a) Q v) -> (forall e v, J v -> Q (Err e) v) -> rwp J (try f p) Q w.
Proof. intros HJ Hp Hw. by apply wp_silent_keeping. Qed.

Lemma silent_connect ctx id : silent (Connect ctx id).
Proof.
  unfold Connect, clusterCreds. apply silent_bind; [by split|]. intros [rec|[]]; [|done..].
  apply silent_bind; [by split|]. intros [creds|[[]|e]]; [by split|done..].
Qed.
Lemma silent_class method : silent (class_ctx method).
Proof. by split. Qed.
Lemma silent_config id : silent (configOf id).
Proof. apply silent_try; [apply silent_class|]. intros ctx. by split. Qed.
Lemma silent_read id : silent (read id).
Proof. apply silent_try; [apply silent_connect|]. intros []. apply silent_try; [apply silent_config|]. done. Qed.
Lemma silent_get cluster : silent (get_secrets cluster).
Proof. by split. Qed.
Lemma silent_pending cluster : silent (pending cluster).
Proof. apply silent_try; [apply silent_get|]. done. Qed.
Lemma silent_role id : silent (roleOf id).
Proof. by split. Qed.
Lemma silent_ask next ids reached : silent (ask_each next ids reached).
Proof. revert reached. induction ids as [|id ids IH]; intros reached; [done|]. cbn [ask_each]. apply silent_bind; [apply silent_read|]. intros r. apply IH. Qed.
Lemma silent_tries ctx ms creds last : silent (try_each ctx ms creds last).
Proof.
  revert last. induction ms as [|m ms IH]; intros last; [done|]. cbn [try_each]. apply silent_bind; [by split|]. intros [[]|e]; [done|apply IH].
Qed.
Lemma silent_proves ctx cluster ca crt key : silent (provesItself ctx cluster ca crt key).
Proof.
  unfold provesItself. destruct (ClusterCreds ca crt key) as [creds|e]; [|done]. apply silent_try; [by split|]. intros [|m ms]; [done|apply silent_tries].
Qed.
Lemma silent_expiry cluster t : silent (keep_expiry cluster t).
Proof. split; [done|]. intros [rec|e]; by split. Qed.
Lemma silent_authority : silent NewAuthority.
Proof. split; [done|]. intros t. by split. Qed.

(* ------------------------------------------------------------------ *)
(** ** What the programs learn and write *)

#[global] Instance same_trust_refl : Reflexive same_trust.
Proof. by intros s. Qed.
#[global] Instance same_trust_trans : Transitive same_trust.
Proof. intros a b c (A1 & A2 & A3 & A4 & A5) (B1 & B2 & B3 & B4 & B5). split_and!; congruence. Qed.

Lemma stable_trust cluster s : stable (holds cluster (same_trust s)).
Proof. apply stable_holds. intros a b Hab Hs. by transitivity a. Qed.

(** Secrets read are the stored ones, or were, with the same authorities. *)
Lemma wp_get_call J cluster (T : ClusterSecrets -> Prop) w :
  stable J -> (forall v, J v -> holds cluster T v) -> J w ->
  rwp J (call (GetSecrets cluster)) (fun r v => J v /\ forall s, r = Ok s -> T s /\ holds cluster (same_trust s) v) w.
Proof.
  intros HJ HT Hw. apply wp_call; [done|]. intros x Hx. pose proof (act_silent J _ (GetSecrets cluster) x w HJ I Hx Hw) as Hv.
  split; [exact Hv|]. split; [exact Hv|]. intros s Hs. destruct (HT _ Hv) as (s' & Es & Ht).
  assert (s' = s) as ->; [|by split; [|exists s]]. revert Hs Es. unfold act, rot_handler, rot_act.
  cbn -[now_of]. unfold store_get. destruct (safeKey cluster); [|done]. destruct (x_fault x); [|done..].
  intros Hs Es. rewrite Es in Hs. cbn in Hs. congruence.
Qed.

Lemma wp_get_secrets J cluster (T : ClusterSecrets -> Prop) w :
  stable J -> (forall v, J v -> holds cluster T v) -> J w ->
  rwp J (get_secrets cluster) (fun r v => J v /\ forall s, r = Ok s -> T s /\ holds cluster (same_trust s) v) w.
Proof.
  intros HJ HT Hw. apply wp_bind. eapply wp_post; [by apply (wp_get_call J cluster T)|]. cbn. intros r v Hv [_ Hr].
  apply wp_ret; [done|]. split; [done|]. intros s. destruct r as [s'|e]; [|done]. intros [= <-]. by apply Hr.
Qed.

Lemma wp_own J cluster (T : ClusterSecrets -> Prop) w :
  stable J -> (forall v, J v -> holds cluster T v) -> J w ->
  rwp J (own_secrets cluster) (fun r v => J v /\ forall s, r = Ok s -> T s /\ holds cluster (same_trust s) v) w.
Proof.
  intros HJ HT Hw. apply wp_bind. eapply wp_post; [by apply (wp_get_call J cluster T)|]. cbn. intros r v Hv [_ Hr].
  apply wp_ret; [done|]. split; [done|]. intros s. destruct r as [s'|[]]; [|done..]. intros [= <-]. by apply Hr.
Qed.

Lemma wp_mint J crt key w :
  stable J -> J w -> rwp J (mintFrom crt key) (fun r v => J v /\ forall c k t, r = Ok (c, k, t) -> issued_by c = parse_pem crt) w.
Proof.
  intros HJ Hw. apply wp_act; [done|]. intros x Hx. pose proof (act_silent J _ (MintClientCert crt key) x w HJ I Hx Hw) as Hv.
  unfold act, rot_handler, rot_act in *. cbn -[now_of] in *. apply wp_ret; [done|]. split; [done|]. intros c k t.
  destruct Hx as (_ & _ & _ & Hm). specialize (Hm crt key). destruct (x_minted x crt key) as [p|e]; [|done]. intros [= ->]. by eapply Hm.
Qed.

Lemma wp_authority J w :
  stable J -> J w ->
  rwp J NewAuthority (fun r v => J v /\ forall a, r = Ok a -> a_Key a <> "" /\ exists n, parse_pem (a_Crt a) = Some n /\ fresh n) w.
Proof.
  intros HJ Hw. apply wp_act; [done|]. intros x Hx. pose proof (act_silent J _ Clock x w HJ I Hx Hw) as Hv.
  apply wp_act; [done|]. intros y Hy. pose proof (act_silent J _ (SelfSigned 0%Z 0%Z) y _ HJ I Hy Hv) as Hu.
  apply wp_ret; [exact Hu|]. split; [exact Hu|]. intros a. destruct Hy as (_ & _ & Hs & _).
  cbn -[now_of]. destruct (x_signed y) as [b|e]; [|done]. intros [= ->]. by apply Hs.
Qed.

Lemma wp_pending J cluster (T : ClusterSecrets -> Prop) w :
  stable J -> (forall v, J v -> holds cluster T v) -> J w ->
  rwp J (pending cluster) (fun r v => J v /\ forall a, r = Ok a -> exists s, T s /\ is_pending s = true /\ a = mkAuthority (NextOSCACrt s) (NextOSCAKey s)) w.
Proof.
  intros HJ HT Hw. apply wp_try. eapply wp_post; [by apply (wp_get_secrets J cluster T)|]. cbn. intros [s|e] v Hv [_ Hs]; [|by split].
  apply wp_ret; [done|]. split; [done|]. destruct (is_pending s) eqn:E; [|done]. intros a [= <-]. exists s. split; [|done]. by apply Hs.
Qed.

(** A configuration read from a node: what is known of the node is known of it, and
    it is remembered. *)
Lemma wp_read_config {B} J id (P : cert -> list cert -> Prop) (f : string -> R B) Q w :
  stable J -> (forall v, J v -> exists i l, node_reads id i l v /\ P i l) -> J w ->
  (forall e v, J v -> Q (Err e) v) ->
  (forall cfg i l v, reads cfg i l -> P i l -> J v -> node_reads id i l v -> rwp J (f cfg) Q v) ->
  rwp J (cfg <-? configOf id ;; f cfg) Q w.
Proof.
  intros HJ HP Hw He Hf. unfold configOf. apply wp_try, wp_try. eapply wp_post; [apply (wp_silent J); [done|apply silent_class|done]|]. cbn.
  intros [ctx|e] v _ Hv; [|by apply He]. apply wp_act; [done|]. intros x Hx.
  pose proof (act_silent J _ (ConfigYAML ctx id) x v HJ I Hx Hv) as Hv'. destruct (HP _ Hv') as (i & l & Hr & Hp).
  unfold act, rot_handler, rot_act in *. cbn -[now_of] in *. apply wp_ret; [done|]. destruct (x_node x) as [e|]; cbn [answered]; [by apply He|].
  by apply (Hf _ i l).
Qed.

Lemma wp_read J id (P : cert -> list cert -> Prop) w :
  stable J -> (forall v, J v -> exists i l, node_reads id i l v /\ P i l) -> J w ->
  rwp J (read id) (fun r v => J v /\ forall st, r = Ok st -> exists i l,
    node_reads id i l v /\ P i l /\ parse_pem (IssuingCrt st) = Some i /\ map parse_pem (AcceptedCrts st) = map Some l) w.
Proof.
  intros HJ HP Hw. apply wp_silent_then; [done|apply silent_connect|done| |by intros e v Hv; split].
  intros [] v Hv. apply (wp_read_config J id P); [done..|by intros e u Hu; split|].
  intros cfg i l u Hr Hp Hu Hn. apply wp_ret; [done|]. split; [done|]. intros st Hst. exists i, l.
  destruct (Hr) as (_ & st' & E & Hi & Hl). assert (st' = st) as -> by congruence. done.
Qed.

(** A node rewritten: where the edit leads from [P] to [Q], the node is at [Q] when
    the program ends well. *)
Lemma wp_rewrite J id edit (P Q : cert -> list cert -> Prop) w :
  stable J -> (forall v, J v -> exists i l, node_reads id i l v /\ P i l) ->
  (forall cfg st role i l, reads cfg i l -> P i l -> Inspect cfg = Ok st ->
     match edit st cfg role with
     | Ok (Some out) => exists i' l', reads out i' l' /\ Q i' l'
     | Ok None => Q i l
     | Err _ => True
     end) ->
  (forall v out i' l', J v -> reads out i' l' -> Q i' l' -> J (v ++ [Applied id out])) ->
  J w ->
  rwp J (rewrite id edit) (fun r v => J v /\ forall d, r = Ok d -> exists i l, node_reads id i l v /\ Q i l) w.
Proof.
  intros HJ HP Hedit Happ Hw. apply wp_silent_then; [done|apply silent_connect|done| |by intros e v Hv; split].
  intros [] v Hv. apply (wp_read_config J id P); [done..|by intros e u Hu; split|].
  intros cfg i l u Hr Hp Hu Hn. set (K := fun v => J v /\ node_reads id i l v).
  assert (HK : stable K) by (apply stable_and; [done|apply stable_reads]).
  assert (HKJ : forall v, K v -> J v) by (by intros z []).
  apply wp_try, wp_ret; [done|]. destruct (Inspect cfg) as [st|e] eqn:Ei; [|by split].
  apply (wp_silent_keeping J K); [done|done|apply silent_role|done| |by intros e z []].
  intros role z Hz. apply wp_try, wp_ret; [by apply HKJ|].
  pose proof (Hedit cfg st role i l Hr Hp Ei) as He. destruct (edit st cfg role) as [[out|]|e]; [| |by destruct Hz].
  2:{ apply wp_ret; [by apply HKJ|]. destruct Hz. eauto. }
  destruct He as (i' & l' & Hr' & Hq).
  apply (wp_silent_keeping J K); [done|done|apply silent_class|done| |by intros e y []]. intros ctx y [Hy _].
  apply wp_act; [done|]. intros x Hx. pose proof (proj1 HJ _ x Hx Hy) as Hm.
  unfold act, rot_handler, rot_act. destruct (x_node x) as [e|]; cbn -[now_of].
  - apply wp_ret; [|split; [|done]]; (destruct (x_landed x); [by eapply Happ|done]).
  - apply wp_ret; [by eapply Happ|]. split; [by eapply Happ|]. intros d _. exists i', l'. split; [|done].
    unfold node_reads. rewrite now_snoc. cbn. by rewrite bool_decide_true by done.
Qed.

(** The secrets written: as they were, or as they were to be with some revision. *)
Lemma wp_put_secrets J K rec w :
  stable J -> (forall v, J v -> J (v ++ [Kept (files (now_of v))])) ->
  (forall v rev, J v -> let u := v ++ [Kept (<[cs_Cluster rec := Some (rec_set_rev rev rec)]> (files (now_of v)))] in J u /\ K u) ->
  J w -> rwp J (put_secrets rec) (fun r v => J v /\ forall u, r = Ok u -> K v) w.
Proof.
  intros HJ Hsame Hnew Hw. apply wp_act; [done|]. intros x Hx. pose proof (proj1 HJ _ x Hx Hw) as Hm.
  unfold act, rot_handler, rot_act. cbn -[now_of rec_set_rev store_put]. set (m := w ++ [_]) in *.
  assert (Hp : let '(f, r) := store_put (x_fault x) (files (now_of m)) rec in J (m ++ [Kept f]) /\ (is_ok r = true -> K (m ++ [Kept f]))).
  { unfold store_put. repeat case_match; simplify_eq; cbn -[now_of rec_set_rev]; first [by split; [apply Hsame|]|by split; [apply (Hnew m)|intros _; apply (Hnew m)]]. }
  destruct (store_put _ _ rec) as [f [r|e]]; cbn -[now_of]; destruct Hp as [Hj Hk]; (apply wp_ret; [done|]); split; try done.
  intros u _. by apply Hk.
Qed.
End Stable.

(* ------------------------------------------------------------------ *)
(** ** Where the cluster is at every step *)

Section Rotation.
Context `{Patcher} `{CALib} `{!CALaws} (fresh : cert -> Prop).
Variables (cluster : string) (ids : list string) (o : cert).
Hypothesis Hids : NoDup ids.
Hypothesis Hold : ~ fresh o.
Implicit Types (w v : list RotEvent) (k : nat).

Abbreviation N := (length ids) (only parsing).
Abbreviation rwp J := (wp (W := list RotEvent) (calm fresh) J) (only parsing).

(** The passes by the index of a step: [prepare] is 0, pass 1 ends with N + 1, pass 2
    with 2 N + 2, the adoption is 2 N + 2, pass 4 ends with 3 N + 3. What machine [j]
    says before step [k]; [n] is the authority moved to. *)
Definition ok_at (n : cert) k (j : nat) (i : cert) (l : list cert) : Prop :=
  (k <= N + 1 /\ i = o /\ (n ∈ l -> o ∈ l) /\ (j + 1 < k -> n ∈ l)) \/
  (N + 2 <= k <= 2 * N + 2 /\ (i = o \/ i = n) /\ o ∈ l /\ n ∈ l /\ (j + N + 2 < k -> i = n)) \/
  (2 * N + 3 <= k /\ i = n /\ (j + 2 * N + 3 < k -> forall c, c ∈ l -> c = n)).

(** What the step of machine [j] gains. *)
Definition gained (n : cert) k (j : nat) (i : cert) (l : list cert) : Prop :=
  (k = j + 1 -> n ∈ l) /\ (k = j + N + 2 -> i = n) /\ (k = j + 2 * N + 3 -> forall c, c ∈ l -> c = n).

Lemma ok_at_next n k j i l : j < N -> ok_at n k j i l -> gained n k j i l -> ok_at n (S k) j i l.
Proof.
  intros Hj Hok (G1 & G2 & G3). destruct Hok as [(Hk & Hi & Hno & Hl)|[(Hk & Hi & Ho & Hn & Hl)|(Hk & Hi & Hl)]].
  - destruct (decide (k = N + 1)) as [->|Hne].
    + right; left. specialize (Hl ltac:(lia)). split_and!; [lia|lia|by left|by apply Hno|done|lia].
    + left. split_and!; [lia|done|done|]. intros Hlt. destruct (decide (k = j + 1)); [by apply G1|apply Hl; lia].
  - destruct (decide (k = 2 * N + 2)) as [->|Hne].
    + right; right. split_and!; [lia|apply Hl; lia|lia].
    + right; left. split_and!; [lia|lia|done|done|done|]. intros Hlt. destruct (decide (k = j + N + 2)); [by apply G2|apply Hl; lia].
  - right; right. split_and!; [lia|done|]. intros Hlt. destruct (decide (k = j + 2 * N + 3)); [by apply G3|apply Hl; lia].
Qed.

Definition from_old (s : ClusterSecrets) : Prop := parse_pem (OSCACrt s) = Some o /\ issued_by (ClientCrt s) = Some o.
Definition from_new (n : cert) (s : ClusterSecrets) : Prop := parse_pem (OSCACrt s) = Some n /\ issued_by (ClientCrt s) = Some n.
Definition moving_to (n : cert) (s : ClusterSecrets) : Prop := is_pending s = true /\ parse_pem (NextOSCACrt s) = Some n.
Definition settled (s : ClusterSecrets) : Prop := NextOSCACrt s = "".

(** What is stored before step [k]. *)
Definition sec_ok (n : cert) k (s : ClusterSecrets) : Prop :=
  cs_Cluster s = cluster /\
  ((k = 0 /\ from_old s /\ (is_pending s = true -> moving_to n s /\ o <> n)) \/
   (0 < k /\ o <> n /\ 
     ((k <= 2 * N + 1 /\ from_old s /\ moving_to n s) \/
      (k = 2 * N + 2 /\ (from_old s \/ from_new n s) /\ moving_to n s) \/
      (2 * N + 3 <= k <= 3 * N + 2 /\ from_new n s /\ moving_to n s) \/
      (k = 3 * N + 3 /\ from_new n s /\ (moving_to n s \/ settled s)) \/
      (3 * N + 4 <= k /\ from_new n s /\ settled s)))).

Lemma sec_ok_next n k s :
  sec_ok n k s -> (k = 0 -> moving_to n s) -> (k = 2 * N + 2 -> from_new n s) -> (k = 3 * N + 3 -> settled s) -> sec_ok n (S k) s.
Proof.
  intros [Hc Hk] G1 G2 G3. split; [done|]. right.
  destruct Hk as [(-> & Hf & Hp)|(H0k & Hne & Hk)].
  - specialize (G1 eq_refl). destruct (Hp (proj1 G1)) as [_ Hne]. split_and!; [lia|done|]. left. split_and!; [lia|done|done].
  - split_and!; [lia|done|].
    destruct Hk as [(Hk & Hf & Hp)|[(-> & Hf & Hp)|[(Hk & Hf & Hp)|[(-> & Hf & Hp)|(Hk & Hf & Hp)]]]].
    + destruct (decide (k = 2 * N + 1)) as [->|]; [right; left; split_and!; [lia|by left|done]|left; split_and!; [lia|done|done]].
    + specialize (G2 eq_refl). destruct (decide (N = 0)) as [E|]; [do 3 right; left; split_and!; [lia|done|by left]|do 2 right; left; split_and!; [lia|lia|done|done]].
    + destruct (decide (k = 3 * N + 2)) as [->|]; [do 3 right; left; split_and!; [lia|done|by left]|do 2 right; left; split_and!; [lia|lia|done|done]].
    + specialize (G3 eq_refl). do 4 right. split_and!; [lia|done|done].
    + do 4 right. split_and!; [lia|done|done].
Qed.

Lemma sec_ok_trust n k s s' : same_trust s s' -> sec_ok n k s -> sec_ok n k s'.
Proof.
  intros (Ec & Eo & Ei & En & Ek). unfold sec_ok, from_old, from_new, moving_to, settled, is_pending. by rewrite Ec, Eo, Ei, En, Ek.
Qed.

Lemma sec_ok_moving n k s : sec_ok n k s -> is_pending s = true -> moving_to n s /\ o <> n.
Proof.
  intros [_ [(_ & _ & Hp)|(_ & Hne & Hk)]] E; [by apply Hp|]. split; [|done].
  assert (Hs : ~ settled s) by (unfold settled, is_pending in *; intros Es; by rewrite Es in E). naive_solver.
Qed.

(** Before a rotation a node lists nothing that is yet to be made. *)
Definition unseen w : Prop := forall id, id ∈ ids -> exists i l, node_reads id i l w /\ forall c, c ∈ l -> ~ fresh c.

Definition nodes_ok (n : cert) k w : Prop := forall j id, ids !! j = Some id -> exists i l, node_reads id i l w /\ ok_at n k j i l.
Definition at_phase (n : cert) k w : Prop := nodes_ok n k w /\ holds cluster (sec_ok n k) w.

Definition Inv k w : Prop := exists n, at_phase n k w /\ (k = 0 -> holds cluster (fun s => is_pending s = true) w \/ unseen w).

Lemma stable_nodes n k : stable fresh (nodes_ok n k).
Proof.
  split.
  - intros w x Hx Hn j id Hj. destruct (Hn j id Hj) as (i & l & Hr & Hok). exists i, l. split; [|done]. by apply (stable_reads fresh id i l).
  - intros w d c b Hn j id Hj. destruct (Hn j id Hj) as (i & l & Hr & Hok). exists i, l. split; [|done]. by apply (stable_reads fresh id i l).
Qed.
Lemma stable_unseen : stable fresh unseen.
Proof.
  split.
  - intros w x Hx Hn id Hj. destruct (Hn id Hj) as (i & l & Hr & Hok). exists i, l. split; [|done]. by apply (stable_reads fresh id i l).
  - intros w d c b Hn id Hj. destruct (Hn id Hj) as (i & l & Hr & Hok). exists i, l. split; [|done]. by apply (stable_reads fresh id i l).
Qed.
Lemma stable_phase n k : stable fresh (at_phase n k).
Proof. apply stable_and; [apply stable_nodes|]. apply stable_holds. intros s s'. apply sec_ok_trust. Qed.

Lemma phase_secrets n k w : at_phase n k w -> holds cluster (sec_ok n k) w.
Proof. by intros []. Qed.

(** A phase passed. *)
Lemma phase_next n k w :
  at_phase n k w -> (forall j id, ids !! j = Some id -> k = j + 1 \/ k = j + N + 2 \/ k = j + 2 * N + 3 -> exists i l, node_reads id i l w /\ gained n k j i l) ->
  (k = 0 -> holds cluster (moving_to n) w) -> (k = 2 * N + 2 -> holds cluster (from_new n) w) -> (k = 3 * N + 3 -> holds cluster settled w) ->
  at_phase n (S k) w.
Proof.
  intros [Hn (s & Hs & Hsec)] Hg G1 G2 G3. split.
  - intros j id Hj. destruct (Hn j id Hj) as (i & l & Hr & Hok). exists i, l. split; [done|].
    apply ok_at_next; [by eapply lookup_lt_Some|done|].
    destruct (decide (k = j + 1 \/ k = j + N + 2 \/ k = j + 2 * N + 3)) as [Hd|Hd]; [|unfold gained; split_and!; lia].
    destruct (Hg j id Hj Hd) as (i' & l' & Hr' & Hgain). assert (i' = i /\ l' = l) as [-> ->]; [|done].
    destruct Hr as (_ & st & E & Hi & Hl), Hr' as (_ & st' & E' & Hi' & Hl'). assert (st' = st) as -> by congruence.
    rewrite Hi in Hi'. rewrite Hl in Hl'. split; [congruence|]. by apply (inj (map Some)) in Hl'.
  - exists s. split; [done|]. apply sec_ok_next; [done|intros E; specialize (G1 E)|intros E; specialize (G2 E)|intros E; specialize (G3 E)];
      match goal with Hh : holds _ _ _ |- _ => destruct Hh as (s' & Hs' & Ht) end; assert (s' = s) as -> by congruence; done.
Qed.

(* ------------------------------------------------------------------ *)
(** ** The steps *)

Lemma wp_ends J (p : R (option string)) (Q : list RotEvent -> Prop) w :
  rwp J p (fun r v => forall d, r = Ok d -> Q v) w -> rwp J (ends p) (fun r v => r.2 = None -> Q v) w.
Proof.
  intros Hp. apply wp_bind. eapply wp_post; [exact Hp|]. intros [d|e] v Hv Hq; (apply wp_ret; [done|]); [intros _; by apply (Hq d)|done].
Qed.

Definition node_index k j : Prop := k = j + 1 \/ k = j + N + 2 \/ k = j + 2 * N + 3.

Lemma gained_next n k j id i l w :
  ids !! j = Some id -> node_index k j -> at_phase n k w -> node_reads id i l w -> gained n k j i l -> at_phase n (S k) w.
Proof.
  intros Hj Hk Hp Hr Hg. pose proof (lookup_lt_Some _ _ _ Hj). unfold node_index in Hk. apply phase_next; [done| |lia..].
  intros j' id' Hj' Hk'. pose proof (lookup_lt_Some _ _ _ Hj'). assert (j' = j) as -> by lia. simplify_eq. eauto.
Qed.

(** The authority a step works with. *)
Lemma wp_moving {B} n k (f : Authority -> R B) Q w :
  at_phase n k w -> (forall e v, at_phase n k v -> Q (Err e) v) ->
  (forall a v, at_phase n k v -> parse_pem (a_Crt a) = Some n -> o <> n -> rwp (at_phase n k) (f a) Q v) ->
  rwp (at_phase n k) (next <-? pending cluster ;; f next) Q w.
Proof.
  intros Hw He Hf. apply wp_try. eapply wp_post; [apply (wp_pending _ _ cluster (sec_ok n k)); [apply stable_phase|apply phase_secrets|done]|].
  cbn. intros [a|e] v Hv [_ Ha]; [|by apply He]. destruct (Ha a eq_refl) as (s & Hs & Hp & ->).
  destruct (sec_ok_moving n k s Hs Hp) as [[_ Hn] Hne]. by apply Hf.
Qed.

(** A node's step carried out. *)
Lemma node_done n k j id (edit : Authority -> State -> string -> string -> result step_error (option string)) w :
  ids !! j = Some id -> node_index k j ->
  (forall a cfg st role i l, parse_pem (a_Crt a) = Some n -> o <> n -> reads cfg i l -> ok_at n k j i l -> Inspect cfg = Ok st ->
     match edit a st cfg role with
     | Ok (Some out) => exists i' l', reads out i' l' /\ ok_at n k j i' l' /\ gained n k j i' l'
     | Ok None => gained n k j i l
     | Err _ => True
     end) ->
  at_phase n k w ->
  rwp (at_phase n k) (ends (next <-? pending cluster ;; rewrite id (edit next))) (fun r v => r.2 = None -> at_phase n (S k) v) w.
Proof.
  intros Hj Hk Hedit Hw. apply wp_ends, wp_moving; [done|done|]. intros a v Hv Hn Hne.
  eapply wp_post; [apply (wp_rewrite _ (at_phase n k) id _ (ok_at n k j) (fun i l => ok_at n k j i l /\ gained n k j i l))|].
  - apply stable_phase.
  - intros u [Hu _]. by apply Hu.
  - intros cfg st role i l Hr Hok Hst. pose proof (Hedit a cfg st role i l Hn Hne Hr Hok Hst) as He.
    destruct (edit a st cfg role) as [[out|]|e]; [done|by split|done].
  - intros u out i l [Hu (s & Hs & Hsec)] Hr [Hok _]. split.
    + intros j' id' Hj'. unfold node_reads. rewrite now_snoc. cbn. destruct (decide (id' = id)) as [->|Hd].
      * rewrite bool_decide_true by done. assert (j' = j) as -> by by eapply NoDup_lookup. by exists i, l.
      * rewrite bool_decide_false by done. by apply Hu.
    + exists s. split; [|done]. by rewrite now_snoc.
  - done.
  - cbn. intros r u Hi [Hu Hd] d Hr. destruct (Hd d Hr) as (i & l & Hrl & _ & Hg). by eapply gained_next.
Qed.

(** A node's step asked after. *)
Lemma node_asked n k j id (test : Authority -> State -> bool) w :
  ids !! j = Some id -> node_index k j ->
  (forall a st i l, parse_pem (a_Crt a) = Some n -> o <> n -> parse_pem (IssuingCrt st) = Some i -> map parse_pem (AcceptedCrts st) = map Some l ->
     ok_at n k j i l -> test a st = true -> gained n k j i l) ->
  at_phase n k w ->
  rwp (at_phase n k) (next <-? pending cluster ;; state <-? read id ;; give (Ok (test next state))) (fun r v => r = Ok true -> at_phase n (S k) v) w.
Proof.
  intros Hj Hk Htest Hw. apply wp_moving; [done|done|]. intros a v Hv Hn Hne. apply wp_try.
  eapply wp_post; [apply (wp_read _ (at_phase n k) id (ok_at n k j)); [apply stable_phase|intros u [Hu _]; by apply Hu|done]|].
  cbn. intros [st|e] u Hi [Hu Hs]; [|done]. apply wp_ret; [done|]. intros [= Ht].
  destruct (Hs st eq_refl) as (i & l & Hr & Hok & Hi' & Hl). eapply gained_next; [done|done|done|done|]. by apply (Htest a st).
Qed.

Lemma ok_first n k j i l : k <= N + 1 -> ok_at n k j i l -> i = o /\ (n ∈ l -> o ∈ l).
Proof. intros Hk [(_ & -> & Hl & _)|[(Hk' & _)|(Hk' & _)]]; [done|lia|lia]. Qed.
Lemma ok_second n k j i l : N + 2 <= k <= 2 * N + 2 -> ok_at n k j i l -> o ∈ l /\ n ∈ l.
Proof. intros Hk [(Hk' & _)|[(_ & _ & Ho & Hn & _)|(Hk' & _)]]; [lia|done|lia]. Qed.

Lemma accept_done n j id job w :
  ids !! j = Some id -> at_phase n (j + 1) w ->
  rwp (at_phase n (j + 1)) (Do (acceptStep cluster id) job) (fun r v => r.2 = None -> at_phase n (S (j + 1)) v) w.
Proof.
  intros Hj Hw. pose proof (lookup_lt_Some _ _ _ Hj). apply (node_done n (j + 1) j id accept_edit); [done|by left| |done].
  intros a cfg st role i l Hn Hne Hr Hok Hst. destruct (ok_first n (j + 1) j i l) as [-> Hol]; [lia|done|].
  pose proof (accept_effect cfg st role o l a n Hr Hst Hn) as He. destruct (accept_edit a st cfg role) as [[out|]|e]; [| |done].
  - destruct He as (l' & Hr' & Ho & Hnl). exists o, l'. split_and!; [done| |]; [left; split_and!; [lia|done..]|].
    unfold gained. split_and!; [done|lia|lia].
  - unfold gained. split_and!; [by intros _; apply He|lia|lia].
Qed.

Lemma accept_asked n j id job h w :
  ids !! j = Some id -> Happened (acceptStep cluster id) = Some h -> at_phase n (j + 1) w ->
  rwp (at_phase n (j + 1)) (h job) (fun r v => r = Ok true -> at_phase n (S (j + 1)) v) w.
Proof.
  intros Hj [= <-] Hw. pose proof (lookup_lt_Some _ _ _ Hj).
  apply (node_asked n (j + 1) j id (fun a st => Accepts st (a_Crt a))); [done|by left| |done].
  intros a st i l Hn Hne Hi Hl Hok Ha. destruct (ok_first n (j + 1) j i l) as [-> Hol]; [lia|done|].
  apply (accepts_iff st o l _ n Hi Hl Hn) in Ha as [->|Ha]; [done|]. unfold gained. split_and!; [done|lia|lia].
Qed.

Lemma issue_done n j id job w :
  ids !! j = Some id -> at_phase n (j + N + 2) w ->
  rwp (at_phase n (j + N + 2)) (Do (issueStep cluster id) job) (fun r v => r.2 = None -> at_phase n (S (j + N + 2)) v) w.
Proof.
  intros Hj Hw. pose proof (lookup_lt_Some _ _ _ Hj). apply (node_done n (j + N + 2) j id (issue_edit id)); [done|right; by left| |done].
  intros a cfg st role i l Hn Hne Hr Hok Hst. destruct (ok_second n (j + N + 2) j i l) as [Ho Hnl]; [lia|done|].
  pose proof (issue_effect id cfg st role i l a n Hr Hst Hn) as He. destruct (issue_edit id a st cfg role) as [[out|]|e]; [| |done].
  - exists n, l. split_and!; [by destruct He| |]; [right; left; split_and!; [lia|lia|by right|done..]|]. unfold gained. split_and!; [lia|done|lia].
  - unfold gained. split_and!; [lia|done|lia].
Qed.

Lemma issue_asked n j id job h w :
  ids !! j = Some id -> Happened (issueStep cluster id) = Some h -> at_phase n (j + N + 2) w ->
  rwp (at_phase n (j + N + 2)) (h job) (fun r v => r = Ok true -> at_phase n (S (j + N + 2)) v) w.
Proof.
  intros Hj [= <-] Hw. pose proof (lookup_lt_Some _ _ _ Hj).
  apply (node_asked n (j + N + 2) j id (fun a st => IssuesFrom st (a_Crt a))); [done|right; by left| |done].
  intros a st i l Hn Hne Hi Hl Hok Ha. apply (same_some _ _ _ Hn) in Ha. unfold gained. split_and!; [lia|congruence|lia].
Qed.

Lemma prune_done n j id job w :
  ids !! j = Some id -> at_phase n (j + 2 * N + 3) w ->
  rwp (at_phase n (j + 2 * N + 3)) (Do (pruneStep cluster id) job) (fun r v => r.2 = None -> at_phase n (S (j + 2 * N + 3)) v) w.
Proof.
  intros Hj Hw. pose proof (lookup_lt_Some _ _ _ Hj).
  apply (node_done n (j + 2 * N + 3) j id (fun a _ cfg _ => PruneConfig cfg (a_Crt a))); [done|right; by right| |done].
  intros a cfg st role i l Hn Hne Hr Hok Hst.
  pose proof (prune_effect cfg st i l (a_Crt a) n Hr Hst Hn) as He. destruct (PruneConfig cfg (a_Crt a)) as [[out|]|e]; [| |done].
  - destruct He as [-> Hr']. assert (Hall : forall c, c ∈ [n] -> c = n) by (by intros c ?%list_elem_of_singleton).
    exists n, [n]. split_and!; [done| |]; [right; right; split_and!; [lia|done..]|]. unfold gained. split_and!; [lia|lia|done].
  - unfold gained. split_and!; [lia|lia|]. intros _. apply He.
Qed.

Lemma prune_asked n j id job h w :
  ids !! j = Some id -> Happened (pruneStep cluster id) = Some h -> at_phase n (j + 2 * N + 3) w ->
  rwp (at_phase n (j + 2 * N + 3)) (h job) (fun r v => r = Ok true -> at_phase n (S (j + 2 * N + 3)) v) w.
Proof.
  intros Hj [= <-] Hw. pose proof (lookup_lt_Some _ _ _ Hj).
  apply (node_asked n (j + 2 * N + 3) j id (fun a st => only_new (a_Crt a) st)); [done|right; by right| |done].
  intros a st i l Hn Hne Hi Hl Hok Ha. unfold gained. split_and!; [lia|lia|]. intros _ c Hc. unfold only_new in Ha.
  destruct (AcceptedCrts st) as [|one [|]]; [by destruct l; [apply not_elem_of_nil in Hc|]| |done].
  apply (same_some _ _ _ Hn) in Ha. destruct l as [|d [|]]; try done. apply list_elem_of_singleton in Hc as ->.
  cbn in Hl. rewrite Ha in Hl. by injection Hl.
Qed.

(** The question before pass 2 changes nothing. *)
Lemma preflight_done n job w :
  at_phase n (N + 1) w ->
  rwp (at_phase n (N + 1)) (Do (preflightIssue cluster ids) job) (fun r v => r.2 = None -> at_phase n (S (N + 1)) v) w.
Proof.
  intros Hw. apply wp_ends. eapply wp_post; [apply (wp_silent fresh (at_phase n (N + 1))); [apply stable_phase| |done]|].
  - apply silent_try; [apply silent_pending|]. intros a. apply silent_bind; [apply silent_ask|]. done.
  - intros r v _ Hv d _. apply phase_next; [done| |lia..]. intros j id Hj Hk. pose proof (lookup_lt_Some _ _ _ Hj). lia.
Qed.

(** The secrets written, with the nodes as they were. *)
Lemma phase_kept n k v f s :
  at_phase n k v -> f !! cluster = Some (Some s) -> sec_ok n k s -> at_phase n k (v ++ [Kept f]).
Proof.
  intros [Hn _] Hf Hs. split.
  - intros j id Hj. destruct (Hn j id Hj) as (i & l & Hr & Hok). exists i, l. split; [|done]. unfold node_reads. by rewrite now_snoc.
  - exists s. by rewrite now_snoc.
Qed.
Lemma phase_same n k v : at_phase n k v -> at_phase n k (v ++ [Kept (files (now_of v))]).
Proof. intros Hv. destruct (phase_secrets _ _ _ Hv) as (s & Hs & Hok). by eapply phase_kept. Qed.

(** The new authority is kept with a certificate from it. *)
Definition adopted (n : cert) v : Prop := at_phase n (2 * N + 2) v /\ holds cluster (from_new n) v.

Lemma stable_adopted n : stable fresh (adopted n).
Proof.
  apply stable_and; [apply stable_phase|]. apply stable_holds. intros s1 s2 (_ & E1 & E2 & _). unfold from_new. by rewrite E1, E2.
Qed.

Lemma sec_moving n s : sec_ok n (2 * N + 2) s -> moving_to n s.
Proof.
  intros [_ [(Hk & _)|(_ & _ & Hk)]]; [lia|]. destruct Hk as [(Hk & _)|[(_ & _ & Hp)|[(Hk & _)|[(Hk & _)|(Hk & _)]]]]; [lia|done|lia..].
Qed.

Lemma adopt_kept n rec t w :
  cs_Cluster rec = cluster -> from_new n rec -> moving_to n rec -> o <> n -> at_phase n (2 * N + 2) w ->
  rwp (at_phase n (2 * N + 2)) (do? put_secrets rec ;; keep_expiry cluster t) (fun r v => forall c, r = Ok c -> adopted n v) w.
Proof.
  intros Hc Hnew Hmov Hne Hw. pose proof (stable_phase n (2 * N + 2)) as HJ. apply wp_try.
  eapply wp_post; [apply (wp_put_secrets fresh _ (adopted n)); [done|apply phase_same| |done]|].
  - intros q rev Hq u. assert (Hf : <[cs_Cluster rec := Some (rec_set_rev rev rec)]> (files (now_of q)) !! cluster = Some (Some (rec_set_rev rev rec)))
      by (rewrite Hc; by apply lookup_insert_eq).
    assert (Hu : at_phase n (2 * N + 2) u).
    { eapply phase_kept; [done|exact Hf|]. split; [done|]. right. split_and!; [lia|done|]. right; left. split_and!; [done|by right|exact Hmov]. }
    split; [done|]. split; [done|]. exists (rec_set_rev rev rec). unfold u. rewrite now_snoc. split; [exact Hf|done].
  - intros [[]|e] q _ [Hq HKq]; cbn beta iota; [|done]. specialize (HKq tt eq_refl).
    eapply wp_mono; [apply (wp_silent fresh (adopted n)); [apply stable_adopted|apply silent_expiry|done]|by intros ? []|].
    by intros r p _ Hp c _.
Qed.

Lemma adopt_authority n ctx a w :
  parse_pem (a_Crt a) = Some n -> o <> n -> at_phase n (2 * N + 2) w ->
  rwp (at_phase n (2 * N + 2)) (AdoptAuthority ctx cluster a) (fun r v => forall c, r = Ok c -> adopted n v) w.
Proof.
  intros Hn Hne Hw. pose proof (stable_phase n (2 * N + 2)) as HJ. apply wp_try.
  eapply wp_post; [apply (wp_own fresh _ cluster (sec_ok n (2 * N + 2))); [done|apply phase_secrets|done]|].
  intros [s|e] u Hu [_ Hs]; cbn beta iota; [|done]. destruct (Hs s eq_refl) as [Hsec _].
  destruct (bool_decide (a_Crt a = "") || bool_decide (a_Key a = "")); [by apply wp_ret|]. apply wp_try.
  eapply wp_post; [by apply wp_mint|].
  intros [[[crt key] t]|e] z Hz [_ Hm]; cbn beta iota; [|done]. specialize (Hm crt key t eq_refl). rewrite Hn in Hm.
  apply wp_silent_then; [done|apply silent_proves|done| |done]. intros [] y Hy.
  apply adopt_kept; [by destruct Hsec|by split|by apply sec_moving in Hsec|done|done].
Qed.

Lemma adopt_done n job w :
  at_phase n (2 * N + 2) w ->
  rwp (at_phase n (2 * N + 2)) (Do (adoptStep cluster) job) (fun r v => r.2 = None -> at_phase n (S (2 * N + 2)) v) w.
Proof.
  intros Hw. pose proof (stable_phase n (2 * N + 2)) as HJ. apply wp_ends, wp_moving; [done|done|]. intros a v Hv Hn Hne.
  apply wp_act; [done|]. intros x Hx. apply (act_silent fresh _ _ Clock x v HJ I Hx) in Hv.
  apply wp_try. eapply wp_post; [apply (adopt_authority n _ a _ Hn Hne Hv)|].
  intros [c|e] u Hu Ha; cbn beta iota; [|done]. destruct (Ha c eq_refl) as [Hp Hnew].
  apply wp_ret; [done|]. intros d _. apply phase_next; [done| |lia|done|lia].
  intros j id Hj Hk. pose proof (lookup_lt_Some _ _ _ Hj). lia.
Qed.

(** A step asked after by looking at the secrets. *)
Lemma secrets_asked J (T : ClusterSecrets -> Prop) (test : ClusterSecrets -> bool) (Q : list RotEvent -> Prop) w :
  stable fresh J -> (forall v, J v -> holds cluster T v) ->
  (forall s v, T s -> J v -> holds cluster (same_trust s) v -> test s = true -> Q v) -> J w ->
  rwp J (sec <-? get_secrets cluster ;; give (Ok (test sec))) (fun r v => r = Ok true -> Q v) w.
Proof.
  intros HJ HT Htest Hw. apply wp_try. eapply wp_post; [by apply (wp_get_secrets fresh J cluster T)|].
  intros [s|e] v Hv [_ Hs]; cbn beta iota; [|done]. apply wp_ret; [done|]. intros [= E]. destruct (Hs s eq_refl) as [Ht Hst]. by eapply Htest.
Qed.

Lemma holds_impl (T T' : ClusterSecrets -> Prop) v : holds cluster T v -> (forall s, T s -> T' s) -> holds cluster T' v.
Proof. intros (s & Hs & Ht) Hi. exists s. auto. Qed.

Lemma holds_both (T T' : ClusterSecrets -> Prop) v : holds cluster T v -> holds cluster T' v -> holds cluster (fun s => T s /\ T' s) v.
Proof. intros (s & Hs & Ht) (s' & Hs' & Ht'). exists s. assert (s' = s) as -> by congruence. done. Qed.

Lemma not_a_node k : (k = 0 \/ k = N + 1 \/ k = 2 * N + 2 \/ k = 3 * N + 3) -> forall j id, ids !! j = Some id -> ~ node_index k j.
Proof. intros Hk j id Hj. pose proof (lookup_lt_Some _ _ _ Hj). unfold node_index. lia. Qed.

(** A step that is about the secrets, passed. *)
Lemma secrets_next n k w :
  (k = 0 \/ k = 2 * N + 2 \/ k = 3 * N + 3) -> at_phase n k w ->
  (k = 0 -> holds cluster (moving_to n) w) -> (k = 2 * N + 2 -> holds cluster (from_new n) w) -> (k = 3 * N + 3 -> holds cluster settled w) ->
  at_phase n (S k) w.
Proof. intros Hk Hw. apply phase_next; [done|]. intros j id Hj Hn. exfalso. by apply (not_a_node k ltac:(lia) j id Hj). Qed.

Lemma adopt_asked n job h w :
  Happened (adoptStep cluster) = Some h -> at_phase n (2 * N + 2) w ->
  rwp (at_phase n (2 * N + 2)) (h job) (fun r v => r = Ok true -> at_phase n (S (2 * N + 2)) v) w.
Proof.
  intros [= <-] Hw. apply (secrets_asked _ (sec_ok n (2 * N + 2)) (fun s => sameCertificate (OSCACrt s) (NextOSCACrt s)));
    [apply stable_phase|apply phase_secrets| |done].
  intros s v Hs Hv Hst Ht. apply secrets_next; [lia|done|lia| |lia]. intros _. pose proof (sec_moving n s Hs) as [_ Hn].
  apply (same_some _ _ _ Hn) in Ht. pose proof (holds_both _ _ _ Hst (phase_secrets _ _ _ Hv)) as Hb.
  eapply holds_impl; [exact Hb|]. intros s' [(_ & Eo & _) [_ [(Hk & _)|(_ & Hne & Hk)]]]; [lia|].
  destruct Hk as [(Hk & _)|[(_ & [[Ho _]|Hf] & _)|[(Hk & _)|[(Hk & _)|(Hk & _)]]]]; [lia| |done|lia..].
  exfalso. apply Hne. congruence.
Qed.

Lemma finish_done n job w :
  at_phase n (3 * N + 3) w ->
  rwp (at_phase n (3 * N + 3)) (Do (finishStep cluster) job) (fun r v => r.2 = None -> at_phase n (S (3 * N + 3)) v) w.
Proof.
  intros Hw. pose proof (stable_phase n (3 * N + 3)) as HJ. apply wp_ends, wp_try.
  eapply wp_post; [apply (wp_get_secrets fresh _ cluster (sec_ok n (3 * N + 3))); [done|apply phase_secrets|done]|].
  intros [s|e] v Hv [_ Hs]; cbn beta iota; [|done]. destruct (Hs s eq_refl) as [Hsec Hst].
  assert (Hnew : from_new n s /\ o <> n).
  { destruct Hsec as [_ [(Hk & _)|(_ & Hne & Hk)]]; [lia|]. split; [|done].
    destruct Hk as [(Hk & _)|[(Hk & _)|[(Hk & _)|[(_ & Hf & _)|(Hk & _)]]]]; [lia|lia|lia|done|lia]. }
  case_bool_decide as En.
  { apply wp_ret; [done|]. intros d _. apply secrets_next; [lia|done|lia|lia|]. intros _. eapply holds_impl; [exact Hst|].
    intros s' (_ & _ & _ & E & _). unfold settled. by rewrite E. }
  destruct (negb _); [by apply wp_ret|]. apply wp_try.
  eapply wp_post; [apply (wp_put_secrets fresh _ (holds cluster settled)); [done|apply phase_same| |done]|].
  - intros q rev Hq u. cbn [with_next cs_Cluster] in u. assert (Hc : cs_Cluster s = cluster) by by destruct Hsec.
    assert (Hf : <[cs_Cluster s := Some (rec_set_rev rev (with_next "" "" s))]> (files (now_of q)) !! cluster = Some (Some (rec_set_rev rev (with_next "" "" s))))
      by (rewrite Hc; by apply lookup_insert_eq).
    split; [|exists (rec_set_rev rev (with_next "" "" s)); unfold u; rewrite now_snoc; split; [exact Hf|done]].
    eapply phase_kept; [done|exact Hf|]. split; [done|]. right. destruct Hnew as [Hnew Hne]. split_and!; [lia|done|].
    do 3 right. left. split_and!; [done|exact Hnew|by right].
  - intros [[]|e] q _ [Hq HKq]; cbn beta iota; [|done]. apply wp_ret; [done|]. intros d _.
    apply secrets_next; [lia|done|lia|lia|]. intros _. by apply (HKq tt).
Qed.

Lemma finish_asked n job h w :
  Happened (finishStep cluster) = Some h -> at_phase n (3 * N + 3) w ->
  rwp (at_phase n (3 * N + 3)) (h job) (fun r v => r = Ok true -> at_phase n (S (3 * N + 3)) v) w.
Proof.
  intros [= <-] Hw. apply (secrets_asked _ (sec_ok n (3 * N + 3)) (fun s => bool_decide (NextOSCACrt s = "")));
    [apply stable_phase|apply phase_secrets| |done].
  intros s v Hs Hv Hst Ht%bool_decide_eq_true. apply secrets_next; [lia|done|lia|lia|]. intros _. eapply holds_impl; [exact Hst|].
  intros s' (_ & _ & _ & E & _). unfold settled. by rewrite E.
Qed.

(** At the start either a new authority is there, or no node lists one. *)
Lemma stable_start : stable fresh (Inv 0).
Proof.
  assert (Hp : stable fresh (holds cluster (fun s => is_pending s = true))).
  { apply stable_holds. intros s s' (_ & _ & _ & E1 & E2). unfold is_pending. by rewrite E1, E2. }
  split.
  - intros w x Hx (n & Hn & Hs). exists n. split; [by apply (stable_phase n 0)|]. intros _.
    destruct (Hs eq_refl) as [Hs'|Hs']; [left; by apply Hp|right; by apply stable_unseen].
  - intros w d c b (n & Hn & Hs). exists n. split; [by apply (stable_phase n 0)|]. intros _.
    destruct (Hs eq_refl) as [Hs'|Hs']; [left; by apply Hp|right; by apply stable_unseen].
Qed.

Lemma start_secrets w : Inv 0 w -> holds cluster (fun s => cs_Cluster s = cluster /\ from_old s) w.
Proof.
  intros (n & Hn & _). eapply holds_impl; [by apply phase_secrets|]. intros s [Hc [(_ & Hf & _)|(Hk & _)]]; [done|lia].
Qed.

Lemma phase_inv n k w : at_phase n (S k) w -> Inv (S k) w.
Proof. intros Hw. by exists n. Qed.

(** Secrets seen with an authority pending are the next phase. *)
Lemma start_pending s w : Inv 0 w -> holds cluster (same_trust s) w -> is_pending s = true -> Inv 1 w.
Proof.
  intros (n & Hn & _) Hst Hp. apply (phase_inv n). apply secrets_next; [lia|done| |lia|lia]. intros _.
  eapply holds_impl; [apply (holds_both _ _ _ Hst (phase_secrets _ _ _ Hn))|].
  intros s' [(_ & _ & _ & E1 & E2) Hs]. apply (sec_ok_moving n 0 s' Hs). unfold is_pending in *. by rewrite E1, E2.
Qed.

(** A new authority stored where no node lists it. *)
Lemma start_stored n a s rev w :
  cs_Cluster s = cluster -> from_old s -> a_Key a <> "" -> parse_pem (a_Crt a) = Some n -> fresh n -> Inv 0 w -> unseen w ->
  let rec := rec_set_rev rev (with_next (a_Crt a) (a_Key a) s) in
  let u := w ++ [Kept (<[cluster := Some rec]> (files (now_of w)))] in (Inv 0 u /\ unseen u) /\ Inv 1 u.
Proof.
  intros Hc Ho Hk Hn Hfr (n0 & [Hnodes _] & _) Hun rec u.
  assert (Hsame : forall id i l, node_reads id i l w -> node_reads id i l u) by (intros id i l; unfold node_reads, u; by rewrite now_snoc).
  assert (Hpend : is_pending rec = true).
  { unfold is_pending. cbn. rewrite !bool_decide_false; [done|done|by eapply certificate_nonempty]. }
  assert (Hstored : files (now_of u) !! cluster = Some (Some rec)) by (unfold u; rewrite now_snoc; cbn; by apply lookup_insert_eq).
  assert (Hph : at_phase n 0 u).
  { split.
    - intros j id Hj. destruct (Hnodes j id Hj) as (i & l & Hr & Hok). exists i, l. split; [by apply Hsame|].
      destruct (ok_first n0 0 j i l) as [-> _]; [lia|done|]. left. split_and!; [lia|done| |lia]. intros Hnl. exfalso.
      destruct (Hun id) as (i' & l' & Hr' & Hl'); [by eapply list_elem_of_lookup_2|].
      destruct Hr as (_ & st & E & _ & Hl), Hr' as (_ & st' & E' & _ & Hl2). assert (st' = st) as -> by congruence.
      rewrite Hl in Hl2. apply (inj (map Some)) in Hl2 as ->. by apply (Hl' n).
    - exists rec. split; [done|]. split; [done|]. left. split_and!; [done|done|]. intros _. split; [by split|]. intros ->. done. }
  assert (Hun' : unseen u).
  { intros id Hid. destruct (Hun id Hid) as (i & l & Hr & Hl). exists i, l. split; [by apply Hsame|done]. }
  split.
  - split; [|done]. exists n. split; [done|]. by right.
  - apply (phase_inv n). apply secrets_next; [lia|done| |lia|lia]. intros _. exists rec. split; [done|]. by split.
Qed.

Lemma prepare_done job w :
  Inv 0 w -> rwp (Inv 0) (Do (prepareStep cluster) job) (fun r v => r.2 = None -> Inv 1 v) w.
Proof.
  intros Hw. pose proof stable_start as HJ. apply wp_ends, wp_try.
  eapply wp_post; [apply (wp_get_secrets fresh _ cluster _ w HJ start_secrets Hw)|].
  intros [s|e] v Hv [_ Hs]; cbn beta iota; [|done]. destruct (Hs s eq_refl) as [[Hc Ho] Hst].
  destruct (is_pending s) eqn:Hp; [apply wp_ret; [done|]; intros d _; by eapply start_pending|].
  assert (Hun : unseen v).
  { destruct Hv as (n & _ & Hd). destruct (Hd eq_refl) as [Hd'|]; [|done]. exfalso.
    destruct (holds_both _ _ _ Hst Hd') as (s' & _ & (_ & _ & _ & E1 & E2) & Hp'). unfold is_pending in *. rewrite E1, E2 in Hp'. congruence. }
  set (K := fun v => Inv 0 v /\ unseen v). assert (HK : stable fresh K) by (apply stable_and; [done|apply stable_unseen]).
  apply wp_try. eapply wp_mono; [apply (wp_authority fresh K v HK); by split|by intros u []|].
  intros [a|e] u _ [Hu Ha]; cbn beta iota; [|done]. destruct (Ha a eq_refl) as (Hkey & n & Hn & Hfr).
  apply wp_try. eapply wp_mono; [apply (wp_put_secrets fresh K (Inv 1)); [done| | |done]|by intros z []|].
  - intros z [Hz Hz']. assert (E : now_of (z ++ [Kept (files (now_of z))]) = now_of z) by (rewrite now_snoc; by destruct (now_of z)).
    unfold K, Inv, at_phase, nodes_ok, unseen, holds, node_reads in *. by rewrite E.
  - intros z rev [Hz Hz']. cbn [with_next cs_Cluster]. rewrite Hc. by apply (start_stored n).
  - intros [[]|e] z _ [Hz Hz1]; cbn beta iota; [|done]. apply wp_ret; [by apply Hz|]. intros d _. by apply (Hz1 tt).
Qed.

Lemma prepare_asked job h w :
  Happened (prepareStep cluster) = Some h -> Inv 0 w -> rwp (Inv 0) (h job) (fun r v => r = Ok true -> Inv 1 v) w.
Proof.
  intros [= <-] Hw. apply (secrets_asked (Inv 0) _ is_pending _ w stable_start start_secrets); [|done].
  intros s v _ Hv Hst Hp. by eapply start_pending.
Qed.

(* ------------------------------------------------------------------ *)
(** ** The walk *)

Lemma steps_at k s :
  steps ids cluster !! k = Some s ->
  (k = 0 /\ s = prepareStep cluster) \/ (exists j id, ids !! j = Some id /\ k = j + 1 /\ s = acceptStep cluster id) \/
  (k = N + 1 /\ s = preflightIssue cluster ids) \/ (exists j id, ids !! j = Some id /\ k = j + N + 2 /\ s = issueStep cluster id) \/
  (k = 2 * N + 2 /\ s = adoptStep cluster) \/ (exists j id, ids !! j = Some id /\ k = j + 2 * N + 3 /\ s = pruneStep cluster id) \/
  (k = 3 * N + 3 /\ s = finishStep cluster).
Proof.
  assert (Hone : forall (a : Step RotCall) l k, ([a] ++ l) !! k = Some s -> (k = 0 /\ s = a) \/ exists k', k = S k' /\ l !! k' = Some s)
    by (intros a l [|k']; cbn; [intros [= ->]; by left|eauto]).
  assert (Hmap : forall (f : string -> Step RotCall) l k, (map f ids ++ l) !! k = Some s ->
    (exists j id, ids !! j = Some id /\ k = j /\ s = f id) \/ exists k', k = k' + N /\ l !! k' = Some s).
  { intros f l k' Hl. apply lookup_app_Some in Hl as [Hl|[Hlen Hl]].
    - left. rewrite list_lookup_fmap in Hl. apply fmap_Some in Hl as (id & Hid & ->). eauto.
    - right. rewrite length_fmap in *. exists (k' - N). split; [lia|done]. }
  unfold steps. intros [[-> ->]|(k1 & -> & H1')]%Hone; [by left|]. right.
  destruct (Hmap _ _ _ H1') as [(j & id & Hj & -> & ->)|(k2 & -> & H2')]; [left; exists j, id; split_and!; [done|lia|done]|]. right.
  apply Hone in H2' as [[-> ->]|(k3 & -> & H3')]; [left; split; [lia|done]|]. right.
  destruct (Hmap _ _ _ H3') as [(j & id & Hj & -> & ->)|(k4 & -> & H4')]; [left; exists j, id; split_and!; [done|lia|done]|]. right.
  apply Hone in H4' as [[-> ->]|(k5 & -> & H5')]; [left; split; [lia|done]|]. right.
  destruct (Hmap _ _ _ H5') as [(j & id & Hj & -> & ->)|(k6 & -> & H6')]; [left; exists j, id; split_and!; [done|lia|done]|]. right.
  destruct k6; [|done]. cbn in H6'. injection H6' as <-. split; [lia|done].
Qed.

Lemma from_phase {A} n k (p : prog RotCall A) (ok : A -> Prop) w :
  k <> 0 -> rwp (at_phase n k) p (fun r v => ok r -> at_phase n (S k) v) w -> rwp (Inv k) p (fun r v => ok r -> Inv (S k) v) w.
Proof.
  intros Hk Hp. eapply wp_mono; [exact Hp|intros v Hv; by exists n|]. intros r v _ Hq Hr. exists n. split; [by apply Hq|done].
Qed.

Lemma steps_done k s job w :
  steps ids cluster !! k = Some s -> Inv k w -> rwp (Inv k) (Do s job) (fun r v => r.2 = None -> Inv (S k) v) w.
Proof.
  intros Hs Hw. destruct (steps_at k s Hs) as
    [[-> ->]|[(j & id & Hj & -> & ->)|[[-> ->]|[(j & id & Hj & -> & ->)|[[-> ->]|[(j & id & Hj & -> & ->)|[-> ->]]]]]]];
    [by apply prepare_done|destruct Hw as (n & Hn & _); apply (from_phase n); [lia|]..].
  - by apply accept_done.
  - by apply preflight_done.
  - by apply issue_done.
  - by apply adopt_done.
  - by apply prune_done.
  - by apply finish_done.
Qed.

Lemma steps_asked k s h job w :
  steps ids cluster !! k = Some s -> Happened s = Some h -> Inv k w -> rwp (Inv k) (h job) (fun r v => r = Ok true -> Inv (S k) v) w.
Proof.
  intros Hs Hh Hw. destruct (steps_at k s Hs) as
    [[-> ->]|[(j & id & Hj & -> & ->)|[[-> ->]|[(j & id & Hj & -> & ->)|[[-> ->]|[(j & id & Hj & -> & ->)|[-> ->]]]]]]];
    [by apply prepare_asked|destruct Hw as (n & Hn & _); apply (from_phase n); [lia|]..].
  - by apply (accept_asked n j id).
  - done.
  - by apply (issue_asked n j id).
  - by apply adopt_asked.
  - by apply (prune_asked n j id).
  - by apply finish_asked.
Qed.

Lemma walk_phases job k cut started w0 w :
  Inv 0 w0 -> Walk (HD := rot_deeds fresh) (steps ids cluster) job w0 k cut started w -> Inv k w.
Proof.
  intros H0i. apply (walk_invariant (HD := rot_deeds fresh) (steps ids cluster) job Inv w0).
  - exact H0i.
  - intros i s j v Hs _ Hv. by apply (steps_done i s j v).
  - intros i s h j v Hs Hh _ Hv. by apply (steps_asked i s h j v).
Qed.
End Rotation.
