(* ===== verification/RotateSafety.v ===== *)
(** * A rotation cuts nobody off

    The theorem holds at every moment of every walk of the job ([RotateWalk.v]): each
    node accepts what every node presents and what this installation presents; and at
    the end only the new authority is left. What the job is not able to do is here as
    well: a node that was switched cannot be reached again before the new authority is
    adopted. Two nodes carry a rotation out with a library whose laws are proved. *)

From S2P Require Import Prelude GoBase64 RecordStore Jobs Transport Effects NodeActions Redact PlanGuard RotateCA RotatePasses RotateWalk.
From S2P Require Export Walk.

#[local] Arguments wp : simpl never.

Section Theorems.
Context `{Patcher} `{CALib} `{!CALaws} (fresh : cert -> Prop).
Implicit Types (w v : list RotEvent).

(** Before the first rotation of a cluster: every node issues from the stored
    authority, the stored certificate is from it, and no node lists a certificate
    that is yet to be made; or a job before this one got as far as pass 1. *)
Definition ready (cluster : string) (ids : list string) (old : cert) w : Prop :=
  exists s, files (now_of w) !! cluster = Some (Some s) /\ cs_Cluster s = cluster /\
    parse_pem (OSCACrt s) = Some old /\ issued_by (ClientCrt s) = Some old /\ ~ fresh old /\
    ((is_pending s = false /\ forall id, id ∈ ids -> exists l, node_reads id old l w /\ forall c, c ∈ l -> ~ fresh c) \/
     (is_pending s = true /\ exists next, parse_pem (NextOSCACrt s) = Some next /\ next <> old /\
        forall id, id ∈ ids -> exists l, node_reads id old l w /\ (next ∈ l -> old ∈ l))).

(** Every node accepts what every node presents, and what this installation does. *)
Definition in_touch (cluster : string) (ids : list string) w : Prop :=
  exists s, files (now_of w) !! cluster = Some (Some s) /\
    forall id, id ∈ ids -> exists st, Inspect (confs (now_of w) id) = Ok st /\ accepts_client st (ClientCrt s) = true /\
      forall id' st', id' ∈ ids -> Inspect (confs (now_of w) id') = Ok st' -> Accepts st (IssuingCrt st') = true.

(** One new authority, alone on every node, with the credentials in the store let in. *)
Definition moved (cluster : string) (ids : list string) (old : cert) w : Prop :=
  exists s new, files (now_of w) !! cluster = Some (Some s) /\ NextOSCACrt s = "" /\ parse_pem (OSCACrt s) = Some new /\ new <> old /\
    forall id, id ∈ ids -> lets_in (confs (now_of w) id) (mkCreds (OSCACrt s) (ClientCrt s) (ClientKey s)) = true /\
      exists st, Inspect (confs (now_of w) id) = Ok st /\ forall crt, Accepts st crt = true -> sameCertificate crt (OSCACrt s) = true.

Lemma ready_inv cluster ids old w : ready cluster ids old w -> Inv fresh cluster ids old 0 w /\ ~ fresh old.
Proof.
  intros (s & Hs & Hc & Ho & Hi & Hold & Hp). split; [|done].
  destruct Hp as [(Hp & Hn)|(Hp & next & Hx & Hne & Hn)].
  - exists old. split; [split|].
    + intros j id Hj. destruct (Hn id) as (l & Hr & Hl); [by eapply list_elem_of_lookup_2|]. exists old, l. split; [done|].
      left. split_and!; [lia|done|done|lia].
    + exists s. split; [done|]. split; [done|]. left. split_and!; [done|by split|congruence].
    + intros _. right. intros id Hid. destruct (Hn id Hid) as (l & Hr & Hl). eauto.
  - exists next. split; [split|].
    + intros j id Hj. destruct (Hn id) as (l & Hr & Hl); [by eapply list_elem_of_lookup_2|]. exists old, l. split; [done|].
      left. split_and!; [lia|done|done|lia].
    + exists s. split; [done|]. split; [done|]. left. split_and!; [done|by split|]. intros _. by split; [split|].
    + intros _. left. by exists s.
Qed.

Lemma client_accepted st i l c crt :
  parse_pem (IssuingCrt st) = Some i -> map parse_pem (AcceptedCrts st) = map Some l -> issued_by crt = Some c ->
  accepts_client st crt = true <-> c = i \/ c ∈ l.
Proof.
  intros Hi Hl Hc. unfold accepts_client. rewrite Hc. cbn [existsb]. rewrite orb_true_iff, bool_decide_eq_true, Hi, existsb_exists. split.
  - intros [E|(a & Ha%list_elem_of_In & Ea%bool_decide_eq_true)]; [left; congruence|right].
    assert (Hin : Some c ∈ map parse_pem (AcceptedCrts st)) by (rewrite <- Ea; by apply list_elem_of_fmap_2).
    rewrite Hl in Hin. by apply list_elem_of_fmap in Hin as (d & [= <-] & Hd).
  - intros [->|Hin]; [by left|right]. assert (Hs : Some c ∈ map parse_pem (AcceptedCrts st)) by (rewrite Hl; by apply list_elem_of_fmap_2).
    apply list_elem_of_fmap in Hs as (a & Ha & Hin'). exists a. split; [by apply list_elem_of_In|]. by apply bool_decide_eq_true.
Qed.

(** What a phase says of any two nodes and of the client certificate. *)
Lemma phase_accepts ids old n k j j' i l i' l' :
  j < length ids -> j' < length ids -> ok_at ids old n k j i l -> ok_at ids old n k j' i' l' -> i' = i \/ i' ∈ l.
Proof.
  intros Hj Hj' [(Hk & -> & _)|[(Hk & Hi & Ho & Hn & _)|(Hk & -> & _)]] [(Hk' & -> & _)|[(Hk' & [->| ->] & _)|(Hk' & -> & _)]];
    try lia; [by left|by right|by right|by left].
Qed.
Lemma phase_client cluster ids old n k j i l s :
  j < length ids -> ok_at ids old n k j i l -> sec_ok cluster ids old n k s ->
  exists c, issued_by (ClientCrt s) = Some c /\ (c = i \/ c ∈ l).
Proof.
  intros Hj Hok [_ [(-> & [_ Hc] & _)|(_ & _ & Hs)]].
  { exists old. split; [done|]. left. destruct Hok as [(_ & -> & _)|[(Hk & _)|(Hk & _)]]; [done|lia|lia]. }
  destruct Hok as [(Hk & -> & _)|[(Hk & _ & Ho & Hn & Hl)|(Hk & -> & _)]].
  - destruct Hs as [(_ & [_ Hc] & _)|[(Hk' & _)|[(Hk' & _)|[(Hk' & _)|(Hk' & _)]]]]; [eauto|lia..].
  - destruct Hs as [(_ & [_ Hc] & _)|[(Hk' & [[_ Hc]|[_ Hc]] & _)|[(Hk' & _)|[(Hk' & _)|(Hk' & _)]]]]; [eauto..|lia|lia|lia].
  - destruct Hs as [(Hk' & _)|[(Hk' & _)|[(_ & [_ Hc] & _)|[(_ & [_ Hc] & _)|(_ & [_ Hc] & _)]]]]; [lia|lia|eauto..].
Qed.

Lemma phase_in_touch cluster ids old n k w : at_phase cluster ids old n k w -> in_touch cluster ids w.
Proof.
  intros [Hn (s & Hs & Hsec)]. exists s. split; [done|]. intros id Hid. apply list_elem_of_lookup in Hid as [j Hj].
  destruct (Hn j id Hj) as (i & l & Hr & Hok). pose proof (lookup_lt_Some _ _ _ Hj). destruct (Hr) as (_ & st & E & Hi & Hl).
  exists st. split; [done|]. split.
  - destruct (phase_client cluster ids old n k j i l s) as (c & Hc & Hin); [done..|]. by apply (client_accepted st i l c).
  - intros id' st' Hid' E'. apply list_elem_of_lookup in Hid' as [j' Hj']. destruct (Hn j' id' Hj') as (i' & l' & Hr' & Hok').
    destruct (Hr') as (_ & st2 & E2 & Hi' & _). assert (st2 = st') as -> by congruence.
    apply (accepts_iff st i l _ i' Hi Hl Hi'). eapply phase_accepts; [..|exact Hok|exact Hok']; [done|by eapply lookup_lt_Some].
Qed.

Lemma phase_moved cluster ids old n w : at_phase cluster ids old n (3 * length ids + 4) w -> moved cluster ids old w.
Proof.
  intros [Hn (s & Hs & [_ [(Hk & _)|(_ & Hne & Hsec)]])]; [lia|]. destruct Hsec as [(Hk & _)|[(Hk & _)|[(Hk & _)|[(Hk & _)|(_ & [Ho Hc] & Hset)]]]]; try lia.
  exists s, n. split_and!; [done|done|done|done|]. intros id Hid. apply list_elem_of_lookup in Hid as [j Hj].
  destruct (Hn j id Hj) as (i & l & (_ & st & E & Hi & Hl) & Hok). pose proof (lookup_lt_Some _ _ _ Hj).
  destruct Hok as [(Hk & _)|[(Hk & _)|(_ & -> & Hall)]]; [lia|lia|]. specialize (Hall ltac:(lia)). split.
  - unfold lets_in. rewrite E. cbn [RootCAs Crt]. apply andb_true_iff. split; [by apply (same_some _ _ _ Ho)|].
    apply (client_accepted st n l n); [done..|by left].
  - exists st. split; [done|]. intros crt Ha. apply (same_some _ _ _ Ho). unfold Accepts in Ha. apply orb_true_iff in Ha as [Ha|Ha].
    + apply same_iff in Ha as (c & Hc1 & Hc2). congruence.
    + unfold listed in Ha. apply existsb_exists in Ha as (x & Hx%list_elem_of_In & Hsx). apply same_iff in Hsx as (c & Hc1 & Hc2).
      assert (Hin : Some c ∈ map parse_pem (AcceptedCrts st)) by (rewrite <- Hc1; by apply list_elem_of_fmap_2).
      rewrite Hl in Hin. apply list_elem_of_fmap in Hin as (d & [= <-] & Hd). rewrite Hc2. by rewrite (Hall c Hd).
Qed.

(** C12: At every moment of a rotation, wherever it fails or is cut off and however
    often it is taken up again, with others changing settings and renewing the
    client certificate meanwhile: each node accepts the certificates every node
    presents and the one this installation presents. When its last step is passed,
    the stored authority is a new one, it is the only one any node accepts, the
    stored credentials are let in everywhere, and no rotation is pending. *)
Theorem a_rotation_cuts_nobody_off job req sts old k cut started w0 w :
  RequestFromParams (Params job) = Ok req -> rotate_job job = Ok sts -> NoDup req -> ready (Jobs.Cluster job) req old w0 ->
  Walk (HD := rot_deeds fresh) sts job w0 k cut started w ->
  in_touch (Jobs.Cluster job) req w /\ (k = length sts -> moved (Jobs.Cluster job) req old w).
Proof.
  unfold rotate_job. intros Hreq Hsts Hnd Hrd Hw. rewrite Hreq in Hsts. injection Hsts as <-.
  destruct (ready_inv _ _ _ _ Hrd) as [Hinv Hold].
  destruct (walk_phases fresh (Jobs.Cluster job) req old Hnd Hold job k cut started w0 w Hinv Hw) as (n & Hph & _).
  split; [by eapply phase_in_touch|]. intros ->. eapply phase_moved.
  assert (E : length (steps req (Jobs.Cluster job)) = 3 * length req + 4) by (unfold steps; rewrite !length_app, !length_map; cbn; lia).
  by rewrite E in Hph.
Qed.

(* ------------------------------------------------------------------ *)
(** ** What a node that was switched cannot be asked *)

(** Of the inventory, that it knows the machine and its cluster. *)
Definition calm_at (cluster id : string) (x : rchoice) : Prop :=
  calm fresh x /\ forall m, x_machine x id = Ok m -> mr_ID m = id /\ mr_Cluster m = cluster.

Lemma unreachable cluster id n l old w :
  n <> old -> holds cluster (fun s => parse_pem (OSCACrt s) = Some old) w -> node_reads id n l w ->
  wp (calm_at cluster id) (fun _ => True) (Connect job_ctx id) (fun r _ => is_ok r = false) w.
Proof.
  intros Hne Hs Hr. set (J := fun v => holds cluster (fun s => parse_pem (OSCACrt s) = Some old) v /\ node_reads id n l v).
  assert (HJ : stable fresh J).
  { apply stable_and; [|apply stable_reads]. apply stable_holds. intros s s' (_ & E & _). by rewrite E. }
  apply wp_act; [done|]. intros x [Hx Hm]. pose proof (act_silent fresh J _ (GetMachine id) x w HJ I Hx (conj Hs Hr)) as Hv.
  unfold act, rot_handler, rot_act in *. cbn -[now_of prog_bind] in *. destruct (x_machine x id) as [m|[]]; [|by apply wp_ret..].
  destruct (Hm m eq_refl) as [Eid Ec]. rewrite Ec. set (v := w ++ _) in *. clearbody v. clear w Hs Hr. unfold clusterCreds.
  apply wp_act; [done|]. intros y [Hy _]. pose proof (act_silent fresh J _ (GetSecrets cluster) y v HJ I Hy Hv) as Hu.
  unfold act, rot_handler, rot_act in *. cbn -[now_of prog_bind store_get] in *. set (u := v ++ _) in *. clearbody u.
  destruct (store_get _ _ cluster) as [s|[]] eqn:Eg; [|by apply wp_ret..].
  assert (Ho : parse_pem (OSCACrt s) = Some old).
  { destruct Hu as [(s' & Es & Ho) _]. unfold store_get in Eg. rewrite Es in Eg. destruct (safeKey cluster), (x_fault y); naive_solver. }
  cbn [prog_bind]. destruct (ClusterCreds (OSCACrt s) (ClientCrt s) (ClientKey s)) as [creds|e] eqn:Ecr; [|by apply wp_ret].
  assert (Er : RootCAs creds = OSCACrt s) by (unfold ClusterCreds in Ecr; repeat case_match; naive_solver).
  apply wp_act; [done|]. intros z [Hz _]. pose proof (proj1 HJ u z Hz Hu) as [_ Hn].
  unfold act, rot_handler, rot_act. cbn -[now_of]. set (t := u ++ _) in *. clearbody t. rewrite Eid. destruct (x_node z); [by apply wp_ret|].
  assert (El : lets_in (confs (now_of t) id) creds = false).
  { unfold lets_in. destruct Hn as (_ & st & E & Hi & _). rewrite E, Er. apply andb_false_iff. left. apply not_true_is_false.
    intros Hc. apply (same_some _ _ _ Ho) in Hc. congruence. }
  rewrite El. by apply wp_ret.
Qed.

(** After a node was switched and before the new authority is adopted nothing is read
    from it: the question a job asks after it was cut off in pass 2 has no answer. *)
Theorem a_switched_node_cannot_be_asked cluster id n l old job h xs r rest w w' :
  n <> old -> holds cluster (fun s => parse_pem (OSCACrt s) = Some old) w -> node_reads id n l w ->
  Happened (issueStep cluster id) = Some h -> Forall (calm_at cluster id) xs ->
  Effects.run (h job) xs w = (Some r, rest, w') -> exists e, r = Err e.
Proof.
  intros Hne Hs Hr [= <-] Hxs Hrun.
  assert (Hw : wp (calm_at cluster id) (fun _ => True)
    (next <-? pending cluster ;; state <-? read id ;; give (Ok (IssuesFrom state (a_Crt next)))) (fun r _ => is_ok r = false) w).
  { set (J := fun v => holds cluster (fun s => parse_pem (OSCACrt s) = Some old) v /\ node_reads id n l v).
    assert (HJ : stable fresh J).
    { apply stable_and; [|apply stable_reads]. apply stable_holds. intros s s' (_ & E & _). by rewrite E. }
    apply wp_act; [done|]. intros x [Hx _]. pose proof (act_silent fresh J _ (GetSecrets cluster) x w HJ I Hx (conj Hs Hr)) as Hv.
    revert Hv. generalize (act (GetSecrets cluster) x w). intros [[s|e] v] [Hv1 Hv2]; cbn -[read]; [|by apply wp_ret].
    destruct (is_pending s); cbn -[read]; [|by apply wp_ret]. apply wp_try, wp_try.
    eapply wp_post; [by apply (unreachable cluster id n l old)|]. intros [[]|e] u _ Hu; cbn beta iota; done. }
  destruct (wp_run _ _ _ _ _ _ _ _ _ Hw Hxs Hrun) as (_ & Hq & _). specialize (Hq r eq_refl). destruct r as [b|e]; [done|eauto].
Qed.
End Theorems.

(* ------------------------------------------------------------------ *)
(** ** A library to try it with *)

Module Concrete.

(** A configuration is its authorities in base64, the issuing one first, a line each;
    a line that begins with three dashes begins another document. *)
Definition good_line (l : string) : bool := negb (bool_decide (l = "")) && negb (bool_decide (String.substring 0 3 l = "---")).
Fixpoint first_lines (ls : list string) : list string :=
  match ls with l :: ls => if good_line l then l :: first_lines ls else [] | [] => [] end.
Definition text_of (ls : list string) : string := foldr (fun l t => l +:+ String (chr 10) t) "" ls.
Definition toy_read (t : string) : result string (string * list string) :=
  match first_lines (split_on (chr 10) t) with ca :: acc => Ok (ca, acc) | [] => Err "no authority" end.

Definition one_line (l : string) : Prop := good_line l = true /\ str_all (fun c => negb (Ascii.eqb c (chr 10))) l = true.

Lemma split_lines t : Forall (fun l => str_all (fun c => negb (Ascii.eqb c (chr 10))) l = true) (split_on (chr 10) t).
Proof.
  induction t as [|c t IH]; [by repeat constructor|]. cbn [split_on]. destruct (Ascii.eqb c (chr 10)) eqn:E; [by constructor|].
  destruct (split_on (chr 10) t) as [|h ls]; (apply Forall_cons in IH as [Hh Hl] || clear IH); constructor; try done; cbn [str_all str1]; by rewrite E.
Qed.

Lemma first_lines_good ls : Forall (fun l => str_all (fun c => negb (Ascii.eqb c (chr 10))) l = true) ls -> Forall one_line (first_lines ls).
Proof.
  induction ls as [|l ls IH]; cbn [first_lines]; [done|]. intros [Hl Hls]%Forall_cons. destruct (good_line l) eqn:E; [|done].
  constructor; [by split|by apply IH].
Qed.

Lemma toy_read_lines t ca acc : toy_read t = Ok (ca, acc) -> Forall one_line (ca :: acc).
Proof.
  unfold toy_read. pose proof (first_lines_good _ (split_lines t)) as Hf. destruct (first_lines _) as [|c a]; [done|]. by intros [= <- <-].
Qed.

Lemma tail_stops tail : begins_document tail -> first_lines (split_on (chr 10) tail) = [].
Proof.
  intros [->|E]; [by vm_compute|]. destruct tail as [|a [|b [|c tail]]]; try done. cbn in E. assert (E' : a = "-"%char /\ b = "-"%char /\ c = "-"%char).
  { destruct tail; by injection E as -> -> ->. }
  destruct E' as (-> & -> & ->). cbn [split_on]. replace (Ascii.eqb "-" (chr 10)) with false by (by vm_compute).
  destruct (split_on (chr 10) tail) as [|h ls]; [done|]. cbn [first_lines]. unfold good_line. cbn. by destruct h.
Qed.

Lemma read_text ls tail : Forall one_line ls -> begins_document tail -> first_lines (split_on (chr 10) (text_of ls +:+ tail)) = ls.
Proof.
  intros Hls Ht. induction Hls as [|l ls [Hg Hl] _ IH]; [by apply tail_stops|]. cbn [text_of foldr].
  rewrite <- (assoc_L String.append), str_app_cons, split_on_app by done. cbn [first_lines]. rewrite Hg. f_equal. exact IH.
Qed.

Inductive toy_patch := PAccept (crts : list string) | PIssue (crt : string).
Definition toy_load (body : string) : result string (option toy_patch) :=
  match split_on (chr 10) body with
  | _ :: kind :: ls =>
      if bool_decide (kind = "  acceptedCAs:") then Ok (Some (PAccept (omap (cut_prefix "    - crt: ") ls)))
      else match ls with
           | crt :: _ => match cut_prefix "    crt: " crt with Some c => Ok (Some (PIssue c)) | None => Err "no patch" end
           | [] => Err "no patch"
           end
  | _ => Err "no patch"
  end.
Definition toy_merge (p : string * list string) (patch : toy_patch) : string * list string :=
  match patch with PAccept crts => (p.1, p.2 ++ crts) | PIssue crt => (crt, p.2) end.

Definition entry (crt : string) : node := bare MappingNode "" [bare ScalarNode "crt" []; bare ScalarNode crt []].
Definition toy_doc (p : string * list string) : node :=
  bare DocumentNode "" [bare MappingNode "" [bare ScalarNode "machine" [];
    bare MappingNode "" [bare ScalarNode "ca" []; entry p.1; bare ScalarNode "acceptedCAs" []; bare SequenceNode "" (map entry p.2)]]].
Definition crt_of (n : node) : string := match mappingValue n "crt" with Some v => value v | None => "" end.
Definition toy_text (doc : node) : result string string :=
  match content doc with
  | root :: _ =>
      match mappingValue root "machine" with
      | Some m => match mappingValue m "ca", mappingValue m "acceptedCAs" with
                  | Some ca, Some l => Ok (text_of (crt_of ca :: map crt_of (content l)))
                  | _, _ => Err "no authority"
                  end
      | None => Err "no machine"
      end
  | [] => Err "no document"
  end.
Definition toy_node (t : string) : result string node :=
  match toy_read t with
  | Ok p => if plain_node (toy_doc p) then Ok (toy_doc p) else Err "not plain"
  | Err e => Err e
  end.

#[local] Instance machinery : Machinery := {|
  provider := string * list string;
  NewFromBytes := toy_read;
  RedactSecrets := fun _ p => p;
  EncodeBytes := fun p => Ok (text_of (p.1 :: p.2));
  yaml_documents := fun _ => Err "";
  yaml_encode := fun _ => Err "";
  yaml_decode := fun _ => Err "";
  yaml_unmarshal := fun _ => Err "";
  yaml_marshal := fun _ => Err "";
  sprint := fun _ => "";
  sha256_hex := fun t => t
|}.
#[local] Instance patcher : Patcher :=
  @Build_Patcher machinery toy_patch (fun _ => Err "not a list") (fun t => Ok [("machine", ANil)]) toy_load
    (fun p patch => Ok (toy_merge p patch)) (fun p => Ok (text_of (p.1 :: p.2))) (fun _ => ([], None)).
#[local] Instance lib : CALib := {|
  cert := string;
  parse_pem := cut_prefix "CERT:";
  issued_by := cut_prefix "CLIENT:";
  key_pair := fun _ _ => true;
  pool_from_pem := fun _ => true;
  read_cas := toy_read;
  yaml_node := toy_node;
  yaml_of_node := toy_text;
  marshal_request := fun l => Ok (String.concat "," l);
  unmarshal_request := fun t => Ok (split_on "," t);
  add_years := fun n t => (t + n * 31556952 * second)%Z;
  store_text := fun _ => "the store failed"
|}.

Abbreviation no_break l := (str_all (fun c => negb (Ascii.eqb c (chr 10))) l = true) (only parsing).

Lemma app_no_break a b : no_break a -> no_break b -> no_break (a +:+ b).
Proof. intros Ha Hb. by rewrite str_all_app, Ha, Hb. Qed.

Lemma text_concat ls : String.concat "" (map line ls) = text_of ls.
Proof.
  induction ls as [|l [|l2 ls] IH]; [done| |].
  - cbn. unfold line, nl, str1. done.
  - cbn [map]. change (String.concat "" (line l :: line l2 :: map line ls)) with (line l +:+ "" +:+ String.concat "" (line l2 :: map line ls)).
    cbn [map] in IH. rewrite str_app_nil, IH. unfold line, nl, str1. by rewrite <- (assoc_L String.append).
Qed.

Lemma split_text ls : Forall (fun l => no_break l) ls -> split_on (chr 10) (text_of ls) = ls ++ [""].
Proof.
  induction ls as [|l ls IH]; intros Hls; [done|]. apply Forall_cons in Hls as [Hl Hls]. cbn [text_of foldr]. rewrite split_on_app by done. cbn [app]. f_equal. by apply IH.
Qed.

Lemma encoded_line crt : crt <> "" -> one_line (encodeBase64 crt).
Proof.
  intros Hne. split; [|apply base64_one_line; set_solver]. unfold good_line. rewrite bool_decide_false by by apply base64_nonempty.
  rewrite bool_decide_false; [done|]. intros E. pose proof (base64_one_line crt "-" ltac:(set_solver)) as Hd. unfold encodeBase64 in E.
  by destruct (base64_encode crt) as [|a [|b [|c s]]]; [done..|]; cbn in E; destruct s; injection E as -> -> ->.
Qed.

Lemma cut_lines c p crts : omap (cut_prefix (String c p)) (map (fun x => String c p +:+ encodeBase64 x) crts ++ [""]) = map encodeBase64 crts.
Proof.
  induction crts as [|x crts IH]; [done|]. cbn [map app]. change (omap ?f (?a :: ?l)) with (match f a with Some y => y :: omap f l | None => omap f l end).
  by rewrite cut_prefix_app, IH.
Qed.

Lemma load_accept crts : crts <> [] -> toy_load (acceptedCAsPatch crts) = Ok (Some (PAccept (map encodeBase64 crts))).
Proof.
  intros Hne. assert (E : acceptedCAsPatch crts = text_of ("machine:" :: "  acceptedCAs:" :: map (fun c => "    - crt: " +:+ encodeBase64 c) crts)).
  { rewrite <- text_concat. unfold acceptedCAsPatch. destruct crts; [done|]. cbn [map]. by rewrite <- map_map. }
  unfold toy_load. rewrite E, split_text.
  - rewrite <- !app_comm_cons, bool_decide_true by done. by rewrite cut_lines.
  - repeat (constructor; [by vm_compute|]). apply Forall_map, Forall_forall. intros c _. apply app_no_break; [by vm_compute|].
    apply base64_one_line. set_solver.
Qed.

Lemma load_issue a role : toy_load (IssuePatch a role) = Ok (Some (PIssue (encodeBase64 (a_Crt a)))).
Proof.
  set (key := if bool_decide (role = RoleControlPlane) then encodeBase64 (a_Key a) else quotes).
  assert (E : IssuePatch a role = text_of ["machine:"; "  ca:"; "    crt: " +:+ encodeBase64 (a_Crt a); "    key: " +:+ key]) by (by rewrite <- text_concat).
  assert (Hk : no_break key) by (unfold key; destruct (bool_decide _); [apply base64_one_line; set_solver|by vm_compute]).
  unfold toy_load. rewrite E, split_text.
  - rewrite <- !app_comm_cons, bool_decide_false by done. by rewrite cut_prefix_app.
  - constructor; [by vm_compute|]. constructor; [by vm_compute|].
    constructor; [apply app_no_break; [by vm_compute|apply base64_one_line; set_solver]|].
    constructor; [by apply app_no_break; [vm_compute|]|constructor].
Qed.

Lemma toy_patched cfg patch q out :
  toy_load patch = Ok (Some q) -> ApplyPatches cfg [patch] = Ok out ->
  exists p, toy_read cfg = Ok p /\ out = text_of ((toy_merge p q).1 :: (toy_merge p q).2).
Proof.
  unfold ApplyPatches. cbn -[toy_load toy_read ValidatePatch text_of]. destruct (toy_read cfg) as [p|e]; [|done]. intros Hl.
  destruct (ValidatePatch patch); [|done]. cbn -[toy_load toy_read text_of]. rewrite Hl. cbn -[text_of]. intros [= <-]. by exists p.
Qed.

Lemma read_back ca acc tail : Forall one_line (ca :: acc) -> begins_document tail -> toy_read (text_of (ca :: acc) +:+ tail) = Ok (ca, acc).
Proof. intros Hl Ht. unfold toy_read. by rewrite read_text. Qed.

Lemma str_app_end s : s +:+ "" = s.
Proof. induction s as [|c s IH]; [done|]. by rewrite str_app_cons, IH. Qed.

Lemma read_whole ca acc : Forall one_line (ca :: acc) -> toy_read (text_of (ca :: acc)) = Ok (ca, acc).
Proof. intros Hl. rewrite <- (str_app_end (text_of _)). apply read_back; [done|by left]. Qed.

Lemma toy_plain cfg : plain cfg.
Proof. intros doc. cbn. unfold toy_node. destruct (toy_read cfg) as [p|]; [|done]. destruct (plain_node (toy_doc p)) eqn:E; [|done]. by intros [= <-]. Qed.

Lemma toy_edited cfg ca acc crt doc root rest m doc' root' m' out tail :
  crt <> "" -> toy_read cfg = Ok (ca, acc) -> toy_node cfg = Ok doc -> content doc = root :: rest -> mappingValue root "machine" = Some m ->
  content doc' = root' :: rest -> same_but "machine" m' root root' -> same_but "acceptedCAs" (kept crt) m m' -> toy_text doc' = Ok out ->
  begins_document tail -> toy_read (out +:+ tail) = Ok (ca, [encodeBase64 crt]).
Proof.
  intros Hne Hr Hn Hc Hm Hc' (_ & Hm' & _) (_ & Ha & Hother & _) Ht Htail. unfold toy_node in Hn. rewrite Hr in Hn.
  destruct (plain_node (toy_doc (ca, acc))); [|done]. injection Hn as <-. cbn in Hc. injection Hc as <- <-.
  unfold mappingValue in Hm. cbn in Hm. injection Hm as <-.
  assert (Hca : mappingValue m' "ca" = Some (entry ca)) by (by rewrite Hother).
  unfold toy_text in Ht. rewrite Hc', Hm', Hca, Ha in Ht. cbn in Ht. injection Ht as <-.
  pose proof (toy_read_lines _ _ _ Hr) as [Hl _]%Forall_cons. apply (read_back ca [encodeBase64 crt]); [|done].
  constructor; [done|]. constructor; [by apply encoded_line|done].
Qed.

#[local] Instance laws : CALaws.
Proof.
  constructor.
  - done.
  - intros cfg ca acc crts out Hne Hcrts Hr Hap. destruct (toy_patched _ _ _ _ (load_accept crts Hne) Hap) as (p & Hp & ->).
    cbn in Hr. assert (p = (ca, acc)) as -> by congruence. cbn -[text_of toy_read]. apply read_whole.
    pose proof (toy_read_lines _ _ _ Hr) as [Hca Hacc]%Forall_cons. constructor; [done|]. apply Forall_app. split; [done|].
    apply Forall_map. eapply Forall_impl; [exact Hcrts|]. intros c Hc. by apply encoded_line.
  - intros cfg ca acc a role out Hne Hr Hap. destruct (toy_patched _ _ _ _ (load_issue a role) Hap) as (p & Hp & ->).
    cbn in Hr. assert (p = (ca, acc)) as -> by congruence. cbn -[text_of toy_read]. apply read_whole.
    pose proof (toy_read_lines _ _ _ Hr) as [_ Hacc]%Forall_cons. constructor; [by apply encoded_line|done].
  - intros cfg patches out _. apply toy_plain.
  - intros cfg ca acc crt doc root rest m doc' root' m' out tail Hne Hr Hy _ Hc Hm _ Hc' Hs1 Hs2 Ht Htail. by eapply toy_edited.
  - intros cfg ca acc doc root rest m _ Hr Hy _ Hc Hm. cbn in Hy. unfold toy_node in Hy. cbn in Hr. rewrite Hr in Hy.
    destruct (plain_node (toy_doc (ca, acc))); [|done]. injection Hy as <-. cbn in Hc. injection Hc as <- <-.
    unfold mappingValue in Hm. cbn in Hm. by injection Hm as <-.
  - intros doc out tail _ _ _. apply toy_plain.
Qed.

(* ------------------------------------------------------------------ *)
(** ** Two nodes *)

Definition old_crt : string := "CERT:old".
Definition new_crt : string := "CERT:new".
Definition fresh (c : cert) : Prop := c = "new".
Definition secrets : ClusterSecrets := mkSecrets "c1" old_crt "old-key" "CLIENT:old" "k" "" "" [] 3.
Definition before : list RotEvent := [Meanwhile (fun _ => text_of [encodeBase64 old_crt]) {[ "c1" := Some secrets ]}].

Definition helpful : rchoice :=
  mkRChoice (fun c => c) (fun f => f) 100 NoFault (fun id => Ok (mkMachine id "c1" (if bool_decide (id = "m1") then RoleControlPlane else "worker") "10.0.0.1"))
    (Ok [mkMachine "m1" "c1" RoleControlPlane "10.0.0.1"; mkMachine "m2" "c1" "worker" "10.0.0.2"]) (Ok (mkCluster "c1" 0 [] 1))
    (Ok (mkAuthority new_crt "new-key")) (fun ca key => match parse_pem ca with Some c => Ok ("CLIENT:" +:+ c, "k2", 500%Z) | None => Err "no certificate" end)
    None true ("no-reboot", "applied").

Definition req : list string := ["m1"; "m2"].
Definition job : Job :=
  mkJob "j1" JobKindRotateCA "c1" "" (mkExec JobRunning (repeat (Jobs.mkStep "" StepPending true 0 0 "") 10) 0 0 0 "")
    {[ "request" := "m1,m2" ]} false "op" 0 1.

Lemma helpful_calm : calm fresh helpful.
Proof.
  split_and!; [by intros c id i l Hr|intros f cluster s Hs; by exists s| |].
  - intros a [= <-]. split; [done|]. by exists "new".
  - intros ca key crt k t. unfold helpful, x_minted. destruct (parse_pem ca) as [c|]; [|done]. intros [= <- _ _]. by apply (cut_prefix_app "CLIENT:" c).
Qed.

Lemma before_ready : ready fresh "c1" req "old" before.
Proof.
  exists secrets. split_and!; [by vm_compute|done|by vm_compute|by vm_compute|done|]. left. split; [by vm_compute|].
  intros id _. exists []. split; [|intros c Hc; by apply not_elem_of_nil in Hc].
  split; [apply toy_plain|]. exists (mkState old_crt []). split_and!; by vm_compute.
Qed.

Definition rotation : option (nat * Job * list RotEvent) :=
  perform (steps req "c1") 0 100 job (replicate 200 helpful) before.
Definition after : list RotEvent := match rotation with Some (_, _, w) => w | None => [] end.

(** A whole rotation of two nodes. *)
Lemma a_rotation_cuts_nobody_off_witness :
  (exists started, Walk (HD := rot_deeds fresh) (steps req "c1") job before 10 false started after) /\
  in_touch "c1" req after /\ moved "c1" req "old" after.
Proof.
  destruct rotation as [[[n j] w]|] eqn:E; [|exfalso; by vm_compute in E].
  assert (Hn : n = 10).
  { assert (En : (p ← rotation; Some p.1.1) = Some 10) by (by vm_compute). rewrite E in En. by injection En. }
  subst n. assert (Ew : after = w) by (unfold after; by rewrite E). rewrite Ew. unfold rotation in E.
  apply (performed (HD := rot_deeds fresh)) in E as (started & Hw & _);
    [|by vm_compute|apply Forall_replicate, helpful_calm].
  split; [by exists started|].
  destruct (a_rotation_cuts_nobody_off fresh job req (steps req "c1") "old" 10 false started before w) as [Hin Hmoved];
    [by vm_compute|done|apply (bool_decide_unpack _); by vm_compute|apply before_ready|done|].
  split; [done|by apply Hmoved].
Defined.

(** What is stored and what the nodes say at the end. *)
Example rotated :
  (s ← files (now_of after) !! "c1"; s) = Some (mkSecrets "c1" new_crt "new-key" "CLIENT:new" "k2" "" "" [] 6) /\
  map (fun id => Inspect (confs (now_of after) id)) req = [Ok (mkState new_crt [new_crt]); Ok (mkState new_crt [new_crt])].
Proof. split; by vm_compute. Qed.

(** The job cut off when the answer of the first switch was lost: the node was
    switched, and the question whether it was cannot be put to it. *)
Definition lost : rchoice :=
  mkRChoice (x_confs helpful) (x_files helpful) 100 NoFault (x_machine helpful) (x_machines helpful) (x_cluster helpful) (x_signed helpful) (x_minted helpful)
    (Some tls_refused) true ("", "").
Definition up_to (k : nat) : list RotEvent := match perform (take k (steps req "c1")) 0 100 job (replicate 200 helpful) before with Some (_, _, w) => w | None => [] end.
Definition cut_off : list RotEvent := (Effects.run (Do (issueStep "c1" "m1") job) (replicate 8 helpful ++ [lost]) (up_to 4)).2.

Example switched_and_out_of_reach :
  Inspect (confs (now_of cut_off) "m1") = Ok (mkState new_crt [old_crt; new_crt]) /\
  forall h, Happened (issueStep "c1" "m1") = Some h ->
    exists e, (Effects.run (h job) (replicate 50 helpful) cut_off).1.1 = Some (Err e).
Proof. split; [by vm_compute|]. intros h [= <-]. eexists. by vm_compute. Qed.
End Concrete.
