(* ===== verification/AuditRecord.v ===== *)
(** * One line of the audit log and the chain of its hashes

    [internal/audit/record.go] and [chain.go]: the record, its canonical form,
    the hash over it, and the verification of a sequence of files. A file is
    the lines it decodes to. SHA-256 is a parameter. *)

From S2P Require Import Prelude GoText.
#[local] Set Warnings "-register-all".

(* ------------------------------------------------------------------ *)
(** ** Values

    What a parameter of a record can be once it went through the JSON decoder:
    [map[string]any], [[]any] and scalars. A number is its literal; a decoded
    [float64] is the shortest text of it. The entries of a map are a list in
    the order some walk finds them. *)

Inductive Value :=
  | VNull
  | VBool (b : bool)
  | VNum (lit : string)
  | VStr (s : string)
  | VObj (m : list (string * Value))
  | VArr (l : list Value).

Section Value_ind.
Context (P : Value -> Prop).
Context (Hnull : P VNull) (Hbool : forall b, P (VBool b)) (Hnum : forall l, P (VNum l)) (Hstr : forall s, P (VStr s)).
Context (Hobj : forall m, Forall (fun kv => P kv.2) m -> P (VObj m)) (Harr : forall l, Forall P l -> P (VArr l)).

Fixpoint Value_ind' (v : Value) : P v :=
  match v with
  | VNull => Hnull
  | VBool b => Hbool b
  | VNum l => Hnum l
  | VStr s => Hstr s
  | VObj m => Hobj m ((fix go (m : list (string * Value)) : Forall (fun kv => P kv.2) m :=
                         match m with
                         | [] => Forall_nil_2 _
                         | kv :: m' => Forall_cons_2 _ _ _ (Value_ind' kv.2) (go m')
                         end) m)
  | VArr l => Harr l ((fix go (l : list Value) : Forall P l :=
                         match l with
                         | [] => Forall_nil_2 _
                         | w :: l' => Forall_cons_2 _ _ _ (Value_ind' w) (go l')
                         end) l)
  end.
End Value_ind.

(** [sort.Strings(keys)] and the walk over them. *)
Definition key_le {A} (a b : string * A) : Prop := str_le a.1 b.1.
#[global] Instance key_le_dec {A} : RelDecision (@key_le A).
Proof. intros a b. unfold key_le. apply _. Defined.
Definition sort_keys {A} (m : list (string * A)) : list (string * A) := merge_sort key_le m.

Definition on_value {A B} (f : A -> B) (kv : string * A) : string * B := (kv.1, f kv.2).

(* ------------------------------------------------------------------ *)
(** ** The canonical form *)

Definition quote : ascii := chr 34.
Definition backslash : ascii := chr 92.

(** One rune inside a canonical string. *)
Definition escape (r : string) : string :=
  match r with
  | String c EmptyString =>
      let n := nat_of_ascii c in
      if Ascii.eqb c quote then String backslash (str1 quote)
      else if Ascii.eqb c backslash then String backslash (str1 backslash)
      else if bool_decide (n = 10) then String backslash "n"
      else if bool_decide (n = 13) then String backslash "r"
      else if bool_decide (n = 9) then String backslash "t"
      else if bool_decide (n = 8) then String backslash "b"
      else if bool_decide (n = 12) then String backslash "f"
      else if bool_decide (n < 32) then
        String backslash ("u00" +:+ String (hex_digit (Z.of_nat (n / 16))) (str1 (hex_digit (Z.of_nat (n mod 16)))))
      else r
  | _ => r
  end.

Definition writeCanonicalString (s : string) : string :=
  String quote (concat_str (map escape (runes s)) +:+ str1 quote).

Definition write_entry (kv : string * string) : string := writeCanonicalString kv.1 +:+ ":" +:+ kv.2.

Fixpoint writeCanonical (v : Value) : string :=
  match v with
  | VNull => "null"
  | VBool true => "true"
  | VBool false => "false"
  | VStr s => writeCanonicalString s
  | VNum lit => lit
  | VObj m => "{" +:+ join "," (map write_entry (sort_keys (map (on_value writeCanonical) m))) +:+ "}"
  | VArr l => "[" +:+ join "," (map writeCanonical l) +:+ "]"
  end.

(** [normalizeValue]: through the encoder and back, numbers kept as literals;
    what is not UTF-8 is replaced. *)
Fixpoint normalizeValue (v : Value) : Value :=
  match v with
  | VStr s => VStr (to_valid s)
  | VObj m => VObj (map (fun kv => (to_valid kv.1, normalizeValue kv.2)) m)
  | VArr l => VArr (map normalizeValue l)
  | VNull | VBool _ | VNum _ => v
  end.

(* ------------------------------------------------------------------ *)
(** ** Records *)

Definition OutcomeAttempt : string := "attempt".
Definition OutcomeSuccess : string := "success".
Definition OutcomeError : string := "error".

(** A nil [Params] and an empty one are the same here: the canonical form of
    both is [{}]. *)
Record Record_ := mkRecord {
  Seq : Z;
  TS : time;
  Actor : string;
  Session : string;
  SrcIP : string;
  ClusterID : string;
  MachineID : string;
  Action : string;
  Params : list (string * Value);
  JobID : string;
  Outcome : string;
  PrevHash : string;
  Hash : string
}.

Definition sessionPrefix : nat := 8.
Definition ellipsis : string := bytes_str [226; 128; 166].

Definition ShortSession (token : string) : string :=
  if bool_decide (String.length token ≤ sessionPrefix) then token
  else String.substring 0 sessionPrefix token +:+ ellipsis.

Definition canonicalFields (r : Record_) : list (string * Value) :=
  [("seq", VNum (itoa (Seq r))); ("ts", VStr (format_rfc3339 (TS r))); ("actor", VStr (Actor r));
   ("session", VStr (Session r)); ("src_ip", VStr (SrcIP r)); ("cluster_id", VStr (ClusterID r));
   ("machine_id", VStr (MachineID r)); ("action", VStr (Action r));
   ("params", normalizeValue (VObj (Params r))); ("job_id", VStr (JobID r));
   ("outcome", VStr (Outcome r)); ("prev_hash", VStr (PrevHash r))].

Definition CanonicalJSON (r : Record_) : string := writeCanonical (VObj (canonicalFields r)).

(** What [json.Unmarshal] makes of a number of the parameters: a [float64]. *)
Fixpoint decode_value (v : Value) : option Value :=
  match v with
  | VNull => Some VNull
  | VBool b => Some (VBool b)
  | VNum lit => VNum <$> renumber lit
  | VStr s => Some (VStr (to_valid s))
  | VObj m => VObj <$> mapM (fun kv => pair (to_valid kv.1) <$> decode_value kv.2) m
  | VArr l => VArr <$> mapM decode_value l
  end.

Definition decode_entry (kv : string * Value) : option (string * Value) :=
  pair (to_valid kv.1) <$> decode_value kv.2.

(** A record written with [json.Encoder] and read back with [json.Unmarshal]. *)
Definition reread (r : Record_) : option Record_ :=
  ps ← mapM decode_entry (Params r);
  Some (mkRecord (Seq r) (TS r) (to_valid (Actor r)) (to_valid (Session r)) (to_valid (SrcIP r))
          (to_valid (ClusterID r)) (to_valid (MachineID r)) (to_valid (Action r)) ps (to_valid (JobID r))
          (to_valid (Outcome r)) (to_valid (PrevHash r)) (to_valid (Hash r))).

(** A line of a file: a record, nothing, or something that does not decode. *)
Inductive line := LRec (r : Record_) | LBlank | LBad.

Definition encode_line (r : Record_) : line :=
  match reread r with Some r' => LRec r' | None => LBad end.

Definition set_prev (prev : string) (r : Record_) : Record_ :=
  mkRecord (Seq r) (TS r) (Actor r) (Session r) (SrcIP r) (ClusterID r) (MachineID r) (Action r) (Params r)
    (JobID r) (Outcome r) prev (Hash r).

(** The hash of the anchor is a constant of the code. *)
Definition genesisDomain : string := "holzkube/audit/genesis/v1".
Definition Genesis : string := "666cff38f20b5876c113a32abf0153c1d4b518c855df7ae2c0551ce9044745cf".

(** [hex.EncodeToString(sha256.Sum256(_))]: 64 hexadecimal digits. *)
Definition hex_char (c : ascii) : bool := is_digit c || byte_in 97 102 c.
Class Sha256 := {
  sha256_hex : string -> string;
  sha256_len : forall s, String.length (sha256_hex s) = 64;
  sha256_chars : forall s, str_all hex_char (sha256_hex s) = true
}.

Section Chain.
Context `{Sha256}.

Definition Record_ComputeHash (r : Record_) : string := sha256_hex (PrevHash r +:+ CanonicalJSON r).
Definition ComputeHash (prev : string) (r : Record_) : string := Record_ComputeHash (set_prev prev r).

(** The files of a verification: each has a name and what reading it gives,
    the records with the number of the line they are on, or an error. *)
Definition located := (Record_ * nat)%type.
Definition day_file := (string * result unit (list located))%type.

Inductive verdict_err := ErrCancelled | ErrRead (file : string).

Definition cancelCheckEvery : nat := 256.

(** [seeded] is [Some prev] once a record was accepted. *)
Definition check_record (seeded : option string) (r : Record_) : bool :=
  match seeded with
  | None => negb (bool_decide (Seq r = 1%Z) && negb (bool_decide (PrevHash r = Genesis)))
  | Some prev => bool_decide (PrevHash r = prev)
  end && bool_decide (ComputeHash (PrevHash r) r = Hash r).

(** How a walk over records went: to its end, to a break, or cancelled. *)
Inductive walk := WEnd (seeded : option string) (polls : nat) | WBreak (line : nat) | WCancelled.

(** [ctx.Err() != nil], polled for the n-th time. *)
Context (cancelled : nat -> bool).

Fixpoint verify_records (i : nat) (recs : list located) (seeded : option string) (polls : nat) : walk :=
  match recs with
  | [] => WEnd seeded polls
  | (r, at_) :: rest =>
      let check := bool_decide (i mod cancelCheckEvery = 0) in
      if check && cancelled polls then WCancelled
      else let polls := if check then S polls else polls in
           if check_record seeded r then verify_records (S i) rest (Some (Hash r)) polls
           else WBreak at_
  end.

Inductive verify_result := VOk | VBreak (file : string) (line : nat) | VErr (e : verdict_err).

Fixpoint verify_files (files : list day_file) (seeded : option string) (polls : nat) : verify_result :=
  match files with
  | [] => VOk
  | (p, read) :: rest =>
      if cancelled polls then VErr ErrCancelled
      else match read with
           | Err _ => VErr (ErrRead p)
           | Ok recs =>
               match verify_records 0 recs seeded (S polls) with
               | WCancelled => VErr ErrCancelled
               | WBreak l => VBreak p l
               | WEnd seeded polls => verify_files rest seeded polls
               end
           end
  end.

Definition VerifyContext (files : list day_file) : verify_result := verify_files files None 0.
End Chain.

(** [Verify]: with a context nobody cancels. *)
Definition Verify `{Sha256} (files : list day_file) : verify_result := VerifyContext (fun _ => false) files.

(* ------------------------------------------------------------------ *)
(** ** Equal values

    Two values are the same when they differ only in the order in which the
    entries of their maps are walked: the normal form sorts them. *)

Fixpoint norm (v : Value) : Value :=
  match v with
  | VObj m => VObj (sort_keys (map (on_value norm) m))
  | VArr l => VArr (map norm l)
  | _ => v
  end.

Definition same_value (v w : Value) : Prop := norm v = norm w.
#[global] Instance same_value_equiv : Equivalence same_value.
Proof. split; [done|by intros ???|intros ????; by etransitivity]. Qed.

Definition num_char (c : ascii) : bool :=
  is_digit c || Ascii.eqb c "-" || Ascii.eqb c "+" || Ascii.eqb c "." || Ascii.eqb c "e" || Ascii.eqb c "E".
Definition num_lit (s : string) : bool := str_all num_char s && negb (bool_decide (s = "")).

(** A value as a decoder leaves it: number literals, and text that is UTF-8. *)
Fixpoint wf (v : Value) : bool :=
  match v with
  | VNum lit => num_lit lit
  | VStr s => valid_utf8 s
  | VObj m => forallb (fun kv => valid_utf8 kv.1 && wf kv.2) m
  | VArr l => forallb wf l
  | VNull | VBool _ => true
  end.

(** Every map of a value has each key once, as a Go map has. *)
Fixpoint keys_once (v : Value) : bool :=
  match v with
  | VObj m => bool_decide (NoDup (map fst m)) && forallb (fun kv => keys_once kv.2) m
  | VArr l => forallb keys_once l
  | _ => true
  end.

#[global] Instance key_le_trans {A} : Transitive (@key_le A).
Proof. intros a b c. apply str_le_trans_inst. Qed.
#[global] Instance key_le_total {A} : Total (@key_le A).
Proof. intros a b. apply str_le_total_inst. Qed.

(** Sorting by keys does not look at the values. *)
Lemma list_merge_map {A B} (f : A -> B) l1 l2 :
  list_merge key_le (map (on_value f) l1) (map (on_value f) l2) = map (on_value f) (list_merge key_le l1 l2).
Proof.
  revert l2. induction l1 as [|x l1 IH1]; intros l2; [by destruct l2|].
  induction l2 as [|y l2 IH2]; [done|]. cbn. repeat case_decide; cbn; try done; f_equal.
  - apply (IH1 (y :: l2)).
  - apply IH2.
Qed.

Lemma sort_keys_map {A B} (f : A -> B) l : sort_keys (map (on_value f) l) = map (on_value f) (sort_keys l).
Proof.
  unfold sort_keys, merge_sort.
  assert (forall l st, merge_sort_aux key_le (map (option_map (map (on_value f))) st) (map (on_value f) l)
                       = map (on_value f) (merge_sort_aux key_le st l)) as H; [|by apply (H l [])].
  clear l. assert (forall st l, merge_list_to_stack key_le (map (option_map (map (on_value f))) st) (map (on_value f) l)
                       = map (option_map (map (on_value f))) (merge_list_to_stack key_le st l)) as Hs.
  { induction st as [|[l1|] st IH]; intros l; cbn; [done| |done]. f_equal.
    rewrite list_merge_map. apply IH. }
  assert (forall st, merge_stack key_le (map (option_map (map (on_value f))) st) = map (on_value f) (merge_stack key_le st)) as Hm.
  { induction st as [|[l1|] st IH]; cbn; [done| |done]. by rewrite IH, list_merge_map. }
  induction l as [|x l IH]; intros st; cbn; [apply Hm|].
  rewrite <- IH. f_equal. apply (Hs st [x]).
Qed.

(** The order of a map's entries does not matter when no key is twice. *)
Lemma sort_keys_perm {A} (l l' : list (string * A)) :
  NoDup l.*1 -> l ≡ₚ l' -> sort_keys l = sort_keys l'.
Proof.
  intros Hnd Hp. unfold sort_keys. apply (StronglySorted_unique_strong key_le).
  - intros [k v] [k' v'] H1 H2 H H'. pose proof (anti_symm str_le k k' H H') as ->.
    rewrite merge_sort_Permutation in H1, H2. rewrite <- Hp in H2.
    apply (elem_of_list_to_map_1 (M := gmap string)) in H1; [|done].
    apply (elem_of_list_to_map_1 (M := gmap string)) in H2; [|done]. congruence.
  - apply (StronglySorted_merge_sort key_le).
  - apply (StronglySorted_merge_sort key_le).
  - by rewrite !merge_sort_Permutation.
Qed.

Lemma sort_keys_idemp {A} (l : list (string * A)) : NoDup l.*1 -> sort_keys (sort_keys l) = sort_keys l.
Proof.
  intros H. apply sort_keys_perm; unfold sort_keys; [|apply merge_sort_Permutation].
  by rewrite merge_sort_Permutation.
Qed.

(** The order in which a map is walked does not show in the canonical form. *)
Lemma writeCanonical_norm v : keys_once v = true -> writeCanonical (norm v) = writeCanonical v.
Proof.
  induction v as [|b|l|s|m IH|l IH] using Value_ind'; try done; cbn [keys_once norm writeCanonical]; intros H; do 3 f_equal.
  - bools. destruct H as [Hnd H]. rewrite <- sort_keys_map, sort_keys_idemp.
    2:{ change (NoDup (map fst (map (on_value writeCanonical) (map (on_value norm) m)))). by rewrite !map_map. }
    do 2 f_equal. rewrite map_map. apply map_ext_in. intros [k w] Hin. unfold on_value. cbn. f_equal.
    rewrite forallb_forall in H. apply list_elem_of_In in Hin as Hin'. rewrite Forall_forall in IH.
    apply (IH (k, w)); [done|]. by apply (H (k, w)).
  - rewrite map_map. apply map_ext_in. intros w Hin. rewrite forallb_forall in H.
    rewrite Forall_forall in IH. apply IH; [by apply list_elem_of_In|by apply H].
Qed.

(* ------------------------------------------------------------------ *)
(** ** Reading a canonical form back

    A reader of the format, to show that nothing is lost in it: one step of a
    string, a string, a value. *)

Definition hex_value (c : ascii) : nat :=
  let n := nat_of_ascii c in if bool_decide (n < 58) then n - 48 else n - 87.

Definition unescape (c : ascii) (s : string) : option (string * string) :=
  if Ascii.eqb c backslash then
    match s with
    | String k t =>
        if Ascii.eqb k quote then Some (str1 quote, t)
        else if Ascii.eqb k backslash then Some (str1 backslash, t)
        else if Ascii.eqb k "n" then Some (str1 (chr 10), t)
        else if Ascii.eqb k "r" then Some (str1 (chr 13), t)
        else if Ascii.eqb k "t" then Some (str1 (chr 9), t)
        else if Ascii.eqb k "b" then Some (str1 (chr 8), t)
        else if Ascii.eqb k "f" then Some (str1 (chr 12), t)
        else match t with
             | String _ (String _ (String a (String b u))) => Some (str1 (chr (16 * hex_value a + hex_value b)), u)
             | _ => None
             end
    | EmptyString => None
    end
  else Some (next_rune c s).

Fixpoint parse_body (fuel : nat) (s : string) : option (string * string) :=
  match fuel, s with
  | S f, String c t =>
      if Ascii.eqb c quote then Some ("", t)
      else '(r, u) ← unescape c t; '(x, w) ← parse_body f u; Some (r +:+ x, w)
  | _, _ => None
  end.
Definition parse_string (s : string) : option (string * string) := parse_body (S (String.length s)) s.

Fixpoint take_num (s : string) : string * string :=
  match s with
  | String c t => if num_char c then let '(d, r) := take_num t in (String c d, r) else ("", s)
  | EmptyString => ("", "")
  end.

Fixpoint parse_value (fuel : nat) (s : string) : option (Value * string) :=
  match fuel, s with
  | S f, String c t =>
      if Ascii.eqb c quote then '(x, r) ← parse_string t; Some (VStr x, r)
      else if Ascii.eqb c "{" then
        match cut_prefix "}" t with
        | Some r => Some (VObj [], r)
        | None => '(m, r) ← parse_entries f t; Some (VObj m, r)
        end
      else if Ascii.eqb c "[" then
        match cut_prefix "]" t with
        | Some r => Some (VArr [], r)
        | None => '(l, r) ← parse_items f t; Some (VArr l, r)
        end
      else if Ascii.eqb c "n" then r ← cut_prefix "ull" t; Some (VNull, r)
      else if Ascii.eqb c "t" then r ← cut_prefix "rue" t; Some (VBool true, r)
      else if Ascii.eqb c "f" then r ← cut_prefix "alse" t; Some (VBool false, r)
      else let '(lit, r) := take_num s in Some (VNum lit, r)
  | _, _ => None
  end
with parse_entries (fuel : nat) (s : string) : option (list (string * Value) * string) :=
  match fuel with
  | S f =>
      r0 ← cut_prefix (str1 quote) s; '(k, r1) ← parse_string r0; r2 ← cut_prefix ":" r1;
      '(v, r3) ← parse_value f r2;
      match cut_prefix "," r3 with
      | Some r4 => '(m, r) ← parse_entries f r4; Some ((k, v) :: m, r)
      | None => r ← cut_prefix "}" r3; Some ([(k, v)], r)
      end
  | O => None
  end
with parse_items (fuel : nat) (s : string) : option (list Value * string) :=
  match fuel with
  | S f =>
      '(v, r3) ← parse_value f s;
      match cut_prefix "," r3 with
      | Some r4 => '(l, r) ← parse_items f r4; Some (v :: l, r)
      | None => r ← cut_prefix "]" r3; Some ([v], r)
      end
  | O => None
  end.

Lemma escape_ascii c t :
  bool_decide (nat_of_ascii c < 128) = true ->
  match escape (str1 c) +:+ t with
  | String d u => Ascii.eqb d quote = false /\ unescape d u = Some (str1 c, t)
  | EmptyString => False
  end.
Proof. intros H. destruct c as [[] [] [] [] [] [] [] []]; vm_compute in H; (discriminate H || (vm_compute; split; reflexivity)). Qed.

(** One rune, escaped, is read back, and it never looks like the end. *)
Lemma unescape_escape r t :
  is_rune r ->
  exists d u, escape r +:+ t = String d u /\ Ascii.eqb d quote = false /\ unescape d u = Some (r, t).
Proof.
  intros (a & s & -> & H). destruct (bool_decide (nat_of_ascii a < 128)) eqn:Ha.
  - assert (s = "") as ->.
    { specialize (H ""). unfold next_rune, str1 in H. rewrite Ha in H. congruence. }
    pose proof (escape_ascii a t Ha) as E. destruct (escape _ +:+ t) as [|d u] eqn:Ed; [done|].
    exists d, u. by destruct E.
  - assert (s <> "") as Hs.
    { intros ->. specialize (H (str1 (chr 0))). unfold next_rune in H. rewrite Ha in H.
      change ("" +:+ str1 (chr 0)) with (str1 (chr 0)) in H. cbv [str1] in H.
      destruct (two a (chr 0)) eqn:E2; [|done]. unfold two in E2. apply andb_true_iff in E2 as [_ E2]. done. }
    exists a, (s +:+ t). split.
    { unfold escape. destruct s as [|b s]; [done|]. done. }
    assert (Ascii.eqb a quote = false /\ Ascii.eqb a backslash = false) as [Hq Hb].
    { destruct a as [[] [] [] [] [] [] [] []]; vm_compute in Ha; (discriminate Ha || (split; reflexivity)). }
    split; [done|]. unfold unescape. rewrite Hb. by rewrite H.
Qed.

Lemma parse_body_ok rs f t :
  Forall is_rune rs -> length rs < f ->
  parse_body f (concat_str (map escape rs) +:+ String quote t) = Some (concat_str rs, t).
Proof.
  intros H. revert f. induction H as [|r rs Hr _ IH]; intros [|f] Hf; cbn in Hf; try lia.
  - cbn. done.
  - change (concat_str (map escape (r :: rs))) with (escape r +:+ concat_str (map escape rs)).
    rewrite <- (assoc_L String.append).
    destruct (unescape_escape r (concat_str (map escape rs) +:+ String quote t) Hr) as (d & u & -> & Hd & Hu).
    cbn [parse_body]. rewrite Hd, Hu. cbn. rewrite IH by lia. done.
Qed.

Lemma escape_length r : is_rune r -> 0 < String.length (escape r).
Proof.
  intros Hr. destruct (unescape_escape r "" Hr) as (d & u & E & _). rewrite (right_id_L "" String.append) in E.
  rewrite E. cbn. lia.
Qed.

Lemma concat_escape_length rs : Forall is_rune rs -> length rs ≤ String.length (concat_str (map escape rs)).
Proof.
  induction 1 as [|r rs Hr _ IH]; [done|].
  change (concat_str (map escape (r :: rs))) with (escape r +:+ concat_str (map escape rs)).
  rewrite str_length_app. pose proof (escape_length r Hr). cbn. lia.
Qed.

Lemma parse_string_ok s t :
  exists u, writeCanonicalString s +:+ t = String quote u /\ parse_string u = Some (to_valid s, t).
Proof.
  unfold writeCanonicalString. eexists. split; [rewrite str_app_cons; reflexivity|].
  rewrite <- (assoc_L String.append). change (str1 quote +:+ t) with (String quote t).
  unfold parse_string. rewrite parse_body_ok; [done|apply runes_are_runes|].
  rewrite str_length_app. cbn. pose proof (concat_escape_length (runes s) (runes_are_runes s)). lia.
Qed.

(** What follows a value does not go on with a number. *)
Definition stops (t : string) : bool :=
  match t with EmptyString => true | String c _ => negb (num_char c) end.

Lemma take_num_ok lit t : str_all num_char lit = true -> stops t = true -> take_num (lit +:+ t) = (lit, t).
Proof.
  intros H Ht. induction lit as [|c lit IH].
  - rewrite str_app_nil. destruct t as [|d t]; [done|]. cbn in *. apply negb_true_iff in Ht. by rewrite Ht.
  - cbn [str_all] in H. apply andb_true_iff in H as [Hc H]. rewrite str_app_cons. cbn [take_num].
    by rewrite Hc, IH.
Qed.

Lemma num_char_dispatch c :
  num_char c = true ->
  Ascii.eqb c quote = false /\ Ascii.eqb c "{" = false /\ Ascii.eqb c "[" = false /\ Ascii.eqb c "n" = false
  /\ Ascii.eqb c "t" = false /\ Ascii.eqb c "f" = false.
Proof.
  intros H. destruct c as [[] [] [] [] [] [] [] []]; vm_compute in H; (discriminate H || (repeat split; reflexivity)).
Qed.

(** How deep a reader goes into a value. *)
Fixpoint need (v : Value) : nat :=
  match v with
  | VObj m => S (length m + foldr Nat.max 0 (map (fun kv => need kv.2) m))
  | VArr l => S (length l + foldr Nat.max 0 (map need l))
  | _ => 1
  end.

Lemma foldr_max_le (l : list nat) n : n ∈ l -> n ≤ foldr Nat.max 0 l.
Proof. induction 1; cbn; lia. Qed.

Definition reads (n : nat) (v : Value) : Prop :=
  forall t f, stops t = true -> n < f -> parse_value f (writeCanonical v +:+ t) = Some (norm v, t).

Lemma parse_entries_ok n (m : list (string * Value)) t f :
  m <> [] -> Forall (fun kv => valid_utf8 kv.1 = true /\ reads n kv.2) m -> n + length m < f ->
  parse_entries f (join "," (map write_entry (map (on_value writeCanonical) m)) +:+ String "}" t)
  = Some (map (on_value norm) m, t).
Proof.
  intros Hne H. revert f. induction H as [|[k v] m [Hk Hv] Hm IH]; intros f Hf; [done|].
  destruct f as [|f]; [lia|]. cbn in Hk, Hv. unfold valid_utf8 in Hk. bools.
  assert (forall r, parse_entries (S f) (write_entry (k, writeCanonical v) +:+ r)
            = '(w, r3) ← parse_value f (writeCanonical v +:+ r);
              match cut_prefix "," r3 with
              | Some r4 => '(m', r') ← parse_entries f r4; Some ((k, w) :: m', r')
              | None => r' ← cut_prefix "}" r3; Some ([(k, w)], r')
              end) as Hstep.
  { intros r. unfold write_entry. cbn [fst snd]. rewrite <- !(assoc_L String.append).
    destruct (parse_string_ok k (":" +:+ writeCanonical v +:+ r)) as (u & -> & Hu).
    cbn [parse_entries]. change (String quote u) with (str1 quote +:+ u). rewrite cut_prefix_app. cbn [mbind option_bind].
    rewrite Hu, Hk. cbn [mbind option_bind]. rewrite cut_prefix_app. done. }
  destruct m as [|[k' v'] m].
  - cbn [map join on_value fst snd]. rewrite Hstep, Hv; [|done|cbn in Hf; lia]. done.
  - change (join "," (map write_entry (map (on_value writeCanonical) ((k, v) :: (k', v') :: m))))
      with (write_entry (k, writeCanonical v)
              +:+ ("," +:+ join "," (map write_entry (map (on_value writeCanonical) ((k', v') :: m))))).
    rewrite <- !(assoc_L String.append), Hstep, Hv; [|done|cbn in Hf; lia].
    cbn [mbind option_bind]. rewrite cut_prefix_app, IH; [done|done|cbn in *; lia].
Qed.

Lemma parse_items_ok n (l : list Value) t f :
  l <> [] -> Forall (reads n) l -> n + length l < f ->
  parse_items f (join "," (map writeCanonical l) +:+ String "]" t) = Some (map norm l, t).
Proof.
  intros Hne H. revert f. induction H as [|v l Hv Hl IH]; intros f Hf; [done|].
  destruct f as [|f]; [lia|]. destruct l as [|v' l].
  - cbn [map join parse_items]. rewrite Hv; [|done|cbn in Hf; lia]. done.
  - change (join "," (map writeCanonical (v :: v' :: l)))
      with (writeCanonical v +:+ ("," +:+ join "," (map writeCanonical (v' :: l)))).
    rewrite <- !(assoc_L String.append). cbn [parse_items]. rewrite Hv; [|done|cbn in Hf; lia].
    cbn [mbind option_bind]. rewrite cut_prefix_app, IH; [done|done|cbn in *; lia].
Qed.

(** No canonical text is empty or begins like the end of a container. *)
Lemma write_entry_head kv r : exists u, write_entry kv +:+ r = String quote u.
Proof. unfold write_entry, writeCanonicalString. eexists. rewrite !str_app_cons. reflexivity. Qed.

Lemma wc_head v r : wf v = true -> exists c u, writeCanonical v +:+ r = String c u /\ Ascii.eqb c "]" = false.
Proof.
  destruct v as [|[]|lit|s|m|l]; cbn [writeCanonical wf]; intros H; try (eexists _, _; split; [reflexivity|done]).
  unfold num_lit in H. destruct lit as [|c lit]; [done|]. eexists _, _. split; [reflexivity|].
  cbn [str_all] in H. bools. destruct H as [[H _] _]. destruct (Ascii.eqb_spec c "]") as [-> |]; [done|done].
Qed.

Lemma reads_obj n (m : list (string * Value)) :
  Forall (fun kv => valid_utf8 kv.1 = true /\ reads n kv.2) m -> reads (S (length m + n)) (VObj m).
Proof.
  intros H t f Ht Hf. destruct f as [|f]; [lia|]. cbn [writeCanonical norm].
  rewrite sort_keys_map, (sort_keys_map norm). rewrite <- !(assoc_L String.append).
  change ("{" +:+ ?x) with (String "{" x). change ("}" +:+ t) with (String "}" t).
  assert (Forall (fun kv => valid_utf8 kv.1 = true /\ reads n kv.2) (sort_keys m)) as Hall.
  { unfold sort_keys. by rewrite merge_sort_Permutation. }
  pose proof (Permutation_length (merge_sort_Permutation key_le m)) as Hlen. fold (sort_keys m) in Hlen.
  cbn [parse_value]. destruct (sort_keys m) as [|kv m'] eqn:Em; [done|].
  pose proof (parse_entries_ok n (kv :: m') t f) as Hpe.
  assert (exists u, join "," (map write_entry (map (on_value writeCanonical) (kv :: m'))) +:+ String "}" t
                    = String quote u) as [u Hu].
  { destruct m' as [|kv' m']; cbn [map join]; [|rewrite <- (assoc_L String.append)]; apply write_entry_head. }
  rewrite Hu in Hpe |- *. cbn [cut_prefix]. change (Ascii.eqb "{" quote) with false.
  change (Ascii.eqb "{" "{") with true. change (Ascii.eqb "}" quote) with false. cbn iota.
  rewrite Hpe; [done|done|done|lia].
Qed.

Lemma reads_arr n (l : list Value) :
  Forall (reads n) l -> forallb wf l = true -> reads (S (length l + n)) (VArr l).
Proof.
  intros H Hwf t f Ht Hf. destruct f as [|f]; [lia|]. cbn [writeCanonical norm]. rewrite <- !(assoc_L String.append).
  destruct l as [|v l]; [done|]. change ("]" +:+ t) with (String "]" t).
  pose proof (parse_items_ok n (v :: l) t f) as Hpe.
  assert (exists c u, join "," (map writeCanonical (v :: l)) +:+ String "]" t = String c u /\ Ascii.eqb c "]" = false)
    as (c & u & Hu & Hc).
  { cbn [forallb] in Hwf. apply andb_true_iff in Hwf as [Hv _]. destruct l as [|v' l]; cbn [map join]; [|rewrite <- (assoc_L String.append)]; by apply wc_head. }
  rewrite Hu in Hpe |- *. change ("[" +:+ String c u) with (String "[" (String c u)). cbn [parse_value cut_prefix].
  change (Ascii.eqb "[" quote) with false. change (Ascii.eqb "[" "{") with false. change (Ascii.eqb "[" "[") with true.
  cbn iota. rewrite Ascii.eqb_sym in Hc. rewrite Hc. rewrite Hpe; [done|done|done|cbn in *; lia].
Qed.

Lemma reads_le n n' v : n ≤ n' -> reads n v -> reads n' v.
Proof. intros Hn H t f Ht Hf. apply H; [done|lia]. Qed.

(** What the canonical form wrote, the reader gives back. *)
Lemma wf_reads v : wf v = true -> reads (need v) v.
Proof.
  induction v as [|b|lit|s|m IH|l IH] using Value_ind'; intros Hwf; cbn [need].
  - intros t [|f] Ht Hf; [lia|done].
  - intros t [|f] Ht Hf; [lia|by destruct b].
  - intros t [|f] Ht Hf; [lia|]. cbn [writeCanonical norm wf] in *. unfold num_lit in Hwf. bools.
    destruct Hwf as [Hl Hne]. pose proof (take_num_ok lit t Hl Ht) as Hnum.
    destruct lit as [|c lit]; [done|]. cbn [str_all] in Hl. bools. destruct Hl as [Hc _].
    rewrite str_app_cons in *. cbn [parse_value].
    destruct (num_char_dispatch c Hc) as (-> & -> & -> & -> & -> & ->). by rewrite Hnum.
  - intros t [|f] Ht Hf; [lia|]. cbn [writeCanonical norm wf] in *. unfold valid_utf8 in Hwf. bools.
    destruct (parse_string_ok s t) as (u & -> & Hu). cbn [parse_value].
    by rewrite Ascii.eqb_refl, Hu, Hwf.
  - apply reads_obj. cbn [wf] in Hwf. rewrite forallb_forall in Hwf. rewrite Forall_forall in IH |- *.
    intros kv Hin. specialize (Hwf kv (proj1 (list_elem_of_In _ _) Hin)). bools. destruct Hwf as [Hk Hv].
    split; [done|]. eapply reads_le; [|by apply IH].
    apply foldr_max_le, list_elem_of_In, (in_map (fun kv => need kv.2)). by apply list_elem_of_In.
  - cbn [wf] in Hwf. apply reads_arr; [|done]. rewrite forallb_forall in Hwf. rewrite Forall_forall in IH |- *.
    intros v Hin. eapply reads_le; [|by apply IH, Hwf, list_elem_of_In].
    apply foldr_max_le, list_elem_of_In, in_map. by apply list_elem_of_In.
Qed.

(** Two values with the same canonical text are the same. *)
Lemma writeCanonical_inj v w :
  wf v = true -> wf w = true -> writeCanonical v = writeCanonical w -> same_value v w.
Proof.
  intros Hv Hw E. pose proof (wf_reads v Hv "" (S (need v + need w)) eq_refl) as Rv.
  pose proof (wf_reads w Hw "" (S (need v + need w)) eq_refl) as Rw.
  rewrite E in Rv. rewrite Rw in Rv by lia. specialize (Rv ltac:(lia)). unfold same_value. congruence.
Qed.

#[global] Instance Value_eq_dec : EqDecision Value.
Proof.
  refine (fix go (v w : Value) {struct v} : Decision (v = w) :=
    match v, w with
    | VNull, VNull => left eq_refl
    | VBool a, VBool b => cast_if (decide (a = b))
    | VNum a, VNum b => cast_if (decide (a = b))
    | VStr a, VStr b => cast_if (decide (a = b))
    | VObj a, VObj b => cast_if (@list_eq_dec _ (fun x y => @prod_eq_dec _ _ _ go x y) a b)
    | VArr a, VArr b => cast_if (@list_eq_dec _ go a b)
    | _, _ => right _
    end); clear go; abstract congruence.
Defined.

(* ------------------------------------------------------------------ *)
(** ** Lemmas on records *)

Lemma ascii_valid (s : string) : str_all (fun c => bool_decide (nat_of_ascii c < 128)) s = true -> to_valid s = s.
Proof.
  unfold to_valid. induction s as [|c s IH]; [done|]. cbn [str_all]. rewrite andb_true_iff. intros [Hc Hs].
  rewrite (runes_cons c s (str1 c) s) by (unfold next_rune; by rewrite Hc).
  change (concat_str (str1 c :: runes s)) with (str1 c +:+ concat_str (runes s)). by rewrite IH.
Qed.

Lemma hex_valid (s : string) : str_all hex_char s = true -> to_valid s = s.
Proof.
  intros H. apply ascii_valid. eapply str_all_impl; [|exact H]. intros c. unfold hex_char, is_digit, byte_in.
  bools. lia.
Qed.

Lemma normalize_wf v : wf v = true -> normalizeValue v = v.
Proof.
  induction v as [|b|l|s|m IH|l IH] using Value_ind'; cbn [wf normalizeValue]; intros H; try done.
  - unfold valid_utf8 in H. bools. by rewrite H.
  - f_equal. rewrite <- (map_id m) at 2. apply map_ext_in. intros [k v] Hin.
    rewrite forallb_forall in H. specialize (H _ Hin). cbn [fst snd] in *. unfold valid_utf8 in H.
    apply andb_true_iff in H as [Hk H]. apply bool_decide_eq_true in Hk. unfold id. rewrite Hk. f_equal.
    rewrite Forall_forall in IH. apply (IH (k, v)); [by apply list_elem_of_In|done].
  - f_equal. rewrite <- (map_id l) at 2. apply map_ext_in. intros v Hin.
    rewrite forallb_forall in H. rewrite Forall_forall in IH. apply IH; [by apply list_elem_of_In|by apply H].
Qed.

(** The sorted fields: the canonical form lists them in this order. *)
Lemma fields_sorted {A} (seq ts actor session src cid mid action params job outcome prev : A) :
  sort_keys [("seq", seq); ("ts", ts); ("actor", actor); ("session", session); ("src_ip", src); ("cluster_id", cid);
     ("machine_id", mid); ("action", action); ("params", params); ("job_id", job); ("outcome", outcome);
     ("prev_hash", prev)]
  = [("action", action); ("actor", actor); ("cluster_id", cid); ("job_id", job); ("machine_id", mid);
     ("outcome", outcome); ("params", params); ("prev_hash", prev); ("seq", seq); ("session", session);
     ("src_ip", src); ("ts", ts)].
Proof. vm_compute. reflexivity. Qed.

(** A record as it comes out of a file: text that is UTF-8, numbers as a
    decoder leaves them, a time with a four-digit year. *)
Definition decoded (r : Record_) : Prop :=
  (0 <= Seq r)%Z /\ in_years (TS r) /\ wf (VObj (Params r)) = true
  /\ Forall (fun s => to_valid s = s)
       [Actor r; Session r; SrcIP r; ClusterID r; MachineID r; Action r; JobID r; Outcome r; PrevHash r].

(** Two records that say the same: all fields but the hash, the parameters up
    to the order of their maps. *)
Definition same_record (r r' : Record_) : Prop :=
  Seq r = Seq r' /\ TS r = TS r' /\ Actor r = Actor r' /\ Session r = Session r' /\ SrcIP r = SrcIP r'
  /\ ClusterID r = ClusterID r' /\ MachineID r = MachineID r' /\ Action r = Action r'
  /\ same_value (VObj (Params r)) (VObj (Params r')) /\ JobID r = JobID r' /\ Outcome r = Outcome r'
  /\ PrevHash r = PrevHash r'.

Lemma itoa_num z : (0 <= z)%Z -> num_lit (itoa z) = true.
Proof.
  intros H. unfold num_lit. apply andb_true_iff. split.
  - eapply str_all_impl; [|by apply itoa_digits]. intros c Hc. unfold num_char. by rewrite Hc.
  - apply negb_true_iff, bool_decide_eq_false. by apply itoa_nonempty.
Qed.

Lemma itoa_inj a b : (0 <= a)%Z -> (0 <= b)%Z -> itoa a = itoa b -> a = b.
Proof.
  intros Ha Hb E. pose proof (itoa_digits_acc a Ha) as Da. rewrite E, itoa_digits_acc in Da by done. congruence.
Qed.

Lemma str_all_lit (P : ascii -> bool) s : (forall c, P c = true -> nat_of_ascii c < 128) -> str_all P s = true -> to_valid s = s.
Proof.
  intros HP H. apply ascii_valid. eapply str_all_impl; [|exact H]. intros c Hc. apply bool_decide_eq_true. by apply HP.
Qed.

Definition ascii_text (c : ascii) : bool := bool_decide (nat_of_ascii c < 128).

Lemma pad_ascii w z : str_all ascii_text (pad w z) = true.
Proof.
  revert z. induction w as [|w IH]; intros z; [done|]. rewrite pad_S, str_all_app, IH. cbn. rewrite andb_true_r.
  unfold ascii_text, chr. apply bool_decide_eq_true. pose proof (Z.mod_pos_bound z 10). rewrite nat_ascii_embedding; lia.
Qed.

Lemma trim_zeros_ascii s : str_all ascii_text s = true -> str_all ascii_text (trim_zeros s) = true.
Proof.
  induction s as [|c s IH]; [done|]. cbn [str_all trim_zeros]. rewrite andb_true_iff. intros [Hc Hs].
  destruct (Ascii.eqb c "0" && _); [done|]. cbn. by rewrite Hc, IH.
Qed.

Lemma rfc3339_valid t : to_valid (format_rfc3339 t) = format_rfc3339 t.
Proof.
  apply ascii_valid. change (str_all ascii_text (format_rfc3339 t) = true).
  unfold format_rfc3339, format_day, clock_text, date_text. destruct (civil _) as [[y m] d].
  rewrite !str_all_app, !pad_ascii. cbn [str_all andb].
  destruct (bool_decide (trim_zeros _ = "")); [done|]. rewrite !str_all_app, trim_zeros_ascii by apply pad_ascii. done.
Qed.

Lemma canonicalFields_wf r : decoded r -> wf (VObj (canonicalFields r)) = true.
Proof.
  intros (Hseq & Hts & Hp & Hs). unfold canonicalFields. rewrite (normalize_wf _ Hp).
  repeat (apply Forall_cons in Hs as [? Hs]). cbn [wf forallb fst snd] in *. unfold valid_utf8 in *.
  rewrite itoa_num by done. rewrite rfc3339_valid, Hp.
  repeat match goal with H : to_valid ?s = ?s |- _ => rewrite H; clear H end.
  rewrite !bool_decide_eq_true_2 by done. done.
Qed.

Lemma fields_inj {A} (a b c d e f g h i j k l a' b' c' d' e' f' g' h' i' j' k' l' : A) :
  [("action", a); ("actor", b); ("cluster_id", c); ("job_id", d); ("machine_id", e); ("outcome", f); ("params", g);
   ("prev_hash", h); ("seq", i); ("session", j); ("src_ip", k); ("ts", l)]
  = [("action", a'); ("actor", b'); ("cluster_id", c'); ("job_id", d'); ("machine_id", e'); ("outcome", f');
     ("params", g'); ("prev_hash", h'); ("seq", i'); ("session", j'); ("src_ip", k'); ("ts", l')] ->
  (a = a' /\ b = b' /\ c = c' /\ d = d' /\ e = e' /\ f = f') /\ g = g' /\ h = h' /\ i = i' /\ j = j' /\ k = k' /\ l = l'.
Proof. intros [=]. done. Qed.

Lemma norm_str_inj s s' : norm (VStr s) = norm (VStr s') -> s = s'.
Proof. by intros [=]. Qed.
Lemma norm_num_inj s s' : norm (VNum s) = norm (VNum s') -> s = s'.
Proof. by intros [=]. Qed.
Lemma norm_obj_inj m m' : norm (VObj m) = norm (VObj m') -> sort_keys (map (on_value norm) m) = sort_keys (map (on_value norm) m').
Proof. by intros [=]. Qed.

(** The canonical form of a record names every field. *)
Lemma CanonicalJSON_inj r r' :
  decoded r -> decoded r' -> CanonicalJSON r = CanonicalJSON r' -> same_record r r'.
Proof.
  intros H H' E. apply writeCanonical_inj in E; [|by apply canonicalFields_wf..].
  destruct H as (Hseq & Hts & Hp & _), H' as (Hseq' & Hts' & Hp' & _).
  unfold same_value, canonicalFields in E. rewrite (normalize_wf _ Hp), (normalize_wf _ Hp') in E.
  apply norm_obj_inj in E. rewrite !sort_keys_map, !fields_sorted in E. unfold on_value in E. cbn [map fst snd] in E.
  apply fields_inj in E as ((?%norm_str_inj & ?%norm_str_inj & ?%norm_str_inj & ?%norm_str_inj & ?%norm_str_inj
    & ?%norm_str_inj) & Eparams & ?%norm_str_inj & Eseq%norm_num_inj & ?%norm_str_inj & ?%norm_str_inj & Ets%norm_str_inj).
  apply itoa_inj in Eseq; [|done..]. apply format_rfc3339_inj in Ets; [|done..].
  unfold same_record, same_value. by rewrite Eparams.
Qed.

(* ------------------------------------------------------------------ *)
(** ** Written and read back *)

(** Parameters whose numbers a decoder does not rewrite. *)
Fixpoint stable (v : Value) : bool :=
  match v with
  | VNum lit => bool_decide (renumber lit = Some lit)
  | VObj m => forallb (fun kv => stable kv.2) m
  | VArr l => forallb stable l
  | _ => true
  end.

Lemma mapM_Some_map {A B} (f : A -> option B) (g : A -> B) l :
  (forall x, x ∈ l -> f x = Some (g x)) -> mapM f l = Some (map g l).
Proof.
  induction l as [|x l IH]; intros H; [done|]. cbn. rewrite (H x) by left. cbn.
  rewrite IH; [done|]. intros y Hy. apply H. by right.
Qed.

Lemma decode_stable v : stable v = true -> decode_value v = Some (normalizeValue v).
Proof.
  induction v as [|b|l|s|m IH|l IH] using Value_ind'; cbn [stable normalizeValue decode_value]; intros H; try done.
  - bools. by rewrite H.
  - rewrite (mapM_Some_map _ (fun kv => (to_valid kv.1, normalizeValue kv.2))); [done|].
    rewrite Forall_forall in IH. rewrite forallb_forall in H. intros kv Hin.
    rewrite IH; [done|done|]. by apply H, list_elem_of_In.
  - rewrite (mapM_Some_map _ normalizeValue); [done|].
    rewrite Forall_forall in IH. rewrite forallb_forall in H. intros v Hin. apply IH; [done|]. by apply H, list_elem_of_In.
Qed.

Lemma normalize_idemp v : normalizeValue (normalizeValue v) = normalizeValue v.
Proof.
  induction v as [|b|l|s|m IH|l IH] using Value_ind'; cbn [normalizeValue]; try done.
  - by rewrite to_valid_idemp.
  - f_equal. rewrite map_map. apply map_ext_in. intros [k v] Hin. cbn [fst snd]. rewrite to_valid_idemp. f_equal.
    rewrite Forall_forall in IH. apply (IH (k, v)). by apply list_elem_of_In.
  - f_equal. rewrite map_map. apply map_ext_in. intros v Hin. rewrite Forall_forall in IH. apply IH. by apply list_elem_of_In.
Qed.

Lemma write_valid s : writeCanonicalString (to_valid s) = writeCanonicalString s.
Proof. unfold writeCanonicalString. by rewrite runes_to_valid. Qed.

(** The record on disk, made of a record in memory. *)
Definition cleaned (r : Record_) : Record_ :=
  mkRecord (Seq r) (TS r) (to_valid (Actor r)) (to_valid (Session r)) (to_valid (SrcIP r))
    (to_valid (ClusterID r)) (to_valid (MachineID r)) (to_valid (Action r))
    (map (fun kv => (to_valid kv.1, normalizeValue kv.2)) (Params r)) (to_valid (JobID r))
    (to_valid (Outcome r)) (to_valid (PrevHash r)) (to_valid (Hash r)).

Lemma reread_stable r : stable (VObj (Params r)) = true -> reread r = Some (cleaned r).
Proof.
  intros H. apply decode_stable in H. unfold reread.
  assert (mapM decode_entry (Params r) = Some (map (fun kv => (to_valid kv.1, normalizeValue kv.2)) (Params r))) as ->; [|done].
  cbn [decode_value normalizeValue] in H. unfold decode_entry. destruct (mapM _ _); [|done]. by injection H as ->.
Qed.

Lemma sorted_fields_text (vs : list (string * Value)) (ws : list (string * Value)) :
  map fst vs = map fst ws -> map (fun kv => writeCanonical kv.2) vs = map (fun kv => writeCanonical kv.2) ws ->
  writeCanonical (VObj vs) = writeCanonical (VObj ws).
Proof.
  intros H1 H2. cbn [writeCanonical].
  assert (map (on_value writeCanonical) vs = map (on_value writeCanonical) ws) as ->; [|done].
  revert ws H1 H2. induction vs as [|[k v] vs IH]; intros [|[k' w] ws]; try done. cbn.
  intros [= -> H1] [= E H2]. unfold on_value at 1 3. cbn [fst snd]. by rewrite E, (IH ws).
Qed.

(** Writing and reading a record does not change what is hashed. *)
Lemma CanonicalJSON_cleaned r : CanonicalJSON (cleaned r) = CanonicalJSON r.
Proof.
  unfold CanonicalJSON. apply sorted_fields_text; [done|]. unfold canonicalFields.
  cbn [map fst snd Seq TS Actor Session SrcIP ClusterID MachineID Action Params JobID Outcome PrevHash cleaned].
  change (VObj (map _ (Params r))) with (normalizeValue (VObj (Params r))). rewrite normalize_idemp.
  cbn [writeCanonical]. by rewrite !write_valid.
Qed.

(* ------------------------------------------------------------------ *)
(** ** What a verification finds *)

Section Facts.
Context `{Sha256}.

(** A chain nobody touched: the anchor where the archive begins, each record
    linked to the one before it, each hash the hash of its record. *)
Definition intact (recs : list Record_) : Prop :=
  (forall r, head recs = Some r -> Seq r = 1%Z -> PrevHash r = Genesis)
  /\ (forall i r r', recs !! i = Some r -> recs !! S i = Some r' -> PrevHash r' = Hash r)
  /\ (forall r, r ∈ recs -> Hash r = ComputeHash (PrevHash r) r).

Definition seed (recs : list Record_) : option string := Hash <$> last recs.

Lemma check_seeded prev r :
  check_record (Some prev) r = true <-> PrevHash r = prev /\ Hash r = ComputeHash (PrevHash r) r.
Proof. unfold check_record. bools. intuition congruence. Qed.

Lemma check_unseeded r :
  check_record None r = true <-> (Seq r = 1%Z -> PrevHash r = Genesis) /\ Hash r = ComputeHash (PrevHash r) r.
Proof. unfold check_record. bools. destruct (decide (PrevHash r = Genesis)); intuition congruence. Qed.

Lemma intact_nil : intact [].
Proof. split; [done|]. split; [done|]. intros r Hr. inversion Hr. Qed.

Lemma intact_snoc l r : intact (l ++ [r]) <-> intact l /\ check_record (seed l) r = true.
Proof.
  unfold seed. destruct l as [|x l'] using rev_ind.
  { cbn [app last fmap option_fmap option_map]. rewrite check_unseeded. split.
    - intros (H1 & _ & H3). split; [apply intact_nil|]. split; [by apply (H1 r)|apply H3; by left].
    - intros (_ & H1 & H3). split; [by intros ? [= <-]|]. split; [by intros [|i] ??|].
      intros ? ->%list_elem_of_singleton. done. }
  rewrite last_snoc. cbn [fmap option_fmap option_map]. rewrite check_seeded. split.
  - intros (H1 & H2 & H3). split.
    + split; [|split].
      * intros y Hy. apply H1. by destruct l'.
      * intros i a b Ha Hb. apply (H2 i); by apply lookup_app_l_Some.
      * intros y Hy. apply H3, elem_of_app. by left.
    + split; [|apply H3, elem_of_app; right; by left].
      apply (H2 (length l')); [rewrite <- (assoc_L (++)); apply list_lookup_middle; done|].
      by apply list_lookup_middle; rewrite length_app; cbn; lia.
  - intros ((H1 & H2 & H3) & Hp & Hh). split; [|split].
    + intros y Hy. apply H1. by destruct l'.
    + intros i a b Ha Hb. apply lookup_app_Some in Hb as [Hb|[Hl Hb]].
      { apply (H2 i); [|done]. apply lookup_app_Some in Ha as [Ha|[Hl _]]; [done|].
        apply lookup_lt_Some in Hb. lia. }
      rewrite length_app in Hl, Hb. cbn in Hl, Hb.
      destruct (S i - (length l' + 1)) as [|n] eqn:En; [|done]. cbn in Hb. injection Hb as <-.
      assert (i = length l') as -> by lia. rewrite <- (assoc_L (++)) in Ha. cbn [app] in Ha.
      rewrite list_lookup_middle in Ha by done. by injection Ha as <-.
    + intros y [Hy| ->%list_elem_of_singleton]%elem_of_app; [by apply H3|done].
Qed.

Lemma verify_records_spec recs : forall i pre polls,
  match verify_records (fun _ => false) i recs (seed pre) polls with
  | WEnd s _ => s = seed (pre ++ recs.*1) /\ (intact pre -> intact (pre ++ recs.*1))
  | WBreak n => exists a r b, recs = a ++ (r, n) :: b /\ (intact pre -> intact (pre ++ a.*1))
                              /\ ~ intact ((pre ++ a.*1) ++ [r])
  | WCancelled => False
  end.
Proof.
  induction recs as [|[r n] recs IH]; intros i pre polls; cbn [verify_records].
  { cbn. by rewrite (right_id_L [] (++)). }
  rewrite andb_false_r. destruct (check_record (seed pre) r) eqn:Hc.
  - assert (Some (Hash r) = seed (pre ++ [r])) as -> by (unfold seed; by rewrite last_snoc).
    specialize (IH (S i) (pre ++ [r]) (if bool_decide (i mod cancelCheckEvery = 0) then S polls else polls)).
    assert (intact pre -> intact (pre ++ [r])) as Hstep by (intros; by apply intact_snoc).
    destruct (verify_records _ _ _ _ _) as [s p|m|]; [| |done].
    + rewrite <- (assoc_L (++)) in IH. cbn in *. destruct IH as [-> IH]. split; [done|]. intros Hp. by apply IH, Hstep.
    + destruct IH as (a & x & b & -> & Hi & Hn). exists ((r, n) :: a), x, b.
      assert ((pre ++ [r]) ++ a.*1 = pre ++ (r :: a.*1)) as E by by rewrite <- (assoc_L (++)).
      rewrite E in Hi, Hn. split; [done|].
      split; [intros Hp; by apply Hi, Hstep|done].
  - exists [], r, recs. cbn. rewrite (right_id_L [] (++)). split; [done|]. split; [done|].
    rewrite intact_snoc, Hc. by intros [_ ?].
Qed.

(** The records of files that were all read. *)
Definition reads_as (files : list day_file) (recs : list (list located)) : Prop :=
  Forall2 (fun f l => f.2 = Ok l) files recs.

Definition verify_meaning (pre : list Record_) (files : list day_file) (v : verify_result) : Prop :=
  match v with
  | VOk => exists ls, reads_as files ls /\ intact (pre ++ (concat ls).*1)
  | VBreak p n =>
      exists before ls a r b after,
        files = before ++ (p, Ok (a ++ (r, n) :: b)) :: after /\ reads_as before ls
        /\ intact (pre ++ (concat ls ++ a).*1) /\ ~ intact ((pre ++ (concat ls ++ a).*1) ++ [r])
  | VErr (ErrRead p) =>
      exists before ls e after,
        files = before ++ (p, Err e) :: after /\ reads_as before ls /\ intact (pre ++ (concat ls).*1)
  | VErr ErrCancelled => False
  end.

Lemma verify_files_spec files : forall pre polls,
  intact pre -> verify_meaning pre files (verify_files (fun _ => false) files (seed pre) polls).
Proof.
  induction files as [|[p read] files IH]; intros pre polls Hpre; cbn [verify_files].
  { exists []. split; [constructor|]. cbn. by rewrite (right_id_L [] (++)). }
  destruct read as [recs|e].
  2:{ exists [], [], e, files. split; [done|]. split; [constructor|]. cbn. by rewrite (right_id_L [] (++)). }
  pose proof (verify_records_spec recs 0 pre (S polls)) as Hw.
  destruct (verify_records _ _ _ _ _) as [s q|n|]; [| |done].
  - destruct Hw as [-> Hw]. specialize (IH (pre ++ recs.*1) q (Hw Hpre)).
    destruct (verify_files _ _ _ _) as [|p' n|[|p']]; cbn in *; [| |done|].
    + destruct IH as (ls & Hr & Hi). exists (recs :: ls). split; [by constructor|].
      cbn. rewrite fmap_app. by rewrite <- (assoc_L (++)) in Hi.
    + destruct IH as (before & ls & a & r & b & after & -> & Hr & Hi & Hn).
      exists ((p, Ok recs) :: before), (recs :: ls), a, r, b, after. split; [done|]. split; [by constructor|].
      assert ((pre ++ recs.*1) ++ (concat ls ++ a).*1 = pre ++ (concat (recs :: ls) ++ a).*1) as E.
      { cbn. by rewrite !fmap_app, !(assoc_L (++)). }
      by rewrite E in Hi, Hn.
    + destruct IH as (before & ls & e & after & -> & Hr & Hi).
      exists ((p, Ok recs) :: before), (recs :: ls), e, after. split; [done|]. split; [by constructor|].
      cbn. rewrite fmap_app. by rewrite <- (assoc_L (++)) in Hi.
  - destruct Hw as (a & r & b & -> & Hi & Hn). exists [], [], a, r, b, files. cbn.
    split; [done|]. split; [constructor|]. auto.
Qed.
End Facts.

(* ------------------------------------------------------------------ *)
(** ** What the last hash seals *)

Section Seal.
Context `{Sha256}.

(** The texts whose digests an archive consists of: one for every record, and the one
    of the anchor. *)
Definition sealed_text (r : Record_) : string := PrevHash r +:+ CanonicalJSON r.
Definition sealed_texts (recs : list Record_) : list string := genesisDomain :: map sealed_text recs.

(** A text of one archive and a different one of the other have the same digest. *)
Definition collision_between (recs recs' : list Record_) : Prop :=
  exists x y, x ∈ sealed_texts recs /\ y ∈ sealed_texts recs' /\ x <> y /\ sha256_hex x = sha256_hex y.

Lemma sealed_texts_in r recs : r ∈ recs -> sealed_text r ∈ sealed_texts recs.
Proof. intros Hr. apply list_elem_of_further, list_elem_of_fmap. by exists r. Qed.
Lemma collision_larger l l' k k' : collision_between l l' -> collision_between (l ++ k) (l' ++ k').
Proof.
  intros (x & y & Hx & Hy & Hc). exists x, y. unfold sealed_texts in *. rewrite !map_app. set_solver.
Qed.

Lemma set_prev_same r : set_prev (PrevHash r) r = r.
Proof. by destruct r. Qed.

Lemma ComputeHash_own r : ComputeHash (PrevHash r) r = sha256_hex (PrevHash r +:+ CanonicalJSON r).
Proof. unfold ComputeHash. by rewrite set_prev_same. Qed.

(** Two records with the same hash, linked to hashes of the right shape. *)
Lemma same_hash_same_record r r' :
  decoded r -> decoded r' ->
  String.length (PrevHash r) = 64 -> String.length (PrevHash r') = 64 ->
  ComputeHash (PrevHash r) r = ComputeHash (PrevHash r') r' ->
  same_record r r' \/ sealed_text r <> sealed_text r' /\ sha256_hex (sealed_text r) = sha256_hex (sealed_text r').
Proof.
  intros D D' L L'. rewrite !ComputeHash_own. intros E.
  destruct (decide (PrevHash r +:+ CanonicalJSON r = PrevHash r' +:+ CanonicalJSON r')) as [Eq|Ne].
  - left. apply CanonicalJSON_inj; [done..|]. by apply str_app_inj in Eq as [_ ->]; [|congruence].
  - by right.
Qed.

(** In an untouched chain a record after the first never carries the anchor. *)
Lemma anchor_only_first l r r' :
  sha256_hex genesisDomain = Genesis ->
  intact ((l ++ [r]) ++ [r']) -> PrevHash r' = Genesis -> String.length (PrevHash r) = 64 ->
  sealed_text r <> genesisDomain /\ sha256_hex (sealed_text r) = sha256_hex genesisDomain.
Proof.
  intros Hg [Hi Hc]%intact_snoc Hp Hl. unfold seed in Hc. rewrite last_snoc in Hc.
  apply check_seeded in Hc as [Hc _]. apply intact_snoc in Hi as [_ Hr].
  assert (Hash r = ComputeHash (PrevHash r) r) as Hh.
  { destruct (seed l); [by apply check_seeded in Hr as [_ ?]|by apply check_unseeded in Hr as [_ ?]]. }
  split.
  - unfold sealed_text. intros E. apply (f_equal String.length) in E. rewrite str_length_app, Hl in E. cbn in E. lia.
  - unfold sealed_text. rewrite <- ComputeHash_own, <- Hh, Hg. congruence.
Qed.

Lemma prev_length l r :
  intact (l ++ [r]) -> (l = [] -> String.length (PrevHash r) = 64) -> String.length (PrevHash r) = 64.
Proof.
  destruct l as [|x l'] using rev_ind; [auto|]. clear IHl'. intros [Hi Hc]%intact_snoc _.
  unfold seed in Hc. rewrite last_snoc in Hc. apply check_seeded in Hc as [-> _].
  apply intact_snoc in Hi as [_ Hr].
  assert (Hash x = ComputeHash (PrevHash x) x) as ->.
  { destruct (seed l'); [by apply check_seeded in Hr as [_ ?]|by apply check_unseeded in Hr as [_ ?]]. }
  apply sha256_len.
Qed.

Lemma last_hash_own l r : intact (l ++ [r]) -> Hash r = ComputeHash (PrevHash r) r.
Proof. intros (_ & _ & H3). apply H3, elem_of_app. right. by left. Qed.

Lemma intact_prefix l r : intact (l ++ [r]) -> intact l.
Proof. by intros [? _]%intact_snoc. Qed.

Lemma intact_link l r r' : intact ((l ++ [r]) ++ [r']) -> PrevHash r' = Hash r.
Proof. intros [_ Hc]%intact_snoc. unfold seed in Hc. rewrite last_snoc in Hc. by apply check_seeded in Hc as [? _]. Qed.

Lemma seal recs recs' :
  sha256_hex genesisDomain = Genesis ->
  Forall decoded recs -> Forall decoded recs' -> intact recs -> intact recs' ->
  (forall r, head recs = Some r -> PrevHash r = Genesis) ->
  (forall r, head recs' = Some r -> String.length (PrevHash r) = 64) ->
  recs <> [] -> recs' <> [] -> seed recs = seed recs' ->
  (exists pre suf, recs = pre ++ suf /\ Forall2 same_record suf recs') \/ collision_between recs recs'.
Proof.
  intros Hg. revert recs. induction recs' as [|r' l' IH] using rev_ind; intros recs D D' I I' A L Hne Hne' E; [done|].
  destruct recs as [|r l _] using rev_ind; [done|]. unfold seed in E. rewrite !last_snoc in E. injection E as E.
  apply Forall_app in D as [D [Dr _]%Forall_cons], D' as [D' [Dr' _]%Forall_cons].
  assert (String.length (PrevHash r) = 64) as Lr.
  { apply (prev_length l); [done|]. intros ->. by rewrite (A r). }
  assert (String.length (PrevHash r') = 64) as Lr'.
  { apply (prev_length l'); [done|]. intros ->. by apply L. }
  assert (Hsame : ComputeHash (PrevHash r) r = ComputeHash (PrevHash r') r') by (by rewrite <- (last_hash_own l), <- (last_hash_own l')).
  destruct (same_hash_same_record r r' Dr Dr' Lr Lr' Hsame) as [S|C].
  2:{ right. exists (sealed_text r), (sealed_text r'). split; [|split; [|exact C]]; apply sealed_texts_in, elem_of_app; right; apply list_elem_of_here. }
  destruct (decide (l' = [])) as [->|Nl'].
  { left. exists l, [r]. split; [done|]. constructor; [exact S|constructor]. }
  assert (exists l0 x, l' = l0 ++ [x]) as (l0 & x & ->).
  { destruct l' as [|y ys _] using rev_ind; [done|]. by exists ys, y. }
  assert (PrevHash r = PrevHash r') as Ep by apply S.
  destruct (decide (l = [])) as [->|Nl].
  { right. destruct (anchor_only_first l0 x r') as [Hn Hd]; [done|done| | |].
    - rewrite <- Ep. by apply (A r).
    - apply (prev_length l0); [by eapply intact_prefix|]. intros ->. by apply L.
    - exists genesisDomain, (sealed_text x). split; [apply list_elem_of_here|]. split; [|by split; [intros E'; apply Hn|]].
      apply sealed_texts_in. set_solver. }
  assert ((exists pre suf, l = pre ++ suf /\ Forall2 same_record suf (l0 ++ [x])) \/ collision_between l (l0 ++ [x]))
    as [(pre & suf & -> & F)|C]; [| |right; by apply collision_larger].
  - apply IH; [done|done|by eapply intact_prefix|by eapply intact_prefix| | |done|by destruct l0|].
    + intros y Hy. apply A. by destruct l.
    + intros y Hy. apply L. by destruct l0.
    + destruct l as [|y ys _] using rev_ind; [done|]. unfold seed. rewrite !last_snoc. cbn.
      rewrite <- (intact_link ys y r), <- (intact_link l0 x r') by done. by rewrite Ep.
  - left. exists pre, (suf ++ [r]). split; [by rewrite (assoc_L (++))|]. apply Forall2_app; [done|]. constructor; [exact S|constructor].
Qed.
End Seal.

(* ------------------------------------------------------------------ *)
(** ** A concrete digest for closed runs *)

Fixpoint checksum (s : string) (acc : Z) : Z :=
  match s with
  | EmptyString => acc
  | String c t => checksum t ((acc * 257 + Z.of_nat (nat_of_ascii c) + 1) mod 1000000000000000000000000000057)%Z
  end.

Lemma pad_digits w z : str_all is_digit (pad w z) = true.
Proof.
  revert z. induction w as [|w IH]; intros z; [done|]. rewrite pad_S, str_all_app, IH. cbn. rewrite andb_true_r.
  unfold is_digit, chr. apply bool_decide_eq_true. pose proof (Z.mod_pos_bound z 10). rewrite nat_ascii_embedding; lia.
Qed.

Definition toy_hex (s : string) : string :=
  if bool_decide (s = genesisDomain) then Genesis else pad 64 (checksum s 7).

#[export] Instance toy_sha : Sha256.
Proof.
  refine {| sha256_hex := toy_hex |}; intros s; unfold toy_hex; case_bool_decide; try reflexivity.
  eapply str_all_impl; [|apply pad_digits]. intros c Hc. unfold hex_char. by rewrite Hc.
Defined.

(** A small archive, sealed as the logger seals records. *)
Definition sealed (seq : Z) (t : time) (ps : list (string * Value)) (prev : string) : Record_ :=
  let r := mkRecord seq t "admin" "0123abcd" "10.0.0.7" "" "" "cluster.lock" ps "" OutcomeAttempt prev "" in
  mkRecord seq t "admin" "0123abcd" "10.0.0.7" "" "" "cluster.lock" ps "" OutcomeAttempt prev (ComputeHash prev r).

Definition day_one : time := time_unix 1700000000.
Definition sample_1 : Record_ := sealed 1 day_one [("locked", VBool true)] Genesis.
Definition sample_2 : Record_ := sealed 2 (day_one + second) [("b", VNum "2"); ("a", VStr "x")] (Hash sample_1).
Definition sample_2' : Record_ := sealed 2 (day_one + second) [("a", VStr "x"); ("b", VNum "2")] (Hash sample_1).
Definition sample_3 : Record_ := sealed 3 (day_one + minute) [] (Hash sample_2).

(* ------------------------------------------------------------------ *)
(** ** The properties *)

(** Verification reports the first record that does not add up: everything
    before it, over all files, is an untouched chain and with it no longer;
    it is silent exactly on untouched archives that can be read; a file that
    cannot be read is reported only behind an untouched part. *)
Theorem Verify_finds_first_break `{Sha256} (files : list day_file) : verify_meaning [] files (Verify files).
Proof. apply (verify_files_spec files [] 0 intact_nil). Qed.

Lemma sealed_decoded seq t ps prev :
  (0 <= seq)%Z -> in_years t -> wf (VObj ps) = true -> to_valid prev = prev -> decoded (sealed seq t ps prev).
Proof.
  intros Hs Ht Hp Hv. do 3 (split; [done|]). cbn [sealed Actor Session SrcIP ClusterID MachineID Action JobID Outcome PrevHash].
  repeat (apply Forall_cons; split; [lazymatch goal with |- to_valid prev = _ => exact Hv | _ => vm_compute; reflexivity end|]). constructor.
Qed.

Lemma sample_1_decoded : decoded sample_1.
Proof. apply sealed_decoded; [lia|split; by vm_compute|vm_compute; reflexivity|vm_compute; reflexivity]. Qed.
Lemma sample_2_decoded : decoded sample_2.
Proof. apply sealed_decoded; [lia|split; by vm_compute|vm_compute; reflexivity|vm_compute; reflexivity]. Qed.
Lemma sample_2'_decoded : decoded sample_2'.
Proof. apply sealed_decoded; [lia|split; by vm_compute|vm_compute; reflexivity|vm_compute; reflexivity]. Qed.

Lemma intact_front `{Sha256} l l' : intact (l ++ l') -> intact l.
Proof.
  induction l' as [|x l' IH] using rev_ind; [by rewrite (right_id_L [] (++))|].
  rewrite (assoc_L (++)). intros I%intact_prefix. by apply IH.
Qed.

(** C24: The last hash of an archive that begins at the anchor seals all of it: an
    archive that verifies too and ends in the same hash is, record for record,
    its end; one that begins at the anchor as well is all of it. The only way out is
    that a text sealed in the one and a different text sealed in the other (a record
    behind the hash before it, or the text of the anchor) have the same SHA-256. *)
Theorem last_hash_seals_archive `{Sha256} recs recs' :
  sha256_hex genesisDomain = Genesis ->
  Forall decoded recs -> Forall decoded recs' -> intact recs -> intact recs' ->
  (forall r, head recs = Some r -> PrevHash r = Genesis) ->
  (forall r, head recs' = Some r -> String.length (PrevHash r) = 64) ->
  recs <> [] -> recs' <> [] -> seed recs = seed recs' ->
  (exists pre suf, recs = pre ++ suf /\ Forall2 same_record suf recs'
     /\ ((forall r, head recs' = Some r -> PrevHash r = Genesis) -> pre = [] \/ collision_between recs recs'))
  \/ collision_between recs recs'.
Proof.
  intros Hg D D' I I' A L Hne Hne' E.
  destruct (seal recs recs' Hg D D' I I' A L Hne Hne' E) as [(pre & suf & -> & F)|C]; [left|by right].
  exists pre, suf. split; [done|]. split; [done|]. intros A'.
  destruct pre as [|x pre _] using rev_ind; [by left|]. right.
  destruct F as [|y y' suf recs' S F]; [done|].
  assert (intact ((pre ++ [x]) ++ [y])) as Iy.
  { apply (intact_front _ suf). by rewrite <- (assoc_L (++) (pre ++ [x])). }
  destruct (anchor_only_first pre x y Hg Iy) as [Hn Hd].
  - assert (PrevHash y = PrevHash y') as -> by apply S. by apply A'.
  - apply (prev_length pre x); [by eapply intact_prefix|]. intros ->. by rewrite (A x).
  - exists (sealed_text x), genesisDomain. split; [apply sealed_texts_in; set_solver|]. by split; [apply list_elem_of_here|].
Qed.

Lemma last_hash_seals_archive_witness :
  sha256_hex genesisDomain = Genesis /\ sample_2 <> sample_2'
  /\ ((exists pre suf, [sample_1; sample_2] = pre ++ suf /\ Forall2 same_record suf [sample_1; sample_2']
       /\ ((forall r, head [sample_1; sample_2'] = Some r -> PrevHash r = Genesis) -> pre = [] \/ collision_between [sample_1; sample_2] [sample_1; sample_2']))
      \/ collision_between [sample_1; sample_2] [sample_1; sample_2']).
Proof.
  split; [reflexivity|]. split; [intros E; apply (f_equal Params) in E; discriminate E|].
  apply (last_hash_seals_archive [sample_1; sample_2] [sample_1; sample_2']).
  - reflexivity.
  - exact (Forall_cons_2 _ _ _ sample_1_decoded (Forall_cons_2 _ _ _ sample_2_decoded (Forall_nil_2 _))).
  - exact (Forall_cons_2 _ _ _ sample_1_decoded (Forall_cons_2 _ _ _ sample_2'_decoded (Forall_nil_2 _))).
  - split; [intros r [= <-] _; reflexivity|]. split.
    + intros [|[|i]] r r' [= <-] [= <-]; vm_compute; reflexivity.
    + intros r Hr. apply list_elem_of_In in Hr as [<- | [<- | []]]; vm_compute; reflexivity.
  - split; [intros r [= <-] _; reflexivity|]. split.
    + intros [|[|i]] r r' [= <-] [= <-]; vm_compute; reflexivity.
    + intros r Hr. apply list_elem_of_In in Hr as [<- | [<- | []]]; vm_compute; reflexivity.
  - intros r [= <-]. reflexivity.
  - intros r [= <-]. reflexivity.
  - done.
  - done.
  - vm_compute. reflexivity.
Defined.

(** C26: The canonical form of a value is the same for two values exactly when they
    differ in nothing but the order in which their maps are walked. *)
Theorem canonical_form_of_equal_values v w :
  wf v = true -> wf w = true -> keys_once v = true -> keys_once w = true ->
  (writeCanonical v = writeCanonical w <-> same_value v w).
Proof.
  intros Hv Hw Kv Kw. split; [by apply writeCanonical_inj|]. unfold same_value. intros E.
  by rewrite <- (writeCanonical_norm v), <- (writeCanonical_norm w), E.
Qed.

Lemma canonical_form_of_equal_values_witness :
  let v := VObj [("b", VArr [VNum "1e2"; VNull]); ("a", VStr "x")] in
  let w := VObj [("a", VStr "x"); ("b", VArr [VNum "1e2"; VNull])] in
  v <> w /\ same_value v w /\ writeCanonical v = writeCanonical w.
Proof.
  intros v w. split; [done|]. assert (same_value v w) as S by (vm_compute; reflexivity). split; [exact S|].
  apply (canonical_form_of_equal_values v w); [reflexivity|reflexivity|reflexivity|reflexivity|exact S].
Defined.

Lemma reread_keeps `{Sha256} r :
  stable (VObj (Params r)) = true -> to_valid (PrevHash r) = PrevHash r -> Hash r = ComputeHash (PrevHash r) r ->
  encode_line r = LRec (cleaned r) /\ PrevHash (cleaned r) = PrevHash r /\ Hash (cleaned r) = Hash r
  /\ Hash (cleaned r) = ComputeHash (PrevHash (cleaned r)) (cleaned r).
Proof.
  intros Hs Hp Hh. unfold encode_line. rewrite (reread_stable r Hs). split; [done|].
  assert (to_valid (Hash r) = Hash r) as Hv.
  { rewrite Hh, ComputeHash_own. apply hex_valid, sha256_chars. }
  cbn [PrevHash Hash cleaned]. rewrite Hp, Hv. do 2 (split; [done|]).
  rewrite Hh, ComputeHash_own. unfold ComputeHash, Record_ComputeHash.
  assert (set_prev (PrevHash r) (cleaned r) = cleaned r) as ->.
  { unfold set_prev, cleaned. cbn. by rewrite Hp. }
  rewrite CanonicalJSON_cleaned. cbn [PrevHash cleaned]. by rewrite Hp.
Qed.

(** A record written and read back has the hash it was sealed with, provided
    the decoder does not rewrite a number of its parameters. *)
Theorem reread_keeps_hash `{Sha256} r :
  stable (VObj (Params r)) = true -> to_valid (PrevHash r) = PrevHash r -> Hash r = ComputeHash (PrevHash r) r ->
  exists r', encode_line r = LRec r' /\ PrevHash r' = PrevHash r /\ Seq r' = Seq r /\ TS r' = TS r
             /\ Hash r' = Hash r /\ Hash r' = ComputeHash (PrevHash r') r'.
Proof. intros Hs Hp Hh. exists (cleaned r). by destruct (reread_keeps r Hs Hp Hh) as (? & ? & ? & ?). Qed.

Lemma reread_keeps_hash_witness :
  exists r', encode_line sample_2 = LRec r' /\ PrevHash r' = PrevHash sample_2 /\ Seq r' = Seq sample_2
             /\ TS r' = TS sample_2 /\ Hash r' = Hash sample_2 /\ Hash r' = ComputeHash (PrevHash r') r'.
Proof. apply (reread_keeps_hash sample_2); vm_compute; reflexivity. Defined.

(** A number the decoder rewrites changes what is hashed: the record fails the
    verification from the moment it is on disk. One it refuses makes the line
    unreadable. *)
Theorem rewritten_number_breaks_chain :
  let with_number lit := sealed 1 day_one [("username", VNum lit)] Genesis in
  (exists r', encode_line (with_number "1.0") = LRec r' /\ Verify [("audit-2023-11-14.jsonl", Ok [(r', 1)])]
              = VBreak "audit-2023-11-14.jsonl" 1)
  /\ encode_line (with_number "1e999") = LBad.
Proof.
  cbv zeta. split; [|vm_compute; reflexivity].
  destruct (encode_line (sealed 1 day_one [("username", VNum "1.0")] Genesis)) as [r'| |] eqn:E;
    [|vm_compute in E; discriminate E|vm_compute in E; discriminate E].
  exists r'. split; [done|]. vm_compute in E. injection E as <-. vm_compute. reflexivity.
Qed.
