(* ===== verification/AuditRedact.v ===== *)
(** * What of a request may enter the audit log

    [internal/audit/redact.go]: the allowlist of parameters per action, the
    walk that replaces everything else, and the shape of a failure reason; and
    [internal/httpapi/middleware/audit.go]: what is taken from a request. *)

From S2P Require Import Prelude GoText AuditRecord.

Definition RedactedMarker : string := "<redacted>".
Definition maxParamLen : nat := 256.
Definition truncationMarker : string := ellipsis +:+ "(truncated)".
Definition maxParamItems : nat := 32.

Definition AccountParam : string := "account".
Definition AccountUsernameParam : string := "account_username".
Definition MachineParam : string := "machine".

(** The table, in the order of the source. *)
Definition allowlist_1 : list (string * list string) :=
  [ ("setup.create", ["username"]);
    ("auth.login", ["username"]);
    ("schematic.create", ["name"; "talos_version"]);
    ("auth.logout", []);
    ("auth.sudo", []);
    ("account.password", []);
    ("schematic.delete", []);
    ("cluster.import", ["name"; "endpoint"; "fingerprint"]);
    ("cluster.fingerprint", ["endpoint"]);
    ("cluster.create", ["name"; "endpoint"]);
    ("cluster.lock", ["locked"]);
    ("user.create", ["username"; "role"]);
    ("user.role", ["role"]);
    ("user.password-reset", []);
    ("user.delete", []);
    ("user.identity-link", [AccountParam; AccountUsernameParam; "provider"]);
    ("user.identity-unlink", []);
    ("service-account.create", ["username"; "role"]);
    ("service-account.rotate", []);
    ("machine.labels", ["labels"]);
    ("machine-class.put", ["name"; "description"; "selector"]);
    ("machine-class.delete", []);
    ("cluster-template.plan", []);
    ("cluster.kubeconfig", []);
    ("cluster.talosconfig", []);
    ("machine.add", ["cluster"; "addr"]);
    ("system.status", []) ].

Definition allowlist_2 : list (string * list string) :=
  [ ("system.version", []);
    ("auth.me", []);
    ("audit.list", []);
    ("cluster.forget", []);
    ("machine.forget", []);
    ("machine.refresh", []);
    ("node.reboot", ["cluster"]);
    ("node.shutdown", ["cluster"]);
    ("node.reset", ["cluster"; "params.mode"; "params.graceful"; "params.reboot"; "params.disks[]"]);
    ("action.confirm", ["action"; "params.mode"; "params.graceful"; "params.reboot"]);
    ("host.reboot", []);
    ("host.poweroff", []);
    ("host.restart-service", []);
    ("host.update", []);
    ("host.check-update", []);
    ("job.cancel", []);
    ("config.plan", ["cluster"; "patch_ids[]"]);
    ("config.apply", ["cluster"; "mode"; "patch_ids[]"; "base_digest"]);
    ("patch.create", ["name"]);
    ("provision.scan", ["cidr"; "addrs[]"]);
    ("provision.confirm", ["cluster"; "addr"; "uuid"; "control_plane"; "install_disk"; "schematic_id"; "talos_version"; "fingerprint"; "hostname"; "patch_ids[]"]);
    ("provision.inspect", ["addr"; "fingerprint"]);
    ("provision.plan", ["cluster"; "addr"; "uuid"; "control_plane"; "install_disk"; "schematic_id"; "talos_version"; "fingerprint"; "hostname"; "patch_ids[]"]);
    ("provision.apply", ["cluster"; "addr"; "uuid"; "control_plane"; "install_disk"; "schematic_id"; "talos_version"; "fingerprint"; "hostname"; "patch_ids[]"]);
    ("provision.bootstrap-resolve", ["bootstrapped"; "note"]);
    ("upgrade.plan", ["to"]);
    ("upgrade.plan-kubernetes", ["to"]);
    ("upgrade.confirm", ["kind"; "to"]);
    ("upgrade.talos", ["to"]);
    ("upgrade.kubernetes", ["to"]);
    ("upgrade.snapshot", []);
    ("etcd.remove-member", []);
    ("cluster.kubernetes-overview", ["namespace"]);
    ("cluster.kubernetes-cordon", ["unschedulable"]);
    ("node.drain", ["force"; "delete_local_data"]) ].

Definition allowlist_3 : list (string * list string) :=
  [ ("cluster.kubernetes-restart-pod", []);
    ("cluster.kubernetes-scale", ["replicas"]);
    ("cluster.kubernetes-rollout-restart", []);
    ("cluster.kubernetes-manifest-plan", []);
    ("cluster.kubernetes-manifest-apply", []);
    ("cluster.kubernetes-service-proxy", ["port"; "path"]);
    ("cluster.kubernetes-containers", []);
    ("cluster.kubernetes-logs", []);
    ("cluster.kubernetes-events", []);
    ("cluster.kubernetes-pod-events", []);
    ("cluster.kubernetes-object", ["api_version"; "kind"; "namespace"; "name"]);
    ("cluster.kubernetes-identity", []);
    ("cluster.kubernetes-set-identity", ["user"; "groups"]);
    ("cluster.kubernetes-workloads", []);
    ("cluster.kubernetes-scale-workload", ["replicas"]);
    ("cluster.kubernetes-restart-workload", []);
    ("cluster.kubernetes-resources", []);
    ("cluster.kubernetes-delete-object", ["api_version"; "kind"; "namespace"; "name"]);
    ("cluster.kubernetes-node-detail", []);
    ("cluster.kubernetes-usage", []);
    ("cluster.kubernetes-apps", []);
    ("cluster.kubernetes-app", []);
    ("cluster.kubernetes-exec", ["container"; "command"]);
    ("cluster.kubernetes-capacity", []);
    ("cluster.kubernetes-storage", []);
    ("cluster.kubernetes-network", []);
    ("cluster.stop", []);
    ("cluster.force-stop", []);
    ("cluster.start", []);
    ("cluster.disable", []);
    ("cluster.enable", []);
    ("cluster.restart", []);
    ("cluster.force-restart", []);
    ("node.stop", []);
    ("node.force-stop", []);
    ("node.start", []);
    ("node.disable", []);
    ("node.enable", []);
    ("node.restart", []);
    ("node.force-restart", []);
    ("cluster.kubernetes-app-stop", []);
    ("cluster.kubernetes-app-force-stop", []);
    ("cluster.kubernetes-app-start", []);
    ("cluster.kubernetes-app-disable", []) ].

Definition allowlist_4 : list (string * list string) :=
  [ ("cluster.kubernetes-app-enable", []);
    ("cluster.kubernetes-app-restart", []);
    ("cluster.kubernetes-app-force-restart", []);
    ("cluster.kubernetes-access", []);
    ("cluster.kubernetes-inventory", []);
    ("cluster.wall", []);
    ("wall-link.list", []);
    ("wall-link.create", ["label"]);
    ("wall-link.revoke", []);
    ("cluster.kubernetes-stop", []);
    ("cluster.kubernetes-start", []);
    ("cluster.kubernetes-sweep-plan", []);
    ("cluster.kubernetes-sweep", ["items"]);
    ("cluster.renew-client-certificate", []);
    ("etcd.snapshot", []);
    ("cluster.backup-schedule", ["interval"; "keep"]);
    ("etcd.backup-run", []);
    ("etcd.backup-download", []);
    ("config.drift-confirm", ["digest"]);
    ("etcd.restore", ["skip_hash_check"]);
    ("machine.lock", ["locked"; "reason"]);
    ("node.remove-from-cluster", ["cluster"]);
    ("support.bundle", []) ].

Definition allowlist : list (string * list string) :=
  allowlist_1 ++ allowlist_2 ++ allowlist_3 ++ allowlist_4.

(** The entry of an action in a table with each key once. *)
Fixpoint entry {A} (table : list (string * A)) (k : string) : option A :=
  match table with
  | [] => None
  | (k', v) :: rest => if bool_decide (k = k') then Some v else entry rest k
  end.

Definition Listed (action : string) : bool := bool_decide (is_Some (entry allowlist action)).
Definition ListedActions : list string := map fst allowlist.

Definition accountPath : list (string * string) :=
  [("user.role", "id"); ("user.password-reset", "id"); ("user.delete", "id"); ("user.identity-unlink", "id");
   ("service-account.rotate", "id")].
Definition AccountFromPath (action : string) (pathValue : string -> string) : string :=
  match entry accountPath action with None => "" | Some wildcard => pathValue wildcard end.

Definition machinePath : list (string * string) := [("config.drift-confirm", "id")].
Definition MachineFromPath (action : string) (pathValue : string -> string) : string :=
  match entry machinePath action with None => "" | Some wildcard => pathValue wildcard end.

(* ------------------------------------------------------------------ *)
(** ** Rules *)

Record leafRule := mkRule { path : list string; is_list : bool }.
Definition listSuffix : string := "[]".

(** [strings.HasSuffix], [strings.TrimSuffix]. *)
Definition cut_suffix (s suf : string) : option string :=
  string_rev <$> cut_prefix (string_rev suf) (string_rev s).
Definition has_suffix (s suf : string) : bool := bool_decide (is_Some (cut_suffix s suf)).
Definition trim_suffix (s suf : string) : string := default s (cut_suffix s suf).

Definition rule_of (f : string) : leafRule :=
  match cut_suffix f listSuffix with
  | Some g => mkRule (split_on "." g) true
  | None => mkRule (split_on "." f) false
  end.
Definition rules_of (action : string) : list leafRule := map rule_of (default [] (entry allowlist action)).

Fixpoint permittedLeaf (segments : list string) (permitted : list leafRule) : option leafRule :=
  match permitted with
  | [] => None
  | p :: rest => if bool_decide (path p = segments) then Some p else permittedLeaf segments rest
  end.

Definition leads (segments : list string) (p : leafRule) : bool :=
  bool_decide (length segments < length (path p)) && bool_decide (take (length segments) (path p) = segments).
Definition leadsToPermitted (segments : list string) (permitted : list leafRule) : bool :=
  existsb (leads segments) permitted.

(** [utf8.RuneStart]. *)
Definition rune_start (c : ascii) : bool := negb (cont c).

Fixpoint cut_back (fuel : nat) (s : string) : nat :=
  match fuel with
  | O => 0
  | S f => match String.get fuel s with
           | Some c => if rune_start c then fuel else cut_back f s
           | None => fuel
           end
  end.

Definition capLength (s : string) : string :=
  if bool_decide (String.length s ≤ maxParamLen) then s
  else String.substring 0 (cut_back maxParamLen s) s +:+ truncationMarker.

(** What a leaf may carry, but for a list. *)
Definition permittedScalar (v : Value) : option Value :=
  match v with
  | VNull | VBool _ | VNum _ => Some v
  | VStr s => Some (VStr (capLength s))
  | VArr _ | VObj _ => None
  end.

Definition permittedValue (v : Value) (list_ : bool) : option Value :=
  match v with
  | VArr l =>
      if negb list_ || bool_decide (maxParamItems < length l) then None
      else VArr <$> mapM permittedScalar l
  | _ => permittedScalar v
  end.

Fixpoint redactValue (segments : list string) (permitted : list leafRule) (v : Value) : Value :=
  match permittedLeaf segments permitted with
  | Some leaf => default (VStr RedactedMarker) (permittedValue v (is_list leaf))
  | None =>
      match v with
      | VObj m =>
          if leadsToPermitted segments permitted then
            VObj (map (fun kv => (kv.1, redactValue (segments ++ [kv.1]) permitted kv.2)) m)
          else VStr RedactedMarker
      | _ => VStr RedactedMarker
      end
  end.

Definition redact_entries (segments : list string) (permitted : list leafRule) (m : list (string * Value)) :=
  map (fun kv => (kv.1, redactValue (segments ++ [kv.1]) permitted kv.2)) m.

(** The function [Params] of the source; the record has a field of that name. *)
Definition Params_of (action : string) (raw : list (string * Value)) : list (string * Value) :=
  redact_entries [] (rules_of action) raw.

Definition maxCodeLen : nat := 64.

Definition code_char (c : ascii) : bool :=
  byte_in 97 122 c || is_digit c || Ascii.eqb c "." || Ascii.eqb c "-" || Ascii.eqb c "_".

(** A rune outside ASCII is none of these, so the bytes decide. *)
Definition isCodeToken (s : string) : bool :=
  negb (bool_decide (s = "") || bool_decide (maxCodeLen < String.length s)) && str_all code_char s.

Definition OutcomeCause (s : string) : string := if isCodeToken s then s else RedactedMarker.

(* ------------------------------------------------------------------ *)
(** ** What is taken from a request

    A request's body as the middleware meets it: the result of reading at most
    [maxAuditBody + 1] bytes of it, and what the JSON decoder makes of them. *)

Definition RequestIDParam : string := "request_id".
Definition BodyParam : string := "_body".
Definition maxAuditBody : Z := 65536.

Inductive body :=
  | NoBody
  | BodyUnreadable
  | BodyRead (length : Z) (blank : bool) (decoded : option (list (string * Value))).

Definition readBody (b : body) : list (string * Value) :=
  match b with
  | NoBody => []
  | BodyUnreadable => [(BodyParam, VStr "unreadable")]
  | BodyRead n blank decoded =>
      if bool_decide (maxAuditBody < n)%Z then [(BodyParam, VStr "oversized")]
      else if blank then []
      else match decoded with
           | None => [(BodyParam, VStr "unparsable")]
           | Some raw => raw
           end
  end.

(** [m[k] = v]. *)
Fixpoint put_entry {A} (m : list (string * A)) (k : string) (v : A) : list (string * A) :=
  match m with
  | [] => [(k, v)]
  | (k', w) :: rest => if bool_decide (k = k') then (k, v) :: rest else (k', w) :: put_entry rest k v
  end.

Definition captureParams (b : body) (action requestID : string) (pathValue : string -> string) : list (string * Value) :=
  let params := Params_of action (readBody b) in
  let params := put_entry params RequestIDParam (VStr requestID) in
  let account := AccountFromPath action pathValue in
  let params := if bool_decide (account = "") then params else put_entry params AccountParam (VStr account) in
  let machine := MachineFromPath action pathValue in
  if bool_decide (machine = "") then params else put_entry params MachineParam (VStr machine).

(** The code recorded for a response: the stable token of a problem response,
    or the status. [captured] is what decoding the captured body gives. *)
Definition problem_code (status : Z) (captured : option string) : string :=
  match captured with
  | Some code => if isCodeToken code then code else "http." +:+ itoa status
  | None => "http." +:+ itoa status
  end.

(** What the middleware reports as the outcome of a request: success or error,
    and the cause. *)
Definition outcome_of (status : Z) (captured : option string) : string * option string :=
  if bool_decide (400 <= status)%Z then (OutcomeError, Some (problem_code status captured))
  else (OutcomeSuccess, None).

(* ------------------------------------------------------------------ *)
(** ** What is left in clear *)

(** The value a path of keys leads to, and the leaves: what is no object. *)
Inductive value_at : Value -> list string -> Value -> Prop :=
  | at_here v : value_at v [] v
  | at_obj k u m p w : (k, u) ∈ m -> value_at u p w -> value_at (VObj m) (k :: p) w.

Definition leaf_at (v : Value) (p : list string) (w : Value) : Prop :=
  value_at v p w /\ forall m, w <> VObj m.

(** A scalar: a text of bounded length; a number is taken as it was sent, however long
    its literal is. *)
Definition clear_scalar (w : Value) : Prop :=
  match w with
  | VStr s => String.length s ≤ maxParamLen + String.length truncationMarker
  | VArr _ | VObj _ => False
  | _ => True
  end.

(** A value in clear: a scalar or, under a list rule, at most [maxParamItems] of them. *)
Definition clear_value (w : Value) (list_ : bool) : Prop :=
  clear_scalar w \/ list_ = true /\ exists l, w = VArr l /\ length l ≤ maxParamItems /\ Forall clear_scalar l.

Lemma permittedLeaf_Some segs rules r :
  permittedLeaf segs rules = Some r -> r ∈ rules /\ path r = segs.
Proof.
  induction rules as [|x rules IH]; cbn; [done|]. case_bool_decide.
  - intros [= <-]. split; [by left|done].
  - intros H'. destruct (IH H'). split; [by right|done].
Qed.

(** Where an unmarked leaf of the redacted tree comes from: a rule with
    exactly its path, and what that rule permits of the value sent there. *)
Lemma redactValue_leaf v : forall segs rules p w,
  leaf_at (redactValue segs rules v) p w ->
  w = VStr RedactedMarker
  \/ exists r u, r ∈ rules /\ path r = segs ++ p /\ value_at v p u /\ permittedValue u (is_list r) = Some w.
Proof.
  assert (forall r u p w, leaf_at (default (VStr RedactedMarker) (permittedValue u (is_list r))) p w ->
            w = VStr RedactedMarker \/ (p = [] /\ permittedValue u (is_list r) = Some w)) as Hleaf.
  { intros r u p w [Ha Hw]. destruct (permittedValue u (is_list r)) as [x|] eqn:E; cbn in Ha.
    - inversion Ha; subst; [by right|]. destruct u; cbn in E; repeat case_match; simplify_eq.
      by destruct (mapM permittedScalar _).
    - left. by inversion Ha. }
  assert (forall p w, leaf_at (VStr RedactedMarker) p w -> w = VStr RedactedMarker) as Hmark.
  { intros p w [Ha _]. by inversion Ha. }
  induction v as [|b|l|s|m IH|l IH] using Value_ind'; intros segs rules p w H; cbn [redactValue] in H;
    destruct (permittedLeaf segs rules) as [r|] eqn:El;
    try (apply permittedLeaf_Some in El as [Hin Hp]; eapply Hleaf in H as [H|[-> H]]; [by left|];
         right; eexists r, _; rewrite (right_id_L [] (++)); split; [done|]; split; [done|]; split; [constructor|exact H]);
    try (left; by eapply Hmark).
  destruct (leadsToPermitted segs rules); [|left; by eapply Hmark].
  destruct H as [Ha Hw]. inversion Ha as [|k u m' p' w' Hku Hu]; subst; [by edestruct Hw|].
  apply list_elem_of_In, in_map_iff in Hku as ([k' v] & [= <- <-] & Hkv). apply list_elem_of_In in Hkv.
  rewrite Forall_forall in IH. destruct (IH _ Hkv _ _ _ _ (conj Hu Hw)) as [->|(r & x & Hr & Hp & Hx & Hv)]; [by left|right].
  exists r, x. split; [done|]. cbn in Hp, Hx. rewrite <- (assoc_L (++)) in Hp. split; [done|]. split; [by econstructor|done].
Qed.

Lemma substring_length n s : String.length (String.substring 0 n s) ≤ n.
Proof. revert s. induction n as [|n IH]; intros [|c s]; cbn; try lia. specialize (IH s). lia. Qed.

Lemma cut_back_le n s : cut_back n s ≤ n.
Proof. induction n as [|n IH]; cbn [cut_back]; [lia|]. repeat case_match; lia. Qed.

Lemma capLength_bound s : String.length (capLength s) ≤ maxParamLen + String.length truncationMarker.
Proof.
  unfold capLength. case_bool_decide; [lia|]. rewrite str_length_app.
  pose proof (substring_length (cut_back maxParamLen s) s). pose proof (cut_back_le maxParamLen s). lia.
Qed.

Lemma permittedScalar_clear u w : permittedScalar u = Some w -> clear_scalar w.
Proof. destruct u; cbn [permittedScalar]; intros [= <-]; try done. apply capLength_bound. Qed.

Lemma permittedValue_clear u l w : permittedValue u l = Some w -> clear_value w l.
Proof.
  unfold permittedValue. destruct u as [| | | | |ws]; try (intros H; left; by eapply permittedScalar_clear).
  destruct (negb l || bool_decide (maxParamItems < length ws)) eqn:E; [done|]. bools. destruct E as [-> Hl].
  destruct (mapM permittedScalar ws) as [xs|] eqn:Em; [|done]. intros [= <-]. right. split; [done|].
  exists xs. split; [done|]. apply mapM_Some in Em. split.
  - rewrite <- (Forall2_length _ _ _ Em). lia.
  - clear Hl. induction Em; constructor; [by eapply permittedScalar_clear|done].
Qed.

Lemma entry_in {A} (t : list (string * A)) k v : entry t k = Some v -> (k, v) ∈ t.
Proof. induction t as [|[k' w] t IH]; cbn; [done|]. case_bool_decide; [intros [= <-]; subst; by left|right; auto]. Qed.

Lemma put_entry_in {A} (m : list (string * A)) k v x : x ∈ put_entry m k v -> x = (k, v) \/ x ∈ m.
Proof.
  induction m as [|[k' w] m IH]; cbn; [intros ->%list_elem_of_singleton; by left|].
  case_bool_decide; intros [->|H']%elem_of_cons; auto; [right; by right|right; by left|].
  destruct (IH H') as [->|]; [by left|right; by right].
Qed.

(** ** Cutting keeps the text well formed *)

(** Inside a rune every byte but the first is a continuation byte. *)
Lemma rune_tail_cont r i c :
  is_rune r -> 0 < i -> String.get i r = Some c -> rune_start c = false.
Proof.
  intros (a & s & -> & H) Hi Hg. specialize (H ""). rewrite (right_id_L "" String.append) in H.
  destruct i as [|i]; [lia|]. cbn [String.get] in Hg. unfold next_rune in H.
  destruct (bool_decide _); [unfold str1 in H; injection H as <- _; done|].
  assert (forall x, cont x = true -> rune_start x = false) as Hc by (intros x E; unfold rune_start; by rewrite E).
  assert (forall x lo hi, byte_in lo hi x = true -> 128 ≤ lo -> hi ≤ 191 -> cont x = true) as Hb.
  { intros x lo hi. unfold cont, byte_in. rewrite !bool_decide_eq_true. lia. }
  assert (forall e t : string, (rune_error, e) = (String a s, t) -> rune_start c = false) as Herr.
  { intros e t E. change rune_error with (String (chr 239) (String (chr 191) (str1 (chr 189)))) in E.
    injection E; intros _ Es _. subst s. destruct i as [|[|i]]; cbn in Hg; [injection Hg as <-; vm_compute; done..|done]. }
  destruct s as [|b s]; [by eapply Herr|]. destruct (two a b) eqn:H2.
  { unfold str1 in H; simplify_eq. unfold two in H2. apply andb_true_iff in H2 as [_ H2]. destruct i as [|i]; cbn in Hg; [injection Hg as <-; by apply Hc|done]. }
  destruct s as [|d s]; [by eapply Herr|]. destruct (three a b d) eqn:H3.
  { unfold str1 in H; simplify_eq. unfold three in H3. apply andb_true_iff in H3 as [H3 Hd].
    destruct i as [|[|i]]; cbn in Hg; [|injection Hg as <-; by apply Hc|done]. injection Hg as <-. apply Hc.
    bools. destruct H3 as [[[[_ E]|[_ E]]|[_ E]]|[_ E]]; try done; (eapply Hb; [exact E|lia|lia]). }
  destruct s as [|e s]; [by eapply Herr|]. destruct (four a b d e) eqn:H4; [|by eapply Herr].
  unfold str1 in H; simplify_eq. unfold four in H4. apply andb_true_iff in H4 as [H4 He]. apply andb_true_iff in H4 as [H4 Hd].
  destruct i as [|[|[|i]]]; cbn in Hg; [|injection Hg as <-; by apply Hc|injection Hg as <-; by apply Hc|done].
  injection Hg as <-. apply Hc. bools. destruct H4 as [[[_ E]|[_ E]]|[_ E]]; try done; (eapply Hb; [exact E|lia|lia]).
Qed.

Lemma get_app_l i a b : i < String.length a -> String.get i (a +:+ b) = String.get i a.
Proof. revert i. induction a as [|c a IH]; intros [|i]; cbn; try lia; [done|]. intros. apply IH. lia. Qed.

Lemma get_app_r i a b : String.length a ≤ i -> String.get i (a +:+ b) = String.get (i - String.length a) b.
Proof. revert i. induction a as [|c a IH]; intros [|i]; cbn; try lia; try done. intros. apply IH. lia. Qed.

Lemma substring_app_r n a b :
  String.length a ≤ n -> String.substring 0 n (a +:+ b) = a +:+ String.substring 0 (n - String.length a) b.
Proof.
  revert n. induction a as [|c a IH]; intros [|n]; cbn [String.length]; try lia; try done.
  rewrite !str_app_cons. cbn. intros. f_equal. apply IH. lia.
Qed.

Lemma get_Some i s : i < String.length s -> exists c, String.get i s = Some c.
Proof. revert s. induction i as [|i IH]; intros [|c s]; cbn; try lia; [by eexists|]. intros. apply IH. lia. Qed.

(** A prefix that ends before a rune is made of whole runes. *)
Lemma prefix_runes rs n :
  Forall is_rune rs -> n ≤ String.length (concat_str rs) ->
  (n = 0 \/ forall c, String.get n (concat_str rs) = Some c -> rune_start c = true) ->
  exists k, String.substring 0 n (concat_str rs) = concat_str (take k rs).
Proof.
  intros H. revert n. induction H as [|r rs Hr _ IH]; intros n Hn Hs.
  { exists 0. cbn in *. by destruct n. }
  change (concat_str (r :: rs)) with (r +:+ concat_str rs) in *. rewrite str_length_app in Hn.
  destruct (decide (n = 0)) as [->|Hn0]; [exists 0; by destruct (r +:+ _)|].
  destruct Hs as [?|Hs]; [lia|]. destruct (decide (n < String.length r)) as [Hlt|Hge].
  - exfalso. destruct (get_Some n r Hlt) as [c Hc]. specialize (Hs c). rewrite get_app_l in Hs by done.
    pose proof (rune_tail_cont r n c Hr ltac:(lia) Hc). specialize (Hs Hc). congruence.
  - rewrite substring_app_r by lia. destruct (IH (n - String.length r)) as [k Hk]; [lia| |].
    + right. intros c Hc. apply Hs. rewrite get_app_r by lia. done.
    + exists (S k). rewrite Hk. done.
Qed.

Lemma cut_back_start n s c : cut_back n s <> 0 -> String.get (cut_back n s) s = Some c -> rune_start c = true.
Proof.
  induction n as [|n IH]; [done|]. cbn [cut_back]. destruct (String.get (S n) s) as [d|] eqn:E; [|by rewrite E].
  destruct (rune_start d) eqn:Hd; [rewrite E; congruence|exact IH].
Qed.

Lemma concat_str_app a b : concat_str (a ++ b) = concat_str a +:+ concat_str b.
Proof. induction a as [|x a IH]; [done|]. cbn. rewrite <- (assoc_L String.append). by f_equal. Qed.

Lemma concat_valid rs : Forall is_rune rs -> to_valid (concat_str rs) = concat_str rs.
Proof. intros H. unfold to_valid. by rewrite runes_concat. Qed.

(** The cap never leaves half a rune. *)
Lemma capLength_valid s : to_valid s = s -> to_valid (capLength s) = capLength s.
Proof.
  intros Hs. unfold capLength. case_bool_decide; [done|].
  pose proof (runes_are_runes s) as Hr. assert (concat_str (runes s) = s) as Es by exact Hs.
  destruct (prefix_runes (runes s) (cut_back maxParamLen s) Hr) as [k Hk].
  - rewrite Es. pose proof (cut_back_le maxParamLen s). lia.
  - rewrite Es. destruct (decide (cut_back maxParamLen s = 0)); [by left|right]. intros c. by apply cut_back_start.
  - rewrite Es in Hk. rewrite Hk.
    assert (truncationMarker = concat_str (runes truncationMarker)) as -> by (vm_compute; reflexivity).
    rewrite <- concat_str_app. apply concat_valid, Forall_app. split; [by apply Forall_take|apply runes_are_runes].
Qed.

(* ------------------------------------------------------------------ *)
(** ** The properties *)

Lemma Params_of_leaf action raw p w :
  leaf_at (VObj (Params_of action raw)) p w ->
  w = VStr RedactedMarker
  \/ exists f u, f ∈ default [] (entry allowlist action) /\ path (rule_of f) = p /\ value_at (VObj raw) p u
       /\ permittedValue u (is_list (rule_of f)) = Some w.
Proof.
  intros [Ha Hw]. inversion Ha as [|k u m p' w' Hku Hu]; subst; [by edestruct Hw|].
  apply list_elem_of_In, in_map_iff in Hku as ([k' v] & [= <- <-] & Hkv). apply list_elem_of_In in Hkv.
  destruct (redactValue_leaf _ _ _ _ _ (conj Hu Hw)) as [->|(r & x & Hr & Hp & Hx & Hv)]; [by left|right].
  unfold rules_of in Hr. apply list_elem_of_In, in_map_iff in Hr as (f & <- & Hf). apply list_elem_of_In in Hf.
  exists f, x. split; [done|]. split; [done|]. split; [by econstructor|done].
Qed.

(** C25: What the audit log holds of a request: every leaf of the captured
    parameters is the marker, or one of the three the server writes, or sits at
    exactly the path of an entry of the action's allowlist, is what that entry
    permits of the value the request sent there, and is a scalar or, where the entry
    says so, a list of at most 32 of them; a text among them is cut at 256 bytes. (A
    number is not: [numbers_are_not_capped].) *)
Theorem captured_params_allowlisted b action rid pv p w :
  leaf_at (VObj (captureParams b action rid pv)) p w ->
  w = VStr RedactedMarker
  \/ (p = [RequestIDParam] /\ w = VStr rid)
  \/ (p = [AccountParam] /\ w = VStr (AccountFromPath action pv))
  \/ (p = [MachineParam] /\ w = VStr (MachineFromPath action pv))
  \/ exists f u, f ∈ default [] (entry allowlist action) /\ path (rule_of f) = p /\ value_at (VObj (readBody b)) p u
       /\ permittedValue u (is_list (rule_of f)) = Some w /\ clear_value w (is_list (rule_of f)).
Proof.
  intros [Ha Hw]. inversion Ha as [|k u m p' w' Hku Hu]; subst; [by edestruct Hw|].
  assert (forall s, value_at (VStr s) p' w -> p' = [] /\ w = VStr s) as Hs by (intros s H; by inversion H).
  assert ((k, u) ∈ Params_of action (readBody b) \/ (k = RequestIDParam /\ u = VStr rid)
          \/ (k = AccountParam /\ u = VStr (AccountFromPath action pv))
          \/ (k = MachineParam /\ u = VStr (MachineFromPath action pv))) as Hc.
  { unfold captureParams in Hku. repeat case_bool_decide; repeat (apply put_entry_in in Hku as [[= -> ->]|Hku]); auto. }
  destruct Hc as [Hin|Hc].
  2:{ destruct Hc as [[-> ->]|[[-> ->]|[-> ->]]]; apply Hs in Hu as [-> ->]; auto 7. }
  destruct (Params_of_leaf action (readBody b) (k :: p') w) as [->|(f & x & Hf & Hp & Hx & Hv)]; [|by left|].
  { split; [by econstructor|done]. }
  do 4 right. exists f, x. do 4 (split; [done|]). by eapply permittedValue_clear.
Qed.

Lemma captured_params_allowlisted_witness :
  let b := BodyRead 80 false (Some [("username", VStr "eva"); ("password", VStr "hunter2")]) in
  captureParams b "auth.login" "req-1" (fun _ => "") =
    [("username", VStr "eva"); ("password", VStr RedactedMarker); ("request_id", VStr "req-1")]
  /\ (VStr "eva" = VStr RedactedMarker
      \/ (["username"] = [RequestIDParam] /\ VStr "eva" = VStr "req-1")
      \/ (["username"] = [AccountParam] /\ VStr "eva" = VStr (AccountFromPath "auth.login" (fun _ => "")))
      \/ (["username"] = [MachineParam] /\ VStr "eva" = VStr (MachineFromPath "auth.login" (fun _ => "")))
      \/ exists f u, f ∈ default [] (entry allowlist "auth.login") /\ path (rule_of f) = ["username"]
           /\ value_at (VObj (readBody b)) ["username"] u
           /\ permittedValue u (is_list (rule_of f)) = Some (VStr "eva") /\ clear_value (VStr "eva") (is_list (rule_of f))).
Proof.
  intros b. assert (captureParams b "auth.login" "req-1" (fun _ => "") =
    [("username", VStr "eva"); ("password", VStr RedactedMarker); ("request_id", VStr "req-1")]) as E
    by (vm_compute; reflexivity). split; [exact E|].
  apply (captured_params_allowlisted b "auth.login" "req-1" (fun _ => "") ["username"] (VStr "eva")). rewrite E.
  split; [|intros m Hm; discriminate Hm]. apply (at_obj "username" (VStr "eva")); [left|constructor].
Defined.

(** The literal of a number is archived whole under a permitted name, whatever its
    length: the cap of [maxParamLen] is for texts. *)
Theorem numbers_are_not_capped l : Params_of "cluster.kubernetes-scale" [("replicas", VNum l)] = [("replicas", VNum l)].
Proof. reflexivity. Qed.

(** Five entries permit a field that is always a list or an object, without
    the list mark: the comments beside them say it is archived in clear, and
    whatever is sent there becomes the marker. *)
Theorem listed_fields_always_redacted l m :
  Params_of "cluster.kubernetes-exec" [("command", VArr l)] = [("command", VStr RedactedMarker)]
  /\ Params_of "cluster.kubernetes-set-identity" [("groups", VArr l)] = [("groups", VStr RedactedMarker)]
  /\ Params_of "cluster.kubernetes-sweep" [("items", VArr l)] = [("items", VStr RedactedMarker)]
  /\ Params_of "machine.labels" [("labels", VObj m)] = [("labels", VStr RedactedMarker)]
  /\ Params_of "machine-class.put" [("selector", VObj m)] = [("selector", VStr RedactedMarker)].
Proof. repeat split; vm_compute; reflexivity. Qed.

(** A recorded cause is a token of the taxonomy's alphabet, never free text. *)
Lemma OutcomeCause_token s : isCodeToken (OutcomeCause s) = true \/ OutcomeCause s = RedactedMarker.
Proof. unfold OutcomeCause. destruct (isCodeToken s) eqn:E; auto. Qed.
