(* ===== verification/Migrate.v ===== *)
(** * The data directory: migrations, backups and restores

    [src/internal/store/migrate/migrate.go], [backup/backup.go] and
    [backup/restore.go]: a directory is brought to the schema version of the program
    step by step, after a backup of it as it was, and VERSION is written last; an
    archive is unpacked over a directory. The operations of the file system are the
    calls; a path is its components from the root, and there are no symbolic links.
    [TarGz] is the archive format and the printing of times. *)

From S2P Require Import AuditRedact.
From S2P Require Import Prelude Effects.

(** What stands at a path: a directory, a file, or something else (a socket, a
    device). *)
Inductive entry := EDir | EFile (bytes : string) | EOther.

#[global] Instance entry_eq_dec : EqDecision entry.
Proof. solve_decision. Defined.

Abbreviation path := (list string) (only parsing).
Abbreviation tree := (gmap (list string) entry) (only parsing).

Inductive os_error := NotExist | OsErr (why : string).

(** An entry of an archive: its name, its type flag, and its contents, if they could
    be read. *)
Inductive tar_flag := TypeDir | TypeReg | TypeElse (flag : string).
Record tar_entry := mkTar { t_name : string; t_flag : tar_flag; t_bytes : string }.

Inductive FsCall : Type -> Type :=
  | ReadFile (p : path) : FsCall (result os_error string)
  (** Names, and which of them are directories. *)
  | ReadDir (p : path) : FsCall (result os_error (list (string * bool)))
  (** [DirEntry.Info]: size and time of the last change. *)
  | Info (p : path) : FsCall (result os_error (Z * time))
  (** The walk below a directory: paths relative to it, with what stands there. *)
  | WalkDir (p : path) : FsCall (result os_error (list (list string * entry)))
  | MkdirAll (p : path) : FsCall (result os_error unit)
  | CreateTemp (dir : path) (prefix : string) : FsCall (result os_error (list string))
  | OpenExcl (p : path) : FsCall (result os_error unit)
  | OpenTrunc (p : path) : FsCall (result os_error unit)
  | Write (p : path) (bytes : string) : FsCall (result os_error unit)
  (** [Chmod], [Sync] and [Close]. *)
  | Settle (p : path) : FsCall (result os_error unit)
  | Rename (from to : path) : FsCall (result os_error unit)
  | Remove (p : path) : FsCall (result os_error unit)
  | SyncDir (p : path) : FsCall (result os_error unit)
  | OpenArchive (p : path) : FsCall (result os_error unit)
  | NextEntry : FsCall (result os_error (option tar_entry))
  | Clock : FsCall time.

Class TarGz := {
  tar_gz : list (string * option string) -> string;            (* directories and files *)
  rfc3339 : time -> string;
  compact_time : time -> string                                 (* 20060102T150405Z *)
}.

Inductive data_error :=
  | ErrOs (doing : string) (e : os_error)
  | ErrVersionTooNew (version target : Z)
  | ErrVersionUnreadable (text : string)
  | ErrNoPath (from target at_ : Z)
  | ErrNotForward (from to : Z)
  | ErrNoBackup (e : data_error)
  | ErrStep (from to : Z) (e : data_error)
  | ErrReached (at_ target from : Z)
  | ErrOutsideDestination (name : string)
  | ErrNotRestored (name flag : string)
  | ErrUnsafe (e : data_error)
  | ErrFuel.

Abbreviation D A := (prog FsCall (result data_error A)) (only parsing).

Definition os {A} (doing : string) (c : FsCall (result os_error A)) : D A :=
  r ← call c; Ret (match r with Ok a => Ok a | Err e => Err (ErrOs doing e) end).

(* ------------------------------------------------------------------ *)
(** ** Names *)

Definition CurrentVersion : Z := 7.
Definition VersionFileName : string := "VERSION".
Definition DirName : string := "backups".
Definition UpgradeSnapshotsDirName : string := "upgrade-snapshots".
Definition LockFileName : string := "holzkube-manager.lock".
Definition TempFilePrefix : string := ".holzkube-manager-tmp-".

Definition Base (p : path) : string := List.last p "".
Definition is_temp (name : string) : bool := bool_decide (is_Some (cut_prefix TempFilePrefix name)).
Definition slashed (p : path) : string := join "/" p.

(* ------------------------------------------------------------------ *)
(** ** backup.go *)

Section Backup.
Context `{TarGz}.

Definition skip (rel : path) (e : entry) : bool :=
  ((bool_decide (rel = [DirName]) || bool_decide (rel = [UpgradeSnapshotsDirName])) && bool_decide (e = EDir)) ||
  bool_decide (rel = [LockFileName]) || is_temp (Base rel).

(** What the walk passes over: an entry skipped, and what is below a directory that is. *)
Definition left_out (all : list (list string * entry)) (rel : path) : bool :=
  existsb (fun '(r, e) => skip r e && (bool_decide (r = rel) || (bool_decide (e = EDir) && bool_decide (r `prefix_of` rel)))) all.

(** [writeTree]: directories and regular files. *)
Definition archived (all : list (list string * entry)) : list (string * option string) :=
  omap (fun '(rel, e) => if left_out all rel then None else
    match e with EDir => Some (slashed rel, None) | EFile bytes => Some (slashed rel, Some bytes) | EOther => None end) all.

(** Removed again when it could not be finished. *)
Definition writeArchive (p dir : path) : D unit :=
  do? os "backup: create" (OpenExcl p) ;;
  r ← (all <-? os "backup: walk" (WalkDir dir) ;;
       do? os "backup: write" (Write p (tar_gz (archived all))) ;;
       do? os "backup: fsync" (Settle p) ;;
       os "backup: close" (Settle p));
  match r with
  | Ok _ => Ret (Ok tt)
  | Err e => _ ← call (Settle p); _ ← call (Remove p); Ret (Err e)
  end.

(** Under a name made of the time. *)
Definition archive_as (dir : path) (name : time -> string) : D (list string) :=
  do? os "backup: create" (MkdirAll (dir ++ [DirName])) ;;
  now ← call Clock;
  let p := dir ++ [DirName; name now] in
  do? writeArchive p dir ;;
  Ret (Ok p).

Definition Create (dir : path) (from to : Z) : D (list string) :=
  archive_as dir (fun now => "pre-migration-" +:+ itoa from +:+ "-to-" +:+ itoa to +:+ "-" +:+ rfc3339 now +:+ ".tar.gz").

Definition CreateNamed (dir : path) (label : string) : D (list string) :=
  archive_as dir (fun now => (if bool_decide (label = "") then "manual" else label) +:+ "-" +:+ compact_time now +:+ ".tar.gz").

(* ------------------------------------------------------------------ *)
(** ** restore.go *)

(** [filepath.Clean] of an absolute path, by components. *)
Definition clean_step (acc : path) (c : string) : path :=
  if bool_decide (c = "") || bool_decide (c = ".") then acc
  else if bool_decide (c = "..") then removelast acc else acc ++ [c].
Definition clean (l : path) : path := fold_left clean_step l [].

Definition safeJoin (dir : path) (name : string) : result data_error (list string) :=
  if bool_decide (is_Some (cut_prefix "/" name)) then Err (ErrOutsideDestination name)
  else
    let target := clean (dir ++ split_on "/" name) in
    let base := clean dir in
    if bool_decide (target = base) || (negb (bool_decide (base = [])) && bool_decide (base `prefix_of` target))
    then Ok target else Err (ErrOutsideDestination name).

Definition writeFile (p : path) (bytes : string) : D unit :=
  do? os "backup: create" (MkdirAll (removelast p)) ;;
  do? os "backup: create" (OpenTrunc p) ;;
  w ← os "backup: write" (Write p bytes);
  match w with
  | Err e => _ ← call (Settle p); Ret (Err e)
  | Ok _ =>
      s ← os "backup: sync" (Settle p);
      match s with
      | Err e => _ ← call (Settle p); Ret (Err e)
      | Ok _ => os "backup: close" (Settle p)
      end
  end.

Definition restore_entry (dir : path) (t : tar_entry) : D unit :=
  match safeJoin dir (t_name t) with
  | Err e => Ret (Err e)
  | Ok target =>
      match t_flag t with
      | TypeDir => os "backup: create" (MkdirAll target)
      | TypeReg => writeFile target (t_bytes t)
      | TypeElse flag => Ret (Err (ErrNotRestored (t_name t) flag))
      end
  end.

(** The loop over an archive of at most [fuel] entries. *)
Fixpoint restore_loop (fuel : nat) (dir : path) : D unit :=
  match fuel with
  | O => Stuck
  | S fuel =>
      next <-? os "backup: read" NextEntry ;;
      match next with
      | None => os "backup: sync" (SyncDir dir)
      | Some t => do? restore_entry dir t ;; restore_loop fuel dir
      end
  end.

(** The backup of what is there, when there is something. *)
Definition safety_copy (dir : path) (safety : string) : D (option (list string)) :=
  if bool_decide (safety = "") then Ret (Ok None) else
  entries ← call (ReadDir dir);
  match entries with
  | Ok (_ :: _) =>
      c ← CreateNamed dir safety;
      Ret (match c with Ok p => Ok (Some p) | Err e => Err (ErrUnsafe e) end)
  | _ => Ret (Ok None)
  end.

Definition Restore (fuel : nat) (archive dir : path) (safety : string) : D (option (list string)) :=
  p <-? safety_copy dir safety ;;
  do? os "backup: open" (OpenArchive archive) ;;
  do? os "backup: create" (MkdirAll dir) ;;
  do? restore_loop fuel dir ;;
  Ret (Ok p).

Record Entry := mkEntry { Name : string; Path : list string; Size : Z; ModTime : time }.

(** An element put among the ones before it, which are kept from the last to the
    first: it changes places while it is newer. *)
Fixpoint sink (e : Entry) (before : list Entry) : list Entry :=
  match before with
  | [] => [e]
  | x :: r => if bool_decide (ModTime x < ModTime e)%Z then x :: sink e r else e :: before
  end.
Definition newest_first (l : list Entry) : list Entry := rev (fold_left (fun acc e => sink e acc) l []).

(** The archives among the names, with what is known of each. *)
Fixpoint backups_of (dir : path) (names : list (string * bool)) : prog FsCall (list Entry) :=
  match names with
  | [] => Ret []
  | (n, is_dir) :: names =>
      if is_dir || negb (has_suffix n ".tar.gz") then backups_of dir names
      else
        info ← call (Info (dir ++ [DirName; n]));
        rest ← backups_of dir names;
        Ret (match info with Ok (size, at_) => mkEntry n (dir ++ [DirName; n]) size at_ :: rest | Err _ => rest end)
  end.

Definition List (dir : path) : D (list Entry) :=
  entries ← call (ReadDir (dir ++ [DirName]));
  match entries with
  | Err NotExist => Ret (Ok [])
  | Err e => Ret (Err (ErrOs "backup: read" e))
  | Ok names => out ← backups_of dir names; Ret (Ok (newest_first out))
  end.

(* ------------------------------------------------------------------ *)
(** ** migrate.go *)

Record Migration := mkMigration { From : Z; To : Z; Apply : list string -> D unit }.

(** The directories a version brings, one after another. *)
Definition mkdirs (names : list string) (dir : path) : D unit :=
  each (fun name => os ("create " +:+ name) (MkdirAll (dir ++ [name]))) names.

(** The directories each version came with. *)
Definition schema : list (Z * list string) :=
  [(1, ["schematics"]); (2, ["clusters"; "cluster-secrets"; "machines"]); (3, ["jobs"]); (4, ["patches"]);
   (5, ["machine-classes"]); (6, ["config-baselines"])]%Z.
Definition migrations : list Migration := map (fun '(v, names) => mkMigration v (v + 1) (mkdirs names)) schema.

(** [plan]: at most as many rounds as there are migrations, and one. *)
Fixpoint plan_loop (fuel : nat) (migs : list Migration) (from target at_ : Z) : result data_error (list Migration) :=
  match fuel with
  | O => Err ErrFuel
  | S fuel =>
      if bool_decide (at_ = target) then Ok []
      else match list_find (fun m => From m = at_) migs with
           | None => Err (ErrNoPath from target at_)
           | Some (_, m) =>
               if bool_decide (To m <= at_)%Z then Err (ErrNotForward (From m) (To m))
               else match plan_loop fuel migs from target (To m) with
                    | Ok l => Ok (m :: l)
                    | Err e => Err e
                    end
           end
  end.
Definition plan (migs : list Migration) (from target : Z) : result data_error (list Migration) :=
  plan_loop (S (S (length migs))) migs from target from.

(** A file that is not written whole is no VERSION. *)
Definition writeVersion (dir : path) (v : Z) : D unit :=
  tmp <-? os "migrate: create temp version file" (CreateTemp dir (TempFilePrefix +:+ "version-")) ;;
  r ← (do? os "migrate: chmod temp version file" (Settle tmp) ;;
       do? os "migrate: write temp version file" (Write tmp (itoa v +:+ str1 (chr 10))) ;;
       do? os "migrate: fsync temp version file" (Settle tmp) ;;
       do? os "migrate: close temp version file" (Settle tmp) ;;
       do? os "migrate: rename version file into place" (Rename tmp (dir ++ [VersionFileName])) ;;
       os "migrate: fsync" (SyncDir dir));
  match r with
  | Ok _ => Ret (Ok tt)
  | Err e => _ ← call (Settle tmp); _ ← call (Remove tmp); Ret (Err e)
  end.

(** Runtime artefacts are no records, and neither are directories. *)
Definition is_record (all : list (list string * entry)) (rel : path) (e : entry) : bool :=
  negb (bool_decide (e = EDir)) &&
  negb (existsb (fun '(r, d) => bool_decide (r = [DirName]) && bool_decide (d = EDir) && bool_decide (r `prefix_of` rel)) all) &&
  negb (bool_decide (Base rel = LockFileName) || bool_decide (Base rel = VersionFileName) || is_temp (Base rel)).
Definition isEmpty (all : list (list string * entry)) : bool := negb (existsb (fun '(rel, e) => is_record all rel e) all).

Definition readVersion (dir : path) (target : Z) : D Z :=
  raw ← call (ReadFile (dir ++ [VersionFileName]));
  match raw with
  | Err NotExist =>
      all <-? os "migrate: inspect" (WalkDir dir) ;;
      let v := if isEmpty all then target else 1%Z in
      do? writeVersion dir v ;;
      Ret (Ok v)
  | Err e => Ret (Err (ErrOs "migrate: read" e))
  | Ok text =>
      match atoi (trim_space text) with
      | Some v => if bool_decide (v < 1)%Z then Ret (Err (ErrVersionUnreadable (trim_space text))) else Ret (Ok v)
      | None => Ret (Err (ErrVersionUnreadable (trim_space text)))
      end
  end.

(** The planned steps in order; the version reached. *)
Fixpoint apply_all (dir : path) (ms : list Migration) (at_ : Z) : D Z :=
  match ms with
  | [] => Ret (Ok at_)
  | m :: ms =>
      r ← Apply m dir;
      match r with
      | Err e => Ret (Err (ErrStep (From m) (To m) e))
      | Ok _ => apply_all dir ms (To m)
      end
  end.

Definition run_to (dir : path) (migs : list Migration) (target : Z) : D unit :=
  from <-? readVersion dir target ;;
  if bool_decide (target < from)%Z then Ret (Err (ErrVersionTooNew from target))
  else if bool_decide (from = target) then Ret (Ok tt)
  else match plan migs from target with
       | Err e => Ret (Err e)
       | Ok planned =>
           b ← Create dir from target;
           match b with
           | Err e => Ret (Err (ErrNoBackup e))
           | Ok _ =>
               at_ <-? apply_all dir planned from ;;
               if negb (bool_decide (at_ = target)) then Ret (Err (ErrReached at_ target from))
               else writeVersion dir target
           end
       end.

Definition Run (dir : path) : D unit := run_to dir migrations CurrentVersion.
End Backup.
