(* ===== verification/MigrateSafety.v ===== *)
(** * What a data directory survives

    The file system the operations of [Migrate.v] run on, with every failure and a
    stop after any operation. A directory brought to the schema of the program over
    any number of starts keeps every record it had, is marked with a version only
    when it has all that version came with, and holds a backup of the records before
    anything in it was changed; a restore writes nothing outside its destination. *)

From S2P Require Import Prelude Effects Migrate.

(** What the environment chooses for one operation. *)
Record dchoice := mkDChoice {
  d_fail : option string;
  d_short : string;                      (* what a failed write left *)
  d_made : nat;                          (* how many directories a failed MkdirAll made *)
  d_temp : string;
  d_now : time;
  d_info : Z * time;
  d_entry : result os_error (option tar_entry) }.

(** Below a directory: paths relative to it. *)
Definition relative (dir p : path) : option (list string) :=
  if bool_decide (dir `prefix_of` p) then match drop (length dir) p with [] => None | rel => Some rel end else None.
Definition below (dir : path) (t : tree) : list (list string * entry) :=
  omap (fun '(p, e) => rel ← relative dir p; Some (rel, e)) (map_to_list t).

(** The directories on the way to a path, each made when it is not there, until
    something else stands in the way. *)
Fixpoint make_dirs (ps : list path) (t : tree) : bool * tree :=
  match ps with
  | [] => (true, t)
  | p :: ps => match t !! p with
               | None => make_dirs ps (<[p := EDir]> t)
               | Some EDir => make_dirs ps t
               | Some _ => (false, t)
               end
  end.
Definition ways (p : path) : list path := map (fun n => take (S n) p) (seq 0 (length p)).

Definition fs_act (R : Type) (c : FsCall R) (x : dchoice) (t : tree) : R * tree :=
  match c in FsCall R return R * tree with
  | ReadFile p =>
      (match d_fail x with
       | Some why => Err (OsErr why)
       | None => match t !! p with Some (EFile s) => Ok s | Some _ => Err (OsErr "not a file") | None => Err NotExist end
       end, t)
  | ReadDir p =>
      (match d_fail x with
       | Some why => Err (OsErr why)
       | None => match t !! p with
                 | Some EDir => Ok (omap (fun '(rel, e) => match rel with [n] => Some (n, bool_decide (e = EDir)) | _ => None end) (below p t))
                 | Some _ => Err (OsErr "not a directory")
                 | None => Err NotExist
                 end
       end, t)
  | WalkDir p =>
      (match d_fail x, t !! p with
       | Some why, _ => Err (OsErr why)
       | None, None => Err NotExist
       | None, Some _ => Ok (below p t)
       end, t)
  | Info p => (match d_fail x with Some why => Err (OsErr why) | None => Ok (d_info x) end, t)
  | MkdirAll p =>
      match d_fail x with
      | Some why => (Err (OsErr why), (make_dirs (take (d_made x) (ways p)) t).2)
      | None => match make_dirs (ways p) t with (true, t') => (Ok tt, t') | (false, t') => (Err (OsErr "not a directory"), t') end
      end
  | CreateTemp dir prefix =>
      let p := dir ++ [prefix +:+ d_temp x] in
      match d_fail x, t !! p with
      | None, None => (Ok p, <[p := EFile ""]> t)
      | _, _ => (Err (OsErr "no temporary file"), t)
      end
  | OpenExcl p =>
      match d_fail x, t !! p with
      | None, None => (Ok tt, <[p := EFile ""]> t)
      | _, _ => (Err (OsErr "not created"), t)
      end
  | OpenTrunc p =>
      match d_fail x, t !! p with
      | Some why, _ => (Err (OsErr why), t)
      | None, Some EDir => (Err (OsErr "is a directory"), t)
      | None, Some EOther => (Ok tt, t)
      | None, _ => (Ok tt, <[p := EFile ""]> t)
      end
  | Write p bytes =>
      match d_fail x, t !! p with
      | Some why, Some (EFile _) => (Err (OsErr why), <[p := EFile (d_short x)]> t)
      | Some why, _ => (Err (OsErr why), t)
      | None, Some (EFile _) => (Ok tt, <[p := EFile bytes]> t)
      | None, _ => (Ok tt, t)
      end
  | Rename from to =>
      match d_fail x, t !! from, t !! to with
      | None, Some (EFile s), Some EDir => (Err (OsErr "is a directory"), t)
      | None, Some (EFile s), _ => (Ok tt, <[to := EFile s]> (delete from t))
      | _, _, _ => (Err (OsErr "not renamed"), t)
      end
  | Remove p =>
      match d_fail x, t !! p with
      | None, Some (EFile _) => (Ok tt, delete p t)
      | _, _ => (Err (OsErr "not removed"), t)
      end
  | Settle _ | SyncDir _ | OpenArchive _ => (match d_fail x with Some why => Err (OsErr why) | None => Ok tt end, t)
  | NextEntry => (d_entry x, t)
  | Clock => (d_now x, t)
  end.
#[global] Instance fs_handler : Handler FsCall tree dchoice := fs_act.

#[local] Arguments wp : simpl never.
Abbreviation fwp := (wp (W := tree) (X := dchoice) (fun _ => True)) (only parsing).

(* ------------------------------------------------------------------ *)
(** ** Single operations *)

Section Operations.
Implicit Types (J K : tree -> Prop) (t : tree).

(** Operations that change nothing. *)
Definition looks {R} (c : FsCall R) : Prop :=
  match c with
  | ReadFile _ | ReadDir _ | Info _ | WalkDir _ | Settle _ | SyncDir _ | OpenArchive _ | NextEntry | Clock => True
  | _ => False
  end.

Lemma looks_same {R} (c : FsCall R) x t : looks c -> (act c x t).2 = t.
Proof. by destruct c. Qed.

Lemma wp_look {A R} J (c : FsCall R) (k : R -> prog FsCall A) Q t :
  looks c -> J t -> (forall r, fwp J (k r) Q t) -> fwp J (Act c k) Q t.
Proof. intros Hc Ht Hk. apply wp_act; [done|]. intros x _. rewrite (looks_same c x t Hc). apply Hk. Qed.

Lemma wp_os {A B} J doing (c : FsCall (result os_error A)) (f : A -> D B) Q t :
  J t -> (forall x, J (act c x t).2 /\ match (act c x t).1 with Ok a => fwp J (f a) Q (act c x t).2 | Err e => Q (Err (ErrOs doing e)) (act c x t).2 end) ->
  fwp J (try f (os doing c)) Q t.
Proof.
  intros Ht Hc. apply wp_try, wp_act; [done|]. intros x _. destruct (Hc x) as [Hj Hq].
  destruct (act c x t) as [[a|e] t']; cbn [fst snd] in *; by apply wp_ret.
Qed.

Lemma wp_os_look {A B} J doing (c : FsCall (result os_error A)) (f : A -> D B) Q t :
  looks c -> J t -> (forall a, fwp J (f a) Q t) -> (forall e, Q (Err e) t) -> fwp J (try f (os doing c)) Q t.
Proof.
  intros Hc Ht Hf He. apply wp_os; [done|]. intros x. rewrite (looks_same c x t Hc). split; [done|]. by destruct (act c x t).1.
Qed.

(** Directories are made on the way, and nothing else happens. *)
Lemma make_dirs_spec J ps t :
  (forall p u, p ∈ ps -> u !! p = None -> J u -> J (<[p := EDir]> u)) -> J t ->
  J (make_dirs ps t).2 /\ ((make_dirs ps t).1 = true -> forall p, p ∈ ps -> (make_dirs ps t).2 !! p = Some EDir) /\
  (forall p, t !! p = Some EDir -> (make_dirs ps t).2 !! p = Some EDir).
Proof.
  revert t. induction ps as [|p ps IH]; intros t HJ Ht; cbn [make_dirs].
  { split_and!; [done| |done]. intros _ q Hq. by apply not_elem_of_nil in Hq. }
  assert (HJ' : forall q u, q ∈ ps -> u !! q = None -> J u -> J (<[q := EDir]> u)) by (intros q u Hq; apply HJ; by apply list_elem_of_further).
  destruct (t !! p) as [[| |]|] eqn:E.
  - destruct (IH t HJ' Ht) as (H1 & H2 & H3). split_and!; [done| |done]. intros Hm q [->|Hq]%elem_of_cons; [by apply H3|by apply H2].
  - split_and!; done.
  - split_and!; done.
  - destruct (IH (<[p := EDir]> t) HJ') as (H1 & H2 & H3); [apply HJ; [apply list_elem_of_here|done|done]|]. split_and!; [done| |].
    + intros Hm q [->|Hq]%elem_of_cons; [apply H3; by apply lookup_insert_eq|by apply H2].
    + intros q Hq. apply H3. rewrite lookup_insert_ne; [done|]. intros ->. congruence.
Qed.

Lemma ways_prefix p q : q ∈ ways p -> q `prefix_of` p.
Proof. unfold ways. intros (n & -> & _)%list_elem_of_fmap. apply prefix_take. Qed.
Lemma ways_last p : p <> [] -> p ∈ ways p.
Proof.
  intros Hp. unfold ways. apply list_elem_of_fmap. exists (pred (length p)). destruct p as [|a p]; [done|]. cbn [length pred]. split.
  - symmetry. apply (firstn_all (a :: p)).
  - apply elem_of_seq. cbn. lia.
Qed.

Lemma wp_mkdir {B} J doing p (f : unit -> D B) Q t :
  p <> [] -> (forall q u, q `prefix_of` p -> u !! q = None -> J u -> J (<[q := EDir]> u)) -> J t ->
  (forall u, J u -> u !! p = Some EDir -> fwp J (f tt) Q u) -> (forall e u, J u -> Q (Err e) u) ->
  fwp J (try f (os doing (MkdirAll p))) Q t.
Proof.
  intros Hp HJ Ht Hf He. apply wp_os; [done|]. intros x. unfold act, fs_handler, fs_act.
  assert (HJ' : forall ps, ps ⊆ ways p -> forall q u, q ∈ ps -> u !! q = None -> J u -> J (<[q := EDir]> u))
    by (intros ps Hps q u Hq; apply HJ, ways_prefix, Hps, Hq).
  destruct (d_fail x) as [why|].
  - destruct (make_dirs_spec J (take (d_made x) (ways p)) t) as (H1 & _); [apply HJ', list.subseteq_take|done|]. cbn [fst snd]. auto.
  - destruct (make_dirs_spec J (ways p) t) as (H1 & H2 & _); [by apply HJ'|done|].
    destruct (make_dirs (ways p) t) as [[|] u]; cbn [fst snd] in *; split; auto. apply Hf; [done|]. apply H2; [done|]. by apply ways_last.
Qed.

Lemma wp_os_last {A} J doing (c : FsCall (result os_error A)) Q t :
  J t -> (forall x, J (act c x t).2 /\ match (act c x t).1 with Ok a => Q (Ok a) (act c x t).2 | Err e => Q (Err (ErrOs doing e)) (act c x t).2 end) ->
  fwp J (os doing c) Q t.
Proof.
  intros Ht Hc. apply wp_act; [done|]. intros x _. destruct (Hc x) as [Hj Hq].
  destruct (act c x t) as [[a|e] t']; cbn [fst snd] in *; by apply wp_ret.
Qed.

Lemma wp_os_last_look {A} J doing (c : FsCall (result os_error A)) Q t :
  looks c -> J t -> (forall a, Q (Ok a) t) -> (forall e, Q (Err e) t) -> fwp J (os doing c) Q t.
Proof.
  intros Hc Ht Ho He. apply wp_os_last; [done|]. intros x. rewrite (looks_same c x t Hc). split; [done|]. by destruct (act c x t).1.
Qed.
End Operations.

(* ------------------------------------------------------------------ *)
(** ** What is kept and what appears *)

Section Directory.
Context `{TarGz} (dir : list string).
Implicit Types (w v u t : tree) (A B : list string -> Prop).

Abbreviation V := (dir ++ [VersionFileName]).

(** The paths a migration makes beside the directories of the schema. *)
Definition scaffold (p : list string) : Prop :=
  p = V \/ p = dir ++ [DirName] \/ (exists n, p = dir ++ [DirName; n]) \/ exists n, is_temp n = true /\ p = dir ++ [n].
Definition schema_dirs : list string := concat (map snd schema).
Definition in_layout (p : list string) : Prop := scaffold p \/ exists n, n ∈ schema_dirs /\ p = dir ++ [n].

(** Everything there but VERSION is as it was, and what is new is in [A]. *)
Definition ext A w v : Prop :=
  (forall p e, w !! p = Some e -> p <> V -> v !! p = Some e) /\ (forall p, w !! p = None -> is_Some (v !! p) -> A p).
Definition step A w v : Prop := ext A w v /\ v !! V = w !! V.

Lemma tree_ext_refl A w : ext A w w.
Proof. split; [done|]. intros p -> [? [=]]. Qed.
Lemma tree_ext_trans A w v u : ext A w v -> ext A v u -> ext A w u.
Proof.
  intros [H1 H2] [H3 H4]. split; [naive_solver|]. intros p Hw Hu. destruct (v !! p) eqn:E; [|by apply H4]. apply H2; [done|]. by rewrite E.
Qed.
Lemma ext_weaken A B w v : (forall p, A p -> B p) -> ext A w v -> ext B w v.
Proof. intros HAB [H1 H2]. split; [done|]. auto. Qed.
Lemma ext_put A w v p e : ext A w v -> w !! p = None \/ p = V -> A p -> ext A w (<[p := e]> v).
Proof.
  intros [H1 H2] Hp HA. split.
  - intros q f Hq Hne. rewrite lookup_insert_ne; [by apply H1|]. intros ->. destruct Hp; congruence.
  - intros q Hq. destruct (decide (p = q)) as [->|]; [done|]. rewrite lookup_insert_ne by done. by apply H2.
Qed.
Lemma ext_delete A w v p : ext A w v -> w !! p = None -> ext A w (delete p v).
Proof.
  intros [H1 H2] Hp. split.
  - intros q f Hq Hne. rewrite lookup_delete_ne; [by apply H1|]. intros ->. congruence.
  - intros q Hq. destruct (decide (p = q)) as [->|]; [rewrite lookup_delete_eq; by intros [? [=]]|]. rewrite lookup_delete_ne by done. by apply H2.
Qed.
Lemma ext_fresh A w v p : ext A w v -> v !! p = None -> p <> V -> w !! p = None.
Proof. intros [H1 _] Hv Hne. destruct (w !! p) eqn:E; [|done]. apply H1 in E; [congruence|done]. Qed.

Lemma step_refl A w : step A w w.
Proof. split; [apply tree_ext_refl|done]. Qed.
Lemma step_trans A w v u : step A w v -> step A v u -> step A w u.
Proof. intros [H1 H2] [H3 H4]. split; [by eapply tree_ext_trans|congruence]. Qed.
Lemma step_weaken A B w v : (forall p, A p -> B p) -> step A w v -> step B w v.
Proof. intros HAB [H1 H2]. split; [by eapply ext_weaken|done]. Qed.
Lemma step_put A w v p e : step A w v -> w !! p = None -> p <> V -> A p -> step A w (<[p := e]> v).
Proof. intros [H1 H2] Hp Hne HA. split; [apply ext_put; auto|]. by rewrite lookup_insert_ne. Qed.
Lemma step_delete A w v p : step A w v -> w !! p = None -> p <> V -> step A w (delete p v).
Proof. intros [H1 H2] Hp Hne. split; [by apply ext_delete|]. by rewrite lookup_delete_ne. Qed.

(** What a part of a program does, seen from the beginning of the whole. *)
Lemma wp_after {T} A w u (p : prog FsCall T) (Q Q' : T -> tree -> Prop) :
  step A w u -> fwp (step A u) p Q' u -> (forall r v, step A u v -> Q' r v -> Q r v) -> fwp (step A w) p Q u.
Proof. intros Hs Hp HQ. eapply wp_mono; [exact Hp| |done]. intros v Hv. by eapply step_trans. Qed.

(** Every directory on the way to [dir] is there. *)
Definition rooted w : Prop := forall q, q `prefix_of` dir -> w !! q = Some EDir.

Lemma prefix_not_V q : q `prefix_of` dir -> q <> V.
Proof. intros Hq ->. apply prefix_length in Hq. rewrite length_app in Hq. cbn in Hq. lia. Qed.
Lemma rooted_ext A w v : rooted w -> ext A w v -> rooted v.
Proof. intros Hw [H1 _] q Hq. apply H1; [by apply Hw|by apply prefix_not_V]. Qed.

Lemma prefix_snoc (q l : list string) n : q `prefix_of` l ++ [n] -> q `prefix_of` l \/ q = l ++ [n].
Proof.
  revert l. induction q as [|a q IH]; intros l Hq; [left; apply prefix_nil|]. destruct l as [|b l].
  - cbn in Hq. right. destruct Hq as [k Hk]. injection Hk as -> Hk. destruct q; [done|]. destruct q; cbn in Hk; congruence.
  - cbn in Hq. pose proof (prefix_cons_inv_1 _ _ _ _ Hq) as ->. apply prefix_cons_inv_2 in Hq. destruct (IH _ Hq) as [Hp| ->].
    + left. by apply prefix_cons.
    + by right.
Qed.

(** A directory made in [dir]. *)
Lemma wp_mkdir_in {T} A doing n (f : unit -> D T) Q w :
  rooted w -> n <> VersionFileName -> A (dir ++ [n]) ->
  (forall u, step A w u -> u !! (dir ++ [n]) = Some EDir -> fwp (step A w) (f tt) Q u) -> (forall e u, step A w u -> Q (Err e) u) ->
  fwp (step A w) (try f (os doing (MkdirAll (dir ++ [n])))) Q w.
Proof.
  intros Hr Hn HA Hf He. apply wp_mkdir; [by destruct dir| |apply step_refl|done|done].
  intros q u Hq Hu Hs. assert (Hne : dir ++ [n] <> V) by (intros Heq%app_inv_head; congruence).
  destruct (prefix_snoc _ _ _ Hq) as [Hp| ->].
  - pose proof (rooted_ext _ _ _ Hr (proj1 Hs) q Hp). congruence.
  - apply step_put; [done| |done|done]. by eapply ext_fresh; [apply Hs| |].
Qed.
(* ------------------------------------------------------------------ *)
(** ** Backups *)

(** A path under which records are kept: not of the backups, the snapshots, the lock
    or a half-written file. *)
Definition ordinary (rel : list string) : bool :=
  match rel with
  | [] => false
  | n :: _ => negb (bool_decide (n ∈ [DirName; UpgradeSnapshotsDirName; LockFileName])) && forallb (fun c => negb (is_temp c)) rel
  end.

(** One of the archives in [backups] holds every record of [w]. *)
Definition holds_backup w v : Prop :=
  exists n l, v !! (dir ++ [DirName; n]) = Some (EFile (tar_gz l)) /\
    forall rel bytes, ordinary rel -> rel <> [VersionFileName] -> w !! (dir ++ rel) = Some (EFile bytes) ->
      (slashed rel, Some bytes) ∈ l.

Lemma below_elem rel e w : (rel, e) ∈ below dir w <-> rel <> [] /\ w !! (dir ++ rel) = Some e.
Proof.
  unfold below. rewrite list_elem_of_omap. split.
  - intros ([p f] & Hp%elem_of_map_to_list & Hr). unfold relative in Hr. case_bool_decide as Hd; [|done].
    destruct Hd as [k ->]. rewrite drop_app_length in Hr. destruct k; [done|]. injection Hr as <- <-. done.
  - intros [Hne Hw]. exists (dir ++ rel, e). split; [by apply elem_of_map_to_list|]. unfold relative.
    rewrite bool_decide_true by (by exists rel). rewrite drop_app_length. by destruct rel.
Qed.

Lemma ordinary_no_temp rel c : ordinary rel -> c ∈ rel -> is_temp c = false.
Proof.
  destruct rel as [|n rel]; [done|]. unfold ordinary. intros [_ Hf]%Is_true_true%andb_prop Hc.
  rewrite forallb_forall in Hf. apply list_elem_of_In in Hc. apply Hf in Hc. by apply negb_true_iff.
Qed.
Lemma Base_elem (rel : list string) : rel <> [] -> Base rel ∈ rel.
Proof.
  intros Hne. unfold Base. destruct (exists_last Hne) as (l & a & ->). rewrite last_last. apply elem_of_app. right. apply list_elem_of_here.
Qed.

Lemma ordinary_archived all rel bytes :
  ordinary rel -> (rel, EFile bytes) ∈ all -> (forall r e, (r, e) ∈ all -> r <> []) -> (slashed rel, Some bytes) ∈ archived all.
Proof.
  intros Ho Hin Hall. unfold archived. apply list_elem_of_omap. exists (rel, EFile bytes). split; [done|].
  assert (left_out all rel = false) as ->; [|done]. unfold left_out. apply not_true_iff_false. intros Hl.
  apply existsb_exists in Hl as ([r e] & Hr & Hl). apply list_elem_of_In in Hr. pose proof (Hall _ _ Hr) as Hne.
  apply andb_prop in Hl as [Hs Hp].
  assert (r `prefix_of` rel) as Hpre.
  { apply orb_prop in Hp as [Hp|[_ Hp]%andb_prop]; apply bool_decide_eq_true in Hp; [by rewrite Hp|done]. }
  assert (is_temp (Base r) = false) as Ht.
  { apply (ordinary_no_temp rel); [done|]. destruct Hpre as [k ->]. apply elem_of_app. left. by apply Base_elem. }
  unfold skip in Hs. rewrite Ht, orb_false_r in Hs. destruct rel as [|n rel]; [done|].
  apply Is_true_true, andb_prop in Ho as [Ho _]. apply negb_true_iff, bool_decide_eq_false in Ho. apply Ho.
  destruct r as [|m r]; [done|]. pose proof (prefix_cons_inv_1 _ _ _ _ Hpre) as ->.
  apply orb_prop in Hs as [[Hs _]%andb_prop|Hs]; [apply orb_prop in Hs as [Hs|Hs]|]; apply bool_decide_eq_true in Hs; injection Hs as -> ->; set_solver.
Qed.

Lemma archive_holds w u v p :
  ext scaffold w u -> v !! p = Some (EFile (tar_gz (archived (below dir u)))) -> (exists n, p = dir ++ [DirName; n]) -> holds_backup w v.
Proof.
  intros Hs Hv [n ->]. exists n, (archived (below dir u)). split; [done|]. intros rel bytes Ho Hne Hw.
  apply ordinary_archived; [done| |by intros r e [Hr _]%below_elem].
  apply below_elem. split; [by destruct rel|]. apply Hs; [done|]. by intros ?%app_inv_head.
Qed.
(** A new file under a name nobody has, removed again when it could not be finished. *)
Lemma wp_writeArchive w n :
  rooted w ->
  fwp (step scaffold w) (writeArchive (dir ++ [DirName; n]) dir) (fun r v => match r with Ok _ => holds_backup w v | Err _ => True end) w.
Proof.
  intros Hr. set (p := dir ++ [DirName; n]). assert (HpV : p <> V) by (by intros ?%app_inv_head).
  assert (HpA : scaffold p) by (right; right; left; by exists n).
  apply wp_os; [apply step_refl|]. intros x. unfold act, fs_handler, fs_act.
  destruct (d_fail x); [by split; [apply step_refl|]|]. destruct (w !! p) eqn:Hp; [by split; [apply step_refl|]|]. cbn [fst snd].
  set (w1 := <[p := EFile ""]> w). assert (H1 : step scaffold w w1) by (apply step_put; auto using step_refl).
  assert (Hw1 : w1 !! p = Some (EFile "")) by apply lookup_insert_eq.
  split; [done|]. apply wp_bind. eapply wp_post.
  - apply (wp_os _ _ _ _ (fun r v => match r with Ok _ => holds_backup w v | Err _ => True end)); [done|].
    intros y. unfold act, fs_handler, fs_act. destruct (d_fail y); [done|].
    assert (Hd : w1 !! dir = Some EDir) by (eapply rooted_ext; [done|apply H1|done]). rewrite Hd. cbn [fst snd]. split; [done|].
    apply wp_os; [done|]. intros z. unfold act, fs_handler, fs_act. rewrite Hw1. destruct (d_fail z); cbn [fst snd].
    { split; [|done]. by apply step_put. }
    assert (H2 : step scaffold w (<[p:=EFile (tar_gz (archived (below dir w1)))]> w1)) by (by apply step_put).
    split; [done|]. apply wp_os_look; [done|done| |done]. intros _. apply wp_os_last_look; [done|done| |done]. intros _.
    eapply archive_holds; [apply H1|apply lookup_insert_eq|by exists n].
  - intros [u|e] v Hs Hv; cbn beta iota; [by apply wp_ret|].
    apply wp_look; [done|done|]. intros _. apply wp_act; [done|]. intros y _. apply wp_ret; [|done].
    unfold act, fs_handler, fs_act. destruct (d_fail y); [done|]. destruct (v !! p) as [[| |]|]; try done. by apply step_delete.
Qed.

Lemma wp_archive_as w (name : time -> string) :
  rooted w -> fwp (step scaffold w) (archive_as dir name) (fun r v => match r with Ok _ => holds_backup w v | Err _ => True end) w.
Proof.
  intros Hr. apply wp_mkdir_in; [done|done|by right; left| |done]. intros u Hu _. apply wp_look; [done|done|]. intros now.
  eapply wp_try, wp_after; [done| |].
  - apply wp_writeArchive. eapply rooted_ext; [done|apply Hu].
  - intros [[]|e] v Hv Hq; [|done]. apply wp_ret; [by eapply step_trans|]. destruct Hq as (m & l & H1 & H2). exists m, l. split; [done|].
    intros rel bytes Ho Hne Hw. apply H2; [done|done|]. apply Hu; [done|]. by intros ?%app_inv_head.
Qed.

(* ------------------------------------------------------------------ *)
(** ** VERSION *)

Definition version_text (n : Z) : string := itoa n +:+ str1 (chr 10).

(** VERSION is the old one or the new one at every moment. *)
Definition versioned (n : Z) w v : Prop :=
  ext scaffold w v /\ (v !! V = w !! V \/ v !! V = Some (EFile (version_text n))).

Lemma is_temp_made s : is_temp (TempFilePrefix +:+ s) = true.
Proof. unfold is_temp. rewrite cut_prefix_app. by apply bool_decide_eq_true. Qed.

Lemma temp_scaffold s : scaffold (dir ++ [TempFilePrefix +:+ s]) /\ dir ++ [TempFilePrefix +:+ s] <> V.
Proof.
  split; [right; right; right; eexists; split; [apply is_temp_made|done]|].
  intros Heq%app_inv_head. injection Heq as Heq. pose proof (is_temp_made s) as Ht. rewrite Heq in Ht. by vm_compute in Ht.
Qed.

Lemma wp_writeVersion w n :
  fwp (versioned n w) (writeVersion dir n)
    (fun r v => match r with Ok _ => v !! V = Some (EFile (version_text n)) | Err _ => True end) w.
Proof.
  assert (H0 : versioned n w w) by (split; [apply tree_ext_refl|by left]).
  apply wp_os; [done|]. intros x. unfold act, fs_handler, fs_act.
  rewrite <- (assoc_L String.append). destruct (temp_scaffold ("version-" +:+ d_temp x)) as [HA HV].
  set (tmp := dir ++ [TempFilePrefix +:+ "version-" +:+ d_temp x]) in *.
  destruct (d_fail x); [done|]. destruct (w !! tmp) eqn:Hp; [done|]. cbn [fst snd].
  assert (Hput : forall v s, versioned n w v -> versioned n w (<[tmp := EFile s]> v)).
  { intros v s [H1 H2]. split; [apply ext_put; auto|]. by rewrite lookup_insert_ne. }
  assert (Hdel : forall v, versioned n w v -> versioned n w (delete tmp v)).
  { intros v [H1 H2]. split; [by apply ext_delete|]. by rewrite lookup_delete_ne. }
  set (w1 := <[tmp := EFile ""]> w). assert (Hw1 : w1 !! tmp = Some (EFile "")) by apply lookup_insert_eq.
  assert (H1 : versioned n w w1) by (by apply Hput). split; [done|]. apply wp_bind. eapply wp_post.
  - apply wp_os_look with (Q := fun r v => match r with Ok _ => v !! V = Some (EFile (version_text n)) | Err _ => True end); [done|done| |done]. intros _.
    apply wp_os; [done|]. intros y. unfold act, fs_handler, fs_act. rewrite Hw1. destruct (d_fail y); cbn [fst snd]; [by auto|].
    split; [by apply Hput|]. apply wp_os_look; [done|by apply Hput| |done]. intros _. apply wp_os_look; [done|by apply Hput| |done]. intros _.
    apply wp_os; [by apply Hput|]. intros z. unfold act, fs_handler, fs_act. rewrite lookup_insert_eq.
    destruct (d_fail z); [by split; [apply Hput|]|]. fold (version_text n).
    set (w2 := <[tmp := EFile (version_text n)]> w1). assert (H2 : versioned n w w2) by (by apply Hput).
    assert (H3 : versioned n w (<[V := EFile (version_text n)]> (delete tmp w2))).
    { split; [|right; apply lookup_insert_eq]. apply ext_put; [by apply Hdel|by right|by left]. }
    assert (Hlast : forall v, versioned n w v -> v !! V = Some (EFile (version_text n)) ->
      fwp (versioned n w) (os "migrate: fsync" (SyncDir dir))
        (fun r v => match r with Ok _ => v !! V = Some (EFile (version_text n)) | Err _ => True end) v)
      by (intros v Hv Hq; by apply wp_os_last_look).
    destruct (w2 !! V) as [[| |]|]; cbn [fst snd]; [done|..]; (split; [done|apply Hlast; [done|apply lookup_insert_eq]]).
  - intros [u|e] v Hs Hv; cbn beta iota; [by apply wp_ret|].
    apply wp_look; [done|done|]. intros _. apply wp_act; [done|]. intros y _. apply wp_ret; [|done].
    unfold act, fs_handler, fs_act. destruct (d_fail y); [done|]. destruct (v !! tmp) as [[| |]|]; try done. by apply Hdel.
Qed.
(* ------------------------------------------------------------------ *)
(** ** The steps *)

Definition have (names : list string) w : Prop := forall n, n ∈ names -> w !! (dir ++ [n]) = Some EDir.
(** Every directory the versions before [n] brought. *)
Definition complete (n : Z) w : Prop := forall m names, (m, names) ∈ schema -> (m < n)%Z -> have names w.

Lemma have_ext A names w v : VersionFileName ∉ names -> ext A w v -> have names w -> have names v.
Proof. intros Hn [H1 _] Hw n Hin. apply H1; [by apply Hw|]. intros Heq%app_inv_head. congruence. Qed.

Lemma schema_no_version m names : (m, names) ∈ schema -> (VersionFileName ∉ names) /\ (names ⊆ schema_dirs).
Proof.
  intros Hin. unfold schema_dirs. split.
  - intros Hv. assert (VersionFileName ∈ concat (map snd schema)) as Hc; [|by vm_compute in Hc; set_solver].
    apply list_elem_of_In, in_concat. exists names. split; [|by apply list_elem_of_In]. apply in_map_iff. exists (m, names). by split; [|apply list_elem_of_In].
  - intros n Hn. apply list_elem_of_In, in_concat. exists names. split; [|by apply list_elem_of_In]. apply in_map_iff. exists (m, names). by split; [|apply list_elem_of_In].
Qed.
Lemma complete_ext A n w v : ext A w v -> complete n w -> complete n v.
Proof. intros He Hc m names Hin Hm. eapply have_ext; [by eapply schema_no_version|done|by eapply Hc]. Qed.

Lemma wp_mkdirs names w :
  rooted w -> VersionFileName ∉ names -> names ⊆ schema_dirs ->
  fwp (step in_layout w) (mkdirs names dir) (fun r v => match r with Ok _ => have names v | Err _ => True end) w.
Proof.
  revert w. unfold mkdirs. induction names as [|n names IH]; intros w Hr Hv Hs; cbn [each].
  { apply wp_ret; [apply step_refl|]. intros n Hn. by apply not_elem_of_nil in Hn. }
  apply wp_mkdir_in; [done|set_solver|right; exists n; split; [set_solver|done]| |done]. intros u Hu Hn.
  assert (Hru : rooted u) by (eapply rooted_ext; [done|apply Hu]).
  assert (Hv' : VersionFileName ∉ names) by set_solver. assert (Hs' : names ⊆ schema_dirs) by set_solver.
  eapply wp_after; [done|by apply IH|]. intros [[]|e] v Hs2 Hq; [|done]. intros k [->|Hk]%elem_of_cons; [|by apply Hq].
  apply Hs2; [done|]. intros Heq%app_inv_head. set_solver.
Qed.

(** A part of the schema, applied. *)
Lemma wp_apply_all w l at_ :
  rooted w -> l ⊆ schema ->
  fwp (step in_layout w) (apply_all dir (map (fun '(v, names) => mkMigration v (v + 1) (mkdirs names)) l) at_)
    (fun r v => match r with Ok z => z = fold_left (fun _ '(m, _) => (m + 1)%Z) l at_ /\ forall m names, (m, names) ∈ l -> have names v | Err _ => True end) w.
Proof.
  revert w at_. induction l as [|[m names] l IH]; intros w at_ Hr Hl; cbn [map apply_all fold_left].
  { apply wp_ret; [apply step_refl|]. split; [done|]. intros m names Hn. by apply not_elem_of_nil in Hn. }
  destruct (schema_no_version m names) as [Hv Hs]; [set_solver|].
  apply wp_bind. eapply wp_post; [by apply wp_mkdirs|]. intros [[]|e] u Hu Hq; cbn beta iota; [|by apply wp_ret].
  eapply wp_after; [done|apply IH; [by eapply rooted_ext; [|apply Hu]|set_solver]|].
  intros [z|e] v Hs2 Hq2; [|done]. destruct Hq2 as [-> Hq2]. split; [done|]. intros k ks [[= -> ->]|Hk]%elem_of_cons; [|by eapply Hq2].
  eapply have_ext; [done|apply Hs2|done].
Qed.

(** The plan from a version of the schema to the one of the program. *)
Lemma plan_schema from :
  (1 <= from < 7)%Z -> exists l, plan migrations from CurrentVersion = Ok (map (fun '(v, names) => mkMigration v (v + 1) (mkdirs names)) l) /\
    (l ⊆ schema) /\ fold_left (fun _ '(m, _) => (m + 1)%Z) l from = CurrentVersion /\ forall m names, (m, names) ∈ schema -> (from <= m)%Z -> (m, names) ∈ l.
Proof.
  intros Hv. exists (drop (Z.to_nat (from - 1)) schema).
  assert (from = 1 \/ from = 2 \/ from = 3 \/ from = 4 \/ from = 5 \/ from = 6)%Z as Hc by lia.
  assert (Hsub : drop (Z.to_nat (from - 1)) schema ⊆ schema) by (intros x Hx; rewrite <- (take_drop (Z.to_nat (from - 1)) schema); apply elem_of_app; by right).
  assert (Hin : Forall (fun x => (from <= x.1)%Z -> x ∈ drop (Z.to_nat (from - 1)) schema) schema).
  { destruct Hc as [->|[->|[->|[->|[->| ->]]]]]; eapply bool_decide_unpack; by vm_compute. }
  rewrite Forall_forall in Hin. split; [by destruct Hc as [->|[->|[->|[->|[->| ->]]]]]|]. split; [done|]. split.
  - by destruct Hc as [->|[->|[->|[->|[->| ->]]]]].
  - intros m names Hm Hle. by apply (Hin (m, names)).
Qed.
(* ------------------------------------------------------------------ *)
(** ** One start *)

Definition version_of w : option Z :=
  match w !! V with
  | Some (EFile s) => n ← atoi (trim_space s); if bool_decide (n < 1)%Z then None else Some n
  | _ => None
  end.
Definition has_record w : Prop :=
  exists rel e, ordinary rel /\ Base rel <> LockFileName /\ Base rel <> VersionFileName /\ e <> EDir /\ w !! (dir ++ rel) = Some e.

(** What is known of a directory that was [w0] when the first start found it. *)
Record Inv w0 w : Prop := {
  inv_ext : ext in_layout w0 w;
  inv_version : w !! V = w0 !! V \/ (w0 !! V = None /\ w !! V = Some (EFile (version_text 1))) \/
    (w !! V = Some (EFile (version_text CurrentVersion)) /\ complete CurrentVersion w /\ holds_backup w0 w);
  inv_backup : ext scaffold w0 w \/ holds_backup w0 w }.

Lemma scaffold_layout p : scaffold p -> in_layout p.
Proof. by left. Qed.
Lemma holds_backup_ext A w u v : ext A u v -> holds_backup w u -> holds_backup w v.
Proof. intros [H1 _] (n & l & Hu & Hl). exists n, l. split; [|done]. apply H1; [done|]. by intros ?%app_inv_head. Qed.
Lemma holds_backup_from A w u v : ext A w u -> holds_backup u v -> holds_backup w v.
Proof.
  intros [H1 _] (n & l & Hu & Hl). exists n, l. split; [done|]. intros rel bytes Ho Hne Hw. apply Hl; [done..|]. apply H1; [done|].
  by intros ?%app_inv_head.
Qed.

Lemma Inv_refl w : Inv w w.
Proof. split; [apply tree_ext_refl|by left|left; apply tree_ext_refl]. Qed.

Lemma Inv_scaffold w0 w v : Inv w0 w -> step scaffold w v -> Inv w0 v.
Proof.
  intros [He Hv Hb] [Hs HV]. split.
  - eapply tree_ext_trans; [done|]. eapply ext_weaken; [apply scaffold_layout|done].
  - rewrite HV. destruct Hv as [Hv|[Hv|(Hv & Hc & Hh)]]; [by left|by right; left|]. right; right.
    split; [done|]. split; [by eapply complete_ext|by eapply holds_backup_ext].
  - destruct Hb as [Hb|Hb]; [left; by eapply tree_ext_trans|right; by eapply holds_backup_ext].
Qed.
Lemma Inv_layout w0 w v : Inv w0 w -> holds_backup w0 w -> step in_layout w v -> Inv w0 v.
Proof.
  intros [He Hv Hb] Hh [Hs HV]. assert (holds_backup w0 v) by (by eapply holds_backup_ext). split; [by eapply tree_ext_trans| |by right].
  rewrite HV. destruct Hv as [Hv|[Hv|(Hv & Hc & _)]]; [by left|by right; left|]. right; right. split; [done|]. split; [by eapply complete_ext|done].
Qed.
Lemma Inv_versioned n w0 w v :
  Inv w0 w -> versioned n w v -> (n = 1%Z /\ w !! V = None) \/ (n = CurrentVersion /\ complete CurrentVersion w /\ holds_backup w0 w) -> Inv w0 v.
Proof.
  intros Hi [Hs [Hv|Hv]] Hn; [by eapply Inv_scaffold|]. destruct Hi as [He Hw Hb]. split.
  - eapply tree_ext_trans; [done|]. eapply ext_weaken; [apply scaffold_layout|done].
  - destruct Hn as [[-> Hn]|(-> & Hc & Hh)].
    + right; left. split; [|done]. rewrite Hn in Hw. destruct Hw as [Hw|[[Hw _]|[? _]]]; congruence.
    + right; right. split; [done|]. split; [by eapply complete_ext|by eapply holds_backup_ext].
  - destruct Hb as [Hb|Hb]; [left; by eapply tree_ext_trans|right; by eapply holds_backup_ext].
Qed.

Lemma version_text_of n w : (n = 1 \/ n = CurrentVersion)%Z -> w !! V = Some (EFile (version_text n)) -> version_of w = Some n.
Proof. intros Hn Hw. unfold version_of. rewrite Hw. destruct Hn as [-> | ->]; by vm_compute. Qed.

Lemma version_complete w0 w n :
  w0 !! V = None \/ (exists n0, version_of w0 = Some n0 /\ complete n0 w0) -> Inv w0 w -> version_of w = Some n -> complete n w.
Proof.
  intros H0 [He Hv _] Hn. destruct Hv as [Hv|[[_ Hv]|(Hv & Hc & _)]].
  - assert (Heq : version_of w = version_of w0) by (unfold version_of; by rewrite Hv). rewrite Heq in Hn.
    destruct H0 as [H0|(n0 & H0 & Hc)]; [unfold version_of in Hn; by rewrite H0 in Hn|]. assert (n0 = n) as -> by congruence. by eapply complete_ext.
  - rewrite (version_text_of 1) in Hn by auto. injection Hn as <-. intros m names Hin Hm.
    assert (Forall (fun x => 1 <= x.1)%Z schema) as Hall by (eapply bool_decide_unpack; by vm_compute).
    rewrite Forall_forall in Hall. specialize (Hall _ Hin). cbn in Hall. lia.
  - rewrite (version_text_of CurrentVersion) in Hn by auto. by injection Hn as <-.
Qed.

Lemma has_record_ext A w v : has_record w -> ext A w v -> has_record v.
Proof.
  intros (rel & e & Ho & Hl & Hv & He & Hw) [H1 _]. exists rel, e. split_and!; try done. apply H1; [done|]. by intros ->%app_inv_head.
Qed.
Lemma record_nonempty w : has_record w -> isEmpty (below dir w) = false.
Proof.
  intros (rel & e & Ho & Hl & Hv & He & Hw). unfold isEmpty. apply negb_false_iff, existsb_exists. exists (rel, e).
  split; [apply list_elem_of_In, below_elem; split; [by destruct rel|done]|]. unfold is_record.
  rewrite (bool_decide_false (e = EDir)), (bool_decide_false (Base rel = _)), (bool_decide_false (Base rel = VersionFileName)) by done.
  rewrite (ordinary_no_temp rel) by (try done; apply Base_elem; by destruct rel). cbn [orb negb andb]. rewrite andb_true_r. apply negb_true_iff, not_true_iff_false.
  intros Hex. apply existsb_exists in Hex as ([r d] & _ & Hr). rewrite !andb_true_iff in Hr. destruct Hr as [[->%bool_decide_eq_true _] [k ->]%bool_decide_eq_true].
  by vm_compute in Ho.
Qed.

Lemma wp_readVersion w0 w :
  has_record w -> rooted w -> Inv w0 w ->
  fwp (Inv w0) (readVersion dir CurrentVersion) (fun r v => match r with Ok n => version_of v = Some n | Err _ => True end) w.
Proof.
  intros Hrec Hr Hi. apply wp_act; [done|]. intros x _. unfold act, fs_handler, fs_act. destruct (d_fail x); cbn [fst snd]; [by apply wp_ret|].
  destruct (w !! V) as [[|s|]|] eqn:HV; cbn [fst snd]; [by apply wp_ret| |by apply wp_ret|].
  - destruct (atoi (trim_space s)) as [n|] eqn:Hn; [|by apply wp_ret]. case_bool_decide as Hlt; apply wp_ret; try done.
    unfold version_of. rewrite HV, Hn. cbn [mbind option_bind]. by rewrite bool_decide_false.
  - apply wp_os; [done|]. intros y. unfold act, fs_handler, fs_act. rewrite (Hr dir) by done. destruct (d_fail y); cbn [fst snd]; [done|].
    split; [done|]. rewrite record_nonempty by done. cbn zeta. apply wp_try.
    eapply wp_mono; [apply wp_writeVersion| |].
    + intros v Hv. eapply Inv_versioned; [done|done|by left].
    + intros [[]|e] v Hv Hq; [|done]. apply wp_ret; [|by apply version_text_of; auto]. eapply Inv_versioned; [done|done|by left].
Qed.
Section Start.
Context (w0 : tree) (Hroot : rooted w0) (Hrec : has_record w0)
  (Hver : w0 !! V = None \/ exists n, version_of w0 = Some n /\ complete n w0).

Lemma wp_Run w :
  Inv w0 w -> fwp (Inv w0) (Run dir) (fun r v => match r with Ok _ => version_of v = Some CurrentVersion | Err _ => True end) w.
Proof using Hroot Hrec Hver.
  intros Hi. assert (Hr : forall v, Inv w0 v -> rooted v) by (intros v Hv; eapply rooted_ext; [done|apply Hv]).
  apply wp_try. eapply wp_post; [apply wp_readVersion; [eapply has_record_ext; [done|apply Hi]|by apply Hr|done]|].
  intros [from|e] u Hu Hfrom; cbn beta iota; [|done]. pose proof (version_complete _ _ _ Hver Hu Hfrom) as Hc.
  destruct (decide (CurrentVersion < from)%Z); [rewrite bool_decide_true by done; by apply wp_ret|]. rewrite bool_decide_false by done.
  destruct (decide (from = CurrentVersion)) as [->|Hne]; [rewrite bool_decide_true by done; by apply wp_ret|]. rewrite bool_decide_false by done.
  destruct (plan_schema from) as (l & -> & Hl & Hat & Hall).
  { unfold version_of in Hfrom. unfold CurrentVersion in *. destruct (u !! V) as [[|s|]|]; try done. destruct (atoi (trim_space s)) as [k|]; [|done].
    cbn [mbind option_bind] in Hfrom. case_bool_decide; [done|]. injection Hfrom as ->. lia. }
  apply wp_bind. eapply wp_mono; [apply wp_archive_as; by apply Hr| |]; [intros v Hv; by eapply Inv_scaffold|].
  intros [p|e] v Hs Hb; cbn beta iota; [|apply wp_ret; [by eapply Inv_scaffold|done]].
  assert (Hv : Inv w0 v) by (by eapply Inv_scaffold). assert (Hh : holds_backup w0 v) by (eapply holds_backup_from; [apply Hu|done]).
  apply wp_try. eapply wp_mono; [apply wp_apply_all; [by apply Hr|done]| |]; [intros k Hk; by eapply Inv_layout|].
  intros [at_|e] k Hk Hq; [|done]. destruct Hq as [-> Hq]. rewrite Hat. rewrite bool_decide_true by done. cbn [negb].
  assert (Hi2 : Inv w0 k) by (by eapply Inv_layout).
  assert (Hn : CurrentVersion = 1%Z /\ k !! V = None \/ CurrentVersion = CurrentVersion /\ complete CurrentVersion k /\ holds_backup w0 k).
  { right. split; [done|]. split; [|eapply holds_backup_ext; [apply Hk|done]]. intros m names Hin _. destruct (decide (from <= m)%Z); [by apply (Hq m), Hall|].
    eapply have_ext; [by eapply schema_no_version|apply Hk|]. eapply have_ext; [by eapply schema_no_version|apply Hs|]. apply (Hc m); [done|lia]. }
  eapply wp_mono; [apply wp_writeVersion| |]; [intros z Hz; by eapply Inv_versioned|]. intros [[]|e] z Hz Hq2; [|done]. by apply version_text_of; auto.
Qed.

Definition start (t : tree) (xs : list dchoice) : tree := (Effects.run (Run dir) xs t).2.

Lemma starts_Inv starts w : Inv w0 w -> Inv w0 (fold_left start starts w).
Proof using Hroot Hrec Hver.
  revert w. induction starts as [|xs starts IH]; intros w Hw; [done|]. apply IH. unfold start.
  destruct (Effects.run (Run dir) xs w) as [[o rest] v] eqn:E. by apply (wp_run _ _ _ _ _ _ _ _ _ (wp_Run w Hw) (Forall_true _ xs (fun _ => I)) E).
Qed.
End Start.

(** A directory of this version or a newer one is only read. *)
Lemma wp_Run_untouched w n :
  version_of w = Some n -> (CurrentVersion <= n)%Z ->
  fwp (fun v => v = w) (Run dir) (fun r _ => match r with Ok _ => n = CurrentVersion | Err _ => True end) w.
Proof.
  intros Hv Hn. apply wp_try. unfold version_of in Hv. destruct (w !! V) as [[|s|]|] eqn:HV; try done.
  destruct (atoi (trim_space s)) as [k|] eqn:Ha; [|done]. cbn [mbind option_bind] in Hv. case_bool_decide as Hk; [done|]. injection Hv as ->.
  apply wp_act; [done|]. intros x _. unfold act, fs_handler, fs_act. rewrite HV. destruct (d_fail x); cbn [fst snd]; [by apply wp_ret|].
  rewrite Ha, bool_decide_false by done. apply wp_ret; [done|]. destruct (decide (CurrentVersion < n)%Z).
  - rewrite bool_decide_true by done. by apply wp_ret.
  - rewrite bool_decide_false by done. rewrite bool_decide_true by lia. apply wp_ret; [done|lia].
Qed.

(** C15: A data directory that holds a record survives its migrations: over any
    number of starts, each failing anywhere or cut off anywhere, everything in it but
    VERSION stays as it was and nothing appears beside the directories of the schema,
    backups and half-written files; VERSION never says a version whose directories
    are not all there; before a directory of the schema is made, or VERSION says
    that they were, an archive of every record is in its backups; a start
    that reports success leaves the program's own version; and a directory of that
    version or a newer one is not touched. *)
Theorem a_data_directory_survives_migrations w0 starts t :
  rooted w0 -> has_record w0 -> w0 !! V = None \/ (exists n, version_of w0 = Some n /\ complete n w0) ->
  t = fold_left start starts w0 ->
  ext in_layout w0 t /\
  (forall n, version_of t = Some n -> complete n t) /\
  (ext scaffold w0 t /\ (t !! V = w0 !! V \/ version_of t = Some 1%Z) \/ holds_backup w0 t) /\
  (forall xs rest t', Effects.run (Run dir) xs t = (Some (Ok tt), rest, t') -> version_of t' = Some CurrentVersion /\ complete CurrentVersion t') /\
  (forall n, version_of w0 = Some n -> (CurrentVersion <= n)%Z -> t = w0).
Proof.
  intros Hroot Hrec Hver ->. assert (Hi : Inv w0 (fold_left start starts w0)) by (apply starts_Inv; auto using Inv_refl).
  set (t := fold_left start starts w0) in *. split_and!.
  - apply Hi.
  - intros n. by apply (version_complete w0).
  - destruct Hi as [_ Hv [Hb|Hb]]; [|by right]. destruct Hv as [Hv|[[_ Hv]|(_ & _ & Hh)]]; [left; auto| |by right].
    left. split; [done|]. right. apply version_text_of; auto.
  - intros xs rest t' Hrun. destruct (wp_run _ _ _ _ _ _ _ _ _ (wp_Run w0 Hroot Hrec Hver t Hi) (Forall_true _ xs (fun _ => I)) Hrun) as (Hi' & Hq & _).
    specialize (Hq _ eq_refl). cbn in Hq. split; [done|]. by apply (version_complete w0).
  - intros n Hn Hle. subst t. clear Hi. revert w0 Hn Hroot Hrec Hver. induction starts as [|xs starts IH]; intros w0 Hn Hroot Hrec Hver; [done|].
    cbn [fold_left]. assert (start w0 xs = w0) as ->; [|by apply IH]. unfold start. destruct (Effects.run (Run dir) xs w0) as [[o rest] v] eqn:E.
    by apply (wp_run _ _ _ _ _ _ _ _ _ (wp_Run_untouched w0 n Hn Hle) (Forall_true _ xs (fun _ => I)) E).
Qed.
End Directory.

(* ------------------------------------------------------------------ *)
(** ** A directory brought up to date in three starts *)

Module Concrete.
Definition print_item (i : string * option string) : string :=
  i.1 +:+ str1 (chr 10) +:+ match i.2 with Some b => "+" +:+ b | None => "-" end +:+ str1 (chr 10).
#[global] Instance toy_archives : TarGz := {| tar_gz l := foldr (fun i s => print_item i +:+ s) "" l; rfc3339 := itoa; compact_time := itoa |}.

Definition data : list string := ["data"].
Definition old : tree :=
  {[ [] := EDir; data := EDir; data ++ ["users"] := EDir; data ++ ["users"; "a.json"] := EFile "{}" ]}.
Definition fine (n : nat) : dchoice := mkDChoice None "" 0 (itoa (Z.of_nat n)) (Z.of_nat n) (0, 0)%Z (Ok None).
Definition broken : dchoice := mkDChoice (Some "disk full") "half" 1 "x" 0%Z (0, 0)%Z (Ok None).
(** Cut off after the archive was begun; a step that fails; nothing wrong. *)
Definition three_starts : list (list dchoice) :=
  [map fine (seq 0 13); map fine (seq 20 10) ++ [broken; broken]; map fine (seq 40 40)].
Definition upgraded : tree := fold_left (start data) three_starts old.

Lemma a_data_directory_survives_migrations_witness :
  version_of data old = None /\ version_of data (start data old (map fine (seq 0 13))) = Some 1%Z /\
  upgraded !! (data ++ ["users"; "a.json"]) = Some (EFile "{}") /\ version_of data upgraded = Some CurrentVersion /\
  complete data CurrentVersion upgraded /\ holds_backup data old upgraded.
Proof.
  assert (Hr : rooted data old).
  { intros q [k Hq]. destruct q as [|a [|b q]]; [by vm_compute| |done]. injection Hq as <- _. by vm_compute. }
  assert (Hrec : has_record data old) by (exists ["users"; "a.json"], (EFile "{}"); by vm_compute).
  destruct (a_data_directory_survives_migrations data old three_starts upgraded Hr Hrec (or_introl eq_refl) eq_refl) as ([Hkept _] & Hc & Hb & _ & _).
  assert (Hv : version_of data upgraded = Some CurrentVersion) by (vm_compute; reflexivity).
  split; [vm_compute; reflexivity|]. split; [vm_compute; reflexivity|]. split; [apply Hkept; [by vm_compute|done]|]. split; [done|]. split; [by apply Hc|].
  destruct Hb as [[_ [Hb|Hb]]|Hb]; [vm_compute in Hb; discriminate Hb|rewrite Hv in Hb; discriminate Hb|exact Hb].
Defined.
End Concrete.
