(* ===== verification/RestoreSafety.v ===== *)
(** * What a restore does to a data directory

    Over the file system of [MigrateSafety.v]: a restore writes nothing outside its
    destination, and nothing in it but backups before a backup of what was there; an
    archive of a directory, restored into an empty one, gives every record back;
    [plan] always ends, and [List] is in order. *)

From S2P Require Import Prelude Effects Migrate MigrateSafety.

#[local] Arguments wp : simpl never.

(* ------------------------------------------------------------------ *)
(** ** The plan and the list *)

(** At most as many rounds as there are migrations from here on, and one. *)
Lemma plan_loop_ends fuel migs from target at_ :
  length (List.filter (fun m => bool_decide (at_ <= From m)%Z) migs) < fuel -> plan_loop fuel migs from target at_ <> Err ErrFuel.
Proof.
  revert at_. induction fuel as [|fuel IH]; intros at_ Hl; [lia|]. cbn [plan_loop]. case_bool_decide; [done|].
  destruct (list_find _ migs) as [[i m]|] eqn:Hf; [|done]. apply list_find_Some in Hf as (Hi & Hm & _). case_bool_decide as Hto; [done|].
  assert (Hlt : length (List.filter (fun m' => bool_decide (To m <= From m')%Z) migs) < length (List.filter (fun m => bool_decide (at_ <= From m)%Z) migs)).
  { clear IH Hl. revert i Hi. induction migs as [|a migs IHm]; intros i Hi; [done|]. cbn [List.filter].
    assert (Hle : length (List.filter (fun m' => bool_decide (To m <= From m')%Z) migs) <= length (List.filter (fun m => bool_decide (at_ <= From m)%Z) migs)).
    { clear IHm Hi. induction migs as [|b migs IHb]; [done|]. cbn [List.filter]. repeat case_bool_decide; cbn [length]; lia. }
    destruct i as [|i].
    - injection Hi as ->. rewrite bool_decide_false by lia. rewrite bool_decide_true by lia. cbn [length]. lia.
    - specialize (IHm i Hi). repeat case_bool_decide; cbn [length]; lia. }
  specialize (IH (To m)). destruct (plan_loop fuel migs from target (To m)); [done|]. intros [= ->]. apply IH; [lia|done].
Qed.
Lemma plan_ends migs from target : plan migs from target <> Err ErrFuel.
Proof.
  apply plan_loop_ends. assert (length (List.filter (fun m => bool_decide (from <= From m)%Z) migs) <= length migs); [|lia].
  induction migs as [|m migs IH]; cbn [List.filter]; [done|]. case_bool_decide; cbn [length]; lia.
Qed.

Lemma sink_perm e l : sink e l ≡ₚ e :: l.
Proof. induction l as [|x l IH]; cbn [sink]; [done|]. case_bool_decide; [|done]. rewrite IH. apply Permutation_swap. Qed.
Lemma sink_sorted e l : Sorted (fun a b => ModTime a <= ModTime b)%Z l -> Sorted (fun a b => ModTime a <= ModTime b)%Z (sink e l).
Proof.
  induction l as [|x l IH]; cbn [sink]; intros Hl; [by repeat constructor|]. inversion_clear Hl as [|? ? Hs Hh]. case_bool_decide as Hx.
  - constructor; [by apply IH|]. destruct l as [|y l]; cbn [sink]; [constructor; lia|]. case_bool_decide; constructor; [by inversion Hh|lia].
  - constructor; [by constructor|]. constructor. lia.
Qed.
Lemma newest_first_spec l :
  newest_first l ≡ₚ l /\ Sorted (fun a b => ModTime a <= ModTime b)%Z (rev (newest_first l)).
Proof.
  unfold newest_first. rewrite rev_involutive.
  assert (Hg : forall acc, Sorted (fun a b => ModTime a <= ModTime b)%Z acc ->
    fold_left (fun acc e => sink e acc) l acc ≡ₚ l ++ acc /\ Sorted (fun a b => ModTime a <= ModTime b)%Z (fold_left (fun acc e => sink e acc) l acc)).
  { induction l as [|e l IH]; intros acc Ha; cbn [fold_left]; [done|]. destruct (IH (sink e acc)) as [H1 H2]; [by apply sink_sorted|].
    split; [|done]. rewrite H1, sink_perm. cbn. by rewrite Permutation_middle. }
  destruct (Hg [] ltac:(constructor)) as [H1 H2]. split; [|done]. rewrite <- Permutation_rev. rewrite H1. by rewrite app_nil_r.
Qed.

(* ------------------------------------------------------------------ *)
(** ** Where a program writes *)

Section Writes.
Context (E : tar_entry -> Prop).        (* what is known of the entries of the archive *)
Implicit Types (P M : list string -> Prop) (t : tree).

Definition spares (x : dchoice) : Prop := match d_entry x with Ok (Some e) => E e | _ => True end.
Definition answer_ok {R} (c : FsCall R) : R -> Prop :=
  match c in FsCall R return R -> Prop with
  | NextEntry => fun r => match r with Ok (Some e) => E e | _ => True end
  | _ => fun _ => True
  end.
(** Files in [P] are written, made and removed, and directories in [M] are made. *)
Definition call_in P M {R} (c : FsCall R) : Prop :=
  match c with
  | MkdirAll p => forall q, q ∈ ways p -> M q
  | OpenExcl p | OpenTrunc p | Write p _ | Remove p => P p
  | CreateTemp _ _ | Rename _ _ => False
  | _ => True
  end.
Fixpoint writes_in P M {A} (p : prog FsCall A) : Prop :=
  match p with
  | Act c k => call_in P M c /\ forall r, answer_ok c r -> writes_in P M (k r)
  | _ => True
  end.

Lemma writes_bind P M {A B} (p : prog FsCall A) (f : A -> prog FsCall B) :
  writes_in P M p -> (forall a, writes_in P M (f a)) -> writes_in P M (p ≫= f).
Proof. intros Hp Hf. induction p as [a| |R c k IH]; [apply Hf|done|]. destruct Hp as [Hc Hk]. split; [done|]. intros r Hr. by apply IH, Hk. Qed.
Lemma writes_try P M {A B} (p : prog FsCall (result data_error A)) (f : A -> prog FsCall (result data_error B)) :
  writes_in P M p -> (forall a, writes_in P M (f a)) -> writes_in P M (try f p).
Proof. intros Hp Hf. apply writes_bind; [done|]. by intros [a|e]. Qed.
Lemma writes_os P M {A} doing (c : FsCall (result os_error A)) : call_in P M c -> writes_in P M (os doing c).
Proof. by split. Qed.

(** An invariant such writes keep holds at every moment. *)
Lemma wp_writes P M (J : tree -> Prop) {A : Type} (p : prog FsCall A) t :
  (forall q v e, P q -> J v -> J (<[q := e]> v)) -> (forall q v, P q -> J v -> J (delete q v)) ->
  (forall q v, M q -> v !! q = None -> J v -> J (<[q := EDir]> v)) ->
  writes_in P M p -> J t -> wp spares J p (fun _ _ => True) t.
Proof.
  intros Hput Hdel Hdir. revert t. induction p as [a| |R c k IH]; intros t Hp Ht; [by apply wp_ret|by split|].
  destruct Hp as [Hc Hk]. apply wp_act; [done|]. intros x Hx. apply IH.
  - apply Hk. destruct c; try done. 
  - destruct c; cbn [call_in] in Hc; try done; unfold act, fs_handler, fs_act.
    + assert (Hm : forall ps, ps ⊆ ways p -> J (make_dirs ps t).2).
      { intros ps Hps. apply make_dirs_spec; [|done]. intros q u Hq. apply Hdir. auto. }
      destruct (d_fail x); [apply Hm, list.subseteq_take|]. specialize (Hm (ways p) ltac:(done)). by destruct (make_dirs (ways p) t) as [[|] u].
    + destruct (d_fail x); [done|]. destruct (t !! p); [done|]. by apply Hput.
    + destruct (d_fail x); [done|]. destruct (t !! p) as [[| |]|]; try done; by apply Hput.
    + destruct (d_fail x), (t !! p) as [[| |]|]; try done; by apply Hput.
    + destruct (d_fail x); [done|]. destruct (t !! p) as [[| |]|]; try done. by apply Hdel.
Qed.

Lemma wp_both {A : Type} (I1 I2 : tree -> Prop) (p : prog FsCall A) (Q1 Q2 : A -> tree -> Prop) t :
  wp spares I1 p Q1 t -> wp spares I2 p Q2 t -> wp spares (fun v => I1 v /\ I2 v) p (fun a v => Q1 a v /\ Q2 a v) t.
Proof.
  revert t. induction p as [a| |R c k IH]; intros t [H1 H2] [H3 H4]; split; try done. intros x Hx. apply IH; auto.
Qed.
Lemma wp_any {A : Type} (J : tree -> Prop) (p : prog FsCall A) (Q : A -> tree -> Prop) t : wp (fun _ => True) J p Q t -> wp spares J p Q t.
Proof. revert t. induction p as [a| |R c k IH]; intros t [H1 H2]; split; try done. intros x Hx. by apply IH, H2. Qed.
End Writes.

(* ------------------------------------------------------------------ *)
(** ** A restore *)

Section Restoring.
Context `{TarGz} (dir : list string).

Lemma safeJoin_inside name target : clean dir = dir -> safeJoin dir name = Ok target -> dir `prefix_of` target.
Proof.
  intros Hc. unfold safeJoin. case_bool_decide; [done|]. rewrite Hc. destruct (_ || _) eqn:Hb; [|done]. intros [= <-].
  apply orb_prop in Hb as [Hb|[_ Hb]%andb_prop]; apply bool_decide_eq_true in Hb; [by rewrite Hb|done].
Qed.

Lemma removelast_prefix (p : list string) : removelast p `prefix_of` p.
Proof.
  destruct p as [|a p]; [done|]. destruct (exists_last (l := a :: p)) as (l & b & ->); [done|]. rewrite removelast_last. by apply prefix_app_r.
Qed.

(** [P] and [M] for a program that writes at paths with a property. *)
Lemma writes_archive E P M name :
  (forall n, P (dir ++ [DirName; n])) -> (forall q, q ∈ ways (dir ++ [DirName]) -> M q) -> writes_in E P M (archive_as dir name).
Proof.
  intros HP HM. apply writes_try; [by apply writes_os|]. intros _. split; [done|]. intros now _. apply writes_try; [|by intros []].
  apply writes_try; [apply writes_os, HP|]. intros _. apply writes_bind.
  - apply writes_try; [by apply writes_os|]. intros all. apply writes_try; [apply writes_os, HP|]. intros _.
    apply writes_try; [by apply writes_os|]. intros _. by apply writes_os.
  - intros [[]|e]; [done|]. split; [done|]. intros r _. split; [apply HP|]. by intros.
Qed.

Lemma writes_restore E P M fuel :
  (forall e target, E e -> safeJoin dir (t_name e) = Ok target -> P target /\ forall q, q `prefix_of` target -> q <> [] -> M q) ->
  writes_in E P M (restore_loop fuel dir).
Proof.
  intros HE. assert (Hways : forall p q, q ∈ ways p -> q `prefix_of` p /\ q <> []).
  { intros p q Hq. split; [by apply ways_prefix|]. unfold ways in Hq. apply list_elem_of_fmap in Hq as (n & -> & Hn%elem_of_seq).
    destruct p; [cbn in Hn; lia|done]. }
  induction fuel as [|fuel IH]; [done|]. cbn [restore_loop]. split; [done|]. intros [[e|]|e] He; [| |done]; [|by apply writes_os].
  apply writes_try; [|done]. unfold restore_entry. destruct (safeJoin dir (t_name e)) as [target|] eqn:Hj; [|done].
  destruct (HE e target He Hj) as [HP HM]. destruct (t_flag e); [|clear IH|done].
  - apply writes_os. intros q [Hq Hne]%Hways. by apply HM.
  - apply writes_try; [apply writes_os; intros q [Hq Hne]%Hways; apply HM; [|done]; etrans; [done|apply removelast_prefix]|]. intros _.
    apply writes_try; [by apply writes_os|]. intros _. apply writes_bind; [by apply writes_os|]. intros [[]|?]; [|done].
    apply writes_bind; [by apply writes_os|]. by intros [[]|?].
Qed.
(** Outside [dir] nothing changes, but that the directories on the way to it are made. *)
Definition outside (w v : tree) : Prop :=
  forall p, ~ (dir `prefix_of` p) -> v !! p = w !! p \/ (p `prefix_of` dir /\ w !! p = None /\ v !! p = Some EDir).
(** In [dir], nothing but what is below [backups]. *)
Definition backups_only (w v : tree) : Prop := forall p, ~ ((dir ++ [DirName]) `prefix_of` p) -> v !! p = w !! p.

(** No entry of the archive is of the backups. *)
Definition not_backups (e : tar_entry) : Prop :=
  forall target, safeJoin dir (t_name e) = Ok target -> ~ ((dir ++ [DirName]) `prefix_of` target).

Lemma prefix_in_or_over (q p : list string) : q `prefix_of` p -> dir `prefix_of` p -> dir `prefix_of` q \/ q `prefix_of` dir.
Proof. intros H1 H2. destruct (prefix_weak_total _ _ _ H1 H2); auto. Qed.

Lemma writes_Restore E P M fuel archive safety :
  (forall n, P (dir ++ [DirName; n])) -> (forall q, q `prefix_of` dir ++ [DirName] -> M q) ->
  (forall e target, E e -> safeJoin dir (t_name e) = Ok target -> P target /\ forall q, q `prefix_of` target -> q <> [] -> M q) ->
  writes_in E P M (Restore fuel archive dir safety).
Proof.
  intros HP HM HE. unfold Restore, safety_copy. apply writes_try.
  - case_bool_decide; [done|]. split; [done|]. intros [[|? ?]|e] _; [done| |done].
    apply writes_bind; [|by intros [?|?]]. apply writes_archive; [done|]. intros q Hq. by apply HM, ways_prefix.
  - intros p. apply writes_try; [by apply writes_os|]. intros _. apply writes_try.
    + apply writes_os. intros q Hq%ways_prefix. apply HM. etrans; [done|]. by apply prefix_app_r.
    + intros _. apply writes_try; [by apply writes_restore|]. by intros [].
Qed.

Lemma wp_outside fuel archive safety w :
  clean dir = dir -> wp (spares (fun _ => True)) (outside w) (Restore fuel archive dir safety) (fun _ _ => True) w.
Proof.
  intros Hc. apply (wp_writes _ (fun p => dir `prefix_of` p) (fun q => dir `prefix_of` q \/ q `prefix_of` dir)).
  - intros q v e Hq Hv p Hp. rewrite lookup_insert_ne; [by apply Hv|]. by intros ->.
  - intros q v Hq Hv p Hp. rewrite lookup_delete_ne; [by apply Hv|]. by intros ->.
  - intros q v Hq Hn Hv p Hp. destruct (decide (q = p)) as [->|]; [|rewrite lookup_insert_ne by done; by apply Hv].
    rewrite lookup_insert_eq. destruct Hq as [Hq|Hq]; [done|]. right. split; [done|]. split; [|done].
    destruct (Hv p Hp) as [Heq|(_ & _ & Heq)]; congruence.
  - apply writes_Restore.
    + intros n. by apply prefix_app_r.
    + intros q Hq. apply (prefix_in_or_over q (dir ++ [DirName])); [done|by apply prefix_app_r].
    + intros e target _ Ht. pose proof (safeJoin_inside _ _ Hc Ht) as Hin. split; [done|]. intros q Hq _. by apply (prefix_in_or_over q target).
  - intros p _. by left.
Qed.

Lemma wp_keeps_backup {T : Type} fuel archive (a : T) w v :
  holds_backup dir w v ->
  wp (spares not_backups) (holds_backup dir w)
    (do? os "backup: open" (OpenArchive archive) ;; do? os "backup: create" (MkdirAll dir) ;; do? restore_loop fuel dir ;; Ret (Ok a))
    (fun _ _ => True) v.
Proof.
  apply (wp_writes _ (fun p => ~ ((dir ++ [DirName]) `prefix_of` p)) (fun _ => True)).
  - intros q u e Hq (n & l & Hu & Hl). exists n, l. split; [|done]. rewrite lookup_insert_ne; [done|]. intros ->. apply Hq.
    exists [n]. by rewrite <- (assoc_L (++)).
  - intros q u Hq (n & l & Hu & Hl). exists n, l. split; [|done]. rewrite lookup_delete_ne; [done|]. intros ->. apply Hq.
    exists [n]. by rewrite <- (assoc_L (++)).
  - intros q u _ Hn (n & l & Hu & Hl). exists n, l. split; [|done]. rewrite lookup_insert_ne; [done|]. intros ->. congruence.
  - apply writes_try; [by apply writes_os|]. intros _. apply writes_try; [by apply writes_os|]. intros _. apply writes_try; [|done].
    apply writes_restore. intros e target He Ht. split; [by apply He|done].
Qed.

Lemma wp_CreateNamed_both w label :
  rooted dir w ->
  wp (spares not_backups) (backups_only w) (CreateNamed dir label) (fun r v => match r with Ok _ => holds_backup dir w v | Err _ => True end) w.
Proof.
  intros Hr. eapply (wp_mono _ (fun v => step dir (scaffold dir) w v /\ backups_only w v)).
  - apply wp_both; [apply wp_any, wp_archive_as, Hr|].
    apply (wp_writes _ (fun p => exists n, p = dir ++ [DirName; n]) (fun q => q `prefix_of` dir ++ [DirName])).
    + intros q v e [n ->] Hv p Hp. rewrite lookup_insert_ne; [by apply Hv|]. intros <-. apply Hp. exists [n]. by rewrite <- (assoc_L (++)).
    + intros q v [n ->] Hv p Hp. rewrite lookup_delete_ne; [by apply Hv|]. intros <-. apply Hp. exists [n]. by rewrite <- (assoc_L (++)).
    + intros q v Hq Hn Hv p Hp. rewrite lookup_insert_ne; [by apply Hv|]. intros ->. destruct (prefix_snoc _ _ _ Hq) as [Hq'| ->]; [|done].
      rewrite (Hv p Hp), (Hr p Hq') in Hn. done.
    + apply writes_archive; [by eexists|]. apply ways_prefix.
    + by intros p _.
  - by intros v [].
  - intros r v [_ _] [Hq _]. exact Hq.
Qed.

(** The destination was listed, and there was something in it. *)
Lemma safety_copy_listed safety x xs w :
  safety <> "" -> rooted dir w -> (exists n e, w !! (dir ++ [n]) = Some e) -> d_fail x = None ->
  Effects.run (safety_copy dir safety) (x :: xs) w =
  Effects.run (CreateNamed dir safety ≫= fun c => Ret (match c with Ok p => Ok (Some p) | Err e => Err (ErrUnsafe e) end)) xs w.
Proof.
  intros Hs Hr (n & e & Hn) Hx. unfold safety_copy. rewrite bool_decide_false by done.
  cbn [mbind prog_mbind prog_bind call Effects.run act fs_handler fs_act]. rewrite Hx, (Hr dir) by done.
  match goal with |- context [omap ?f (below dir w)] => assert (Hin : (n, bool_decide (e = EDir)) ∈ omap f (below dir w)) end.
  { apply list_elem_of_omap. exists ([n], e). split; [by apply below_elem|done]. }
  by destruct (omap _ _); [apply not_elem_of_nil in Hin|].
Qed.

Lemma wp_Restore_listed fuel archive safety w :
  rooted dir w ->
  wp (spares not_backups) (fun t => backups_only w t \/ holds_backup dir w t)
    (p <-? (c ← CreateNamed dir safety; Ret (match c with Ok p => Ok (Some p) | Err e => Err (ErrUnsafe e) end)) ;;
     do? os "backup: open" (OpenArchive archive) ;; do? os "backup: create" (MkdirAll dir) ;;
     do? restore_loop fuel dir ;; Ret (Ok p))
    (fun _ _ => True) w.
Proof.
  intros Hr. apply wp_try, wp_bind. eapply wp_mono; [by apply wp_CreateNamed_both|by left|].
  intros [p|e] v Hv Hq; cbn beta iota; apply wp_ret; try done; [by left| |by left].
  eapply wp_mono; [by apply wp_keeps_backup|by right|done].
Qed.

(** C16: A restore changes nothing outside its destination, whatever the archive's
    names are and wherever it fails or is cut off (the directories on the way to the
    destination may be made). Where a safety copy was asked for and the destination
    was there with something in it and could be listed, nothing in it but its backups
    is changed before an archive of every record it held is in them, and that
    archive stays, unless an entry of the restored one is itself of the backups. *)
Theorem a_restore_is_contained_and_backed_up fuel archive safety w xs o rest t :
  clean dir = dir -> Effects.run (Restore fuel archive dir safety) xs w = (o, rest, t) ->
  outside w t /\
  (safety <> "" -> rooted dir w -> (exists n e, w !! (dir ++ [n]) = Some e) ->
   match xs with x :: _ => d_fail x = None | [] => True end -> Forall (spares not_backups) xs ->
   backups_only w t \/ holds_backup dir w t).
Proof.
  intros Hc Hrun. split.
  { eapply (wp_run _ _ _ _ _ _ _ _ _ (wp_outside fuel archive safety w Hc)); [|done]. apply Forall_true. intros x. unfold spares. by destruct (d_entry x) as [[]|]. }
  intros Hs Hr Hn Hx Hxs. destruct xs as [|x xs]; [|].
  { unfold Restore, safety_copy in Hrun. rewrite bool_decide_false in Hrun by done. injection Hrun as _ _ <-. left. by intros p _. }
  apply Forall_cons in Hxs as [_ Hxs]. unfold Restore in Hrun. rewrite run_try, safety_copy_listed, <- run_try in Hrun by done.
  by eapply (wp_run _ _ _ _ _ _ _ _ _ (wp_Restore_listed fuel archive safety w Hr)).
Qed.
End Restoring.

(* ------------------------------------------------------------------ *)
(** ** A backup put back *)

Section RoundTrip.
Context `{TarGz} (sdir dir : list string) (w : tree).
Implicit Types (t : tree) (rel : list string).

(** A name in a directory. *)
Definition plain (c : string) : bool :=
  negb (bool_decide (c ∈ [""; "."; ".."])) && str_all (fun a => negb (Ascii.eqb a "/")) c.

(** The source is a tree of directories, with names as a file system has them. *)
Definition well_formed : Prop :=
  forall rel e, w !! (sdir ++ rel) = Some e ->
    forallb plain rel /\ forall q, q `prefix_of` rel -> q <> rel -> w !! (sdir ++ q) = Some EDir.

Lemma plain_split rel : rel <> [] -> forallb plain rel -> split_on "/" (slashed rel) = rel.
Proof.
  intros Hne. induction rel as [|c rel IH]; [done|]. intros [Hc Hr]%Is_true_true%andb_prop. apply andb_prop in Hc as [_ Hc].
  destruct rel as [|d rel]; [by apply split_on_none|].
  change (slashed (c :: d :: rel)) with (c +:+ String "/" (slashed (d :: rel))). rewrite split_on_app by exact Hc. f_equal.
  apply IH; [done|by apply Is_true_true].
Qed.

Lemma plain_relative rel : rel <> [] -> forallb plain rel -> cut_prefix "/" (slashed rel) = None.
Proof.
  intros Hne Hp. destruct rel as [|c rel]; [done|]. apply Is_true_true, andb_prop in Hp as [Hc _]. apply andb_prop in Hc as [He Hc].
  destruct c as [|a c]; [done|]. cbn in Hc. apply andb_prop in Hc as [Ha _]. apply negb_true_iff in Ha.
  assert (exists s, slashed (String a c :: rel) = String a s) as [s ->].
  { unfold slashed. destruct rel as [|d rel]; [by eexists|]. cbn [join]. rewrite str_app_cons. by eexists. }
  cbn [cut_prefix]. by rewrite Ascii.eqb_sym, Ha.
Qed.

Lemma clean_plain acc rel : forallb plain rel -> fold_left clean_step rel acc = acc ++ rel.
Proof.
  revert acc. induction rel as [|c rel IH]; intros acc; [by rewrite app_nil_r|]. intros [Hc Hr]%Is_true_true%andb_prop. cbn [fold_left].
  rewrite IH by (by apply Is_true_true). apply andb_prop in Hc as [Hc _]. apply negb_true_iff, bool_decide_eq_false in Hc.
  unfold clean_step. rewrite !bool_decide_false by set_solver. cbn [orb]. by rewrite <- (assoc_L (++)).
Qed.

Context (Hwf : well_formed) (Hclean : clean dir = dir) (Hdir : dir <> []).

Lemma safeJoin_plain rel : rel <> [] -> forallb plain rel -> safeJoin dir (slashed rel) = Ok (dir ++ rel).
Proof using Hclean Hdir.
  intros Hne Hp. unfold safeJoin. rewrite plain_relative by done. rewrite bool_decide_false by (by intros [? [=]]).
  assert (Hj : clean (dir ++ rel) = dir ++ rel).
  { unfold clean. rewrite (fold_left_app clean_step). fold (clean dir). by rewrite Hclean, clean_plain. }
  rewrite plain_split, Hj, Hclean by done. cbn zeta.
  rewrite (bool_decide_false (dir = [])) by done. rewrite (bool_decide_true (dir `prefix_of` _)) by (by apply prefix_app_r). by rewrite orb_true_r.
Qed.

(** Below [dir] there is only what the source has. *)
Definition sub t : Prop := rooted dir t /\ forall rel e, rel <> [] -> t !! (dir ++ rel) = Some e -> w !! (sdir ++ rel) = Some e.
Definition grows t (u : tree) : Prop := forall p e, t !! p = Some e -> u !! p = Some e.

Lemma sub_put t rel e : sub t -> rel <> [] -> w !! (sdir ++ rel) = Some e -> sub (<[dir ++ rel := e]> t).
Proof using.
  intros [Hr Hs] Hne Hw. split.
  - intros q Hq. rewrite lookup_insert_ne; [by apply Hr|]. intros <-. apply prefix_length in Hq. rewrite length_app in Hq. destruct rel; [done|]. cbn in Hq. lia.
  - intros rel' e' Hne'. destruct (decide (rel = rel')) as [->|]; [rewrite lookup_insert_eq; congruence|]. rewrite lookup_insert_ne; [by apply Hs|].
    by intros ?%app_inv_head.
Qed.

Lemma make_dirs_ok ps t : (forall q, q ∈ ps -> t !! q = None \/ t !! q = Some EDir) -> (make_dirs ps t).1 = true.
Proof using.
  revert t. induction ps as [|p ps IH]; intros t Hq; cbn [make_dirs]; [done|].
  destruct (Hq p (list_elem_of_here _ _)) as [-> | ->]; apply IH; intros q Hin; [|by apply Hq, list_elem_of_further].
  destruct (decide (p = q)) as [->|]; [right; apply lookup_insert_eq|]. rewrite lookup_insert_ne by done. by apply Hq, list_elem_of_further.
Qed.

Lemma prefix_app_split (q p r : list string) : q `prefix_of` p ++ r -> q `prefix_of` p \/ exists r', r' <> [] /\ q = p ++ r' /\ r' `prefix_of` r.
Proof using.
  intros Hq. destruct (prefix_weak_total q p (p ++ r)) as [Hp|[k ->]]; [done|by apply prefix_app_r|by left|].
  destruct k as [|a k]; [left; by rewrite app_nil_r|]. right. exists (a :: k). split; [done|]. split; [done|]. by apply prefix_app_inv in Hq.
Qed.

(** The directories on the way to an entry of the source can be made. *)
Lemma dirs_made p t :
  sub t -> (forall rel, dir ++ rel `prefix_of` p -> rel <> [] -> w !! (sdir ++ rel) = Some EDir) -> p `prefix_of` dir \/ dir `prefix_of` p ->
  exists u, make_dirs (ways p) t = (true, u) /\ sub u /\ grows t u /\ (p <> [] -> u !! p = Some EDir).
Proof using.
  intros Hs Hw Hp.
  assert (Hq : forall q, q ∈ ways p -> q `prefix_of` dir \/ exists rel, rel <> [] /\ q = dir ++ rel /\ w !! (sdir ++ rel) = Some EDir).
  { intros q Hq%ways_prefix. destruct Hp as [Hp|[r ->]]; [left; by etrans|]. destruct (prefix_app_split q dir r Hq) as [|(r' & Hne & -> & Hr)]; [by left|].
    right. exists r'. split; [done|]. split; [done|]. by apply Hw. }
  destruct (make_dirs_spec (fun u => sub u /\ grows t u) (ways p) t) as ([H1 H2] & H3 & _).
  - intros q u Hin Hn [Hu Hg]. destruct (Hq q Hin) as [Hd|(rel & Hne & -> & Hr)].
    + destruct Hu as [Hu _]. by rewrite (Hu q Hd) in Hn.
    + split; [by apply sub_put|]. intros k e Hk. rewrite lookup_insert_ne; [by apply Hg|]. intros <-. apply Hg in Hk. congruence.
  - split; [done|by intros k e].
  - assert (Hok : (make_dirs (ways p) t).1 = true).
    { apply make_dirs_ok. intros q Hin. destruct (Hq q Hin) as [Hd|(rel & Hne & -> & Hr)]; [right; by apply Hs|].
      destruct (t !! (dir ++ rel)) eqn:E; [right|by left]. apply Hs in E; [congruence|done]. }
    destruct (make_dirs (ways p) t) as [b u]. cbn [fst snd] in *. subst b. exists u. split_and!; try done. intros Hne. apply H3; [done|]. by apply ways_last.
Qed.

(** The answers of an archive made of [items], read without a failure. *)
Definition calm (e : option tar_entry) : dchoice := mkDChoice None "" 0 "" 0%Z (0, 0)%Z (Ok e).
Definition entry_of (i : string * option string) : tar_entry :=
  mkTar i.1 (match i.2 with Some _ => TypeReg | None => TypeDir end) (default "" i.2).
Definition answers (i : string * option string) : list dchoice :=
  calm (Some (entry_of i)) :: match i.2 with Some _ => repeat (calm None) 5 | None => [calm None] end.
Definition reading (items : list (string * option string)) : list dchoice := concat (map answers items) ++ [calm None; calm None].

Definition from_source (i : string * option string) : Prop :=
  exists rel, rel <> [] /\ i.1 = slashed rel /\ w !! (sdir ++ rel) = Some (match i.2 with Some b => EFile b | None => EDir end).
Definition put_back (i : string * option string) t : Prop :=
  forall rel b, i = (slashed rel, Some b) -> rel <> [] -> forallb plain rel -> t !! (dir ++ rel) = Some (EFile b).

Lemma file_back rel b t : rel <> [] -> forallb plain rel -> put_back (slashed rel, Some b) (<[dir ++ rel := EFile b]> t).
Proof using.
  intros Hne Hp rel' b' Heq Hne' Hp'. injection Heq as Hs <-. apply (f_equal (split_on "/")) in Hs. rewrite !plain_split in Hs by done.
  subst rel'. apply lookup_insert_eq.
Qed.

Lemma run_entry i rest t :
  from_source i -> sub t ->
  exists u, Effects.run (restore_entry dir (entry_of i)) (tail (answers i) ++ rest) t = (Some (Ok tt), rest, u) /\ sub u /\ grows t u /\ put_back i u.
Proof using Hwf Hclean Hdir.
  destruct i as [name [b|]]; intros (rel & Hne & Hname & Hw) Hs; cbn [fst snd] in *; subst name; destruct (Hwf _ _ Hw) as [Hp Hup];
    unfold restore_entry, entry_of; cbn [t_name t_flag t_bytes fst snd]; rewrite safeJoin_plain by done.
  - destruct (dirs_made (removelast (dir ++ rel)) t Hs) as (u & Hm & Hu & Hg & _).
    + intros q Hq Hqne. apply Hup.
      * eapply prefix_app_inv. etrans; [exact Hq|apply removelast_prefix].
      * intros ->. apply prefix_length in Hq. destruct (exists_last Hne) as (l & a & Heq). rewrite Heq, (assoc_L (++)), removelast_last in Hq.
        rewrite !length_app in Hq. cbn in Hq. lia.
    + right. destruct (exists_last Hne) as (l & a & ->). rewrite (assoc_L (++)), removelast_last. by apply prefix_app_r.
    + unfold writeFile, answers. cbn [snd tail repeat app]. unfold os, call, try. cbn [mbind prog_mbind prog_bind Effects.run act fs_handler fs_act d_fail calm default].
      rewrite Hm. cbn [Effects.run act fs_handler fs_act d_fail calm].
      assert (Ho : u !! (dir ++ rel) = None \/ u !! (dir ++ rel) = Some (EFile b)).
      { destruct (u !! (dir ++ rel)) eqn:E; [right|by left]. apply Hu in E; [congruence|done]. }
      assert (Hgrow : grows t (<[dir ++ rel := EFile b]> u)).
      { intros p e Hp2%Hg. destruct (decide (p = dir ++ rel)) as [->|]; [rewrite lookup_insert_eq; destruct Ho; congruence|]. by rewrite lookup_insert_ne. }
      exists (<[dir ++ rel := EFile b]> u). split; [|split; [by apply sub_put|split; [done|by apply file_back]]].
      assert (Hins : <[dir ++ rel := EFile b]> (<[dir ++ rel := EFile ""]> u) = <[dir ++ rel := EFile b]> u) by apply insert_insert_eq.
      rewrite <- Hins. destruct Ho as [-> | ->]; cbn [Effects.run act fs_handler fs_act d_fail calm]; rewrite lookup_insert_eq; reflexivity.
  - destruct (dirs_made (dir ++ rel) t Hs) as (u & Hm & Hu & Hg & _).
    + intros q Hq Hqne. apply prefix_app_inv in Hq. destruct (decide (q = rel)) as [->|]; [done|by apply Hup].
    + right. by apply prefix_app_r.
    + exists u. split; [|by split; [|split]]. cbn [answers tail app snd]. unfold os, call. cbn [Effects.run prog_bind mbind prog_mbind act fs_handler fs_act d_fail calm].
      by rewrite Hm.
Qed.

(** The loop over the entries; what an earlier one wrote a later one leaves. *)
Lemma run_items items fuel t :
  length items < fuel -> Forall from_source items -> sub t ->
  exists u, Effects.run (restore_loop fuel dir) (reading items) t = (Some (Ok tt), [], u) /\ sub u /\ grows t u /\ Forall (fun i => put_back i u) items.
Proof using Hwf Hclean Hdir.
  revert fuel t. induction items as [|i items IH]; intros fuel t Hf Hi Hs; (destruct fuel as [|fuel]; [cbn in Hf; lia|]).
  { exists t. split; [reflexivity|]. split; [done|]. split; [by intros p e|constructor]. }
  apply Forall_cons in Hi as [Hi Hit]. destruct (run_entry i (reading items) t Hi Hs) as (u & Hrun & Hu & Hg & Hb).
  destruct (IH fuel u) as (v & Hrun2 & Hv & Hg2 & Hbs); [cbn in Hf; lia|done|done|].
  exists v. split; [|split; [done|split; [intros p e Hp; by apply Hg2, Hg|constructor; [|done]]]].
  - unfold reading. cbn [map concat]. rewrite <- (assoc_L (++)). unfold reading in Hrun.
    assert (Ha : answers i = calm (Some (entry_of i)) :: tail (answers i)) by done. rewrite Ha.
    cbn [restore_loop]. rewrite run_try. cbn [app Effects.run os call mbind prog_mbind prog_bind act fs_handler fs_act d_entry calm].
    rewrite run_try, Hrun. exact Hrun2.
  - intros rel b Heq Hne Hp. by apply Hg2, Hb.
Qed.

Lemma archived_from_source : Forall from_source (archived (below sdir w)).
Proof using.
  apply Forall_forall. intros i Hi. unfold archived in Hi. apply list_elem_of_omap in Hi as ([rel e] & Hin & Hi).
  apply below_elem in Hin as [Hne Hw]. destruct (left_out _ rel); [done|]. exists rel. by destruct e; simplify_eq.
Qed.

(** The archive of a data directory, restored into an empty one with nothing
    failing, gives back every record the source had, with its bytes, under its name;
    and nothing else is in the directory afterwards than the source had. *)
Theorem a_backup_gives_everything_back fuel archive t :
  length (archived (below sdir w)) < fuel -> rooted dir t -> (forall rel e, rel <> [] -> t !! (dir ++ rel) <> Some e) ->
  exists u, Effects.run (Restore fuel archive dir "") (calm None :: calm None :: reading (archived (below sdir w))) t = (Some (Ok None), [], u) /\
    (forall rel bytes, ordinary rel -> w !! (sdir ++ rel) = Some (EFile bytes) -> u !! (dir ++ rel) = Some (EFile bytes)) /\
    (forall rel e, rel <> [] -> u !! (dir ++ rel) = Some e -> w !! (sdir ++ rel) = Some e).
Proof using Hwf Hclean Hdir.
  intros Hf Hr Hempty. assert (Hs : sub t) by (split; [done|]; intros rel e Hne Ht; by destruct (Hempty rel e)).
  destruct (dirs_made dir t Hs) as (t1 & Hm & Ht1 & _); [|by left|].
  { intros rel Hp%prefix_length Hne. rewrite length_app in Hp. destruct rel; [done|]. cbn in Hp. lia. }
  destruct (run_items _ fuel t1 Hf archived_from_source Ht1) as (u & Hrun & Hu & _ & Hb). exists u. split; [|split].
  - unfold Restore, safety_copy. rewrite bool_decide_true by done. rewrite run_try. cbn [Effects.run]. rewrite run_try.
    cbn [Effects.run os call mbind prog_mbind prog_bind act fs_handler fs_act d_fail calm]. rewrite run_try.
    cbn [Effects.run os call mbind prog_mbind prog_bind act fs_handler fs_act d_fail calm]. rewrite Hm, run_try, Hrun. reflexivity.
  - intros rel bytes Ho Hw. destruct (Hwf _ _ Hw) as [Hp _]. rewrite Forall_forall in Hb. assert (Hne : rel <> []) by (by destruct rel).
    eapply Hb; [|done|done|done]. apply ordinary_archived; [done|by apply below_elem|by intros r e [Hre _]%below_elem].
  - apply Hu.
Qed.
End RoundTrip.

(* ------------------------------------------------------------------ *)
(** ** Restores of a small directory *)

Module Restored.
Import MigrateSafety.Concrete.

Definition entry_answer (e : tar_entry) : dchoice := mkDChoice None "" 0 "1" 1%Z (0, 0)%Z (Ok (Some e)).
(** A safety copy, one file over what is there, and an entry that leaves the
    directory. *)
Definition hostile : list dchoice :=
  map fine (seq 0 10) ++ [entry_answer (mkTar "users/a.json" TypeReg "{new}")] ++ map fine (seq 0 5) ++ [entry_answer (mkTar "../../etc/shadow" TypeReg "x")].
Definition after_hostile : option (result data_error (option (list string))) * list dchoice * tree :=
  Effects.run (Restore 9 ["a.tar.gz"] data "pre-restore") hostile old.

Lemma triple_eta {A B C : Type} (p : A * B * C) : p = (p.1.1, p.1.2, p.2).
Proof. by destruct p as [[? ?] ?]. Qed.

Lemma a_restore_is_contained_and_backed_up_witness :
  after_hostile.1.1 = Some (Err (ErrOutsideDestination "../../etc/shadow")) /\
  after_hostile.2 !! (data ++ ["users"; "a.json"]) = Some (EFile "{new}") /\
  outside data old after_hostile.2 /\ holds_backup data old after_hostile.2.
Proof.
  assert (Hr : rooted data old).
  { intros q [k Hq]. destruct q as [|a [|b q]]; [by vm_compute| |done]. injection Hq as <- _. by vm_compute. }
  assert (Hrun : Effects.run (Restore 9 ["a.tar.gz"] data "pre-restore") hostile old = (after_hostile.1.1, after_hostile.1.2, after_hostile.2)).
  { fold after_hostile. apply triple_eta. }
  destruct (a_restore_is_contained_and_backed_up data 9 ["a.tar.gz"] "pre-restore" old hostile _ _ _ eq_refl Hrun)
    as [Hout Hb]. clear Hrun.
  split; [vm_compute; reflexivity|]. split; [vm_compute; reflexivity|]. split; [exact Hout|].
  destruct Hb as [Hb|Hb]; [done|exact Hr|exists "users", EDir; vm_compute; reflexivity|done| | |exact Hb].
  - assert (Hsafe : Forall (fun x => spares (not_backups data) x) hostile); [|exact Hsafe]. unfold hostile. rewrite !Forall_app. split_and!;
      repeat (constructor; [try exact I; intros target Ht Hp; vm_compute in Ht; simplify_eq; destruct Hp as [k Hk]; vm_compute in Hk; discriminate Hk|]); constructor.
  - specialize (Hb (data ++ ["users"; "a.json"])). exfalso.
    assert (Hne : after_hostile.2 !! (data ++ ["users"; "a.json"]) = old !! (data ++ ["users"; "a.json"])) by (apply Hb; intros [k Hk]; discriminate Hk).
    vm_compute in Hne. discriminate Hne.
Defined.

(** A destination that is there but could not be listed is written over with no copy
    of it. *)
Example unlisted_directory_is_not_copied :
  let '(_, _, t) := Effects.run (Restore 9 ["a.tar.gz"] data "pre-restore") (broken :: map fine (seq 0 2) ++ [entry_answer (mkTar "users/a.json" TypeReg "{new}")] ++ map fine (seq 0 7)) old in
  t !! (data ++ ["users"; "a.json"]) = Some (EFile "{new}") /\ t !! (data ++ [DirName]) = None.
Proof. by vm_compute. Qed.

Definition fresh : tree := {[ [] := EDir; ["new"] := EDir ]}.
Definition copied : tree :=
  {[ [] := EDir; data := EDir; data ++ ["users"] := EDir; data ++ ["users"; "a.json"] := EFile "{}"; data ++ ["VERSION"] := EFile "7";
     data ++ [DirName] := EDir; data ++ [DirName; "old.tar.gz"] := EFile "?" ]}.

Lemma a_backup_gives_everything_back_witness :
  exists u, Effects.run (Restore 9 ["a.tar.gz"] ["new"] "") (calm None :: calm None :: reading (archived (below data copied))) fresh = (Some (Ok None), [], u) /\
    u !! ["new"; "users"; "a.json"] = Some (EFile "{}") /\ u !! ["new"; "VERSION"] = Some (EFile "7").
Proof.
  destruct (a_backup_gives_everything_back data ["new"] copied) with (fuel := 9) (archive := ["a.tar.gz"]) (t := fresh) as (u & Hrun & Hback & Honly).
  - assert (Hall : map_Forall (fun p e => match relative data p with
        | Some rel => forallb plain rel && forallb (fun q => bool_decide (q = rel) || bool_decide (copied !! (data ++ q) = Some EDir)) (map (fun n => take n rel) (seq 0 (S (length rel))))
        | None => true end = true) copied).
    { eapply bool_decide_unpack. by vm_compute. }
    intros rel e Hre. specialize (Hall _ _ Hre). unfold relative in Hall. rewrite bool_decide_true in Hall by (by eexists). rewrite drop_app_length in Hall.
    destruct rel as [|c rel]; [split; [done|]; by intros q ->%prefix_nil_inv|]. apply andb_prop in Hall as [Hp Hq]. split; [by apply Is_true_true|].
    intros q Hpre Hne. rewrite forallb_forall in Hq.
    assert (Hin : In q (map (fun n => take n (c :: rel)) (seq 0 (S (length (c :: rel)))))).
    { apply list_elem_of_In, list_elem_of_fmap. exists (length q). split; [by destruct Hpre as [k ->]; rewrite take_app_length|].
      apply elem_of_seq. apply prefix_length in Hpre. lia. }
    specialize (Hq q Hin). apply orb_prop in Hq as [Hq|Hq]; apply bool_decide_eq_true in Hq; done.
  - reflexivity.
  - done.
  - apply Nat.ltb_lt. vm_compute. reflexivity.
  - intros q [k Hq]. destruct q as [|a [|b q]]; [by vm_compute| |done]. injection Hq as <- _. by vm_compute.
  - intros rel e Hne. destruct rel as [|c rel]; [done|]. unfold fresh. rewrite lookup_insert_ne by done. by rewrite lookup_singleton_ne.
  - exists u. split; [exact Hrun|]. split; [by apply (Hback ["users"; "a.json"] "{}")|]. by apply (Hback ["VERSION"] "7").
Defined.
End Restored.
