(* ===== verification/AuditLog.v ===== *)
(** * The audit log: files, rotation, the writer and the queries

    [internal/audit/rotate.go], [audit.go] and [query.go]. The directory is a
    map of file names; the answers of the file system are an argument of every
    operation that asks it. *)

From S2P Require Import Prelude GoText AuditRecord AuditRedact.

(* ------------------------------------------------------------------ *)
(** ** Files

    A text file is its lines and what stands after the last newline, if a
    write was cut short. A compressed file holds a text; [Torn] is a temporary
    whose writing was interrupted. *)

Record text := mkText { lines : list line; rest : option line }.
Inductive content := Plain (f : text) | Gzip (f : text) | Torn.
Abbreviation directory := (gmap string content) (only parsing).

Definition empty_text : text := mkText [] None.

Definition filePrefix : string := "audit-".
Definition fileSuffix : string := ".jsonl".
Definition compressedExt : string := ".gz".
Definition gzSuffix : string := ".jsonl.gz".
Definition tmpExt : string := ".tmp".
Definition keepPlain : nat := 2.

Definition day_file_name (day : string) : string := filePrefix +:+ day +:+ fileSuffix.

(** [listFiles]: the names with the prefix that pass a filter, sorted. That the
    directory itself cannot be listed is left out. *)
Definition listFiles (dir : directory) (keep : string -> bool) : list string :=
  sort_strings (List.filter (fun n => bool_decide (is_Some (cut_prefix filePrefix n)) && keep n) (map fst (map_to_list dir))).

Definition plainFiles (dir : directory) : list string := listFiles dir (fun n => has_suffix n fileSuffix).

Definition dayOf (name : string) : string :=
  trim_suffix (trim_suffix (trim_prefix name filePrefix) compressedExt) fileSuffix.

(** One turn of [dedupeByDay]: [seen] maps a day to its place in [out]. *)
Definition dedupe_step (out : list string) (p : string) : list string :=
  match list_find (fun q => dayOf q = dayOf p) out with
  | Some (i, _) => if has_suffix p compressedExt then <[i := p]> out else out
  | None => out ++ [p]
  end.
Definition dedupeByDay (paths : list string) : list string := foldl dedupe_step [] paths.

Definition allFiles (dir : directory) : list string :=
  dedupeByDay (listFiles dir (fun n => has_suffix n fileSuffix || has_suffix n gzSuffix)).

(** The lines of a text in order, numbered from 1; blank ones are skipped, one
    that does not decode is an error of the whole file. *)
Fixpoint decode_lines (at_ : nat) (ls : list line) : result unit (list located) :=
  match ls with
  | [] => Ok []
  | LBlank :: ls' => decode_lines (S at_) ls'
  | LBad :: _ => Err tt
  | LRec r :: ls' =>
      match decode_lines (S at_) ls' with
      | Ok l => Ok ((r, at_) :: l)
      | Err e => Err e
      end
  end.
Definition text_lines (f : text) : list line := lines f ++ option_list (rest f).

(** [readFileLocated]: a missing file is empty. [opens] says whether opening
    and reading a file succeeds. *)
Definition readFileLocated (opens : string -> bool) (dir : directory) (path : string) : result unit (list located) :=
  match dir !! path with
  | None => Ok []
  | Some c =>
      if negb (opens path) then Err tt
      else match c, has_suffix path compressedExt with
           | Plain f, false | Gzip f, true => decode_lines 1 (text_lines f)
           | _, _ => Err tt
           end
  end.

Definition readFile (opens : string -> bool) (dir : directory) (path : string) : result unit (list Record_) :=
  match readFileLocated opens dir path with
  | Ok l => Ok (map fst l)
  | Err e => Err e
  end.

(** How far the compression of a file gets: the first operation that fails. *)
Inductive cut := CutOpen | CutTemp | CutGzip | CutRename | CutSync | CutRemove | CutSyncAgain | NoCut.

Definition tmp_of (path : string) : string := path +:+ compressedExt +:+ tmpExt.
Definition gz_of (path : string) : string := path +:+ compressedExt.

Definition compressFile (dir : directory) (path : string) (c : cut) : directory * bool :=
  match dir !! path with
  | Some (Plain f) =>
      let renamed := <[gz_of path := Gzip f]> (delete (tmp_of path) dir) in
      match c with
      | CutOpen | CutTemp => (dir, false)
      | CutGzip | CutRename => (delete (tmp_of path) dir, false)
      | CutSync | CutRemove => (renamed, false)
      | CutSyncAgain => (delete path renamed, false)
      | NoCut => (delete path renamed, true)
      end
  | _ => (dir, false)
  end.

(** The states a crash in the middle of [compressFile] can leave behind. *)
Definition crash_compress (dir : directory) (path : string) : list directory :=
  match dir !! path with
  | Some (Plain f) =>
      [dir; <[tmp_of path := Torn]> dir; <[tmp_of path := Gzip f]> dir;
       <[gz_of path := Gzip f]> (delete (tmp_of path) dir);
       delete path (<[gz_of path := Gzip f]> (delete (tmp_of path) dir))]
  | _ => [dir]
  end.

Fixpoint compress_all (cuts : string -> cut) (dir : directory) (paths : list string) : directory * bool :=
  match paths with
  | [] => (dir, true)
  | p :: rest =>
      match compressFile dir p (cuts p) with
      | (dir, true) => compress_all cuts dir rest
      | (dir, false) => (dir, false)
      end
  end.

Definition CompressOlderThan (cuts : string -> cut) (dir : directory) (keep : nat) : directory * bool :=
  let plain := plainFiles dir in
  if bool_decide (keep < 1) || bool_decide (length plain ≤ keep) then (dir, true)
  else compress_all cuts dir (take (length plain - keep) plain).

(* ------------------------------------------------------------------ *)
(** ** The writer *)

Inductive write_result := WFull | WNone | WPart (whole : bool).

(** The answers of the system during one operation of the logger. *)
Record io := mkIO {
  now : time;
  sync_day : bool;
  close_day : bool;
  open_file : bool;
  cuts : string -> cut;
  write : write_result;
  sync : bool
}.

Inductive verdict := mkVerdict (v_ok : bool) (v_file : string) (v_line : nat) (v_at : time).

Record Logger := mkLogger {
  dir : directory;
  file : bool;
  day : string;
  seq : Z;
  lastHash : string;
  pending : gmap Z Record_;
  lastVerify : option verdict;
  closed : bool
}.

Definition set_dir (d : directory) (l : Logger) : Logger :=
  mkLogger d (file l) (day l) (seq l) (lastHash l) (pending l) (lastVerify l) (closed l).
Definition set_file (f : bool) (d : string) (l : Logger) : Logger :=
  mkLogger (dir l) f d (seq l) (lastHash l) (pending l) (lastVerify l) (closed l).
Definition set_tail (s : Z) (h : string) (l : Logger) : Logger :=
  mkLogger (dir l) (file l) (day l) s h (pending l) (lastVerify l) (closed l).
Definition set_pending (p : gmap Z Record_) (l : Logger) : Logger :=
  mkLogger (dir l) (file l) (day l) (seq l) (lastHash l) p (lastVerify l) (closed l).
Definition set_lastVerify (v : option verdict) (l : Logger) : Logger :=
  mkLogger (dir l) (file l) (day l) (seq l) (lastHash l) (pending l) v (closed l).

Inductive log_err :=
  ErrClosed | ErrSyncDay | ErrCloseDay | ErrOpenDay | ErrEncode | ErrAppend | ErrFsync | ErrNoPending | ErrResume | ErrCompress.

Definition current_path (l : Logger) : string := day_file_name (day l).
Definition CurrentFile (l : Logger) : string := current_path l.

(** [Close]; whether closing the file fails is in [io]. *)
Definition Close (e : io) (l : Logger) : Logger * bool :=
  if closed l || negb (file l) then
    (mkLogger (dir l) (file l) (day l) (seq l) (lastHash l) (pending l) (lastVerify l) true, true)
  else (mkLogger (dir l) false (day l) (seq l) (lastHash l) (pending l) (lastVerify l) true, close_day e).

(** [O_APPEND|O_CREATE]. *)
Definition create_file (dir : directory) (path : string) : directory :=
  match dir !! path with Some _ => dir | None => <[path := Plain empty_text]> dir end.

Definition openDay (e : io) (l : Logger) : Logger * option log_err :=
  let d := format_day (now e) in
  if file l && bool_decide (day l = d) then (l, None)
  else
    let rotating := file l in
    if rotating && negb (sync_day e) then (l, Some ErrSyncDay)
    else if rotating && negb (close_day e) then (l, Some ErrCloseDay)
    else
      let l := if rotating then set_file false (day l) l else l in
      if negb (open_file e) then (l, Some ErrOpenDay)
      else
        let l := set_file true d (set_dir (create_file (dir l) (day_file_name d)) l) in
        if rotating then (set_dir (CompressOlderThan (cuts e) (dir l) keepPlain).1 l, None)
        else (l, None).

(** What a write to the end of a text leaves: a line that follows an
    unterminated one becomes one line with it. *)
Definition append_line (f : text) (x : line) (w : write_result) : text :=
  match w, rest f with
  | WNone, _ => f
  | WFull, None => mkText (lines f ++ [x]) None
  | WFull, Some _ => mkText (lines f ++ [LBad]) None
  | WPart whole, None => mkText (lines f) (Some (if whole then x else LBad))
  | WPart _, Some _ => mkText (lines f) (Some LBad)
  end.

Definition write_file (dir : directory) (path : string) (x : line) (w : write_result) : directory :=
  match dir !! path with
  | Some (Plain f) => <[path := Plain (append_line f x w)]> dir
  | _ => dir
  end.

Definition year_ok (t : time) : bool := bool_decide (0 <= t)%Z && bool_decide (t < days_before 10000 * day_length)%Z.

Section Log.
Context `{Sha256}.

(** The record as it is sealed into the chain. *)
Definition seal_record (l : Logger) (t : time) (r : Record_) : Record_ :=
  let s := ((seq l + 1) mod 2 ^ 64)%Z in
  let r := mkRecord s t (Actor r) (ShortSession (Session r)) (SrcIP r) (ClusterID r) (MachineID r) (Action r)
             (Params r) (JobID r) (Outcome r) (lastHash l) (Hash r) in
  mkRecord s t (Actor r) (Session r) (SrcIP r) (ClusterID r) (MachineID r) (Action r)
    (Params r) (JobID r) (Outcome r) (lastHash l) (ComputeHash (lastHash l) r).

Definition append (e : io) (r : Record_) (l : Logger) : Logger * result log_err Record_ :=
  if closed l then (l, Err ErrClosed)
  else match openDay e l with
       | (l, Some err) => (l, Err err)
       | (l, None) =>
           if negb (year_ok (now e)) then (l, Err ErrEncode)
           else
             let rec := seal_record l (now e) r in
             let l := set_dir (write_file (dir l) (current_path l) (encode_line rec) (write e)) l in
             match write e with
             | WFull => if sync e then (set_tail (Seq rec) (Hash rec) l, Ok rec) else (l, Err ErrFsync)
             | WNone | WPart _ => (l, Err ErrAppend)
             end
       end.

Definition pendingTTL : duration := (5 * minute)%Z.

Definition evictStalePending (t : time) (p : gmap Z Record_) : gmap Z Record_ :=
  filter (fun kv => (time_sub t (TS kv.2) <= pendingTTL)%Z) p.

Definition set_outcome (o : string) (r : Record_) : Record_ :=
  mkRecord (Seq r) (TS r) (Actor r) (Session r) (SrcIP r) (ClusterID r) (MachineID r) (Action r) (Params r)
    (JobID r) o (PrevHash r) (Hash r).

Definition Attempt (e : io) (r : Record_) (l : Logger) : Logger * result log_err Z :=
  match append e (set_outcome OutcomeAttempt r) l with
  | (l, Err err) => (l, Err err)
  | (l, Ok written) =>
      (set_pending (<[Seq written := written]> (evictStalePending (TS written) (pending l))) l, Ok (Seq written))
  end.

(** The result record of an attempt. *)
Definition outcome_record (att : Record_) (outcome : string) (cause : option string) : Record_ :=
  mkRecord 0 0 (Actor att) (Session att) (SrcIP att) (ClusterID att) (MachineID att) (Action att)
    (match cause with Some c => [("error", VStr (OutcomeCause c))] | None => [] end)
    (JobID att) outcome "" "".

Definition Outcome_ (e : io) (s : Z) (outcome : string) (cause : option string) (l : Logger) : Logger * option log_err :=
  match pending l !! s with
  | None => (l, Some ErrNoPending)
  | Some att =>
      let l := set_pending (delete s (pending l)) l in
      match append e (outcome_record att outcome cause) l with
      | (l, Err err) => (l, Some err)
      | (l, Ok _) => (l, None)
      end
  end.

(** [resume]: the newest file that holds a record. *)
Fixpoint resume_from (opens : string -> bool) (dir : directory) (newest_first : list string) : result unit (option Record_) :=
  match newest_first with
  | [] => Ok None
  | p :: older =>
      match readFile opens dir p with
      | Err e => Err e
      | Ok recs => match last recs with
                   | Some r => Ok (Some r)
                   | None => resume_from opens dir older
                   end
      end
  end.

Definition open (opens : string -> bool) (e : io) (d : directory) : result log_err Logger * directory :=
  match resume_from opens d (reverse (allFiles d)) with
  | Err _ => (Err ErrResume, d)
  | Ok tail =>
      let l := match tail with
               | Some r => mkLogger d false "" (Seq r) (Hash r) ∅ None false
               | None => mkLogger d false "" 0 Genesis ∅ None false
               end in
      match openDay e l with
      | (l, Some err) => (Err err, dir l)
      | (l, None) =>
          match CompressOlderThan (cuts e) (dir l) keepPlain with
          | (d, true) => (Ok (set_dir d l), d)
          | (d, false) => (Err ErrCompress, d)
          end
      end
  end.

(** The verification's window: the last two files. *)
Definition window (files : list string) : list string := drop (length files - 2) files.

Definition verifyLocked (cancelled : nat -> bool) (opens : string -> bool) (l : Logger) : verify_result :=
  VerifyContext cancelled (map (fun p => (p, readFileLocated opens (dir l) p)) (window (allFiles (dir l)))).

Definition verifyCacheTTL : duration := (30 * second)%Z.

(** The clock is read twice: before and after. *)
Definition CachedVerify (t t' : time) (cancelled : nat -> bool) (opens : string -> bool) (l : Logger) : Logger * verify_result :=
  let live :=
    match verifyLocked cancelled opens l with
    | VErr err => (l, VErr err)
    | VOk => (set_lastVerify (Some (mkVerdict true "" 0 t')) l, VOk)
    | VBreak p n => (set_lastVerify (Some (mkVerdict false p n t')) l, VBreak p n)
    end in
  match lastVerify l with
  | Some (mkVerdict ok p n at_) =>
      if negb (is_zero at_) && bool_decide (time_sub t at_ < verifyCacheTTL)%Z
      then (l, if ok then VOk else VBreak p n) else live
  | None => live
  end.
End Log.

(* ------------------------------------------------------------------ *)
(** ** Queries *)

Definition DefaultLimit : Z := 100.
Definition MaxLimit : Z := 1000.

Record Filter := mkFilter { From : time; To : time; FAction : string; Limit : Z; Cursor : Z }.
Record Page := mkPage { Items : list Record_; NextCursor : option Z }.

Definition effectiveLimit (n : Z) : nat :=
  Z.to_nat (if bool_decide (n <= 0)%Z then DefaultLimit else if bool_decide (MaxLimit < n)%Z then MaxLimit else n).

Definition matches (f : Filter) (r : Record_) : bool :=
  negb (negb (bool_decide (Cursor f = 0%Z)) && bool_decide (Cursor f <= Seq r)%Z)
  && negb (negb (is_zero (From f)) && bool_decide (TS r < From f)%Z)
  && negb (negb (is_zero (To f)) && bool_decide (To f < TS r)%Z)
  && negb (negb (bool_decide (FAction f = "")) && negb (bool_decide (Action r = FAction f))).

(** Whether a day file survives [withinWindow]. *)
Definition in_window (from to : time) (p : string) : bool :=
  let d := dayOf p in
  negb (negb (is_zero from) && str_lt d (format_day from))
  && negb (negb (is_zero to) && str_lt (format_day to) d).
Definition withinWindow (files : list string) (from to : time) : list string :=
  if is_zero from && is_zero to then files else List.filter (in_window from to) files.

(** One file, newest record first: the page so far, or the finished page. *)
Fixpoint page_records (f : Filter) (limit : nat) (recs : list Record_) (items : list Record_) : list Record_ + Page :=
  match recs with
  | [] => inl items
  | r :: older =>
      if matches f r then
        if bool_decide (length items = limit) then
          inr (mkPage items (Seq <$> items !! (limit - 1)))
        else page_records f limit older (items ++ [r])
      else page_records f limit older items
  end.

Fixpoint page_files (f : Filter) (limit : nat) (cancelled : nat -> bool) (polls : nat)
    (files : list (result unit (list Record_))) (items : list Record_) : result verdict_err Page :=
  match files with
  | [] => Ok (mkPage items None)
  | read :: older =>
      if cancelled polls then Err ErrCancelled
      else match read with
           | Err _ => Err (ErrRead "")
           | Ok recs =>
               match page_records f limit (reverse recs) items with
               | inr page => Ok page
               | inl items => page_files f limit cancelled (S polls) older items
               end
           end
  end.

Definition Query (cancelled : nat -> bool) (opens : string -> bool) (dir : directory) (f : Filter) : result verdict_err Page :=
  page_files f (effectiveLimit (Limit f)) cancelled 0
    (map (readFile opens dir) (reverse (withinWindow (allFiles dir) (From f) (To f)))) [].

(* ------------------------------------------------------------------ *)
(** ** Names *)

Lemma string_rev_app_both (a b : string) : string_rev (a +:+ b) = string_rev b +:+ string_rev a.
Proof.
  induction a as [|c a IH]; [by rewrite str_app_nil, (right_id_L "" String.append)|].
  rewrite str_app_cons, !string_rev_cons, IH. by rewrite (assoc_L String.append).
Qed.

Lemma cut_suffix_app a s suf :
  cut_suffix (a +:+ s) suf = string_rev <$> cut_prefix (string_rev suf) (string_rev s +:+ string_rev a).
Proof. unfold cut_suffix. by rewrite string_rev_app_both. Qed.

(** A day is ten characters, as [format_day] prints it. *)
Definition is_day (d : string) : Prop := String.length d = 10.
Definition plain_name (d : string) : string := day_file_name d.
Definition gz_name (d : string) : string := gz_of (day_file_name d).

Lemma format_day_is_day t : is_day (format_day t).
Proof. unfold is_day, format_day. destruct (civil _) as [[y m] d]. apply date_text_length. Qed.

Lemma plain_name_app d : plain_name d = (filePrefix +:+ d) +:+ fileSuffix.
Proof. unfold plain_name, day_file_name. by rewrite (assoc_L String.append). Qed.
Lemma gz_name_app d : gz_name d = (filePrefix +:+ d) +:+ gzSuffix.
Proof. unfold gz_name, gz_of. rewrite plain_name_app. by rewrite <- (assoc_L String.append). Qed.

Lemma trim_suffix_app a s : trim_suffix (a +:+ s) s = a.
Proof.
  unfold trim_suffix. rewrite cut_suffix_app, cut_prefix_app. apply string_rev_involutive.
Qed.

Lemma trim_gz_of_plain d : trim_suffix (d +:+ fileSuffix) compressedExt = d +:+ fileSuffix.
Proof. unfold trim_suffix. by rewrite cut_suffix_app. Qed.

Lemma trim_prefix_app p d : trim_prefix (p +:+ d) p = d.
Proof. unfold trim_prefix. by rewrite cut_prefix_app. Qed.

Lemma dayOf_plain d : dayOf (plain_name d) = d.
Proof. unfold dayOf, plain_name, day_file_name. by rewrite trim_prefix_app, trim_gz_of_plain, trim_suffix_app. Qed.

Lemma dayOf_gz d : dayOf (gz_name d) = d.
Proof.
  unfold dayOf, gz_name, gz_of, day_file_name. rewrite <- !(assoc_L String.append), trim_prefix_app.
  by rewrite (assoc_L String.append), !trim_suffix_app.
Qed.

Lemma plain_name_inj d d' : plain_name d = plain_name d' -> d = d'.
Proof. intros E. by rewrite <- (dayOf_plain d), E, dayOf_plain. Qed.
Lemma gz_name_inj d d' : gz_name d = gz_name d' -> d = d'.
Proof. intros E. by rewrite <- (dayOf_gz d), E, dayOf_gz. Qed.

Lemma suffix_plain d : has_suffix (plain_name d) fileSuffix = true.
Proof. unfold has_suffix. rewrite plain_name_app, cut_suffix_app, cut_prefix_app. done. Qed.
Lemma suffix_plain_gz d : has_suffix (plain_name d) compressedExt = false.
Proof. unfold has_suffix. rewrite plain_name_app, cut_suffix_app. done. Qed.
Lemma suffix_gz d : has_suffix (gz_name d) compressedExt = true.
Proof.
  unfold has_suffix, gz_name, gz_of. rewrite cut_suffix_app, cut_prefix_app. done.
Qed.
Lemma suffix_gz_plain d : has_suffix (gz_name d) fileSuffix = false.
Proof. unfold has_suffix. rewrite gz_name_app, cut_suffix_app. done. Qed.
Lemma suffix_gz_gz d : has_suffix (gz_name d) gzSuffix = true.
Proof. unfold has_suffix. rewrite gz_name_app, cut_suffix_app, cut_prefix_app. done. Qed.

Lemma plain_ne_gz d d' : plain_name d <> gz_name d'.
Proof. intros E. pose proof (suffix_plain d) as H. by rewrite E, suffix_gz_plain in H. Qed.

Definition is_log (n : string) : bool := has_suffix n fileSuffix || has_suffix n gzSuffix.

Lemma tmp_not_log n : is_log (n +:+ tmpExt) = false.
Proof. unfold is_log, has_suffix. rewrite !cut_suffix_app. done. Qed.

Lemma tmp_of_eq d : tmp_of (plain_name d) = gz_name d +:+ tmpExt.
Proof. unfold tmp_of, gz_name, gz_of. by rewrite (assoc_L String.append). Qed.

Lemma tmp_ne d d' : tmp_of (plain_name d) <> plain_name d' /\ tmp_of (plain_name d) <> gz_name d'.
Proof.
  rewrite tmp_of_eq. split; intros E; pose proof (tmp_not_log (gz_name d)) as T; rewrite E in T; unfold is_log in T.
  - by rewrite suffix_plain in T.
  - by rewrite suffix_gz_gz, orb_true_r in T.
Qed.

(** Names are ordered as their days, the plain file first. *)
Lemma name_lt_spec d d' (x y : string) :
  is_day d -> is_day d' ->
  str_lt ((filePrefix +:+ d) +:+ x) ((filePrefix +:+ d') +:+ y) = true ->
  str_lt d d' = true \/ (d = d' /\ str_lt x y = true).
Proof.
  intros Hd Hd'. rewrite <- !(assoc_L String.append). unfold str_lt, String.ltb.
  rewrite str_compare_app by done. rewrite str_compare_refl, str_compare_app by congruence.
  destruct (String.compare d d') eqn:E; [apply String.compare_eq_iff in E; auto|auto|done].
Qed.

(* ------------------------------------------------------------------ *)
(** ** What a directory lists *)

(** Every log file of the directory is named for a day. *)
Definition wf_name (n : string) : Prop := exists d, is_day d /\ (n = plain_name d \/ n = gz_name d).
Definition wf_dir (dir : directory) : Prop :=
  forall n, is_Some (dir !! n) -> is_Some (cut_prefix filePrefix n) -> is_log n = true -> wf_name n.

Definition day_lt (a b : string) : Prop := str_lt (dayOf a) (dayOf b) = true.

#[global] Instance day_lt_trans : Transitive day_lt.
Proof. intros a b c. apply str_lt_trans. Qed.

Lemma listFiles_elem dir keep n :
  n ∈ listFiles dir keep <-> is_Some (dir !! n) /\ is_Some (cut_prefix filePrefix n) /\ keep n = true.
Proof.
  unfold listFiles, sort_strings. rewrite merge_sort_Permutation, list_elem_of_In, filter_In, in_map_iff.
  rewrite andb_true_iff, bool_decide_eq_true. split.
  - intros (([n' c] & <- & Hin) & ?). split; [|done]. apply list_elem_of_In, elem_of_map_to_list in Hin. by eexists.
  - intros ((c & Hc) & ?). split; [|done]. exists (n, c). split; [done|]. by apply list_elem_of_In, elem_of_map_to_list.
Qed.

Lemma listFiles_strict dir keep : StronglySorted strict (listFiles dir keep).
Proof.
  apply sort_strings_strict, NoDup_ListNoDup. apply List.NoDup_filter, NoDup_ListNoDup. apply NoDup_fst_map_to_list.
Qed.

Lemma wf_name_lt n m : wf_name n -> wf_name m -> strict n m ->
  day_lt n m \/ exists d, is_day d /\ n = plain_name d /\ m = gz_name d.
Proof.
  intros (d & Hd & [-> | ->]) (d' & Hd' & [-> | ->]) H; unfold day_lt; rewrite ?dayOf_plain, ?dayOf_gz;
    unfold strict in H; rewrite ?plain_name_app, ?gz_name_app in H;
    apply name_lt_spec in H as [H|[<- H]]; auto; try done.
  right. exists d. split; [done|]. by rewrite plain_name_app, gz_name_app.
Qed.

(** What [dedupeByDay] keeps: of each day one file, the compressed one. *)
Definition kept (l : list string) (p : string) : Prop :=
  p ∈ l /\ forall d, p = plain_name d -> gz_name d ∉ l.

Lemma list_find_none_day out p : (forall o, o ∈ out -> day_lt o p) -> list_find (fun q => dayOf q = dayOf p) out = None.
Proof.
  intros H. apply list_find_None, Forall_forall. intros o Ho E. specialize (H o Ho). unfold day_lt in H.
  by rewrite E, str_lt_irrefl in H.
Qed.

Lemma dedupe_new out p : (forall o, o ∈ out -> day_lt o p) -> dedupe_step out p = out ++ [p].
Proof. intros H. unfold dedupe_step. by rewrite list_find_none_day. Qed.

Lemma dedupe_twice out d :
  (forall o, o ∈ out -> day_lt o (plain_name d)) ->
  dedupe_step (out ++ [plain_name d]) (gz_name d) = out ++ [gz_name d].
Proof.
  intros H. unfold dedupe_step.
  assert (list_find (fun q => dayOf q = dayOf (gz_name d)) (out ++ [plain_name d]) = Some (length out, plain_name d)) as ->.
  { apply list_find_Some. split; [by apply list_lookup_middle|]. split; [by rewrite dayOf_plain, dayOf_gz|].
    intros j o Hj Hl E. apply lookup_app_Some in Hj as [Hj|[? _]]; [|lia].
    apply list_elem_of_lookup_2 in Hj. specialize (H o Hj). unfold day_lt in H.
    rewrite dayOf_gz in E. by rewrite E, dayOf_plain, str_lt_irrefl in H. }
  rewrite suffix_gz. rewrite <- (Nat.add_0_r (length out)), insert_app_r. done.
Qed.

Lemma day_lt_irrefl p q : dayOf p = dayOf q -> ~ day_lt p q.
Proof. unfold day_lt. intros ->. by rewrite str_lt_irrefl. Qed.

Lemma day_lt_later p q x : wf_name q -> wf_name x -> day_lt p q -> q = x \/ strict q x -> day_lt p x.
Proof.
  intros Hq Hx Hpq [<-|Hs]; [done|]. destruct (wf_name_lt q x Hq Hx Hs) as [?|(d & _ & -> & ->)]; [by etransitivity|].
  unfold day_lt in *. by rewrite dayOf_gz, dayOf_plain in *.
Qed.

Lemma day_lt_after_gz d x : is_day d -> wf_name x -> strict (gz_name d) x -> day_lt (gz_name d) x.
Proof.
  intros Hd Hx Hs. destruct (wf_name_lt _ x ltac:(by exists d; auto) Hx Hs) as [?|(d' & _ & E & _)]; [done|].
  by destruct (plain_ne_gz d' d).
Qed.

(** A file of an earlier day than all others is kept, and changes nothing else. *)
Lemma kept_cons p l x : wf_name p -> (forall y, y ∈ l -> day_lt p y) -> kept (p :: l) x <-> x = p \/ kept l x.
Proof.
  intros Hp Hl. unfold kept. rewrite elem_of_cons. split.
  - intros [[->|Hx] Hk]; [by left|right]. split; [done|]. intros d -> Hg. eapply Hk; [done|by right].
  - intros [->|[Hx Hk]].
    + split; [by left|]. intros d -> [E|Hg]%elem_of_cons; [by apply (plain_ne_gz d d)|].
      apply (day_lt_irrefl (plain_name d) (gz_name d)); [by rewrite dayOf_plain, dayOf_gz|by apply Hl].
    + split; [by right|]. intros d -> [E|Hg]%elem_of_cons; [|by eapply Hk].
      apply (day_lt_irrefl p (plain_name d)); [by rewrite <- E, dayOf_plain, dayOf_gz|by apply Hl].
Qed.

Lemma kept_twice d l x : kept (plain_name d :: gz_name d :: l) x <-> kept (gz_name d :: l) x.
Proof.
  unfold kept. rewrite elem_of_cons. split.
  - intros [[->|Hx] Hk]; [by destruct (Hk d eq_refl); right; left|]. split; [done|]. intros e -> Hg.
    eapply Hk; [done|by right].
  - intros [Hx Hk]. split; [by right|]. intros e -> [E|Hg]%elem_of_cons; [by apply (plain_ne_gz d e)|by eapply Hk].
Qed.

Lemma fold_dedupe n : forall l out, length l ≤ n -> Forall wf_name l -> StronglySorted strict l ->
  (forall o x, o ∈ out -> x ∈ l -> day_lt o x) ->
  exists res, foldl dedupe_step out l = out ++ res /\ StronglySorted day_lt res /\ (forall p, p ∈ res <-> kept l p).
Proof.
  induction n as [|n IH]; intros [|p l] out Hn Hw Hs Hout; cbn [length] in Hn; try lia;
    try (exists []; rewrite (right_id_L [] (++)); split; [done|]; split; [constructor|]; intros q; unfold kept;
         rewrite elem_of_nil; split; [done|by intros [[] _]]).
  apply Forall_cons in Hw as [Hp Hw]. apply StronglySorted_inv in Hs as [Hs Hall].
  assert (Hw' := Hw). rewrite Forall_forall in Hall, Hw'. cbn [foldl].
  rewrite dedupe_new by (intros; apply Hout; [done|by left]).
  assert ((forall y, y ∈ l -> day_lt p y) ->
            exists res, foldl dedupe_step (out ++ [p]) l = out ++ res /\ StronglySorted day_lt res
                        /\ (forall x, x ∈ res <-> kept (p :: l) x)) as Hcase.
  { intros Hlt. destruct (IH l (out ++ [p])) as (res & -> & Hr & Hm); [lia|done|done| |].
    { intros o x Ho Hx. apply elem_of_app in Ho as [Ho| ->%list_elem_of_singleton]; [apply Hout; [done|by right]|by apply Hlt]. }
    exists (p :: res). split; [by rewrite <- (assoc_L (++))|]. split.
    - constructor; [done|]. apply Forall_forall. intros x [Hx _]%Hm. by apply Hlt.
    - intros x. rewrite elem_of_cons, Hm. symmetry. by apply kept_cons. }
  destruct l as [|q l']; [apply Hcase; intros y Hy; by apply elem_of_nil in Hy|].
  destruct (wf_name_lt p q Hp) as [Hlt|(d & Hd & -> & ->)]; [apply Hw'; by left|apply Hall; by left| |].
  - apply Hcase. intros y Hy. apply StronglySorted_inv in Hs as [_ Hs]. rewrite Forall_forall in Hs.
    eapply (day_lt_later p q y); [apply Hw'; by left|by apply Hw'|done|].
    apply elem_of_cons in Hy as [->|Hy]; [by left|right; by apply Hs].
  - clear Hcase. apply StronglySorted_inv in Hs as [Hs Hq]. rewrite Forall_forall in Hq. cbn [foldl].
    rewrite dedupe_twice by (intros; apply Hout; [done|by left]).
    assert (forall y, y ∈ l' -> day_lt (gz_name d) y) as Hlt.
    { intros y Hy. apply day_lt_after_gz; [done|apply Hw'; by right|by apply Hq]. }
    destruct (IH l' (out ++ [gz_name d])) as (res & -> & Hr & Hm);
      [cbn in *; lia|by apply Forall_cons in Hw as [_ ?]|done| |].
    { intros o x Ho Hx. apply elem_of_app in Ho as [Ho| ->%list_elem_of_singleton]; [|by apply Hlt].
      apply Hout; [done|by right; right]. }
    exists (gz_name d :: res). split; [by rewrite <- (assoc_L (++))|]. split.
    + constructor; [done|]. apply Forall_forall. intros x [Hx _]%Hm. by apply Hlt.
    + intros x. rewrite elem_of_cons, Hm, kept_twice. symmetry. apply kept_cons; [apply Hw'; by left|done].
Qed.

(** The files of an archive: one per day, in the order of the days. *)
Lemma allFiles_spec dir :
  wf_dir dir ->
  StronglySorted day_lt (allFiles dir)
  /\ forall p, p ∈ allFiles dir <-> exists d, is_day d /\
       ((p = gz_name d /\ is_Some (dir !! gz_name d))
        \/ (p = plain_name d /\ is_Some (dir !! plain_name d) /\ dir !! gz_name d = None)).
Proof.
  intros Hwf. unfold allFiles, dedupeByDay. set (l := listFiles dir _).
  assert (forall p, p ∈ l <-> is_Some (dir !! p) /\ wf_name p) as Hl.
  { intros p. subst l. rewrite listFiles_elem. split.
    - intros (H1 & H2 & H3). split; [done|]. by apply Hwf.
    - intros (H1 & d & Hd & [-> | ->]); (split; [done|]); split.
      + exists (d +:+ fileSuffix). apply cut_prefix_app.
      + by rewrite suffix_plain.
      + unfold gz_name, gz_of, day_file_name. rewrite <- !(assoc_L String.append). eexists. apply cut_prefix_app.
      + by rewrite suffix_gz_gz, orb_true_r. }
  destruct (fold_dedupe (length l) l []) as (res & -> & Hs & Hm); [done| |apply listFiles_strict| |].
  - apply Forall_forall. intros p Hp. by apply Hl in Hp as [_ ?].
  - intros o x Ho. by apply elem_of_nil in Ho.
  - cbn [app]. split; [done|]. intros p. rewrite Hm. unfold kept. rewrite Hl. split.
    + intros ((Hp & d & Hd & [-> | ->]) & Hk); exists d; (split; [done|]); [right|by left].
      split; [done|]. split; [done|]. destruct (dir !! gz_name d) eqn:E; [|done].
      destruct (Hk d eq_refl). apply Hl. split; [by rewrite E|]. exists d. auto.
    + intros (d & Hd & [[-> H]|(-> & H & Hn)]).
      * split; [split; [done|exists d; auto]|]. intros e E. by destruct (plain_ne_gz e d).
      * split; [split; [done|exists d; auto]|]. intros e <-%plain_name_inj [Hg _]%Hl. rewrite Hn in Hg. by destruct Hg.
Qed.

(* ------------------------------------------------------------------ *)
(** ** The archive of a directory *)

Definition days (dir : directory) : list string := map dayOf (allFiles dir).

Lemma sorted_same_members (l l' : list string) :
  StronglySorted strict l -> StronglySorted strict l' -> (forall x, x ∈ l <-> x ∈ l') -> l = l'.
Proof.
  intros Hl Hl' H. apply (StronglySorted_unique_strong strict); [|done|done|].
  - intros x y _ _ Hxy Hyx. unfold strict in *. pose proof (str_lt_trans _ _ _ Hxy Hyx) as E. by rewrite str_lt_irrefl in E.
  - assert (forall k, StronglySorted strict k -> NoDup k) as Hnd.
    { intros k Hk. induction Hk as [|a k _ IH Ha]; constructor; [|done]. intros Hin. rewrite Forall_forall in Ha.
      specialize (Ha a Hin). unfold strict in Ha. by rewrite str_lt_irrefl in Ha. }
    apply NoDup_Permutation; auto.
Qed.

Lemma days_sorted dir : wf_dir dir -> StronglySorted strict (days dir).
Proof.
  intros [Hs _]%allFiles_spec. unfold days. induction Hs as [|p l _ IH Hp]; constructor; [done|].
  apply Forall_forall. intros x Hx. apply list_elem_of_In, in_map_iff in Hx as (q & <- & Hq%list_elem_of_In).
  rewrite Forall_forall in Hp. by apply Hp.
Qed.

Lemma days_elem dir d :
  wf_dir dir -> d ∈ days dir <-> is_day d /\ (is_Some (dir !! plain_name d) \/ is_Some (dir !! gz_name d)).
Proof.
  intros [_ Hm]%allFiles_spec. unfold days. rewrite list_elem_of_In, in_map_iff. split.
  - intros (p & <- & Hp%list_elem_of_In%Hm). destruct Hp as (e & He & [[-> H]|(-> & H & _)]);
      rewrite ?dayOf_plain, ?dayOf_gz; auto.
  - intros (Hd & H). destruct (dir !! gz_name d) eqn:E.
    + exists (gz_name d). rewrite dayOf_gz. split; [done|]. apply list_elem_of_In, Hm. exists d. rewrite E. eauto.
    + exists (plain_name d). rewrite dayOf_plain. split; [done|]. apply list_elem_of_In, Hm. exists d.
      destruct H as [H|[? H]]; [eauto 6|done].
Qed.

(** A text as a writer that is never cut short leaves it. *)
Definition is_rec (x : line) : Prop := exists r, x = LRec r.
Definition clean (f : text) : Prop := rest f = None /\ Forall is_rec (lines f).
Definition line_record (x : line) : list Record_ := match x with LRec r => [r] | _ => [] end.
Definition text_records (f : text) : list Record_ := concat (map line_record (lines f)).

(** The text of a day, wherever it is kept. *)
Definition day_text (dir : directory) (d : string) : text :=
  match dir !! gz_name d with
  | Some (Gzip f) => f
  | _ => match dir !! plain_name d with Some (Plain f) => f | _ => empty_text end
  end.

Definition archive (dir : directory) : list Record_ := concat (map (fun d => text_records (day_text dir d)) (days dir)).

(** A directory the logger left: one text per day, the newest day plain, older
    days plain or compressed or both with the same text. *)
Record dir_inv (dir : directory) (top : string) : Prop := {
  di_wf : wf_dir dir;
  di_plain : forall d c, dir !! plain_name d = Some c -> exists f, c = Plain f /\ clean f;
  di_gz : forall d c, dir !! gz_name d = Some c -> exists f, c = Gzip f /\ clean f;
  di_both : forall d f g, dir !! plain_name d = Some (Plain f) -> dir !! gz_name d = Some (Gzip g) -> f = g;
  di_day : is_day top;
  di_top : is_Some (dir !! plain_name top);
  di_le : forall d, is_Some (dir !! plain_name d) -> d = top \/ strict d top;
  di_gz_lt : forall d, is_Some (dir !! gz_name d) -> strict d top
}.

Definition same_archive (dir dir' : directory) : Prop :=
  days dir' = days dir /\ forall d, day_text dir' d = day_text dir d.

Lemma same_archive_eq dir dir' : same_archive dir dir' -> archive dir' = archive dir.
Proof. intros [Hd Ht]. unfold archive. rewrite Hd. f_equal. apply map_ext. intros d. by rewrite Ht. Qed.

Lemma same_archive_refl dir : same_archive dir dir.
Proof. done. Qed.
Lemma same_archive_trans a b c : same_archive a b -> same_archive b c -> same_archive a c.
Proof. intros [H1 H2] [H3 H4]. split; [congruence|]. intros d. by rewrite H4. Qed.

(** What compressing a day can leave, at any point it is cut off. *)
Record compress_state (dir : directory) (d : string) (f : text) (dir' : directory) : Prop := {
  cs_other_plain : forall e, e <> d -> dir' !! plain_name e = dir !! plain_name e;
  cs_other_gz : forall e, e <> d -> dir' !! gz_name e = dir !! gz_name e;
  cs_names : forall n, is_log n = true -> is_Some (dir' !! n) -> is_Some (dir !! n) \/ n = gz_name d;
  cs_here :
    (dir' !! plain_name d = Some (Plain f) /\ dir' !! gz_name d = dir !! gz_name d)
    \/ (dir' !! plain_name d = Some (Plain f) /\ dir' !! gz_name d = Some (Gzip f))
    \/ (dir' !! plain_name d = None /\ dir' !! gz_name d = Some (Gzip f))
}.

Lemma compress_state_ok dir d f dir' top :
  dir_inv dir top -> is_day d -> strict d top -> dir !! plain_name d = Some (Plain f) ->
  compress_state dir d f dir' -> dir_inv dir' top /\ same_archive dir dir'.
Proof.
  intros I Hd Hlt Hf [Hop Hog Hn Hh].
  assert (clean f) as Hc by (destruct (di_plain _ _ I _ _ Hf) as (g & [= <-] & ?); done).
  assert (d <> top) as Hne by (intros ->; unfold strict in Hlt; by rewrite str_lt_irrefl in Hlt).
  assert (wf_dir dir') as Hwf.
  { intros n Hs Hp Hl. destruct (Hn n Hl Hs) as [?| ->]; [by apply (di_wf _ _ I)|]. exists d. auto. }
  split.
  - split; [done| | | | | | |].
    + intros e c He. destruct (decide (e = d)) as [->|]; [|rewrite Hop in He by done; by eapply di_plain].
      destruct Hh as [[E _]|[[E _]|[E _]]]; rewrite E in He; simplify_eq; eauto.
    + intros e c He. destruct (decide (e = d)) as [->|]; [|rewrite Hog in He by done; by eapply di_gz].
      destruct Hh as [[_ E]|[[_ E]|[_ E]]]; rewrite E in He; simplify_eq; eauto. by eapply di_gz.
    + intros e g h Hg Hz. destruct (decide (e = d)) as [->|]; [|rewrite Hop in Hg by done; rewrite Hog in Hz by done; by eapply di_both].
      destruct Hh as [[E1 E2]|[[E1 E2]|[E1 E2]]]; rewrite E1 in Hg; rewrite E2 in Hz; simplify_eq; try done.
      by eapply (di_both _ _ I d).
    + apply (di_day _ _ I).
    + rewrite Hop by congruence. apply (di_top _ _ I).
    + intros e He. destruct (decide (e = d)) as [->|]; [by right|]. rewrite Hop in He by done. by apply (di_le _ _ I).
    + intros e He. destruct (decide (e = d)) as [->|]; [done|]. rewrite Hog in He by done. by apply (di_gz_lt _ _ I).
  - split.
    + apply sorted_same_members; [by apply days_sorted|by apply days_sorted, (di_wf _ _ I)|].
      intros e. rewrite !days_elem by (done || apply (di_wf _ _ I)).
      destruct (decide (e = d)) as [->|]; [|by rewrite Hop, Hog by done].
      rewrite Hf. destruct Hh as [[-> _]|[[-> _]|[_ ->]]]; split; intros [? _]; split; eauto.
    + intros e. unfold day_text. destruct (decide (e = d)) as [->|]; [|by rewrite Hop, Hog by done].
      rewrite Hf. assert (forall g, dir !! gz_name d = Some (Gzip g) -> g = f) as Hb.
      { intros g Hg. symmetry. by eapply (di_both _ _ I d). }
      destruct Hh as [[-> ->]|[[-> ->]|[-> ->]]]; [done| |];
        (destruct (dir !! gz_name d) as [[| |]|] eqn:E; try done; by rewrite (Hb _ eq_refl)).
Qed.

Lemma day_neq_names d e : e <> d -> plain_name e <> plain_name d /\ gz_name e <> gz_name d.
Proof. intros H. split; intros E; apply H; [by apply plain_name_inj|by apply gz_name_inj]. Qed.

Lemma compress_states dir d f :
  let path := plain_name d in
  let renamed := <[gz_name d := Gzip f]> (delete (tmp_of path) dir) in
  dir !! path = Some (Plain f) ->
  compress_state dir d f dir /\ compress_state dir d f (delete (tmp_of path) dir)
  /\ (forall c, compress_state dir d f (<[tmp_of path := c]> dir))
  /\ compress_state dir d f renamed /\ compress_state dir d f (delete path renamed).
Proof.
  intros path renamed Hf. destruct (tmp_ne d d) as [Hp Hg]. fold path in Hp, Hg.
  assert (forall e, tmp_of path <> plain_name e) as Hp' by (intros e; apply (tmp_ne d e)).
  assert (forall e, tmp_of path <> gz_name e) as Hg' by (intros e; apply (tmp_ne d e)).
  assert (forall e, gz_name e <> path) as Hgp by (intros e E; by apply (plain_ne_gz d e)).
  assert (forall e, path <> gz_name e) as Hpg by (intros e E; by apply (plain_ne_gz d e)).
  assert (forall e, plain_name e <> gz_name d) as Hpg' by (intros e; apply plain_ne_gz).
  assert (forall e, e <> d -> plain_name e <> path /\ gz_name e <> gz_name d) as Hne by (intros; by apply day_neq_names).
  assert (is_log (tmp_of path) = false) as Ht by (unfold path; rewrite tmp_of_eq; apply tmp_not_log).
  assert (forall n, is_Some (renamed !! n) -> is_Some (dir !! n) \/ n = gz_name d) as Hrn.
  { intros n [<-|[_ [_ H]%lookup_delete_is_Some]]%lookup_insert_is_Some; auto. }
  assert (forall n, n <> gz_name d -> n <> tmp_of path -> renamed !! n = dir !! n) as Hro.
  { intros n H1 H2. unfold renamed. by rewrite lookup_insert_ne, lookup_delete_ne. }
  assert (renamed !! gz_name d = Some (Gzip f)) as Hrg by apply lookup_insert_eq.
  split; [|split; [|split; [|split]]].
  - split; auto.
  - split; [by intros; rewrite lookup_delete_ne..| |].
    + intros n _ [_ H]%lookup_delete_is_Some. auto.
    + left. by rewrite !lookup_delete_ne.
  - intros c. split; [by intros; rewrite lookup_insert_ne..| |].
    + intros n Hn [<-|[_ H]]%lookup_insert_is_Some; [congruence|auto].
    + left. by rewrite !lookup_insert_ne.
  - split; [intros e He; apply Hro; auto|intros e He; apply Hro; [by apply Hne|auto]|auto|].
    right. left. rewrite Hro by auto. done.
  - split.
    + intros e He. rewrite lookup_delete_ne by (intros E; by apply (proj1 (Hne e He))). apply Hro; auto.
    + intros e He. rewrite lookup_delete_ne by auto. apply Hro; [by apply Hne|auto].
    + intros n _ [_ H]%lookup_delete_is_Some. auto.
    + right. right. rewrite lookup_delete_eq, lookup_delete_ne by auto. done.
Qed.

(** A failed or interrupted compression of an older day never changes what the
    archive holds. *)
Lemma compressFile_ok dir top d c :
  dir_inv dir top -> is_day d -> strict d top ->
  dir_inv (compressFile dir (plain_name d) c).1 top /\ same_archive dir (compressFile dir (plain_name d) c).1.
Proof.
  intros I Hd Hlt. unfold compressFile.
  destruct (dir !! plain_name d) as [[f| |]|] eqn:Ef; try (split; [done|apply same_archive_refl]).
  destruct (compress_states dir d f Ef) as (H1 & H2 & _ & H4 & H5).
  destruct c; cbn [fst]; (eapply compress_state_ok; [done|done|done|exact Ef|done]).
Qed.

Lemma crash_compress_ok dir top d dir' :
  dir_inv dir top -> is_day d -> strict d top -> dir' ∈ crash_compress dir (plain_name d) ->
  dir_inv dir' top /\ same_archive dir dir'.
Proof.
  intros I Hd Hlt. unfold crash_compress.
  destruct (dir !! plain_name d) as [[f| |]|] eqn:Ef;
    try (intros ->%list_elem_of_singleton; split; [done|apply same_archive_refl]).
  destruct (compress_states dir d f Ef) as (H1 & H2 & H3 & H4 & H5). intros H.
  apply list_elem_of_In in H as [<-|[<-|[<-|[<-|[<-|[]]]]]]; (eapply compress_state_ok; [done|done|done|exact Ef|auto]).
Qed.

Definition older (top p : string) : Prop := exists d, is_day d /\ strict d top /\ p = plain_name d.

Lemma compress_all_ok cuts_ top paths dir :
  Forall (older top) paths -> dir_inv dir top ->
  dir_inv (compress_all cuts_ dir paths).1 top /\ same_archive dir (compress_all cuts_ dir paths).1.
Proof.
  intros H. revert dir. induction H as [|p paths (d & Hd & Hlt & ->) _ IH]; intros dir I; cbn [compress_all].
  { split; [done|apply same_archive_refl]. }
  pose proof (compressFile_ok dir top d (cuts_ (plain_name d)) I Hd Hlt) as [I' S].
  destruct (compressFile _ _ _) as [dir' []]; cbn [fst] in *; [|done].
  destruct (IH dir' I') as [I'' S']. split; [done|by eapply same_archive_trans].
Qed.

Lemma strict_split l x r : StronglySorted strict (l ++ x :: r) -> forall p, p ∈ l -> strict p x.
Proof.
  induction l as [|a l IH]; intros Hs p Hp; [by apply elem_of_nil in Hp|].
  cbn in Hs. apply StronglySorted_inv in Hs as [Hs Ha]. rewrite Forall_forall in Ha.
  apply elem_of_cons in Hp as [->|Hp]; [apply Ha, elem_of_app; right; by left|by apply IH].
Qed.

Lemma plainFiles_elem dir p : wf_dir dir -> p ∈ plainFiles dir <-> exists d, is_day d /\ p = plain_name d /\ is_Some (dir !! p).
Proof.
  intros Hwf. unfold plainFiles. rewrite listFiles_elem. split.
  - intros (Hs & Hp & Hk). destruct (Hwf p) as (d & Hd & [-> | ->]); [done|done|unfold is_log; by rewrite Hk|eauto|].
    by rewrite suffix_gz_plain in Hk.
  - intros (d & Hd & -> & Hs). split; [done|]. split; [|apply suffix_plain]. eexists. apply cut_prefix_app.
Qed.

Lemma take_older dir top :
  dir_inv dir top -> keepPlain < length (plainFiles dir) ->
  Forall (older top) (take (length (plainFiles dir) - keepPlain) (plainFiles dir)).
Proof.
  intros I Hl. apply Forall_forall. intros p Hp. set (l := plainFiles dir) in *.
  pose proof (listFiles_strict dir (fun n => has_suffix n fileSuffix)) as Hs. fold (plainFiles dir) in Hs. fold l in Hs.
  assert (p ∈ l) as Hin by (eapply subseteq_take; exact Hp).
  apply plainFiles_elem in Hin as (d & Hd & -> & Hsome); [|apply (di_wf _ _ I)].
  exists d. split; [done|]. split; [|done].
  destruct (drop (length l - keepPlain) l) as [|x r] eqn:Ed.
  { apply (f_equal length) in Ed. rewrite length_drop in Ed. unfold keepPlain in *. cbn in Ed. lia. }
  rewrite <- (take_drop (length l - keepPlain) l), Ed in Hs.
  pose proof (strict_split _ _ _ Hs _ Hp) as Hpx.
  assert (x ∈ l) as Hx.
  { rewrite <- (take_drop (length l - keepPlain) l), Ed. apply elem_of_app. right. by left. }
  apply plainFiles_elem in Hx as (e & He & -> & Hes); [|apply (di_wf _ _ I)].
  destruct (wf_name_lt (plain_name d) (plain_name e)) as [Hlt|(y & _ & _ & E)]; [exists d; auto|exists e; auto|done| |].
  - unfold day_lt in Hlt. rewrite !dayOf_plain in Hlt.
    destruct (di_le _ _ I e Hes) as [->|H]; [done|by eapply str_lt_trans].
  - by destruct (plain_ne_gz e y).
Qed.

(** Rotation's housekeeping keeps the archive, wherever it fails. *)
Lemma CompressOlderThan_ok cuts_ dir top :
  dir_inv dir top ->
  dir_inv (CompressOlderThan cuts_ dir keepPlain).1 top /\ same_archive dir (CompressOlderThan cuts_ dir keepPlain).1.
Proof.
  intros I. unfold CompressOlderThan. destruct (_ || _) eqn:E; [split; [done|apply same_archive_refl]|].
  apply compress_all_ok; [|done]. apply take_older; [done|]. bools. lia.
Qed.
