(* ===== verification/AuditLogSafety.v ===== *)
(** * What the audit log keeps

    Over any sequence of requests, rotations, failures and restarts of
    [AuditLog.v]: every acknowledged record is read back, in order, in a chain
    that verifies; the queries page through them without overlap or gap. And
    the closed runs where the code does otherwise. *)

From S2P Require Import Prelude GoText AuditRecord AuditRedact AuditLog.

(** Every file opens and reads; nobody cancels. *)
Definition readable : string -> bool := fun _ => true.
Definition never : nat -> bool := fun _ => false.

(* ------------------------------------------------------------------ *)
(** ** Reading an archive *)

Fixpoint numbered (n : nat) (rs : list Record_) : list located :=
  match rs with [] => [] | r :: rs' => (r, n) :: numbered (S n) rs' end.

Lemma numbered_fst n rs : map fst (numbered n rs) = rs.
Proof. revert n. induction rs as [|r rs IH]; intros n; cbn; [done|]. by rewrite IH. Qed.

Lemma decode_clean n f : clean f -> decode_lines n (text_lines f) = Ok (numbered n (text_records f)).
Proof.
  intros [Hr Hl]. unfold text_lines, text_records. rewrite Hr. cbn. rewrite app_nil_r.
  revert n. induction Hl as [|x ls (r & ->) _ IH]; intros n; [done|]. cbn. by rewrite IH.
Qed.

Lemma day_file_read dir top p :
  dir_inv dir top -> p ∈ allFiles dir ->
  readFileLocated readable dir p = Ok (numbered 1 (text_records (day_text dir (dayOf p)))).
Proof.
  intros I Hp. destruct (allFiles_spec dir (di_wf _ _ I)) as [_ Hm]. apply Hm in Hp as (d & Hd & H).
  unfold readFileLocated, day_text. destruct H as [[-> H]|(-> & H & Hn)]; rewrite ?dayOf_gz, ?dayOf_plain.
  - destruct H as [c Hc]. rewrite Hc. destruct (di_gz _ _ I _ _ Hc) as (f & -> & Hf). cbn [readable negb].
    rewrite suffix_gz. by apply decode_clean.
  - rewrite Hn. destruct H as [c Hc]. rewrite Hc. destruct (di_plain _ _ I _ _ Hc) as (f & -> & Hf). cbn [readable negb].
    rewrite suffix_plain_gz. by apply decode_clean.
Qed.

(** What reading some files of the archive gives. *)
Definition read_all (dir : directory) (files : list string) : list (list located) :=
  map (fun p => numbered 1 (text_records (day_text dir (dayOf p)))) files.

Lemma read_files_ok dir top files :
  dir_inv dir top -> (forall p, p ∈ files -> p ∈ allFiles dir) ->
  map (readFileLocated readable dir) files = map Ok (read_all dir files).
Proof.
  intros I H. unfold read_all. rewrite map_map. apply map_ext_in. intros p Hp. eapply day_file_read; [done|].
  by apply H, list_elem_of_In.
Qed.

Lemma read_all_records dir : concat (map (map fst) (read_all dir (allFiles dir))) = archive dir.
Proof.
  unfold read_all, archive, days. rewrite !map_map. f_equal. apply map_ext. intros p. apply numbered_fst.
Qed.

(* ------------------------------------------------------------------ *)
(** ** A chain that is untouched verifies *)

Section Verified.
Context `{Sha256}.

Lemma reads_as_split before (p : string) (l : list located) after ls :
  reads_as (before ++ (p, Ok l) :: after) ls ->
  exists lb la, ls = lb ++ l :: la /\ reads_as before lb /\ reads_as after la.
Proof.
  intros (lb & la & Hb & Ha & ->)%Forall2_app_inv_l. apply Forall2_cons_inv_l in Ha as (l' & la' & Hl & Ha & ->).
  cbn in Hl. injection Hl as <-. eauto.
Qed.

Lemma reads_as_unique files ls ls' : reads_as files ls -> reads_as files ls' -> ls = ls'.
Proof.
  intros Hl. revert ls'. induction Hl as [|[p r] l files ls E _ IH]; intros ls' Hl'; inversion Hl' as [|? l' ? ls2 E' Hr]; subst; [done|].
  cbn in *. rewrite E in E'. injection E' as <-. f_equal. by apply IH.
Qed.

Lemma verify_untouched files ls :
  reads_as files ls -> intact (concat ls).*1 -> VerifyContext never files = VOk.
Proof.
  intros Hr Hi. pose proof (verify_files_spec files [] 0 intact_nil) as V. cbn [seed last fmap option_fmap option_map] in V.
  unfold VerifyContext. change (fun _ : nat => false) with never in V. cbn [seed last] in V.
  destruct (verify_files never files None 0) as [|p n|[|p]]; [done| |done|].
  - exfalso. destruct V as (before & lb & a & r & b & after & -> & Hb & _ & Hn). apply Hn.
    apply reads_as_split in Hr as (lb' & la & -> & Hb' & _). rewrite (reads_as_unique _ _ _ Hb Hb') in *.
    apply (intact_front _ (b.*1 ++ (concat la).*1)). cbn [app].
    rewrite concat_app, fmap_app in Hi. cbn in Hi. rewrite !fmap_app in Hi. cbn in Hi.
    rewrite <- (assoc_L (++) a.*1) in Hi. rewrite fmap_app, <- !(assoc_L (++)). exact Hi.
  - exfalso. destruct V as (before & lb & e & after & -> & _).
    apply Forall2_app_inv_l in Hr as (? & ? & _ & Ha & _). by apply Forall2_cons_inv_l in Ha as (? & ? & [=] & _).
Qed.

(** Numbered from 1 without a gap. *)
Definition counted (recs : list Record_) : Prop := forall i r, recs !! i = Some r -> Seq r = Z.of_nat (S i).

Lemma intact_suffix a b : intact (a ++ b) -> counted (a ++ b) -> intact b.
Proof.
  intros (H1 & H2 & H3) Hc. destruct a as [|x a]; [done|]. split; [|split].
  - intros r Hr Hs. destruct b as [|y b]; [done|]. injection Hr as ->.
    assert (((x :: a) ++ r :: b) !! length (x :: a) = Some r) as Hl by by apply list_lookup_middle.
    apply Hc in Hl. cbn in Hl. lia.
  - intros i r r' Hr Hr'. apply (H2 (length (x :: a) + i)).
    + rewrite lookup_app_r by lia. by replace (length (x :: a) + i - length (x :: a)) with i by lia.
    + rewrite lookup_app_r by lia. by replace (S (length (x :: a) + i) - length (x :: a)) with (S i) by lia.
  - intros r Hr. apply H3, elem_of_app. by right.
Qed.
End Verified.

(* ------------------------------------------------------------------ *)
(** ** The logger *)

(** The records of a day were written on that day. *)
Definition days_ok (dir : directory) : Prop :=
  forall d r, r ∈ text_records (day_text dir d) -> format_day (TS r) = d /\ in_years (TS r).

Section Logger.
Context `{Sha256}.

(** The state of an open logger after [hist] was written. *)
Record log_inv (l : Logger) (hist : list Record_) : Prop := {
  li_dir : dir_inv (dir l) (day l);
  li_days : days_ok (dir l);
  li_closed : closed l = false;
  li_archive : archive (dir l) = hist;
  li_counted : counted hist;
  li_intact : intact hist;
  li_seq : seq l = Z.of_nat (length hist);
  li_tail : lastHash l = default Genesis (seed hist)
}.

(** A directory and the records in it. *)
Definition holds (dir : directory) (top : string) (hist : list Record_) : Prop :=
  dir_inv dir top /\ days_ok dir /\ archive dir = hist.

Lemma same_archive_holds dir dir' top top' hist :
  holds dir top hist -> dir_inv dir' top' -> same_archive dir dir' -> holds dir' top' hist.
Proof.
  intros (I & D & A) I' S. split; [done|]. split; [|by rewrite (same_archive_eq dir)].
  intros d r. rewrite (proj2 S). apply D.
Qed.

Lemma compress_holds cuts_ dir top hist :
  holds dir top hist -> holds (CompressOlderThan cuts_ dir keepPlain).1 top hist.
Proof.
  intros Hh. destruct (CompressOlderThan_ok cuts_ dir top (proj1 Hh)) as [I S]. by eapply same_archive_holds.
Qed.

Lemma str_le_cases a b : str_le a b -> a = b \/ strict a b.
Proof. intros H'. destruct (decide (a = b)); [by left|right]. by apply strict_not_le. Qed.

Lemma days_last dir top : dir_inv dir top -> exists ds, days dir = ds ++ [top] /\ (forall d, d ∈ ds -> strict d top).
Proof.
  intros I. pose proof (days_sorted dir (di_wf _ _ I)) as Hs.
  assert (forall d, d ∈ days dir -> d = top \/ strict d top) as Hle.
  { intros d Hd. apply days_elem in Hd as (_ & [Hp|Hg]); [by apply (di_le _ _ I)|right; by apply (di_gz_lt _ _ I)|].
    apply (di_wf _ _ I). }
  assert (top ∈ days dir) as Hin.
  { apply days_elem; [apply (di_wf _ _ I)|]. split; [apply (di_day _ _ I)|left; apply (di_top _ _ I)]. }
  destruct (days dir) as [|x ds _] using rev_ind; [by apply elem_of_nil in Hin|].
  assert (forall d, d ∈ ds -> strict d x) as Hlt by (intros; by eapply (strict_split ds x [])).
  assert (x = top) as ->.
  { apply elem_of_app in Hin as [Hin|<-%list_elem_of_singleton]; [|done].
    destruct (Hle x) as [?|Hx]; [apply elem_of_app; right; by left|done|].
    pose proof (Hlt _ Hin) as Hy. unfold strict in *. pose proof (str_lt_trans _ _ _ Hx Hy) as E. by rewrite str_lt_irrefl in E. }
  by exists ds.
Qed.

Lemma gz_top_none dir top : dir_inv dir top -> dir !! gz_name top = None.
Proof.
  intros I. destruct (dir !! gz_name top) eqn:E; [|done]. pose proof (di_gz_lt _ _ I top ltac:(by rewrite E)) as Hs.
  unfold strict in Hs. by rewrite str_lt_irrefl in Hs.
Qed.

(** Opening the file of a day that is not older than any other. *)
Lemma create_holds dir top d hist :
  holds dir top hist -> is_day d -> str_le top d -> holds (create_file dir (plain_name d)) d hist.
Proof.
  intros (I & D & A) Hd Hle. apply str_le_cases in Hle as [<-|Hlt].
  { unfold create_file. destruct (di_top _ _ I) as [c ->]. by split. }
  assert (forall e, is_Some (dir !! plain_name e) \/ is_Some (dir !! gz_name e) -> strict e d) as Hall.
  { intros e [He|He]; [destruct (di_le _ _ I e He) as [->|]|apply (di_gz_lt _ _ I) in He]; [done|by etransitivity|by etransitivity]. }
  assert (dir !! plain_name d = None) as Hn.
  { destruct (dir !! plain_name d) eqn:E; [|done]. specialize (Hall d ltac:(left; by rewrite E)).
    unfold strict in Hall. by rewrite str_lt_irrefl in Hall. }
  assert (dir !! gz_name d = None) as Hg.
  { destruct (dir !! gz_name d) eqn:E; [|done]. specialize (Hall d ltac:(right; by rewrite E)).
    unfold strict in Hall. by rewrite str_lt_irrefl in Hall. }
  unfold create_file. rewrite Hn. set (dir' := <[plain_name d := Plain empty_text]> dir).
  assert (forall e, e <> d -> dir' !! plain_name e = dir !! plain_name e) as Ho.
  { intros e He. apply lookup_insert_ne. intros E. by apply He, plain_name_inj. }
  assert (forall e, dir' !! gz_name e = dir !! gz_name e) as Hog.
  { intros e. apply lookup_insert_ne. apply plain_ne_gz. }
  assert (dir' !! plain_name d = Some (Plain empty_text)) as Hd' by apply lookup_insert_eq.
  assert (dir_inv dir' d) as I'.
  { split.
    - intros n [<-|[_ Hs]]%lookup_insert_is_Some Hp Hl; [exists d; auto|by apply (di_wf _ _ I)].
    - intros e c Hc. destruct (decide (e = d)) as [->|]; [|rewrite Ho in Hc by done; by eapply di_plain].
      rewrite Hd' in Hc. injection Hc as <-. exists empty_text. split; [done|]. by split.
    - intros e c. rewrite Hog. by apply (di_gz _ _ I).
    - intros e f g. rewrite Hog. destruct (decide (e = d)) as [->|]; [by rewrite Hg|]. rewrite Ho by done. by apply (di_both _ _ I).
    - done.
    - by rewrite Hd'.
    - intros e He. destruct (decide (e = d)) as [->|]; [by left|right]. rewrite Ho in He by done. auto.
    - intros e. rewrite Hog. auto. }
  assert (days dir' = days dir ++ [d]) as Ed.
  { apply sorted_same_members; [apply days_sorted, (di_wf _ _ I')| |].
    - destruct (days_last dir top I) as (ds & Eds & Hds). pose proof (days_sorted dir (di_wf _ _ I)) as Hs.
      revert Hs. assert (forall e, e ∈ days dir -> strict e d) as Hdd.
      { intros e He. apply days_elem in He as [_ He]; [by apply Hall|apply (di_wf _ _ I)]. }
      clear Eds. induction (days dir) as [|x xs IH]; intros Hs; [by repeat constructor|]. cbn.
      apply StronglySorted_inv in Hs as [Hs Hx]. constructor; [apply IH; [intros; apply Hdd; by right|done]|].
      apply Forall_app. split; [done|]. constructor; [apply Hdd; by left|constructor].
    - intros e. rewrite elem_of_app, list_elem_of_singleton, !days_elem by (apply (di_wf _ _ I) || apply (di_wf _ _ I')).
      rewrite Hog. destruct (decide (e = d)) as [->|]; [rewrite Hd'; naive_solver|]. rewrite Ho by done. naive_solver. }
  assert (forall e, e <> d -> day_text dir' e = day_text dir e) as Et.
  { intros e He. unfold day_text. by rewrite Hog, Ho. }
  assert (day_text dir' d = empty_text) as Etd by (unfold day_text; by rewrite Hog, Hg, Hd').
  split; [done|]. split.
  - intros e r. destruct (decide (e = d)) as [->|]; [rewrite Etd; cbn; by rewrite elem_of_nil|rewrite Et by done; apply D].
  - unfold archive. rewrite Ed, map_app, concat_app. cbn [map concat]. rewrite Etd. cbn. rewrite (right_id_L [] (++)).
    rewrite <- A. unfold archive. f_equal. apply map_ext_in. intros e He. rewrite Et; [done|].
    intros ->. apply list_elem_of_In, days_elem in He as [_ He]; [|apply (di_wf _ _ I)].
    specialize (Hall d He). unfold strict in Hall. by rewrite str_lt_irrefl in Hall.
Qed.
(** A record written whole to the newest file. *)
Lemma write_holds dir top hist r :
  holds dir top hist -> format_day (TS r) = top -> in_years (TS r) ->
  holds (write_file dir (plain_name top) (LRec r) WFull) top (hist ++ [r]).
Proof.
  intros (I & D & A) Ht Hy. destruct (di_top _ _ I) as [c Hc]. destruct (di_plain _ _ I _ _ Hc) as (f & -> & [Hr Hl]).
  unfold write_file. rewrite Hc. unfold append_line. rewrite Hr. set (f' := mkText (lines f ++ [LRec r]) None).
  set (dir' := <[plain_name top := Plain f']> dir).
  pose proof (gz_top_none dir top I) as Hg.
  assert (forall e, e <> top -> dir' !! plain_name e = dir !! plain_name e) as Ho.
  { intros e He. apply lookup_insert_ne. intros E. by apply He, plain_name_inj. }
  assert (forall e, dir' !! gz_name e = dir !! gz_name e) as Hog.
  { intros e. apply lookup_insert_ne. apply plain_ne_gz. }
  assert (dir' !! plain_name top = Some (Plain f')) as Htop by apply lookup_insert_eq.
  assert (clean f') as Hcl.
  { split; [done|]. apply Forall_app. split; [done|]. constructor; [by exists r|constructor]. }
  assert (dir_inv dir' top) as I'.
  { split.
    - intros n [<-|[_ Hs]]%lookup_insert_is_Some Hp Hlg; [exists top; split; [apply (di_day _ _ I)|auto]|by apply (di_wf _ _ I)].
    - intros e c He. destruct (decide (e = top)) as [->|]; [|rewrite Ho in He by done; by eapply di_plain].
      rewrite Htop in He. injection He as <-. by exists f'.
    - intros e c. rewrite Hog. by apply (di_gz _ _ I).
    - intros e g h. rewrite Hog. destruct (decide (e = top)) as [->|]; [by rewrite Hg|]. rewrite Ho by done. by apply (di_both _ _ I).
    - apply (di_day _ _ I).
    - by rewrite Htop.
    - intros e He. destruct (decide (e = top)) as [->|]; [by left|]. rewrite Ho in He by done. by apply (di_le _ _ I).
    - intros e. rewrite Hog. apply (di_gz_lt _ _ I). }
  assert (days dir' = days dir) as Ed.
  { apply sorted_same_members; [apply days_sorted, (di_wf _ _ I')|apply days_sorted, (di_wf _ _ I)|].
    intros e. rewrite !days_elem by (apply (di_wf _ _ I) || apply (di_wf _ _ I')). rewrite Hog.
    destruct (decide (e = top)) as [->|]; [rewrite Htop, Hc|by rewrite Ho]. split; intros [? _]; split; eauto. }
  assert (forall e, e <> top -> day_text dir' e = day_text dir e) as Et by (intros e He; unfold day_text; by rewrite Hog, Ho).
  assert (day_text dir' top = f') as Et' by (unfold day_text; by rewrite Hog, Hg, Htop).
  assert (day_text dir top = f) as Et0 by (unfold day_text; by rewrite Hg, Hc).
  assert (text_records f' = text_records f ++ [r]) as Er.
  { unfold text_records, f'. cbn [lines]. rewrite map_app, concat_app. done. }
  split; [done|]. split.
  - intros e x. destruct (decide (e = top)) as [->|]; [|rewrite Et by done; apply D].
    rewrite Et', Er, elem_of_app, list_elem_of_singleton. intros [Hx| ->]; [|done]. apply D. by rewrite Et0.
  - unfold archive in *. rewrite Ed. destruct (days_last dir top I) as (ds & Eds & Hds). rewrite Eds in *.
    rewrite !map_app, !concat_app in *. cbn [map concat] in *. rewrite app_nil_r in *. rewrite Et', Er, <- A, Et0.
    rewrite (assoc_L (++)). f_equal. f_equal. f_equal. apply map_ext_in. intros e He. rewrite Et; [done|].
    intros ->. apply list_elem_of_In in He. specialize (Hds top He). unfold strict in Hds. by rewrite str_lt_irrefl in Hds.
Qed.

Lemma with_dir l hist d top :
  log_inv l hist -> holds d top hist -> day l = top \/ True ->
  forall f, log_inv (mkLogger d f top (seq l) (lastHash l) (pending l) (lastVerify l) (closed l)) hist.
Proof. intros [] (I & D & A) _ f. by split. Qed.

(** Rotation, wherever it fails, loses nothing. *)
Lemma openDay_ok e l hist :
  log_inv l hist -> str_le (day l) (format_day (now e)) ->
  log_inv (openDay e l).1 hist
  /\ ((openDay e l).2 = None -> file (openDay e l).1 = true /\ day (openDay e l).1 = format_day (now e))
  /\ seq (openDay e l).1 = seq l /\ lastHash (openDay e l).1 = lastHash l.
Proof.
  intros L Hle. unfold openDay.
  destruct (file l && bool_decide (day l = format_day (now e))) eqn:E0.
  { bools. destruct E0. by cbn. }
  destruct (file l && negb (sync_day e)); [by cbn|].
  destruct (file l && negb (close_day e)); [by cbn|].
  assert (holds (dir l) (day l) hist) as Hh by (split; [apply L|split; apply L]).
  set (l1 := if file l then set_file false (day l) l else l).
  assert (dir l1 = dir l /\ day l1 = day l /\ seq l1 = seq l /\ lastHash l1 = lastHash l /\ pending l1 = pending l
          /\ lastVerify l1 = lastVerify l /\ closed l1 = closed l) as (Ed & Ey & Es & Eh & Ep & Ev & Ec)
    by (unfold l1; destruct (file l); done).
  clearbody l1.
  destruct (open_file e); cbn [negb].
  2:{ cbn [fst snd]. split; [|done]. destruct L. by split; rewrite ?Ed, ?Ey, ?Es, ?Eh, ?Ec. }
  pose proof (create_holds _ _ (format_day (now e)) hist Hh (format_day_is_day _) Hle) as Hc.
  change (day_file_name (format_day (now e))) with (plain_name (format_day (now e))).
  destruct (file l); cbn [fst snd set_dir set_file dir file day seq lastHash pending lastVerify closed];
    (split; [|done]); unfold set_dir, set_file; cbn [dir file day seq lastHash pending lastVerify closed];
    rewrite Es, Eh, Ep, Ev, Ec, Ed.
  - apply (with_dir l); [done| |by right]. by apply compress_holds.
  - by apply (with_dir l); [| |right].
Qed.

(** A day not before the log's, and a write that went whole to disk, flushed, or did
    nothing. *)
Definition good_io (e : io) (l : Logger) : Prop :=
  str_le (day l) (format_day (now e))
  /\ match write e with WFull => sync e = true | WNone => True | WPart _ => False end.

Definition room (hist : list Record_) : Prop := (Z.of_nat (length hist) + 1 < 2 ^ 64)%Z.

Lemma seal_own l t r : Hash (seal_record l t r) = ComputeHash (PrevHash (seal_record l t r)) (seal_record l t r).
Proof. reflexivity. Qed.

(** Appending the next sealed record to a chain. *)
Lemma extend_chain l hist t r :
  log_inv l hist -> room hist -> stable (VObj (Params r)) = true ->
  let rec := seal_record l t r in
  encode_line rec = LRec (cleaned rec) /\ counted (hist ++ [cleaned rec]) /\ intact (hist ++ [cleaned rec])
  /\ Seq rec = Z.of_nat (length (hist ++ [cleaned rec])) /\ Hash (cleaned rec) = Hash rec.
Proof.
  intros L Hroom Hs rec.
  assert (stable (VObj (Params rec)) = true) as Hst by done.
  assert (Seq rec = Z.of_nat (length hist) + 1)%Z as Eseq.
  { cbn [Seq rec seal_record]. rewrite (li_seq _ _ L). unfold room in Hroom. rewrite Z.mod_small by lia. done. }
  assert (to_valid (PrevHash rec) = PrevHash rec) as Hpv.
  { cbn. rewrite (li_tail _ _ L). unfold seed. destruct (last hist) as [x|] eqn:Ex; cbn; [|vm_compute; reflexivity].
    destruct hist as [|y ys _] using rev_ind; [done|]. rewrite last_snoc in Ex. injection Ex as ->.
    rewrite (last_hash_own ys) by apply L. rewrite ComputeHash_own. apply hex_valid, sha256_chars. }
  destruct (reread_keeps rec Hst Hpv (seal_own l t r)) as (E1 & E2 & E3 & E4).
  split; [done|]. split.
  { intros i x Hi. apply lookup_app_Some in Hi as [Hi|[Hl Hi]]; [by apply (li_counted _ _ L)|].
    destruct (i - length hist) as [|k] eqn:Ek; [|done]. injection Hi as <-. change (Seq rec = Z.of_nat (S i)). rewrite Eseq. lia. }
  split; [|split; [rewrite length_app, Eseq; cbn; lia|done]].
  apply intact_snoc. split; [apply L|].
  pose proof (li_tail _ _ L) as Ht. unfold seed in *. destruct (last hist) as [x|] eqn:Ex; cbn in Ht |- *.
  - apply check_seeded. split; [|done]. rewrite E2. cbn. by rewrite Ht.
  - apply check_unseeded. split; [|done]. intros _. rewrite E2. cbn. by rewrite Ht.
Qed.

Lemma append_ok e r l hist :
  log_inv l hist -> good_io e l -> room hist -> stable (VObj (Params r)) = true ->
  match append e r l with
  | (l', Ok rec) => rec = seal_record l (now e) r /\ log_inv l' (hist ++ [cleaned rec])
  | (l', Err _) => log_inv l' hist
  end.
Proof.
  intros L [Hle Hw] Hroom Hs. unfold append. rewrite (li_closed _ _ L).
  pose proof (openDay_ok e l hist L Hle) as (L1 & Hok & Es & Eh).
  destruct (openDay e l) as [l1 [err|]]; cbn [fst snd] in *; [done|].
  destruct (Hok eq_refl) as [Hf Hd]. unfold year_ok. destruct (_ && _) eqn:Ey; cbn [negb]; [|done].
  assert (seal_record l1 (now e) r = seal_record l (now e) r) as Er by (unfold seal_record; by rewrite Es, Eh).
  rewrite Er. set (rec := seal_record l (now e) r) in *.
  destruct (extend_chain l hist (now e) r L Hroom Hs) as (E1 & E2 & E3 & E4 & E5). fold rec in E1, E2, E3, E4, E5.
  destruct (write e) eqn:Ew; [|  |done].
  - rewrite Hw. split; [done|].
    assert (holds (write_file (dir l1) (current_path l1) (encode_line rec) WFull) (day l1) (hist ++ [cleaned rec])) as (I & D & A).
    { rewrite E1. apply write_holds; [split; [apply L1|split; apply L1]| |].
      - by rewrite Hd.
      - cbn. unfold in_years. bools. lia. }
    split; cbn [dir day closed seq lastHash set_tail set_dir]; try done; [apply L1|]. unfold seed. rewrite last_snoc. symmetry. exact E5.
  - split; cbn [dir day closed seq lastHash set_dir]; try apply L1; unfold write_file, append_line;
      destruct (dir l1 !! current_path l1) as [[f| |]|] eqn:Ef; try apply L1; rewrite insert_id by done; apply L1.
Qed.

(** The first file of an empty directory. *)
Lemma create_first d : is_day d -> holds (create_file ∅ (plain_name d)) d [].
Proof.
  intros Hd. unfold create_file. rewrite lookup_empty. set (dir' := <[plain_name d := Plain empty_text]> ∅).
  assert (forall n c, dir' !! n = Some c -> n = plain_name d /\ c = Plain empty_text) as Hall.
  { intros n c [[<- <-]|[_ Hn]]%lookup_insert_Some; [done|]. by rewrite lookup_empty in Hn. }
  assert (dir' !! plain_name d = Some (Plain empty_text)) as Ht by apply lookup_insert_eq.
  assert (forall e, is_Some (dir' !! gz_name e) -> False) as Hg.
  { intros e [c [E _]%Hall]. by destruct (plain_ne_gz d e). }
  assert (dir_inv dir' d) as I.
  { split.
    - intros n [c [-> _]%Hall] _ _. exists d. auto.
    - intros e c [_ ->]%Hall. exists empty_text. by split; [|split].
    - intros e c Hc. destruct (Hg e). by eexists.
    - intros e f g _ Hc. destruct (Hg e). by eexists.
    - done.
    - by rewrite Ht.
    - intros e [c [E _]%Hall]. left. by apply plain_name_inj.
    - intros e He. by destruct (Hg e). }
  assert (forall e, text_records (day_text dir' e) = []) as Hempty.
  { intros e. unfold day_text. destruct (dir' !! gz_name e) eqn:Eg; [destruct (Hg e); by rewrite Eg|].
    destruct (dir' !! plain_name e) as [c|] eqn:Ep; [|done]. by apply Hall in Ep as [_ ->]. }
  split; [done|]. split; [intros e r; rewrite Hempty; by intros ?%elem_of_nil|].
  unfold archive. induction (days dir') as [|e es IH]; [done|]. cbn. by rewrite Hempty.
Qed.

(** What a process that dies can leave of a directory: it may have created
    the file of a later day and be anywhere in the compression of older
    ones. *)
Inductive crash_states : directory -> string -> directory -> string -> Prop :=
  | crash_here dir top : crash_states dir top dir top
  | crash_create dir top d dir' top' :
      is_day d -> str_le top d -> crash_states (create_file dir (plain_name d)) d dir' top' -> crash_states dir top dir' top'
  | crash_in_compress dir top d dir1 dir' top' :
      is_day d -> strict d top -> dir1 ∈ crash_compress dir (plain_name d) -> crash_states dir1 top dir' top' ->
      crash_states dir top dir' top'.

Lemma crash_holds dir top dir' top' hist :
  crash_states dir top dir' top' -> holds dir top hist -> holds dir' top' hist.
Proof.
  induction 1 as [|dir top d dir' top' Hd Hle _ IH|dir top d dir1 dir' top' Hd Hlt Hin _ IH]; intros Hh; [done|apply IH..].
  - by eapply create_holds.
  - destruct (crash_compress_ok dir top d dir1 (proj1 Hh) Hd Hlt Hin) as [I S]. by eapply same_archive_holds.
Qed.

(** The life of the log: requests, verifications, and restarts after a crash
    at any point outside a write. [hist] is every record that was
    acknowledged, as it reads back, oldest first. *)
Inductive reaches : Logger -> list Record_ -> Prop :=
  | reach_new e l d : open readable e ∅ = (Ok l, d) -> reaches l []
  | reach_attempt l hist e r l' s :
      reaches l hist -> good_io e l -> room hist -> stable (VObj (Params r)) = true ->
      Attempt e r l = (l', Ok s) ->
      reaches l' (hist ++ [cleaned (seal_record l (now e) (set_outcome OutcomeAttempt r))])
  | reach_attempt_failed l hist e r l' err :
      reaches l hist -> good_io e l -> room hist -> stable (VObj (Params r)) = true ->
      Attempt e r l = (l', Err err) -> reaches l' hist
  | reach_outcome l hist e s att o c l' :
      reaches l hist -> good_io e l -> room hist -> pending l !! s = Some att ->
      Outcome_ e s o c l = (l', None) -> reaches l' (hist ++ [cleaned (seal_record l (now e) (outcome_record att o c))])
  | reach_outcome_failed l hist e s o c l' err :
      reaches l hist -> good_io e l -> room hist -> Outcome_ e s o c l = (l', Some err) -> reaches l' hist
  | reach_verified l hist t t' c opens l' v :
      reaches l hist -> CachedVerify t t' c opens l = (l', v) -> reaches l' hist
  | reach_restart l hist d top e l' d' :
      reaches l hist -> crash_states (dir l) (day l) d top -> str_le top (format_day (now e)) ->
      open readable e d = (Ok l', d') -> reaches l' hist.

Lemma log_inv_pending l hist p : log_inv l hist -> log_inv (set_pending p l) hist.
Proof. intros []. by split. Qed.

Lemma last_record_archive dir top :
  dir_inv dir top ->
  resume_from readable dir (reverse (allFiles dir)) = Ok (last (archive dir)).
Proof.
  intros I. unfold archive, days. rewrite map_map.
  assert (forall files, (forall p, p ∈ files -> p ∈ allFiles dir) ->
            resume_from readable dir (reverse files)
            = Ok (last (concat (map (fun p => text_records (day_text dir (dayOf p))) files)))) as Hgen; [|by apply Hgen].
  induction files as [|p files IH] using rev_ind; intros Hin; [done|].
  rewrite reverse_app, map_app, concat_app. cbn [reverse rev_append app map concat resume_from]. rewrite app_nil_r.
  change (reverse [p] ++ reverse files) with (p :: reverse files). cbn [resume_from].
  unfold readFile. rewrite (day_file_read dir top p I) by (apply Hin, elem_of_app; right; by left).
  rewrite numbered_fst, last_app. destruct (last (text_records _)); [done|]. apply IH.
  intros q Hq. apply Hin, elem_of_app. by left.
Qed.

Lemma first_open e d l' d' hist top :
  (d = ∅ /\ hist = [] \/ holds d top hist /\ str_le top (format_day (now e))) ->
  intact hist -> counted hist -> open readable e d = (Ok l', d') -> log_inv l' hist.
Proof.
  intros Hd Hi Hc. unfold open.
  assert (resume_from readable d (reverse (allFiles d)) = Ok (last hist)) as ->.
  { destruct Hd as [[-> ->]|[(I & _ & <-) _]]; [vm_compute; reflexivity|by eapply last_record_archive]. }
  set (l0 := match last hist with Some r => _ | None => _ end).
  assert (dir l0 = d /\ file l0 = false /\ day l0 = "" /\ seq l0 = Z.of_nat (length hist)
          /\ lastHash l0 = default Genesis (seed hist) /\ closed l0 = false) as (E1 & E2 & E3 & E4 & E5 & E6).
  { unfold l0, seed. destruct (last hist) as [r|] eqn:E; cbn.
    - do 3 (split; [done|]). split; [|done]. destruct hist as [|x h _] using rev_ind; [done|].
      rewrite last_snoc in E. injection E as ->. rewrite (Hc (length h) r) by by apply list_lookup_middle.
      rewrite length_app. cbn. f_equal. lia.
    - destruct hist as [|x h _] using rev_ind; [done|]. by rewrite last_snoc in E. }
  clearbody l0. unfold openDay. rewrite E2. cbn [andb].
  destruct (open_file e); cbn [negb]; [|done].
  change (day_file_name (format_day (now e))) with (plain_name (format_day (now e))).
  set (top1 := format_day (now e)). set (d1 := create_file (dir l0) (plain_name top1)).
  assert (holds d1 top1 hist) as Hh.
  { unfold d1. rewrite E1. destruct Hd as [[-> ->]|[Hh Hle]].
    - apply create_first, format_day_is_day.
    - by eapply create_holds; [exact Hh|apply format_day_is_day|]. }
  unfold set_dir, set_file. cbn [dir file day seq lastHash pending lastVerify closed].
  pose proof (compress_holds (cuts e) d1 top1 hist Hh) as (I & D & A).
  destruct (CompressOlderThan (cuts e) d1 keepPlain) as [d2 []]; cbn [fst snd] in *; [|done].
  intros [= <- _]. by split; cbn [dir file day seq lastHash pending lastVerify closed].
Qed.

Lemma reaches_inv l hist : reaches l hist -> log_inv l hist.
Proof.
  induction 1 as [e l d Ho|l hist e r l' s _ IH Hio Hroom Hs Ha|l hist e r l' err _ IH Hio Hroom Hs Ha
    |l hist e s att o c l' _ IH Hio Hroom Hp Ha|l hist e s o c l' err _ IH Hio Hroom Ha
    |l hist t t' c opens l' v _ IH Hv|l hist d top e l' d' _ IH Hc Hle Ho].
  - apply (first_open e ∅ l d [] ""); [by left|apply intact_nil|intros i r Hr; by destruct i|done].
  - unfold Attempt in Ha. pose proof (append_ok e (set_outcome OutcomeAttempt r) l hist IH Hio Hroom Hs) as Hk.
    destruct (append _ _ _) as [l1 [rec|err]]; [|done]. destruct Hk as [-> Hk]. injection Ha as <- <-.
    by apply log_inv_pending.
  - unfold Attempt in Ha. pose proof (append_ok e (set_outcome OutcomeAttempt r) l hist IH Hio Hroom Hs) as Hk.
    destruct (append _ _ _) as [l1 [rec|err']]; [done|]. by injection Ha as <- _.
  - unfold Outcome_ in Ha. rewrite Hp in Ha.
    pose proof (append_ok e (outcome_record att o c) _ hist (log_inv_pending l hist (delete s (pending l)) IH) Hio Hroom) as Hk.
    destruct (append _ _ _) as [l1 [rec|err]]; [|done]. injection Ha as <-.
    by destruct Hk as [-> Hk]; [destruct c|].
  - unfold Outcome_ in Ha. destruct (pending l !! s) as [att|] eqn:Hp; [|by injection Ha as <- _].
    pose proof (append_ok e (outcome_record att o c) _ hist (log_inv_pending l hist (delete s (pending l)) IH) Hio Hroom) as Hk.
    destruct (append _ _ _) as [l1 [rec|err']]; [done|]. injection Ha as <- _. apply Hk. by destruct c.
  - unfold CachedVerify in Hv. destruct IH. repeat case_match; simplify_eq; by split.
  - apply (first_open e d l' d' hist top); [|apply IH|apply IH|done]. right. split; [|done].
    eapply crash_holds; [done|]. split; [apply IH|split; apply IH].
Qed.

Lemma reads_of_files (dir : directory) files :
  (forall p, p ∈ files -> p ∈ allFiles dir) -> forall top, dir_inv dir top ->
  reads_as (map (fun p => (p, readFileLocated readable dir p)) files) (read_all dir files).
Proof.
  intros Hin top I. unfold read_all. induction files as [|p files IH]; constructor.
  - cbn. eapply day_file_read; [done|]. apply Hin. by left.
  - apply IH. intros q Hq. apply Hin. by right.
Qed.

Lemma inv_verifies l hist : log_inv l hist -> verifyLocked never readable l = VOk.
Proof.
  intros L. unfold verifyLocked. set (files := allFiles (dir l)).
  assert (forall p, p ∈ window files -> p ∈ allFiles (dir l)) as Hin.
  { intros p Hp. by apply (subseteq_drop (length files - 2)). }
  eapply verify_untouched; [apply (reads_of_files _ _ Hin _ (li_dir _ _ L))|].
  assert (concat (map (map fst) (read_all (dir l) files)) = hist) as Ea.
  { unfold files. rewrite read_all_records. apply (li_archive _ _ L). }
  assert ((concat (read_all (dir l) (window files))).*1 = concat (map (map fst) (read_all (dir l) (window files)))) as ->.
  { exact (concat_map fst _). }
  unfold window. rewrite <- (take_drop (length files - 2) files) in Ea. unfold read_all in *.
  rewrite !map_app, concat_app in Ea. eapply intact_suffix.
  - exact (eq_ind_r intact (li_intact _ _ L) Ea).
  - exact (eq_ind_r counted (li_counted _ _ L) Ea).
Qed.

(** C23: Where every write of a line reaches the disk whole and flushed or not at all,
    the parameters are such as read back unchanged, and the clock's day does not go
    back: over any sequence of requests, refused and failed ones, verifications,
    rotations, crashes between writes (in the middle of a compression too) and
    restarts, the files hold exactly the acknowledged records, each once and in order,
    numbered without a gap; the verification passes; and a restart from whatever a
    crash left continues from the last of them. None of the three can be left out:
    [failed_fsync_forks_chain] and [torn_line_refuses_start],
    [anonymous_number_breaks_log], [clock_set_back_loses_records]. *)
Theorem log_keeps_every_record l hist :
  reaches l hist ->
  (exists ls, map (readFile readable (dir l)) (allFiles (dir l)) = map Ok ls /\ concat ls = hist)
  /\ counted hist /\ verifyLocked never readable l = VOk
  /\ forall d top, crash_states (dir l) (day l) d top ->
       resume_from readable d (reverse (allFiles d)) = Ok (last hist).
Proof.
  intros L%reaches_inv. split; [|split; [apply L|split; [by eapply inv_verifies|]]].
  - exists (map (map fst) (read_all (dir l) (allFiles (dir l)))). split.
    + pose proof (read_files_ok (dir l) (day l) (allFiles (dir l)) (li_dir _ _ L) (fun p Hp => Hp)) as E.
      rewrite map_map. unfold read_all in *. rewrite map_map in *. apply map_ext_in_iff. intros p Hp.
      rewrite map_ext_in_iff in E. unfold readFile. by rewrite (E p Hp).
    + rewrite read_all_records. apply L.
  - intros d top Hc. destruct (crash_holds _ _ _ _ hist Hc) as (I & _ & <-); [split; [apply L|split; apply L]|].
    by apply (last_record_archive d top).
Qed.
End Logger.

(* ------------------------------------------------------------------ *)
(** ** Closed runs *)

Definition calm (t : time) : io := mkIO t true true true (fun _ => NoCut) WFull true.
Definition no_logger : Logger := mkLogger ∅ false "" 0 "" ∅ None true.
Definition opened (e : io) (d : gmap string content) : Logger :=
  match (open readable e d).1 with Ok l => l | Err _ => no_logger end.
Definition request (action : string) (ps : list (string * Value)) : Record_ :=
  mkRecord 0 0 "anonymous" "" "10.0.0.7" "" "" action ps "" "" "" "".
Definition one_day : Z := day_length.

Definition log_0 : Logger := opened (calm day_one) ∅.
Definition login_params : list (string * Value) :=
  captureParams (BodyRead 40 false (Some [("username", VStr "eva"); ("password", VStr "x")])) "auth.login" "r1" (fun _ => "").
Definition login : Record_ := request "auth.login" login_params.
Definition log_1 : Logger := (Attempt (calm day_one) login log_0).1.
Definition att_1 : Record_ := default login (pending log_1 !! 1%Z).
(** The answer comes after midnight: the log rotates. *)
Definition log_2 : Logger := (Outcome_ (calm (day_one + one_day)) 1 OutcomeError (Some "auth.invalid") log_1).1.

Definition hist_2 : list Record_ :=
  [] ++ [cleaned (seal_record log_0 day_one (set_outcome OutcomeAttempt login))]
  ++ [cleaned (seal_record log_1 (day_one + one_day) (outcome_record att_1 OutcomeError (Some "auth.invalid")))].

Lemma log_0_ok : open readable (calm day_one) ∅ = (Ok log_0, dir log_0).
Proof. vm_compute. reflexivity. Qed.
Lemma log_1_ok : Attempt (calm day_one) login log_0 = (log_1, Ok 1%Z).
Proof. vm_compute. reflexivity. Qed.
Lemma log_2_ok : Outcome_ (calm (day_one + one_day)) 1 OutcomeError (Some "auth.invalid") log_1 = (log_2, None).
Proof. vm_compute. reflexivity. Qed.
Lemma att_1_ok : pending log_1 !! 1%Z = Some att_1.
Proof. vm_compute. reflexivity. Qed.

Lemma log_2_reached : reaches log_2 hist_2.
Proof.
  unfold hist_2. rewrite (assoc_L (++)). apply (reach_outcome log_1 _ (calm (day_one + one_day)) 1 att_1 OutcomeError (Some "auth.invalid") log_2).
  - apply (reach_attempt log_0 [] (calm day_one) login log_1 1).
    + exact (reach_new (calm day_one) log_0 (dir log_0) log_0_ok).
    + split; vm_compute; reflexivity.
    + vm_compute. reflexivity.
    + vm_compute. reflexivity.
    + exact log_1_ok.
  - split; vm_compute; reflexivity.
  - vm_compute. reflexivity.
  - exact att_1_ok.
  - exact log_2_ok.
Qed.

Lemma log_keeps_every_record_witness :
  length hist_2 = 2
  /\ ((exists ls, map (readFile readable (dir log_2)) (allFiles (dir log_2)) = map Ok ls /\ concat ls = hist_2)
      /\ counted hist_2 /\ verifyLocked never readable log_2 = VOk
      /\ forall d top, crash_states (dir log_2) (day log_2) d top ->
           resume_from readable d (reverse (allFiles d)) = Ok (last hist_2)).
Proof. split; [reflexivity|]. exact (log_keeps_every_record log_2 hist_2 log_2_reached). Defined.

(** A login request whose user name is the number [1.0]: the record is
    acknowledged, and from then on the chain is reported broken at it. With
    [1e999] the file does not decode any more: the verification fails and the
    next start refuses. *)
Example anonymous_number_breaks_log :
  let params lit := captureParams (BodyRead 20 false (Some [("username", VNum lit)])) "auth.login" "r1" (fun _ => "") in
  let after lit := Attempt (calm day_one) (request "auth.login" (params lit)) log_0 in
  ((after "1.0").2 = Ok 1%Z /\ verifyLocked never readable (after "1.0").1 = VBreak "audit-2023-11-14.jsonl" 1)
  /\ ((after "1e999").2 = Ok 1%Z
      /\ verifyLocked never readable (after "1e999").1 = VErr (ErrRead "audit-2023-11-14.jsonl")
      /\ (open readable (calm (day_one + minute)) (dir (after "1e999").1)).1 = Err ErrResume).
Proof. cbv zeta. split; [split|split; [|split]]; vm_compute; reflexivity. Qed.

(** The records of one day, by the number they carry. *)
Definition seqs_of (l : Logger) (p : string) : option (list Z) :=
  match readFile readable (dir l) p with Ok rs => Some (map Seq rs) | Err _ => None end.

Definition attempt_at (t : time) (l : Logger) : Logger := (Attempt (calm t) login l).1.

(** Days one to three are logged, and day one is compressed. The clock goes
    back to day one for one record: the rotation creates an empty file for the
    day and compresses it at once, over the archive of the day and under the
    writer, whose acknowledged record goes to a file that is gone. *)
Example clock_set_back_loses_records :
  let l3 := attempt_at (day_one + 2 * one_day) (attempt_at (day_one + one_day) (attempt_at day_one log_0)) in
  let back := Attempt (calm day_one) login l3 in
  let l5 := attempt_at (day_one + 3 * one_day) back.1 in
  seqs_of l3 "audit-2023-11-14.jsonl.gz" = Some [1%Z] /\ verifyLocked never readable l3 = VOk
  /\ back.2 = Ok 4%Z
  /\ seqs_of l5 "audit-2023-11-14.jsonl.gz" = Some []
  /\ flat_map (fun p => default [] (seqs_of l5 p)) (allFiles (dir l5)) = [2; 3; 5]%Z.
Proof. cbv zeta. split; [|split; [|split; [|split]]]; vm_compute; reflexivity. Qed.

(** A record whose fsync failed stays in the file, and the next one takes its
    number and its predecessor: the chain is broken from there on. *)
Example failed_fsync_forks_chain :
  let unsynced := mkIO day_one true true true (fun _ => NoCut) WFull false in
  let l := (Attempt unsynced login log_0).1 in
  (Attempt unsynced login log_0).2 = Err ErrFsync
  /\ seqs_of (attempt_at day_one l) "audit-2023-11-14.jsonl" = Some [1; 1]%Z
  /\ verifyLocked never readable (attempt_at day_one l) = VBreak "audit-2023-11-14.jsonl" 2.
Proof. cbv zeta. split; [|split]; vm_compute; reflexivity. Qed.

(** A write cut short by a crash leaves a line that does not decode: the next
    start refuses. *)
Example torn_line_refuses_start :
  let torn := mkIO day_one true true true (fun _ => NoCut) (WPart false) true in
  let l := (Attempt torn login log_0).1 in
  (open readable (calm (day_one + minute)) (dir l)).1 = Err ErrResume.
Proof. vm_compute. reflexivity. Qed.
