(* ===== verification/AuditQuery.v ===== *)
(** * Paging through the audit log

    The queries of [internal/audit/query.go]: one page is the newest matching
    records, and following [next_cursor] gives every one of them once. *)

From S2P Require Import Prelude GoText AuditRecord AuditRedact AuditLog AuditLogSafety.

Abbreviation selected f := (List.filter (matches f)).

(** A page of the matching records, newest first. *)
Definition page_of (limit : nat) (ms : list Record_) : Page :=
  if bool_decide (length ms ≤ limit) then mkPage ms None
  else mkPage (take limit ms) (Seq <$> ms !! (limit - 1)).

Lemma take_app_exact {A} n (l k : list A) : length l = n -> take n (l ++ k) = l.
Proof. intros <-. apply take_app_length. Qed.

Lemma page_records_spec f limit recs : forall items,
  0 < limit -> length items ≤ limit ->
  page_records f limit recs items
  = let all := items ++ selected f recs in
    if bool_decide (length all ≤ limit) then inl all else inr (page_of limit all).
Proof.
  induction recs as [|r recs IH]; intros items Hl Hi; cbn [page_records List.filter]; cbv zeta.
  { rewrite app_nil_r. by rewrite bool_decide_eq_true_2. }
  destruct (matches f r) eqn:Hm; [|by apply IH].
  case_bool_decide as Hfull.
  - rewrite bool_decide_eq_false_2 by (rewrite length_app; cbn; lia). unfold page_of.
    rewrite bool_decide_eq_false_2 by (rewrite length_app; cbn; lia).
    rewrite take_app_exact by done. rewrite lookup_app_l by lia. done.
  - rewrite IH by (rewrite ?length_app; cbn; lia). cbv zeta. by rewrite <- (assoc_L (++)).
Qed.

Lemma page_files_spec f limit lists : forall polls items,
  0 < limit -> length items ≤ limit ->
  page_files f limit never polls (map Ok lists) items
  = Ok (page_of limit (items ++ selected f (concat (map reverse lists)))).
Proof.
  induction lists as [|rs lists IH]; intros polls items Hl Hi; cbn [map page_files concat never].
  { cbn. rewrite app_nil_r. unfold page_of. by rewrite bool_decide_eq_true_2. }
  rewrite page_records_spec by done. cbv zeta. rewrite List.filter_app, (assoc_L (++)). case_bool_decide as Hs.
  - by rewrite IH.
  - f_equal. unfold page_of. rewrite bool_decide_eq_false_2 by done.
    set (all := items ++ selected f (reverse rs)) in *.
    rewrite bool_decide_eq_false_2 by (rewrite (length_app all); lia).
    rewrite take_app_le by lia. by rewrite lookup_app_l by lia.
Qed.

Lemma reverse_concat {A} (ls : list (list A)) : concat (map reverse (reverse ls)) = reverse (concat ls).
Proof.
  induction ls as [|l ls IH]; [done|]. rewrite reverse_cons, map_app, concat_app, IH. cbn [map concat].
  by rewrite app_nil_r, reverse_app.
Qed.

(** The window only drops files that cannot match. *)
Definition time_ok (t : time) : Prop := t = zero_time \/ in_years t.

Lemma dropped_day_no_match f p r :
  time_ok (From f) -> time_ok (To f) -> format_day (TS r) = dayOf p -> in_years (TS r) ->
  in_window (From f) (To f) p = false -> matches f r = false.
Proof.
  intros Hf Ht Hd Hy. unfold in_window, matches. cbv zeta. rewrite <- Hd, andb_false_iff. intros [E|E].
  - assert (negb (negb (is_zero (From f)) && bool_decide (TS r < From f)%Z) = false) as ->; [|by rewrite andb_false_r].
    bools. destruct E as [Ez E]. split; [done|]. destruct Hf as [Hf|Hf]; [by rewrite Hf in Ez|].
    destruct (decide (TS r < From f)%Z); [done|]. pose proof (format_day_mono (From f) (TS r) Hf Hy) as Hm.
    unfold str_le in Hm. rewrite Hm in E by lia. done.
  - assert (negb (negb (is_zero (To f)) && bool_decide (To f < TS r)%Z) = false) as ->; [|by rewrite andb_false_r].
    bools. destruct E as [Ez E]. split; [done|]. destruct Ht as [Ht|Ht]; [by rewrite Ht in Ez|].
    destruct (decide (To f < TS r)%Z); [done|]. pose proof (format_day_mono (TS r) (To f) Hy Ht) as Hm.
    unfold str_le in Hm. rewrite Hm in E by lia. done.
Qed.

Lemma filter_none {A} (P : A -> bool) l : (forall x, x ∈ l -> P x = false) -> List.filter P l = [].
Proof.
  induction l as [|x l IH]; intros H; [done|]. cbn. rewrite H by left. apply IH. intros y Hy. apply H. by right.
Qed.

Lemma filter_reverse {A} (P : A -> bool) l : List.filter P (reverse l) = reverse (List.filter P l).
Proof.
  induction l as [|x l IH]; [done|]. rewrite reverse_cons, List.filter_app, IH. cbn [List.filter]. destruct (P x); [by rewrite reverse_cons|].
  by rewrite app_nil_r.
Qed.

Lemma window_keeps_matches {A} (P : A -> bool) (keep : string -> bool) (recs : string -> list A) files :
  (forall p r, p ∈ files -> keep p = false -> r ∈ recs p -> P r = false) ->
  List.filter P (concat (map recs (List.filter keep files))) = List.filter P (concat (map recs files)).
Proof.
  induction files as [|p files IH]; intros H; [done|]. cbn [List.filter map concat]. rewrite List.filter_app.
  rewrite <- IH by (intros q r Hq; apply H; by right). destruct (keep p) eqn:E; cbn [map concat].
  - by rewrite List.filter_app.
  - rewrite (filter_none P (recs p)); [done|]. intros r Hr. by apply (H p); [left| |].
Qed.

(** The page a query answers, over any directory the logger left. *)
Lemma Query_page dir top hist f :
  holds dir top hist -> time_ok (From f) -> time_ok (To f) ->
  Query never readable dir f = Ok (page_of (effectiveLimit (Limit f)) (selected f (reverse hist))).
Proof.
  intros (I & D & <-) Hf Ht. unfold Query.
  set (recs := fun p => text_records (day_text dir (dayOf p))).
  set (files := withinWindow (allFiles dir) (From f) (To f)).
  assert (forall p, p ∈ files -> p ∈ allFiles dir) as Hin.
  { intros p. unfold files, withinWindow. destruct (_ && _); [done|]. rewrite !list_elem_of_In, filter_In. by intros [? _]. }
  assert (map (readFile readable dir) (reverse files) = map Ok (reverse (map recs files))) as ->.
  { change (map recs files) with (recs <$> files). rewrite <- fmap_reverse.
    change (recs <$> reverse files) with (map recs (reverse files)). rewrite map_map. apply map_ext_in. intros p Hp.
    unfold readFile. rewrite (day_file_read dir top p I); [by rewrite numbered_fst|]. apply Hin.
    apply list_elem_of_In in Hp. by rewrite elem_of_reverse in Hp. }
  rewrite page_files_spec; [|unfold effectiveLimit, DefaultLimit, MaxLimit; repeat case_bool_decide; lia|cbn; lia].
  do 2 f_equal. cbn [app]. rewrite reverse_concat, !filter_reverse. f_equal.
  unfold archive, days. rewrite map_map. fold recs. unfold files, withinWindow. destruct (_ && _) eqn:E; [done|].
  apply window_keeps_matches. intros p r Hp Hk Hr. destruct (D (dayOf p) r Hr) as [Hd Hy].
  by eapply dropped_day_no_match.
Qed.

(* ------------------------------------------------------------------ *)
(** ** Following the cursor *)

Definition with_cursor (c : Z) (f : Filter) : Filter := mkFilter (From f) (To f) (FAction f) (Limit f) c.

(** A client that asks for page after page. *)
Fixpoint all_pages (fuel : nat) (dir : gmap string content) (f : Filter) : option (list Record_) :=
  match fuel with
  | O => None
  | S n =>
      match Query never readable dir f with
      | Err _ => None
      | Ok p => match NextCursor p with
                | None => Some (Items p)
                | Some c => app (Items p) <$> all_pages n dir (with_cursor c f)
                end
      end
  end.

Definition newer (a b : Record_) : Prop := (Seq b < Seq a)%Z.

Lemma counted_newer hist : counted hist -> StronglySorted newer (reverse hist).
Proof.
  induction hist as [|r hist IH] using rev_ind; intros Hc; [constructor|]. rewrite reverse_snoc. constructor.
  - apply IH. intros i x Hx. apply Hc. by apply lookup_app_l_Some.
  - apply Forall_forall. intros x Hx. rewrite elem_of_reverse in Hx. apply list_elem_of_lookup in Hx as [i Hi].
    unfold newer. rewrite (Hc (length hist) r) by by apply list_lookup_middle.
    rewrite (Hc i x) by by apply lookup_app_l_Some. apply lookup_lt_Some in Hi. lia.
Qed.

Lemma newer_filter P l : StronglySorted newer l -> StronglySorted newer (List.filter P l).
Proof.
  induction 1 as [|x l _ IH Hx]; [constructor|]. cbn. destruct (P x); [|done]. constructor; [done|].
  rewrite Forall_forall in Hx |- *. intros y Hy. apply Hx. apply list_elem_of_In, List.filter_In in Hy as [? _]. by apply list_elem_of_In.
Qed.

(** Below the cursor of a page lies exactly what the page left over. *)
Lemma below_cursor l n c :
  StronglySorted newer l -> l !! n = Some c -> List.filter (fun r => bool_decide (Seq r < Seq c)%Z) l = drop (S n) l.
Proof.
  intros Hs. revert n. induction Hs as [|x l Hs IH Hx]; intros n Hn; [done|]. rewrite Forall_forall in Hx.
  destruct n as [|n]; cbn in Hn |- *.
  - injection Hn as ->. rewrite bool_decide_eq_false_2 by lia. clear IH Hs. induction l as [|y l IHl]; [done|]. cbn.
    rewrite bool_decide_eq_true_2 by (apply Hx; by left). f_equal. apply IHl. intros z Hz. apply Hx. by right.
  - rewrite bool_decide_eq_false_2; [by apply IH|]. specialize (Hx c (list_elem_of_lookup_2 _ _ _ Hn)). unfold newer in Hx. lia.
Qed.

Lemma matches_with_cursor f c r :
  (0 < Seq c)%Z -> matches f c = true ->
  matches (with_cursor (Seq c) f) r = matches f r && bool_decide (Seq r < Seq c)%Z.
Proof.
  intros Hc. unfold matches. cbn [Cursor From To FAction with_cursor]. rewrite (bool_decide_eq_false_2 (Seq c = 0%Z)) by lia.
  destruct (bool_decide (Cursor f = 0%Z)) eqn:E0; cbn [negb andb].
  - intros _. destruct (decide (Seq r < Seq c)%Z).
    + rewrite (bool_decide_eq_false_2 (Seq c <= Seq r)%Z) by lia. rewrite (bool_decide_eq_true_2 (Seq r < Seq c)%Z) by done. cbn. by rewrite andb_true_r.
    + rewrite (bool_decide_eq_true_2 (Seq c <= Seq r)%Z) by lia. rewrite (bool_decide_eq_false_2 (Seq r < Seq c)%Z) by done.
      cbn. by rewrite andb_false_r.
  - intros Hm. bools. destruct Hm as [[[Hm _] _] _].
    destruct (decide (Seq r < Seq c)%Z).
    + rewrite (bool_decide_eq_false_2 (Seq c <= Seq r)%Z), (bool_decide_eq_false_2 (Cursor f <= Seq r)%Z) by lia.
      rewrite (bool_decide_eq_true_2 (Seq r < Seq c)%Z) by done. cbn. by rewrite andb_true_r.
    + rewrite (bool_decide_eq_true_2 (Seq c <= Seq r)%Z) by lia. rewrite (bool_decide_eq_false_2 (Seq r < Seq c)%Z) by done.
      cbn. by rewrite andb_false_r.
Qed.

Lemma filter_and {A} (P Q : A -> bool) l : List.filter (fun x => P x && Q x) l = List.filter Q (List.filter P l).
Proof. induction l as [|x l IH]; [done|]. cbn. destruct (P x); cbn; [destruct (Q x); by rewrite IH|done]. Qed.

Lemma next_page_matches f l n c :
  StronglySorted newer l -> (forall r, r ∈ l -> (0 < Seq r)%Z) -> selected f l !! n = Some c ->
  selected (with_cursor (Seq c) f) l = drop (S n) (selected f l).
Proof.
  intros Hs Hpos Hn. rewrite <- (below_cursor _ n c) by (done || by apply newer_filter). rewrite <- filter_and.
  apply list_elem_of_lookup_2, list_elem_of_In, List.filter_In in Hn as [Hin Hm].
  apply List.filter_ext. intros r. apply matches_with_cursor; [|done]. by apply Hpos, list_elem_of_In.
Qed.

Lemma effectiveLimit_pos n : 0 < effectiveLimit n.
Proof. unfold effectiveLimit, DefaultLimit, MaxLimit. repeat case_bool_decide; lia. Qed.

Lemma all_pages_spec dir top hist fuel : forall f,
  holds dir top hist -> counted hist -> time_ok (From f) -> time_ok (To f) ->
  length (selected f (reverse hist)) < fuel -> all_pages fuel dir f = Some (selected f (reverse hist)).
Proof.
  induction fuel as [|fuel IH]; intros f Hh Hc Hf Ht Hl; [lia|]. cbn [all_pages].
  rewrite (Query_page dir top hist f Hh Hf Ht). pose proof (effectiveLimit_pos (Limit f)) as Hpos.
  set (ms := selected f (reverse hist)) in *. set (limit := effectiveLimit (Limit f)) in *.
  unfold page_of. case_bool_decide as Hfit; cbn [NextCursor Items]; [done|].
  destruct (lookup_lt_is_Some_2 ms (limit - 1)) as [c Ec]; [lia|]. rewrite Ec. cbn [fmap option_fmap option_map].
  assert (selected (with_cursor (Seq c) f) (reverse hist) = drop limit ms) as En.
  { replace limit with (S (limit - 1)) by lia. apply next_page_matches; [by apply counted_newer| |done].
    intros r Hr. rewrite elem_of_reverse in Hr. apply list_elem_of_lookup in Hr as [i Hi]. rewrite (Hc i r Hi). lia. }
  rewrite IH; [|done|done|done|done|rewrite En, length_drop; lia].
  rewrite En. cbn. by rewrite take_drop.
Qed.

(** C27: Following [next_cursor] over the log of any history ends, and the pages
    together are the matching records, newest first, each exactly once; no page
    is longer than the limit. The number of pages needs no bound but that of
    the records. *)
Theorem pages_partition_matches `{Sha256} l hist f :
  reaches l hist -> time_ok (From f) -> time_ok (To f) ->
  all_pages (S (length hist)) (dir l) f = Some (List.filter (matches f) (reverse hist))
  /\ exists p, Query never readable (dir l) f = Ok p /\ length (Items p) ≤ effectiveLimit (Limit f)
       /\ (NextCursor p = None <-> Items p = List.filter (matches f) (reverse hist)).
Proof.
  intros L%reaches_inv Hf Ht. assert (holds (dir l) (day l) hist) as Hh by (split; [apply L|split; apply L]). split.
  - eapply all_pages_spec; [done|apply L|done|done|]. rewrite <- (length_reverse hist). apply Nat.lt_succ_r, List.filter_length_le.
  - rewrite (Query_page _ _ _ f Hh Hf Ht). eexists. split; [reflexivity|]. unfold page_of.
    pose proof (effectiveLimit_pos (Limit f)) as Hpos. set (ms := List.filter _ _). case_bool_decide as Hfit; cbn; [done|].
    rewrite length_take. split; [lia|]. destruct (lookup_lt_is_Some_2 ms (effectiveLimit (Limit f) - 1)) as [c ->]; [lia|].
    split; [done|]. intros E. apply (f_equal length) in E. rewrite length_take in E. lia.
Qed.

Lemma pages_partition_matches_witness :
  let f := mkFilter 0 0 "auth.login" 1 0 in
  (all_pages 3 (dir log_2) f = Some (List.filter (matches f) (reverse hist_2))
   /\ exists p, Query never readable (dir log_2) f = Ok p /\ length (Items p) ≤ effectiveLimit (Limit f)
        /\ (NextCursor p = None <-> Items p = List.filter (matches f) (reverse hist_2)))
  /\ map Seq (List.filter (matches f) (reverse hist_2)) = [2; 1]%Z.
Proof.
  intros f. split; [|vm_compute; reflexivity].
  exact (pages_partition_matches log_2 hist_2 f log_2_reached (or_introl eq_refl) (or_introl eq_refl)).
Defined.
