(* ===== verification/History.v ===== *)
(** * The history of the gauges

    [src/internal/history/history.go]: rings over absolute slots, the store of every
    subject's series, and the view a chart is drawn from. *)

From S2P Require Import Prelude GoText GoFloat.

(* ------------------------------------------------------------------ *)
(** ** Steps and ranges *)

Definition FineStep : duration := (15 * second)%Z.
Definition CoarseStep : duration := minute.
Definition FineSlots : nat := Z.to_nat (hour / FineStep).
Definition CoarseSlots : nat := Z.to_nat (24 * hour / CoarseStep).
Definition Retention : duration := (24 * hour)%Z.
Definition finePerCoarse : Z := (CoarseStep / FineStep)%Z.

Inductive Range := Range1h | Range6h | Range24h.

Definition range_text (r : Range) : string :=
  match r with Range1h => "1h" | Range6h => "6h" | Range24h => "24h" end.

Definition ParseRange (s : string) : option Range :=
  if bool_decide (s = "") then Some Range1h
  else if bool_decide (s = "1h") then Some Range1h
  else if bool_decide (s = "6h") then Some Range6h
  else if bool_decide (s = "24h") then Some Range24h
  else None.

(** [Range.tier]: whether it is the fine ring, the step and the slots. *)
Definition tier (r : Range) : bool * duration * nat :=
  match r with
  | Range6h => (false, CoarseStep, Z.to_nat (6 * hour / CoarseStep))
  | Range24h => (false, CoarseStep, CoarseSlots)
  | Range1h => (true, FineStep, FineSlots)
  end.

(** [floorDiv]: Go's division goes towards zero. *)
Definition floorDiv (a b : Z) : Z :=
  let q := Z.quot a b in
  if negb (bool_decide (Z.rem a b = 0)%Z) && negb (bool_decide ((a <? 0)%Z = (b <? 0)%Z)) then (q - 1)%Z else q.

(** [Time.UnixMilli] and [time.UnixMilli]. *)
Definition unix_epoch : time := (unix_epoch_seconds * second)%Z.
Definition unix_milli (t : time) : Z := ((t - unix_epoch) / millisecond)%Z.
Definition from_unix_milli (ms : Z) : time := (unix_epoch + ms * millisecond)%Z.
Definition milliseconds (d : duration) : Z := Z.quot d millisecond.

Definition fine_slot (t : time) : Z := floorDiv (unix_milli t) (milliseconds FineStep).
Definition coarse_slot (t : time) : Z := floorDiv (unix_milli t) (milliseconds CoarseStep).

Definition MachineSubject (id : string) : string := "machine/" +:+ id.
Definition HostSubject : string := "host/local".
Definition appPrefix (cluster : string) : string := "app/" +:+ cluster +:+ "/".
Definition AppSubject (cluster namespace kind name : string) : string :=
  appPrefix cluster +:+ namespace +:+ "/" +:+ kind +:+ "/" +:+ name.

(* ------------------------------------------------------------------ *)
(** ** Rings *)

Record ring := mkRing { vals : list float32; head : Z }.

Definition newRing (n : nat) : ring := mkRing (replicate n nan) 0.

Definition slots_of (r : ring) : Z := Z.of_nat (length (vals r)).

Definition index (r : ring) (slot : Z) : nat :=
  let n := slots_of r in Z.to_nat (Z.rem (Z.rem slot n + n) n).

Definition set_val (slot : Z) (v : float32) (r : ring) : ring := mkRing (<[index r slot := v]> (vals r)) (head r).

(** The loop that clears what the ring moves over. *)
Definition clear (from slot : Z) (r : ring) : ring :=
  fold_left (fun r s => set_val s nan r) (seqZ from (slot - from + 1)) r.

(** A slot newer than the head moves the ring forward. *)
Definition advance (slot : Z) (r : ring) : ring :=
  if bool_decide (head r < slot)%Z
  then mkRing (vals (clear (Z.max (head r + 1) (slot - slots_of r + 1)) slot r)) slot else r.

Definition put (slot : Z) (v : float32) (r : ring) : ring :=
  let r' := advance slot r in
  if bool_decide (slot <= head r' - slots_of r')%Z then r' else set_val slot v r'.

Definition at_slot (r : ring) (slot : Z) : float32 :=
  if bool_decide (head r < slot)%Z || bool_decide (slot <= head r - slots_of r)%Z then nan
  else default nan (vals r !! index r slot).

Record series := mkSeries { fine : ring; coarse : ring }.
Definition newSeries : series := mkSeries (newRing FineSlots) (newRing CoarseSlots).

Record subject := mkSubject { seen : time; all_series : gmap string series }.

Record Store := mkStore {
  subjects : gmap string subject;
  apps : gmap string (gset string);     (* per cluster, the keys of its last listing *)
  has_file : bool;                       (* write is not nil *)
  dirty : bool;
  lastFlush : time;
  writes : Z
}.

Definition NewMemory : Store := mkStore ∅ ∅ false false zero_time 0.

Definition set_subjects (m : gmap string subject) (s : Store) : Store :=
  mkStore m (apps s) (has_file s) (dirty s) (lastFlush s) (writes s).
Definition set_dirty (b : bool) (s : Store) : Store :=
  mkStore (subjects s) (apps s) (has_file s) b (lastFlush s) (writes s).

(* ------------------------------------------------------------------ *)
(** ** Recording *)

(** The loop over the slots of a minute: the sum and the count of what is there. *)
Definition add_sample (r : ring) (acc : float64 * Z) (slot : Z) : float64 * Z :=
  let v := at_slot r slot in
  if isNaN v then acc else (f64_add acc.1 v, acc.2 + 1)%Z.

Definition minuteAverage (r : ring) (minute : Z) : float32 :=
  let '(sum, n) := fold_left (add_sample r) (seqZ (minute * finePerCoarse) finePerCoarse) (f64_zero, 0%Z) in
  if bool_decide (n = 0)%Z then nan else float32_of (f64_div sum (f64_of_int n)).

Definition record_in (f m : Z) (v : float32) (ser : series) : series :=
  let r := put f v (fine ser) in
  let avg := minuteAverage r m in
  mkSeries r (if isNaN avg then coarse ser else put m avg (coarse ser)).

Definition record_value (f m : Z) (name : string) (v : float64) (all : gmap string series) : gmap string series :=
  if isNaN v || isInf v then all
  else <[name := record_in f m (float32_of v) (default newSeries (all !! name))]> all.

Definition record_subject (at_ : time) (values : gmap string float64) (sub : subject) : subject :=
  let f := fine_slot at_ in
  let m := floorDiv f finePerCoarse in
  mkSubject (if bool_decide (seen sub < at_)%Z then at_ else seen sub)
    (map_fold (record_value f m) (all_series sub) values).

(** [Store.Record]. *)
Definition record (key : string) (at_ : time) (values : gmap string float64) (s : Store) : Store :=
  if bool_decide (values = ∅) then s
  else
    let sub := default (mkSubject zero_time ∅) (subjects s !! key) in
    set_dirty true (set_subjects (<[key := record_subject at_ values sub]> (subjects s)) s).

(* ------------------------------------------------------------------ *)
(** ** Asking *)

Definition Point := (float64 * float64)%type.

Record View := mkView {
  v_range : Range;
  v_step_seconds : Z;
  v_from : string;
  v_to : string;
  v_series : gmap string (list Point)
}.

(** [t.UTC().Format(time.RFC3339)]. *)
Definition format_seconds (t : time) : string :=
  let s := (t mod day_length / second)%Z in
  format_day t +:+ "T" +:+ pad 2 (s / 3600) +:+ ":" +:+ pad 2 (s / 60 mod 60) +:+ ":" +:+ pad 2 (s mod 60) +:+ "Z".

(** The loop over the slots of a range. *)
Definition points (r : ring) (first last stepMS : Z) : list Point :=
  omap (fun slot => let v := at_slot r slot in
                    if isNaN v then None else Some (f64_of_int (slot * stepMS), shortest_float v))
       (seqZ first (last - first + 1)).

Definition window_start (r : Range) (now : time) : Z :=
  let '(_, step, slots) := tier r in
  (floorDiv (unix_milli now) (milliseconds step) - Z.of_nat slots + 1)%Z.
Definition window_end (r : Range) (now : time) : Z :=
  let '(_, step, _) := tier r in floorDiv (unix_milli now) (milliseconds step).
Definition ring_for (r : Range) (ser : series) : ring := if (tier r).1.1 then fine ser else coarse ser.

Definition view_points (r : Range) (now : time) (ser : series) : option (list Point) :=
  let ps := points (ring_for r ser) (window_start r now) (window_end r now) (milliseconds (tier r).1.2) in
  if bool_decide (ps = []) then None else Some ps.

Definition Query (key : string) (r : Range) (now : time) (s : Store) : View :=
  let '(_, step, slots) := tier r in
  mkView r (Z.quot step second)
    (format_seconds (now - Z.of_nat slots * step)%Z) (format_seconds now)
    (match subjects s !! key with
     | None => ∅
     | Some sub => omap (view_points r now) (all_series sub)
     end).

Definition Has (key : string) (s : Store) : bool := bool_decide (is_Some (subjects s !! key)).
Definition Subjects (s : Store) : list string := merge_sort str_le (map fst (map_to_list (subjects s))).

(* ------------------------------------------------------------------ *)
(** ** Forgetting *)

Definition retained (machines clusters : gset string) (key : string) : bool :=
  if bool_decide (key = HostSubject) then true
  else
    match cut_prefix "machine/" key with
    | Some id => bool_decide (id ∈ machines)
    | None =>
        match cut_prefix "app/" key with
        | Some rest => bool_decide ((cut_at "/" rest).1 ∈ clusters)
        | None => true
        end
    end.

(** What a deletion leaves, and how much it took. *)
Definition keep_subjects (P : string -> subject -> bool) (s : Store) : Store * nat :=
  let kept := filter (fun kv => P kv.1 kv.2 = true) (subjects s) in
  let n := size (subjects s) - size kept in
  (mkStore kept (apps s) (has_file s) (if bool_decide (0 < n) then true else dirty s) (lastFlush s) (writes s), n).

Definition Retain (machines clusters : gset string) (s : Store) : Store * nat :=
  let '(s, n) := keep_subjects (fun key _ => retained machines clusters key) s in
  (mkStore (subjects s) (filter (fun kv => kv.1 ∈ clusters) (apps s)) (has_file s) (dirty s) (lastFlush s) (writes s), n).

Definition heard_within (now : time) (sub : subject) : bool := negb (bool_decide (Retention < time_sub now (seen sub))%Z).
Definition Prune (now : time) (s : Store) : Store * nat := keep_subjects (fun _ sub => heard_within now sub) s.

Definition SetApps (cluster : string) (keys : list string) (s : Store) : Store :=
  mkStore (subjects s) (<[cluster := list_to_set keys]> (apps s)) (has_file s) (dirty s) (lastFlush s) (writes s).

(** [AppKnown]: known, certain. *)
Definition AppKnown (cluster namespace kind name : string) (s : Store) : bool * bool :=
  let key := AppSubject cluster namespace kind name in
  if Has key s then (true, true)
  else match apps s !! cluster with
       | None => (false, false)
       | Some listed => (bool_decide (key ∈ listed), true)
       end.

(* ------------------------------------------------------------------ *)
(** ** A ring is a window over its slots *)

Lemma floorDiv_spec a b : (0 < b)%Z -> floorDiv a b = (a / b)%Z.
Proof.
  intros Hb. unfold floorDiv. pose proof (Z.quot_rem' a b) as Hq. pose proof (Z.rem_bound_abs a b ltac:(lia)) as Hr.
  pose proof (Z.rem_sign_mul a b ltac:(lia)) as Hs. rewrite (proj2 (Z.ltb_ge b 0)) by lia.
  case_bool_decide as E0; cbn [negb andb]; [apply Z.div_unique_exact; lia|].
  destruct (Z.ltb_spec a 0) as [Ha|Ha]; [rewrite bool_decide_false by done|rewrite bool_decide_true by done]; cbn [negb].
  - apply Z.div_unique_pos with (r := (Z.rem a b + b)%Z); nia.
  - apply Z.div_unique_pos with (r := Z.rem a b); [|lia]. pose proof (Z.rem_nonneg a b ltac:(lia) Ha). lia.
Qed.

Lemma index_spec r slot : (0 < slots_of r)%Z -> index r slot = Z.to_nat (slot mod slots_of r).
Proof.
  intros Hn. unfold index. f_equal. set (n := slots_of r) in *. pose proof (Z.rem_bound_abs slot n ltac:(lia)).
  rewrite Z.rem_mod_nonneg by lia. rewrite <- (Z_mod_plus_full _ (Z.quot slot n - 1)). f_equal.
  pose proof (Z.quot_rem' slot n). lia.
Qed.

Lemma index_lt r slot : (0 < slots_of r)%Z -> index r slot < length (vals r).
Proof.
  intros Hn. rewrite index_spec by done. unfold slots_of in *. pose proof (Z.mod_pos_bound slot (Z.of_nat (length (vals r))) Hn). lia.
Qed.

(** Slots closer to each other than the ring is long have places of their own. *)
Lemma index_inj r a b : (0 < slots_of r)%Z -> (Z.abs (a - b) < slots_of r)%Z -> index r a = index r b -> a = b.
Proof.
  intros Hn Hab. rewrite !index_spec by done. intros E%Z2Nat.inj; [|apply Z.mod_pos_bound; lia..].
  pose proof (Z.div_mod a (slots_of r) ltac:(lia)). pose proof (Z.div_mod b (slots_of r) ltac:(lia)).
  assert ((a / slots_of r = b / slots_of r)%Z) by nia. nia.
Qed.

Lemma slots_set_val slot v r : slots_of (set_val slot v r) = slots_of r.
Proof. unfold slots_of, set_val. cbn. by rewrite length_insert. Qed.

Lemma slots_clear from slot r : slots_of (clear from slot r) = slots_of r /\ head (clear from slot r) = head r.
Proof.
  unfold clear. generalize (seqZ from (slot - from + 1)). intros l. revert r. induction l as [|s l IH]; intros r; [done|].
  cbn. destruct (IH (set_val s nan r)) as [-> ->]. by rewrite slots_set_val.
Qed.

(** The value at a slot's place, whatever the window is. *)
Definition place (r : ring) (slot : Z) : float32 := default nan (vals r !! index r slot).

Lemma index_of_slots r r' slot : slots_of r = slots_of r' -> index r slot = index r' slot.
Proof. unfold index. by intros ->. Qed.

Lemma place_set_val slot v r s : (0 < slots_of r)%Z ->
  place (set_val slot v r) s = if decide (index r slot = index r s) then v else place r s.
Proof.
  intros Hn. unfold place. rewrite (index_of_slots (set_val slot v r) r s) by apply slots_set_val. cbn [set_val vals].
  case_decide as E; [rewrite E, list_lookup_insert_eq by (by apply index_lt); done|by rewrite list_lookup_insert_ne].
Qed.

Lemma place_clear l r s : (0 < slots_of r)%Z ->
  place (fold_left (fun r s => set_val s nan r) l r) s = if decide (index r s ∈ map (index r) l) then nan else place r s.
Proof.
  revert r. induction l as [|x l IH]; intros r Hn; cbn [fold_left map]; [by rewrite decide_False by apply not_elem_of_nil|].
  rewrite IH by (by rewrite slots_set_val). rewrite place_set_val by done.
  assert (Hi : forall y, index (set_val x nan r) y = index r y) by (intros y; apply index_of_slots, slots_set_val).
  rewrite Hi, (map_ext _ _ Hi). repeat case_decide; set_solver.
Qed.

Lemma slots_advance slot r : slots_of (advance slot r) = slots_of r.
Proof.
  unfold advance. case_bool_decide; [|done]. by destruct (slots_clear (Z.max (head r + 1) (slot - slots_of r + 1)) slot r).
Qed.

Lemma head_advance slot r : head (advance slot r) = Z.max (head r) slot.
Proof. unfold advance. case_bool_decide; cbn; lia. Qed.

Lemma put_slots slot v r : slots_of (put slot v r) = slots_of r.
Proof. unfold put. cbv zeta. case_bool_decide; by rewrite ?slots_set_val, ?slots_advance. Qed.

Lemma put_head slot v r : head (put slot v r) = Z.max (head r) slot.
Proof. unfold put. cbv zeta. rewrite <- head_advance. by case_bool_decide. Qed.

Definition in_window (n head slot : Z) : Prop := (head - n < slot <= head)%Z.
#[global] Instance in_window_dec n h s : Decision (in_window n h s).
Proof. unfold in_window. apply _. Defined.

Lemma at_slot_place r s : at_slot r s = if decide (in_window (slots_of r) (head r) s) then place r s else nan.
Proof.
  unfold at_slot, in_window. case_decide as Hw.
  - by rewrite !bool_decide_false by lia.
  - destruct (bool_decide _) eqn:E1; [done|]. cbn [orb]. rewrite bool_decide_true; [done|]. apply bool_decide_eq_false in E1. lia.
Qed.

Lemma place_advance slot r s : (0 < slots_of r)%Z -> in_window (slots_of r) (Z.max (head r) slot) s ->
  place (advance slot r) s = at_slot r s.
Proof.
  unfold in_window. intros Hn Hw. rewrite at_slot_place. unfold in_window, advance. case_bool_decide as Hh; [|by rewrite decide_True by lia].
  set (from := Z.max (head r + 1) (slot - slots_of r + 1)).
  transitivity (place (clear from slot r) s); [done|].
  unfold clear. rewrite place_clear by done. destruct (decide (head r < s)%Z) as [Hs|Hs].
  - rewrite (decide_False (P := (_ < _ <= _)%Z)) by lia. rewrite decide_True; [done|].
    apply list_elem_of_fmap. exists s. split; [done|]. apply elem_of_seqZ. lia.
  - rewrite (decide_True (P := (_ < _ <= _)%Z)) by lia. rewrite decide_False; [done|].
    intros (x & E & Hx%elem_of_seqZ)%list_elem_of_fmap. apply index_inj in E; lia.
Qed.

(** A write is seen at its slot and nowhere else; what the window has left, or has
    not reached, is a gap. *)
Lemma put_at slot v r s : (0 < slots_of r)%Z ->
  at_slot (put slot v r) s =
  if decide (in_window (slots_of r) (Z.max (head r) slot) s) then if decide (s = slot) then v else at_slot r s else nan.
Proof.
  intros Hn. rewrite (at_slot_place (put slot v r)), put_slots, put_head. case_decide as Hw; [|done].
  pose proof (place_advance slot r s Hn Hw) as Hp. unfold put. cbv zeta. rewrite head_advance, slots_advance. unfold in_window in Hw.
  case_bool_decide as Ho; [rewrite decide_False by (intros ->; lia); done|].
  rewrite place_set_val by (by rewrite slots_advance). destruct (decide (s = slot)) as [->|Hne]; [by rewrite decide_True|].
  rewrite decide_False; [done|]. intros E%index_inj; [lia|by rewrite slots_advance|rewrite slots_advance; lia].
Qed.

(* ------------------------------------------------------------------ *)
(** ** What was sampled

    The log of the samples, and what a chart of it is: the reference the rings are
    held against. *)

Record sample := mkSample { s_key : string; s_at : time; s_values : gmap string float64 }.

Definition sampled (log : list sample) : Store :=
  fold_left (fun s x => record (s_key x) (s_at x) (s_values x) s) log NewMemory.

(** A sample's reading of one quantity of one subject: its slot and its value. *)
Definition reading (key name : string) (x : sample) : option (Z * float32) :=
  if bool_decide (s_key x = key)
  then match s_values x !! name with
       | Some v => if isNaN v || isInf v then None else Some (fine_slot (s_at x), float32_of v)
       | None => None
       end
  else None.
Definition readings (key name : string) (log : list sample) : list (Z * float32) := omap (reading key name) log.

(** The last reading in a slot. *)
Definition latest (l : list (Z * float32)) (slot : Z) : option float32 :=
  last (omap (fun p => if bool_decide (p.1 = slot) then Some p.2 else None) l).

(** The mean of a minute: of the last readings in its slots. *)
Definition minute_mean (l : list (Z * float32)) (minute : Z) : option float32 :=
  match omap (latest l) (seqZ (minute * finePerCoarse) finePerCoarse) with
  | [] => None
  | vs => Some (float32_of (f64_div (fold_left f64_add vs f64_zero) (f64_of_int (Z.of_nat (length vs)))))
  end.

(** The chart of a quantity: a point for every slot of the range that has a value. *)
Definition chart (r : Range) (now : time) (l : list (Z * float32)) : option (list Point) :=
  let '(fine, step, _) := tier r in
  let look := if fine then latest l else minute_mean l in
  let ps := omap (fun slot => (fun v => (f64_of_int (slot * milliseconds step), shortest_float v)) <$> look slot)
                 (seqZ (window_start r now) (window_end r now - window_start r now + 1)) in
  if bool_decide (ps = []) then None else Some ps.

Lemma latest_snoc l p slot : latest (l ++ [p]) slot = if bool_decide (p.1 = slot) then Some p.2 else latest l slot.
Proof.
  unfold latest. rewrite omap_app. cbn [omap list_omap]. case_bool_decide; [by rewrite last_snoc|by rewrite app_nil_r].
Qed.

Lemma latest_None l slot : (forall p, p ∈ l -> p.1 <> slot) -> latest l slot = None.
Proof.
  intros H. unfold latest. replace (omap _ l) with ([] : list float32); [done|]. symmetry.
  induction l as [|p l IH]; [done|]. cbn [omap list_omap]. rewrite bool_decide_false by (apply H; left). apply IH. intros q Hq. apply H. by right.
Qed.

Lemma latest_elem l slot v : latest l slot = Some v -> (slot, v) ∈ l.
Proof.
  unfold latest. rewrite last_Some. intros [l' E]. assert (Hv : v ∈ omap (fun p => if bool_decide (p.1 = slot) then Some p.2 else None) l) by (rewrite E; set_solver).
  apply list_elem_of_omap in Hv as (p & Hp & Hv). case_bool_decide as Hs; [|done]. destruct p; cbn in *. congruence.
Qed.

Lemma latest_some l p : p ∈ l -> is_Some (latest l p.1).
Proof.
  induction l as [|q l IH] using rev_ind; [by intros ?%elem_of_nil|]. intros Hp. rewrite latest_snoc. case_bool_decide as E; [by eexists|].
  apply elem_of_app in Hp as [Hp| ->%list_elem_of_singleton]; [by apply IH|done].
Qed.

(** A ring refines the log of its writes: inside its window it has the last of them. *)
Definition ring_of (n : nat) (l : list (Z * float32)) : ring := fold_left (fun r p => put p.1 p.2 r) l (newRing n).

Lemma slots_new n : slots_of (newRing n) = Z.of_nat n.
Proof. unfold slots_of, newRing. cbn. by rewrite length_replicate. Qed.

Lemma ring_of_slots n l : slots_of (ring_of n l) = Z.of_nat n.
Proof.
  unfold ring_of. rewrite <- (slots_new n). generalize (newRing n). induction l as [|p l IH]; intros r; [done|]. cbn. by rewrite IH, put_slots.
Qed.

Lemma ring_of_snoc n l p : ring_of n (l ++ [p]) = put p.1 p.2 (ring_of n l).
Proof. unfold ring_of. by rewrite fold_left_app. Qed.

Lemma ring_of_head n l :
  (0 <= head (ring_of n l))%Z /\ (forall p, p ∈ l -> p.1 <= head (ring_of n l))%Z /\
  (head (ring_of n l) = 0%Z \/ exists p, p ∈ l /\ p.1 = head (ring_of n l)).
Proof.
  induction l as [|p l (H1 & H2 & H3)] using rev_ind; [split_and!; [cbn; lia|set_solver|by left]|]. rewrite ring_of_snoc, put_head. split_and!; [lia| |].
  - intros q Hq. apply elem_of_app in Hq as [Hq| ->%list_elem_of_singleton]; [|lia]. pose proof (H2 q Hq). lia.
  - destruct (decide (p.1 <= head (ring_of n l))%Z).
    + rewrite Z.max_l by lia. destruct H3 as [H3|(q & Hq & E)]; [by left|]. right. exists q. set_solver.
    + rewrite Z.max_r by lia. right. exists p. set_solver.
Qed.

Lemma ring_of_at n l slot : 0 < n ->
  at_slot (ring_of n l) slot = if decide (in_window (Z.of_nat n) (head (ring_of n l)) slot) then default nan (latest l slot) else nan.
Proof.
  intros Hn. induction l as [|p l IH] using rev_ind.
  - rewrite at_slot_place. unfold ring_of. cbn [fold_left]. rewrite slots_new. case_decide; [|done]. unfold place.
    destruct (vals (newRing n) !! index (newRing n) slot) eqn:E; [|done]. cbn in E. apply lookup_replicate in E as [-> _]. done.
  - rewrite ring_of_snoc, put_at, put_head, ring_of_slots by (rewrite ring_of_slots; lia).
    destruct (decide (in_window (Z.of_nat n) (Z.max (head (ring_of n l)) p.1) slot)) as [Hw|Hw]; [|done].
    rewrite latest_snoc. destruct (decide (slot = p.1)) as [->|Hne]; [by rewrite bool_decide_true|]. rewrite bool_decide_false by done. rewrite IH.
    case_decide as Hw'; [done|]. rewrite latest_None; [done|]. destruct (ring_of_head n l) as (_ & H2 & _). intros q Hq <-.
    apply Hw'. pose proof (H2 q Hq). unfold in_window in *. lia.
Qed.

(** The series of a quantity depends on its readings alone. *)
Definition series_of (l : list (Z * float32)) : series :=
  fold_left (fun ser p => record_in p.1 (floorDiv p.1 finePerCoarse) p.2 ser) l newSeries.

Lemma series_of_snoc l p : series_of (l ++ [p]) = record_in p.1 (floorDiv p.1 finePerCoarse) p.2 (series_of l).
Proof. unfold series_of. by rewrite fold_left_app. Qed.

Lemma series_of_fine l : fine (series_of l) = ring_of FineSlots l.
Proof. induction l as [|p l IH] using rev_ind; [done|]. rewrite series_of_snoc, ring_of_snoc. cbn [record_in fine]. by rewrite IH. Qed.

Definition stored_series (s : Store) (key name : string) : option series := subjects s !! key ≫= fun sub => all_series sub !! name.

Lemma record_values_lookup f m values all name :
  map_fold (record_value f m) all values !! name =
  match values !! name with
  | Some v => if isNaN v || isInf v then all !! name else Some (record_in f m (float32_of v) (default newSeries (all !! name)))
  | None => all !! name
  end.
Proof.
  revert name. apply (map_fold_weak_ind (fun r values => forall name, r !! name =
    match values !! name with
    | Some v => if isNaN v || isInf v then all !! name else Some (record_in f m (float32_of v) (default newSeries (all !! name)))
    | None => all !! name
    end)).
  - intros name. by rewrite lookup_empty.
  - intros i v values' r Hi IH name. unfold record_value. destruct (decide (i = name)) as [->|Hne].
    + rewrite lookup_insert_eq. specialize (IH name). rewrite Hi in IH. destruct (isNaN v || isInf v); [done|]. by rewrite lookup_insert_eq, IH.
    + rewrite lookup_insert_ne by done. rewrite <- IH. destruct (isNaN v || isInf v); [done|]. by rewrite lookup_insert_ne.
Qed.

Lemma record_series key at_ values s key' name :
  stored_series (record key at_ values s) key' name =
  match reading key' name (mkSample key at_ values) with
  | Some p => Some (record_in p.1 (floorDiv p.1 finePerCoarse) p.2 (default newSeries (stored_series s key' name)))
  | None => stored_series s key' name
  end.
Proof.
  unfold record, reading. cbn [s_key s_at s_values]. case_bool_decide as He.
  { subst. rewrite lookup_empty. by case_bool_decide. }
  unfold stored_series, set_dirty, set_subjects. cbn [subjects]. destruct (decide (key = key')) as [->|Hne].
  - rewrite lookup_insert_eq, bool_decide_true by done. cbn [mbind option_bind record_subject all_series]. rewrite record_values_lookup.
    destruct (subjects s !! key') as [sub|] eqn:Es; cbn [default from_option mbind option_bind all_series].
    + destruct (values !! name) as [v|]; [|done]. by destruct (isNaN v || isInf v).
    + rewrite lookup_empty. destruct (values !! name) as [v|]; [|done]. by destruct (isNaN v || isInf v).
  - rewrite lookup_insert_ne, bool_decide_false by done. done.
Qed.

Lemma sampled_series log key name :
  stored_series (sampled log) key name =
  if bool_decide (readings key name log = []) then None else Some (series_of (readings key name log)).
Proof.
  unfold sampled. induction log as [|x log IH] using rev_ind; [done|]. rewrite fold_left_app. cbn [fold_left]. rewrite record_series, IH.
  unfold readings in *. rewrite omap_app. cbn [omap list_omap]. clear IH. destruct x as [k t vs]. destruct (reading key name _) as [p|] eqn:Er.
  - rewrite (bool_decide_false (_ ++ _ = [])) by (by destruct (omap _ log)). rewrite series_of_snoc. case_bool_decide as E; [|done].
    by rewrite E.
  - by rewrite app_nil_r.
Qed.

(* ------------------------------------------------------------------ *)
(** ** Minutes *)

(** A reading a chart can show: a [float32] that is a number. *)
Definition sound (p : Z * float32) : Prop := is_f32 p.2 /\ finite p.2 = true.

Definition in_order (l : list (Z * float32)) : Prop := StronglySorted (fun p q => p.1 <= q.1)%Z l.

Lemma in_minute m slot : slot ∈ seqZ (m * finePerCoarse) finePerCoarse <-> (slot / finePerCoarse = m)%Z.
Proof.
  rewrite elem_of_seqZ. change finePerCoarse with 4%Z. pose proof (Z.div_mod slot 4 ltac:(lia)). pose proof (Z.mod_pos_bound slot 4 ltac:(lia)). lia.
Qed.

(** The loop of [minuteAverage], over what the ring has. *)
Lemma add_samples r look slots acc :
  (forall s, s ∈ slots -> at_slot r s = default nan (look s)) ->
  (forall s v, s ∈ slots -> look s = Some v -> isNaN v = false) ->
  fold_left (add_sample r) slots acc =
  (fold_left f64_add (omap look slots) acc.1, acc.2 + Z.of_nat (length (omap look slots)))%Z.
Proof.
  revert acc. induction slots as [|s slots IH]; intros acc Hl Hn; cbn [fold_left omap list_omap]; [by rewrite Z.add_0_r; destruct acc|].
  rewrite IH; [|intros x Hx; apply Hl; by right|intros x v Hx; apply Hn; by right]. clear IH. unfold add_sample. rewrite (Hl s) by left.
  destruct (look s) as [v|] eqn:E; cbn [default from_option]; [|done]. unfold id. rewrite (Hn s v) by (done || left). cbn. f_equal. lia.
Qed.

Lemma sum_below vs k acc : Forall (below 128) vs -> below k acc -> (128 <= k)%Z -> (k + 2 * Z.of_nat (length vs) <= 500)%Z ->
  below (k + 2 * Z.of_nat (length vs)) (fold_left f64_add vs acc).
Proof.
  intros Hvs. revert k acc. induction Hvs as [|v vs Hv Hvs IH]; intros k acc Ha Hk Hb; cbn [fold_left length] in *; [by rewrite Z.add_0_r|].
  replace (k + 2 * Z.of_nat (S (length vs)))%Z with ((k + 2) + 2 * Z.of_nat (length vs))%Z by lia.
  apply IH; [|lia..]. apply f64_add_below; [done|by eapply below_mono; [|done]|lia].
Qed.

(** The mean of up to four readings is a number. *)
Lemma mean_number vs : Forall (below 128) vs -> vs <> [] -> length vs <= 4 ->
  isNaN (float32_of (f64_div (fold_left f64_add vs f64_zero) (f64_of_int (Z.of_nat (length vs))))) = false.
Proof.
  intros Hvs Hn Hl. apply float32_of_number. destruct (f64_small (Z.of_nat (length vs))) as (s & q & f & -> & Hf).
  { destruct vs; [done|]. cbn [length] in *. lia. }
  pose proof (sum_below vs 128 f64_zero Hvs I ltac:(lia) ltac:(lia)) as Hs.
  pose proof (f64_div_below _ _ s q f Hs Hf ltac:(lia)) as Hd. apply below_finite in Hd.
  unfold finite in Hd. by destruct (isNaN (f64_div _ _)).
Qed.

Lemma minute_mean_snoc l p m : (p.1 / finePerCoarse <> m)%Z -> minute_mean (l ++ [p]) m = minute_mean l m.
Proof.
  intros Hp. unfold minute_mean. replace (omap (latest (l ++ [p])) _) with (omap (latest l) (seqZ (m * finePerCoarse) finePerCoarse)); [done|].
  apply list_omap_ext, Forall_Forall2_diag, Forall_forall. intros s Hs. rewrite latest_snoc, bool_decide_false; [done|]. intros <-.
  by apply in_minute in Hs.
Qed.

Lemma minute_mean_None l m : (forall p, p ∈ l -> p.1 / finePerCoarse <> m)%Z -> minute_mean l m = None.
Proof.
  intros H. unfold minute_mean. replace (omap (latest l) _) with ([] : list float32); [done|]. symmetry. apply elem_of_nil_inv. intros v (s & Hs & Hv)%list_elem_of_omap.
  apply in_minute in Hs. apply latest_elem in Hv. by apply (H _ Hv).
Qed.

Lemma omap_shorter {A B} (f : A -> option B) l : length (omap f l) <= length l.
Proof. induction l as [|x l IH]; cbn [omap list_omap length]; [done|]. destruct (f x); cbn [length]; lia. Qed.

Lemma fine_slots : Z.of_nat FineSlots = 240%Z.
Proof. reflexivity. Qed.
Lemma coarse_slots : Z.of_nat CoarseSlots = 1440%Z.
Proof. reflexivity. Qed.

(** The mean of a minute with a reading is a number. *)
Lemma minute_mean_number l p : Forall sound l -> p ∈ l ->
  exists avg, minute_mean l (p.1 / finePerCoarse) = Some avg /\ isNaN avg = false /\
    avg = (let vs := omap (latest l) (seqZ (p.1 / finePerCoarse * finePerCoarse) finePerCoarse) in
           float32_of (f64_div (fold_left f64_add vs f64_zero) (f64_of_int (Z.of_nat (length vs))))).
Proof.
  intros Hs Hp. unfold minute_mean. set (slots := seqZ _ _). cbv zeta.
  assert (Hv : omap (latest l) slots <> []).
  { intros E. destruct (latest_some l p Hp) as [v Hv]. assert (Hin : v ∈ omap (latest l) slots); [|rewrite E in Hin; by apply not_elem_of_nil in Hin].
    apply list_elem_of_omap. exists p.1. split; [unfold slots; by apply in_minute|done]. }
  exists (float32_of (f64_div (fold_left f64_add (omap (latest l) slots) f64_zero) (f64_of_int (Z.of_nat (length (omap (latest l) slots)))))).
  split; [by destruct (omap (latest l) slots) as [|v vs]|]. split; [|done]. apply mean_number; [|done|].
  - apply Forall_forall. intros v (s & _ & Hvs%latest_elem)%list_elem_of_omap. apply (proj1 (Forall_forall _ _) Hs) in Hvs as [H1 H2]. by apply f32_below.
  - etransitivity; [apply omap_shorter|]. unfold slots. by rewrite length_seqZ.
Qed.

(** What a write puts into its minute: the mean of the minute as the ring has it. *)
Lemma average_of r l p : Forall sound l -> p ∈ l ->
  (forall s, s ∈ seqZ (p.1 / finePerCoarse * finePerCoarse) finePerCoarse -> at_slot r s = default nan (latest l s)) ->
  exists avg, minute_mean l (p.1 / finePerCoarse) = Some avg /\ isNaN avg = false /\ minuteAverage r (p.1 / finePerCoarse) = avg.
Proof.
  intros Hs Hp Hr. destruct (minute_mean_number l p Hs Hp) as (avg & H1 & H2 & H3). exists avg. split; [done|]. split; [done|].
  set (slots := seqZ _ _) in *. unfold minuteAverage. fold slots.
  assert (Hfold : fold_left (add_sample r) slots (f64_zero, 0%Z) =
    (fold_left f64_add (omap (latest l) slots) f64_zero, 0 + Z.of_nat (length (omap (latest l) slots)))%Z).
  { apply (add_samples _ (latest l)); [done|]. intros s v _ Hv%latest_elem. apply (proj1 (Forall_forall _ _) Hs) in Hv as [_ Hv]. by destruct v. }
  rewrite Hfold, Z.add_0_l, bool_decide_false; [by rewrite H3|]. unfold minute_mean in H1. fold slots in H1. destruct (omap (latest l) slots); [done|cbn; lia].
Qed.

Lemma average_of_ring l p : Forall sound (l ++ [p]) -> (forall q, q ∈ l -> q.1 <= p.1)%Z -> (0 <= p.1)%Z ->
  exists avg, minute_mean (l ++ [p]) (p.1 / finePerCoarse) = Some avg /\ isNaN avg = false /\
    minuteAverage (ring_of FineSlots (l ++ [p])) (p.1 / finePerCoarse) = avg.
Proof.
  intros Hs Ho Hp. apply average_of; [done|set_solver|]. intros s Hslot. set (m := (p.1 / finePerCoarse)%Z) in *.
  assert (Hhead : head (ring_of FineSlots (l ++ [p])) = p.1).
  { rewrite ring_of_snoc, put_head. destruct (ring_of_head FineSlots l) as (H0 & _ & [->|(q & Hq & <-)]); [lia|]. pose proof (Ho q Hq). lia. }
  assert (Hin : (4 * m <= p.1 < 4 * m + 4)%Z).
  { unfold m. change finePerCoarse with 4%Z. pose proof (Z.div_mod p.1 4 ltac:(lia)). pose proof (Z.mod_pos_bound p.1 4 ltac:(lia)). lia. }
  rewrite ring_of_at by (pose proof fine_slots; lia). rewrite Hhead, fine_slots. case_decide as Hw; [done|].
  apply elem_of_seqZ in Hslot. change finePerCoarse with 4%Z in *. unfold in_window in Hw.
  rewrite latest_None; [done|]. intros q Hq <-. enough (q.1 <= p.1)%Z by lia. apply elem_of_app in Hq as [Hq| ->%list_elem_of_singleton]; [by apply Ho|lia].
Qed.

(** The coarse ring has the mean of every minute in its window. *)
Lemma coarse_means l : in_order l -> Forall sound l -> Forall (fun p => 0 <= p.1)%Z l ->
  let c := coarse (series_of l) in
  slots_of c = Z.of_nat CoarseSlots /\ (0 <= head c)%Z /\
  (forall p, p ∈ l -> p.1 / finePerCoarse <= head c)%Z /\
  (head c = 0%Z \/ exists p, p ∈ l /\ head c = p.1 / finePerCoarse)%Z /\
  forall m, at_slot c m = if decide (in_window (Z.of_nat CoarseSlots) (head c) m) then default nan (minute_mean l m) else nan.
Proof.
  cbv zeta. induction l as [|p l IH] using rev_ind.
  - intros _ _ _. unfold series_of. cbn [fold_left]. unfold newSeries. cbn [coarse]. split_and!; [by rewrite slots_new|cbn; lia|set_solver|by left|].
    intros m. change (newRing CoarseSlots) with (ring_of CoarseSlots []). rewrite minute_mean_None by set_solver.
    by rewrite ring_of_at by (pose proof coarse_slots; lia).
  - intros Ho Hs Hz. pose proof Hs as Hs'. apply Forall_app in Hs as [Hsl Hsp], Hz as [Hzl Hzp]. rewrite Forall_singleton in Hzp.
    assert (Hol : in_order l /\ forall q, q ∈ l -> (q.1 <= p.1)%Z).
    { unfold in_order in *. clear -Ho. induction l as [|q l IH]; [split; [constructor|by intros q Hq%elem_of_nil]|]. inversion_clear Ho as [|? ? Hr Hf].
      destruct (IH Hr) as [H1 H2]. apply Forall_app in Hf as [Hf1 Hf2]. rewrite Forall_singleton in Hf2. split; [by constructor|].
      intros x [->|Hx]%elem_of_cons; [exact Hf2|by apply H2]. }
    destruct Hol as [Hol Hle]. destruct (IH Hol Hsl Hzl) as (I1 & I2 & I3 & I4 & I5). clear IH.
    destruct (average_of_ring l p Hs' Hle Hzp) as (avg & Ha1 & Ha2 & Ha3).
    rewrite series_of_snoc. unfold record_in. cbn [coarse]. rewrite series_of_fine, <- ring_of_snoc, floorDiv_spec by done. rewrite Ha3, Ha2.
    set (c := coarse (series_of l)) in *. set (m0 := (p.1 / finePerCoarse)%Z) in *. rewrite put_slots, put_head.
    assert (Hm0 : (forall q, q ∈ l -> q.1 / finePerCoarse <= m0)%Z).
    { intros q Hq. apply Z.div_le_mono; [done|]. by apply Hle. }
    split_and!; [done|lia| | |].
    + intros q Hq. apply elem_of_app in Hq as [Hq| ->%list_elem_of_singleton]; [pose proof (I3 q Hq)|fold m0]; lia.
    + destruct (decide (head c <= m0)%Z).
      * right. exists p. split; [set_solver|]. fold m0. lia.
      * rewrite Z.max_l by lia. destruct I4 as [->|(q & Hq & E)]; [by left|]. right. exists q. split; [set_solver|done].
    + intros m. rewrite put_at by (rewrite I1, coarse_slots; lia). rewrite I1.
      destruct (decide (in_window (Z.of_nat CoarseSlots) (Z.max (head c) m0) m)) as [Hw|Hw]; [|done].
      destruct (decide (m = m0)) as [->|Hne]; [by rewrite Ha1|]. rewrite minute_mean_snoc by (fold m0; congruence).
      rewrite I5. case_decide as Hw'; [done|]. rewrite minute_mean_None; [done|]. intros q Hq <-. pose proof (I3 q Hq). unfold in_window in *. lia.
Qed.

(* ------------------------------------------------------------------ *)
(** ** Charts *)

Lemma fine_slot_mono t u : (t <= u)%Z -> (fine_slot t <= fine_slot u)%Z.
Proof.
  intros H. unfold fine_slot. rewrite !floorDiv_spec by done. apply Z.div_le_mono; [done|]. unfold unix_milli. apply Z.div_le_mono; [done|]. lia.
Qed.

Lemma fine_slot_nonneg t : (unix_epoch <= t)%Z -> (0 <= fine_slot t)%Z.
Proof. intros H. unfold fine_slot. rewrite floorDiv_spec by done. apply Z.div_pos; [apply Z.div_pos; [lia|done]|done]. Qed.

Lemma minute_of_slot t : (fine_slot t / finePerCoarse = coarse_slot t)%Z.
Proof. unfold fine_slot, coarse_slot. rewrite !floorDiv_spec by done. by rewrite Z.div_div. Qed.

(** Samples taken one after the other, none of them in the future. *)
Record well_timed (now : time) (log : list sample) : Prop := {
  taken_in_order : StronglySorted (fun x y => s_at x <= s_at y)%Z log;
  taken_by_now : Forall (fun x => unix_epoch <= s_at x <= now)%Z log
}.

(** No number is beyond what a [float32] can hold. *)
Definition within_f32 (log : list sample) : Prop :=
  Forall (fun x => map_Forall (fun _ v => finite v = true -> finite (float32_of v) = true) (s_values x)) log.

Lemma reading_spec key name x p : reading key name x = Some p ->
  s_key x = key /\ p.1 = fine_slot (s_at x) /\ exists v, s_values x !! name = Some v /\ finite v = true /\ p.2 = float32_of v.
Proof.
  unfold reading. case_bool_decide as Hk; [|done]. destruct (s_values x !! name) as [v|] eqn:Ev; [|done].
  destruct (isNaN v || isInf v) eqn:En; [done|]. intros [= <-]. split_and!; [done|done|]. exists v. split_and!; [done| |done].
  unfold finite. apply orb_false_iff in En as [-> ->]. done.
Qed.

Lemma readings_facts now log key name : well_timed now log -> within_f32 log ->
  let l := readings key name log in
  in_order l /\ Forall sound l /\ Forall (fun p => 0 <= p.1 <= fine_slot now)%Z l.
Proof.
  intros [Ho Ht] Hf. cbv zeta. unfold readings, in_order. induction log as [|x log IH]; [split_and!; constructor|].
  inversion_clear Ho as [|? ? Ho' Hx]. inversion_clear Ht as [|? ? Htx Ht']. inversion_clear Hf as [|? ? Hfx Hf'].
  destruct (IH Ho' Ht' Hf') as (I1 & I2 & I3). cbn [omap list_omap]. destruct (reading key name x) as [p|] eqn:Er; [|done].
  pose proof (reading_spec _ _ _ _ Er) as (_ & E1 & v & Ev & Hv & E2). split_and!.
  - constructor; [done|]. apply Forall_forall. intros q (y & Hy & Eq)%list_elem_of_omap. apply reading_spec in Eq as (_ & -> & _).
    rewrite E1. apply fine_slot_mono. by apply (proj1 (Forall_forall _ _) Hx).
  - constructor; [|done]. split; rewrite E2; [apply is_f32_of|]. by apply (Hfx _ _ Ev).
  - constructor; [|done]. rewrite E1. cbn beta in Htx. split; [apply fine_slot_nonneg|apply fine_slot_mono]; lia.
Qed.

Lemma chart_of_nothing r now : chart r now [] = None.
Proof.
  unfold chart. destruct (tier r) as [[fine step] n]. rewrite bool_decide_true; [done|].
  generalize (seqZ (window_start r now) (window_end r now - window_start r now + 1)). intros l. induction l as [|s l IH]; [done|].
  cbn [omap list_omap]. rewrite IH. by destruct fine.
Qed.

(** Where a ring has what the reference says, the chart is the reference's. *)
Lemma view_points_chart r now ser l :
  (forall slot, (window_start r now <= slot <= window_end r now)%Z ->
     let look := if (tier r).1.1 then latest l else minute_mean l in
     at_slot (ring_for r ser) slot = default nan (look slot) /\ forall v, look slot = Some v -> isNaN v = false) ->
  view_points r now ser = chart r now l.
Proof.
  intros H. set (look := if (tier r).1.1 then latest l else minute_mean l) in *.
  assert (Hc : chart r now l =
    let ps := omap (fun slot => (fun v => (f64_of_int (slot * milliseconds (tier r).1.2), shortest_float v)) <$> look slot)
                (seqZ (window_start r now) (window_end r now - window_start r now + 1)) in
    if bool_decide (ps = []) then None else Some ps).
  { unfold chart, look. by destruct (tier r) as [[??]?]. }
  rewrite Hc. unfold view_points, points. clear Hc. cbv zeta.
  replace (omap _ (seqZ (window_start r now) (window_end r now - window_start r now + 1)))
    with (omap (fun slot => (fun v => (f64_of_int (slot * milliseconds (tier r).1.2), shortest_float v)) <$> look slot)
            (seqZ (window_start r now) (window_end r now - window_start r now + 1))); [done|].
  apply list_omap_ext, Forall_Forall2_diag, Forall_forall. intros slot Hs%elem_of_seqZ. destruct (H slot ltac:(lia)) as [H1 H2]. cbv zeta in *.
  rewrite H1. destruct (look slot) as [v|]; [|done]. cbn. by rewrite (H2 v).
Qed.

Lemma chart_of_series r now l : l <> [] -> in_order l -> Forall sound l -> Forall (fun p => 0 <= p.1 <= fine_slot now)%Z l ->
  view_points r now (series_of l) = chart r now l.
Proof.
  intros Hn Ho Hs Ht. apply view_points_chart. intros slot Hw. cbv zeta.
  assert (H0 : (0 <= fine_slot now)%Z). { destruct l as [|p l]; [done|]. inversion_clear Ht. lia. }
  assert (Hle : forall p, p ∈ l -> (0 <= p.1 <= fine_slot now)%Z) by (by apply Forall_forall).
  assert (Hsound : forall s v, latest l s = Some v -> below 128 v).
  { intros s v Hv%latest_elem. apply (proj1 (Forall_forall _ _) Hs) in Hv as [H1 H2]. by apply f32_below. }
  assert (Hcoarse : (forall n, (n <= 1440)%Z -> window_start r now = (coarse_slot now - n + 1)%Z -> window_end r now = coarse_slot now ->
    at_slot (coarse (series_of l)) slot = default nan (minute_mean l slot)) /\ forall v, minute_mean l slot = Some v -> isNaN v = false).
  { destruct (coarse_means l Ho Hs ltac:(eapply Forall_impl; [exact Ht|cbn; lia])) as (I1 & I2 & I3 & I4 & I5). split.
    - intros n Hn' E1 E2. rewrite I5. case_decide as Hin; [done|]. rewrite minute_mean_None; [done|]. intros p Hp <-.
      assert (head (coarse (series_of l)) <= coarse_slot now)%Z.
      { destruct I4 as [->|(q & Hq & ->)]; rewrite <- minute_of_slot; [by apply Z.div_pos|]. apply Z.div_le_mono; [done|]. by apply Hle. }
      pose proof (I3 p Hp). apply Hin. unfold in_window. rewrite coarse_slots. lia.
    - intros v. unfold minute_mean. destruct (omap (latest l) _) as [|w ws] eqn:E; [done|]. intros Hv. apply (inj Some) in Hv as <-. apply mean_number; [|done|].
      + apply Forall_forall. intros u Hu. rewrite <- E in Hu. apply list_elem_of_omap in Hu as (s & _ & Hu). by eapply Hsound.
      + rewrite <- E. etransitivity; [apply omap_shorter|]. by rewrite length_seqZ. }
  destruct r; cbn [tier fst snd ring_for].
  - rewrite series_of_fine. split; [|intros v Hv%Hsound; by destruct v]. rewrite ring_of_at by (pose proof fine_slots; lia). case_decide as Hin; [done|].
    rewrite latest_None; [done|]. intros p Hp <-. destruct (ring_of_head FineSlots l) as (J1 & J2 & J3). pose proof (J2 p Hp).
    assert (head (ring_of FineSlots l) <= fine_slot now)%Z by (destruct J3 as [->|(q & Hq & <-)]; [lia|by apply Hle]).
    apply Hin. unfold in_window, window_start, window_end in *. cbn [tier] in Hw. change (floorDiv (unix_milli now) (milliseconds FineStep)) with (fine_slot now) in Hw.
    rewrite fine_slots in *. lia.
  - destruct Hcoarse as [Hc1 Hc2]. split; [|done]. apply (Hc1 360%Z); [done|reflexivity..].
  - destruct Hcoarse as [Hc1 Hc2]. split; [|done]. apply (Hc1 1440%Z); [done|reflexivity..].
Qed.

Lemma sampled_chart log key r now name :
  well_timed now log -> within_f32 log ->
  v_series (Query key r now (sampled log)) !! name = chart r now (readings key name log).
Proof.
  intros Ht Hf. destruct (readings_facts now log key name Ht Hf) as (H1 & H2 & H3). cbv zeta in *.
  assert (E : v_series (Query key r now (sampled log)) !! name = stored_series (sampled log) key name ≫= view_points r now).
  { unfold Query, stored_series. destruct (tier r) as [[fine step] n]. cbn [v_series]. destruct (subjects (sampled log) !! key) as [sub|]; [|by rewrite lookup_empty].
    cbn [mbind option_bind]. by rewrite lookup_omap. }
  rewrite E, sampled_series. case_bool_decide as En; [by rewrite En, chart_of_nothing|]. cbn [mbind option_bind]. by apply chart_of_series.
Qed.

(** C29: A chart shows what was sampled and nothing else. Over any samples taken one
    after the other, a chart of the last hour has a point at exactly the slots of
    fifteen seconds in which the quantity was read, with the last reading; one of six
    hours or a day at exactly the minutes in which it was, with the mean of the last
    readings in the minute's slots. What was never read, or not in the range, is a
    gap, and a quantity without a point is not in the view. *)
Theorem chart_shows_samples log key r now name :
  well_timed now log -> within_f32 log ->
  v_series (Query key r now (sampled log)) !! name = chart r now (readings key name log).
Proof. intros Ht Hf. by apply sampled_chart. Qed.

Definition sample_log : list sample :=
  let at_ s v := mkSample HostSubject (unix_epoch + s * second)%Z {[ "cpu" := f64_of_int v ]} in
  [at_ 0 10; at_ 15 20; at_ 17 21; at_ 75 50]%Z.

Lemma chart_shows_samples_witness :
  let now := (unix_epoch + 100 * second)%Z in
  let half n := f64_div (f64_of_int n) (f64_of_int 2) in
  v_series (Query HostSubject Range6h now (sampled sample_log)) !! "cpu" = Some [(f64_of_int 0, half 31); (f64_of_int 60000, half 100)]%Z /\
  v_series (Query HostSubject Range1h now (sampled sample_log)) !! "cpu" =
    Some [(f64_of_int 0, half 20); (f64_of_int 15000, half 42); (f64_of_int 75000, half 100)]%Z.
Proof.
  assert (Hf : within_f32 sample_log).
  { repeat (constructor; [intros i v H _; cbn [s_values] in H; apply lookup_singleton_Some in H as [_ <-]; vm_compute; reflexivity|]). constructor. }
  assert (Ht : well_timed (unix_epoch + 100 * second)%Z sample_log).
  { split; [|repeat (constructor; [cbn [s_at]; unfold second; lia|]); constructor].
    do 4 (apply SSorted_cons; [|repeat (constructor; [cbn [s_at]; unfold second; lia|]); constructor]). apply SSorted_nil. }
  cbv zeta. split; (etransitivity; [apply (chart_shows_samples _ _ _ _ _ Ht Hf)|]); vm_compute; reflexivity.
Defined.

(** A sample of a clock that was ahead moves the ring on, and what is sampled after
    the clock is set right is dropped until it gets there. *)
Example clock_ahead_stops_charts :
  let now := (unix_epoch + 100 * hour)%Z in
  let at_ t := mkSample HostSubject t {[ "cpu" := f64_of_int 1 ]} in
  let s := sampled [at_ (now + 25 * hour)%Z; at_ now; at_ (now + minute)%Z] in
  v_series (Query HostSubject Range1h (now + minute)%Z s) = ∅ /\ v_series (Query HostSubject Range24h (now + minute)%Z s) = ∅.
Proof. vm_compute. split; reflexivity. Qed.

(** A finite value beyond a [float32] is recorded, as an infinity. *)
Example huge_value_becomes_infinite :
  let now := (unix_epoch + hour)%Z in
  let v := f64_of_int (10 ^ 39) in
  finite v = true /\
  snd <$> default [] (v_series (Query HostSubject Range1h now (sampled [mkSample HostSubject now {[ "x" := v ]}])) !! "x") = [S754_infinity false].
Proof. vm_compute. split; reflexivity. Qed.

(* ------------------------------------------------------------------ *)
(** ** Subjects *)

Lemma record_subjects key at_ values s k : k <> key -> subjects (record key at_ values s) !! k = subjects s !! k.
Proof. intros Hk. unfold record. case_bool_decide; [done|]. unfold set_dirty, set_subjects. cbn [subjects]. by rewrite lookup_insert_ne. Qed.

(** Samples of different subjects can be recorded in either order. *)
Lemma record_comm k1 t1 v1 k2 t2 v2 s : k1 <> k2 -> record k1 t1 v1 (record k2 t2 v2 s) = record k2 t2 v2 (record k1 t1 v1 s).
Proof.
  intros Hk. unfold record. case_bool_decide; case_bool_decide; try done. unfold set_dirty, set_subjects. cbn.
  rewrite !lookup_insert_ne by done. by rewrite insert_insert_ne.
Qed.

(** Whose history is kept: the host's always, a machine's while it is in the
    inventory, an app's while its cluster is. *)
Lemma retained_keys machines clusters :
  retained machines clusters HostSubject = true /\
  (forall id, retained machines clusters (MachineSubject id) = bool_decide (id ∈ machines)) /\
  (forall cluster namespace kind name, str_all (fun c => negb (Ascii.eqb c "/")) cluster = true ->
     retained machines clusters (AppSubject cluster namespace kind name) = bool_decide (cluster ∈ clusters)).
Proof.
  split_and!; [done| |].
  - intros id. unfold retained. rewrite bool_decide_false by done. unfold MachineSubject. by rewrite cut_prefix_app.
  - intros cluster namespace kind name Hc. unfold retained. rewrite bool_decide_false by done. unfold AppSubject, appPrefix.
    rewrite <- !str_app_assoc. replace (cut_prefix "machine/" _) with (None : option string) by done. rewrite cut_prefix_app.
    match goal with |- context [cut_at "/" (cluster +:+ ?x)] => change x with (String "/" (namespace +:+ ("/" +:+ (kind +:+ ("/" +:+ name))))) end.
    by rewrite cut_at_app.
Qed.

(** What a deletion keeps it keeps as it is, and what it deletes it counts. *)
Lemma keep_subjects_spec P s key :
  let r := keep_subjects P s in
  subjects r.1 !! key = match subjects s !! key with Some sub => if P key sub then Some sub else None | None => None end /\
  (dirty r.1 = true <-> dirty s = true \/ exists k sub, subjects s !! k = Some sub /\ P k sub = false).
Proof.
  cbv zeta. unfold keep_subjects. cbn [fst subjects dirty]. set (kept := filter _ (subjects s)).
  assert (Hl : forall k, kept !! k = match subjects s !! k with Some sub => if P k sub then Some sub else None | None => None end).
  { intros k. unfold kept. destruct (subjects s !! k) as [sub|] eqn:E.
    - destruct (P k sub) eqn:Ep; [by apply map_lookup_filter_Some|]. apply map_lookup_filter_None. right. intros x Hx. cbn. congruence.
    - apply map_lookup_filter_None. by left. }
  split; [done|]. assert (Hs : kept ⊆ subjects s) by apply map_filter_subseteq.
  pose proof (map_subseteq_size _ _ Hs) as Hle. case_bool_decide as Hn.
  - split; [|done]. intros _. right. assert (Hne : kept <> subjects s) by (intros E; rewrite E in Hn; lia).
    destruct (decide (map_Forall (fun k sub => P k sub = true) (subjects s))) as [Hall|Hnot].
    + destruct Hne. unfold kept. apply map_filter_id. intros k sub Hk. by apply Hall.
    + apply map_not_Forall in Hnot as (k & sub & Hk & Hp); [|apply _]. exists k, sub. split; [done|]. by apply not_true_is_false.
  - split; [by left|]. intros [Hd|(k & sub & Hk & Hp)]; [done|]. exfalso. assert (Hlt : size kept < size (subjects s)); [|lia].
    apply map_subset_size. split; [done|]. intros Hback. pose proof (lookup_weaken _ _ _ _ Hk Hback) as E. rewrite Hl, Hk, Hp in E. done.
Qed.
