(* ===== verification/HistoryFile.v ===== *)
(** * The file the history is kept in

    [src/internal/history/persist.go]: the format, what is read back of it, and when
    it is written. gzip is a class with its round trip as its law. *)

From S2P Require Import Prelude GoText GoFloat History.

Definition DirName : string := "history".
Definition FileName : string := "metrics.bin".
Definition FlushEvery : duration := (30 * minute)%Z.
Definition fileVersion : Z := 1.
Definition maxKey : Z := 4096.

(** A byte is a number below 256. *)
Abbreviation bytes := (list Z) (only parsing).

Fixpoint to_bytes (s : string) : bytes :=
  match s with EmptyString => [] | String c s' => Z.of_nat (nat_of_ascii c) :: to_bytes s' end.
Definition of_bytes (b : bytes) : string := foldr (fun z s => String (ascii_of_nat (Z.to_nat z)) s) "" b.
Definition len (b : bytes) : Z := Z.of_nat (length b).

Definition fileMagic : bytes := to_bytes "HKMH".

Definition is_byte (b : Z) : Prop := (0 <= b < 256)%Z.
#[global] Instance is_byte_dec b : Decision (is_byte b).
Proof. unfold is_byte. apply _. Defined.

(** [compress/gzip]: over bytes, it gives back what it was given. *)
Class Gzip := {
  compress : bytes -> bytes;
  decompress : bytes -> option bytes;
  decompress_compress : forall b, Forall is_byte b -> decompress (compress b) = Some b;
  decompress_bytes : forall b c, decompress b = Some c -> Forall is_byte c
}.

(* ------------------------------------------------------------------ *)
(** ** Numbers of variable length

    [encoding/binary]. *)

Definition wrap64 (z : Z) : Z := (z mod 2 ^ 64)%Z.
Definition signed64 (z : Z) : Z := let w := wrap64 z in if bool_decide (w < 2 ^ 63)%Z then w else (w - 2 ^ 64)%Z.

Fixpoint uvarint_bytes (fuel : nat) (n : Z) : bytes :=
  match fuel with
  | O => []
  | S f => if bool_decide (n < 128)%Z then [n] else (n mod 128 + 128)%Z :: uvarint_bytes f (n / 128)
  end.
(** [AppendUvarint]: 64 bits take ten bytes at most. *)
Definition uvarint (n : Z) : bytes := uvarint_bytes 10 n.

Definition zigzag (x : Z) : Z := if bool_decide (x < 0)%Z then (- 2 * x - 1)%Z else (2 * x)%Z.
Definition unzigzag (u : Z) : Z := if Z.odd u then (- (u / 2) - 1)%Z else (u / 2)%Z.
(** [AppendVarint]. *)
Definition varint (x : Z) : bytes := uvarint (zigzag x).

(** [Uvarint]: the number and what is behind it; nothing where the bytes end too
    early, or the number has more than 64 bits. *)
Fixpoint read_uvarint (b : bytes) (i : nat) (x s : Z) : option (Z * bytes) :=
  match b with
  | [] => None
  | c :: b' =>
      if bool_decide (i = 10) then None
      else if bool_decide (c < 128)%Z then
        if bool_decide (i = 9) && bool_decide (1 < c)%Z then None else Some (x + c * 2 ^ s, b')%Z
      else read_uvarint b' (S i) (x + (c mod 128) * 2 ^ s)%Z (s + 7)%Z
  end.

(* ------------------------------------------------------------------ *)
(** ** Writing *)

Definition appendString (s : string) : bytes := uvarint (len (to_bytes s)) ++ to_bytes s.

Definition le32 (n : Z) : bytes := [n mod 256; n / 256 mod 256; n / 65536 mod 256; n / 16777216 mod 256]%Z.
Definition read_le32 (b : bytes) : Z :=
  match b with b0 :: b1 :: b2 :: b3 :: _ => (b0 + b1 * 256 + b2 * 65536 + b3 * 16777216)%Z | _ => 0%Z end.

(** The two loops that leave out the gaps at the ends. *)
Fixpoint first_held (fuel : nat) (r : ring) (lo hi : Z) : Z :=
  match fuel with
  | O => lo
  | S f => if bool_decide (lo <= hi)%Z && isNaN (at_slot r lo) then first_held f r (lo + 1) hi else lo
  end.
Fixpoint last_held (fuel : nat) (r : ring) (lo hi : Z) : Z :=
  match fuel with
  | O => hi
  | S f => if bool_decide (lo <= hi)%Z && isNaN (at_slot r hi) then last_held f r lo (hi - 1) else hi
  end.

Definition ring_bytes (r : ring) (nowSlot : Z) : bytes :=
  let n := slots_of r in
  let lo := Z.max (head r - n + 1) (nowSlot - n + 1) in
  let hi := Z.min (head r) nowSlot in
  let fuel := S (Z.to_nat n) in
  let lo := first_held fuel r lo hi in
  let hi := last_held fuel r lo hi in
  if bool_decide (hi < lo)%Z then varint 0 ++ uvarint 0
  else varint lo ++ uvarint (hi - lo + 1) ++ concat (map (fun s => le32 (f32_bits (at_slot r s))) (seqZ lo (hi - lo + 1))).

Definition sorted_keys {A} (m : gmap string A) : list string := merge_sort str_le (map fst (map_to_list m)).

Definition series_bytes (nowFine nowCoarse : Z) (name : string) (ser : series) : bytes :=
  appendString name ++ ring_bytes (fine ser) nowFine ++ ring_bytes (coarse ser) nowCoarse.

Definition subject_bytes (nowFine nowCoarse : Z) (key : string) (sub : subject) : bytes :=
  appendString key ++ varint (unix_milli (seen sub)) ++ uvarint (Z.of_nat (length (sorted_keys (all_series sub)))) ++
  concat (map (fun name => series_bytes nowFine nowCoarse name (default newSeries (all_series sub !! name))) (sorted_keys (all_series sub))).

Definition body_bytes (subs : gmap string subject) (now : time) : bytes :=
  uvarint (Z.of_nat (length (sorted_keys subs))) ++
  concat (map (fun key => subject_bytes (fine_slot now) (coarse_slot now) key (default (mkSubject zero_time ∅) (subs !! key))) (sorted_keys subs)).

Definition encode `{Gzip} (s : Store) (now : time) : bytes :=
  fileMagic ++ [fileVersion] ++ compress (body_bytes (subjects s) now).

(* ------------------------------------------------------------------ *)
(** ** Reading

    The decoder has what is left of the body and whether it failed. *)

Record decoder := mkDecoder { d_bytes : bytes; d_failed : bool }.

Definition fail (d : decoder) : decoder := mkDecoder [] true.

Definition d_uvarint (d : decoder) : Z * decoder :=
  match read_uvarint (d_bytes d) 0 0 0 with
  | Some (v, b) => (v, mkDecoder b (d_failed d))
  | None => (0%Z, fail d)
  end.

Definition d_varint (d : decoder) : Z * decoder :=
  match read_uvarint (d_bytes d) 0 0 0 with
  | Some (v, b) => (unzigzag v, mkDecoder b (d_failed d))
  | None => (0%Z, fail d)
  end.

Definition d_string (d : decoder) : string * decoder :=
  let '(n, d) := d_uvarint d in
  if bool_decide (maxKey < n)%Z || bool_decide (len (d_bytes d) < n)%Z then ("", fail d)
  else (of_bytes (take (Z.to_nat n) (d_bytes d)), mkDecoder (drop (Z.to_nat n) (d_bytes d)) (d_failed d)).

(** One value of a ring: a slot outside the window, and a gap, is passed over. *)
Definition read_value (b : bytes) (first oldest nowSlot : Z) (acc : ring * bool) (i : Z) : ring * bool :=
  let v := f32_from_bits (read_le32 (drop (Z.to_nat (4 * i)) b)) in
  let slot := signed64 (first + i) in
  if bool_decide (slot < oldest)%Z || bool_decide (nowSlot < slot)%Z || isNaN v then acc else (put slot v acc.1, true).

Definition d_ring (r : ring) (nowSlot : Z) (d : decoder) : bool * ring * decoder :=
  let '(first, d) := d_varint d in
  let '(count, d) := d_uvarint d in
  if bool_decide (len (d_bytes d) / 4 < count)%Z then (false, r, fail d)
  else
    let oldest := (nowSlot - slots_of r + 1)%Z in
    let '(r, held) := fold_left (read_value (d_bytes d) first oldest nowSlot) (seqZ 0 count) (r, false) in
    (held, r, mkDecoder (drop (Z.to_nat (4 * count)) (d_bytes d)) (d_failed d)).

Inductive decode_error := ErrMagic | ErrVersion (v : Z) | ErrGzip | ErrTruncated.

Fixpoint d_series (n : nat) (nowFine nowCoarse : Z) (all : gmap string series) (d : decoder) :
    result decode_error (gmap string series * decoder) :=
  match n with
  | O => Ok (all, d)
  | S n' =>
      let '(name, d) := d_string d in
      let '(fineHeld, f, d) := d_ring (newRing FineSlots) nowFine d in
      let '(coarseHeld, c, d) := d_ring (newRing CoarseSlots) nowCoarse d in
      if d_failed d then Err ErrTruncated
      else d_series n' nowFine nowCoarse (if fineHeld || coarseHeld then <[name := mkSeries f c]> all else all) d
  end.

Fixpoint d_subjects (n : nat) (body : Z) (nowFine nowCoarse : Z) (out : gmap string subject) (d : decoder) :
    result decode_error (gmap string subject * decoder) :=
  match n with
  | O => Ok (out, d)
  | S n' =>
      let '(key, d) := d_string d in
      let '(ms, d) := d_varint d in
      let '(nseries, d) := d_uvarint d in
      r ← d_series (Z.to_nat (Z.min nseries body)) nowFine nowCoarse ∅ d;
      let '(all, d) := r in
      if d_failed d then Err ErrTruncated
      else d_subjects n' body nowFine nowCoarse
             (if bool_decide (all = ∅) then out else <[key := mkSubject (from_unix_milli ms) all]> out) d
  end.

Definition decode_body (body : bytes) (now : time) : result decode_error (gmap string subject) :=
  let '(n, d) := d_uvarint (mkDecoder body false) in
  r ← d_subjects (Z.to_nat (Z.min n (len body))) (len body) (fine_slot now) (coarse_slot now) ∅ d;
  if d_failed r.2 then Err ErrTruncated else Ok r.1.

Definition decode `{Gzip} (raw : bytes) (now : time) : result decode_error (gmap string subject) :=
  if bool_decide (len raw < len fileMagic + 1)%Z || negb (bool_decide (take (length fileMagic) raw = fileMagic)) then Err ErrMagic
  else
    let v := default 0%Z (raw !! length fileMagic) in
    if negb (bool_decide (v = fileVersion)) then Err (ErrVersion v)
    else
      match decompress (drop (S (length fileMagic)) raw) with
      | None => Err ErrGzip
      | Some body => decode_body body now
      end.

(* ------------------------------------------------------------------ *)
(** ** Opening and flushing *)

Inductive read_error := ErrNotExist | ErrRead.

(** [Open]: the store, and whether something was logged. *)
Definition Open `{Gzip} (raw : result read_error bytes) (now : time) : Store * bool :=
  let empty := mkStore ∅ ∅ true false now 0 in
  match raw with
  | Err ErrNotExist => (empty, false)
  | Err ErrRead => (empty, true)
  | Ok raw =>
      match decode raw now with
      | Err _ => (empty, true)
      | Ok subs => (set_subjects subs empty, false)
      end
  end.

Definition due (now : time) (s : Store) : bool := dirty s && bool_decide (FlushEvery <= time_sub now (lastFlush s))%Z.

(** [Flush] up to the write: what is to be written, if anything. The encoding does
    not fail. *)
Definition flush_begin `{Gzip} (now : time) (s : Store) : Store * option bytes :=
  if negb (has_file s) || negb (dirty s) then (s, None)
  else (mkStore (subjects s) (apps s) (has_file s) false now (writes s + 1), Some (encode s now)).

(** And after it. *)
Definition flush_end (written : bool) (s : Store) : Store := if written then s else set_dirty true s.

(* ------------------------------------------------------------------ *)
(** ** Round trips of the parts *)

Lemma to_bytes_inv s : of_bytes (to_bytes s) = s.
Proof. induction s as [|c s IH]; [done|]. cbn [to_bytes of_bytes foldr]. rewrite Nat2Z.id, ascii_nat_embedding. by f_equal. Qed.

Lemma read_uvarint_bytes fuel n i x s rest :
  (0 <= s)%Z -> (0 <= n < 2 ^ (7 * Z.of_nat fuel))%Z -> (i + fuel <= 10) -> ((i + fuel = 10)%nat -> n < 2 ^ (64 - 7 * Z.of_nat i))%Z -> 0 < fuel ->
  read_uvarint (uvarint_bytes fuel n ++ rest) i x s = Some (x + n * 2 ^ s, rest)%Z.
Proof.
  revert n i x s. induction fuel as [|f IH]; intros n i x s Hs0 Hn Hi Hm Hf; [lia|]. cbn [uvarint_bytes]. case_bool_decide as Hs.
  - cbn [app read_uvarint]. rewrite bool_decide_false by lia. rewrite bool_decide_true by done.
    destruct (bool_decide (i = 9)) eqn:E; [|done]. apply bool_decide_eq_true in E as ->. rewrite bool_decide_false; [done|].
    assert (n < 2 ^ 1)%Z; [|lia]. change (2 ^ 1)%Z with (2 ^ (64 - 7 * Z.of_nat 9))%Z. apply Hm. assert (f = 0) as -> by lia. lia.
  - cbn [app read_uvarint]. rewrite bool_decide_false by lia. pose proof (Z.mod_pos_bound n 128 ltac:(lia)) as Hb.
    rewrite bool_decide_false by lia. pose proof (Z.div_mod n 128 ltac:(lia)) as Hd.
    assert (Hq : (1 <= n / 128)%Z) by lia. destruct f as [|f].
    { exfalso. change (7 * Z.of_nat 1)%Z with 7%Z in Hn. lia. }
    rewrite IH; [|lia| |lia| |lia].
    + replace ((n mod 128 + 128) mod 128)%Z with (n mod 128)%Z by (rewrite <- (Z.mul_1_l 128) at 3; rewrite Z_mod_plus_full, Z.mod_mod; lia).
      do 2 f_equal. rewrite (Z.pow_add_r 2 s 7) by lia. lia.
    + split; [lia|]. apply Z.div_lt_upper_bound; [lia|]. change 128%Z with (2 ^ 7)%Z. rewrite <- Z.pow_add_r by lia.
      replace (7 + 7 * Z.of_nat (S f))%Z with (7 * Z.of_nat (S (S f)))%Z by lia. lia.
    + intros E. specialize (Hm ltac:(lia)). apply Z.div_lt_upper_bound; [lia|]. change 128%Z with (2 ^ 7)%Z. rewrite <- Z.pow_add_r by lia.
      replace (7 + (64 - 7 * Z.of_nat (S i)))%Z with (64 - 7 * Z.of_nat i)%Z by lia. lia.
Qed.

Lemma read_uvarint_written n rest : (0 <= n < 2 ^ 64)%Z -> read_uvarint (uvarint n ++ rest) 0 0 0 = Some (n, rest).
Proof.
  intros Hn. unfold uvarint. rewrite read_uvarint_bytes; [|done| |lia|intros _; cbn; lia|lia].
  - by rewrite Z.pow_0_r, Z.mul_1_r, Z.add_0_l.
  - split; [lia|]. eapply Z.lt_le_trans; [apply Hn|]. apply Z.pow_le_mono_r; lia.
Qed.

Lemma unzigzag_zigzag x : unzigzag (zigzag x) = x.
Proof.
  unfold zigzag, unzigzag. case_bool_decide.
  - assert (E : (-2 * x - 1 = 1 + 2 * (- x - 1))%Z) by lia. rewrite E, Z.odd_add_mul_2. cbn [Z.odd].
    rewrite (Z.mul_comm 2), Z_div_plus_full by lia. change (1 / 2)%Z with 0%Z. lia.
  - rewrite Z.odd_mul. cbn [Z.odd andb]. rewrite (Z.mul_comm 2), Z_div_mult_full by lia. done.
Qed.

Lemma zigzag_range x : (- 2 ^ 63 <= x < 2 ^ 63)%Z -> (0 <= zigzag x < 2 ^ 64)%Z.
Proof. intros Hx. change (2 ^ 64)%Z with (2 * 2 ^ 63)%Z. unfold zigzag. case_bool_decide; lia. Qed.

(** A decoder in front of something written, and behind it. *)
Definition reading_from (b : bytes) : decoder := mkDecoder b false.

Lemma d_uvarint_written n rest : (0 <= n < 2 ^ 64)%Z -> d_uvarint (reading_from (uvarint n ++ rest)) = (n, reading_from rest).
Proof. intros Hn. unfold d_uvarint, reading_from. cbn [d_bytes]. by rewrite read_uvarint_written. Qed.

Lemma d_varint_written x rest : (- 2 ^ 63 <= x < 2 ^ 63)%Z -> d_varint (reading_from (varint x ++ rest)) = (x, reading_from rest).
Proof.
  intros Hx. unfold d_varint, varint, reading_from. cbn [d_bytes]. rewrite read_uvarint_written by (by apply zigzag_range).
  by rewrite unzigzag_zigzag.
Qed.

Lemma d_string_written s rest : (len (to_bytes s) <= maxKey)%Z -> d_string (reading_from (appendString s ++ rest)) = (s, reading_from rest).
Proof.
  intros Hs. unfold d_string, appendString. rewrite <- app_assoc. unfold maxKey in *.
  rewrite d_uvarint_written by (unfold len in *; lia). cbn [reading_from d_bytes d_failed].
  rewrite !bool_decide_false by (unfold len in *; rewrite ?length_app; lia). cbn [orb]. unfold len. rewrite Nat2Z.id.
  rewrite take_app_length, drop_app_length, to_bytes_inv. done.
Qed.

Lemma read_le32_written n rest : (0 <= n < 2 ^ 32)%Z -> read_le32 (le32 n ++ rest) = n.
Proof.
  intros Hn. unfold le32. cbn [app read_le32].
  pose proof (Z.div_mod n 256 ltac:(lia)) as H1. pose proof (Z.div_mod (n / 256) 256 ltac:(lia)) as H2.
  pose proof (Z.div_mod (n / 256 / 256) 256 ltac:(lia)) as H3. pose proof (Z.div_mod (n / 256 / 256 / 256) 256 ltac:(lia)) as H4.
  assert (E2 : (n / 65536 = n / 256 / 256)%Z) by (by rewrite Z.div_div by lia).
  assert (E3 : (n / 16777216 = n / 256 / 256 / 256)%Z) by (by rewrite !Z.div_div by lia).
  assert (E4 : (n / 256 / 256 / 256 / 256 = 0)%Z) by (rewrite !Z.div_div by lia; apply Z.div_small; lia).
  rewrite E2, E3. lia.
Qed.

(** Four bytes a value. *)
Lemma length_values (f : Z -> Z) l : length (concat (map (fun s => le32 (f s)) l)) = 4 * length l.
Proof. induction l as [|x l IH]; [done|]. cbn [map concat length]. rewrite length_app, IH. cbn. lia. Qed.

Lemma drop_values (f : Z -> Z) lo count i rest : (0 <= i < count)%Z ->
  exists after, drop (Z.to_nat (4 * i)) (concat (map (fun s => le32 (f s)) (seqZ lo count)) ++ rest) = le32 (f (lo + i)%Z) ++ after.
Proof.
  intros Hi. replace (seqZ lo count) with (seqZ lo i ++ (lo + i)%Z :: seqZ (Z.succ (lo + i)) (Z.pred (count - i))).
  2: { rewrite <- (seqZ_cons (lo + i) (count - i)) by lia. rewrite <- seqZ_app by lia. f_equal; lia. }
  rewrite map_app, concat_app, <- app_assoc. cbn [map concat]. rewrite <- app_assoc.
  replace (Z.to_nat (4 * i)) with (length (concat (map (fun s => le32 (f s)) (seqZ lo i)))) by (rewrite length_values, length_seqZ; lia).
  rewrite drop_app_length. by eexists.
Qed.

(* ------------------------------------------------------------------ *)
(** ** A ring there and back *)

(** What of a ring's values a reader keeps. *)
Definition pick (v : Z -> float32) (oldest nowSlot s : Z) : option (Z * float32) :=
  if bool_decide (s < oldest)%Z || bool_decide (nowSlot < s)%Z || isNaN (v s) then None else Some (s, v s).

Lemma read_values idx v b first oldest nowSlot acc :
  (forall i, i ∈ idx -> f32_from_bits (read_le32 (drop (Z.to_nat (4 * i)) b)) = v (first + i)%Z /\ signed64 (first + i) = (first + i)%Z) ->
  fold_left (read_value b first oldest nowSlot) idx acc =
  (fold_left (fun r p => put p.1 p.2 r) (omap (pick v oldest nowSlot) (map (Z.add first) idx)) acc.1,
   acc.2 || negb (bool_decide (omap (pick v oldest nowSlot) (map (Z.add first) idx) = []))).
Proof.
  revert acc. induction idx as [|i idx IH]; intros [r h] Hi; [by rewrite orb_false_r|]. cbn [fold_left map omap list_omap].
  destruct (Hi i ltac:(left)) as [Hv Hs]. rewrite IH by (intros j Hj; apply Hi; by right).
  assert (E : read_value b first oldest nowSlot (r, h) i =
    match pick v oldest nowSlot (first + i) with Some p => (put p.1 p.2 r, true) | None => (r, h) end).
  { unfold read_value, pick. rewrite Hv, Hs. by destruct (_ || _). }
  rewrite E. destruct (pick v oldest nowSlot (first + i)) as [p|]; cbn [fst snd]; [|done]. cbn [fold_left orb].
  rewrite (bool_decide_false (_ :: _ = [])) by done. by rewrite orb_true_r.
Qed.

Lemma first_held_spec fuel r lo hi :
  (lo <= first_held fuel r lo hi)%Z /\ forall s, (lo <= s < first_held fuel r lo hi)%Z -> at_slot r s = nan.
Proof.
  revert lo. induction fuel as [|f IH]; intros lo; cbn [first_held]; [split; [lia|intros; lia]|].
  destruct (bool_decide (lo <= hi)%Z) eqn:E; cbn [andb]; [|split; [lia|intros; lia]].
  destruct (isNaN (at_slot r lo)) eqn:En; [|split; [lia|intros; lia]]. destruct (IH (lo + 1)%Z) as [H1 H2]. split; [lia|].
  intros s Hs. destruct (decide (s = lo)) as [->|]; [by destruct (at_slot r lo)|]. apply H2. lia.
Qed.

Lemma last_held_spec fuel r lo hi :
  (last_held fuel r lo hi <= hi)%Z /\ forall s, (last_held fuel r lo hi < s <= hi)%Z -> at_slot r s = nan.
Proof.
  revert hi. induction fuel as [|f IH]; intros hi; cbn [last_held]; [split; [lia|intros; lia]|].
  destruct (bool_decide (lo <= hi)%Z) eqn:E; cbn [andb]; [|split; [lia|intros; lia]].
  destruct (isNaN (at_slot r hi)) eqn:En; [|split; [lia|intros; lia]]. destruct (IH (hi - 1)%Z) as [H1 H2]. split; [lia|].
  intros s Hs. destruct (decide (s = hi)) as [->|]; [by destruct (at_slot r hi)|]. apply H2. lia.
Qed.

(** The fuel is enough: the loops stop at a value, or past the other end. *)
Lemma first_held_stops fuel r lo hi : (hi - lo + 1 <= Z.of_nat fuel)%Z ->
  let lo' := first_held fuel r lo hi in (hi < lo')%Z \/ isNaN (at_slot r lo') = false.
Proof.
  revert lo. induction fuel as [|f IH]; intros lo Hf; cbn [first_held]; [left; lia|].
  case_bool_decide as Hl; cbn [andb]; [|left; lia]. destruct (isNaN (at_slot r lo)) eqn:En; [apply IH; lia|by right].
Qed.

Lemma last_held_stops fuel r lo hi : (hi - lo + 1 <= Z.of_nat fuel)%Z ->
  let hi' := last_held fuel r lo hi in (hi' < lo)%Z \/ isNaN (at_slot r hi') = false.
Proof.
  revert hi. induction fuel as [|f IH]; intros hi Hf; cbn [last_held]; [left; lia|].
  case_bool_decide as Hl; cbn [andb]; [|left; lia]. destruct (isNaN (at_slot r hi)) eqn:En; [apply IH; lia|by right].
Qed.

Lemma signed64_small x : (- 2 ^ 63 <= x < 2 ^ 63)%Z -> signed64 x = x.
Proof.
  intros Hx. unfold signed64, wrap64. change (2 ^ 64)%Z with (2 * 2 ^ 63)%Z. cbv zeta. destruct (decide (0 <= x)%Z).
  - rewrite Z.mod_small by lia. by rewrite bool_decide_true by lia.
  - rewrite <- (Z_mod_plus_full x 1), Z.mod_small by lia. rewrite bool_decide_false by lia. lia.
Qed.

(** A ring the program can have. *)
Definition ring_ok (n : nat) (r : ring) : Prop := slots_of r = Z.of_nat n /\ Forall is_f32 (vals r).

Lemma at_slot_f32 n r s : ring_ok n r -> is_f32 (at_slot r s).
Proof.
  intros [_ Hf]. rewrite at_slot_place. case_decide; [|done]. unfold place. destruct (vals r !! index r s) eqn:E; [|done].
  cbn. by eapply Forall_lookup_1.
Qed.

(** The ends of what is written. *)
Definition written_from (r : ring) (nowSlot : Z) : Z :=
  first_held (S (Z.to_nat (slots_of r))) r (Z.max (head r - slots_of r + 1) (nowSlot - slots_of r + 1)) (Z.min (head r) nowSlot).
Definition written_to (r : ring) (nowSlot : Z) : Z :=
  last_held (S (Z.to_nat (slots_of r))) r (written_from r nowSlot) (Z.min (head r) nowSlot).

(** What of a ring written at [nowE] a reader at [nowD] keeps. *)
Definition kept_values (r : ring) (nowE nowD : Z) : list (Z * float32) :=
  omap (pick (at_slot r) (nowD - slots_of r + 1) nowD) (seqZ (written_from r nowE) (written_to r nowE - written_from r nowE + 1)).

Lemma map_add_seqZ lo n : map (Z.add lo) (seqZ 0 n) = seqZ lo n.
Proof. pose proof (fmap_add_seqZ lo 0 n) as H. rewrite Z.add_0_r in H. done. Qed.

Lemma d_ring_written n r nowE nowD rest :
  ring_ok n r -> 0 < n -> (Z.of_nat n < 2 ^ 62)%Z -> (0 <= nowE < 2 ^ 62)%Z ->
  d_ring (newRing n) nowD (reading_from (ring_bytes r nowE ++ rest)) =
  (negb (bool_decide (kept_values r nowE nowD = [])), ring_of n (kept_values r nowE nowD), reading_from rest).
Proof.
  intros Hr Hn Hn2 Hnow. pose proof Hr as [Hslots _]. unfold ring_bytes, d_ring. cbv zeta. fold (written_from r nowE). fold (written_to r nowE).
  assert (Hfrom : (nowE - Z.of_nat n < written_from r nowE)%Z).
  { unfold written_from. match goal with |- context [first_held ?f ?r ?lo ?hi] => destruct (first_held_spec f r lo hi) as [H _] end. lia. }
  assert (Hto : (written_to r nowE <= nowE)%Z).
  { unfold written_to. match goal with |- context [last_held ?f ?r ?lo ?hi] => destruct (last_held_spec f r lo hi) as [H _] end. lia. }
  unfold kept_values. rewrite Hslots. set (lo := written_from r nowE) in *. set (hi := written_to r nowE) in *. clearbody lo hi.
  assert (H62 : (2 ^ 63 = 2 * 2 ^ 62)%Z) by done.
  case_bool_decide as Hlh.
  - rewrite <- app_assoc, d_varint_written, d_uvarint_written by lia. cbn [reading_from d_bytes d_failed].
    rewrite bool_decide_false by (unfold len; apply Z.le_ngt, Z.div_pos; lia). rewrite !seqZ_nil by lia. done.
  - rewrite <- !app_assoc, d_varint_written, d_uvarint_written by (change (2 ^ 64)%Z with (4 * 2 ^ 62)%Z; lia). cbn [reading_from d_bytes d_failed].
    set (count := (hi - lo + 1)%Z). set (vs := concat _).
    assert (Hlen : length vs = 4 * Z.to_nat count) by (unfold vs; by rewrite length_values, length_seqZ).
    rewrite bool_decide_false. 2: { unfold len. rewrite length_app, Hlen. apply Z.le_ngt, Z.div_le_lower_bound; lia. }
    rewrite slots_new. rewrite (read_values _ (at_slot r)).
    + cbn [fst snd orb]. rewrite map_add_seqZ. f_equal. f_equal. unfold reading_from. f_equal.
      replace (Z.to_nat (4 * count)) with (length vs) by lia. by rewrite drop_app_length.
    + intros i Hi%elem_of_seqZ. split; [|apply signed64_small; unfold count in *; lia].
      destruct (drop_values (fun s => f32_bits (at_slot r s)) lo count i rest ltac:(lia)) as [after E]. unfold vs. rewrite E.
      rewrite read_le32_written by apply f32_bits_range. by apply (at_slot_f32 n).
Qed.

Lemma pick_spec v oldest nowSlot s p : pick v oldest nowSlot s = Some p -> p = (s, v s) /\ (oldest <= s <= nowSlot)%Z /\ isNaN (v s) = false.
Proof.
  unfold pick. destruct (_ || _) eqn:E; [done|]. intros [= <-]. apply orb_false_iff in E as [E E3]. apply orb_false_iff in E as [E1 E2].
  apply bool_decide_eq_false in E1, E2. split_and!; [done|lia|lia|done].
Qed.

(** What is written of a ring and read back later is what it had, without what
    the time since has put out of the window. *)
Lemma kept_at n r nowE nowD s :
  ring_ok n r -> 0 < n -> (0 <= nowE <= nowD)%Z ->
  at_slot (ring_of n (kept_values r nowE nowD)) s = if decide (nowD - Z.of_nat n < s <= nowE)%Z then at_slot r s else nan.
Proof.
  intros [Hslots _] Hn Hnow. set (l := kept_values r nowE nowD).
  assert (Hin : forall p, p ∈ l -> p.2 = at_slot r p.1 /\ (nowD - Z.of_nat n < p.1 <= nowE)%Z /\ isNaN p.2 = false).
  { intros p (x & Hx & Hp)%list_elem_of_omap. apply pick_spec in Hp as (-> & Hp & Hv). cbn [fst snd]. split_and!; [done|lia| |done].
    apply elem_of_seqZ in Hx. enough (written_to r nowE <= nowE)%Z by lia. unfold written_to.
    match goal with |- context [last_held ?f ?r ?lo ?hi] => destruct (last_held_spec f r lo hi) as [H _] end. lia. }
  assert (Hhead : (head (ring_of n l) <= nowD)%Z).
  { destruct (ring_of_head n l) as (_ & _ & [->|(p & Hp & <-)]); [lia|]. destruct (Hin p Hp) as (_ & ? & _). lia. }
  rewrite ring_of_at by done. destruct (latest l s) as [v|] eqn:El.
  - apply latest_elem in El. destruct (Hin _ El) as (E1 & E2 & _). cbn [fst snd] in *. destruct (ring_of_head n l) as (_ & H2 & _).
    pose proof (H2 _ El) as H2s. cbn [fst] in H2s. rewrite decide_True by (unfold in_window; lia). cbn. by rewrite decide_True by lia.
  - cbn. replace (if decide (in_window _ _ _) then nan else nan) with nan by (by case_decide). case_decide as Hs; [|done]. symmetry.
    destruct (isNaN (at_slot r s)) eqn:En; [by destruct (at_slot r s)|]. exfalso.
    assert (Hw : in_window (Z.of_nat n) (head r) s). { rewrite at_slot_place in En. rewrite <- Hslots. by case_decide. } unfold in_window in Hw.
    assert (Hel : (s, at_slot r s) ∈ l); [|apply latest_some in Hel as [v Hv]; cbn in Hv; congruence].
    apply list_elem_of_omap. exists s. split; [|unfold pick; rewrite En, !bool_decide_false by lia; done].
    apply elem_of_seqZ.
    assert (H1 : (written_from r nowE <= s)%Z).
    { unfold written_from. match goal with |- context [first_held ?f ?r ?lo ?hi] => destruct (first_held_spec f r lo hi) as [_ H] end.
      apply Z.nlt_ge. intros Hlt. rewrite H in En; [done|]. lia. }
    assert (H2 : (s <= written_to r nowE)%Z); [|lia].
    { unfold written_to. match goal with |- context [last_held ?f ?r ?lo ?hi] => destruct (last_held_spec f r lo hi) as [_ H] end.
      apply Z.nlt_ge. intros Hlt. rewrite H in En; [done|]. lia. }
Qed.

(** ** Series and subjects *)

Definition series_ok (ser : series) : Prop := ring_ok FineSlots (fine ser) /\ ring_ok CoarseSlots (coarse ser).

Definition name_ok (s : string) : Prop := (len (to_bytes s) <= maxKey)%Z.

Record subject_ok (sub : subject) : Prop := {
  ok_seen : (- 2 ^ 63 <= unix_milli (seen sub) < 2 ^ 63)%Z;
  ok_count : (Z.of_nat (size (all_series sub)) < 2 ^ 64)%Z;
  ok_series : map_Forall (fun name ser => name_ok name /\ series_ok ser) (all_series sub)
}.

Record store_ok (s : Store) : Prop := {
  ok_subjects : (Z.of_nat (size (subjects s)) < 2 ^ 64)%Z;
  ok_each : map_Forall (fun key sub => name_ok key /\ subject_ok sub) (subjects s)
}.

(** What a reader makes of a series: nothing if no value of it is left. *)
Definition reload_series (nowE nowD : time) (ser : series) : option series :=
  let f := kept_values (fine ser) (fine_slot nowE) (fine_slot nowD) in
  let c := kept_values (coarse ser) (coarse_slot nowE) (coarse_slot nowD) in
  if bool_decide (f = []) && bool_decide (c = []) then None else Some (mkSeries (ring_of FineSlots f) (ring_of CoarseSlots c)).

Definition reload_subject (nowE nowD : time) (sub : subject) : option subject :=
  let all := omap (reload_series nowE nowD) (all_series sub) in
  if bool_decide (all = ∅) then None else Some (mkSubject (from_unix_milli (unix_milli (seen sub))) all).

(** Times a file can be written and read at. *)
Definition file_times (nowE nowD : time) : Prop := (unix_epoch <= nowE <= nowD)%Z /\ (fine_slot nowE < 2 ^ 62)%Z.

Lemma coarse_below_fine t : (unix_epoch <= t)%Z -> (0 <= coarse_slot t <= fine_slot t)%Z.
Proof.
  intros Ht. pose proof (fine_slot_nonneg t Ht). rewrite <- minute_of_slot. change finePerCoarse with 4%Z. split; [by apply Z.div_pos|].
  apply Z.div_le_upper_bound; lia.
Qed.

Lemma coarse_slot_mono t u : (t <= u)%Z -> (coarse_slot t <= coarse_slot u)%Z.
Proof. intros H. rewrite <- !minute_of_slot. apply Z.div_le_mono; [done|]. by apply fine_slot_mono. Qed.

Lemma d_series_written nowE nowD names (all acc : gmap string series) rest :
  file_times nowE nowD -> NoDup names ->
  (forall name, name ∈ names -> name_ok name /\ exists ser, all !! name = Some ser /\ series_ok ser) ->
  exists out,
    d_series (length names) (fine_slot nowD) (coarse_slot nowD) acc
      (reading_from (concat (map (fun name => series_bytes (fine_slot nowE) (coarse_slot nowE) name (default newSeries (all !! name))) names) ++ rest)) =
      Ok (out, reading_from rest) /\
    forall name, out !! name =
      if bool_decide (name ∈ names) then match all !! name ≫= reload_series nowE nowD with Some ser => Some ser | None => acc !! name end
      else acc !! name.
Proof.
  intros [Ht1 Ht2] Hnd Hall. destruct (coarse_below_fine nowE ltac:(lia)) as [Hc0 Hc1]. pose proof (fine_slot_nonneg nowE ltac:(lia)) as Hf0.
  revert acc. induction names as [|name names IH]; intros acc.
  { exists acc. split; [done|]. intros name. by rewrite bool_decide_false by (apply not_elem_of_nil). }
  apply NoDup_cons in Hnd as [Hnot Hnd]. destruct (Hall name ltac:(left)) as (Hname & ser & Eser & Hf & Hc).
  set (f := kept_values (fine ser) (fine_slot nowE) (fine_slot nowD)). set (c := kept_values (coarse ser) (coarse_slot nowE) (coarse_slot nowD)).
  destruct (IH Hnd ltac:(intros x Hx; apply Hall; by right)
    (if negb (bool_decide (f = [])) || negb (bool_decide (c = [])) then <[name := mkSeries (ring_of FineSlots f) (ring_of CoarseSlots c)]> acc else acc))
    as (out & Eout & Hout). clear IH.
  exists out. split.
  - cbn [map concat length d_series]. rewrite Eser. cbn [default from_option]. unfold id, series_bytes. rewrite <- !app_assoc.
    rewrite d_string_written by done.
    rewrite (d_ring_written FineSlots _ (fine_slot nowE)) by (done || (rewrite ?fine_slots; lia) || (pose proof fine_slots; lia)).
    rewrite (d_ring_written CoarseSlots _ (coarse_slot nowE)) by (done || (rewrite ?coarse_slots; lia) || (pose proof coarse_slots; lia)).
    cbn [reading_from d_failed]. exact Eout.
  - intros x. rewrite Hout. destruct (decide (x = name)) as [->|Hne].
    + rewrite (bool_decide_false (name ∈ names)) by done. rewrite (bool_decide_true (name ∈ name :: names)) by left. rewrite Eser. cbn [mbind option_bind]. unfold reload_series.
      fold f c. rewrite <- negb_andb. destruct (bool_decide (f = []) && bool_decide (c = [])); cbn [negb]; [done|]. by rewrite lookup_insert_eq.
    + assert (Eacc : (if negb (bool_decide (f = [])) || negb (bool_decide (c = []))
        then <[name := mkSeries (ring_of FineSlots f) (ring_of CoarseSlots c)]> acc else acc) !! x = acc !! x).
      { destruct (_ || _); [by rewrite lookup_insert_ne|done]. }
      rewrite Eacc. by rewrite (bool_decide_ext (x ∈ name :: names) (x ∈ names)) by (rewrite elem_of_cons; tauto).
Qed.

Lemma elem_of_sorted_keys {A} (m : gmap string A) key : key ∈ sorted_keys m <-> is_Some (m !! key).
Proof.
  unfold sorted_keys. rewrite merge_sort_Permutation. rewrite list_elem_of_fmap. split.
  - intros ([k a] & -> & Hka%elem_of_map_to_list). by exists a.
  - intros [a Ha]. exists (key, a). split; [done|]. by apply elem_of_map_to_list.
Qed.

Lemma NoDup_sorted_keys {A} (m : gmap string A) : NoDup (sorted_keys m).
Proof. unfold sorted_keys. rewrite merge_sort_Permutation. apply NoDup_fst_map_to_list. Qed.

Lemma length_sorted_keys {A} (m : gmap string A) : length (sorted_keys m) = size m.
Proof. unfold sorted_keys. rewrite merge_sort_Permutation, length_fmap. apply length_map_to_list. Qed.

Lemma uvarint_nonempty n : 1 <= length (uvarint n).
Proof. unfold uvarint. cbn [uvarint_bytes]. case_bool_decide; cbn [length]; lia. Qed.

(** Every entry takes a byte at least, so that the bound on the loops is none. *)
Lemma length_entries {A} (f : A -> bytes) l : (forall x, 1 <= length (f x)) -> length l <= length (concat (map f l)).
Proof. intros Hf. induction l as [|x l IH]; [done|]. cbn [map concat length]. rewrite length_app. pose proof (Hf x). lia. Qed.

Lemma d_subject_written nowE nowD sub body rest all :
  file_times nowE nowD -> subject_ok sub -> all = omap (reload_series nowE nowD) (all_series sub) ->
  (Z.of_nat (length (sorted_keys (all_series sub))) <= body)%Z ->
  d_series (Z.to_nat (Z.min (Z.of_nat (length (sorted_keys (all_series sub)))) body)) (fine_slot nowD) (coarse_slot nowD) ∅
    (reading_from (concat (map (fun name => series_bytes (fine_slot nowE) (coarse_slot nowE) name (default newSeries (all_series sub !! name)))
       (sorted_keys (all_series sub))) ++ rest)) = Ok (all, reading_from rest).
Proof.
  intros Ht [_ _ Hser] -> Hb. rewrite Z.min_l, Nat2Z.id by done.
  destruct (d_series_written nowE nowD (sorted_keys (all_series sub)) (all_series sub) ∅ rest Ht (NoDup_sorted_keys _)) as (out & E & Hout).
  { intros name [ser Hs]%elem_of_sorted_keys. destruct (Hser _ _ Hs). eauto. }
  rewrite E. do 2 f_equal. apply map_eq. intros name. rewrite Hout, lookup_omap, lookup_empty.
  destruct (decide (name ∈ sorted_keys (all_series sub))) as [Hin|Hin].
  - rewrite (bool_decide_true (name ∈ _)) by done. by destruct (all_series sub !! name ≫= _).
  - rewrite (bool_decide_false (name ∈ _)) by done. destruct (all_series sub !! name) eqn:Es; [|done]. destruct Hin. apply elem_of_sorted_keys. by exists s.
Qed.

Lemma d_subjects_written nowE nowD keys (subs acc : gmap string subject) body :
  file_times nowE nowD -> NoDup keys ->
  (forall key, key ∈ keys -> name_ok key /\ exists sub, subs !! key = Some sub /\ subject_ok sub) ->
  let text := concat (map (fun key => subject_bytes (fine_slot nowE) (coarse_slot nowE) key (default (mkSubject zero_time ∅) (subs !! key))) keys) in
  (len text <= body)%Z ->
  exists out, d_subjects (length keys) body (fine_slot nowD) (coarse_slot nowD) acc (reading_from text) = Ok (out, reading_from []) /\
    forall key, out !! key =
      if bool_decide (key ∈ keys) then match subs !! key ≫= reload_subject nowE nowD with Some sub => Some sub | None => acc !! key end
      else acc !! key.
Proof.
  intros Ht Hnd Hall. cbv zeta. revert acc. induction keys as [|key keys IH]; intros acc Hb.
  { exists acc. split; [done|]. intros key. by rewrite bool_decide_false by (apply not_elem_of_nil). }
  apply NoDup_cons in Hnd as [Hnot Hnd]. destruct (Hall key ltac:(left)) as (Hkey & sub & Esub & Hsub).
  cbn [map concat] in Hb |- *. rewrite Esub in Hb |- *. cbn [default from_option] in Hb |- *. unfold id in Hb |- *.
  set (rest := concat _) in *. unfold len in Hb. rewrite length_app in Hb.
  set (all := omap (reload_series nowE nowD) (all_series sub)).
  destruct (IH Hnd ltac:(intros x Hx; apply Hall; by right)
    (if bool_decide (all = ∅) then acc else <[key := mkSubject (from_unix_milli (unix_milli (seen sub))) all]> acc) ltac:(unfold len; lia))
    as (out & Eout & Hout). clear IH.
  assert (Hlen : (Z.of_nat (length (sorted_keys (all_series sub))) <= body)%Z).
  { etransitivity; [|exact Hb]. unfold subject_bytes. rewrite !length_app.
    pose proof (length_entries (fun name => series_bytes (fine_slot nowE) (coarse_slot nowE) name (default newSeries (all_series sub !! name)))
      (sorted_keys (all_series sub))) as Hl. cbn beta in Hl. enough (length (sorted_keys (all_series sub)) <= length (concat (map (fun name =>
        series_bytes (fine_slot nowE) (coarse_slot nowE) name (default newSeries (all_series sub !! name))) (sorted_keys (all_series sub))))) by lia.
    apply Hl. intros name. unfold series_bytes, appendString. rewrite !length_app. pose proof (uvarint_nonempty (len (to_bytes name))). lia. }
  exists out. split.
  - cbn [length d_subjects]. unfold subject_bytes. rewrite <- !app_assoc. rewrite d_string_written by done.
    rewrite d_varint_written by apply Hsub. rewrite d_uvarint_written by (rewrite length_sorted_keys; pose proof (ok_count _ Hsub); lia).
    rewrite (d_subject_written nowE nowD sub body rest all) by done. cbn [mbind result_bind reading_from d_failed]. exact Eout.
  - intros x. rewrite Hout. destruct (decide (x = key)) as [->|Hne].
    + rewrite (bool_decide_false (key ∈ keys)) by done. rewrite (bool_decide_true (key ∈ key :: keys)) by left. rewrite Esub. cbn [mbind option_bind].
      unfold reload_subject. fold all. destruct (bool_decide (all = ∅)); [done|]. by rewrite lookup_insert_eq.
    + assert (Eacc : (if bool_decide (all = ∅) then acc else <[key := mkSubject (from_unix_milli (unix_milli (seen sub))) all]> acc) !! x = acc !! x).
      { destruct (bool_decide (all = ∅)); [done|]. by rewrite lookup_insert_ne. }
      rewrite Eacc. by rewrite (bool_decide_ext (x ∈ key :: keys) (x ∈ keys)) by (rewrite elem_of_cons; tauto).
Qed.

(** What is written is bytes. *)
Lemma uvarint_is_bytes n : (0 <= n)%Z -> Forall is_byte (uvarint n).
Proof.
  unfold uvarint. generalize 10. intros fuel. revert n. induction fuel as [|f IH]; intros n Hn; cbn [uvarint_bytes]; [constructor|].
  case_bool_decide; [constructor; [unfold is_byte; lia|constructor]|]. pose proof (Z.mod_pos_bound n 128 ltac:(lia)).
  constructor; [unfold is_byte; lia|]. apply IH. by apply Z.div_pos.
Qed.

Lemma varint_is_bytes x : Forall is_byte (varint x).
Proof. apply uvarint_is_bytes. unfold zigzag. case_bool_decide; lia. Qed.

Lemma to_bytes_is_bytes s : Forall is_byte (to_bytes s).
Proof. induction s as [|c s IH]; cbn [to_bytes]; constructor; [|done]. pose proof (nat_ascii_bounded c). unfold is_byte. lia. Qed.

Lemma le32_is_bytes n : Forall is_byte (le32 n).
Proof. unfold le32. repeat constructor; apply Z.mod_pos_bound; lia. Qed.

Lemma concat_is_bytes {A} (f : A -> bytes) l : (forall x, Forall is_byte (f x)) -> Forall is_byte (concat (map f l)).
Proof. intros Hf. induction l as [|x l IH]; [constructor|]. cbn [map concat]. by apply Forall_app. Qed.

Create HintDb bytes.
#[export] Hint Resolve varint_is_bytes to_bytes_is_bytes le32_is_bytes concat_is_bytes : bytes.
#[export] Hint Extern 2 (Forall is_byte (uvarint _)) => apply uvarint_is_bytes; unfold len; lia : bytes.
#[export] Hint Extern 2 (Forall is_byte (_ ++ _)) => apply Forall_app; split : bytes.

Lemma ring_is_bytes r nowSlot : Forall is_byte (ring_bytes r nowSlot).
Proof. unfold ring_bytes. cbv zeta. case_bool_decide; auto 10 with bytes. Qed.

Lemma series_is_bytes f c name ser : Forall is_byte (series_bytes f c name ser).
Proof. unfold series_bytes, appendString. pose proof ring_is_bytes. auto 10 with bytes. Qed.

Lemma body_is_bytes subs t : Forall is_byte (body_bytes subs t).
Proof.
  unfold body_bytes. apply Forall_app. split; [auto with bytes|]. apply concat_is_bytes. intros key. unfold subject_bytes, appendString.
  pose proof series_is_bytes. auto 10 with bytes.
Qed.

(** What is written of a store and read back is every subject with what is left
    of it. *)
Lemma decode_encode `{Gzip} s nowE nowD :
  store_ok s -> file_times nowE nowD -> decode (encode s nowE) nowD = Ok (omap (reload_subject nowE nowD) (subjects s)).
Proof.
  intros [Hsize Heach] Ht. unfold encode, decode.
  rewrite bool_decide_false by (unfold len; rewrite !length_app; cbn [length fileMagic to_bytes]; lia).
  rewrite take_app_length, bool_decide_true by done. cbn [negb orb].
  rewrite (lookup_app_r fileMagic) by done. rewrite Nat.sub_diag. cbn [app lookup list_lookup default from_option].
  rewrite bool_decide_true by done. cbn [negb].
  change (drop (S (length fileMagic)) (fileMagic ++ fileVersion :: ?x)) with x. rewrite decompress_compress by apply body_is_bytes.
  unfold decode_body, body_bytes. set (text := concat _). set (n := Z.of_nat (length (sorted_keys (subjects s)))).
  change (mkDecoder (uvarint n ++ text) false) with (reading_from (uvarint n ++ text)).
  rewrite d_uvarint_written by (unfold n; rewrite length_sorted_keys; lia).
  assert (Hn : length (sorted_keys (subjects s)) <= length text).
  { unfold text. apply length_entries. intros key. unfold subject_bytes, appendString. rewrite !length_app. pose proof (uvarint_nonempty (len (to_bytes key))). lia. }
  rewrite Z.min_l by (unfold n, len; rewrite length_app; lia). unfold n at 1. rewrite Nat2Z.id.
  destruct (d_subjects_written nowE nowD (sorted_keys (subjects s)) (subjects s) ∅ (len (uvarint n ++ text)) Ht (NoDup_sorted_keys _)) as (out & E & Hout).
  { intros key [sub Hs]%elem_of_sorted_keys. destruct (Heach _ _ Hs). eauto. }
  { fold text. unfold len. rewrite length_app. lia. }
  fold text in E. rewrite E. cbn [mbind result_bind fst snd reading_from d_failed]. f_equal. apply map_eq. intros key.
  rewrite Hout, lookup_omap, lookup_empty. destruct (decide (key ∈ sorted_keys (subjects s))) as [Hin|Hin].
  - rewrite (bool_decide_true (key ∈ _)) by done. by destruct (subjects s !! key ≫= _).
  - rewrite (bool_decide_false (key ∈ _)) by done. destruct (subjects s !! key) as [sub|] eqn:Es; [|done]. destruct Hin. apply elem_of_sorted_keys. by exists sub.
Qed.

(* ------------------------------------------------------------------ *)
(** ** A restart *)

Lemma window_bounds r t :
  window_end r t = (if (tier r).1.1 then fine_slot t else coarse_slot t) /\
  (window_end r t - (if (tier r).1.1 then 240 else 1440) < window_start r t)%Z.
Proof.
  pose proof fine_slots as Hf. pose proof coarse_slots as Hc. destruct r; (split; [reflexivity|]); unfold window_start, window_end; cbn [tier fst].
  - rewrite Hf. lia.
  - change (Z.of_nat (Z.to_nat (6 * hour / CoarseStep))) with 360%Z. lia.
  - rewrite Hc. lia.
Qed.

Lemma view_points_none r t : view_points r t (series_of []) = None.
Proof.
  unfold view_points. rewrite bool_decide_true; [done|]. unfold points. apply elem_of_nil_inv. intros p (s & _ & Hp)%list_elem_of_omap.
  assert (E : forall n, 0 < n -> at_slot (newRing n) s = nan).
  { intros n Hn. change (newRing n) with (ring_of n []). rewrite ring_of_at by done. by case_decide. }
  assert (E' : at_slot (ring_for r (series_of [])) s = nan); [|by rewrite E' in Hp].
  pose proof fine_slots. pose proof coarse_slots. destruct r; apply E; lia.
Qed.

(** No reading is of a time yet to come. *)
Definition nothing_after (t : time) (s : Store) : Prop :=
  forall key sub name ser, subjects s !! key = Some sub -> all_series sub !! name = Some ser ->
    (head (fine ser) <= fine_slot t)%Z /\ (head (coarse ser) <= coarse_slot t)%Z.

Lemma set_val_ok n slot v r : ring_ok n r -> is_f32 v -> ring_ok n (set_val slot v r).
Proof. intros [Hs Hf] Hv. split; [by rewrite slots_set_val|]. cbn [set_val vals]. by apply Forall_insert. Qed.

Lemma advance_ok n slot r : ring_ok n r -> ring_ok n (advance slot r).
Proof.
  intros Hr. unfold advance. case_bool_decide; [|done]. set (from := Z.max _ _). assert (Hc : ring_ok n (clear from slot r)); [|destruct Hc; by split].
  unfold clear. generalize (seqZ from (slot - from + 1)). clearbody from. clear H. intros l. revert r Hr. induction l as [|s l IH]; intros r Hr; [done|].
  cbn [fold_left]. by apply IH, set_val_ok.
Qed.

Lemma put_ok n slot v r : ring_ok n r -> is_f32 v -> ring_ok n (put slot v r).
Proof. intros Hr Hv. unfold put. cbv zeta. case_bool_decide; [by apply advance_ok|]. by apply set_val_ok; [apply advance_ok|]. Qed.

Lemma newRing_ok n : ring_ok n (newRing n).
Proof. split; [apply slots_new|]. apply Forall_replicate. by apply is_f32_nan. Qed.

Lemma ring_of_ok n l : Forall (fun p => is_f32 p.2) l -> ring_ok n (ring_of n l).
Proof.
  intros Hl. unfold ring_of. generalize (newRing_ok n). generalize (newRing n). induction Hl as [|p l Hp Hl IH]; intros r Hr; [done|].
  cbn [fold_left]. by apply IH, put_ok.
Qed.

Lemma minuteAverage_f32 r m : is_f32 (minuteAverage r m).
Proof. unfold minuteAverage. destruct (fold_left _ _ _) as [sum n]. case_bool_decide; [by apply is_f32_nan|apply is_f32_of]. Qed.

Lemma record_in_ok f m v ser : series_ok ser -> is_f32 v -> series_ok (record_in f m v ser).
Proof.
  intros [Hf Hc] Hv. unfold record_in. split; cbn [fine coarse]; [by apply put_ok|].
  destruct (isNaN _); [done|]. apply put_ok; [done|apply minuteAverage_f32].
Qed.

Lemma newSeries_ok : series_ok newSeries.
Proof. split; apply newRing_ok. Qed.

Lemma series_of_ok l : Forall (fun p => is_f32 p.2) l -> series_ok (series_of l).
Proof.
  intros Hl. unfold series_of. generalize newSeries_ok. generalize newSeries. induction Hl as [|p l Hp Hl IH]; intros ser Hs; [done|].
  cbn [fold_left]. by apply IH, record_in_ok.
Qed.

#[local] Program Instance plain_gzip : Gzip :=
  {| compress b := b; decompress b := if decide (Forall is_byte b) then Some b else None |}.
Next Obligation. intros b Hb. cbn beta. by rewrite decide_True. Qed.
Next Obligation. intros b c H. cbn in H. by case_decide; simplify_eq. Qed.

(* ------------------------------------------------------------------ *)
(** ** Any file *)

Lemma read_le32_range b : Forall is_byte b -> (0 <= read_le32 b < 2 ^ 32)%Z.
Proof.
  intros Hb. destruct b as [|b0 [|b1 [|b2 [|b3 b]]]]; cbn [read_le32]; try lia.
  repeat match goal with H : Forall _ (_ :: _) |- _ => inversion_clear H end. unfold is_byte in *. lia.
Qed.

Lemma read_uvarint_bytes_left b i x s v rest : Forall is_byte b -> read_uvarint b i x s = Some (v, rest) -> Forall is_byte rest.
Proof.
  revert i x s. induction b as [|c b IH]; intros i x s Hb; [done|]. inversion_clear Hb. cbn [read_uvarint].
  case_bool_decide; [done|]. case_bool_decide; [|by apply IH]. destruct (_ && _); [done|]. by intros [= _ <-].
Qed.

(** A decoder over bytes stays one. *)
Definition over_bytes (d : decoder) : Prop := Forall is_byte (d_bytes d).

Lemma d_uvarint_over d : over_bytes d -> over_bytes (d_uvarint d).2.
Proof.
  intros Hd. unfold d_uvarint. destruct (read_uvarint _ _ _ _) as [[v b]|] eqn:E; [|by constructor]. by apply read_uvarint_bytes_left in E.
Qed.

Lemma d_varint_over d : over_bytes d -> over_bytes (d_varint d).2.
Proof.
  intros Hd. unfold d_varint. destruct (read_uvarint _ _ _ _) as [[v b]|] eqn:E; [|by constructor]. by apply read_uvarint_bytes_left in E.
Qed.

Lemma length_to_bytes s : length (to_bytes s) = String.length s.
Proof. induction s as [|c s IH]; [done|]. cbn. by rewrite IH. Qed.

Lemma length_of_bytes b : String.length (of_bytes b) = length b.
Proof. unfold of_bytes. induction b as [|c b IH]; [done|]. cbn. by rewrite IH. Qed.

Lemma d_string_over d : over_bytes d -> over_bytes (d_string d).2 /\ name_ok (d_string d).1.
Proof.
  intros Hd. unfold d_string. pose proof (d_uvarint_over d Hd) as Hu. destruct (d_uvarint d) as [n d'] eqn:E. cbn [snd] in Hu.
  case_bool_decide as H1; cbn [orb]; [split; [by constructor|by vm_compute]|].
  case_bool_decide as H2; [split; [by constructor|by vm_compute]|]. cbn [fst snd]. split; [by apply Forall_drop|].
  unfold name_ok, len. rewrite length_to_bytes, length_of_bytes, length_take. unfold maxKey in *. lia.
Qed.

(** A ring within what a reader of this time keeps. *)
Definition ring_by (n : nat) (nowSlot : Z) (r : ring) : Prop := ring_ok n r /\ (head r <= nowSlot)%Z.

Lemma d_ring_over n nowSlot d : (0 <= nowSlot)%Z -> over_bytes d ->
  let '(_, r, d') := d_ring (newRing n) nowSlot d in over_bytes d' /\ ring_by n nowSlot r.
Proof.
  intros Hn Hd. unfold d_ring. pose proof (d_varint_over d Hd) as H1. destruct (d_varint d) as [first d1]. cbn [snd] in H1.
  pose proof (d_uvarint_over d1 H1) as H2. destruct (d_uvarint d1) as [count d2]. cbn [snd] in H2.
  assert (H0 : ring_by n nowSlot (newRing n)) by (split; [apply newRing_ok|done]).
  case_bool_decide; [split; [by constructor|done]|].
  assert (Hfold : forall l acc, ring_by n nowSlot acc.1 ->
    ring_by n nowSlot (fold_left (read_value (d_bytes d2) first (nowSlot - slots_of (newRing n) + 1) nowSlot) l acc).1).
  { intros l. induction l as [|i l IH]; intros acc Ha; [done|]. cbn [fold_left]. apply IH. unfold read_value.
    destruct (_ || _) eqn:E; [done|]. cbn [fst]. apply orb_false_iff in E as [E _]. apply orb_false_iff in E as [_ E].
    apply bool_decide_eq_false in E. destruct Ha as [Ha1 Ha2]. split; [|rewrite put_head; lia]. apply put_ok; [done|].
    apply is_f32_from_bits, read_le32_range. by apply Forall_drop. }
  specialize (Hfold (seqZ 0 count) (newRing n, false) H0). destruct (fold_left _ _ _) as [r held]. cbn [fst] in Hfold.
  split; [|done]. by apply Forall_drop.
Qed.

(** What can be in a store that was read: readings the program could have put there.
    The time a subject was last heard of is not looked at. *)
Definition series_by (t : time) (name : string) (ser : series) : Prop :=
  name_ok name /\ ring_by FineSlots (fine_slot t) (fine ser) /\ ring_by CoarseSlots (coarse_slot t) (coarse ser).
Definition subject_by (t : time) (key : string) (sub : subject) : Prop :=
  name_ok key /\ all_series sub <> ∅ /\ map_Forall (series_by t) (all_series sub).

Lemma d_series_over n t all d r : (unix_epoch <= t)%Z -> over_bytes d -> map_Forall (series_by t) all ->
  d_series n (fine_slot t) (coarse_slot t) all d = Ok r -> map_Forall (series_by t) r.1 /\ over_bytes r.2.
Proof.
  intros Ht. pose proof (fine_slot_nonneg t Ht) as Hf. destruct (coarse_below_fine t Ht) as [Hc _].
  revert all d. induction n as [|n IH]; intros all d Hd Ha; cbn [d_series]; [by intros [= <-]|].
  pose proof (d_string_over d Hd) as [H1 Hname]. destruct (d_string d) as [name d1]. cbn [fst snd] in *.
  pose proof (d_ring_over FineSlots (fine_slot t) d1 Hf H1) as H2. destruct (d_ring (newRing FineSlots) _ _) as [[h1 f] d2]. destruct H2 as [H2 Hrf].
  pose proof (d_ring_over CoarseSlots (coarse_slot t) d2 Hc H2) as H3. destruct (d_ring (newRing CoarseSlots) _ _) as [[h2 c] d3]. destruct H3 as [H3 Hrc].
  destruct (d_failed d3); [done|]. apply IH; [done|]. destruct (h1 || h2); [|done]. by apply map_Forall_insert_2.
Qed.

Lemma d_subjects_over n body t out d r : (unix_epoch <= t)%Z -> over_bytes d -> map_Forall (subject_by t) out ->
  d_subjects n body (fine_slot t) (coarse_slot t) out d = Ok r -> map_Forall (subject_by t) r.1.
Proof.
  intros Ht. revert out d. induction n as [|n IH]; intros out d Hd Ho; cbn [d_subjects]; [by intros [= <-]|].
  pose proof (d_string_over d Hd) as [H1 Hkey]. destruct (d_string d) as [key d1]. cbn [fst snd] in *.
  pose proof (d_varint_over d1 H1) as H2. destruct (d_varint d1) as [ms d2]. cbn [snd] in H2.
  pose proof (d_uvarint_over d2 H2) as H3. destruct (d_uvarint d2) as [k d3]. cbn [snd] in H3.
  destruct (d_series _ _ _ _ _) as [[all d4]|e] eqn:E; [|done]. cbn [mbind result_bind].
  apply d_series_over in E as [Hall H4]; [|done|done|apply map_Forall_empty]. cbn [fst snd] in *.
  destruct (d_failed d4); [done|]. apply IH; [done|]. case_bool_decide; [done|]. by apply map_Forall_insert_2.
Qed.

(** C30: Whatever the file holds, the program starts, and the readings it takes from the
    file are such as it could have recorded itself: names of bounded length, rings of
    the right size that hold [float32] values, none in a slot after now's, and no subject
    without a series. (When a subject was last heard of is taken as the file has it,
    and may be a time to come: [future_subject_is_never_pruned].) *)
Theorem any_file_is_harmless `{Gzip} raw now :
  (unix_epoch <= now)%Z ->
  let s := (Open raw now).1 in
  map_Forall (subject_by now) (subjects s) /\ nothing_after now s /\ dirty s = false /\ lastFlush s = now.
Proof.
  intros Ht. cbv zeta. assert (Hs : map_Forall (subject_by now) (subjects (Open raw now).1)).
  { unfold Open. destruct raw as [raw|[]]; [|apply map_Forall_empty..]. destruct (decode raw now) as [subs|e] eqn:E; [|apply map_Forall_empty].
    cbn [fst set_subjects subjects]. unfold decode in E. destruct (_ || _); [done|]. destruct (negb _); [done|].
    destruct (decompress _) as [body|] eqn:Ed; [|done]. apply decompress_bytes in Ed. unfold decode_body in E.
    pose proof (d_uvarint_over (mkDecoder body false) Ed) as H1. destruct (d_uvarint _) as [n d]. cbn [snd] in H1.
    destruct (d_subjects _ _ _ _ _ _) as [r|e] eqn:Es; [|done]. cbn [mbind result_bind] in E. destruct (d_failed r.2); [done|].
    injection E as <-. by apply d_subjects_over in Es; [|done|done|apply map_Forall_empty]. }
  split; [done|]. split.
  - intros key sub name ser Hsub Hser. destruct (Hs _ _ Hsub) as (_ & _ & Hall). destruct (Hall _ _ Hser) as (_ & [_ ?] & [_ ?]). done.
  - unfold Open. destruct raw as [raw|[]]; [|done..]. by destruct (decode raw now).
Qed.

(** A file with a ring of values far in the future, and one cut short. *)
Lemma any_file_is_harmless_witness :
  let now := (unix_epoch + hour)%Z in
  let body := uvarint 1 ++ appendString "machine/a" ++ varint 0 ++ uvarint 1 ++ appendString "cpu" ++
    (varint 1000000 ++ uvarint 1 ++ le32 1065353216) ++ varint 0 ++ uvarint 0 in
  let file := fileMagic ++ [fileVersion] ++ body in
  Open (Ok file) now = (mkStore ∅ ∅ true false now 0, false) /\ (Open (Ok (take 20 file)) now).2 = true /\
  nothing_after now (Open (Ok file) now).1.
Proof.
  cbv zeta. split; [vm_compute; reflexivity|]. split; [vm_compute; reflexivity|].
  match goal with |- nothing_after ?t (Open ?f _).1 => destruct (any_file_is_harmless f t) as (_ & H & _); [by vm_compute|exact H] end.
Defined.

(** A subject that the file has as heard of in a hundred years is kept for as long,
    though nothing is heard of it any more. *)
Example future_subject_is_never_pruned :
  let now := (unix_epoch + hour)%Z in
  let year := (365 * 24 * hour)%Z in
  let body := uvarint 1 ++ appendString "machine/a" ++ varint (unix_milli (now + 100 * year)) ++ uvarint 1 ++ appendString "cpu" ++
    (varint (fine_slot now) ++ uvarint 1 ++ le32 1065353216) ++ varint 0 ++ uvarint 0 in
  let s := (Open (Ok (fileMagic ++ [fileVersion] ++ body)) now).1 in
  map fst (map_to_list (subjects s)) = ["machine/a"] /\ (Prune (now + 50 * year) s).2 = 0.
Proof. vm_compute. split; reflexivity. Qed.
