(* ===== verification/Sampler.v ===== *)
(** * The sampler

    [src/internal/history/sampler.go]: the rounds that read the host, every node and
    every cluster and record what answered, the log of what fails, the loop that
    writes the file, and the cache of Kubernetes clients. What the reads return is an
    argument of a round; the goroutines of a round are lists of operations on the
    shared state, taken in the order a scheduler picks. *)

From S2P Require Import Prelude GoText GoFloat History HistoryFile.

(* ------------------------------------------------------------------ *)
(** ** What is read *)

Record HardwareTemperature := mkTemperature { t_chip : string; t_label : string; t_celsius : float64 }.
Record HardwareFan := mkFan { f_chip : string; f_label : string; f_rpm : Z }.

(** Of [inventory.HardwareView], what the sampler takes; a link is its bytes received
    and sent per second, a disk its bytes read and written. *)
Record HardwareView := mkHardwareView {
  hw_usage_percent : float64;
  hw_per_core : list float64;
  hw_total_bytes : Z;
  hw_used_bytes : Z;
  hw_network : list (float64 * float64);
  hw_disks : list (float64 * float64);
  hw_temperatures : list HardwareTemperature;
  hw_fans : list HardwareFan
}.

(** Of [kube.App]. *)
Record App := mkApp {
  app_namespace : string;
  app_kind : string;
  app_name : string;
  app_usage_known : bool;
  app_cpu_millis : Z;
  app_memory_bytes : Z
}.

Record Machine := mkMachine { m_id : string; m_cluster : string }.

Definition sum_f64 {A} (f : A -> float64) (l : list A) : float64 := fold_left (fun acc x => f64_add acc (f x)) l f64_zero.

Definition HardwareValues (v : HardwareView) : gmap string float64 :=
  let out : gmap string float64 := {[ "cpu" := hw_usage_percent v ]} in
  let out := if bool_decide (0 < hw_total_bytes v)%Z
             then <["memory" := f64_div (f64_mul (f64_of_int 100) (f64_of_int (hw_used_bytes v))) (f64_of_int (hw_total_bytes v))]> out
             else out in
  let out := <["rx" := sum_f64 fst (hw_network v)]> (<["tx" := sum_f64 snd (hw_network v)]>
    (<["read" := sum_f64 fst (hw_disks v)]> (<["write" := sum_f64 snd (hw_disks v)]> out))) in
  let out := fold_left (fun out ip => <["core:" +:+ itoa (Z.of_nat ip.1) := ip.2]> out) (imap pair (hw_per_core v)) out in
  let out := fold_left (fun out t => <["temp:" +:+ t_chip t +:+ "/" +:+ t_label t := t_celsius t]> out) (hw_temperatures v) out in
  fold_left (fun out f => <["fan:" +:+ f_chip f +:+ "/" +:+ f_label f := f64_of_int (f_rpm f)]> out) (hw_fans v) out.

Definition SummaryBudget : duration := (10 * second)%Z.
Definition appsListAllowance : duration := (4 * second)%Z.
Definition AppsBudget : duration := (SummaryBudget + appsListAllowance)%Z.
Definition HostBudget : duration := (5 * second)%Z.

(* ------------------------------------------------------------------ *)
(** ** The state and its operations *)

Inductive log_line := Failed (key : string) | Recovered (key : string) | FlushFailed.

#[global] Instance log_line_eq_dec : EqDecision log_line.
Proof. solve_decision. Defined.

Record Sampler := mkSampler {
  hist : Store;
  failing : gset string;
  logged : list log_line
}.

Definition NewSampler (s : Store) : Sampler := mkSampler s ∅ [].
Definition set_hist (h : Store) (s : Sampler) : Sampler := mkSampler h (failing s) (logged s).

Definition failed (key : string) (s : Sampler) : Sampler :=
  mkSampler (hist s) ({[ key ]} ∪ failing s) (logged s ++ if bool_decide (key ∈ failing s) then [] else [Failed key]).
Definition recovered (key : string) (s : Sampler) : Sampler :=
  mkSampler (hist s) (failing s ∖ {[ key ]}) (logged s ++ if bool_decide (key ∈ failing s) then [Recovered key] else []).

(** Whose failure is remembered. *)
Definition remembered (machines clusters : gset string) (key : string) : bool :=
  if bool_decide (key = "inventory") then true
  else match cut_prefix "cluster/" key with
       | Some id => bool_decide (id ∈ clusters)
       | None => retained machines clusters key
       end.

Definition forgetFailing (machines clusters : gset string) (s : Sampler) : Sampler :=
  mkSampler (hist s) (filter (fun key => remembered machines clusters key = true) (failing s)) (logged s).

(** What a goroutine does to the shared state, one lock at a time. *)
Inductive op :=
  | OFailed (key : string)
  | ORecovered (key : string)
  | ORecord (key : string) (at_ : time) (values : gmap string float64)
  | OSetApps (cluster : string) (names : list string).

Definition do_op (s : Sampler) (o : op) : Sampler :=
  match o with
  | OFailed key => failed key s
  | ORecovered key => recovered key s
  | ORecord key at_ values => set_hist (record key at_ values (hist s)) s
  | OSetApps cluster names => set_hist (SetApps cluster names (hist s)) s
  end.

Definition sampleMachine (at_ : time) (id : string) (view : result string HardwareView) : list op :=
  let key := MachineSubject id in
  match view with
  | Err _ => [OFailed key]
  | Ok v => [ORecovered key; ORecord key at_ (HardwareValues v)]
  end.

(** What the host's read comes to: [None] when the deadline passes first. *)
Definition sampleHost (at_ : time) (read : option (result string (gmap string float64))) : list op :=
  match read with
  | Some (Ok values) => [ORecovered HostSubject; ORecord HostSubject at_ values]
  | _ => [OFailed HostSubject]
  end.

Definition app_subject (id : string) (app : App) : string := AppSubject id (app_namespace app) (app_kind app) (app_name app).
Definition app_values (app : App) : gmap string float64 :=
  {[ "cpu" := f64_of_int (app_cpu_millis app); "memory" := f64_of_int (app_memory_bytes app) ]}.

Definition sampleCluster (at_ : time) (id : string) (read : result string (list App)) : list op :=
  let key := "cluster/" +:+ id in
  match read with
  | Err _ => [OFailed key]
  | Ok l =>
      [ORecovered key] ++
      omap (fun app => if app_usage_known app then Some (ORecord (app_subject id app) at_ (app_values app)) else None) l ++
      [OSetApps id (map (app_subject id) l)]
  end.

(* ------------------------------------------------------------------ *)
(** ** A round *)

(** An interleaving of goroutines: which of them goes on next, until all picks are
    used; what is left runs one after the other. *)
Fixpoint schedule {A} (picks : list nat) (threads : list (list A)) : list A :=
  match picks with
  | [] => concat threads
  | i :: picks =>
      match threads !! i with
      | Some (o :: t) => o :: schedule picks (<[i := t]> threads)
      | _ => schedule picks threads
      end
  end.

(** What a round meets: whether it has a host reader, what the reads return, how the
    goroutines interleave, and the time and the fate of the write after it. *)
Record Round := mkRound {
  rd_stopped : bool;
  rd_at : time;
  rd_host : option (option (result string (gmap string float64)));
  rd_inventory : result string (list Machine * list string);
  rd_hardware : string -> result string HardwareView;
  rd_apps : string -> result string (list App);
  rd_picks : list nat;
  rd_now : time;
  rd_written : bool
}.

Definition host_ops (r : Round) : list op := match rd_host r with Some read => sampleHost (rd_at r) read | None => [] end.

Definition sampled_machines (machines : list Machine) : list Machine := filter (fun m => m_cluster m <> "") machines.

Definition goroutines (r : Round) (machines : list Machine) (clusters : list string) : list (list op) :=
  map (fun m => sampleMachine (rd_at r) (m_id m) (rd_hardware r (m_id m))) (sampled_machines machines) ++
  map (fun c => sampleCluster (rd_at r) c (rd_apps r c)) clusters.

Definition ids (machines : list Machine) : gset string := list_to_set (map m_id machines).

Definition forget (r : Round) (machines : list Machine) (clusters : list string) (s : Sampler) : Sampler :=
  let live := list_to_set clusters in
  forgetFailing (ids machines) live (set_hist (Prune (rd_at r) (Retain (ids machines) live (hist s)).1).1 s).

Definition pass (r : Round) (s : Sampler) : Sampler :=
  if rd_stopped r then s
  else
    let s := fold_left do_op (host_ops r) s in
    match rd_inventory r with
    | Err _ => failed "inventory" s
    | Ok (machines, clusters) =>
        let s := forget r machines clusters (recovered "inventory" s) in
        fold_left do_op (schedule (rd_picks r) (goroutines r machines clusters)) s
    end.

(* ------------------------------------------------------------------ *)
(** ** The loop *)

(** The daemon: the sampler, the file, and when a write was tried. *)
Record Daemon := mkDaemon { sampler : Sampler; file : option bytes; tried : list time }.

Definition store_of (d : Daemon) : Store := hist (sampler d).

Definition flush_failed (s : Sampler) : Sampler := mkSampler (hist s) (failing s) (logged s ++ [FlushFailed]).

(** [Flush], with the write it makes succeeding or not. *)
Definition flush `{Gzip} (now : time) (written : bool) (d : Daemon) : Daemon :=
  let '(h, data) := flush_begin now (store_of d) in
  match data with
  | None => d
  | Some data =>
      let s := set_hist (flush_end written h) (sampler d) in
      if written then mkDaemon s (Some data) (tried d ++ [now]) else mkDaemon (flush_failed s) (file d) (tried d ++ [now])
  end.

Definition flush_if_due `{Gzip} (now : time) (written : bool) (d : Daemon) : Daemon :=
  if due now (store_of d) then flush now written d else d.

Definition round `{Gzip} (d : Daemon) (r : Round) : Daemon :=
  flush_if_due (rd_now r) (rd_written r) (mkDaemon (pass r (sampler d)) (file d) (tried d)).

(** [Run]: rounds until the context is done, and the last write. *)
Definition Run `{Gzip} (rounds : list Round) (now : time) (written : bool) (d : Daemon) : Daemon :=
  flush now written (fold_left round rounds d).

(** What [read] returns of the file, and the daemon that starts on it. *)
Definition read_file (f : option bytes) : result read_error bytes := match f with Some b => Ok b | None => Err ErrNotExist end.
Definition start `{Gzip} (f : option bytes) (now : time) : Daemon := mkDaemon (NewSampler (Open (read_file f) now).1) f [].

(* ------------------------------------------------------------------ *)
(** ** The cache of clients *)

Section Clients.
Context {Client Apps Error : Type}.

Record cached := mkCached { c_client : Client; c_at : time }.

Definition clientTTL : duration := (10 * minute)%Z.

(** One call of the function [KubeApps] returns: [t1], [t2] and [t3] are what the
    clock says when it asks. *)
Definition KubeApps (client : string -> result Error Client) (ask : Client -> time -> result Error Apps)
    (t1 t2 t3 : time) (cluster : string) (clients : gmap string cached) : result Error Apps * gmap string cached :=
  let entry :=
    match clients !! cluster with
    | Some e => if bool_decide (clientTTL < time_sub t1 (c_at e))%Z then None else Some e
    | None => None
    end in
  let minted :=
    match entry with
    | Some e => Ok (e, clients)
    | None => c ← client cluster; let e := mkCached c t2 in Ok (e, <[cluster := e]> clients)
    end in
  match minted with
  | Err e => (Err e, clients)
  | Ok (e, clients) =>
      match ask (c_client e) t3 with
      | Ok apps => (Ok apps, clients)
      | Err err => (Err err, delete cluster clients)
      end
  end.

End Clients.

(* ------------------------------------------------------------------ *)
(** ** Interleavings *)

(** What only one goroutine does is done in its order, whatever the interleaving. *)
Lemma filter_schedule {A} (P : A -> Prop) `{!forall x, Decision (P x)} picks (threads : list (list A)) j :
  (forall i t, threads !! i = Some t -> i <> j -> filter P t = []) ->
  filter P (schedule picks threads) = filter P (default [] (threads !! j)).
Proof.
  revert threads. induction picks as [|i picks IH]; intros threads Hj; cbn [schedule].
  - clear -Hj. revert j Hj. induction threads as [|t threads IH]; intros j Hj; [done|]. cbn [concat]. rewrite filter_app. destruct j as [|j]; cbn.
    + assert (E : filter P (concat threads) = []).
      { apply elem_of_nil_inv. intros x [Hp (u & Hx & Hu)%list_elem_of_In%in_concat]%list_elem_of_filter. apply list_elem_of_In, list_elem_of_lookup in Hx as [i Hi].
        specialize (Hj (S i) u Hi ltac:(done)). assert (Hx : x ∈ filter P u) by (apply list_elem_of_filter; split; [done|by apply list_elem_of_In]).
        rewrite Hj in Hx. by apply not_elem_of_nil in Hx. }
      by rewrite E, app_nil_r.
    + rewrite (Hj 0 t) by done. cbn. apply IH. intros i u Hi Hne. apply (Hj (S i)); [done|congruence].
  - destruct (threads !! i) as [[|o t]|] eqn:Ei; [by apply IH| |by apply IH]. pose proof (lookup_lt_Some _ _ _ Ei) as Hlt.
    assert (IHi : filter P (schedule picks (<[i:=t]> threads)) = filter P (default [] (<[i:=t]> threads !! j))).
    { apply IH. intros i' u Hu Hne. apply list_lookup_insert_Some in Hu as [(-> & <- & _)|[Hii Hu]]; [|by apply (Hj i')].
      specialize (Hj _ _ Ei Hne). rewrite filter_cons in Hj. by case_decide. }
    rewrite filter_cons, IHi. destruct (decide (i = j)) as [->|Hne].
    + rewrite list_lookup_insert_eq, Ei by done. change (default [] (Some (o :: t))) with (o :: t). rewrite filter_cons. by case_decide.
    + rewrite list_lookup_insert_ne by done. specialize (Hj _ _ Ei Hne). rewrite filter_cons in Hj. by case_decide.
Qed.

(* ------------------------------------------------------------------ *)
(** ** What a run does to one subject *)

Definition records (key : string) (o : op) : Prop := match o with ORecord k _ _ => k = key | _ => False end.
#[global] Instance records_dec key o : Decision (records key o).
Proof. destruct o; unfold records; apply _. Defined.

(** A round acts on a subject by values recorded and by the age limit. *)
Inductive event := Recorded (at_ : time) (values : gmap string float64) | Aged (at_ : time).

Definition on_subject (o : option subject) (e : event) : option subject :=
  match e with
  | Recorded at_ values =>
      if bool_decide (values = ∅) then o else Some (record_subject at_ values (default (mkSubject zero_time ∅) o))
  | Aged at_ => sub ← o; if heard_within at_ sub then Some sub else None
  end.

Definition subject_in (key : string) (s : Sampler) : option subject := subjects (hist s) !! key.

Definition op_event (o : op) : list event := match o with ORecord _ at_ values => [Recorded at_ values] | _ => [] end.

Lemma record_subject_in key at_ values s : subjects (record key at_ values s) !! key = on_subject (subjects s !! key) (Recorded at_ values).
Proof. unfold record, on_subject. case_bool_decide; [done|]. unfold set_dirty, set_subjects. cbn [subjects]. by rewrite lookup_insert_eq. Qed.

Lemma do_op_subject key o s :
  subject_in key (do_op s o) = if decide (records key o) then fold_left on_subject (op_event o) (subject_in key s) else subject_in key s.
Proof.
  destruct o as [k|k|k at_ values|c names]; try (by case_decide). cbn [do_op op_event fold_left]. unfold subject_in. cbn [set_hist hist].
  destruct (decide (records key _)) as [Hk|Hk]; cbn in Hk; [subst k; apply record_subject_in|]. apply record_subjects. congruence.
Qed.

Lemma ops_subject key ops s :
  subject_in key (fold_left do_op ops s) = fold_left on_subject (concat (map op_event (filter (records key) ops))) (subject_in key s).
Proof.
  revert s. induction ops as [|o ops IH]; intros s; [done|]. cbn [fold_left]. rewrite IH, do_op_subject, filter_cons. case_decide; [|done].
  cbn [map concat]. by rewrite fold_left_app.
Qed.

(** The subjects whose history depends on no other read: the host and the nodes. *)
Inductive watched := TheHost | Node (id : string).
Definition key_of (w : watched) : string := match w with TheHost => HostSubject | Node id => MachineSubject id end.

Definition in_cluster (id : string) (machines : list Machine) : Prop := exists m, m ∈ machines /\ m_id m = id /\ m_cluster m <> "".
#[global] Instance in_cluster_dec id machines : Decision (in_cluster id machines).
Proof.
  destruct (decide (Exists (fun m => m_id m = id /\ m_cluster m <> "") machines)) as [H|H]; [left|right].
  - apply Exists_exists in H as (m & Hm & H). by exists m.
  - intros (m & Hm & Hi). apply H, Exists_exists. by exists m.
Defined.

(** What a round read of it, if it answered. *)
Definition answer (w : watched) (r : Round) : option sample :=
  if rd_stopped r then None
  else match w with
       | TheHost => match rd_host r with Some (Some (Ok values)) => Some (mkSample HostSubject (rd_at r) values) | _ => None end
       | Node id =>
           match rd_inventory r with
           | Ok (machines, _) =>
               if decide (in_cluster id machines) then
                 match rd_hardware r id with Ok v => Some (mkSample (MachineSubject id) (rd_at r) (HardwareValues v)) | Err _ => None end
               else None
           | Err _ => None
           end
       end.

(** The inventory, where it can be read, lists every machine once, and this one. *)
Definition listed (w : watched) (r : Round) : Prop :=
  match rd_inventory r with
  | Ok (machines, _) => NoDup (map m_id machines) /\ match w with Node id => id ∈ ids machines | TheHost => True end
  | Err _ => True
  end.

Definition aged_by (r : Round) : list event := match rd_inventory r with Ok _ => [Aged (rd_at r)] | Err _ => [] end.
Definition answer_event (x : option sample) : list event := match x with Some x => [Recorded (s_at x) (s_values x)] | None => [] end.

Definition round_events (w : watched) (r : Round) : list event :=
  if rd_stopped r then []
  else match w with TheHost => answer_event (answer w r) ++ aged_by r | Node _ => aged_by r ++ answer_event (answer w r) end.

Lemma filter_no {A} (P : A -> Prop) `{!forall x, Decision (P x)} l : Forall (fun x => ~ P x) l -> filter P l = [].
Proof. induction 1 as [|x l Hx _ IH]; [done|]. rewrite filter_cons. by case_decide. Qed.

Lemma cluster_records w at_ c read : filter (records (key_of w)) (sampleCluster at_ c read) = [].
Proof.
  apply filter_no. destruct read as [l|e]; [|by repeat constructor; intros []]. unfold sampleCluster.
  apply Forall_app. split; [by repeat constructor; intros []|]. apply Forall_app. split; [|by repeat constructor; intros []].
  apply Forall_forall. intros o (app & _ & Ho)%list_elem_of_omap. destruct (app_usage_known app); [|done]. injection Ho as <-.
  destruct w; intros Hk; done.
Qed.

Lemma machine_records w at_ m view :
  filter (records (key_of w)) (sampleMachine at_ m view) =
  match w, view with
  | Node id, Ok v => if decide (id = m) then [ORecord (MachineSubject m) at_ (HardwareValues v)] else []
  | _, _ => []
  end.
Proof.
  destruct w as [|id], view as [v|e]; unfold sampleMachine.
  - apply filter_no. repeat constructor; intros H; done.
  - apply filter_no. repeat constructor; intros H; done.
  - rewrite filter_cons, decide_False by (intros []). rewrite filter_cons. destruct (decide (id = m)) as [->|Hne].
    + by rewrite decide_True.
    + rewrite decide_False; [done|]. cbn. unfold MachineSubject. intros [=]. done.
  - apply filter_no. repeat constructor; intros H; done.
Qed.

(** What the goroutines of a round record of a watched subject: its answer. *)
Lemma goroutines_records w r machines clusters :
  rd_inventory r = Ok (machines, clusters) -> listed w r ->
  concat (map op_event (filter (records (key_of w)) (schedule (rd_picks r) (goroutines r machines clusters)))) =
  match w with
  | TheHost => []
  | Node id => if decide (in_cluster id machines) then
                 match rd_hardware r id with Ok v => [Recorded (rd_at r) (HardwareValues v)] | Err _ => [] end
               else []
  end.
Proof.
  intros Einv Hl. unfold listed in Hl. rewrite Einv in Hl. destruct Hl as [Hnd _]. set (ms := sampled_machines machines).
  assert (Hnd' : NoDup (map m_id ms)) by (eapply sublist_NoDup; [exact Hnd|apply (fmap_sublist m_id), sublist_filter]).
  assert (Hthread : forall i t, goroutines r machines clusters !! i = Some t ->
    (exists m, ms !! i = Some m /\ t = sampleMachine (rd_at r) (m_id m) (rd_hardware r (m_id m))) \/ filter (records (key_of w)) t = []).
  { intros i t Ht. unfold goroutines in Ht. fold ms in Ht. apply lookup_app_Some in Ht as [Ht|[_ Ht]].
    - left. apply list_lookup_fmap_Some in Ht as (m & -> & Hm). eauto.
    - right. apply list_lookup_fmap_Some in Ht as (c & -> & _). apply cluster_records. }
  assert (Hnone : (forall i m, ms !! i = Some m -> forall id, w = Node id -> m_id m <> id) ->
    filter (records (key_of w)) (schedule (rd_picks r) (goroutines r machines clusters)) = []).
  { intros Hno. rewrite (filter_schedule _ _ _ (length (goroutines r machines clusters))), lookup_ge_None_2; [done|done|].
    intros i t Ht _. destruct (Hthread i t Ht) as [(m & Hm & ->)|E]; [|done]. rewrite machine_records. destruct w as [|id]; [done|].
    destruct (rd_hardware r (m_id m)); [|done]. rewrite decide_False; [done|]. intros E. by apply (Hno i m Hm id). }
  destruct w as [|id]; [by rewrite Hnone|]. case_decide as Hin.
  - destruct Hin as (m & Hm & Hid & Hc). assert (Hm' : m ∈ ms) by (apply list_elem_of_filter; done). apply list_elem_of_lookup in Hm' as [j Hj].
    rewrite (filter_schedule _ _ _ j).
    + assert (Et : goroutines r machines clusters !! j = Some (sampleMachine (rd_at r) (m_id m) (rd_hardware r (m_id m)))).
      { unfold goroutines. fold ms. rewrite lookup_app_l by (rewrite length_map; by eapply lookup_lt_Some). by rewrite list_lookup_fmap, Hj. }
      rewrite Et. match goal with |- context [default [] (Some ?x)] => change (default [] (Some x)) with x end.
      rewrite machine_records, Hid. destruct (rd_hardware r id); [|done]. by rewrite decide_True.
    + intros i t Ht Hne. destruct (Hthread i t Ht) as [(m' & Hm' & ->)|E]; [|done]. rewrite machine_records.
      destruct (rd_hardware r (m_id m')); [|done]. rewrite decide_False; [done|]. intros E. apply Hne.
      apply (NoDup_lookup (map m_id ms) i j (m_id m')); [done|by rewrite list_lookup_fmap, Hm'|rewrite list_lookup_fmap, Hj; cbn; congruence].
  - rewrite Hnone; [done|]. intros i m Hm id' [= <-] E. apply Hin. exists m. apply list_elem_of_lookup_2, list_elem_of_filter in Hm. naive_solver.
Qed.

Lemma forget_subject w r machines clusters s :
  (forall id, w = Node id -> id ∈ ids machines) ->
  subject_in (key_of w) (forget r machines clusters s) = on_subject (subject_in (key_of w) s) (Aged (rd_at r)).
Proof.
  intros Hid. unfold forget, subject_in. cbn [forgetFailing set_hist hist]. unfold Prune. rewrite (proj1 (keep_subjects_spec _ _ _)).
  assert (E : subjects (Retain (ids machines) (list_to_set clusters) (hist s)).1 !! key_of w = subjects (hist s) !! key_of w).
  { pose proof (keep_subjects_spec (fun key _ => retained (ids machines) (list_to_set clusters) key) (hist s) (key_of w)) as [H _].
    unfold Retain. destruct (keep_subjects _ (hist s)) as [s' n]. cbn [fst subjects] in *. rewrite H.
    destruct (retained_keys (ids machines) (list_to_set clusters)) as (H1 & H2 & _).
    assert (Hr : retained (ids machines) (list_to_set clusters) (key_of w) = true).
    { destruct w as [|id]; [done|]. cbn [key_of]. rewrite H2. apply bool_decide_eq_true. by apply Hid. }
    rewrite Hr. by destruct (subjects (hist s) !! key_of w). }
  rewrite E. cbn [on_subject]. by destruct (subjects (hist s) !! key_of w).
Qed.

Lemma host_records w r : concat (map op_event (filter (records (key_of w)) (host_ops r))) =
  match w with TheHost => match rd_host r with Some (Some (Ok values)) => [Recorded (rd_at r) values] | _ => [] end | Node _ => [] end.
Proof. unfold host_ops. destruct (rd_host r) as [[[values|e]|]|], w; try done. Qed.

Lemma pass_subject w r s : listed w r ->
  subject_in (key_of w) (pass r s) = fold_left on_subject (round_events w r) (subject_in (key_of w) s).
Proof.
  intros Hl. unfold pass, round_events. destruct (rd_stopped r) eqn:Es; [done|]. set (s1 := fold_left do_op (host_ops r) s).
  assert (E1 : subject_in (key_of w) s1 = fold_left on_subject
    (match w with TheHost => match rd_host r with Some (Some (Ok values)) => [Recorded (rd_at r) values] | _ => [] end | Node _ => [] end)
    (subject_in (key_of w) s)) by (unfold s1; by rewrite ops_subject, host_records).
  unfold aged_by, answer. rewrite Es. destruct (rd_inventory r) as [[machines clusters]|e] eqn:Einv.
  - rewrite ops_subject, goroutines_records, forget_subject by (done || (unfold listed in Hl; rewrite Einv in Hl; intros id ->; apply Hl)).
    change (subject_in (key_of w) (recovered "inventory" s1)) with (subject_in (key_of w) s1). rewrite E1.
    destruct w as [|id]; cbn [fold_left]; [|rewrite fold_left_app; cbn [fold_left]].
    + rewrite fold_left_app. destruct (rd_host r) as [[[values|e]|]|]; reflexivity.
    + destruct (decide (in_cluster id machines)); [|done]. by destruct (rd_hardware r id).
  - change (subject_in (key_of w) (failed "inventory" s1)) with (subject_in (key_of w) s1). rewrite E1.
    destruct w as [|id]; [|done]. rewrite app_nil_r. destruct (rd_host r) as [[[values|e']|]|]; reflexivity.
Qed.

(* ------------------------------------------------------------------ *)
(** ** What is logged *)

Definition about (key : string) (l : log_line) : Prop := l = Failed key \/ l = Recovered key.
#[global] Instance about_dec key l : Decision (about key l).
Proof. unfold about. apply _. Defined.

(** Lines that say failed and recovered in turn; the last says whether it fails now. *)
Fixpoint in_turn (down : bool) (l : list log_line) : option bool :=
  match l with
  | [] => Some down
  | Failed _ :: l => if down then None else in_turn true l
  | Recovered _ :: l => if down then in_turn false l else None
  | FlushFailed :: _ => None
  end.

Definition logged_in_turn (key : string) (s : Sampler) : Prop :=
  in_turn false (filter (about key) (logged s)) = Some (bool_decide (key ∈ failing s)).

Lemma in_turn_app d l1 l2 : in_turn d (l1 ++ l2) = in_turn d l1 ≫= fun d' => in_turn d' l2.
Proof.
  revert d. induction l1 as [|[k|k|] l1 IH]; intros d; [done|..]; cbn [app in_turn mbind option_bind]; [| |done].
  - destruct d; [done|apply IH].
  - destruct d; [apply IH|done].
Qed.

Lemma failed_in_turn key k s : logged_in_turn key s -> logged_in_turn key (failed k s).
Proof.
  unfold logged_in_turn, failed. cbn [logged failing]. intros H. rewrite filter_app, in_turn_app, H. cbn [mbind option_bind].
  destruct (decide (k = key)) as [->|Hne].
  - rewrite (bool_decide_true (key ∈ {[key]} ∪ _)) by set_solver. case_bool_decide as Hin; [by cbn|]. rewrite filter_cons, decide_True by (by left). by cbn.
  - rewrite (bool_decide_ext (key ∈ {[k]} ∪ failing s) (key ∈ failing s)) by set_solver. destruct (bool_decide (k ∈ failing s)); [by cbn|].
    rewrite filter_cons, decide_False; [by cbn|]. unfold about. intros [?|?]; congruence.
Qed.

Lemma recovered_in_turn key k s : logged_in_turn key s -> logged_in_turn key (recovered k s).
Proof.
  unfold logged_in_turn, recovered. cbn [logged failing]. intros H. rewrite filter_app, in_turn_app, H. cbn [mbind option_bind].
  destruct (decide (k = key)) as [->|Hne].
  - rewrite (bool_decide_false (key ∈ _ ∖ {[key]})) by set_solver. case_bool_decide as Hin; [|by cbn]. rewrite filter_cons, decide_True by (by right). by cbn.
  - rewrite (bool_decide_ext (key ∈ failing s ∖ {[k]}) (key ∈ failing s)) by set_solver. destruct (bool_decide (k ∈ failing s)); [|by cbn].
    rewrite filter_cons, decide_False; [by cbn|]. unfold about. intros [?|?]; congruence.
Qed.

Lemma ops_in_turn key ops s : logged_in_turn key s -> logged_in_turn key (fold_left do_op ops s).
Proof.
  revert s. induction ops as [|o ops IH]; intros s H; [done|]. cbn [fold_left]. apply IH.
  destruct o; cbn [do_op]; [by apply failed_in_turn|by apply recovered_in_turn|done|done].
Qed.

Lemma forget_in_turn key r machines clusters s :
  remembered (ids machines) (list_to_set clusters) key = true -> logged_in_turn key s -> logged_in_turn key (forget r machines clusters s).
Proof.
  intros Hr H. unfold logged_in_turn in *. unfold forget. cbn [forgetFailing logged failing set_hist]. rewrite H. f_equal.
  apply bool_decide_ext. rewrite elem_of_filter. tauto.
Qed.

(** A failing subject is logged once when it starts failing and once when it answers
    again, as long as it is not forgotten. *)
Lemma failures_logged_once key r s :
  (forall machines clusters, rd_inventory r = Ok (machines, clusters) -> remembered (ids machines) (list_to_set clusters) key = true) ->
  logged_in_turn key s -> logged_in_turn key (pass r s).
Proof.
  intros Hr H. unfold pass. destruct (rd_stopped r); [done|]. destruct (rd_inventory r) as [[machines clusters]|e].
  - apply ops_in_turn, forget_in_turn; [by apply Hr|]. by apply recovered_in_turn, ops_in_turn.
  - by apply failed_in_turn, ops_in_turn.
Qed.

(** Sensors of the same chip and label, as those of two drives of one model without a
    serial number, share a series: the last of them is recorded. *)
Example same_name_last_reading :
  let t c := mkTemperature "nvme" "Samsung SSD 980 Composite" (f64_of_int c) in
  HardwareValues (mkHardwareView f64_zero [] 0 0 [] [] [t 40; t 60]%Z []) !! "temp:nvme/Samsung SSD 980 Composite" = Some (f64_of_int 60).
Proof. vm_compute. reflexivity. Qed.

(* ------------------------------------------------------------------ *)
(** ** The age of a client *)

Section ClientAge.
Context {Client Apps Error : Type} (client : string -> result Error Client) (ask : Client -> time -> result Error Apps).

(** Apps are read with a client minted for the cluster now, or kept for no longer than
    [clientTTL]; after a failed read no client of the cluster is kept. *)
Lemma KubeApps_spec t1 t2 t3 cluster clients :
  let '(r, clients') := KubeApps client ask t1 t2 t3 cluster clients in
  (forall apps, r = Ok apps -> exists e, clients' !! cluster = Some e /\ ask (c_client e) t3 = Ok apps /\
     ((clients !! cluster = Some e /\ (time_sub t1 (c_at e) <= clientTTL)%Z) \/ (client cluster = Ok (c_client e) /\ c_at e = t2))) /\
  (forall err e, r = Err err -> clients' !! cluster = Some e -> client cluster = Err err /\ (clientTTL < time_sub t1 (c_at e))%Z) /\
  (forall c, c <> cluster -> clients' !! c = clients !! c).
Proof.
  unfold KubeApps. set (fresh := match clients !! cluster with Some e => _ | None => None end).
  assert (Hf : match fresh with
               | Some e => clients !! cluster = Some e /\ (time_sub t1 (c_at e) <= clientTTL)%Z
               | None => forall e, clients !! cluster = Some e -> (clientTTL < time_sub t1 (c_at e))%Z
               end).
  { unfold fresh. destruct (clients !! cluster) as [e|]; [|done]. case_bool_decide as Ht; [by intros ? [= <-]|]. split; [done|]. lia. }
  clearbody fresh. destruct fresh as [e|].
  - destruct Hf as [He Ht]. destruct (ask (c_client e) t3) as [apps|err] eqn:Ea; split_and!; try done.
    + intros ? [= <-]. exists e. naive_solver.
    + intros err' e' _ Hd. by rewrite lookup_delete_eq in Hd.
    + intros c Hc. by rewrite lookup_delete_ne.
  - destruct (client cluster) as [c|err] eqn:Ec; cbn [mbind result_bind].
    + cbn [c_client]. destruct (ask c t3) as [apps|err] eqn:Ea; split_and!; try done.
      * intros ? [= <-]. exists (mkCached c t2). rewrite lookup_insert_eq. naive_solver.
      * intros c' Hc. by rewrite lookup_insert_ne.
      * intros err' e' _ Hd. by rewrite lookup_delete_eq in Hd.
      * intros c' Hc. by rewrite lookup_delete_ne, lookup_insert_ne.
    + split_and!; [done| |done]. intros err' e [= <-] He. split; [done|]. by apply Hf.
Qed.

End ClientAge.
