(* ===== verification/SamplerCharts.v ===== *)
(** * Charts over the lives of the daemon

    What the sampler, the store and its file keep together: over rounds, clean stops,
    crashes and starts, a chart of a node or the host is the chart of its readings. *)

From S2P Require Import Prelude GoText GoFloat History HistoryFile Sampler.

(* ------------------------------------------------------------------ *)
(** ** A series tracks its readings

    What follows holds of a store that has been kept, aged, written and read back: in
    the window of its rings a series has what the readings say. *)

Record series_tracks (l : list (Z * float32)) (t : time) (ser : series) : Prop := {
  tr_slots : slots_of (fine ser) = 240%Z /\ slots_of (coarse ser) = 1440%Z;
  tr_heads : (head (fine ser) <= fine_slot t)%Z /\ (head (coarse ser) <= coarse_slot t)%Z;
  tr_past : Forall (fun p => p.1 <= fine_slot t)%Z l;
  tr_fine : forall s, (fine_slot t - 240 < s)%Z -> at_slot (fine ser) s = default nan (latest l s);
  tr_coarse : forall m, (coarse_slot t - 1440 < m)%Z -> at_slot (coarse ser) m = default nan (minute_mean l m)
}.

(** A reading no chart can reach any more. *)
Definition out_of_reach (t : time) (p : Z * float32) : Prop := (p.1 / finePerCoarse <= coarse_slot t - 1440)%Z.
#[global] Instance out_of_reach_dec t p : Decision (out_of_reach t p).
Proof. unfold out_of_reach. apply _. Defined.

Lemma at_slot_new n s : 0 < n -> at_slot (newRing n) s = nan.
Proof. intros Hn. change (newRing n) with (ring_of n []). rewrite ring_of_at by done. by case_decide. Qed.

Lemma fine_beyond t s : (fine_slot t - 240 < s)%Z -> (coarse_slot t - 1440 < s / finePerCoarse)%Z.
Proof.
  intros H. rewrite <- minute_of_slot. change finePerCoarse with 4%Z. pose proof (Z.div_mod (fine_slot t) 4 ltac:(lia)).
  pose proof (Z.mod_pos_bound (fine_slot t) 4 ltac:(lia)). pose proof (Z.div_mod s 4 ltac:(lia)). pose proof (Z.mod_pos_bound s 4 ltac:(lia)). lia.
Qed.

Lemma tracks_nothing l t : (unix_epoch <= t)%Z -> Forall (fun p => p.1 <= fine_slot t)%Z l -> Forall (out_of_reach t) l -> series_tracks l t newSeries.
Proof.
  intros Ht Hp Ho. rewrite Forall_forall in Ho. unfold out_of_reach in Ho. pose proof (coarse_below_fine t Ht).
  split; [done|cbn; lia|done| |].
  - intros s Hs%fine_beyond. rewrite (at_slot_new FineSlots) by (pose proof fine_slots; lia). rewrite latest_None; [done|]. intros p Hp' <-. apply Ho in Hp'. cbn in Hp'. lia.
  - intros m Hm. rewrite (at_slot_new CoarseSlots) by (pose proof coarse_slots; lia). rewrite minute_mean_None; [done|]. intros p Hp' <-. apply Ho in Hp'. cbn in Hp'. lia.
Qed.

Lemma tracks_later l t u ser : series_tracks l t ser -> (t <= u)%Z -> series_tracks l u ser.
Proof.
  intros [H1 [H2 H2'] H3 H4 H5] Htu. pose proof (fine_slot_mono t u Htu). pose proof (coarse_slot_mono t u Htu). split; [done|lia| | |].
  - eapply Forall_impl; [exact H3|]. cbn. intros p ?. lia.
  - intros s Hs. apply H4. lia.
  - intros m Hm. apply H5. lia.
Qed.

Lemma tracks_recorded l t u ser p :
  series_tracks l t ser -> (t <= u)%Z -> p.1 = fine_slot u -> Forall sound (l ++ [p]) ->
  series_tracks (l ++ [p]) u (record_in p.1 (floorDiv p.1 finePerCoarse) p.2 ser).
Proof.
  intros Htr Htu Hp Hs. destruct (tracks_later _ _ _ _ Htr Htu) as [[H1 H1'] [H2 H2'] H3 H4 H5]. rewrite floorDiv_spec by done.
  rewrite Hp, minute_of_slot in *. unfold record_in. set (r := put (fine_slot u) p.2 (fine ser)).
  assert (Hr : forall s, (fine_slot u - 240 < s)%Z -> at_slot r s = default nan (latest (l ++ [p]) s)).
  { intros s Hlow. unfold r. rewrite put_at, H1, Z.max_r by lia. rewrite latest_snoc, Hp. case_decide as Hw; unfold in_window in Hw.
    - case_decide as E; [subst s; by rewrite bool_decide_true|]. rewrite bool_decide_false by congruence. by apply H4.
    - rewrite bool_decide_false by lia. rewrite <- (H4 s) by done. unfold at_slot. by rewrite bool_decide_true by lia. }
  destruct (average_of r (l ++ [p]) p Hs ltac:(set_solver)) as (avg & A1 & A2 & A3).
  { intros s Hm%in_minute. apply Hr. rewrite Hp, minute_of_slot, <- minute_of_slot in Hm. change finePerCoarse with 4%Z in Hm.
    pose proof (Z.div_mod (fine_slot u) 4 ltac:(lia)). pose proof (Z.mod_pos_bound (fine_slot u) 4 ltac:(lia)).
    pose proof (Z.div_mod s 4 ltac:(lia)). pose proof (Z.mod_pos_bound s 4 ltac:(lia)). lia. }
  rewrite Hp, minute_of_slot in A1, A3. rewrite A3, A2. split; cbn [fine coarse].
  - unfold r. by rewrite !put_slots.
  - unfold r. rewrite !put_head. lia.
  - apply Forall_app. split; [done|]. rewrite Forall_singleton. lia.
  - done.
  - intros m Hm. rewrite put_at, H1', Z.max_r by lia. case_decide as Hw; unfold in_window in Hw.
    + case_decide as E; [subst m; by rewrite A1|]. rewrite minute_mean_snoc by (rewrite Hp, minute_of_slot; congruence). by apply H5.
    + rewrite minute_mean_snoc by (rewrite Hp, minute_of_slot; lia). rewrite <- (H5 m) by done. unfold at_slot. by rewrite bool_decide_true by lia.
Qed.

Lemma reload_series_default nowE nowD ser :
  default newSeries (reload_series nowE nowD ser) =
  mkSeries (ring_of FineSlots (kept_values (fine ser) (fine_slot nowE) (fine_slot nowD)))
    (ring_of CoarseSlots (kept_values (coarse ser) (coarse_slot nowE) (coarse_slot nowD))).
Proof.
  unfold reload_series. destruct (bool_decide _ && bool_decide _) eqn:E; [|done].
  apply andb_true_iff in E as [->%bool_decide_eq_true ->%bool_decide_eq_true]. done.
Qed.

Lemma reload_new nowE nowD : reload_series nowE nowD newSeries = None.
Proof.
  assert (E : forall n a b, 0 < n -> kept_values (newRing n) a b = []).
  { intros n a b Hn. apply elem_of_nil_inv. intros p (s & _ & Hp)%list_elem_of_omap. apply pick_spec in Hp as (_ & _ & Hp). by rewrite at_slot_new in Hp. }
  unfold reload_series. cbn [newSeries fine coarse]. rewrite !E by (pose proof fine_slots; pose proof coarse_slots; lia). done.
Qed.

Lemma kept_head n r nowE nowD : (0 <= nowE <= nowD)%Z -> (head (ring_of n (kept_values r nowE nowD)) <= nowD)%Z.
Proof.
  intros Hn. destruct (ring_of_head n (kept_values r nowE nowD)) as (_ & _ & [->|(p & (s & Hs & Hp)%list_elem_of_omap & <-)]); [lia|].
  apply pick_spec in Hp as (-> & Hp & _). cbn. lia.
Qed.

Lemma tracks_reloaded l t u ser :
  series_ok ser -> series_tracks l t ser -> (unix_epoch <= t <= u)%Z -> series_tracks l u (default newSeries (reload_series t u ser)).
Proof.
  intros [Hf Hc] [_ _ H3 H4 H5] [Ht Hu]. rewrite reload_series_default. pose proof (fine_slot_nonneg t Ht). pose proof (coarse_below_fine t Ht).
  pose proof (fine_slot_mono t u Hu). pose proof (coarse_slot_mono t u Hu). split; cbn [fine coarse].
  - by rewrite !ring_of_slots.
  - split; apply kept_head; lia.
  - eapply Forall_impl; [exact H3|]. cbn. intros p ?. lia.
  - intros s Hs. rewrite (kept_at FineSlots) by (done || lia || (pose proof fine_slots; lia)). rewrite fine_slots. case_decide; [apply H4; lia|].
    rewrite latest_None; [done|]. intros p Hp <-. rewrite Forall_forall in H3. apply H3 in Hp. cbn in Hp. lia.
  - intros m Hm. rewrite (kept_at CoarseSlots) by (done || lia || (pose proof coarse_slots; lia)). rewrite coarse_slots. case_decide; [apply H5; lia|].
    rewrite minute_mean_None; [done|]. intros p Hp <-. rewrite Forall_forall in H3. apply H3 in Hp. cbn in Hp.
    enough (p.1 / finePerCoarse <= coarse_slot t)%Z by lia. rewrite <- minute_of_slot. by apply Z.div_le_mono.
Qed.

Lemma tracks_view r l t ser now : series_tracks l t ser -> (t <= now)%Z -> Forall sound l -> view_points r now ser = chart r now l.
Proof.
  intros Htr Ht Hs. destruct (tracks_later _ _ _ _ Htr Ht) as [_ _ _ H4 H5]. apply view_points_chart. intros slot Hw.
  destruct (window_bounds r now) as [W1 W2]. unfold ring_for. destruct (tier r).1.1; cbv zeta.
  - split; [apply H4; lia|]. intros v Hv%latest_elem. rewrite Forall_forall in Hs. apply Hs in Hv as [_ Hv]. by destruct v.
  - split; [apply H5; lia|]. intros v Hv.
    destruct (decide (Exists (fun p => p.1 / finePerCoarse = slot)%Z l)) as [(p & Hp & <-)%Exists_exists|Hno].
    + destruct (minute_mean_number l p Hs Hp) as (avg & E & Hn & _). congruence.
    + rewrite minute_mean_None in Hv; [done|]. intros p Hp E. apply Hno, Exists_exists. by exists p.
Qed.

(** The same of a subject, which is deleted only when no chart can reach back to a
    reading of it. *)
Definition series_at (o : option subject) (name : string) : series := default newSeries (o ≫= fun sub => all_series sub !! name).

Definition tracks (key : string) (log : list sample) (t : time) (o : option subject) : Prop :=
  forall name, let l := readings key name log in
    series_tracks l t (series_at o name) /\
    forall p, p ∈ l -> out_of_reach t p \/ exists sub, o = Some sub /\ (p.1 <= fine_slot (seen sub))%Z.

Definition sound_log (key : string) (log : list sample) : Prop := forall name, Forall sound (readings key name log).

Lemma out_of_reach_later t u p : (t <= u)%Z -> out_of_reach t p -> out_of_reach u p.
Proof. intros Htu. unfold out_of_reach. pose proof (coarse_slot_mono t u Htu). lia. Qed.

Lemma readings_snoc key name log x : readings key name (log ++ [x]) = readings key name log ++ match reading key name x with Some p => [p] | None => [] end.
Proof. unfold readings. rewrite omap_app. cbn [omap list_omap]. by destruct (reading key name x). Qed.

Lemma tracks_subject_later key log t u o : tracks key log t o -> (t <= u)%Z -> tracks key log u o.
Proof.
  intros H Htu name. destruct (H name) as [H1 H2]. split; [by eapply tracks_later|]. intros p Hp. destruct (H2 p Hp) as [Ho|Hs]; [left|by right].
  by eapply out_of_reach_later.
Qed.

Lemma tracks_on_recorded key log t u values o :
  tracks key log t o -> (t <= u)%Z -> sound_log key (log ++ [mkSample key u values]) ->
  tracks key (log ++ [mkSample key u values]) u (on_subject o (Recorded u values)).
Proof.
  intros Htr Htu Hs name. specialize (Hs name). rewrite readings_snoc in *. destruct (Htr name) as [H1 H2]. cbv zeta.
  unfold on_subject. case_bool_decide as He.
  { subst values. unfold reading in *. cbn [s_key s_values] in *. rewrite lookup_empty in *. destruct (bool_decide (key = key)); rewrite app_nil_r in *.
    all: split; [by eapply tracks_later|]; intros p Hp; destruct (H2 p Hp) as [Ho|?]; [left; by eapply out_of_reach_later|by right]. }
  set (sub := default (mkSubject zero_time ∅) o). set (sub' := record_subject u values sub).
  assert (Eold : series_at o name = default newSeries (all_series sub !! name)).
  { unfold series_at, sub. by destruct o. }
  assert (Eser : series_at (Some sub') name = match reading key name (mkSample key u values) with
    | Some p => record_in p.1 (floorDiv p.1 finePerCoarse) p.2 (series_at o name) | None => series_at o name end).
  { rewrite Eold. unfold series_at, sub', reading. cbn [mbind option_bind record_subject all_series s_key s_at s_values].
    rewrite bool_decide_true by done. rewrite record_values_lookup. destruct (values !! name) as [v|]; [|done]. by destruct (isNaN v || isInf v). }
  assert (Hseen : (u <= seen sub')%Z /\ (seen sub <= seen sub')%Z) by (cbn [sub' record_subject seen]; case_bool_decide; lia).
  split.
  - rewrite Eser. destruct (reading key name _) as [p|] eqn:Er; [|rewrite app_nil_r; by eapply tracks_later].
    eapply tracks_recorded; [done|done| |done]. by apply reading_spec in Er as (_ & -> & _).
  - intros p [Hp|Hp]%elem_of_app.
    + destruct (H2 p Hp) as [Ho|(s0 & -> & Hle)]; [left; by eapply out_of_reach_later|]. right. exists sub'. split; [done|].
      etransitivity; [exact Hle|]. apply fine_slot_mono. apply Hseen.
    + right. exists sub'. split; [done|]. destruct (reading key name _) as [q|] eqn:Er; [|by apply not_elem_of_nil in Hp].
      apply list_elem_of_singleton in Hp as ->. apply reading_spec in Er as (_ & -> & _). apply fine_slot_mono. apply Hseen.
Qed.

Lemma day_of_slots t u : (t + Retention < u)%Z -> (coarse_slot t <= coarse_slot u - 1440)%Z.
Proof.
  intros H. assert (E : forall v, coarse_slot v = ((v - unix_epoch) / minute)%Z).
  { intros v. unfold coarse_slot, unix_milli. rewrite floorDiv_spec by done. by rewrite Z.div_div by done. }
  rewrite !E. apply Z.le_add_le_sub_r. rewrite <- Z.div_add by done. apply Z.div_le_mono; [done|]. change (1440 * minute)%Z with Retention. lia.
Qed.

Lemma tracks_on_aged key log t u o :
  tracks key log t o -> (unix_epoch <= t <= u)%Z -> tracks key log u (on_subject o (Aged u)).
Proof.
  intros Htr [Ht Htu]. cbn [on_subject]. destruct o as [sub|]; [|by eapply tracks_subject_later]. cbn [mbind option_bind].
  destruct (heard_within u sub) eqn:Eh; [by eapply tracks_subject_later|]. intros name. destruct (Htr name) as [H1 H2]. cbv zeta.
  unfold heard_within in Eh. apply negb_false_iff, bool_decide_eq_true, lt_time_sub in Eh; [|done].
  assert (Hall : Forall (out_of_reach u) (readings key name log)).
  { apply Forall_forall. intros p Hp. destruct (H2 p Hp) as [Ho|(sub' & [= <-] & Hle)]; [by eapply out_of_reach_later|].
    unfold out_of_reach. etransitivity; [|apply (day_of_slots (seen sub)); lia]. rewrite <- minute_of_slot. by apply Z.div_le_mono. }
  split; [|intros p Hp; left; by rewrite Forall_forall in Hall; apply Hall].
  apply tracks_nothing; [lia| |done]. apply (tr_past _ _ _ (tracks_later _ _ _ _ H1 Htu)).
Qed.

Lemma tracks_on_reloaded key log t u o :
  (forall sub, o = Some sub -> map_Forall (fun _ ser => series_ok ser) (all_series sub)) ->
  tracks key log t o -> (unix_epoch <= t <= u)%Z -> sound_log key log -> tracks key log u (o ≫= reload_subject t u).
Proof.
  intros Hok Htr Ht Hs name. destruct (Htr name) as [H1 H2]. cbv zeta. set (l := readings key name log) in *.
  assert (Hat : series_at (o ≫= reload_subject t u) name = default newSeries (reload_series t u (series_at o name))).
  { unfold series_at. destruct o as [sub|]; cbn [mbind option_bind].
    - unfold reload_subject. case_bool_decide as Ea.
      + pose proof (lookup_omap (reload_series t u) (all_series sub) name) as E. rewrite Ea, lookup_empty in E.
        destruct (all_series sub !! name) as [ser|]; cbn in *; [by rewrite <- E|]. by rewrite reload_new.
      + cbn [mbind option_bind all_series]. rewrite lookup_omap. destruct (all_series sub !! name) as [ser|]; [done|]. cbn. by rewrite reload_new.
    - cbn. by rewrite reload_new. }
  assert (Hser : series_ok (series_at o name)).
  { unfold series_at. destruct o as [sub|]; [|apply newSeries_ok]. cbn [mbind option_bind]. destruct (all_series sub !! name) as [ser|] eqn:E; [|apply newSeries_ok].
    by apply (Hok sub eq_refl name ser). }
  rewrite Hat. assert (Hnew := tracks_reloaded l t u _ Hser H1 Ht). split; [done|]. intros p Hp.
  destruct (H2 p Hp) as [Ho|(sub & -> & Hle)]; [left; eapply out_of_reach_later; [|done]; lia|].
  destruct (decide (out_of_reach u p)) as [?|Hreach]; [by left|]. right. unfold out_of_reach in Hreach. cbn [mbind option_bind].
  destruct (minute_mean_number l p (Hs name) Hp) as (avg & A1 & A2 & _).
  unfold reload_subject. case_bool_decide as Ea.
  - exfalso. cbn [mbind option_bind] in Hat. unfold reload_subject in Hat. rewrite bool_decide_true in Hat by done. rewrite <- Hat in Hnew.
    pose proof (tr_coarse _ _ _ Hnew (p.1 / finePerCoarse) ltac:(lia)) as E. rewrite A1 in E. cbn in E.
    rewrite (at_slot_new CoarseSlots) in E by (pose proof coarse_slots; lia). by rewrite <- E in A2.
  - eexists. split; [done|]. cbn [seen]. assert (E : forall ms, unix_milli (from_unix_milli ms) = ms).
    { intros ms. unfold unix_milli, from_unix_milli. rewrite Z.add_simpl_l. by apply Z.div_mul. }
    unfold fine_slot. by rewrite E.
Qed.

Lemma tracks_chart key log t s r now name :
  tracks key log t (subjects s !! key) -> (t <= now)%Z -> sound_log key log ->
  v_series (Query key r now s) !! name = chart r now (readings key name log).
Proof.
  intros Htr Ht Hs. destruct (Htr name) as [H1 _]. rewrite <- (tracks_view r _ _ _ now H1 Ht (Hs name)).
  unfold Query, series_at. destruct (tier r) as [[fn step] n]. cbn [v_series]. assert (Hnone : view_points r now newSeries = None) by apply view_points_none.
  destruct (subjects s !! key) as [sub|]; cbn [mbind option_bind]; [|by rewrite lookup_empty; cbn]. rewrite lookup_omap.
  by destruct (all_series sub !! name).
Qed.

(* ------------------------------------------------------------------ *)
(** ** A store that can be written

    Names of the length the reader accepts, rings of their size, times and counts
    that fit the format. *)

Record good_subject (n : nat) (t : time) (key : string) (sub : subject) : Prop := {
  gs_key : name_ok key;
  gs_seen : (- 2 ^ 62 <= unix_milli (seen sub) <= unix_milli t)%Z;
  gs_count : size (all_series sub) <= n;
  gs_series : map_Forall (fun name ser => name_ok name /\ series_ok ser) (all_series sub)
}.

Record good (n : nat) (t : time) (s : Store) : Prop := {
  g_count : size (subjects s) <= n;
  g_each : map_Forall (good_subject n t) (subjects s)
}.

Definition weight (o : op) : nat := match o with ORecord _ _ values => S (size values) | _ => 0 end.
Definition weigh (ops : list op) : nat := sum_list_with weight ops.

(** An operation whose names the reader of the file accepts. *)
Definition fits (o : op) : Prop :=
  match o with ORecord key _ values => name_ok key /\ map_Forall (fun name _ => name_ok name) values | _ => True end.

Definition op_at (t : time) (o : op) : Prop := match o with ORecord _ at_ _ => at_ = t | _ => True end.

Lemma unix_milli_mono t u : (t <= u)%Z -> (unix_milli t <= unix_milli u)%Z.
Proof. intros H. unfold unix_milli. apply Z.div_le_mono; [done|lia]. Qed.

Lemma good_later n m t u s : good n t s -> n <= m -> (t <= u)%Z -> good m u s.
Proof.
  intros [H1 H2] Hn Ht. pose proof (unix_milli_mono _ _ Ht). split; [lia|]. intros key sub Hs. destruct (H2 _ _ Hs) as [G1 G2 G3 G4].
  split; [done|lia|lia|done].
Qed.

Lemma good_part n t s s' : good n t s -> subjects s' ⊆ subjects s -> good n t s'.
Proof.
  intros [H1 H2] Hsub. split; [by etransitivity; [apply map_subseteq_size|]|]. intros key sub Hs. apply H2. by eapply lookup_weaken.
Qed.

Lemma good_same n t s s' : good n t s -> subjects s' = subjects s -> good n t s'.
Proof. intros H E. eapply good_part; [exact H|by rewrite E]. Qed.

Lemma keep_subjects_part P s : subjects (keep_subjects P s).1 ⊆ subjects s.
Proof. apply map_filter_subseteq. Qed.

Lemma record_values_size f m values all : size (map_fold (record_value f m) all values) <= size all + size values.
Proof.
  rewrite <- !(size_dom (D := gset string)). etransitivity; [apply (subseteq_size _ (dom all ∪ dom values))|].
  - intros name [ser Hs]%elem_of_dom. rewrite record_values_lookup in Hs. rewrite elem_of_union, !elem_of_dom.
    destruct (values !! name); [right; eauto|left; eauto].
  - rewrite size_union_alt. apply Nat.add_le_mono_l. apply subseteq_size. set_solver.
Qed.

Lemma good_recorded n t key values s :
  good n t s -> name_ok key -> map_Forall (fun name _ => name_ok name) values -> (unix_epoch <= t)%Z ->
  good (n + S (size values)) t (record key t values s).
Proof.
  intros Hg Hk Hv Ht. unfold record. case_bool_decide; [eapply good_later; [done|lia|done]|].
  set (sub := default (mkSubject zero_time ∅) (subjects s !! key)).
  assert (Hsub : good_subject n t key sub).
  { unfold sub. destruct (subjects s !! key) as [sub'|] eqn:E; cbn [from_option id]; [by apply (g_each _ _ _ Hg)|].
    split; [done| |cbn; rewrite map_size_empty; lia|apply map_Forall_empty]. cbn [seen]. split; [by vm_compute|]. etransitivity; [|by apply unix_milli_mono].
    by vm_compute. }
  destruct Hg as [H1 H2], Hsub as [G1 G2 G3 G4]. unfold set_dirty, set_subjects. split; cbn [subjects].
  - rewrite map_size_insert. destruct (subjects s !! key); cbn; lia.
  - apply map_Forall_insert_2.
    + split; [done| |cbn [record_subject all_series]; pose proof (record_values_size (fine_slot t) (floorDiv (fine_slot t) finePerCoarse) values (all_series sub)); lia|].
      * cbn [record_subject seen]. case_bool_decide; [|done]. split; [|done]. etransitivity; [|apply (unix_milli_mono unix_epoch); done]. by vm_compute.
      * intros name ser Hs. cbn [record_subject all_series] in Hs. rewrite record_values_lookup in Hs.
        assert (Hold : forall ser', all_series sub !! name = Some ser' -> name_ok name /\ series_ok ser') by (intros ser' E; by apply G4).
        destruct (values !! name) as [v|] eqn:Ev; [|by apply Hold]. destruct (isNaN v || isInf v); [by apply Hold|]. injection Hs as <-.
        split; [by apply (Hv _ _ Ev)|]. apply record_in_ok; [|apply is_f32_of]. destruct (all_series sub !! name) as [ser'|] eqn:E; [by apply Hold|apply newSeries_ok].
    + intros k sub' E. destruct (H2 _ _ E) as [K1 K2 K3 K4]. split; [done..|lia|done].
Qed.

Lemma good_ops n t ops s :
  good n t (hist s) -> (unix_epoch <= t)%Z -> Forall fits ops -> Forall (op_at t) ops -> good (n + weigh ops) t (hist (fold_left do_op ops s)).
Proof.
  revert n s. induction ops as [|o ops IH]; intros n s Hg Ht Hf Ha; [eapply good_later; [done|lia|done]|].
  inversion_clear Hf as [|? ? Hfo Hf']. inversion_clear Ha as [|? ? Hao Ha']. cbn [fold_left weigh sum_list_with]. rewrite Nat.add_assoc. apply IH; [|done..].
  destruct o as [k|k|k at_ values|c names]; cbn [do_op weight hist failed recovered set_hist].
  - eapply good_later; [done|lia|done].
  - eapply good_later; [done|lia|done].
  - cbn in Hao. subst at_. destruct Hfo. by apply good_recorded.
  - eapply good_later; [by eapply good_same|lia|done].
Qed.

(** What the goroutines of a round do, in whatever order. *)
Definition round_ops (r : Round) : list op :=
  host_ops r ++ match rd_inventory r with Ok (machines, clusters) => concat (goroutines r machines clusters) | Err _ => [] end.

Lemma schedule_perm {A} picks (threads : list (list A)) : schedule picks threads ≡ₚ concat threads.
Proof.
  revert threads. induction picks as [|i picks IH]; intros threads; [done|]. cbn [schedule]. destruct (threads !! i) as [[|o t]|] eqn:E; [apply IH| |apply IH].
  rewrite IH. pose proof (lookup_lt_Some _ _ _ E) as Hlt. rewrite insert_take_drop by done. rewrite <- (take_drop_middle _ _ _ E) at 3.
  rewrite !concat_app. cbn [concat]. by rewrite <- app_comm_cons, Permutation_middle.
Qed.

Lemma round_ops_at r : Forall (op_at (rd_at r)) (round_ops r).
Proof.
  unfold round_ops. apply Forall_app. split.
  - unfold host_ops. destruct (rd_host r) as [[[values|e]|]|]; repeat constructor.
  - destruct (rd_inventory r) as [[machines clusters]|e]; [|constructor]. apply Forall_concat. unfold goroutines. apply Forall_app. split; apply Forall_map, Forall_true.
    + intros m. unfold sampleMachine. destruct (rd_hardware r (m_id m)); repeat constructor.
    + intros c. unfold sampleCluster. destruct (rd_apps r c) as [l|e]; [|repeat constructor]. apply Forall_app. split; [repeat constructor|].
      apply Forall_app. split; [|repeat constructor]. apply Forall_forall. intros o (app & _ & Ho)%list_elem_of_omap. destruct (app_usage_known app); [|done].
      injection Ho as <-. done.
Qed.

Lemma good_pass n t r s :
  good n t (hist s) -> (unix_epoch <= t <= rd_at r)%Z -> Forall fits (round_ops r) -> good (n + weigh (round_ops r)) (rd_at r) (hist (pass r s)).
Proof.
  intros Hg [Ht Hr] Hf. assert (Hg' : good n (rd_at r) (hist s)) by (eapply good_later; [done|lia|done]).
  unfold pass. destruct (rd_stopped r); [eapply good_later; [done|lia|done]|]. pose proof (round_ops_at r) as Ha. unfold round_ops in *.
  apply Forall_app in Hf as [Hf1 Hf2], Ha as [Ha1 Ha2]. pose proof (good_ops n (rd_at r) (host_ops r) s Hg' ltac:(lia) Hf1 Ha1) as G1.
  unfold weigh in *. rewrite sum_list_with_app. destruct (rd_inventory r) as [[machines clusters]|e].
  - rewrite Nat.add_assoc. rewrite <- (schedule_perm (rd_picks r) (goroutines r machines clusters)) in *.
    apply good_ops; [|lia|done|done]. eapply good_part; [exact G1|]. unfold forget. cbn [forgetFailing set_hist hist recovered].
    etransitivity; [apply keep_subjects_part|]. unfold Retain. pose proof (keep_subjects_part (fun key _ => retained (ids machines) (list_to_set clusters) key)
      (hist (fold_left do_op (host_ops r) s))) as Hp. destruct (keep_subjects _ _) as [s' k]. exact Hp.
  - cbn [sum_list_with]. rewrite Nat.add_0_r. exact G1.
Qed.

Lemma good_ok n t s : good n t s -> (Z.of_nat n < 2 ^ 64)%Z -> (unix_milli t < 2 ^ 62)%Z -> store_ok s.
Proof.
  intros [H1 H2] Hn Ht. split; [lia|]. intros key sub Hs. destruct (H2 _ _ Hs) as [G1 G2 G3 G4]. split; [done|]. split; [|lia|done].
  assert (2 ^ 63 = 2 * 2 ^ 62)%Z by done. lia.
Qed.

(* ------------------------------------------------------------------ *)
(** ** What is not yet written is known to be *)

Lemma record_dirty key at_ values s : dirty s = true \/ values <> ∅ -> dirty (record key at_ values s) = true.
Proof. unfold record. case_bool_decide; [by intros [?|?]|done]. Qed.

Lemma keep_subjects_dirty P s : dirty s = true -> dirty (keep_subjects P s).1 = true.
Proof. intros H. unfold keep_subjects. cbn [fst dirty]. by case_bool_decide. Qed.

Lemma do_op_dirty o s : dirty (hist s) = true -> dirty (hist (do_op s o)) = true.
Proof. destruct o; try done. intros H. cbn [do_op set_hist hist]. apply record_dirty. by left. Qed.

Lemma ops_dirty ops s :
  dirty (hist s) = true \/ (exists key at_ values, ORecord key at_ values ∈ ops /\ values <> ∅) -> dirty (hist (fold_left do_op ops s)) = true.
Proof.
  revert s. induction ops as [|o ops IH]; intros s H; [destruct H as [H|(k & t & vs & H & _)]; [done|by apply not_elem_of_nil in H]|].
  cbn [fold_left]. apply IH. destruct H as [H|(key & at_ & values & [<-|H]%elem_of_cons & Hv)]; [left; by apply do_op_dirty| |right; eauto].
  left. cbn [do_op set_hist hist]. apply record_dirty. by right.
Qed.

Lemma forget_dirty r machines clusters s : dirty (hist s) = true -> dirty (hist (forget r machines clusters s)) = true.
Proof.
  intros H. unfold forget. cbn [forgetFailing set_hist hist]. apply keep_subjects_dirty. unfold Retain.
  pose proof (keep_subjects_dirty (fun key _ => retained (ids machines) (list_to_set clusters) key) (hist s) H) as Hk. by destruct (keep_subjects _ (hist s)).
Qed.

(** An answer that says something makes the store one that is to be written. *)
Lemma answer_dirty w r s x : answer w r = Some x -> s_values x <> ∅ -> dirty (hist (pass r s)) = true.
Proof.
  unfold answer, pass. destruct (rd_stopped r); [done|]. destruct w as [|id].
  - destruct (rd_host r) as [[[values|e]|]|] eqn:Eh; try done. intros [= <-] Hv. cbn [s_values] in Hv.
    assert (H1 : dirty (hist (fold_left do_op (host_ops r) s)) = true).
    { apply ops_dirty. right. exists HostSubject, (rd_at r), values. split; [|done]. unfold host_ops. rewrite Eh. cbn. set_solver. }
    destruct (rd_inventory r) as [[machines clusters]|e]; [|done]. apply ops_dirty. left. by apply forget_dirty.
  - destruct (rd_inventory r) as [[machines clusters]|e]; [|done]. case_decide as Hin; [|done]. destruct (rd_hardware r id) as [v|e] eqn:Ehw; [|done].
    intros [= <-] Hv. cbn [s_values] in Hv. apply ops_dirty. right. exists (MachineSubject id), (rd_at r), (HardwareValues v). split; [|done].
    rewrite schedule_perm. destruct Hin as (m & Hm & <- & Hc). apply list_elem_of_In, in_concat. exists (sampleMachine (rd_at r) (m_id m) (rd_hardware r (m_id m))).
    rewrite <- !list_elem_of_In. split; [|rewrite Ehw; cbn; set_solver]. unfold goroutines. apply elem_of_app. left.
    apply list_elem_of_fmap. exists m. split; [done|]. by apply list_elem_of_filter.
Qed.

Lemma pass_flushed r s : lastFlush (hist (pass r s)) = lastFlush (hist s) /\ has_file (hist (pass r s)) = has_file (hist s).
Proof.
  assert (Hops : forall ops s, lastFlush (hist (fold_left do_op ops s)) = lastFlush (hist s) /\ has_file (hist (fold_left do_op ops s)) = has_file (hist s)).
  { induction ops as [|o ops IH]; intros s0; [done|]. cbn [fold_left]. destruct (IH (do_op s0 o)) as [-> ->]. destruct o; try done.
    cbn [do_op set_hist hist]. unfold record. by case_bool_decide. }
  unfold pass. destruct (rd_stopped r); [done|]. destruct (rd_inventory r) as [[machines clusters]|e].
  - destruct (Hops (schedule (rd_picks r) (goroutines r machines clusters)) (forget r machines clusters (recovered "inventory" (fold_left do_op (host_ops r) s)))) as [-> ->].
    unfold forget, Prune, keep_subjects, Retain. cbn. apply Hops.
  - cbn [failed hist]. apply Hops.
Qed.

(* ------------------------------------------------------------------ *)
(** ** Rounds *)

Definition opt_list {A} (o : option A) : list A := match o with Some x => [x] | None => [] end.

Lemma answer_spec w r x : answer w r = Some x -> x = mkSample (key_of w) (rd_at r) (s_values x).
Proof.
  unfold answer. destruct (rd_stopped r); [done|]. destruct w as [|id].
  - destruct (rd_host r) as [[[values|e]|]|]; try done. by intros [= <-].
  - destruct (rd_inventory r) as [[machines clusters]|e]; [|done]. case_decide; [|done]. destruct (rd_hardware r id); [|done]. by intros [= <-].
Qed.

Lemma sound_log_app_l key log1 log2 : sound_log key (log1 ++ log2) -> sound_log key log1.
Proof. intros H name. specialize (H name). unfold readings in *. rewrite omap_app in H. by apply Forall_app in H as [? _]. Qed.

Lemma sound_of_within log key : within_f32 log -> sound_log key log.
Proof.
  intros Hf name. apply Forall_forall. intros p (x & Hx & Hp)%list_elem_of_omap. apply reading_spec in Hp as (_ & _ & v & Ev & Hv & E).
  split; rewrite E; [apply is_f32_of|]. unfold within_f32 in Hf. rewrite Forall_forall in Hf. by apply (Hf x Hx name v).
Qed.

(** A pass, seen from one subject. *)
Lemma pass_tracks w r s log t :
  tracks (key_of w) log t (subject_in (key_of w) s) -> listed w r -> (unix_epoch <= t <= rd_at r)%Z ->
  sound_log (key_of w) (log ++ opt_list (answer w r)) ->
  tracks (key_of w) (log ++ opt_list (answer w r)) (rd_at r) (subject_in (key_of w) (pass r s)).
Proof.
  intros Htr Hl Ht Hs. rewrite pass_subject by done. unfold round_events.
  assert (Hstop : rd_stopped r = true -> opt_list (answer w r) = []) by (intros E; unfold answer; by rewrite E).
  destruct (rd_stopped r); [rewrite Hstop, app_nil_r by done; eapply tracks_subject_later; [done|lia]|]. clear Hstop.
  assert (Hrec : forall l t' o, l = log -> tracks (key_of w) l t' o -> (t' <= rd_at r)%Z ->
    tracks (key_of w) (l ++ opt_list (answer w r)) (rd_at r) (fold_left on_subject (answer_event (answer w r)) o)).
  { intros l t' o -> H Ht'. destruct (answer w r) as [x|] eqn:Ex; cbn [opt_list answer_event fold_left] in *.
    - apply answer_spec in Ex. rewrite Ex in *. cbn [s_at s_values] in *. by eapply tracks_on_recorded.
    - rewrite app_nil_r. by eapply tracks_subject_later. }
  assert (Hage : forall l t' o, tracks (key_of w) l t' o -> (unix_epoch <= t' <= rd_at r)%Z ->
    tracks (key_of w) l (rd_at r) (fold_left on_subject (aged_by r) o)).
  { intros l t' o H Ht'. unfold aged_by. destruct (rd_inventory r); cbn [fold_left]; [by eapply tracks_on_aged|eapply tracks_subject_later; [done|lia]]. }
  destruct w as [|id]; rewrite fold_left_app.
  - apply (Hage _ (rd_at r)); [|lia]. apply (Hrec _ t); [done|done|lia].
  - apply (Hrec _ (rd_at r)); [done| |lia]. by apply (Hage _ t).
Qed.

(** What the file has, read at any later time. *)
Definition saves `{Gzip} (key : string) (n : nat) (t : time) (log : list sample) (f : option bytes) : Prop :=
  match f with
  | None => tracks key log t None
  | Some b => exists s u, b = encode s u /\ (unix_epoch <= u <= t)%Z /\ good n u s /\ tracks key log u (subjects s !! key)
  end.

Lemma saves_later `{Gzip} key n m t u log f : saves key n t log f -> n <= m -> (t <= u)%Z -> saves key m u log f.
Proof.
  intros Hs Hn Ht. destruct f as [b|]; [|by eapply tracks_subject_later]. destruct Hs as (s & v & -> & Hv & Hg & Htr). exists s, v.
  split; [done|]. split; [lia|]. split; [by eapply good_later|done].
Qed.

Lemma tracks_ext key log log' t o : (forall name, readings key name log' = readings key name log) -> tracks key log t o -> tracks key log' t o.
Proof. intros E H name. specialize (H name). by rewrite <- E in H. Qed.

Lemma saves_ext `{Gzip} key n t log log' f : (forall name, readings key name log' = readings key name log) -> saves key n t log f -> saves key n t log' f.
Proof.
  intros E Hs. destruct f as [b|]; [|by eapply tracks_ext]. destruct Hs as (s & u & -> & Hu & Hg & Htr). exists s, u.
  split; [done|]. split; [done|]. split; [done|]. by eapply tracks_ext.
Qed.

(** A daemon between two rounds: it has all of the log in memory, what it has not
    written is after its last write, and, if every write succeeds, not old. [before]
    is what it started with, [log] what it has read since. *)
Record alive `{Gzip} (w : watched) (ok : Prop) (n : nat) (t : time) (before log : list sample) (d : Daemon) : Prop := {
  al_good : good n t (store_of d);
  al_tracks : tracks (key_of w) (before ++ log) t (subjects (store_of d) !! key_of w);
  al_file : has_file (store_of d) = true;
  al_flush : (lastFlush (store_of d) <= t)%Z;
  al_clean : dirty (store_of d) = false -> saves (key_of w) n t (before ++ log) (file d);
  al_saved : exists kept lost, log = kept ++ lost /\ saves (key_of w) n t (before ++ kept) (file d) /\
    (ok -> Forall (fun x => lastFlush (store_of d) <= s_at x)%Z lost);
  al_fresh : ok -> dirty (store_of d) = true -> (t - lastFlush (store_of d) < FlushEvery)%Z
}.

(** The reads of a pass. *)
Lemma pass_alive `{Gzip} w ok n t before log d r :
  alive w ok n t before log d -> listed w r -> Forall fits (round_ops r) -> (unix_epoch <= t <= rd_at r)%Z ->
  sound_log (key_of w) (before ++ log ++ opt_list (answer w r)) ->
  let d' := mkDaemon (pass r (sampler d)) (file d) (tried d) in
  let log' := log ++ opt_list (answer w r) in
  let n' := n + weigh (round_ops r) in
  good n' (rd_at r) (store_of d') /\ tracks (key_of w) (before ++ log') (rd_at r) (subjects (store_of d') !! key_of w) /\
  has_file (store_of d') = true /\ lastFlush (store_of d') = lastFlush (store_of d) /\
  (dirty (store_of d') = false -> saves (key_of w) n' (rd_at r) (before ++ log') (file d)) /\
  exists kept lost, log' = kept ++ lost /\ saves (key_of w) n' (rd_at r) (before ++ kept) (file d) /\
    (ok -> Forall (fun x => lastFlush (store_of d) <= s_at x)%Z lost).
Proof.
  intros [A1 A2 A3 A4 A5 (kept & lost & -> & A6 & A7) A8] Hl Hf Ht Hs. cbv zeta. unfold store_of in *. cbn [sampler].
  destruct (pass_flushed r (sampler d)) as [-> ->]. split; [by eapply good_pass|]. split.
  { rewrite app_assoc. apply (pass_tracks w r (sampler d) _ t); [done|done|done|]. by rewrite <- app_assoc. }
  split; [done|]. split; [done|]. split.
  - intros Hd. assert (Hd0 : dirty (hist (sampler d)) = false).
    { destruct (dirty (hist (sampler d))) eqn:E; [|done]. exfalso. revert Hd. clear -E. unfold pass. destruct (rd_stopped r); [congruence|].
      assert (H1 : dirty (hist (fold_left do_op (host_ops r) (sampler d))) = true) by (apply ops_dirty; by left).
      destruct (rd_inventory r) as [[machines clusters]|e]; [|cbn [failed hist]; congruence]. rewrite ops_dirty; [done|]. left. by apply forget_dirty. }
    apply (saves_ext _ _ _ (before ++ kept ++ lost)); [|eapply saves_later; [by apply A5|lia|lia]]. intros name. rewrite app_assoc. unfold readings.
    rewrite (omap_app _ (before ++ kept ++ lost)). destruct (answer w r) as [x|] eqn:Ex; cbn [opt_list omap list_omap]; [|by rewrite app_nil_r].
    destruct (decide (s_values x = ∅)) as [Ev|Hne].
    + unfold reading. rewrite Ev, lookup_empty. destruct (bool_decide (s_key x = key_of w)); by rewrite app_nil_r.
    + rewrite (answer_dirty _ _ _ _ Ex Hne) in Hd. done.
  - exists kept, (lost ++ opt_list (answer w r)). split; [by rewrite app_assoc|]. split; [eapply saves_later; [done|lia|lia]|]. intros Hok.
    apply Forall_app. split; [by apply A7|]. destruct (answer w r) as [x|] eqn:Ex; [|constructor]. apply answer_spec in Ex. rewrite Ex. constructor; [|constructor]. cbn [s_at]. lia.
Qed.

(** The write after it. *)
Lemma round_alive `{Gzip} w ok n t before log d r :
  alive w ok n t before log d -> listed w r -> Forall fits (round_ops r) -> (unix_epoch <= t <= rd_at r)%Z -> (rd_at r <= rd_now r)%Z ->
  (ok -> rd_written r = true) -> sound_log (key_of w) (before ++ log ++ opt_list (answer w r)) ->
  alive w ok (n + weigh (round_ops r)) (rd_now r) before (log ++ opt_list (answer w r)) (round d r).
Proof.
  intros Ha Hl Hf Ht Hn Hok Hs. pose proof (al_flush _ _ _ _ _ _ _ Ha) as Hlf. destruct (pass_alive _ _ _ _ _ _ _ _ Ha Hl Hf Ht Hs) as (P1 & P2 & P3 & P4 & P5 & P6). cbv zeta in *.
  clear Ha. unfold round, flush_if_due. set (d' := mkDaemon (pass r (sampler d)) (file d) (tried d)) in *. set (n' := n + weigh (round_ops r)) in *.
  set (log' := log ++ opt_list (answer w r)) in *. assert (Ef : file d = file d') by done.
  clearbody d' n' log'. rewrite Ef in *. rewrite <- P4 in *. clear Ef.
  apply (good_later _ n' _ (rd_now r)) in P1; [|lia|done]. apply (tracks_subject_later _ _ _ (rd_now r)) in P2; [|done].
  assert (P6' : exists kept lost, log' = kept ++ lost /\ saves (key_of w) n' (rd_now r) (before ++ kept) (file d') /\
    (ok -> Forall (fun x => lastFlush (store_of d') <= s_at x)%Z lost)).
  { destruct P6 as (kept & lost & E & P6 & P7). exists kept, lost. split; [done|]. split; [by eapply saves_later|done]. }
  assert (P5' : dirty (store_of d') = false -> saves (key_of w) n' (rd_now r) (before ++ log') (file d')) by (intros Hd; eapply saves_later; [by apply P5|lia|done]).
  destruct (due (rd_now r) (store_of d')) eqn:Ed.
  - apply andb_true_iff in Ed as [Ed Et]. apply bool_decide_eq_true in Et. unfold flush, flush_begin. rewrite P3, Ed. cbn [negb orb].
    assert (Hsaved : saves (key_of w) n' (rd_now r) (before ++ log') (Some (encode (store_of d') (rd_now r)))).
    { exists (store_of d'), (rd_now r). split; [done|]. split; [lia|done]. }
    destruct (rd_written r); split; unfold store_of in *; cbn [set_hist hist sampler file flush_end flush_failed set_dirty lastFlush subjects dirty has_file]; try done; try lia.
    + by eapply good_same.
    + exists log', []. split; [by rewrite app_nil_r|]. split; [done|by constructor].
    + by eapply good_same.
    + destruct P6' as (kept & lost & E & Q1 & Q2). exists kept, lost. split; [done|]. split; [done|]. intros Hok'. by specialize (Hok Hok').
    + intros Hok'. by specialize (Hok Hok').
  - split; try done; [lia|]. intros _ Hd. unfold due in Ed. rewrite Hd in Ed. apply bool_decide_eq_false in Ed. apply time_sub_lt; [done|by vm_compute|].
    change (FlushEvery) with (30 * minute)%Z in *. lia.
Qed.

(* ------------------------------------------------------------------ *)
(** ** Lives *)

(** What a daemon goes through from its start to a clean stop, whose last write
    succeeds, or to a crash. *)
Record Life := mkLife { l_start : time; l_rounds : list Round; l_stop : option time }.

Definition rounds_end (t : time) (rounds : list Round) : time := fold_left (fun _ r => rd_now r) rounds t.
Definition life_end (l : Life) : time := default (rounds_end (l_start l) (l_rounds l)) (l_stop l).

(** The file after it. *)
Definition file_after `{Gzip} (f : option bytes) (l : Life) : option bytes :=
  match l_stop l with
  | Some t => file (Run (l_rounds l) t true (start f (l_start l)))
  | None => file (fold_left round (l_rounds l) (start f (l_start l)))
  end.

Fixpoint rounds_in_time (t : time) (rounds : list Round) : Prop :=
  match rounds with [] => True | r :: rounds => (t <= rd_at r <= rd_now r)%Z /\ rounds_in_time (rd_now r) rounds end.

Fixpoint lives_in_time (t : time) (lives : list Life) (u : time) : Prop :=
  match lives with
  | [] => (t <= u)%Z
  | l :: lives => (t <= l_start l)%Z /\ rounds_in_time (l_start l) (l_rounds l) /\ (rounds_end (l_start l) (l_rounds l) <= life_end l)%Z /\
      lives_in_time (life_end l) lives u
  end.

Definition answers (w : watched) (rounds : list Round) : list sample := omap (answer w) rounds.
Definition volume (rounds : list Round) : nat := sum_list_with (fun r => weigh (round_ops r)) rounds.

(** What of the answers of a life outlives it: all of them after a clean stop; all but
    those of the last half hour after a crash. *)
Definition survives (w : watched) (l : Life) (kept : list sample) : Prop :=
  exists lost, answers w (l_rounds l) = kept ++ lost /\
    match l_stop l with Some _ => lost = [] | None => Forall (fun x => life_end l - FlushEvery < s_at x)%Z lost end.

(** Rounds whose inventory lists the machine and whose names the file can hold. *)
Definition proper (w : watched) (r : Round) : Prop := listed w r /\ Forall fits (round_ops r).

Lemma rounds_end_later t rounds : rounds_in_time t rounds -> (t <= rounds_end t rounds)%Z.
Proof.
  revert t. unfold rounds_end. induction rounds as [|r rounds IH]; intros t H; cbn in *; [lia|]. destruct H as [H1 H2]. apply IH in H2. lia.
Qed.

Lemma rounds_alive `{Gzip} w ok rounds n t before log d :
  alive w ok n t before log d -> (unix_epoch <= t)%Z -> Forall (proper w) rounds -> rounds_in_time t rounds ->
  (ok -> Forall (fun r => rd_written r = true) rounds) -> sound_log (key_of w) (before ++ log ++ answers w rounds) ->
  alive w ok (n + volume rounds) (rounds_end t rounds) before (log ++ answers w rounds) (fold_left round rounds d).
Proof.
  revert n t log d. induction rounds as [|r rounds IH]; intros n t log d Ha Ht Hp Htm Hw Hs.
  { cbn. by rewrite Nat.add_0_r, app_nil_r. }
  inversion_clear Hp as [|? ? [Hl Hf] Hp']. destruct Htm as [Hr Htm].
  assert (E : answers w (r :: rounds) = opt_list (answer w r) ++ answers w rounds).
  { unfold answers. cbn [omap list_omap]. by destruct (answer w r). }
  rewrite E, (app_assoc log) in *. unfold volume. cbn [sum_list_with fold_left]. rewrite Nat.add_assoc. fold (volume rounds).
  change (rounds_end t (r :: rounds)) with (rounds_end (rd_now r) rounds).
  apply IH; [|lia|done|done| |done].
  - apply (round_alive _ _ _ t); [done|done|done|lia|lia| |].
    + intros Hok. specialize (Hw Hok). by inversion_clear Hw.
    + rewrite (app_assoc before) in Hs. by apply sound_log_app_l in Hs.
  - intros Hok. specialize (Hw Hok). by inversion_clear Hw.
Qed.

Lemma start_alive `{Gzip} w n t u log f :
  saves (key_of w) n t log f -> (unix_epoch <= t <= u)%Z -> (Z.of_nat n < 2 ^ 64)%Z -> (unix_milli u < 2 ^ 62)%Z -> sound_log (key_of w) log ->
  forall ok, alive w ok n u log [] (start f u).
Proof.
  intros Hsv Ht Hn Hu Hs ok.
  assert (Hst : good n u (store_of (start f u)) /\ tracks (key_of w) log u (subjects (store_of (start f u)) !! key_of w) /\
    has_file (store_of (start f u)) = true /\ dirty (store_of (start f u)) = false /\ lastFlush (store_of (start f u)) = u).
  { unfold start, store_of. cbn [sampler NewSampler hist]. destruct f as [b|]; cbn [read_file].
    - destruct Hsv as (s & v & -> & Hv & Hg & Htr). pose proof (unix_milli_mono v u ltac:(lia)).
      assert (Hok : store_ok s) by (eapply good_ok; [exact Hg|done|lia]).
      assert (Hft : file_times v u).
      { split; [lia|]. unfold fine_slot. rewrite floorDiv_spec by done. pose proof (Z.div_le_upper_bound (unix_milli v) (milliseconds FineStep) (2 ^ 62 - 1) ltac:(done)) as Hd.
        enough (unix_milli v / milliseconds FineStep <= 2 ^ 62 - 1)%Z by lia. apply Hd. change (milliseconds FineStep) with 15000%Z. lia. }
      unfold Open. rewrite decode_encode by done. cbn [fst set_subjects subjects has_file dirty lastFlush]. split; [|split; [|done]].
      + destruct Hg as [G1 G2]. split; cbn [subjects].
        * etransitivity; [|exact G1]. rewrite <- !(size_dom (D := gset string)). apply subseteq_size. apply dom_omap_subseteq.
        * intros key sub Hsub. change (omap (reload_subject v u) (subjects s) !! key = Some sub) in Hsub. rewrite lookup_omap in Hsub. destruct (subjects s !! key) as [sub0|] eqn:E0; [|done]. cbn [mbind option_bind] in Hsub.
          destruct (G2 _ _ E0) as [K1 K2 K3 K4]. unfold reload_subject in Hsub. case_bool_decide; [done|]. injection Hsub as <-.
          assert (Em : forall ms, unix_milli (from_unix_milli ms) = ms) by (intros ms; unfold unix_milli, from_unix_milli; rewrite Z.add_simpl_l; by apply Z.div_mul).
          split; cbn [seen all_series]; [done|rewrite Em; lia| |].
          -- etransitivity; [|exact K3]. rewrite <- !(size_dom (D := gset string)). apply subseteq_size. apply dom_omap_subseteq.
          -- intros name ser Hser. rewrite lookup_omap in Hser. destruct (all_series sub0 !! name) as [ser0|] eqn:Es0; [|done]. cbn [mbind option_bind] in Hser.
             destruct (K4 _ _ Es0) as [N1 [N2 N3]]. split; [done|]. pose proof (reload_series_default v u ser0) as E. rewrite Hser in E. cbn in E. rewrite E.
             split; apply ring_of_ok, Forall_forall; intros p (x & _ & Hp)%list_elem_of_omap; apply pick_spec in Hp as (-> & _ & _); cbn [snd]; eapply at_slot_f32; eassumption.
      + rewrite lookup_omap. apply tracks_on_reloaded; [|done|lia|done]. intros sub E name ser Es. by destruct (gs_series _ _ _ _ (g_each _ _ _ Hg _ _ E) name ser Es).
    - cbn [Open fst subjects has_file dirty lastFlush]. split; [split; [cbn [subjects]; rewrite map_size_empty; lia|apply map_Forall_empty]|]. split; [|done]. rewrite lookup_empty. eapply tracks_subject_later; [exact Hsv|lia]. }
  destruct Hst as (S1 & S2 & S3 & S4 & S5). assert (Hsv' : saves (key_of w) n u log f) by (eapply saves_later; [done|lia|lia]).
  split; rewrite ?app_nil_r; try done.
  - lia.
  - exists [], []. rewrite !app_nil_r. split; [done|]. split; [done|by constructor].
  - congruence.
Qed.

Lemma lives_saved `{Gzip} w lives t u n kept0 f :
  saves (key_of w) n t kept0 f -> (unix_epoch <= t)%Z -> lives_in_time t lives u -> (unix_milli u < 2 ^ 62)%Z ->
  Forall (proper w) (concat (map l_rounds lives)) -> (Z.of_nat (n + volume (concat (map l_rounds lives))) < 2 ^ 64)%Z ->
  Forall (fun l => l_stop l = None -> Forall (fun r => rd_written r = true) (l_rounds l)) lives ->
  within_f32 (kept0 ++ answers w (concat (map l_rounds lives))) ->
  (t <= u)%Z /\ exists kept, Forall2 (survives w) lives kept /\ within_f32 (kept0 ++ concat kept) /\
    saves (key_of w) (n + volume (concat (map l_rounds lives))) u (kept0 ++ concat kept) (fold_left file_after lives f).
Proof.
  revert t n kept0 f. induction lives as [|l lives IH]; intros t n kept0 f Hsv Ht Htm Hu Hp Hn Hw Hf.
  { cbn in Htm. split; [lia|]. exists []. split; [constructor|]. cbn [concat map fold_left answers omap list_omap volume sum_list_with] in *. rewrite app_nil_r in *.
    split; [done|]. eapply saves_later; [done|lia|lia]. }
  destruct Htm as (T1 & T2 & T3 & T4). cbn [map concat] in *. apply Forall_app in Hp as [Hp1 Hp2]. unfold volume in Hn. rewrite sum_list_with_app in Hn. fold (volume (l_rounds l)) in Hn.
  fold (volume (concat (map l_rounds lives))) in Hn. inversion_clear Hw as [|? ? Hwl Hw'].
  assert (Ea : answers w (l_rounds l ++ concat (map l_rounds lives)) = answers w (l_rounds l) ++ answers w (concat (map l_rounds lives))) by (unfold answers; apply omap_app).
  rewrite Ea in Hf. pose proof (rounds_end_later _ _ T2) as T5.
  assert (T6 : (life_end l <= u)%Z).
  { clear -T4. revert T4. generalize (life_end l). induction lives as [|l' lives IH]; intros t' H; cbn in H; [done|]. destruct H as (H1 & H2 & H3 & H4).
    apply IH in H4. apply rounds_end_later in H2. lia. }
  pose proof (unix_milli_mono (l_start l) u ltac:(lia)) as Hms.
  assert (Hf1 : within_f32 (kept0 ++ answers w (l_rounds l))).
  { unfold within_f32 in *. rewrite app_assoc in Hf. by apply Forall_app in Hf as [? _]. }
  assert (Hs1 : sound_log (key_of w) (kept0 ++ answers w (l_rounds l))) by (by apply sound_of_within).
  set (ok := l_stop l = None).
  assert (Hal : alive w ok (n + volume (l_rounds l)) (rounds_end (l_start l) (l_rounds l)) kept0 (answers w (l_rounds l)) (fold_left round (l_rounds l) (start f (l_start l)))).
  { apply (rounds_alive w ok (l_rounds l) n (l_start l) kept0 []); [|lia|done|done|done|done].
    apply (start_alive w n t); [done|lia|lia|lia|by apply sound_log_app_l in Hs1]. }
  assert (Hstep : exists k, survives w l k /\ within_f32 (kept0 ++ k) /\ saves (key_of w) (n + volume (l_rounds l)) (life_end l) (kept0 ++ k) (file_after f l)).
  { unfold survives, file_after, life_end in *. destruct (l_stop l) as [tEnd|] eqn:El; cbn [default from_option id] in *.
    - exists (answers w (l_rounds l)). split; [exists []; by rewrite app_nil_r|]. split; [done|]. unfold Run, flush, flush_begin.
      destruct Hal as [A1 A2 A3 A4 A5 _ _]. set (d := fold_left round _ _) in *. rewrite A3. cbn [negb orb]. destruct (dirty (store_of d)) eqn:Ed; cbn [negb].
      + exists (store_of d), tEnd. split; [done|]. split; [lia|]. split; [by eapply good_later|by eapply tracks_subject_later].
      + eapply saves_later; [by apply A5|lia|done].
    - destruct Hal as [A1 A2 A3 A4 A5 (k & lost & E & A6 & A7) A8]. set (d := fold_left round _ _) in *. destruct (dirty (store_of d)) eqn:Ed.
      + exists k. split; [exists lost; split; [done|]|].
        * specialize (A7 eq_refl). specialize (A8 eq_refl eq_refl). eapply Forall_impl; [exact A7|]. cbn. intros x Hx. lia.
        * rewrite E in Hf1. unfold within_f32 in *. rewrite app_assoc in Hf1. apply Forall_app in Hf1 as [? _]. split; [done|]. done.
      + exists (answers w (l_rounds l)). split; [exists []; split; [by rewrite app_nil_r|constructor]|]. split; [done|by apply A5]. }
  destruct Hstep as (k & Hk & Hfk & Hsk).
  destruct (IH (life_end l) (n + volume (l_rounds l)) (kept0 ++ k) (file_after f l)) as (_ & kept & K1 & K2 & K3); [done|lia|done|done|done|lia|done| |].
  { unfold within_f32 in *. apply Forall_app. split; [done|]. rewrite app_assoc in Hf. by apply Forall_app in Hf as [_ ?]. }
  split; [lia|]. exists (k :: kept). split; [by constructor|]. cbn [concat fold_left]. rewrite (app_assoc kept0). split; [done|].
  unfold volume. rewrite sum_list_with_app. fold (volume (l_rounds l)). fold (volume (concat (map l_rounds lives))). by rewrite Nat.add_assoc.
Qed.

(** C28: A chart of a node, or of the host, shows exactly what was read of it, whatever
    else happened. Over any number of starts of the daemon, each ended by a clean stop
    or by a crash, with other nodes and clusters answering or not and their goroutines
    interleaved in any way, old history deleted and writes of the file failing: what a
    chart shows is the reference chart of the answers of this life and of what
    survives of the earlier ones, which is every answer of a life that was stopped,
    and every answer but those of the last half hour of a life that crashed. *)
Theorem charts_survive `{Gzip} w lives t0 rounds r now name :
  let all := concat (map l_rounds lives) ++ rounds in
  let d := fold_left round rounds (start (fold_left file_after lives None) t0) in
  lives_in_time unix_epoch lives t0 -> rounds_in_time t0 rounds -> (rounds_end t0 rounds <= now)%Z ->
  (unix_milli now < 2 ^ 62)%Z -> Forall (proper w) all -> (Z.of_nat (volume all) < 2 ^ 64)%Z ->
  Forall (fun l => l_stop l = None -> Forall (fun r => rd_written r = true) (l_rounds l)) lives ->
  within_f32 (answers w all) ->
  exists kept, Forall2 (survives w) lives kept /\
    v_series (Query (key_of w) r now (store_of d)) !! name = chart r now (readings (key_of w) name (concat kept ++ answers w rounds)).
Proof.
  cbv zeta. intros Hl Hr Hend Hnow Hp Hn Hw Hf. apply Forall_app in Hp as [Hp1 Hp2].
  unfold volume in Hn. rewrite sum_list_with_app in Hn. fold (volume (concat (map l_rounds lives))) in Hn. fold (volume rounds) in Hn.
  unfold answers in Hf. rewrite omap_app in Hf. fold (answers w rounds) (answers w (concat (map l_rounds lives))) in Hf.
  apply Forall_app in Hf as [Hf1 Hf2]. pose proof (rounds_end_later _ _ Hr) as Hr'. pose proof (unix_milli_mono t0 now ltac:(lia)) as Hms.
  assert (Hsv : saves (key_of w) 0 unix_epoch [] None).
  { intros name'. cbn [readings omap list_omap]. split; [|by intros p Hp%elem_of_nil]. apply tracks_nothing; [lia|constructor|constructor]. }
  destruct (lives_saved w lives unix_epoch t0 0 [] None) as (Ht0 & kept & K1 & K2 & K3); [done|lia|done|lia|done|lia|done|done|].
  exists kept. split; [done|]. cbn [app] in *. assert (Hsound : sound_log (key_of w) (concat kept ++ answers w rounds)) by (apply sound_of_within, Forall_app; done).
  eapply tracks_chart; [|exact Hend|done].
  pose proof (start_alive w _ t0 t0 _ _ K3 ltac:(lia) ltac:(lia) ltac:(lia) ltac:(by apply sound_log_app_l in Hsound) False) as Ha.
  exact (al_tracks _ _ _ _ _ _ _ (rounds_alive w False rounds _ t0 _ [] _ Ha ltac:(lia) Hp2 Hr ltac:(done) Hsound)).
Qed.

(* ------------------------------------------------------------------ *)
(** ** A node over three lives *)

#[global] Instance fits_dec o : Decision (fits o).
Proof. destruct o; unfold fits, name_ok; apply _. Defined.

Definition busy (percent : Z) : HardwareView := mkHardwareView (f64_of_int percent) [] 0 0 [] [] [] [].

(** A round [s] seconds after the epoch, in which the node reports [percent], the
    cluster lists an app and the host is not there; the goroutines interleave. *)
Definition example_round (s percent : Z) : Round :=
  let at_ := (unix_epoch + s * second)%Z in
  mkRound false at_ None (Ok ([mkMachine "n1" "c1"; mkMachine "n2" ""], ["c1"]))
    (fun _ => Ok (busy percent)) (fun _ => Ok [mkApp "default" "Deployment" "web" true 250 1048576]) [1; 0; 1; 1; 0] (at_ + 1) true.

Definition example_lives : list Life :=
  [mkLife unix_epoch [example_round 0 10; example_round 15 20] (Some (unix_epoch + 20 * second)%Z);
   mkLife (unix_epoch + 30 * second)%Z [example_round 60 50] None].

(** The answer of the life that crashed is lost, the others are in the chart. *)
Lemma charts_survive_witness :
  let gz := HistoryFile.plain_gzip in
  let rounds := [example_round 120 80] in
  let now := (unix_epoch + 130 * second)%Z in
  let d := fold_left round rounds (start (fold_left file_after example_lives None) (unix_epoch + 100 * second)%Z) in
  (exists kept, Forall2 (survives (Node "n1")) example_lives kept /\
     v_series (Query (MachineSubject "n1") Range1h now (store_of d)) !! "cpu" =
     chart Range1h now (readings (MachineSubject "n1") "cpu" (concat kept ++ answers (Node "n1") rounds))) /\
  v_series (Query (MachineSubject "n1") Range1h now (store_of d)) !! "cpu" =
    Some [(f64_of_int 0, f64_of_int 10); (f64_of_int 15000, f64_of_int 20); (f64_of_int 120000, f64_of_int 80)]%Z.
Proof.
  cbv zeta. split; [|vm_compute; reflexivity].
  assert (Hproper : forall s percent, Forall fits (round_ops (example_round s percent)) -> proper (Node "n1") (example_round s percent)).
  { intros s percent Hf. split; [|done]. cbn. split; [|set_solver]. apply NoDup_cons_2; [set_solver|apply NoDup_singleton]. }
  assert (Hfits : forall s percent, Forall fits (round_ops (example_round s percent))).
  { intros s percent. repeat constructor; try (apply (bool_decide_unpack _); vm_compute; reflexivity).
    all: intros name v Hv; assert (Hin : name ∈ dom (HardwareValues (busy percent))) by (apply elem_of_dom; eauto); revert Hin.
    all: unfold HardwareValues, busy; cbn; set_solver. }
  apply (charts_survive (H := HistoryFile.plain_gzip) (Node "n1") example_lives _ [example_round 120 80] Range1h).
  - repeat (split || (vm_compute; discriminate)).
  - repeat (split || (vm_compute; discriminate)).
  - vm_compute. discriminate.
  - vm_compute. reflexivity.
  - repeat (constructor; [by apply Hproper|]). constructor.
  - vm_compute. reflexivity.
  - repeat (constructor; [intros _; repeat constructor|]). constructor.
  - unfold within_f32. apply (bool_decide_unpack _). vm_compute. reflexivity.
Defined.
