(* ===== verification/Auth.v ===== *)
(** * Authentication: accounts, sessions, tokens

    [src/internal/auth] and the accounts of [src/internal/model/model.go]: signing in,
    what a session is worth and for how long, the re-authentication window, service
    accounts and their tokens, the break-glass account, identities at a provider, and
    the links of wall screens. The functions are programs over the calls to the record
    store ([RecordStore.v]), the session of the request, the clock and the random
    source. The session manager, argon2id and SHA-256 are the class [AuthLib]. *)

From S2P Require Import Prelude Effects RecordStore.

(* ------------------------------------------------------------------ *)
(** ** Accounts *)

Definition RoleReader : string := "reader".
Definition RoleOperator : string := "operator".
Definition RoleAdmin : string := "admin".
Definition UserRoles : list string := [RoleAdmin; RoleOperator; RoleReader].

Definition role_valid (r : string) : bool := bool_decide (r ∈ UserRoles).
Definition OrAdmin (r : string) : string := if bool_decide (r = "") then RoleAdmin else r.

(** [UserRole.AtLeast]: the places of both in the order; an unknown one is refused. *)
Definition role_place (r : string) : option nat := fst <$> list_find (fun known => r = known) UserRoles.
Definition AtLeast (r want : string) : bool :=
  match role_place (OrAdmin r), role_place want with
  | Some have, Some wanted => bool_decide (have <= wanted)
  | _, _ => false
  end.

Definition KindPerson : string := "person".
Definition KindService : string := "service".
Definition OrPerson (k : string) : string := if bool_decide (k = "") then KindPerson else k.

Record User := mkUser {
  ID : string;
  Username : string;
  PasswordHash : string;
  CreatedAt : time;
  Kind : string;
  TokenHash : string;
  TokenIssuedAt : time;
  TokenExpiresAt : time;
  LastUsedAt : time;
  Role : string;
  Issuer : string;
  Subject : string;
  Rev : Z
}.

Definition IsService (u : User) : bool := bool_decide (OrPerson (Kind u) = KindService).
Definition HasIdentityBinding (u : User) : bool := negb (bool_decide (Issuer u = "")) && negb (bool_decide (Subject u = "")).
Definition is_admin (u : User) : bool := bool_decide (OrAdmin (Role u) = RoleAdmin).

Definition set_rev (v : Z) (u : User) : User :=
  mkUser (ID u) (Username u) (PasswordHash u) (CreatedAt u) (Kind u) (TokenHash u) (TokenIssuedAt u) (TokenExpiresAt u) (LastUsedAt u)
    (Role u) (Issuer u) (Subject u) v.
Definition set_password (h : string) (u : User) : User :=
  mkUser (ID u) (Username u) h (CreatedAt u) (Kind u) (TokenHash u) (TokenIssuedAt u) (TokenExpiresAt u) (LastUsedAt u)
    (Role u) (Issuer u) (Subject u) (Rev u).
Definition set_token (h : string) (issued expires : time) (u : User) : User :=
  mkUser (ID u) (Username u) (PasswordHash u) (CreatedAt u) (Kind u) h issued expires (LastUsedAt u)
    (Role u) (Issuer u) (Subject u) (Rev u).
Definition set_last_used (t : time) (u : User) : User :=
  mkUser (ID u) (Username u) (PasswordHash u) (CreatedAt u) (Kind u) (TokenHash u) (TokenIssuedAt u) (TokenExpiresAt u) t
    (Role u) (Issuer u) (Subject u) (Rev u).
Definition set_role (r : string) (u : User) : User :=
  mkUser (ID u) (Username u) (PasswordHash u) (CreatedAt u) (Kind u) (TokenHash u) (TokenIssuedAt u) (TokenExpiresAt u) (LastUsedAt u)
    r (Issuer u) (Subject u) (Rev u).
Definition set_identity (i s : string) (u : User) : User :=
  mkUser (ID u) (Username u) (PasswordHash u) (CreatedAt u) (Kind u) (TokenHash u) (TokenIssuedAt u) (TokenExpiresAt u) (LastUsedAt u)
    (Role u) i s (Rev u).

#[global] Program Instance user_record : Record User := {| rec_key := ID; rec_rev := Rev; rec_set_rev := set_rev |}.
Solve All Obligations with reflexivity.

Record WallLink := mkWallLink {
  wl_id : string;
  wl_label : string;
  wl_hash : string;
  wl_created : time;
  wl_created_by : string;
  wl_last_used : time
}.

(** The settings singleton, as far as the links are concerned. *)
Record Settings := mkSettings { WallLinks : list WallLink; SettingsRev : Z }.
Definition no_settings : Settings := mkSettings [] 0.

#[global] Instance user_eq_dec : EqDecision User.
Proof. solve_decision. Defined.

(* ------------------------------------------------------------------ *)
(** ** What is called *)

Inductive value := VString (s : string) | VInt64 (z : Z) | VBool (b : bool).

Record Params := mkParams { p_memory : Z; p_iterations : Z; p_parallelism : Z; p_salt : Z; p_key : Z }.

(** The libraries: argon2id, SHA-256 and the session manager. What a session holds is
    got, put and removed by key; renewing its token keeps what it holds; a destroyed
    session holds nothing. *)
Class AuthLib := {
  compare : string -> string -> result unit bool;
  decode_hash : string -> option Params;
  sha256_hex : string -> string;
  sha256_nonempty : forall s, sha256_hex s <> "";
  session : Type;
  no_session : session;
  sget : session -> string -> option value;
  sput : string -> value -> session -> session;
  sremove : string -> session -> session;
  srenew : string -> session -> session;
  sdestroy : session -> session;
  stoken : session -> string;
  sget_none : forall k, sget no_session k = None;
  sget_put : forall k v s, sget (sput k v s) k = Some v;
  sget_put_ne : forall k k' v s, k' <> k -> sget (sput k v s) k' = sget s k';
  sget_remove : forall k s, sget (sremove k s) k = None;
  sget_remove_ne : forall k k' s, k' <> k -> sget (sremove k s) k' = sget s k';
  sget_renew : forall t k s, sget (srenew t s) k = sget s k;
  sget_destroy : forall k s, sget (sdestroy s) k = None;
  stoken_renew : forall t s, stoken (srenew t s) = t
}.

Inductive auth_error :=
  | ErrInvalidCredentials
  | ErrNotAServiceAccount
  | ErrNotAPerson
  | ErrInvalidToken
  | ErrTokenExpired
  | ErrLastAdmin
  | ErrUsernameTaken
  | ErrInvalidRole
  | ErrSelfDemotion
  | ErrTTLTooLong
  | ErrNoIdentityBinding
  | ErrAlreadyBound
  | ErrNotLinked
  | ErrEmptyIdentity
  | ErrNoPersonAccount
  | ErrSeveralPersonAccounts
  | ErrTooManyWallLinks
  | ErrNoSuchWallLink
  | ErrInvalidWallLink
  | ErrEmptySecret
  | EStore (e : store_error)
  | ELibrary.

Section Service.
Context `{AuthLib}.

Inductive authCall : Type -> Type :=
  | Now : authCall time
  | Random : authCall (result unit (list Z))
  | CreateHash (password : string) : authCall (result unit string)
  | UsersList : authCall (result store_error (list User))
  | UsersGet (id : string) : authCall (result store_error User)
  | UsersPut (u : User) : authCall (result store_error User)
  | UsersDelete (id : string) : authCall (result store_error unit)
  | SettingsGet : authCall (result store_error Settings)
  | SettingsPut (s : Settings) : authCall (result store_error Settings)
  | SessionsList : authCall (result store_error (list string))
  | SessionsDelete (id : string) : authCall (result store_error unit)
  | SessionGet : authCall session
  | SessionSet (s : session) : authCall unit
  | SessionRenew : authCall (result unit unit)
  | SessionDestroy : authCall (result unit unit).

Abbreviation M A := (prog authCall A).

Definition in_store {A} (p : M (result store_error A)) : M (result auth_error A) :=
  r ← p; Ret (match r with Ok a => Ok a | Err e => Err (EStore e) end).
Definition in_library {A} (p : M (result unit A)) : M (result auth_error A) :=
  r ← p; Ret (match r with Ok a => Ok a | Err _ => Err ELibrary end).

(* ------------------------------------------------------------------ *)
(** ** The session of a request *)

Definition sessionKeyUser : string := "user_id".
Definition sessionKeyAuthenticatedAt : string := "authenticated_at".
Definition sessionKeyProviderSignIn : string := "oidc.authenticated".
Definition sessionKeyProviderBinding : string := "oidc.binding".
Definition sessionKeySudoAt : string := "sudo_at".

Definition get_string (s : session) (k : string) : string := match sget s k with Some (VString v) => v | _ => "" end.
Definition get_int64 (s : session) (k : string) : Z := match sget s k with Some (VInt64 v) => v | _ => 0%Z end.
Definition get_bool (s : session) (k : string) : bool := match sget s k with Some (VBool v) => v | _ => false end.

Definition session_put (k : string) (v : value) : M unit := s ← call SessionGet; call (SessionSet (sput k v s)).
Definition session_remove (k : string) : M unit := s ← call SessionGet; call (SessionSet (sremove k s)).

(** [t.UnixNano()] and [time.Unix(0, n)]: 64 bits of nanoseconds. *)
Definition epoch : time := (unix_epoch_seconds * second)%Z.
Definition unix_nano (t : time) : Z := let w := ((t - epoch) mod 2 ^ 64)%Z in if bool_decide (w < 2 ^ 63)%Z then w else (w - 2 ^ 64)%Z.
Definition from_unix_nano (n : Z) : time := (epoch + n)%Z.

Definition bindingFingerprint (issuer subject : string) : string :=
  sha256_hex (issuer +:+ String (Ascii.ascii_of_nat 0) "" +:+ subject).

Definition markAuthenticated (id : string) : M unit :=
  session_put sessionKeyUser (VString id) ;;
  now ← call Now;
  session_put sessionKeyAuthenticatedAt (VInt64 (unix_nano now)) ;;
  session_remove sessionKeyProviderSignIn ;;
  session_remove sessionKeyProviderBinding.

(** [withinAbsoluteLifetime] and [IsSudoOpen] at a time. *)
Definition within (s : session) (key : string) (window : duration) (now : time) : bool :=
  let stamp := get_int64 s key in
  if bool_decide (stamp = 0)%Z then false else bool_decide (now < from_unix_nano stamp + window)%Z.

Definition withinAbsoluteLifetime (lifetime : duration) : M bool :=
  s ← call SessionGet;
  if bool_decide (get_int64 s sessionKeyAuthenticatedAt = 0)%Z then Ret false
  else now ← call Now; Ret (within s sessionKeyAuthenticatedAt lifetime now).

Definition providerLinkHolds (s : session) (u : User) : bool :=
  if negb (get_bool s sessionKeyProviderSignIn) then true
  else if negb (HasIdentityBinding u) then false
  else
    let fp := get_string s sessionKeyProviderBinding in
    if bool_decide (fp = "") then true else bool_decide (fp = bindingFingerprint (Issuer u) (Subject u)).

Definition StartSession (u : User) : M (result auth_error unit) :=
  if IsService u then Ret (Err ErrNotAPerson)
  else do? in_library (call SessionRenew) ;; markAuthenticated (ID u) ;; Ret (Ok tt).

Definition StartProviderSession (u : User) (issuer subject : string) : M (result auth_error unit) :=
  do? StartSession u ;;
  session_put sessionKeyProviderSignIn (VBool true) ;;
  session_put sessionKeyProviderBinding (VString (bindingFingerprint issuer subject)) ;;
  Ret (Ok tt).

Definition SignedInThroughProvider : M bool := s ← call SessionGet; Ret (get_bool s sessionKeyProviderSignIn).

Definition Logout : M (result auth_error unit) := in_library (call SessionDestroy).

Definition DefaultSudoWindow : duration := (5 * minute)%Z.

Definition OpenSudoWindow : M unit := now ← call Now; session_put sessionKeySudoAt (VInt64 (unix_nano now)).
Definition TouchSudoWindow : M unit := now ← call Now; session_put sessionKeySudoAt (VInt64 (unix_nano now)).

Definition IsSudoOpen (window : duration) : M bool :=
  let window := if bool_decide (window <= 0)%Z then DefaultSudoWindow else window in
  s ← call SessionGet;
  if bool_decide (get_int64 s sessionKeySudoAt = 0)%Z then Ret false
  else now ← call Now; Ret (within s sessionKeySudoAt window now).

(** [CurrentUser]: the account a token named, or the session's. *)
Definition CurrentUser (lifetime : duration) (actor : option User) : M (option User) :=
  match actor with
  | Some u => Ret (Some u)
  | None =>
      s ← call SessionGet;
      let id := get_string s sessionKeyUser in
      if bool_decide (id = "") then Ret None
      else
        live ← withinAbsoluteLifetime lifetime;
        if negb live then Ret None
        else
          r ← call (UsersGet id);
          match r with
          | Err _ => Ret None
          | Ok u =>
              if IsService u then Ret None
              else if negb (providerLinkHolds s u) then Ret None
              else Ret (Some u)
          end
  end.

Definition InvalidateAllExcept (keep : string) : M (result auth_error unit) :=
  ids <-? in_store (call SessionsList) ;;
  each (fun id => if bool_decide (id = keep) then Ret (Ok tt) else in_store (call (SessionsDelete id))) ids.

(* ------------------------------------------------------------------ *)
(** ** Passwords *)

Definition normalizeUsername (s : string) : string := to_lower (trim_space s).

Fixpoint find_username (want : string) (users : list User) : option User :=
  match users with
  | [] => None
  | u :: users => if bool_decide (normalizeUsername (Username u) = want) then Some u else find_username want users
  end.

Definition FindByUsername (username : string) : M (result auth_error User) :=
  users <-? in_store (call UsersList) ;;
  Ret (match find_username (normalizeUsername username) users with Some u => Ok u | None => Err (EStore ErrNotFound) end).

(** [Hash] and [Verify]; of two hashes at once the others wait. *)
Definition Hash (password : string) : M (result auth_error string) :=
  if bool_decide (password = "") then Ret (Err ErrEmptySecret) else in_library (call (CreateHash password)).

Definition Verify (password hash : string) : result auth_error bool :=
  match compare password hash with Ok b => Ok b | Err _ => Err ELibrary end.

(** What is verified for nobody has no effect but the time it takes. *)
Definition verifyPassword (username password : string) : M (result auth_error User) :=
  r ← FindByUsername username;
  match r with
  | Err (EStore ErrNotFound) => Ret (Err ErrInvalidCredentials)
  | Err e => Ret (Err e)
  | Ok u =>
      if IsService u then Ret (Err ErrInvalidCredentials)
      else match Verify password (PasswordHash u) with
           | Err e => Ret (Err e)
           | Ok false => Ret (Err ErrInvalidCredentials)
           | Ok true => Ret (Ok u)
           end
  end.

Definition NeedsRehash (active : Params) (encoded : string) : bool :=
  match decode_hash encoded with
  | None => false
  | Some stored =>
      bool_decide (p_memory stored < p_memory active)%Z || bool_decide (p_iterations stored < p_iterations active)%Z
      || bool_decide (p_parallelism stored < p_parallelism active)%Z || bool_decide (p_key stored < p_key active)%Z
      || bool_decide (p_salt stored < p_salt active)%Z
  end.

Definition rehashIfOutdated (active : Params) (u : User) (password : string) : M User :=
  if negb (NeedsRehash active (PasswordHash u)) then Ret u
  else
    h ← Hash password;
    match h with
    | Err _ => Ret u
    | Ok hash =>
        let u := set_password hash u in
        r ← call (UsersPut u);
        Ret (match r with Ok updated => updated | Err _ => u end)
    end.

Definition Login (active : Params) (username password : string) : M (result auth_error User) :=
  u <-? verifyPassword username password ;;
  do? in_library (call SessionRenew) ;;
  markAuthenticated (ID u) ;;
  u ← rehashIfOutdated active u password;
  Ret (Ok u).

Definition ChangePassword (lifetime : duration) (actor : option User) (current next : string) : M (result auth_error unit) :=
  who ← CurrentUser lifetime actor;
  match who with
  | None => Ret (Err ErrInvalidCredentials)
  | Some u =>
      if IsService u then Ret (Err ErrNotAPerson)
      else match Verify current (PasswordHash u) with
           | Err e => Ret (Err e)
           | Ok false => Ret (Err ErrInvalidCredentials)
           | Ok true =>
               hash <-? Hash next ;;
               do? in_store (call (UsersPut (set_password hash u))) ;;
               s ← call SessionGet;
               InvalidateAllExcept (stoken s) ;;
               Ret (Ok tt)
           end
  end.

(* ------------------------------------------------------------------ *)
(** ** Tokens *)

Definition TokenPrefix : string := "hkm_".
Definition WallTokenPrefix : string := "hkw_".
Definition tokenBytes : nat := 32.
Definition tokenUseThrottle : duration := minute.

(** [base64.RawURLEncoding]. *)
Definition b64_char (z : Z) : Ascii.ascii :=
  Ascii.ascii_of_nat (Z.to_nat (if bool_decide (z < 26)%Z then 65 + z else if bool_decide (z < 52)%Z then 97 + (z - 26)
    else if bool_decide (z < 62)%Z then 48 + (z - 52) else if bool_decide (z = 62)%Z then 45 else 95)%Z).

Fixpoint base64url (b : list Z) : string :=
  match b with
  | x :: y :: z :: b =>
      let n := (x * 65536 + y * 256 + z)%Z in
      String (b64_char (n / 262144)) (String (b64_char (n / 4096 mod 64)) (String (b64_char (n / 64 mod 64)) (String (b64_char (n mod 64)) (base64url b))))
  | [x; y] =>
      let n := (x * 65536 + y * 256)%Z in
      String (b64_char (n / 262144)) (String (b64_char (n / 4096 mod 64)) (String (b64_char (n / 64 mod 64)) ""))
  | [x] => let n := (x * 65536)%Z in String (b64_char (n / 262144)) (String (b64_char (n / 4096 mod 64)) "")
  | [] => ""
  end.

(** [hashToken] and [hashWallToken]: nothing for what does not have the prefix. *)
Definition hash_with (prefix token : string) : string :=
  let token := trim_space token in
  match cut_prefix prefix token with
  | Some rest => if bool_decide (rest = "") then "" else sha256_hex token
  | None => ""
  end.

Definition hashToken : string -> string := hash_with TokenPrefix.
Definition hashWallToken : string -> string := hash_with WallTokenPrefix.

Definition new_with (prefix : string) : M (result auth_error (string * string)) :=
  b <-? in_library (call Random) ;;
  let token := prefix +:+ base64url b in
  Ret (Ok (token, hash_with prefix token)).

Definition newToken : M (result auth_error (string * string)) := new_with TokenPrefix.
Definition newWallToken : M (result auth_error (string * string)) := new_with WallTokenPrefix.

(** The new account of an identifier: no revision yet. *)
Definition new_user (id username : string) (created : time) : User :=
  mkUser id username "" created "" "" zero_time zero_time zero_time "" "" "" 0.
Definition service_user (id username : string) (created : time) : User :=
  mkUser id username "" created KindService "" zero_time zero_time zero_time "" "" "" 0.

(** A username nobody has yet. *)
Definition username_free (username : string) : M (result auth_error unit) :=
  r ← FindByUsername username;
  Ret (match r with Ok _ => Err ErrUsernameTaken | Err (EStore ErrNotFound) => Ok tt | Err e => Err e end).

Definition CreateServiceAccount (id username role : string) : M (result auth_error (User * string)) :=
  let username := trim_space username in
  if negb (role_valid role) then Ret (Err ErrInvalidRole)
  else
    do? username_free username ;;
    t <-? newToken ;;
    now ← call Now;
    created <-? in_store (call (UsersPut (set_role role (set_token t.2 now zero_time (service_user id username now))))) ;;
    Ret (Ok (set_token "" (TokenIssuedAt created) (TokenExpiresAt created) created, t.1)).

Definition RotateToken (id : string) : M (result auth_error string) :=
  u <-? in_store (call (UsersGet id)) ;;
  if negb (IsService u) then Ret (Err ErrNotAServiceAccount)
  else
    t <-? newToken ;;
    now ← call Now;
    do? in_store (call (UsersPut (set_token t.2 now (TokenExpiresAt u) u))) ;;
    Ret (Ok t.1).

Definition noteTokenUse (u : User) : M unit :=
  now ← call Now;
  if bool_decide (time_sub now (LastUsedAt u) < tokenUseThrottle)%Z then Ret tt
  else call (UsersPut (set_last_used now u)) ;; Ret tt.

(** The scan: the last account that holds the hash. *)
Definition holder (want : string) (users : list User) : option User :=
  fold_left (fun found u =>
    if negb (IsService u) || bool_decide (TokenHash u = "") then found
    else if bool_decide (TokenHash u = want) then Some u else found) users None.

Definition AuthenticateToken (token : string) : M (result auth_error User) :=
  let want := hashToken token in
  if bool_decide (want = "") then Ret (Err ErrInvalidToken)
  else
    users <-? in_store (call UsersList) ;;
    match holder want users with
    | None => Ret (Err ErrInvalidToken)
    | Some found =>
        expired ← (if bool_decide (TokenExpiresAt found = zero_time) then Ret false
                   else now ← call Now; Ret (negb (bool_decide (now < TokenExpiresAt found)%Z)));
        if (expired : bool) then Ret (Err ErrTokenExpired)
        else noteTokenUse found ;; Ret (Ok found)
    end.

(* ------------------------------------------------------------------ *)
(** ** The break-glass account *)

Definition BreakGlassUsername : string := "break-glass".
Definition BreakGlassID : string := "u-break-glass".
Definition DefaultBreakGlassTTL : duration := (15 * minute)%Z.
Definition MaxBreakGlassTTL : duration := (24 * hour)%Z.

Definition MintBreakGlass (ttl : duration) : M (result auth_error (User * string)) :=
  let ttl := if bool_decide (ttl <= 0)%Z then DefaultBreakGlassTTL else ttl in
  if bool_decide (MaxBreakGlassTTL < ttl)%Z then Ret (Err ErrTTLTooLong)
  else
    t <-? newToken ;;
    now ← call Now;
    r ← call (UsersGet BreakGlassID);
    match (match r with
           | Ok u => if negb (IsService u) then Err ErrNotAServiceAccount else Ok u
           | Err ErrNotFound => Ok (service_user BreakGlassID BreakGlassUsername now)
           | Err e => Err (EStore e)
           end) with
    | Err e => Ret (Err e)
    | Ok existing =>
        saved <-? in_store (call (UsersPut (set_token t.2 now (now + ttl)%Z (set_role RoleAdmin existing)))) ;;
        Ret (Ok (set_token "" (TokenIssuedAt saved) (TokenExpiresAt saved) saved, t.1))
    end.

(* ------------------------------------------------------------------ *)
(** ** Accounts *)

Definition Users : M (result auth_error (list User)) :=
  users <-? in_store (call UsersList) ;;
  Ret (Ok (map (fun u => set_role (OrAdmin (Role u)) (set_password "" u)) users)).

Definition CreateUser (id username password role : string) : M (result auth_error User) :=
  let username := trim_space username in
  if negb (role_valid role) then Ret (Err ErrInvalidRole)
  else
    do? username_free username ;;
    hash <-? Hash password ;;
    now ← call Now;
    created <-? in_store (call (UsersPut (set_role role (set_password hash (new_user id username now))))) ;;
    Ret (Ok (set_password "" created)).

Definition refuseIfLastAdmin (id : string) : M (result auth_error unit) :=
  users <-? in_store (call UsersList) ;;
  Ret (if existsb (fun u => negb (bool_decide (ID u = id)) && is_admin u) users then Ok tt else Err ErrLastAdmin).

Definition SetRole (actor id role : string) : M (result auth_error User) :=
  if negb (role_valid role) then Ret (Err ErrInvalidRole)
  else
    u <-? in_store (call (UsersGet id)) ;;
    do? (if is_admin u && negb (bool_decide (role = RoleAdmin))
         then if bool_decide (id = actor) then Ret (Err ErrSelfDemotion) else refuseIfLastAdmin id
         else Ret (Ok tt)) ;;
    saved <-? in_store (call (UsersPut (set_role role u))) ;;
    Ret (Ok (set_password "" saved)).

Definition DeleteUser (id : string) : M (result auth_error unit) :=
  u <-? in_store (call (UsersGet id)) ;;
  do? (if is_admin u then refuseIfLastAdmin id else Ret (Ok tt)) ;;
  in_store (call (UsersDelete id)).

Definition SetPassword (id password : string) : M (result auth_error unit) :=
  u <-? in_store (call (UsersGet id)) ;;
  hash <-? Hash password ;;
  do? in_store (call (UsersPut (set_password hash u))) ;;
  Ret (Ok tt).

(* ------------------------------------------------------------------ *)
(** ** Identities at the provider *)

Definition bound_to (issuer subject : string) (u : User) : bool :=
  bool_decide (Issuer u = issuer) && bool_decide (Subject u = subject).

Definition FindByIdentity (issuer subject : string) : M (result auth_error User) :=
  if bool_decide (issuer = "") || bool_decide (subject = "") then Ret (Err ErrNoIdentityBinding)
  else
    users <-? in_store (call UsersList) ;;
    Ret (match List.find (fun u => negb (IsService u || negb (HasIdentityBinding u)) && bound_to issuer subject u) users with
         | Some u => Ok u
         | None => Err ErrNoIdentityBinding
         end).

(** The loop over two attempts. *)
Fixpoint bind_attempts (attempts : nat) (id issuer subject : string) : M (result auth_error User) :=
  u <-? in_store (call (UsersGet id)) ;;
  if IsService u then Ret (Err ErrNotAPerson)
  else if HasIdentityBinding u then
    Ret (if bound_to issuer subject u then Ok (set_password "" u) else Err ErrAlreadyBound)
  else
    r ← call (UsersPut (set_identity issuer subject u));
    match r, attempts with
    | Ok bound, _ => Ret (Ok (set_password "" bound))
    | Err ErrConflict, S attempts => bind_attempts attempts id issuer subject
    | Err e, _ => Ret (Err (EStore e))
    end.

Definition BindIdentity (account : User) (issuer subject : string) : M (result auth_error User) :=
  if bool_decide (issuer = "") || bool_decide (subject = "") then Ret (Err ErrEmptyIdentity)
  else bind_attempts 1 (ID account) issuer subject.

Definition UnlinkIdentity (id : string) : M (result auth_error User) :=
  u <-? in_store (call (UsersGet id)) ;;
  if negb (HasIdentityBinding u) then Ret (Err ErrNotLinked)
  else
    saved <-? in_store (call (UsersPut (set_identity "" "" u))) ;;
    Ret (Ok (set_password "" saved)).

Definition PersonAccounts : M (result auth_error (list User)) :=
  users <-? Users ;;
  Ret (Ok (filter (fun u => IsService u = false) users)).

Definition SinglePersonAccount : M (result auth_error User) :=
  people <-? PersonAccounts ;;
  Ret (match people with
       | [] => Err ErrNoPersonAccount
       | [u] => Ok u
       | _ => Err ErrSeveralPersonAccounts
       end).

(* ------------------------------------------------------------------ *)
(** ** Links of wall screens *)

Definition MaxWallLinks : nat := 8.
Definition wallUseThrottle : duration := minute.

Definition currentSettings : M (result auth_error Settings) :=
  r ← call SettingsGet;
  Ret (match r with Ok s => Ok s | Err ErrNotFound => Ok no_settings | Err e => Err (EStore e) end).

Definition set_links (l : list WallLink) (s : Settings) : Settings := mkSettings l (SettingsRev s).
Definition hide_hash (l : WallLink) : WallLink := mkWallLink (wl_id l) (wl_label l) "" (wl_created l) (wl_created_by l) (wl_last_used l).

(** The first sixteen characters of another token, without its prefix. *)
Definition link_id (token : string) : string := String.substring 0 16 (default token (cut_prefix WallTokenPrefix token)).

Definition CreateWallLink (label createdBy : string) : M (result auth_error (WallLink * string)) :=
  let label := trim_space label in
  if bool_decide (label = "") then Ret (Err ErrInvalidWallLink)
  else
    settings <-? currentSettings ;;
    if bool_decide (MaxWallLinks <= length (WallLinks settings)) then Ret (Err ErrTooManyWallLinks)
    else
      t <-? newWallToken ;;
      i <-? newWallToken ;;
      now ← call Now;
      let link := mkWallLink (link_id i.1) label t.2 now createdBy zero_time in
      do? in_store (call (SettingsPut (set_links (WallLinks settings ++ [link]) settings))) ;;
      Ret (Ok (hide_hash link, t.1)).

Definition WallLinksOf : M (result auth_error (list WallLink)) :=
  settings <-? currentSettings ;;
  Ret (Ok (map hide_hash (WallLinks settings))).

Definition RevokeWallLink (id : string) : M (result auth_error unit) :=
  settings <-? currentSettings ;;
  if negb (existsb (fun l => bool_decide (wl_id l = id)) (WallLinks settings)) then Ret (Err ErrNoSuchWallLink)
  else do? in_store (call (SettingsPut (set_links (filter (fun l => wl_id l <> id) (WallLinks settings)) settings))) ;; Ret (Ok tt).

Fixpoint mark_used (id : string) (now : time) (links : list WallLink) : option (list WallLink) :=
  match links with
  | [] => None
  | l :: links =>
      if bool_decide (wl_id l = id)
      then Some (mkWallLink (wl_id l) (wl_label l) (wl_hash l) (wl_created l) (wl_created_by l) now :: links)
      else cons l <$> mark_used id now links
  end.

Definition noteWallLinkUse (settings : Settings) (link : WallLink) : M unit :=
  now ← call Now;
  if bool_decide (time_sub now (wl_last_used link) < wallUseThrottle)%Z then Ret tt
  else match mark_used (wl_id link) now (WallLinks settings) with
       | None => Ret tt
       | Some links => call (SettingsPut (set_links links settings)) ;; Ret tt
       end.

Definition link_holder (want : string) (links : list WallLink) : option WallLink :=
  fold_left (fun found l => if bool_decide (wl_hash l = "") then found else if bool_decide (wl_hash l = want) then Some l else found) links None.

Definition AuthenticateWallLink (token : string) : M (result auth_error WallLink) :=
  let want := hashWallToken token in
  if bool_decide (want = "") then Ret (Err ErrInvalidWallLink)
  else
    settings <-? currentSettings ;;
    match link_holder want (WallLinks settings) with
    | None => Ret (Err ErrInvalidWallLink)
    | Some found => noteWallLinkUse settings found ;; Ret (Ok (hide_hash found))
    end.

End Service.
