(* ===== verification/AuthSafety.v ===== *)
(** * What authentication guarantees

    The world of [Auth.v]: the record store, the session of the request, the clock,
    the random source and what other requests do in between. Who a session is for and
    until when; that an admin remains; what a token is good for. *)

From S2P Require Import Prelude Effects RecordStore Auth.

#[global] Program Instance settings_record : Record Settings :=
  {| rec_key _ := "settings"; rec_rev := SettingsRev; rec_set_rev v s := mkSettings (WallLinks s) v |}.
Solve All Obligations with reflexivity.

(* ------------------------------------------------------------------ *)
(** ** The world *)

#[global] Arguments wp : simpl never.

Section Safety.
Context `{AuthLib}.

(** [w_seen] and [w_times] are not part of the program: every account a request has
    read, and every time the clock has told it. *)
Record World := mkWorld {
  w_users : gmap string (option User);
  w_settings : gmap string (option Settings);
  w_sessions : list string;
  w_session : session;
  w_seen : list User;
  w_times : list time
}.

(** What the environment chooses for a call: what others have made of the stores
    before it, how the call fails, the time, random bytes, a hash, a session's new
    token. *)
Record choice := mkChoice {
  x_users : gmap string (option User) -> gmap string (option User);
  x_settings : gmap string (option Settings) -> gmap string (option Settings);
  x_fault : fault;
  x_time : time;
  x_bytes : result unit (list Z);
  x_hash : result unit string;
  x_token : result unit string
}.

Definition set_users (m : gmap string (option User)) (w : World) : World := mkWorld m (w_settings w) (w_sessions w) (w_session w) (w_seen w) (w_times w).
Definition set_settings (m : gmap string (option Settings)) (w : World) : World := mkWorld (w_users w) m (w_sessions w) (w_session w) (w_seen w) (w_times w).
Definition set_session (s : session) (w : World) : World := mkWorld (w_users w) (w_settings w) (w_sessions w) s (w_seen w) (w_times w).
Definition saw (l : list User) (w : World) : World := mkWorld (w_users w) (w_settings w) (w_sessions w) (w_session w) (w_seen w ++ l) (w_times w).
Definition told (t : time) (w : World) : World := mkWorld (w_users w) (w_settings w) (w_sessions w) (w_session w) (w_seen w) (w_times w ++ [t]).
Definition ok_list {A} (r : result store_error (list A)) : list A := match r with Ok l => l | Err _ => [] end.
Definition ok_one {A} (r : result store_error A) : list A := match r with Ok a => [a] | Err _ => [] end.

Definition others (x : choice) (w : World) : World := set_settings (x_settings x (w_settings w)) (set_users (x_users x (w_users w)) w).

#[global] Instance auth_handler : Handler authCall World choice := fun R c x w =>
  let w := others x w in
  match c in authCall R return R * World with
  | Now => (x_time x, told (x_time x) w)
  | Random => (x_bytes x, w)
  | CreateHash _ => (x_hash x, w)
  | UsersList => let r := store_list (x_fault x) (w_users w) in (r, saw (ok_list r) w)
  | UsersGet id => let r := store_get (x_fault x) (w_users w) id in (r, saw (ok_one r) w)
  | UsersPut u => let '(m, r) := store_put (x_fault x) (w_users w) u in (r, set_users m w)
  | UsersDelete id => let '(m, r) := store_delete (x_fault x) (w_users w) id in (r, set_users m w)
  | SettingsGet => (store_get (x_fault x) (w_settings w) "settings", w)
  | SettingsPut s => let '(m, r) := store_put (x_fault x) (w_settings w) s in (r, set_settings m w)
  | SessionsList => (match x_fault x with NoFault => Ok (w_sessions w) | _ => Err ErrIO end, w)
  | SessionsDelete id =>
      (match x_fault x with FaultBefore => Err ErrIO | _ => Ok tt end,
       match x_fault x with
       | FaultBefore => w
       | _ => mkWorld (w_users w) (w_settings w) (filter (fun k => k <> id) (w_sessions w)) (w_session w) (w_seen w) (w_times w)
       end)
  | SessionGet => (w_session w, w)
  | SessionSet s => (tt, set_session s w)
  | SessionRenew => match x_token x with Ok t => (Ok tt, set_session (srenew t (w_session w)) w) | Err e => (Err e, w) end
  | SessionDestroy => match x_fault x with NoFault => (Ok tt, set_session (sdestroy (w_session w)) w) | _ => (Err tt, w) end
  end.

Abbreviation any := (fun _ : choice => True).
Abbreviation always := (fun _ : World => True).

(* ------------------------------------------------------------------ *)
(** ** Rules *)

Lemma wp_in_store {A} good I (c : authCall (result store_error A)) Q w :
  wp good I (call c) (fun r v => Q (match r with Ok a => Ok a | Err e => Err (EStore e) end) v) w -> wp good I (in_store (call c)) Q w.
Proof. intros Hw. apply wp_bind. eapply wp_post; [exact Hw|]. intros r v Hi Hq. by apply wp_ret. Qed.

Lemma wp_in_library {A} good I (c : authCall (result unit A)) Q w :
  wp good I (call c) (fun r v => Q (match r with Ok a => Ok a | Err e => Err ELibrary end) v) w -> wp good I (in_library (call c)) Q w.
Proof. intros Hw. apply wp_bind. eapply wp_post; [exact Hw|]. intros r v Hi Hq. by apply wp_ret. Qed.

(** What was seen stays seen. *)
Definition grown (w w1 : World) : Prop := w_seen w `prefix_of` w_seen w1 /\ w_times w `prefix_of` w_times w1.
#[local] Instance grown_refl : Reflexive grown.
Proof. by split. Qed.
#[local] Instance grown_trans : Transitive grown.
Proof. intros w1 w2 w3 [H1 H2] [H3 H4]. split; by etransitivity. Qed.

(** What does not touch the session. *)
Definition calm (w w1 : World) : Prop := w_session w1 = w_session w /\ grown w w1.

Lemma calm_refl w : calm w w.
Proof. by split. Qed.
Lemma calm_trans w1 w2 w3 : calm w1 w2 -> calm w2 w3 -> calm w1 w3.
Proof. intros [H1 H2] [H3 H4]. split; [congruence|by etransitivity]. Qed.

Lemma wp_session_put k v (Q : unit -> World -> Prop) w :
  (forall w1, w_session w1 = sput k v (w_session w) -> grown w w1 -> Q tt w1) -> wp any always (session_put k v) Q w.
Proof.
  intros Hq. unfold session_put. apply wp_bind, wp_call; [done|]. intros x _. split; [done|]. apply wp_call; [done|]. intros x' _. split; [done|].
  by apply Hq.
Qed.

Lemma wp_session_remove k (Q : unit -> World -> Prop) w :
  (forall w1, w_session w1 = sremove k (w_session w) -> grown w w1 -> Q tt w1) -> wp any always (session_remove k) Q w.
Proof.
  intros Hq. unfold session_remove. apply wp_bind, wp_call; [done|]. intros x _. split; [done|]. apply wp_call; [done|]. intros x' _. split; [done|].
  by apply Hq.
Qed.

Lemma wp_now (Q : time -> World -> Prop) w : (forall t w1, calm w w1 -> t ∈ w_times w1 -> Q t w1) -> wp any always (call Now) Q w.
Proof.
  intros Hq. apply wp_call; [done|]. intros x _. split; [done|]. apply Hq; [|by apply elem_of_app; right; apply list_elem_of_here].
  split; [done|]. split; [done|]. by apply prefix_app_r.
Qed.

Lemma wp_create_hash p (Q : result unit string -> World -> Prop) w : (forall r w1, calm w w1 -> Q r w1) -> wp any always (call (CreateHash p)) Q w.
Proof. intros Hq. apply wp_call; [done|]. intros x _. split; [done|]. apply Hq. by split. Qed.

Lemma wp_users_put u (Q : result store_error User -> World -> Prop) w : (forall r w1, calm w w1 -> Q r w1) -> wp any always (call (UsersPut u)) Q w.
Proof. intros Hq. apply wp_call; [done|]. intros x _. split; [done|]. unfold act, auth_handler. destruct (store_put _ _ _) as [m r]. apply Hq. by split. Qed.

Lemma wp_users_list (Q : result store_error (list User) -> World -> Prop) w :
  (forall r w1, calm w w1 -> (forall l u, r = Ok l -> u ∈ l -> u ∈ w_seen w1) -> Q r w1) -> wp any always (call UsersList) Q w.
Proof.
  intros Hq. apply wp_call; [done|]. intros x _. split; [done|]. cbn. apply Hq.
  - split; [done|]. split; [by apply prefix_app_r|done].
  - intros l u E Hu. cbn. rewrite E. cbn. apply elem_of_app. by right.
Qed.

Lemma wp_users_get id (Q : result store_error User -> World -> Prop) w :
  (forall r w1, calm w w1 -> (forall u, r = Ok u -> stored (w_users w1) id = Some u) -> Q r w1) -> wp any always (call (UsersGet id)) Q w.
Proof.
  intros Hq. apply wp_call; [done|]. intros x _. split; [done|]. cbn. apply Hq.
  - split; [done|]. split; [by apply prefix_app_r|done].
  - intros u. cbn. unfold store_get, stored. destruct (safeKey id); [|done]. cbn. destruct (x_fault x); [|done..].
    destruct (x_users x (w_users w) !! id) as [[u'|]|]; [|done..]. by intros [= ->].
Qed.

Lemma wp_session_get (Q : session -> World -> Prop) w : (forall w1, calm w w1 -> Q (w_session w1) w1) -> wp any always (call SessionGet) Q w.
Proof. intros Hq. apply wp_call; [done|]. intros x _. split; [done|]. cbn. apply (Hq (others x w)). by split. Qed.

Lemma wp_session_renew (Q : result unit unit -> World -> Prop) w :
  (forall t w1, w_session w1 = srenew t (w_session w) -> grown w w1 -> Q (Ok tt) w1) ->
  (forall w1, calm w w1 -> Q (Err tt) w1) -> wp any always (call SessionRenew) Q w.
Proof.
  intros H1 H2. apply wp_call; [done|]. intros x _. split; [done|]. cbn. destruct (x_token x) as [t|[]]; cbn; [by eapply H1|]. apply H2. by split.
Qed.

(* ------------------------------------------------------------------ *)
(** ** Sign-ins *)

(** How somebody came in, and what the session says of it. *)
Inductive how :=
  | ByPassword (username password : string)
  | BySetup (u : User)
  | ByProvider (u : User) (issuer subject : string).

Record signin := mkSignin { si_user : string; si_stamp : Z; si_how : how }.

(** A session as a sign-in leaves it: the identity, the moment, and for one through
    the provider the identity there. *)
Definition marked (e : signin) (s : session) : Prop :=
  get_string s sessionKeyUser = si_user e /\ get_int64 s sessionKeyAuthenticatedAt = si_stamp e /\
  match si_how e with
  | ByProvider _ issuer subject =>
      get_bool s sessionKeyProviderSignIn = true /\ get_string s sessionKeyProviderBinding = bindingFingerprint issuer subject
  | _ => get_bool s sessionKeyProviderSignIn = false
  end.

(** What a sign-in rests on: an account of a person that was read, whose password was
    given; or the account the caller names. *)
Definition vouched (seen : list User) (e : signin) : Prop :=
  match si_how e with
  | ByPassword username password =>
      exists u, u ∈ seen /\ ID u = si_user e /\ IsService u = false /\ normalizeUsername (Username u) = normalizeUsername username /\
        compare password (PasswordHash u) = Ok true
  | BySetup u => ID u = si_user e /\ IsService u = false
  | ByProvider u _ _ => ID u = si_user e /\ IsService u = false
  end.

(** The stamp is a time the clock told. *)
Definition timely (times : list time) (e : signin) : Prop := exists t, t ∈ times /\ si_stamp e = unix_nano t.
Definition clocked (w : World) : Prop := exists t, t ∈ w_times w /\ get_int64 (w_session w) sessionKeyAuthenticatedAt = unix_nano t.

Lemma clocked_later w w1 : calm w w1 -> clocked w -> clocked w1.
Proof. intros [Es [_ [more Et]]] (t & Ht & E). exists t. rewrite Et, Es. split; [apply elem_of_app; by left|done]. Qed.

Lemma vouched_later seen seen' e : seen `prefix_of` seen' -> vouched seen e -> vouched seen' e.
Proof.
  intros [more ->]. unfold vouched. destruct (si_how e); [|done..]. intros (u & Hu & Hr). exists u. split; [|done]. apply elem_of_app. by left.
Qed.

Ltac session_keys := unfold get_string, get_int64, get_bool, sessionKeyUser, sessionKeyAuthenticatedAt, sessionKeyProviderSignIn,
  sessionKeyProviderBinding, sessionKeySudoAt;
  repeat first [rewrite sget_put | rewrite sget_remove | rewrite sget_put_ne by done | rewrite sget_remove_ne by done | rewrite sget_renew].

Lemma mark_spec id (Q : unit -> World -> Prop) w :
  (forall w1, (forall h, (match h with ByProvider _ _ _ => False | _ => True end) -> marked (mkSignin id (get_int64 (w_session w1) sessionKeyAuthenticatedAt) h) (w_session w1)) ->
     clocked w1 -> grown w w1 -> Q tt w1) ->
  wp any always (markAuthenticated id) Q w.
Proof.
  intros Hq. unfold markAuthenticated. apply wp_bind, wp_session_put. intros w1 E1 S1. apply wp_bind, wp_now. intros t w2 [E2 S2] Ht.
  apply wp_bind, wp_session_put. intros w3 E3 S3. apply wp_bind, wp_session_remove. intros w4 E4 S4. apply wp_session_remove. intros w5 E5 S5.
  assert (Es : w_session w5 = sremove sessionKeyProviderBinding (sremove sessionKeyProviderSignIn
    (sput sessionKeyAuthenticatedAt (VInt64 (unix_nano t)) (sput sessionKeyUser (VString id) (w_session w))))) by congruence.
  assert (S25 : grown w2 w5) by (etransitivity; [exact S3|]; by etransitivity). apply Hq.
  - intros h Hh. rewrite Es. unfold marked. cbn [si_user si_stamp si_how]. split; [by session_keys|]. split; [done|]. destruct h; [by session_keys..|done].
  - exists t. split; [by eapply elem_of_prefix; [exact Ht|apply S25]|]. rewrite Es. by session_keys.
  - etransitivity; [exact S1|]. by etransitivity.
Qed.

Lemma find_username_spec want l u : find_username want l = Some u -> u ∈ l /\ normalizeUsername (Username u) = want.
Proof.
  induction l as [|v l IH]; [done|]. cbn [find_username]. case_bool_decide as E.
  - intros [= ->]. split; [apply list_elem_of_here|done].
  - intros [H1 H2]%IH. split; [by apply list_elem_of_further|done].
Qed.

Lemma verify_password_spec username password (Q : result auth_error User -> World -> Prop) w :
  (forall r w1, calm w w1 -> (forall u, r = Ok u -> vouched (w_seen w1) (mkSignin (ID u) 0 (ByPassword username password))) -> Q r w1) ->
  wp any always (verifyPassword username password) Q w.
Proof.
  intros Hq. unfold verifyPassword, FindByUsername. apply wp_bind, wp_try, wp_in_store, wp_users_list. intros r w1 Hc Hseen.
  assert (Herr : forall e, Q (Err e) w1) by (intros e; by apply Hq).
  destruct r as [l|e].
  - apply wp_ret; [done|]. destruct (find_username _ l) as [u|] eqn:Ef; [|by apply wp_ret].
    destruct (IsService u) eqn:Es; [by apply wp_ret|]. unfold Verify. destruct (compare password (PasswordHash u)) as [[]|] eqn:Ec; [|by apply wp_ret..].
    apply wp_ret; [done|]. apply Hq; [done|]. intros u' [= <-]. apply find_username_spec in Ef as [Hin Hn]. exists u. split_and!; try done. by apply (Hseen l).
  - by destruct e; apply wp_ret.
Qed.

(** A sign-in with what its request saw: the accounts it read, and the times the
    clock told it. *)
Abbreviation witnessed := (signin * (list User * list time))%type (only parsing).

(** What a session says is a sign-in of the list, its request read an account for it,
    and its stamp is a time the clock told that request. *)
Definition accounted (l : list witnessed) (s : session) : Prop :=
  get_string s sessionKeyUser = "" \/ exists e seen times, (e, (seen, times)) ∈ l /\ marked e s /\ vouched seen e /\ timely times e.

(** A request that may change a session, with the sign-in it makes, if any. *)
Inductive request :=
  | RLogin (active : Params) (username password : string)
  | RSetup (u : User)
  | RProvider (u : User) (issuer subject : string)
  | RLogout
  | ROpenSudo
  | RTouchSudo
  | RChangePassword (lifetime : duration) (current next : string).

Definition signed (h : how) (id : string) : prog authCall (list signin) :=
  s ← call SessionGet; Ret [mkSignin id (get_int64 s sessionKeyAuthenticatedAt) h].

Definition serve (q : request) : prog authCall (list signin) :=
  match q with
  | RLogin active username password =>
      r ← Login active username password;
      match r with
      | Ok _ => s ← call SessionGet; signed (ByPassword username password) (get_string s sessionKeyUser)
      | Err _ => Ret []
      end
  | RSetup u =>
      r ← StartSession u;
      match r with Ok _ => signed (BySetup u) (ID u) | Err _ => Ret [] end
  | RProvider u issuer subject =>
      r ← StartProviderSession u issuer subject;
      match r with Ok _ => signed (ByProvider u issuer subject) (ID u) | Err _ => Ret [] end
  | RLogout => Logout ;; Ret []
  | ROpenSudo => OpenSudoWindow ;; Ret []
  | RTouchSudo => TouchSudoWindow ;; Ret []
  | RChangePassword lifetime current next => ChangePassword lifetime None current next ;; Ret []
  end.

(** The past of a session: the requests that had it, whatever the stores held and
    others did in the meantime. *)
Inductive history : list witnessed -> session -> Prop :=
  | h_new : history [] no_session
  | h_step l s q w xs evs rest w' :
      history l s -> w_session w = s -> w_seen w = [] -> w_times w = [] -> run (serve q) xs w = (Some evs, rest, w') ->
      history (l ++ map (fun e => (e, (w_seen w', w_times w'))) evs) (w_session w').

Lemma signed_spec h id (Q : list signin -> World -> Prop) w :
  (forall w1, calm w w1 -> Q [mkSignin id (get_int64 (w_session w1) sessionKeyAuthenticatedAt) h] w1) -> wp any always (signed h id) Q w.
Proof. intros Hq. unfold signed. apply wp_bind, wp_session_get. intros w1 Hc. apply wp_ret; [done|]. by apply Hq. Qed.

(** A request leaves the session as it was, or as a sign-in it reports left it, or
    without anybody. *)
Definition outcome (w : World) (evs : list signin) (w' : World) : Prop :=
  (get_string (w_session w') sessionKeyUser = "" \/
   (forall e, marked e (w_session w) -> marked e (w_session w')) /\ get_string (w_session w') sessionKeyUser = get_string (w_session w) sessionKeyUser \/
   exists e, e ∈ evs /\ marked e (w_session w') /\ vouched (w_seen w') e /\ timely (w_times w') e).

Lemma outcome_calm w w' evs : calm w w' -> outcome w evs w'.
Proof. intros [E Hs]. right. left. by rewrite E. Qed.

Lemma rehash_spec active u password (Q : User -> World -> Prop) w :
  (forall u' w1, calm w w1 -> Q u' w1) -> wp any always (rehashIfOutdated active u password) Q w.
Proof.
  intros Hq. unfold rehashIfOutdated. destruct (negb _); [apply wp_ret; [done|]; apply Hq, calm_refl|].
  unfold Hash. case_bool_decide; apply wp_bind.
  - apply wp_ret; [done|]. apply wp_ret; [done|]. apply Hq, calm_refl.
  - apply wp_in_library, wp_create_hash. intros [h|e] w1 C1; [|by apply wp_ret; [|apply Hq]].
    apply wp_bind, wp_users_put. intros r w2 C2. apply wp_ret; [done|]. apply Hq. by eapply calm_trans.
Qed.

Lemma login_outcome active username password w : wp any always (serve (RLogin active username password)) (fun evs w' => outcome w evs w') w.
Proof.
  cbn [serve]. apply wp_bind. unfold Login. apply wp_try, verify_password_spec. intros r w1 C1 Hv. destruct r as [u|e]; [|apply wp_ret; [done|]; by apply outcome_calm].
  apply wp_try, wp_in_library, wp_session_renew.
  - intros t w2 E2 S2. apply wp_bind, mark_spec. intros w3 Hm Ht S3. apply wp_bind, rehash_spec. intros u' w4 C4. apply wp_ret; [done|].
    apply wp_bind, wp_session_get. intros w5 C5. apply signed_spec. intros w6 C6. right. right. eexists. split; [apply list_elem_of_here|].
    assert (C36 : calm w3 w6) by (eapply calm_trans; [exact C4|]; by eapply calm_trans). pose proof C36 as [Es S36].
    pose proof (Hm (ByPassword username password) I) as (M1 & M2 & M3). rewrite Es, (proj1 C5), (proj1 C4), M1. split; [by split_and!|]. split.
    + eapply vouched_later; [apply S36|]. destruct (Hv u eq_refl) as (u0 & V1 & V2). exists u0. split; [|done].
      eapply elem_of_prefix; [exact V1|]. etransitivity; [apply S2|apply S3].
    + destruct (clocked_later _ _ C36 Ht) as (t' & Hin & E). exists t'. split; [done|]. cbn [si_stamp]. by rewrite <- Es.
  - intros w2 C2. apply wp_ret; [done|]. apply outcome_calm. by eapply calm_trans.
Qed.

Lemma start_spec u h (Q : result auth_error unit -> World -> Prop) w :
  (match h with ByProvider _ _ _ => False | _ => True end) ->
  (forall e w1, calm w w1 -> Q (Err e) w1) ->
  (forall w1, IsService u = false -> marked (mkSignin (ID u) (get_int64 (w_session w1) sessionKeyAuthenticatedAt) h) (w_session w1) ->
     clocked w1 -> Q (Ok tt) w1) ->
  wp any always (StartSession u) Q w.
Proof.
  intros Hh H1 H2. unfold StartSession. destruct (IsService u) eqn:Eu; [apply wp_ret; [done|]; by apply H1|].
  apply wp_try, wp_in_library, wp_session_renew; [|by intros w1 C1; apply H1].
  intros t w1 E1 S1. apply wp_bind, mark_spec. intros w2 Hm Ht S2. apply wp_ret; [done|]. apply H2; [done|by apply Hm|done].
Qed.

(** A program that only reads the session. *)
Fixpoint quiet {A} (p : prog authCall A) : Prop :=
  match p with
  | Ret _ | Stuck => True
  | Act c k => match c with SessionSet _ | SessionRenew | SessionDestroy => False | _ => True end /\ forall r, quiet (k r)
  end.

Lemma quiet_calm {A} (p : prog authCall A) w : quiet p -> wp any always p (fun _ w' => calm w w') w.
Proof.
  intros Hq. enough (H' : forall w0, calm w0 w -> wp any always p (fun _ w' => calm w0 w') w) by (apply H', calm_refl). revert w Hq.
  induction p as [a| |R c k IH]; intros w Hq w0 H0; [by apply wp_ret|by split|]. destruct Hq as [Hc Hk]. apply wp_act; [done|]. intros x _. apply IH; [apply Hk|].
  eapply calm_trans; [exact H0|]. destruct c; try done; cbn; unfold act, auth_handler.
  - split; [done|]. split; [done|]. by apply prefix_app_r.
  - split; [done|]. split; [|done]. by apply prefix_app_r.
  - split; [done|]. split; [|done]. by apply prefix_app_r.
  - by destruct (store_put _ _ _) as [m r].
  - by destruct (store_delete _ _ _) as [m r].
  - by destruct (store_put _ _ _) as [m r].
  - by destruct (x_fault x).
Qed.

Lemma hushed_bind {A B} (p : prog authCall A) (f : A -> prog authCall B) : quiet p -> (forall a, quiet (f a)) -> quiet (p ≫= f).
Proof. intros Hp Hf. induction p as [a| |R c k IH]; [apply Hf|done|]. destruct Hp as [H1 H2]. split; [done|]. intros r. by apply IH. Qed.

Lemma hushed_try {A B} (p : prog authCall (result auth_error A)) (f : A -> prog authCall (result auth_error B)) :
  quiet p -> (forall a, quiet (f a)) -> quiet (try f p).
Proof. intros Hp Hf. apply hushed_bind; [done|]. intros [a|e]; [apply Hf|done]. Qed.

Lemma quiet_each {A} (f : A -> prog authCall (result auth_error unit)) l : (forall a, quiet (f a)) -> quiet (each f l).
Proof. intros Hf. induction l as [|a l IH]; [done|]. apply hushed_try; [apply Hf|done]. Qed.

Ltac hushed := repeat first
  [ done | apply hushed_try; [|intros] | apply hushed_bind; [|intros] | apply quiet_each; intros
  | progress unfold in_store, in_library | case_match | case_bool_decide ].

Lemma change_password_quiet lifetime actor current next : quiet (ChangePassword lifetime actor current next).
Proof. unfold ChangePassword, CurrentUser, withinAbsoluteLifetime, Hash, InvalidateAllExcept. hushed. Qed.

Lemma note_token_quiet u : quiet (noteTokenUse u).
Proof. unfold noteTokenUse. hushed. Qed.

Lemma note_link_quiet s l : quiet (noteWallLinkUse s l).
Proof. unfold noteWallLinkUse. hushed. Qed.

Lemma serve_outcome q w : wp any always (serve q) (fun evs w' => outcome w evs w') w.
Proof.
  destruct q as [active username password|u|u issuer subject| | | |lifetime current next]; cbn [serve].
  - apply login_outcome.
  - apply wp_bind, (start_spec u (BySetup u)); [done|intros e w1 C1; apply wp_ret; [done|]; by apply outcome_calm|]. intros w1 Hu Hm Ht.
    apply signed_spec. intros w2 C2. right. right. eexists. split; [apply list_elem_of_here|]. rewrite (proj1 C2). split; [done|]. split; [done|].
    by apply (clocked_later _ _ C2) in Ht; rewrite <- (proj1 C2).
  - apply wp_bind. unfold StartProviderSession. apply wp_try, (start_spec u (BySetup u)); [done|intros e w1 C1; apply wp_ret; [done|]; by apply outcome_calm|].
    intros w1 Hu (M1 & M2 & M3) Ht. apply wp_bind, wp_session_put. intros w2 E2 S2. apply wp_bind, wp_session_put. intros w3 E3 S3. apply wp_ret; [done|].
    assert (Ht3 : clocked w3).
    { destruct Ht as (t & Hin & E). exists t. split; [eapply elem_of_prefix; [exact Hin|]; etransitivity; [apply S2|apply S3]|].
      rewrite E3, E2. unfold get_int64 in E |- *. by session_keys. }
    apply signed_spec. intros w4 C4. right. right. eexists. split; [apply list_elem_of_here|]. pose proof (clocked_later _ _ C4 Ht3) as Ht4.
    split; [|split; [done|exact Ht4]]. cbn [si_user] in M1. rewrite (proj1 C4), E3, E2. unfold marked. cbn [si_user si_stamp si_how].
    unfold get_string in M1. split; [by session_keys|]. split; [done|]. by session_keys.
  - apply wp_bind. unfold Logout. apply wp_in_library, wp_call; [done|]. intros x _. split; [done|]. cbn. destruct (x_fault x); cbn; apply wp_ret; try done.
    + left. cbn. unfold get_string. by rewrite sget_destroy.
    + by apply outcome_calm.
    + by apply outcome_calm.
  - apply wp_bind, wp_bind, wp_now. intros t w1 [E1 S1] _. apply wp_session_put. intros w2 E2 S2. apply wp_ret; [done|].
    right. left. rewrite E2, E1. unfold marked. split; [|unfold get_string; by session_keys]. intros e (M1 & M2 & M3). revert M1 M2 M3. by session_keys.
  - apply wp_bind, wp_bind, wp_now. intros t w1 [E1 S1] _. apply wp_session_put. intros w2 E2 S2. apply wp_ret; [done|].
    right. left. rewrite E2, E1. unfold marked. split; [|unfold get_string; by session_keys]. intros e (M1 & M2 & M3). revert M1 M2 M3. by session_keys.
  - apply wp_bind. eapply wp_post; [apply quiet_calm, change_password_quiet|]. intros r w1 _ C1. apply wp_ret; [done|]. by apply outcome_calm.
Qed.

(** The invariant of every session. *)
Lemma history_accounted l s : history l s -> accounted l s.
Proof.
  induction 1 as [|l s q w xs evs rest w' Hh IH Es Ew Et Hr].
  - left. unfold get_string. by rewrite sget_none.
  - destruct (wp_run _ _ _ _ _ _ _ _ _ (serve_outcome q w) ltac:(by apply Forall_true) Hr) as (_ & Ho & _). specialize (Ho evs eq_refl). subst.
    destruct Ho as [Hc|[[Hm Hg]|(e & He & Hm & Hv & Ht)]]; [by left| |].
    + destruct IH as [IH|(e & seen & times & He & Hme & Hv)]; [left; by rewrite Hg|]. right. exists e, seen, times.
      split; [apply elem_of_app; by left|]. split; [by apply Hm|done].
    + right. exists e, (w_seen w'), (w_times w'). split; [|done]. apply elem_of_app. right. apply list_elem_of_fmap. by exists e.
Qed.

Lemma from_to_unix_nano t : in_int64 (t - epoch) = true -> from_unix_nano (unix_nano t) = t.
Proof.
  unfold in_int64, from_unix_nano, unix_nano, min_int64, max_int64. rewrite andb_true_iff, !bool_decide_eq_true. intros [H1 H2]. cbv zeta.
  destruct (decide (0 <= t - epoch)%Z) as [Hp|Hn].
  - rewrite Z.mod_small by lia. rewrite bool_decide_true by lia. lia.
  - replace ((t - epoch) mod 2 ^ 64)%Z with (t - epoch + 2 ^ 64)%Z by (apply (Z.mod_unique _ _ (-1)); lia).
    rewrite bool_decide_false by lia. lia.
Qed.

(** C9: A session is somebody's only because of a sign-in, and only for as long. In
    whatever way a session came about, over any requests that had it and whatever the
    stores answered and other requests did in between: a request it authenticates as an
    account is one for a person's account on record, for which there was a sign-in
    through this session whose request read the account and was given its password, or
    that the setup or the provider made; the clock told that request a time less than
    one lifetime ago, however often the session was used since (of a clock between the
    years 1678 and 2262, which is what a stamp can hold); and if it came through the
    provider, the account is linked, now, to the identity it came in with (or one of
    the same digest). *)
Theorem session_is_a_sign_in lifetime l s w xs u rest w' T :
  history l s -> w_session w = s -> Forall (fun x => T <= x_time x)%Z xs ->
  run (CurrentUser lifetime None) xs w = (Some (Some u), rest, w') ->
  exists e seen times t, (e, (seen, times)) ∈ l /\ vouched seen e /\ stored (w_users w') (si_user e) = Some u /\ IsService u = false /\
    t ∈ times /\ si_stamp e = unix_nano t /\ (in_int64 (t - epoch) = true -> (T < t + lifetime)%Z) /\
    match si_how e with
    | ByProvider _ issuer subject =>
        HasIdentityBinding u = true /\ bindingFingerprint (Issuer u) (Subject u) = bindingFingerprint issuer subject
    | _ => True
    end.
Proof.
  intros Hh Es HT Hr. apply history_accounted in Hh.
  set (late := fun x => (T <= x_time x)%Z).
  assert (Hwp : wp late always (CurrentUser lifetime None) (fun r w' => forall u, r = Some u ->
    get_string s sessionKeyUser <> "" /\ stored (w_users w') (get_string s sessionKeyUser) = Some u /\ IsService u = false /\ providerLinkHolds s u = true /\
    (T < from_unix_nano (get_int64 s sessionKeyAuthenticatedAt) + lifetime)%Z) w).
  { unfold CurrentUser. apply wp_bind, wp_call; [done|]. intros x _. split; [done|]. cbn. rewrite Es. case_bool_decide as Eid; [by apply wp_ret|].
    apply wp_act; [done|]. intros x1 _. cbn. rewrite Es.
    case_bool_decide as Est; [by apply wp_ret|]. apply wp_act; [done|]. intros x2 Hx2. cbn. unfold within. rewrite bool_decide_false by done. cbn. case_bool_decide as Ew; cbn; [|by apply wp_ret].
    apply wp_act; [done|]. intros x3 _. cbn. unfold store_get, stored. destruct (safeKey _); cbn; [|by apply wp_ret].
    destruct (x_fault x3); [|by apply wp_ret..]. match goal with |- context [?m !! ?k] => destruct (m !! k) as [[v|]|] eqn:Em end; [|by apply wp_ret..].
    destruct (IsService v) eqn:Ev; [by apply wp_ret|]. destruct (providerLinkHolds s v) eqn:Ep; cbn; [|by apply wp_ret]. apply wp_ret; [done|].
    intros u' [= <-]. cbn. rewrite Em. split_and!; try done. unfold late in Hx2. lia. }
  destruct (wp_run _ _ _ _ _ _ _ _ _ Hwp HT Hr) as (_ & Hq & _). destruct (Hq _ eq_refl u eq_refl) as (Q1 & Q2 & Q3 & Q4 & Q5).
  destruct Hh as [Hh|(e & seen & times & He & (M1 & M2 & M3) & Hv & (t & Ht & Es'))]; [done|]. exists e, seen, times, t.
  rewrite M2, Es' in Q5. rewrite <- M1. split_and!; try done; [intros Hin; by rewrite from_to_unix_nano in Q5|].
  destruct (si_how e) as [| |v issuer subject]; [done|done|]. destruct M3 as [M3 M4]. unfold providerLinkHolds in Q4. rewrite M3, M4 in Q4. cbn in Q4.
  destruct (HasIdentityBinding u); [|done]. cbn in Q4. split; [done|]. rewrite bool_decide_false in Q4 by apply sha256_nonempty. by apply bool_decide_eq_true in Q4.
Qed.

(* ------------------------------------------------------------------ *)
(** ** An admin remains *)

(** Every record under its own name, and one of an admin. *)
Definition named (m : gmap string (option User)) : Prop := forall id u, m !! id = Some (Some u) -> ID u = id.
Definition has_admin (m : gmap string (option User)) : Prop := exists id u, m !! id = Some (Some u) /\ is_admin u = true.
Definition managed (w : World) : Prop := named (w_users w) /\ has_admin (w_users w).

(** No other request in between. *)
Definition alone (x : choice) : Prop := (forall m, x_users x m = m) /\ (forall m, x_settings x m = m).

(** What of the accounts a write may do without. *)
Definition spare (m : gmap string (option User)) (id : string) : Prop :=
  (forall u, m !! id = Some (Some u) -> is_admin u = false) \/ exists id' u, id' <> id /\ m !! id' = Some (Some u) /\ is_admin u = true.

Lemma put_managed f m u :
  named m -> has_admin m -> is_admin u = true \/ spare m (ID u) ->
  named (store_put f m u).1 /\ has_admin (store_put f m u).1.
Proof.
  intros Hn Ha Hs. unfold store_put. set (u' := rec_set_rev _ u). change (rec_key u) with (ID u).
  assert (Ei : ID u' = ID u) by by destruct u. assert (Er : is_admin u' = is_admin u) by by destruct u. clearbody u'.
  assert (Hins : named (<[ID u := Some u']> m) /\ has_admin (<[ID u := Some u']> m)).
  { split.
    - intros id v. destruct (decide (ID u = id)) as [<-|Hne]; [rewrite lookup_insert_eq; intros Ev; injection Ev as <-; exact Ei|]. rewrite lookup_insert_ne by done. apply Hn.
    - destruct Hs as [Hs|[Hs|(id & v & Hne & Hv & Hva)]].
      + exists (ID u), u'. rewrite lookup_insert_eq. by rewrite Er.
      + destruct Ha as (id & v & Hv & Hva). exists id, v. split; [|done]. rewrite lookup_insert_ne; [done|]. intros <-. apply Hs in Hv. congruence.
      + exists id, v. by rewrite lookup_insert_ne. }
  destruct (negb _); [by split|]. destruct f; [|by split|]; (destruct (m !! ID u) as [[cur|]|]; [destruct (negb _)|by split|destruct (negb _)]); first [exact Hins | by split].
Qed.

Lemma delete_managed f m id : named m -> has_admin m -> spare m id -> named (store_delete f m id).1 /\ has_admin (store_delete f m id).1.
Proof.
  intros Hn Ha Hs. assert (Hd : named (delete id m) /\ has_admin (delete id m)).
  { split; [intros k v Hv; apply lookup_delete_Some in Hv as [_ Hv]; by apply Hn|]. destruct Hs as [Hs|(k & v & Hne & Hv & Hva)].
    - destruct Ha as (k & v & Hv & Hva). exists k, v. split; [|done]. rewrite lookup_delete_ne; [done|]. intros <-. apply Hs in Hv. congruence.
    - exists k, v. by rewrite lookup_delete_ne. }
  unfold store_delete. destruct (negb _); [by split|]. destruct f; [| by split|]; destruct (m !! id); first [exact Hd|by split].
Qed.

Lemma list_stored f (m : gmap string (option User)) l u : store_list f m = Ok l -> u ∈ l -> exists id, m !! id = Some (Some u).
Proof.
  unfold store_list. destruct f; [|done..]. generalize (merge_sort file_le (elements (dom m))). intros ids. revert l. induction ids as [|id ids IH]; intros l Hl Hu.
  - injection Hl as <-. by apply elem_of_nil in Hu.
  - cbn [omap list_omap] in Hl. destruct (m !! id) as [c|] eqn:Em; [|by eapply IH]. cbn [read_all foldr] in Hl.
    destruct c as [v|]; [|done]. fold (read_all (omap (fun id => m !! id) ids)) in Hl. destruct (read_all _) as [rs|] eqn:Er; [|done]. injection Hl as <-.
    apply elem_of_cons in Hu as [->|Hu]; [by exists id|]. by eapply IH.
Qed.

Lemma alone_others x w : alone x -> others x w = w.
Proof. intros [H1 H2]. unfold others, set_settings, set_users. destruct w. cbn. by rewrite H1, H2. Qed.

(** The rules with nobody else there. *)
Lemma wpm_get id (Q : result store_error User -> World -> Prop) w :
  managed w -> (forall r w1, w_users w1 = w_users w -> (forall u, r = Ok u -> w_users w !! id = Some (Some u) /\ ID u = id) -> Q r w1) ->
  wp alone managed (call (UsersGet id)) Q w.
Proof.
  intros [Hn Ha] Hq. apply wp_call; [by split|]. intros x Hx. unfold act, auth_handler. rewrite alone_others by done. cbn. split; [by split|]. apply Hq; [done|].
  intros u E. unfold store_get in E. destruct (safeKey id); [|done]. cbn in E. destruct (x_fault x); [|done..]. destruct (w_users w !! id) as [[v|]|] eqn:Em; [|done..].
  injection E as ->. split; [done|]. by apply Hn.
Qed.

Lemma wpm_list (Q : result store_error (list User) -> World -> Prop) w :
  managed w -> (forall r w1, w_users w1 = w_users w -> (forall l u, r = Ok l -> u ∈ l -> w_users w !! ID u = Some (Some u)) -> Q r w1) ->
  wp alone managed (call UsersList) Q w.
Proof.
  intros [Hn Ha] Hq. apply wp_call; [by split|]. intros x Hx. unfold act, auth_handler. rewrite alone_others by done. cbn. split; [by split|]. apply Hq; [done|].
  intros l u E Hu. destruct (list_stored _ _ _ _ E Hu) as [id Hid]. by rewrite (Hn _ _ Hid).
Qed.

Lemma wpm_put u (Q : result store_error User -> World -> Prop) w :
  managed w -> is_admin u = true \/ spare (w_users w) (ID u) -> (forall r w1, managed w1 -> Q r w1) -> wp alone managed (call (UsersPut u)) Q w.
Proof.
  intros [Hn Ha] Hs Hq. apply wp_call; [by split|]. intros x Hx. unfold act, auth_handler. rewrite alone_others by done.
  destruct (put_managed (x_fault x) (w_users w) u Hn Ha Hs). destruct (store_put _ _ _) as [m r]. cbn. split; [by split|]. by apply Hq.
Qed.

Lemma wpm_delete id (Q : result store_error unit -> World -> Prop) w :
  managed w -> spare (w_users w) id -> (forall r w1, managed w1 -> Q r w1) -> wp alone managed (call (UsersDelete id)) Q w.
Proof.
  intros [Hn Ha] Hs Hq. apply wp_call; [by split|]. intros x Hx. unfold act, auth_handler. rewrite alone_others by done.
  destruct (delete_managed (x_fault x) (w_users w) id Hn Ha Hs). destruct (store_delete _ _ _) as [m r]. cbn. split; [by split|]. by apply Hq.
Qed.

(** A call that leaves the accounts alone. *)
Definition reading {R} (c : authCall R) : Prop := match c with UsersPut _ | UsersDelete _ => False | _ => True end.

Lemma wpm_read {R} (c : authCall R) (Q : R -> World -> Prop) w :
  reading c -> managed w -> (forall r w1, w_users w1 = w_users w -> managed w1 -> Q r w1) -> wp alone managed (call c) Q w.
Proof.
  intros Hc [Hn Ha] Hq. apply wp_call; [by split|]. intros x Hx. unfold act, auth_handler. rewrite alone_others by done.
  destruct c; try done; repeat case_match; cbn; split; try (by split); apply Hq; by try split.
Qed.

(** An account written back with the role it had. *)
Lemma same_role_spare m id u v : m !! id = Some (Some u) -> ID u = id -> ID v = ID u -> is_admin v = is_admin u -> is_admin v = true \/ spare m (ID v).
Proof. intros Hm Hi -> Ha. destruct (is_admin v) eqn:E; [by left|]. right. left. intros u' Hu'. rewrite Hi, Hm in Hu'. injection Hu' as <-. congruence. Qed.

Lemma refuse_spare id (Q : result auth_error unit -> World -> Prop) w :
  managed w -> (forall r w1, w_users w1 = w_users w -> managed w1 -> (r = Ok tt -> spare (w_users w) id) -> Q r w1) -> wp alone managed (refuseIfLastAdmin id) Q w.
Proof.
  intros Hm Hq. unfold refuseIfLastAdmin. apply wp_try, wp_in_store, wpm_list; [done|]. intros r w1 E1 Hl.
  assert (Hm1 : managed w1) by (unfold managed in *; by rewrite E1). destruct r as [l|e]; [|by apply Hq].
  apply wp_ret; [done|]. apply Hq; [done..|]. destruct (existsb _ l) eqn:Ex; [intros _|done]. apply existsb_exists in Ex as (v & Hv & Hb).
  apply andb_prop in Hb as [Hne Ha]. right. exists (ID v), v. split; [by apply negb_true_iff, bool_decide_eq_false in Hne|]. split; [|done].
  eapply Hl; [done|]. by apply list_elem_of_In.
Qed.

Lemma managed_users w w1 : w_users w1 = w_users w -> managed w -> managed w1.
Proof. intros E. unfold managed. by rewrite E. Qed.

Lemma find_username_free username (Q : result auth_error User -> World -> Prop) w :
  managed w -> (forall r w1, w_users w1 = w_users w -> managed w1 -> (forall u, r = Ok u -> w_users w !! ID u = Some (Some u)) -> Q r w1) ->
  wp alone managed (FindByUsername username) Q w.
Proof.
  intros Hm Hq. apply wp_try, wp_in_store, wpm_list; [done|]. intros r w1 E1 Hl. assert (Hm1 := managed_users _ _ E1 Hm).
  destruct r as [l|e]; [|by apply Hq]. apply wp_ret; [done|]. apply Hq; [done..|]. intros u Hu.
  destruct (find_username _ l) as [v|] eqn:Ef; [|done]. injection Hu as <-. apply find_username_spec in Ef as [Hin _]. by eapply Hl.
Qed.

(** The operations on accounts. *)
Inductive operation :=
  | OSetRole (actor id role : string)
  | ODeleteUser (id : string)
  | OCreateUser (id username password role : string)
  | OCreateServiceAccount (id username role : string)
  | ORotateToken (id : string)
  | OSetPassword (id password : string)
  | OBindIdentity (account : User) (issuer subject : string)
  | OUnlinkIdentity (id : string)
  | OMintBreakGlass (ttl : duration)
  | OAuthenticateToken (token : string)
  | OLogin (active : Params) (username password : string)
  | OChangePassword (lifetime : duration) (current next : string).

Definition perform (o : operation) : prog authCall unit :=
  match o with
  | OSetRole actor id role => SetRole actor id role ;; Ret tt
  | ODeleteUser id => DeleteUser id ;; Ret tt
  | OCreateUser id username password role => CreateUser id username password role ;; Ret tt
  | OCreateServiceAccount id username role => CreateServiceAccount id username role ;; Ret tt
  | ORotateToken id => RotateToken id ;; Ret tt
  | OSetPassword id password => SetPassword id password ;; Ret tt
  | OBindIdentity account issuer subject => BindIdentity account issuer subject ;; Ret tt
  | OUnlinkIdentity id => UnlinkIdentity id ;; Ret tt
  | OMintBreakGlass ttl => MintBreakGlass ttl ;; Ret tt
  | OAuthenticateToken token => AuthenticateToken token ;; Ret tt
  | OLogin active username password => Login active username password ;; Ret tt
  | OChangePassword lifetime current next => ChangePassword lifetime None current next ;; Ret tt
  end.

(** A new account has an identifier of its own. *)
Definition fresh (o : operation) (m : gmap string (option User)) : Prop :=
  match o with OCreateUser id _ _ _ | OCreateServiceAccount id _ _ => m !! id = None | _ => True end.

(** A program that keeps an admin, from where accounts satisfy [P]. *)
Definition keeps {A} (P : gmap string (option User) -> Prop) (p : prog authCall A) : Prop :=
  forall w, managed w -> P (w_users w) -> wp alone managed p (fun _ w' => managed w') w.

Abbreviation any_users := (fun _ : gmap string (option User) => True).

Lemma managed_ret {A} P (a : A) : keeps P (Ret a).
Proof. intros w Hm _. by apply wp_ret. Qed.

Lemma managed_bind {A B} P (p : prog authCall A) (f : A -> prog authCall B) : keeps P p -> (forall a, keeps any_users (f a)) -> keeps P (p ≫= f).
Proof. intros Hp Hf w Hm HP. apply wp_bind. eapply wp_post; [by apply Hp|]. intros a w1 _ Hm1. by apply Hf. Qed.

Lemma keeps_try {A B} P (p : prog authCall (result auth_error A)) (f : A -> prog authCall (result auth_error B)) :
  keeps P p -> (forall a, keeps any_users (f a)) -> keeps P (try f p).
Proof. intros Hp Hf. apply managed_bind; [done|]. intros [a|e]; [apply Hf|apply managed_ret]. Qed.

Lemma keeps_read_bind {A R} (P : gmap string (option User) -> Prop) (c : authCall R) (f : R -> prog authCall A) :
  reading c -> (forall r, keeps P (f r)) -> keeps P (call c ≫= f).
Proof. intros Hc Hf w Hm HP. apply wp_bind, wpm_read; [done..|]. intros r w1 E Hm1. apply Hf; [done|]. by rewrite E. Qed.

(** Programs that only read. *)
Fixpoint reads {A} (p : prog authCall A) : Prop :=
  match p with Ret _ | Stuck => True | Act c k => reading c /\ forall r, reads (k r) end.

Lemma reads_users {A} (p : prog authCall A) w : reads p -> managed w -> wp alone managed p (fun _ w' => w_users w' = w_users w /\ managed w') w.
Proof.
  intros Hp. enough (H' : forall w0 w, w_users w = w_users w0 -> managed w -> wp alone managed p (fun _ w' => w_users w' = w_users w0 /\ managed w') w) by (by apply H').
  clear w. intros w0. induction p as [a| |R c k IH]; intros w E Hm; [by apply wp_ret|by split|]. destruct Hp as [Hc Hk].
  apply (wp_bind (A := R) alone managed (call c) k). apply wpm_read; [done..|]. intros r w1 E1 Hm1. apply IH; [apply Hk|congruence|done].
Qed.

Lemma reads_bind {A B} (p : prog authCall A) (f : A -> prog authCall B) : reads p -> (forall a, reads (f a)) -> reads (p ≫= f).
Proof. intros Hp Hf. induction p as [a| |R c k IH]; [apply Hf|done|]. destruct Hp as [H1 H2]. split; [done|]. intros r. by apply IH. Qed.
Lemma reads_try {A B} (p : prog authCall (result auth_error A)) (f : A -> prog authCall (result auth_error B)) :
  reads p -> (forall a, reads (f a)) -> reads (try f p).
Proof. intros Hp Hf. apply reads_bind; [done|]. intros [a|e]; [apply Hf|done]. Qed.
Lemma reads_each {A} (f : A -> prog authCall (result auth_error unit)) l : (forall a, reads (f a)) -> reads (each f l).
Proof. intros Hf. induction l as [|a l IH]; [done|]. apply reads_try; [apply Hf|done]. Qed.

Lemma keeps_reads_bind {A B} P (p : prog authCall A) (f : A -> prog authCall B) : reads p -> (forall a, keeps P (f a)) -> keeps P (p ≫= f).
Proof. intros Hp Hf w Hm HP. apply wp_bind. eapply wp_post; [by apply reads_users|]. intros a w1 _ [E Hm1]. apply Hf; [done|]. by rewrite E. Qed.
Lemma keeps_reads_try {A B} P (p : prog authCall (result auth_error A)) (f : A -> prog authCall (result auth_error B)) :
  reads p -> (forall a, keeps P (f a)) -> keeps P (try f p).
Proof. intros Hp Hf. apply keeps_reads_bind; [done|]. intros [a|e]; [apply Hf|apply managed_ret]. Qed.

Ltac reading_only := repeat first
  [ done | apply reads_try; [|intros] | apply reads_bind; [|intros] | apply reads_each; intros
  | progress unfold in_store, in_library, Hash, newToken, new_with, username_free, FindByUsername | case_match | case_bool_decide ].

Lemma managed_put (P : gmap string (option User) -> Prop) u :
  (forall m, P m -> is_admin u = true \/ spare m (ID u)) -> keeps P (call (UsersPut u)).
Proof. intros HP w Hm Hw. apply wpm_put; [done|by apply HP|done]. Qed.
Lemma keeps_in_store {A} P (c : authCall (result store_error A)) : keeps P (call c) -> keeps P (in_store (call c)).
Proof. intros Hc. apply managed_bind; [done|]. intros. apply managed_ret. Qed.

(** An account as it is stored. *)
Definition on_record (u : User) (m : gmap string (option User)) : Prop := m !! ID u = Some (Some u).

Lemma keeps_put_back u v : ID v = ID u -> is_admin v = is_admin u -> keeps (on_record u) (call (UsersPut v)).
Proof. intros Hi Ha. apply managed_put. intros m Hm. by eapply same_role_spare. Qed.

Lemma managed_get {A} (f : result store_error User -> prog authCall A) id :
  (forall e, keeps any_users (f (Err e))) -> (forall u, ID u = id -> keeps (on_record u) (f (Ok u))) -> keeps any_users (call (UsersGet id) ≫= f).
Proof.
  intros He Hu w Hm _. apply wp_bind, wpm_get; [done|]. intros r w1 E Hr. assert (Hm1 := managed_users _ _ E Hm). destruct r as [u|e]; [|by apply He].
  destruct (Hr u eq_refl) as [Hg Hi]. apply Hu; [done..|]. unfold on_record. by rewrite E, Hi.
Qed.

Lemma keeps_get_try {A} (f : User -> prog authCall (result auth_error A)) id :
  (forall u, ID u = id -> keeps (on_record u) (f u)) -> keeps any_users (try f (in_store (call (UsersGet id)))).
Proof. intros Hu. apply managed_get; [intros; apply managed_ret|]. intros u Hi. by apply Hu. Qed.

Lemma keeps_refuse {A} (f : unit -> prog authCall (result auth_error A)) P id :
  keeps (fun m => P m /\ spare m id) (f tt) -> keeps P (try f (refuseIfLastAdmin id)).
Proof.
  intros Hf w Hm HP. apply wp_try, refuse_spare; [done|]. intros r w1 E Hm1 Hs. destruct r as [[]|e]; [|done]. apply Hf; [done|]. rewrite E. split; [done|]. by apply Hs.
Qed.

(** Each of the operations. *)
Lemma set_role_keeps actor id role : keeps any_users (SetRole actor id role).
Proof.
  unfold SetRole. destruct (role_valid role) eqn:Er; [|apply managed_ret]. apply keeps_get_try. intros u <-.
  assert (Hput : forall P, (forall m, P m -> is_admin (set_role role u) = true \/ spare m (ID u)) ->
    keeps P (saved <-? in_store (call (UsersPut (set_role role u))) ;; Ret (Ok (set_password "" saved)))).
  { intros P HP. apply keeps_try; [apply keeps_in_store; by apply managed_put|]. intros. apply managed_ret. }
  destruct (is_admin u && negb (bool_decide (role = RoleAdmin))) eqn:Ea.
  - destruct (bool_decide (ID u = actor)); [apply managed_ret|]. apply keeps_refuse, Hput. intros m [_ Hs]. by right.
  - apply Hput. intros m Hm. destruct (is_admin u) eqn:Eu.
    + left. cbn in Ea. apply negb_false_iff, bool_decide_eq_true in Ea as ->. done.
    + right. left. intros u' Hu'. unfold on_record in Hm. rewrite Hm in Hu'. by injection Hu' as <-.
Qed.

Lemma delete_user_keeps id : keeps any_users (DeleteUser id).
Proof.
  unfold DeleteUser. apply keeps_get_try. intros u <-.
  assert (Hdel : forall P, (forall m, P m -> spare m (ID u)) -> keeps P (in_store (call (UsersDelete (ID u))))).
  { intros P HP. apply keeps_in_store. intros w Hm Hw. apply wpm_delete; [done|by apply HP|done]. }
  destruct (is_admin u) eqn:Eu.
  - apply keeps_refuse, Hdel. by intros m [_ Hs].
  - apply Hdel. intros m Hm. left. intros u' Hu'. unfold on_record in Hm. rewrite Hm in Hu'. by injection Hu' as <-.
Qed.

Lemma keeps_create {A} id u (f : User -> prog authCall (result auth_error A)) :
  ID u = id -> (forall a, keeps any_users (f a)) -> keeps (fun m => m !! id = None) (try f (in_store (call (UsersPut u)))).
Proof. intros <- Hf. apply keeps_try; [|done]. apply keeps_in_store, managed_put. intros m Hm. right. left. intros u' Hu'. congruence. Qed.

Lemma create_user_keeps id username password role : keeps (fun m => m !! id = None) (CreateUser id username password role).
Proof.
  unfold CreateUser. destruct (role_valid role); [|apply managed_ret]. apply keeps_reads_try; [reading_only|]. intros [].
  apply keeps_reads_try; [reading_only|]. intros hash. apply keeps_read_bind; [done|]. intros now. apply (keeps_create id); [done|]. intros. apply managed_ret.
Qed.

Lemma create_service_keeps id username role : keeps (fun m => m !! id = None) (CreateServiceAccount id username role).
Proof.
  unfold CreateServiceAccount. destruct (role_valid role); [|apply managed_ret]. apply keeps_reads_try; [reading_only|]. intros [].
  apply keeps_reads_try; [reading_only|]. intros t. apply keeps_read_bind; [done|]. intros now. apply (keeps_create id); [done|]. intros. apply managed_ret.
Qed.

Lemma keeps_put_back_then {A} u v (f : User -> prog authCall (result auth_error A)) :
  ID v = ID u -> is_admin v = is_admin u -> (forall a, keeps any_users (f a)) -> keeps (on_record u) (try f (in_store (call (UsersPut v)))).
Proof. intros Hi Ha Hf. apply keeps_try; [|done]. apply keeps_in_store. by eapply keeps_put_back. Qed.

Lemma rotate_keeps id : keeps any_users (RotateToken id).
Proof.
  unfold RotateToken. apply keeps_get_try. intros u <-. destruct (negb (IsService u)); [apply managed_ret|]. apply keeps_reads_try; [reading_only|]. intros t.
  apply keeps_read_bind; [done|]. intros now. apply keeps_put_back_then; [done..|]. intros. apply managed_ret.
Qed.

Lemma set_password_keeps id password : keeps any_users (SetPassword id password).
Proof.
  unfold SetPassword. apply keeps_get_try. intros u <-. apply keeps_reads_try; [reading_only|]. intros hash.
  apply keeps_put_back_then; [done..|]. intros. apply managed_ret.
Qed.

Lemma unlink_keeps id : keeps any_users (UnlinkIdentity id).
Proof.
  unfold UnlinkIdentity. apply keeps_get_try. intros u <-. destruct (negb (HasIdentityBinding u)); [apply managed_ret|].
  apply keeps_put_back_then; [done..|]. intros. apply managed_ret.
Qed.

Lemma bind_keeps attempts id issuer subject : keeps any_users (bind_attempts attempts id issuer subject).
Proof.
  induction attempts as [|n IH]; cbn [bind_attempts]; apply keeps_get_try; intros u <-; (destruct (IsService u); [apply managed_ret|]);
    (destruct (HasIdentityBinding u); [apply managed_ret|]); (apply managed_bind; [by apply (keeps_put_back u)|]);
    intros [r|e]; try apply managed_ret; destruct e; first [apply IH | apply managed_ret].
Qed.

Lemma bind_identity_keeps account issuer subject : keeps any_users (BindIdentity account issuer subject).
Proof. unfold BindIdentity. destruct (_ || _); [apply managed_ret|]. apply bind_keeps. Qed.

Lemma mint_keeps ttl : keeps any_users (MintBreakGlass ttl).
Proof.
  unfold MintBreakGlass. cbv zeta. destruct (bool_decide (_ < _)%Z); [apply managed_ret|]. apply keeps_reads_try; [reading_only|]. intros t.
  apply keeps_read_bind; [done|]. intros now. apply keeps_read_bind; [done|]. intros r.
  match goal with |- keeps _ (match ?e with _ => _ end) => destruct e as [u|e'] end; [|apply managed_ret].
  apply keeps_try; [|intros; apply managed_ret]. apply keeps_in_store, managed_put. intros. by left.
Qed.

Lemma note_keeps u : keeps (on_record u) (noteTokenUse u).
Proof.
  unfold noteTokenUse. apply keeps_read_bind; [done|]. intros now. case_bool_decide; [apply managed_ret|].
  apply managed_bind; [by apply keeps_put_back|]. intros. apply managed_ret.
Qed.

Lemma keeps_list_try {A} (f : list User -> prog authCall (result auth_error A)) :
  (forall l, keeps (fun m => forall u, u ∈ l -> on_record u m) (f l)) -> keeps any_users (try f (in_store (call UsersList))).
Proof.
  intros Hf w Hm _. apply wp_try, wp_in_store, wpm_list; [done|]. intros r w1 E Hl. assert (Hm1 := managed_users _ _ E Hm). destruct r as [l|e]; [|done].
  apply Hf; [done|]. intros u Hu. unfold on_record. rewrite E. by eapply Hl.
Qed.

Lemma holder_in want l u : holder want l = Some u -> u ∈ l /\ IsService u = true /\ TokenHash u = want /\ TokenHash u <> "".
Proof.
  unfold holder. assert (Hg : forall acc, fold_left (fun found u => if negb (IsService u) || bool_decide (TokenHash u = "") then found
    else if bool_decide (TokenHash u = want) then Some u else found) l acc = Some u ->
    acc = Some u \/ u ∈ l /\ IsService u = true /\ TokenHash u = want /\ TokenHash u <> "").
  { induction l as [|v l IH]; intros acc Hf; [by left|]. cbn [fold_left] in Hf. apply IH in Hf as [Hf|(H1 & H2)]; [|right; split; [by apply list_elem_of_further|done]].
    destruct (IsService v) eqn:Ev; cbn in Hf; [|by left]. case_bool_decide as E1; cbn in Hf; [by left|]. case_bool_decide as E2; [|by left].
    injection Hf as <-. right. split_and!; try done. apply list_elem_of_here. }
  intros [Hf|Hf]%Hg; [done|]. exact Hf.
Qed.

Lemma authenticate_token_keeps token : keeps any_users (AuthenticateToken token).
Proof.
  unfold AuthenticateToken. cbv zeta. case_bool_decide; [apply managed_ret|]. apply keeps_list_try. intros l. destruct (holder _ l) as [u|] eqn:Eu; [|apply managed_ret].
  apply holder_in in Eu as [Hin _]. apply keeps_reads_bind; [reading_only|]. intros expired. destruct expired; [apply managed_ret|].
  apply managed_bind; [|intros; apply managed_ret]. intros w Hm Hw. apply note_keeps; [done|]. by apply Hw.
Qed.

Lemma rehash_keeps active u password : keeps (on_record u) (rehashIfOutdated active u password).
Proof.
  unfold rehashIfOutdated. destruct (negb _); [apply managed_ret|]. apply keeps_reads_bind; [reading_only|]. intros [hash|e]; [|apply managed_ret]. cbv zeta.
  apply managed_bind; [by apply (keeps_put_back u)|]. intros. apply managed_ret.
Qed.

Lemma mark_reads id : reads (markAuthenticated id).
Proof. unfold markAuthenticated, session_put, session_remove. reading_only. Qed.

Lemma login_keeps active username password : keeps any_users (Login active username password).
Proof.
  unfold Login, verifyPassword. intros w Hm _. apply wp_try, wp_bind, find_username_free; [done|]. intros r w1 E1 Hm1 Hr.
  destruct r as [u|e]; [|by repeat case_match; apply wp_ret]. specialize (Hr u eq_refl).
  destruct (IsService u); [by apply wp_ret|]. destruct (Verify password (PasswordHash u)) as [[]|e]; [|by apply wp_ret..]. apply wp_ret; [done|].
  enough (Hk : keeps (on_record u) (do? in_library (call SessionRenew) ;; markAuthenticated (ID u) ;; u ← rehashIfOutdated active u password; Ret (Ok u)))
    by (apply Hk; [done|]; unfold on_record; by rewrite E1).
  apply keeps_reads_try; [reading_only|]. intros []. apply keeps_reads_bind; [apply mark_reads|]. intros []. apply managed_bind; [apply rehash_keeps|]. intros. apply managed_ret.
Qed.

Lemma change_password_keeps lifetime current next : keeps any_users (ChangePassword lifetime None current next).
Proof.
  unfold ChangePassword, CurrentUser. intros w Hm _. apply wp_bind.
  apply wp_bind, wpm_read; [done..|]. intros s w1 E1 Hm1. case_bool_decide; [apply wp_ret; [done|]; by apply wp_ret|].
  apply wp_bind. eapply wp_post; [apply reads_users; [unfold withinAbsoluteLifetime; reading_only|done]|]. intros live w2 _ [E2 Hm2].
  destruct live; cbn [negb]; [|apply wp_ret; [done|]; by apply wp_ret].
  apply wp_bind, wpm_get; [done|]. intros r w3 E3 Hr. assert (Hm3 := managed_users _ _ E3 Hm2). destruct r as [u|e]; [|apply wp_ret; [done|]; by apply wp_ret].
  destruct (Hr u eq_refl) as [Hg Hi]. destruct (IsService u) eqn:Es; [apply wp_ret; [done|]; by apply wp_ret|].
  destruct (negb (providerLinkHolds s u)); (apply wp_ret; [done|]); [by apply wp_ret|]. rewrite Es.
  destruct (Verify current (PasswordHash u)) as [[]|e]; [|by apply wp_ret..].
  enough (Hk : keeps (on_record u) (hash <-? Hash next ;; do? in_store (call (UsersPut (set_password hash u))) ;; s ← call SessionGet;
    InvalidateAllExcept (stoken s) ;; Ret (Ok tt : result auth_error unit))) by (apply Hk; [done|]; unfold on_record; by rewrite E3, Hi).
  apply keeps_reads_try; [reading_only|]. intros hash. apply keeps_put_back_then; [done..|]. intros _.
  apply keeps_read_bind; [done|]. intros s'. apply keeps_reads_bind; [unfold InvalidateAllExcept; reading_only|]. intros. apply managed_ret.
Qed.

Lemma perform_keeps o : keeps (fresh o) (perform o).
Proof.
  destruct o; cbn [perform fresh]; (apply managed_bind; [|intros; apply managed_ret]).
  - apply set_role_keeps.
  - apply delete_user_keeps.
  - apply create_user_keeps.
  - apply create_service_keeps.
  - apply rotate_keeps.
  - apply set_password_keeps.
  - apply bind_identity_keeps.
  - apply unlink_keeps.
  - apply mint_keeps.
  - apply authenticate_token_keeps.
  - apply login_keeps.
  - apply change_password_keeps.
Qed.

(** C13: An admin remains. Whatever operation on accounts is performed by itself, with
    whatever it is asked for, whatever calls fail and wherever it is cut short: when it
    begins with an account of an admin on record, one is on record after every call. *)
Theorem an_admin_remains o w xs res rest w' :
  managed w -> fresh o (w_users w) -> Forall alone xs -> run (perform o) xs w = (res, rest, w') -> managed w'.
Proof. intros Hm Hf Hx Hr. by destruct (wp_run _ _ _ _ _ _ _ _ _ (perform_keeps o w Hm Hf) Hx Hr) as (? & _). Qed.

(* ------------------------------------------------------------------ *)
(** ** What a token is good for *)

(** What holds whatever is chosen holds for some choices. *)
Lemma wp_weaken {A} (good : choice -> Prop) I (p : prog authCall A) Q w : wp any I p Q w -> wp good I p Q w.
Proof. revert w. induction p as [a| |R c k IH]; intros w [H1 H2]; split; auto. Qed.

Lemma hash_with_spec prefix token : hash_with prefix token <> "" ->
  exists rest, trim_space token = prefix +:+ rest /\ rest <> "" /\ hash_with prefix token = sha256_hex (trim_space token).
Proof.
  unfold hash_with. cbv zeta. destruct (cut_prefix prefix (trim_space token)) as [rest|] eqn:E; [|done]. case_bool_decide as Er; [done|]. intros _.
  exists rest. split; [|by split]. by apply cut_prefix_Some.
Qed.

(** The account a token opens, at a time no earlier than [T]. *)
Definition opened (T : time) (token : string) (seen : list User) (u : User) : Prop :=
  u ∈ seen /\ IsService u = true /\ (TokenExpiresAt u = zero_time \/ (T < TokenExpiresAt u)%Z) /\
  TokenHash u = sha256_hex (trim_space token) /\ exists rest, rest <> "" /\ trim_space token = TokenPrefix +:+ rest.

Lemma note_calm u w : wp any always (noteTokenUse u) (fun _ w' => calm w w') w.
Proof. apply quiet_calm, note_token_quiet. Qed.

(** C14: A token opens an account only as its own. Whatever the stores answer and other
    requests do in between: when a token is accepted, it begins with the prefix of
    service tokens and has something behind it; the account it opens is one read from
    the store for this request, not a person's, whose stored digest is that of the
    token, and which has no expiry or has not expired yet. *)
Theorem a_token_opens_its_account T token w xs u rest w' :
  Forall (fun x => T <= x_time x)%Z xs -> run (AuthenticateToken token) xs w = (Some (Ok u), rest, w') ->
  exists new, w_seen w' = w_seen w ++ new /\ opened T token new u.
Proof.
  intros HT Hr. set (late := fun x => (T <= x_time x)%Z).
  assert (Hwp : wp late always (AuthenticateToken token) (fun r w' => forall u, r = Ok u -> exists new, w_seen w' = w_seen w ++ new /\ opened T token new u) w).
  { unfold AuthenticateToken. cbv zeta. case_bool_decide as Ew; [by apply wp_ret|]. destruct (hash_with_spec _ _ Ew) as (tail & Ht & Hne & Eh).
    apply wp_try, wp_in_store, wp_call; [done|]. intros x _. split; [done|]. unfold act, auth_handler. cbn [fst snd].
    destruct (store_list _ _) as [l|e]; [|done]. destruct (holder _ l) as [v|] eqn:Ev; [|by apply wp_ret]. apply holder_in in Ev as (V1 & V2 & V3 & _).
    assert (Hdone : forall w1, w_seen w ++ l `prefix_of` w_seen w1 -> (TokenExpiresAt v = zero_time \/ (T < TokenExpiresAt v)%Z) ->
      wp late always (noteTokenUse v ;; Ret (Ok v : result auth_error User)) (fun r w' => forall u, r = Ok u -> exists new, w_seen w' = w_seen w ++ new /\ opened T token new u) w1).
    { intros w1 [more E1] Hexp. apply wp_bind. eapply wp_post; [apply wp_weaken, note_calm|].
      intros [] w2 _ [_ [[more2 E2] _]]. apply wp_ret; [done|]. intros u' [= <-]. exists ((l ++ more) ++ more2). split; [rewrite E2, E1; by rewrite !(assoc_L (++))|].
      split_and!; [set_solver|done..|by rewrite V3|by exists tail]. }
    apply wp_bind. case_bool_decide as Ez.
    - apply wp_ret; [done|]. apply Hdone; [done|by left].
    - apply wp_bind, wp_call; [done|]. intros x2 Hx2. split; [done|]. apply wp_ret; [done|]. unfold act, auth_handler. cbn [fst snd].
      case_bool_decide as Et; cbn [negb]; [|by apply wp_ret]. apply Hdone; [done|]. right. unfold late in Hx2. lia. }
  destruct (wp_run _ _ _ _ _ _ _ _ _ Hwp HT Hr) as (_ & Hq & _). by apply (Hq _ eq_refl).
Qed.

Lemma wpm_put_ok u (Q : result store_error User -> World -> Prop) w :
  managed w -> is_admin u = true \/ spare (w_users w) (ID u) ->
  (forall r w1, managed w1 -> (forall v, r = Ok v -> w_users w1 !! ID u = Some (Some v) /\ v = set_rev (next_rev (Rev u)) u) -> Q r w1) ->
  wp alone managed (call (UsersPut u)) Q w.
Proof.
  intros [Hn Ha] Hs Hq. apply wp_call; [by split|]. intros x Hx. unfold act, auth_handler. rewrite alone_others by done.
  destruct (put_managed (x_fault x) (w_users w) u Hn Ha Hs). destruct (store_put _ _ _) as [m r] eqn:Ep. cbn. split; [by split|]. apply Hq; [by split|].
  intros v ->. apply store_put_ok_inv in Ep as [Ev Em]. cbn in Ev, Em. split; [|done]. cbn. rewrite Em. by rewrite lookup_insert_eq.
Qed.

(** An account whose stored digest is that of the token. *)
Definition token_of (id token : string) (m : gmap string (option User)) : Prop := exists u, m !! id = Some (Some u) /\ TokenHash u = hashToken token.

Lemma new_token_spec (Q : result auth_error (string * string) -> World -> Prop) w :
  managed w -> (forall r w1, w_users w1 = w_users w -> managed w1 -> (forall t, r = Ok t -> t.2 = hashToken t.1) -> Q r w1) -> wp alone managed newToken Q w.
Proof.
  intros Hm Hq. unfold newToken, new_with. apply wp_try, wp_in_library, wpm_read; [done..|]. intros r w1 E Hm1.
  destruct r as [b|e]; [|by apply Hq]. apply wp_ret; [done|]. apply Hq; [done..|]. by intros t [= <-].
Qed.

Lemma rotate_spec id w : managed w -> wp alone managed (RotateToken id) (fun r w' => forall t, r = Ok t -> managed w' /\ token_of id t (w_users w')) w.
Proof.
  intros Hm. unfold RotateToken. apply wp_try, wp_in_store, wpm_get; [done|]. intros r w1 E1 Hr. assert (Hm1 := managed_users _ _ E1 Hm). destruct r as [u|e]; [|done].
  destruct (Hr u eq_refl) as [Hg Hi]. destruct (negb (IsService u)); [by apply wp_ret|].
  apply wp_try, new_token_spec; [done|]. intros r w2 E2 Hm2 Ht. destruct r as [t|e]; [|done]. specialize (Ht t eq_refl).
  apply wp_bind, wpm_read; [done..|]. intros now w3 E3 Hm3. apply wp_try, wp_in_store, wpm_put_ok; [done| |].
  - apply (same_role_spare (w_users w3) id u); [by rewrite E3, E2, E1|done..].
  - intros r w4 Hm4 Hput. destruct r as [v|e]; [|done]. apply wp_ret; [done|]. intros t' [= <-]. split; [done|].
    destruct (Hput v eq_refl) as [Hv ->]. eexists. cbn [ID set_token] in Hv. rewrite <- Hi at 1. split; [exact Hv|]. cbn. by rewrite Ht.
Qed.

(** A new token replaces the old one at once. After a rotation that gave a token,
    with no other request in between: any token the account is opened with, at whatever
    time, has the digest of the new one. *)
Theorem a_rotated_token_replaces id w xs t rest w1 token ys u rest' w2 :
  managed w -> Forall alone xs -> run (RotateToken id) xs w = (Some (Ok t), rest, w1) ->
  Forall alone ys -> run (AuthenticateToken token) ys w1 = (Some (Ok u), rest', w2) -> ID u = id ->
  sha256_hex (trim_space token) = sha256_hex (trim_space t).
Proof.
  intros Hm Hx Hr Hy Ha Hid. destruct (wp_run _ _ _ _ _ _ _ _ _ (rotate_spec id w Hm) Hx Hr) as (_ & Hq & _). destruct (Hq _ eq_refl t eq_refl) as [Hm1 (v & Hv & Hh)].
  assert (Hwp : wp alone managed (AuthenticateToken token) (fun r w' => forall u, r = Ok u -> ID u = id -> sha256_hex (trim_space token) = sha256_hex (trim_space t)) w1).
  { unfold AuthenticateToken. cbv zeta. case_bool_decide as Ew; [by apply wp_ret|]. destruct (hash_with_spec _ _ Ew) as (tail & _ & _ & Eh).
    apply wp_try, wp_in_store, wpm_list; [done|]. intros r w3 E3 Hl. assert (Hm3 := managed_users _ _ E3 Hm1). destruct r as [l|e]; [|done].
    destruct (holder _ l) as [o|] eqn:Eo; [|by apply wp_ret]. apply holder_in in Eo as (O1 & O2 & O3 & O4).
    assert (Ho : forall u, u = o -> ID u = id -> sha256_hex (trim_space token) = sha256_hex (trim_space t)).
    { intros u' -> Hi. specialize (Hl l o eq_refl O1). rewrite Hi, Hv in Hl. injection Hl as <-. rewrite Hh in O3, O4.
      destruct (hash_with_spec _ _ O4) as (_ & _ & _ & Et). unfold hashToken in O3. congruence. }
    apply wp_bind. eapply wp_post; [apply reads_users; [reading_only|done]|]. intros b w4 _ [E4 Hm4]. destruct b; [by apply wp_ret|].
    apply wp_bind. eapply wp_post; [apply (note_keeps o); [done|]|].
    - unfold on_record. rewrite E4, E3. by eapply Hl.
    - intros [] w5 Hm5 _. apply wp_ret; [done|]. intros u' [= <-]. by apply Ho. }
  destruct (wp_run _ _ _ _ _ _ _ _ _ Hwp Hy Ha) as (_ & Hq2 & _). by apply (Hq2 _ eq_refl u).
Qed.

End Safety.

(* ------------------------------------------------------------------ *)
(** ** A concrete library *)

Module Concrete.

(** A session is its token and what it holds. *)
#[local] Program Instance lib : AuthLib := {|
  compare p h := Ok (bool_decide (h = "hash:" +:+ p));
  decode_hash _ := None;
  sha256_hex s := "#" +:+ s;
  session := (string * gmap string value)%type;
  no_session := ("", ∅);
  sget s k := s.2 !! k;
  sput k v s := (s.1, <[k := v]> s.2);
  sremove k s := (s.1, delete k s.2);
  srenew t s := (t, s.2);
  sdestroy _ := ("", ∅);
  stoken s := s.1
|}.
Next Obligation. done. Qed.
Next Obligation. done. Qed.
Next Obligation. intros. apply lookup_insert_eq. Qed.
Next Obligation. intros. cbn. by apply lookup_insert_ne. Qed.
Next Obligation. intros. apply lookup_delete_eq. Qed.
Next Obligation. intros. cbn. by apply lookup_delete_ne. Qed.
Next Obligation. done. Qed.
Next Obligation. done. Qed.
Next Obligation. done. Qed.

Definition at_time (t : time) : choice := mkChoice (fun m => m) (fun m => m) NoFault t (Ok [77; 97; 110]%Z) (Ok "hash:new") (Ok "t").
Definition meanwhile (f : gmap string (option User) -> gmap string (option User)) (t : time) : choice :=
  mkChoice f (fun m => m) NoFault t (Ok [77; 97; 110]%Z) (Ok "hash:new") (Ok "t").
Definition noon : time := (epoch + 100 * hour)%Z.
Definition calls (n : nat) (t : time) : list choice := repeat (at_time t) n.

(** A run with its result known. *)
Lemma result_of {A B C} (r : A * B * C) a x y z : r = (x, y, z) -> r.1.1 = a -> r = (a, y, z).
Proof. by intros ->; cbn; intros ->. Qed.

Definition ann : User := set_rev 1 (set_role RoleAdmin (set_password "hash:pw" (new_user "u-ann" "Ann" noon))).
Definition bob : User := set_rev 1 (set_role RoleAdmin (set_password "hash:pw" (new_user "u-bob" "Bob" noon))).
Definition ci : User := set_rev 1 (set_role RoleAdmin (set_token "#hkm_old" noon zero_time (service_user "u-ci" "ci" noon))).
Definition start (l : list User) : World := mkWorld (list_to_map ((fun u => (ID u, Some u)) <$> l)) ∅ [] no_session [] [].

Definition signed_in : World := (run (serve (RLogin (mkParams 0 0 0 0 0) " ann" "pw")) (calls 20 noon) (start [ann; bob])).2.

Example login_signs_in : get_string (w_session signed_in) sessionKeyUser = "u-ann".
Proof. by vm_compute. Qed.

(** Two admins that delete each other at once leave none: each is counted by the
    other's guard before either is gone. *)
Example a_race_leaves_no_admin :
  let w := start [ann; bob] in
  let alone_run := run (DeleteUser "u-ann") (calls 5 noon) w in
  let raced := run (DeleteUser "u-bob") (calls 2 noon ++ [meanwhile (fun _ => w_users alone_run.2) noon]) w in
  alone_run.1.1 = Some (Ok tt) /\ raced.1.1 = Some (Ok tt) /\ map_to_list (w_users raced.2) = [].
Proof. by vm_compute. Qed.

(** The last person who is an admin can be deleted when a service account is one, too:
    nobody is left that could sign in. *)
Example the_last_person_goes :
  let r := run (DeleteUser "u-ann") (calls 5 noon) (start [ann; ci]) in
  r.1.1 = Some (Ok tt) /\ map_to_list (w_users r.2) = [("u-ci", Some ci)] /\
  (run (StartSession ci) (calls 9 noon) r.2).1.1 = Some (Err ErrNotAPerson).
Proof. by vm_compute. Qed.

Lemma session_is_a_sign_in_witness :
  let r := run (CurrentUser (12 * hour)%Z None) (calls 20 (noon + hour)%Z) signed_in in
  r.1.1 = Some (Some ann) /\
  exists e seen times t, (e, (seen, times)) ∈ [] ++ map (fun e => (e, (w_seen signed_in, w_times signed_in))) [mkSignin "u-ann" (unix_nano noon) (ByPassword " ann" "pw")] /\
    vouched seen e /\ stored (w_users r.2) (si_user e) = Some ann /\ IsService ann = false /\
    t ∈ times /\ si_stamp e = unix_nano t /\ (in_int64 (t - epoch) = true -> (noon + hour < t + 12 * hour)%Z) /\
    match si_how e with
    | ByProvider _ issuer subject => HasIdentityBinding ann = true /\ bindingFingerprint (Issuer ann) (Subject ann) = bindingFingerprint issuer subject
    | _ => True
    end.
Proof.
  cbv zeta. split; [by vm_compute|].
  destruct (run (serve (RLogin (mkParams 0 0 0 0 0) " ann" "pw")) (calls 20 noon) (start [ann; bob])) as [[o1 r1] w1] eqn:E1.
  assert (Hs : signed_in = w1) by (unfold signed_in; by rewrite E1). rewrite Hs.
  destruct (run (CurrentUser (12 * hour)%Z None) (calls 20 (noon + hour)%Z) w1) as [[o2 r2] w2] eqn:E2.
  refine (session_is_a_sign_in (12 * hour)%Z _ (w_session w1) w1 (calls 20 (noon + hour)%Z) ann r2 w2 (noon + hour)%Z _ eq_refl _ _).
  - refine (h_step [] no_session (RLogin (mkParams 0 0 0 0 0) " ann" "pw") (start [ann; bob]) (calls 20 noon) _ r1 w1 h_new eq_refl eq_refl eq_refl _).
    eapply result_of; [exact E1|by vm_compute].
  - unfold calls. apply Forall_forall. intros x Hx. apply list_elem_of_In, repeat_spec in Hx as ->. cbn [at_time x_time]. lia.
  - eapply result_of; [exact E2|]. rewrite <- Hs. by vm_compute.
Defined.

Lemma start_managed : managed (start [ann; bob; ci]).
Proof.
  split.
  - intros id u Hu. apply elem_of_list_to_map_2 in Hu. cbn [fmap list_fmap] in Hu.
    repeat (apply elem_of_cons in Hu as [Hu|Hu]; [by injection Hu as -> ->|]). by apply elem_of_nil in Hu.
  - exists "u-ann", ann. by vm_compute.
Qed.

Lemma alone_calls n t : Forall alone (calls n t).
Proof. apply Forall_forall. intros x Hx. apply list_elem_of_In, repeat_spec in Hx as ->. by split. Qed.

Lemma an_admin_remains_witness :
  let r := run (perform (ODeleteUser "u-ann")) (calls 5 noon) (start [ann; bob; ci]) in
  r.1.1 = Some tt /\ w_users r.2 !! "u-ann" = None /\ managed r.2.
Proof.
  cbv zeta. split; [by vm_compute|]. split; [by vm_compute|].
  destruct (run (perform (ODeleteUser "u-ann")) (calls 5 noon) (start [ann; bob; ci])) as [[o rest] w1] eqn:E.
  exact (an_admin_remains (ODeleteUser "u-ann") (start [ann; bob; ci]) (calls 5 noon) o rest w1 start_managed I (alone_calls 5 noon) E).
Defined.

Definition rotated : World := (run (RotateToken "u-ci") (calls 9 noon) (start [ann; bob; ci])).2.

Lemma a_token_opens_its_account_witness :
  let r := run (AuthenticateToken " hkm_TWFu ") (calls 9 noon) rotated in
  r.1.1 = Some (Ok (set_rev 2 (set_token "#hkm_TWFu" noon zero_time ci))) /\
  exists new, w_seen r.2 = w_seen rotated ++ new /\ opened noon " hkm_TWFu " new (set_rev 2 (set_token "#hkm_TWFu" noon zero_time ci)).
Proof.
  cbv zeta. split; [by vm_compute|].
  destruct (run (AuthenticateToken " hkm_TWFu ") (calls 9 noon) rotated) as [[o rest] w1] eqn:E.
  refine (a_token_opens_its_account noon " hkm_TWFu " rotated (calls 9 noon) _ rest w1 _ _).
  - unfold calls. apply Forall_forall. intros x Hx. apply list_elem_of_In, repeat_spec in Hx as ->. cbn [at_time x_time]. lia.
  - eapply result_of; [exact E|by vm_compute].
Defined.

Lemma a_rotated_token_replaces_witness :
  (run (RotateToken "u-ci") (calls 9 noon) (start [ann; bob; ci])).1.1 = Some (Ok "hkm_TWFu") /\
  (run (AuthenticateToken "hkm_old") (calls 9 noon) (start [ann; bob; ci])).1.1 = Some (Ok ci) /\
  (run (AuthenticateToken "hkm_old") (calls 9 noon) rotated).1.1 = Some (Err ErrInvalidToken) /\
  sha256_hex (trim_space " hkm_TWFu ") = sha256_hex (trim_space "hkm_TWFu").
Proof.
  split; [by vm_compute|]. split; [by vm_compute|]. split; [by vm_compute|].
  destruct (run (RotateToken "u-ci") (calls 9 noon) (start [ann; bob; ci])) as [[o1 r1] w1] eqn:E1.
  assert (Hs : rotated = w1) by (unfold rotated; by rewrite E1).
  destruct (run (AuthenticateToken " hkm_TWFu ") (calls 9 noon) w1) as [[o2 r2] w2] eqn:E2.
  refine (a_rotated_token_replaces "u-ci" (start [ann; bob; ci]) (calls 9 noon) "hkm_TWFu" r1 w1
    " hkm_TWFu " (calls 9 noon) (set_rev 2 (set_token "#hkm_TWFu" noon zero_time ci)) r2 w2 start_managed (alone_calls 9 noon) _ (alone_calls 9 noon) _ eq_refl).
  - eapply result_of; [exact E1|by vm_compute].
  - eapply result_of; [exact E2|]. rewrite <- Hs. by vm_compute.
Defined.

End Concrete.
