(* ===== verification/HttpGates.v ===== *)
(** * The gates of the HTTP interface

    [src/internal/httpapi/router.go] and its middleware: what a request passes before
    the handler of its route runs. A link of the chain is a function of the next one,
    as in the source; the answer is written through the writer a link is given, so that
    the link that holds an answer back is one that gives its successor another writer.
    What authenticates, and the audit log's parameters, are those of [Auth.v] and
    [AuditRedact.v]; the handlers themselves are calls. *)

From S2P Require Import Prelude Effects RecordStore Auth AuditRecord AuditRedact.

(** The parsers of the standard library a request's headers go through: the media type
    of a content type, and scheme and host of a URL; nothing for what does not parse. *)
Class HttpLib := {
  parse_media_type : string -> option string;
  parse_url : string -> option (string * string)
}.

(** Where a route's request names the cluster it acts on: in its path, in its body, or
    by the machine in its path. *)
Inductive scope := clusterIDFromPath | clusterFromPath | clusterFromBody | machineClusterFromPath.

#[global] Instance scope_eq_dec : EqDecision scope.
Proof. solve_decision. Defined.

(** A route, less its handler. *)
Record Route := mkRoute {
  rt_Method : string;
  rt_Pattern : string;
  rt_Destructive : bool;
  rt_RequiresSession : bool;
  rt_WallLink : bool;
  rt_MinRole : string;
  rt_Action : string;
  rt_AuditRead : bool;
  rt_Streaming : bool;
  rt_ClusterScope : option scope
}.

#[global] Instance route_eq_dec : EqDecision Route.
Proof. solve_decision. Defined.

(** A request: its headers by canonical name, its body as the audit link reads it and
    the field [cluster] of it as [json.Unmarshal] finds it, and what the chain puts in
    its context. *)
Record request := mkRequest {
  rq_method : string;
  rq_path : string;
  rq_host : string;
  rq_remote : string;
  rq_tls : bool;
  rq_header : string -> string;
  rq_body : body;
  rq_cluster : option string;
  rq_pathValue : string -> string;
  rq_id : string;
  rq_actor : option User
}.

Definition with_id (id : string) (q : request) : request :=
  mkRequest (rq_method q) (rq_path q) (rq_host q) (rq_remote q) (rq_tls q) (rq_header q) (rq_body q) (rq_cluster q) (rq_pathValue q) id (rq_actor q).
Definition WithTokenActor (u : User) (q : request) : request :=
  mkRequest (rq_method q) (rq_path q) (rq_host q) (rq_remote q) (rq_tls q) (rq_header q) (rq_body q) (rq_cluster q) (rq_pathValue q) (rq_id q) (Some u).

(** An answer: its status, and the code of a problem. *)
Record response := mkResponse { rs_status : Z; rs_code : option string }.

(** How a handler ends: with what it answered, or in a panic, which may be the one that
    aborts the connection. *)
Inductive served := Served (r : response) | Panicked (abort : bool).

Inductive lock_error := LockNotFound | LockError.

(* ------------------------------------------------------------------ *)
(** ** The table *)

Definition IsMutating (method : string) : bool := negb (bool_decide (method ∈ ["GET"; "HEAD"; "OPTIONS"; "TRACE"])).

(** [New] refuses a table with a route that contradicts itself. *)
Definition route_ok (rt : Route) : bool :=
  negb (rt_AuditRead rt && bool_decide (rt_Action rt = "")) &&
  negb (rt_Streaming rt && rt_Destructive rt) &&
  negb (rt_RequiresSession rt && negb (role_valid (rt_MinRole rt))) &&
  negb (negb (rt_RequiresSession rt) && negb (bool_decide (rt_MinRole rt = ""))).

(** What leaves something behind and needs no session. *)
Definition anonLimited (rt : Route) : bool :=
  negb (rt_RequiresSession rt || bool_decide (rt_Action rt = "") ||
    (negb (IsMutating (rt_Method rt)) && negb (bool_decide (is_Some (cut_prefix "/api/v1/auth/oidc/" (rt_Pattern rt)))))).

Definition isAPIPath (p : string) : bool := bool_decide (p = "/api") || bool_decide (is_Some (cut_prefix "/api/" p)).

(* ------------------------------------------------------------------ *)
(** ** Problems *)

Definition problem (status : Z) (code : string) : response := mkResponse status (Some code).
Definition Unauthenticated : response := problem 401 "auth.unauthenticated".
Definition CSRFFailed : response := problem 403 "csrf.precondition-unmet".
Definition ForbiddenHost : response := problem 403 "forbidden.host".
Definition ForbiddenRole : response := problem 403 "forbidden.role".
Definition NotFoundCluster : response := problem 404 "notfound.cluster".
Definition ClusterLocked : response := problem 403 "forbidden.cluster-locked".
Definition SudoRequired : response := problem 428 "sudo.required".
Definition RateLimited : response := problem 429 "ratelimit.delayed".
Definition Internal : response := problem 500 "internal.unexpected".
Definition MethodNotAllowed : response := problem 405 "method.not-allowed".
Definition NotFoundRoute : response := problem 404 "notfound.route".

(* ------------------------------------------------------------------ *)
(** ** Of hosts and origins *)

Fixpoint index_byte (c : ascii) (s : string) : option nat :=
  match s with
  | "" => None
  | String d s => if Ascii.eqb c d then Some O else S <$> index_byte c s
  end.

Fixpoint last_index_byte (c : ascii) (s : string) : option nat :=
  match s with
  | "" => None
  | String d s => match last_index_byte c s with Some i => Some (S i) | None => if Ascii.eqb c d then Some O else None end
  end.

Definition slice (i n : nat) (s : string) : string := String.substring i n s.
Definition from (i : nat) (s : string) : string := String.substring i (String.length s - i) s.
Definition free_of (c : ascii) (s : string) : bool := bool_decide (index_byte c s = None).

(** [net.SplitHostPort], less the port. *)
Definition SplitHostPort (s : string) : option string :=
  match last_index_byte ":" s with
  | None => None
  | Some i =>
      match s with
      | String "[" _ =>
          match index_byte "]" s with
          | None => None
          | Some e =>
              if bool_decide (S e = i) && free_of "[" (from 1 s) && free_of "]" (from (S e) s) then Some (slice 1 (e - 1) s) else None
          end
      | _ =>
          let host := slice 0 i s in
          if free_of ":" host && free_of "[" s && free_of "]" s then Some host else None
      end
  end.

Definition is_bracket (c : ascii) : bool := Ascii.eqb c "[" || Ascii.eqb c "]".
Fixpoint trim_left_brackets (s : string) : string :=
  match s with String c s' => if is_bracket c then trim_left_brackets s' else s | "" => "" end.
Definition trim_brackets (s : string) : string := string_rev (trim_left_brackets (string_rev (trim_left_brackets s))).

Definition NormalizeHost (host : string) : string :=
  if bool_decide (host = "") then "" else to_lower (trim_brackets (default host (SplitHostPort host))).

Definition host_allowed (allowed : list string) (host : string) : bool :=
  bool_decide (allowed = []) ||
  bool_decide (NormalizeHost host ∈ filter (fun h => h <> "") (map NormalizeHost allowed)).

(** The peer, without its port. *)
Definition ClientIP (q : request) : string :=
  match last_index_byte ":" (rq_remote q) with Some i => slice 0 i (rq_remote q) | None => rq_remote q end.

Definition BearerOf (q : request) : string :=
  match cut_at " " (rq_header q "Authorization") with
  | (scheme, Some token) => if equal_fold scheme "Bearer" then trim_space token else ""
  | (_, None) => ""
  end.

Definition IsTokenRequest (q : request) : bool := negb (bool_decide (BearerOf q = "")).

(** A token that was resolved, not merely presented. *)
Definition tokenAuthenticated (q : request) : bool := bool_decide (is_Some (rq_actor q)).

Section Csrf.
Context `{HttpLib}.

Definition CSRFHeader : string := "X-Holzkube-Manager-Csrf".
Definition CSRFHeaderValue : string := "1".

Definition requestScheme (q : request) : string := if rq_tls q then "https" else "http".

Definition checkContentType (q : request) : bool :=
  let ct := rq_header q "Content-Type" in
  negb (bool_decide (ct = "")) && bool_decide (parse_media_type ct = Some "application/json").

Definition checkOrigin (q : request) : bool :=
  let site := rq_header q "Sec-Fetch-Site" in
  let origin := rq_header q "Origin" in
  bool_decide (site ∈ [""; "same-origin"; "none"]) &&
  (bool_decide (origin = "") ||
   match parse_url origin with
   | None => false
   | Some (scheme, host) => equal_fold host (rq_host q) && equal_fold scheme (requestScheme q)
   end).

Definition checkCSRF (q : request) : bool :=
  checkContentType q && bool_decide (rq_header q CSRFHeader = CSRFHeaderValue) && checkOrigin q.
End Csrf.

(* ------------------------------------------------------------------ *)
(** ** The chain *)

Section Chain.
Context `{AuthLib} `{HttpLib}.

(** Calls to authentication; the limit of anonymous requests; the audit log; the
    cluster a machine belongs to; whether a cluster is locked; the wire; the route's
    handler. *)
Inductive httpCall : Type -> Type :=
  | HAuth {R : Type} (c : authCall R) : httpCall R
  | HRequestID : httpCall string
  | HTake (peer : string) : httpCall duration
  | HAttempt (actor session srcIP action : string) (params : list (string * Value)) : httpCall (result unit Z)
  | HOutcome (seq : Z) (outcome : string) (cause : option string) : httpCall (result unit unit)
  | HMachine (id : string) : httpCall (result store_error string)
  | HCluster (id : string) : httpCall (result store_error bool)
  | HWrite (r : response) : httpCall unit
  | HServe (rt : Route) (q : request) : httpCall served.

Abbreviation M A := (prog httpCall A).
Definition writer : Type := response -> M unit.
Definition Handler : Type := writer -> request -> M served.
Definition Middleware : Type := Handler -> Handler.

Definition auth {A} (p : prog authCall A) : M A := lift (@HAuth) p.

(** Answering at once. *)
Definition deny (r : response) : Handler := fun w q => w r ;; Ret (Served r).

Definition Chain (mw : list (option Middleware)) : Middleware :=
  fun next => foldr (fun m next => match m with Some m => m next | None => next end) next mw.

(** The configuration: [Deps]. *)
Record Deps := mkDeps {
  AllowedHosts : list string;
  SudoWindow : duration;
  lifetime : duration;
  Audit_ : bool;
  WallLinkValid : bool;
  ClusterLocked_ : bool
}.

Definition AllowHosts (allowed : list string) : Middleware := fun next w q =>
  if host_allowed allowed (rq_host q) then next w q else deny ForbiddenHost w q.

Definition Recover : Middleware := fun next w q =>
  r ← next w q;
  match r with
  | Panicked false => deny Internal w q
  | _ => Ret r
  end.

Definition RequestID : Middleware := fun next w q => id ← call HRequestID; next w (with_id id q).

Definition BearerToken : Middleware := fun next w q =>
  if bool_decide (BearerOf q = "") then next w q
  else
    r ← auth (AuthenticateToken (BearerOf q));
    match r with
    | Ok u => next w (WithTokenActor u q)
    | Err _ => next w q
    end.

Definition CSRF : Middleware := fun next w q =>
  if negb (IsMutating (rq_method q)) then next w q
  else if tokenAuthenticated q then next w q
  else if checkCSRF q then next w q
  else deny CSRFFailed w q.

Definition wallLinkOpens (d : Deps) (rt : Route) (q : request) : M bool :=
  if negb (rt_WallLink rt) || negb (WallLinkValid d) then Ret false
  else
    let token := BearerOf q in
    if bool_decide (token = "") then Ret false
    else r ← auth (AuthenticateWallLink token); Ret (is_ok r).

Definition current_user (d : Deps) (q : request) : M (option User) := auth (CurrentUser (lifetime d) (rq_actor q)).

Definition Authn (d : Deps) (rt : Route) : Middleware := fun next w q =>
  if negb (rt_RequiresSession rt) then next w q
  else
    who ← current_user d q;
    live ← (if bool_decide (is_Some who) then Ret true else wallLinkOpens d rt q);
    if (live : bool) then next w q else deny Unauthenticated w q.

Definition anonLimit (rt : Route) : option Middleware :=
  if anonLimited rt
  then Some (fun next w q => wait ← call (HTake (ClientIP q)); if bool_decide (0 < wait)%Z then deny RateLimited w q else next w q)
  else None.

(** The value of a parameter, when it is text. *)
Definition text_param (k : string) (params : list (string * Value)) : string :=
  match list_find (fun kv => kv.1 = k) params with Some (_, (_, VStr s)) => s | _ => "" end.

Definition auditAttempt (d : Deps) (q : request) (action srcIP : string) (params : list (string * Value)) : M (result unit Z) :=
  if negb (Audit_ d) then Ret (Err tt)
  else
    who ← current_user d q;
    let actor := match who with Some u => Username u | None => "anonymous" end in
    let id := text_param AccountParam params in
    params ← (if bool_decide (id = "") then Ret params
              else r ← auth (call (UsersGet id));
                   Ret (match r with Ok u => put_entry params AccountUsernameParam (VStr (Username u)) | Err _ => params end));
    s ← auth (call SessionGet);
    call (HAttempt actor (stoken s) srcIP action params).

Definition Audit (d : Deps) (rt : Route) : Middleware := fun next w q =>
  if bool_decide (rt_Action rt = "") || negb (IsMutating (rt_Method rt) || rt_AuditRead rt) then next w q
  else
    seq ← auditAttempt d q (rt_Action rt) (ClientIP q) (captureParams (rq_body q) (rt_Action rt) (rq_id q) (rq_pathValue q));
    match seq with
    | Err _ => deny Internal w q
    | Ok seq =>
        r ← next w q;
        match r with
        | Panicked _ => Ret r
        | Served answer =>
            let '(outcome, cause) := outcome_of (rs_status answer) (rs_code answer) in
            call (HOutcome seq outcome cause) ;;
            Ret r
        end
    end.

Definition Authz (d : Deps) (rt : Route) : Middleware := fun next w q =>
  if negb (rt_RequiresSession rt) then next w q
  else
    wall ← wallLinkOpens d rt q;
    allowed ← (if (wall : bool) then Ret true
               else who ← current_user d q;
                    Ret (match who with Some u => AtLeast (Role u) (rt_MinRole rt) | None => false end));
    if (allowed : bool) then next w q else deny ForbiddenRole w q.

(** The cluster a request names. A body that does not decode names none. *)
Definition scope_of (sc : scope) (q : request) : M (result lock_error string) :=
  match sc with
  | clusterIDFromPath => Ret (Ok (rq_pathValue q "id"))
  | clusterFromPath => Ret (Ok (rq_pathValue q "cluster"))
  | clusterFromBody => Ret (Ok (default "" (rq_cluster q)))
  | machineClusterFromPath =>
      r ← call (HMachine (rq_pathValue q "id"));
      Ret (match r with Ok c => Ok c | Err ErrNotFound => Ok "" | Err _ => Err LockError end)
  end.

Definition CheckLock (id : string) : M (result lock_error unit) :=
  if bool_decide (id = "") then Ret (Ok tt)
  else
    r ← call (HCluster id);
    Ret (match r with
         | Ok locked => if (locked : bool) then Err LockError else Ok tt
         | Err ErrNotFound => Err LockNotFound
         | Err _ => Err LockError
         end).

Definition lock_problem (e : lock_error) : response := match e with LockNotFound => NotFoundCluster | LockError => ClusterLocked end.

Definition ClusterLock (d : Deps) (rt : Route) : Middleware := fun next w q =>
  match rt_ClusterScope rt with
  | None => next w q
  | Some sc =>
      if negb (ClusterLocked_ d) then next w q
      else
        id ← scope_of sc q;
        match id with
        | Err e => deny (lock_problem e) w q
        | Ok id =>
            locked ← CheckLock id;
            match locked with
            | Err e => deny (lock_problem e) w q
            | Ok _ => next w q
            end
        end
  end.

Definition hasSudo (d : Deps) (q : request) : M bool :=
  if tokenAuthenticated q then Ret true else auth (IsSudoOpen (SudoWindow d)).

Definition touchSudo (q : request) : M unit := if tokenAuthenticated q then Ret tt else auth TouchSudoWindow.

(** The answer of a destructive route is held back until the window was refreshed. *)
Definition Sudo (d : Deps) (rt : Route) : Middleware := fun next w q =>
  if negb (rt_Destructive rt) then next w q
  else
    open ← hasSudo d q;
    if negb open then deny SudoRequired w q
    else
      r ← next (fun _ => Ret tt) q;
      match r with
      | Panicked _ => Ret r
      | Served answer =>
          (if bool_decide (rs_status answer < 400)%Z then touchSudo q else Ret tt) ;;
          w answer ;;
          Ret r
      end.

(** A route's handler: what it answers it writes. *)
Definition route_handler (rt : Route) : Handler := fun w q =>
  r ← call (HServe rt q);
  match r with Served answer => w answer ;; Ret r | Panicked _ => Ret r end.

Definition wrapRoute (d : Deps) (rt : Route) : Handler :=
  Chain [Some CSRF; Some (Authn d rt); anonLimit rt; Some (Audit d rt); Some (Authz d rt); Some (ClusterLock d rt); Some (Sudo d rt)]
    (route_handler rt).

(** The whole of what a request to a route goes through; headers, the log line and the
    loading of the session, which neither stop it nor change it, are left out. *)
Definition serve_route (d : Deps) (rt : Route) (q : request) : M served :=
  Chain [Some (AllowHosts (AllowedHosts d)); Some Recover; Some RequestID; Some BearerToken] (wrapRoute d rt) (fun r => call (HWrite r)) q.

(** Where no route is meant: [known] is a route of another method. *)
Definition fallback (known : bool) (q : request) : option response :=
  if isAPIPath (rq_path q) then Some (if known then MethodNotAllowed else NotFoundRoute) else None.

End Chain.
