(* ===== verification/HttpSafety.v ===== *)
(** * What reaches a handler

    The world of [HttpGates.v] with a record of what a request's chain was told, and
    the theorem that no handler runs but on the ground of it. *)

From S2P Require Import Prelude Effects RecordStore AuditRecord AuditRedact Auth AuthSafety HttpGates.

Section Safety.
Context `{AuthLib} `{HttpLib}.

(** What the chain of one request was told, and what it did. [w_log] of the world below
    is not part of the program. *)
Inductive event :=
  | ENow (t : time)
  | ERead (id : string) (u : User)
  | EListed (l : list User)
  | ESettings (s : Settings)
  | EAttempt (action : string) (seq : Z)
  | EOutcome (seq : Z) (outcome : string)
  | EMachine (id cluster : string)
  | ENoMachine (id : string)
  | EUnlocked (cluster : string)
  | EWrite (r : response)
  | EServe (rt : Route) (q : request) (s : session).

(** Newest first. *)
Record HttpWorld := mkHttp { h_auth : World; h_log : list event }.

Record httpChoice := mkHttpChoice {
  hx_auth : choice;
  hx_id : string;
  hx_wait : duration;
  hx_attempt : result unit Z;
  hx_outcome : result unit unit;
  hx_machine : result store_error string;
  hx_cluster : result store_error bool;
  hx_served : served;
  hx_after : World -> World
}.

Definition auth_events {R} (c : authCall R) : R -> list event :=
  match c in authCall R return R -> list event with
  | Now => fun t => [ENow t]
  | UsersGet id => fun r => match r with Ok u => [ERead id u] | Err _ => [] end
  | UsersList => fun r => match r with Ok l => [EListed l] | Err _ => [] end
  | SettingsGet => fun r => match r with Ok s => [ESettings s] | Err _ => [] end
  | _ => fun _ => []
  end.

Definition log (e : list event) (w : HttpWorld) : HttpWorld := mkHttp (h_auth w) (e ++ h_log w).
Definition h_session (w : HttpWorld) : session := w_session (h_auth w).

Definition machine_events (id : string) (r : result store_error string) : list event :=
  match r with Ok c => [EMachine id c] | Err ErrNotFound => [ENoMachine id] | Err _ => [] end.
Definition cluster_events (id : string) (r : result store_error bool) : list event := match r with Ok false => [EUnlocked id] | _ => [] end.

#[global] Instance http_handler : Effects.Handler httpCall HttpWorld httpChoice := fun R c x w =>
  match c in httpCall R return R * HttpWorld with
  | HAuth c => let '(r, a) := act c (hx_auth x) (h_auth w) in (r, mkHttp a (auth_events c r ++ h_log w))
  | HRequestID => (hx_id x, w)
  | HTake _ => (hx_wait x, w)
  | HAttempt _ _ _ action _ => (hx_attempt x, log (match hx_attempt x with Ok seq => [EAttempt action seq] | Err _ => [] end) w)
  | HOutcome seq outcome _ => (hx_outcome x, log [EOutcome seq outcome] w)
  | HMachine id => (hx_machine x, log (machine_events id (hx_machine x)) w)
  | HCluster id => (hx_cluster x, log (cluster_events id (hx_cluster x)) w)
  | HWrite r => (tt, log [EWrite r] w)
  | HServe rt q => (hx_served x, mkHttp (hx_after x (h_auth w)) (EServe rt q (h_session w) :: h_log w))
  end.

(* ------------------------------------------------------------------ *)
(** ** What a handler's turn rests on *)

(** A token that was resolved: an account of the list that was read, with the digest of
    what the request carries, not expired at a time that was read. *)
Definition token_vouches (q : request) (told : list event) (u : User) : Prop :=
  (exists l, EListed l ∈ told /\ u ∈ l) /\ IsService u = true /\ TokenHash u = sha256_hex (trim_space (BearerOf q)) /\
  (exists rest, rest <> "" /\ trim_space (BearerOf q) = TokenPrefix +:+ rest) /\
  (TokenExpiresAt u = zero_time \/ exists t, ENow t ∈ told /\ (t < TokenExpiresAt u)%Z).

(** A session that is live: of a person, read under the name it has. *)
Definition session_vouches (d : Deps) (s : session) (told : list event) (u : User) : Prop :=
  get_string s sessionKeyUser <> "" /\ ERead (get_string s sessionKeyUser) u ∈ told /\ IsService u = false /\ providerLinkHolds s u = true /\
  exists t, ENow t ∈ told /\ within s sessionKeyAuthenticatedAt (lifetime d) t = true.

Definition account_vouches (d : Deps) (q : request) (s : session) (told : list event) (u : User) : Prop :=
  match rq_actor q with Some v => u = v | None => session_vouches d s told u end.

(** A link of a wall screen, for a route that takes one. *)
Definition wall_vouches (rt : Route) (q : request) (told : list event) : Prop :=
  rt_WallLink rt = true /\ exists st l, ESettings st ∈ told /\ l ∈ WallLinks st /\ wl_hash l = sha256_hex (trim_space (BearerOf q)) /\
    exists rest, rest <> "" /\ trim_space (BearerOf q) = WallTokenPrefix +:+ rest.

(** The window of a re-authentication: what is configured, or the default. *)
Definition sudo_window (d : Deps) : duration := if bool_decide (SudoWindow d <= 0)%Z then DefaultSudoWindow else SudoWindow d.

(** The cluster the request names, where the route says it does. *)
Definition names_cluster (sc : scope) (q : request) (told : list event) (c : string) : Prop :=
  match sc with
  | clusterIDFromPath => c = rq_pathValue q "id"
  | clusterFromPath => c = rq_pathValue q "cluster"
  | clusterFromBody => c = default "" (rq_cluster q)
  | machineClusterFromPath => EMachine (rq_pathValue q "id") c ∈ told \/ c = "" /\ ENoMachine (rq_pathValue q "id") ∈ told
  end.

(** The cluster of the path was found unlocked (or the path names none); the machine of
    the path was looked up, and the cluster it is recorded in was found unlocked, or it
    is in none, or there is no such machine; of a route that takes the cluster from the
    body, the one the body names was found unlocked, and a body that names none passes,
    whatever machine the request is for. *)
Definition unlocked (sc : scope) (q : request) (told : list event) : Prop :=
  match sc with
  | clusterIDFromPath => rq_pathValue q "id" = "" \/ EUnlocked (rq_pathValue q "id") ∈ told
  | clusterFromPath => rq_pathValue q "cluster" = "" \/ EUnlocked (rq_pathValue q "cluster") ∈ told
  | machineClusterFromPath =>
      (exists c, EMachine (rq_pathValue q "id") c ∈ told /\ (c = "" \/ EUnlocked c ∈ told)) \/ ENoMachine (rq_pathValue q "id") ∈ told
  | clusterFromBody => default "" (rq_cluster q) = "" \/ EUnlocked (default "" (rq_cluster q)) ∈ told
  end.

Lemma named_unlocked sc q told c : names_cluster sc q told c -> c = "" \/ EUnlocked c ∈ told -> unlocked sc q told.
Proof. destruct sc; cbn; try by intros ->. intros [Hm|[-> Hm]] Hc; [left; by exists c|by right]. Qed.

Record admitted (d : Deps) (rt : Route) (q : request) (s : session) (told : list event) : Prop := {
  ad_host : host_allowed (AllowedHosts d) (rq_host q) = true;
  ad_actor : forall u, rq_actor q = Some u -> token_vouches q told u;
  ad_csrf : IsMutating (rq_method q) = true -> is_Some (rq_actor q) \/ checkCSRF q = true;
  ad_account : rt_RequiresSession rt = true ->
    wall_vouches rt q told \/ exists u, account_vouches d q s told u /\ AtLeast (Role u) (rt_MinRole rt) = true;
  ad_audit : rt_Action rt <> "" -> IsMutating (rt_Method rt) || rt_AuditRead rt = true -> exists seq, EAttempt (rt_Action rt) seq ∈ told;
  ad_lock : forall sc, rt_ClusterScope rt = Some sc -> ClusterLocked_ d = true -> unlocked sc q told;
  ad_sudo : rt_Destructive rt = true -> is_Some (rq_actor q) \/
    exists t, ENow t ∈ told /\ within s sessionKeySudoAt (sudo_window d) t = true
}.

(** The same request, with what the chain put in its context. *)
Definition same_request (q q' : request) : Prop := exists id actor,
  q' = mkRequest (rq_method q) (rq_path q) (rq_host q) (rq_remote q) (rq_tls q) (rq_header q) (rq_body q) (rq_cluster q) (rq_pathValue q) id actor.

(** Every turn of a handler was admitted. *)
Fixpoint sound (d : Deps) (rt : Route) (q : request) (l : list event) : Prop :=
  match l with
  | [] => True
  | EServe rt' q' s :: told => (rt' = rt /\ same_request q q' /\ admitted d rt q' s told) /\ sound d rt q told
  | _ :: told => sound d rt q told
  end.

(* ------------------------------------------------------------------ *)
(** ** Rules *)

Abbreviation any := (fun _ : httpChoice => True).

Variables (d : Deps) (rt : Route) (q0 : request).

Definition inv (w : HttpWorld) : Prop := sound d rt q0 (h_log w).

(** Later in the same request, before its handler. *)
Definition ext (w w1 : HttpWorld) : Prop := h_session w1 = h_session w /\ exists new, h_log w1 = new ++ h_log w.

Lemma ext_refl w : ext w w.
Proof. split; [done|]. by exists []. Qed.
Lemma ext_trans w1 w2 w3 : ext w1 w2 -> ext w2 w3 -> ext w1 w3.
Proof. intros [E1 [n1 L1]] [E2 [n2 L2]]. split; [congruence|]. exists (n2 ++ n1). by rewrite L2, L1, (assoc_L (++)). Qed.

Definition silent (e : event) : Prop := match e with EServe _ _ _ => False | _ => True end.

Lemma sound_silent new l : Forall silent new -> sound d rt q0 l -> sound d rt q0 (new ++ l).
Proof. intros Hn Hl. induction Hn as [|e new He Hn IH]; [done|]. by destruct e. Qed.

Lemma auth_events_silent {R} (c : authCall R) r : Forall silent (auth_events c r).
Proof. destruct c; cbn; repeat case_match; repeat constructor. Qed.

(** A call that leaves the session of the request alone. *)
Definition leaves {R} (c : authCall R) : Prop := match c with SessionSet _ | SessionRenew | SessionDestroy => False | _ => True end.

Lemma act_leaves {R} (c : authCall R) x a : leaves c -> w_session (act c x a).2 = w_session a.
Proof.
  intros Hc. unfold act, auth_handler. destruct c; try done; cbn; by repeat case_match.
Qed.

Lemma act_auth {R} (c : authCall R) (x : httpChoice) (w : HttpWorld) :
  act (HAuth c) x w = ((act c (hx_auth x) (h_auth w)).1, mkHttp (act c (hx_auth x) (h_auth w)).2 (auth_events c (act c (hx_auth x) (h_auth w)).1 ++ h_log w)).
Proof. unfold act at 1, http_handler. by destruct (act c (hx_auth x) (h_auth w)). Qed.

Lemma wp_auth {R} (c : authCall R) (Q : R -> HttpWorld -> Prop) w :
  leaves c -> inv w -> (forall r w1, ext w w1 -> inv w1 -> (forall e, e ∈ auth_events c r -> e ∈ h_log w1) -> Q r w1) -> wp any inv (auth (call c)) Q w.
Proof.
  intros Hc Hi Hq. apply (wp_call any inv (HAuth c)); [done|]. intros x _. rewrite act_auth. cbn [fst snd].
  assert (Hi1 : inv (mkHttp (act c (hx_auth x) (h_auth w)).2 (auth_events c (act c (hx_auth x) (h_auth w)).1 ++ h_log w)))
    by (apply sound_silent; [apply auth_events_silent|done]).
  split; [done|]. apply Hq; [|done|].
  - split; [|by eexists]. unfold h_session. cbn [h_auth]. by apply act_leaves.
  - intros e He. apply elem_of_app. by left.
Qed.

(** Whatever authentication does, it runs no handler. *)
Lemma auth_safe {A} (p : prog authCall A) w : inv w -> wp any inv (auth p) (fun _ _ => True) w.
Proof.
  revert w. induction p as [a| |R c k IH]; intros w Hi; [by apply wp_ret|by split|]. apply (wp_act any inv (HAuth c)); [done|]. intros x _.
  rewrite act_auth. cbn [fst snd]. apply IH. apply sound_silent; [apply auth_events_silent|done].
Qed.

Lemma auth_quiet {A} (p : prog authCall A) w : quiet p -> inv w -> wp any inv (auth p) (fun _ w1 => ext w w1) w.
Proof.
  intros Hp. enough (H' : forall w0 w, ext w0 w -> inv w -> wp any inv (auth p) (fun _ w1 => ext w0 w1) w) by (intros; apply H'; [apply ext_refl|done]).
  clear w. intros w0. induction p as [a| |R c k IH]; intros w E Hi; [by apply wp_ret|by split|]. destruct Hp as [Hc Hk].
  change (auth (Act c k)) with (auth (call c) ≫= (fun r => auth (k r))). apply wp_bind.
  eapply wp_post; [apply (wp_auth c (fun _ w1 => ext w w1)); [done..|]; by intros|]. intros r w1 Hi1 E1. apply IH; [apply Hk|by eapply ext_trans|done].
Qed.

Lemma wp_auth_bind {A B} (p : prog authCall A) (f : A -> prog authCall B) (Q : B -> HttpWorld -> Prop) w :
  wp any inv (auth p) (fun a w1 => wp any inv (auth (f a)) Q w1) w -> wp any inv (auth (p ≫= f)) Q w.
Proof. intros Hw. by apply lift_bind, wp_bind. Qed.

Lemma wp_session (Q : session -> HttpWorld -> Prop) w :
  inv w -> (forall w1, ext w w1 -> inv w1 -> Q (h_session w1) w1) -> wp any inv (auth (call SessionGet)) Q w.
Proof.
  intros Hi Hq. apply (wp_call any inv (HAuth SessionGet)); [done|]. intros x _. split; [done|]. apply (Hq (mkHttp (others (hx_auth x) (h_auth w)) (h_log w))).
  - split; [done|]. by exists [].
  - done.
Qed.

Lemma ext_told e w w1 : ext w w1 -> e ∈ h_log w -> e ∈ h_log w1.
Proof. intros [_ [new ->]] He. apply elem_of_app. by right. Qed.

Lemma ext_session w w1 : ext w w1 -> h_session w1 = h_session w.
Proof. by intros []. Qed.

(** A step of authentication, and where it leads. *)
Ltac told := eauto using ext_trans, ext_refl.


Ltac nobody := repeat (apply wp_ret; [done|]); split; [first [done | apply ext_refl | by eapply ext_trans]|done].

Lemma live_spec w : inv w -> wp any inv (auth (withinAbsoluteLifetime (lifetime d)))
  (fun b w1 => ext w w1 /\ (b = true -> exists t, ENow t ∈ h_log w1 /\ within (h_session w1) sessionKeyAuthenticatedAt (lifetime d) t = true)) w.
Proof.
  intros Hi. unfold withinAbsoluteLifetime. apply wp_auth_bind, wp_session; [done|]. intros w1 E1 I1. case_bool_decide; [nobody|].
  apply wp_auth_bind, wp_auth; [done..|]. intros t w2 E2 I2 Ht. apply wp_ret; [done|]. split; [by eapply ext_trans|]. intros Hw. exists t.
  split; [apply Ht, list_elem_of_here|]. by rewrite (ext_session _ _ E2).
Qed.

Lemma current_user_spec q w : inv w -> wp any inv (current_user d q)
  (fun who w1 => ext w w1 /\ forall u, who = Some u -> account_vouches d q (h_session w1) (h_log w1) u) w.
Proof.
  intros Hi. unfold current_user, CurrentUser, account_vouches. destruct (rq_actor q) as [v|].
  { apply wp_ret; [done|]. split; [apply ext_refl|]. by intros u [= <-]. }
  apply wp_auth_bind, wp_session; [done|]. intros w1 E1 I1. cbv zeta. case_bool_decide as Eid; [nobody|].
  apply wp_auth_bind. eapply wp_post; [by apply live_spec|]. intros b w2 I2 [E2 Hb]. destruct b; cbn [negb]; [|nobody].
  apply wp_auth_bind, wp_auth; [done..|]. intros r w3 E3 I3 Hr. assert (E13 : ext w1 w3) by by eapply ext_trans.
  assert (E03 : ext w w3) by by eapply ext_trans. destruct r as [u|e]; [|nobody].
  destruct (IsService u) eqn:Es; [nobody|]. destruct (providerLinkHolds _ u) eqn:Ep; cbn [negb]; [|nobody].
  apply wp_ret; [done|]. split; [done|]. intros u' [= <-]. unfold session_vouches. rewrite (ext_session _ _ E13). split_and!; try done.
  - apply Hr, list_elem_of_here.
  - destruct (Hb eq_refl) as (t & Ht & Hw). exists t. split; [by eapply (ext_told _ _ _ E3)|]. by rewrite <- (ext_session _ _ E2).
Qed.

Lemma link_holder_in want l x : link_holder want l = Some x -> x ∈ l /\ wl_hash x = want /\ wl_hash x <> "".
Proof.
  unfold link_holder. set (f := fun found y => if bool_decide (wl_hash y = "") then found else if bool_decide (wl_hash y = want) then Some y else found).
  enough (Hg : forall l acc, fold_left f l acc = Some x -> acc = Some x \/ x ∈ l /\ wl_hash x = want /\ wl_hash x <> "") by (intros [Hf|Hf]%Hg; done).
  clear l. intros l. induction l as [|v l IH]; intros acc Hf; [by left|]. cbn [fold_left] in Hf. apply IH in Hf as [Hf|(H1 & H2)]; [|right; split; [by apply list_elem_of_further|done]].
  unfold f in Hf. case_bool_decide as E1; [by left|]. case_bool_decide as E2; [|by left]. injection Hf as <-. right. split_and!; try done. apply list_elem_of_here.
Qed.

Lemma wall_spec q w : inv w -> wp any inv (wallLinkOpens d rt q) (fun b w1 => ext w w1 /\ (b = true -> wall_vouches rt q (h_log w1))) w.
Proof.
  intros Hi. unfold wallLinkOpens.
  destruct (rt_WallLink rt) eqn:Er; cbn [negb orb]; [|nobody]. destruct (WallLinkValid d); cbn [negb]; [|nobody].
  cbv zeta. case_bool_decide; [nobody|]. apply wp_bind. unfold AuthenticateWallLink. cbv zeta.
  case_bool_decide as Ew; [nobody|]. destruct (hash_with_spec _ _ Ew) as (rest & Ht & Hne & Eh).
  unfold currentSettings. apply wp_auth_bind, wp_auth_bind, wp_auth; [done..|]. intros r w1 E1 I1 Hr. apply wp_ret; [done|].
  assert (Hlink : forall st, (forall l, l ∈ WallLinks st -> ESettings st ∈ h_log w1) ->
    wp any inv (auth (match link_holder (hashWallToken (BearerOf q)) (WallLinks st) with
      | None => Ret (Err ErrInvalidWallLink)
      | Some found => noteWallLinkUse st found ;; Ret (Ok (hide_hash found)) end))
      (fun r w2 => wp any inv (Ret (is_ok r)) (fun b w2 => ext w w2 /\ (b = true -> wall_vouches rt q (h_log w2))) w2) w1).
  { intros st Hst. destruct (link_holder _ _) as [x|] eqn:Ex; [|nobody]. apply link_holder_in in Ex as (X1 & X2 & _).
    apply wp_auth_bind. eapply wp_post; [apply auth_quiet; [apply note_link_quiet|done]|]. intros [] w2 I2 E2. do 2 (apply wp_ret; [done|]).
    split; [by eapply ext_trans|]. intros _. split; [done|]. exists st, x. split_and!; [eapply (ext_told _ _ _ E2); exact (Hst x X1)|done|rewrite X2; exact Eh|by exists rest]. }
  destruct r as [st|e].
  - apply Hlink. intros. apply Hr, list_elem_of_here.
  - destruct e; first [nobody | apply Hlink; intros l Hl; by apply elem_of_nil in Hl].
Qed.

Lemma token_spec q w : inv w -> wp any inv (auth (AuthenticateToken (BearerOf q))) (fun r w1 => ext w w1 /\ forall u, r = Ok u -> token_vouches q (h_log w1) u) w.
Proof.
  intros Hi. unfold AuthenticateToken. cbv zeta. case_bool_decide as Ew; [nobody|].
  destruct (hash_with_spec _ _ Ew) as (rest & Ht & Hne & Eh). unfold in_store. apply wp_auth_bind, wp_auth_bind, wp_auth; [done..|]. intros r w1 E1 I1 Hr.
  apply wp_ret; [done|]. destruct r as [l|e]; [|nobody]. destruct (holder _ l) as [v|] eqn:Ev; [|nobody]. apply holder_in in Ev as (V1 & V2 & V3 & _).
  assert (Hdone : forall w2, ext w1 w2 -> inv w2 -> (TokenExpiresAt v = zero_time \/ exists t, ENow t ∈ h_log w2 /\ (t < TokenExpiresAt v)%Z) ->
    wp any inv (auth (noteTokenUse v ;; Ret (Ok v : result auth_error User))) (fun r w3 => ext w w3 /\ forall u, r = Ok u -> token_vouches q (h_log w3) u) w2).
  { intros w2 E2 I2 Hexp. apply wp_auth_bind. eapply wp_post; [apply auth_quiet; [apply note_token_quiet|done]|]. intros [] w3 I3 E3. apply wp_ret; [done|].
    split; [eapply ext_trans; [done|]; by eapply ext_trans|]. intros u [= <-]. split_and!; [|done|rewrite V3; exact Eh|by exists rest|].
    - exists l. split; [|done]. eapply ext_told; [exact E3|]. eapply ext_told; [exact E2|]. apply Hr, list_elem_of_here.
    - destruct Hexp as [?|(t & Ht1 & Ht2)]; [by left|]. right. exists t. split; [by eapply ext_told|done]. }
  apply wp_auth_bind. case_bool_decide as Ez.
  - apply wp_ret; [done|]. apply Hdone; [apply ext_refl|done|by left].
  - apply wp_auth_bind, wp_auth; [done..|]. intros t w2 E2 I2 Ht2. apply wp_ret; [done|]. case_bool_decide as Et; cbn [negb].
    + apply Hdone; [done..|]. right. exists t. split; [apply Ht2, list_elem_of_here|done].
    + apply wp_ret; [done|]. split; [by eapply ext_trans|done].
Qed.

(* ------------------------------------------------------------------ *)
(** ** The links *)

Definition safe {A} (p : prog httpCall A) (w : HttpWorld) : Prop := wp any inv p (fun _ _ => True) w.
Definition writes (wr : writer) : Prop := forall r w, inv w -> safe (wr r) w.

(** What a link may rely on: of the request, the session and what it was told. *)
Definition ground : Type := request -> session -> list event -> Prop.
Definition lasting (P : ground) : Prop := forall q s l new, P q s l -> P q s (new ++ l).

(** A handler that does no harm on that ground. *)
Definition meets (P : ground) (h : HttpGates.Handler) : Prop :=
  forall wr q w, writes wr -> inv w -> same_request q0 q -> P q (h_session w) (h_log w) -> safe (h wr q) w.

Lemma safe_bind {A B} (p : prog httpCall A) (f : A -> prog httpCall B) w : safe p w -> (forall a w1, inv w1 -> safe (f a) w1) -> safe (p ≫= f) w.
Proof. intros Hp Hf. apply wp_bind. eapply wp_post; [exact Hp|]. intros a w1 Hi _. by apply Hf. Qed.

Lemma safe_ret {A} (a : A) w : inv w -> safe (Ret a) w.
Proof. intros Hi. by apply wp_ret. Qed.

Lemma safe_deny r wr q w : writes wr -> inv w -> safe (deny r wr q) w.
Proof. intros Hw Hi. apply safe_bind; [by apply Hw|]. intros [] w1 I1. by apply safe_ret. Qed.

(** A call of the chain: not one that runs the handler. *)
Lemma wp_chain {R} (c : httpCall R) (Q : R -> HttpWorld -> Prop) w (e : R -> list event) :
  (forall x w, act c x w = ((act c x w).1, log (e (act c x w).1) w)) -> (forall r, Forall silent (e r)) -> inv w ->
  (forall r w1, ext w w1 -> inv w1 -> h_log w1 = e r ++ h_log w -> Q r w1) -> wp any inv (call c) Q w.
Proof.
  intros Ha Hs Hi Hq. apply wp_call; [done|]. intros x _. rewrite Ha. cbn [fst snd].
  assert (Hi1 : inv (log (e (act c x w).1) w)) by by apply sound_silent. split; [done|]. apply Hq; [|done|done]. split; [done|]. by eexists.
Qed.

Lemma writer_writes : writes (fun r => call (HWrite r)).
Proof. intros r w Hi. apply (wp_chain (HWrite r) _ _ (fun _ => [EWrite r])); [done|repeat constructor|done|done]. Qed.

Lemma silent_writes : writes (fun _ => Ret tt).
Proof. intros r w Hi. by apply safe_ret. Qed.

Lemma ground_ext (P : ground) q w w1 : lasting P -> ext w w1 -> P q (h_session w) (h_log w) -> P q (h_session w1) (h_log w1).
Proof. intros Hl [-> [new ->]]. apply Hl. Qed.

Lemma handler_meets : meets (admitted d rt) (route_handler rt).
Proof.
  intros wr q w Hw Hi Hq Ha. unfold route_handler. apply safe_bind.
  - apply wp_call; [done|]. intros x _. cbn. split; [|done]. split; [done|exact Hi].
  - intros [answer|abort] w1 I1; [|by apply safe_ret]. apply safe_bind; [by apply Hw|]. intros [] w2 I2. by apply safe_ret.
Qed.

Lemma sudo_meets (P : ground) h : lasting P ->
  meets (fun q s l => P q s l /\ (rt_Destructive rt = true -> is_Some (rq_actor q) \/
    exists t, ENow t ∈ l /\ within s sessionKeySudoAt (sudo_window d) t = true)) h ->
  meets P (Sudo d rt h).
Proof.
  intros HP Hh wr q w Hw Hi Hq Hg. unfold Sudo. destruct (rt_Destructive rt); cbn [negb]; [|by apply Hh].
  assert (Hgo : forall w1, ext w w1 -> inv w1 -> (is_Some (rq_actor q) \/
      exists t, ENow t ∈ h_log w1 /\ within (h_session w1) sessionKeySudoAt (sudo_window d) t = true) ->
    safe (r ← h (fun _ => Ret tt) q; match r with Panicked _ => Ret r | Served answer =>
      (if bool_decide (rs_status answer < 400)%Z then touchSudo q else Ret tt) ;; wr answer ;; Ret r end) w1).
  { intros w1 E1 I1 Hs. apply safe_bind; [apply Hh; [apply silent_writes|done|done|]; split; [by eapply ground_ext|done]|].
    intros [answer|] w2 I2; [|by apply safe_ret]. apply safe_bind.
    - destruct (bool_decide (rs_status answer < 400)%Z); [|by apply safe_ret]. unfold touchSudo. destruct (tokenAuthenticated q); [by apply safe_ret|by apply auth_safe].
    - intros [] w3 I3. apply safe_bind; [by apply Hw|]. intros [] w4 I4. by apply safe_ret. }
  apply wp_bind. unfold hasSudo, tokenAuthenticated. case_bool_decide as Et; [apply wp_ret; [done|]; cbn [negb]; apply Hgo; [apply ext_refl|done|by left]|].
  unfold IsSudoOpen. fold (sudo_window d). cbv zeta. apply wp_auth_bind, wp_session; [done|]. intros w1 E1 I1. destruct (bool_decide (_ = 0)%Z); [apply wp_ret; [done|]; by apply safe_deny|].
  apply wp_auth_bind, wp_auth; [done..|]. intros t w2 E2 I2 Ht. apply wp_ret; [done|]. destruct (within _ _ _ t) eqn:Ew; cbn [negb]; [|by apply safe_deny].
  apply Hgo; [by eapply ext_trans|done|]. right. exists t. split; [apply Ht, list_elem_of_here|]. by rewrite (ext_session _ _ E2).
Qed.

Lemma scope_spec sc q w : inv w ->
  wp any inv (scope_of sc q) (fun r w1 => ext w w1 /\ forall c, r = Ok c -> names_cluster sc q (h_log w1) c) w.
Proof.
  intros Hi. destruct sc; cbn [scope_of names_cluster]; try (apply wp_ret; [done|]; split; [apply ext_refl|]; by intros c [= <-]).
  apply wp_bind, (wp_chain (HMachine _) _ _ (machine_events (rq_pathValue q "id"))); [done|by intros [|[]]; repeat constructor|done|].
  intros r w1 E1 I1 L1. apply wp_ret; [done|]. split; [done|]. rewrite L1. intros c Hc. destruct r as [c'|[]]; try done; injection Hc as <-.
  - left. apply list_elem_of_here.
  - right. split; [done|]. apply list_elem_of_here.
Qed.

Lemma check_spec c w : inv w -> wp any inv (CheckLock c) (fun r w1 => ext w w1 /\ (r = Ok tt -> c = "" \/ EUnlocked c ∈ h_log w1)) w.
Proof.
  intros Hi. unfold CheckLock. case_bool_decide; [apply wp_ret; [done|]; split; [apply ext_refl|by left]|].
  apply wp_bind, (wp_chain (HCluster c) _ _ (cluster_events c)); [done|by intros [[]|[]]; repeat constructor|done|].
  intros r w1 E1 I1 L1. apply wp_ret; [done|]. split; [done|]. rewrite L1. destruct r as [[]|[]]; try done. intros _. right. apply list_elem_of_here.
Qed.

Lemma names_lasts sc q l new c : names_cluster sc q l c -> names_cluster sc q (new ++ l) c.
Proof. destruct sc; cbn; try done. intros [Hc|[-> Hc]]; [left|right; split; [done|]]; apply elem_of_app; by right. Qed.

Lemma unlocked_lasts sc q l new : unlocked sc q l -> unlocked sc q (new ++ l).
Proof.
  destruct sc; cbn; try (intros [Hc|Hc]; [by left|right; by apply elem_of_app; right]).
  intros [(c & Hm & Hc)|Hc]; [|right; by apply elem_of_app; right]. left. exists c. split; [by apply elem_of_app; right|]. destruct Hc as [Hc|Hc]; [by left|right; by apply elem_of_app; right].
Qed.

Lemma lock_meets (P : ground) h : lasting P ->
  meets (fun q s l => P q s l /\ (forall sc, rt_ClusterScope rt = Some sc -> ClusterLocked_ d = true -> unlocked sc q l)) h ->
  meets P (ClusterLock d rt h).
Proof.
  intros HP Hh wr q w Hw Hi Hq Hg. unfold ClusterLock. destruct (rt_ClusterScope rt) as [sc|]; [|by apply Hh].
  destruct (ClusterLocked_ d); cbn [negb]; [|by apply Hh].
  apply wp_bind. eapply wp_post; [by apply scope_spec|]. intros [c|e] w1 I1 [E1 Hc]; [|by apply safe_deny]. specialize (Hc c eq_refl).
  apply wp_bind. eapply wp_post; [by apply check_spec|]. intros [[]|e] w2 I2 [E2 Hu]; [|by apply safe_deny].
  apply Hh; [done..|]. split; [eapply ground_ext; [done| |done]; by eapply ext_trans|]. intros sc' [= <-] _.
  destruct E2 as [_ [new L2]]. rewrite L2 in *. apply (named_unlocked _ _ _ c); [by apply names_lasts|by apply Hu].
Qed.

Lemma authz_meets (P : ground) h : lasting P ->
  meets (fun q s l => P q s l /\ (rt_RequiresSession rt = true ->
    wall_vouches rt q l \/ exists u, account_vouches d q s l u /\ AtLeast (Role u) (rt_MinRole rt) = true)) h ->
  meets P (Authz d rt h).
Proof.
  intros HP Hh wr q w Hw Hi Hq Hg. unfold Authz. destruct (rt_RequiresSession rt); cbn [negb]; [|by apply Hh].
  apply wp_bind. eapply wp_post; [by apply wall_spec|]. intros b w1 I1 [E1 Hb]. apply wp_bind. destruct b.
  - apply wp_ret; [done|]. apply Hh; [done..|]. split; [by eapply ground_ext|]. intros _. left. by apply Hb.
  - apply wp_bind. eapply wp_post; [by apply current_user_spec|]. intros who w2 I2 [E2 Hu]. apply wp_ret; [done|].
    destruct who as [u|]; [|by apply safe_deny]. destruct (AtLeast _ _) eqn:Ea; [|by apply safe_deny].
    apply Hh; [done..|]. split; [eapply ground_ext; [done| |done]; by eapply ext_trans|]. intros _. right. exists u. split; [by apply Hu|done].
Qed.

Lemma attempt_spec q action srcIP params w : inv w ->
  wp any inv (auditAttempt d q action srcIP params) (fun r w1 => ext w w1 /\ forall seq, r = Ok seq -> EAttempt action seq ∈ h_log w1) w.
Proof.
  intros Hi. unfold auditAttempt. destruct (Audit_ d); cbn [negb]; [|nobody].
  apply wp_bind. eapply wp_post; [by apply current_user_spec|]. intros who w1 I1 [E1 _]. cbv zeta. apply wp_bind.
  assert (Hrest : forall params w2, ext w w2 -> inv w2 -> wp any inv (s ← auth (call SessionGet);
      call (HAttempt (match who with Some u => Username u | None => "anonymous" end) (stoken s) srcIP action params))
      (fun r w3 => ext w w3 /\ forall seq, r = Ok seq -> EAttempt action seq ∈ h_log w3) w2).
  { intros params' w2 E2 I2. apply wp_bind, wp_session; [done|]. intros w3 E3 I3.
    apply (wp_chain (HAttempt _ _ _ _ _) _ _ (fun r => match r with Ok seq => [EAttempt action seq] | Err _ => [] end)); [done|by intros []; repeat constructor|done|].
    intros r w4 E4 I4 L4. split; [eapply ext_trans; [done|]; by eapply ext_trans|]. intros seq ->. rewrite L4. apply list_elem_of_here. }
  case_bool_decide; [apply wp_ret; [done|]; by apply Hrest|].
  apply wp_bind, wp_auth; [done..|]. intros r w2 E2 I2 _. apply wp_ret; [done|]. apply Hrest; [by eapply ext_trans|done].
Qed.

Lemma audit_meets (P : ground) h : lasting P ->
  meets (fun q s l => P q s l /\
    (rt_Action rt <> "" -> IsMutating (rt_Method rt) || rt_AuditRead rt = true -> exists seq, EAttempt (rt_Action rt) seq ∈ l)) h ->
  meets P (Audit d rt h).
Proof.
  intros HP Hh wr q w Hw Hi Hq Hg. unfold Audit. destruct (_ || negb _) eqn:Ea.
  - apply Hh; [done..|]. split; [done|]. intros Hne Hm. rewrite Hm, bool_decide_false in Ea by done. done.
  - apply wp_bind. eapply wp_post; [by apply attempt_spec|]. intros r w1 I1 [E1 Hr]. destruct r as [seq|e]; [|by apply safe_deny].
    apply safe_bind; [apply Hh; [done..|]; split; [by eapply ground_ext|]; intros _ _; exists seq; by apply Hr|].
    intros [answer|abort] w2 I2; [|by apply safe_ret]. destruct (outcome_of _ _) as [outcome cause].
    apply safe_bind; [apply (wp_chain (HOutcome seq outcome cause) _ _ (fun _ => [EOutcome seq outcome])); [done|repeat constructor|done|done]|].
    intros r w3 I3. by apply safe_ret.
Qed.

Lemma anon_meets (P : ground) h : lasting P -> meets P h -> meets P (match anonLimit rt with Some m => m h | None => h end).
Proof.
  intros HP Hh. unfold anonLimit. destruct (anonLimited rt); [|done]. intros wr q w Hw Hi Hq Hg.
  apply wp_bind, wp_call; [done|]. intros x _. split; [done|]. cbn [act http_handler fst snd]. case_bool_decide; [by apply safe_deny|by apply Hh].
Qed.

Lemma authn_meets (P : ground) h : lasting P -> meets P h -> meets P (Authn d rt h).
Proof.
  intros HP Hh wr q w Hw Hi Hq Hg. unfold Authn. destruct (rt_RequiresSession rt); cbn [negb]; [|by apply Hh].
  apply wp_bind. eapply wp_post; [by apply current_user_spec|]. intros who w1 I1 [E1 _]. apply wp_bind. case_bool_decide.
  - apply wp_ret; [done|]. apply Hh; [done..|by eapply ground_ext].
  - eapply wp_post; [by apply wall_spec|]. intros [] w2 I2 [E2 _]; [|by apply safe_deny]. apply Hh; [done..|]. eapply ground_ext; [done| |done]. by eapply ext_trans.
Qed.

Lemma csrf_meets (P : ground) h :
  meets (fun q s l => P q s l /\ (IsMutating (rq_method q) = true -> is_Some (rq_actor q) \/ checkCSRF q = true)) h -> meets P (CSRF h).
Proof.
  intros Hh wr q w Hw Hi Hq Hg. unfold CSRF. destruct (IsMutating _) eqn:Em; cbn [negb]; [|apply Hh; [done..|]; split; [done|by rewrite Em]].
  unfold tokenAuthenticated. case_bool_decide; [apply Hh; [done..|]; split; [done|by left]|].
  destruct (checkCSRF q) eqn:Ec; [|by apply safe_deny]. apply Hh; [done..|]. split; [done|by right].
Qed.

Lemma lasting_and (P Q : ground) : lasting P -> lasting Q -> lasting (fun q s l => P q s l /\ Q q s l).
Proof. intros HP HQ q s l new [H1 H2]. split; [by apply HP|by apply HQ]. Qed.

Lemma meets_weaken (P Q : ground) h : (forall q s l, P q s l -> Q q s l) -> meets Q h -> meets P h.
Proof. intros HPQ Hh wr q w Hw Hi Hq Hg. apply Hh; [done..|]. by apply HPQ. Qed.

(** What holds when the chain of the route is entered. *)
Definition entered (q : request) (s : session) (l : list event) : Prop :=
  host_allowed (AllowedHosts d) (rq_host q) = true /\ forall u, rq_actor q = Some u -> token_vouches q l u.

Lemma in_app_r {A} (e : A) l new : e ∈ l -> e ∈ new ++ l.
Proof. intros. apply elem_of_app. by right. Qed.

Ltac lasts := intros q s l new; naive_solver eauto using in_app_r.

Lemma entered_lasting : lasting entered.
Proof.
  intros q s l new [H1 H2]. split; [done|]. intros u Hu. destruct (H2 u Hu) as ((us & L1 & L2) & T2 & T3 & T4 & T5). split_and!; try done.
  - exists us. split; [by apply in_app_r|done].
  - destruct T5 as [?|(t & ? & ?)]; [by left|right; exists t; split; [by apply in_app_r|done]].
Qed.

Lemma session_vouches_lasts s l new u : session_vouches d s l u -> session_vouches d s (new ++ l) u.
Proof. intros (V1 & V2 & V3 & V4 & t & V5 & V6). split_and!; try done; [by apply in_app_r|]. exists t. split; [by apply in_app_r|done]. Qed.

Lemma wrapRoute_meets : meets entered (wrapRoute d rt).
Proof.
  unfold wrapRoute, Chain. cbn [foldr]. apply csrf_meets.
  set (P1 := fun q s l => entered q s l /\ _). assert (L1 : lasting P1) by (apply lasting_and; [apply entered_lasting|lasts]).
  apply authn_meets, anon_meets; [done..|]. apply audit_meets; [done|].
  set (P2 := fun q s l => P1 q s l /\ _). assert (L2 : lasting P2) by (apply lasting_and; [done|lasts]).
  apply authz_meets; [done|].
  set (P3 := fun q s l => P2 q s l /\ _). assert (L3 : lasting P3).
  { apply lasting_and; [done|]. intros q s l new Hv Hs. destruct (Hv Hs) as [(Hw & st & x & W1 & W2)|(u & Hu & Ha)].
    - left. split; [done|]. exists st, x. split; [by apply in_app_r|done].
    - right. exists u. split; [|done]. unfold account_vouches in *. destruct (rq_actor q); [done|]. by apply session_vouches_lasts. }
  apply lock_meets; [done|].
  set (P4 := fun q s l => P3 q s l /\ _). assert (L4 : lasting P4).
  { apply lasting_and; [done|]. intros q s l new Hu sc Es Ed. by apply unlocked_lasts, (Hu sc). }
  apply sudo_meets; [done|]. eapply meets_weaken; [|apply handler_meets]. intros q s l (((((( H1 & H2) & H3) & H4) & H5) & H6) & H7). by constructor.
Qed.

Lemma serve_safe w : rq_actor q0 = None -> inv w -> safe (serve_route d rt q0) w.
Proof.
  intros Ha Hi. unfold serve_route, Chain. cbn [foldr]. unfold AllowHosts. destruct (host_allowed _ _) eqn:Eh; [|by apply safe_deny; [apply writer_writes|]].
  unfold Recover. apply safe_bind.
  - unfold RequestID. apply wp_bind, wp_call; [done|]. intros x _. split; [done|]. cbn [act http_handler fst snd].
    set (q := with_id (hx_id x) q0). assert (Hq : same_request q0 q) by by exists (hx_id x), (rq_actor q0).
    unfold BearerToken. case_bool_decide.
    + apply wrapRoute_meets; [apply writer_writes|done|done|]. split; [done|]. intros v Hv. cbn in Hv. congruence.
    + apply wp_bind. eapply wp_post; [by apply token_spec|]. intros [u|e] w1 I1 [E1 Hu].
      * apply wrapRoute_meets; [apply writer_writes|done|by exists (hx_id x), (Some u)|]. split; [done|]. intros u' [= <-]. by apply Hu.
      * apply wrapRoute_meets; [apply writer_writes|done|done|]. split; [done|]. intros v Hv. cbn in Hv. congruence.
  - intros [answer|[]] w1 I1; [by apply safe_ret..|]. by apply safe_deny; [apply writer_writes|].
Qed.

Lemma sound_served l newer rt' q' s told : sound d rt q0 l -> l = newer ++ EServe rt' q' s :: told -> rt' = rt /\ same_request q0 q' /\ admitted d rt q' s told.
Proof. intros Hs ->. induction newer as [|e newer IH]; [apply Hs|]. apply IH. by destruct e; try apply Hs. Qed.

End Safety.

Section Gates.
Context `{AuthLib} `{HttpLib}.

(** C10: No handler runs but past every gate. Whatever the stores answer, other requests
    do in between, and wherever the request is cut short: when the handler of a route
    runs for a request, it is this route and this request; the host is one that is
    answered to; an account a token was resolved to was read for this request, holds the
    digest of what the request carries and had not expired; a request that changes
    something without a token passed the three checks against forgery; a route that
    requires a session has an account, of the token or of a live session, with at least
    the role the route names, or it takes links of wall screens and the request carries
    one on record; the intent is in the audit log already, when the route has an action
    and changes something or is marked; the cluster named by the path, or the one
    the machine of the path is recorded in, was found unlocked, when there is one; for
    the routes that take the cluster from the body the one the body names was, and a
    body that names none is let through, though its machine be in a locked cluster
    ([lock_left_out]); and for a destructive route the session's password was given again within the window,
    unless there is a token. *)
Theorem handlers_run_admitted (d : Deps) (rt rt' : Route) (q q' : request) (xs rest : list httpChoice) (w w' : HttpWorld) o newer s told :
  rq_actor q = None -> h_log w = [] -> run (serve_route d rt q) xs w = (o, rest, w') -> h_log w' = newer ++ EServe rt' q' s :: told ->
  rt' = rt /\ same_request q q' /\ admitted d rt q' s told.
Proof.
  intros Ha Hl Hr He. assert (Hi : inv d rt q w) by (unfold inv; by rewrite Hl).
  destruct (wp_run _ _ _ _ _ _ _ _ _ (serve_safe d rt q w Ha Hi) ltac:(by apply Forall_true) Hr) as (Hs & _). by eapply sound_served.
Qed.

End Gates.

(* ------------------------------------------------------------------ *)
(** ** A concrete request *)

Module Gate_example.
#[local] Existing Instance Concrete.lib.
#[local] Instance web : HttpLib := {| parse_media_type s := Some s; parse_url s := match cut_prefix "https://" s with Some h => Some ("https", h) | None => None end |}.

Definition delete_user : Route := mkRoute "DELETE" "/api/v1/users/{id}" true true false RoleAdmin "user.delete" false false None.
Definition deps : Deps := mkDeps ["manager.lan"] 0 (12 * hour)%Z true true true.
Definition headers (k : string) : string :=
  if bool_decide (k = "Content-Type") then "application/json" else if bool_decide (k = CSRFHeader) then "1"
  else if bool_decide (k = "Origin") then "https://Manager.lan:8443" else "".
Definition ask : request := mkRequest "DELETE" "/api/v1/users/u-bob" "manager.lan:8443" "192.0.2.7:50000" true headers NoBody None
  (fun k => if bool_decide (k = "id") then "u-bob" else "") "" None.
Definition other_host : request := mkRequest "DELETE" "/api/v1/users/u-bob" "evil.example:8443" "192.0.2.7:50000" true headers NoBody None (fun _ => "") "" None.

Definition answers (t : time) : httpChoice :=
  mkHttpChoice (Concrete.at_time t) "req-1" 0 (Ok 7%Z) (Ok tt) (Ok "c-1") (Ok true) (Served (mkResponse 204 None)) (fun w => w).
Definition begun (a : World) : HttpWorld := mkHttp a [].
(** Signed in at noon; the password given again, or not. *)
Definition with_sudo : World := (run OpenSudoWindow (Concrete.calls 9 Concrete.noon) Concrete.signed_in).2.
Definition outcome_of_route (rt : Route) (a : World) (q : request) (t : time) : option served :=
  (run (serve_route deps rt q) (repeat (answers t) 60) (begun a)).1.1.
Definition outcome_at (a : World) (q : request) (t : time) : option served :=
  (run (serve_route deps delete_user q) (repeat (answers t) 60) (begun a)).1.1.

Example served_with_sudo : outcome_at with_sudo ask (Concrete.noon + minute)%Z = Some (Served (mkResponse 204 None)).
Proof. by vm_compute. Qed.
Example refused_without_sudo : outcome_at Concrete.signed_in ask (Concrete.noon + minute)%Z = Some (Served SudoRequired).
Proof. by vm_compute. Qed.
Example refused_late : outcome_at with_sudo ask (Concrete.noon + 13 * hour)%Z = Some (Served Unauthenticated).
Proof. by vm_compute. Qed.
Example refused_elsewhere : outcome_at with_sudo other_host (Concrete.noon + minute)%Z = Some (Served ForbiddenHost).
Proof. by vm_compute. Qed.

(** Two ways to turn a machine of a locked cluster off: the cluster the request is held
    against is the machine's own, or the one the body names. *)
Definition power_stop : Route := mkRoute "POST" "/api/v1/machines/{id}/power/stop" true true false RoleOperator "node.stop" false false (Some machineClusterFromPath).
Definition node_shutdown : Route := mkRoute "POST" "/api/v1/machines/{id}/shutdown" true true false RoleOperator "node.shutdown" false false (Some clusterFromBody).
Definition post (path : string) (cluster : option string) : request :=
  mkRequest "POST" path "manager.lan:8443" "192.0.2.7:50000" true headers NoBody cluster (fun k => if bool_decide (k = "id") then "m-1" else "") "" None.

Example lock_by_the_machine : outcome_of_route power_stop with_sudo (post "/api/v1/machines/m-1/power/stop" None) (Concrete.noon + minute)%Z = Some (Served ClusterLocked).
Proof. by vm_compute. Qed.
Example lock_by_the_body : outcome_of_route node_shutdown with_sudo (post "/api/v1/machines/m-1/shutdown" (Some "c-1")) (Concrete.noon + minute)%Z = Some (Served ClusterLocked).
Proof. by vm_compute. Qed.
Example lock_left_out : outcome_of_route node_shutdown with_sudo (post "/api/v1/machines/m-1/shutdown" None) (Concrete.noon + minute)%Z = Some (Served (mkResponse 204 None)).
Proof. by vm_compute. Qed.

(** The place of a handler's turn in a log. *)
Fixpoint turn (l : list event) : option (list event * (Route * request * session) * list event) :=
  match l with
  | [] => None
  | EServe rt q s :: told => Some ([], (rt, q, s), told)
  | e :: l => match turn l with Some (n, x, told) => Some (e :: n, x, told) | None => None end
  end.

Lemma turn_place l n rt q s told : turn l = Some (n, (rt, q, s), told) -> l = n ++ EServe rt q s :: told.
Proof.
  revert n. induction l as [|e l IH]; intros n; [done|]. cbn [turn].
  destruct e; try (destruct (turn l) as [[[n' x] t']|]; [|done]; intros [= <- -> ->]; cbn; f_equal; by apply IH). by intros [= <- -> -> -> ->].
Qed.

(** The request reaches the handler, with the session of its account. *)
Lemma ask_reaches :
  exists o rest w' n rt q s told, run (serve_route deps delete_user ask) (repeat (answers (Concrete.noon + minute)%Z) 60) (begun with_sudo) = (o, rest, w') /\
    h_log w' = n ++ EServe rt q s :: told /\ get_string s sessionKeyUser = "u-ann".
Proof.
  assert (Hs : (match turn (h_log (run (serve_route deps delete_user ask) (repeat (answers (Concrete.noon + minute)%Z) 60) (begun with_sudo)).2) with
    | Some (_, (_, s), _) => get_string s sessionKeyUser | None => "" end) = "u-ann") by by vm_compute.
  destruct (run (serve_route deps delete_user ask) _ _) as [[o rest] w'] eqn:E. cbn [snd] in Hs.
  destruct (turn (h_log w')) as [[[n [[rt q] s]] told]|] eqn:Et; [|done]. exists o, rest, w', n, rt, q, s, told.
  split; [done|]. split; [by apply turn_place|done].
Qed.

Lemma handlers_run_admitted_witness :
  exists q s told, same_request ask q /\ admitted deps delete_user q s told /\ get_string s sessionKeyUser = "u-ann".
Proof.
  destruct ask_reaches as (o & rest & w' & n & rt & q & s & told & E & Et & Hs). exists q, s, told.
  destruct (handlers_run_admitted deps delete_user rt ask q _ rest (begun with_sudo) w' o n s told eq_refl eq_refl E Et) as (_ & Hq & Ha). by split_and!.
Defined.

End Gate_example.
