(* ===== verification/Routes.v ===== *)
(** * The routes

    The table of routes the program is composed with: the declarations of
    [src/internal/httpapi/handlers], each with its method and pattern, whether it is
    destructive, requires a session and takes links of wall screens, the least role, the
    action it is audited under, whether a read of it is audited, whether it streams, and
    where its cluster is named. The routes of an identity provider exist when one is
    configured, those of a change of authority when jobs are. *)

From S2P Require Import Prelude Effects RecordStore AuditRecord AuditRedact Power PowerService Auth AuthSafety HttpGates HttpSafety.

Definition SystemRoutes : list Route :=
  [ mkRoute "GET" "/api/v1/system/version" false true false RoleReader "system.version" false false None;
    mkRoute "GET" "/api/v1/system/status" false false false "" "system.status" false false None ].

Definition SetupRoutes : list Route :=
  [ mkRoute "POST" "/api/v1/setup" false false false "" "setup.create" false false None ].

Definition AuthRoutes : list Route :=
  [ mkRoute "POST" "/api/v1/auth/login" false false false "" "auth.login" false false None;
    mkRoute "POST" "/api/v1/auth/logout" false true false RoleReader "auth.logout" false false None;
    mkRoute "GET" "/api/v1/auth/me" false true false RoleReader "auth.me" false false None;
    mkRoute "POST" "/api/v1/auth/sudo" false true false RoleReader "auth.sudo" false false None ].

Definition OIDCRoutes : list Route :=
  [ mkRoute "GET" "/api/v1/auth/oidc/start" false false false "" "auth.oidc.start" false false None;
    mkRoute "GET" "/api/v1/auth/oidc/sudo" false true false RoleReader "auth.oidc.sudo" false false None;
    mkRoute "GET" "/api/v1/auth/oidc/callback" false false false "" "auth.oidc.callback" false false None;
    mkRoute "GET" "/api/v1/auth/oidc/logout" false true false RoleReader "auth.oidc.logout" false false None ].

Definition AccountRoutes : list Route :=
  [ mkRoute "POST" "/api/v1/account/password" true true false RoleReader "account.password" false false None ].

Definition UserRoutes : list Route :=
  [ mkRoute "GET" "/api/v1/users" false true false RoleAdmin "" false false None;
    mkRoute "POST" "/api/v1/users" true true false RoleAdmin "user.create" false false None;
    mkRoute "POST" "/api/v1/service-accounts" true true false RoleAdmin "service-account.create" false false None;
    mkRoute "POST" "/api/v1/service-accounts/{id}/token" true true false RoleAdmin "service-account.rotate" false false None;
    mkRoute "POST" "/api/v1/users/{id}/role" true true false RoleAdmin "user.role" false false None;
    mkRoute "POST" "/api/v1/users/{id}/password" true true false RoleAdmin "user.password-reset" false false None;
    mkRoute "DELETE" "/api/v1/users/{id}" true true false RoleAdmin "user.delete" false false None;
    mkRoute "DELETE" "/api/v1/users/{id}/identity" true true false RoleAdmin "user.identity-unlink" false false None ].

Definition WallLinkRoutes : list Route :=
  [ mkRoute "GET" "/api/v1/wall-links" false true false RoleAdmin "wall-link.list" false false None;
    mkRoute "POST" "/api/v1/wall-links" true true false RoleAdmin "wall-link.create" false false None;
    mkRoute "DELETE" "/api/v1/wall-links/{id}" true true false RoleAdmin "wall-link.revoke" false false None ].

Definition AuditRoutes : list Route :=
  [ mkRoute "GET" "/api/v1/audit" false true false RoleAdmin "audit.list" false false None ].

Definition SchematicRoutes : list Route :=
  [ mkRoute "GET" "/api/v1/factory/versions" false true false RoleReader "" false false None;
    mkRoute "GET" "/api/v1/factory/extensions" false true false RoleReader "" false false None;
    mkRoute "POST" "/api/v1/schematics" false true false RoleOperator "schematic.create" false false None;
    mkRoute "GET" "/api/v1/schematics" false true false RoleReader "" false false None;
    mkRoute "GET" "/api/v1/schematics/{id}" false true false RoleReader "" false false None;
    mkRoute "GET" "/api/v1/schematics/{id}/assets" false true false RoleReader "" false false None;
    mkRoute "DELETE" "/api/v1/schematics/{id}" true true false RoleOperator "schematic.delete" false false None ].

Definition InventoryRoutes : list Route :=
  [ mkRoute "GET" "/api/v1/clusters" false true false RoleReader "" false false None;
    mkRoute "GET" "/api/v1/clusters/{id}" false true false RoleReader "" false false None;
    mkRoute "POST" "/api/v1/clusters/fingerprint" false true false RoleOperator "cluster.fingerprint" false false None;
    mkRoute "POST" "/api/v1/clusters" false true false RoleOperator "cluster.import" false false None;
    mkRoute "POST" "/api/v1/clusters/create" false true false RoleOperator "cluster.create" false false None;
    mkRoute "GET" "/api/v1/clusters/{id}/talosconfig" false true false RoleAdmin "cluster.talosconfig" true false None;
    mkRoute "GET" "/api/v1/clusters/{id}/kubeconfig" false true false RoleAdmin "cluster.kubeconfig" true false None;
    mkRoute "POST" "/api/v1/clusters/{id}/lock" true true false RoleAdmin "cluster.lock" false false None;
    mkRoute "DELETE" "/api/v1/clusters/{id}" true true false RoleAdmin "cluster.forget" false false None;
    mkRoute "GET" "/api/v1/machines" false true false RoleReader "" false false None;
    mkRoute "GET" "/api/v1/machines/{id}" false true false RoleReader "" false false None;
    mkRoute "POST" "/api/v1/machines" false true false RoleOperator "machine.add" false false (Some clusterFromBody);
    mkRoute "POST" "/api/v1/machines/{id}/refresh" false true false RoleReader "machine.refresh" false false None;
    mkRoute "GET" "/api/v1/machines/{id}/hardware" false true false RoleReader "" false false None;
    mkRoute "DELETE" "/api/v1/machines/{id}" true true false RoleOperator "machine.forget" false false None ].

Definition LabelRoutes : list Route :=
  [ mkRoute "PUT" "/api/v1/machines/{id}/labels" false true false RoleOperator "machine.labels" false false None;
    mkRoute "GET" "/api/v1/machine-classes" false true false RoleReader "" false false None;
    mkRoute "PUT" "/api/v1/machine-classes/{id}" false true false RoleOperator "machine-class.put" false false None;
    mkRoute "DELETE" "/api/v1/machine-classes/{id}" false true false RoleOperator "machine-class.delete" false false None ].

Definition TemplateRoutes : list Route :=
  [ mkRoute "POST" "/api/v1/cluster-templates/plan" false true false RoleReader "cluster-template.plan" false false None;
    mkRoute "GET" "/api/v1/clusters/{id}/template" false true false RoleReader "" false false None ].

Definition ScaleRoutes : list Route :=
  [ mkRoute "GET" "/api/v1/clusters/{id}/scale" false true false RoleReader "" false false None ].

Definition RotateRoutes : list Route :=
  [ mkRoute "POST" "/api/v1/clusters/{id}/client-certificate" true true false RoleOperator "cluster.renew-client-certificate" false false None ].

Definition AuthorityRoutes : list Route :=
  [ mkRoute "GET" "/api/v1/clusters/{id}/authority" false true false RoleReader "cluster.authority-preview" false false None;
    mkRoute "POST" "/api/v1/clusters/{id}/authority/confirm" false true false RoleOperator "cluster.authority-confirm" false false None;
    mkRoute "POST" "/api/v1/clusters/{id}/authority" true true false RoleOperator "cluster.rotate-ca" false false (Some clusterIDFromPath) ].

Definition KubernetesRoutes_1 : list Route :=
  [ mkRoute "GET" "/api/v1/clusters/{id}/kubernetes" false true false RoleReader "cluster.kubernetes-overview" false false None;
    mkRoute "POST" "/api/v1/clusters/{id}/kubernetes/nodes/{node}/cordon" true true false RoleOperator "cluster.kubernetes-cordon" false false (Some clusterIDFromPath);
    mkRoute "POST" "/api/v1/clusters/{id}/kubernetes/nodes/{node}/drain" true true false RoleOperator "node.drain" false false (Some clusterIDFromPath);
    mkRoute "POST" "/api/v1/clusters/{id}/kubernetes/pods/{namespace}/{pod}/restart" true true false RoleOperator "cluster.kubernetes-restart-pod" false false (Some clusterIDFromPath);
    mkRoute "POST" "/api/v1/clusters/{id}/kubernetes/deployments/{namespace}/{deployment}/scale" true true false RoleOperator "cluster.kubernetes-scale" false false (Some clusterIDFromPath);
    mkRoute "POST" "/api/v1/clusters/{id}/kubernetes/deployments/{namespace}/{deployment}/restart" true true false RoleOperator "cluster.kubernetes-rollout-restart" false false (Some clusterIDFromPath);
    mkRoute "POST" "/api/v1/clusters/{id}/kubernetes/manifest/plan" false true false RoleOperator "cluster.kubernetes-manifest-plan" false false None;
    mkRoute "POST" "/api/v1/clusters/{id}/kubernetes/manifest/apply" true true false RoleOperator "cluster.kubernetes-manifest-apply" false false (Some clusterIDFromPath);
    mkRoute "POST" "/api/v1/clusters/{id}/kubernetes/services/{namespace}/{service}/proxy" false true false RoleOperator "cluster.kubernetes-service-proxy" false false None ].

Definition KubernetesRoutes_2 : list Route :=
  [ mkRoute "GET" "/api/v1/clusters/{id}/kubernetes/pods/{namespace}/{pod}/containers" false true false RoleReader "cluster.kubernetes-containers" false false None;
    mkRoute "GET" "/api/v1/clusters/{id}/kubernetes/pods/{namespace}/{pod}/log" false true false RoleReader "cluster.kubernetes-logs" true false None;
    mkRoute "GET" "/api/v1/clusters/{id}/kubernetes/events" false true false RoleReader "cluster.kubernetes-events" false false None;
    mkRoute "GET" "/api/v1/clusters/{id}/kubernetes/pods/{namespace}/{pod}/events" false true false RoleReader "cluster.kubernetes-pod-events" false false None;
    mkRoute "POST" "/api/v1/clusters/{id}/kubernetes/object" false true false RoleOperator "cluster.kubernetes-object" false false None;
    mkRoute "GET" "/api/v1/clusters/{id}/kubernetes/identity" false true false RoleOperator "cluster.kubernetes-identity" false false None;
    mkRoute "POST" "/api/v1/clusters/{id}/kubernetes/identity" true true false RoleAdmin "cluster.kubernetes-set-identity" false false (Some clusterIDFromPath);
    mkRoute "GET" "/api/v1/clusters/{id}/kubernetes/workloads" false true false RoleReader "cluster.kubernetes-workloads" false false None;
    mkRoute "POST" "/api/v1/clusters/{id}/kubernetes/workloads/{kind}/{namespace}/{name}/scale" true true false RoleOperator "cluster.kubernetes-scale-workload" false false (Some clusterIDFromPath);
    mkRoute "POST" "/api/v1/clusters/{id}/kubernetes/workloads/{kind}/{namespace}/{name}/restart" true true false RoleOperator "cluster.kubernetes-restart-workload" false false (Some clusterIDFromPath);
    mkRoute "GET" "/api/v1/clusters/{id}/kubernetes/resources" false true false RoleReader "cluster.kubernetes-resources" false false None ].

Definition KubernetesRoutes_3 : list Route :=
  [ mkRoute "POST" "/api/v1/clusters/{id}/kubernetes/delete" true true false RoleOperator "cluster.kubernetes-delete-object" false false (Some clusterIDFromPath);
    mkRoute "GET" "/api/v1/clusters/{id}/kubernetes/nodes/{node}" false true false RoleReader "cluster.kubernetes-node-detail" false false None;
    mkRoute "GET" "/api/v1/clusters/{id}/kubernetes/usage" false true false RoleReader "cluster.kubernetes-usage" false false None;
    mkRoute "GET" "/api/v1/clusters/{id}/kubernetes/apps" false true false RoleReader "cluster.kubernetes-apps" false false None;
    mkRoute "GET" "/api/v1/clusters/{id}/kubernetes/apps/{namespace}/{kind}/{name}" false true false RoleReader "cluster.kubernetes-app" false false None;
    mkRoute "POST" "/api/v1/clusters/{id}/kubernetes/pods/{namespace}/{pod}/exec" true true false RoleAdmin "cluster.kubernetes-exec" false false (Some clusterIDFromPath);
    mkRoute "GET" "/api/v1/clusters/{id}/wall" false true true RoleReader "cluster.wall" false false None;
    mkRoute "GET" "/api/v1/clusters/{id}/kubernetes/inventory" false true false RoleReader "cluster.kubernetes-inventory" false false None;
    mkRoute "GET" "/api/v1/clusters/{id}/kubernetes/access" false true false RoleOperator "cluster.kubernetes-access" false false None;
    mkRoute "GET" "/api/v1/clusters/{id}/kubernetes/storage" false true false RoleReader "cluster.kubernetes-storage" false false None;
    mkRoute "GET" "/api/v1/clusters/{id}/kubernetes/network" false true false RoleReader "cluster.kubernetes-network" false false None;
    mkRoute "GET" "/api/v1/clusters/{id}/kubernetes/capacity" false true false RoleReader "cluster.kubernetes-capacity" false false None ].

Definition KubernetesRoutes_4 : list Route :=
  [ mkRoute "POST" "/api/v1/clusters/{id}/kubernetes/workloads/{kind}/{namespace}/{name}/stop" true true false RoleOperator "cluster.kubernetes-stop" false false (Some clusterIDFromPath);
    mkRoute "POST" "/api/v1/clusters/{id}/kubernetes/workloads/{kind}/{namespace}/{name}/start" true true false RoleOperator "cluster.kubernetes-start" false false (Some clusterIDFromPath);
    mkRoute "GET" "/api/v1/clusters/{id}/kubernetes/sweep" false true false RoleOperator "cluster.kubernetes-sweep-plan" false false None;
    mkRoute "POST" "/api/v1/clusters/{id}/kubernetes/sweep" true true false RoleOperator "cluster.kubernetes-sweep" false false (Some clusterIDFromPath) ].

Definition KubernetesRoutes : list Route := KubernetesRoutes_1 ++ KubernetesRoutes_2 ++ KubernetesRoutes_3 ++ KubernetesRoutes_4.

Definition StreamRoutes : list Route :=
  [ mkRoute "GET" "/api/v1/stream" false true false RoleReader "" false true None ].

Definition JobRoutes : list Route :=
  [ mkRoute "GET" "/api/v1/jobs" false true false RoleReader "" false false None;
    mkRoute "GET" "/api/v1/jobs/{id}" false true false RoleReader "" false false None;
    mkRoute "POST" "/api/v1/jobs/{id}/cancel" false true false RoleOperator "job.cancel" false false None;
    mkRoute "GET" "/api/v1/machines/{id}/reset-preview" false true false RoleReader "" false false None;
    mkRoute "POST" "/api/v1/machines/{id}/confirm" false true false RoleOperator "action.confirm" false false None;
    mkRoute "POST" "/api/v1/machines/{id}/reboot" true true false RoleOperator "node.reboot" false false (Some clusterFromBody);
    mkRoute "POST" "/api/v1/machines/{id}/shutdown" true true false RoleOperator "node.shutdown" false false (Some clusterFromBody);
    mkRoute "POST" "/api/v1/machines/{id}/reset" true true false RoleOperator "node.reset" false false (Some clusterFromBody) ].

Definition ConfigRoutes : list Route :=
  [ mkRoute "GET" "/api/v1/machines/{id}/config" false true false RoleOperator "" false false None;
    mkRoute "POST" "/api/v1/machines/{id}/config/plan" false true false RoleOperator "config.plan" false false None;
    mkRoute "POST" "/api/v1/machines/{id}/config/apply" true true false RoleOperator "config.apply" false false (Some clusterFromBody);
    mkRoute "GET" "/api/v1/patches" false true false RoleOperator "" false false None;
    mkRoute "POST" "/api/v1/patches" false true false RoleOperator "patch.create" false false None;
    mkRoute "GET" "/api/v1/patches/{id}" false true false RoleOperator "" false false None ].

Definition ConfigDriftRoutes : list Route :=
  [ mkRoute "GET" "/api/v1/machines/{id}/config/drift" false true false RoleOperator "" false false None;
    mkRoute "POST" "/api/v1/machines/{id}/config/drift/confirm" true true false RoleAdmin "config.drift-confirm" false false None ].

Definition ProvisionRoutes : list Route :=
  [ mkRoute "GET" "/api/v1/provision/notices" false true false RoleReader "" false false None;
    mkRoute "POST" "/api/v1/provision/scan" false true false RoleOperator "provision.scan" false false None;
    mkRoute "POST" "/api/v1/provision/inspect" false true false RoleOperator "provision.inspect" false false None;
    mkRoute "POST" "/api/v1/provision/plan" false true false RoleOperator "provision.plan" false false None;
    mkRoute "POST" "/api/v1/provision/confirm" false true false RoleOperator "provision.confirm" false false None;
    mkRoute "POST" "/api/v1/provision/apply" true true false RoleOperator "provision.apply" false false (Some clusterFromBody);
    mkRoute "GET" "/api/v1/provision/bootstrap-recovery" false true false RoleReader "" false false None;
    mkRoute "POST" "/api/v1/provision/bootstrap-recovery/{cluster}" true true false RoleOperator "provision.bootstrap-resolve" false false (Some clusterFromPath) ].

Definition upgradeRoutes_1 : list Route :=
  [ mkRoute "GET" "/api/v1/upgrade/releases" false true false RoleReader "" false false None;
    mkRoute "GET" "/api/v1/upgrade/talos/check" false true false RoleReader "" false false None;
    mkRoute "GET" "/api/v1/clusters/{id}/upgrade/snapshot" false true false RoleReader "" false false None;
    mkRoute "POST" "/api/v1/clusters/{id}/upgrade/snapshot" false true false RoleOperator "upgrade.snapshot" false false (Some clusterIDFromPath);
    mkRoute "POST" "/api/v1/clusters/{id}/upgrade/plan" false true false RoleOperator "upgrade.plan" false false None;
    mkRoute "POST" "/api/v1/clusters/{id}/upgrade/kubernetes/plan" false true false RoleOperator "upgrade.plan-kubernetes" false false None;
    mkRoute "POST" "/api/v1/clusters/{id}/upgrade" true true false RoleOperator "upgrade.talos" false false (Some clusterIDFromPath);
    mkRoute "POST" "/api/v1/clusters/{id}/upgrade/kubernetes" true true false RoleOperator "upgrade.kubernetes" false false (Some clusterIDFromPath);
    mkRoute "POST" "/api/v1/clusters/{id}/upgrade/confirm" false true false RoleOperator "upgrade.confirm" false false None;
    mkRoute "GET" "/api/v1/clusters/{id}/etcd/members" false true false RoleReader "" false false None;
    mkRoute "DELETE" "/api/v1/clusters/{id}/etcd/members/{member}" true true false RoleOperator "etcd.remove-member" false false (Some clusterIDFromPath);
    mkRoute "GET" "/api/v1/clusters/{id}/etcd/snapshot" false true false RoleAdmin "etcd.snapshot" true true None;
    mkRoute "POST" "/api/v1/machines/{id}/etcd/restore" true true false RoleAdmin "etcd.restore" false false None;
    mkRoute "POST" "/api/v1/machines/{id}/lock" false true false RoleOperator "machine.lock" false false None ].

Definition upgradeRoutes_2 : list Route :=
  [ mkRoute "POST" "/api/v1/machines/{id}/remove-from-cluster" true true false RoleOperator "node.remove-from-cluster" false false (Some clusterFromBody) ].

Definition upgradeRoutes : list Route := upgradeRoutes_1 ++ upgradeRoutes_2.

Definition backupRoutes : list Route :=
  [ mkRoute "GET" "/api/v1/clusters/{id}/backups" false true false RoleReader "" false false None;
    mkRoute "PUT" "/api/v1/clusters/{id}/backups/schedule" true true false RoleAdmin "cluster.backup-schedule" false false None;
    mkRoute "POST" "/api/v1/clusters/{id}/backups/run" false true false RoleOperator "etcd.backup-run" false false None;
    mkRoute "GET" "/api/v1/clusters/{id}/backups/{name}" false true false RoleAdmin "etcd.backup-download" true true None ].

Definition AppPowerAction (a : Action) : string := "cluster.kubernetes-app-" +:+ action_text a.

Definition PowerRoutes : list Route :=
  [ mkRoute "GET" "/api/v1/clusters/{id}/power" false true false RoleReader "" false false None;
    mkRoute "GET" "/api/v1/machines/{id}/power" false true false RoleReader "" false false None;
    mkRoute "GET" "/api/v1/clusters/{id}/kubernetes/apps/{namespace}/{kind}/{name}/power" false true false RoleReader "" false false None ]
  ++ flat_map (fun a =>
  [ mkRoute "POST" ("/api/v1/clusters/{id}/power/" +:+ action_text a) (Power.Sudo a) true false RoleOperator (ClusterJobKind a) false false (Some clusterIDFromPath);
    mkRoute "POST" ("/api/v1/machines/{id}/power/" +:+ action_text a) (Power.Sudo a) true false RoleOperator (NodeJobKind a) false false (Some machineClusterFromPath);
    mkRoute "POST" ("/api/v1/clusters/{id}/kubernetes/apps/{namespace}/{kind}/{name}/power/" +:+ action_text a) (Power.Sudo a) true false RoleOperator (AppPowerAction a) false false (Some clusterIDFromPath) ]) Actions.

Definition HistoryRoutes : list Route :=
  [ mkRoute "GET" "/api/v1/machines/{id}/hardware/history" false true false RoleReader "" false false None;
    mkRoute "GET" "/api/v1/clusters/{id}/kubernetes/apps/{namespace}/{kind}/{name}/history" false true false RoleReader "" false false None;
    mkRoute "GET" "/api/v1/host/history" false true false RoleReader "" false false None ].

Definition SupportRoutes : list Route :=
  [ mkRoute "GET" "/api/v1/clusters/{id}/support-bundle" false true false RoleAdmin "support.bundle" true true None ].

Definition MetricsRoutes : list Route :=
  [ mkRoute "GET" "/metrics" false false false "" "" false false None ].

Definition HostActions : list string := ["reboot"; "poweroff"; "restart-service"; "update"; "check-update"].

Definition hostActionName (a : string) : string := "host." +:+ a.

Definition HostRoutes : list Route :=
  [ mkRoute "GET" "/api/v1/host" false true false RoleReader "" false false None;
    mkRoute "POST" "/api/v1/host/confirm" false true false RoleOperator "action.confirm" false false None ]
  ++ flat_map (fun a =>
  [ mkRoute "POST" ("/api/v1/host/actions/" +:+ a) true true false RoleOperator (hostActionName a) false false None ]) HostActions.

Definition UpgradeRoutes : list Route := upgradeRoutes ++ backupRoutes.

(** [routeTable]; [oidc] and [authority] say whether a provider and the engine of jobs
    are there. *)
Definition routeTable (oidc authority : bool) : list Route :=
  SystemRoutes ++ SetupRoutes ++ AuthRoutes ++ (if oidc then OIDCRoutes else []) ++ AccountRoutes ++ UserRoutes ++ WallLinkRoutes ++ AuditRoutes
  ++ SchematicRoutes ++ InventoryRoutes ++ LabelRoutes ++ TemplateRoutes ++ ScaleRoutes ++ RotateRoutes ++ (if authority then AuthorityRoutes else [])
  ++ KubernetesRoutes ++ StreamRoutes ++ JobRoutes ++ ConfigRoutes ++ ConfigDriftRoutes ++ ProvisionRoutes ++ UpgradeRoutes ++ PowerRoutes
  ++ HistoryRoutes ++ SupportRoutes ++ MetricsRoutes ++ HostRoutes.

(* ------------------------------------------------------------------ *)
(** ** What the table keeps to *)

(** What anyone may ask. *)
Definition open_to_all (rt : Route) : bool :=
  bool_decide ((rt_Method rt, rt_Pattern rt) ∈
    [("GET", "/api/v1/system/status"); ("POST", "/api/v1/setup"); ("POST", "/api/v1/auth/login"); ("GET", "/metrics");
     ("GET", "/api/v1/auth/oidc/start"); ("GET", "/api/v1/auth/oidc/callback")]).

Definition the_wall (rt : Route) : bool := bool_decide ((rt_Method rt, rt_Pattern rt) = ("GET", "/api/v1/clusters/{id}/wall")).

(** The one destructive route a reader may use: of the own password. *)
Definition own_password (rt : Route) : bool := bool_decide ((rt_Method rt, rt_Pattern rt) = ("POST", "/api/v1/account/password")).

Definition implies (a b : bool) : bool := negb a || b.

Definition kept (rt : Route) : bool :=
  route_ok rt && implies (IsMutating (rt_Method rt)) (negb (bool_decide (rt_Action rt = ""))) &&
  implies (rt_Destructive rt) (rt_RequiresSession rt && IsMutating (rt_Method rt) && negb (rt_WallLink rt) && (own_password rt || AtLeast (rt_MinRole rt) RoleOperator)) &&
  bool_decide (open_to_all rt = negb (rt_RequiresSession rt)) && bool_decide (the_wall rt = rt_WallLink rt) &&
  implies (negb (rt_RequiresSession rt) && IsMutating (rt_Method rt)) (anonLimited rt).

Lemma table_kept oidc authority rt : rt ∈ routeTable oidc authority -> kept rt = true.
Proof.
  assert (Ht : forallb kept (routeTable oidc authority) = true) by (destruct oidc, authority; by vm_compute).
  intros Hrt. by apply forallb_forall with (x := rt) in Ht; [|apply list_elem_of_In].
Qed.

Lemma implies_true a b : implies a b = true -> a = true -> b = true.
Proof. by destruct a, b. Qed.

(** A route is found by its method and pattern. *)
Lemma table_distinct oidc authority : NoDup ((fun rt => (rt_Method rt, rt_Pattern rt)) <$> routeTable oidc authority).
Proof. destruct oidc, authority; apply (bool_decide_unpack _); by vm_compute. Qed.

Lemma AtLeast_trans r want least : AtLeast r want = true -> AtLeast want least = true -> AtLeast r least = true.
Proof.
  unfold AtLeast. destruct (role_place (OrAdmin r)) as [a|]; [|done]. destruct (role_place want) as [b|] eqn:Eb; [|done]. intros Hab%bool_decide_eq_true.
  assert (Ew : role_place (OrAdmin want) = Some b).
  { unfold OrAdmin. case_bool_decide as E; [|done]. subst. by vm_compute in Eb. }
  rewrite Ew. destruct (role_place least) as [c|]; [|done]. intros Hbc%bool_decide_eq_true. apply bool_decide_eq_true. lia.
Qed.

Section Guarded.
Context `{AuthLib} `{HttpLib}.

(** C11: In the program's own table of routes nothing that changes or destroys goes
    unguarded. Whatever route of the table a request reaches the handler of, whatever
    the stores answer and other requests do: when the route changes something, the
    intent is in the audit log before; when it is destructive, an account asks, no link
    of a wall screen, of at least an operator's role unless it is for the own password,
    and its token was resolved or its
    session passed the checks against forgery and gave its password again within the
    window; and when it is not one of the six routes open to everybody, an account or a
    link of a wall screen asks, the link for the wall only. *)
Theorem nothing_goes_unguarded oidc authority (d : Deps) (rt rt' : Route) (q q' : request) (xs rest : list httpChoice) (w w' : HttpWorld) o newer s told :
  rt ∈ routeTable oidc authority -> rq_method q = rt_Method rt -> rq_actor q = None -> h_log w = [] ->
  run (serve_route d rt q) xs w = (o, rest, w') -> h_log w' = newer ++ EServe rt' q' s :: told ->
  (IsMutating (rt_Method rt) = true -> exists seq, EAttempt (rt_Action rt) seq ∈ told) /\
  (rt_Destructive rt = true ->
    (exists u, account_vouches d q' s told u /\ (own_password rt = true \/ AtLeast (Role u) RoleOperator = true)) /\
    (is_Some (rq_actor q') \/ checkCSRF q' = true /\ exists t, ENow t ∈ told /\ within s sessionKeySudoAt (sudo_window d) t = true)) /\
  (open_to_all rt = false ->
    (exists u, account_vouches d q' s told u /\ AtLeast (Role u) (rt_MinRole rt) = true) \/ the_wall rt = true /\ wall_vouches rt q' told).
Proof.
  intros Hrt Hm Ha Hl Hr He. pose proof (table_kept _ _ _ Hrt) as Hk. unfold kept in Hk.
  apply andb_prop in Hk as [[[[[_ K1]%andb_prop K2]%andb_prop K3]%andb_prop K4]%andb_prop _].
  apply bool_decide_eq_true in K3, K4. assert (Hi : inv d rt q w) by (unfold inv; by rewrite Hl).
  destruct (wp_run _ _ _ _ _ _ _ _ _ (serve_safe d rt q w Ha Hi) ltac:(by apply Forall_true) Hr) as (Hs & _).
  destruct (sound_served _ _ _ _ _ _ _ _ _ Hs He) as (-> & (id & actor & Hq') & Had).
  assert (Hm' : rq_method q' = rt_Method rt) by (by rewrite Hq').
  assert (Hacc : rt_RequiresSession rt = true -> (exists u, account_vouches d q' s told u /\ AtLeast (Role u) (rt_MinRole rt) = true) \/ the_wall rt = true /\ wall_vouches rt q' told).
  { intros Hreq. destruct (ad_account _ _ _ _ _ Had Hreq) as [Hw|Hu]; [right|by left]. split; [|done]. rewrite K4. apply Hw. }
  split_and!.
  - intros Hmut. apply (ad_audit _ _ _ _ _ Had); [|by rewrite Hmut]. pose proof (implies_true _ _ K1 Hmut) as Hne. by apply negb_true_iff, bool_decide_eq_false in Hne.
  - intros Hd. pose proof (implies_true _ _ K2 Hd) as Hx. apply andb_prop in Hx as [[[D1 D2]%andb_prop D3]%andb_prop D4]. split.
    + destruct (Hacc D1) as [(u & Hu & Hrole)|[_ Hw]]; [exists u; split; [done|]; apply orb_true_iff in D4 as [D4|D4]; [by left|right; by eapply AtLeast_trans]|]. apply negb_true_iff in D3. destruct Hw as [Hw _]. congruence.
    + destruct (ad_sudo _ _ _ _ _ Had Hd) as [Htok|Hsudo]; [by left|]. rewrite <- Hm' in D2. destruct (ad_csrf _ _ _ _ _ Had D2) as [Htok|Hc]; [by left|by right].
  - intros Ho. apply Hacc. rewrite Ho in K3. by destruct (rt_RequiresSession rt).
Qed.

End Guarded.

Module Table_example.
#[local] Existing Instance Concrete.lib.
#[local] Existing Instance Gate_example.web.
Import Gate_example.

Example routes_of_the_program : length (routeTable true true) = 173.
Proof. by vm_compute. Qed.


Lemma nothing_goes_unguarded_witness :
  exists q' s told u, (exists seq, EAttempt "user.delete" seq ∈ told) /\ account_vouches deps q' s told u /\ AtLeast (Role u) RoleOperator = true.
Proof.
  assert (Hin : delete_user ∈ routeTable true true) by (apply (bool_decide_unpack _); by vm_compute).
  destruct ask_reaches as (o & rest & w' & n & rt & q & s & told & E & Et & _).
  destruct (nothing_goes_unguarded true true deps delete_user rt ask q _ rest (begun with_sudo) w' o n s told Hin eq_refl eq_refl eq_refl E Et) as (H1 & H2 & _).
  destruct (H2 eq_refl) as [(u & Hu & [Hown|Hrole]) _]; [done|]. exists q, s, told, u. split; [exact (H1 eq_refl)|]. by split.
Defined.

End Table_example.
